(* ===== verification/_CoqProject ===== *)
-Q . S2P
Prelude.v
CString.v
LinkedList.v
RbTree.v
CText.v
Scan.v
HeadMatch.v
RangeMap.v
RangeIndex.v
RangeTable.v
Bucket.v
BucketInv.v
BucketThms.v
BeeDb.v
BeeDbThms.v
BeeSession.v
Pony.v
Monkey.v
Cookie.v
UrlParams.v
PostData.v
Dashboard.v
BeeSync.v
BeeSyncThms.v
BeeSyncStart.v
SfsFolder.v
H2Stream.v
H2StreamThms.v
Sfs.v
SfsThms.v
SfsUpload.v
Logger.v
LoggerInv.v
LoggerThms.v
BloomFilter.v
FileLru.v
FileLruInv.v
FileLruSteps.v
Session.v
H2Conn.v
H2ConnThms.v
HashLock.v
SessionPt.v
Chassis.v
Worker.v
