(* ===== verification/Prelude.v ===== *)
(** * A verification of the esq server

    esq ([src/]) is an event-driven application server in C: worker threads run
    "sessions" (sockets with callbacks, coroutines, waits for locks) that are scheduled by
    an event core over io_uring; HTTP/2, a key-value service ("bee"), a map of hash ranges
    and a few demonstration modules are built on it, over a set of small libraries.
    This development models the event core, the map of hash ranges, the key-value service
    with its client, the streams of HTTP/2 connections and the file service, the file cache,
    the dashboard, the logger, and the text, search and form libraries, and proves what makes
    them correct.

    ** How the parts of the program work together

    A worker ([session/worker.c]) repeats one turn: run the first active session; else pick
    up new sessions from the list all workers share and from its own; else wait for the
    kernel and pass on events, timeouts ([session/timing.c]) and the notice to exit.  All
    of these are requests to a session ([session/action.c]), which [session/chassis.c]
    gives to one of five state machines ([session/pt_of_*.c], protothreads whose state is
    a line number).  A machine moves its session between the worker's intrusive lists
    ([public/esqll.h]), talks to the kernel through [session/os_events.c], and asks its
    caller to free it, to switch it to another machine or to queue it.  Sessions may wait
    for hash locks ([session/hash_lock.c]).  Requests to the server reach a service
    through the longest matching path prefix ([libs/head-match-tree]) after their path has been
    decoded and checked ([libs/escape-percent], [libs/path-is-very-safe] and others);
    addresses and hashes in names and scripts are read by [libs/sscanf].
    Which servers keep the data of a hash is told by range maps ([src/range-map.c]), which
    index their nodes in red-black trees ([internal/tree.h]); the data itself is kept in
    buckets ([bee/bucket.c]), which the nodes of the maps point to.  A client ([src/pony.c], a
    coroutine over [mco/socket.c]) sends a request for a key to the server of its hash; a
    session there ([bee/session.c]) receives it piece by piece, has it carried out in the
    buckets of all nodes of the key and passed on to their other servers ([bee/db.c]), and
    replies; a request can also be a script with parameters ([bee/monkey.c]).  A script can
    have a bucket sent to other servers: a thread walks through the database and sends each
    record to the targets whose range of hashes it is in ([bee/bucket.c], [bee/instance.c],
    [bee/mkc.c]).
    A connection ([nghttp2_wrapper/stream.c], [nghttp2_wrapper/session.c]) keeps a list of
    streams, one for each request; the HTTP library calls it with headers, data and ends, and
    it calls the service that is bound to the longest prefix of the path
    ([nghttp2_wrapper/instance.c]).  The file service ([modules/simple-file-service]) sends
    files and pages of folders and stores uploads.
    Handlers read cookies ([nghttp2_wrapper/cookie.c]), URL parameters
    ([utils/url-parameters-spliter.c]) and posted forms ([libs/post-data-parser]), the last
    fed piece by piece as data arrives.  Threads report through the logger ([src/logger.c]),
    a ring of buffers that a thread of its own writes, and show their state in the items of
    the dashboard ([src/dashboard.c]).  Files are served from a cache ([utils/file-lru.c]), a
    tree and two lists behind a bloom filter of the paths that exist
    ([libs/path-bloom-filter]).

    ** Files

    - [Prelude]: outcomes of C code ([cres]: a value, a fault, an exit, too little fuel),
      integers at their width, reading and writing arrays, buffers rewritten in place,
      shared lemmas, tactics and hints.
    - [CString]: the functions of [string.h] the program uses.
    - [LinkedList]: the [DOUBLE_LL_*] macros as pointer assignments on a store, behind the
      class [LLNode] of objects with two links; [dlist_rep] says which sequence a head
      and a tail stand for.
    - [RbTree]: the red-black macros of [internal/tree.h] as pointer assignments on a store
      of entries; [holds] says which sequence of elements a root stands for, [cut] and the
      class [KeyOrder] what a comparison has to do.
    - [CText]: the in-place text routines, each with a reference function on texts.
    - [Scan]: the scanners for addresses, integers and hash strings, with grammars.
    - [HeadMatch]: the head match tree, refined against "longest pattern that is a prefix".
    - [RangeMap]: the code of [src/range-map.c]; [RangeIndex]: the index of one map and the
      chains it links ([built], [map_ok]); [RangeTable]: the functions scripts call, against
      the state of the table ([table_ok]).
    - [Bucket]: the code of [bee/bucket.c] over the store of range maps and the database
      library; [BucketInv]: the invariant of buckets, tree and nodes ([inv]); [BucketThms]:
      the operations.
    - [BeeDb]: the handlers of [bee/db.c] and the merging, over the chain of nodes of a key
      ([chain_buckets], [bucket_read]); [BeeDbThms]: what they do; [BeeSession]: the callback of
      [bee/session.c], the pieces a request comes in ([serve]) and the server [Hive] of the
      examples; [Pony]: the socket functions for coroutines and the client, and client and
      server together; [Monkey]: the parameters of scripts.
    - [BeeSync]: the sending of a bucket (targets and the links between them, sprints, the
      messages of a record); [BeeSyncThms]: the chain of targets and what reaches each;
      [BeeSyncStart]: the start of a session, the claims and an example.
    - [Cookie], [UrlParams]: reading cookies and URL parameters, with the texts they accept.
    - [PostData]: the form parser, for any callback, against the fields of a form.
    - [H2Stream]: streams, the services of an instance and the calls of the HTTP library, for
      any service ([service_class]); [H2StreamThms]: what a service promises ([ServiceLaws]),
      the states of a connection ([reach], [session_ok]) and of an instance ([bound]).
    - [H2Conn]: the callbacks of a connection's socket, accepting and starting instances, over
      the answers of OpenSSL, the kernel and the HTTP library; [H2ConnThms]: the life of a
      connection ([alive]) and the entries of instances ([server_ok]).
    - [SfsFolder]: the records of the file service and the page of a folder, against the
      pieces of the page; [Sfs]: requests, files, uploads and binding, over the class
      [Kernel]; [SfsThms]: requests and the promise of the service; [SfsUpload]: uploads.
    - [Dashboard]: the items and their numbers, against a map.
    - [Logger]: the calls and the writer thread of [src/logger.c] as steps between locks
      and semaphores ([move]); [LoggerInv]: the invariant ([ring], [sinv]); [LoggerThms]:
      what all interleavings do.
    - [BloomFilter]: the three bitmaps, against the paths they stand for ([represents]).
    - [FileLru]: the code of the file cache; [FileLruInv]: its invariant ([inv]) and what
      every part does; [FileLruSteps]: callers that interleave ([step]).
    - [Session]: the session and worker records of [session/internal.h] and
      [session/core_ctx.h], the store ([world]) with the monad [M] of code that runs in it,
      the list operations and kernel requests, and the assertion [holds] with one
      weakest-precondition rule per operation.
    - [HashLock]: the lock queues and the contexts in them.
    - [SessionPt]: the five machines, one definition per label.  [home_of] gives the list a
      label says its session is in.
    - [Chassis]: creating, requesting, finishing and freeing sessions.
    - [Worker]: the parts of the worker's turn and the turn itself.

    ** What the theorems show

    - Machines ([SessionPt]): from a session linked where its label says, every request
      ends, touches only that session and its links, exits exactly when the label does
      not expect the request, and leaves the session linked where the new label says;
      a session asks to be freed, switched or queued only from outside all lists.  A running
      coroutine must have no event on record when it installs a socket and at the requests
      after that; a session that waits for a lock and is timed out or told to exit stays in
      its list, and needs a lock that can be fetched.
    - Requests ([Chassis]): with the post actions done, the session is in exactly one
      proper place or gone; other sessions and lists are as before.  (Sessions without
      parent and children.)
    - Worker: the timing pass deals with exactly the sessions whose deadline has passed, when
      nobody waits for a hash lock;
      the active list is served first in, first out; new sessions are all picked up, in
      order; all lists stay well formed ([wf_lists]).
    - Hash locks: a request is queued in order and granted exactly to leading readers or
      to the only writer.
    - Red-black trees: insertion and removal keep the tree balanced and hold exactly the
      elements they should; a search ends in logarithmic depth and finds the equal element;
      a traversal visits all in order.
    - Range maps: a lookup yields exactly the indexed nodes whose key is a prefix of the
      hash, longest first; adding, removing, flushing and creating succeed exactly when
      they should, keep the table well formed and change nothing on errors.  Further
      theorems of [RangeTable] cover address lists, main addresses, buckets going online
      and offline and the end.
    - Buckets: opening, shifting, closing, reading and writing act on one database, keep
      tree, databases and nodes in step and leave other buckets as they were; an error
      leaves nothing half done.
    - Key-value service: what a client stores another client reads, through the code of
      client, socket functions, session, handlers and buckets, however a request is cut into
      pieces on its way (the clients' writes and the server's reply are taken whole); a stored
      value is stored by the other servers of its chain as well; a removed key is not found by
      the handler, which still hands its session a block of old memory; the parameters of a
      script arrive, numbers whole only when their lower bytes are below 128.
    - Synchronisation ([BeeSyncStart]): the command of a script either starts a session in
      which every target is in exactly one list, the one of its hash, or leaves nothing
      behind; the thread sends each record once to every target whose hash is a prefix of the
      hash of its key and to no other, and ends only with a key whose length differs from
      that of a hash text, as long as sockets open and writes are taken whole.
    - Cookies, parameters, forms: a text that was put together from names and values is
      taken apart into the same names and values (a form in one piece; cookie names whose hash
      does not overflow; values of parameters that begin with a letter or digit); the form
      parser has a proper state after any
      input, however it is cut into pieces.
    - Connections ([H2StreamThms]): whatever the HTTP library calls within [event_ok], the list of
      a connection holds exactly its streams, every call returns and the end closes them all,
      for any services with [ServiceLaws]; [event_ok] is more than the library promises:
      trailers end the server, and data need 17 readable bytes behind them and a method of
      four characters; an instance finds the service of the longest bound prefix.
      A connection's callbacks return and install the next one, or close all streams and
      give everything back once ([H2ConnThms]), except before it runs, for an event that is
      neither an end nor reading or writing; a started instance is empty and has its name,
      and an error gives back exactly what was got.
    - File service: it has [ServiceLaws] ([sfs_laws]), so connections it is bound to are in
      order; a request looks only below its folder and sends exactly the file it names; the
      page of a folder arrives whole when its end fits; a file posted in one piece under a safe
      name is stored as it is.
    - Dashboard: any sequence of operations behaves as a map from numbers to items, with a
      number from which the next free one is looked for.
    - Logger: whatever the interleaving no message is lost, torn or written twice, and
      with enough turns every message that is not empty is written; taking the logger down writes the rest.
    - File cache: callers in any order never lose a borrowed file, nothing leaks, the size
      limit is kept, for names whose hashes are less than 2^31 apart; the bloom filter never hides a path that was added.
    - Head match tree: compiling and matching yields the longest matching ASCII pattern; adding
      keeps the order or refuses with the right code.
    - Texts and scanners: each routine equals its reference on every input, returns within
      its fuel and stays inside its buffers; escapes and hashes round trip.
    - Errors: theorems about runs that end badly (a null dereference when a lock's only
      reader is released, a session left in a timing list by a lock timeout, a session
      freed by asking for a read lock, a pattern outside ASCII that is not found, a cached
      file that is not found, a logger that an empty text stops for good, a dashboard item
      that loses what is appended, a bucket that cannot be taken offline, a read without a
      value that is answered with old memory, a size that wraps, a transfer in parts that
      is garbled, a synchronisation that stores nothing, a script whose result overflows its
      reply, a folder page that loses its last rows, a path that leads to the wrong service,
      an index page that is not found, an upload outside the folder or under a garbled name, a
      connection that is forgotten, an instance that is not found).

    ** Bounds and fuel

    Loops over linked lists take the number of objects in the store plus one; loops over a
    buffer its length plus one; walks in a tree the number of its entries plus one;
    [take_action] three, since a machine that was switched to
    starts at its first label and a notified parent is not freed; the recursion over the
    head match tree the number of (depth, group) steps; the search for a free dashboard
    number the number of items plus one; the form parser the length of the piece plus two.
    The page of a folder takes its entries, which are read twice, and ten for its other parts,
    a write of an upload its length plus one, and the end of a connection the number of its streams.
    Looking for a parameter takes the length of the parameters plus one, passing a request on
    the length of the request, reading from a coroutine the length plus four.
    The logger has no fuel: its steps are a relation, and a measure shows that it ends.
    The theorems are about these very definitions and say that they return, so the fuel is
    enough.  Writing from a coroutine goes on as long as the kernel's answers do.
    Indices and sums that C computes in [int], [unsigned] or [char] wrap at their width.

    ** What is a parameter

    The coroutine library ([mco_is_end], resuming a coroutine), the callbacks of sessions,
    the results of [malloc], the clock, and what the kernel's wait returned; for range maps
    which addresses and ports are this server's, the lookup of buckets and [inet_addr]; for
    buckets the database library, with its laws ([KcLib], [KcLaws], and for cursors
    [KcCursor], [KcCursorLaws]); for the file cache what
    the file system answers; for the dashboard and the logger what a format prints (printing does not fail), the
    clock and what writing a file returns; for the form parser the callback; for the
    key-value service the hash function (32 bytes), what the kernel answers on sockets, the
    bytes of fresh memory, and the interpreter with the numbers of its types; for connections
    what the HTTP library calls, OpenSSL and the event core answer, and for the file service the answers of the kernel, the
    memory and the HTTP library ([Kernel], [KernelLaws]).

    ** What is not modelled, and the plan

    Not modelled: threads and the locks between them outside the file cache and the logger
    (elsewhere one thread acts at a time), the set-up of workers, signals,
    OpenSSL and nghttp2 and their set-up, the script interpreter's bindings, printing and configuration,
    and the demonstration modules.  Next in the plan: listening and accepting
    ([bee/instance.c]); the printing of range maps; hosts; the notice to exit and the events of the kernel over whole lists, parents
    and children of sessions, release of hash locks and runs of turns as a step relation. *)
From Stdlib Require Export ZArith Lia.
From stdpp Require Export base option numbers list gmap.

Open Scope Z_scope.

(** ** Outcomes of C code *)

(** What running a piece of C ends in: a value, an access the language gives no
    meaning to (a null or freed pointer, an index outside the object), a call of
    [exit] ([esq_design_error], [INVALID_ACTION_TYPE]), or a loop bound of the model
    that was too small. *)
Inductive cres (A : Type) : Type :=
| Ret (a : A)
| Fault
| Exit
| NoFuel.
Arguments Ret {A} a.
Arguments Fault {A}.
Arguments Exit {A}.
Arguments NoFuel {A}.

#[export] Instance cres_ret : MRet cres := @Ret.
#[export] Instance cres_bind : MBind cres := fun A B f m =>
  match m with
  | Ret a => f a
  | Fault => Fault
  | Exit => Exit
  | NoFuel => NoFuel
  end.
#[export] Instance cres_fmap : FMap cres := fun A B f m =>
  match m with
  | Ret a => Ret (f a)
  | Fault => Fault
  | Exit => Exit
  | NoFuel => NoFuel
  end.

(** [ret_of m d] is the value of [m], or [d] when there is none: for examples. *)
Definition ret_of {A} (m : cres A) (d : A) : A :=
  match m with Ret a => a | _ => d end.

Lemma cres_bind_Ret {A B} (m : cres A) (f : A → cres B) b :
  m ≫= f = Ret b ↔ ∃ a, m = Ret a ∧ f a = Ret b.
Proof. destruct m; simpl; naive_solver. Qed.

(** ** Machine integers *)

(** The unsigned types wrap; [int] is two's complement on 32 bits, and the
    conversion of an out-of-range value to it keeps the low 32 bits. *)
Definition u8 (z : Z) : Z := z mod 2^8.
Definition u16 (z : Z) : Z := z mod 2^16.
Definition u32 (z : Z) : Z := z mod 2^32.
Definition i32 (z : Z) : Z := (z + 2^31) mod 2^32 - 2^31.
Definition i16 (z : Z) : Z := (z + 2^15) mod 2^16 - 2^15.

(** A byte read through a plain [char], which is signed on the targets the build
    supports. *)
Definition schar (b : Z) : Z := if b <? 128 then b else b - 256.

Definition is_byte (b : Z) : Prop := 0 <= b < 256.

(** A C string of the model is the list of its bytes before the terminating zero. *)
Definition cstring (s : list Z) : Prop := Forall (fun b => 0 < b < 256) s.

Lemma u8_range z : 0 <= u8 z < 256.
Proof. unfold u8. apply Z.mod_pos_bound. lia. Qed.

Lemma u32_range z : 0 <= u32 z < 2^32.
Proof. unfold u32. apply Z.mod_pos_bound. lia. Qed.

Lemma i32_range z : - 2^31 <= i32 z < 2^31.
Proof. unfold i32. pose proof (Z.mod_pos_bound (z + 2^31) (2^32)). lia. Qed.

Lemma u8_small z : 0 <= z < 256 → u8 z = z.
Proof. intros H. unfold u8. apply Z.mod_small. lia. Qed.

Lemma u32_small z : 0 <= z < 2^32 → u32 z = z.
Proof. intros H. unfold u32. apply Z.mod_small. lia. Qed.

Lemma i32_small z : - 2^31 <= z < 2^31 → i32 z = z.
Proof. intros H. unfold i32. rewrite Z.mod_small; lia. Qed.

Lemma i32_eq_0_small z : - 2^32 < z < 2^32 → i32 z = 0 → z = 0.
Proof.
  intros Hr H. unfold i32 in H.
  pose proof (Z.div_mod (z + 2^31) (2^32) ltac:(lia)) as E.
  nia.
Qed.

(** ** Objects addressed by an index *)

(** Reading and writing element [i] of an array: an index outside it is a fault. *)
Definition rd {A} (b : list A) (i : Z) : cres A :=
  if decide (0 <= i) then
    match b !! Z.to_nat i with Some c => Ret c | None => Fault end
  else Fault.

Definition wr {A} (b : list A) (i : Z) (v : A) : cres (list A) :=
  if decide (0 <= i < Z.of_nat (length b)) then Ret (<[Z.to_nat i := v]> b) else Fault.

Lemma rd_Ret {A} (b : list A) i c :
  rd b i = Ret c ↔ 0 <= i ∧ b !! Z.to_nat i = Some c.
Proof.
  unfold rd. case_decide; [|naive_solver lia].
  destruct (b !! Z.to_nat i); naive_solver.
Qed.

Lemma rd_nat {A} (b : list A) (i : nat) c : b !! i = Some c → rd b (Z.of_nat i) = Ret c.
Proof. intros H. apply rd_Ret. rewrite Nat2Z.id. split; [lia|done]. Qed.

Lemma wr_Ret {A} (b : list A) i v :
  0 <= i < Z.of_nat (length b) → wr b i v = Ret (<[Z.to_nat i := v]> b).
Proof. intros H. unfold wr. by rewrite decide_True. Qed.

Lemma wr_nat {A} (b : list A) (i : nat) v :
  (i < length b)%nat → wr b (Z.of_nat i) v = Ret (<[i := v]> b).
Proof. intros H. rewrite wr_Ret by lia. by rewrite Nat2Z.id. Qed.

(** Writing just after a prefix of known length. *)
Lemma insert_after {A} (p q : list A) (x v : A) n :
  n = length p → <[n := v]> (p ++ x :: q) = p ++ v :: q.
Proof. intros ->. by rewrite insert_app_r_alt, Nat.sub_diag by lia. Qed.

Lemma lookup_after {A} (p q : list A) (x : A) n :
  n = length p → (p ++ x :: q) !! n = Some x.
Proof. intros ->. by rewrite lookup_app_r, Nat.sub_diag by lia. Qed.

Lemma rev_is_reverse {A} (l : list A) : rev l = reverse l.
Proof. exact (rev_alt l). Qed.

(** ** Comparing bytes *)

(** [memcmp a b n] on objects that hold at least [n] bytes: negative, zero or
    positive, as the first differing byte (unsigned) says. *)
Fixpoint memcmp (a b : list Z) (n : nat) {struct n} : Z :=
  match n with
  | O => 0
  | S n' =>
      match a, b with
      | x :: a', y :: b' => if x =? y then memcmp a' b' n' else x - y
      | _, _ => 0
      end
  end.

Lemma memcmp_eq a b n :
  (n <= length a)%nat → (n <= length b)%nat →
  memcmp a b n = 0 ↔ take n a = take n b.
Proof.
  revert a b; induction n as [|n IH]; intros a b Ha Hb.
  { split; intros; reflexivity. }
  destruct a as [|x a], b as [|y b]; simpl in *; try lia.
  destruct (Z.eqb_spec x y) as [->|Hne].
  - rewrite IH by lia. split; [by intros ->|by intros [=]].
  - split; [lia|intros [=]; lia].
Qed.

(** [strnlen] of a buffer that ends where its list ends: at most [m]. *)
Fixpoint strnlen (s : list Z) (m : nat) {struct m} : nat :=
  match m, s with
  | S m', c :: s' => if c =? 0 then O else S (strnlen s' m')
  | _, _ => O
  end.

Lemma strnlen_cstring s m : cstring s → strnlen s m = min (length s) m.
Proof.
  revert s; induction m as [|m IH]; intros s Hs; destruct s as [|c s]; simpl; try done.
  apply Forall_cons_1 in Hs as [Hc Hs].
  destruct (Z.eqb_spec c 0); [lia|]. by rewrite IH.
Qed.

(** ** Buffers rewritten from the front *)

(** [ow d b] is the buffer [b] with its first bytes replaced by [d]: the state of the
    routines that write their result over their input. *)
Definition ow {A} (d b : list A) : list A := d ++ drop (length d) b.

Lemma ow_nil {A} (b : list A) : ow [] b = b.
Proof. done. Qed.

Lemma length_ow {A} (d b : list A) :
  (length d <= length b)%nat → length (ow d b) = length b.
Proof. intros H. unfold ow. rewrite length_app, length_drop. lia. Qed.

(** Reading ahead of the rewritten part sees the old bytes. *)
Lemma ow_lookup {A} (d b : list A) i : (length d <= i)%nat → ow d b !! i = b !! i.
Proof.
  intros H. unfold ow. rewrite lookup_app_r by done. rewrite lookup_drop. f_equal. lia.
Qed.

Lemma ow_rd {A} (d b : list A) i c :
  (length d <= i)%nat → b !! i = Some c → rd (ow d b) (Z.of_nat i) = Ret c.
Proof. intros H Hc. apply rd_nat. by rewrite ow_lookup. Qed.

(** Writing the next byte extends the rewritten part. *)
Lemma ow_wr {A} (d b : list A) v :
  (length d < length b)%nat → wr (ow d b) (Z.of_nat (length d)) v = Ret (ow (d ++ [v]) b).
Proof.
  intros H. rewrite wr_nat by (rewrite length_ow; lia). f_equal. unfold ow.
  destruct (drop (length d) b) as [|x r] eqn:E.
  { apply (f_equal length) in E. rewrite length_drop in E. simpl in E. lia. }
  rewrite insert_after by done. rewrite length_app. simpl.
  rewrite <- app_assoc. simpl. do 2 f_equal.
  rewrite <- drop_drop, E. done.
Qed.

(** One more byte of a suffix. *)
Lemma drop_lookup_cons {A} (l : list A) i x r :
  drop i l = x :: r → l !! i = Some x ∧ drop (S i) l = r ∧ (i < length l)%nat.
Proof.
  intros E. split.
  - rewrite <- (Nat.add_0_r i), <- lookup_drop, E. done.
  - split.
    + rewrite <- (Nat.add_1_r i), <- drop_drop, E. done.
    + apply (f_equal length) in E. rewrite length_drop in E. simpl in E. lia.
Qed.

(** Reading the text [s] at [i], and writing over it, while its front is rewritten. *)
Lemma ow_rd_text {A} (d s tl : list A) i c r :
  drop i s = c :: r → (length d <= i)%nat → rd (ow d (s ++ tl)) (Z.of_nat i) = Ret c.
Proof.
  intros (Hc & _ & Hi)%drop_lookup_cons Hd. apply ow_rd; [done|].
  by rewrite lookup_app_l.
Qed.

Lemma rd_text {A} (s tl : list A) i c r :
  drop i s = c :: r → rd (s ++ tl) (Z.of_nat i) = Ret c.
Proof. intros E. apply (ow_rd_text [] s tl i c r E). simpl. lia. Qed.

Lemma ow_wr_text {A} (d s tl : list A) v :
  (length d < length s)%nat →
  wr (ow d (s ++ tl)) (Z.of_nat (length d)) v = Ret (ow (d ++ [v]) (s ++ tl)).
Proof. intros H. apply ow_wr. rewrite length_app. lia. Qed.

Lemma drop_nil_length {A} (l : list A) i : drop i l = [] → (length l <= i)%nat.
Proof. intros E. apply (f_equal length) in E. rewrite length_drop in E. simpl in E. lia. Qed.

Lemma Forall_drop_cons {A} (P : A → Prop) l i c r :
  Forall P l → drop i l = c :: r → P c ∧ Forall P r.
Proof.
  intros Hl E. apply (Forall_drop P i) in Hl. rewrite E in Hl.
  by apply Forall_cons_1 in Hl.
Qed.

(** Checking a property of the integers of a range by evaluation. *)
Lemma Z_range_check (P : Z → bool) k :
  forallb P (seqZ 0 k) = true → ∀ n, 0 <= n < k → P n = true.
Proof.
  intros H n Hn. rewrite forallb_forall in H. apply H.
  apply list_elem_of_In, elem_of_seqZ. lia.
Qed.

(** Character tables have 256 entries: indexing one by a byte never faults. *)
Definition tab (t : list Z) (d c : Z) : Z := nth (Z.to_nat c) t d.

Lemma rd_tab t d c : length t = 256%nat → is_byte c → rd t c = Ret (tab t d c).
Proof.
  intros Ht Hc. unfold is_byte in Hc. apply rd_Ret. split; [lia|].
  destruct (lookup_lt_is_Some_2 t (Z.to_nat c)) as [x Hx]; [lia|].
  unfold tab. by rewrite nth_lookup, Hx.
Qed.

(** ** Automation *)

Create HintDb esq.
Create Rewrite HintDb esq_len.
#[export] Hint Resolve prefix_take list_elem_of_lookup_2 Forall_app_2 : esq.
#[export] Hint Rewrite @length_cons @length_insert @length_app @length_map @length_take
  @length_drop : esq_len.

(** Case analysis on the test of the leftmost [if] or [match] of the goal. *)
Ltac csplit :=
  match goal with
  | |- context [if decide ?P then _ else _] => destruct (decide P)
  | |- context [if ?a =? ?b then _ else _] => destruct (Z.eqb_spec a b)
  | |- context [if ?a <? ?b then _ else _] => destruct (Z.ltb_spec a b)
  | |- context [if ?a <=? ?b then _ else _] => destruct (Z.leb_spec a b)
  | |- context [match ?x with _ => _ end] => destruct x eqn:?
  end.

(** The same in a hypothesis. *)
Ltac csplit_in H :=
  match type of H with
  | context [if decide ?P then _ else _] => destruct (decide P)
  | context [if ?a =? ?b then _ else _] => destruct (Z.eqb_spec a b)
  | context [if ?a <? ?b then _ else _] => destruct (Z.ltb_spec a b)
  | context [if ?a <=? ?b then _ else _] => destruct (Z.leb_spec a b)
  | context [match ?x with _ => _ end] => destruct x eqn:?
  end.

(** Take a successful bind apart. *)
Ltac cbind H := apply cres_bind_Ret in H as (? & ? & H).

(** [by_range P k n Hn]: evaluate [P] on every integer of [0..k-1], then use it at [n]. *)
Ltac by_range P k n Hn :=
  let H := fresh "Hrange" in
  pose proof (Z_range_check P k ltac:(vm_compute; reflexivity) n Hn) as H; cbv beta in H.

(** Indices computed from a [nat] stay of that form. *)
Ltac nat_index := repeat match goal with
  | |- context [Z.of_nat ?n + Zpos ?p] =>
      let k := eval compute in (Pos.to_nat p) in
      replace (Z.of_nat n + Zpos p) with (Z.of_nat (k + n)) by lia; simpl Nat.add
  end.

#[global] Arguments Z.of_nat : simpl never.
#[global] Arguments Z.to_nat : simpl never.
#[global] Arguments Z.add : simpl nomatch.
#[global] Arguments Z.sub : simpl nomatch.
#[global] Arguments Z.mul : simpl nomatch.
