(* ===== verification/CString.v ===== *)
(** * Strings of the C library

    The functions of [string.h] on objects that hold a terminating zero.  A function that
    would read or write behind its object is a fault. *)
From S2P Require Import Prelude.

(** [memcmp] reads inside its arguments. *)
Definition c_memcmp (a b : list Z) (n : Z) : cres Z :=
  if decide (0 <= n <= Z.of_nat (length a) ∧ n <= Z.of_nat (length b))
  then Ret (memcmp a b (Z.to_nat n)) else Fault.

(** [strcmp] of two objects that hold a terminating zero. *)
Fixpoint strcmp (a b : list Z) : cres Z :=
  match a, b with
  | x :: a, y :: b => if x =? y then if x =? 0 then Ret 0 else strcmp a b else Ret (x - y)
  | _, _ => Fault
  end.

Fixpoint c_strnlen (s : list Z) (m : nat) : cres Z :=
  match m with
  | O => Ret 0
  | S m => match s with
           | [] => Fault
           | c :: s => if c =? 0 then Ret 0 else Z.succ <$> c_strnlen s m
           end
  end.

Fixpoint c_strlen (s : list Z) : cres Z :=
  match s with [] => Fault | c :: s => if c =? 0 then Ret 0 else Z.succ <$> c_strlen s end.

(** [strcpy] of the string of [src], its zero included, over the object [dst]. *)
Fixpoint c_strcpy (dst src : list Z) : cres (list Z) :=
  match src, dst with
  | c :: src, _ :: dst => if c =? 0 then Ret (0 :: dst) else cons c <$> c_strcpy dst src
  | _, _ => Fault
  end.

(** [memcpy(dst + off, src, n)]. *)
Definition c_memcpy (dst : list Z) (off : Z) (src : list Z) (n : Z) : cres (list Z) :=
  if decide (0 <= off ∧ 0 <= n ∧ off + n <= Z.of_nat (length dst) ∧ n <= Z.of_nat (length src))
  then Ret (take (Z.to_nat off) dst ++ take (Z.to_nat n) src ++ drop (Z.to_nat (off + n)) dst)
  else Fault.

(** [p + off], inside the object or at its end. *)
Definition at_off (p : list Z) (off : Z) : cres (list Z) :=
  if decide (0 <= off <= Z.of_nat (length p)) then Ret (drop (Z.to_nat off) p) else Fault.

(** The characters before the terminating zero, for [%s]. *)
Fixpoint c_chars (s : list Z) : cres (list Z) :=
  match s with [] => Fault | c :: s => if c =? 0 then Ret [] else cons c <$> c_chars s end.

(** The decimal digits of a number, for [%d] of an [int]. *)
Fixpoint c_digits (fuel : nat) (z : Z) (acc : list Z) : list Z :=
  match fuel with
  | O => acc
  | S fuel =>
      let acc := (48 + z mod 10) :: acc in if z <? 10 then acc else c_digits fuel (z / 10) acc
  end.
Definition c_decimal (z : Z) : list Z :=
  if z <? 0 then 45 :: c_digits 10 (- z) [] else c_digits 10 z [].

(** [snprintf] of [text] into an object of [n] bytes, all of them: the result is the length
    of [text], and what does not fit is cut. *)
Definition c_snprintf (dst text : list Z) : Z * list Z :=
  (Z.of_nat (length text), ow (take (length dst - 1) text ++ [0]) dst).

(** ** What they do on strings *)

(** The string at the beginning of an object. *)
Fixpoint cstr (b : list Z) : list Z :=
  match b with [] => [] | c :: b => if c =? 0 then [] else c :: cstr b end.

Lemma cstr_app s tl : cstring s → cstr (s ++ 0 :: tl) = s.
Proof.
  induction 1 as [|c s Hc Hs IH]; simpl; [done|]. destruct (Z.eqb_spec c 0); [lia|]. by rewrite IH.
Qed.

Lemma strcmp_ok s s' tl tl' :
  cstring s → cstring s' →
  ∃ z, strcmp (s ++ 0 :: tl) (s' ++ 0 :: tl') = Ret z ∧ (z = 0 ↔ s = s').
Proof.
  intros Hs. revert s'. induction Hs as [|c s Hc Hs IH]; intros s' Hs'; destruct Hs' as [|c' s' Hc' Hs']; simpl.
  - by exists 0.
  - exists (- c'). destruct c' as [|p|p]; [lia|..];
      (split; [done|]; split; intros; [lia|discriminate]).
  - destruct (Z.eqb_spec c 0); [lia|]. eexists. split; [done|]. split; intros; [lia|discriminate].
  - destruct (Z.eqb_spec c c') as [<-|Hne].
    + destruct (Z.eqb_spec c 0); [lia|]. destruct (IH s' Hs') as (z & -> & Hz). exists z.
      split; [done|]. rewrite Hz. naive_solver.
    + eexists. split; [done|]. split; [lia|]. naive_solver.
Qed.

Lemma strcmp_same_length s s' tl tl' :
  cstring s → cstring s' → length s = length s' →
  strcmp (s ++ 0 :: tl) (s' ++ 0 :: tl') = Ret (memcmp s s' (length s)).
Proof.
  intros Hs. revert s'. induction Hs as [|c s Hc Hs IH]; intros [|c' s'] Hs' Hl; try done; simpl in *.
  apply Forall_cons_1 in Hs' as [Hc' Hs']. destruct (Z.eqb_spec c c'); [|done].
  destruct (Z.eqb_spec c 0); [lia|]. apply IH; [done|lia].
Qed.

Lemma c_strnlen_ok s tl m : cstring s → c_strnlen (s ++ 0 :: tl) m = Ret (Z.of_nat (min (length s) m)).
Proof.
  intros Hs. revert m. induction Hs as [|c s Hc Hs IH]; intros [|m]; simpl; try done.
  destruct (Z.eqb_spec c 0); [lia|]. rewrite IH. simpl. f_equal. lia.
Qed.

Lemma c_strlen_ok s tl : cstring s → c_strlen (s ++ 0 :: tl) = Ret (Z.of_nat (length s)).
Proof.
  induction 1 as [|c s Hc Hs IH]; simpl; [done|]. destruct (Z.eqb_spec c 0); [lia|].
  rewrite IH. simpl. f_equal. lia.
Qed.

Lemma c_strcpy_ok dst s tl :
  cstring s → (length s < length dst)%nat →
  c_strcpy dst (s ++ 0 :: tl) = Ret (s ++ 0 :: drop (S (length s)) dst).
Proof.
  intros Hs. revert dst. induction Hs as [|c s Hc Hs IH]; intros [|d dst] Hl; simpl in *; try lia.
  - by rewrite drop_0.
  - destruct (Z.eqb_spec c 0); [lia|]. by rewrite IH by lia.
Qed.

Lemma cstring_bytes s : cstring s → Forall is_byte s.
Proof. intros H. eapply Forall_impl; [exact H|]. unfold is_byte. simpl. lia. Qed.

(** Copying behind what was written before. *)
Lemma c_memcpy_ow d b src tl :
  (length d + length src <= length b)%nat →
  c_memcpy (ow d b) (Z.of_nat (length d)) (src ++ tl) (Z.of_nat (length src)) = Ret (ow (d ++ src) b).
Proof.
  intros Hl. unfold c_memcpy. rewrite length_ow, length_app by lia. rewrite decide_True by lia.
  f_equal. rewrite !Nat2Z.id, <- Nat2Z.inj_add, Nat2Z.id. unfold ow.
  rewrite take_app_length, take_app_length, drop_app_ge, drop_drop, length_app by lia.
  rewrite <- app_assoc. do 3 f_equal. lia.
Qed.

Lemma at_off_app p tl n : n = Z.of_nat (length p) → at_off (p ++ tl) n = Ret tl.
Proof.
  intros ->. unfold at_off. rewrite length_app, decide_True by lia. by rewrite Nat2Z.id, drop_app_length.
Qed.
