(* ===== verification/LinkedList.v ===== *)
(** * Intrusive linked lists

    The macros of [public/esqll.h] thread lists through two pointer fields of the
    objects themselves and keep a head and a tail pointer beside them.  The objects
    live in a store from locations to nodes; the macros are written as the pointer
    assignments they expand to, so a macro applied to an object that is not in the
    list, or already in another, does here what it does in C.  [dlist_rep] says which
    sequence of locations a head, a tail and a store represent; each macro is proved
    to implement the list operation its name says, and to change nothing but links. *)
From S2P Require Import Prelude.

Abbreviation loc := positive.
Abbreviation ptr := (option positive).

(** The two link fields of an object; [erase_links] forgets them, so that equality
    after it says that everything else is unchanged. *)
Class LLNode (N : Type) := {
  ll_prev : N → ptr;
  ll_next : N → ptr;
  set_prev : ptr → N → N;
  set_next : ptr → N → N
}.

Class LLNodeLaws (N : Type) `{LLNode N} := {
  prev_set_prev p n : ll_prev (set_prev p n) = p;
  next_set_prev p n : ll_next (set_prev p n) = ll_next n;
  prev_set_next p n : ll_prev (set_next p n) = ll_prev n;
  next_set_next p n : ll_next (set_next p n) = p;
  set_next_set_prev p q n : set_next p (set_prev q n) = set_prev q (set_next p n);
  set_next_set_next p q n : set_next p (set_next q n) = set_next p n;
  set_prev_set_prev p q n : set_prev p (set_prev q n) = set_prev p n
}.

Record dlist := DList { d_head : ptr; d_tail : ptr }.

Definition dlist_empty : dlist := DList None None.

Section Macros.
Context {N : Type} `{LLNode N}.
Implicit Type h : gmap loc N.

(** An assignment through a pointer. *)
Definition upd h (p : ptr) (f : N → N) : cres (gmap loc N) :=
  match p with
  | None => Fault
  | Some l => match h !! l with
              | None => Fault
              | Some n => Ret (<[l := f n]> h)
              end
  end.

(** A read through a pointer. *)
Definition fld {A} h (p : ptr) (f : N → A) : cres A :=
  match p with
  | None => Fault
  | Some l => match h !! l with None => Fault | Some n => Ret (f n) end
  end.

Definition DOUBLE_LL_JOIN_HEAD h (q : dlist) (x : loc) : cres (gmap loc N * dlist) :=
  h ← upd h (Some x) (set_prev None);
  match d_head q with
  | Some hd =>
      h ← upd h (Some x) (set_next (Some hd));
      h ← upd h (Some hd) (set_prev (Some x));
      Ret (h, DList (Some x) (d_tail q))
  | None =>
      h ← upd h (Some x) (set_next None);
      Ret (h, DList (Some x) (Some x))
  end.

Definition DOUBLE_LL_JOIN_TAIL h (q : dlist) (x : loc) : cres (gmap loc N * dlist) :=
  h ← upd h (Some x) (set_next None);
  match d_tail q with
  | Some tl =>
      h ← upd h (Some x) (set_prev (Some tl));
      h ← upd h (Some tl) (set_next (Some x));
      Ret (h, DList (d_head q) (Some x))
  | None =>
      h ← upd h (Some x) (set_prev None);
      Ret (h, DList (Some x) (Some x))
  end.

Definition DOUBLE_LL_LEFT h (q : dlist) (x : loc) : cres (gmap loc N * dlist) :=
  pv ← fld h (Some x) ll_prev;
  nx ← fld h (Some x) ll_next;
  match pv, nx with
  | Some p, Some n =>
      h ← upd h (Some p) (set_next (Some n));
      h ← upd h (Some n) (set_prev (Some p));
      Ret (h, q)
  | Some p, None =>
      h ← upd h (Some p) (set_next None);
      Ret (h, DList (d_head q) (Some p))
  | None, Some n =>
      h ← upd h (Some n) (set_prev None);
      Ret (h, DList (Some n) (d_tail q))
  | None, None => Ret (h, DList None None)
  end.
End Macros.

(** ** The sequence a list represents *)
Section Rep.
Context {N : Type} `{LLNodeLaws N}.
Implicit Types (h : gmap loc N) (l : list loc) (pv nx : ptr).

(** The first element of a sequence, or what follows it. *)
Definition hd_or l nx : ptr := match l with [] => nx | x :: _ => Some x end.

(** The last element of a sequence, or what precedes it. *)
Definition last_or pv l : ptr := match last l with None => pv | Some x => Some x end.

(** [l] is a doubly linked segment of [h], entered from [pv] and left to [nx]. *)
Fixpoint dseg h pv l nx : Prop :=
  match l with
  | [] => True
  | x :: l' =>
      (∃ n, h !! x = Some n ∧ ll_prev n = pv ∧ ll_next n = hd_or l' nx) ∧
      dseg h (Some x) l' nx
  end.

Definition dlist_rep h (q : dlist) l : Prop :=
  d_head q = head l ∧ d_tail q = last l ∧ NoDup l ∧ dseg h None l None.

Definition erase_links (n : N) : N := set_prev None (set_next None n).

(** Two stores that differ in links only. *)
Definition same_objects h h' : Prop := erase_links <$> h = erase_links <$> h'.

Lemma erase_set_prev p n : erase_links (set_prev p n) = erase_links n.
Proof.
  unfold erase_links. by rewrite set_next_set_prev, set_prev_set_prev.
Qed.

Lemma erase_set_next p n : erase_links (set_next p n) = erase_links n.
Proof. unfold erase_links. by rewrite set_next_set_next. Qed.

Lemma same_objects_trans h1 h2 h3 :
  same_objects h1 h2 → same_objects h2 h3 → same_objects h1 h3.
Proof. unfold same_objects. congruence. Qed.

Lemma same_objects_insert h x n f :
  h !! x = Some n → erase_links (f n) = erase_links n →
  same_objects h (<[x := f n]> h).
Proof.
  intros Hx Hf. unfold same_objects. rewrite fmap_insert, Hf.
  symmetry. apply insert_id. by rewrite lookup_fmap, Hx.
Qed.

Lemma same_objects_lookup h h' x n' :
  same_objects h h' → h' !! x = Some n' →
  ∃ n, h !! x = Some n ∧ erase_links n = erase_links n'.
Proof.
  intros E Hx. assert (E' : (erase_links <$> h) !! x = (erase_links <$> h') !! x)
    by (by rewrite E).
  rewrite !lookup_fmap, Hx in E'. destruct (h !! x) as [n|]; simpl in E'; [|done].
  exists n. split; congruence.
Qed.

Lemma dseg_app h pv l1 l2 nx :
  dseg h pv (l1 ++ l2) nx ↔
  dseg h pv l1 (hd_or l2 nx) ∧ dseg h (last_or pv l1) l2 nx.
Proof.
  revert pv; induction l1 as [|x l1 IH]; intros pv; simpl; [tauto|].
  rewrite IH.
  replace (hd_or (l1 ++ l2) nx) with (hd_or l1 (hd_or l2 nx)) by (by destruct l1).
  replace (last_or pv (x :: l1)) with (last_or (Some x) l1)
    by (unfold last_or; rewrite last_cons; by destruct (last l1)).
  tauto.
Qed.

(** A write outside a segment leaves it as it is. *)
Lemma dseg_frame h pv l nx x n : x ∉ l → dseg (<[x := n]> h) pv l nx ↔ dseg h pv l nx.
Proof.
  revert pv; induction l as [|y l IH]; intros pv Hx; simpl; [done|].
  apply not_elem_of_cons in Hx as [Hy Hx]. rewrite IH by done.
  by rewrite lookup_insert_ne by done.
Qed.

Lemma dseg_lookup h pv l nx x : dseg h pv l nx → x ∈ l → is_Some (h !! x).
Proof.
  revert pv; induction l as [|y l IH]; intros pv Hd Hx; [by apply not_elem_of_nil in Hx|].
  destruct Hd as [(n & Hn & _) Hd]. apply elem_of_cons in Hx as [->|Hx]; eauto.
Qed.

Lemma dlist_rep_frame h q l x n :
  x ∉ l → dlist_rep h q l → dlist_rep (<[x := n]> h) q l.
Proof. intros Hx (?&?&?&?). repeat split; try done. by apply dseg_frame. Qed.

(** Re-entering a segment from another predecessor: only its first node changes. *)
Lemma dseg_set_prev h pv pv' x l nx n :
  x ∉ l → h !! x = Some n → dseg h pv (x :: l) nx →
  dseg (<[x := set_prev pv' n]> h) pv' (x :: l) nx.
Proof.
  intros Hx Hn [(n' & Hn' & Hp & Hnx) Hd]. simplify_eq. split.
  - eexists. rewrite lookup_insert_eq. split; [done|].
    by rewrite prev_set_prev, next_set_prev.
  - by apply dseg_frame.
Qed.

(** Leaving a segment to another successor: only its last node changes. *)
Lemma dseg_set_next h pv x l nx nx' n :
  x ∉ l → h !! x = Some n → dseg h pv (l ++ [x]) nx →
  dseg (<[x := set_next nx' n]> h) pv (l ++ [x]) nx'.
Proof.
  rewrite !dseg_app. intros Hx Hn [Hd [(n' & Hn' & Hp & Hnx) _]]. simplify_eq.
  split; [by apply dseg_frame|]. split; [|done].
  eexists. rewrite lookup_insert_eq. split; [done|].
  by rewrite prev_set_next, next_set_next.
Qed.
End Rep.

(** ** The macros implement the list operations *)
Section Correct.
Context {N : Type} `{LLNodeLaws N}.
Implicit Types (h : gmap loc N) (l : list loc) (q : dlist).

Lemma upd_Some h x n f : h !! x = Some n → upd h (Some x) f = Ret (<[x := f n]> h).
Proof. intros Hx. simpl. by rewrite Hx. Qed.

Lemma fld_Some {A} h x n (f : N → A) : h !! x = Some n → fld h (Some x) f = Ret (f n).
Proof. intros Hx. simpl. by rewrite Hx. Qed.

Lemma dseg_agree h h' pv l nx :
  (∀ y, y ∈ l → h' !! y = h !! y) → dseg h pv l nx → dseg h' pv l nx.
Proof.
  revert pv; induction l as [|y l IH]; intros pv Hag; simpl; [done|].
  rewrite Hag by set_solver. intros [? Hd]. split; [done|].
  apply IH; [|done]. set_solver.
Qed.

(** A list none of whose objects was written is still represented. *)
Lemma dlist_rep_agree h h' q l :
  (∀ y, y ∈ l → h' !! y = h !! y) → dlist_rep h q l → dlist_rep h' q l.
Proof. intros Hag (?&?&?&?). repeat split; eauto using dseg_agree. Qed.

Lemma dlist_rep_empty h : dlist_rep h dlist_empty [].
Proof. repeat split. constructor. Qed.

(** What every operation guarantees about the rest of the store: the objects of [t]
    are the only ones written, and only their links. *)
Definition links_written h h' (t : list loc) : Prop :=
  same_objects h h' ∧ ∀ y, y ∉ t → h' !! y = h !! y.

Lemma links_written_step h0 h x n f t :
  links_written h0 h t → h !! x = Some n → x ∈ t →
  erase_links (f n) = erase_links n → links_written h0 (<[x := f n]> h) t.
Proof.
  intros [Hs Hf] Hx Ht He. split.
  - eapply same_objects_trans; [done|]. by apply same_objects_insert.
  - intros y Hy. rewrite lookup_insert_ne by set_solver. by apply Hf.
Qed.

Lemma links_written_refl h t : links_written h h t.
Proof. split; done. Qed.

Hint Resolve links_written_refl erase_set_prev erase_set_next : esq.

Ltac written := repeat first
  [ apply links_written_refl
  | eapply links_written_step; [| by simplify_map_eq | set_solver |
                                first [apply erase_set_prev | apply erase_set_next]]].

Lemma join_head_ok h q l x :
  dlist_rep h q l → x ∉ l → is_Some (h !! x) →
  ∃ h' q', DOUBLE_LL_JOIN_HEAD h q x = Ret (h', q') ∧
    dlist_rep h' q' (x :: l) ∧ links_written h h' (x :: l).
Proof.
  intros (Hh & Ht & Hnd & Hd) Hx [n Hn]. unfold DOUBLE_LL_JOIN_HEAD.
  rewrite (upd_Some _ _ n) by done. simpl. rewrite Hh. destruct l as [|y l]; simpl.
  - rewrite lookup_insert_eq. simpl. do 2 eexists. split; [done|]. split; [|written].
    repeat split; [apply NoDup_singleton|]. eexists. rewrite lookup_insert_eq.
    by rewrite prev_set_next, prev_set_prev, next_set_next.
  - pose proof Hd as [(m & Hm & _ & _) _].
    apply NoDup_cons in Hnd as [Hy Hnd].
    assert (x ≠ y) by set_solver.
    rewrite lookup_insert_eq. simpl. rewrite !lookup_insert_ne, Hm by congruence. simpl.
    do 2 eexists. split; [done|]. split; [|written].
    split; [done|]. split; [by rewrite last_cons, Ht, last_cons; destruct (last l)|].
    split; [by apply NoDup_cons; split; [|apply NoDup_cons]|].
    change (dseg ?h None (x :: y :: l) None) with (dseg h None ([x] ++ y :: l) None).
    apply dseg_app. simpl. split.
    + split; [|done]. eexists. rewrite lookup_insert_ne by congruence.
      rewrite lookup_insert_eq. by rewrite prev_set_next, prev_set_prev, next_set_next.
    + apply (dseg_set_prev _ None (Some x)); [done| |].
      * by rewrite !lookup_insert_ne by congruence.
      * by do 2 (apply dseg_frame; [set_solver|]).
Qed.

Lemma join_tail_ok h q l x :
  dlist_rep h q l → x ∉ l → is_Some (h !! x) →
  ∃ h' q', DOUBLE_LL_JOIN_TAIL h q x = Ret (h', q') ∧
    dlist_rep h' q' (l ++ [x]) ∧ links_written h h' (x :: l).
Proof.
  intros (Hh & Ht & Hnd & Hd) Hx [n Hn]. unfold DOUBLE_LL_JOIN_TAIL.
  rewrite (upd_Some _ _ n) by done. simpl. rewrite Ht.
  destruct l as [|y l _] using rev_ind; simpl.
  - rewrite lookup_insert_eq. simpl. do 2 eexists. split; [done|]. split; [|written].
    repeat split; [apply NoDup_singleton|]. eexists. rewrite lookup_insert_eq.
    by rewrite prev_set_prev, next_set_prev, next_set_next.
  - rewrite last_snoc.
    pose proof Hd as Hd'. apply dseg_app in Hd' as [_ [(m & Hm & _ & _) _]].
    assert (Hnd' := Hnd). apply NoDup_app in Hnd' as (Hl & Hy & _).
    assert (y ∉ l) by set_solver. assert (x ≠ y) by set_solver.
    rewrite lookup_insert_eq. simpl. rewrite !lookup_insert_ne, Hm by congruence. simpl.
    do 2 eexists. split; [done|]. split; [|written].
    split; [by rewrite Hh; destruct l|]. split; [by rewrite last_snoc|].
    split; [apply NoDup_app; split; [done|split; [set_solver|apply NoDup_singleton]]|].
    apply dseg_app. split.
    + apply (dseg_set_next _ _ _ _ None); [done| |].
      * by rewrite !lookup_insert_ne by congruence.
      * by do 2 (apply dseg_frame; [set_solver|]).
    + unfold last_or. rewrite last_snoc. split; [|done].
      eexists. rewrite lookup_insert_ne by congruence. rewrite lookup_insert_eq.
      by rewrite prev_set_prev, next_set_prev, next_set_next.
Qed.
(** The two ends of a list with [x] taken out. *)
Lemma dlist_rep_ends h l1 x l2 q :
  dlist_rep h q (l1 ++ x :: l2) →
  d_head q = hd_or l1 (Some x) ∧ d_tail q = last_or (Some x) l2 ∧
  NoDup (l1 ++ l2) ∧ x ∉ l1 ++ l2 ∧
  (∃ n, h !! x = Some n ∧ ll_prev n = last_or None l1 ∧ ll_next n = hd_or l2 None) ∧
  dseg h None l1 (Some x) ∧ dseg h (Some x) l2 None.
Proof.
  intros (Hh & Ht & Hnd & Hd). apply dseg_app in Hd as [Hd1 [Hx Hd2]].
  apply NoDup_app in Hnd as (Hn1 & Hdis & Hn2). apply NoDup_cons in Hn2 as [Hx2 Hn2].
  split; [by rewrite Hh; destruct l1|]. split.
  { rewrite Ht, last_app, last_cons. unfold last_or. by destruct (last l2). }
  split; [apply NoDup_app; set_solver|]. split; [set_solver|]. done.
Qed.

Lemma left_ok h q l1 x l2 :
  dlist_rep h q (l1 ++ x :: l2) →
  ∃ h' q', DOUBLE_LL_LEFT h q x = Ret (h', q') ∧
    dlist_rep h' q' (l1 ++ l2) ∧ links_written h h' (l1 ++ l2).
Proof.
  intros Hr. apply dlist_rep_ends in Hr
    as (Hh & Ht & Hnd & Hx & (n & Hn & Hp & Hnx) & Hd1 & Hd2).
  unfold DOUBLE_LL_LEFT. rewrite !(fld_Some _ _ n) by done. simpl. rewrite Hp, Hnx.
  destruct l1 as [|p l1 _] using rev_ind; destruct l2 as [|y l2]; simpl.
  - do 2 eexists. split; [done|]. split; [|written]. apply dlist_rep_empty.
  - pose proof Hd2 as [(m & Hm & _) _]. rewrite Hm. simpl.
    apply NoDup_cons in Hnd as [Hy Hnd].
    do 2 eexists. split; [done|]. split; [|written].
    split; [done|]. split.
    { simpl. rewrite Ht. unfold last_or. rewrite last_cons. by destruct (last l2). }
    split; [by apply NoDup_cons|]. by apply (dseg_set_prev _ (Some x)).
  - rewrite app_nil_r in Hnd |- *. unfold last_or at 1. rewrite last_snoc.
    pose proof Hd1 as Hd1'. apply dseg_app in Hd1' as [_ [(m & Hm & _) _]].
    rewrite Hm. simpl.
    do 2 eexists. split; [done|]. split; [|written].
    split; [simpl; rewrite Hh; by destruct l1|]. split; [by rewrite last_snoc|].
    split; [done|]. apply NoDup_app in Hnd as (? & Hy & _).
    apply (dseg_set_next _ _ _ _ (Some x)); [set_solver|done|done].
  - unfold last_or at 1. rewrite last_snoc.
    pose proof Hd1 as Hd1'. apply dseg_app in Hd1' as [_ [(m & Hm & _) _]].
    pose proof Hd2 as [(m' & Hm' & _) _].
    rewrite Hm. simpl.
    assert (Hnd' := Hnd). apply NoDup_app in Hnd' as (Hn1 & Hdis & Hn2).
    assert (p ≠ y) by (intros ->; apply (Hdis y); set_solver).
    assert (p ∉ l1) by (apply NoDup_app in Hn1 as (? & Hy & _); set_solver).
    assert (p ∉ l2) by set_solver. assert (y ∉ l1 ++ [p]) by set_solver.
    apply NoDup_cons in Hn2 as [Hy Hn2].
    rewrite lookup_insert_ne, Hm' by done. simpl.
    do 2 eexists. split; [done|]. split; [|written].
    split; [rewrite Hh; by destruct l1|]. split.
    { rewrite Ht, last_app, last_cons. unfold last_or. rewrite last_cons.
      by destruct (last l2). }
    split; [done|]. apply dseg_app. split.
    + apply dseg_frame; [done|]. apply (dseg_set_next _ _ _ _ (Some x)); [done..|].
      by simpl.
    + unfold last_or. rewrite last_snoc. apply (dseg_set_prev _ (Some x)); [done| |].
      * by rewrite lookup_insert_ne by done.
      * apply dseg_frame; [set_solver|done].
Qed.
End Correct.
