(* ===== verification/RbTree.v ===== *)
(** * Red-black trees

    The macros [RB_INSERT], [RB_REMOVE], [RB_FIND], [RB_NEXT], [RB_PREV], [RB_MINMAX] and
    [RB_FOREACH] of [internal/tree.h], on which the range map, the buckets, the cookies,
    the dashboard and the file cache keep their indices.  The [RB_ENTRY] fields of the
    objects live in a store of their own; a tree is its root pointer in that store.  The
    macros are written as the assignments they expand to; the two mirror halves of a
    macro are one definition with the side as a parameter.

    [rep] says which binary tree a store holds below a pointer, parent pointers included;
    [hole] is the same for a tree with a subtree cut out, so that a loop that climbs by
    parent pointers is an induction on the path to the root.  [holds] puts the balance
    invariant on top and forgets everything but the sequence of the elements: it is what
    the clients see.  The class [KeyOrder] is what they promise of their comparisons. *)
From S2P Require Import Prelude LinkedList.

(** ** The macros *)

Inductive color := RB_BLACK | RB_RED.
#[export] Instance color_eq_dec : EqDecision color.
Proof. solve_decision. Defined.

Record rb_entry := RbEntry {
  rbe_left : ptr; rbe_right : ptr; rbe_parent : ptr; rbe_color : color
}.

Inductive side := LEFT | RIGHT.
#[export] Instance side_eq_dec : EqDecision side.
Proof. solve_decision. Defined.

Definition flip (d : side) : side := match d with LEFT => RIGHT | RIGHT => LEFT end.

(** [RB_LEFT] and [RB_RIGHT]. *)
Definition child (d : side) (e : rb_entry) : ptr :=
  match d with LEFT => rbe_left e | RIGHT => rbe_right e end.

Definition set_child (d : side) (p : ptr) (e : rb_entry) : rb_entry :=
  match d with
  | LEFT => RbEntry p (rbe_right e) (rbe_parent e) (rbe_color e)
  | RIGHT => RbEntry (rbe_left e) p (rbe_parent e) (rbe_color e)
  end.

Definition set_parent (p : ptr) (e : rb_entry) : rb_entry :=
  RbEntry (rbe_left e) (rbe_right e) p (rbe_color e).

Definition set_color (c : color) (e : rb_entry) : rb_entry :=
  RbEntry (rbe_left e) (rbe_right e) (rbe_parent e) c.

Abbreviation cells := (gmap loc rb_entry).

(** A head and the store. *)
Record rb := Rb { rbh_root : ptr; rb_cells : cells }.

Definition RB_INIT (T : rb) : rb := Rb None (rb_cells T).

Definition get {A} (T : rb) (p : ptr) (f : rb_entry → A) : cres A := fld (rb_cells T) p f.

Definition put (T : rb) (p : ptr) (f : rb_entry → rb_entry) : cres rb :=
  Rb (rbh_root T) <$> upd (rb_cells T) p f.

Definition set_root (T : rb) (p : ptr) : rb := Rb p (rb_cells T).

(** An assignment behind a test for NULL. *)
Definition put_if (T : rb) (p : ptr) (f : rb_entry → rb_entry) : cres rb :=
  match p with None => Ret T | Some _ => put T p f end.

(** The pointer to [elm] in its parent, or in the head, is replaced by [tmp]. *)
Definition replace_child (T : rb) (parent : ptr) (elm tmp : ptr) : cres rb :=
  match parent with
  | Some _ =>
      l ← get T parent rbe_left;
      if decide (elm = l) then put T parent (set_child LEFT tmp)
      else put T parent (set_child RIGHT tmp)
  | None => Ret (set_root T tmp)
  end.

(** [RB_ROTATE_LEFT] ([d] is [LEFT]) and [RB_ROTATE_RIGHT]. *)
Definition RB_ROTATE (d : side) (T : rb) (elm : ptr) : cres rb :=
  tmp ← get T elm (child (flip d));
  b ← get T tmp (child d);
  T ← put T elm (set_child (flip d) b);
  T ← put_if T b (set_parent elm);
  parent ← get T elm rbe_parent;
  T ← put T tmp (set_parent parent);
  T ← replace_child T parent elm tmp;
  T ← put T tmp (set_child d elm);
  put T elm (set_parent tmp).

Definition RB_SET_BLACKRED (T : rb) (black red : ptr) : cres rb :=
  T ← put T black (set_color RB_BLACK); put T red (set_color RB_RED).

(** [p && RB_COLOR(p) == RB_RED]. *)
Definition is_red (T : rb) (p : ptr) : cres bool :=
  match p with
  | None => Ret false
  | Some _ => c ← get T p rbe_color; Ret (bool_decide (c = RB_RED))
  end.

Fixpoint RB_INSERT_COLOR (fuel : nat) (T : rb) (elm : ptr) : cres rb :=
  match fuel with
  | O => NoFuel
  | S fuel =>
      parent ← get T elm rbe_parent;
      pr ← is_red T parent;
      if pr : bool then
        gparent ← get T parent rbe_parent;
        gl ← get T gparent rbe_left;
        let d := if decide (parent = gl) then LEFT else RIGHT in
        tmp ← get T gparent (child (flip d));
        ur ← is_red T tmp;
        if ur : bool then
          T ← put T tmp (set_color RB_BLACK);
          T ← RB_SET_BLACKRED T parent gparent;
          RB_INSERT_COLOR fuel T gparent
        else
          inner ← get T parent (child (flip d));
          '(T, parent, elm) ←
            (if decide (inner = elm) then T ← RB_ROTATE d T parent; Ret (T, elm, parent)
             else Ret (T, parent, elm));
          T ← RB_SET_BLACKRED T parent gparent;
          T ← RB_ROTATE (flip d) T gparent;
          RB_INSERT_COLOR fuel T elm
      else put T (rbh_root T) (set_color RB_BLACK)
  end.

(** The walk of [RB_INSERT]: where it stops at an equal element, or the last element
    visited and the last comparison. *)
Fixpoint insert_walk (fuel : nat) (T : rb) (cmp : loc → cres Z) (tmp parent : ptr) (comp : Z)
    : cres (loc + ptr * Z) :=
  match fuel with
  | O => NoFuel
  | S fuel =>
      match tmp with
      | None => Ret (inr (parent, comp))
      | Some t =>
          comp ← cmp t;
          if comp <? 0 then l ← get T tmp rbe_left; insert_walk fuel T cmp l tmp comp
          else if 0 <? comp then r ← get T tmp rbe_right; insert_walk fuel T cmp r tmp comp
          else Ret (inl t)
      end
  end.

Definition RB_SET (T : rb) (elm : loc) (parent : ptr) : rb :=
  Rb (rbh_root T) (<[elm := RbEntry None None parent RB_RED]> (rb_cells T)).

(** The loops of a tree visit an object at most once. *)
Definition rb_fuel (T : rb) : nat := S (S (size (rb_cells T))).

(** [cmp t] is the comparison of the element looked for with the element [t]. *)
Definition RB_INSERT (T : rb) (cmp : loc → cres Z) (elm : loc) : cres (ptr * rb) :=
  r ← insert_walk (rb_fuel T) T cmp (rbh_root T) None 0;
  match r with
  | inl t => Ret (Some t, T)
  | inr (parent, comp) =>
      let T := RB_SET T elm parent in
      T ← match parent with
          | Some _ => put T parent (set_child (if comp <? 0 then LEFT else RIGHT) (Some elm))
          | None => Ret (set_root T (Some elm))
          end;
      T ← RB_INSERT_COLOR (rb_fuel T) T (Some elm);
      Ret (None, T)
  end.

Fixpoint find_walk (fuel : nat) (T : rb) (cmp : loc → cres Z) (tmp : ptr) : cres ptr :=
  match fuel with
  | O => NoFuel
  | S fuel =>
      match tmp with
      | None => Ret None
      | Some t =>
          comp ← cmp t;
          if comp <? 0 then l ← get T tmp rbe_left; find_walk fuel T cmp l
          else if 0 <? comp then r ← get T tmp rbe_right; find_walk fuel T cmp r
          else Ret tmp
      end
  end.

Definition RB_FIND (T : rb) (cmp : loc → cres Z) : cres ptr :=
  find_walk (rb_fuel T) T cmp (rbh_root T).

(** The first element not below the one looked for: [res] is the best seen. *)
Fixpoint nfind_walk (fuel : nat) (T : rb) (cmp : loc → cres Z) (tmp res : ptr) : cres ptr :=
  match fuel with
  | O => NoFuel
  | S fuel =>
      match tmp with
      | None => Ret res
      | Some t =>
          comp ← cmp t;
          if comp <? 0 then l ← get T tmp rbe_left; nfind_walk fuel T cmp l tmp
          else if 0 <? comp then r ← get T tmp rbe_right; nfind_walk fuel T cmp r res
          else Ret tmp
      end
  end.

Definition RB_NFIND (T : rb) (cmp : loc → cres Z) : cres ptr :=
  nfind_walk (rb_fuel T) T cmp (rbh_root T) None.

(** [RB_MIN] ([d] is [LEFT]) and [RB_MAX]. *)
Fixpoint minmax_walk (fuel : nat) (T : rb) (d : side) (tmp parent : ptr) : cres ptr :=
  match fuel with
  | O => NoFuel
  | S fuel =>
      match tmp with
      | None => Ret parent
      | Some _ => n ← get T tmp (child d); minmax_walk fuel T d n tmp
      end
  end.

Definition RB_MINMAX (T : rb) (d : side) : cres ptr :=
  minmax_walk (rb_fuel T) T d (rbh_root T) None.

(** [while (RB_LEFT(elm)) elm = RB_LEFT(elm)], for a side. *)
Fixpoint descend (fuel : nat) (T : rb) (d : side) (elm : ptr) : cres ptr :=
  match fuel with
  | O => NoFuel
  | S fuel =>
      n ← get T elm (child d);
      match n with None => Ret elm | Some _ => descend fuel T d n end
  end.

(** [while (parent && elm is the [d] child of parent) elm = parent]. *)
Fixpoint climb (fuel : nat) (T : rb) (d : side) (elm : ptr) : cres ptr :=
  match fuel with
  | O => NoFuel
  | S fuel =>
      p ← get T elm rbe_parent;
      match p with
      | None => Ret elm
      | Some _ => c ← get T p (child d);
                  if decide (elm = c) then climb fuel T d p else Ret elm
      end
  end.

(** [RB_NEXT] ([d] is [RIGHT]) and [RB_PREV]. *)
Definition RB_STEP (d : side) (T : rb) (elm : ptr) : cres ptr :=
  r ← get T elm (child d);
  match r with
  | Some _ => descend (rb_fuel T) T (flip d) r
  | None =>
      p ← get T elm rbe_parent;
      near ← match p with
             | None => Ret false
             | Some _ => c ← get T p (child (flip d)); Ret (bool_decide (elm = c))
             end;
      if near : bool then Ret p
      else elm ← climb (rb_fuel T) T d elm; get T elm rbe_parent
  end.

Definition RB_NEXT : rb → ptr → cres ptr := RB_STEP RIGHT.
Definition RB_PREV : rb → ptr → cres ptr := RB_STEP LEFT.

(** [RB_FOREACH] with a body that leaves the tree alone. *)
Fixpoint foreach_loop {A} (fuel : nat) (T : rb) (body : A → loc → cres A) (a : A) (x : ptr)
    : cres A :=
  match fuel with
  | O => NoFuel
  | S fuel =>
      match x with
      | None => Ret a
      | Some l => a ← body a l; n ← RB_NEXT T x; foreach_loop fuel T body a n
      end
  end.

Definition RB_FOREACH {A} (T : rb) (body : A → loc → cres A) (a : A) : cres A :=
  x ← RB_MINMAX T LEFT; foreach_loop (rb_fuel T) T body a x.

(** A red sibling [tmp] is rotated above the parent; the new sibling is black. *)
Definition remove_red_sibling (T : rb) (d : side) (parent tmp : ptr) : cres (rb * ptr) :=
  sc ← get T tmp rbe_color;
  if decide (sc = RB_RED) then
    T ← RB_SET_BLACKRED T tmp parent;
    T ← RB_ROTATE d T parent;
    tmp ← get T parent (child (flip d));
    Ret (T, tmp)
  else Ret (T, tmp).

(** The sibling [tmp] has a red child: at most two rotations end the loop. *)
Definition remove_rotate (T : rb) (d : side) (parent tmp : ptr) : cres rb :=
  far ← get T tmp (child (flip d));
  fr ← is_red T far;
  '(T, tmp) ←
    (if fr : bool then Ret (T, tmp)
     else
       o ← get T tmp (child d);
       T ← put_if T o (set_color RB_BLACK);
       T ← put T tmp (set_color RB_RED);
       T ← RB_ROTATE (flip d) T tmp;
       tmp ← get T parent (child (flip d));
       Ret (T, tmp));
  pc ← get T parent rbe_color;
  T ← put T tmp (set_color pc);
  T ← put T parent (set_color RB_BLACK);
  far ← get T tmp (child (flip d));
  T ← put_if T far (set_color RB_BLACK);
  RB_ROTATE d T parent.

Fixpoint RB_REMOVE_COLOR (fuel : nat) (T : rb) (parent elm : ptr) : cres rb :=
  match fuel with
  | O => NoFuel
  | S fuel =>
      er ← is_red T elm;
      if er || bool_decide (elm = rbh_root T) then put_if T elm (set_color RB_BLACK)
      else
        l ← get T parent rbe_left;
        let d := if decide (elm = l) then LEFT else RIGHT in
        tmp ← get T parent (child (flip d));
        '(T, tmp) ← remove_red_sibling T d parent tmp;
        tl ← get T tmp rbe_left;
        lr ← is_red T tl;
        some_red ← (if lr : bool then Ret true else tr ← get T tmp rbe_right; is_red T tr);
        if some_red : bool then
          T ← remove_rotate T d parent tmp;
          put_if T (rbh_root T) (set_color RB_BLACK)
        else
          T ← put T tmp (set_color RB_RED);
          gparent ← get T parent rbe_parent;
          RB_REMOVE_COLOR fuel T gparent parent
  end.

(** The label [color] of [RB_REMOVE]. *)
Definition remove_color (T : rb) (c : color) (parent child : ptr) : cres rb :=
  if decide (c = RB_BLACK) then RB_REMOVE_COLOR (rb_fuel T) T parent child else Ret T.

(** The element has at most the child [ch]. *)
Definition remove_single (T : rb) (elm ch : ptr) : cres rb :=
  parent ← get T elm rbe_parent;
  c ← get T elm rbe_color;
  T ← put_if T ch (set_parent parent);
  T ← replace_child T parent elm ch;
  remove_color T c parent ch.

(** The element [elm], unlinked, takes the place of the element [old]. *)
Definition take_place (T : rb) (old elm : ptr) : cres rb :=
  f ← get T old id;
  T ← put T elm (fun _ => f);
  op ← get T old rbe_parent;
  T ← replace_child T op old elm;
  ol ← get T old rbe_left;
  T ← put T ol (set_parent elm);
  or ← get T old rbe_right;
  put_if T or (set_parent elm).

(** The element [old] has two children: the next element takes its place. *)
Definition remove_double (T : rb) (old right : ptr) : cres rb :=
  elm ← descend (rb_fuel T) T LEFT right;
  ch ← get T elm rbe_right;
  parent ← get T elm rbe_parent;
  c ← get T elm rbe_color;
  T ← put_if T ch (set_parent parent);
  T ← replace_child T parent elm ch;
  ep ← get T elm rbe_parent;
  let parent := if decide (ep = old) then elm else parent in
  T ← take_place T old elm;
  remove_color T c parent ch.

Definition RB_REMOVE (T : rb) (elm : loc) : cres rb :=
  l ← get T (Some elm) rbe_left;
  r ← get T (Some elm) rbe_right;
  match l, r with
  | None, _ => remove_single T (Some elm) r
  | Some _, None => remove_single T (Some elm) l
  | Some _, Some _ => remove_double T (Some elm) r
  end.

(** Trees to run the macros on: the objects are their own keys. *)
Definition by_number (x : loc) : loc → cres Z := fun t => Ret (Zpos x - Zpos t).

Definition rb_add (T : cres rb) (x : loc) : cres rb := T ← T; snd <$> RB_INSERT T (by_number x) x.
Definition rb_del (T : cres rb) (x : loc) : cres rb := T ← T; RB_REMOVE T x.
Definition rb_list (T : cres rb) : cres (list loc) :=
  T ← T; RB_FOREACH T (fun l x => Ret (l ++ [x])) [].

Example rb_run :
  let T := foldl rb_add (Ret (Rb None ∅)) [5; 3; 8; 1; 4; 7; 9; 2; 6; 10; 12; 11]%positive in
  rb_list T = Ret [1; 2; 3; 4; 5; 6; 7; 8; 9; 10; 11; 12]%positive ∧
  rb_list (foldl rb_del T [5; 8; 1; 12; 3; 7]%positive) = Ret [2; 4; 6; 9; 10; 11]%positive ∧
  rb_list (foldl rb_del T [5; 8; 1; 12; 3; 7; 2; 11; 4; 10; 6; 9]%positive) = Ret [].
Proof. vm_compute. done. Qed.

(** ** The tree a store holds *)

Inductive tree := Tip | Bin (c : color) (l : tree) (x : loc) (r : tree).

(** A node whose subtree on side [d] is [a]. *)
Definition bin (d : side) (c : color) (a : tree) (x : loc) (b : tree) : tree :=
  match d with LEFT => Bin c a x b | RIGHT => Bin c b x a end.

Definition rootp (t : tree) : ptr := match t with Tip => None | Bin _ _ x _ => Some x end.

Fixpoint inorder (t : tree) : list loc :=
  match t with Tip => [] | Bin _ l x r => inorder l ++ x :: inorder r end.

(** The entry whose child on side [d] is [p]. *)
Definition entry (d : side) (p q parent : ptr) (c : color) : rb_entry :=
  match d with LEFT => RbEntry p q parent c | RIGHT => RbEntry q p parent c end.

Fixpoint rep (h : cells) (parent : ptr) (t : tree) : Prop :=
  match t with
  | Tip => True
  | Bin c l x r =>
      h !! x = Some (RbEntry (rootp l) (rootp r) parent c) ∧
      rep h (Some x) l ∧ rep h (Some x) r
  end.

(** One step of a path to the root: the hole is on side [s_side] of [s_at]. *)
Record step := Step { s_side : side; s_color : color; s_at : loc; s_other : tree }.

Definition top (C : list step) : ptr := match C with [] => None | s :: _ => Some (s_at s) end.

Fixpoint plug (C : list step) (t : tree) : tree :=
  match C with
  | [] => t
  | s :: C => plug C (bin (s_side s) (s_color s) t (s_at s) (s_other s))
  end.

(** The tree with a hole at the end of the path [C]: [p] is the pointer to what is in
    the hole. *)
Fixpoint hole (T : rb) (C : list step) (p : ptr) : Prop :=
  match C with
  | [] => rbh_root T = p
  | s :: C =>
      rb_cells T !! s_at s
      = Some (entry (s_side s) p (rootp (s_other s)) (top C) (s_color s)) ∧
      rep (rb_cells T) (Some (s_at s)) (s_other s) ∧
      hole T C (Some (s_at s))
  end.

Fixpoint path_nodes (C : list step) : list loc :=
  match C with [] => [] | s :: C => s_at s :: inorder (s_other s) ++ path_nodes C end.

(** The store holds the tree [t] at the end of the path [C]. *)
Record at_hole (T : rb) (C : list step) (t : tree) : Prop := {
  ah_rep : rep (rb_cells T) (top C) t;
  ah_hole : hole T C (rootp t);
  ah_nodup : NoDup (inorder t ++ path_nodes C)
}.

Lemma rootp_bin d c a x b : rootp (bin d c a x b) = Some x.
Proof. by destruct d. Qed.

Lemma rep_bin h parent d c a x b :
  rep h parent (bin d c a x b) ↔
  h !! x = Some (entry d (rootp a) (rootp b) parent c) ∧ rep h (Some x) a ∧ rep h (Some x) b.
Proof. destruct d; simpl; naive_solver. Qed.

Lemma inorder_bin_perm d c a x b : inorder (bin d c a x b) ≡ₚ x :: inorder a ++ inorder b.
Proof. destruct d; simpl; solve_Permutation. Qed.

Lemma plug_perm C t : inorder (plug C t) ≡ₚ inorder t ++ path_nodes C.
Proof.
  revert t; induction C as [|s C IH]; intros t; simpl; [by rewrite app_nil_r|].
  rewrite IH, inorder_bin_perm. solve_Permutation.
Qed.

Lemma at_hole_plug T C t : at_hole T C t ↔ at_hole T [] (plug C t).
Proof.
  revert t; induction C as [|s C IH]; intros t; [done|]. simpl. rewrite <- IH.
  split; intros [Hr Hh Hn]; split; simpl in *.
  - apply rep_bin. naive_solver.
  - rewrite rootp_bin. naive_solver.
  - rewrite inorder_bin_perm. eapply NoDup_Permutation_proper; [|exact Hn]. solve_Permutation.
  - apply rep_bin in Hr. naive_solver.
  - rewrite rootp_bin in Hh. apply rep_bin in Hr. naive_solver.
  - rewrite inorder_bin_perm in Hn. eapply NoDup_Permutation_proper; [|exact Hn].
    solve_Permutation.
Qed.

(** Entering and leaving a child. *)
Lemma at_hole_down T C d c a x b :
  at_hole T C (bin d c a x b) ↔ at_hole T (Step d c x b :: C) a.
Proof. by rewrite at_hole_plug, (at_hole_plug _ (_ :: _)). Qed.

(** Only the entries of the tree matter. *)
Lemma rep_frame h h' parent t :
  (∀ x, x ∈ inorder t → h' !! x = h !! x) → rep h parent t → rep h' parent t.
Proof.
  revert parent; induction t as [|c l IHl x r IHr]; intros parent Hf; simpl; [done|].
  simpl in Hf. intros (Hx & Hl & Hr). split; [|split].
  - rewrite Hf; [done|set_solver].
  - apply IHl; [set_solver|done].
  - apply IHr; [set_solver|done].
Qed.

Lemma hole_frame T T' C p :
  (∀ x, x ∈ path_nodes C → rb_cells T' !! x = rb_cells T !! x) → rbh_root T' = rbh_root T →
  hole T C p → hole T' C p.
Proof.
  intros Hf Hr. revert p Hf; induction C as [|s C IH]; intros p Hf; simpl; [congruence|].
  simpl in Hf. intros (Hs & Ho & HC). split; [|split].
  - rewrite Hf; [done|set_solver].
  - eapply rep_frame; [|done]. set_solver.
  - apply IH; [set_solver|done].
Qed.

(** What an operation on the nodes [l] leaves alone. *)
Record local_to (l : list loc) (T T' : rb) : Prop := {
  lt_frame z : z ∉ l → rb_cells T' !! z = rb_cells T !! z;
  lt_dom : dom (rb_cells T') = dom (rb_cells T)
}.

Lemma local_refl l T : local_to l T T.
Proof. done. Qed.

Lemma local_trans l T1 T2 T3 : local_to l T1 T2 → local_to l T2 T3 → local_to l T1 T3.
Proof. intros [F1 D1] [F2 D2]. split; [|congruence]. intros z Hz. rewrite F2 by done. auto. Qed.

Lemma local_mono l l' T T' : local_to l T T' → l ⊆ l' → local_to l' T T'.
Proof. intros [F D] Hs. split; [|done]. intros z Hz. apply F. set_solver. Qed.

Lemma rep_local l T T' parent t :
  local_to l T T' → inorder t ## l → rep (rb_cells T) parent t → rep (rb_cells T') parent t.
Proof. intros [F _] Hd. apply rep_frame. intros x Hx. apply F. set_solver. Qed.

Lemma hole_local l T T' C p :
  local_to l T T' → path_nodes C ## l → rbh_root T' = rbh_root T → hole T C p → hole T' C p.
Proof. intros [F _] Hd. apply hole_frame. intros x Hx. apply F. set_solver. Qed.

Lemma lookup_local l T T' x e :
  local_to l T T' → x ∉ l → rb_cells T !! x = Some e → rb_cells T' !! x = Some e.
Proof. intros [F _] Hd <-. by apply F. Qed.

Lemma get_ok {A} T x e (f : rb_entry → A) :
  rb_cells T !! x = Some e → get T (Some x) f = Ret (f e).
Proof. intros H. unfold get, fld. by rewrite H. Qed.

Lemma put_ok T x e f :
  rb_cells T !! x = Some e →
  ∃ T', put T (Some x) f = Ret T' ∧ rb_cells T' !! x = Some (f e) ∧
        rbh_root T' = rbh_root T ∧ local_to [x] T T'.
Proof.
  intros H. unfold put, upd. rewrite H. simpl. eexists. split; [done|]. simpl.
  split; [by rewrite lookup_insert_eq|]. split; [done|]. split; simpl.
  - intros z Hz. apply lookup_insert_ne. set_solver.
  - rewrite dom_insert_L. apply elem_of_dom_2 in H. set_solver.
Qed.

(** The root of a subtree gets another parent. *)
Lemma reparent_ok T p q t :
  rep (rb_cells T) p t → NoDup (inorder t) →
  ∃ T', put_if T (rootp t) (set_parent q) = Ret T' ∧ rep (rb_cells T') q t ∧
        rbh_root T' = rbh_root T ∧ local_to (inorder t) T T'.
Proof.
  destruct t as [|c l x r]; simpl; intros Hr Hn.
  { exists T. repeat split; try done. }
  destruct Hr as (Hx & Hl & Hr). apply NoDup_app in Hn as (Hnl & Hd & Hnr).
  apply NoDup_cons in Hnr as [Hxr Hnr].
  destruct (put_ok T x _ (set_parent q) Hx) as (T' & E & Hx' & Hroot & Hloc).
  exists T'. split; [done|]. split; [|split; [done|]].
  - split; [by rewrite Hx'|]. split; eapply rep_local; try done; set_solver.
  - eapply local_mono; [done|]. set_solver.
Qed.

(** The pointer to a subtree is replaced in its parent or in the head. *)
Lemma replace_child_ok T C old new :
  hole T C (Some old) → old ∉ path_nodes C → NoDup (path_nodes C) →
  ∃ T', replace_child T (top C) (Some old) new = Ret T' ∧ hole T' C new ∧
        local_to (path_nodes C) T T'.
Proof.
  destruct C as [|s C]; simpl.
  { intros _ _ _. exists (set_root T new). repeat split. }
  intros (Hs & Ho & HC) Hold Hn. apply NoDup_cons in Hn as [Hsn Hn].
  apply NoDup_app in Hn as (Hno & Hd & HnC).
  unfold replace_child. simpl.
  assert (∃ T', (l ← get T (Some (s_at s)) rbe_left;
    if decide (Some old = l) then put T (Some (s_at s)) (set_child LEFT new)
    else put T (Some (s_at s)) (set_child RIGHT new)) = Ret T' ∧
    rb_cells T' !! s_at s = Some (entry (s_side s) new (rootp (s_other s)) (top C) (s_color s)) ∧
    rbh_root T' = rbh_root T ∧ local_to [s_at s] T T') as (T' & E & Hs' & Hr' & Hl).
  { rewrite (get_ok _ _ _ _ Hs). simpl. destruct (s_side s); simpl.
    - rewrite decide_True by done. exact (put_ok T _ _ (set_child LEFT new) Hs).
    - rewrite decide_False.
      { exact (put_ok T _ _ (set_child RIGHT new) Hs). }
      intros E. apply Hold. destruct (s_other s); simpl in *; [done|]. set_solver. }
  exists T'. split; [exact E|]. split.
  - split; [done|]. split; [eapply rep_local; try done; set_solver|].
    eapply hole_local; try done. set_solver.
  - eapply local_mono; [done|]. set_solver.
Qed.

#[global] Arguments get : simpl never.
#[global] Arguments put : simpl never.
#[global] Arguments replace_child : simpl never.
#[global] Arguments RB_ROTATE : simpl never.

Lemma flip_flip d : flip (flip d) = d.
Proof. by destruct d. Qed.

Lemma child_entry d p q r c : child d (entry d p q r c) = p.
Proof. by destruct d. Qed.
Lemma child_flip_entry d p q r c : child (flip d) (entry d p q r c) = q.
Proof. by destruct d. Qed.
Lemma parent_entry d p q r c : rbe_parent (entry d p q r c) = r.
Proof. by destruct d. Qed.
Lemma color_entry d p q r c : rbe_color (entry d p q r c) = c.
Proof. by destruct d. Qed.
Lemma set_child_entry d p q r c p' : set_child d p' (entry d p q r c) = entry d p' q r c.
Proof. by destruct d. Qed.
Lemma set_child_flip_entry d p q r c q' :
  set_child (flip d) q' (entry d p q r c) = entry d p q' r c.
Proof. by destruct d. Qed.
Lemma set_parent_entry d p q r c r' : set_parent r' (entry d p q r c) = entry d p q r' c.
Proof. by destruct d. Qed.
Lemma set_color_entry d p q r c c' : set_color c' (entry d p q r c) = entry d p q r c'.
Proof. by destruct d. Qed.

Create Rewrite HintDb rb_entry.
#[export] Hint Rewrite flip_flip child_entry child_flip_entry parent_entry color_entry
  set_child_entry set_child_flip_entry set_parent_entry set_color_entry rootp_bin : rb_entry.

(** Run the next assignment or read of a macro, [Hx] being the entry it goes to. *)
Ltac rb_get Hx := rewrite (get_ok _ _ _ _ Hx); simpl; autorewrite with rb_entry.
Ltac rb_put Hx T' Hr Hl :=
  let Hx' := fresh "Hput" in
  match goal with |- context [put ?T (Some ?x) ?f] =>
    let E := fresh in
    destruct (put_ok T x _ f Hx) as (T' & E & Hx' & Hr & Hl); rewrite E; clear E; simpl
  end; autorewrite with rb_entry in Hx'; clear Hx; rename Hx' into Hx.

(** Facts about disjoint pieces of a tree. *)
Ltac nodups := repeat match goal with
  | H : NoDup (_ :: _) |- _ => apply NoDup_cons in H as [? ?]
  | H : NoDup (_ ++ _) |- _ => apply NoDup_app in H as (? & ? & ?)
  end.
Ltac apart := solve [ done | nodups; set_solver ].

Lemma rotate_ok d T C c c' a b e x y :
  at_hole T C (bin d c a x (bin d c' b y e)) →
  ∃ T', RB_ROTATE d T (Some x) = Ret T' ∧
        at_hole T' C (bin d c' (bin d c a x b) y e) ∧
        local_to (inorder (bin d c a x (bin d c' b y e)) ++ path_nodes C) T T'.
Proof.
  intros [Hr Hh Hn].
  assert (Hnd : NoDup (x :: y :: inorder a ++ inorder b ++ inorder e ++ path_nodes C)).
  { rewrite !inorder_bin_perm in Hn. eapply NoDup_Permutation_proper; [|exact Hn].
    solve_Permutation. }
  apply rep_bin in Hr as (Hx & Ha & Hr). apply rep_bin in Hr as (Hy & Hb & He).
  rewrite rootp_bin in Hx, Hh. unfold RB_ROTATE.
  rb_get Hx. rb_get Hy. rb_put Hx T1 R1 L1.
  eapply lookup_local in Hy; [|exact L1|apart].
  eapply rep_local in Hb; [|exact L1|apart].
  destruct (reparent_ok T1 _ (Some x) b Hb) as (T2 & -> & Hb2 & R2 & L2); [apart|]. simpl.
  eapply lookup_local in Hx; [|exact L2|apart]. eapply lookup_local in Hy; [|exact L2|apart].
  rb_get Hx. rb_put Hy T3 R3 L3.
  eapply lookup_local in Hx; [|exact L3|apart].
  assert (L13 : local_to (x :: y :: inorder b) T T3).
  { eapply local_trans; [eapply local_mono; [exact L1|set_solver]|].
    eapply local_trans; eapply local_mono; [exact L2|set_solver|exact L3|set_solver]. }
  eapply hole_local in Hh; [|exact L13|apart|congruence].
  destruct (replace_child_ok T3 C x (Some y) Hh) as (T4 & -> & Hh4 & L4); [apart..|]. simpl.
  eapply lookup_local in Hx; [|exact L4|apart]. eapply lookup_local in Hy; [|exact L4|apart].
  rb_put Hy T5 R5 L5. eapply lookup_local in Hx; [|exact L5|apart].
  destruct (put_ok T5 x _ (set_parent (Some y)) Hx) as (T6 & E & Hx6 & R6 & L6).
  autorewrite with rb_entry in Hx6. exists T6. split; [done|].
  assert (L56 : local_to [x; y] T4 T6).
  { eapply local_trans; eapply local_mono; [exact L5|set_solver|exact L6|set_solver]. }
  assert (L16 : local_to (x :: y :: inorder b ++ path_nodes C) T T6).
  { eapply local_trans; [eapply local_mono; [exact L13|set_solver]|].
    eapply local_trans; eapply local_mono; [exact L4|set_solver|exact L56|set_solver]. }
  split; [|eapply local_mono; [exact L16|rewrite !inorder_bin_perm; set_solver]].
  split.
  - apply rep_bin. rewrite rootp_bin. split; [|split].
    + eapply lookup_local; [exact L6|apart|done].
    + apply rep_bin. split; [done|]. split.
      * eapply rep_local; [exact L16|apart|done].
      * eapply rep_local; [exact L56|apart|]. eapply rep_local; [exact L4|apart|].
        eapply rep_local; [exact L3|apart|done].
    + eapply rep_local; [exact L16|apart|done].
  - rewrite rootp_bin. eapply hole_local; [exact L56|apart|congruence|done].
  - rewrite !inorder_bin_perm. rewrite !inorder_bin_perm in Hn.
    eapply NoDup_Permutation_proper; [|exact Hn]. solve_Permutation.
Qed.

(** ** Balance *)

Definition redb (t : tree) : bool := match t with Bin RB_RED _ _ _ => true | _ => false end.
Definition black (t : tree) : Prop := redb t = false.

(** No red node has a red child, and every path down has [n] black nodes. *)
Fixpoint rbt (t : tree) (n : nat) : Prop :=
  match t with
  | Tip => n = O
  | Bin RB_RED l _ r => black l ∧ black r ∧ rbt l n ∧ rbt r n
  | Bin RB_BLACK l _ r => match n with O => False | S m => rbt l m ∧ rbt r m end
  end.

Definition rb_ok (t : tree) : Prop := black t ∧ ∃ n, rbt t n.

Definition black_top (C : list step) : Prop :=
  match C with [] => False | s :: _ => s_color s = RB_BLACK end.

(** A path whose hole takes a tree with [n] black nodes on every way down. *)
Fixpoint ctx (C : list step) (n : nat) : Prop :=
  match C with
  | [] => True
  | s :: C =>
      rbt (s_other s) n ∧
      match s_color s with
      | RB_RED => black (s_other s) ∧ black_top C ∧ ctx C n
      | RB_BLACK => ctx C (S n)
      end
  end.

Lemma rbt_red d a x b n :
  rbt (bin d RB_RED a x b) n ↔ black a ∧ black b ∧ rbt a n ∧ rbt b n.
Proof. destruct d; simpl; naive_solver. Qed.

Lemma rbt_black d a x b n : rbt (bin d RB_BLACK a x b) (S n) ↔ rbt a n ∧ rbt b n.
Proof. destruct d; simpl; naive_solver. Qed.

Lemma redb_bin d c a x b : redb (bin d c a x b) = bool_decide (c = RB_RED).
Proof. by destruct d, c. Qed.

Lemma black_bin d a x b : black (bin d RB_BLACK a x b).
Proof. by destruct d. Qed.

Lemma bin_flip d c a x b : bin (flip d) c a x b = bin d c b x a.
Proof. by destruct d. Qed.

(** Closing a path. *)
Lemma ctx_plug C t n :
  ctx C n → rbt t n → (black_top C ∨ black t) → rb_ok (plug C t).
Proof.
  revert t n; induction C as [|s C IH]; intros t n; simpl.
  { intros _ Ht [[]|Hb]. by split; [|exists n]. }
  intros [Ho Hs] Ht Hb. destruct s as [d c x o]; simpl in *. destruct c.
  - eapply IH; [done|by apply rbt_black|]. right. apply black_bin.
  - destruct Hs as (Hob & HC & Hctx). eapply IH; [done| |by left].
    apply rbt_red. destruct Hb as [?|Hb]; done.
Qed.

(** Opening a tree at the end of a path. *)
Lemma plug_ctx C t :
  rb_ok (plug C t) → ∃ n, ctx C n ∧ rbt t n ∧ (black_top C ∨ black t).
Proof.
  revert t; induction C as [|[d c x o] C IH]; intros t; simpl.
  { intros [Hb [n Hn]]. exists n. auto. }
  intros (n & HC & Hn & Hb)%IH. destruct c.
  - destruct n as [|n]; [by destruct d|]. apply rbt_black in Hn as [Ht Ho].
    exists n. auto.
  - apply rbt_red in Hn as (Hbt & Hbo & Ht & Ho). exists n.
    destruct Hb as [Hb|Hb]; [|by destruct d]. auto 10.
Qed.

Lemma inorder_rot d c c' a b e x y :
  inorder (bin d c a x (bin d c' b y e)) = inorder (bin d c' (bin d c a x b) y e).
Proof. destruct d; simpl; by rewrite <- ?app_assoc. Qed.

Lemma inorder_bin_eq d c c' a a' x b b' :
  inorder a = inorder a' → inorder b = inorder b' →
  inorder (bin d c a x b) = inorder (bin d c' a' x b').
Proof. destruct d; simpl; congruence. Qed.

Lemma inorder_plug C t t' : inorder t = inorder t' → inorder (plug C t) = inorder (plug C t').
Proof.
  revert t t'; induction C as [|s C IH]; intros t t' E; simpl; [done|].
  apply IH, inorder_bin_eq; done.
Qed.

Lemma rootp_elem t x : rootp t = Some x → x ∈ inorder t.
Proof. destruct t; simpl; [done|]. intros [= ->]. set_solver. Qed.

Lemma is_red_ok T p t : rep (rb_cells T) p t → is_red T (rootp t) = Ret (redb t).
Proof.
  destruct t as [|c l x r]; [done|]. intros (Hx & _). simpl. rb_get Hx. by destruct c.
Qed.

(** Painting the root of what is in the hole. *)
Lemma paint_ok T C d c c' a x b :
  at_hole T C (bin d c a x b) →
  ∃ T', put T (Some x) (set_color c') = Ret T' ∧ at_hole T' C (bin d c' a x b) ∧
        rbh_root T' = rbh_root T ∧ local_to [x] T T'.
Proof.
  intros [Hr Hh Hn]. rewrite inorder_bin_perm in Hn. apply rep_bin in Hr as (Hx & Ha & Hb).
  destruct (put_ok T x _ (set_color c') Hx) as (T' & E & Hx' & Hroot & Hl).
  autorewrite with rb_entry in Hx'. exists T'. split; [done|]. split; [|done]. split.
  - apply rep_bin. split; [done|]. split; (eapply rep_local; [exact Hl|apart|done]).
  - rewrite rootp_bin in *. eapply hole_local; [exact Hl|apart|done|done].
  - by rewrite inorder_bin_perm.
Qed.

(** [T] holds the elements [l], as the tree [t] at the end of [C], and differs from [T0]
    in their entries only. *)
Record turned (l : list loc) (T0 T : rb) (C : list step) (t : tree) : Prop := {
  tu_at : at_hole T C t;
  tu_order : inorder (plug C t) = l;
  tu_local : local_to l T0 T
}.

Lemma turned_refl T C t : at_hole T C t → turned (inorder (plug C t)) T T C t.
Proof. intros H. split; [done|done|apply local_refl]. Qed.

Lemma turned_focus C' t' l T0 T C t :
  turned l T0 T C t → plug C t = plug C' t' → turned l T0 T C' t'.
Proof.
  intros [Ha Ho Hl] E. split; [|by rewrite <- E|done].
  rewrite at_hole_plug, <- E, <- at_hole_plug. done.
Qed.

Lemma turned_rotate d l T0 T C c c' a b e x y :
  turned l T0 T C (bin d c a x (bin d c' b y e)) →
  ∃ T', RB_ROTATE d T (Some x) = Ret T' ∧ turned l T0 T' C (bin d c' (bin d c a x b) y e).
Proof.
  intros [Ha Ho Hl]. destruct (rotate_ok _ _ _ _ _ _ _ _ _ _ Ha) as (T' & E & Ha' & Hl').
  exists T'. split; [done|]. split; [done| |].
  - rewrite <- Ho. apply inorder_plug. by rewrite inorder_rot.
  - eapply local_trans; [done|]. eapply local_mono; [done|]. rewrite <- Ho, plug_perm. done.
Qed.

Lemma turned_paint c' l T0 T C d c a x b :
  turned l T0 T C (bin d c a x b) →
  ∃ T', put T (Some x) (set_color c') = Ret T' ∧ turned l T0 T' C (bin d c' a x b) ∧
        rbh_root T' = rbh_root T.
Proof.
  intros [Ha Ho Hl].
  destruct (paint_ok T C d c c' a x b Ha) as (T' & E & Ha' & Hr & Hl').
  exists T'. split; [done|]. split; [|done]. split; [done| |].
  - rewrite <- Ho. apply inorder_plug. by apply inorder_bin_eq.
  - eapply local_trans; [done|]. eapply local_mono; [done|].
    rewrite <- Ho, plug_perm, inorder_bin_perm. set_solver.
Qed.

(** Reading the entry at the end of a path, and the one above it. *)
Lemma turned_entry l T0 T C d c a x b :
  turned l T0 T C (bin d c a x b) →
  rb_cells T !! x = Some (entry d (rootp a) (rootp b) (top C) c).
Proof. intros [[Hr _ _] _ _]. by apply rep_bin in Hr as [? _]. Qed.

Lemma turned_above l T0 T s C t :
  turned l T0 T (s :: C) t →
  rb_cells T !! s_at s = Some (entry (s_side s) (rootp t) (rootp (s_other s)) (top C) (s_color s)).
Proof. intros [[_ Hh _] _ _]. by destruct Hh. Qed.

Lemma turned_red l T0 T C t : turned l T0 T C t → is_red T (rootp t) = Ret (redb t).
Proof. intros [[Hr _ _] _ _]. by eapply is_red_ok. Qed.

Lemma turned_sibling_red l T0 T s C t :
  turned l T0 T (s :: C) t → is_red T (rootp (s_other s)) = Ret (redb (s_other s)).
Proof. intros [[_ Hh _] _ _]. destruct Hh as (_ & Ho & _). by eapply is_red_ok. Qed.

Lemma turned_apart l T0 T s C t :
  turned l T0 T (s :: C) t → rootp t ≠ None → rootp t ≠ rootp (s_other s).
Proof.
  intros [[_ _ Hn] _ _] Ht E. destruct (rootp t) as [x|] eqn:Ex; [|done].
  symmetry in E. apply rootp_elem in E, Ex. simpl in Hn. nodups. set_solver.
Qed.

(** The test that tells on which side of its parent an element is. *)
Lemma side_test l T0 T s C t par c :
  turned l T0 T (s :: C) t → rootp t ≠ rootp (s_other s) →
  (if decide (rootp t = rbe_left (entry (s_side s) (rootp t) (rootp (s_other s)) par c))
   then LEFT else RIGHT) = s_side s.
Proof.
  intros _ Hne. destruct (s_side s); simpl; [by rewrite decide_True|by rewrite decide_False].
Qed.

(** The end of [RB_INSERT_COLOR]. *)
Lemma blacken_root l T0 T t :
  turned l T0 T [] t → t ≠ Tip →
  ∃ T', put T (rbh_root T) (set_color RB_BLACK) = Ret T' ∧
        turned l T0 T' [] (match t with Tip => Tip | Bin _ a x b => Bin RB_BLACK a x b end).
Proof.
  intros Ht Hne. destruct t as [|c a x b]; [done|].
  assert (rbh_root T = Some x) as -> by (destruct Ht as [[_ Hh _] _ _]; done).
  destruct (turned_paint RB_BLACK l T0 T [] LEFT c a x b Ht) as (T' & E & Ht' & _).
  by exists T'.
Qed.

(** Tree with a black parent: nothing to do but to paint the root. *)
Lemma insert_color_done l T0 T C x a b n :
  turned l T0 T C (Bin RB_RED a x b) → black_top C ∨ C = [] →
  rbt (Bin RB_RED a x b) n → ctx C n →
  ∃ T' t', put T (rbh_root T) (set_color RB_BLACK) = Ret T' ∧ turned l T0 T' [] t' ∧ rb_ok t'.
Proof.
  intros Ht HC Hx Hctx.
  assert (Ht0 : turned l T0 T [] (plug C (Bin RB_RED a x b))) by (eapply turned_focus; done).
  assert (Hok : C = [] ∨ rb_ok (plug C (Bin RB_RED a x b))).
  { destruct HC as [HC|HC]; [right|by left]. eapply ctx_plug; eauto. }
  assert (Hroot : ∃ c a' x' b', plug C (Bin RB_RED a x b) = Bin c a' x' b' ∧
    rb_ok (Bin RB_BLACK a' x' b')).
  { destruct Hok as [->|Hok].
    - simpl. destruct Hx as (_ & _ & Ha & Hb). do 4 eexists. split; [done|].
      split; [done|]. exists (S n). done.
    - destruct (plug C (Bin RB_RED a x b)) as [|c a' x' b'] eqn:E.
      + apply (f_equal inorder) in E. pose proof (plug_perm C (Bin RB_RED a x b)) as Hp.
        rewrite E in Hp. apply Permutation_nil_l in Hp. simpl in Hp. by destruct (inorder a).
      + exists c, a', x', b'. split; [done|]. destruct c; [done|]. by destruct Hok. }
  destruct Hroot as (c & a' & x' & b' & E & Hb). rewrite E in Ht0.
  destruct (blacken_root l T0 T _ Ht0) as (T' & -> & Ht'); [done|]. by exists T', (Bin RB_BLACK a' x' b').
Qed.

Lemma above_red l T0 T s C t :
  turned l T0 T (s :: C) t →
  is_red T (Some (s_at s)) = Ret (bool_decide (s_color s = RB_RED)).
Proof. intros H. unfold is_red. rb_get (turned_above _ _ _ _ _ _ H). done. Qed.

Lemma turned_up l T0 T s C t :
  turned l T0 T (s :: C) t →
  turned l T0 T C (bin (s_side s) (s_color s) t (s_at s) (s_other s)).
Proof. intros H. by eapply turned_focus. Qed.

Lemma turned_down l T0 T C d c a x b :
  turned l T0 T C (bin d c a x b) → turned l T0 T (Step d c x b :: C) a.
Proof. intros H. by eapply turned_focus. Qed.

Lemma turned_other l T0 T C d c a x b :
  turned l T0 T C (bin d c a x b) → turned l T0 T (Step (flip d) c x a :: C) b.
Proof. intros H. eapply turned_focus; [done|]. simpl. by rewrite bin_flip. Qed.

Lemma blackred_ok l T0 T C d cg g u dp cp a p b :
  turned l T0 T C (bin d cg (bin dp cp a p b) g u) →
  ∃ T', RB_SET_BLACKRED T (Some p) (Some g) = Ret T' ∧
        turned l T0 T' C (bin d RB_RED (bin dp RB_BLACK a p b) g u).
Proof.
  intros H. unfold RB_SET_BLACKRED.
  destruct (turned_paint RB_BLACK _ _ _ _ _ _ _ _ _ (turned_down _ _ _ _ _ _ _ _ _ H))
    as (T1 & -> & H1 & _). simpl.
  apply turned_up in H1. simpl in H1.
  destruct (turned_paint RB_RED _ _ _ _ _ _ _ _ _ H1) as (T2 & -> & H2 & _). by exists T2.
Qed.

(** The uncle is red: the colours move up. *)
Lemma insert_recolor l T0 T C d g d1 t p s1 du ul uy ur :
  turned l T0 T C (bin d RB_BLACK (bin d1 RB_RED t p s1) g (bin du RB_RED ul uy ur)) →
  ∃ T', (T ← put T (Some uy) (set_color RB_BLACK); RB_SET_BLACKRED T (Some p) (Some g)) = Ret T' ∧
        turned l T0 T' C (bin d RB_RED (bin d1 RB_BLACK t p s1) g (bin du RB_BLACK ul uy ur)).
Proof.
  intros H.
  destruct (turned_paint RB_BLACK _ _ _ _ _ _ _ _ _ (turned_other _ _ _ _ _ _ _ _ _ H))
    as (T1 & -> & H1 & _). simpl.
  apply turned_up in H1. simpl in H1. rewrite bin_flip in H1. by apply blackred_ok in H1.
Qed.

Lemma bin_any d d' c a x b : ∃ a' b', bin d c a x b = bin d' c a' x b'.
Proof. destruct d, d'; simpl; eauto. Qed.

(** The uncle is black: at most two rotations. *)
Lemma insert_rotate l T0 T C d g d1 a x b p s1 u :
  turned l T0 T C (bin d RB_BLACK (bin d1 RB_RED (Bin RB_RED a x b) p s1) g u) →
  ∃ T' q A e,
    ('(T, parent, elm) ←
        (if decide (d1 = flip d) then T ← RB_ROTATE d T (Some p); Ret (T, Some x, Some p)
         else Ret (T, Some p, Some x));
     T ← RB_SET_BLACKRED T parent (Some g);
     T ← RB_ROTATE (flip d) T (Some g);
     Ret (T, elm)) = Ret (T', rootp A) ∧
    turned l T0 T' (Step d RB_BLACK q (bin d RB_RED e g u) :: C) A ∧
    ∀ n, rbt (Bin RB_RED a x b) n → rbt s1 n → black s1 →
         redb A = true ∧ rbt A n ∧ rbt e n ∧ black e.
Proof.
  intros H. destruct (decide (d1 = flip d)) as [->|Hd].
  - rewrite bin_flip in H.
    destruct (bin_any LEFT d RB_RED a x b) as (a' & b' & E). simpl in E. rewrite E in *.
    destruct (turned_rotate d _ _ _ _ _ _ _ _ _ _ _ (turned_down _ _ _ _ _ _ _ _ _ H))
      as (T1 & -> & H1). simpl.
    apply turned_up in H1. simpl in H1.
    destruct (blackred_ok _ _ _ _ _ _ _ _ _ _ _ _ _ H1) as (T2 & -> & H2). simpl.
    rewrite <- !(bin_flip d _ _ g), <- (bin_flip d _ _ x) in H2.
    apply turned_rotate in H2 as (T3 & -> & H3). simpl.
    exists T3, x, (bin d RB_RED s1 p a'), b'. rewrite rootp_bin. split; [done|].
    rewrite !bin_flip in H3. split; [by apply turned_down|].
    intros n Hx Hs Hsb. apply rbt_red in Hx as (Hab & Hbb & Ha & Hb).
    rewrite redb_bin. split; [done|]. split; [by apply rbt_red|]. done.
  - assert (d1 = d) as -> by (by destruct d1, d).
    destruct (blackred_ok _ _ _ _ _ _ _ _ _ _ _ _ _ H) as (T2 & E2 & H2). simpl.
    rewrite E2. simpl.
    rewrite <- !(bin_flip d _ _ g), <- (bin_flip d _ _ p) in H2.
    apply turned_rotate in H2 as (T3 & -> & H3). simpl.
    exists T3, p, (Bin RB_RED a x b), s1. split; [done|].
    rewrite !bin_flip in H3. split; [by apply turned_down|]. done.
Qed.

#[global] Arguments is_red : simpl never.

Lemma red_inv A : redb A = true → ∃ a x b, A = Bin RB_RED a x b.
Proof. destruct A as [|[] a x b]; simpl; try done. eauto. Qed.

(** One turn of the loop when the parent is red. *)
Lemma insert_color_turn fuel l T0 T C d1 p s1 d g u a x b :
  turned l T0 T (Step d1 RB_RED p s1 :: Step d RB_BLACK g u :: C) (Bin RB_RED a x b) →
  RB_INSERT_COLOR (S fuel) T (Some x) =
  if redb u then
    T ← put T (rootp u) (set_color RB_BLACK);
    T ← RB_SET_BLACKRED T (Some p) (Some g);
    RB_INSERT_COLOR fuel T (Some g)
  else
    '(T, parent, elm) ←
      (if decide (d1 = flip d) then T ← RB_ROTATE d T (Some p); Ret (T, Some x, Some p)
       else Ret (T, Some p, Some x));
    T ← RB_SET_BLACKRED T parent (Some g);
    T ← RB_ROTATE (flip d) T (Some g);
    RB_INSERT_COLOR fuel T elm.
Proof.
  intros H. simpl.
  pose proof (turned_entry _ _ _ _ LEFT _ _ _ _ H) as Ex. rb_get Ex. simpl.
  pose proof (above_red _ _ _ _ _ _ H) as Ep. simpl in Ep. rewrite Ep. simpl.
  pose proof (turned_above _ _ _ _ _ _ H) as Hp. simpl in Hp. rb_get Hp.
  apply turned_up in H as H'. simpl in H'.
  pose proof (turned_above _ _ _ _ _ _ H') as Hg. simpl in Hg. rewrite rootp_bin in Hg.
  rb_get Hg.
  pose proof (side_test _ _ _ _ _ _ (top C) RB_BLACK H') as Hs. simpl in Hs.
  rewrite rootp_bin in Hs.
  rewrite Hs by (rewrite <- (rootp_bin d1 RB_RED (Bin RB_RED a x b) p s1);
    apply (turned_apart _ _ _ _ _ _ H'); by rewrite rootp_bin).
  rb_get Hg. pose proof (turned_sibling_red _ _ _ _ _ _ H') as Hu. simpl in Hu. rewrite Hu. simpl.
  destruct (redb u); [done|]. rb_get Hp.
  assert (Hin : child (flip d) (entry d1 (Some x) (rootp s1) (Some g) RB_RED) = Some x ↔ d1 = flip d).
  { pose proof (turned_apart _ _ _ _ _ _ H) as Hne. simpl in Hne. destruct d, d1; naive_solver. }
  destruct (decide (d1 = flip d)) as [E|E].
  - rewrite decide_True by (by apply Hin). done.
  - rewrite decide_False by (by rewrite Hin). done.
Qed.

Lemma insert_color_ok fuel l T0 T C a x b n :
  turned l T0 T C (Bin RB_RED a x b) → rbt (Bin RB_RED a x b) n → ctx C n →
  (length C < fuel)%nat →
  ∃ T' t', RB_INSERT_COLOR fuel T (Some x) = Ret T' ∧ turned l T0 T' [] t' ∧ rb_ok t'.
Proof.
  revert T C a x b n. induction fuel as [|fuel IH]; intros T C a x b n H Hx HC Hf; [lia|].
  assert (Hdone : black_top C ∨ C = [] → ∃ T' t',
    RB_INSERT_COLOR (S fuel) T (Some x) = Ret T' ∧ turned l T0 T' [] t' ∧ rb_ok t').
  { intros Hb. destruct (insert_color_done _ _ _ _ _ _ _ _ H Hb Hx HC) as (T' & t' & E & ?).
    exists T', t'. split; [|done]. rewrite <- E. simpl.
    pose proof (turned_entry _ _ _ _ LEFT _ _ _ _ H) as Ex. rb_get Ex. simpl.
    destruct C as [|s C]; [done|]. destruct Hb as [Hb|]; [|done].
    simpl. rewrite (above_red _ _ _ _ _ _ H). by rewrite Hb. }
  destruct C as [|[d1 [] p s1] C]; [by apply Hdone; right|by apply Hdone; left|].
  destruct HC as (Hs1 & Hs1b & Hbt & HC). simpl in Hs1, Hs1b, Hbt. clear Hdone.
  destruct C as [|[d cg g u] C]; [done|]. simpl in Hbt, HC, Hf. subst cg.
  destruct HC as [Hu HC]. rewrite (insert_color_turn _ _ _ _ _ _ _ _ _ _ _ _ _ _ H).
  apply turned_up in H. simpl in H. apply turned_up in H. simpl in H.
  destruct (redb u) eqn:Eu.
  - destruct (red_inv u Eu) as (ul & uy & ur & ->). destruct Hu as (_ & _ & Hul & Hur).
    destruct (insert_recolor _ _ _ _ _ _ _ _ _ _ LEFT _ _ _ H) as (T1 & E & H1').
    apply cres_bind_Ret in E as (T2 & E1 & E2). simpl rootp. rewrite E1. simpl.
    rewrite E2. simpl.
    destruct (bin_any d LEFT RB_RED (bin d1 RB_BLACK (Bin RB_RED a x b) p s1) g
      (bin LEFT RB_BLACK ul uy ur)) as (a' & b' & E').
    rewrite E' in H1'. simpl in H1'. eapply IH; [exact H1'| |exact HC|lia].
    change (Bin RB_RED a' g b') with (bin LEFT RB_RED a' g b'). rewrite <- E'.
    apply rbt_red. split; [apply black_bin|]. split; [done|]. by split; [apply rbt_black|].
  - destruct (insert_rotate _ _ _ _ _ _ _ _ _ _ _ _ _ H) as (T1 & q & A & e & E & H1 & Hrb).
    destruct (Hrb n Hx Hs1 Hs1b) as (HA & HAn & He & Heb).
    destruct (red_inv A HA) as (a' & y & b' & ->).
    destruct (IH T1 _ a' y b' n H1 HAn) as (T' & t' & E' & Ht').
    { simpl. split; [by apply rbt_red|done]. }
    { simpl. lia. }
    exists T', t'. split; [|done]. rewrite <- E'. clear -E.
    apply cres_bind_Ret in E as ([[T2 par] elm] & -> & E). simpl in E |- *.
    apply cres_bind_Ret in E as (T3 & -> & E). simpl in E |- *.
    apply cres_bind_Ret in E as (T4 & -> & E). simpl in E |- *. by injection E as -> ->.
Qed.

(** ** Searching *)

(** The comparisons with the elements [l] put the element looked for between [A] and [B],
    at [m] when there is an equal one. *)
Record cut (cmp : loc → cres Z) (l A : list loc) (m : ptr) (B : list loc) : Prop := {
  cut_split : l = A ++ option_list m ++ B;
  cut_above : Forall (fun x => ∃ z, cmp x = Ret z ∧ 0 < z) A;
  cut_equal y : m = Some y → cmp y = Ret 0;
  cut_below : Forall (fun x => ∃ z, cmp x = Ret z ∧ z < 0) B
}.

(** The cut of a tree lies in one of its subtrees, or at its root. *)
Lemma cut_bin cmp l x r A m B :
  cut cmp (l ++ x :: r) A m B →
  (∃ z A', cmp x = Ret z ∧ 0 < z ∧ A = l ++ x :: A' ∧ cut cmp r A' m B) ∨
  (cmp x = Ret 0 ∧ m = Some x ∧ A = l ∧ B = r) ∨
  (∃ z B', cmp x = Ret z ∧ z < 0 ∧ B = B' ++ x :: r ∧ cut cmp l A m B').
Proof.
  intros [E HA Hm HB]. apply app_eq_inv in E as [(k & -> & E)|(k & -> & E)].
  - symmetry in E. destruct m as [y|]; simpl in E.
    + destruct k as [|k0 k]; simpl in E; injection E as <- E.
      { right. left. rewrite app_nil_r. auto. }
      subst B. apply Forall_app in HB as [HB1 HB2]. apply Forall_cons_1 in HB2 as [(z & Ez & Hz) _].
      right. right. exists z, k. repeat split; auto.
    + subst B. apply Forall_app in HB as [HB1 HB2].
      apply Forall_cons_1 in HB2 as [(z & Ez & Hz) _].
      right. right. exists z, k. repeat split; auto.
  - destruct k as [|k0 k]; simpl in E.
    + rewrite app_nil_r in HA. destruct m as [y|]; simpl in E.
      * injection E as <- <-. right. left. rewrite app_nil_r. auto.
      * subst B. apply Forall_cons_1 in HB as [(z & Ez & Hz) _].
        right. right. exists z, []. rewrite app_nil_r. repeat split; simpl; auto using app_nil_r.
    + injection E as <- ->. apply Forall_app in HA as [HA1 HA2].
      apply Forall_cons_1 in HA2 as [(z & Ez & Hz) HA2].
      left. exists z, k. repeat split; auto.
Qed.

Lemma cut_nil cmp A m B : cut cmp [] A m B → A = [] ∧ m = None ∧ B = [].
Proof. intros [E _ _ _]. destruct A, m; try done. Qed.

Fixpoint height (t : tree) : nat :=
  match t with Tip => O | Bin _ l _ r => S (max (height l) (height r)) end.

Lemma height_length t : (height t <= length (inorder t))%nat.
Proof. induction t as [|c l IHl x r IHr]; simpl; [done|]. rewrite length_app. simpl. lia. Qed.

Lemma find_walk_ok fuel T cmp p t A m B :
  rep (rb_cells T) p t → cut cmp (inorder t) A m B → (height t < fuel)%nat →
  find_walk fuel T cmp (rootp t) = Ret m.
Proof.
  revert p t A m B; induction fuel as [|fuel IH]; intros p t A m B Hr Hc Hf; [lia|].
  destruct t as [|c l x r]; simpl in *.
  { by apply cut_nil in Hc as (_ & -> & _). }
  destruct Hr as (Hx & Hl & Hr).
  apply cut_bin in Hc as [(z & A' & -> & Hz & _ & Hc)|[(-> & -> & _)|(z & B' & -> & Hz & _ & Hc)]];
    simpl.
  - destruct (Z.ltb_spec z 0); [lia|]. destruct (Z.ltb_spec 0 z); [|lia].
    rb_get Hx. eapply IH; [done|done|lia].
  - done.
  - destruct (Z.ltb_spec z 0); [|lia]. rb_get Hx. eapply IH; [done|done|lia].
Qed.

(** The elements before and after a hole. *)
Fixpoint lefts (C : list step) : list loc :=
  match C with
  | [] => []
  | s :: C => lefts C ++ match s_side s with
                         | LEFT => [] | RIGHT => inorder (s_other s) ++ [s_at s] end
  end.

Fixpoint rights (C : list step) : list loc :=
  match C with
  | [] => []
  | s :: C => match s_side s with
              | LEFT => s_at s :: inorder (s_other s) | RIGHT => [] end ++ rights C
  end.

Lemma inorder_lefts_rights C t : inorder (plug C t) = lefts C ++ inorder t ++ rights C.
Proof.
  revert t; induction C as [|[[] c x o] C IH]; intros t; simpl; rewrite ?app_nil_r; [done|..].
  - rewrite IH. simpl. by rewrite <- app_assoc.
  - rewrite IH. simpl. by rewrite <- !app_assoc.
Qed.

(** Where the walk of an insertion ends. *)
Lemma insert_walk_ok fuel T cmp C t A B comp :
  at_hole T C t → cut cmp (inorder t) A None B → (length (inorder t) < fuel)%nat →
  (∀ s C', C = s :: C' → s_side s = if comp <? 0 then LEFT else RIGHT) →
  ∃ C' comp', insert_walk fuel T cmp (rootp t) (top C) comp = Ret (inr (top C', comp')) ∧
    plug C' Tip = plug C t ∧ lefts C' = lefts C ++ A ∧ rights C' = B ++ rights C ∧
    (∀ s C'', C' = s :: C'' → s_side s = if comp' <? 0 then LEFT else RIGHT).
Proof.
  revert C t A B comp; induction fuel as [|fuel IH]; intros C t A B comp Ha Hc Hf Hs; [lia|].
  destruct t as [|c l x r]; simpl in *.
  { apply cut_nil in Hc as (-> & _ & ->). exists C, comp. rewrite app_nil_r. done. }
  rewrite length_app in Hf. simpl in Hf.
  assert (Hx : rb_cells T !! x = Some (RbEntry (rootp l) (rootp r) (top C) c))
    by (destruct Ha as [[? _] _ _]; done).
  apply cut_bin in Hc as [(z & A' & -> & Hz & -> & Hc)|[(_ & [=] & _)|(z & B' & -> & Hz & -> & Hc)]];
    simpl.
  - destruct (Z.ltb_spec z 0) as [|Hz0]; [lia|]. destruct (Z.ltb_spec 0 z); [|lia]. rb_get Hx.
    destruct (IH (Step RIGHT c x l :: C) r A' B z) as (C' & comp' & E & Ep & El & Er & Hs');
      [by apply at_hole_down|done|lia| |].
    { intros s C' [= <- <-]. by destruct (Z.ltb_spec z 0); [lia|]. }
    exists C', comp'. split; [done|]. split; [done|]. rewrite El, Er. simpl.
    by rewrite <- !app_assoc.
  - destruct (Z.ltb_spec z 0) as [Hz0|]; [|lia]. rb_get Hx.
    destruct (IH (Step LEFT c x r :: C) l A B' z) as (C' & comp' & E & Ep & El & Er & Hs');
      [by apply at_hole_down|done|lia| |].
    { intros s C' [= <- <-]. by destruct (Z.ltb_spec z 0); [|lia]. }
    exists C', comp'. split; [done|]. split; [done|]. rewrite El, Er. simpl.
    by rewrite app_nil_r, <- !app_assoc.
Qed.

(** The same walk stops at an equal element. *)
Lemma insert_walk_found fuel T cmp p t A B y par comp :
  rep (rb_cells T) p t → cut cmp (inorder t) A (Some y) B → (length (inorder t) < fuel)%nat →
  insert_walk fuel T cmp (rootp t) par comp = Ret (inl y).
Proof.
  revert p t A B par comp; induction fuel as [|fuel IH]; intros p t A B par comp Hr Hc Hf; [lia|].
  destruct t as [|c l x r]; simpl in *.
  { by apply cut_nil in Hc as (_ & [=] & _). }
  rewrite length_app in Hf. simpl in Hf. destruct Hr as (Hx & Hl & Hr).
  apply cut_bin in Hc as [(z & A' & -> & Hz & _ & Hc)|[(-> & [= ->] & _)|(z & B' & -> & Hz & _ & Hc)]];
    simpl.
  - destruct (Z.ltb_spec z 0); [lia|]. destruct (Z.ltb_spec 0 z); [|lia].
    rb_get Hx. eapply IH; [done|done|lia].
  - done.
  - destruct (Z.ltb_spec z 0); [|lia]. rb_get Hx. eapply IH; [done|done|lia].
Qed.

(** ** What a client sees *)

(** The tree holds the elements [l], in this order, and is balanced. *)
Definition holds (T : rb) (l : list loc) : Prop :=
  ∃ t, at_hole T [] t ∧ rb_ok t ∧ inorder t = l.

Lemma at_hole_nodup T C t : at_hole T C t → NoDup (inorder (plug C t)).
Proof. intros [_ _ Hn]. by rewrite plug_perm. Qed.

Lemma holds_NoDup T l : holds T l → NoDup l.
Proof. intros (t & Ha & _ & <-). by apply at_hole_nodup in Ha. Qed.

Lemma rep_dom h p t : rep h p t → ∀ x, x ∈ inorder t → x ∈ dom h.
Proof.
  revert p; induction t as [|c l IHl x r IHr]; intros p; simpl; [set_solver|].
  intros (Hx & Hl & Hr) y. rewrite elem_of_app, elem_of_cons.
  apply elem_of_dom_2 in Hx. naive_solver.
Qed.

(** The loops have enough fuel. *)
Lemma rep_fuel T p t :
  rep (rb_cells T) p t → NoDup (inorder t) → (S (length (inorder t)) < rb_fuel T)%nat.
Proof.
  intros Hr Hn. unfold rb_fuel.
  enough (length (inorder t) <= size (rb_cells T))%nat by lia.
  rewrite <- size_dom, <- (size_list_to_set (C:=gset loc)) by done.
  apply subseteq_size. intros x Hx. rewrite elem_of_list_to_set in Hx.
  by eapply rep_dom.
Qed.

#[local] Opaque rb_fuel.

Lemma path_length C : (length C <= length (path_nodes C))%nat.
Proof. induction C as [|s C IH]; simpl; [lia|]. rewrite length_app. lia. Qed.

Lemma at_hole_fuel T C t : at_hole T C t → (S (length C + length (inorder t)) < rb_fuel T)%nat.
Proof.
  intros Ha. apply at_hole_plug in Ha as Ha0. pose proof (ah_rep _ _ _ Ha0) as Hr.
  apply rep_fuel in Hr; [|by apply (at_hole_nodup _ [] _ Ha0)].
  rewrite plug_perm, length_app in Hr. pose proof (path_length C). lia.
Qed.

(** An element outside the tree is put in an empty hole. *)
Lemma link_ok T C x comp :
  at_hole T C Tip → x ∉ path_nodes C →
  (∀ s C', C = s :: C' → s_side s = if comp <? 0 then LEFT else RIGHT) →
  ∃ T', match top C with
        | Some _ => put (RB_SET T x (top C)) (top C)
                        (set_child (if comp <? 0 then LEFT else RIGHT) (Some x))
        | None => Ret (set_root (RB_SET T x (top C)) (Some x))
        end = Ret T' ∧
    at_hole T' C (Bin RB_RED Tip x Tip) ∧
    (∀ z, z ∉ x :: path_nodes C → rb_cells T' !! z = rb_cells T !! z) ∧
    dom (rb_cells T') = {[x]} ∪ dom (rb_cells T).
Proof.
  intros [_ Hh Hn] Hx Hs. simpl in Hh, Hn.
  assert (Hf : ∀ z, z ∈ path_nodes C →
    <[x:=RbEntry None None (top C) RB_RED]> (rb_cells T) !! z = rb_cells T !! z).
  { intros z Hz. apply lookup_insert_ne. set_solver. }
  destruct C as [|s C]; simpl.
  { eexists. split; [done|]. split; [|split].
    - split; simpl; [|done|apply NoDup_singleton]. by rewrite lookup_insert_eq.
    - intros z Hz. simpl. apply lookup_insert_ne. set_solver.
    - simpl. by rewrite dom_insert_L. }
  simpl in *. destruct Hh as (Hs0 & Ho & HC). nodups.
  assert (Hs1 : rb_cells (RB_SET T x (Some (s_at s))) !! s_at s
    = Some (entry (s_side s) None (rootp (s_other s)) (top C) (s_color s))).
  { simpl. rewrite Hf; [done|set_solver]. }
  rewrite <- (Hs s C) by done.
  destruct (put_ok _ _ _ (set_child (s_side s) (Some x)) Hs1) as (T' & E & Hs' & Hr & Hl).
  rewrite set_child_entry in Hs'. exists T'. split; [done|].
  assert (Hz : ∀ z, z ∉ [x; s_at s] → rb_cells T' !! z = rb_cells T !! z).
  { intros z Hz. rewrite (lt_frame _ _ _ Hl) by set_solver. simpl. apply lookup_insert_ne. set_solver. }
  split; [|split].
  - split; simpl.
    + rewrite (lt_frame _ _ _ Hl) by set_solver. simpl. by rewrite lookup_insert_eq.
    + split; [done|]. split; [eapply rep_frame; [|done]|eapply (hole_frame T); [|done|done]];
        (intros z Hzi; apply Hz; set_solver).
    + apply NoDup_cons. split; [done|]. apply NoDup_cons. split; [done|].
      apply NoDup_app. done.
  - intros z Hzi. apply Hz. set_solver.
  - rewrite (lt_dom _ _ _ Hl). simpl. by rewrite dom_insert_L.
Qed.

Lemma RB_INSERT_found T cmp x l A y B :
  holds T l → cut cmp l A (Some y) B → RB_INSERT T cmp x = Ret (Some y, T).
Proof.
  intros (t & Ha & Hok & <-) Hc. unfold RB_INSERT.
  assert (rbh_root T = rootp t) as -> by (by destruct Ha).
  erewrite insert_walk_found; [done|by destruct Ha|done|].
  apply at_hole_fuel in Ha. simpl in Ha. lia.
Qed.

Lemma RB_INSERT_new T cmp x l A B :
  holds T l → cut cmp l A None B → x ∉ l →
  ∃ T', RB_INSERT T cmp x = Ret (None, T') ∧ holds T' (A ++ x :: B) ∧
    (∀ z, z ∉ x :: l → rb_cells T' !! z = rb_cells T !! z) ∧
    dom (rb_cells T') = {[x]} ∪ dom (rb_cells T).
Proof.
  intros (t & Ha & Hok & <-) Hc Hx. unfold RB_INSERT.
  assert (rbh_root T = rootp t) as -> by (by destruct Ha).
  pose proof (at_hole_fuel _ _ _ Ha) as Hfu. simpl in Hfu.
  destruct (insert_walk_ok (rb_fuel T) T cmp [] t A B 0 Ha Hc)
    as (C & comp & E & Ep & El & Er & Hs); [lia|done|].
  simpl in El, Er, Ep. cbn [top] in E. rewrite E. simpl.
  assert (Ha' : at_hole T C Tip) by (rewrite at_hole_plug, Ep; done).
  assert (Hperm : inorder t ≡ₚ path_nodes C).
  { rewrite <- Ep, plug_perm. done. }
  destruct (link_ok T C x comp Ha') as (T1 & E1 & Ha1 & F1 & D1); [by rewrite <- Hperm|done|].
  rewrite E1. simpl.
  destruct (plug_ctx C Tip) as (n & HC & Hn & _); [by rewrite Ep|].
  pose proof (at_hole_fuel _ _ _ Ha1) as Hfu1.
  destruct (insert_color_ok (rb_fuel T1) _ T1 T1 C Tip x Tip n (turned_refl _ _ _ Ha1))
    as (T' & t' & -> & Ht' & Hok'); [done|done|lia|].
  exists T'. split; [done|]. destruct Ht' as [Ha'' Ho Hl]. simpl in Ho.
  rewrite inorder_lefts_rights, El, Er in Ho. simpl in Ho. rewrite app_nil_r in Ho.
  rewrite inorder_lefts_rights, El, Er in Hl. simpl in Hl. rewrite app_nil_r in Hl.
  split; [by exists t'|]. destruct Hc as [Esp _ _ _]. simpl in Esp. split.
  - intros z Hz. rewrite (lt_frame _ _ _ Hl) by (rewrite Esp in Hz; set_solver).
    apply F1. rewrite <- Hperm. done.
  - by rewrite (lt_dom _ _ _ Hl).
Qed.

(** Whatever the comparison, what a search finds is an element that compares equal. *)
Lemma find_walk_sound fuel T cmp p t :
  rep (rb_cells T) p t → (∀ x, x ∈ inorder t → ∃ z, cmp x = Ret z) → (height t < fuel)%nat →
  ∃ m, find_walk fuel T cmp (rootp t) = Ret m ∧ ∀ x, m = Some x → x ∈ inorder t ∧ cmp x = Ret 0.
Proof.
  revert p t; induction fuel as [|fuel IH]; intros p t Hr Hc Hf; [lia|].
  destruct t as [|c l x r]; simpl in *; [by exists None|]. destruct Hr as (Hx & Hl & Hr).
  destruct (Hc x) as [z Ez]; [set_solver|]. rewrite Ez. cbn [mbind cres_bind].
  destruct (Z.ltb_spec z 0) as [Hz|Hz]; [|destruct (Z.ltb_spec 0 z)].
  - rewrite (get_ok _ _ _ rbe_left Hx). destruct (IH _ l Hl) as (m & E & Hm); [set_solver|lia|].
    exists m. split; [done|]. intros y Hy. destruct (Hm y Hy). set_solver.
  - rewrite (get_ok _ _ _ rbe_right Hx). destruct (IH _ r Hr) as (m & E & Hm); [set_solver|lia|].
    exists m. split; [done|]. intros y Hy. destruct (Hm y Hy). set_solver.
  - exists (Some x). split; [done|]. intros y [= <-]. replace z with 0 in Ez by lia. set_solver.
Qed.

Lemma RB_FIND_sound T cmp l :
  holds T l → (∀ x, x ∈ l → ∃ z, cmp x = Ret z) →
  ∃ m, RB_FIND T cmp = Ret m ∧ ∀ x, m = Some x → x ∈ l ∧ cmp x = Ret 0.
Proof.
  intros (t & Ha & Hok & <-) Hc. unfold RB_FIND.
  assert (rbh_root T = rootp t) as -> by (by destruct Ha).
  eapply find_walk_sound; [by destruct Ha|done|].
  apply at_hole_fuel in Ha. pose proof (height_length t). simpl in Ha. lia.
Qed.

Lemma RB_FIND_ok T cmp l A m B : holds T l → cut cmp l A m B → RB_FIND T cmp = Ret m.
Proof.
  intros (t & Ha & Hok & <-) Hc. unfold RB_FIND.
  assert (rbh_root T = rootp t) as -> by (by destruct Ha).
  eapply find_walk_ok; [by destruct Ha|done|].
  apply at_hole_fuel in Ha. pose proof (height_length t). simpl in Ha. lia.
Qed.

(** ** Walking *)

(** The elements in the direction [d], and those beyond a hole in that direction. *)
Definition along (d : side) (l : list loc) : list loc :=
  match d with RIGHT => l | LEFT => reverse l end.

Definition beyond (d : side) (C : list step) : list loc :=
  match d with RIGHT => rights C | LEFT => reverse (lefts C) end.

Lemma along_bin d c a x b :
  along d (inorder (bin d c a x b)) = along d (inorder b) ++ x :: along d (inorder a).
Proof.
  destruct d; simpl; [|done]. by rewrite reverse_app, reverse_cons, <- app_assoc.
Qed.

Lemma beyond_near d c x o C :
  beyond d (Step (flip d) c x o :: C) = x :: along d (inorder o) ++ beyond d C.
Proof.
  destruct d; simpl; [|done]. by rewrite !reverse_app.
Qed.

Lemma beyond_far d c x o C : beyond d (Step d c x o :: C) = beyond d C.
Proof. destruct d; simpl; [by rewrite app_nil_r|done]. Qed.

Lemma along_nil d t : along d (inorder t) = [] ↔ t = Tip.
Proof.
  split; [|by intros ->; destruct d]. destruct t as [|c l x r]; [done|]. intros E.
  apply (f_equal length) in E. destruct d; simpl in E; rewrite ?length_reverse, length_app in E;
    simpl in E; lia.
Qed.

Lemma bin_view d t : t = Tip ∨ ∃ c a x b, t = bin d c a x b.
Proof. destruct t as [|c l x r]; [by left|right]. destruct d; simpl; eauto 10. Qed.

Lemma inorder_bin_length d c a x b :
  length (inorder (bin d c a x b)) = S (length (inorder a) + length (inorder b)).
Proof. rewrite inorder_bin_perm. simpl. by rewrite length_app. Qed.

Lemma child_entry_flip d p q r c : child d (entry (flip d) p q r c) = q.
Proof. by destruct d. Qed.

(** The outermost element of a subtree. *)
Lemma descend_ok fuel T d p t :
  rep (rb_cells T) p t → t ≠ Tip → (length (inorder t) < fuel)%nat →
  descend fuel T (flip d) (rootp t) = Ret (head (along d (inorder t))).
Proof.
  revert p t; induction fuel as [|fuel IH]; intros p t Hr Ht Hf; [lia|].
  destruct (bin_view d t) as [->|(c & a & x & b & ->)]; [done|].
  rewrite rootp_bin, along_bin. rewrite inorder_bin_length in Hf.
  apply rep_bin in Hr as (Hx & Ha & Hb). simpl. rb_get Hx.
  destruct b as [|cb bl y br].
  - simpl. by destruct d.
  - change (Some y) with (rootp (Bin cb bl y br)). simpl rootp at 1.
    cbn beta iota. rewrite (IH _ _ Hb) by (done || lia).
    destruct (along d (inorder (Bin cb bl y br))) eqn:E; [|done].
    by apply along_nil in E.
Qed.

(** Climbing out of a hole. *)
Lemma climb_ok fuel T d C t y :
  at_hole T C t → rootp t = Some y → (length C < fuel)%nat →
  ∃ e, climb fuel T d (Some y) = Ret e ∧ get T e rbe_parent = Ret (head (beyond d C)).
Proof.
  revert C t y; induction fuel as [|fuel IH]; intros C t y Ha Hy Hf; [lia|].
  destruct t as [|ct l y' r]; simpl in Hy; [done|]. injection Hy as ->.
  assert (Hx : rb_cells T !! y = Some (RbEntry (rootp l) (rootp r) (top C) ct))
    by (destruct Ha as [[? _] _ _]; done).
  simpl. rb_get Hx. destruct C as [|[sd c q o] C]; simpl.
  { exists (Some y). split; [done|]. rb_get Hx. by destruct d. }
  assert (Hq := turned_above _ _ _ _ _ _ (turned_refl _ _ _ Ha)). simpl in Hq.
  pose proof (turned_apart _ _ _ _ _ _ (turned_refl _ _ _ Ha)) as Hne. simpl in Hne.
  rewrite (get_ok _ _ _ _ Hq). simpl. destruct (decide (sd = d)) as [->|Hd].
  - rewrite child_entry, decide_True by done. rewrite beyond_far.
    apply at_hole_down in Ha. eapply (IH C); [exact Ha|by rewrite rootp_bin|simpl in Hf; lia].
  - assert (sd = flip d) as -> by (by destruct sd, d).
    rewrite child_entry_flip, decide_False by (by apply Hne).
    exists (Some y). split; [done|]. rb_get Hx. by rewrite beyond_near.
Qed.

Lemma RB_STEP_ok T d C c a x b :
  at_hole T C (bin d c a x b) →
  RB_STEP d T (Some x) = Ret (head (along d (inorder a) ++ beyond d C)).
Proof.
  intros Ha. pose proof (turned_entry _ _ _ _ _ _ _ _ _ (turned_refl _ _ _ Ha)) as Hx.
  pose proof (at_hole_fuel _ _ _ Ha) as Hf. rewrite inorder_bin_length in Hf.
  unfold RB_STEP. rewrite (get_ok _ _ _ (child d) Hx). simpl. rewrite child_entry.
  destruct a as [|ca al y ar].
  - simpl rootp. cbn beta iota. rb_get Hx.
    replace (along d []) with (@nil loc) by (by destruct d). simpl app.
    destruct (climb_ok (rb_fuel T) T d C _ x Ha) as (e & Ee & Ep); [by rewrite rootp_bin|lia|].
    destruct C as [|[sd cs q o] C]; simpl.
    { rewrite Ee. exact Ep. }
    assert (Hq := turned_above _ _ _ _ _ _ (turned_refl _ _ _ Ha)). simpl in Hq.
    pose proof (turned_apart _ _ _ _ _ _ (turned_refl _ _ _ Ha)) as Hne. simpl in Hne.
    rewrite rootp_bin in Hq, Hne. rewrite (get_ok _ _ _ _ Hq). simpl.
    destruct (decide (sd = d)) as [->|Hd].
    + rewrite child_flip_entry, bool_decide_eq_false_2 by (by apply Hne).
      rewrite Ee. exact Ep.
    + assert (sd = flip d) as -> by (by destruct sd, d).
      rewrite child_entry, bool_decide_eq_true_2 by done. by rewrite beyond_near.
  - cbn [rootp]. cbn beta iota. change (Some y) with (rootp (Bin ca al y ar)).
    apply ah_rep, rep_bin in Ha as (_ & Ha & _).
    rewrite (descend_ok _ _ _ _ _ Ha) by (done || lia).
    destruct (along d (inorder (Bin ca al y ar))) eqn:E; [|done].
    by apply along_nil in E.
Qed.

Lemma plug_snoc C s t :
  plug (C ++ [s]) t = bin (s_side s) (s_color s) (plug C t) (s_at s) (s_other s).
Proof. revert t. induction C as [|s' C IH]; intros t; simpl; [done|apply IH]. Qed.

Lemma focus t x : x ∈ inorder t → ∃ C c l r, plug C (Bin c l x r) = t.
Proof.
  induction t as [|c l IHl y r IHr]; simpl; [set_solver|].
  rewrite elem_of_app, elem_of_cons. intros [Hx|[->|Hx]].
  - destruct (IHl Hx) as (C & c' & l' & r' & <-). exists (C ++ [Step LEFT c y r]), c', l', r'.
    by rewrite plug_snoc.
  - by exists [], c, l, r.
  - destruct (IHr Hx) as (C & c' & l' & r' & <-). exists (C ++ [Step RIGHT c y l]), c', l', r'.
    by rewrite plug_snoc.
Qed.

Lemma NoDup_split_unique {A} (l l' r r' : list A) x :
  NoDup (l ++ x :: r) → l ++ x :: r = l' ++ x :: r' → l = l' ∧ r = r'.
Proof.
  revert l'; induction l as [|y l IH]; intros [|y' l']; simpl; intros Hn E.
  - by injection E.
  - injection E as <- ->. apply NoDup_cons in Hn as [Hn _]. set_solver.
  - injection E as -> <-. apply NoDup_cons in Hn as [Hn _]. set_solver.
  - injection E as <- E. apply NoDup_cons in Hn as [_ Hn].
    by destruct (IH l' Hn E) as [-> ->].
Qed.

(** The path to an element of the tree. *)
Lemma holds_focus T A x B :
  holds T (A ++ x :: B) →
  ∃ C c l r, at_hole T C (Bin c l x r) ∧ rb_ok (plug C (Bin c l x r)) ∧
             A = lefts C ++ inorder l ∧ B = inorder r ++ rights C.
Proof.
  intros H. pose proof (holds_NoDup _ _ H) as Hn. destruct H as (t & Ha & Hok & Ho).
  destruct (focus t x) as (C & c & l & r & <-); [rewrite Ho; set_solver|].
  exists C, c, l, r. rewrite at_hole_plug. split; [done|]. split; [done|].
  rewrite inorder_lefts_rights in Ho. simpl in Ho. rewrite <- app_assoc in Ho. simpl in Ho.
  rewrite app_assoc in Ho. symmetry in Ho. by apply NoDup_split_unique in Ho.
Qed.

Lemma RB_NEXT_ok T A x B : holds T (A ++ x :: B) → RB_NEXT T (Some x) = Ret (head B).
Proof.
  intros (C & c & l & r & Ha & _ & _ & ->)%holds_focus.
  exact (RB_STEP_ok T RIGHT C c r x l Ha).
Qed.

Lemma RB_PREV_ok T A x B : holds T (A ++ x :: B) → RB_PREV T (Some x) = Ret (last A).
Proof.
  intros (C & c & l & r & Ha & _ & -> & _)%holds_focus. rewrite <- head_reverse, reverse_app.
  exact (RB_STEP_ok T LEFT C c l x r Ha).
Qed.

Lemma minmax_walk_ok fuel T d p t par :
  rep (rb_cells T) p t → (length (inorder t) < fuel)%nat →
  minmax_walk fuel T (flip d) (rootp t) par
  = Ret (match head (along d (inorder t)) with Some x => Some x | None => par end).
Proof.
  revert p t par; induction fuel as [|fuel IH]; intros p t par Hr Hf; [lia|].
  destruct (bin_view d t) as [->|(c & a & x & b & ->)]; [by destruct d|].
  rewrite rootp_bin, along_bin. rewrite inorder_bin_length in Hf.
  apply rep_bin in Hr as (Hx & Ha & Hb). simpl. rb_get Hx.
  rewrite (IH _ _ _ Hb) by lia. by destruct (along d (inorder b)).
Qed.

(** The first element ([LEFT]) and the last one. *)
Lemma RB_MINMAX_ok T d l : holds T l → RB_MINMAX T (flip d) = Ret (head (along d l)).
Proof.
  intros (t & Ha & _ & <-). unfold RB_MINMAX.
  assert (rbh_root T = rootp t) as -> by (by destruct Ha).
  pose proof (at_hole_fuel _ _ _ Ha) as Hf. simpl in Hf.
  rewrite (minmax_walk_ok _ _ _ _ _ _ (ah_rep _ _ _ Ha)) by lia.
  by destruct (head (along d (inorder t))).
Qed.

(** A loop over a list of elements. *)
Fixpoint fold_m {A} (f : A → loc → cres A) (a : A) (l : list loc) : cres A :=
  match l with [] => Ret a | x :: l => a ← f a x; fold_m f a l end.

Lemma foreach_loop_ok {A} fuel T (body : A → loc → cres A) a l1 l2 :
  holds T (l1 ++ l2) → (length l2 < fuel)%nat →
  foreach_loop fuel T body a (head l2) = fold_m body a l2.
Proof.
  revert a l1 l2; induction fuel as [|fuel IH]; intros a l1 l2 H Hf; [lia|].
  destruct l2 as [|x l2]; simpl; [done|]. destruct (body a x) as [a'| | |]; simpl; try done.
  rewrite (RB_NEXT_ok T l1 x l2 H). simpl. apply (IH a' (l1 ++ [x])); [|simpl in Hf; lia].
  by rewrite <- app_assoc.
Qed.

Lemma RB_FOREACH_ok {A} T (body : A → loc → cres A) a l :
  holds T l → RB_FOREACH T body a = fold_m body a l.
Proof.
  intros H. unfold RB_FOREACH. change LEFT with (flip RIGHT). rewrite (RB_MINMAX_ok T RIGHT l H). simpl.
  apply (foreach_loop_ok _ _ _ _ []); [done|]. destruct H as (t & Ha & _ & <-).
  pose proof (at_hole_fuel _ _ _ Ha) as Hf. simpl in Hf. lia.
Qed.

(** Only the entries of its elements and its root matter. *)
Lemma rb_holds_frame T T' l :
  (∀ x, x ∈ l → rb_cells T' !! x = rb_cells T !! x) → rbh_root T' = rbh_root T →
  holds T l → holds T' l.
Proof.
  intros Hf Hr (t & [Ha Hh Hn] & Hok & <-). exists t. split; [|done].
  split; [|by rewrite <- Hh|done]. eapply rep_frame; [|done]. done.
Qed.

Lemma holds_init T : holds (RB_INIT T) [].
Proof.
  exists Tip. split; [|split; [|done]]; [|by split; [|exists O]].
  split; simpl; [done|done|constructor].
Qed.

(** ** Height *)

Lemma rbt_height t n : rbt t n → (height t <= 2 * n + (if redb t then 1 else 0))%nat.
Proof.
  revert n; induction t as [|c l IHl x r IHr]; intros n; simpl; [lia|]. destruct c.
  - destruct n as [|n]; [done|]. intros [Hl Hr]. apply IHl in Hl. apply IHr in Hr.
    destruct (redb l), (redb r); lia.
  - intros (Hlb & Hrb & Hl & Hr). apply IHl in Hl. apply IHr in Hr.
    rewrite Hlb in Hl. rewrite Hrb in Hr. lia.
Qed.

Lemma rbt_size t n : rbt t n → (2 ^ n <= S (length (inorder t)))%nat.
Proof.
  revert n; induction t as [|c l IHl x r IHr]; intros n; simpl; [by intros ->|].
  rewrite length_app. simpl. destruct c.
  - destruct n as [|n]; [done|]. intros [Hl Hr]. apply IHl in Hl. apply IHr in Hr. simpl. lia.
  - intros (_ & _ & Hl & Hr). apply IHl in Hl. apply IHr in Hr. lia.
Qed.

Lemma rb_height t : rb_ok t → (height t <= 2 * Nat.log2 (S (length (inorder t))))%nat.
Proof.
  intros [Hb [n Hn]]. pose proof (rbt_height _ _ Hn) as Hh. rewrite Hb in Hh.
  pose proof (rbt_size _ _ Hn) as Hs. apply Nat.log2_le_mono in Hs.
  rewrite Nat.log2_pow2 in Hs by lia. lia.
Qed.

(** ** Removal *)

(** A tree whose root may be a red node with red children. *)
Definition almost (t : tree) (n : nat) : Prop :=
  match t with Bin RB_RED l _ r => rbt l n ∧ rbt r n | _ => rbt t n end.

Lemma almost_red d a x b n : almost (bin d RB_RED a x b) n ↔ rbt a n ∧ rbt b n.
Proof. destruct d; simpl; naive_solver. Qed.

Lemma rbt_almost t n : rbt t n → almost t n.
Proof. destruct t as [|[] l x r]; simpl; naive_solver. Qed.

Lemma black_almost t n : black t → almost t n → rbt t n.
Proof. by destruct t as [|[] l x r]. Qed.

(** The end of the loop: the element, red or the root, is painted black. *)
Lemma remove_color_done l T0 T C t n :
  turned l T0 T C t → almost t n → ctx C (S n) → redb t = true ∨ C = [] →
  ∃ T' t', put_if T (rootp t) (set_color RB_BLACK) = Ret T' ∧ turned l T0 T' [] t' ∧ rb_ok t'.
Proof.
  intros H Ht HC Hend. destruct t as [|c a x b].
  { exists T, Tip. destruct Hend as [[=]| ->]. split; [done|]. split; [done|].
    split; [done|]. by exists n. }
  destruct (turned_paint RB_BLACK _ _ _ _ LEFT _ _ _ _ H) as (T' & E & H' & _).
  exists T', (plug C (Bin RB_BLACK a x b)). split; [done|].
  split; [by eapply turned_focus|]. destruct c; simpl in *.
  - destruct Hend as [[=]| ->]. simpl. split; [done|]. by exists n.
  - eapply ctx_plug; [done|by simpl|by right].
Qed.

Lemma root_above T s C p : hole T (s :: C) p → ∃ y, rbh_root T = Some y ∧ y ∈ path_nodes (s :: C).
Proof.
  revert s p; induction C as [|s' C IH]; intros s p (_ & _ & HC).
  - simpl in HC. exists (s_at s). split; [done|set_solver].
  - destruct (IH _ _ HC) as (y & Ey & Hy). exists y. split; [done|]. simpl in *. set_solver.
Qed.

Lemma not_root l T0 T s C t : turned l T0 T (s :: C) t → rootp t ≠ rbh_root T.
Proof.
  intros [[_ Hh Hn] _ _] E. destruct (root_above _ _ _ _ Hh) as (y & Ey & Hy).
  rewrite Ey in E. apply rootp_elem in E. apply NoDup_app in Hn as (_ & Hd & _). by eapply Hd.
Qed.

Lemma rbt_S_bin d t n : rbt t (S n) → ∃ c a x b, t = bin d c a x b.
Proof. intros H. by destruct (bin_view d t) as [->|?]. Qed.

(** The sibling is black after the first block. *)
Lemma remove_red_sibling_ok l T0 T C d c p o t n :
  turned l T0 T (Step d c p o :: C) t → ctx (Step d c p o :: C) (S n) →
  ∃ T' c' o' C', remove_red_sibling T d (Some p) (rootp o) = Ret (T', rootp o') ∧
    turned l T0 T' (Step d c' p o' :: C') t ∧ ctx (Step d c' p o' :: C') (S n) ∧ black o' ∧
    (length C' + (if decide (c' = RB_RED) then 0 else 1) <= length C + 1)%nat.
Proof.
  intros H HC. unfold remove_red_sibling. pose proof HC as [Ho HC']. simpl in Ho, HC'.
  destruct (rbt_S_bin d o n Ho) as (co & a & y & b & ->). rewrite rootp_bin.
  apply turned_up in H as Hp. simpl in Hp. apply turned_other in Hp as Hy.
  pose proof (turned_entry _ _ _ _ _ _ _ _ _ Hy) as Ey. rb_get Ey. destruct co; simpl.
  { exists T, c, (bin d RB_BLACK a y b), C. rewrite rootp_bin. split; [done|].
    split; [done|]. split; [done|]. split; [apply black_bin|]. destruct (decide _); lia. }
  apply rbt_red in Ho as (Hab & Hbb & Ha & Hb).
  destruct c; [|by destruct HC' as (Hblk & _); unfold black in Hblk; rewrite redb_bin in Hblk].
  rewrite <- (bin_flip d RB_BLACK) in Hp.
  destruct (blackred_ok _ _ _ _ _ _ _ _ _ _ _ _ _ Hp) as (T1 & -> & H1). simpl.
  rewrite bin_flip in H1. apply turned_rotate in H1 as (T2 & -> & H2). simpl.
  pose proof (turned_down _ _ _ _ _ _ _ _ _ H2) as H3.
  pose proof (turned_entry _ _ _ _ _ _ _ _ _ H3) as Ep. rb_get Ep.
  exists T2, RB_RED, a, (Step d RB_BLACK y b :: C). split; [done|].
  split; [by apply turned_down|]. simpl. split; [by auto 10|]. split; [done|lia].
Qed.

(** Painting under a test for NULL. *)
Lemma turned_paint_if l T0 T C t n :
  turned l T0 T C t → rbt t n → redb t = true →
  ∃ T' t', put_if T (rootp t) (set_color RB_BLACK) = Ret T' ∧ turned l T0 T' C t' ∧
    rootp t' = rootp t ∧ black t' ∧ rbt t' (S n).
Proof.
  intros H Ht (a & x & b & ->)%red_inv. destruct Ht as (_ & _ & Ha & Hb).
  destruct (turned_paint RB_BLACK _ _ _ _ LEFT _ _ _ _ H) as (T' & E & H' & _).
  exists T', (Bin RB_BLACK a x b). split; [done|]. split; [done|]. by repeat split.
Qed.

(** The sibling is black and has a red child: the tree is balanced after the second block. *)
Lemma remove_rotate_ok l T0 T C d c p a y b t n :
  turned l T0 T C (bin d c t p (bin d RB_BLACK a y b)) →
  rbt t n → black t → rbt a n → rbt b n → redb a = true ∨ redb b = true →
  (c = RB_RED → black_top C) → ctx C (if decide (c = RB_RED) then S n else S (S n)) →
  ∃ T' t', remove_rotate T d (Some p) (Some y) = Ret T' ∧ turned l T0 T' C t' ∧
           rb_ok (plug C t').
Proof.
  intros H Ht Htb Ha Hb Hred HcC HC. unfold remove_rotate.
  apply turned_other in H as Hy. pose proof (turned_entry _ _ _ _ _ _ _ _ _ Hy) as Ey.
  rewrite (get_ok _ _ _ (child (flip d)) Ey). simpl. rewrite child_flip_entry.
  apply turned_other in Hy as Hb0. rewrite (turned_red _ _ _ _ _ Hb0). simpl.
  assert (Hmid : ∃ T1 a1 y1 b1,
    (if redb b then Ret (T, Some y)
     else
       o ← get T (Some y) (child d);
       T ← put_if T o (set_color RB_BLACK);
       T ← put T (Some y) (set_color RB_RED);
       T ← RB_ROTATE (flip d) T (Some y);
       tmp ← get T (Some p) (child (flip d));
       Ret (T, tmp)) = Ret (T1, Some y1) ∧
    turned l T0 T1 C (bin d c t p (bin d RB_BLACK a1 y1 b1)) ∧
    rbt a1 n ∧ rbt b1 n ∧ redb b1 = true).
  { destruct (redb b) eqn:Eb; [by exists T, a, y, b|].
    destruct Hred as [Er|]; [|done]. rb_get Ey.
    apply turned_down in Hy as Ha0. destruct (red_inv a Er) as (a' & z & b' & E).
    destruct (bin_any LEFT d RB_RED a' z b') as (a1 & b1 & E'). simpl in E'.
    rewrite E' in E. clear E' a' b'. subst a. rewrite rootp_bin. simpl.
    apply rbt_red in Ha as (Ha1b & Hb1b & Ha1 & Hb1).
    destruct (turned_paint RB_BLACK _ _ _ _ _ _ _ _ _ Ha0) as (T1 & -> & H1 & _). simpl.
    apply turned_up in H1. simpl in H1.
    destruct (turned_paint RB_RED _ _ _ _ _ _ _ _ _ H1) as (T2 & -> & H2 & _). simpl.
    rewrite <- (bin_flip d _ _ y), <- (bin_flip d _ _ z) in H2.
    apply turned_rotate in H2 as (T3 & -> & H3). simpl. rewrite !bin_flip in H3.
    apply turned_up in H3. simpl in H3. rewrite bin_flip in H3.
    pose proof (turned_entry _ _ _ _ _ _ _ _ _ H3) as Ep. rb_get Ep.
    exists T3, a1, z, (bin d RB_RED b1 y b). rewrite redb_bin. split; [done|].
    split; [done|]. split; [done|]. split; [by apply rbt_red|done]. }
  destruct Hmid as (T1 & a1 & y1 & b1 & -> & H1 & Ha1 & Hb1 & Hr1). simpl.
  pose proof (turned_entry _ _ _ _ _ _ _ _ _ H1) as Ep. rb_get Ep.
  apply turned_other in H1.
  destruct (turned_paint c _ _ _ _ _ _ _ _ _ H1) as (T2 & -> & H2 & _). simpl.
  apply turned_up in H2. simpl in H2. rewrite bin_flip in H2.
  destruct (turned_paint RB_BLACK _ _ _ _ _ _ _ _ _ H2) as (T3 & -> & H3 & _). simpl.
  apply turned_other in H3. pose proof (turned_entry _ _ _ _ _ _ _ _ _ H3) as Ey1. rb_get Ey1.
  apply turned_other in H3.
  destruct (turned_paint_if _ _ _ _ _ _ H3 Hb1 Hr1) as (T4 & b2 & -> & H4 & _ & Hb2b & Hb2). simpl.
  apply turned_up in H4. simpl in H4. rewrite bin_flip in H4.
  apply turned_up in H4. simpl in H4. rewrite bin_flip in H4.
  apply turned_rotate in H4 as (T5 & -> & H5). exists T5. eexists. split; [done|].
  split; [exact H5|]. eapply ctx_plug; [exact HC| |].
  - destruct c; simpl.
    + apply rbt_black. split; [by apply rbt_black|done].
    + apply rbt_red. split; [apply black_bin|]. split; [done|]. split; [by apply rbt_black|done].
  - destruct c; [right; apply black_bin|left; by apply HcC].
Qed.

(** The root of a balanced tree is painted black: no change. *)
Lemma put_root_black l T0 T t :
  turned l T0 T [] t → rb_ok t →
  ∃ T', put_if T (rbh_root T) (set_color RB_BLACK) = Ret T' ∧ turned l T0 T' [] t.
Proof.
  intros H [Hb _]. assert (rbh_root T = rootp t) as -> by (by destruct H as [[] _ _]).
  destruct t as [|[] a x b]; [by exists T| |done].
  destruct (turned_paint RB_BLACK _ _ _ _ LEFT _ _ _ _ H) as (T' & E & H' & _). by exists T'.
Qed.

(** The tests that look for a red child of the sibling. *)
Lemma some_red_ok l T0 T C d c a y b :
  turned l T0 T C (bin d c a y b) →
  (tl ← get T (Some y) rbe_left;
   lr ← is_red T tl;
   if lr : bool then Ret true else tr ← get T (Some y) rbe_right; is_red T tr)
  = Ret (redb a || redb b).
Proof.
  intros H. pose proof (turned_entry _ _ _ _ _ _ _ _ _ H) as Ey.
  pose proof (turned_red _ _ _ _ _ (turned_down _ _ _ _ _ _ _ _ _ H)) as Ra.
  pose proof (turned_red _ _ _ _ _ (turned_other _ _ _ _ _ _ _ _ _ H)) as Rb'.
  rewrite (get_ok _ _ _ rbe_left Ey). simpl.
  destruct d; simpl; rewrite ?Ra, ?Rb'; simpl.
  - destruct (redb a); simpl; [done|]. rewrite (get_ok _ _ _ rbe_right Ey). simpl. done.
  - destruct (redb b); simpl; [by destruct (redb a)|].
    rewrite (get_ok _ _ _ rbe_right Ey). simpl. rewrite Ra. by destruct (redb a).
Qed.

(** One turn of the loop below a parent. *)
Lemma remove_color_turn fuel l T0 T C d c p o t :
  turned l T0 T (Step d c p o :: C) t → black t → o ≠ Tip →
  RB_REMOVE_COLOR (S fuel) T (Some p) (rootp t) =
  '(T, tmp) ← remove_red_sibling T d (Some p) (rootp o);
  tl ← get T tmp rbe_left;
  lr ← is_red T tl;
  some_red ← (if lr : bool then Ret true else tr ← get T tmp rbe_right; is_red T tr);
  if some_red : bool then
    T ← remove_rotate T d (Some p) tmp;
    put_if T (rbh_root T) (set_color RB_BLACK)
  else
    T ← put T tmp (set_color RB_RED);
    gparent ← get T (Some p) rbe_parent;
    RB_REMOVE_COLOR fuel T gparent (Some p).
Proof.
  intros H Hb Ho. simpl. rewrite (turned_red _ _ _ _ _ H), Hb. simpl.
  rewrite bool_decide_eq_false_2 by (by eapply not_root).
  pose proof (turned_above _ _ _ _ _ _ H) as Ep. simpl in Ep.
  rewrite (get_ok _ _ _ rbe_left Ep). simpl.
  assert (Hne : rootp t ≠ rootp o).
  { destruct (rootp t) eqn:Et; [|by destruct o].
    pose proof (turned_apart _ _ _ _ _ _ H) as Ha. rewrite Et in Ha. by apply Ha. }
  pose proof (side_test _ _ _ _ _ _ (top C) c H) as Hs. simpl in Hs. rewrite Hs by done.
  rewrite (get_ok _ _ _ (child (flip d)) Ep). simpl. by rewrite child_flip_entry.
Qed.

Lemma remove_color_ok fuel l T0 T C t n :
  turned l T0 T C t → almost t n → ctx C (S n) →
  (length C + (if redb t then 0 else 1) < fuel)%nat →
  ∃ T' t', RB_REMOVE_COLOR fuel T (top C) (rootp t) = Ret T' ∧ turned l T0 T' [] t' ∧ rb_ok t'.
Proof.
  revert T C t n. induction fuel as [|fuel IH]; intros T C t n H Ht HC Hf; [lia|].
  assert (Hdone : redb t = true ∨ C = [] → ∃ T' t',
    RB_REMOVE_COLOR (S fuel) T (top C) (rootp t) = Ret T' ∧ turned l T0 T' [] t' ∧ rb_ok t').
  { intros Hend. destruct (remove_color_done _ _ _ _ _ _ H Ht HC Hend) as (T' & t' & E & ?).
    exists T', t'. split; [|done]. rewrite <- E. simpl. rewrite (turned_red _ _ _ _ _ H). simpl.
    destruct Hend as [->| ->]; [done|].
    assert (rbh_root T = rootp t) as -> by (by destruct H as [[] _ _]).
    rewrite bool_decide_eq_true_2 by done. by rewrite orb_true_r. }
  destruct (redb t) eqn:Eb; [by apply Hdone; left|].
  destruct C as [|[d c p o] C]; [by apply Hdone; right|]. clear Hdone. cbn [top s_at].
  apply black_almost in Ht; [|done]. pose proof HC as [Ho _]. simpl in Ho, Hf.
  rewrite (remove_color_turn _ _ _ _ _ _ _ _ _ _ H Eb) by (by intros ->).
  destruct (remove_red_sibling_ok _ _ _ _ _ _ _ _ _ _ H HC)
    as (T1 & c1 & o1 & C1 & -> & H1 & [Ho1 HC1] & Hb1 & Hlen). simpl in Ho1, HC1 |- *.
  destruct (rbt_S_bin d o1 n Ho1) as (co & a & y & b & ->).
  assert (co = RB_BLACK) as -> by (unfold black in Hb1; rewrite redb_bin in Hb1; by destruct co).
  apply rbt_black in Ho1 as [Ha Hb]. rewrite rootp_bin.
  apply turned_up in H1. simpl in H1. apply turned_other in H1 as Hy.
  pose proof (some_red_ok _ _ _ _ _ _ _ _ _ Hy) as Es.
  apply cres_bind_Ret in Es as (tl & -> & Es). simpl in Es |- *.
  apply cres_bind_Ret in Es as (lr & -> & Es). simpl in Es |- *. rewrite Es. simpl.
  assert (HC2 : (c1 = RB_RED → black_top C1) ∧
                ctx C1 (if decide (c1 = RB_RED) then S n else S (S n))).
  { destruct c1; simpl; [done|]. by destruct HC1 as (_ & ? & ?). }
  destruct HC2 as [Hct HC2]. destruct (redb a || redb b) eqn:Er.
  - apply orb_true_iff in Er.
    destruct (remove_rotate_ok _ _ _ _ _ _ _ _ _ _ _ _ H1 Ht Eb Ha Hb Er Hct HC2)
      as (T2 & t2 & -> & H2 & Hok2). simpl.
    apply (turned_focus [] (plug C1 t2)) in H2; [|done].
    destruct (put_root_black _ _ _ _ H2 Hok2) as (T3 & E3 & H3). eauto.
  - apply orb_false_iff in Er as [Era Erb].
    destruct (turned_paint RB_RED _ _ _ _ _ _ _ _ _ Hy) as (T2 & -> & H2 & _). simpl.
    apply turned_up in H2. simpl in H2. rewrite bin_flip in H2.
    pose proof (turned_entry _ _ _ _ _ _ _ _ _ H2) as Ep. rb_get Ep.
    rewrite <- (rootp_bin d c1 t p (bin d RB_RED a y b)).
    assert (Hor : rbt (bin d RB_RED a y b) n) by (by apply rbt_red).
    destruct c1; simpl in HC2, Hlen.
    + apply (IH _ _ _ (S n) H2); [|done|rewrite redb_bin; simpl; lia].
      apply rbt_almost. by apply rbt_black.
    + apply (IH _ _ _ n H2); [by apply almost_red|done|rewrite redb_bin; simpl; lia].
Qed.

(** An element with at most one child leaves the tree. *)
Lemma unlink_ok T C d c ch x :
  at_hole T C (bin d c ch x Tip) →
  ∃ T', (T ← put_if T (rootp ch) (set_parent (top C));
         replace_child T (top C) (Some x) (rootp ch)) = Ret T' ∧
    at_hole T' C ch ∧ local_to (inorder ch ++ path_nodes C) T T'.
Proof.
  intros [Hr Hh Hn]. rewrite inorder_bin_perm in Hn. simpl in Hn. rewrite app_nil_r in Hn.
  apply rep_bin in Hr as (Hx & Hc & _). rewrite rootp_bin in Hh.
  destruct (reparent_ok T _ (top C) ch Hc) as (T1 & -> & Hc1 & R1 & L1); [apart|]. simpl.
  eapply hole_local in Hh; [|exact L1|apart|done].
  destruct (replace_child_ok T1 C x (rootp ch) Hh) as (T2 & -> & Hh2 & L2); [apart..|].
  exists T2. split; [done|]. split.
  - split; [|done|by apply NoDup_cons in Hn as [_ Hn]].
    eapply rep_local; [exact L2|apart|done].
  - eapply local_trans; eapply local_mono; [exact L1|set_solver|exact L2|set_solver].
Qed.

(** An element [y] outside the tree takes the place of the element [x]. *)
Lemma take_place_ok T C c l x r y ey :
  at_hole T C (Bin c l x r) → l ≠ Tip → rb_cells T !! y = Some ey →
  y ∉ inorder (Bin c l x r) ++ path_nodes C →
  ∃ T', take_place T (Some x) (Some y) = Ret T' ∧ at_hole T' C (Bin c l y r) ∧
    local_to (y :: inorder l ++ inorder r ++ path_nodes C) T T'.
Proof.
  intros [(Hx & Hl & Hr) Hh Hn] Hlt Hy Hyn. simpl in Hn, Hyn, Hh.
  assert (Hnd : NoDup (x :: y :: inorder l ++ inorder r ++ path_nodes C)).
  { apply NoDup_cons. split; [|apply NoDup_cons; split; [set_solver|]]; nodups.
    - set_solver.
    - apply NoDup_app. split; [done|]. split; [set_solver|]. apply NoDup_app.
      split; [done|]. set_solver. }
  clear Hn Hyn. unfold take_place. rb_get Hx. rb_put Hy T1 R1 L1.
  eapply lookup_local in Hx; [|exact L1|apart].
  rewrite (get_ok _ _ _ rbe_parent Hx). simpl. eapply hole_local in Hh; [|exact L1|apart|done].
  destruct (replace_child_ok T1 C x (Some y) Hh) as (T2 & -> & Hh2 & L2); [apart..|]. simpl.
  eapply lookup_local in Hx; [|exact L2|apart]. eapply lookup_local in Hy; [|exact L2|apart].
  assert (L12 : local_to (y :: path_nodes C) T T2).
  { eapply local_trans; eapply local_mono; [exact L1|set_solver|exact L2|set_solver]. }
  eapply rep_local in Hl; [|exact L12|apart]. eapply rep_local in Hr; [|exact L12|apart].
  rewrite (get_ok _ _ _ rbe_left Hx). simpl.
  destruct (reparent_ok T2 _ (Some y) l Hl) as (T3 & E3 & Hl3 & R3 & L3); [apart|].
  assert (put T2 (rootp l) (set_parent (Some y)) = Ret T3) as ->.
  { rewrite <- E3. by destruct l. }
  simpl. eapply lookup_local in Hx; [|exact L3|apart]. eapply rep_local in Hr; [|exact L3|apart].
  rewrite (get_ok _ _ _ rbe_right Hx). simpl.
  destruct (reparent_ok T3 _ (Some y) r Hr) as (T4 & -> & Hr4 & R4 & L4); [apart|].
  exists T4. split; [done|].
  assert (L34 : local_to (inorder l ++ inorder r) T2 T4).
  { eapply local_trans; eapply local_mono; [exact L3|set_solver|exact L4|set_solver]. }
  split.
  - split.
    + split; [eapply lookup_local; [exact L34|apart|done]|].
      split; [eapply rep_local; [exact L4|apart|done]|done].
    + eapply hole_local; [exact L34|apart|congruence|done].
    + simpl. eapply NoDup_Permutation_proper; [|eapply NoDup_cons_1_2; exact Hnd].
      solve_Permutation.
  - eapply local_trans; eapply local_mono; [exact L12|set_solver|exact L34|set_solver].
Qed.

(** The first element of a subtree, with the path down to it. *)
Lemma leftmost t : t ≠ Tip → ∃ K c y r, t = plug K (Bin c Tip y r) ∧ lefts K = [].
Proof.
  induction t as [|c l IHl x r _]; [done|]. intros _. destruct l as [|cl ll z lr].
  { by exists [], c, x, r. }
  destruct IHl as (K & c' & y & r' & E & HK); [done|]. rewrite E.
  exists (K ++ [Step LEFT c x r]), c', y, r'. rewrite plug_snoc. split; [done|].
  clear -HK. induction K as [|s K IH]; simpl in *; [done|].
  apply app_eq_nil in HK as [HK ->]. by rewrite (IH HK).
Qed.

Lemma plug_app K C t : plug (K ++ C) t = plug C (plug K t).
Proof. revert t; induction K as [|s K IH]; intros t; simpl; [done|apply IH]. Qed.

Lemma lefts_app K C : lefts (K ++ C) = lefts C ++ lefts K.
Proof. induction K as [|s K IH]; simpl; [by rewrite app_nil_r|]. by rewrite IH, app_assoc. Qed.

(** Balance does not depend on which element is where. *)
Lemma ctx_relabel K d c x y o C n :
  ctx (K ++ Step d c x o :: C) n → ctx (K ++ Step d c y o :: C) n.
Proof.
  revert n; induction K as [|s K IH]; intros n; simpl; [done|].
  intros [Ho Hs]. split; [done|]. destruct (s_color s); [by apply IH|].
  destruct Hs as (Hb & Ht & Hs). split; [done|]. split; [by destruct K|by apply IH].
Qed.

(** The colours are repaired where a node of colour [c] has been taken out. *)
Lemma remove_color_at T C d c x ch :
  at_hole T C ch → rb_ok (plug C (bin d c ch x Tip)) →
  ∃ T' t', remove_color T c (top C) (rootp ch) = Ret T' ∧
    turned (inorder (plug C ch)) T T' [] t' ∧ rb_ok t'.
Proof.
  intros Ha (n & HC & Hn & _)%plug_ctx. pose proof (at_hole_fuel _ _ _ Ha) as Hf.
  unfold remove_color. destruct c; simpl.
  - destruct n as [|n]; [by destruct d|]. apply rbt_black in Hn as [Hch _].
    eapply remove_color_ok; [by apply turned_refl|by apply rbt_almost|done|].
    destruct (redb ch); lia.
  - apply rbt_red in Hn as (Hb & _ & Hch & _). exists T, (plug C ch). split; [done|].
    split; [eapply turned_focus; [by apply turned_refl|done]|].
    eapply ctx_plug; [done|done|by right].
Qed.

(** What the removal of [x] gives. *)
Definition removed (T T' : rb) (A : list loc) (x : loc) (B : list loc) : Prop :=
  holds T' (A ++ B) ∧ local_to (A ++ x :: B) T T'.

Lemma remove_single_ok T C d c ch x :
  at_hole T C (bin d c ch x Tip) → rb_ok (plug C (bin d c ch x Tip)) →
  ∃ T', remove_single T (Some x) (rootp ch) = Ret T' ∧
    removed T T' (lefts C) x (inorder ch ++ rights C).
Proof.
  intros Ha Hok. pose proof (turned_entry _ _ _ _ _ _ _ _ _ (turned_refl _ _ _ Ha)) as Hx.
  destruct (unlink_ok _ _ _ _ _ _ Ha) as (T1 & E1 & Ha1 & L1).
  destruct (remove_color_at _ _ _ _ _ _ Ha1 Hok) as (T' & t' & E' & [Ha' Ho' L'] & Hok').
  exists T'. split.
  - unfold remove_single. rewrite (get_ok _ _ _ rbe_parent Hx). simpl. rewrite parent_entry.
    rewrite (get_ok _ _ _ rbe_color Hx). simpl. rewrite color_entry.
    apply cres_bind_Ret in E1 as (T2 & -> & E1). simpl. rewrite E1. simpl. done.
  - simpl in Ho'. rewrite inorder_lefts_rights in Ho', L'. split; [by exists t'|].
    assert (Hs : inorder ch ++ path_nodes C ⊆ lefts C ++ x :: inorder ch ++ rights C).
    { rewrite <- plug_perm, inorder_lefts_rights. set_solver. }
    eapply local_trans; eapply local_mono; [exact L1|done|exact L'|set_solver].
Qed.

Lemma remove_double_ok T C c l x r :
  at_hole T C (Bin c l x r) → l ≠ Tip → r ≠ Tip → rb_ok (plug C (Bin c l x r)) →
  ∃ T', remove_double T (Some x) (rootp r) = Ret T' ∧
    removed T T' (lefts C ++ inorder l) x (inorder r ++ rights C).
Proof.
  intros Ha Hl Hr Hok. destruct (leftmost r Hr) as (K & cy & y & ry & Er & HK).
  set (K1 := K ++ Step RIGHT c x l :: C). set (K2 := K ++ Step RIGHT c y l :: C).
  assert (Hr' : inorder r = y :: inorder (plug K ry)).
  { rewrite Er, !inorder_lefts_rights, HK. done. }
  assert (Ha0 : at_hole T K1 (bin RIGHT cy ry y Tip)).
  { rewrite at_hole_plug. unfold K1. rewrite plug_app. simpl. rewrite <- Er.
    by apply at_hole_plug in Ha. }
  pose proof (turned_entry _ _ _ _ _ _ _ _ _ (turned_refl _ _ _ Ha0)) as Hy.
  destruct (unlink_ok _ _ _ _ _ _ Ha0) as (T1 & E1 & Ha1 & L1).
  apply cres_bind_Ret in E1 as (T0 & E0 & E1).
  assert (Hyn : y ∉ inorder ry ++ path_nodes K1).
  { pose proof (ah_nodup _ _ _ Ha0) as Hn. rewrite inorder_bin_perm in Hn. simpl in Hn.
    rewrite app_nil_r in Hn. by apply NoDup_cons in Hn as [? _]. }
  pose proof (lookup_local _ _ _ _ _ L1 Hyn Hy) as Hy1.
  assert (Ha2 : at_hole T1 C (Bin c l x (plug K ry))).
  { apply at_hole_plug in Ha1. unfold K1 in Ha1. rewrite plug_app in Ha1.
    by apply at_hole_plug. }
  assert (Hyn2 : y ∉ inorder (Bin c l x (plug K ry)) ++ path_nodes C).
  { rewrite <- plug_perm. change (plug C (Bin c l x (plug K ry))) with
      (plug (Step RIGHT c x l :: C) (plug K ry)). rewrite <- plug_app, plug_perm. done. }
  destruct (take_place_ok _ _ _ _ _ _ _ _ Ha2 Hl Hy1 Hyn2) as (T2 & E2 & Ha3 & L2).
  assert (Ha4 : at_hole T2 K2 ry).
  { rewrite at_hole_plug. unfold K2. rewrite plug_app. by apply at_hole_plug in Ha3. }
  destruct (remove_color_at T2 K2 RIGHT cy y ry) as (T' & t' & E' & [Ha' Ho' L'] & Hok'); [done| |].
  { assert (Hok1 : rb_ok (plug K1 (bin RIGHT cy ry y Tip))).
    { unfold K1. rewrite plug_app. simpl. by rewrite <- Er. }
    apply plug_ctx in Hok1 as (n & HC & Hn & Hb). eapply ctx_plug; [by eapply ctx_relabel|done|].
    unfold K1 in Hb. by destruct K. }
  exists T'. split.
  - unfold remove_double. change LEFT with (flip RIGHT).
    apply ah_rep in Ha as Hrep. destruct Hrep as (_ & _ & Hrr).
    rewrite (descend_ok _ _ _ _ _ Hrr) by (done || (apply at_hole_fuel in Ha; simpl in Ha;
      rewrite length_app in Ha; simpl in Ha; lia)).
    simpl. rewrite Hr'. simpl. rewrite (get_ok _ _ _ rbe_right Hy). simpl.
    rewrite (get_ok _ _ _ rbe_parent Hy). simpl. rewrite (get_ok _ _ _ rbe_color Hy). simpl.
    rewrite E0. simpl. rewrite E1. simpl. rewrite (get_ok _ _ _ rbe_parent Hy1). simpl.
    rewrite E2. simpl. rewrite <- E'. f_equal.
    unfold K1, K2. destruct K as [|s K]; simpl; [by rewrite decide_True|].
    rewrite decide_False; [done|]. intros [= E].
    pose proof (ah_nodup _ _ _ Ha1) as Hn. simpl in Hn. rewrite E in Hn.
    apply NoDup_app in Hn as (_ & _ & Hn). apply NoDup_cons in Hn as [Hn _]. apply Hn.
    rewrite elem_of_app. right. clear. induction K as [|s' K IH]; simpl; set_solver.
  - rewrite Hr'. simpl in Ho'. unfold K2 in Ho', L'. rewrite plug_app in Ho', L'. simpl in Ho', L'.
    rewrite inorder_lefts_rights in Ho', L'. simpl in Ho', L'.
    replace (lefts C ++ (inorder l ++ y :: inorder (plug K ry)) ++ rights C)
      with ((lefts C ++ inorder l) ++ (y :: inorder (plug K ry)) ++ rights C) in Ho', L'
      by (rewrite <- !app_assoc; done).
    split; [by exists t'|].
    assert (Hs1 : inorder ry ++ path_nodes K1 ⊆
      (lefts C ++ inorder l) ++ x :: (y :: inorder (plug K ry)) ++ rights C).
    { rewrite <- plug_perm. unfold K1. rewrite plug_app. simpl.
      rewrite inorder_lefts_rights. simpl. set_solver. }
    assert (Hs2 : y :: inorder l ++ inorder (plug K ry) ++ path_nodes C ⊆
      (lefts C ++ inorder l) ++ x :: (y :: inorder (plug K ry)) ++ rights C).
    { pose proof (plug_perm C Tip) as Hp. simpl in Hp. rewrite inorder_lefts_rights in Hp.
      simpl in Hp. rewrite <- Hp. set_solver. }
    eapply local_trans; [eapply local_mono; [exact L1|done]|].
    eapply local_trans; eapply local_mono; [exact L2|done|exact L'|set_solver].
Qed.

Lemma RB_REMOVE_ok T A x B :
  holds T (A ++ x :: B) → ∃ T', RB_REMOVE T x = Ret T' ∧ removed T T' A x B.
Proof.
  intros (C & c & l & r & Ha & Hok & -> & ->)%holds_focus. unfold RB_REMOVE.
  assert (Hx : rb_cells T !! x = Some (RbEntry (rootp l) (rootp r) (top C) c))
    by (destruct Ha as [[? _] _ _]; done).
  rewrite (get_ok _ _ _ rbe_left Hx). simpl. rewrite (get_ok _ _ _ rbe_right Hx). simpl.
  destruct l as [|cl ll z lr]; [|destruct r as [|cr rl z' rr]].
  - simpl. rewrite app_nil_r. by apply (remove_single_ok T C RIGHT c r x).
  - destruct (remove_single_ok T C LEFT c (Bin cl ll z lr) x Ha Hok) as (T' & E & Hh & Hl).
    exists T'. split; [done|]. split.
    + by rewrite <- app_assoc.
    + eapply local_mono; [done|]. set_solver.
  - apply (remove_double_ok T C c (Bin cl ll z lr) x (Bin cr rl z' rr)); done.
Qed.

Lemma nfind_walk_ok fuel T cmp p t A m B res :
  rep (rb_cells T) p t → cut cmp (inorder t) A m B → (height t < fuel)%nat →
  nfind_walk fuel T cmp (rootp t) res
  = Ret (match m with Some y => Some y | None =>
           match head B with Some y => Some y | None => res end end).
Proof.
  revert p t A m B res; induction fuel as [|fuel IH]; intros p t A m B res Hr Hc Hf; [lia|].
  destruct t as [|c l x r]; simpl in *.
  { by apply cut_nil in Hc as (_ & -> & ->). }
  destruct Hr as (Hx & Hl & Hr).
  apply cut_bin in Hc as [(z & A' & -> & Hz & _ & Hc)|[(-> & -> & _)|(z & B' & -> & Hz & -> & Hc)]];
    simpl.
  - destruct (Z.ltb_spec z 0); [lia|]. destruct (Z.ltb_spec 0 z); [|lia].
    rb_get Hx. eapply IH; [done|done|lia].
  - done.
  - destruct (Z.ltb_spec z 0); [|lia]. rb_get Hx. rewrite (IH _ _ _ _ _ _ Hl Hc) by lia.
    destruct m; [done|]. by destruct B'.
Qed.

Lemma RB_NFIND_ok T cmp l A m B :
  holds T l → cut cmp l A m B →
  RB_NFIND T cmp = Ret (match m with Some y => Some y | None => head B end).
Proof.
  intros (t & Ha & Hok & <-) Hc. unfold RB_NFIND.
  assert (rbh_root T = rootp t) as -> by (by destruct Ha).
  erewrite nfind_walk_ok; [|by destruct Ha|done|].
  - by destruct (head B).
  - apply at_hole_fuel in Ha. pose proof (height_length t). simpl in Ha. lia.
Qed.

(** ** Trees sorted by a key

    A client compares its elements by a key: what it has to show of the comparison is the
    class [KeyOrder]; what it gets is a sorted sequence and searches by key. *)
Class KeyOrder {K : Type} (kcmp : K → K → Z) : Prop := {
  ko_eq a b : kcmp a b = 0 ↔ a = b;
  ko_anti a b : kcmp a b < 0 ↔ 0 < kcmp b a;
  ko_trans a b c : kcmp a b < 0 → kcmp b c < 0 → kcmp a c < 0
}.

#[export] Instance Z_key_order : KeyOrder Z.sub.
Proof. split; lia. Qed.

Section Keyed.
Context {K : Type} (kcmp : K → K → Z) `{!KeyOrder kcmp}.
Implicit Types (key : loc → option K) (l A B : list loc).

(** The comparison of an element that has the key [k] with the others. *)
Definition key_cmp key (k : K) (x : loc) : cres Z :=
  match key x with Some k' => Ret (kcmp k k') | None => Fault end.

Inductive sorted key : list loc → Prop :=
| sorted_nil : sorted key []
| sorted_cons x k l :
    key x = Some k → Forall (fun y => ∃ k', key y = Some k' ∧ kcmp k k' < 0) l →
    sorted key l → sorted key (x :: l).

Lemma sorted_frame key key' l : (∀ x, x ∈ l → key' x = key x) → sorted key l → sorted key' l.
Proof.
  intros Hf Hs. induction Hs as [|x k l Hx Hl Hs IH]; [constructor|].
  econstructor; [rewrite Hf; [done|set_solver]| |apply IH; set_solver].
  rewrite Forall_forall in Hl |- *. intros y Hy. rewrite Hf by set_solver. auto.
Qed.

Lemma sorted_app_inv key A B :
  sorted key (A ++ B) → sorted key A ∧ sorted key B ∧
  ∀ x y, x ∈ A → y ∈ B → ∃ k k', key x = Some k ∧ key y = Some k' ∧ kcmp k k' < 0.
Proof.
  induction A as [|a A IH]; simpl; intros Hs.
  { split; [constructor|]. split; [done|]. set_solver. }
  inversion Hs as [|? k ? Ha Hf Hs' E]; subst. destruct (IH Hs') as (HA & HB & Hab).
  apply Forall_app in Hf as [HfA HfB]. split; [by econstructor|]. split; [done|].
  intros x y Hx Hy. apply elem_of_cons in Hx as [->|Hx]; [|by apply Hab].
  rewrite Forall_forall in HfB. destruct (HfB y Hy) as (k' & Ek & Hk). eauto.
Qed.

Lemma sorted_app key A B :
  sorted key A → sorted key B →
  (∀ x y, x ∈ A → y ∈ B → ∃ k k', key x = Some k ∧ key y = Some k' ∧ kcmp k k' < 0) →
  sorted key (A ++ B).
Proof.
  intros HA HB. induction HA as [|x k l Hx Hl Hs IH]; simpl; [done|]. intros Hab.
  econstructor; [done| |apply IH; set_solver]. apply Forall_app. split; [done|].
  apply Forall_forall. intros y Hy. destruct (Hab x y) as (k1 & k' & E1 & E2 & Hk); [set_solver|done|].
  rewrite Hx in E1. injection E1 as <-. eauto.
Qed.

Lemma sorted_remove key A x B : sorted key (A ++ x :: B) → sorted key (A ++ B).
Proof.
  intros (HA & HB & Hab)%sorted_app_inv. inversion HB; subst.
  apply sorted_app; [done|done|]. set_solver.
Qed.

(** Every key cuts a sorted sequence, at the element that has it. *)
Lemma sorted_cut key l k :
  sorted key l →
  ∃ A m B, cut (key_cmp key k) l A m B ∧ ∀ x, m = Some x ↔ x ∈ l ∧ key x = Some k.
Proof.
  induction 1 as [|x k0 l Hx Hl Hs IH].
  { exists [], None, []. split; [|set_solver]. by repeat split. }
  assert (Hcx : key_cmp key k x = Ret (kcmp k k0)) by (unfold key_cmp; by rewrite Hx).
  rewrite Forall_forall in Hl.
  destruct (Z.lt_trichotomy (kcmp k k0) 0) as [Hlt|[Heq|Hgt]].
  - exists [], None, (x :: l). split.
    + repeat split; [constructor|done|]. apply Forall_cons. split; [eauto|].
      apply Forall_forall. intros y Hy. destruct (Hl y Hy) as (k' & Ek & Hk).
      exists (kcmp k k'). unfold key_cmp. rewrite Ek. split; [done|]. by eapply ko_trans.
    + intros y. split; [done|]. intros [Hy Ey]. exfalso.
      assert (Hkk : kcmp k k = 0) by (by apply ko_eq).
      apply elem_of_cons in Hy as [->|Hy]; [rewrite Hx in Ey; injection Ey as ->; lia|].
      destruct (Hl y Hy) as (k' & Ek & Hk). rewrite Ey in Ek. injection Ek as <-.
      pose proof (ko_trans _ _ _ Hlt Hk). lia.
  - apply ko_eq in Heq as <-. exists [], (Some x), l. split.
    + repeat split; [constructor| |].
      * intros y [= <-]. rewrite Hcx. f_equal. by apply ko_eq.
      * apply Forall_forall. intros y Hy. destruct (Hl y Hy) as (k' & Ek & Hk).
        exists (kcmp k k'). unfold key_cmp. by rewrite Ek.
    + intros y. split; [intros [= <-]; set_solver|]. intros [Hy Ey].
      apply elem_of_cons in Hy as [->|Hy]; [done|].
      destruct (Hl y Hy) as (k' & Ek & Hk). rewrite Ey in Ek. injection Ek as <-.
      assert (kcmp k k = 0) by (by apply ko_eq). lia.
  - destruct IH as (A & m & B & [E HA Hm HB] & Hiff). exists (x :: A), m, B. split.
    + split; [by rewrite E|apply Forall_cons; split; eauto|done|done].
    + intros y. rewrite Hiff, elem_of_cons. split; [naive_solver|].
      intros [[->|Hy] Ey]; [|done]. rewrite Hx in Ey. injection Ey as ->.
      assert (kcmp k k = 0) by (by apply ko_eq). lia.
Qed.

(** Inserting at the cut keeps the sequence sorted. *)
Lemma sorted_insert key k A x B :
  sorted key (A ++ B) → cut (key_cmp key k) (A ++ B) A None B → key x = Some k →
  sorted key (A ++ x :: B).
Proof.
  intros Hs [_ HA _ HB] Hx. apply sorted_app_inv in Hs as (HsA & HsB & Hab).
  assert (Hcmp : ∀ y z, key_cmp key k y = Ret z → ∃ k', key y = Some k' ∧ z = kcmp k k').
  { intros y z. unfold key_cmp. destruct (key y); naive_solver. }
  rewrite Forall_forall in HA, HB. apply sorted_app; [done| |].
  - econstructor; [done| |done]. apply Forall_forall. intros y Hy.
    destruct (HB y Hy) as (z & (k' & Ek & ->)%Hcmp & Hz). eauto.
  - intros y y' Hy Hy'. destruct (HA y Hy) as (z & (k' & Ek & ->)%Hcmp & Hz).
    apply elem_of_cons in Hy' as [->|Hy']; [|by apply Hab].
    exists k', k. split; [done|]. split; [done|]. by apply ko_anti.
Qed.
End Keyed.

Lemma cut_ext cmp cmp' l A m B :
  (∀ x, x ∈ l → cmp' x = cmp x) → cut cmp l A m B → cut cmp' l A m B.
Proof.
  intros Hf [-> HA Hm HB]. split; [done|..].
  - rewrite Forall_forall in HA |- *. intros x Hx. rewrite Hf by set_solver. auto.
  - intros y ->. rewrite Hf by set_solver. auto.
  - rewrite Forall_forall in HB |- *. intros x Hx. rewrite Hf by set_solver. auto.
Qed.

(** Searching and inserting with a comparison that agrees with the keys: [x] is a new object
    whose entry is in the store. *)
Lemma keyed_find {K} (kcmp : K → K → Z) `{!KeyOrder kcmp} (key : loc → option K) T l k cmp :
  holds T l → sorted kcmp key l → (∀ y, y ∈ l → cmp y = key_cmp kcmp key k y) →
  ∃ m, RB_FIND T cmp = Ret m ∧ ∀ y, m = Some y ↔ y ∈ l ∧ key y = Some k.
Proof.
  intros Hh Hs Hc. destruct (sorted_cut kcmp key l k Hs) as (A & m & B & Hcut & Hm).
  exists m. split; [|done]. eapply RB_FIND_ok; [done|]. eapply cut_ext; [exact Hc|exact Hcut].
Qed.

Lemma keyed_insert {K} (kcmp : K → K → Z) `{!KeyOrder kcmp} (key : loc → option K) T l x k e cmp :
  holds T l → sorted kcmp key l → x ∉ l → key x = Some k → (∀ y, y ∈ l → cmp y = key_cmp kcmp key k y) →
  let T1 := Rb (rbh_root T) (<[x := e]> (rb_cells T)) in
  (∃ y, y ∈ l ∧ key y = Some k ∧ RB_INSERT T1 cmp x = Ret (Some y, T1)) ∨
  ((∀ y, y ∈ l → key y ≠ Some k) ∧
   ∃ T' l', RB_INSERT T1 cmp x = Ret (None, T') ∧ holds T' l' ∧ sorted kcmp key l' ∧ l' ≡ₚ x :: l ∧
     dom (rb_cells T') = {[x]} ∪ dom (rb_cells T)).
Proof.
  intros Hh Hs Hx Hk Hc T1. destruct (sorted_cut kcmp key l k Hs) as (A & m & B & Hcut & Hm).
  assert (Hh1 : holds T1 l).
  { apply (rb_holds_frame T); [|done|done]. intros y Hy. simpl. apply lookup_insert_ne. by intros ->. }
  assert (Hcut1 : cut cmp l A m B) by (eapply cut_ext; [exact Hc|exact Hcut]).
  destruct m as [y|].
  - left. exists y. destruct (proj1 (Hm y) eq_refl) as [Hy Hky]. split; [done|]. split; [done|].
    by eapply RB_INSERT_found.
  - right. split. { intros y Hy Hky. by assert (None = Some y) by (by apply Hm). }
    destruct (RB_INSERT_new _ _ _ _ _ _ Hh1 Hcut1 Hx) as (T' & E & Hh' & _ & Hd).
    pose proof (cut_split _ _ _ _ _ Hcut) as ->. simpl in *.
    exists T', (A ++ x :: B). split; [done|]. split; [done|]. split; [by eapply sorted_insert|].
    split; [by rewrite Permutation_middle|]. rewrite Hd, dom_insert_L. set_solver.
Qed.

(** ** An order of byte strings

    By length, then as [memcmp] says. *)
Definition bytes_cmp (a b : list Z) : Z :=
  if decide (length a = length b) then memcmp a b (length a)
  else Z.of_nat (length a) - Z.of_nat (length b).

Lemma memcmp_self a n : memcmp a a n = 0.
Proof. revert a; induction n as [|n IH]; intros [|x a]; simpl; try done. by rewrite Z.eqb_refl. Qed.

Lemma memcmp_anti a b n : memcmp a b n < 0 ↔ 0 < memcmp b a n.
Proof.
  revert a b; induction n as [|n IH]; intros [|x a] [|y b]; simpl; try lia.
  rewrite (Z.eqb_sym y x). destruct (Z.eqb_spec x y) as [->|]; [apply IH|lia].
Qed.

Lemma memcmp_trans a b c n :
  length a = n → length b = n → length c = n →
  memcmp a b n < 0 → memcmp b c n < 0 → memcmp a c n < 0.
Proof.
  revert a b c; induction n as [|n IH]; intros [|x a] [|y b] [|z c]; simpl; try lia.
  intros Ha Hb Hc.
  destruct (Z.eqb_spec x y), (Z.eqb_spec y z), (Z.eqb_spec x z); subst; try lia. apply IH; lia.
Qed.

#[export] Instance bytes_key_order : KeyOrder bytes_cmp.
Proof.
  split.
  - intros a b. unfold bytes_cmp. case_decide as E.
    + rewrite memcmp_eq by lia. rewrite !take_ge by lia. done.
    + split; [lia|]. by intros ->.
  - intros a b. unfold bytes_cmp. case_decide as E.
    + rewrite decide_True by done. rewrite <- E. apply memcmp_anti.
    + rewrite decide_False by congruence. lia.
  - intros a b c. unfold bytes_cmp. repeat case_decide; try lia.
    intros Hab Hbc. replace (length b) with (length a) in Hbc by congruence.
    apply (memcmp_trans a b c); congruence || lia.
Qed.

(** Keys ordered by a number first. *)
Definition first_by {K} (f : K → Z) (kcmp : K → K → Z) (a b : K) : Z :=
  if f a =? f b then kcmp a b else f a - f b.

#[export] Instance first_by_order {K} (f : K → Z) kcmp :
  KeyOrder kcmp → KeyOrder (K := K) (first_by f kcmp).
Proof.
  intros HK. split.
  - intros a b. unfold first_by. destruct (Z.eqb_spec (f a) (f b)); [apply ko_eq|].
    split; [lia|]. by intros ->.
  - intros a b. unfold first_by. rewrite (Z.eqb_sym (f b)). destruct (Z.eqb_spec (f a) (f b)); [apply ko_anti|lia].
  - intros a b c. unfold first_by.
    destruct (Z.eqb_spec (f a) (f b)), (Z.eqb_spec (f b) (f c)), (Z.eqb_spec (f a) (f c)); try lia.
    apply ko_trans.
Qed.

(** Pairs ordered by their first parts first. *)
Definition pair_cmp {K L} (kcmp : K → K → Z) (lcmp : L → L → Z) (a b : K * L) : Z :=
  if kcmp a.1 b.1 =? 0 then lcmp a.2 b.2 else kcmp a.1 b.1.

#[export] Instance pair_cmp_order {K L} (kcmp : K → K → Z) (lcmp : L → L → Z) :
  KeyOrder kcmp → KeyOrder lcmp → KeyOrder (pair_cmp kcmp lcmp).
Proof.
  intros HK HL. unfold pair_cmp. split.
  - intros [a a'] [b b']. simpl. destruct (Z.eqb_spec (kcmp a b) 0) as [E|E].
    + apply (ko_eq (kcmp := kcmp)) in E as ->. rewrite ko_eq. naive_solver.
    + split; [done|]. intros [= -> ->]. exfalso. by apply E, ko_eq.
  - intros [a a'] [b b']. simpl.
    destruct (Z.eqb_spec (kcmp a b) 0) as [E|E], (Z.eqb_spec (kcmp b a) 0) as [E'|E'];
      [apply ko_anti| | |apply ko_anti].
    + exfalso. apply E'. apply (ko_eq (kcmp := kcmp)) in E as ->. by apply ko_eq.
    + exfalso. apply E. apply (ko_eq (kcmp := kcmp)) in E' as ->. by apply ko_eq.
  - intros [a a'] [b b'] [c c']. simpl.
    destruct (Z.eqb_spec (kcmp a b) 0) as [E|E]; [apply (ko_eq (kcmp := kcmp)) in E as <-|].
    + destruct (Z.eqb_spec (kcmp a c) 0); [apply (ko_trans a' b' c')|lia].
    + destruct (Z.eqb_spec (kcmp b c) 0) as [E'|E']; [apply (ko_eq (kcmp := kcmp)) in E' as <-|].
      { rewrite (proj2 (Z.eqb_neq _ _) E). lia. }
      intros H1 H2. pose proof (ko_trans _ _ _ H1 H2).
      destruct (Z.eqb_spec (kcmp a c) 0); lia.
Qed.

(** ** The macros are correct *)

(** C24: [RB_INSERT] on a balanced tree whose elements are sorted by their keys: when an
    element of the tree has the key of the new element it is returned and nothing changes;
    otherwise the new element is linked between its neighbours, the tree is balanced and
    sorted again, and no object outside the tree is touched. *)
Theorem RB_INSERT_correct {K} (kcmp : K → K → Z) `{!KeyOrder kcmp} (key : loc → option K) T l x k :
  holds T l → sorted kcmp key l → x ∉ l → key x = Some k →
  (∃ y, y ∈ l ∧ key y = Some k ∧ RB_INSERT T (key_cmp kcmp key k) x = Ret (Some y, T)) ∨
  ((∀ y, y ∈ l → key y ≠ Some k) ∧
   ∃ A B T', l = A ++ B ∧ RB_INSERT T (key_cmp kcmp key k) x = Ret (None, T') ∧
     holds T' (A ++ x :: B) ∧ sorted kcmp key (A ++ x :: B) ∧
     ∀ z, z ∉ x :: l → rb_cells T' !! z = rb_cells T !! z).
Proof.
  intros Hh Hs Hx Hk. destruct (sorted_cut kcmp key l k Hs) as (A & [y|] & B & Hc & Hm).
  - left. exists y. destruct (proj1 (Hm y) eq_refl) as [Hy Hky]. split; [done|]. split; [done|].
    by eapply RB_INSERT_found.
  - right. split. { intros y Hy Hky. by assert (None = Some y) by (by apply Hm). }
    destruct (RB_INSERT_new _ _ _ _ _ _ Hh Hc Hx) as (T' & E & Hh' & Hf & _).
    exists A, B, T'. pose proof (cut_split _ _ _ _ _ Hc) as ->. simpl in *.
    split; [done|]. split; [done|]. split; [done|]. split; [|done]. by eapply sorted_insert.
Qed.

(** C25: [RB_REMOVE] of an element of a balanced tree ends with a balanced tree of the other
    elements in the same order, and touches no object outside the tree. *)
Theorem RB_REMOVE_correct T A x B :
  holds T (A ++ x :: B) →
  ∃ T', RB_REMOVE T x = Ret T' ∧ holds T' (A ++ B) ∧
        ∀ z, z ∉ A ++ x :: B → rb_cells T' !! z = rb_cells T !! z.
Proof. intros H. destruct (RB_REMOVE_ok T A x B H) as (T' & E & Hh & [Hf _]). eauto. Qed.

(** C26: [RB_FIND] returns the element that has the key looked for, or NULL when none has
    it, and its loop turns at most twice the logarithm of the number of elements. *)
Theorem RB_FIND_correct {K} (kcmp : K → K → Z) `{!KeyOrder kcmp} (key : loc → option K) T l k :
  holds T l → sorted kcmp key l →
  ∃ m, (∀ x, m = Some x ↔ x ∈ l ∧ key x = Some k) ∧
    RB_FIND T (key_cmp kcmp key k) = Ret m ∧
    find_walk (S (2 * Nat.log2 (S (length l)))) T (key_cmp kcmp key k) (rbh_root T) = Ret m.
Proof.
  intros Hh Hs. destruct (sorted_cut kcmp key l k Hs) as (A & m & B & Hc & Hm).
  exists m. split; [done|]. split; [by eapply RB_FIND_ok|].
  destruct Hh as (t & Ha & Hok & <-). assert (rbh_root T = rootp t) as -> by (by destruct Ha).
  eapply find_walk_ok; [by destruct Ha|done|]. pose proof (rb_height t Hok). lia.
Qed.

(** [RB_FOREACH] runs its body on every element once, in order, and the neighbours of an
    element are what [RB_NEXT] and [RB_PREV] return. *)
Theorem RB_FOREACH_correct {A} T (body : A → loc → cres A) a l1 x l2 :
  holds T (l1 ++ x :: l2) →
  RB_FOREACH T body a = fold_m body a (l1 ++ x :: l2) ∧
  RB_NEXT T (Some x) = Ret (head l2) ∧ RB_PREV T (Some x) = Ret (last l1).
Proof.
  intros H. split; [by apply RB_FOREACH_ok|]. split; [by eapply RB_NEXT_ok|by eapply RB_PREV_ok].
Qed.

(** A tree to run the theorems on. *)
Definition demo_rb : rb := ret_of (foldl rb_add (Ret (Rb None ∅)) [5; 3; 8; 1; 4; 9]%positive) (Rb None ∅).
Definition demo_key (x : loc) : option Z := Some (Zpos x).
Definition demo_shape : tree :=
  Bin RB_BLACK (Bin RB_BLACK (Bin RB_RED Tip 1 Tip) 3 (Bin RB_RED Tip 4 Tip)) 5
      (Bin RB_BLACK Tip 8 (Bin RB_RED Tip 9 Tip))%positive.

Lemma demo_rb_holds : holds demo_rb [1; 3; 4; 5; 8; 9]%positive.
Proof.
  exists demo_shape. split; [|split; [|done]].
  - split; [vm_compute; by repeat split|vm_compute; done|].
    by apply (bool_decide_unpack _); vm_compute.
  - split; [done|]. exists 2%nat. by vm_compute; repeat split.
Qed.

Lemma demo_rb_sorted : sorted Z.sub demo_key [1; 3; 4; 5; 8; 9]%positive.
Proof.
  repeat first [apply sorted_nil | eapply sorted_cons; [done| |]];
    repeat first [apply Forall_nil_2 | apply Forall_cons_2; [eexists; split; [done|lia]|]].
Qed.

Lemma RB_INSERT_correct_witness :
  (7%positive ∉ [1; 3; 4; 5; 8; 9]%positive) ∧
  ((∃ y, y ∈ [1; 3; 4; 5; 8; 9]%positive ∧ demo_key y = Some 7 ∧
     RB_INSERT demo_rb (key_cmp Z.sub demo_key 7) 7 = Ret (Some y, demo_rb)) ∨
   ((∀ y, y ∈ [1; 3; 4; 5; 8; 9]%positive → demo_key y ≠ Some 7) ∧
    ∃ A B T', [1; 3; 4; 5; 8; 9]%positive = A ++ B ∧
     RB_INSERT demo_rb (key_cmp Z.sub demo_key 7) 7 = Ret (None, T') ∧
     holds T' (A ++ 7%positive :: B) ∧ sorted Z.sub demo_key (A ++ 7%positive :: B) ∧
     ∀ z, z ∉ [7; 1; 3; 4; 5; 8; 9]%positive → rb_cells T' !! z = rb_cells demo_rb !! z)).
Proof.
  split; [by apply (bool_decide_unpack _); vm_compute|].
  apply (RB_INSERT_correct Z.sub demo_key); [apply demo_rb_holds|apply demo_rb_sorted| |done].
  by apply (bool_decide_unpack _); vm_compute.
Defined.

Lemma RB_REMOVE_correct_witness :
  ∃ T', RB_REMOVE demo_rb 5 = Ret T' ∧ holds T' [1; 3; 4; 8; 9]%positive ∧
        ∀ z, z ∉ [1; 3; 4; 5; 8; 9]%positive → rb_cells T' !! z = rb_cells demo_rb !! z.
Proof. apply (RB_REMOVE_correct demo_rb [1; 3; 4]%positive 5 [8; 9]%positive), demo_rb_holds. Defined.

Lemma RB_FIND_correct_witness :
  ∃ m, (∀ x, m = Some x ↔ x ∈ [1; 3; 4; 5; 8; 9]%positive ∧ demo_key x = Some 4) ∧
    RB_FIND demo_rb (key_cmp Z.sub demo_key 4) = Ret m ∧
    find_walk 5 demo_rb (key_cmp Z.sub demo_key 4) (rbh_root demo_rb) = Ret m.
Proof. apply (RB_FIND_correct Z.sub demo_key _ _ 4 demo_rb_holds demo_rb_sorted). Defined.

Lemma RB_FOREACH_correct_witness :
  RB_FOREACH demo_rb (fun l x => Ret (x :: l)) [] = Ret [9; 8; 5; 4; 3; 1]%positive ∧
  RB_NEXT demo_rb (Some 5%positive) = Ret (Some 8%positive) ∧
  RB_PREV demo_rb (Some 5%positive) = Ret (Some 4%positive).
Proof.
  apply (RB_FOREACH_correct demo_rb (fun l x => Ret (x :: l)) [] [1; 3; 4]%positive 5 [8; 9]%positive).
  apply demo_rb_holds.
Defined.
