(* ===== verification/CText.v ===== *)
(** * Text utilities

    The byte-level helpers the services call on paths and URLs:
    [libs/escape-percent], [libs/find-last-slash], [libs/remove-redundancy-slash],
    [libs/utf8-to-unicode] and [libs/path-is-very-safe].  The routines that work in
    place are modelled on the buffer they rewrite, and proved to leave in it what a
    plain recursive function on the text computes. *)
From S2P Require Import Prelude.
Open Scope Z_scope.

(** ** Percent escapes *)
Module EscapePercent.

(** The value of a hexadecimal digit, or -1. *)
Definition epip_translate_table : list Z :=
  [ -1; -1; -1; -1; -1; -1; -1; -1; -1; -1; -1; -1; -1; -1; -1; -1;
    -1; -1; -1; -1; -1; -1; -1; -1; -1; -1; -1; -1; -1; -1; -1; -1;
    -1; -1; -1; -1; -1; -1; -1; -1; -1; -1; -1; -1; -1; -1; -1; -1;
    0; 1; 2; 3; 4; 5; 6; 7; 8; 9; -1; -1; -1; -1; -1; -1;
    -1; 10; 11; 12; 13; 14; 15; -1; -1; -1; -1; -1; -1; -1; -1; -1;
    -1; -1; -1; -1; -1; -1; -1; -1; -1; -1; -1; -1; -1; -1; -1; -1;
    -1; 10; 11; 12; 13; 14; 15; -1; -1; -1; -1; -1; -1; -1; -1; -1;
    -1; -1; -1; -1; -1; -1; -1; -1; -1; -1; -1; -1; -1; -1; -1; -1;
    -1; -1; -1; -1; -1; -1; -1; -1; -1; -1; -1; -1; -1; -1; -1; -1;
    -1; -1; -1; -1; -1; -1; -1; -1; -1; -1; -1; -1; -1; -1; -1; -1;
    -1; -1; -1; -1; -1; -1; -1; -1; -1; -1; -1; -1; -1; -1; -1; -1;
    -1; -1; -1; -1; -1; -1; -1; -1; -1; -1; -1; -1; -1; -1; -1; -1;
    -1; -1; -1; -1; -1; -1; -1; -1; -1; -1; -1; -1; -1; -1; -1; -1;
    -1; -1; -1; -1; -1; -1; -1; -1; -1; -1; -1; -1; -1; -1; -1; -1;
    -1; -1; -1; -1; -1; -1; -1; -1; -1; -1; -1; -1; -1; -1; -1; -1;
    -1; -1; -1; -1; -1; -1; -1; -1; -1; -1; -1; -1; -1; -1; -1; -1 ].

(** The [for] loop: [i] reads, [w] writes, both in [buf]. *)
Fixpoint epip_loop (fuel : nat) (buf : list Z) (l i w : Z) : cres (Z * list Z) :=
  match fuel with
  | O => NoFuel
  | S fuel =>
      if i <? l then
        c ← rd buf i;
        if c =? 37 then
          if l - i <? 3 then Ret (-1, buf) else
          t ← rd buf (i + 1);
          k ← rd epip_translate_table t;
          if k =? -1 then Ret (-1, buf) else
          let code := u8 (Z.shiftl k 4) in
          t ← rd buf (i + 2);
          k ← rd epip_translate_table t;
          if k =? -1 then Ret (-1, buf) else
          let code := u8 (code + k) in
          buf ← wr buf w code;
          epip_loop fuel buf l (i + 3) (w + 1)
        else
          buf ← wr buf w c;
          epip_loop fuel buf l (i + 1) (w + 1)
      else Ret (w, buf)
  end.

(** The value returned and the buffer left behind. *)
Definition escape_percent_in_place (buf : list Z) (l : Z) : cres (Z * list Z) :=
  epip_loop (S (Z.to_nat l)) buf l 0 0.

(** *** Reference: decoding a text *)
Definition hexval (c : Z) : Z := tab epip_translate_table (-1) c.

Fixpoint pct_decode (s : list Z) : option (list Z) :=
  match s with
  | [] => Some []
  | c :: s' =>
      if c =? 37 then
        match s' with
        | a :: b :: s'' =>
            if (hexval a =? -1) || (hexval b =? -1) then None
            else cons (16 * hexval a + hexval b) <$> pct_decode s''
        | _ => None
        end
      else cons c <$> pct_decode s'
  end.

(** *** What an encoding is *)

(** [c] is a hexadecimal digit, in capitals or small letters, and stands for [n]. *)
Definition hex_digit (c n : Z) : Prop :=
  48 <= c <= 57 ∧ n = c - 48 ∨ 65 <= c <= 70 ∧ n = c - 55 ∨ 97 <= c <= 102 ∧ n = c - 87.

(** A text for some bytes: each byte stands for itself, except the percent sign, or is a
    percent sign and two digits. *)
Inductive encodes : list Z → list Z → Prop :=
| enc_nil : encodes [] []
| enc_plain c t s : c ≠ 37 → encodes t s → encodes (c :: t) (c :: s)
| enc_escape a b x y t s : hex_digit a x → hex_digit b y → encodes t s → encodes (37 :: a :: b :: t) (16 * x + y :: s).

(** *** Lemmas *)
Lemma table_rd c : is_byte c → rd epip_translate_table c = Ret (hexval c).
Proof. by apply rd_tab. Qed.

Lemma hexval_range c : is_byte c → -1 <= hexval c < 16.
Proof.
  intros Hc. by_range (fun c => (-1 <=? hexval c) && (hexval c <? 16)) 256 c Hc. lia.
Qed.

(** The table has the digits and nothing else. *)
Lemma hexval_digit c n : is_byte c → hex_digit c n ↔ hexval c = n ∧ n ≠ -1.
Proof.
  intros Hc.
  assert (E : hexval c = if (48 <=? c) && (c <=? 57) then c - 48 else if (65 <=? c) && (c <=? 70) then c - 55
                         else if (97 <=? c) && (c <=? 102) then c - 87 else -1).
  { by_range (fun c => hexval c =? if (48 <=? c) && (c <=? 57) then c - 48 else if (65 <=? c) && (c <=? 70) then c - 55
                         else if (97 <=? c) && (c <=? 102) then c - 87 else -1) 256 c Hc. lia. }
  rewrite E. unfold hex_digit. clear E. repeat case_match; split; lia.
Qed.

Lemma code_of_digits a b :
  0 <= a < 16 → 0 <= b < 16 → u8 (u8 (Z.shiftl a 4) + b) = 16 * a + b.
Proof.
  intros Ha Hb. rewrite Z.shiftl_mul_pow2 by lia.
  rewrite (u8_small (a * 2^4)) by lia. rewrite u8_small by lia. lia.
Qed.

(** One turn on an ordinary byte. *)
Lemma epip_step_lit fuel s tl d i c r :
  drop i s = c :: r → (length d <= i)%nat → c ≠ 37 →
  epip_loop (S fuel) (ow d (s ++ tl)) (Z.of_nat (length s)) (Z.of_nat i) (Z.of_nat (length d))
  = epip_loop fuel (ow (d ++ [c]) (s ++ tl)) (Z.of_nat (length s))
      (Z.of_nat (S i)) (Z.of_nat (S (length d))).
Proof.
  intros E Hd Hc. pose proof (drop_lookup_cons _ _ _ _ E) as (_ & _ & Hi).
  simpl. rewrite (proj2 (Z.ltb_lt _ _)) by lia. rewrite (ow_rd_text _ _ _ _ c r) by done.
  simpl. rewrite (proj2 (Z.eqb_neq _ _)) by done. rewrite ow_wr_text by lia. simpl.
  by nat_index.
Qed.

(** One turn on a percent sign. *)
Lemma epip_step_esc fuel s tl d i r :
  Forall is_byte s → drop i s = 37 :: r → (length d <= i)%nat →
  epip_loop (S fuel) (ow d (s ++ tl)) (Z.of_nat (length s)) (Z.of_nat i) (Z.of_nat (length d))
  = match r with
    | a :: b :: _ =>
        if (hexval a =? -1) || (hexval b =? -1) then Ret (-1, ow d (s ++ tl))
        else epip_loop fuel (ow (d ++ [16 * hexval a + hexval b]) (s ++ tl))
               (Z.of_nat (length s)) (Z.of_nat (S (S (S i)))) (Z.of_nat (S (length d)))
    | _ => Ret (-1, ow d (s ++ tl))
    end.
Proof.
  intros Hs E Hd. pose proof (drop_lookup_cons _ _ _ _ E) as (_ & E1 & Hi).
  pose proof (f_equal length E) as El. rewrite length_drop in El.
  simpl. rewrite (proj2 (Z.ltb_lt _ _)) by lia. rewrite (ow_rd_text _ _ _ _ 37 r) by done.
  simpl. destruct r as [|a [|b r]]; simpl in El.
  1-2: by rewrite (proj2 (Z.ltb_lt _ _)) by lia.
  rewrite (proj2 (Z.ltb_ge _ _)) by lia. nat_index.
  pose proof (drop_lookup_cons _ _ _ _ E1) as (_ & E2 & _).
  destruct (Forall_drop_cons _ _ _ _ _ Hs E1) as [Ha _].
  destruct (Forall_drop_cons _ _ _ _ _ Hs E2) as [Hb _].
  rewrite (ow_rd_text _ _ _ (S i) a (b :: r)) by (done || lia). simpl.
  rewrite (ow_rd_text _ _ _ (S (S i)) b r) by (done || lia). simpl.
  rewrite !table_rd by done. simpl.
  pose proof (hexval_range a Ha). pose proof (hexval_range b Hb).
  destruct (Z.eqb_spec (hexval a) (-1)); [done|].
  destruct (Z.eqb_spec (hexval b) (-1)); [done|]. simpl.
  rewrite code_of_digits by lia. rewrite ow_wr_text by lia. simpl. by nat_index.
Qed.

(** The loop from any point: [d] is written, the suffix of the text at [i] is left. *)
Lemma epip_loop_spec n s tl : ∀ fuel d i,
  Forall is_byte s → (length d <= i)%nat → (i <= length s)%nat →
  (length s - i < fuel)%nat → (length s - i <= n)%nat →
  ∃ r buf,
    epip_loop fuel (ow d (s ++ tl)) (Z.of_nat (length s)) (Z.of_nat i) (Z.of_nat (length d))
    = Ret (r, buf) ∧ length buf = length (s ++ tl) ∧
    match pct_decode (drop i s) with
    | Some e => r = Z.of_nat (length (d ++ e)) ∧ buf = ow (d ++ e) (s ++ tl)
    | None => r = -1
    end.
Proof.
  induction n as [n IH] using lt_wf_ind; intros [|fuel] d i Hs Hd Hi Hf Hn; [lia|].
  assert (Hlen : length (ow d (s ++ tl)) = length (s ++ tl))
    by (apply length_ow; rewrite length_app; lia).
  assert (Hgo : ∀ v j, drop i s ≠ [] → (i < j <= length s)%nat → ∃ r buf,
    epip_loop fuel (ow (d ++ [v]) (s ++ tl)) (Z.of_nat (length s)) (Z.of_nat j)
      (Z.of_nat (S (length d))) = Ret (r, buf) ∧ length buf = length (s ++ tl) ∧
    match cons v <$> pct_decode (drop j s) with
    | Some e => r = Z.of_nat (length (d ++ e)) ∧ buf = ow (d ++ e) (s ++ tl)
    | None => r = -1
    end).
  { intros v j _ Hj. destruct (IH (length s - j)%nat ltac:(lia) fuel (d ++ [v]) j)
      as (r & buf & Hr & Hb & Hm); [done|rewrite length_app; simpl; lia|lia..|].
    rewrite length_app, Nat.add_comm in Hr. simpl in Hr. exists r, buf.
    split; [done|]. split; [done|]. destruct (pct_decode _); simpl; [|done].
    by rewrite <- app_assoc in Hm. }
  destruct (drop i s) as [|c r] eqn:E.
  - apply drop_nil_length in E. simpl. rewrite (proj2 (Z.ltb_ge _ _)) by lia.
    do 2 eexists. split; [done|]. split; [done|]. by rewrite app_nil_r.
  - pose proof (drop_lookup_cons _ _ _ _ E) as (_ & E1 & Hlt). simpl pct_decode.
    destruct (Z.eqb_spec c 37) as [->|Hne].
    + rewrite (epip_step_esc _ _ _ _ _ r) by done.
      destruct r as [|a [|b r]]; [by eauto..|].
      destruct ((hexval a =? -1) || _); [by eauto|].
      pose proof (drop_lookup_cons _ _ _ _ E1) as (_ & E2 & _).
      pose proof (drop_lookup_cons _ _ _ _ E2) as (_ & E3 & Hlt3). rewrite <- E3.
      by apply Hgo; [|lia].
    + rewrite (epip_step_lit _ _ _ _ _ c r) by done. rewrite <- E1. by apply Hgo; [|lia].
Qed.

(** What is written are bytes, and nothing behind the text is touched. *)
Lemma epip_keeps fuel buf l i w r buf' :
  epip_loop fuel buf l i w = Ret (r, buf') → 0 <= w <= i → Forall is_byte buf →
  Forall is_byte buf' ∧ ∀ k, l <= Z.of_nat k → buf' !! k = buf !! k.
Proof.
  revert buf i w. induction fuel as [|fuel IH]; intros buf i w; [done|]. cbn [epip_loop].
  destruct (Z.ltb_spec i l) as [Hil|]; [|by intros [= <- <-]].
  assert (Hgo : ∀ v j, wr buf w v ≫= (fun buf => epip_loop fuel buf l j (w + 1)) = Ret (r, buf') → is_byte v → i < j → 0 <= w <= i →
    Forall is_byte buf → Forall is_byte buf' ∧ ∀ k, l <= Z.of_nat k → buf' !! k = buf !! k).
  { intros v j H Hv Hj Hw Hb. unfold wr in H. destruct (decide (0 <= w < Z.of_nat (length buf))); [|done]. cbn [mbind cres_bind] in H.
    destruct (IH _ _ _ H) as [Hb' Hk]; [lia|by apply Forall_insert|]. split; [done|]. intros k Hlk. rewrite Hk by done.
    rewrite list_lookup_insert_ne by lia. done. }
  intros (c & Hc & H)%cres_bind_Ret Hw Hb. apply rd_Ret in Hc as [_ Hc].
  destruct (c =? 37); [|eapply (Hgo c); try done; [by eapply Forall_lookup_1|lia]].
  destruct (l - i <? 3); [by injection H as <- <-|]. apply cres_bind_Ret in H as (t & _ & H). apply cres_bind_Ret in H as (k & _ & H).
  destruct (k =? -1); [by injection H as <- <-|]. apply cres_bind_Ret in H as (t' & _ & H). apply cres_bind_Ret in H as (k' & _ & H).
  destruct (k' =? -1); [by injection H as <- <-|]. eapply Hgo; try done; [apply u8_range|lia].
Qed.

(** Decoding percent escapes in place is decoding the text: when every escape is
    well formed the call returns the length of the decoded text and leaves it at the
    front of the buffer, the rest of which is as before; otherwise it returns -1.
    It always returns, and never touches a byte outside the buffer. *)
Theorem escape_percent_in_place_correct s tl :
  Forall is_byte s →
  ∃ r buf, escape_percent_in_place (s ++ tl) (Z.of_nat (length s)) = Ret (r, buf) ∧
    length buf = length (s ++ tl) ∧
    match pct_decode s with
    | Some d => r = Z.of_nat (length d) ∧ buf = ow d (s ++ tl)
    | None => r = -1
    end.
Proof.
  intros Hs. unfold escape_percent_in_place. rewrite Nat2Z.id.
  exact (epip_loop_spec (length s) s tl (S (length s)) [] 0 Hs
           ltac:(simpl; lia) ltac:(lia) ltac:(lia) ltac:(lia)).
Qed.

Lemma escape_percent_in_place_correct_witness :
  ∃ r buf, escape_percent_in_place ([97; 37; 50; 70] ++ [0]) 4 = Ret (r, buf) ∧ r = 2.
Proof.
  destruct (escape_percent_in_place_correct [97; 37; 50; 70] [0]) as (r & buf & H & _ & Hm).
  { unfold is_byte. repeat constructor; lia. }
  exists r, buf. split; [exact H|]. exact (proj1 Hm).
Defined.

Lemma pct_decode_encodes t s : Forall is_byte t → pct_decode t = Some s ↔ encodes t s.
Proof.
  intros Ht. split.
  - revert s. induction t as [t IH] using (induction_ltof1 _ (@length Z)). unfold ltof in IH. intros s.
    destruct t as [|c t]; simpl; [intros [= <-]; constructor|]. apply Forall_cons in Ht as [Hc Ht].
    destruct (Z.eqb_spec c 37) as [->|Hne].
    + destruct t as [|a [|b t]]; try done. apply Forall_cons in Ht as [Ha Ht]. apply Forall_cons in Ht as [Hb Ht].
      destruct (Z.eqb_spec (hexval a) (-1)); [done|]. destruct (Z.eqb_spec (hexval b) (-1)); [done|]. simpl.
      intros (e & E & ->)%fmap_Some. constructor; [by apply hexval_digit..|]. apply IH; [simpl; lia|done|done].
    + intros (e & E & ->)%fmap_Some. constructor; [done|]. apply IH; [simpl; lia|done|done].
  - induction 1 as [|c t s Hne H IH|a b x y t s Ha Hb H IH]; [done|..].
    + apply Forall_cons in Ht as [_ Ht]. simpl. rewrite (proj2 (Z.eqb_neq c 37)), IH by done. done.
    + apply Forall_cons in Ht as [_ Ht]. apply Forall_cons in Ht as [Ba Ht]. apply Forall_cons in Ht as [Bb Ht].
      apply hexval_digit in Ha as [<- Ha]; [|done]. apply hexval_digit in Hb as [<- Hb]; [|done]. simpl.
      rewrite !(proj2 (Z.eqb_neq _ (-1))), IH by done. done.
Qed.

(** C38: decoding in place inverts every percent encoding, in capitals, small letters or both:
    for any text that encodes the bytes [s] (each byte as itself, unless it is the percent
    sign, or as a percent sign and two hexadecimal digits) the call leaves [s] at the front of
    the buffer, the rest of it as it was, and returns the length of [s]; for a text that
    encodes nothing it returns -1. *)
Theorem escape_percent_roundtrip t tl :
  Forall is_byte t →
  (∀ s, encodes t s → escape_percent_in_place (t ++ tl) (Z.of_nat (length t)) = Ret (Z.of_nat (length s), ow s (t ++ tl))) ∧
  ((∀ s, ¬ encodes t s) → ∃ buf, escape_percent_in_place (t ++ tl) (Z.of_nat (length t)) = Ret (-1, buf)).
Proof.
  intros Ht. unfold escape_percent_in_place. rewrite Nat2Z.id.
  destruct (epip_loop_spec (length t) t tl (S (length t)) [] 0 Ht ltac:(simpl; lia) ltac:(lia) ltac:(lia) ltac:(lia)) as (r & buf & E & _ & Hm).
  rewrite drop_0 in Hm. split.
  - intros s Hs%pct_decode_encodes; [|done]. rewrite Hs in Hm. destruct Hm as [-> ->]. exact E.
  - intros Hn. destruct (pct_decode t) as [s|] eqn:Es; [by apply pct_decode_encodes, Hn in Es|]. subst r. by exists buf.
Qed.

Lemma escape_percent_roundtrip_witness :
  escape_percent_in_place ([97; 37; 50; 102; 37; 50; 70] ++ [0]) 7 = Ret (3, [97; 47; 47; 102; 37; 50; 70; 0]).
Proof.
  apply (proj1 (escape_percent_roundtrip [97; 37; 50; 102; 37; 50; 70] [0] ltac:(unfold is_byte; repeat constructor; lia)) [97; 47; 47]).
  apply enc_plain; [lia|]. apply (enc_escape 50 102 2 15); [unfold hex_digit; lia..|]. apply (enc_escape 50 70 2 15); [unfold hex_digit; lia..|]. constructor.
Defined.
End EscapePercent.

(** ** Slashes *)

(** The components of a text: its maximal runs of bytes that are no separators; [cur]
    is the part of the current one already seen, last byte first. *)
Fixpoint comps (sep : Z → bool) (cur s : list Z) : list (list Z) :=
  match s with
  | [] => match cur with [] => [] | _ => [rev cur] end
  | c :: s' =>
      if sep c then
        match cur with [] => comps sep [] s' | _ => rev cur :: comps sep [] s' end
      else comps sep (c :: cur) s'
  end.

Lemma comps_run sep cur w s :
  Forall (fun c => sep c = false) w → comps sep cur (w ++ s) = comps sep (rev w ++ cur) s.
Proof.
  intros Hw; revert cur; induction Hw as [|c w Hc Hw IH]; intros cur; simpl; [done|].
  rewrite Hc, IH, <- app_assoc. done.
Qed.

Module Slash.

Definition is_slash (c : Z) : bool := (c =? 47) || (c =? 92).

(** [find_last_slash] scans to the terminating zero. *)
Fixpoint fls_loop (fuel : nat) (b : list Z) (i p : Z) : cres Z :=
  match fuel with
  | O => NoFuel
  | S fuel =>
      c ← rd b i;
      if negb (c =? 0) then
        if is_slash c then fls_loop fuel b (i + 1) i else fls_loop fuel b (i + 1) p
      else Ret p
  end.

Definition find_last_slash (b : list Z) : cres Z := fls_loop (S (length b)) b 0 (-1).

(** [find_last_slash2] scans [len] bytes. *)
Fixpoint fls2_loop (fuel : nat) (b : list Z) (len i p : Z) : cres Z :=
  match fuel with
  | O => NoFuel
  | S fuel =>
      if i <? len then
        c ← rd b i;
        if is_slash c then fls2_loop fuel b len (i + 1) i
        else fls2_loop fuel b len (i + 1) p
      else Ret p
  end.

Definition find_last_slash2 (b : list Z) (len : Z) : cres Z :=
  fls2_loop (S (Z.to_nat len)) b len 0 (-1).

Inductive rrs_state := S_INIT | S_AFTER_SLASH.

(** [remove_redundancy_slash]: [i] reads, [o] writes. *)
Fixpoint rrs_loop (fuel : nat) (b : list Z) (s : rrs_state) (o i : Z) : cres (Z * list Z) :=
  match fuel with
  | O => NoFuel
  | S fuel =>
      c ← rd b i;
      if is_slash c then
        match s with
        | S_INIT => rrs_loop fuel b S_AFTER_SLASH o (i + 1)
        | S_AFTER_SLASH => rrs_loop fuel b s o (i + 1)
        end
      else if c =? 0 then
        b ← wr b o 0;
        Ret (o, b)
      else
        match s with
        | S_INIT =>
            b ← wr b o c;
            rrs_loop fuel b s (o + 1) (i + 1)
        | S_AFTER_SLASH =>
            b ← wr b o 47;
            b ← wr b (o + 1) c;
            rrs_loop fuel b S_INIT (o + 1 + 1) (i + 1)
        end
  end.

Definition remove_redundancy_slash (b : list Z) : cres (Z * list Z) :=
  rrs_loop (S (length b)) b S_INIT 0 0.

(** *** References *)

(** The last position of a slash, [p] when there is none. *)
Fixpoint last_slash (s : list Z) (i p : Z) : Z :=
  match s with
  | [] => p
  | c :: s' => last_slash s' (i + 1) (if is_slash c then i else p)
  end.

(** The text with every run of slashes made one, and a trailing run dropped. *)
Fixpoint squeeze (after : bool) (s : list Z) : list Z :=
  match s with
  | [] => []
  | c :: s' =>
      if is_slash c then squeeze true s'
      else if after then 47 :: c :: squeeze false s' else c :: squeeze false s'
  end.

Definition components (s : list Z) : list (list Z) := comps is_slash [] s.

Lemma last_slash_spec s i p :
  let r := last_slash s i p in
  (r = p ∧ Forall (fun c => is_slash c = false) s) ∨
  ∃ k c, r = i + Z.of_nat k ∧ s !! k = Some c ∧ is_slash c = true ∧
         Forall (fun c => is_slash c = false) (drop (S k) s).
Proof.
  revert i p; induction s as [|c s IH]; intros i p; simpl; [by left|].
  destruct (IH (i + 1) (if is_slash c then i else p)) as [[Hr Hf]|(k & d & Hr & Hk & Hd & Hf)].
  - destruct (is_slash c) eqn:Ec.
    + right. exists 0%nat, c. simpl. split; [lia|]. done.
    + left. split; [done|]. by constructor.
  - right. exists (S k), d. simpl. split; [lia|]. done.
Qed.

Lemma fls2_loop_spec fuel s tl i p :
  (i <= length s)%nat → (length s - i < fuel)%nat →
  fls2_loop fuel (s ++ tl) (Z.of_nat (length s)) (Z.of_nat i) p =
  Ret (last_slash (drop i s) (Z.of_nat i) p).
Proof.
  revert i p; induction fuel as [|fuel IH]; intros i p Hi Hf; [lia|]. simpl.
  destruct (drop i s) as [|c r] eqn:E.
  - apply drop_nil_length in E. by rewrite (proj2 (Z.ltb_ge _ _)) by lia.
  - pose proof (drop_lookup_cons _ _ _ _ E) as (_ & E1 & Hlt).
    rewrite (proj2 (Z.ltb_lt _ _)) by lia.
    rewrite (rd_text s tl i c r) by done. simpl. nat_index.
    destruct (is_slash c); rewrite IH, E1 by lia; done.
Qed.

Lemma fls_loop_spec fuel s tl i p :
  cstring s → (i <= length s)%nat → (length s - i < fuel)%nat →
  fls_loop fuel (s ++ 0 :: tl) (Z.of_nat i) p = Ret (last_slash (drop i s) (Z.of_nat i) p).
Proof.
  intros Hs. revert i p; induction fuel as [|fuel IH]; intros i p Hi Hf; [lia|]. simpl.
  destruct (drop i s) as [|c r] eqn:E.
  - apply drop_nil_length in E. rewrite (rd_nat _ _ 0); [done|].
    apply lookup_after. lia.
  - pose proof (drop_lookup_cons _ _ _ _ E) as (_ & E1 & Hlt).
    destruct (Forall_drop_cons _ _ _ _ _ Hs E) as [Hc _].
    rewrite (rd_text s _ i c r) by done. simpl. nat_index.
    rewrite (proj2 (Z.eqb_neq c 0)) by lia. simpl.
    destruct (is_slash c); rewrite IH, E1 by lia; done.
Qed.

(** In state [S_AFTER_SLASH] at least one byte was read and not written. *)
Definition pending (s : rrs_state) : nat :=
  match s with S_INIT => 0 | S_AFTER_SLASH => 1 end.
Definition after (s : rrs_state) : bool :=
  match s with S_INIT => false | S_AFTER_SLASH => true end.

Lemma slash_nonzero c : is_slash c = true → c ≠ 0.
Proof. unfold is_slash. lia. Qed.

Lemma rrs_loop_spec fuel s tl d i st :
  cstring s → (length d + pending st <= i)%nat → (i <= length s)%nat →
  (length s - i < fuel)%nat →
  rrs_loop fuel (ow d (s ++ 0 :: tl)) st (Z.of_nat (length d)) (Z.of_nat i) =
  let e := squeeze (after st) (drop i s) in
  Ret (Z.of_nat (length (d ++ e)), ow (d ++ e ++ [0]) (s ++ 0 :: tl)).
Proof.
  intros Hs. revert d i st; induction fuel as [|fuel IH]; intros d i st Hd Hi Hf; [lia|].
  simpl rrs_loop. destruct (drop i s) as [|c r] eqn:E.
  - apply drop_nil_length in E. replace i with (length s) by lia.
    rewrite (ow_rd _ _ _ 0) by (lia || by apply lookup_after). simpl.
    rewrite ow_wr by (rewrite length_app; simpl; lia). simpl. by rewrite app_nil_r.
  - pose proof (drop_lookup_cons _ _ _ _ E) as (_ & E1 & Hlt).
    destruct (Forall_drop_cons _ _ _ _ _ Hs E) as [Hc _].
    rewrite (ow_rd_text _ _ _ _ c r) by (done || lia). simpl. rewrite <- E1.
    assert (Hgo : ∀ d' st' n, length d' = n → (n + pending st' <= S i)%nat →
      rrs_loop fuel (ow d' (s ++ 0 :: tl)) st' (Z.of_nat n) (Z.of_nat (S i)) =
      let e := squeeze (after st') (drop (S i) s) in
      Ret (Z.of_nat (length (d' ++ e)), ow (d' ++ e ++ [0]) (s ++ 0 :: tl)))
      by (intros ??? <- ?; apply IH; lia).
    destruct (is_slash c) eqn:Ec.
    + nat_index. destruct st; rewrite (Hgo d) by (simpl in *; lia); done.
    + rewrite (proj2 (Z.eqb_neq c 0)) by lia. destruct st; simpl in Hd.
      * rewrite ow_wr_text by lia. simpl. nat_index.
        rewrite (Hgo (d ++ [c])) by (rewrite ?length_app; simpl; lia).
        simpl. by rewrite <- !app_assoc.
      * rewrite ow_wr_text by lia. simpl. nat_index.
        pose proof (ow_wr_text (d ++ [47]) s (0 :: tl) c) as Hw.
        rewrite length_app, Nat.add_1_r in Hw. rewrite Hw by lia. simpl.
        rewrite (Hgo _ S_INIT) by (rewrite ?length_app; simpl; lia).
        simpl. by rewrite <- !app_assoc.
Qed.

(** *** What the normal form is *)
Fixpoint no_double_slash (s : list Z) : bool :=
  match s with
  | c :: (d :: _) as s' => negb ((c =? 47) && (d =? 47)) && no_double_slash s'
  | _ => true
  end.

Lemma squeeze_comps s cur :
  comps is_slash cur (squeeze false s) = comps is_slash cur s ∧
  comps is_slash cur (squeeze true s) =
    match cur with [] => comps is_slash [] s | _ => rev cur :: comps is_slash [] s end.
Proof.
  revert cur; induction s as [|c s IH]; intros cur; simpl.
  - by destruct cur.
  - destruct (is_slash c) eqn:Ec.
    + split; [|destruct cur]; by rewrite (proj2 (IH _)).
    + simpl. rewrite Ec. split; [by rewrite (proj1 (IH _))|].
      destruct cur; by rewrite (proj1 (IH _)).
Qed.

(** In the result every slash is a '/' followed by another byte that is none. *)
Lemma squeeze_normal a s :
  let r := squeeze a s in
  Forall (fun c => c ≠ 92) r ∧ no_double_slash r = true ∧ last r ≠ Some 47.
Proof.
  revert a; induction s as [|c s IH]; intros a; simpl; [done|].
  destruct (is_slash c) eqn:Ec; simpl.
  { apply (IH true). }
  destruct (IH false) as (H1 & H2 & H3).
  assert (Hc : c ≠ 47 ∧ c ≠ 92) by (unfold is_slash in Ec; lia).
  assert (Hnc : no_double_slash (c :: squeeze false s) = true).
  { destruct (squeeze false s) eqn:Es; [done|]. cbn [no_double_slash].
    rewrite (proj2 (Z.eqb_neq c 47)) by tauto. exact H2. }
  assert (Hl : last (c :: squeeze false s) ≠ Some 47).
  { rewrite last_cons. destruct (last (squeeze false s)) eqn:El; [congruence|].
    intros [= ->]. tauto. }
  destruct a.
  - split_and!.
    + constructor; [lia|]. constructor; [tauto|done].
    + change (negb ((47 =? 47) && (c =? 47)) && no_double_slash (c :: squeeze false s) = true).
      rewrite (proj2 (Z.eqb_neq c 47)) by tauto. exact Hnc.
    + change (last (c :: squeeze false s) ≠ Some 47). exact Hl.
  - split_and!; [constructor; [tauto|done]|done|done].
Qed.

(** Collapsing slashes in place leaves, at the front of the buffer and terminated,
    the text with every run of slashes and backslashes made one '/' and a trailing run
    dropped, and returns its length: the path has the components it had, no two
    adjacent slashes, no backslash and no trailing slash. *)
Theorem remove_redundancy_slash_correct s tl :
  cstring s →
  let r := squeeze false s in
  remove_redundancy_slash (s ++ 0 :: tl) =
    Ret (Z.of_nat (length r), ow (r ++ [0]) (s ++ 0 :: tl)) ∧
  components r = components s ∧
  no_double_slash r = true ∧ Forall (fun c => c ≠ 92) r ∧ last r ≠ Some 47.
Proof.
  intros Hs r. split.
  - exact (rrs_loop_spec (S (length (s ++ 0 :: tl))) s tl [] 0 S_INIT Hs
             ltac:(simpl; lia) ltac:(lia) ltac:(rewrite length_app; lia)).
  - destruct (squeeze_normal false s) as (?&?&?).
    split_and!; try done. apply squeeze_comps.
Qed.

Lemma remove_redundancy_slash_correct_witness :
  remove_redundancy_slash ([47; 97; 92; 47; 98; 47] ++ 0 :: [7]) =
    Ret (4, [47; 97; 47; 98; 0; 47; 0; 7]) ∧ cstring [47; 97; 92; 47; 98; 47].
Proof.
  assert (H : cstring [47; 97; 92; 47; 98; 47]) by (unfold cstring; repeat constructor; lia).
  split; [|exact H].
  exact (proj1 (remove_redundancy_slash_correct _ [7] H)).
Defined.

(** Both searches return the index of the last slash or backslash of the text, and
    -1 exactly when the text has none; the one that is given a length reads no byte
    past it and the other none past the terminating zero. *)
Theorem find_last_slash_correct s tl :
  cstring s →
  ∃ p, find_last_slash (s ++ 0 :: tl) = Ret p ∧
       find_last_slash2 (s ++ tl) (Z.of_nat (length s)) = Ret p ∧
       ((p = -1 ∧ Forall (fun c => is_slash c = false) s) ∨
        ∃ k c, p = Z.of_nat k ∧ s !! k = Some c ∧ is_slash c = true ∧
               Forall (fun c => is_slash c = false) (drop (S k) s)).
Proof.
  intros Hs. exists (last_slash s 0 (-1)). split_and!.
  - apply (fls_loop_spec _ s tl 0 (-1) Hs); [lia|rewrite length_app; simpl; lia].
  - unfold find_last_slash2. rewrite Nat2Z.id. apply (fls2_loop_spec _ s tl 0); lia.
  - exact (last_slash_spec s 0 (-1)).
Qed.

Lemma find_last_slash_correct_witness :
  ∃ p, find_last_slash ([97; 47; 98] ++ 0 :: []) = Ret p ∧ p = 1.
Proof.
  destruct (find_last_slash_correct [97; 47; 98] []) as (p & H & _).
  { unfold cstring. repeat constructor; lia. }
  exists p. split; [exact H|]. vm_compute in H. congruence.
Defined.
End Slash.

(** ** UTF-8 *)
Module Utf8.

(** The continuation bytes [i .. l-1] of the character at [o]; [None] is the early
    [return -1]. *)
Fixpoint follow (fuel : nat) (buf : list Z) (o i l code : Z) : cres (option Z) :=
  match fuel with
  | O => NoFuel
  | S fuel =>
      if i <? l then
        b ← rd buf (o + i);
        let c := u32 (schar b) in
        if Z.land c 0xc0 =? 0x80 then
          follow fuel buf o (i + 1) l (u32 (u32 (Z.shiftl code 6) + Z.land c 0x3f))
        else Ret None
      else Ret (Some code)
  end.

(** The lead byte: the number of bytes and the bits of the code it holds. *)
Definition lead (c : Z) : option (Z * Z) :=
  if Z.land 0x40 c =? 0 then None
  else if Z.land 0x20 c =? 0 then Some (2, Z.land c 0x1f)
  else if Z.land 0x10 c =? 0 then Some (3, Z.land c 0x0f)
  else if Z.land 0x08 c =? 0 then Some (4, Z.land c 0x07)
  else None.

(** [get_code_from_utf8 (buf + o, codep)]: the value returned and the value of [*codep]
    after it, which is [code0] before. *)
Definition get_code_from_utf8 (buf : list Z) (o code0 : Z) : cres (Z * Z) :=
  b ← rd buf o;
  let c := u32 (schar b) in
  if Z.land 0x80 c =? 0 then Ret (1, c) else
  match lead c with
  | None => Ret (-1, code0)
  | Some (l, code) =>
      if code =? 0 then Ret (-1, code0) else
      m ← follow 4 buf o 1 l code;
      match m with
      | None => Ret (-1, code0)
      | Some code => Ret (l, code)
      end
  end.

(** *** Reference: the encoding of a code point *)
Definition utf8 (u : Z) : list Z :=
  if u <? 0x80 then [u]
  else if u <? 0x800 then [0xc0 + u / 0x40; 0x80 + u mod 0x40]
  else if u <? 0x10000 then
    [0xe0 + u / 0x1000; 0x80 + (u / 0x40) mod 0x40; 0x80 + u mod 0x40]
  else
    [0xf0 + u / 0x40000; 0x80 + (u / 0x1000) mod 0x40; 0x80 + (u / 0x40) mod 0x40;
     0x80 + u mod 0x40].

(** The code points whose lead byte carries no bit of the code. *)
Definition blank_lead (u : Z) : bool :=
  ((0x800 <=? u) && (u <? 0x1000)) || ((0x10000 <=? u) && (u <? 0x40000)).

(** *** Bytes seen through a signed char *)
Definition lead_ref (b : Z) : option (Z * Z) :=
  if b <? 0xc0 then None
  else if b <? 0xe0 then Some (2, b - 0xc0)
  else if b <? 0xf0 then Some (3, b - 0xe0)
  else if b <? 0xf8 then Some (4, b - 0xf0)
  else None.

Definition follow_bits (code b : Z) : Z :=
  u32 (u32 (Z.shiftl code 6) + (b - 0x80)).

Lemma ascii_bit b : is_byte b →
  (Z.land 0x80 (u32 (schar b)) =? 0) = (b <? 0x80) ∧ (b < 0x80 → u32 (schar b) = b).
Proof.
  intros Hb. by_range (fun b => Bool.eqb (Z.land 0x80 (u32 (schar b)) =? 0) (b <? 0x80)
    && ((0x80 <=? b) || (u32 (schar b) =? b))) 256 b Hb.
  apply andb_true_iff in Hrange as [H1 H2]. apply eqb_prop in H1. split; [done|lia].
Qed.

Lemma follow_bit b : is_byte b →
  (Z.land (u32 (schar b)) 0xc0 =? 0x80) = (0x80 <=? b) && (b <? 0xc0) ∧
  (0x80 <= b < 0xc0 → Z.land (u32 (schar b)) 0x3f = b - 0x80).
Proof.
  intros Hb.
  by_range (fun b => Bool.eqb (Z.land (u32 (schar b)) 0xc0 =? 0x80) ((0x80 <=? b) && (b <? 0xc0))
    && (negb ((0x80 <=? b) && (b <? 0xc0)) || (Z.land (u32 (schar b)) 0x3f =? b - 0x80)))
    256 b Hb.
  apply andb_true_iff in Hrange as [H1 H2]. apply eqb_prop in H1. split; [done|lia].
Qed.

Lemma lead_byte b : is_byte b → 0x80 <= b → lead (u32 (schar b)) = lead_ref b.
Proof.
  intros Hb Hge.
  by_range (fun b => (b <? 0x80) || bool_decide (lead (u32 (schar b)) = lead_ref b)) 256 b Hb.
  apply orb_true_iff in Hrange as [H|H]; [lia|]. by apply bool_decide_eq_true in H.
Qed.

(** One continuation byte. *)
Lemma follow_step fuel buf o i l code b :
  is_byte b → 0 <= o + i → buf !! Z.to_nat (o + i) = Some b → i < l →
  follow (S fuel) buf o i l code =
  if (0x80 <=? b) && (b <? 0xc0) then follow fuel buf o (i + 1) l (follow_bits code b)
  else Ret None.
Proof.
  intros Hb Hi Hr Hl. simpl. rewrite (proj2 (Z.ltb_lt _ _)) by done.
  rewrite (proj2 (rd_Ret buf (o + i) b)) by done. simpl.
  destruct (follow_bit b Hb) as [-> Hv].
  destruct ((0x80 <=? b) && (b <? 0xc0)) eqn:E; [|done].
  rewrite Hv by lia. done.
Qed.

Lemma follow_done fuel buf o l code : follow (S fuel) buf o l l code = Ret (Some code).
Proof. simpl. by rewrite Z.ltb_irrefl. Qed.

Lemma follow_bits_small code b :
  0 <= code < 2^20 → 0x80 <= b < 0xc0 → follow_bits code b = 0x40 * code + (b - 0x80).
Proof.
  intros Hc Hb. unfold follow_bits. rewrite Z.shiftl_mul_pow2 by lia.
  rewrite (u32_small (code * 2^6)) by lia. rewrite u32_small; lia.
Qed.

(** The decoder on the bytes from the character on. *)
Fixpoint follow_ref (n : nat) (code : Z) (p : list Z) : cres (option Z) :=
  match n with
  | O => Ret (Some code)
  | S n =>
      match p with
      | [] => Fault
      | b :: p =>
          if (0x80 <=? b) && (b <? 0xc0) then follow_ref n (follow_bits code b) p
          else Ret None
      end
  end.

Definition decode_ref (p : list Z) (code0 : Z) : cres (Z * Z) :=
  match p with
  | [] => Fault
  | b :: p =>
      if b <? 0x80 then Ret (1, b) else
      match lead_ref b with
      | None => Ret (-1, code0)
      | Some (l, code) =>
          if code =? 0 then Ret (-1, code0) else
          m ← follow_ref (Z.to_nat (l - 1)) code p;
          match m with None => Ret (-1, code0) | Some code => Ret (l, code) end
      end
  end.

Lemma rd_drop (buf : list Z) (o i : nat) :
  rd buf (Z.of_nat o + Z.of_nat i) = match drop (o + i) buf with [] => Fault | b :: _ => Ret b end.
Proof.
  rewrite <- Nat2Z.inj_add. destruct (drop (o + i) buf) as [|b p] eqn:E.
  - unfold rd. case_decide; [|done]. apply drop_nil_length in E.
    rewrite Nat2Z.id. by rewrite (lookup_ge_None_2 buf) by done.
  - apply rd_nat. by apply drop_lookup_cons in E as (? & _).
Qed.

Lemma follow_list n fuel buf o i code :
  Forall is_byte buf → (n < fuel)%nat →
  follow fuel buf (Z.of_nat o) (Z.of_nat i) (Z.of_nat (n + i)) code =
  follow_ref n code (drop (o + i) buf).
Proof.
  intros Hb. revert fuel i code; induction n as [|n IH]; intros fuel i code Hf.
  { destruct fuel; [lia|]. apply follow_done. }
  destruct fuel as [|fuel]; [lia|]. destruct (drop (o + i) buf) as [|b p] eqn:E.
  - simpl. rewrite rd_drop, E. rewrite (proj2 (Z.ltb_lt _ _)) by lia. done.
  - pose proof (drop_lookup_cons _ _ _ _ E) as (Hl & E1 & _).
    destruct (Forall_drop_cons _ _ _ _ _ Hb E) as [Hbb _].
    rewrite (follow_step _ _ _ _ _ _ b);
      [|done|lia|by replace (Z.to_nat (Z.of_nat o + Z.of_nat i)) with (o + i)%nat by lia|lia].
    simpl. destruct ((128 <=? b) && (b <? 192)); [|done].
    rewrite <- E1, <- (Nat.add_succ_r o i), <- (Nat.add_succ_r n i).
    replace (Z.of_nat i + 1) with (Z.of_nat (S i)) by lia. apply IH. lia.
Qed.

Lemma get_code_list buf o code0 :
  Forall is_byte buf →
  get_code_from_utf8 buf (Z.of_nat o) code0 = decode_ref (drop o buf) code0.
Proof.
  intros Hb. unfold get_code_from_utf8.
  replace (rd buf (Z.of_nat o)) with (rd buf (Z.of_nat o + Z.of_nat 0)) by (f_equal; lia).
  rewrite rd_drop, Nat.add_0_r. destruct (drop o buf) as [|b p] eqn:E; [done|].
  cbn [mbind cres_bind decode_ref].
  pose proof (drop_lookup_cons _ _ _ _ E) as (_ & E1 & _).
  destruct (Forall_drop_cons _ _ _ _ _ Hb E) as [Hbb _].
  destruct (ascii_bit b Hbb) as [-> Ha].
  destruct (Z.ltb_spec b 0x80); [by rewrite Ha|]. rewrite lead_byte by done.
  assert (Hgo : ∀ l code, 2 <= l <= 4 →
    follow 4 buf (Z.of_nat o) 1 l code = follow_ref (Z.to_nat (l - 1)) code p).
  { intros l code Hl. rewrite <- E1, <- (Nat.add_1_r o).
    replace l with (Z.of_nat (Z.to_nat (l - 1) + 1)) at 1 by lia.
    apply (follow_list (Z.to_nat (l - 1)) 4 buf o 1); [done|lia]. }
  destruct (lead_ref b) as [[l code]|] eqn:El; [|done]. rewrite Hgo; [done|].
  unfold lead_ref in El. repeat case_match; simplify_eq; lia.
Qed.

Lemma follow_ref_digit n code d p :
  0 <= code < 2^20 → 0 <= d < 64 →
  follow_ref (S n) code (0x80 + d :: p) = follow_ref n (0x40 * code + d) p.
Proof.
  intros Hc Hd. cbn [follow_ref].
  rewrite (proj2 (Z.leb_le _ _)), (proj2 (Z.ltb_lt _ _)) by lia. cbn [andb].
  rewrite follow_bits_small by lia. f_equal; lia.
Qed.

(** The decoder on a lead byte of [l] bytes that holds the bits [a]. *)
Lemma decode_ref_lead l a base p code0 :
  (l = 2 ∧ base = 0xc0 ∧ 0 <= a < 32) ∨ (l = 3 ∧ base = 0xe0 ∧ 0 <= a < 16) ∨
  (l = 4 ∧ base = 0xf0 ∧ 0 <= a < 8) →
  decode_ref (base + a :: p) code0 =
  if a =? 0 then Ret (-1, code0) else
  m ← follow_ref (Z.to_nat (l - 1)) a p;
  match m with None => Ret (-1, code0) | Some code => Ret (l, code) end.
Proof.
  intros H. unfold decode_ref, lead_ref.
  destruct H as [(-> & -> & H)|[(-> & -> & H)|(-> & -> & H)]];
    repeat (rewrite (proj2 (Z.ltb_ge _ _)) by lia); rewrite (proj2 (Z.ltb_lt _ _)) by lia;
    by rewrite Z.add_simpl_l.
Qed.

(** A character encoded as UTF-8 decodes to its code point and to the number of
    bytes of its encoding, with two exceptions the decoder refuses: the code points of
    U+0800..U+0FFF and U+10000..U+3FFFF, whose lead byte holds only zero bits. *)
Theorem get_code_from_utf8_decodes u pre tl code0 :
  0 <= u < 0x110000 → Forall is_byte pre → Forall is_byte tl →
  get_code_from_utf8 (pre ++ utf8 u ++ tl) (Z.of_nat (length pre)) code0 =
  if blank_lead u then Ret (-1, code0) else Ret (Z.of_nat (length (utf8 u)), u).
Proof.
  intros Hu Hp Ht.
  assert (Hb : Forall is_byte (utf8 u)).
  { unfold utf8, is_byte. repeat case_match;
      repeat apply Forall_cons_2; try apply Forall_nil_2;
      Z.to_euclidean_division_equations; lia. }
  rewrite get_code_list by (apply Forall_app_2; [done|by apply Forall_app_2]).
  rewrite drop_app_length. unfold utf8, blank_lead.
  destruct (Z.ltb_spec u 0x80) as [H1|H1];
    [|destruct (Z.ltb_spec u 0x800) as [H2|H2];
    [|destruct (Z.ltb_spec u 0x10000) as [H3|H3]]].
  - simpl. rewrite !(proj2 (Z.ltb_lt u _)), !(proj2 (Z.leb_gt _ u)) by lia. done.
  - simpl app. rewrite (decode_ref_lead 2) by (Z.to_euclidean_division_equations; lia).
    change (Z.to_nat (2 - 1)) with 1%nat.
    destruct (Z.eqb_spec (u / 64) 0); [Z.to_euclidean_division_equations; lia|].
    rewrite follow_ref_digit by (Z.to_euclidean_division_equations; lia).
    rewrite !(proj2 (Z.leb_gt _ u)) by lia. simpl.
    do 2 f_equal. Z.to_euclidean_division_equations; lia.
  - simpl app. rewrite (decode_ref_lead 3) by (Z.to_euclidean_division_equations; lia).
    change (Z.to_nat (3 - 1)) with 2%nat.
    rewrite (proj2 (Z.leb_le 0x800 u)), (proj2 (Z.leb_gt 0x10000 u)) by lia.
    destruct (Z.eqb_spec (u / 4096) 0), (Z.ltb_spec u 0x1000);
      try (Z.to_euclidean_division_equations; lia); [done|].
    rewrite !follow_ref_digit by (Z.to_euclidean_division_equations; lia).
    simpl. do 2 f_equal. Z.to_euclidean_division_equations; lia.
  - simpl app. rewrite (decode_ref_lead 4) by (Z.to_euclidean_division_equations; lia).
    change (Z.to_nat (4 - 1)) with 3%nat.
    rewrite (proj2 (Z.ltb_ge u 0x1000)), (proj2 (Z.leb_le 0x10000 u)) by lia.
    rewrite andb_false_r.
    destruct (Z.eqb_spec (u / 262144) 0), (Z.ltb_spec u 0x40000);
      try (Z.to_euclidean_division_equations; lia); [done|].
    rewrite !follow_ref_digit by (Z.to_euclidean_division_equations; lia).
    simpl. do 2 f_equal. Z.to_euclidean_division_equations; lia.
Qed.

Lemma get_code_from_utf8_decodes_witness :
  get_code_from_utf8 ([97] ++ [0xc3; 0xa9] ++ [0]) 1 7 = Ret (2, 0xe9) ∧
  get_code_from_utf8 ([] ++ [0xe0; 0xa0; 0x80] ++ [0]) 0 7 = Ret (-1, 7).
Proof.
  split.
  - apply (get_code_from_utf8_decodes 0xe9 [97] [0] 7);
      [lia|unfold is_byte; repeat constructor; lia..].
  - apply (get_code_from_utf8_decodes 0x800 [] [0] 7);
      [lia|unfold is_byte; repeat constructor; lia..].
Defined.
End Utf8.

(** ** Paths that may be given to the file system *)
Module SafePath.
Import Utf8.

Definition SAFE_PATH_MAX : Z := 2048.
Definition SAFE_FILENAME_MAX : Z := 255.

Definition h2esq_path_safe_table : list Z :=
  [ 0; 0; 0; 0; 0; 0; 0; 0; 0; 0; 0; 0; 0; 0; 0; 0;
    0; 0; 0; 0; 0; 0; 0; 0; 0; 0; 0; 0; 0; 0; 0; 0;
    0; 0; 0; 0; 0; 0; 0; 0; 0; 0; 0; 1; 0; 1; 0; 0;
    1; 1; 1; 1; 1; 1; 1; 1; 1; 1; 0; 0; 0; 0; 0; 0;
    0; 1; 1; 1; 1; 1; 1; 1; 1; 1; 1; 1; 1; 1; 1; 1;
    1; 1; 1; 1; 1; 1; 1; 1; 1; 1; 1; 0; 0; 0; 0; 1;
    0; 1; 1; 1; 1; 1; 1; 1; 1; 1; 1; 1; 1; 1; 1; 1;
    1; 1; 1; 1; 1; 1; 1; 1; 1; 1; 1; 0; 0; 0; 0; 0;
    0; 0; 0; 0; 0; 0; 0; 0; 0; 0; 0; 0; 0; 0; 0; 0;
    0; 0; 0; 0; 0; 0; 0; 0; 0; 0; 0; 0; 0; 0; 0; 0;
    0; 0; 0; 0; 0; 0; 0; 0; 0; 0; 0; 0; 0; 0; 0; 0;
    0; 0; 0; 0; 0; 0; 0; 0; 0; 0; 0; 0; 0; 0; 0; 0;
    0; 0; 0; 0; 0; 0; 0; 0; 0; 0; 0; 0; 0; 0; 0; 0;
    0; 0; 0; 0; 0; 0; 0; 0; 0; 0; 0; 0; 0; 0; 0; 0;
    0; 0; 0; 0; 0; 0; 0; 0; 0; 0; 0; 0; 0; 0; 0; 0;
    0; 0; 0; 0; 0; 0; 0; 0; 0; 0; 0; 0; 0; 0; 0; 0 ].

(** The [for] loop; [c] keeps the value the last call stored in it. *)
Fixpoint psafe_loop (fuel : nat) (path : list Z) (i filename_len : Z) (afterdot : bool) (c : Z)
    : cres Z :=
  match fuel with
  | O => NoFuel
  | S fuel =>
      if i <? SAFE_PATH_MAX then
        if SAFE_FILENAME_MAX <=? filename_len then Ret 0 else
        rc ← get_code_from_utf8 path i c;
        let '(r, c) := rc in
        if r =? 1 then
          let i := i + 1 in
          safe ← rd h2esq_path_safe_table c;
          if negb (safe =? 0) then psafe_loop fuel path i (filename_len + 1) false c
          else if c =? 47 then
            if afterdot then Ret 0 else psafe_loop fuel path i 0 false c
          else if c =? 0 then
            if afterdot then Ret 0 else Ret 1
          else if c =? 46 then
            if negb (filename_len =? 0) then psafe_loop fuel path i (filename_len + 1) true c
            else Ret 0
          else Ret 0
        else if r <=? 0 then Ret 0
        else psafe_loop fuel path (i + r) (filename_len + r) afterdot c
      else Ret 0
  end.

Definition path_is_very_safe (path : list Z) : cres Z :=
  c ← rd path 0;
  if 47 =? c then Ret 0 else
  psafe_loop (S (Z.to_nat SAFE_PATH_MAX)) path 0 0 false 0.

(** *** What a safe path is *)
Definition is_sep (c : Z) : bool := c =? 47.

(** A letter, a digit, [_], [-] or [+]. *)
Definition plain_char (c : Z) : bool :=
  (48 <=? c) && (c <=? 57) || (65 <=? c) && (c <=? 90) || (97 <=? c) && (c <=? 122) || (c =? 95) || (c =? 45) || (c =? 43).

(** A byte of a file name: a plain character, a dot, or a byte of a longer UTF-8 character. *)
Definition name_byte (c : Z) : bool := plain_char c || (c =? 46) || (0x80 <=? c).

Lemma table_plain c : is_byte c → negb (tab h2esq_path_safe_table 0 c =? 0) = plain_char c.
Proof. intros Hc. by_range (fun c => Bool.eqb (negb (tab h2esq_path_safe_table 0 c =? 0)) (plain_char c)) 256 c Hc. by apply eqb_prop. Qed.

Definition name_ok (w : list Z) : bool :=
  forallb name_byte w && bool_decide (head w ≠ Some 46) && bool_decide (last w ≠ Some 46)
  && (Z.of_nat (length w) <? SAFE_FILENAME_MAX).

Definition safe_path (s : list Z) : bool :=
  bool_decide (head s ≠ Some 47) && forallb name_ok (comps is_sep [] s)
  && (Z.of_nat (length s) <? SAFE_PATH_MAX).

(** The name being read, last byte first, when the loop is still going. *)
Definition open_name (cur : list Z) : Prop :=
  forallb name_byte cur = true ∧ last cur ≠ Some 46.

(** What the loop returns when the bytes [q] are left and [cur] is open: 1 only if the
    rest is safe, and, when no byte is above 127, 1 if it is. *)
Definition verdict (n : nat) (q cur : list Z) (ad : bool) (r : Z) : Prop :=
  (r = 0 ∨ r = 1) ∧
  (r = 1 → forallb name_ok (comps is_sep cur q) = true ∧ Z.of_nat n < SAFE_PATH_MAX) ∧
  (ad = bool_decide (head cur = Some 46) → Forall (fun c => c < 0x80) q →
   forallb name_ok (comps is_sep cur q) = true → Z.of_nat n < SAFE_PATH_MAX → r = 1).

Lemma comps_open cur q :
  cur ≠ [] → ∃ w rest, comps is_sep cur q = (rev cur ++ w) :: rest.
Proof.
  revert cur; induction q as [|c q IH]; intros cur Hc; simpl.
  - exists [], []. rewrite app_nil_r. by destruct cur.
  - destruct (is_sep c); [exists [], (comps is_sep [] q); rewrite app_nil_r; by destruct cur|].
    destruct (IH (c :: cur)) as (w & rest & E); [done|]. rewrite E. simpl.
    exists (c :: w), rest. by rewrite <- app_assoc.
Qed.

Lemma name_ok_prefix_bytes cur w : name_ok (rev cur ++ w) = true → forallb name_byte cur = true.
Proof.
  unfold name_ok. rewrite forallb_app, !andb_true_iff. intros [[[[H _] _] _] _].
  rewrite forallb_forall in *. intros x Hx. apply H. by rewrite <- in_rev.
Qed.

Lemma verdict_zero n q cur ad :
  (cur ≠ [] → (∀ w, name_ok (rev cur ++ w) = false)) → cur ≠ [] → verdict n q cur ad 0.
Proof.
  intros Hbad Hc. split_and!; [by left|done|]. intros _ _ Hok _.
  destruct (comps_open cur q Hc) as (w & rest & E). rewrite E in Hok. simpl in Hok.
  by rewrite Hbad in Hok.
Qed.

Lemma name_ok_close cur :
  cur ≠ [] → open_name cur → (Z.of_nat (length cur) < SAFE_FILENAME_MAX) →
  name_ok (rev cur) = bool_decide (head cur ≠ Some 46).
Proof.
  intros Hne [Hb Hl] Hn. unfold name_ok.
  rewrite length_rev, (proj2 (Z.ltb_lt _ _)), andb_true_r by done.
  replace (forallb name_byte (rev cur)) with true.
  2:{ symmetry. rewrite forallb_forall in *. intros x Hx. apply Hb. by rewrite in_rev. }
  rewrite rev_is_reverse, head_reverse, last_reverse.
  by rewrite (bool_decide_eq_true_2 (last cur ≠ _)).
Qed.

Lemma follow_text n code q tl :
  Forall is_byte q →
  follow_ref n code (q ++ 0 :: tl) = Ret None ∨
  ∃ v w rest, follow_ref n code (q ++ 0 :: tl) = Ret (Some v) ∧ q = w ++ rest ∧
              length w = n ∧ Forall (fun c => 0x80 <= c) w.
Proof.
  revert code q; induction n as [|n IH]; intros code q Hq; cbn [follow_ref].
  { right. exists code, [], q. done. }
  destruct q as [|b q]; [by left|]. simpl app. cbn iota beta.
  destruct ((0x80 <=? b) && (b <? 0xc0)) eqn:E; [|by left].
  apply Forall_cons_1 in Hq as [_ Hq].
  destruct (IH (follow_bits code b) q Hq) as [->|(v & w & rest & -> & -> & <- & Hw)]; [by left|].
  right. exists v, (b :: w), rest. split_and!; try done.
  apply Forall_cons_2; [lia|done].
Qed.

Lemma decode_text c q tl code0 :
  Forall is_byte (c :: q) → 0x80 <= c →
  ∃ r v, decode_ref (c :: q ++ 0 :: tl) code0 = Ret (r, v) ∧
    (r = -1 ∨ ∃ w rest, c :: q = w ++ rest ∧ Z.of_nat (length w) = r ∧ 2 <= r ∧
                        Forall (fun c => 0x80 <= c) w).
Proof.
  intros Hq Hc. apply Forall_cons_1 in Hq as [Hcb Hq]. unfold decode_ref.
  rewrite (proj2 (Z.ltb_ge _ _)) by lia.
  destruct (lead_ref c) as [[l code]|] eqn:El; [|by eauto].
  assert (Hl2 : 2 <= l) by (unfold lead_ref in El; repeat case_match; simplify_eq; lia).
  destruct (code =? 0); [by eauto|].
  destruct (follow_text (Z.to_nat (l - 1)) code q tl Hq)
    as [->|(v & w & rest & -> & -> & Hw & Hge)]; simpl; [by eauto|].
  exists l, v. split; [done|]. right. exists (c :: w), rest. simpl.
  split_and!; [done|lia|done|by apply Forall_cons_2].
Qed.

(** The loop on one more byte [c] of the name. *)
Lemma verdict_push n q cur ad ad' c r :
  is_sep c = false → ad' = bool_decide (c = 46) →
  verdict n q (c :: cur) ad' r → verdict n (c :: q) cur ad r.
Proof.
  intros Hc -> (H1 & H2 & H3). split_and!; [done| |]; simpl; rewrite Hc; [done|].
  intros _ [_ Hq]%Forall_cons_1. apply H3; [|done]. apply bool_decide_ext. naive_solver.
Qed.

Lemma verdict_close n q cur ad r :
  open_name cur → Z.of_nat (length cur) < SAFE_FILENAME_MAX →
  (head cur = Some 46 → ad = true) → ad = false →
  verdict n q [] false r → verdict n (47 :: q) cur ad r.
Proof.
  intros Ho Hn Had -> (H1 & H2 & H3). split_and!; [done| |]; simpl.
  - intros Hr. destruct (H2 Hr) as [H4 H5]. split; [|done].
    destruct cur as [|x cur]; [done|]. cbn [forallb].
    rewrite name_ok_close, H4, andb_true_r by done.
    apply bool_decide_eq_true_2. intros E. by specialize (Had E).
  - intros _ [_ Hq]%Forall_cons_1 Hok Hl. apply H3; [done..| |done].
    destruct cur; [done|]. cbn [forallb] in Hok. by apply andb_true_iff in Hok as [_ ?].
Qed.

Lemma verdict_dot_sep n q cur :
  open_name cur → Z.of_nat (length cur) < SAFE_FILENAME_MAX →
  verdict n (47 :: q) cur true 0.
Proof.
  intros Ho Hn. split_and!; [by left|done|]. intros Had _ Hok _. symmetry in Had.
  apply bool_decide_eq_true in Had. destruct cur as [|x cur]; [done|]. simpl in Hok.
  rewrite !andb_true_iff in Hok. destruct Hok as [Hok _].
  change (rev cur ++ [x]) with (rev (x :: cur)) in Hok.
  rewrite name_ok_close in Hok by done. by apply bool_decide_eq_true in Hok.
Qed.

Lemma verdict_end n cur ad :
  open_name cur → Z.of_nat (length cur) < SAFE_FILENAME_MAX → Z.of_nat n < SAFE_PATH_MAX →
  (head cur = Some 46 → ad = true) → verdict n [] cur ad (if ad then 0 else 1).
Proof.
  intros Ho Hn Hl Had. split_and!; [destruct ad; auto| |].
  - destruct ad; [done|]. intros _. split; [|done]. destruct cur as [|x cur]; [done|].
    change (name_ok (rev (x :: cur)) && true = true).
    rewrite name_ok_close, andb_true_r by done. apply bool_decide_eq_true_2.
    intros E. by specialize (Had E).
  - intros -> _ Hok _. case_bool_decide as E; [|done].
    destruct cur as [|x cur]; [done|].
    change (name_ok (rev (x :: cur)) && true = true) in Hok.
    rewrite name_ok_close, andb_true_r in Hok by done. by apply bool_decide_eq_true in Hok.
Qed.

(** A name that has grown too long, a byte no name may hold, a leading dot. *)
Lemma name_ok_too_long cur w :
  SAFE_FILENAME_MAX <= Z.of_nat (length cur) → name_ok (rev cur ++ w) = false.
Proof.
  intros H. unfold name_ok. rewrite length_app, length_rev.
  rewrite (proj2 (Z.ltb_ge _ _)) by lia. apply andb_false_r.
Qed.

Lemma name_ok_bad_byte c cur w :
  name_byte c = false → name_ok (rev (c :: cur) ++ w) = false.
Proof.
  intros H. destruct (name_ok _) eqn:E; [|done]. apply name_ok_prefix_bytes in E.
  simpl in E. by rewrite H in E.
Qed.

Lemma name_byte_ascii c :
  0 < c < 0x80 → name_byte c = negb (tab h2esq_path_safe_table 0 c =? 0) || (c =? 46).
Proof.
  intros Hc. rewrite table_plain by (unfold is_byte; lia). unfold name_byte. rewrite (proj2 (Z.leb_gt _ _)) by lia. apply orb_false_r.
Qed.

Lemma safe_table_facts c :
  is_byte c → negb (tab h2esq_path_safe_table 0 c =? 0) = true → c ≠ 47 ∧ c ≠ 0 ∧ c ≠ 46.
Proof.
  intros Hc. by_range (fun c => (tab h2esq_path_safe_table 0 c =? 0)
    || (negb (c =? 47) && negb (c =? 0) && negb (c =? 46))) 256 c Hc. lia.
Qed.

(** The bytes of a longer character join the name; the pending dot is not reset. *)
Lemma verdict_wide n w q cur ad r :
  Forall (fun c => 0x80 <= c) w → (0 < length w)%nat →
  verdict n q (rev w ++ cur) ad r → verdict n (w ++ q) cur ad r.
Proof.
  intros Hw Hl (H1 & H2 & H3). unfold verdict.
  rewrite comps_run.
  2:{ eapply Forall_impl; [exact Hw|]. unfold is_sep. simpl. intros; lia. }
  split_and!; [done..|]. intros _ Hq.
  destruct Hw as [|c w Hc Hw]; simpl in *; [lia|]. apply Forall_cons_1 in Hq as [Hlt _]. lia.
Qed.

Lemma verdict_not_ascii n c q cur ad : 0x80 <= c → verdict n (c :: q) cur ad 0.
Proof.
  intros Hc. split_and!; [by left|lia|]. intros _ [Hlt _]%Forall_cons_1. lia.
Qed.

Lemma open_name_wide w cur :
  Forall (fun c => 0x80 <= c) w → (0 < length w)%nat →
  open_name cur → open_name (rev w ++ cur) ∧ head (rev w ++ cur) ≠ Some 46.
Proof.
  intros Hw Hl [Hb Hd]. rewrite rev_is_reverse. unfold open_name. split; [split|].
  - rewrite forallb_app, Hb, andb_true_r. apply forallb_forall. intros x Hx.
    rewrite <- rev_is_reverse, <- in_rev in Hx. rewrite Forall_forall in Hw.
    specialize (Hw x). rewrite list_elem_of_In in Hw. specialize (Hw Hx).
    unfold name_byte. rewrite (proj2 (Z.leb_le _ _)) by lia. apply orb_true_r.
  - rewrite last_app. destruct (last cur); [done|]. rewrite last_reverse.
    destruct Hw; simpl in *; [lia|]. intros [= ->]. lia.
  - destruct (last w) as [x|] eqn:E; [|apply last_None in E; subst; simpl in Hl; lia].
    rewrite <- (reverse_involutive w), last_reverse in E.
    destruct (reverse w) as [|y v] eqn:Ev; [done|]. simpl in *. intros [= ->]. simplify_eq.
    rewrite Forall_forall in Hw. assert (H46 : 46 ∈ w); [|specialize (Hw 46 H46); lia].
    rewrite <- (reverse_involutive w), Ev. apply elem_of_reverse. by left.
Qed.

(** One turn on an ASCII byte, given what the loop does from the next byte on. *)
Lemma psafe_ascii fuel path n q cur ad i c :
  0 < c < 0x80 → Z.of_nat (length cur) < SAFE_FILENAME_MAX → open_name cur →
  (head cur = Some 46 → ad = true) →
  (∀ cur' ad', open_name cur' → (head cur' = Some 46 → ad' = true) → ∃ r,
     psafe_loop fuel path (i + 1) (Z.of_nat (length cur')) ad' c = Ret r ∧
     verdict n q cur' ad' r) →
  ∃ r,
    (safe ← rd h2esq_path_safe_table c;
     if negb (safe =? 0) then psafe_loop fuel path (i + 1) (Z.of_nat (length cur) + 1) false c
     else if c =? 47 then if ad then Ret 0 else psafe_loop fuel path (i + 1) 0 false c
     else if c =? 0 then if ad then Ret 0 else Ret 1
     else if c =? 46 then
       if negb (Z.of_nat (length cur) =? 0)
       then psafe_loop fuel path (i + 1) (Z.of_nat (length cur) + 1) true c
       else Ret 0
     else Ret 0) = Ret r ∧ verdict n (c :: q) cur ad r.
Proof.
  intros Hc Hn Ho Had Hgo.
  replace (Z.of_nat (length cur) + 1) with (Z.of_nat (length (c :: cur))) by (simpl; lia).
  rewrite (rd_tab _ 0) by (done || unfold is_byte; lia). cbn [mbind cres_bind].
  pose proof (name_byte_ascii c Hc) as Hnb.
  destruct (negb (tab h2esq_path_safe_table 0 c =? 0)) eqn:Et.
  - destruct (safe_table_facts c) as (? & ? & ?); [unfold is_byte; lia|done|].
    destruct (Hgo (c :: cur) false) as (r & -> & Hv).
    { destruct Ho as [Ho1 Ho2]. split; [simpl; rewrite Hnb, Ho1; done|].
      rewrite last_cons. destruct (last cur); [done|congruence]. }
    { simpl. congruence. }
    exists r. split; [done|]. eapply verdict_push; [|..|exact Hv].
    + unfold is_sep. lia.
    + symmetry. by apply bool_decide_eq_false_2.
  - destruct (Z.eqb_spec c 47) as [->|Hne]; [|rewrite (proj2 (Z.eqb_neq c 0)) by lia].
    { destruct ad; [exists 0; split; [done|by apply verdict_dot_sep]|].
      destruct (Hgo [] false) as (r & Er & Hv); [done..|].
      exists r. split; [exact Er|]. by apply verdict_close. }
    destruct (Z.eqb_spec c 46) as [->|Hdot].
    + destruct (Z.eqb_spec (Z.of_nat (length cur)) 0) as [E0|E0]; cbn [negb].
      * exists 0. split; [done|]. destruct cur; [|simpl in E0; lia].
        eapply (verdict_push _ _ _ _ true); [done..|]. apply verdict_zero; [|done]. intros _ w.
        unfold name_ok. simpl. by rewrite andb_false_r.
      * destruct (Hgo (46 :: cur) true) as (r & -> & Hv); [|done|].
        { destruct Ho as [Ho1 Ho2]. split; [simpl; by rewrite Ho1|].
          rewrite last_cons. destruct cur; [simpl in E0; lia|]. rewrite last_cons in *.
          by destruct (last cur). }
        exists r. split; [done|]. by eapply verdict_push; [..|exact Hv].
    + exists 0. split; [done|]. eapply (verdict_push _ _ _ _ false).
      * unfold is_sep. lia.
      * symmetry. by apply bool_decide_eq_false_2.
      * apply verdict_zero; [|done]. intros _ w. apply name_ok_bad_byte.
        rewrite Hnb. simpl. lia.
Qed.

Section loop.
Context (s tl : list Z) (Hs : cstring s) (Ht : Forall is_byte tl).

Lemma text_bytes : Forall is_byte (s ++ 0 :: tl).
Proof using Hs Ht.
  apply Forall_app_2; [|apply Forall_cons_2; [unfold is_byte; lia|done]].
  eapply Forall_impl; [exact Hs|]. unfold is_byte. simpl. intros; lia.
Qed.

Lemma psafe_loop_spec fuel i cur ad c0 :
  (i <= length s)%nat → (Z.to_nat SAFE_PATH_MAX - i < fuel)%nat → open_name cur →
  (head cur = Some 46 → ad = true) →
  ∃ r, psafe_loop fuel (s ++ 0 :: tl) (Z.of_nat i) (Z.of_nat (length cur)) ad c0 = Ret r ∧
       verdict (length s) (drop i s) cur ad r.
Proof using Hs Ht.
  revert i cur ad c0; induction fuel as [|fuel IH]; intros i cur ad c0 Hi Hf Ho Had; [lia|].
  simpl. destruct (Z.ltb_spec (Z.of_nat i) SAFE_PATH_MAX) as [Hlt|Hge].
  2:{ exists 0. unfold verdict. split_and!; [done|by left|lia|lia]. }
  destruct (Z.leb_spec SAFE_FILENAME_MAX (Z.of_nat (length cur))) as [Hlong|Hn].
  { exists 0. split; [done|]. apply verdict_zero.
    - intros _ w. by apply name_ok_too_long.
    - intros ->. simpl in Hlong. unfold SAFE_FILENAME_MAX in Hlong. lia. }
  rewrite get_code_list by apply text_bytes.
  destruct (drop i s) as [|c q] eqn:E.
  { apply drop_nil_length in E. replace i with (length s) by lia. rewrite drop_app_length.
    exists (if ad then 0 else 1). split; [by destruct ad|]. apply verdict_end; (done || lia). }
  pose proof (drop_lookup_cons _ _ _ _ E) as (_ & E1 & Hlen).
  destruct (Forall_drop_cons _ _ _ _ _ Hs E) as [Hc Hq].
  rewrite drop_app_le, E by lia. simpl app.
  destruct (Z.ltb_spec c 0x80) as [Ha|Hw].
  - cbn [decode_ref]. rewrite (proj2 (Z.ltb_lt c 0x80)) by done. cbn [mbind cres_bind].
    apply psafe_ascii; try done; try lia. rewrite <- E1. intros cur' ad' Ho' Had'.
    replace (Z.of_nat i + 1) with (Z.of_nat (S i)) by lia. apply IH; (done || lia).
  - destruct (decode_text c q tl c0) as (r & v & -> & [->|(w & rest & Ew & <- & Hr & Hww)]);
      [|done|exists 0; split; [done|by apply verdict_not_ascii]|].
    + apply Forall_cons_2; [unfold is_byte; lia|].
      eapply Forall_impl; [exact Hq|]. unfold is_byte. simpl. intros; lia.
    + cbn [mbind cres_bind]. rewrite (proj2 (Z.eqb_neq _ 1)), (proj2 (Z.leb_gt _ 0)) by lia.
      destruct (open_name_wide w cur) as [Ho' Hh']; [done|lia|done|].
      destruct (IH (i + length w)%nat (rev w ++ cur) ad v) as (r & Er & Hv); try done.
      * apply (f_equal length) in Ew, E. rewrite length_app in Ew. rewrite length_drop in E.
        lia.
      * lia.
      * exists r. rewrite length_app, length_rev in Er.
        rewrite <- !Nat2Z.inj_add, (Nat.add_comm (length cur)). split; [exact Er|].
        rewrite Ew. apply verdict_wide; [done|lia|].
        rewrite <- drop_drop, E, Ew, drop_app_length in Hv. exact Hv.
Qed.
End loop.

(** The check on any text. *)
Lemma very_safe_ok s tl :
  cstring s → Forall is_byte tl →
  ∃ r, path_is_very_safe (s ++ 0 :: tl) = Ret r ∧ (r = 0 ∨ r = 1) ∧
       (r = 1 → safe_path s = true) ∧
       (Forall (fun c => c < 0x80) s → safe_path s = true → r = 1).
Proof.
  intros Hs Ht. unfold path_is_very_safe.
  destruct (psafe_loop_spec s tl Hs Ht (S (Z.to_nat SAFE_PATH_MAX)) 0 [] false 0)
    as (r & Er & H1 & H2 & H3); [lia..|by split|done|]. rewrite drop_0 in *.
  change (Z.of_nat 0) with 0 in Er. change (Z.of_nat (length (@nil Z))) with 0 in Er.
  assert (Hsp : safe_path s = true ↔ (head s ≠ Some 47 ∧
    forallb name_ok (comps is_sep [] s) = true) ∧ Z.of_nat (length s) < SAFE_PATH_MAX).
  { unfold safe_path. by rewrite !andb_true_iff, bool_decide_eq_true, Z.ltb_lt. }
  setoid_rewrite Hsp. clear Hsp. destruct s as [|c s].
  { exists r. split_and!; [exact Er|done| |by intros ? [[_ ?] ?]; apply H3].
    intros Hr. by destruct (H2 Hr). }
  rewrite (rd_nat _ 0 c) by done. cbn [mbind cres_bind]. rewrite (Z.eqb_sym 47).
  destruct (Z.eqb_spec c 47) as [->|Hne].
  - exists 0. split_and!; [done|by left|lia|]. by intros _ [[Hh _] _].
  - exists r. split_and!; [exact Er|done| |by intros ? [[_ ?] ?]; apply H3].
    intros Hr. destruct (H2 Hr). split_and!; try done. simpl. congruence.
Qed.

(** C37: the check of a request path always returns, reads nothing past the terminating
    zero, and accepts only safe paths: ones that do not start with a slash, are shorter
    than 2048 bytes, and whose every component is shorter than 255 bytes, neither starts
    nor ends with a dot (so none is "." or "..") and holds only bytes of the allowed
    set.  On ASCII paths it accepts exactly these. *)
Theorem path_is_very_safe_correct s tl :
  cstring s → Forall is_byte tl →
  ∃ r, path_is_very_safe (s ++ 0 :: tl) = Ret r ∧ (r = 0 ∨ r = 1) ∧
       (r = 1 → safe_path s = true) ∧
       (Forall (fun c => c < 0x80) s → safe_path s = true → r = 1).
Proof. apply very_safe_ok. Qed.

Lemma path_is_very_safe_correct_witness :
  ∃ r, path_is_very_safe ([97; 47; 98; 46; 99] ++ 0 :: [1]) = Ret r ∧ r = 1.
Proof.
  destruct (path_is_very_safe_correct [97; 47; 98; 46; 99] [1]) as (r & H & _ & _ & H1).
  { unfold cstring. repeat constructor; lia. }
  { unfold is_byte. repeat constructor; lia. }
  exists r. split; [exact H|]. apply H1; [repeat constructor; lia|reflexivity].
Defined.

(** A dot before a character of several bytes is still pending at the end of the name. *)
Example dot_before_wide_refused :
  path_is_very_safe ([97; 46; 0xc3; 0xa9] ++ [0]) = Ret 0 ∧
  safe_path [97; 46; 0xc3; 0xa9] = true.
Proof. split; vm_compute; reflexivity. Qed.
End SafePath.
