(* ===== verification/Scan.v ===== *)
(** * Scanning addresses, numbers and hashes

    [libs/sscanf]: the scanners that read IPv4 addresses, small integers and hash strings
    from file names, configuration and arguments of scripts.  Each is a state machine driven by a
    table of character classes; each is proved to accept exactly the texts of a grammar
    and to store the value the text denotes. *)
From S2P Require Import Prelude.
Open Scope Z_scope.

(** ** Texts *)

(** The value of a string of decimal digits. *)
Definition dec_from (v : Z) (d : list Z) : Z := foldl (fun v c => 10 * v + (c - 48)) v d.
Definition dec (d : list Z) : Z := dec_from 0 d.

Definition digit (c : Z) : Prop := 48 <= c <= 57.

(** TAB, LF, CR and space. *)
Definition blank (c : Z) : Prop := c = 9 ∨ c = 10 ∨ c = 13 ∨ c = 32.

(** Where a number may end: at the end of the text or before a blank. *)
Definition stops (rest : list Z) : Prop :=
  match rest with [] => True | c :: _ => blank c end.

#[export] Instance digit_dec c : Decision (digit c) := _.
#[export] Instance blank_dec c : Decision (blank c) := _.
#[export] Instance stops_dec rest : Decision (stops rest).
Proof. destruct rest; apply _. Defined.

(** What follows a number does not begin with a digit. *)
Definition no_digit (r : list Z) : Prop := match r with [] => True | c :: _ => ¬ digit c end.

Lemma no_digit_split r : ∃ d t, r = d ++ t ∧ Forall digit d ∧ no_digit t.
Proof.
  induction r as [|c r (d & t & -> & Hd & Ht)]; [by exists [], []|].
  destruct (decide (digit c)); [exists (c :: d), t|exists [], (c :: d ++ t)]; auto.
Qed.

Lemma dec_from_le v d : 0 <= v → Forall digit d → v <= dec_from v d.
Proof.
  intros Hv Hd. revert v Hv; induction Hd as [|c d Hc Hd IH]; intros v Hv; [done|].
  change (v <= dec_from (10 * v + (c - 48)) d). unfold digit in Hc.
  specialize (IH (10 * v + (c - 48)) ltac:(lia)). lia.
Qed.

Lemma stops_no_digit t : stops t → no_digit t.
Proof. destruct t as [|c t]; [done|]. simpl. unfold blank, digit. lia. Qed.

Lemma blanks_split r :
  ∃ bl t, r = bl ++ t ∧ Forall blank bl ∧ match t with [] => True | c :: _ => ¬ blank c end.
Proof.
  induction r as [|c r (bl & t & -> & Hbl & Ht)]; [by exists [], []|].
  destruct (decide (blank c)); [exists (c :: bl), t|exists [], (c :: bl ++ t)]; auto.
Qed.

#[export] Hint Resolve stops_no_digit : esq.

(** Leading blanks and digits are determined by the text. *)
Lemma prefix_unique (P : Z → Prop) bl bl' t t' :
  bl ++ t = bl' ++ t' → Forall P bl → Forall P bl' →
  match t with [] => True | c :: _ => ¬ P c end →
  match t' with [] => True | c :: _ => ¬ P c end → bl = bl' ∧ t = t'.
Proof.
  revert bl'; induction bl as [|c bl IH]; intros [|c' bl'] E Hb Hb' Ht Ht'; simpl in *.
  - done.
  - subst t. apply Forall_cons_1 in Hb' as [? _]. done.
  - subst t'. apply Forall_cons_1 in Hb as [? _]. done.
  - injection E as -> E. apply Forall_cons_1 in Hb as [_ Hb]. apply Forall_cons_1 in Hb' as [_ Hb'].
    destruct (IH bl' E Hb Hb' Ht Ht') as [-> ->]. done.
Qed.

(** ** IPv4 addresses *)
Module Ipv4.

Definition str_2_ipv4_handle_table : list Z :=
  [ 0; 0; 0; 0; 0; 0; 0; 0; 0; 3; 3; 0; 0; 3; 0; 0;
    0; 0; 0; 0; 0; 0; 0; 0; 0; 0; 0; 0; 0; 0; 0; 0;
    3; 0; 0; 0; 0; 0; 0; 0; 0; 0; 0; 0; 0; 0; 2; 0;
    1; 1; 1; 1; 1; 1; 1; 1; 1; 1; 0; 0; 0; 0; 0; 0;
    0; 0; 0; 0; 0; 0; 0; 0; 0; 0; 0; 0; 0; 0; 0; 0;
    0; 0; 0; 0; 0; 0; 0; 0; 0; 0; 0; 0; 0; 0; 0; 0;
    0; 0; 0; 0; 0; 0; 0; 0; 0; 0; 0; 0; 0; 0; 0; 0;
    0; 0; 0; 0; 0; 0; 0; 0; 0; 0; 0; 0; 0; 0; 0; 0;
    0; 0; 0; 0; 0; 0; 0; 0; 0; 0; 0; 0; 0; 0; 0; 0;
    0; 0; 0; 0; 0; 0; 0; 0; 0; 0; 0; 0; 0; 0; 0; 0;
    0; 0; 0; 0; 0; 0; 0; 0; 0; 0; 0; 0; 0; 0; 0; 0;
    0; 0; 0; 0; 0; 0; 0; 0; 0; 0; 0; 0; 0; 0; 0; 0;
    0; 0; 0; 0; 0; 0; 0; 0; 0; 0; 0; 0; 0; 0; 0; 0;
    0; 0; 0; 0; 0; 0; 0; 0; 0; 0; 0; 0; 0; 0; 0; 0;
    0; 0; 0; 0; 0; 0; 0; 0; 0; 0; 0; 0; 0; 0; 0; 0;
    0; 0; 0; 0; 0; 0; 0; 0; 0; 0; 0; 0; 0; 0; 0; 0 ].

Inductive statu :=
| S_START
| S_NUMBER1
| S_DOT1
| S_NUMBER2
| S_DOT2
| S_NUMBER3
| S_DOT3
| S_NUMBER4.

(** [number1] to [number4], of type [unsigned int]. *)
Record numbers := Numbers { number1 : Z; number2 : Z; number3 : Z; number4 : Z }.

(** One more digit of a number; [None] is [return 0]. *)
Definition next_number (n c : Z) : option Z :=
  let n := u32 (n * 10 + (c - 48)) in
  if 255 <=? n then None else Some n.

(** The macros; [None] is [return 0]. *)
Definition FETCH_NUMBER (st : statu) (ns : numbers) (c : Z) : option (statu * numbers) :=
  let '(Numbers n1 n2 n3 n4) := ns in
  match st with
  | S_START => Some (S_NUMBER1, Numbers (c - 48) n2 n3 n4)
  | S_NUMBER1 => n ← next_number n1 c; Some (st, Numbers n n2 n3 n4)
  | S_DOT1 => Some (S_NUMBER2, Numbers n1 (c - 48) n3 n4)
  | S_NUMBER2 => n ← next_number n2 c; Some (st, Numbers n1 n n3 n4)
  | S_DOT2 => Some (S_NUMBER3, Numbers n1 n2 (c - 48) n4)
  | S_NUMBER3 => n ← next_number n3 c; Some (st, Numbers n1 n2 n n4)
  | S_DOT3 => Some (S_NUMBER4, Numbers n1 n2 n3 (c - 48))
  | S_NUMBER4 => n ← next_number n4 c; Some (st, Numbers n1 n2 n3 n)
  end.

Definition FETCH_DOT (st : statu) : option statu :=
  match st with
  | S_NUMBER1 => Some S_DOT1
  | S_NUMBER2 => Some S_DOT2
  | S_NUMBER3 => Some S_DOT3
  | _ => None
  end.

(** The loop goes on, [goto __finished], or [return 0]. *)
Inductive blank_result := Go_on | Finished | Refused.

Definition FETCH_BLANK (st : statu) : blank_result :=
  match st with
  | S_START => Go_on
  | S_NUMBER4 => Finished
  | _ => Refused
  end.

(** The result, and what is stored through [ap] if it is not null. *)
Definition finished (ns : numbers) (i : Z) : Z * option Z :=
  (i, Some (u32 (u32 (Z.shiftl (number1 ns) 24) + u32 (Z.shiftl (number2 ns) 16)
                 + u32 (Z.shiftl (number3 ns) 8) + number4 ns))).

Fixpoint ipv4_loop (fuel : nat) (buf : list Z) (len i : Z) (st : statu) (ns : numbers)
    : cres (Z * option Z) :=
  match fuel with
  | O => NoFuel
  | S fuel =>
      if i <? len then
        c ← rd buf i;
        h ← rd str_2_ipv4_handle_table c;
        if h =? 1 then
          match FETCH_NUMBER st ns c with
          | Some (st, ns) => ipv4_loop fuel buf len (i + 1) st ns
          | None => Ret (0, None)
          end
        else if h =? 2 then
          match FETCH_DOT st with
          | Some st => ipv4_loop fuel buf len (i + 1) st ns
          | None => Ret (0, None)
          end
        else if h =? 3 then
          match FETCH_BLANK st with
          | Go_on => ipv4_loop fuel buf len (i + 1) st ns
          | Finished => Ret (finished ns i)
          | Refused => Ret (0, None)
          end
        else Ret (0, None)
      else
        match FETCH_BLANK st with
        | Finished => Ret (finished ns i)
        | _ => Ret (0, None)
        end
  end.

Definition get_ipv4_addr (buf : list Z) (len : Z) : cres (Z * option Z) :=
  ipv4_loop (S (Z.to_nat len)) buf len 0 S_START (Numbers 0 0 0 0).

Definition match_ipv4_addr (buf : list Z) (len : Z) : cres Z := fst <$> get_ipv4_addr buf len.

(** [buf] ends at its terminating zero or later. *)
Definition get_ipv4_addr2 (buf : list Z) : cres (Z * option Z) :=
  let len := Z.of_nat (strnlen buf 16) in
  if (15 <? len) || (len <=? 0) then Ret (0, None) else get_ipv4_addr buf len.

(** *** Reference: the grammar of addresses *)

(** The scanner takes octets up to 254. *)
Definition octet (d : list Z) : Prop := d ≠ [] ∧ Forall digit d ∧ dec d < 255.

(** [s] is an address after blanks, followed by [rest]. *)
Definition ipv4_text (s : list Z) (a : Z) (rest : list Z) : Prop :=
  ∃ bl d1 d2 d3 d4,
    s = bl ++ d1 ++ 46 :: d2 ++ 46 :: d3 ++ 46 :: d4 ++ rest ∧
    Forall blank bl ∧ octet d1 ∧ octet d2 ∧ octet d3 ∧ octet d4 ∧ stops rest ∧
    a = dec d1 * 2^24 + dec d2 * 2^16 + dec d3 * 2^8 + dec d4.

(** *** The machine on the text that is left *)
Definition class (c : Z) : Z := tab str_2_ipv4_handle_table 0 c.

Fixpoint run (r : list Z) (i : Z) (st : statu) (ns : numbers) : Z * option Z :=
  match r with
  | [] => match FETCH_BLANK st with Finished => finished ns i | _ => (0, None) end
  | c :: r =>
      if class c =? 1 then
        match FETCH_NUMBER st ns c with
        | Some (st, ns) => run r (i + 1) st ns
        | None => (0, None)
        end
      else if class c =? 2 then
        match FETCH_DOT st with Some st => run r (i + 1) st ns | None => (0, None) end
      else if class c =? 3 then
        match FETCH_BLANK st with
        | Go_on => run r (i + 1) st ns
        | Finished => finished ns i
        | Refused => (0, None)
        end
      else (0, None)
  end.

Lemma ipv4_loop_run s tl fuel i st ns :
  Forall is_byte s → (i <= length s)%nat → (length s - i < fuel)%nat →
  ipv4_loop fuel (s ++ tl) (Z.of_nat (length s)) (Z.of_nat i) st ns
  = Ret (run (drop i s) (Z.of_nat i) st ns).
Proof.
  intros Hs. revert i st ns; induction fuel as [|fuel IH]; intros i st ns Hi Hf; [lia|].
  simpl. destruct (drop i s) as [|c r] eqn:E.
  { apply drop_nil_length in E. rewrite (proj2 (Z.ltb_ge _ _)) by lia. simpl.
    by destruct (FETCH_BLANK st). }
  pose proof (drop_lookup_cons _ _ _ _ E) as (_ & E1 & Hlt).
  rewrite (proj2 (Z.ltb_lt _ _)) by lia. rewrite (rd_text s tl i c r E). simpl.
  destruct (Forall_drop_cons _ _ _ _ _ Hs E) as [Hc _].
  rewrite (rd_tab str_2_ipv4_handle_table 0 c eq_refl Hc). fold (class c). simpl. nat_index. rewrite <- E1.
  repeat first [case_match|rewrite IH by lia]; simplify_eq; done.
Qed.

Lemma ipv4_class_digit c : is_byte c → class c = 1 ↔ digit c.
Proof.
  intros Hc. unfold digit.
  by_range (fun c => Bool.eqb (class c =? 1) ((48 <=? c) && (c <=? 57))) 256 c Hc.
  apply eqb_prop in Hrange. lia.
Qed.

Lemma ipv4_class_dot c : is_byte c → class c = 2 ↔ c = 46.
Proof.
  intros Hc. by_range (fun c => Bool.eqb (class c =? 2) (c =? 46)) 256 c Hc.
  apply eqb_prop in Hrange. lia.
Qed.

Lemma ipv4_class_blank c : is_byte c → class c = 3 ↔ blank c.
Proof.
  intros Hc. unfold blank.
  by_range (fun c => Bool.eqb (class c =? 3) ((c =? 9) || (c =? 10) || (c =? 13) || (c =? 32)))
    256 c Hc.
  apply eqb_prop in Hrange. lia.
Qed.

(** Which of the four numbers is being read. *)
Inductive which := N1 | N2 | N3 | N4.

Definition before (k : which) : statu :=
  match k with N1 => S_START | N2 => S_DOT1 | N3 => S_DOT2 | N4 => S_DOT3 end.
Definition inside (k : which) : statu :=
  match k with N1 => S_NUMBER1 | N2 => S_NUMBER2 | N3 => S_NUMBER3 | N4 => S_NUMBER4 end.
Definition getn (k : which) (ns : numbers) : Z :=
  match k with N1 => number1 ns | N2 => number2 ns | N3 => number3 ns | N4 => number4 ns end.
Definition setn (k : which) (v : Z) (ns : numbers) : numbers :=
  match k with
  | N1 => Numbers v (number2 ns) (number3 ns) (number4 ns)
  | N2 => Numbers (number1 ns) v (number3 ns) (number4 ns)
  | N3 => Numbers (number1 ns) (number2 ns) v (number4 ns)
  | N4 => Numbers (number1 ns) (number2 ns) (number3 ns) v
  end.

Lemma fetch_before k ns c : FETCH_NUMBER (before k) ns c = Some (inside k, setn k (c - 48) ns).
Proof. by destruct k, ns. Qed.

Lemma fetch_inside k ns c :
  FETCH_NUMBER (inside k) ns c
  = (n ← next_number (getn k ns) c; Some (inside k, setn k n ns)).
Proof. destruct k, ns; simpl; by destruct (next_number _ c). Qed.

Lemma getn_setn k v ns : getn k (setn k v ns) = v.
Proof. by destruct k. Qed.
Lemma setn_setn k v v' ns : setn k v (setn k v' ns) = setn k v ns.
Proof. by destruct k. Qed.
Lemma setn_getn k ns : setn k (getn k ns) ns = ns.
Proof. by destruct k, ns. Qed.

Lemma next_number_val n c :
  0 <= n < 255 → digit c →
  next_number n c = if 255 <=? 10 * n + (c - 48) then None else Some (10 * n + (c - 48)).
Proof.
  intros Hn Hc. unfold digit in Hc. unfold next_number.
  replace (u32 (n * 10 + (c - 48))) with (10 * n + (c - 48)); [done|].
  rewrite u32_small; lia.
Qed.

(** A run of digits inside a number. *)
Lemma run_digits k d t i ns :
  Forall is_byte d → Forall digit d → 0 <= getn k ns < 255 →
  run (d ++ t) i (inside k) ns =
  if 255 <=? dec_from (getn k ns) d then (0, None)
  else run t (i + Z.of_nat (length d)) (inside k) (setn k (dec_from (getn k ns) d) ns).
Proof.
  revert i ns; induction d as [|c d IH]; intros i ns Hb Hd Hn.
  { simpl. unfold dec_from. simpl. rewrite (proj2 (Z.leb_gt _ _)) by lia.
    by rewrite setn_getn, Z.add_0_r. }
  apply Forall_cons_1 in Hb as [Hc Hb]. apply Forall_cons_1 in Hd as [Hdc Hd]. cbn [run app].
  rewrite (proj2 (Z.eqb_eq _ _)) by (by apply ipv4_class_digit).
  rewrite fetch_inside, next_number_val by done. unfold dec_from. cbn [foldl].
  fold (dec_from (10 * getn k ns + (c - 48)) d). unfold digit in Hdc.
  destruct (Z.leb_spec 255 (10 * getn k ns + (c - 48))) as [Hge|Hlt]; simpl.
  - pose proof (dec_from_le (10 * getn k ns + (c - 48)) d ltac:(lia) Hd).
    by rewrite (proj2 (Z.leb_le _ _)) by lia.
  - rewrite IH by (rewrite ?getn_setn; done || lia). rewrite getn_setn, setn_setn.
    by rewrite <- Z.add_assoc, <- (Nat2Z.inj_add 1).
Qed.

(** A whole number. *)
Lemma run_number k d t i ns :
  Forall is_byte d → d ≠ [] → Forall digit d →
  run (d ++ t) i (before k) ns =
  if 255 <=? dec d then (0, None)
  else run t (i + Z.of_nat (length d)) (inside k) (setn k (dec d) ns).
Proof.
  intros Hb Hne Hd. destruct d as [|c d]; [done|].
  apply Forall_cons_1 in Hb as [Hc Hb]. apply Forall_cons_1 in Hd as [Hdc Hd]. cbn [run app].
  rewrite (proj2 (Z.eqb_eq _ _)) by (by apply ipv4_class_digit). rewrite fetch_before.
  unfold digit in Hdc. rewrite run_digits by (rewrite ?getn_setn; done || lia).
  rewrite getn_setn, setn_setn. unfold dec, dec_from. cbn [foldl].
  change (10 * 0 + (c - 48)) with (c - 48).
  by rewrite <- Z.add_assoc, <- (Nat2Z.inj_add 1).
Qed.

(** Where a number must begin and none does. *)
Lemma run_no_number k t i ns :
  Forall is_byte t → no_digit t → (k = N1 → match t with [] => True | c :: _ => ¬ blank c end) →
  run t i (before k) ns = (0, None).
Proof.
  intros Hb Ht Hk. destruct t as [|c t]; [by destruct k|]. apply Forall_cons_1 in Hb as [Hc _].
  simpl in Ht. simpl. rewrite (proj2 (Z.eqb_neq _ _)) by (by rewrite ipv4_class_digit).
  case_match; [by destruct k|]. destruct (Z.eqb_spec (class c) 3) as [E|]; [|done].
  rewrite ipv4_class_blank in E by done. destruct k; try done. by destruct (Hk eq_refl).
Qed.

Lemma ipv4_run_blanks bl t i ns :
  Forall is_byte bl → Forall blank bl →
  run (bl ++ t) i S_START ns = run t (i + Z.of_nat (length bl)) S_START ns.
Proof.
  revert i; induction bl as [|c bl IH]; intros i Hb Hbl; simpl; [by rewrite Z.add_0_r|].
  apply Forall_cons_1 in Hb as [Hc Hb]. apply Forall_cons_1 in Hbl as [Hbc Hbl].
  rewrite (proj2 (ipv4_class_blank c Hc) Hbc). simpl. rewrite IH by done.
  by rewrite <- Z.add_assoc, <- (Nat2Z.inj_add 1).
Qed.

(** After one of the first three numbers, and after the last. *)
Lemma run_dot k t i ns :
  run (46 :: t) i (inside k) ns
  = match k with
    | N1 => run t (i + 1) S_DOT1 ns
    | N2 => run t (i + 1) S_DOT2 ns
    | N3 => run t (i + 1) S_DOT3 ns
    | N4 => (0, None)
    end.
Proof. by destruct k. Qed.

Lemma run_no_dot k t i ns :
  Forall is_byte t → no_digit t → k ≠ N4 → match t with [] => True | c :: _ => c ≠ 46 end →
  run t i (inside k) ns = (0, None).
Proof.
  intros Hb Ht Hk Hc. destruct t as [|c t]; [by destruct k|].
  apply Forall_cons_1 in Hb as [Hbc _]. simpl in Ht. simpl.
  rewrite (proj2 (Z.eqb_neq _ _)) by (by rewrite ipv4_class_digit).
  rewrite (proj2 (Z.eqb_neq _ _)) by (by rewrite ipv4_class_dot). case_match; by destruct k.
Qed.

Lemma run_end t i ns :
  Forall is_byte t → no_digit t →
  run t i S_NUMBER4 ns = if decide (stops t) then finished ns i else (0, None).
Proof.
  intros Hb Ht. destruct t as [|c t]; [done|]. apply Forall_cons_1 in Hb as [Hbc _].
  simpl in Ht. simpl. rewrite (proj2 (Z.eqb_neq _ _)) by (by rewrite ipv4_class_digit).
  destruct (Z.eqb_spec (class c) 2) as [E|].
  { apply ipv4_class_dot in E; [subst|done]. case_decide as Hs; [|done]. unfold blank in Hs. lia. }
  destruct (Z.eqb_spec (class c) 3) as [E|E]; rewrite ipv4_class_blank in E by done;
    [by rewrite decide_True|by rewrite decide_False].
Qed.

Lemma octet_range d : octet d → 0 <= dec d < 255.
Proof.
  intros (_ & Hd & Hlt). split; [|done]. by apply dec_from_le.
Qed.

Lemma finished_val n1 n2 n3 n4 i :
  0 <= n1 < 255 → 0 <= n2 < 255 → 0 <= n3 < 255 → 0 <= n4 < 255 →
  finished (Numbers n1 n2 n3 n4) i = (i, Some (n1 * 2^24 + n2 * 2^16 + n3 * 2^8 + n4)).
Proof.
  intros H1 H2 H3 H4. unfold finished. simpl number1. simpl number2. simpl number3. simpl number4.
  rewrite !Z.shiftl_mul_pow2 by lia.
  rewrite (u32_small (n1 * 2^24)), (u32_small (n2 * 2^16)), (u32_small (n3 * 2^8)) by lia.
  by rewrite u32_small by lia.
Qed.

Lemma run_octet k d t i ns :
  Forall is_byte d → octet d →
  run (d ++ t) i (before k) ns = run t (i + Z.of_nat (length d)) (inside k) (setn k (dec d) ns).
Proof.
  intros Hb (Hne & Hd & Hlt). rewrite run_number by done. by rewrite (proj2 (Z.leb_gt _ _)) by lia.
Qed.

(** The texts of the grammar are accepted. *)
Lemma run_complete s a rest :
  Forall is_byte s → ipv4_text s a rest →
  run s 0 S_START (Numbers 0 0 0 0) = (Z.of_nat (length s) - Z.of_nat (length rest), Some a).
Proof.
  intros Hs (bl & d1 & d2 & d3 & d4 & -> & Hbl & H1 & H2 & H3 & H4 & Hst & ->).
  rewrite !Forall_app, !Forall_cons, !Forall_app, !Forall_cons, !Forall_app, !Forall_cons,
    !Forall_app in Hs.
  destruct Hs as (B0 & B1 & _ & B2 & _ & B3 & _ & B4 & B5).
  rewrite ipv4_run_blanks by done. change S_START with (before N1).
  rewrite run_octet, run_dot by done. change S_DOT1 with (before N2).
  rewrite run_octet, run_dot by done. change S_DOT2 with (before N3).
  rewrite run_octet, run_dot by done. change S_DOT3 with (before N4).
  rewrite run_octet by done. simpl inside. rewrite run_end by (auto with esq).
  rewrite decide_True by done. simpl setn.
  rewrite finished_val by (by apply octet_range). f_equal.
  autorewrite with esq_len. lia.
Qed.

(** A number that must be there: the machine fails, or it is there and the rest is next. *)
Lemma number_sound k r i ns :
  Forall is_byte r → (k = N1 → match r with [] => True | c :: _ => ¬ blank c end) →
  run r i (before k) ns = (0, None) ∨
  ∃ d t, r = d ++ t ∧ octet d ∧ no_digit t ∧
    run r i (before k) ns = run t (i + Z.of_nat (length d)) (inside k) (setn k (dec d) ns).
Proof.
  intros Hb Hk. destruct (no_digit_split r) as (d & t & -> & Hd & Ht).
  destruct d as [|c d]; [left; by apply run_no_number|].
  pose proof Hb as [Hbd _]%Forall_app. rewrite run_number by done.
  destruct (Z.leb_spec 255 (dec (c :: d))); [by left|]. right. by exists (c :: d), t.
Qed.

Lemma dot_sound k t i ns :
  Forall is_byte t → no_digit t → k ≠ N4 →
  run t i (inside k) ns = (0, None) ∨ ∃ t', t = 46 :: t'.
Proof.
  intros Hb Ht Hk. destruct t as [|c t]; [left; by apply run_no_dot|].
  destruct (decide (c = 46)) as [->|]; [right; eauto|left; by apply run_no_dot].
Qed.

(** Nothing else is. *)
Lemma run_sound s :
  Forall is_byte s →
  run s 0 S_START (Numbers 0 0 0 0) = (0, None) ∨ ∃ a rest, ipv4_text s a rest.
Proof.
  intros Hs. destruct (blanks_split s) as (bl & t0 & -> & Hbl & H0).
  pose proof Hs as [Hb Hs0]%Forall_app. rewrite ipv4_run_blanks by done.
  destruct (number_sound N1 t0 (0 + Z.of_nat (length bl)) (Numbers 0 0 0 0) Hs0 (fun _ => H0))
    as [?|(d1 & t1 & -> & O1 & N1' & E1)]; [by left|]. simpl before in E1. rewrite E1. clear E1.
  apply Forall_app in Hs0 as [_ Hs1].
  edestruct (dot_sound N1 t1) as [?|[r2 ->]]; [done..|by left; eassumption|]. rewrite run_dot.
  apply Forall_cons_1 in Hs1 as [_ Hs1].
  edestruct (number_sound N2 r2) as [?|(d2 & t2 & -> & O2 & N2' & E2)]; [done..|by left; eassumption|].
  simpl before in E2. rewrite E2. clear E2. apply Forall_app in Hs1 as [_ Hs2].
  edestruct (dot_sound N2 t2) as [?|[r3 ->]]; [done..|by left; eassumption|]. rewrite run_dot.
  apply Forall_cons_1 in Hs2 as [_ Hs2].
  edestruct (number_sound N3 r3) as [?|(d3 & t3 & -> & O3 & N3' & E3)]; [done..|by left; eassumption|].
  simpl before in E3. rewrite E3. clear E3. apply Forall_app in Hs2 as [_ Hs3].
  edestruct (dot_sound N3 t3) as [?|[r4 ->]]; [done..|by left; eassumption|]. rewrite run_dot.
  apply Forall_cons_1 in Hs3 as [_ Hs3].
  edestruct (number_sound N4 r4) as [?|(d4 & t4 & -> & O4 & N4' & E4)]; [done..|by left; eassumption|].
  simpl before in E4. rewrite E4. clear E4. apply Forall_app in Hs3 as [_ Hs4].
  simpl inside. rewrite run_end by done. case_decide as Hst; [|by left].
  right. eexists _, t4. by exists bl, d1, d2, d3, d4.
Qed.

Lemma ipv4_cases s tl :
  Forall is_byte s →
  (∃ a rest, ipv4_text s a rest ∧
     get_ipv4_addr (s ++ tl) (Z.of_nat (length s))
     = Ret (Z.of_nat (length s) - Z.of_nat (length rest), Some a)) ∨
  ((∀ a rest, ¬ ipv4_text s a rest) ∧
   get_ipv4_addr (s ++ tl) (Z.of_nat (length s)) = Ret (0, None)).
Proof.
  intros Hs. unfold get_ipv4_addr. rewrite (ipv4_loop_run s tl _ 0) by (done || lia).
  rewrite drop_0. destruct (run_sound s Hs) as [E|(a & rest & Ht)].
  - right. split; [|by f_equal]. intros a rest Ht. pose proof (run_complete s a rest Hs Ht). congruence.
  - left. exists a, rest. split; [done|]. f_equal. by apply run_complete.
Qed.

(** The address scanner accepts exactly the texts that are blanks, four octets of at
    most 254 separated by dots, and then a blank or the end; it returns how much it read
    and stores the address; every other text is refused with nothing stored.  It reads
    no byte outside the text. *)
Theorem get_ipv4_addr_correct s tl :
  Forall is_byte s →
  (∃ a rest, ipv4_text s a rest ∧
     get_ipv4_addr (s ++ tl) (Z.of_nat (length s))
     = Ret (Z.of_nat (length s) - Z.of_nat (length rest), Some a)) ∨
  ((∀ a rest, ¬ ipv4_text s a rest) ∧
   get_ipv4_addr (s ++ tl) (Z.of_nat (length s)) = Ret (0, None)).
Proof. apply ipv4_cases. Qed.

Lemma get_ipv4_addr_correct_witness :
  let s := [32; 49; 46; 50; 46; 51; 46; 50; 53; 52; 32] in
  ((∃ a rest, ipv4_text s a rest ∧
     get_ipv4_addr (s ++ [0]) (Z.of_nat (length s))
     = Ret (Z.of_nat (length s) - Z.of_nat (length rest), Some a)) ∨
  ((∀ a rest, ¬ ipv4_text s a rest) ∧
   get_ipv4_addr (s ++ [0]) (Z.of_nat (length s)) = Ret (0, None))) ∧
  get_ipv4_addr (s ++ [0]) 11 = Ret (10, Some 0x10203fe).
Proof.
  intros s. split; [|vm_compute; reflexivity].
  apply (get_ipv4_addr_correct s [0]).
  repeat constructor; discriminate.
Defined.
End Ipv4.

(** ** Integers *)
Module Integer.

Definition str_2_integer_handle_table : list Z :=
  [ 0; 0; 0; 0; 0; 0; 0; 0; 0; 2; 2; 0; 0; 2; 0; 0;
    0; 0; 0; 0; 0; 0; 0; 0; 0; 0; 0; 0; 0; 0; 0; 0;
    2; 0; 0; 0; 0; 0; 0; 0; 0; 0; 0; 0; 0; 0; 0; 0;
    1; 1; 1; 1; 1; 1; 1; 1; 1; 1; 0; 0; 0; 0; 0; 0;
    0; 0; 0; 0; 0; 0; 0; 0; 0; 0; 0; 0; 0; 0; 0; 0;
    0; 0; 0; 0; 0; 0; 0; 0; 0; 0; 0; 0; 0; 0; 0; 0;
    0; 0; 0; 0; 0; 0; 0; 0; 0; 0; 0; 0; 0; 0; 0; 0;
    0; 0; 0; 0; 0; 0; 0; 0; 0; 0; 0; 0; 0; 0; 0; 0;
    0; 0; 0; 0; 0; 0; 0; 0; 0; 0; 0; 0; 0; 0; 0; 0;
    0; 0; 0; 0; 0; 0; 0; 0; 0; 0; 0; 0; 0; 0; 0; 0;
    0; 0; 0; 0; 0; 0; 0; 0; 0; 0; 0; 0; 0; 0; 0; 0;
    0; 0; 0; 0; 0; 0; 0; 0; 0; 0; 0; 0; 0; 0; 0; 0;
    0; 0; 0; 0; 0; 0; 0; 0; 0; 0; 0; 0; 0; 0; 0; 0;
    0; 0; 0; 0; 0; 0; 0; 0; 0; 0; 0; 0; 0; 0; 0; 0;
    0; 0; 0; 0; 0; 0; 0; 0; 0; 0; 0; 0; 0; 0; 0; 0;
    0; 0; 0; 0; 0; 0; 0; 0; 0; 0; 0; 0; 0; 0; 0; 0 ].

Definition NUMBERLIMIT : Z := 10000000.

Inductive statu := S_START | S_NUMBER.

(** [v] is not set before the first digit. *)
Fixpoint integer_loop (fuel : nat) (buf : list Z) (len i : Z) (st : statu) (v : Z)
    : cres (Z * option Z) :=
  match fuel with
  | O => NoFuel
  | S fuel =>
      if i <? len then
        c ← rd buf i;
        h ← rd str_2_integer_handle_table c;
        if h =? 0 then Ret (0, None)
        else if h =? 1 then
          match st with
          | S_START => integer_loop fuel buf len (i + 1) S_NUMBER (c - 48)
          | S_NUMBER =>
              let v := i32 (v * 10 + (c - 48)) in
              if NUMBERLIMIT <? v then Ret (0, None)
              else integer_loop fuel buf len (i + 1) S_NUMBER v
          end
        else if h =? 2 then
          match st with
          | S_START => integer_loop fuel buf len (i + 1) st v
          | S_NUMBER => Ret (i, Some v)
          end
        else integer_loop fuel buf len (i + 1) st v
      else
        match st with
        | S_START => Ret (0, None)
        | S_NUMBER => Ret (i, Some v)
        end
  end.

(** The result, and what is stored through [vp] if it is not null. *)
Definition get_integer_1000000 (buf : list Z) (len : Z) : cres (Z * option Z) :=
  integer_loop (S (Z.to_nat len)) buf len 0 S_START 0.

(** *** Reference: the grammar of numbers *)
Definition integer_text (s : list Z) (v : Z) (rest : list Z) : Prop :=
  ∃ bl d, s = bl ++ d ++ rest ∧ Forall blank bl ∧ d ≠ [] ∧ Forall digit d ∧ stops rest ∧
          v = dec d ∧ v <= NUMBERLIMIT.

Definition class (c : Z) : Z := tab str_2_integer_handle_table 0 c.

Lemma integer_class_digit c : is_byte c → class c = 1 ↔ digit c.
Proof.
  intros Hc. unfold digit.
  by_range (fun c => Bool.eqb (class c =? 1) ((48 <=? c) && (c <=? 57))) 256 c Hc.
  apply eqb_prop in Hrange. lia.
Qed.

Lemma integer_class_blank c : is_byte c → class c = 2 ↔ blank c.
Proof.
  intros Hc. unfold blank.
  by_range (fun c => Bool.eqb (class c =? 2) ((c =? 9) || (c =? 10) || (c =? 13) || (c =? 32)))
    256 c Hc.
  apply eqb_prop in Hrange. lia.
Qed.

Lemma integer_class_other c : is_byte c → ¬ digit c → ¬ blank c → class c = 0.
Proof.
  intros Hc Hd Hb. rewrite <- integer_class_digit in Hd by done. rewrite <- integer_class_blank in Hb by done.
  by_range (fun c => (class c =? 0) || (class c =? 1) || (class c =? 2)) 256 c Hc. lia.
Qed.

Section Steps.
Context (s tl : list Z) (Hs : Forall is_byte s).

Abbreviation loop fuel i := (integer_loop fuel (s ++ tl) (Z.of_nat (length s)) (Z.of_nat i)).

Lemma integer_at_end fuel i st v :
  drop i s = [] → (i <= length s)%nat →
  loop (S fuel) i st v = Ret (match st with S_START => (0, None) | S_NUMBER => (Z.of_nat i, Some v) end).
Proof.
  intros E Hi. apply drop_nil_length in E. simpl. rewrite (proj2 (Z.ltb_ge _ _)) by lia.
  by destruct st.
Qed.

(** One turn, by the byte that is read. *)
Lemma integer_step fuel i st v c r :
  drop i s = c :: r →
  loop (S fuel) i st v =
  if decide (digit c) then
    match st with
    | S_START => loop fuel (S i) S_NUMBER (c - 48)
    | S_NUMBER => if NUMBERLIMIT <? i32 (v * 10 + (c - 48)) then Ret (0, None)
                  else loop fuel (S i) S_NUMBER (i32 (v * 10 + (c - 48)))
    end
  else if decide (blank c) then
    match st with S_START => loop fuel (S i) st v | S_NUMBER => Ret (Z.of_nat i, Some v) end
  else Ret (0, None).
Proof using Hs.
  intros E. pose proof (drop_lookup_cons _ _ _ _ E) as (_ & _ & Hlt).
  destruct (Forall_drop_cons _ _ _ _ _ Hs E) as [Hc _].
  simpl. rewrite (proj2 (Z.ltb_lt _ _)) by lia. rewrite (rd_text s tl i c r E). simpl.
  rewrite (rd_tab str_2_integer_handle_table 0 c eq_refl Hc). fold (class c). simpl. nat_index.
  destruct (decide (digit c)) as [Hd|Hd].
  { by rewrite (proj2 (integer_class_digit c Hc) Hd). }
  destruct (decide (blank c)) as [Hb|Hb].
  { by rewrite (proj2 (integer_class_blank c Hc) Hb). }
  by rewrite integer_class_other.
Qed.

Lemma integer_digits d r fuel i v :
  drop i s = d ++ r → Forall digit d → 0 <= v <= NUMBERLIMIT →
  (i <= length s)%nat → (length s - i < fuel)%nat →
  loop fuel i S_NUMBER v =
  if NUMBERLIMIT <? dec_from v d then Ret (0, None)
  else loop (fuel - length d) (i + length d) S_NUMBER (dec_from v d).
Proof using Hs.
  intros E Hd. revert fuel i v E; induction Hd as [|c d Hc Hd IH]; intros fuel i v E Hv Hi Hf.
  { change (dec_from v []) with v. rewrite (proj2 (Z.ltb_ge _ _)) by lia. simpl.
    by rewrite Nat.sub_0_r, Nat.add_0_r. }
  destruct fuel as [|fuel]; [lia|]. pose proof (drop_lookup_cons _ _ _ _ E) as (_ & E1 & Hlt).
  rewrite (integer_step _ _ _ _ _ _ E). rewrite decide_True by done.
  change (dec_from v (c :: d)) with (dec_from (10 * v + (c - 48)) d).
  unfold digit in Hc. unfold NUMBERLIMIT in Hv.
  replace (i32 (v * 10 + (c - 48))) with (10 * v + (c - 48)) by (rewrite i32_small; lia).
  destruct (Z.ltb_spec NUMBERLIMIT (10 * v + (c - 48))) as [Hgt|Hle].
  - pose proof (dec_from_le (10 * v + (c - 48)) d ltac:(lia) Hd).
    by rewrite (proj2 (Z.ltb_lt _ _)) by lia.
  - rewrite IH by (done || lia). csplit; [done|]. simpl length. f_equal. lia.
Qed.

Lemma integer_blanks bl r fuel i v :
  drop i s = bl ++ r → Forall blank bl → (i <= length s)%nat → (length s - i < fuel)%nat →
  loop fuel i S_START v = loop (fuel - length bl) (i + length bl) S_START v.
Proof using Hs.
  intros E Hb. revert fuel i E; induction Hb as [|c bl Hc Hb IH]; intros fuel i E Hi Hf.
  { simpl. by rewrite Nat.sub_0_r, Nat.add_0_r. }
  destruct fuel as [|fuel]; [lia|]. pose proof (drop_lookup_cons _ _ _ _ E) as (_ & E1 & Hlt).
  rewrite (integer_step _ _ _ _ _ _ E). rewrite decide_False by (unfold digit, blank in *; lia).
  rewrite decide_True by done. rewrite IH by (done || lia). simpl length. f_equal. lia.
Qed.
End Steps.

(** The scanner on blanks, digits and what follows. *)
Lemma get_integer_split bl d r tl :
  let s := bl ++ d ++ r in
  Forall is_byte s → Forall blank bl → Forall digit d → no_digit r →
  (d = [] → match r with [] => True | c :: _ => ¬ blank c end) →
  get_integer_1000000 (s ++ tl) (Z.of_nat (length s)) =
  if decide (d ≠ [] ∧ dec d <= NUMBERLIMIT ∧ stops r)
  then Ret (Z.of_nat (length s) - Z.of_nat (length r), Some (dec d)) else Ret (0, None).
Proof.
  intros s Hs Hbl Hd Hr Hnb. unfold get_integer_1000000. change 0 with (Z.of_nat 0) at 1.
  rewrite (integer_blanks s tl Hs bl (d ++ r)) by (done || lia). simpl Nat.add.
  assert (Hdrop : ∀ p q, s = p ++ q → drop (length p) s = q) by (intros p q ->; apply drop_app_length).
  assert (Hl : (length s = length bl + (length d + length r))%nat)
    by (unfold s; by rewrite !length_app).
  pose proof (Hdrop bl (d ++ r) eq_refl) as E0.
  destruct (S (Z.to_nat (Z.of_nat (length s))) - length bl)%nat as [|fuel] eqn:Ef; [lia|].
  destruct d as [|c d].
  { rewrite decide_False by naive_solver. destruct r as [|c r].
    - by rewrite integer_at_end by (done || lia).
    - rewrite (integer_step s tl Hs _ _ _ _ _ _ E0). simpl in Hr. rewrite decide_False by done.
      by rewrite decide_False by (by apply Hnb). }
  pose proof Hd as [Hc Hd']%Forall_cons_1.
  rewrite (integer_step s tl Hs _ _ _ _ _ _ E0). rewrite decide_True by done.
  pose proof (Hdrop (bl ++ [c]) (d ++ r) ltac:(unfold s; by rewrite <- app_assoc)) as E1.
  rewrite length_app, Nat.add_1_r in E1. unfold digit in Hc.
  rewrite (integer_digits s tl Hs d r) by (done || (unfold NUMBERLIMIT; lia) || (simpl in Hl; lia)).
  change (dec (c :: d)) with (dec_from (10 * 0 + (c - 48)) d).
  change (10 * 0 + (c - 48)) with (c - 48).
  destruct (Z.ltb_spec NUMBERLIMIT (dec_from (c - 48) d)) as [Hgt|Hle].
  { rewrite decide_False; [done|]. lia. }
  pose proof (Hdrop (bl ++ c :: d) r ltac:(unfold s; by rewrite <- app_assoc)) as E2.
  rewrite length_app in E2. simpl length in E2, Hl.
  replace (S (length bl) + length d)%nat with (length bl + S (length d))%nat by lia.
  destruct (fuel - length d)%nat as [|fuel'] eqn:Ef'; [lia|]. destruct r as [|x r].
  - rewrite integer_at_end by (done || lia). rewrite decide_True by done. do 2 f_equal. simpl in *. lia.
  - rewrite (integer_step s tl Hs _ _ _ _ _ _ E2). simpl in Hr. rewrite decide_False by done.
    destruct (decide (blank x)); [rewrite decide_True by done|by rewrite decide_False by naive_solver].
    do 2 f_equal. simpl in *. lia.
Qed.

(** The integer scanner accepts exactly the texts that are blanks, digits whose value
    is at most ten million, and then a blank or the end, whatever the number of leading
    zeros; it returns how much it read and stores the value; every other text is
    refused with nothing stored.  No sum overflows. *)
Theorem get_integer_1000000_correct s tl :
  Forall is_byte s →
  (∃ v rest, integer_text s v rest ∧
     get_integer_1000000 (s ++ tl) (Z.of_nat (length s))
     = Ret (Z.of_nat (length s) - Z.of_nat (length rest), Some v)) ∨
  ((∀ v rest, ¬ integer_text s v rest) ∧
   get_integer_1000000 (s ++ tl) (Z.of_nat (length s)) = Ret (0, None)).
Proof.
  intros Hs. destruct (blanks_split s) as (bl & t & -> & Hbl & Ht).
  destruct (no_digit_split t) as (d & r & -> & Hd & Hr).
  rewrite get_integer_split by (done || by intros ->). case_decide as Hok.
  - left. destruct Hok as (Hne & Hle & Hst). exists (dec d), r. split; [|done]. by exists bl, d.
  - right. split; [|done]. intros v rest (bl' & d' & E & Hbl' & Hne' & Hd' & Hst & -> & Hle).
    apply Hok.
    assert (Hh' : match d' ++ rest with [] => True | c :: _ => ¬ blank c end).
    { destruct d' as [|c d']; [done|]. apply Forall_cons_1 in Hd' as [Hc _]. simpl.
      unfold digit, blank in *. lia. }
    destruct (prefix_unique blank bl bl' _ _ E Hbl Hbl' Ht Hh') as [-> E'].
    destruct (prefix_unique digit d d' r rest E' Hd Hd' Hr (stops_no_digit _ Hst)) as [-> ->]. done.
Qed.

Lemma get_integer_1000000_correct_witness :
  let s := [32; 49; 48; 48; 48; 48; 48; 48; 48; 10] in
  ((∃ v rest, integer_text s v rest ∧
     get_integer_1000000 (s ++ [0]) (Z.of_nat (length s))
     = Ret (Z.of_nat (length s) - Z.of_nat (length rest), Some v)) ∨
  ((∀ v rest, ¬ integer_text s v rest) ∧
   get_integer_1000000 (s ++ [0]) (Z.of_nat (length s)) = Ret (0, None))) ∧
  get_integer_1000000 (s ++ [0]) 10 = Ret (9, Some 10000000).
Proof.
  intros s. split; [|vm_compute; reflexivity].
  apply (get_integer_1000000_correct s [0]). repeat constructor; discriminate.
Defined.
End Integer.

(** ** Hash strings *)
Module HashString.

Definition hash_string_handle_table : list Z :=
  [ 0; 0; 0; 0; 0; 0; 0; 0; 0; 2; 2; 0; 0; 2; 0; 0;
    0; 0; 0; 0; 0; 0; 0; 0; 0; 0; 0; 0; 0; 0; 0; 0;
    2; 0; 0; 0; 0; 0; 0; 0; 0; 0; 0; 0; 0; 0; 0; 0;
    1; 1; 1; 1; 1; 1; 1; 1; 1; 1; 0; 0; 0; 0; 0; 0;
    0; 1; 1; 1; 1; 1; 1; 0; 0; 0; 0; 0; 0; 0; 0; 0;
    0; 0; 0; 0; 0; 0; 0; 0; 3; 0; 0; 0; 0; 0; 0; 0;
    0; 1; 1; 1; 1; 1; 1; 0; 0; 0; 0; 0; 0; 0; 0; 0;
    0; 0; 0; 0; 0; 0; 0; 0; 3; 0; 0; 0; 0; 0; 0; 0;
    0; 0; 0; 0; 0; 0; 0; 0; 0; 0; 0; 0; 0; 0; 0; 0;
    0; 0; 0; 0; 0; 0; 0; 0; 0; 0; 0; 0; 0; 0; 0; 0;
    0; 0; 0; 0; 0; 0; 0; 0; 0; 0; 0; 0; 0; 0; 0; 0;
    0; 0; 0; 0; 0; 0; 0; 0; 0; 0; 0; 0; 0; 0; 0; 0;
    0; 0; 0; 0; 0; 0; 0; 0; 0; 0; 0; 0; 0; 0; 0; 0;
    0; 0; 0; 0; 0; 0; 0; 0; 0; 0; 0; 0; 0; 0; 0; 0;
    0; 0; 0; 0; 0; 0; 0; 0; 0; 0; 0; 0; 0; 0; 0; 0;
    0; 0; 0; 0; 0; 0; 0; 0; 0; 0; 0; 0; 0; 0; 0; 0 ].

Inductive statu := S_START | S_HASH.

(** Where the loop stops: [goto __finished] at [i] with [start], or [return -1]. *)
Fixpoint hash_loop (fuel : nat) (buf : list Z) (len i : Z) (st : statu) (start : Z)
    : cres (option (Z * Z)) :=
  match fuel with
  | O => NoFuel
  | S fuel =>
      if i <? len then
        c ← rd buf i;
        h ← rd hash_string_handle_table c;
        if h =? 1 then
          match st with
          | S_START => hash_loop fuel buf len (i + 1) S_HASH i
          | S_HASH => hash_loop fuel buf len (i + 1) st start
          end
        else if h =? 2 then
          match st with
          | S_START => hash_loop fuel buf len (i + 1) st start
          | S_HASH => Ret None
          end
        else if h =? 3 then Ret (Some (i, start))
        else Ret None
      else Ret None
  end.

(** The result, and what is stored in [*hash_start] and [*hash_len]. *)
Definition get_hash_string (buf : list Z) (len : Z) : cres (Z * option (Z * Z)) :=
  r ← hash_loop (S (Z.to_nat len)) buf len 0 S_START 0;
  match r with
  | None => Ret (-1, None)
  | Some (i, start) =>
      let l := i - start in
      if negb (Z.land l 1 =? 0) then Ret (-1, None) else Ret (i + 1, Some (start, l))
  end.

Definition hash_string_2_bin_table : list Z :=
  [ 0; 0; 0; 0; 0; 0; 0; 0; 0; 0; 0; 0; 0; 0; 0; 0;
    0; 0; 0; 0; 0; 0; 0; 0; 0; 0; 0; 0; 0; 0; 0; 0;
    0; 0; 0; 0; 0; 0; 0; 0; 0; 0; 0; 0; 0; 0; 0; 0;
    0; 1; 2; 3; 4; 5; 6; 7; 8; 9; 0; 0; 0; 0; 0; 0;
    0; 10; 11; 12; 13; 14; 15; 0; 0; 0; 0; 0; 0; 0; 0; 0;
    0; 0; 0; 0; 0; 0; 0; 0; 0; 0; 0; 0; 0; 0; 0; 0;
    0; 10; 11; 12; 13; 14; 15; 0; 0; 0; 0; 0; 0; 0; 0; 0;
    0; 0; 0; 0; 0; 0; 0; 0; 0; 0; 0; 0; 0; 0; 0; 0;
    0; 0; 0; 0; 0; 0; 0; 0; 0; 0; 0; 0; 0; 0; 0; 0;
    0; 0; 0; 0; 0; 0; 0; 0; 0; 0; 0; 0; 0; 0; 0; 0;
    0; 0; 0; 0; 0; 0; 0; 0; 0; 0; 0; 0; 0; 0; 0; 0;
    0; 0; 0; 0; 0; 0; 0; 0; 0; 0; 0; 0; 0; 0; 0; 0;
    0; 0; 0; 0; 0; 0; 0; 0; 0; 0; 0; 0; 0; 0; 0; 0;
    0; 0; 0; 0; 0; 0; 0; 0; 0; 0; 0; 0; 0; 0; 0; 0;
    0; 0; 0; 0; 0; 0; 0; 0; 0; 0; 0; 0; 0; 0; 0; 0;
    0; 0; 0; 0; 0; 0; 0; 0; 0; 0; 0; 0; 0; 0; 0; 0 ].

Fixpoint bin_loop (fuel : nat) (buf hash_string : list Z) (hash_str_len i w : Z)
    : cres (list Z) :=
  match fuel with
  | O => NoFuel
  | S fuel =>
      if i <? hash_str_len then
        c ← rd hash_string i;
        ch ← rd hash_string_2_bin_table c;
        c ← rd hash_string (i + 1);
        cl ← rd hash_string_2_bin_table c;
        buf ← wr buf w (u8 (Z.shiftl ch 4 + cl));
        bin_loop fuel buf hash_string hash_str_len (i + 2) (w + 1)
      else Ret buf
  end.

(** The result and the buffer left behind. *)
Definition hash_str_2_bin (buf hash_string : list Z) (hash_str_len : Z) : cres (Z * list Z) :=
  if negb (Z.land hash_str_len 1 =? 0) then Ret (-1, buf)
  else
    buf ← bin_loop (S (Z.to_nat hash_str_len)) buf hash_string hash_str_len 0 0;
    Ret (0, buf).

(** *** Reference *)
Definition hex (c : Z) : Prop := digit c ∨ 65 <= c <= 70 ∨ 97 <= c <= 102.
Definition mark (c : Z) : Prop := c = 120 ∨ c = 88.

#[export] Instance hex_dec c : Decision (hex c) := _.
#[export] Instance mark_dec c : Decision (mark c) := _.

(** Blanks, hexadecimal digits and the end mark.  A hash of no digits begins at the start
    of the text, blanks included. *)
Definition hash_text (s : list Z) (start l r : Z) : Prop :=
  ∃ bl h e rest,
    s = bl ++ h ++ e :: rest ∧ Forall blank bl ∧ Forall hex h ∧ mark e ∧
    r = Z.of_nat (length bl + length h + 1) ∧ Z.even l = true ∧
    match h with
    | [] => start = 0 ∧ l = Z.of_nat (length bl)
    | _ => start = Z.of_nat (length bl) ∧ l = Z.of_nat (length h)
    end.

Definition hexval (c : Z) : Z := tab hash_string_2_bin_table 0 c.

(** The text of a hash, in lower or in upper case. *)
Definition hexdigit (up : bool) (n : Z) : Z :=
  if n <? 10 then 48 + n else if up then 55 + n else 87 + n.

Definition hex_of (up : bool) (bs : list Z) : list Z :=
  bs ≫= fun b => [hexdigit up (b / 16); hexdigit up (b mod 16)].

(** *** Lemmas *)
Definition class (c : Z) : Z := tab hash_string_handle_table 0 c.

Lemma hash_class_hex c : is_byte c → class c = 1 ↔ hex c.
Proof.
  intros Hc. unfold hex, digit.
  by_range (fun c => Bool.eqb (class c =? 1) (((48 <=? c) && (c <=? 57)) ||
    ((65 <=? c) && (c <=? 70)) || ((97 <=? c) && (c <=? 102)))) 256 c Hc.
  apply eqb_prop in Hrange. lia.
Qed.

Lemma hash_class_blank c : is_byte c → class c = 2 ↔ blank c.
Proof.
  intros Hc. unfold blank.
  by_range (fun c => Bool.eqb (class c =? 2) ((c =? 9) || (c =? 10) || (c =? 13) || (c =? 32)))
    256 c Hc.
  apply eqb_prop in Hrange. lia.
Qed.

Lemma hash_class_mark c : is_byte c → class c = 3 ↔ mark c.
Proof.
  intros Hc. unfold mark.
  by_range (fun c => Bool.eqb (class c =? 3) ((c =? 120) || (c =? 88))) 256 c Hc.
  apply eqb_prop in Hrange. lia.
Qed.

(** The machine on the text that is left. *)
Fixpoint run (r : list Z) (i : Z) (st : statu) (start : Z) : option (Z * Z) :=
  match r with
  | [] => None
  | c :: r =>
      if decide (hex c) then
        run r (i + 1) S_HASH (match st with S_START => i | S_HASH => start end)
      else if decide (blank c) then
        match st with S_START => run r (i + 1) st start | S_HASH => None end
      else if decide (mark c) then Some (i, start)
      else None
  end.

Lemma hash_loop_run s tl fuel i st start :
  Forall is_byte s → (i <= length s)%nat → (length s - i < fuel)%nat →
  hash_loop fuel (s ++ tl) (Z.of_nat (length s)) (Z.of_nat i) st start
  = Ret (run (drop i s) (Z.of_nat i) st start).
Proof.
  intros Hs. revert i st start; induction fuel as [|fuel IH]; intros i st start Hi Hf; [lia|].
  simpl. destruct (drop i s) as [|c r] eqn:E.
  { apply drop_nil_length in E. by rewrite (proj2 (Z.ltb_ge _ _)) by lia. }
  pose proof (drop_lookup_cons _ _ _ _ E) as (_ & E1 & Hlt).
  rewrite (proj2 (Z.ltb_lt _ _)) by lia. rewrite (rd_text s tl i c r E). simpl.
  destruct (Forall_drop_cons _ _ _ _ _ Hs E) as [Hc _].
  rewrite (rd_tab hash_string_handle_table 0 c eq_refl Hc). fold (class c). simpl. nat_index.
  rewrite <- E1.
  destruct (Z.eqb_spec (class c) 1) as [E2|E2]; rewrite hash_class_hex in E2 by done;
    [rewrite decide_True by done; by destruct st; rewrite IH by lia|rewrite decide_False by done].
  destruct (Z.eqb_spec (class c) 2) as [E3|E3]; rewrite hash_class_blank in E3 by done;
    [rewrite decide_True by done; destruct st; [by rewrite IH by lia|done]
    |rewrite decide_False by done].
  destruct (Z.eqb_spec (class c) 3) as [E4|E4]; rewrite hash_class_mark in E4 by done;
    [by rewrite decide_True|by rewrite decide_False].
Qed.

Lemma hash_run_blanks bl t i start :
  Forall blank bl → run (bl ++ t) i S_START start = run t (i + Z.of_nat (length bl)) S_START start.
Proof.
  intros Hb. revert i; induction Hb as [|c bl Hc Hb IH]; intros i; simpl; [by rewrite Z.add_0_r|].
  rewrite decide_False by (unfold hex, digit, blank in *; lia). rewrite decide_True by done.
  rewrite IH. f_equal. lia.
Qed.

Lemma hash_run_hex h t i start :
  Forall hex h → run (h ++ t) i S_HASH start = run t (i + Z.of_nat (length h)) S_HASH start.
Proof.
  intros Hh. revert i; induction Hh as [|c h Hc Hh IH]; intros i; simpl; [by rewrite Z.add_0_r|].
  rewrite decide_True by done. rewrite IH. f_equal. lia.
Qed.

Lemma hex_split r :
  ∃ h t, r = h ++ t ∧ Forall hex h ∧ match t with [] => True | c :: _ => ¬ hex c end.
Proof.
  induction r as [|c r (h & t & -> & Hh & Ht)]; [by exists [], []|].
  destruct (decide (hex c)); [exists (c :: h), t|exists [], (c :: h ++ t)]; auto.
Qed.

(** The whole text: blanks, digits and the rest. *)
Lemma hash_run_split bl h t :
  Forall blank bl → Forall hex h →
  match t with [] => True | c :: _ => ¬ hex c end →
  (h = [] → match t with [] => True | c :: _ => ¬ blank c end) →
  run (bl ++ h ++ t) 0 S_START 0 =
  match t with
  | e :: _ => if decide (mark e) then
                Some (Z.of_nat (length bl + length h),
                      match h with [] => 0 | _ => Z.of_nat (length bl) end)
              else None
  | [] => None
  end.
Proof.
  intros Hbl Hh Ht Hb. rewrite hash_run_blanks by done. rewrite Z.add_0_l.
  destruct h as [|c h].
  - simpl. rewrite Nat.add_0_r. destruct t as [|e t]; [done|]. simpl.
    rewrite decide_False by done. by rewrite decide_False by (by apply Hb).
  - pose proof Hh as [Hc Hh']%Forall_cons_1. cbn [run app]. rewrite decide_True by done.
    rewrite hash_run_hex by done. destruct t as [|e t]; [done|]. simpl in Ht. simpl.
    rewrite decide_False by done. destruct (decide (blank e)) as [Hbe|].
    + rewrite decide_False; [done|]. unfold blank, mark in *. lia.
    + case_decide; [|done]. do 2 f_equal. lia.
Qed.

Lemma land_1_even l : (Z.land l 1 =? 0) = Z.even l.
Proof.
  change 1 with (Z.ones 1). rewrite Z.land_ones by lia. change (2 ^ 1) with 2. rewrite Zmod_even.
  by destruct (Z.even l).
Qed.

Definition marked (t : list Z) : Prop := match t with [] => False | e :: _ => mark e end.

#[export] Instance marked_dec t : Decision (marked t).
Proof. destruct t; apply _. Defined.

Lemma get_hash_string_split bl h t tl :
  let s := bl ++ h ++ t in
  let l := match h with [] => Z.of_nat (length bl) | _ => Z.of_nat (length h) end in
  Forall is_byte s → Forall blank bl → Forall hex h →
  match t with [] => True | c :: _ => ¬ hex c end →
  (h = [] → match t with [] => True | c :: _ => ¬ blank c end) →
  get_hash_string (s ++ tl) (Z.of_nat (length s)) =
  Ret (if decide (Z.even l = true ∧ marked t)
       then (Z.of_nat (length bl + length h + 1),
             Some (match h with [] => 0 | _ => Z.of_nat (length bl) end, l))
       else (-1, None)).
Proof.
  intros s l Hs Hbl Hh Ht Hb. unfold get_hash_string.
  rewrite (hash_loop_run s tl _ 0) by (done || lia). rewrite drop_0. cbn [mbind cres_bind].
  unfold s. change (Z.of_nat 0) with 0. rewrite hash_run_split by done.
  destruct t as [|e t]; [by rewrite decide_False by naive_solver|].
  destruct (decide (mark e)) as [Hm|Hm]; [|by rewrite decide_False by naive_solver].
  assert (El : Z.of_nat (length bl + length h) - match h with [] => 0 | _ => Z.of_nat (length bl) end
               = l) by (unfold l; destruct h; simpl length; lia).
  cbv zeta. rewrite El, land_1_even. destruct (Z.even l); simpl negb; cbn iota.
  - rewrite decide_True by done. f_equal. f_equal. lia.
  - by rewrite decide_False by naive_solver.
Qed.

(** The hash scanner accepts exactly blanks, an even number of hexadecimal digits and
    the mark [x], and stores where the digits are; for a text without digits the blanks
    themselves are taken for the hash, and must be even in number.  Everything else is
    refused with nothing stored. *)
Theorem get_hash_string_correct s tl :
  Forall is_byte s →
  (∃ start l r, hash_text s start l r ∧
     get_hash_string (s ++ tl) (Z.of_nat (length s)) = Ret (r, Some (start, l))) ∨
  ((∀ start l r, ¬ hash_text s start l r) ∧
   get_hash_string (s ++ tl) (Z.of_nat (length s)) = Ret (-1, None)).
Proof.
  intros Hs. destruct (blanks_split s) as (bl & u & -> & Hbl & Hu).
  destruct (hex_split u) as (h & t & -> & Hh & Ht).
  rewrite get_hash_string_split by (done || by intros ->). case_decide as Hok.
  - left. destruct Hok as [He Hm]. destruct t as [|e t]; [done|].
    do 3 eexists. split; [|done]. exists bl, h, e, t. split_and!; try done. by destruct h.
  - right. split; [|done]. intros start l r (bl' & h' & e & rest & E & Hbl' & Hh' & He & _ & Hev & Hl).
    apply Hok.
    assert (Hne : ¬ hex e) by (unfold hex, mark, digit in *; lia).
    assert (Hnb : match h' ++ e :: rest with [] => True | c :: _ => ¬ blank c end).
    { destruct h' as [|c h']; simpl; [unfold mark, blank in *; lia|].
      apply Forall_cons_1 in Hh' as [Hc _]. unfold hex, digit, blank in *. lia. }
    destruct (prefix_unique blank bl bl' _ _ E Hbl Hbl' Hu Hnb) as [-> E'].
    destruct (prefix_unique hex h h' t (e :: rest) E' Hh Hh' Ht Hne) as [-> ->].
    split; [|done]. by destruct h'; destruct Hl as [_ <-].
Qed.

Lemma get_hash_string_correct_witness :
  ((∃ start l r, hash_text [32; 49; 97; 120] start l r ∧
      get_hash_string ([32; 49; 97; 120] ++ [0]) 4 = Ret (r, Some (start, l))) ∨
   ((∀ start l r, ¬ hash_text [32; 49; 97; 120] start l r) ∧
    get_hash_string ([32; 49; 97; 120] ++ [0]) 4 = Ret (-1, None))) ∧
  get_hash_string [32; 49; 97; 120; 0] 4 = Ret (4, Some (1, 2)).
Proof.
  split; [|vm_compute; reflexivity].
  apply (get_hash_string_correct [32; 49; 97; 120] [0]). repeat constructor; discriminate.
Defined.

(** *** Reading back what was written *)
Lemma hash_hexval_hexdigit up n : 0 <= n < 16 → hexval (hexdigit up n) = n.
Proof.
  intros Hn. destruct up.
  - by_range (fun n => hexval (hexdigit true n) =? n) 16 n Hn. lia.
  - by_range (fun n => hexval (hexdigit false n) =? n) 16 n Hn. lia.
Qed.

Lemma hexdigit_hex up n : 0 <= n < 16 → hex (hexdigit up n) ∧ is_byte (hexdigit up n).
Proof.
  intros Hn. unfold hexdigit, hex, digit, is_byte.
  destruct (Z.ltb_spec n 10), up; lia.
Qed.

Lemma nibbles b : is_byte b → 0 <= b / 16 < 16 ∧ 0 <= b mod 16 < 16 ∧ u8 (Z.shiftl (b / 16) 4 + b mod 16) = b.
Proof.
  unfold is_byte. intros Hb. pose proof (Z.div_mod b 16 ltac:(lia)).
  pose proof (Z.mod_pos_bound b 16 ltac:(lia)). split; [nia|]. split; [done|].
  rewrite Z.shiftl_mul_pow2 by lia. rewrite u8_small by nia. lia.
Qed.

Lemma hex_of_hex up bs :
  Forall is_byte bs → Forall hex (hex_of up bs) ∧ Forall is_byte (hex_of up bs) ∧
  length (hex_of up bs) = (2 * length bs)%nat.
Proof.
  induction 1 as [|b bs Hb Hbs (IH1 & IH2 & IH3)]; [done|]. simpl.
  destruct (nibbles b Hb) as (H1 & H2 & _).
  destruct (hexdigit_hex up _ H1), (hexdigit_hex up _ H2).
  rewrite !Forall_cons. split_and!; try done. lia.
Qed.

Lemma bin_loop_ok up bs done buf fuel :
  Forall is_byte (done ++ bs) → (length (done ++ bs) <= length buf)%nat →
  (length bs < fuel)%nat →
  bin_loop fuel (ow done buf) (hex_of up (done ++ bs)) (Z.of_nat (2 * length (done ++ bs)))
    (Z.of_nat (2 * length done)) (Z.of_nat (length done)) = Ret (ow (done ++ bs) buf).
Proof.
  revert done fuel; induction bs as [|b bs IH]; intros done fuel Hb Hl Hf;
    (destruct fuel as [|fuel]; [lia|]); cbn [bin_loop].
  { rewrite app_nil_r. by rewrite (proj2 (Z.ltb_ge _ _)) by lia. }
  rewrite length_app in *. simpl length in *. rewrite (proj2 (Z.ltb_lt _ _)) by lia.
  pose proof Hb as [Hbd Hbb]%Forall_app. apply Forall_cons_1 in Hbb as [Hb1 _].
  destruct (nibbles b Hb1) as (H1 & H2 & E).
  destruct (hexdigit_hex up _ H1) as [_ B1], (hexdigit_hex up _ H2) as [_ B2].
  assert (Eh : hex_of up (done ++ b :: bs)
    = hex_of up done ++ hexdigit up (b / 16) :: hexdigit up (b mod 16) :: hex_of up bs).
  { unfold hex_of. by rewrite bind_app. }
  destruct (hex_of_hex up done Hbd) as (_ & _ & Hlen).
  rewrite Eh at 1. rewrite (rd_nat _ _ (hexdigit up (b / 16))) by (apply lookup_after; lia).
  cbn [mbind cres_bind]. rewrite (rd_tab hash_string_2_bin_table 0 _ eq_refl B1).
  cbn [mbind cres_bind]. fold (hexval (hexdigit up (b / 16))). rewrite hash_hexval_hexdigit by done.
  replace (Z.of_nat (2 * length done) + 1) with (Z.of_nat (S (2 * length done))) by lia.
  rewrite Eh at 1. rewrite (rd_nat _ _ (hexdigit up (b mod 16))).
  2:{ rewrite (cons_middle _ (hex_of up done)), app_assoc. apply lookup_after.
      rewrite length_app. simpl. lia. }
  cbn [mbind cres_bind]. rewrite (rd_tab hash_string_2_bin_table 0 _ eq_refl B2).
  cbn [mbind cres_bind]. fold (hexval (hexdigit up (b mod 16))). rewrite hash_hexval_hexdigit by done.
  rewrite E, ow_wr by lia. cbn [mbind cres_bind].
  replace (done ++ b :: bs) with ((done ++ [b]) ++ bs) in * by (by rewrite <- app_assoc).
  specialize (IH (done ++ [b]) fuel Hb). rewrite !length_app in IH. simpl length in IH.
  replace (Z.of_nat (2 * length done) + 2) with (Z.of_nat (2 * (length done + 1))) by lia.
  replace (Z.of_nat (length done) + 1) with (Z.of_nat (length done + 1)) by lia.
  replace (length done + S (length bs))%nat with (length done + 1 + length bs)%nat by lia.
  rewrite IH; [done|lia..].
Qed.

(** A hash written in hexadecimal with its end mark is found by the scanner and read
    back byte for byte, in either case. *)
Theorem hash_string_roundtrip up bs buf tl :
  Forall is_byte bs → (length bs <= length buf)%nat →
  let t := hex_of up bs in
  let n := Z.of_nat (length t) in
  get_hash_string (t ++ 120 :: tl) (n + 1) = Ret (n + 1, Some (0, n)) ∧
  hash_str_2_bin buf t n = Ret (0, ow bs buf).
Proof.
  intros Hb Hl t n. destruct (hex_of_hex up bs Hb) as (Hh & Ht & Hlen).
  assert (Hev : Z.even n = true)
    by (unfold n, t; rewrite Hlen, Nat2Z.inj_mul, Z.even_mul; reflexivity). split.
  - pose proof (get_hash_string_split [] t [120] tl) as E. cbv zeta in E.
    rewrite !app_nil_l, <- app_assoc, length_app in E. simpl length in E.
    change ([120] ++ tl) with (120 :: tl) in E.
    replace (n + 1) with (Z.of_nat (length t + 1)) by lia. rewrite E; clear E.
    + rewrite decide_True.
      * f_equal. f_equal. by destruct t.
      * split; [|by left]. unfold n in Hev. by destruct t.
    + apply Forall_app. split; [done|]. by repeat constructor.
    + done.
    + done.
    + unfold hex, digit. lia.
    + intros _. unfold blank. lia.
  - unfold hash_str_2_bin. rewrite land_1_even, Hev. simpl negb. cbn iota. unfold n, t.
    rewrite Hlen, Nat2Z.id.
    pose proof (bin_loop_ok up bs [] buf (S (2 * length bs))) as E. rewrite ow_nil in E.
    simpl app in E. change (Z.of_nat (length [])) with 0 in E.
    change (Z.of_nat (2 * length [])) with 0 in E. rewrite E by (done || lia). done.
Qed.

Lemma hash_string_roundtrip_witness :
  let t := hex_of true [0; 171; 255] in
  (get_hash_string (t ++ [120]) (Z.of_nat (length t) + 1)
   = Ret (Z.of_nat (length t) + 1, Some (0, Z.of_nat (length t))) ∧
   hash_str_2_bin [1; 1; 1; 1] t (Z.of_nat (length t)) = Ret (0, ow [0; 171; 255] [1; 1; 1; 1])) ∧
  t = [48; 48; 65; 66; 70; 70].
Proof.
  intros t. split; [|vm_compute; reflexivity].
  apply (hash_string_roundtrip true [0; 171; 255] [1; 1; 1; 1] []).
  - repeat constructor; discriminate.
  - simpl. lia.
Defined.
End HashString.
