(* ===== verification/HeadMatch.v ===== *)
(** * The head match tree

    [libs/head-match-tree]: the table of path prefixes that selects a service for a
    request.  Patterns are kept sorted; [hmt_compile] builds from them a search tree
    over (pattern, depth) cells in four tables; [hmt_match] walks it.  The theorem is
    that the walk finds the longest pattern that begins the string. *)
From S2P Require Import Prelude.
Open Scope Z_scope.

(** A [char] holds an index of a pattern, or -1. *)
Definition i8 (z : Z) : Z := (z + 128) mod 256 - 128.

(** [strncmp] of C strings, given without their terminating zeros. *)
Fixpoint strncmp (a b : list Z) (n : nat) : Z :=
  match n with
  | O => 0
  | S n =>
      let x := hd 0 a in
      let y := hd 0 b in
      if x =? y then if x =? 0 then 0 else strncmp (tl a) (tl b) n else x - y
  end.

(** ** Data *)
Definition HMT_ITEM_MAX : Z := 111.

Record hmt_item_t := Item { pattern : list Z; userdata : Z; malloc_item : bool }.

(** What [malloc] returns holds no values yet. *)
Abbreviation table := (list (option Z)).

Definition rd_cell (t : table) (i : Z) : cres Z :=
  c ← rd t i;
  match c with Some v => Ret v | None => Fault end.

(** [cnt] is the number of items. *)
Record hmt_t := Hmt {
  max : Z;
  enter_point : Z;
  higher_jump_table : option table;
  lower_jump_table : option table;
  someone_else_matched_table : option table;
  next_level_enter_point_table : option table;
  patterns_length : option table;
  pattern_len_max : Z;
  pattern_len_max_shift : Z;
  items : list hmt_item_t
}.

Definition cnt (pt : hmt_t) : Z := Z.of_nat (length (items pt)).

(** [items[i].pattern[depth]] *)
Definition byte_at (its : list hmt_item_t) (i depth : Z) : cres Z :=
  it ← rd its i;
  rd (pattern it ++ [0]) depth.

(** ** [new.c] *)
Definition hmt_free_content (pt : hmt_t) : hmt_t :=
  Hmt (max pt) (-1) None None None None None (pattern_len_max pt) (pattern_len_max_shift pt)
    (items pt).

Inductive hmt_scale := HMT_SCALE_16 | HMT_SCALE_32 | HMT_SCALE_64 | HMT_SCALE_128 | HMT_SCALE_512
| HMT_SCALE_OTHER.

Definition scale_values (scale : hmt_scale) : Z * Z :=
  match scale with
  | HMT_SCALE_16 => (16, 4)
  | HMT_SCALE_32 => (32, 5)
  | HMT_SCALE_64 => (64, 6)
  | HMT_SCALE_128 => (128, 7)
  | HMT_SCALE_512 => (512, 9)
  | HMT_SCALE_OTHER => (128, 7)
  end.

(** [ok] says whether [malloc] succeeds. *)
Definition hmt_new2 (ok : bool) (mx : Z) (scale : hmt_scale) : option hmt_t :=
  if HMT_ITEM_MAX <=? mx then None
  else if ok then
    let '(l, sh) := scale_values scale in
    Some (Hmt mx (-1) None None None None None l sh [])
  else None.

Definition hmt_new (ok : bool) (mx : Z) : option hmt_t := hmt_new2 ok mx HMT_SCALE_32.

(** ** [add.c] *)
Definition hmt_item_compare (a b : hmt_item_t) (len_max : Z) : Z :=
  strncmp (pattern a) (pattern b) (Z.to_nat len_max).

(** The first loop: where the new item goes, or [None] for a pattern that is there. *)
Fixpoint add_pos (its : list hmt_item_t) (k : hmt_item_t) (len_max : Z) : option nat :=
  match its with
  | [] => Some O
  | it :: its =>
      let r := hmt_item_compare k it len_max in
      if 0 <? r then Some O
      else if r <? 0 then S <$> add_pos its k len_max
      else None
  end.

(** The second loop moves the items from [i] on one place up. *)
Definition hmt_add_item (pt : hmt_t) (pat : list Z) (ud : Z) (malloced : bool) : Z * hmt_t :=
  if max pt <=? cnt pt then (-1, pt)
  else
    let k := Item pat ud malloced in
    match add_pos (items pt) k (pattern_len_max pt) with
    | None => (-3, pt)
    | Some i =>
        (0, Hmt (max pt) (enter_point pt) (higher_jump_table pt) (lower_jump_table pt)
              (someone_else_matched_table pt) (next_level_enter_point_table pt)
              (patterns_length pt) (pattern_len_max pt) (pattern_len_max_shift pt)
              (take i (items pt) ++ k :: drop i (items pt)))
    end.

Definition hmt_add (pt : hmt_t) (pat : list Z) (ud : Z) : Z * hmt_t :=
  let l := Z.of_nat (strnlen pat (Z.to_nat (pattern_len_max pt))) in
  if (pattern_len_max pt <=? l) || (l <=? 0) then (-2, pt)
  else hmt_add_item pt pat ud false.

Definition hmt_add2 (ok : bool) (pt : hmt_t) (pat : list Z) (ud : Z) : Z * hmt_t :=
  let l := Z.of_nat (strnlen pat (Z.to_nat (pattern_len_max pt))) in
  if (pattern_len_max pt <=? l) || (l <=? 0) then (-2, pt)
  else if ok then hmt_add_item pt pat ud true
  else (-4, pt).

(** ** [compile.c] *)

(** The two loops of [hmt_find_center_group_border]. *)
Fixpoint group_down (fuel : nat) (its : list hmt_item_t) (depth start c i s : Z) : cres Z :=
  match fuel with
  | O => NoFuel
  | S fuel =>
      if start <=? i then
        b ← byte_at its i depth;
        if b =? c then group_down fuel its depth start c (i - 1) i else Ret s
      else Ret s
  end.

Fixpoint group_up (fuel : nat) (its : list hmt_item_t) (depth fin c i e : Z) : cres Z :=
  match fuel with
  | O => NoFuel
  | S fuel =>
      if i <=? fin then
        b ← byte_at its i depth;
        if b =? c then group_up fuel its depth fin c (i + 1) i else Ret e
      else Ret e
  end.

Definition hmt_find_center_group_border (its : list hmt_item_t) (depth start fin : Z)
    : cres (Z * Z) :=
  let m := Z.shiftr (start + fin) 1 in
  c ← byte_at its m depth;
  s ← group_down (S (length its)) its depth start c (m - 1) m;
  e ← group_up (S (length its)) its depth fin c (m + 1) m;
  Ret (i8 s, i8 e).

(** The three tables it fills. *)
Record tables := Tables { t_higher : table; t_lower : table; t_next : table }.

Section Fill.
Context (its : list hmt_item_t) (len_max shift : Z).

(** The recursion goes one deeper or to a smaller group. *)
Fixpoint hmt_fill_jump_tables (fuel : nat) (depth start fin : Z) (T : tables)
    : cres (Z * tables) :=
  match fuel with
  | O => NoFuel
  | S fuel =>
      if len_max <=? depth then Ret (start, T)
      else
        c ← byte_at its start depth;
        if c =? 0 then Ret (start, T)
        else
          b ← hmt_find_center_group_border its depth start fin;
          let '(bs, be) := (b : Z * Z) in
          r ← (if bs =? start then Ret (-1, T)
               else hmt_fill_jump_tables fuel depth start (i8 (bs - 1)) T);
          let '(higher, T) := (r : Z * tables) in
          r ← (if be =? fin then Ret (-1, T)
               else hmt_fill_jump_tables fuel depth (i8 (be + 1)) fin T);
          let '(lower, T) := (r : Z * tables) in
          let idx := Z.shiftl bs shift + depth in
          th ← wr (t_higher T) idx (Some higher);
          tl ← wr (t_lower T) idx (Some lower);
          r ← hmt_fill_jump_tables fuel (depth + 1) bs be (Tables th tl (t_next T));
          let '(next, T) := (r : Z * tables) in
          tn ← wr (t_next T) idx (Some next);
          Ret (bs, Tables (t_higher T) (t_lower T) tn)
  end.

Definition hmt_fill_patterns_length_table : table :=
  (fun it => Some (Z.of_nat (strnlen (pattern it) (Z.to_nat len_max)))) <$> its.

(** The inner loop: the first later pattern of at most [i] bytes that begins [p]. *)
Fixpoint first_shorter (lengthes : table) (p : list Z) (i : Z) (k : nat)
    (rest : list hmt_item_t) : cres Z :=
  match rest with
  | [] => Ret (-1)
  | it :: rest =>
      lk ← rd_cell lengthes (Z.of_nat k);
      if i + 1 <=? lk then first_shorter lengthes p i (S k) rest
      else if memcmp p (pattern it) (Z.to_nat lk) =? 0 then Ret (Z.of_nat k)
      else first_shorter lengthes p i (S k) rest
  end.

(** The outer loop over the bytes of pattern [idx], [n] of them left. *)
Fixpoint shorter_matches (lengthes : table) (idx : nat) (p : list Z) (i : nat) (n : nat)
    (matches : table) : cres table :=
  match n with
  | O => Ret matches
  | S n =>
      m ← first_shorter lengthes p (Z.of_nat i) (S idx) (drop (S idx) its);
      matches ← wr matches (Z.shiftl (Z.of_nat idx) shift + Z.of_nat i) (Some (i8 m));
      shorter_matches lengthes idx p (S i) n matches
  end.

Definition hmt_find_someone_else_matched (lengthes : table) (idx : nat) (matches : table)
    : cres table :=
  it ← rd its (Z.of_nat idx);
  l ← rd_cell lengthes (Z.of_nat idx);
  shorter_matches lengthes idx (pattern it) 0 (Z.to_nat l) matches.

Fixpoint fill_someone_else (lengthes : table) (idx n : nat) (matches : table) : cres table :=
  match n with
  | O => Ret matches
  | S n =>
      matches ← hmt_find_someone_else_matched lengthes idx matches;
      fill_someone_else lengthes (S idx) n matches
  end.

Definition hmt_fill_someone_else_matched_table (lengthes matches : table) : cres table :=
  fill_someone_else lengthes 0 (length its) matches.
End Fill.

(** [ok i] says whether the [i]-th [malloc] succeeds. *)
Definition hmt_compile (ok : nat → bool) (pt : hmt_t) : cres (Z * hmt_t) :=
  let pt := hmt_free_content pt in
  let len_max := pattern_len_max pt in
  let shift := pattern_len_max_shift pt in
  let jump_table_size := Z.shiftl (cnt pt) shift in
  if (jump_table_size =? 0) || negb (forallb ok (seq 0 5)) then Ret (-1, pt)
  else
    let blank := replicate (Z.to_nat jump_table_size) None in
    let lengthes := hmt_fill_patterns_length_table (items pt) len_max in
    someone ← hmt_fill_someone_else_matched_table (items pt) shift lengthes blank;
    r ← hmt_fill_jump_tables (items pt) len_max shift
          (S (Z.to_nat (len_max * (cnt pt + 1) + cnt pt))) 0 0 (i8 (cnt pt - 1))
          (Tables blank blank blank);
    let '(enter, T) := (r : Z * tables) in
    Ret (0, Hmt (max pt) (i8 enter) (Some (t_higher T)) (Some (t_lower T)) (Some someone)
              (Some (t_next T)) (Some lengthes) len_max shift (items pt)).

(** ** [match.c] *)

(** [*table], a fault if it was not allocated. *)
Definition the {A} (o : option A) : cres A := match o with Some a => Ret a | None => Fault end.

(** The pattern matched: its [userdata] and its length. *)
Fixpoint match_loop (fuel : nat) (pt : hmt_t) (string : list Z) (depth m : Z)
    : cres (option (Z * Z)) :=
  match fuel with
  | O => NoFuel
  | S fuel =>
      if depth <? pattern_len_max pt then
        c ← rd (string ++ [0]) depth;
        pc ← byte_at (items pt) m depth;
        let cell := Z.shiftl m (pattern_len_max_shift pt) + depth in
        let found n :=
          it ← rd (items pt) n;
          lengthes ← the (patterns_length pt);
          l ← rd_cell lengthes n;
          Ret (Some (userdata it, l)) in
        let find_someone_else :=
          t ← the (someone_else_matched_table pt);
          n ← rd_cell t cell;
          if n =? -1 then Ret None else found n in
        let go (o : option table) (d : Z) :=
          t ← the o;
          n ← rd_cell t cell;
          if n =? -1 then find_someone_else else match_loop fuel pt string d n in
        if pc =? 0 then found m
        else if schar c =? schar pc then go (next_level_enter_point_table pt) (depth + 1)
        else if schar pc <? schar c then go (higher_jump_table pt) depth
        else go (lower_jump_table pt) depth
      else Ret None
  end.

Definition hmt_match (pt : hmt_t) (string : list Z) : cres (option (Z * Z)) :=
  if enter_point pt =? -1 then Ret None
  else match_loop (S (Z.to_nat (pattern_len_max pt * (cnt pt + 1) + cnt pt))) pt string 0
         (enter_point pt).

(** ** The order of the patterns *)
Fixpoint lex_gt (a b : list Z) : Prop :=
  match a, b with
  | [], _ => False
  | _ :: _, [] => True
  | x :: a, y :: b => y < x ∨ (x = y ∧ lex_gt a b)
  end.

Lemma lex_gt_trans a b c : lex_gt a b → lex_gt b c → lex_gt a c.
Proof.
  revert b c; induction a as [|x a IH]; intros [|y b] [|z c]; simpl; try done.
  intros [?|[-> Hab]] [?|[-> Hbc]]; [left; lia|by left|by left|].
  right. split; [done|]. by eapply IH.
Qed.

(** A pattern of plain characters, shorter than [n]. *)
Definition plain_pattern (n : nat) (p : list Z) : Prop :=
  Forall (fun b => 0 < b < 128) p ∧ (0 < length p < n)%nat.

Lemma strncmp_spec a b n :
  Forall (fun x => 0 < x < 128) a → Forall (fun x => 0 < x < 128) b →
  (length a < n)%nat → (length b < n)%nat →
  (0 < strncmp a b n ↔ lex_gt a b) ∧ (strncmp a b n < 0 ↔ lex_gt b a) ∧
  (strncmp a b n = 0 ↔ a = b).
Proof.
  revert a b; induction n as [|n IH]; intros a b Ha Hb Hla Hlb; [lia|].
  destruct a as [|x a], b as [|y b]; cbn [strncmp hd tl lex_gt].
  - simpl. naive_solver lia.
  - apply Forall_cons_1 in Hb as [Hy _]. destruct (Z.eqb_spec 0 y); [lia|]. naive_solver lia.
  - apply Forall_cons_1 in Ha as [Hx _]. destruct (Z.eqb_spec x 0); [lia|]. naive_solver lia.
  - apply Forall_cons_1 in Ha as [Hx Ha]. apply Forall_cons_1 in Hb as [Hy Hb].
    simpl in Hla, Hlb. destruct (Z.eqb_spec x y) as [->|Hne].
    + destruct (Z.eqb_spec y 0); [lia|].
      destruct (IH a b Ha Hb ltac:(lia) ltac:(lia)) as (-> & -> & ->). naive_solver lia.
    + naive_solver lia.
Qed.

(** The byte at a depth; zero at the end. *)
Definition bt (p : list Z) (d : nat) : Z := nth d p 0.

Lemma bt_zero p d n : plain_pattern n p → (d <= length p)%nat → bt p d = 0 → d = length p.
Proof.
  intros [Hp _] Hd E. unfold bt in E. destruct (decide (d < length p)%nat); [|lia].
  destruct (lookup_lt_is_Some_2 p d) as [x Hx]; [done|].
  rewrite (nth_lookup_Some _ _ _ _ Hx) in E. rewrite Forall_lookup in Hp.
  specialize (Hp _ _ Hx). lia.
Qed.

Lemma bt_range p d n : plain_pattern n p → 0 <= bt p d < 128.
Proof.
  intros [Hp _]. unfold bt. destruct (decide (d < length p)%nat).
  - destruct (lookup_lt_is_Some_2 p d) as [x Hx]; [done|].
    rewrite (nth_lookup_Some _ _ _ _ Hx). rewrite Forall_lookup in Hp. specialize (Hp _ _ Hx). lia.
  - rewrite nth_overflow by lia. lia.
Qed.

(** Among patterns with a common beginning the next byte decides. *)
Lemma lex_gt_bt a b d :
  lex_gt a b → take d a = take d b → (d <= length a)%nat → (d <= length b)%nat →
  Forall (fun x => 0 < x < 128) a → Forall (fun x => 0 < x < 128) b →
  bt b d <= bt a d ∧ bt a d ≠ 0.
Proof.
  unfold bt. revert a b; induction d as [|d IH]; intros a b Hg Ht Ha Hb Pa Pb.
  - destruct a as [|x a]; [done|]. apply Forall_cons_1 in Pa as [? _].
    destruct b as [|y b]; simpl in *; lia.
  - destruct a as [|x a], b as [|y b]; simpl in Ha, Hb; try lia. simpl in Ht.
    injection Ht as -> Ht. apply Forall_cons_1 in Pa as [_ Pa]. apply Forall_cons_1 in Pb as [_ Pb].
    destruct Hg as [?|[_ Hg]]; [lia|]. simpl. apply IH; done || lia.
Qed.

Lemma lex_gt_prefix a b : a `prefix_of` b → a ≠ b → lex_gt b a.
Proof.
  intros [k ->] Hne. induction a as [|x a IH]; simpl.
  - destruct k; [done|done].
  - right. split; [done|]. apply IH. intros E. apply Hne. by rewrite E at 1.
Qed.

Lemma lex_gt_irrefl a : ¬ lex_gt a a.
Proof. induction a as [|x a IH]; simpl; [tauto|]. intros [?|[_ ?]]; [lia|done]. Qed.

Lemma i8_index z : -1 <= z < 111 → i8 z = z.
Proof. intros H. unfold i8. rewrite Z.mod_small; lia. Qed.

(** ** A table of patterns *)
Section Compiled.
Context (its : list hmt_item_t) (W sh : nat).
Hypothesis HW : W = (2 ^ sh)%nat.
Hypothesis Hpat : Forall (fun it => plain_pattern W (pattern it)) its.
Hypothesis Hsort : ∀ i j a b, its !! i = Some a → its !! j = Some b → (i < j)%nat →
  lex_gt (pattern a) (pattern b).
Hypothesis Hcnt : (length its < 111)%nat.

Lemma item_plain i it : its !! i = Some it → plain_pattern W (pattern it).
Proof. intros H. rewrite Forall_lookup in Hpat. by eapply Hpat. Qed.

Lemma byte_at_ok i it d :
  its !! i = Some it → (d <= length (pattern it))%nat →
  byte_at its (Z.of_nat i) (Z.of_nat d) = Ret (bt (pattern it) d).
Proof.
  intros Hi Hd. unfold byte_at. rewrite (rd_nat _ _ it) by done. simpl. apply rd_nat.
  unfold bt. destruct (decide (d < length (pattern it))%nat) as [Hlt|Hge].
  - destruct (lookup_lt_is_Some_2 (pattern it) d) as [x Hx]; [done|].
    rewrite lookup_app_l by done. by rewrite Hx, (nth_lookup_Some _ _ _ _ Hx).
  - replace d with (length (pattern it)) by lia. rewrite lookup_app_r, Nat.sub_diag by lia.
    by rewrite nth_overflow by lia.
Qed.

(** A group of items with a common beginning of [d] bytes. *)
Definition group (d s e : nat) (pre : list Z) : Prop :=
  length pre = d ∧ (s < e)%nat ∧ (e <= length its)%nat ∧
  ∀ i it, (s <= i < e)%nat → its !! i = Some it →
    take d (pattern it) = pre ∧ (d <= length (pattern it))%nat.

Lemma group_sub d s e s' e' pre :
  group d s e pre → (s <= s')%nat → (s' < e')%nat → (e' <= e)%nat → group d s' e' pre.
Proof. intros (? & ? & ? & H) Hs Hse He. split_and!; try lia. intros i it Hi. apply H. lia. Qed.

Lemma group_item d s e pre i :
  group d s e pre → (s <= i < e)%nat →
  ∃ it, its !! i = Some it ∧ take d (pattern it) = pre ∧ (d <= length (pattern it))%nat ∧
        plain_pattern W (pattern it).
Proof.
  intros (_ & _ & He & H) Hi. destruct (lookup_lt_is_Some_2 its i) as [it Hit]; [lia|].
  exists it. destruct (H i it Hi Hit). eauto using item_plain.
Qed.

Lemma group_mono d s e pre i j a b :
  group d s e pre → (s <= i)%nat → (i < j)%nat → (j < e)%nat →
  its !! i = Some a → its !! j = Some b →
  bt (pattern b) d <= bt (pattern a) d ∧ bt (pattern a) d ≠ 0.
Proof.
  intros Hg Hi Hij Hj Ha Hb.
  destruct (group_item d s e pre i Hg ltac:(lia)) as (a' & Ha' & Ta & La & [Pa _]).
  destruct (group_item d s e pre j Hg ltac:(lia)) as (b' & Hb' & Tb & Lb & [Pb _]).
  assert (a' = a) as -> by congruence. assert (b' = b) as -> by congruence.
  apply lex_gt_bt; [by eapply Hsort|congruence|done..].
Qed.

(** ** The border of the middle group *)
Lemma group_down_ok d s e pre c fuel i k :
  group d s e pre → (s <= i)%nat → (i <= k)%nat → (k < e)%nat → (i < fuel)%nat →
  (∀ j it, (i <= j <= k)%nat → its !! j = Some it → bt (pattern it) d = c) →
  ∃ bs, group_down fuel its (Z.of_nat d) (Z.of_nat s) c (Z.of_nat i - 1) (Z.of_nat i)
        = Ret (Z.of_nat bs) ∧ (s <= bs <= i)%nat ∧
    (∀ j it, (bs <= j <= k)%nat → its !! j = Some it → bt (pattern it) d = c) ∧
    (bs = s ∨ ∃ it, its !! (bs - 1)%nat = Some it ∧ bt (pattern it) d ≠ c).
Proof.
  intros Hg. revert i; induction fuel as [|fuel IH]; intros i Hs Hik Hk Hf Hc; [lia|].
  cbn [group_down]. destruct (Z.leb_spec (Z.of_nat s) (Z.of_nat i - 1)) as [Hle|Hgt].
  2:{ exists i. split; [done|]. split; [lia|]. split; [done|]. left. lia. }
  replace (Z.of_nat i - 1) with (Z.of_nat (i - 1)) by lia.
  destruct (group_item d s e pre (i - 1) Hg ltac:(lia)) as (it & Hit & _ & Hl & _).
  rewrite (byte_at_ok _ it) by done. cbn [mbind cres_bind].
  destruct (Z.eqb_spec (bt (pattern it) d) c) as [E|E].
  - destruct (IH (i - 1)%nat) as (bs & E1 & Hbs & Hall & Hend); try lia.
    { intros j it' Hj Hj'. destruct (decide (j = i - 1)%nat) as [->|]; [congruence|].
      apply (Hc j); [lia|done]. }
    exists bs. split; [done|]. split; [lia|]. done.
  - exists i. split; [done|]. split; [lia|]. split; [done|]. right. eauto.
Qed.

Lemma group_up_ok d s e pre c fuel i k :
  group d s e pre → (s <= k)%nat → (k <= i)%nat → (i < e)%nat → (e - i <= fuel)%nat →
  (∀ j it, (k <= j <= i)%nat → its !! j = Some it → bt (pattern it) d = c) →
  ∃ be, group_up fuel its (Z.of_nat d) (Z.of_nat e - 1) c (Z.of_nat i + 1) (Z.of_nat i)
        = Ret (Z.of_nat be - 1) ∧ (i < be <= e)%nat ∧
    (∀ j it, (k <= j < be)%nat → its !! j = Some it → bt (pattern it) d = c) ∧
    (be = e ∨ ∃ it, its !! be = Some it ∧ bt (pattern it) d ≠ c).
Proof.
  intros Hg. revert i; induction fuel as [|fuel IH]; intros i Hs Hik Hk Hf Hc; [lia|].
  cbn [group_up]. destruct (Z.leb_spec (Z.of_nat i + 1) (Z.of_nat e - 1)) as [Hle|Hgt].
  2:{ exists (S i). split; [f_equal; lia|]. split; [lia|]. split.
      - intros j it Hj. apply Hc. lia.
      - left. lia. }
  replace (Z.of_nat i + 1) with (Z.of_nat (S i)) by lia.
  destruct (group_item d s e pre (S i) Hg ltac:(lia)) as (it & Hit & _ & Hl & _).
  rewrite (byte_at_ok _ it) by done. cbn [mbind cres_bind].
  destruct (Z.eqb_spec (bt (pattern it) d) c) as [E|E].
  - destruct (IH (S i)) as (be & E1 & Hbe & Hall & Hend); try lia.
    { intros j it' Hj Hj'. destruct (decide (j = S i)%nat) as [->|]; [congruence|].
      apply (Hc j); [lia|done]. }
    exists be. split; [done|]. split; [lia|]. done.
  - exists (S i). split; [f_equal; lia|]. split; [lia|]. split.
    + intros j it' Hj. apply Hc. lia.
    + right. eauto.
Qed.

(** The middle group: larger bytes before it, smaller ones behind. *)
Lemma border_ok d s e pre :
  group d s e pre →
  (∀ it, its !! s = Some it → bt (pattern it) d ≠ 0) →
  ∃ bs be c, hmt_find_center_group_border its (Z.of_nat d) (Z.of_nat s) (Z.of_nat e - 1)
             = Ret (Z.of_nat bs, Z.of_nat be - 1) ∧
    (s <= bs)%nat ∧ (bs < be)%nat ∧ (be <= e)%nat ∧ 0 < c ∧
    (∀ i it, (s <= i < bs)%nat → its !! i = Some it → c < bt (pattern it) d) ∧
    (∀ i it, (bs <= i < be)%nat → its !! i = Some it → bt (pattern it) d = c) ∧
    (∀ i it, (be <= i < e)%nat → its !! i = Some it → bt (pattern it) d < c).
Proof.
  intros Hg Hs0. pose proof Hg as (_ & Hse & He & _).
  set (m := ((s + (e - 1)) / 2)%nat).
  assert (Hm : (s <= m < e)%nat).
  { unfold m. split; [apply Nat.div_le_lower_bound; lia|apply Nat.div_lt_upper_bound; lia]. }
  assert (Em : Z.shiftr (Z.of_nat s + (Z.of_nat e - 1)) 1 = Z.of_nat m).
  { rewrite Z.shiftr_div_pow2 by lia. unfold m. rewrite Nat2Z.inj_div. f_equal; lia. }
  destruct (group_item d s e pre m Hg Hm) as (im & Him & _ & Hl & Hpm).
  set (c := bt (pattern im) d).
  assert (Hone : ∀ j it, (m <= j <= m)%nat → its !! j = Some it → bt (pattern it) d = c).
  { intros j it Hj Hit. assert (j = m) as -> by lia. unfold c. congruence. }
  destruct (group_down_ok d s e pre c (S (length its)) m m Hg) as (bs & E1 & Hbs & Hc1 & Hend1);
    [lia..|done|].
  destruct (group_up_ok d s e pre c (S (length its)) m m Hg) as (be & E2 & Hbe & Hc2 & Hend2);
    [lia..|done|].
  assert (Hc0 : c ≠ 0).
  { destruct (decide (m = s)) as [E|]; [subst m; rewrite E in Him; by apply Hs0|].
    destruct (decide (m = e - 1)%nat) as [E|].
    - exfalso. unfold m in *. assert (s = e - 1)%nat; [|lia].
      pose proof (Nat.div_mod (s + (e - 1)) 2 ltac:(lia)).
      pose proof (Nat.mod_upper_bound (s + (e - 1)) 2 ltac:(lia)). lia.
    - destruct (group_item d s e pre (S m) Hg ltac:(lia)) as (im' & Him' & _).
      by destruct (group_mono d s e pre m (S m) im im' Hg) as [_ ?]; [lia..|done|done|]. }
  exists bs, be, c. split_and!; try lia.
  - unfold hmt_find_center_group_border. rewrite Em, (byte_at_ok _ im) by done.
    cbn [mbind cres_bind]. fold c. rewrite E1. cbn [mbind cres_bind]. rewrite E2.
    cbn [mbind cres_bind]. by rewrite !i8_index by lia.
  - pose proof (bt_range (pattern im) d W Hpm). unfold c in *. lia.
  - intros i it Hi Hit. destruct Hend1 as [->|(itb & Hitb & Hne)]; [lia|].
    destruct (group_item d s e pre bs Hg ltac:(lia)) as (ib & Hib & _).
    destruct (group_mono d s e pre (bs - 1) bs itb ib Hg) as [Hge _]; [lia..|done|done|].
    rewrite (Hc1 bs ib) in Hge by (lia || done).
    destruct (decide (i = bs - 1)%nat) as [->|]; [assert (it = itb) as -> by congruence; lia|].
    destruct (group_mono d s e pre i (bs - 1) it itb Hg) as [Hge' _]; [lia..|done|done|]. lia.
  - intros i it Hi Hit. destruct (decide (i <= m)%nat); [apply (Hc1 i)|apply (Hc2 i)]; done || lia.
  - intros i it Hi Hit. destruct Hend2 as [->|(itb & Hitb & Hne)]; [lia|].
    destruct (group_item d s e pre (be - 1) Hg ltac:(lia)) as (ib & Hib & _).
    destruct (group_mono d s e pre (be - 1) be ib itb Hg) as [Hge _]; [lia..|done|done|].
    rewrite (Hc2 (be - 1)%nat ib) in Hge by (lia || done).
    destruct (decide (i = be)) as [->|]; [assert (it = itb) as -> by congruence; lia|].
    destruct (group_mono d s e pre be i itb it Hg) as [Hge' _]; [lia..|done|done|]. lia.
Qed.

(** ** The search tree in the tables *)

(** The value of a cell. *)
Definition cell (t : table) (i d : nat) (v : Z) : Prop := t !! (i * W + d)%nat = Some (Some v).

(** The tables hold, at the root [r], the tree of the items from [s] to before [e], which
    have [d] bytes in common; [sub] is a branch that may be empty. *)
Inductive tree (T : tables) : nat → nat → nat → nat → Prop :=
| Leaf d i it : its !! i = Some it → length (pattern it) = d → tree T d i (S i) i
| Node d s e bs be c h l n :
    (d < W)%nat → (s <= bs)%nat → (bs < be)%nat → (be <= e)%nat → 0 < c →
    (∀ i it, (s <= i < bs)%nat → its !! i = Some it → c < bt (pattern it) d) →
    (∀ i it, (bs <= i < be)%nat → its !! i = Some it → bt (pattern it) d = c) →
    (∀ i it, (be <= i < e)%nat → its !! i = Some it → bt (pattern it) d < c) →
    cell (t_higher T) bs d h → cell (t_lower T) bs d l → cell (t_next T) bs d (Z.of_nat n) →
    sub T d s bs h → sub T d be e l → tree T (S d) bs be n → tree T d s e bs
with sub (T : tables) : nat → nat → nat → Z → Prop :=
| Empty d s : sub T d s s (-1)
| Branch d s e r : (s < e)%nat → tree T d s e r → sub T d s e (Z.of_nat r).

Scheme tree_mut := Minimality for tree Sort Prop
  with sub_mut := Minimality for sub Sort Prop.
Combined Scheme tree_sub_ind from tree_mut, sub_mut.

(** The tables agree on a cell. *)
Definition same_at (T T' : tables) (i d : nat) : Prop :=
  t_higher T' !! (i * W + d)%nat = t_higher T !! (i * W + d)%nat ∧
  t_lower T' !! (i * W + d)%nat = t_lower T !! (i * W + d)%nat ∧
  t_next T' !! (i * W + d)%nat = t_next T !! (i * W + d)%nat.

(** Only the cells of the items themselves, from their depth on, matter. *)
Lemma tree_agree T T' :
  (∀ d s e r, tree T d s e r →
     (∀ i k, (s <= i < e)%nat → (d <= k < W)%nat → same_at T T' i k) → tree T' d s e r) ∧
  (∀ d s e v, sub T d s e v →
     (∀ i k, (s <= i < e)%nat → (d <= k < W)%nat → same_at T T' i k) → sub T' d s e v).
Proof.
  apply tree_sub_ind.
  - intros d i it Hi Hl _. by eapply Leaf.
  - intros d s e bs be c h l n Hd Hs Hb He Hc H1 H2 H3 Ch Cl Cn _ IH1 _ IH2 _ IH3 Hag.
    destruct (Hag bs d ltac:(lia) ltac:(lia)) as (E1 & E2 & E3).
    eapply (Node T' d s e bs be c h l n); try done; unfold cell in *; try congruence.
    + apply IH1. intros i k Hi Hk. apply Hag; lia.
    + apply IH2. intros i k Hi Hk. apply Hag; lia.
    + apply IH3. intros i k Hi Hk. apply Hag; lia.
  - intros d s _. apply Empty.
  - intros d s e r Hse _ IH Hag. by apply Branch, IH.
Qed.

(** Cells are numbered without collision. *)
Lemma cell_index i d : Z.shiftl (Z.of_nat i) (Z.of_nat sh) + Z.of_nat d = Z.of_nat (i * W + d).
Proof.
  rewrite Z.shiftl_mul_pow2 by lia. rewrite HW, Nat2Z.inj_add, Nat2Z.inj_mul, Nat2Z.inj_pow. done.
Qed.

Lemma cell_inj i d i' d' :
  (d < W)%nat → (d' < W)%nat → (i * W + d)%nat = (i' * W + d')%nat → i = i' ∧ d = d'.
Proof.
  intros Hd Hd' E. assert (i = i').
  { destruct (Nat.lt_trichotomy i i') as [?|[?|?]]; [exfalso; nia|done|exfalso; nia]. }
  subst. split; [done|lia].
Qed.

Definition sized (T : tables) : Prop :=
  length (t_higher T) = (length its * W)%nat ∧ length (t_lower T) = (length its * W)%nat ∧
  length (t_next T) = (length its * W)%nat.

(** Outside the cells of the group nothing is written. *)
Definition untouched (T T' : tables) (d s e : nat) : Prop :=
  ∀ i k, (k < W)%nat → ¬ ((s <= i < e)%nat ∧ (d <= k)%nat) → same_at T T' i k.

Lemma same_at_refl T i k : same_at T T i k.
Proof. done. Qed.

Lemma same_at_trans T1 T2 T3 i k : same_at T1 T2 i k → same_at T2 T3 i k → same_at T1 T3 i k.
Proof. intros (?&?&?) (?&?&?). split_and!; congruence. Qed.

(** A write to one cell is not seen at the others. *)
Lemma lookup_other (t : table) i d i' d' v :
  (d < W)%nat → (d' < W)%nat → (i, d) ≠ (i', d') →
  <[(i * W + d)%nat := v]> t !! (i' * W + d')%nat = t !! (i' * W + d')%nat.
Proof.
  intros Hd Hd' Hne. rewrite list_lookup_insert_ne; [done|]. intros E.
  destruct (cell_inj i d i' d' Hd Hd' E) as [-> ->]. done.
Qed.

Lemma cell_bound i d : (i < length its)%nat → (d < W)%nat → (i * W + d < length its * W)%nat.
Proof. nia. Qed.

(** The work a group needs: one more byte costs less than a round over all items. *)
Definition work (d s e : nat) : nat := ((W - d) * S (length its) + (e - s))%nat.

(** The tables with the cells of one node written. *)
Definition put_jumps (i d : nat) (h l : Z) (T : tables) : tables :=
  Tables (<[(i * W + d)%nat := Some h]> (t_higher T)) (<[(i * W + d)%nat := Some l]> (t_lower T))
    (t_next T).
Definition put_next (i d : nat) (n : Z) (T : tables) : tables :=
  Tables (t_higher T) (t_lower T) (<[(i * W + d)%nat := Some n]> (t_next T)).

Lemma put_jumps_other i d h l T i' d' :
  (d < W)%nat → (d' < W)%nat → (i, d) ≠ (i', d') → same_at T (put_jumps i d h l T) i' d'.
Proof. intros Hd Hd' Hne. split_and!; [by apply lookup_other..|done]. Qed.

Lemma put_next_other i d n T i' d' :
  (d < W)%nat → (d' < W)%nat → (i, d) ≠ (i', d') → same_at T (put_next i d n T) i' d'.
Proof. intros Hd Hd' Hne. split_and!; [done..|by apply lookup_other]. Qed.

Lemma sized_put_jumps i d h l T : sized T → sized (put_jumps i d h l T).
Proof. intros (?&?&?). split_and!; simpl; by rewrite ?length_insert. Qed.

Lemma sized_put_next i d n T : sized T → sized (put_next i d n T).
Proof. intros (?&?&?). split_and!; simpl; by rewrite ?length_insert. Qed.

(** A node put together from its three branches. *)
Lemma finish_node d s e bs be c h l n T T1 T2 T4 :
  (d < W)%nat → (s <= bs)%nat → (bs < be)%nat → (be <= e)%nat → (e <= length its)%nat → 0 < c →
  (∀ i it, (s <= i < bs)%nat → its !! i = Some it → c < bt (pattern it) d) →
  (∀ i it, (bs <= i < be)%nat → its !! i = Some it → bt (pattern it) d = c) →
  (∀ i it, (be <= i < e)%nat → its !! i = Some it → bt (pattern it) d < c) →
  sub T1 d s bs h → untouched T T1 d s bs →
  sub T2 d be e l → untouched T1 T2 d be e → sized T2 →
  tree T4 (S d) bs be n → untouched (put_jumps bs d h l T2) T4 (S d) bs be → sized T4 →
  let T5 := put_next bs d (Z.of_nat n) T4 in
  tree T5 d s e bs ∧ sized T5 ∧ untouched T T5 d s e.
Proof.
  intros Hd Hs Hb He Hle Hc H1 H2 H3 Hh U1 Hl U2 Z2 Ht U4 Z4 T5.
  assert (Hbs : (bs * W + d < length its * W)%nat) by (apply cell_bound; lia).
  assert (A4 : ∀ i k, (k < W)%nat → ¬ (bs <= i < be ∧ d <= k)%nat → same_at T2 T5 i k).
  { intros i k Hk Hout. eapply same_at_trans; [apply (put_jumps_other bs d h l)|
      eapply same_at_trans; [apply U4|apply put_next_other]]; try done; try lia.
    all: intros [= -> ->]; lia. }
  split_and!; [|by apply sized_put_next|].
  - destruct (U4 bs d Hd ltac:(lia)) as (E1 & E2 & _).
    eapply (Node T5 d s e bs be c h l n); try done; unfold cell; simpl.
    + rewrite E1. simpl. apply list_lookup_insert_eq. rewrite (proj1 Z2). done.
    + rewrite E2. simpl. apply list_lookup_insert_eq. rewrite (proj1 (proj2 Z2)). done.
    + apply list_lookup_insert_eq. rewrite (proj2 (proj2 Z4)). done.
    + apply (proj2 (tree_agree T1 T5)); [done|]. intros i k Hi Hk.
      eapply same_at_trans; [apply U2|apply A4]; lia.
    + apply (proj2 (tree_agree T2 T5)); [done|]. intros i k Hi Hk. apply A4; lia.
    + apply (proj1 (tree_agree T4 T5)); [done|]. intros i k Hi Hk.
      apply put_next_other; [lia|lia|]. intros [= -> ->]. lia.
  - intros i k Hk Hout. eapply same_at_trans; [apply U1|
      eapply same_at_trans; [apply U2|apply A4]]; try done; lia.
Qed.

(** One byte deeper: the group has that byte in common too. *)
Lemma group_deeper d s e pre bs be c :
  group d s e pre → (s <= bs)%nat → (bs < be)%nat → (be <= e)%nat → 0 < c →
  (∀ i it, (bs <= i < be)%nat → its !! i = Some it → bt (pattern it) d = c) →
  group (S d) bs be (pre ++ [c]).
Proof.
  intros (Hl & _ & He & H) Hs Hb Hbe Hc Hall. split_and!; [rewrite length_app; simpl; lia|done|lia|].
  intros i it Hi Hit. destruct (H i it ltac:(lia) Hit) as [Ht Hd].
  specialize (Hall i it Hi Hit). unfold bt in Hall.
  destruct (decide (d < length (pattern it))%nat) as [Hlt|Hge].
  2:{ rewrite nth_overflow in Hall by lia. lia. }
  split; [|lia]. destruct (lookup_lt_is_Some_2 (pattern it) d Hlt) as [x Hx].
  rewrite (nth_lookup_Some _ _ _ _ Hx) in Hall. subst x.
  by rewrite (take_S_r _ _ _ Hx), Ht.
Qed.

Lemma group_depth d s e pre : group d s e pre → (d < W)%nat.
Proof.
  intros Hg. pose proof Hg as (_ & Hse & _).
  destruct (group_item d s e pre s Hg ltac:(lia)) as (it & _ & _ & Hd & [_ Hl]). lia.
Qed.

(** What filling in a group does. *)
Definition fills (fuel d s e : nat) (T : tables) : Prop :=
  ∃ r T', hmt_fill_jump_tables its (Z.of_nat W) (Z.of_nat sh) fuel (Z.of_nat d) (Z.of_nat s)
            (Z.of_nat e - 1) T = Ret (Z.of_nat r, T') ∧
    (s <= r < e)%nat ∧ tree T' d s e r ∧ sized T' ∧ untouched T T' d s e.

(** A branch: nothing for an empty group. *)
Lemma branch_ok fuel d s e z z' T :
  ((s < e)%nat → fills fuel d s e T) → (s <= e)%nat → sized T →
  z = Z.of_nat s → z' = Z.of_nat e - 1 → ∀ b : bool, (b = true ↔ s = e) →
  ∃ h T', (if b then Ret (-1, T)
           else hmt_fill_jump_tables its (Z.of_nat W) (Z.of_nat sh) fuel (Z.of_nat d) z z' T)
          = Ret (h, T') ∧ sub T' d s e h ∧ sized T' ∧ untouched T T' d s e.
Proof.
  intros IH Hse HT -> -> [] Hb.
  - exists (-1), T. assert (s = e) as -> by (by apply Hb). split_and!; [done|apply Empty|done|].
    intros i k Hk _. apply same_at_refl.
  - assert (s ≠ e) by (intros E; by apply Hb in E).
    destruct IH as (r & T' & E & Hr & Ht & Hz & Hu); [lia|].
    exists (Z.of_nat r), T'. split_and!; [done|by apply Branch; [lia|]|done|done].
Qed.

Lemma fill_ok fuel d s e pre T :
  group d s e pre → sized T → (work d s e < fuel)%nat → fills fuel d s e T.
Proof.
  revert d s e pre T; induction fuel as [|fuel IH]; intros d s e pre T Hg HT Hf; [lia|].
  pose proof (group_depth _ _ _ _ Hg) as Hd. pose proof Hg as (Hpre & Hse & He & _).
  unfold fills. cbn [hmt_fill_jump_tables]. rewrite (proj2 (Z.leb_gt _ _)) by lia.
  destruct (group_item d s e pre s Hg ltac:(lia)) as (it & Hit & _ & Hl & Hp).
  rewrite (byte_at_ok _ it) by done. cbn [mbind cres_bind].
  destruct (Z.eqb_spec (bt (pattern it) d) 0) as [E0|E0].
  { exists s, T. assert (e = S s) as ->.
    { destruct (decide (e = S s)); [done|exfalso].
      destruct (group_item d s e pre (S s) Hg ltac:(lia)) as (it' & Hit' & _).
      by destruct (group_mono d s e pre s (S s) it it' Hg) as [_ ?]; [lia..|done|done|]. }
    split_and!; [done|lia|lia| |done|].
    - eapply Leaf; [done|]. symmetry. by eapply bt_zero.
    - intros i k Hk _. apply same_at_refl. }
  destruct (border_ok d s e pre Hg) as (bs & be & c & -> & Hs & Hb & Hbe & Hc & H1 & H2 & H3).
  { intros it' Hit'. by assert (it' = it) as -> by congruence. }
  cbn [mbind cres_bind].
  assert (Hwork : ∀ s' e', (s <= s')%nat → (s' < e')%nat → (e' <= e)%nat → (s < s' ∨ e' < e)%nat →
    (work d s' e' < fuel)%nat) by (intros s' e' ? ? ? ?; unfold work in *; lia).
  edestruct (branch_ok fuel d s bs (Z.of_nat s) (i8 (Z.of_nat bs - 1)) T) as (h & T1 & -> & Sh & Z1 & U1);
    [|exact Hs|exact HT|done|by rewrite i8_index by lia|..].
  { intros Hlt. eapply (IH d s bs pre); [by eapply group_sub; [done|lia..]|done|]. apply Hwork; lia. }
  { rewrite Z.eqb_eq. lia. }
  cbn [mbind cres_bind].
  edestruct (branch_ok fuel d be e (i8 (Z.of_nat be - 1 + 1)) (Z.of_nat e - 1) T1) as (l & T2 & -> & Sl & Z2 & U2);
    [|lia|exact Z1|by rewrite i8_index by lia; lia|done|..].
  { intros Hlt. eapply (IH d be e pre); [by eapply group_sub; [done|lia..]|done|]. apply Hwork; lia. }
  { rewrite Z.eqb_eq. lia. }
  cbn [mbind cres_bind]. rewrite cell_index.
  assert (Hidx : (bs * W + d < length its * W)%nat) by (apply cell_bound; lia).
  rewrite (wr_nat (t_higher T2)) by (rewrite (proj1 Z2); lia). cbn [mbind cres_bind].
  rewrite (wr_nat (t_lower T2)) by (rewrite (proj1 (proj2 Z2)); lia). cbn [mbind cres_bind].
  fold (put_jumps bs d h l T2). replace (Z.of_nat d + 1) with (Z.of_nat (S d)) by lia.
  edestruct (IH (S d) bs be (pre ++ [c]) (put_jumps bs d h l T2)) as (n & T4 & -> & Hn & Ht & Z4 & U4).
  { by eapply group_deeper; try done. }
  { by apply sized_put_jumps. }
  { unfold work in *. nia. }
  cbn [mbind cres_bind]. rewrite (wr_nat (t_next T4)) by (rewrite (proj2 (proj2 Z4)); lia). cbn [mbind cres_bind].
  exists bs, (put_next bs d (Z.of_nat n) T4).
  destruct (finish_node d s e bs be c h l n T T1 T2 T4) as (? & ? & ?); try done.
  split_and!; try done; lia.
Qed.

(** ** Shorter patterns *)
Definition lens : table := hmt_fill_patterns_length_table its (Z.of_nat W).

Lemma plain_cstring n p : plain_pattern n p → cstring p.
Proof. intros [Hp _]. eapply Forall_impl; [exact Hp|]. simpl. lia. Qed.

Lemma lens_ok i it :
  its !! i = Some it → lens !! i = Some (Some (Z.of_nat (length (pattern it)))).
Proof.
  intros Hi. unfold lens, hmt_fill_patterns_length_table. rewrite list_lookup_fmap, Hi. simpl.
  do 3 f_equal. pose proof (item_plain _ _ Hi) as Hp.
  rewrite strnlen_cstring by (by eapply plain_cstring). destruct Hp as [_ Hl]. lia.
Qed.

Lemma rd_lens i it :
  its !! i = Some it → rd_cell lens (Z.of_nat i) = Ret (Z.of_nat (length (pattern it))).
Proof. intros Hi. unfold rd_cell. by rewrite (rd_nat _ _ _ (lens_ok _ _ Hi)). Qed.

(** Pattern [k] is an alternative to [p] after [i] bytes of it have matched. *)
Definition alternative (p : list Z) (i k : nat) : Prop :=
  ∃ it, its !! k = Some it ∧ (length (pattern it) <= i)%nat ∧ pattern it `prefix_of` p.

(** [m] is the first alternative behind [idx], or -1. *)
Definition first_alternative (idx : nat) (p : list Z) (i : nat) (m : Z) : Prop :=
  (m = -1 ∧ ∀ k, (idx < k)%nat → ¬ alternative p i k) ∨
  ∃ k, m = Z.of_nat k ∧ (idx < k)%nat ∧ alternative p i k ∧
       ∀ k', (idx < k' < k)%nat → ¬ alternative p i k'.

Lemma memcmp_prefix p q :
  (length q <= length p)%nat → memcmp p q (length q) = 0 ↔ q `prefix_of` p.
Proof.
  intros Hl. rewrite memcmp_eq by lia. rewrite (take_ge q) by lia. split.
  - intros E. rewrite <- E. apply prefix_take.
  - intros [k ->]. apply take_app_length.
Qed.

Lemma first_shorter_ok p i k rest :
  drop k its = rest → (i < length p)%nat →
  ∃ m, first_shorter lens p (Z.of_nat i) k rest = Ret m ∧
    ((m = -1 ∧ ∀ k', (k <= k')%nat → ¬ alternative p i k') ∨
     ∃ k', m = Z.of_nat k' ∧ (k <= k')%nat ∧ alternative p i k' ∧
           ∀ k'', (k <= k'' < k')%nat → ¬ alternative p i k'').
Proof.
  intros E Hi. revert k E; induction rest as [|it rest IH]; intros k E; cbn [first_shorter].
  { exists (-1). split; [done|]. left. split; [done|]. intros k' Hk' (it & Hit & _).
    apply drop_nil_length in E. apply lookup_lt_Some in Hit. lia. }
  pose proof (drop_lookup_cons _ _ _ _ E) as (Hit & E1 & _).
  rewrite (rd_lens _ _ Hit). cbn [mbind cres_bind].
  assert (Hnot : ¬ alternative p i k → ∃ m, first_shorter lens p (Z.of_nat i) (S k) rest = Ret m ∧
    ((m = -1 ∧ ∀ k', (k <= k')%nat → ¬ alternative p i k') ∨
     ∃ k', m = Z.of_nat k' ∧ (k <= k')%nat ∧ alternative p i k' ∧
           ∀ k'', (k <= k'' < k')%nat → ¬ alternative p i k'')).
  { intros Hn. destruct (IH (S k) E1) as (m & Em & Hm). exists m. split; [done|].
    assert (Hk : ∀ k', (S k <= k')%nat ∨ k' = k ∨ (k' < k)%nat) by lia.
    destruct Hm as [[-> Hm]|(k' & -> & Hk' & Ha & Hm)]; [left|right].
    - split; [done|]. intros k' Hle. destruct (Hk k') as [?|[->|?]]; [by apply Hm|done|lia].
    - exists k'. split_and!; [done|lia|done|]. intros k'' Hle.
      destruct (Hk k'') as [?|[->|?]]; [apply Hm; lia|done|lia]. }
  destruct (Z.leb_spec (Z.of_nat i + 1) (Z.of_nat (length (pattern it)))) as [Hlong|Hshort].
  { apply Hnot. intros (it' & Hit' & Hl & _). assert (it' = it) as -> by congruence. lia. }
  rewrite Nat2Z.id. destruct (Z.eqb_spec (memcmp p (pattern it) (length (pattern it))) 0) as [Em|Em];
    rewrite memcmp_prefix in Em by lia.
  - exists (Z.of_nat k). split; [done|]. right. exists k. split_and!; [done|lia| |lia].
    exists it. split_and!; [done|lia|done].
  - apply Hnot. intros (it' & Hit' & _ & Hp). by assert (it' = it) as -> by congruence.
Qed.

Lemma shorter_matches_ok idx it i n mt :
  its !! idx = Some it → (i + n)%nat = length (pattern it) →
  length mt = (length its * W)%nat →
  ∃ mt', shorter_matches its (Z.of_nat sh) lens idx (pattern it) i n mt = Ret mt' ∧
    length mt' = length mt ∧
    (∀ j, (i <= j < i + n)%nat → ∃ m, cell mt' idx j m ∧ first_alternative idx (pattern it) j m) ∧
    (∀ i' j', (j' < W)%nat → ¬ (i' = idx ∧ (i <= j')%nat) →
       mt' !! (i' * W + j')%nat = mt !! (i' * W + j')%nat).
Proof.
  intros Hit. revert i mt; induction n as [|n IH]; intros i mt Hin Hl; cbn [shorter_matches].
  { exists mt. split_and!; [done|done|lia|done]. }
  destruct (first_shorter_ok (pattern it) i (S idx) (drop (S idx) its) eq_refl ltac:(lia))
    as (m & -> & Hm). cbn [mbind cres_bind]. rewrite cell_index.
  pose proof (lookup_lt_Some _ _ _ Hit) as Hidx. destruct (item_plain _ _ Hit) as [_ HlW].
  assert (Hmr : -1 <= m < 111).
  { destruct Hm as [[-> _]|(k & -> & _ & (itk & Hk & _) & _)]; [lia|].
    apply lookup_lt_Some in Hk. lia. }
  rewrite i8_index by done. pose proof (cell_bound idx i Hidx ltac:(lia)) as Hcb.
  rewrite wr_nat by lia. cbn [mbind cres_bind].
  destruct (IH (S i) (<[(idx * W + i)%nat := Some m]> mt)) as (mt' & -> & Hl' & Hin' & Hout);
    [lia|by rewrite length_insert|].
  rewrite length_insert in Hl'. exists mt'. split_and!; [done|done| |].
  - intros j Hj. destruct (decide (j = i)) as [->|]; [|apply Hin'; lia].
    exists m. split.
    + unfold cell. rewrite Hout by lia. apply list_lookup_insert_eq. lia.
    + destruct Hm as [[-> Hm]|(k & -> & Hk & Ha & Hm)]; [left|right].
      * split; [done|]. intros k Hk. apply Hm. lia.
      * exists k. split_and!; [done|lia|done|]. intros k' Hk'. apply Hm. lia.
  - intros i' j' Hj' Hno. rewrite Hout by lia. apply lookup_other; [lia|done|].
    intros [= -> ->]. lia.
Qed.

(** The table of shorter patterns is complete. *)
Definition shorter_table (mt : table) : Prop :=
  ∀ idx it j, its !! idx = Some it → (j < length (pattern it))%nat →
    ∃ m, cell mt idx j m ∧ first_alternative idx (pattern it) j m.

Lemma fill_someone_else_ok n idx mt :
  (idx + n)%nat = length its → length mt = (length its * W)%nat →
  ∃ mt', fill_someone_else its (Z.of_nat sh) lens idx n mt = Ret mt' ∧
    length mt' = length mt ∧
    (∀ i it j, (idx <= i)%nat → its !! i = Some it → (j < length (pattern it))%nat →
       ∃ m, cell mt' i j m ∧ first_alternative i (pattern it) j m) ∧
    (∀ i j, (i < idx)%nat → (j < W)%nat → mt' !! (i * W + j)%nat = mt !! (i * W + j)%nat).
Proof.
  revert idx mt; induction n as [|n IH]; intros idx mt Hn Hl; cbn [fill_someone_else].
  { exists mt. split_and!; try done. intros i it j Hi Hit. apply lookup_lt_Some in Hit. lia. }
  destruct (lookup_lt_is_Some_2 its idx ltac:(lia)) as [it Hit].
  unfold hmt_find_someone_else_matched. rewrite (rd_nat _ _ _ Hit). cbn [mbind cres_bind].
  rewrite (rd_lens _ _ Hit). cbn [mbind cres_bind]. rewrite Nat2Z.id.
  destruct (shorter_matches_ok idx it 0 (length (pattern it)) mt Hit eq_refl Hl)
    as (mt1 & -> & Hl1 & Hin1 & Hout1). cbn [mbind cres_bind].
  destruct (IH (S idx) mt1) as (mt' & -> & Hl' & Hin & Hout); [lia|lia|].
  exists mt'. split_and!; [done|lia| |].
  - intros i it' j Hi Hit' Hj. destruct (decide (i = idx)) as [->|]; [|apply Hin; done || lia].
    assert (it' = it) as -> by congruence. destruct (item_plain _ _ Hit) as [_ HlW].
    destruct (Hin1 j ltac:(lia)) as (m & Hc & Hm). exists m. split; [|done].
    unfold cell in *. rewrite Hout by lia. done.
  - intros i j Hi Hj. rewrite Hout by lia. apply Hout1; lia.
Qed.

(** ** Matching *)

(** [r] tells the longest pattern that begins [string]. *)
Definition longest_match (string : list Z) (r : option (Z * Z)) : Prop :=
  match r with
  | None => ∀ it, it ∈ its → ¬ pattern it `prefix_of` string
  | Some (ud, l) =>
      ∃ it, it ∈ its ∧ pattern it `prefix_of` string ∧ ud = userdata it ∧
            l = Z.of_nat (length (pattern it)) ∧
            ∀ it', it' ∈ its → pattern it' `prefix_of` string →
                   (length (pattern it') <= length (pattern it))%nat
  end.

(** A longer pattern comes before the patterns that begin it. *)
Lemma index_of_longer i j a b :
  its !! i = Some a → its !! j = Some b → pattern b `prefix_of` pattern a →
  (length (pattern b) < length (pattern a))%nat → (i < j)%nat.
Proof.
  intros Ha Hb Hp Hl.
  assert (Hg : lex_gt (pattern a) (pattern b)) by (apply lex_gt_prefix; [done|intros E; rewrite E in Hl; lia]).
  destruct (Nat.lt_trichotomy i j) as [?|[->|Hlt]]; [done|exfalso..].
  - assert (a = b) as -> by congruence. lia.
  - pose proof (Hsort _ _ _ _ Hb Ha Hlt) as Hg'. apply (lex_gt_irrefl (pattern a)).
    by eapply lex_gt_trans.
Qed.

Lemma prefix_of_take (p s : list Z) d :
  p `prefix_of` s → (length p <= d)%nat → p `prefix_of` take d s.
Proof.
  intros [k ->] Hl. rewrite take_app_ge by done. by apply prefix_app_r.
Qed.

Section Match.
Context (pt : hmt_t) (T : tables) (mt : table) (string : list Z).
Hypothesis Hits : items pt = its.
Hypothesis HlenW : pattern_len_max pt = Z.of_nat W.
Hypothesis Hsh : pattern_len_max_shift pt = Z.of_nat sh.
Hypothesis Hhi : higher_jump_table pt = Some (t_higher T).
Hypothesis Hlo : lower_jump_table pt = Some (t_lower T).
Hypothesis Hnx : next_level_enter_point_table pt = Some (t_next T).
Hypothesis Hse : someone_else_matched_table pt = Some mt.
Hypothesis Hlens : patterns_length pt = Some lens.
Hypothesis Hmt : shorter_table mt.
Hypothesis Hstr : cstring string.

Lemma rd_cell_ok t i d v :
  cell t i d v → rd_cell t (Z.shiftl (Z.of_nat i) (Z.of_nat sh) + Z.of_nat d) = Ret v.
Proof. intros H. unfold rd_cell. rewrite cell_index. by rewrite (rd_nat _ _ _ H). Qed.

(** The answer for item [k]. *)
Lemma found_ok k it :
  its !! k = Some it →
  (it ← rd (items pt) (Z.of_nat k);
   lengthes ← the (patterns_length pt);
   l ← rd_cell lengthes (Z.of_nat k);
   Ret (Some (userdata it, l))) = Ret (Some (userdata it, Z.of_nat (length (pattern it)))).
Proof.
  intros Hk. rewrite Hits, (rd_nat _ _ _ Hk). cbn [mbind cres_bind]. rewrite Hlens.
  cbn [the mbind cres_bind]. by rewrite (rd_lens _ _ Hk).
Qed.

(** After a mismatch at a node, the table of shorter patterns has the answer. *)
Lemma someone_else_best bs ib d m :
  its !! bs = Some ib → (d < length (pattern ib))%nat →
  take d (pattern ib) = take d string →
  (∀ it, it ∈ its → pattern it `prefix_of` string → (length (pattern it) <= d)%nat) →
  first_alternative bs (pattern ib) d m →
  ∃ r, (if m =? -1 then Ret None
        else
          it ← rd (items pt) m;
          lengthes ← the (patterns_length pt);
          l ← rd_cell lengthes m;
          Ret (Some (userdata it, l))) = Ret r ∧ longest_match string r.
Proof.
  intros Hib Hd Ht Hshort Hm.
  assert (Halt : ∀ it, it ∈ its → pattern it `prefix_of` string →
    ∃ k, its !! k = Some it ∧ (bs < k)%nat ∧ alternative (pattern ib) d k).
  { intros it Hin Hp. apply list_elem_of_lookup in Hin as [k Hk]. exists k.
    specialize (Hshort it (list_elem_of_lookup_2 _ _ _ Hk) Hp).
    assert (Hpi : pattern it `prefix_of` pattern ib).
    { eapply (prefix_of_take _ _ d) in Hp; [|done]. rewrite <- Ht in Hp.
      etrans; [exact Hp|auto with esq]. }
    split_and!; [done| |by exists it]. eapply index_of_longer; [done..|lia]. }
  destruct Hm as [[-> Hm]|(k & -> & Hk & (it & Hit & Hl & Hp) & Hm)].
  - exists None. split; [done|]. intros it Hin Hp.
    destruct (Halt it Hin Hp) as (k & _ & Hk & Ha). by eapply Hm.
  - rewrite (proj2 (Z.eqb_neq _ _)) by lia. rewrite (found_ok k it Hit).
    eexists. split; [done|]. exists it. split_and!; try done; [eauto with esq| |].
    + eapply (prefix_of_take _ _ d) in Hp; [|done]. rewrite Ht in Hp.
      etrans; [exact Hp|auto with esq].
    + intros it' Hin' Hp'. destruct (Halt it' Hin' Hp') as (k' & Hk' & Hbk & Ha).
      destruct (decide (length (pattern it') <= length (pattern it))%nat); [done|exfalso].
      apply (Hm k'); [|done]. split; [done|]. destruct Ha as (it'' & Hit'' & _ & Hpi').
      assert (it'' = it') as -> by congruence.
      eapply (index_of_longer k' k); [done..| |lia].
      destruct (prefix_weak_total _ _ _ Hp Hpi') as [?|Hq]; [done|].
      apply prefix_length in Hq. lia.
Qed.

(** The patterns that may still match more than [d] bytes are in the group. *)
Definition in_range (d s e : nat) : Prop :=
  ∀ k it, its !! k = Some it → pattern it `prefix_of` string → (d < length (pattern it))%nat →
    (s <= k < e)%nat.

Lemma prefix_bt p d : p `prefix_of` string → (d < length p)%nat → bt p d = bt string d.
Proof.
  intros [k ->] Hd. unfold bt. by rewrite app_nth1.
Qed.

Lemma bt_string d : 0 <= bt string d < 256.
Proof.
  unfold bt. destruct (decide (d < length string)%nat).
  - destruct (lookup_lt_is_Some_2 string d) as [x Hx]; [done|].
    rewrite (nth_lookup_Some _ _ _ _ Hx). unfold cstring in Hstr. rewrite Forall_lookup in Hstr.
    specialize (Hstr _ _ Hx). lia.
  - rewrite nth_overflow by lia. lia.
Qed.

Lemma rd_string d : (d <= length string)%nat → rd (string ++ [0]) (Z.of_nat d) = Ret (bt string d).
Proof.
  intros Hd. apply rd_nat. unfold bt. destruct (decide (d < length string)%nat) as [Hlt|Hge].
  - destruct (lookup_lt_is_Some_2 string d) as [x Hx]; [done|].
    rewrite lookup_app_l by done. by rewrite Hx, (nth_lookup_Some _ _ _ _ Hx).
  - replace d with (length string) by lia. rewrite lookup_app_r, Nat.sub_diag by lia.
    by rewrite nth_overflow by lia.
Qed.

Lemma take_S_bt d : (d < length string)%nat → take (S d) string = take d string ++ [bt string d].
Proof.
  intros Hd. destruct (lookup_lt_is_Some_2 string d Hd) as [x Hx]. unfold bt.
  by rewrite (take_S_r _ _ _ Hx), (nth_lookup_Some _ _ _ _ Hx).
Qed.

(** Where a node sends a byte of the string that differs from its own. *)
Lemma range_higher d s e bs be c :
  in_range d s e →
  (∀ i it, (bs <= i < be)%nat → its !! i = Some it → bt (pattern it) d = c) →
  (∀ i it, (be <= i < e)%nat → its !! i = Some it → bt (pattern it) d < c) →
  0 < c → c < schar (bt string d) → in_range d s bs.
Proof.
  intros Hr H2 H3 Hc Hgt k it Hk Hp Hl. pose proof (Hr k it Hk Hp Hl) as Hse'.
  pose proof (prefix_bt _ _ Hp Hl) as Eb. pose proof (bt_string d). unfold schar in Hgt.
  split; [lia|]. destruct (decide (k < bs)%nat); [done|exfalso].
  destruct (Z.ltb_spec (bt string d) 128); [|lia].
  destruct (decide (k < be)%nat).
  - specialize (H2 k it ltac:(lia) Hk). lia.
  - specialize (H3 k it ltac:(lia) Hk). lia.
Qed.

Lemma range_lower d s e bs be c :
  in_range d s e →
  (∀ i it, (s <= i < bs)%nat → its !! i = Some it → c < bt (pattern it) d) →
  (∀ i it, (bs <= i < be)%nat → its !! i = Some it → bt (pattern it) d = c) →
  0 < c < 128 → schar (bt string d) < c → in_range d be e.
Proof.
  intros Hr H1 H2 Hc Hgt k it Hk Hp Hl. pose proof (Hr k it Hk Hp Hl) as Hse'.
  pose proof (prefix_bt _ _ Hp Hl) as Eb. pose proof (bt_string d).
  pose proof (bt_range _ d W (item_plain _ _ Hk)) as Hb. unfold schar in Hgt.
  split; [|lia]. destruct (decide (be <= k)%nat); [done|exfalso].
  destruct (Z.ltb_spec (bt string d) 128); [|lia].
  destruct (decide (k < bs)%nat).
  - specialize (H1 k it ltac:(lia) Hk). lia.
  - specialize (H2 k it ltac:(lia) Hk). lia.
Qed.

Lemma range_same d s e bs be c :
  in_range d s e →
  (∀ i it, (s <= i < bs)%nat → its !! i = Some it → c < bt (pattern it) d) →
  (∀ i it, (be <= i < e)%nat → its !! i = Some it → bt (pattern it) d < c) →
  bt string d = c → in_range (S d) bs be.
Proof.
  intros Hr H1 H3 Hc k it Hk Hp Hl. pose proof (Hr k it Hk Hp ltac:(lia)) as Hse'.
  pose proof (prefix_bt _ d Hp ltac:(lia)) as Eb.
  split; [destruct (decide (bs <= k)%nat); [done|exfalso]|destruct (decide (k < be)%nat); [done|exfalso]].
  - specialize (H1 k it ltac:(lia) Hk). lia.
  - specialize (H3 k it ltac:(lia) Hk). lia.
Qed.

(** Nothing is left in the group. *)
Lemma range_empty d s : in_range d s s →
  ∀ it, it ∈ its → pattern it `prefix_of` string → (length (pattern it) <= d)%nat.
Proof.
  intros Hr it [k Hk]%list_elem_of_lookup Hp. destruct (decide (length (pattern it) <= d)%nat); [done|].
  specialize (Hr k it Hk Hp ltac:(lia)). lia.
Qed.

Lemma schar_eq a b : 0 <= a < 256 → 0 <= b < 256 → schar a = schar b → a = b.
Proof. unfold schar. intros ? ? E. repeat csplit_in E; lia. Qed.

(** One step of the walk: the branch is empty and the answer is at hand, or it is taken. *)
Lemma go_ok fuel bs ib d d' s e v o t :
  its !! bs = Some ib → (d < length (pattern ib))%nat → take d (pattern ib) = take d string →
  o = Some t → cell t bs d v →
  (v = -1 → in_range d s s) →
  (∀ r, v = Z.of_nat r → ∃ a, match_loop fuel pt string d' (Z.of_nat r) = Ret a ∧ longest_match string a) →
  (sub T d s e v ∨ ∃ r, v = Z.of_nat r) →
  ∃ a, (t ← the o;
        n ← rd_cell t (Z.shiftl (Z.of_nat bs) (Z.of_nat sh) + Z.of_nat d);
        if n =? -1 then
          t ← the (someone_else_matched_table pt);
          n ← rd_cell t (Z.shiftl (Z.of_nat bs) (Z.of_nat sh) + Z.of_nat d);
          if n =? -1 then Ret None
          else
            it ← rd (items pt) n;
            lengthes ← the (patterns_length pt);
            l ← rd_cell lengthes n;
            Ret (Some (userdata it, l))
        else match_loop fuel pt string d' n) = Ret a ∧ longest_match string a.
Proof.
  intros Hib Hd Ht -> Hc Hempty Hgo Hv. cbn [the mbind cres_bind]. rewrite (rd_cell_ok _ _ _ _ Hc).
  cbn [mbind cres_bind]. destruct (Z.eqb_spec v (-1)) as [E|E].
  - rewrite Hse. cbn [the mbind cres_bind]. destruct (Hmt bs ib d Hib Hd) as (m & Hcm & Hm).
    rewrite (rd_cell_ok _ _ _ _ Hcm). cbn [mbind cres_bind].
    eapply someone_else_best; try done. by eapply range_empty, Hempty.
  - destruct Hv as [Hs|(r & ->)]; [|by apply Hgo]. inversion Hs; subst; [done|]. by apply Hgo.
Qed.

Lemma match_loop_ok fuel d s e m :
  tree T d s e m → group d s e (take d string) → in_range d s e → (work d s e < fuel)%nat →
  ∃ r, match_loop fuel pt string (Z.of_nat d) (Z.of_nat m) = Ret r ∧ longest_match string r.
Proof.
  revert d s e m; induction fuel as [|fuel IH]; intros d s e m Htree Hg Hr Hf; [lia|].
  pose proof (group_depth _ _ _ _ Hg) as HdW. pose proof Hg as (Hlt & _ & _ & _).
  rewrite length_take in Hlt.
  cbn [match_loop]. rewrite HlenW, (proj2 (Z.ltb_lt _ _)) by lia.
  rewrite rd_string by lia. cbn [mbind cres_bind]. rewrite Hits.
  inversion Htree as [? ? it Hit Hl|? ? ? ? be c h l n _ Hs Hb Hbe Hc H1 H2 H3 Ch Cl Cn Sh Sl Tn];
    subst.
  - rewrite (byte_at_ok _ it) by done. cbn [mbind cres_bind].
    unfold bt at 1. rewrite nth_overflow by lia. cbn [Z.eqb].
    pose proof (found_ok m it Hit) as Ef. rewrite Hits in Ef. rewrite Ef.
    eexists. split; [done|]. exists it.
    destruct (proj2 (proj2 (proj2 Hg)) m it ltac:(lia) Hit) as [Et _].
    rewrite take_ge in Et by lia. split_and!; try done; [eauto with esq| |].
    + rewrite Et. auto with esq.
    + intros it' [k Hk]%list_elem_of_lookup Hp.
      destruct (decide (length (pattern it') <= length (pattern it))%nat); [done|exfalso].
      specialize (Hr k it' Hk Hp ltac:(lia)). assert (k = m) as -> by lia.
      assert (it' = it) as -> by congruence. lia.
  - destruct (group_item _ _ _ _ m Hg ltac:(lia)) as (ib & Hib & Ht & Hd & Hp).
    pose proof (H2 m ib ltac:(lia) Hib) as Ec.
    assert (Hdl : (d < length (pattern ib))%nat).
    { destruct (decide (d < length (pattern ib))%nat); [done|]. unfold bt in Ec.
      rewrite nth_overflow in Ec by lia. lia. }
    rewrite (byte_at_ok _ ib), Ec by done. cbn [mbind cres_bind].
    pose proof (bt_range _ d W Hp) as Hcr. rewrite Ec in Hcr.
    rewrite (proj2 (Z.eqb_neq c 0)) by lia. rewrite Hsh. pose proof (bt_string d) as Hsr.
    rewrite <- Hits.
    assert (Hwork : ∀ s' e', (s <= s')%nat → (s' < e')%nat → (e' <= e)%nat → (s < s' ∨ e' < e)%nat →
      (work d s' e' < fuel)%nat) by (intros s' e' ? ? ? ?; unfold work in *; lia).
    assert (Esc : schar c = c) by (unfold schar; csplit; lia).
    destruct (Z.eqb_spec (schar (bt string d)) (schar c)) as [E|E];
      [|destruct (Z.ltb_spec (schar c) (schar (bt string d))) as [Hgt|Hle]].
    + apply schar_eq in E; [|lia..].
      assert (Hds : (d < length string)%nat).
      { destruct (decide (d < length string)%nat); [done|]. unfold bt in E.
        rewrite nth_overflow in E by lia. lia. }
      eapply (go_ok fuel m ib d _ s e); try done; [lia| |right; eauto].
      intros r Er. assert (r = n) as -> by lia.
      replace (Z.of_nat d + 1) with (Z.of_nat (S d)) by lia. apply (IH (S d) m be n); [done| | |].
      * rewrite take_S_bt, E by done. eapply group_deeper; try done.
      * by eapply range_same.
      * unfold work in *. pose proof (proj1 (proj2 (proj2 Hg))). nia.
    + eapply (go_ok fuel m ib d _ s m); try done; [| |by left].
      * intros ->. inversion Sh; subst; [|lia]. eapply range_higher; try done. lia.
      * intros r ->. inversion Sh as [|? ? ? r' Hlt' Hr']; subst; [lia|].
        assert (r' = r) as -> by lia.
        apply (IH d s m r); [done|by eapply group_sub; [done|lia..]|eapply range_higher; try done; lia|].
        apply Hwork; lia.
    + eapply (go_ok fuel m ib d _ be e); try done; [| |by left].
      * intros ->. inversion Sl; subst; [|lia]. eapply range_lower; try done; lia.
      * intros r ->. inversion Sl as [|? ? ? r' Hlt' Hr']; subst; [lia|].
        assert (r' = r) as -> by lia.
        apply (IH d be e r); [done|by eapply group_sub; [done|lia..]|eapply range_lower; try done; lia|].
        apply Hwork; lia.
Qed.
End Match.
End Compiled.

(** ** The tree as a whole *)

(** The patterns are plain, of the length allowed, and in strictly descending order. *)
Record wf (pt : hmt_t) : Prop := {
  wf_scale : ∃ sh, pattern_len_max_shift pt = Z.of_nat sh ∧
                   pattern_len_max pt = Z.of_nat (2 ^ sh);
  wf_plain : Forall (fun it => plain_pattern (Z.to_nat (pattern_len_max pt)) (pattern it)) (items pt);
  wf_sorted i j a b : items pt !! i = Some a → items pt !! j = Some b → (i < j)%nat →
                      lex_gt (pattern a) (pattern b);
  wf_cnt : max pt < HMT_ITEM_MAX ∧ (cnt pt <= max pt ∨ items pt = [])
}.

Lemma hmt_new2_wf ok mx scale pt : hmt_new2 ok mx scale = Some pt → wf pt.
Proof.
  unfold hmt_new2. destruct (Z.leb_spec HMT_ITEM_MAX mx); [done|]. destruct ok; [|done]. destruct (scale_values scale) as [l sh] eqn:E.
  intros [= <-]. split; simpl; [|constructor|done|by auto].
  destruct scale; injection E as <- <-; [exists 4%nat|exists 5%nat|exists 6%nat|exists 7%nat
    |exists 9%nat|exists 7%nat]; done.
Qed.

(** The tree has been compiled: its tables hold the search tree and the shorter patterns. *)
Record compiled (pt : hmt_t) (W sh r : nat) (T : tables) (mt : table) : Prop := {
  co_len : pattern_len_max pt = Z.of_nat W;
  co_shift : pattern_len_max_shift pt = Z.of_nat sh;
  co_enter : enter_point pt = Z.of_nat r;
  co_higher : higher_jump_table pt = Some (t_higher T);
  co_lower : lower_jump_table pt = Some (t_lower T);
  co_next : next_level_enter_point_table pt = Some (t_next T);
  co_someone : someone_else_matched_table pt = Some mt;
  co_lens : patterns_length pt = Some (lens (items pt) W);
  co_tree : tree (items pt) W T 0 0 (length (items pt)) r;
  co_shorter : shorter_table (items pt) W mt
}.

Lemma wf_facts pt :
  wf pt → items pt ≠ [] → ∃ sh, pattern_len_max_shift pt = Z.of_nat sh ∧
    pattern_len_max pt = Z.of_nat (2 ^ sh) ∧ (0 < 2 ^ sh)%nat ∧
    Forall (fun it => plain_pattern (2 ^ sh) (pattern it)) (items pt) ∧
    (0 < length (items pt) < 111)%nat.
Proof.
  intros [(sh & Esh & Elen) Hplain _ Hcnt] Hne. exists sh. rewrite Elen, Nat2Z.id in Hplain.
  split_and!; try done; [pose proof (Nat.pow_nonzero 2 sh); lia|destruct (items pt); [done|simpl; lia]|].
  unfold HMT_ITEM_MAX, cnt in Hcnt. destruct Hcnt as [? [?|?]]; [lia|done].
Qed.

Lemma whole_group its : (0 < length its)%nat → group its 0 0 (length its) [].
Proof. intros H. split_and!; [done|done|lia|]. intros i it _ _. split; [done|lia]. Qed.

Lemma compile_ok ok pt :
  wf pt → items pt ≠ [] → (∀ i, ok i = true) →
  ∃ pt' sh r T mt, hmt_compile ok pt = Ret (0, pt') ∧ items pt' = items pt ∧
    compiled pt' (2 ^ sh) sh r T mt ∧ pattern_len_max pt = Z.of_nat (2 ^ sh).
Proof.
  intros Hwf Hne Hok. destruct (wf_facts pt Hwf Hne) as (sh & Esh & Elen & HW & Hplain & Hc).
  pose proof (wf_sorted _ Hwf) as Hsort.
  unfold hmt_compile. cbn [hmt_free_content pattern_len_max pattern_len_max_shift items max].
  unfold cnt. cbn [hmt_free_content items]. rewrite Elen, Esh.
  set (its := items pt) in *. set (W := (2 ^ sh)%nat) in *.
  assert (Esize : Z.shiftl (Z.of_nat (length its)) (Z.of_nat sh) = Z.of_nat (length its * W)).
  { rewrite Z.shiftl_mul_pow2 by lia. unfold W. by rewrite Nat2Z.inj_mul, Nat2Z.inj_pow. }
  rewrite Esize, (proj2 (Z.eqb_neq _ 0)) by nia.
  replace (forallb ok (seq 0 5)) with true by (symmetry; apply forallb_forall; auto).
  cbn [negb orb]. rewrite Nat2Z.id. set (blank := replicate (length its * W) None).
  assert (Hbl : length blank = (length its * W)%nat) by apply length_replicate.
  destruct (fill_someone_else_ok its W sh eq_refl Hplain (proj2 Hc) (length its) 0 blank)
    as (mt & Emt & _ & Hshort & _); [lia|done|].
  unfold hmt_fill_someone_else_matched_table. fold (lens its W). rewrite Emt. cbn [mbind cres_bind].
  destruct (fill_ok its W sh eq_refl Hplain Hsort (proj2 Hc)
    (S (Z.to_nat (Z.of_nat W * (Z.of_nat (length its) + 1) + Z.of_nat (length its))))
    0 0 (length its) [] (Tables blank blank blank) (whole_group its (proj1 Hc)))
    as (r & T & Efill & Hr & Ht & _); [done|unfold work; nia|].
  rewrite i8_index by lia. change (Z.of_nat 0) with 0 in Efill.
  rewrite Efill. cbn [mbind cres_bind]. rewrite i8_index by lia.
  eexists _, sh, r, T, mt. split_and!; [done|done| |done]. split; try done.
  intros idx it j. apply Hshort. lia.
Qed.

(** A compiled tree can be added to again, and answers every string. *)
Lemma compile_match_ok ok pt :
  wf pt → items pt ≠ [] → (∀ i, ok i = true) →
  ∃ pt', hmt_compile ok pt = Ret (0, pt') ∧ items pt' = items pt ∧
    (wf pt' ∧ max pt' = max pt ∧ pattern_len_max pt' = pattern_len_max pt) ∧
    ∀ string, cstring string → ∃ r, hmt_match pt' string = Ret r ∧ longest_match (items pt) string r.
Proof.
  intros Hwf Hne Hok. destruct (wf_facts pt Hwf Hne) as (sh' & Esh' & Elen' & _ & Hplain & Hc).
  destruct (compile_ok ok pt Hwf Hne Hok) as (pt' & sh & r & T & mt & Ecomp & Eits & C & Elen).
  assert (sh' = sh) as -> by (apply (Nat.pow_inj_r 2); lia).
  pose proof (wf_sorted _ Hwf) as Hsort. pose proof (wf_cnt _ Hwf) as Hcnt. rewrite <- Eits in *.
  destruct C as [C1 C2 C3 C4 C5 C6 C7 C8 C9 C10]. exists pt'. split; [done|]. split; [done|]. split.
  - assert (Emax : max pt' = max pt).
    { unfold hmt_compile in Ecomp. case_match; [by injection Ecomp|]. apply cres_bind_Ret in Ecomp as (sm & _ & Ecomp).
      apply cres_bind_Ret in Ecomp as ([en T'] & _ & [= <-]). done. }
    split; [|split; [done|by rewrite C1, Elen]]. split; [by exists sh|by rewrite C1, Nat2Z.id|done|]. unfold cnt in *. by rewrite Emax, Eits in *.
  - intros string Hstr.
    destruct (match_loop_ok (items pt') (2 ^ sh) sh eq_refl Hplain Hsort (proj2 Hc) pt' T mt string
      eq_refl C1 C2 C4 C5 C6 C7 C8 C10 Hstr
      (S (Z.to_nat (Z.of_nat (2 ^ sh) * (cnt pt' + 1) + cnt pt'))) 0 0 (length (items pt')) r C9)
      as (ans & Em & Hbest).
    + apply whole_group, Hc.
    + intros k it Hk _ _. apply lookup_lt_Some in Hk. lia.
    + unfold work, cnt. nia.
    + exists ans. split; [|done]. unfold hmt_match.
      rewrite C3, C1, (proj2 (Z.eqb_neq _ _)) by lia. exact Em.
Qed.

(** C31: compiled, with memory, from one or more patterns of ASCII characters in the order of [wf],
    each not empty and shorter than the limit of the tree, the tables answer every string with the longest pattern that begins it, its user data and its length,
    and say so when there is none; compiling and matching read no cell that was not written and
    stay inside the tables, the patterns and the string. *)
Theorem hmt_compile_match_longest ok pt string :
  wf pt → items pt ≠ [] → (∀ i, ok i = true) → cstring string →
  ∃ pt' r, hmt_compile ok pt = Ret (0, pt') ∧ items pt' = items pt ∧
    hmt_match pt' string = Ret r ∧ longest_match (items pt) string r.
Proof.
  intros Hwf Hne Hok Hstr. destruct (compile_match_ok ok pt Hwf Hne Hok) as (pt' & E & Ei & _ & H).
  destruct (H string Hstr) as (r & Er & Hr). by exists pt', r.
Qed.

(** ** Adding patterns *)
Lemma lookup_insert_at {A} (l : list A) i k j :
  (i <= length l)%nat →
  (take i l ++ k :: drop i l) !! j
  = if decide (j < i)%nat then l !! j else if decide (j = i) then Some k else l !! (j - 1)%nat.
Proof.
  intros Hi. assert (Hl : length (take i l) = i) by (rewrite length_take; lia).
  repeat case_decide.
  - rewrite lookup_app_l by lia. by apply lookup_take_lt.
  - subst. by apply lookup_after.
  - rewrite lookup_app_r by lia. rewrite Hl. destruct (j - i)%nat as [|n] eqn:E; [lia|]. simpl.
    rewrite lookup_drop. f_equal. lia.
Qed.

(** The place of a new pattern: behind the greater ones, before the smaller ones. *)
Lemma add_pos_ok its k W :
  Forall (fun it => plain_pattern W (pattern it)) its → plain_pattern W (pattern k) →
  match add_pos its k (Z.of_nat W) with
  | None => pattern k ∈ pattern <$> its
  | Some i => (i <= length its)%nat ∧
      (∀ j a, (j < i)%nat → its !! j = Some a → lex_gt (pattern a) (pattern k)) ∧
      (∀ a, its !! i = Some a → lex_gt (pattern k) (pattern a))
  end.
Proof.
  intros Hits Hk. induction its as [|it its IH]; cbn [add_pos].
  { split_and!; [simpl; lia|lia|done]. }
  apply Forall_cons_1 in Hits as [Hit Hits]. specialize (IH Hits).
  unfold hmt_item_compare. rewrite Nat2Z.id. destruct Hk as [Pk Lk], Hit as [Pi Li].
  destruct (strncmp_spec (pattern k) (pattern it) W Pk Pi ltac:(lia) ltac:(lia)) as (H1 & H2 & H3).
  destruct (Z.ltb_spec 0 (strncmp (pattern k) (pattern it) W)) as [Hgt|Hle].
  { split_and!; [simpl; lia|lia|]. intros a [= <-]. tauto. }
  destruct (Z.ltb_spec (strncmp (pattern k) (pattern it) W) 0) as [Hlt|Hge].
  - destruct (add_pos its k (Z.of_nat W)) as [i|]; simpl; [|set_solver].
    destruct IH as (Hi & Hb & Ha). split_and!; [lia| |done].
    intros [|j] a Hj; simpl; [intros [= <-]; tauto|]. apply Hb. lia.
  - rewrite (proj1 H3) by lia. set_solver.
Qed.

(** The new pattern at its place. *)
Lemma wf_insert pt i k sh :
  wf pt → pattern_len_max_shift pt = Z.of_nat sh → pattern_len_max pt = Z.of_nat (2 ^ sh) →
  plain_pattern (2 ^ sh) (pattern k) → cnt pt < max pt → (i <= length (items pt))%nat →
  (∀ j a, (j < i)%nat → items pt !! j = Some a → lex_gt (pattern a) (pattern k)) →
  (∀ a, items pt !! i = Some a → lex_gt (pattern k) (pattern a)) →
  wf (Hmt (max pt) (enter_point pt) (higher_jump_table pt) (lower_jump_table pt)
        (someone_else_matched_table pt) (next_level_enter_point_table pt) (patterns_length pt)
        (pattern_len_max pt) (pattern_len_max_shift pt)
        (take i (items pt) ++ k :: drop i (items pt))).
Proof.
  intros [_ Hplain Hsort [Hmax _]] Esh Elen Hk Hfull Hi Hb Ha.
  assert (Hafter : ∀ j b, (i <= j)%nat → items pt !! j = Some b → lex_gt (pattern k) (pattern b)).
  { intros j b Hj Hjb. destruct (decide (j = i)) as [->|]; [by apply Ha|].
    destruct (lookup_lt_is_Some_2 (items pt) i) as [a Hai]; [apply lookup_lt_Some in Hjb; lia|].
    eapply lex_gt_trans; [by apply Ha|]. by apply (Hsort i j); [| |lia]. }
  split; cbn [pattern_len_max pattern_len_max_shift items max].
  - by exists sh.
  - rewrite Elen, Nat2Z.id in *. rewrite <- (take_drop i (items pt)) in Hplain.
    apply Forall_app in Hplain as [H1 H2]. apply Forall_app. split; [done|]. by constructor.
  - intros j j' a b. rewrite !lookup_insert_at by done. intros Hja Hjb Hlt.
    repeat case_decide; simplify_eq; try lia.
    + by eapply Hsort.
    + by apply (Hb j).
    + by apply (Hsort j (j' - 1)%nat); [| |lia].
    + by apply (Hafter (j' - 1)%nat); [lia|].
    + by apply (Hsort (j - 1)%nat (j' - 1)%nat); [| |lia].
  - split; [done|]. left. unfold cnt in *. cbn [items]. autorewrite with esq_len. lia.
Qed.

(** A pattern that has a place is not there. *)
Lemma placed_not_there pt i k :
  wf pt →
  (∀ j a, (j < i)%nat → items pt !! j = Some a → lex_gt (pattern a) (pattern k)) →
  (∀ a, items pt !! i = Some a → lex_gt (pattern k) (pattern a)) →
  pattern k ∉ pattern <$> items pt.
Proof.
  intros Hwf Hb Ha Hin. apply list_elem_of_fmap in Hin as (it & Eit & [j Hj]%list_elem_of_lookup).
  apply (lex_gt_irrefl (pattern k)). destruct (Nat.lt_trichotomy j i) as [Hlt|[->|Hgt]].
  - rewrite Eit at 1. by apply (Hb j).
  - rewrite Eit at 2. by apply Ha.
  - destruct (lookup_lt_is_Some_2 (items pt) i) as [a Hai]; [apply lookup_lt_Some in Hj; lia|].
    rewrite Eit at 2. eapply lex_gt_trans; [by apply Ha|by eapply (wf_sorted _ Hwf)].
Qed.

Lemma add_item_cases pt pat ud m :
  wf pt → plain_pattern (Z.to_nat (pattern_len_max pt)) pat →
  if decide (max pt <= cnt pt) then hmt_add_item pt pat ud m = (-1, pt)
  else if decide (pat ∈ pattern <$> items pt) then hmt_add_item pt pat ud m = (-3, pt)
  else ∃ pt', hmt_add_item pt pat ud m = (0, pt') ∧ wf pt' ∧
              items pt' ≡ₚ Item pat ud m :: items pt.
Proof.
  intros Hwf Hk. pose proof Hwf as [(sh & Esh & Elen) Hplain Hsort Hcnt].
  unfold hmt_add_item. set (k := Item pat ud m).
  case_decide as Hfull; [by rewrite (proj2 (Z.leb_le _ _)) by lia|].
  rewrite (proj2 (Z.leb_gt _ _)) by lia. rewrite Elen, Nat2Z.id in Hplain, Hk. rewrite Elen.
  change pat with (pattern k) in Hk.
  pose proof (add_pos_ok (items pt) k (2 ^ sh) Hplain Hk) as Hpos.
  destruct (add_pos (items pt) k (Z.of_nat (2 ^ sh))) as [i|]; [|by rewrite decide_True].
  destruct Hpos as (Hi & Hb & Ha). rewrite decide_False by (by eapply (placed_not_there pt i k)).
  eexists. split; [done|]. split.
  - rewrite <- Elen. eapply (wf_insert pt i k sh); try done. lia.
  - simpl. by rewrite <- Permutation_middle, take_drop.
Qed.

(** The test of the length of a new pattern. *)
Lemma add_length_test pt pat :
  wf pt → Forall (fun b => 0 < b < 128) pat →
  let l := Z.of_nat (strnlen pat (Z.to_nat (pattern_len_max pt))) in
  if decide (pat = [] ∨ pattern_len_max pt <= Z.of_nat (length pat)) then (pattern_len_max pt <=? l) || (l <=? 0) = true
  else (pattern_len_max pt <=? l) || (l <=? 0) = false ∧ plain_pattern (Z.to_nat (pattern_len_max pt)) pat.
Proof.
  intros Hwf Hpat l. pose proof Hwf as [(sh & Esh & Elen) _ _ _]. pose proof (Nat.pow_nonzero 2 sh).
  assert (Ecs : l = Z.of_nat (min (length pat) (2 ^ sh))).
  { unfold l. rewrite Elen, Nat2Z.id. f_equal. apply strnlen_cstring. eapply Forall_impl; [exact Hpat|]. simpl. lia. }
  rewrite Ecs. case_decide as Hbad.
  - destruct Hbad as [->|Hlong]; [by rewrite orb_true_r|]. by rewrite (proj2 (Z.leb_le _ _)) by lia.
  - destruct pat as [|x pat]; [naive_solver|]. simpl length in *.
    rewrite (proj2 (Z.leb_gt _ _)), (proj2 (Z.leb_gt _ 0)) by lia. split; [done|]. split; [done|simpl; lia].
Qed.

Lemma add_cases pt pat ud :
  wf pt → Forall (fun b => 0 < b < 128) pat →
  if decide (pat = [] ∨ pattern_len_max pt <= Z.of_nat (length pat)) then hmt_add pt pat ud = (-2, pt)
  else if decide (max pt <= cnt pt) then hmt_add pt pat ud = (-1, pt)
  else if decide (pat ∈ pattern <$> items pt) then hmt_add pt pat ud = (-3, pt)
  else ∃ pt', hmt_add pt pat ud = (0, pt') ∧ wf pt' ∧
              items pt' ≡ₚ Item pat ud false :: items pt.
Proof.
  intros Hwf Hpat. unfold hmt_add. pose proof (add_length_test pt pat Hwf Hpat) as H.
  case_decide; [by rewrite H|]. destruct H as [-> H]. by apply add_item_cases.
Qed.

Lemma add2_cases pt pat ud :
  wf pt → Forall (fun b => 0 < b < 128) pat →
  if decide (pat = [] ∨ pattern_len_max pt <= Z.of_nat (length pat)) then hmt_add2 true pt pat ud = (-2, pt)
  else if decide (max pt <= cnt pt) then hmt_add2 true pt pat ud = (-1, pt)
  else if decide (pat ∈ pattern <$> items pt) then hmt_add2 true pt pat ud = (-3, pt)
  else ∃ pt', hmt_add2 true pt pat ud = (0, pt') ∧ wf pt' ∧
              items pt' ≡ₚ Item pat ud true :: items pt.
Proof.
  intros Hwf Hpat. unfold hmt_add2. pose proof (add_length_test pt pat Hwf Hpat) as H.
  case_decide; [by rewrite H|]. destruct H as [-> H]. by apply add_item_cases.
Qed.

Lemma add2_fields ok pt pat ud r pt' : hmt_add2 ok pt pat ud = (r, pt') →
  max pt' = max pt ∧ pattern_len_max pt' = pattern_len_max pt.
Proof. unfold hmt_add2, hmt_add_item. repeat case_match; intros [= <- <-]; done. Qed.

Lemma add_wf pt pat ud pt' :
  hmt_add pt pat ud = (0, pt') → wf pt → Forall (fun b => 0 < b < 128) pat → wf pt'.
Proof.
  intros E Hwf Hpat. pose proof (add_cases pt pat ud Hwf Hpat) as H. rewrite E in H.
  repeat case_decide; try done. destruct H as (pt1 & [= <-] & ? & _). done.
Qed.

(** Adding a pattern of plain characters: one that is empty or too long is refused
    with -2, any into a full table with -1, one that is there already with -3, each time
    with the table unchanged; any other is added and the table keeps its order, so that it
    can be compiled. *)
Theorem hmt_add_correct pt pat ud :
  wf pt → Forall (fun b => 0 < b < 128) pat →
  if decide (pat = [] ∨ pattern_len_max pt <= Z.of_nat (length pat)) then hmt_add pt pat ud = (-2, pt)
  else if decide (max pt <= cnt pt) then hmt_add pt pat ud = (-1, pt)
  else if decide (pat ∈ pattern <$> items pt) then hmt_add pt pat ud = (-3, pt)
  else ∃ pt', hmt_add pt pat ud = (0, pt') ∧ wf pt' ∧
              items pt' ≡ₚ Item pat ud false :: items pt.
Proof. apply add_cases. Qed.

(** A small table of services: "/", "/a/" and "/a/b". *)
Definition demo_tree0 : hmt_t := Hmt 8 (-1) None None None None None 32 5 [].
Definition demo_tree1 : hmt_t := snd (hmt_add demo_tree0 [47] 1).
Definition demo_tree2 : hmt_t := snd (hmt_add demo_tree1 [47; 97; 47] 2).
Definition demo_tree : hmt_t := snd (hmt_add demo_tree2 [47; 97; 47; 98] 3).

Lemma demo_wf : wf demo_tree.
Proof.
  apply (add_wf demo_tree2 [47; 97; 47; 98] 3); [vm_compute; reflexivity| |by repeat constructor].
  apply (add_wf demo_tree1 [47; 97; 47] 2); [vm_compute; reflexivity| |by repeat constructor].
  apply (add_wf demo_tree0 [47] 1); [vm_compute; reflexivity| |by repeat constructor].
  by apply (hmt_new2_wf true 8 HMT_SCALE_32).
Qed.

Lemma hmt_compile_match_longest_witness :
  (∃ pt' r, hmt_compile (fun _ => true) demo_tree = Ret (0, pt') ∧ items pt' = items demo_tree ∧
     hmt_match pt' [47; 97; 47; 99] = Ret r ∧
     longest_match (items demo_tree) [47; 97; 47; 99] r) ∧
  (r ← hmt_compile (fun _ => true) demo_tree; hmt_match (snd r) [47; 97; 47; 99]) = Ret (Some (2, 3)).
Proof.
  split; [|vm_compute; reflexivity].
  apply (hmt_compile_match_longest (fun _ => true) demo_tree [47; 97; 47; 99] demo_wf).
  - discriminate.
  - reflexivity.
  - by repeat constructor.
Defined.

Lemma hmt_add_correct_witness :
  ∃ pt', hmt_add demo_tree [47; 98] 4 = (0, pt') ∧ wf pt' ∧
         items pt' ≡ₚ Item [47; 98] 4 false :: items demo_tree.
Proof.
  refine (hmt_add_correct demo_tree [47; 98] 4 demo_wf _). by repeat constructor.
Defined.

(** Three patterns, one with a byte outside ASCII. *)
Definition wide_tree : hmt_t :=
  let add p u pt := snd (hmt_add pt p u) in
  add [47; 193] 3 (add [47; 98] 2 (add [47; 97] 1 (Hmt 8 (-1) None None None None None 32 5 []))).

(** Bytes are compared as [char], which is signed, but sorted as unsigned: a pattern
    with a byte from 0x80 on need not be found, although it is there. *)
Example wide_pattern_missed :
  (r ← hmt_compile (fun _ => true) wide_tree; hmt_match (snd r) [47; 193]) = Ret None ∧
  [47; 193] ∈ pattern <$> items wide_tree.
Proof. split; [vm_compute; reflexivity|]. vm_compute. set_solver. Qed.
