(* ===== verification/RangeMap.v ===== *)
(** * Range maps

    [src/range-map.c] maps hashes to the nodes (servers) that keep the data of a range of
    hashes.  A node is responsible for the hashes that begin with its key, a string of
    bytes.  A map keeps all its nodes in one list, in the order they were added (newest
    first), and an index: for every key length a red-black tree with the first node of
    every key, the nodes of equal keys chained behind it, and the last of them chained to
    the nodes of the longest shorter key.  The index is rebuilt by a flush.  A lookup
    walks one chain: all nodes whose key is a prefix of the hash, longest keys first.

    The nodes live in a store of their own; their [RB_ENTRY] fields are the store of
    [RbTree].  The pointer [hash] of a node, which always points to its own buffer, is
    left out.  [range_map_list] is the static table of ten maps; the lock around it is not
    modelled.  What the file calls in other parts of the server is a parameter:
    [is_me] ([os_ip_address_is_me]), [my_port] ([bee_server_is_my_port]), [find_bucket]
    ([esq_bee_find_bucket]) and [inet_addr]. *)
From stdpp Require Import strings.
From S2P Require Import Prelude CString LinkedList RbTree Scan.

(** ** Data *)

Definition HASH_VALUE_LENGTH : Z := 32.
Definition RANGE_MAP_NAME_MAX : Z := 32.
Definition RANGE_MAP_MAX : nat := 10.

Definition RM_NODE_MAIN : Z := 1.
Definition RM_NODE_DELETE : Z := 2.
Definition RM_NODE_ME : Z := 4.

Record sockaddr_in := Sockaddr { sin_family : Z; sin_port : Z; s_addr : Z }.

Record range_node_t := RangeNode {
  hash_length : Z;
  hash_buffer : list Z;
  ip : Z;
  port : Z;
  flags : Z;
  next : ptr;
  all_node_list_next : ptr;
  address : sockaddr_in;
  bucket : ptr
}.

Definition set_next (p : ptr) (n : range_node_t) : range_node_t :=
  RangeNode (hash_length n) (hash_buffer n) (ip n) (port n) (flags n) p
    (all_node_list_next n) (address n) (bucket n).
Definition set_all_next (p : ptr) (n : range_node_t) : range_node_t :=
  RangeNode (hash_length n) (hash_buffer n) (ip n) (port n) (flags n) (next n)
    p (address n) (bucket n).
Definition set_flags (f : Z) (n : range_node_t) : range_node_t :=
  RangeNode (hash_length n) (hash_buffer n) (ip n) (port n) f (next n)
    (all_node_list_next n) (address n) (bucket n).
Definition set_bucket (b : ptr) (n : range_node_t) : range_node_t :=
  RangeNode (hash_length n) (hash_buffer n) (ip n) (port n) (flags n) (next n)
    (all_node_list_next n) (address n) b.

Record range_map_t := RangeMapT {
  name : list Z;
  rb_by_length : list ptr;
  all_list : ptr;
  longest : Z
}.

Definition set_roots (r : list ptr) (m : range_map_t) : range_map_t :=
  RangeMapT (name m) r (all_list m) (longest m).
Definition set_all_list (p : ptr) (m : range_map_t) : range_map_t :=
  RangeMapT (name m) (rb_by_length m) p (longest m).
Definition set_longest (l : Z) (m : range_map_t) : range_map_t :=
  RangeMapT (name m) (rb_by_length m) (all_list m) l.
Definition set_name (s : list Z) (m : range_map_t) : range_map_t :=
  RangeMapT s (rb_by_length m) (all_list m) (longest m).

Abbreviation nodes := (gmap loc range_node_t).

(** The memory of the nodes. *)
Record mem := Mem { nd : nodes; en : cells }.

Definition nget {A} (M : mem) (p : ptr) (f : range_node_t → A) : cres A := fld (nd M) p f.
Definition nput (M : mem) (p : ptr) (f : range_node_t → range_node_t) : cres mem :=
  (fun h => Mem h (en M)) <$> upd (nd M) p f.

Definition range_node_compare (al : Z) (ahash : list Z) (b : range_node_t) : cres Z :=
  if negb (al =? hash_length b) then Exit else c_memcmp ahash (hash_buffer b) al.

(** The comparison of a tree of nodes: the element looked for against [t]. *)
Definition node_cmp (M : mem) (al : Z) (ahash : list Z) (t : loc) : cres Z :=
  b ← nget M (Some t) id; range_node_compare al ahash b.

(** The tree of one length. *)
Definition tree_of (M : mem) (m : range_map_t) (length : Z) : cres rb :=
  r ← rd (rb_by_length m) length; Ret (Rb r (en M)).

Definition list_fuel (M : mem) : nat := S (size (nd M)).

(** ** Rebuilding the index *)

Definition mfree (M : mem) (x : loc) : mem := Mem (delete x (nd M)) (delete x (en M)).

Fixpoint clean_loop (fuel : nat) (M : mem) (m : range_map_t) (pp p : ptr)
    : cres (mem * range_map_t) :=
  match fuel with
  | O => NoFuel
  | S fuel =>
      match p with
      | None => Ret (M, m)
      | Some x =>
          n ← nget M p all_node_list_next;
          f ← nget M p flags;
          if negb (Z.land RM_NODE_DELETE f =? 0) then
            '(M, m) ← match pp with
                      | Some _ => M ← nput M pp (set_all_next n); Ret (M, m)
                      | None => Ret (M, set_all_list n m)
                      end;
            clean_loop fuel (mfree M x) m pp n
          else
            M ← nput M p (set_next None);
            clean_loop fuel M m p n
      end
  end.

Definition range_map_clean (M : mem) (m : range_map_t) : cres (mem * range_map_t) :=
  let m := set_roots ((fun _ => None) <$> rb_by_length m) m in
  clean_loop (list_fuel M) M m None (all_list m).

(** [while (s->next) s = s->next]. *)
Fixpoint last_of (fuel : nat) (M : mem) (s : ptr) : cres ptr :=
  match fuel with
  | O => NoFuel
  | S fuel => n ← nget M s next; match n with None => Ret s | Some _ => last_of fuel M n end
  end.

Definition range_map_load_node (M : mem) (m : range_map_t) (p : loc) : cres (mem * range_map_t) :=
  length ← nget M (Some p) hash_length;
  hash ← nget M (Some p) hash_buffer;
  T ← tree_of M m length;
  s ← RB_FIND T (node_cmp M length hash);
  match s with
  | Some _ =>
      s ← last_of (list_fuel M) M s;
      M ← nput M s (set_next (Some p));
      Ret (M, m)
  | None =>
      '(_, T) ← RB_INSERT T (node_cmp M length hash) p;
      r ← wr (rb_by_length m) length (rbh_root T);
      Ret (Mem (nd M) (rb_cells T), set_roots r m)
  end.

Fixpoint link_loop (M : mem) (m : range_map_t) (hash : list Z) (n : ptr) (l : nat) : cres mem :=
  T ← tree_of M m (Z.of_nat l);
  p ← RB_FIND T (node_cmp M (Z.of_nat l) hash);
  match p with
  | Some _ => k ← last_of (list_fuel M) M n; nput M k (set_next p)
  | None => match l with O => Ret M | S l => link_loop M m hash n l end
  end.

Definition range_map_link_short_match (M : mem) (m : range_map_t) (length : Z) (n : loc) : cres mem :=
  if length <? 0 then Ret M
  else
    hash ← nget M (Some n) hash_buffer;
    link_loop M m hash (Some n) (Z.to_nat length).

(** The body of the traversal of the tree of one length. *)
Definition cross_body (m : range_map_t) (length : Z) : mem * Z → loc → cres (mem * Z) :=
  fun '(M, longest) n =>
    M ← range_map_link_short_match M m (length - 1) n;
    Ret (M, if longest =? 0 then length else longest).

(** The loop of [range_map_build_cross_depth_reference] over the lengths below [l]. *)
Fixpoint cross_loop (M : mem) (m : range_map_t) (longest : Z) (l : nat) : cres (mem * Z) :=
  match l with
  | O => Ret (M, longest)
  | S l =>
      T ← tree_of M m (Z.of_nat l);
      '(M, longest) ← RB_FOREACH T (cross_body m (Z.of_nat l)) (M, longest);
      cross_loop M m longest l
  end.

Definition range_map_build_cross_depth_reference (M : mem) (m : range_map_t)
    : cres (mem * range_map_t) :=
  '(M, longest) ← cross_loop M m 0 (length (rb_by_length m));
  Ret (M, set_longest longest m).

Fixpoint load_loop (fuel : nat) (M : mem) (m : range_map_t) (p : ptr) : cres (mem * range_map_t) :=
  match fuel with
  | O => NoFuel
  | S fuel =>
      match p with
      | None => Ret (M, m)
      | Some x =>
          M ← nput M p (set_next None);
          '(M, m) ← range_map_load_node M m x;
          n ← nget M p all_node_list_next;
          load_loop fuel M m n
      end
  end.

Definition range_map_load (M : mem) (m : range_map_t) : cres (mem * range_map_t) :=
  '(M, m) ← load_loop (list_fuel M) M m (all_list m);
  range_map_build_cross_depth_reference M m.

(** ** Looking up *)

Fixpoint find_loop (M : mem) (m : range_map_t) (hash : list Z) (l : nat) : cres ptr :=
  T ← tree_of M m (Z.of_nat l);
  p ← RB_FIND T (node_cmp M (Z.of_nat l) hash);
  match p with
  | Some _ => Ret p
  | None => match l with O => Ret None | S l => find_loop M m hash l end
  end.

(** The search of [range_map_find_and_lock] in a map. *)
Definition range_map_find (M : mem) (m : range_map_t) (hash : list Z) : cres ptr :=
  if longest m <? 0 then Ret None else find_loop M m hash (Z.to_nat (longest m)).

(** ** The table of maps *)

Record state := State { memory : mem; range_map_list : list range_map_t }.

(** The index of the first map that passes a test. *)
Fixpoint first_map (test : range_map_t → cres bool) (i : nat) (l : list range_map_t)
    : cres (option nat) :=
  match l with
  | [] => Ret None
  | m :: l => b ← test m; if b : bool then Ret (Some i) else first_map test (S i) l
  end.

Definition range_map_find_by_name (S : state) (nm : list Z) : cres (option nat) :=
  first_map (fun m => r ← strcmp (name m) nm; Ret (r =? 0)) 0 (range_map_list S).

Definition range_map_find_by_name2 (S : state) (nm : list Z) (name_len : Z) : cres (option nat) :=
  first_map (fun m =>
      r ← c_memcmp (name m) nm name_len;
      if negb (r =? 0) then Ret false
      else c ← rd (name m) name_len; Ret (c =? 0)) 0 (range_map_list S).

Fixpoint name_chars (s : list Z) (l : nat) : cres bool :=
  match l with
  | O => Ret true
  | S l => match s with
           | [] => Fault
           | c :: s => if (97 <=? c) && (c <=? 122) then name_chars s l
                       else if (48 <=? c) && (c <=? 57) then name_chars s l
                       else Ret false
           end
  end.

Definition range_map_name_check2 (nm : list Z) (l : Z) : cres (option string) :=
  if l <=? 0 then Ret (Some "range map name invalid"%string)
  else if RANGE_MAP_NAME_MAX <=? l then Ret (Some "range map name too long"%string)
  else
    ok ← name_chars nm (Z.to_nat l);
    Ret (if ok : bool then None else Some "only number and lower case allowed"%string).

Definition range_map_name_check (nm : list Z) : cres (option string) :=
  l ← c_strnlen nm (Z.to_nat (RANGE_MAP_NAME_MAX + 2)); range_map_name_check2 nm l.

Definition range_map_new (S : state) (nm : list Z) : cres (option string * state) :=
  errs ← range_map_name_check nm;
  match errs with
  | Some e => Ret (Some e, S)
  | None =>
      f ← range_map_find_by_name S nm;
      match f with
      | Some _ => Ret (Some "range map already exist"%string, S)
      | None =>
          f ← first_map (fun m => c ← rd (name m) 0; Ret (c =? 0)) 0 (range_map_list S);
          match f with
          | None => Ret (Some "too many range maps"%string, S)
          | Some i =>
              m ← rd (range_map_list S) (Z.of_nat i);
              s ← c_strcpy (name m) nm;
              l ← wr (range_map_list S) (Z.of_nat i) (set_name s m);
              Ret (None, State (memory S) l)
          end
      end
  end.

Definition zero_map : range_map_t :=
  RangeMapT (replicate 32 0) (replicate 32 None) None 0.

Definition range_map_init (S : state) : state :=
  State (memory S) (replicate RANGE_MAP_MAX zero_map).

Fixpoint find_node_loop (fuel : nat) (M : mem) (p : ptr) (nip nport : Z) (hb : list Z) (hash_len : Z)
    : cres ptr :=
  match fuel with
  | O => NoFuel
  | S fuel =>
      match p with
      | None => Ret None
      | Some _ =>
          n ← nget M p id;
          let continue := find_node_loop fuel M (all_node_list_next n) nip nport hb hash_len in
          if negb (ip n =? nip) then continue
          else if negb (port n =? nport) then continue
          else if negb (hash_length n =? hash_len) then continue
          else
            r ← c_memcmp (hash_buffer n) hb hash_len;
            if negb (r =? 0) then continue else Ret p
      end
  end.

Definition range_map_find_node (M : mem) (m : range_map_t) (nip nport : Z) (hb : list Z) (hash_len : Z)
    : cres ptr :=
  find_node_loop (list_fuel M) M (all_list m) nip nport hb hash_len.

(** The parameters a script gives: an error message, or what they stand for.  First the
    address, ... *)
Definition translate_ip (ip_str : list Z) : cres (string + Z) :=
  l ← c_strnlen ip_str 20;
  if (l <? 7) || (15 <? l) then Ret (inl "invalid IP address length"%string)
  else
    '(r, a) ← Ipv4.get_ipv4_addr ip_str l;
    match a with
    | Some a => if r =? 0 then Ret (inl "invalid IP address"%string) else Ret (inr a)
    | None => Ret (inl "invalid IP address"%string)
    end.

(** ... then the key: its bytes, their number, and the length of the hash string. *)
Definition translate_hash (hash_string : list Z) : cres (string + list Z * Z * Z) :=
  l ← c_strnlen hash_string (Z.to_nat (HASH_VALUE_LENGTH + 3));
  if (l <? 1) || (HASH_VALUE_LENGTH + 1 <? l)
  then Ret (inl "invalid hash string pameter length"%string)
  else
    '(r, h) ← HashString.get_hash_string hash_string l;
    match h with
    | Some (hash_start, hash_str_len) =>
        if r =? -1 then Ret (inl "invalid hash string"%string)
        else if negb (hash_start =? 0) || negb (hash_str_len + 1 =? l)
                || (HASH_VALUE_LENGTH * 2 <? hash_str_len)
        then Ret (inl "invalid hash string length"%string)
        else
          let hash_len := Z.shiftr hash_str_len 1 in
          '(r, hb) ← HashString.hash_str_2_bin (replicate (Z.to_nat HASH_VALUE_LENGTH) 0)
                       (drop (Z.to_nat hash_start) hash_string) hash_str_len;
          if negb (r =? 0)
          then Ret (inl "failed to transform hash string into binary"%string)
          else Ret (inr (hb, hash_len, hash_str_len))
    | None => Ret (inl "invalid hash string"%string)
    end.

Definition TRANSLATE_MKC_PARAMS (ip_str hash_string : list Z)
    : cres (string + Z * list Z * Z * Z) :=
  a ← translate_ip ip_str;
  match a with
  | inl e => Ret (inl e)
  | inr a =>
      h ← translate_hash hash_string;
      match h with
      | inl e => Ret (inl e)
      | inr (hb, hash_len, hash_str_len) => Ret (inr (a, hb, hash_len, hash_str_len))
      end
  end.

Section Table.
Context (is_me : sockaddr_in → bool) (my_port : Z → bool)
        (find_bucket : list Z → Z → list Z → Z → Z → Z → ptr)
        (inet_addr : list Z → Z).

Definition htons (p : Z) : Z := Z.shiftl (Z.land p 255) 8 + Z.land (Z.shiftr p 8) 255.

Definition AF_INET : Z := 2.

(** [mem_ok] is whether [malloc] succeeds. *)
Definition range_map_add_node (mem_ok : bool) (S : state) (map_name ip_str : list Z) (nport nflags : Z)
    (hash_string : list Z) : cres (option string * state) :=
  r ← TRANSLATE_MKC_PARAMS ip_str hash_string;
  match r with
  | inl e => Ret (Some e, S)
  | inr (nip, hb, hash_len, hash_str_len) =>
      i ← range_map_find_by_name S map_name;
      match i with
      | None => Ret (Some "range map not exist"%string, S)
      | Some i =>
          m ← rd (range_map_list S) (Z.of_nat i);
          p ← range_map_find_node (memory S) m nip nport hb hash_len;
          match p with
          | Some _ => Ret (Some "range map node already exist"%string, S)
          | None =>
              if negb mem_ok then Ret (Some "out of memory"%string, S)
              else
                let n := fresh (dom (nd (memory S))) in
                let addr := Sockaddr AF_INET (htons nport) (inet_addr ip_str) in
                nl ← c_strlen map_name;
                let me := is_me addr && my_port nport in
                let buf := take (Z.to_nat hash_len) hb
                           ++ drop (Z.to_nat hash_len) (replicate 40 0) in
                let node :=
                  if me then RangeNode hash_len buf nip nport (Z.lor nflags RM_NODE_ME) None
                    (all_list m) addr (find_bucket map_name nl hash_string (hash_str_len + 1) 0 0)
                  else RangeNode hash_len buf nip nport nflags None
                    (all_list m) addr
                    (find_bucket map_name nl hash_string (hash_str_len + 1) nip nport) in
                l ← wr (range_map_list S) (Z.of_nat i) (set_all_list (Some n) m);
                Ret (None, State (Mem (<[n := node]> (nd (memory S)))
                                      (<[n := RbEntry None None None RB_BLACK]> (en (memory S)))) l)
          end
      end
  end.

(** [range_map_clean] and [range_map_load] of the map [i] of the table. *)
Definition rebuild (S : state) (M : mem) (i : nat) (m : range_map_t) : cres state :=
  '(M, m) ← range_map_clean M m;
  '(M, m) ← range_map_load M m;
  l ← wr (range_map_list S) (Z.of_nat i) m;
  Ret (State M l).

Definition range_map_del_node (S : state) (map_name ip_str : list Z) (nport : Z) (hash_string : list Z)
    : cres (option string * state) :=
  r ← TRANSLATE_MKC_PARAMS ip_str hash_string;
  match r with
  | inl e => Ret (Some e, S)
  | inr (nip, hb, hash_len, _) =>
      i ← range_map_find_by_name S map_name;
      match i with
      | None => Ret (Some "range map not exist"%string, S)
      | Some i =>
          m ← rd (range_map_list S) (Z.of_nat i);
          p ← range_map_find_node (memory S) m nip nport hb hash_len;
          match p with
          | None => Ret (Some "range node not exist"%string, S)
          | Some _ =>
              f ← nget (memory S) p flags;
              M ← nput (memory S) p (set_flags (Z.lor f RM_NODE_DELETE));
              S ← rebuild S M i m;
              Ret (None, S)
          end
      end
  end.

(** A loop over all the nodes of a map. *)
Fixpoint each_node (fuel : nat) (M : mem) (body : mem → loc → cres mem) (p : ptr) : cres mem :=
  match fuel with
  | O => NoFuel
  | S fuel =>
      match p with
      | None => Ret M
      | Some x => M ← body M x; n ← nget M p all_node_list_next; each_node fuel M body n
      end
  end.

Definition mark_deleted (M : mem) (x : loc) : cres mem :=
  f ← nget M (Some x) flags; nput M (Some x) (set_flags (Z.lor f RM_NODE_DELETE)).

Definition range_map_del_all_node (S : state) (map_name : list Z) : cres (option string * state) :=
  i ← range_map_find_by_name S map_name;
  match i with
  | None => Ret (Some "range map not exist"%string, S)
  | Some i =>
      m ← rd (range_map_list S) (Z.of_nat i);
      M ← each_node (list_fuel (memory S)) (memory S) mark_deleted (all_list m);
      S ← rebuild S M i m;
      Ret (None, S)
  end.

Definition range_map_flush (S : state) (nm : list Z) : cres (option string * state) :=
  i ← range_map_find_by_name S nm;
  match i with
  | None => Ret (Some "range map not found"%string, S)
  | Some i =>
      m ← rd (range_map_list S) (Z.of_nat i);
      S ← rebuild S (memory S) i m;
      Ret (None, S)
  end.

Definition range_map_find_and_lock (S : state) (map_name hash : list Z) : cres ptr :=
  i ← range_map_find_by_name S map_name;
  match i with
  | None => Ret None
  | Some i => m ← rd (range_map_list S) (Z.of_nat i); range_map_find (memory S) m hash
  end.

(** The loop of [range_map_get_addresses]: [i] addresses have been copied. *)
Fixpoint addresses_loop (fuel : nat) (M : mem) (n : ptr) (addresses : list sockaddr_in)
    (i max_addresses : Z) : cres (Z * list sockaddr_in) :=
  match fuel with
  | O => NoFuel
  | S fuel =>
      match n with
      | None => Ret (i, addresses)
      | Some _ =>
          f ← nget M n flags;
          n ← (if negb (Z.land RM_NODE_DELETE f =? 0) then nget M n next else Ret n);
          if max_addresses <=? i then Ret (-1, addresses)
          else
            a ← nget M n address;
            addresses ← wr addresses i a;
            n ← nget M n next;
            addresses_loop fuel M n addresses (i + 1) max_addresses
      end
  end.

Definition range_map_get_addresses (S : state) (map_name hash : list Z)
    (addresses : list sockaddr_in) (max_addresses : Z) : cres (Z * list sockaddr_in) :=
  n ← range_map_find_and_lock S map_name hash;
  match n with
  | None => Ret (0, addresses)
  | Some _ => addresses_loop (list_fuel (memory S)) (memory S) n addresses 0 max_addresses
  end.

Fixpoint main_loop (fuel : nat) (M : mem) (n : ptr) (addr : sockaddr_in) : cres (Z * sockaddr_in) :=
  match fuel with
  | O => NoFuel
  | S fuel =>
      match n with
      | None => Ret (-1, addr)
      | Some _ =>
          f ← nget M n flags;
          if negb (Z.land f RM_NODE_MAIN =? 0) then a ← nget M n address; Ret (0, a)
          else n ← nget M n next; main_loop fuel M n addr
      end
  end.

Definition range_map_get_main_address (S : state) (map_name hash : list Z) (addr : sockaddr_in)
    : cres (Z * sockaddr_in) :=
  n ← range_map_find_and_lock S map_name hash;
  match n with
  | None => Ret (0, addr)
  | Some _ => main_loop (list_fuel (memory S)) (memory S) n addr
  end.

(** ** Buckets *)

(** What the two loops of [range_map_notify_bucket_online] do to a node: [bip], [bport],
    [hash_str] and [hash_str_length] are those of the bucket. *)
Definition online_body (b : loc) (bip bport : Z) (hash_str : list Z) (hash_str_length : Z)
    (M : mem) (x : loc) : cres mem :=
  n ← nget M (Some x) id;
  let me := negb (Z.land (flags n) RM_NODE_ME =? 0) in
  if negb (bip =? 0) || negb (bport =? 0) then
    if me then Ret M
    else if negb (ip n =? bip) then Ret M
    else if negb (port n =? bport) then Ret M
    else if negb (hash_length n =? hash_str_length) then Ret M
    else
      r ← c_memcmp (hash_buffer n) hash_str hash_str_length;
      if negb (r =? 0) then Ret M else nput M (Some x) (set_bucket (Some b))
  else
    if negb me then Ret M
    else if negb (hash_length n =? hash_str_length) then Ret M
    else
      r ← c_memcmp (hash_buffer n) hash_str hash_str_length;
      if negb (r =? 0) then Ret M else nput M (Some x) (set_bucket (Some b)).

Definition range_map_notify_bucket_online (S : state) (b : loc) (bip bport : Z) (hash_str : list Z)
    (hash_str_length : Z) (range_map_name : list Z) (range_map_name_len : Z) : cres state :=
  i ← range_map_find_by_name2 S range_map_name range_map_name_len;
  match i with
  | None => Ret S
  | Some i =>
      m ← rd (range_map_list S) (Z.of_nat i);
      M ← each_node (list_fuel (memory S)) (memory S)
            (online_body b bip bport hash_str hash_str_length) (all_list m);
      Ret (State M (range_map_list S))
  end.

Definition offline_body (b : loc) (M : mem) (x : loc) : cres mem :=
  nb ← nget M (Some x) bucket;
  if decide (nb = Some b) then nput M (Some x) (set_bucket None) else Ret M.

Definition range_map_notify_bucket_offline (S : state) (b : loc) (range_map_name : list Z)
    (range_map_name_len : Z) : cres state :=
  i ← range_map_find_by_name2 S range_map_name range_map_name_len;
  match i with
  | None => Ret S
  | Some i =>
      m ← rd (range_map_list S) (Z.of_nat i);
      M ← each_node (list_fuel (memory S)) (memory S) (offline_body b) (all_list m);
      Ret (State M (range_map_list S))
  end.

Definition connection_body (map_name : list Z) (M : mem) (x : loc) : cres mem :=
  map_name_len ← c_strlen map_name;
  n ← nget M (Some x) id;
  if is_me (address n) && my_port (port n) then
    nput M (Some x) (fun n =>
      set_bucket (find_bucket map_name map_name_len (hash_buffer n) (hash_length n) 0 0)
        (set_flags (Z.lor (flags n) RM_NODE_ME) n))
  else
    nput M (Some x) (fun n =>
      set_bucket (find_bucket map_name map_name_len (hash_buffer n) (hash_length n) (ip n) (port n))
        (set_flags (Z.land (flags n) (Z.lnot RM_NODE_ME)) n)).

Fixpoint connection_loop (M : mem) (l : list range_map_t) : cres mem :=
  match l with
  | [] => Ret M
  | m :: l =>
      c ← rd (name m) 0;
      if c =? 0 then connection_loop M l
      else
        M ← each_node (list_fuel M) M (connection_body (name m)) (all_list m);
        connection_loop M l
  end.

Definition esq_range_map_flush_range_node_bucket_connection (S : state) : cres state :=
  M ← connection_loop (memory S) (range_map_list S);
  Ret (State M (range_map_list S)).

(** ** Removing everything *)

Fixpoint free_loop (fuel : nat) (M : mem) (p : ptr) : cres mem :=
  match fuel with
  | O => NoFuel
  | S fuel =>
      match p with
      | None => Ret M
      | Some x => n ← nget M p all_node_list_next; free_loop fuel (mfree M x) n
      end
  end.

Definition range_map_free (M : mem) (m : range_map_t) : cres mem :=
  free_loop (list_fuel M) M (all_list m).

(** Over the maps of the table in order. *)
Fixpoint destroy_loop (M : mem) (l : list range_map_t) : cres (mem * list range_map_t) :=
  match l with
  | [] => Ret (M, [])
  | m :: l =>
      c ← rd (name m) 0;
      '(M, m) ← (if c =? 0 then Ret (M, m)
                 else M ← range_map_free M m; s ← wr (name m) 0 0; Ret (M, set_name s m));
      '(M, l) ← destroy_loop M l;
      Ret (M, m :: l)
  end.

Definition range_map_destroy (S : state) : cres state :=
  '(M, l) ← destroy_loop (memory S) (range_map_list S); Ret (State M l).
End Table.
