(* ===== verification/RangeIndex.v ===== *)
(** * The index of a range map

    What the trees and chains of [RangeMap] stand for.  [matches] is the specification of a
    lookup: the nodes whose key is a prefix of the hash, longest keys first, in the order
    of the list within a key.  [indexed] says that the trees hold the first node of every
    key and that the nodes of a key are chained; rebuilding a map establishes it for the
    nodes that are not marked as deleted, and a lookup follows [matches]. *)
From stdpp Require Import strings sorting.
From S2P Require Import Prelude CString LinkedList RbTree Scan RangeMap.

#[global] Arguments nget : simpl never.
#[global] Arguments nput : simpl never.
#[global] Arguments tree_of : simpl never.

(** ** Keys *)

Lemma memcmp_take a b n :
  (n <= length a)%nat → (n <= length b)%nat → memcmp a b n = memcmp (take n a) (take n b) n.
Proof.
  revert a b; induction n as [|n IH]; intros [|x a] [|y b]; simpl; try lia; try done.
  intros Ha Hb. by rewrite <- IH by lia.
Qed.

Definition node_key (n : range_node_t) : list Z := take (Z.to_nat (hash_length n)) (hash_buffer n).

Definition node_ok (n : range_node_t) : Prop :=
  0 <= hash_length n < 32 ∧ length (hash_buffer n) = 40%nat ∧ Forall is_byte (hash_buffer n).

Lemma node_key_length n : node_ok n → length (node_key n) = Z.to_nat (hash_length n).
Proof. intros (Hl & Hb & _). unfold node_key. rewrite length_take. lia. Qed.

Lemma compare_key hash n i :
  node_ok n → hash_length n = Z.of_nat i → (i <= length hash)%nat →
  range_node_compare (Z.of_nat i) hash n = Ret (bytes_cmp (take i hash) (node_key n)).
Proof.
  intros Hok Hi Hh. pose proof (node_key_length n Hok) as Hk. destruct Hok as (Hl & Hb & _).
  unfold range_node_compare, c_memcmp. rewrite Hi, Z.eqb_refl. simpl.
  rewrite decide_True by lia. rewrite Nat2Z.id. f_equal.
  assert (Ht : length (take i hash) = i) by (rewrite length_take; lia).
  unfold bytes_cmp. rewrite decide_True by (rewrite Ht, Hk; lia). rewrite Ht.
  unfold node_key. rewrite Hi, Nat2Z.id. apply memcmp_take; lia.
Qed.

(** ** Groups and chains *)

Section Spec.
Context (kf : loc → option (list Z)).

(** The nodes that have the key [k], in order. *)
Definition group (V : list loc) (k : list Z) : list loc := filter (fun x => kf x = Some k) V.

(** The nodes whose key is one of the first [l] prefixes of [hash]. *)
Fixpoint matches (V : list loc) (hash : list Z) (l : nat) : list loc :=
  group V (take l hash) ++ match l with O => [] | S l => matches V hash l end.

(** The nodes behind a group in its chain. *)
Definition shorter (V : list loc) (k : list Z) : list loc :=
  match length k with O => [] | S l => matches V k l end.

Lemma elem_of_group V k x : x ∈ group V k ↔ x ∈ V ∧ kf x = Some k.
Proof. unfold group. rewrite list_elem_of_filter. naive_solver. Qed.

Lemma group_app V V' k : group (V ++ V') k = group V k ++ group V' k.
Proof. apply filter_app. Qed.

Lemma group_one_same x k : kf x = Some k → group [x] k = [x].
Proof. intros H. unfold group. by rewrite filter_cons_True. Qed.

Lemma group_one_other x k : kf x ≠ Some k → group [x] k = [].
Proof. intros H. unfold group. by rewrite filter_cons_False. Qed.

Lemma head_elem {A} (l : list A) x : head l = Some x → x ∈ l.
Proof. destruct l; simpl; [done|]. intros [= ->]. set_solver. Qed.

Lemma group_head V k x : head (group V k) = Some x → x ∈ V ∧ kf x = Some k.
Proof. intros H%head_elem. by apply elem_of_group. Qed.

(** Keys have their own lengths: a prefix of another length is another key. *)
Lemma elem_of_matches V hash l x :
  (l <= length hash)%nat →
  x ∈ matches V hash l ↔ x ∈ V ∧ ∃ k, kf x = Some k ∧ k `prefix_of` hash ∧ (length k <= l)%nat.
Proof.
  induction l as [|l IH]; intros Hl; simpl; rewrite elem_of_app, elem_of_group.
  - split.
    + intros [[Hx Hk]|Hx]; [|set_solver]. split; [done|]. exists []. split; [done|].
      split; [apply prefix_nil|done].
    + intros [Hx (k & Hk & _ & Hlen)]. left. destruct k; [done|simpl in Hlen; lia].
  - rewrite IH by lia. split.
    + intros [[Hx Hk]|(Hx & k & Hk & Hp & Hlen)]; (split; [done|]).
      * exists (take (S l) hash). split; [done|]. split; [apply prefix_take|].
        rewrite length_take. lia.
      * exists k. split; [done|]. split; [done|]. lia.
    + intros (Hx & k & Hk & Hp & Hlen). destruct (decide (length k = S l)) as [E|E].
      * left. split; [done|]. rewrite Hk. f_equal. destruct Hp as [r ->].
        by rewrite <- E, take_app_length.
      * right. split; [done|]. exists k. split; [done|]. split; [done|]. lia.
Qed.

Lemma matches_take V hash i l :
  (l <= i)%nat → matches V (take i hash) l = matches V hash l.
Proof.
  induction l as [|l IH]; intros Hl; simpl.
  - by rewrite take_take, Nat.min_l by lia.
  - rewrite take_take, Nat.min_l by lia. by rewrite IH by lia.
Qed.

(** Longest keys first. *)
Definition key_len (x : loc) : nat := match kf x with Some k => length k | None => O end.

Lemma matches_order V hash l :
  (l <= length hash)%nat → StronglySorted (fun x y => (key_len y <= key_len x)%nat) (matches V hash l).
Proof.
  assert (Hg : ∀ k, StronglySorted (fun x y => (key_len y <= key_len x)%nat) (group V k)).
  { intros k. assert (H : Forall (fun x => key_len x = length k) (group V k)).
    { apply Forall_forall. intros x [_ Hx]%elem_of_group. unfold key_len. by rewrite Hx. }
    induction (group V k) as [|x g IH]; constructor; apply Forall_cons_1 in H as [Hx H]; [by apply IH|].
    apply Forall_forall. intros y Hy. rewrite Forall_forall in H. rewrite (H y Hy). lia. }
  induction l as [|l IH]; intros Hl; simpl; [by rewrite app_nil_r|].
  apply StronglySorted_app_2; [|done|apply IH; lia].
  intros x y [_ Hx]%elem_of_group Hy. apply elem_of_matches in Hy as (_ & k & Hk & _ & Hlen); [|lia].
  unfold key_len. rewrite Hx, Hk, length_take. lia.
Qed.

End Spec.

(** [l] is chained by [next], and its last node to [e]. *)
Fixpoint seg (h : nodes) (l : list loc) (e : ptr) : Prop :=
  match l with
  | [] => True
  | x :: l' => (∃ n, h !! x = Some n ∧ next n = hd_or l' e) ∧ seg h l' e
  end.

Lemma seg_app h l l' e : seg h l (hd_or l' e) → seg h l' e → seg h (l ++ l') e.
Proof.
  induction l as [|x l IH]; simpl; [done|]. intros [(n & Hn & Hx) Hl] Hl'.
  split; [|by apply IH]. exists n. split; [done|]. rewrite Hx. by destruct l.
Qed.

Lemma seg_frame h h' l e : (∀ x, x ∈ l → next <$> h' !! x = next <$> h !! x) → seg h l e → seg h' l e.
Proof.
  induction l as [|x l IH]; simpl; [done|]. intros Hf [(n & Hn & Hx) Hl].
  split; [|apply IH; [set_solver|done]]. specialize (Hf x ltac:(set_solver)). rewrite Hn in Hf.
  simpl in Hf. destruct (h' !! x) as [n'|]; [|done]. exists n'. split; [done|]. injection Hf as ->. done.
Qed.

Lemma hd_or_None (l : list loc) : hd_or l None = head l.
Proof. by destruct l. Qed.


(** ** Nodes and chains in memory *)

(** What a rebuilding changes: the chains, and the entries of the nodes of [V]. *)
Record same_nodes (V : list loc) (M M' : mem) : Prop := {
  sn_nodes x : set_next None <$> nd M' !! x = set_next None <$> nd M !! x;
  sn_other x : x ∉ V → nd M' !! x = nd M !! x;
  sn_entries x : x ∉ V → en M' !! x = en M !! x
}.

Lemma same_nodes_refl V M : same_nodes V M M.
Proof. done. Qed.

Lemma same_nodes_trans V M1 M2 M3 : same_nodes V M1 M2 → same_nodes V M2 M3 → same_nodes V M1 M3.
Proof.
  intros [A1 B1 C1] [A2 B2 C2]. split; intros x; [by rewrite A2, A1|..]; intros Hx.
  - by rewrite B2, B1.
  - by rewrite C2, C1.
Qed.

Lemma same_nodes_mono V V' M M' : same_nodes V M M' → V ⊆ V' → same_nodes V' M M'.
Proof. intros [A B C] Hs. split; [done|..]; intros x Hx; [apply B|apply C]; set_solver. Qed.

Lemma erase_ok n n' : set_next None n' = set_next None n → node_ok n → node_ok n' ∧ node_key n' = node_key n.
Proof.
  intros E. unfold node_ok, node_key.
  assert (hash_length n' = hash_length n) as -> by (by apply (f_equal hash_length) in E).
  assert (hash_buffer n' = hash_buffer n) as -> by (by apply (f_equal hash_buffer) in E). done.
Qed.

Lemma same_nodes_lookup V M M' x n :
  same_nodes V M M' → nd M !! x = Some n → ∃ n', nd M' !! x = Some n' ∧ set_next None n' = set_next None n.
Proof.
  intros [A _ _] Hn. specialize (A x). rewrite Hn in A. simpl in A.
  destruct (nd M' !! x) as [n'|]; [|done]. apply (inj Some) in A. eauto.
Qed.

Lemma nput_ok M x n f :
  nd M !! x = Some n → nput M (Some x) f = Ret (Mem (<[x := f n]> (nd M)) (en M)).
Proof. intros H. unfold nput, upd. by rewrite H. Qed.

Lemma nget_ok {A} M x n (f : range_node_t → A) : nd M !! x = Some n → nget M (Some x) f = Ret (f n).
Proof. intros H. unfold nget, fld. by rewrite H. Qed.

(** Changing the [next] of one node. *)
Lemma same_nodes_next V M x n p :
  nd M !! x = Some n → x ∈ V → same_nodes V M (Mem (<[x := set_next p n]> (nd M)) (en M)).
Proof.
  intros Hn Hx. split; simpl; [|intros y Hy; apply lookup_insert_ne; set_solver|done].
  intros y. destruct (decide (x = y)) as [<-|Hne].
  - by rewrite lookup_insert_eq, Hn.
  - by rewrite lookup_insert_ne.
Qed.

(** Walking to the end of a chain. *)
Lemma last_of_ok fuel M x l :
  seg (nd M) (x :: l) None → (length l < fuel)%nat → last_of fuel M (Some x) = Ret (last (x :: l)).
Proof.
  revert x l; induction fuel as [|fuel IH]; intros x l [(n & Hn & Hx) Hl] Hf; [lia|].
  simpl. rewrite (nget_ok _ _ _ _ Hn). simpl. rewrite Hx. destruct l as [|y l]; simpl; [done|].
  apply (IH y l); [done|simpl in Hf; lia].
Qed.

Lemma list_fuel_ok M (l : list loc) :
  NoDup l → (∀ x, x ∈ l → is_Some (nd M !! x)) → (length l < list_fuel M)%nat.
Proof.
  intros Hn Hd. unfold list_fuel. enough (length l <= size (nd M))%nat by lia.
  rewrite <- size_dom, <- (size_list_to_set (C:=gset loc)) by done.
  apply subseteq_size. intros x Hx. rewrite elem_of_list_to_set in Hx. by apply elem_of_dom, Hd.
Qed.

#[local] Opaque list_fuel.

(** Setting where a chain leads to. *)
Lemma seg_set_last h l x n e p :
  seg h l e → last l = Some x → h !! x = Some n → NoDup l →
  seg (<[x := set_next p n]> h) l p.
Proof.
  intros Hs Hl Hx Hn. induction l as [|z l IH]; simpl in *; [done|].
  destruct Hs as [(nz & Hz & Ez) Hs]. apply NoDup_cons in Hn as [Hzn Hn].
  destruct l as [|z' l].
  - injection Hl as ->. split; [|done]. exists (set_next p n). by rewrite lookup_insert_eq.
  - split; [|by apply IH]. exists nz. rewrite lookup_insert_ne; [done|].
    intros ->. by apply Hzn, last_Some_elem_of.
Qed.

Lemma seg_insert_other h l e x n :
  x ∉ l → seg h l e → seg (<[x := n]> h) l e.
Proof.
  intros Hx Hs. eapply seg_frame; [|exact Hs]. intros y Hy.
  rewrite lookup_insert_ne; [done|set_solver].
Qed.

(** A piece of the list of all nodes, from the pointer [p] to the pointer [e]. *)
Fixpoint all_seg (h : nodes) (p : ptr) (l : list loc) (e : ptr) : Prop :=
  match l with
  | [] => p = e
  | x :: l' => p = Some x ∧ ∃ n, h !! x = Some n ∧ all_seg h (all_node_list_next n) l' e
  end.

Lemma all_seg_frame h h' p l e :
  (∀ x, x ∈ l → all_node_list_next <$> h' !! x = all_node_list_next <$> h !! x) →
  all_seg h p l e → all_seg h' p l e.
Proof.
  revert p; induction l as [|x l IH]; intros p; simpl; [done|]. intros Hf (-> & n & Hn & Hl).
  split; [done|]. pose proof (Hf x ltac:(set_solver)) as Hx. rewrite Hn in Hx. simpl in Hx.
  destruct (h' !! x) as [n'|]; [|done]. exists n'. split; [done|]. apply (inj Some) in Hx.
  rewrite Hx. apply IH; [set_solver|done].
Qed.

Lemma same_nodes_all V M M' p l e :
  same_nodes V M M' → all_seg (nd M) p l e → all_seg (nd M') p l e.
Proof.
  intros Hs. apply all_seg_frame. intros x _. pose proof (sn_nodes _ _ _ Hs x) as E.
  destruct (nd M' !! x) as [n'|], (nd M !! x) as [n|]; simpl in *; try done.
  apply (inj Some) in E. by apply (f_equal all_node_list_next) in E as E'; simpl in E'; rewrite E'.
Qed.

(** ** The index *)

Section Index.
Context (kf : loc → option (list Z)).

(** The trees hold the first node of every key of [V]; the nodes of a key [k] are chained
    and lead to [e k]. *)
Record indexed (e : list Z → ptr) (M : mem) (m : range_map_t) (V : list loc) : Prop := {
  ix_nodup : NoDup V;
  ix_nodes x : x ∈ V → ∃ n, nd M !! x = Some n ∧ node_ok n ∧ kf x = Some (node_key n);
  ix_roots : length (rb_by_length m) = 32%nat;
  ix_trees : ∃ Ts : nat → list loc, ∀ i r, rb_by_length m !! i = Some r →
    holds (Rb r (en M)) (Ts i) ∧ sorted bytes_cmp kf (Ts i) ∧
    ∀ x, x ∈ Ts i ↔ ∃ k, length k = i ∧ head (group kf V k) = Some x;
  ix_chains k : seg (nd M) (group kf V k) (e k)
}.

(** The tree of one length, cut at the key looked for. *)
Lemma tree_cut e M m V i hash :
  indexed e M m V → (i < 32)%nat → (i <= length hash)%nat →
  ∃ r T A B, rb_by_length m !! i = Some r ∧ holds (Rb r (en M)) T ∧ sorted bytes_cmp kf T ∧
    (∀ x, x ∈ T ↔ ∃ k, length k = i ∧ head (group kf V k) = Some x) ∧
    cut (key_cmp bytes_cmp kf (take i hash)) T A (head (group kf V (take i hash))) B ∧
    cut (node_cmp M (Z.of_nat i) hash) T A (head (group kf V (take i hash))) B.
Proof.
  intros [Hnd Hno Hro (Ts & HTs) _] Hi Hh.
  destruct (lookup_lt_is_Some_2 (rb_by_length m) i) as [r Hr]; [lia|].
  destruct (HTs i r Hr) as (Hho & Hso & Hel).
  destruct (sorted_cut bytes_cmp kf (Ts i) (take i hash) Hso) as (A & p & B & Hc & Hp).
  replace (head (group kf V (take i hash))) with p.
  - exists r, (Ts i), A, B. split_and!; try done. eapply cut_ext; [|done]. intros x Hx.
    apply Hel in Hx as (k & Hk & Hx). apply group_head in Hx as [HxV Hkx].
    destruct (Hno x HxV) as (n & Hn & Hok & Ek). unfold node_cmp. rewrite (nget_ok _ _ _ _ Hn).
    unfold key_cmp. simpl. rewrite Hkx in Ek. injection Ek as Ek. rewrite Hkx.
    rewrite compare_key; [by rewrite Ek|done| |lia].
    pose proof (node_key_length n Hok) as Hlen. destruct Hok as (? & _). rewrite <- Ek in Hlen. lia.
  - assert (Ht : length (take i hash) = i) by (rewrite length_take; lia).
    destruct p as [x|].
    + destruct (proj1 (Hp x) eq_refl) as [Hx Hk]. apply Hel in Hx as (k & _ & Hx).
      pose proof (proj2 (group_head _ _ _ _ Hx)) as Hk'. congruence.
    + destruct (head (group kf V (take i hash))) as [x|] eqn:E; [|done].
      apply Hp. split; [|by apply group_head in E as [_ ?]]. apply Hel. eauto.
Qed.

(** The search in the tree of one length. *)
Lemma find_head e M m V i hash :
  indexed e M m V → (i < 32)%nat → (i <= length hash)%nat →
  ∃ T, tree_of M m (Z.of_nat i) = Ret T ∧
       RB_FIND T (node_cmp M (Z.of_nat i) hash) = Ret (head (group kf V (take i hash))).
Proof.
  intros Hix Hi Hh. destruct (tree_cut _ _ _ _ _ _ Hix Hi Hh) as (r & T & A & B & Hr & Hho & _ & _ & _ & Hc).
  exists (Rb r (en M)). split; [unfold tree_of; by rewrite (rd_nat _ _ _ Hr)|]. by eapply RB_FIND_ok.
Qed.

Lemma group_NoDup V k : NoDup V → NoDup (group kf V k).
Proof. apply NoDup_filter. Qed.

Lemma group_disjoint V V' k k' x : x ∈ group kf V k → x ∈ group kf V' k' → k = k'.
Proof. rewrite !elem_of_group. intros [_ H] [_ H']. congruence. Qed.

(** ** Loading the nodes *)

Lemma indexed_nodes e M M' m V x :
  indexed e M m V → same_nodes V M M' → x ∈ V →
  ∃ n, nd M' !! x = Some n ∧ node_ok n ∧ kf x = Some (node_key n).
Proof.
  intros Hix Hs Hx. destruct (ix_nodes _ _ _ _ Hix x Hx) as (n & Hn & Hok & Hk).
  destruct (same_nodes_lookup _ _ _ _ _ Hs Hn) as (n' & Hn' & E).
  destruct (erase_ok _ _ E Hok) as [Hok' Hk']. exists n'. by rewrite Hk'.
Qed.

Lemma group_head_snoc V p k k' :
  kf p = Some k → group kf V k ≠ [] →
  head (group kf (V ++ [p]) k') = head (group kf V k').
Proof.
  intros Hp Hne. rewrite group_app. destruct (decide (k' = k)) as [->|Hk].
  - destruct (group kf V k); done.
  - rewrite group_one_other by congruence. by rewrite app_nil_r.
Qed.

(** No chain leads anywhere yet. *)
Definition no_exit (k : list Z) : ptr := None.

(** The node joins the chain of its key. *)
Lemma load_behind M m V p n s g :
  indexed no_exit M m V → p ∉ V → nd M !! p = Some n → node_ok n → kf p = Some (node_key n) →
  next n = None → group kf V (node_key n) = s :: g →
  ∃ M', (l ← last_of (list_fuel M) M (Some s); nput M l (set_next (Some p))) = Ret M' ∧
        indexed no_exit M' m (V ++ [p]) ∧ same_nodes (V ++ [p]) M M'.
Proof.
  intros Hix Hp Hn Hok Hk Hnx Hg. set (k := node_key n) in *.
  pose proof (ix_nodup _ _ _ _ Hix) as HV.
  pose proof (ix_chains _ _ _ _ Hix k) as Hsg. rewrite Hg in Hsg.
  assert (HgV : ∀ x, x ∈ s :: g → x ∈ V) by (intros x; rewrite <- Hg, elem_of_group; naive_solver).
  assert (Hgn : NoDup (s :: g)) by (rewrite <- Hg; by apply NoDup_filter).
  assert (Hfu : (length g < list_fuel M)%nat).
  { assert (Hl : (length (s :: g) < list_fuel M)%nat); [|simpl in Hl; lia].
    apply list_fuel_ok; [done|]. intros x Hx.
    destruct (ix_nodes _ _ _ _ Hix x (HgV x Hx)) as (n' & Hn' & _). eauto. }
  rewrite (last_of_ok _ _ _ _ Hsg Hfu). simpl.
  destruct (last (s :: g)) as [z|] eqn:Ez; [|by apply last_None in Ez].
  assert (Hz : z ∈ s :: g) by (by apply last_Some_elem_of).
  destruct (ix_nodes _ _ _ _ Hix z (HgV z Hz)) as (nz & Hnz & _ & Hkz).
  assert (Hzp : z ≠ p) by (intros ->; by apply Hp, HgV).
  rewrite <- Ez. simpl last in Ez |- *. rewrite Ez. rewrite (nput_ok _ _ _ _ Hnz).
  eexists. split; [done|].
  assert (Hsn : same_nodes (V ++ [p]) M (Mem (<[z := set_next (Some p) nz]> (nd M)) (en M))).
  { apply same_nodes_next; [done|]. apply elem_of_app. left. by apply HgV. }
  split; [|done]. split.
  - apply NoDup_app. split; [done|]. split; [set_solver|apply NoDup_singleton].
  - intros x Hx. apply elem_of_app in Hx as [Hx|Hx].
    + destruct (ix_nodes _ _ _ _ Hix x Hx) as (nx & Hnx' & Hokx & Hkx).
      destruct (same_nodes_lookup _ _ _ _ _ Hsn Hnx') as (n' & Hn' & E).
      destruct (erase_ok _ _ E Hokx) as [Hok' Hk']. exists n'. by rewrite Hk'.
    + assert (x = p) as -> by set_solver. exists n. simpl. by rewrite lookup_insert_ne.
  - apply (ix_roots _ _ _ _ Hix).
  - destruct (ix_trees _ _ _ _ Hix) as (Ts & HTs). exists Ts. intros i r Hr.
    destruct (HTs i r Hr) as (Hho & Hso & Hel). split; [done|]. split; [done|].
    intros x. rewrite Hel. by setoid_rewrite (group_head_snoc V p k); [|done|rewrite Hg].
  - intros k'. rewrite group_app. destruct (decide (k' = k)) as [->|Hkk].
    + rewrite group_one_same by done. rewrite Hg. apply seg_app.
      * simpl hd_or. by eapply seg_set_last.
      * simpl. split; [|done]. exists n. by rewrite lookup_insert_ne.
    + rewrite group_one_other by congruence. rewrite app_nil_r. apply seg_insert_other.
      * rewrite elem_of_group. rewrite <- Hg, elem_of_group in Hz. destruct Hz. intros [_ ?]. congruence.
      * apply (ix_chains _ _ _ _ Hix).
Qed.

(** The node is the first of its key: it goes into the tree of its length. *)
Lemma load_first M m V p n i :
  indexed no_exit M m V → p ∉ V → nd M !! p = Some n → node_ok n → kf p = Some (node_key n) →
  next n = None → group kf V (node_key n) = [] → i = Z.to_nat (hash_length n) →
  ∃ r T roots, rb_by_length m !! i = Some r ∧
    RB_INSERT (Rb r (en M)) (node_cmp M (Z.of_nat i) (hash_buffer n)) p = Ret (None, T) ∧
    wr (rb_by_length m) (Z.of_nat i) (rbh_root T) = Ret roots ∧
    indexed no_exit (Mem (nd M) (rb_cells T)) (set_roots roots m) (V ++ [p]) ∧
    same_nodes (V ++ [p]) M (Mem (nd M) (rb_cells T)).
Proof.
  intros Hix Hp Hn Hok Hk Hnx Hg Hi. pose proof (node_key_length n Hok) as Hkl.
  destruct Hok as (Hlen & Hbuf & Hby). assert (Hi32 : (i < 32)%nat) by lia.
  assert (Hti : take i (hash_buffer n) = node_key n) by (unfold node_key; by rewrite Hi).
  destruct (tree_cut _ _ _ _ i (hash_buffer n) Hix Hi32) as (r & T & A & B & Hr & Hho & Hso & Hel & Hck & Hcn);
    [lia|].
  rewrite Hti, Hg in Hck, Hcn. simpl in Hck, Hcn.
  assert (HTV : ∀ x, x ∈ T → x ∈ V).
  { intros x (k & _ & Hx)%Hel. by apply group_head in Hx as [? _]. }
  destruct (RB_INSERT_new _ _ p _ _ _ Hho Hcn) as (T' & E & Hho' & Hfr & _); [naive_solver|].
  exists r, T', (<[i := rbh_root T']> (rb_by_length m)). split; [done|]. split; [done|].
  pose proof (ix_roots _ _ _ _ Hix) as Hro. split; [apply wr_nat; lia|].
  pose proof (cut_split _ _ _ _ _ Hck) as HT. simpl in HT.
  assert (Hgp : ∀ k, group kf (V ++ [p]) k = if decide (k = node_key n) then [p] else group kf V k).
  { intros k. rewrite group_app. destruct (decide (k = node_key n)) as [->|Hne].
    - by rewrite Hg, group_one_same.
    - rewrite group_one_other by congruence. by rewrite app_nil_r. }
  split; [split|].
  - apply NoDup_app. split; [apply (ix_nodup _ _ _ _ Hix)|]. split; [set_solver|apply NoDup_singleton].
  - intros x Hx. apply elem_of_app in Hx as [Hx|Hx]; [by apply (ix_nodes _ _ _ _ Hix)|].
    assert (x = p) as -> by set_solver. by exists n.
  - simpl. by rewrite length_insert.
  - destruct (ix_trees _ _ _ _ Hix) as (Ts & HTs).
    exists (fun j => if decide (j = i) then A ++ p :: B else Ts j). intros j rj Hj. simpl in Hj.
    destruct (decide (j = i)) as [->|Hji].
    + rewrite list_lookup_insert_eq in Hj by lia. injection Hj as <-.
      split; [by destruct T'|]. rewrite HT in Hso, Hck.
      split; [exact (sorted_insert bytes_cmp kf (node_key n) A p B Hso Hck Hk)|].
      intros x. setoid_rewrite Hgp. transitivity (x = p ∨ x ∈ T); [rewrite HT; set_solver|].
      rewrite Hel. split.
      * intros [->|(k & Hkl' & Hx)].
        { exists (node_key n). split; [lia|]. by rewrite decide_True. }
        exists k. split; [done|]. rewrite decide_False; [done|]. intros ->. by rewrite Hg in Hx.
      * intros (k & Hkl' & Hx). case_decide; [injection Hx as <-; by left|right; eauto].
    + rewrite list_lookup_insert_ne in Hj by done. destruct (HTs j rj Hj) as (Hhj & Hsj & Helj).
      split; [|split; [done|]].
      * apply (rb_holds_frame (Rb rj (en M))); [|done|done]. intros x Hx. simpl. apply Hfr.
        apply Helj in Hx as (k & Hkj & Hx). apply group_head in Hx as [HxV Hkx].
        rewrite elem_of_cons. intros [->|Hxi]; [done|].
        apply Hel in Hxi as (k' & Hki & Hx'). apply group_head in Hx' as [_ Hkx']. congruence.
      * intros x. rewrite Helj. setoid_rewrite Hgp. split; intros (k & Hkj & Hx); exists k;
          (split; [done|]); case_decide; subst; try done; lia.
  - intros k. simpl. rewrite Hgp. case_decide; [|apply (ix_chains _ _ _ _ Hix)].
    simpl. split; [|done]. by exists n.
  - split; [done|done|]. intros x Hx. simpl. apply Hfr. set_solver.
Qed.

Lemma load_node_ok M m V p n :
  indexed no_exit M m V → p ∉ V → nd M !! p = Some n → node_ok n → kf p = Some (node_key n) →
  next n = None →
  ∃ M' roots, range_map_load_node M m p = Ret (M', set_roots roots m) ∧
    indexed no_exit M' (set_roots roots m) (V ++ [p]) ∧ same_nodes (V ++ [p]) M M'.
Proof.
  intros Hix Hp Hn Hok Hk Hnx. unfold range_map_load_node. rewrite !(nget_ok _ _ _ _ Hn). simpl.
  set (i := Z.to_nat (hash_length n)).
  assert (Hi : hash_length n = Z.of_nat i) by (unfold i; destruct Hok; lia).
  destruct (find_head _ _ _ _ i (hash_buffer n) Hix) as (T & ET & EF); [destruct Hok; lia..|].
  rewrite Hi, ET. simpl. rewrite EF. simpl.
  replace (take i (hash_buffer n)) with (node_key n) by done.
  destruct (group kf V (node_key n)) as [|s g] eqn:Hg; simpl.
  - destruct (load_first _ _ _ _ _ i Hix Hp Hn Hok Hk Hnx Hg eq_refl)
      as (r & T' & roots & Hr & EI & EW & Hix' & Hsn).
    unfold tree_of in ET. rewrite (rd_nat _ _ _ Hr) in ET. simpl in ET. injection ET as <-.
    rewrite EI. simpl. rewrite EW. simpl. eauto.
  - destruct (load_behind _ _ _ _ _ _ _ Hix Hp Hn Hok Hk Hnx Hg) as (M' & E & Hix' & Hsn).
    exists M', (rb_by_length m). replace (set_roots (rb_by_length m) m) with m by (by destruct m).
    apply cres_bind_Ret in E as (l & -> & E). simpl. rewrite E. simpl. auto.
Qed.

Lemma indexed_insert_other e M m V x n :
  x ∉ V → indexed e M m V → indexed e (Mem (<[x := n]> (nd M)) (en M)) m V.
Proof.
  intros Hx [Hnd Hno Hro Htr Hch]. split; [done| |done|done|]; simpl.
  - intros y Hy. rewrite lookup_insert_ne by set_solver. auto.
  - intros k. apply seg_insert_other; [|done]. rewrite elem_of_group. naive_solver.
Qed.

Definition key_known (M : mem) (x : loc) : Prop :=
  ∃ n, nd M !! x = Some n ∧ node_ok n ∧ kf x = Some (node_key n).

Lemma key_known_same V M M' x : same_nodes V M M' → key_known M x → key_known M' x.
Proof.
  intros Hs (n & Hn & Hok & Hk). destruct (same_nodes_lookup _ _ _ _ _ Hs Hn) as (n' & Hn' & E).
  destruct (erase_ok _ _ E Hok) as [Hok' Hk']. exists n'. by rewrite Hk'.
Qed.

Lemma load_loop_ok fuel M m V W p :
  indexed no_exit M m V → all_seg (nd M) p W None → NoDup (V ++ W) → (∀ x, x ∈ W → key_known M x) →
  (length W < fuel)%nat →
  ∃ M' roots, load_loop fuel M m p = Ret (M', set_roots roots m) ∧
    indexed no_exit M' (set_roots roots m) (V ++ W) ∧ same_nodes (V ++ W) M M'.
Proof.
  revert fuel M m V p; induction W as [|x W IH]; intros fuel M m V p Hix Hal Hnd Hkn Hf;
    (destruct fuel as [|fuel]; [simpl in Hf; lia|]); simpl in Hal.
  { subst p. exists M, (rb_by_length m). rewrite app_nil_r.
    replace (set_roots (rb_by_length m) m) with m by (by destruct m). simpl. auto using same_nodes_refl. }
  destruct Hal as (-> & n0 & Hn0 & Hal). destruct (Hkn x) as (n & Hn & Hok & Hk); [set_solver|].
  rewrite Hn in Hn0. injection Hn0 as <-.
  assert (HxV : x ∉ V). { intros H. apply NoDup_app in Hnd as (_ & Hd & _). apply (Hd x H). set_solver. }
  set (M1 := Mem (<[x := set_next None n]> (nd M)) (en M)).
  assert (Hs1 : same_nodes (V ++ [x]) M M1) by (apply same_nodes_next; [done|set_solver]).
  destruct (load_node_ok M1 m V x (set_next None n)) as (M2 & roots & E2 & Hix2 & Hs2);
    [by apply indexed_insert_other|done|by simpl; rewrite lookup_insert_eq|done|done|done|].
  assert (Hs12 : same_nodes (V ++ [x]) M M2) by (by eapply same_nodes_trans).
  destruct (IH fuel M2 (set_roots roots m) (V ++ [x]) (all_node_list_next n))
    as (M3 & roots' & E3 & Hix3 & Hs3);
    [done|by eapply same_nodes_all|by rewrite <- app_assoc| |simpl in Hf; lia|].
  { intros y Hy. eapply key_known_same; [done|]. apply Hkn. set_solver. }
  rewrite <- app_assoc in Hix3, Hs3. exists M3, roots'. split; [|split].
  - simpl. rewrite (nput_ok _ _ _ _ Hn). simpl. fold M1. rewrite E2. simpl.
    destruct (same_nodes_lookup _ _ _ _ _ Hs12 Hn) as (n2 & Hn2 & En2).
    rewrite (nget_ok _ _ _ _ Hn2). simpl.
    replace (all_node_list_next n2) with (all_node_list_next n)
      by (by apply (f_equal all_node_list_next) in En2).
    exact E3.
  - exact Hix3.
  - eapply same_nodes_trans; [|done]. eapply same_nodes_mono; [done|set_solver].
Qed.

(** ** Linking the chains *)

(** The groups whose first node is in [P] lead to the nodes of shorter keys. *)
Definition exits (V : list loc) (P : gset loc) (k : list Z) : ptr :=
  match head (group kf V k) with
  | Some x => if decide (x ∈ P) then head (shorter kf V k) else None
  | None => None
  end.

Lemma indexed_exit e e' M m V :
  (∀ k, group kf V k ≠ [] → e' k = e k) → indexed e M m V → indexed e' M m V.
Proof.
  intros He [Hnd Hno Hro Htr Hch]. split; try done. intros k.
  destruct (group kf V k) as [|x g] eqn:E; [done|]. rewrite He by (by rewrite E).
  rewrite <- E. apply Hch.
Qed.

Lemma link_loop_ok e M m V hash n l :
  indexed e M m V → (l < 32)%nat → (l <= length hash)%nat →
  link_loop M m hash n l = match head (matches kf V hash l) with
                           | None => Ret M
                           | p => k ← last_of (list_fuel M) M n; nput M k (set_next p)
                           end.
Proof.
  intros Hix. induction l as [|l IH]; intros Hl Hh;
    destruct (find_head _ _ _ _ _ hash Hix Hl Hh) as (T & ET & EF); simpl;
    rewrite ET; simpl; rewrite EF; simpl.
  - rewrite app_nil_r. by destruct (group kf V (take 0 hash)).
  - destruct (group kf V (take (S l) hash)) as [|x g] eqn:E; simpl; [|done]. apply IH; lia.
Qed.

(** The last node of a chain is made to lead to [p]. *)
Lemma set_exit e M m V k x p :
  indexed e M m V → head (group kf V k) = Some x → e k = None →
  ∃ M', (l ← last_of (list_fuel M) M (Some x); nput M l (set_next p)) = Ret M' ∧
    indexed (fun k' => if decide (k' = k) then p else e k') M' m V ∧ same_nodes V M M'.
Proof.
  intros Hix Hx Hek. destruct (group kf V k) as [|x' g] eqn:Hg; [done|]. injection Hx as ->.
  pose proof (ix_chains _ _ _ _ Hix k) as Hsg. rewrite Hg, Hek in Hsg.
  assert (HgV : ∀ y, y ∈ x :: g → y ∈ V ∧ kf y = Some k) by (intros y; by rewrite <- Hg, elem_of_group).
  assert (Hgn : NoDup (x :: g)) by (rewrite <- Hg; apply NoDup_filter, (ix_nodup _ _ _ _ Hix)).
  assert (Hfu : (length g < list_fuel M)%nat).
  { assert (Hl : (length (x :: g) < list_fuel M)%nat); [|simpl in Hl; lia].
    apply list_fuel_ok; [done|]. intros y Hy.
    destruct (ix_nodes _ _ _ _ Hix y (proj1 (HgV y Hy))) as (n' & Hn' & _). eauto. }
  rewrite (last_of_ok _ _ _ _ Hsg Hfu).
  destruct (last (x :: g)) as [z|] eqn:Ez; [|by apply last_None in Ez]. simpl.
  destruct (HgV z (last_Some_elem_of _ _ Ez)) as [HzV Hzk].
  destruct (ix_nodes _ _ _ _ Hix z HzV) as (nz & Hnz & _). rewrite (nput_ok _ _ _ _ Hnz).
  eexists. split; [done|].
  assert (Hsn : same_nodes V M (Mem (<[z := set_next p nz]> (nd M)) (en M))) by (by apply same_nodes_next).
  split; [|done]. split; simpl.
  - apply (ix_nodup _ _ _ _ Hix).
  - intros y Hy. by apply (indexed_nodes _ _ _ _ _ _ Hix Hsn Hy).
  - apply (ix_roots _ _ _ _ Hix).
  - apply (ix_trees _ _ _ _ Hix).
  - intros k'. case_decide as E; [subst k'|].
    + rewrite Hg. by eapply seg_set_last.
    + apply seg_insert_other; [|apply (ix_chains _ _ _ _ Hix)]. rewrite elem_of_group.
      intros [_ ?]. congruence.
Qed.

Lemma exits_step V P k x k' :
  head (group kf V k) = Some x → group kf V k' ≠ [] →
  exits V ({[x]} ∪ P) k' = if decide (k' = k) then head (shorter kf V k) else exits V P k'.
Proof.
  intros Hx Hne. unfold exits. destruct (head (group kf V k')) as [y|] eqn:Hy; [|by destruct (group kf V k')].
  case_decide as E.
  - destruct (decide (k' = k)) as [->|Hk]; [done|]. rewrite decide_True; [done|].
    apply elem_of_union in E as [E|E]; [|done]. apply elem_of_singleton in E as ->.
    apply group_head in Hx as [_ Hx]. apply group_head in Hy as [_ Hy]. congruence.
  - destruct (decide (k' = k)) as [->|Hk].
    + rewrite Hx in Hy. injection Hy as ->. exfalso. apply E. set_solver.
    + rewrite decide_False; [done|]. set_solver.
Qed.

(** One node of a tree is linked. *)
Lemma short_match_ok P M m V x k :
  indexed (exits V P) M m V → head (group kf V k) = Some x → x ∉ P →
  ∃ M', range_map_link_short_match M m (Z.of_nat (length k) - 1) x = Ret M' ∧
    indexed (exits V ({[x]} ∪ P)) M' m V ∧ same_nodes V M M'.
Proof.
  intros Hix Hx HxP. pose proof (group_head _ _ _ _ Hx) as [HxV Hxk].
  assert (Hek : exits V P k = None) by (unfold exits; by rewrite Hx, decide_False).
  destruct (ix_nodes _ _ _ _ Hix x HxV) as (n & Hn & Hok & Hkn).
  rewrite Hxk in Hkn. injection Hkn as Hkn. pose proof (node_key_length n Hok) as Hlen.
  unfold range_map_link_short_match. destruct (length k) as [|l] eqn:El.
  - exists M. split; [by destruct (Z.ltb_spec (Z.of_nat 0 - 1) 0); [|lia]|].
    split; [|apply same_nodes_refl]. eapply indexed_exit; [|done]. intros k' Hk'.
    rewrite (exits_step _ _ k) by done. case_decide; [subst|done].
    rewrite Hek. unfold shorter. by rewrite El.
  - destruct (Z.ltb_spec (Z.of_nat (S l) - 1) 0); [lia|]. rewrite (nget_ok _ _ _ _ Hn). simpl.
    replace (Z.to_nat (Z.of_nat (S l) - 1)) with l by lia. rewrite Hkn in El.
    rewrite El in Hlen. destruct Hok as (Hl & Hb & _).
    rewrite (link_loop_ok _ _ _ _ _ _ _ Hix) by lia.
    assert (Hsh : shorter kf V k = matches kf V (hash_buffer n) l).
    { unfold shorter. rewrite Hkn, El. unfold node_key. apply matches_take. lia. }
    destruct (set_exit _ _ _ _ _ _ (head (matches kf V (hash_buffer n) l)) Hix Hx Hek)
      as (M' & E & Hix' & Hs').
    destruct (head (matches kf V (hash_buffer n) l)) as [y|] eqn:Ey.
    + exists M'. split; [done|]. split; [|done]. eapply indexed_exit; [|done]. intros k' Hk'.
      rewrite (exits_step _ _ k) by done. by rewrite Hsh, Ey.
    + exists M. split; [done|]. split; [|apply same_nodes_refl]. eapply indexed_exit; [|done].
      intros k' Hk'. rewrite (exits_step _ _ k) by done. rewrite Hsh, Ey.
      case_decide; [by subst|done].
Qed.

(** All nodes of the tree of one length are linked. *)
Lemma cross_fold_ok i t P M m V lg :
  indexed (exits V P) M m V → NoDup t →
  (∀ x, x ∈ t → x ∉ P ∧ ∃ k, length k = i ∧ head (group kf V k) = Some x) →
  ∃ M', fold_m (cross_body m (Z.of_nat i)) (M, lg) t
        = Ret (M', if decide (t = []) then lg else if lg =? 0 then Z.of_nat i else lg) ∧
    indexed (exits V (list_to_set t ∪ P)) M' m V ∧ same_nodes V M M'.
Proof.
  revert P M lg; induction t as [|x t IH]; intros P M lg Hix Hn Ht; simpl.
  { exists M. split; [done|]. split; [|apply same_nodes_refl]. by rewrite union_empty_l_L. }
  apply NoDup_cons in Hn as [Hxt Hn]. destruct (Ht x) as (HxP & k & Hk & Hx); [set_solver|].
  destruct (short_match_ok _ _ _ _ _ _ Hix Hx HxP) as (M1 & E1 & Hix1 & Hs1). rewrite Hk in E1.
  destruct (IH ({[x]} ∪ P) M1 (if lg =? 0 then Z.of_nat i else lg) Hix1 Hn) as (M2 & E2 & Hix2 & Hs2).
  { intros y Hy. destruct (Ht y) as [HyP Hyk]; [set_solver|]. split; [set_solver|done]. }
  exists M2. split; [|split].
  - rewrite E1. simpl. rewrite E2. f_equal. f_equal.
    destruct (decide (t = [])); [done|]. destruct (Z.eqb_spec lg 0) as [->|]; [|by destruct (Z.eqb_spec lg 0)].
    by destruct (Z.of_nat i =? 0).
  - replace ({[x]} ∪ list_to_set t ∪ P) with (list_to_set t ∪ ({[x]} ∪ P) : gset loc) by set_solver.
    done.
  - by eapply same_nodes_trans.
Qed.

Lemma cross_loop_ok l P M m V lg :
  indexed (exits V P) M m V → (l <= 32)%nat →
  (∀ k x, head (group kf V k) = Some x → x ∈ P ↔ (l <= length k)%nat) →
  0 <= lg < 32 → (lg = 0 ∨ Z.of_nat l <= lg) →
  (∀ k, group kf V k ≠ [] → (l <= length k)%nat → Z.of_nat (length k) <= lg) →
  ∃ M' lg' P', cross_loop M m lg l = Ret (M', lg') ∧ indexed (exits V P') M' m V ∧ same_nodes V M M' ∧
    (∀ k x, head (group kf V k) = Some x → x ∈ P') ∧ 0 <= lg' < 32 ∧
    (∀ k, group kf V k ≠ [] → Z.of_nat (length k) <= lg').
Proof.
  revert P M lg; induction l as [|l IH]; intros P M lg Hix Hl HP Hlg Hlg0 Hmax.
  { exists M, lg, P. split_and!; try done.
    - intros k x Hx. apply (HP k x Hx). lia.
    - lia.
    - lia.
    - intros k Hk. apply Hmax; [done|lia]. }
  destruct (ix_trees _ _ _ _ Hix) as (Ts & HTs).
  destruct (lookup_lt_is_Some_2 (rb_by_length m) l) as [r Hr]; [rewrite (ix_roots _ _ _ _ Hix); lia|].
  destruct (HTs l r Hr) as (Hho & _ & Hel).
  destruct (cross_fold_ok l (Ts l) P M m V lg Hix) as (M1 & E1 & Hix1 & Hs1).
  { by eapply holds_NoDup. }
  { intros x Hx. apply Hel in Hx as (k & Hk & Hx). split; [|eauto].
    intros HxP. apply (HP k x Hx) in HxP. lia. }
  set (lg1 := if decide (Ts l = []) then lg else if lg =? 0 then Z.of_nat l else lg) in *.
  assert (Hlg1 : 0 <= lg1 < 32 ∧ (lg1 = 0 ∨ Z.of_nat l <= lg1) ∧ (lg = 0 ∨ lg1 = lg) ∧
    (Ts l ≠ [] → Z.of_nat l <= lg1)).
  { unfold lg1. destruct (decide (Ts l = [])); [split_and!; try lia; done|].
    destruct (Z.eqb_spec lg 0); split_and!; lia. }
  destruct Hlg1 as (Hr1 & Hz1 & Hs & Hne).
  destruct (IH (list_to_set (Ts l) ∪ P) M1 lg1 Hix1) as (M2 & lg2 & P2 & E2 & Hix2 & Hs2 & Hrest);
    [lia| |done|done| |].
  - intros k x Hx. rewrite elem_of_union, elem_of_list_to_set, Hel, (HP k x Hx). split.
    + intros [(k' & Hk' & Hx')|Hk']; [|lia]. apply group_head in Hx as [_ Hx].
      apply group_head in Hx' as [_ Hx']. rewrite Hx in Hx'. injection Hx' as ->. lia.
    + intros Hk'. destruct (decide (length k = l)); [left; eauto|right; lia].
  - intros k Hk Hlk. destruct (decide (length k = l)) as [E|E].
    + rewrite E. apply Hne. destruct (group kf V k) as [|x g] eqn:Hg; [done|].
      assert (Hx : x ∈ Ts l) by (apply Hel; exists k; by rewrite Hg).
      intros E0. rewrite E0 in Hx. by apply not_elem_of_nil in Hx.
    + specialize (Hmax k Hk ltac:(lia)). destruct Hs as [Hs|Hs]; lia.
  - exists M2, lg2, P2. split; [|split; [done|split; [by eapply same_nodes_trans|done]]].
    cbn [cross_loop]. unfold tree_of. rewrite (rd_nat _ _ _ Hr). cbn [mbind cres_bind].
    rewrite (RB_FOREACH_ok _ _ _ _ Hho), E1. simpl. exact E2.
Qed.

(** ** The finished index *)

Record built (M : mem) (m : range_map_t) (V : list loc) : Prop := {
  bu_index : ∃ P, indexed (exits V P) M m V ∧ ∀ k x, head (group kf V k) = Some x → x ∈ P;
  bu_longest : 0 <= longest m < 32;
  bu_max k : group kf V k ≠ [] → Z.of_nat (length k) <= longest m
}.

(** The chain of a hash holds exactly its matches. *)
Lemma built_chain M m V hash l :
  built M m V → (l <= length hash)%nat → (l < 32)%nat → seg (nd M) (matches kf V hash l) None.
Proof.
  intros [(P & Hix & HP) _ _]. revert hash; induction l as [|l IH]; intros hash Hh Hl; simpl.
  - rewrite app_nil_r. pose proof (ix_chains _ _ _ _ Hix (take 0 hash)) as Hc.
    replace (exits V P (take 0 hash)) with (@None loc) in Hc; [done|].
    unfold exits. destruct (head _); [|done]. by case_decide.
  - pose proof (ix_chains _ _ _ _ Hix (take (S l) hash)) as Hc. apply seg_app; [|apply IH; lia].
    rewrite hd_or_None. destruct (group kf V (take (S l) hash)) as [|x g] eqn:Hg; [done|].
    replace (head (matches kf V hash l)) with (exits V P (take (S l) hash)); [done|].
    unfold exits. rewrite Hg. simpl. rewrite decide_True by (eapply HP; by rewrite Hg).
    unfold shorter. rewrite length_take, Nat.min_l by lia. by rewrite matches_take by lia.
Qed.

Lemma find_loop_ok e M m V hash l :
  indexed e M m V → (l < 32)%nat → (l <= length hash)%nat →
  find_loop M m hash l = Ret (head (matches kf V hash l)).
Proof.
  intros Hix. induction l as [|l IH]; intros Hl Hh;
    destruct (find_head _ _ _ _ _ hash Hix Hl Hh) as (T & ET & EF); simpl;
    rewrite ET; simpl; rewrite EF; simpl.
  - rewrite app_nil_r. by destruct (group kf V (take 0 hash)).
  - destruct (group kf V (take (S l) hash)) as [|x g] eqn:E; simpl; [|done]. apply IH; lia.
Qed.

Lemma matches_longest M m V hash d :
  built M m V → (Z.to_nat (longest m) + d <= length hash)%nat →
  matches kf V hash (Z.to_nat (longest m) + d) = matches kf V hash (Z.to_nat (longest m)).
Proof.
  intros Hb. induction d as [|d IH]; intros Hl; [by rewrite Nat.add_0_r|].
  rewrite Nat.add_succ_r. simpl. rewrite IH by lia.
  destruct (group kf V (take (S (Z.to_nat (longest m) + d)) hash)) as [|x g] eqn:Hg; [done|].
  exfalso. assert (Hne : group kf V (take (S (Z.to_nat (longest m) + d)) hash) ≠ []) by (by rewrite Hg).
  apply (bu_max _ _ _ Hb) in Hne. rewrite length_take in Hne. destruct (bu_longest _ _ _ Hb). lia.
Qed.

Lemma find_ok M m V hash :
  built M m V → length hash = 32%nat →
  range_map_find M m hash = Ret (head (matches kf V hash 31)) ∧
  seg (nd M) (matches kf V hash 31) None.
Proof.
  intros Hb Hh. pose proof (bu_longest _ _ _ Hb) as Hlg. split; [|eapply built_chain; (done || lia)].
  unfold range_map_find. destruct (Z.ltb_spec (longest m) 0); [lia|].
  destruct (bu_index _ _ _ Hb) as (P & Hix & _).
  rewrite (find_loop_ok _ _ _ _ _ _ Hix) by lia. do 2 f_equal.
  replace 31%nat with (Z.to_nat (longest m) + (31 - Z.to_nat (longest m)))%nat by lia.
  symmetry. apply (matches_longest M m); [done|]. lia.
Qed.

(** Loading the nodes of the list into empty trees. *)
Lemma load_ok M m L :
  rb_by_length m = replicate 32 None → all_seg (nd M) (all_list m) L None → NoDup L →
  (∀ x, x ∈ L → key_known M x) →
  ∃ M' roots lg, range_map_load M m = Ret (M', set_longest lg (set_roots roots m)) ∧
    built M' (set_longest lg (set_roots roots m)) L ∧ same_nodes L M M'.
Proof.
  intros Hro Hal Hn Hkn.
  assert (Hix : indexed no_exit M m []).
  { split; [constructor|set_solver|by rewrite Hro| |done].
    exists (fun _ => []). intros i r Hr. rewrite Hro in Hr. apply lookup_replicate in Hr as [-> _].
    split; [apply (holds_init (Rb None (en M)))|]. split; [constructor|]. set_solver. }
  destruct (load_loop_ok (list_fuel M) M m [] L (all_list m) Hix Hal Hn Hkn) as (M1 & roots & E1 & Hix1 & Hs1).
  { apply list_fuel_ok; [done|]. intros x Hx. destruct (Hkn x Hx) as (n & Hx' & _). eauto. }
  simpl in Hix1, Hs1.
  destruct (cross_loop_ok 32 ∅ M1 (set_roots roots m) L 0) as (M2 & lg & P & E2 & Hix2 & Hs2 & HP & Hlg & Hmax);
    [|lia| |lia|by left| |].
  - eapply indexed_exit; [|done]. intros k _. unfold exits, no_exit.
    destruct (head _); [|done]. by rewrite decide_False by set_solver.
  - intros k x Hx. split; [set_solver|]. intros Hk. exfalso.
    apply group_head in Hx as [HxL Hkx]. destruct (Hkn x HxL) as (n & _ & Hok & Hkn').
    rewrite Hkx in Hkn'. injection Hkn' as ->. pose proof (node_key_length n Hok). destruct Hok. lia.
  - intros k Hk Hlen. exfalso. destruct (group kf L k) as [|x g] eqn:Hg; [done|].
    assert (Hx : head (group kf L k) = Some x) by (by rewrite Hg).
    apply group_head in Hx as [HxL Hkx]. destruct (Hkn x HxL) as (n & _ & Hok & Hkn').
    rewrite Hkx in Hkn'. injection Hkn' as ->. pose proof (node_key_length n Hok). destruct Hok. lia.
  - exists M2, roots, lg. unfold range_map_load. rewrite E1. simpl.
    unfold range_map_build_cross_depth_reference.
    rewrite (ix_roots _ _ _ _ Hix1).
    rewrite E2. simpl. split; [done|]. split; [|by eapply same_nodes_trans].
    split; [|done|done]. exists P. split; [|done]. destruct Hix2. by split.
Qed.
End Index.

(** ** Cleaning *)

Definition key_of (h : nodes) (x : loc) : option (list Z) := node_key <$> h !! x.

(** The node is marked to be removed. *)
Definition doomed (h : nodes) (x : loc) : bool :=
  match h !! x with Some n => negb (Z.land RM_NODE_DELETE (flags n) =? 0) | None => false end.

Definition alive (h : nodes) (l : list loc) : list loc := filter (fun x => doomed h x = false) l.

(** Two nodes that differ in their links only. *)
Definition unlinked (n : range_node_t) : range_node_t := set_next None (set_all_next None n).

(** What a cleaning of the nodes [l] leaves: the others as they were; of [l] the nodes that
    are not marked, without a chain. *)
Record cleaned (l : list loc) (M M' : mem) : Prop := {
  cl_other x : x ∉ l → nd M' !! x = nd M !! x ∧ en M' !! x = en M !! x;
  cl_dead x : x ∈ l → doomed (nd M) x = true → nd M' !! x = None;
  cl_alive x n : x ∈ l → nd M !! x = Some n → doomed (nd M) x = false →
    ∃ n', nd M' !! x = Some n' ∧ unlinked n' = unlinked n ∧ next n' = None
}.

Lemma all_seg_snoc h p l x n :
  all_seg h p l (Some x) → h !! x = Some n → all_seg h p (l ++ [x]) (all_node_list_next n).
Proof.
  revert p; induction l as [|y l IH]; intros p; simpl.
  - intros -> Hn. split; [done|]. by exists n.
  - intros (-> & ny & Hy & Hl) Hn. split; [done|]. exists ny. split; [done|]. by apply IH.
Qed.

Lemma all_seg_insert_other h p l e x n :
  x ∉ l → all_seg h p l e → all_seg (<[x := n]> h) p l e.
Proof.
  intros Hx. apply all_seg_frame. intros y Hy. rewrite lookup_insert_ne; [done|set_solver].
Qed.

Lemma all_seg_delete_other h p l e x : x ∉ l → all_seg h p l e → all_seg (delete x h) p l e.
Proof.
  intros Hx. apply all_seg_frame. intros y Hy. rewrite lookup_delete_ne; [done|set_solver].
Qed.

Lemma all_seg_set_last h p l x n e e' :
  all_seg h p (l ++ [x]) e → h !! x = Some n → NoDup (l ++ [x]) →
  all_seg (<[x := set_all_next e' n]> h) p (l ++ [x]) e'.
Proof.
  revert p; induction l as [|y l IH]; intros p; simpl.
  - intros (-> & n' & Hn' & _) Hn _. split; [done|]. exists (set_all_next e' n).
    by rewrite lookup_insert_eq.
  - intros (-> & ny & Hy & Hl) Hn [Hyl Hnd]%NoDup_cons. split; [done|]. exists ny.
    rewrite lookup_insert_ne by set_solver. split; [done|]. by apply IH.
Qed.

Lemma all_seg_elem h p l e x : all_seg h p l e → x ∈ l → is_Some (h !! x).
Proof.
  revert p; induction l as [|y l IH]; intros p; simpl; [set_solver|].
  intros (_ & n & Hn & Hl) [->|Hx]%elem_of_cons; [eauto|by eapply IH].
Qed.

Lemma alive_ext h h' l : (∀ y, y ∈ l → doomed h y = doomed h' y) → alive h l = alive h' l.
Proof.
  intros H. unfold alive. induction l as [|x l IH]; [done|]. rewrite !filter_cons.
  rewrite IH by set_solver. rewrite (H x) by set_solver. done.
Qed.

(** The pointer to a dead node is moved on: the one of the last node kept, or the head. *)
Lemma skip_ok M m D p q :
  all_seg (nd M) (all_list m) D p → NoDup D →
  ∃ M1 q1,
    match last D with
    | Some _ => M0 ← nput M (last D) (set_all_next q); Ret (M0, m)
    | None => Ret (M, set_all_list q m)
    end = Ret (M1, set_all_list q1 m) ∧ all_seg (nd M1) q1 D q ∧
    (∀ y, y ∉ D → nd M1 !! y = nd M !! y) ∧ en M1 = en M ∧
    (∀ y ny, y ∈ D → nd M !! y = Some ny →
       ∃ n', nd M1 !! y = Some n' ∧ unlinked n' = unlinked ny ∧ next n' = next ny).
Proof.
  intros HD HnD. destruct (last D) as [z|] eqn:Ez.
  - apply last_Some in Ez as [D0 ->]. destruct (all_seg_elem _ _ _ _ z HD) as [nz Hz]; [set_solver|].
    rewrite (nput_ok _ _ _ _ Hz). simpl. eexists _, (all_list m).
    replace (set_all_list (all_list m) m) with m by (by destruct m). split; [done|]. simpl.
    split; [by eapply all_seg_set_last|]. split; [|split; [done|]].
    + intros y Hy. apply lookup_insert_ne. set_solver.
    + intros y ny Hy Hny. destruct (decide (y = z)) as [->|Hne].
      * rewrite lookup_insert_eq. rewrite Hz in Hny. injection Hny as <-. eauto.
      * rewrite lookup_insert_ne by done. eauto.
  - apply last_None in Ez as ->. eexists _, _. split; [done|]. split_and!; try done. set_solver.
Qed.

(** The loop: [D] has been kept so far, [W] is to be done. *)
Lemma clean_loop_ok fuel M m D W p :
  all_seg (nd M) (all_list m) D p → all_seg (nd M) p W None → NoDup (D ++ W) →
  (length W < fuel)%nat →
  ∃ M' q, clean_loop fuel M m (last D) p = Ret (M', set_all_list q m) ∧
    all_seg (nd M') q (D ++ alive (nd M) W) None ∧
    (∀ x, x ∉ D ++ W → nd M' !! x = nd M !! x ∧ en M' !! x = en M !! x) ∧
    (∀ x, x ∈ W → doomed (nd M) x = true → nd M' !! x = None) ∧
    (∀ x n, x ∈ D → nd M !! x = Some n →
       ∃ n', nd M' !! x = Some n' ∧ unlinked n' = unlinked n ∧ next n' = next n) ∧
    (∀ x n, x ∈ W → nd M !! x = Some n → doomed (nd M) x = false →
       ∃ n', nd M' !! x = Some n' ∧ unlinked n' = unlinked n ∧ next n' = None).
Proof.
  revert fuel M m D p; induction W as [|x W IH]; intros fuel M m D p HD HW Hn Hf;
    (destruct fuel as [|fuel]; [simpl in Hf; lia|]); simpl in HW.
  { subst p. exists M, (all_list m). replace (set_all_list (all_list m) m) with m by (by destruct m).
    simpl. rewrite !app_nil_r. split_and!; try done; try set_solver. }
  destruct HW as (-> & n & Hx & HW). apply NoDup_app in Hn as (HnD & HDW & HnW).
  apply NoDup_cons in HnW as [HxW HnW].
  assert (HxD : x ∉ D) by (intros Hd; apply (HDW x Hd); set_solver).
  assert (Hdo : doomed (nd M) x = negb (Z.land RM_NODE_DELETE (flags n) =? 0))
    by (unfold doomed; by rewrite Hx).
  simpl. rewrite !(nget_ok _ _ _ _ Hx). simpl. rewrite <- Hdo.
  destruct (doomed (nd M) x) eqn:Ed.
  - destruct (skip_ok M m D _ (all_node_list_next n) HD HnD) as (M1 & q1 & -> & HD1 & Ho1 & Hen1 & Hk1).
    simpl.
    assert (HW1 : all_seg (nd M1) (all_node_list_next n) W None).
    { eapply all_seg_frame; [|exact HW]. intros y Hy. rewrite Ho1; [done|]. intros Hd. apply (HDW y Hd). set_solver. }
    assert (Hdm : ∀ y, y ∈ W → doomed (nd (mfree M1 x)) y = doomed (nd M) y).
    { intros y Hy. unfold doomed. simpl. rewrite lookup_delete_ne by set_solver. rewrite Ho1; [done|].
      intros Hd. apply (HDW y Hd). set_solver. }
    destruct (IH fuel (mfree M1 x) (set_all_list q1 m) D (all_node_list_next n))
      as (M2 & q & E & Hal & Hoth & Hdead & HkD & HkW).
    { by apply all_seg_delete_other. }
    { by apply all_seg_delete_other. }
    { apply NoDup_app. split; [done|]. split; [set_solver|done]. }
    { simpl in Hf. lia. }
    exists M2, q. split; [done|]. split_and!.
    + replace (alive (nd M) (x :: W)) with (alive (nd (mfree M1 x)) W); [done|].
      unfold alive. rewrite filter_cons_False by congruence. apply alive_ext. auto.
    + intros y Hy. destruct (Hoth y) as [-> ->]; [set_solver|]. simpl.
      rewrite !lookup_delete_ne by set_solver. rewrite Hen1, Ho1 by set_solver. done.
    + intros y [->|Hy]%elem_of_cons Hdy; [|apply Hdead; [done|by rewrite Hdm]].
      destruct (Hoth x) as [-> _]; [set_solver|]. simpl. apply lookup_delete_eq.
    + intros y ny Hy Hny. destruct (Hk1 y ny Hy Hny) as (n1 & Hn1 & E1 & E2).
      destruct (HkD y n1 Hy) as (n2 & Hn2 & E3 & E4); [|exists n2; split; [done|]; split; congruence].
      simpl. rewrite lookup_delete_ne; [done|]. set_solver.
    + intros y ny [->|Hy]%elem_of_cons Hny Hdy; [congruence|].
      apply HkW; [done| |by rewrite Hdm]. simpl. rewrite lookup_delete_ne by set_solver.
      rewrite Ho1; [done|]. intros Hd. apply (HDW y Hd). set_solver.
  - rewrite (nput_ok _ _ _ _ Hx). simpl.
    set (M1 := Mem (<[x := set_next None n]> (nd M)) (en M)).
    assert (Hdm : ∀ y, doomed (nd M1) y = doomed (nd M) y).
    { intros y. unfold doomed. simpl. destruct (decide (x = y)) as [<-|Hne].
      - by rewrite lookup_insert_eq, Hx.
      - by rewrite lookup_insert_ne. }
    destruct (IH fuel M1 m (D ++ [x]) (all_node_list_next n)) as (M2 & q & E & Hal & Hoth & Hdead & HkD & HkW).
    { change (all_node_list_next n) with (all_node_list_next (set_next None n)).
      apply all_seg_snoc; [|simpl; by rewrite lookup_insert_eq]. by apply all_seg_insert_other. }
    { by apply all_seg_insert_other. }
    { rewrite <- app_assoc. simpl. apply NoDup_app. split; [done|]. split; [set_solver|].
      apply NoDup_cons. done. }
    { simpl in Hf. lia. }
    rewrite last_snoc in E. exists M2, q. split; [done|]. rewrite <- !app_assoc in *. simpl in *.
    split_and!.
    + replace (alive (nd M) (x :: W)) with (x :: alive (nd M1) W); [done|].
      unfold alive. rewrite filter_cons_True by done. f_equal. apply alive_ext. auto.
    + intros y Hy. destruct (Hoth y Hy) as [-> ->]. split; [|done]. apply lookup_insert_ne. set_solver.
    + intros y [->|Hy]%elem_of_cons Hdy; [congruence|]. apply Hdead; [done|by rewrite Hdm].
    + intros y ny Hy Hny. destruct (HkD y ny) as (n2 & Hn2 & E3 & E4); [set_solver| |eauto].
      rewrite lookup_insert_ne; [done|set_solver].
    + intros y ny [->|Hy]%elem_of_cons Hny Hdy.
      * rewrite Hx in Hny. injection Hny as <-.
        destruct (HkD x (set_next None n)) as (n2 & Hn2 & E3 & E4); [set_solver|by rewrite lookup_insert_eq|].
        exists n2. split; [done|]. split; [by rewrite E3|done].
      * apply HkW; [done| |by rewrite Hdm]. rewrite lookup_insert_ne; [done|set_solver].
Qed.

Lemma clean_ok M m L :
  all_seg (nd M) (all_list m) L None → NoDup L → length (rb_by_length m) = 32%nat →
  ∃ M' q, range_map_clean M m = Ret (M', set_all_list q (set_roots (replicate 32 None) m)) ∧
    all_seg (nd M') q (alive (nd M) L) None ∧ cleaned L M M'.
Proof.
  intros Hal Hn Hro. unfold range_map_clean.
  replace ((fun _ => None) <$> rb_by_length m) with (replicate 32 (@None loc)).
  2:{ rewrite <- Hro. clear. induction (rb_by_length m) as [|r l IH]; simpl; [done|]. by rewrite IH. }
  destruct (clean_loop_ok (list_fuel M) M (set_roots (replicate 32 None) m) [] L (all_list m))
    as (M' & q & E & Hal' & Hoth & Hdead & _ & Hal''); [done|done|done| |].
  { apply list_fuel_ok; [done|]. intros x Hx. by eapply all_seg_elem. }
  exists M', q. split; [exact E|]. split; [done|]. by split.
Qed.

(** ** Changing what the index does not depend on *)

(** A node without its bucket and its flags other than the mark of removal. *)
Definition core (n : range_node_t) : range_node_t :=
  set_flags (Z.land RM_NODE_DELETE (flags n)) (set_bucket None n).

Lemma core_facts n n' :
  core n' = core n →
  (node_ok n → node_ok n') ∧ node_key n' = node_key n ∧ next n' = next n ∧
  all_node_list_next n' = all_node_list_next n ∧
  Z.land RM_NODE_DELETE (flags n') = Z.land RM_NODE_DELETE (flags n) ∧ ip n' = ip n ∧ port n' = port n.
Proof.
  intros E. unfold node_ok, node_key.
  assert (hash_length n' = hash_length n) as -> by (by apply (f_equal hash_length) in E).
  assert (hash_buffer n' = hash_buffer n) as -> by (by apply (f_equal hash_buffer) in E).
  split; [done|]. split; [done|].
  split_and!; [by apply (f_equal next) in E|by apply (f_equal all_node_list_next) in E
    |by apply (f_equal flags) in E|by apply (f_equal ip) in E|by apply (f_equal port) in E].
Qed.

Lemma core_lookup (h h' : nodes) x n :
  core <$> h' !! x = core <$> h !! x → h !! x = Some n → ∃ n', h' !! x = Some n' ∧ core n' = core n.
Proof.
  intros E Hn. rewrite Hn in E. apply fmap_Some in E as (n' & Hn' & E). eauto.
Qed.

Lemma core_fmap {B} (f : range_node_t → B) (h h' : nodes) x :
  (∀ n n', core n' = core n → f n' = f n) →
  core <$> h' !! x = core <$> h !! x → f <$> h' !! x = f <$> h !! x.
Proof.
  intros Hf E. destruct (h !! x) as [n|], (h' !! x) as [n'|]; try done. simpl in *. f_equal.
  apply Hf. by apply (inj Some).
Qed.

Section Ext.
Context (kf kf' : loc → option (list Z)) (V : list loc).
Hypothesis agree : ∀ x, x ∈ V → kf' x = kf x.

Lemma group_ext k : group kf' V k = group kf V k.
Proof using agree.
  unfold group. induction V as [|x l IH]; [done|].
  rewrite !filter_cons, IH by (intros y Hy; apply agree; set_solver).
  rewrite (agree x) by set_solver. done.
Qed.

Lemma matches_ext hash l : matches kf' V hash l = matches kf V hash l.
Proof using agree. induction l as [|l IH]; simpl; rewrite group_ext; [done|by rewrite IH]. Qed.

Lemma exits_ext P k : exits kf' V P k = exits kf V P k.
Proof using agree.
  unfold exits, shorter. rewrite group_ext. destruct (head _); [|done]. case_decide; [|done].
  destruct (length k); [done|]. by rewrite matches_ext.
Qed.

(** The index also depends on the entries and nodes of [V] only. *)
Lemma built_frame M M' m :
  (∀ x, x ∈ V → core <$> nd M' !! x = core <$> nd M !! x ∧ en M' !! x = en M !! x) →
  built kf M m V → built kf' M' m V.
Proof using agree.
  intros Hf [(P & [Hnd Hno Hro (Ts & HTs) Hch] & HP) Hlg Hmax]. split; [|done|].
  - exists P. split; [|intros k x; rewrite group_ext; apply HP]. split; [done| |done| |].
    + intros x Hx. destruct (Hno x Hx) as (n & Hn & Hok & Hk), (Hf x Hx) as [Hc _].
      destruct (core_lookup _ _ _ _ Hc Hn) as (n' & Hn' & En).
      destruct (core_facts _ _ En) as (Hok' & Hk' & _). exists n'. rewrite agree by done.
      rewrite Hk'. auto.
    + exists Ts. intros i r Hr. destruct (HTs i r Hr) as (Hho & Hso & Hel).
      assert (HV : ∀ x, x ∈ Ts i → x ∈ V).
      { intros x Hx. apply Hel in Hx as (k & _ & Hx). by apply group_head in Hx as [? _]. }
      split; [|split].
      * apply (rb_holds_frame (Rb r (en M))); [|done|done]. intros x Hx. simpl. by apply Hf, HV.
      * eapply (sorted_frame bytes_cmp kf); [|exact Hso]. intros x Hx. apply agree. auto.
      * intros x. rewrite Hel. by setoid_rewrite group_ext.
    + intros k. rewrite group_ext, exits_ext. eapply seg_frame; [|apply Hch].
      intros x [Hx _]%elem_of_group. apply core_fmap; [|by apply Hf].
      intros n n' E. apply (core_facts _ _ E).
  - intros k. rewrite group_ext. apply Hmax.
Qed.
End Ext.

(** ** Maps *)

(** The nodes [L] of a map, newest first, of which [V] are indexed. *)
Record map_ok (M : mem) (m : range_map_t) (L V : list loc) : Prop := {
  mo_all : all_seg (nd M) (all_list m) L None;
  mo_nodup : NoDup L;
  mo_nodes x : x ∈ L → ∃ n, nd M !! x = Some n ∧ node_ok n;
  mo_new : ∃ W, L = W ++ V;
  mo_alive x : x ∈ V → doomed (nd M) x = false;
  mo_built : built (key_of (nd M)) M m V
}.

Lemma map_ok_core M M' m L V :
  (∀ x, x ∈ L → core <$> nd M' !! x = core <$> nd M !! x ∧ en M' !! x = en M !! x) →
  map_ok M m L V → map_ok M' m L V.
Proof.
  intros Hf [Hal Hn Hno (W & ->) Hav Hb].
  assert (HV : ∀ x, x ∈ V → core <$> nd M' !! x = core <$> nd M !! x) by (intros x Hx; apply Hf; set_solver).
  split; [|done| |by exists W| |].
  - eapply all_seg_frame; [|done]. intros x Hx. apply core_fmap; [|by apply Hf].
    intros n n' E. apply (core_facts _ _ E).
  - intros x Hx. destruct (Hno x Hx) as (n & Hnx & Hok), (Hf x Hx) as [Hc _].
    destruct (core_lookup _ _ _ _ Hc Hnx) as (n' & Hn' & En). exists n'. split; [done|].
    by apply (core_facts _ _ En).
  - intros x Hx. pose proof (Hav x Hx) as Hd. unfold doomed in *. specialize (HV x Hx).
    destruct (nd M !! x) as [n|], (nd M' !! x) as [n'|]; try done. apply (inj Some) in HV.
    destruct (core_facts _ _ HV) as (_ & _ & _ & _ & -> & _). done.
  - eapply built_frame; [| |done].
    + intros x Hx. unfold key_of. apply core_fmap; [|by apply HV]. intros n n' E. apply (core_facts _ _ E).
    + intros x Hx. apply Hf. set_solver.
Qed.

Lemma map_ok_frame M M' m L V :
  (∀ x, x ∈ L → nd M' !! x = nd M !! x ∧ en M' !! x = en M !! x) →
  map_ok M m L V → map_ok M' m L V.
Proof. intros Hf. apply map_ok_core. intros x Hx. by destruct (Hf x Hx) as [-> ->]. Qed.

(** What a rebuilding does to the nodes [L] of a map. *)
Record rebuilt (L : list loc) (M M' : mem) : Prop := {
  rb_other x : x ∉ L → nd M' !! x = nd M !! x ∧ en M' !! x = en M !! x;
  rb_dead x : x ∈ L → doomed (nd M) x = true → nd M' !! x = None;
  rb_alive x : x ∈ L → doomed (nd M) x = false → unlinked <$> nd M' !! x = unlinked <$> nd M !! x
}.

Lemma unlinked_facts n n' :
  unlinked n' = unlinked n → (node_ok n → node_ok n') ∧ node_key n' = node_key n ∧ flags n' = flags n.
Proof.
  intros E. unfold node_ok, node_key.
  assert (hash_length n' = hash_length n) as -> by (by apply (f_equal hash_length) in E).
  assert (hash_buffer n' = hash_buffer n) as -> by (by apply (f_equal hash_buffer) in E).
  assert (flags n' = flags n) as -> by (by apply (f_equal flags) in E). done.
Qed.

Lemma unlinked_set_next n n' : set_next None n' = set_next None n → unlinked n' = unlinked n.
Proof.
  intros E. unfold unlinked.
  by apply (f_equal (set_all_next None)) in E.
Qed.

(** Cleaning and loading a map: the marked nodes are freed and the others indexed. *)
Lemma rebuild_map_ok M m L :
  all_seg (nd M) (all_list m) L None → NoDup L → length (rb_by_length m) = 32%nat →
  (∀ x, x ∈ L → ∃ n, nd M !! x = Some n ∧ node_ok n) →
  ∃ M' m', ('(M, m) ← range_map_clean M m; range_map_load M m) = Ret (M', m') ∧
    name m' = name m ∧ map_ok M' m' (alive (nd M) L) (alive (nd M) L) ∧ rebuilt L M M'.
Proof.
  intros Hal Hn Hro Hno. destruct (clean_ok M m L Hal Hn Hro) as (M1 & q & E1 & Hal1 & Hcl).
  assert (Hsub : ∀ x, x ∈ alive (nd M) L ↔ x ∈ L ∧ doomed (nd M) x = false).
  { intros x. unfold alive. rewrite list_elem_of_filter. naive_solver. }
  assert (Hn1 : NoDup (alive (nd M) L)) by (by apply NoDup_filter).
  assert (Hno1 : ∀ x, x ∈ alive (nd M) L → ∃ n n', nd M !! x = Some n ∧ nd M1 !! x = Some n' ∧
    node_ok n' ∧ unlinked n' = unlinked n).
  { intros x [Hx Hd]%Hsub. destruct (Hno x Hx) as (n & Hnx & Hok).
    destruct (cl_alive _ _ _ Hcl x n Hx Hnx Hd) as (n' & Hn' & Eu & _). exists n, n'.
    destruct (unlinked_facts _ _ Eu) as [Hok' _]. auto. }
  destruct (load_ok (key_of (nd M1)) M1 (set_all_list q (set_roots (replicate 32 None) m)) (alive (nd M) L))
    as (M2 & roots & lg & E2 & Hb & Hs); [done|done|done| |].
  { intros x Hx. destruct (Hno1 x Hx) as (n & n' & _ & Hn' & Hok & _). exists n'.
    unfold key_of. by rewrite Hn'. }
  exists M2, (set_longest lg (set_roots roots (set_all_list q (set_roots (replicate 32 None) m)))).
  rewrite E1. simpl. split; [done|]. split; [done|].
  assert (Hun : ∀ x, x ∈ alive (nd M) L → ∃ n n2, nd M !! x = Some n ∧ nd M2 !! x = Some n2 ∧
    node_ok n2 ∧ unlinked n2 = unlinked n ∧ key_of (nd M2) x = key_of (nd M1) x).
  { intros x Hx. destruct (Hno1 x Hx) as (n & n1 & Hnx & Hn1x & Hok & Eu).
    destruct (same_nodes_lookup _ _ _ _ _ Hs Hn1x) as (n2 & Hn2 & Es). exists n, n2.
    destruct (unlinked_facts _ _ (unlinked_set_next _ _ Es)) as (Hok2 & Hk & _).
    split_and!; [done|done|auto| |].
    - rewrite <- Eu. by apply unlinked_set_next.
    - unfold key_of. rewrite Hn2, Hn1x. simpl. by rewrite Hk. }
  split; [split|split].
  - by eapply same_nodes_all.
  - done.
  - intros x Hx. destruct (Hun x Hx) as (n & n2 & _ & Hn2 & Hok & _). eauto.
  - by exists [].
  - intros x Hx. destruct (Hun x Hx) as (n & n2 & Hnx & Hn2 & _ & Eu & _). apply Hsub in Hx as [_ Hd].
    unfold doomed in *. rewrite Hnx in Hd. rewrite Hn2.
    destruct (unlinked_facts _ _ Eu) as (_ & _ & ->). done.
  - eapply built_frame; [| |exact Hb]; [|done].
    intros x Hx. by destruct (Hun x Hx) as (_ & _ & _ & _ & _ & _ & ?).
  - intros x Hx. rewrite (sn_other _ _ _ Hs), (sn_entries _ _ _ Hs) by (rewrite Hsub; naive_solver).
    by apply (cl_other _ _ _ Hcl).
  - intros x Hx Hd. rewrite (sn_other _ _ _ Hs) by (rewrite Hsub; intros [_ ?]; congruence).
    by apply (cl_dead _ _ _ Hcl).
  - intros x Hx Hd. destruct (Hun x) as (n & n2 & -> & -> & _ & Eu & _); [by apply Hsub|].
    simpl. by rewrite Eu.
Qed.
