(* ===== verification/RangeTable.v ===== *)
(** * The table of range maps

    The functions a script calls on the table of maps ([RangeMap]), against the state of the
    table: for every map its nodes and the nodes that are indexed ([table_ok]).  The texts
    a script gives are read by [TRANSLATE_MKC_PARAMS]: [addr_text] and [key_text] are what
    it accepts. *)
From stdpp Require Import strings sorting.
From S2P Require Import Prelude CString LinkedList RbTree Scan RangeMap RangeIndex.

(** ** The parameters of a script *)

(** The bytes two characters at a time stand for. *)
Fixpoint pairs (h : list Z) : list Z :=
  match h with
  | a :: b :: h => u8 (Z.shiftl (HashString.hexval a) 4 + HashString.hexval b) :: pairs h
  | _ => []
  end.

Definition addr_text (s : list Z) (a : Z) : Prop :=
  7 <= Z.of_nat (length s) <= 15 ∧ ∃ rest, Ipv4.ipv4_text s a rest.

(** At most 32 digits and the mark; blanks in place of all the digits stand for zeros. *)
Definition key_text (s k : list Z) : Prop :=
  ∃ h e, s = h ++ [e] ∧ HashString.mark e ∧ Nat.Even (length h) ∧ (length h <= 32)%nat ∧
         (Forall HashString.hex h ∨ Forall blank h) ∧ k = pairs h.

Lemma pairs_length h : Nat.Even (length h) → (2 * length (pairs h) = length h)%nat.
Proof.
  assert (H : ∀ n h, (length h <= n)%nat → Nat.Even (length h) → (2 * length (pairs h) = length h)%nat).
  { induction n as [|n IH]; intros [|a [|b r]] Hl He; simpl in *; try lia; try done.
    - destruct He; lia.
    - destruct He as [m Hm]. specialize (IH r ltac:(lia)). rewrite <- IH; [lia|]. exists (m - 1)%nat. lia. }
  by apply (H (length h)).
Qed.

Lemma pairs_bytes h : Forall is_byte (pairs h).
Proof.
  assert (H : ∀ n h, (length h <= n)%nat → Forall is_byte (pairs h)).
  { induction n as [|n IH]; intros [|a [|b r]] Hl; simpl in *; try constructor; try lia.
    - apply u8_range.
    - apply IH. lia. }
  by apply (H (length h)).
Qed.

(** The conversion of any bytes. *)
Lemma bin_loop_pairs h p q buf fuel :
  Forall is_byte h → Nat.Even (length h) → (length p + length h <= 2 * length buf)%nat →
  Nat.Even (length p) → (length h < fuel)%nat → length q = (length p / 2)%nat →
  ∀ tl, HashString.bin_loop fuel (ow q buf) (p ++ h ++ tl) (Z.of_nat (length p + length h))
    (Z.of_nat (length p)) (Z.of_nat (length q)) = Ret (ow (q ++ pairs h) buf).
Proof.
  intros Hb He Hl Hp Hf Hq tl. remember (length h) as n eqn:En.
  assert (Hle : (length h <= n)%nat) by lia. revert h p q fuel Hb He Hl Hp Hf Hq En Hle.
  induction n as [n IH] using lt_wf_ind; intros h p q fuel Hb He Hl Hp Hf Hq En Hle.
  destruct fuel as [|fuel]; [lia|]. destruct h as [|a [|b h]]; simpl in En.
  - subst n. simpl. rewrite app_nil_r. by rewrite (proj2 (Z.ltb_ge _ _)) by lia.
  - subst n. destruct He; lia.
  - apply Forall_cons_1 in Hb as [Ha Hb]. apply Forall_cons_1 in Hb as [Hbb Hb].
    cbn [HashString.bin_loop]. rewrite (proj2 (Z.ltb_lt _ _)) by lia.
    rewrite (rd_nat _ (length p) a) by (simpl; by apply lookup_after). cbn [mbind cres_bind].
    rewrite (rd_tab HashString.hash_string_2_bin_table 0 a eq_refl Ha). cbn [mbind cres_bind].
    replace (Z.of_nat (length p) + 1) with (Z.of_nat (length (p ++ [a]))) by (rewrite length_app; simpl; lia).
    rewrite (rd_nat _ (length (p ++ [a])) b).
    2:{ replace (p ++ (a :: b :: h) ++ tl) with ((p ++ [a]) ++ b :: h ++ tl) by (by rewrite <- app_assoc).
        by apply lookup_after. }
    cbn [mbind cres_bind]. rewrite (rd_tab HashString.hash_string_2_bin_table 0 b eq_refl Hbb).
    cbn [mbind cres_bind]. assert (Hql : (length q < length buf)%nat).
    { rewrite Hq. apply Nat.Div0.div_lt_upper_bound. lia. }
    fold (HashString.hexval a) (HashString.hexval b). rewrite ow_wr by done. cbn [mbind cres_bind].
    assert (Hpe : Nat.Even (length (p ++ [a; b]))).
    { destruct Hp as [m Hm]. exists (S m). rewrite length_app. simpl. lia. }
    specialize (IH (length h) ltac:(lia) h (p ++ [a; b])
      (q ++ [u8 (Z.shiftl (HashString.hexval a) 4 + HashString.hexval b)]) fuel).
    rewrite !length_app in IH. simpl length in IH.
    replace (p ++ (a :: b :: h) ++ tl) with ((p ++ [a; b]) ++ h ++ tl) by (by rewrite <- app_assoc).
    replace (Z.of_nat (length p) + 2) with (Z.of_nat (length p + 2)) by lia.
    replace (Z.of_nat (length q) + 1) with (Z.of_nat (length q + 1)) by lia.
    replace (length p + n)%nat with (length p + 2 + length h)%nat by lia.
    rewrite IH; try done; try lia.
    + by rewrite <- app_assoc.
    + destruct He as [m Hm]. exists (m - 1)%nat. lia.
    + rewrite length_app in Hpe. done.
    + rewrite Hq. replace (length p + 2)%nat with (length p + 1 * 2)%nat by lia.
      rewrite Nat.div_add by lia. done.
Qed.

Lemma hash_str_2_bin_pairs h e tl :
  Forall is_byte h → Nat.Even (length h) → (length h <= 32)%nat →
  HashString.hash_str_2_bin (replicate 32 0) (h ++ e :: tl) (Z.of_nat (length h))
  = Ret (0, ow (pairs h) (replicate 32 0)).
Proof.
  intros Hb He Hl. unfold HashString.hash_str_2_bin. rewrite HashString.land_1_even.
  replace (Z.even (Z.of_nat (length h))) with true.
  2:{ destruct He as [m ->]. rewrite Nat2Z.inj_mul, Z.even_mul. reflexivity. }
  simpl negb. cbn iota. rewrite Nat2Z.id.
  pose proof (bin_loop_pairs h [] [] (replicate 32 0) (S (length h)) Hb He) as E.
  simpl length in E. rewrite ow_nil in E. simpl app in E.
  change (0 + length h)%nat with (length h) in E. change (Z.of_nat 0) with 0 in E. rewrite (E ltac:(rewrite ?length_replicate; lia) ltac:(by exists O)
    ltac:(lia) eq_refl (e :: tl)). done.
Qed.

(** What [get_hash_string] and the test after it accept. *)
Lemma hash_accept s tl :
  cstring s → (1 <= length s <= 33)%nat →
  (∃ k h e, s = h ++ [e] ∧ key_text s k ∧ k = pairs h ∧ Nat.Even (length h) ∧
     HashString.get_hash_string (s ++ tl) (Z.of_nat (length s))
     = Ret (Z.of_nat (length s), Some (0, Z.of_nat (length h)))) ∨
  ((∀ k, ¬ key_text s k) ∧
   (HashString.get_hash_string (s ++ tl) (Z.of_nat (length s)) = Ret (-1, None) ∨
    ∃ r start l, HashString.get_hash_string (s ++ tl) (Z.of_nat (length s)) = Ret (r, Some (start, l)) ∧
      r ≠ -1 ∧ ¬ (start = 0 ∧ l + 1 = Z.of_nat (length s)))).
Proof.
  intros Hs Hl. apply cstring_bytes in Hs as Hb. destruct (blanks_split s) as (bl & u & -> & Hbl & Hu).
  destruct (HashString.hex_split u) as (h & t & -> & Hh & Ht).
  pose proof (HashString.get_hash_string_split bl h t tl Hb Hbl Hh Ht ltac:(by intros ->)) as E.
  cbv zeta in E. set (l := match h with [] => Z.of_nat (length bl) | _ => Z.of_nat (length h) end) in *.
  (* what a key text of [s] looks like *)
  assert (Hkey : ∀ k, key_text (bl ++ h ++ t) k →
    ∃ e, t = [e] ∧ HashString.mark e ∧ Z.even l = true ∧ (h = [] ∨ bl = [])).
  { intros k (h' & e & E' & He & Hev & _ & Hc & _).
    assert (Hne : ¬ HashString.hex e) by (unfold HashString.hex, HashString.mark, digit in *; lia).
    assert (Hnb : ¬ blank e) by (unfold blank, HashString.mark in *; lia).
    destruct Hc as [Hc|Hc].
    - assert (Hh0 : match h' ++ [e] with [] => True | c :: _ => ¬ blank c end).
      { destruct h' as [|c h']; [done|]. apply Forall_cons_1 in Hc as [Hc _].
        unfold HashString.hex, digit, blank in *. simpl. lia. }
      destruct (prefix_unique blank bl [] _ (h' ++ [e]) E' Hbl (Forall_nil_2 _) Hu Hh0) as [-> E2].
      destruct (prefix_unique HashString.hex h h' t [e] E2 Hh Hc Ht Hne) as [-> ->].
      exists e. split; [done|]. split; [done|]. split; [|by right]. unfold l. destruct Hev as [m Hm].
      destruct h'; [done|]. rewrite Hm, Nat2Z.inj_mul, Z.even_mul. done.
    - destruct (prefix_unique blank bl h' _ [e] E' Hbl Hc Hu Hnb) as [-> E2].
      destruct h as [|c h].
      + simpl in E2. subst t. exists e. split; [done|]. split; [done|]. split; [|by left].
        unfold l. destruct Hev as [m Hm]. rewrite Hm, Nat2Z.inj_mul, Z.even_mul. done.
      + simpl in E2. injection E2 as -> E3. apply Forall_cons_1 in Hh as [Hh _]. done. }
  destruct (decide (Z.even l = true ∧ HashString.marked t)) as [[Hev Hm]|Hno].
  2:{ right. split; [|by left]. intros k (e & -> & He & Hev & _)%Hkey. apply Hno. done. }
  destruct t as [|e t]; [done|]. simpl in Hm.
  assert (Hr : Z.of_nat (length bl + length h + 1) ≠ -1) by lia.
  destruct (decide ((h = [] ∨ bl = []) ∧ t = [])) as [[Hor ->]|Hno].
  - left. exists (pairs (bl ++ h)), (bl ++ h), e. split; [by rewrite app_assoc|].
    assert (Hlen : l = Z.of_nat (length (bl ++ h))).
    { unfold l. destruct Hor as [->| ->]; simpl; [by rewrite app_nil_r|]. by destruct h. }
    assert (HE : Nat.Even (length (bl ++ h))).
    { rewrite Hlen in Hev. apply Z.even_spec in Hev as [m Hm']. exists (Z.to_nat m). lia. }
    split; [|split; [done|split; [done|]]].
    + exists (bl ++ h), e. split; [by rewrite app_assoc|]. split_and!; try done.
      * rewrite !length_app in *. simpl in Hl. lia.
      * destruct Hor as [->| ->]; [right; by rewrite app_nil_r|by left].
    + rewrite E. f_equal. f_equal; [rewrite !length_app; simpl; lia|].
      f_equal. rewrite Hlen. f_equal. destruct h; [done|]. destruct Hor as [| ->]; done.
  - right. split.
    + intros k (e' & [= -> ->] & _ & _ & Hor)%Hkey. apply Hno. done.
    + right. rewrite E. eexists _, _, _. split; [done|]. split; [done|]. intros [Hst Hln]. apply Hno.
      rewrite !length_app in Hln. simpl in Hln. unfold l in Hln. destruct h as [|c h]; simpl in *.
      * split; [by left|]. destruct t; [done|simpl in Hln; lia].
      * split; [right; destruct bl; [done|simpl in Hst; lia]|]. destruct t; [done|simpl in Hln; lia].
Qed.

Lemma translate_ip_ok ips tl :
  cstring ips →
  (∃ a, addr_text ips a ∧ translate_ip (ips ++ 0 :: tl) = Ret (inr a)) ∨
  ((∀ a, ¬ addr_text ips a) ∧ ∃ e, translate_ip (ips ++ 0 :: tl) = Ret (inl e)).
Proof.
  intros Hi. unfold translate_ip. rewrite c_strnlen_ok by done. cbn [mbind cres_bind].
  destruct (decide (7 <= length ips <= 15)%nat) as [Hil|Hil].
  2:{ right. split; [intros a [Hl _]; lia|].
      destruct (Z.ltb_spec (Z.of_nat (length ips `min` 20)) 7); [by eexists|].
      destruct (Z.ltb_spec 15 (Z.of_nat (length ips `min` 20))); [by eexists|lia]. }
  rewrite Nat.min_l by lia. rewrite (proj2 (Z.ltb_ge (Z.of_nat (length ips)) 7)) by lia.
  rewrite (proj2 (Z.ltb_ge 15 (Z.of_nat (length ips)))) by lia. cbn [orb].
  destruct (Ipv4.ipv4_cases ips (0 :: tl) (cstring_bytes _ Hi)) as [(a & rest & Ha & ->)|[Hna ->]];
    cbn [mbind cres_bind].
  2:{ right. split; [intros a [_ (rest & Hr)]; by apply (Hna a rest)|by eexists]. }
  assert (Hrest : (length rest < length ips)%nat).
  { destruct Ha as (bl & d1 & d2 & d3 & d4 & E & _). rewrite E.
    repeat (rewrite !length_app; simpl). lia. }
  destruct (Z.eqb_spec (Z.of_nat (length ips) - Z.of_nat (length rest)) 0); [lia|].
  left. exists a. split; [|done]. split; [lia|eauto].
Qed.

Lemma translate_hash_ok hs tl :
  cstring hs →
  (∃ k, key_text hs k ∧ translate_hash (hs ++ 0 :: tl)
     = Ret (inr (ow k (replicate 32 0), Z.of_nat (length k), 2 * Z.of_nat (length k)))) ∨
  ((∀ k, ¬ key_text hs k) ∧ ∃ e, translate_hash (hs ++ 0 :: tl) = Ret (inl e)).
Proof.
  intros Hh. unfold translate_hash. rewrite c_strnlen_ok by done. cbn [mbind cres_bind].
  change (Z.to_nat (HASH_VALUE_LENGTH + 3)) with 35%nat. unfold HASH_VALUE_LENGTH.
  destruct (decide (1 <= length hs <= 33)%nat) as [Hhl|Hhl].
  2:{ right. split.
      - intros k (h & e & -> & _ & _ & Hl & _). rewrite length_app in Hhl. simpl in Hhl. lia.
      - destruct (Z.ltb_spec (Z.of_nat (length hs `min` 35)) 1); [by eexists|].
        destruct (Z.ltb_spec (32 + 1) (Z.of_nat (length hs `min` 35))); [by eexists|lia]. }
  rewrite Nat.min_l by lia. rewrite (proj2 (Z.ltb_ge (Z.of_nat (length hs)) 1)) by lia.
  rewrite (proj2 (Z.ltb_ge (32 + 1) (Z.of_nat (length hs)))) by lia. cbn [orb].
  destruct (hash_accept hs (0 :: tl) Hh Hhl) as [(k & h & e & Ehs & Hkt & Ek & HE & ->)|[Hnk Hno]];
    cbn [mbind cres_bind].
  - left. exists k. split; [done|].
    assert (Hlh : length hs = S (length h)) by (rewrite Ehs, length_app; simpl; lia).
    destruct (Z.eqb_spec (Z.of_nat (length hs)) (-1)); [lia|].
    destruct (Z.eqb_spec (Z.of_nat (length h) + 1) (Z.of_nat (length hs))); [|lia].
    rewrite (proj2 (Z.ltb_ge (32 * 2) (Z.of_nat (length h)))) by lia.
    change (negb (0 =? 0)) with false. cbn [negb orb]. change (Z.to_nat 0) with O. rewrite drop_0.
    assert (Hob : Forall is_byte h).
    { apply cstring_bytes in Hh. rewrite Ehs in Hh. by apply Forall_app in Hh as [? _]. }
    rewrite Ehs, <- app_assoc. change ([e] ++ 0 :: tl) with (e :: 0 :: tl).
    change (Z.to_nat 32) with 32%nat. rewrite hash_str_2_bin_pairs by (done || lia).
    cbn [mbind cres_bind]. change (negb (0 =? 0)) with false. cbn iota.
    pose proof (pairs_length h HE) as Hpl. subst k. rewrite Z.shiftr_div_pow2 by lia.
    change (2 ^ 1) with 2. replace (Z.of_nat (length h)) with (Z.of_nat (length (pairs h)) * 2) by lia.
    rewrite Z.div_mul by lia. do 3 f_equal. lia.
  - right. split; [done|]. destruct Hno as [-> |(r & start & l & -> & Hr & Hnot)];
      cbn [mbind cres_bind]; [by eexists|].
    destruct (Z.eqb_spec r (-1)); [done|].
    destruct (Z.eqb_spec start 0); cbn [negb orb]; [|by eexists].
    destruct (Z.eqb_spec (l + 1) (Z.of_nat (length hs))); cbn [negb orb]; [|by eexists].
    exfalso. by apply Hnot.
Qed.

(** The parameters are accepted exactly when both texts are. *)
Lemma translate_ok ips hs t1 t2 :
  cstring ips → cstring hs →
  (∃ a k, addr_text ips a ∧ key_text hs k ∧
     TRANSLATE_MKC_PARAMS (ips ++ 0 :: t1) (hs ++ 0 :: t2)
     = Ret (inr (a, ow k (replicate 32 0), Z.of_nat (length k), 2 * Z.of_nat (length k)))) ∨
  ((¬ ∃ a k, addr_text ips a ∧ key_text hs k) ∧
   ∃ e, TRANSLATE_MKC_PARAMS (ips ++ 0 :: t1) (hs ++ 0 :: t2) = Ret (inl e)).
Proof.
  intros Hi Hh. unfold TRANSLATE_MKC_PARAMS.
  destruct (translate_ip_ok ips t1 Hi) as [(a & Ha & ->)|[Hna [e ->]]]; simpl.
  2:{ right. split; [naive_solver|eauto]. }
  destruct (translate_hash_ok hs t2 Hh) as [(k & Hk & ->)|[Hnk [e ->]]]; simpl.
  - left. eauto.
  - right. split; [naive_solver|eauto].
Qed.

(** ** The state of the table *)

Definition map_name (m : range_map_t) : list Z := cstr (name m).

Definition name_wf (m : range_map_t) : Prop :=
  length (name m) = 32%nat ∧ ∃ s tl, name m = s ++ 0 :: tl ∧ cstring s.

(** What tells the nodes of a map apart. *)
Definition ident (h : nodes) (x : loc) : option (Z * Z * list Z) :=
  (fun n => (ip n, port n, node_key n)) <$> h !! x.

(** [A] gives for every map of the table its nodes and those that are indexed.  Every node
    in memory belongs to one map. *)
Record table_ok (S : state) (A : list (list loc * list loc)) : Prop := {
  to_len : length (range_map_list S) = RANGE_MAP_MAX;
  to_maps : Forall2 (fun m a => map_ok (memory S) m a.1 a.2) (range_map_list S) A;
  to_names : Forall name_wf (range_map_list S);
  to_disjoint i j a b x : A !! i = Some a → A !! j = Some b → x ∈ a.1 → x ∈ b.1 → i = j;
  to_memory x : is_Some (nd (memory S) !! x) ↔ ∃ i a, A !! i = Some a ∧ x ∈ a.1;
  to_ident i a x y : A !! i = Some a → x ∈ a.1 → y ∈ a.1 →
    ident (nd (memory S)) x = ident (nd (memory S)) y → x = y
}.

(** The map called [s], with its index in the table. *)
Definition lookup_name (S : state) (s : list Z) : option (nat * range_map_t) :=
  list_find (fun m => map_name m = s) (range_map_list S).

Lemma first_map_ok test (P : range_map_t → Prop) `{!∀ m, Decision (P m)} l i :
  Forall (fun m => test m = Ret (bool_decide (P m))) l →
  first_map test i l = Ret ((fun im => i + im.1)%nat <$> list_find P l).
Proof.
  intros HF. revert i. induction HF as [|m l Hm Hl IH]; intros i; simpl; [done|].
  rewrite Hm. simpl. case_bool_decide as HP.
  - rewrite decide_True by done. simpl. by rewrite Nat.add_0_r.
  - rewrite decide_False by done. rewrite IH. destruct (list_find P l) as [[j m']|]; simpl; [|done].
    do 2 f_equal. lia.
Qed.

Lemma find_by_name_ok S A s tl :
  table_ok S A → cstring s →
  range_map_find_by_name S (s ++ 0 :: tl) = Ret (fst <$> lookup_name S s).
Proof.
  intros HT Hs. unfold range_map_find_by_name.
  rewrite (first_map_ok _ (fun m => map_name m = s)).
  - unfold lookup_name. by destruct (list_find _ _) as [[]|].
  - eapply Forall_impl; [exact (to_names _ _ HT)|]. intros m (_ & s' & t' & E & Hs').
    unfold map_name. rewrite E, cstr_app by done.
    destruct (strcmp_ok s' s t' tl Hs' Hs) as (z & -> & Hz). simpl. f_equal.
    destruct (Z.eqb_spec z 0); [rewrite bool_decide_eq_true_2|rewrite bool_decide_eq_false_2]; naive_solver.
Qed.

Lemma lookup_name_Some S s i m :
  lookup_name S s = Some (i, m) → range_map_list S !! i = Some m ∧ map_name m = s.
Proof. intros H. apply list_find_Some in H as (H1 & H2 & _). done. Qed.

Lemma table_map S A i m :
  table_ok S A → range_map_list S !! i = Some m →
  ∃ L V, A !! i = Some (L, V) ∧ map_ok (memory S) m L V.
Proof.
  intros HT Hm. destruct (Forall2_lookup_l _ _ _ _ _ (to_maps _ _ HT) Hm) as ([L V] & HA & Hok).
  eauto.
Qed.

Lemma map_roots M m L V : map_ok M m L V → length (rb_by_length m) = 32%nat.
Proof. intros [_ _ _ _ _ [(P & Hix & _) _ _]]. by destruct Hix. Qed.

(** One map of the table changes, with its nodes. *)
Lemma table_update S A i m L V M' m' L' V' :
  table_ok S A → range_map_list S !! i = Some m → A !! i = Some (L, V) →
  name m' = name m → map_ok M' m' L' V' →
  (∀ x, x ∉ L ++ L' → nd M' !! x = nd (memory S) !! x ∧ en M' !! x = en (memory S) !! x) →
  (∀ x, x ∈ L' → x ∉ L → nd (memory S) !! x = None) →
  (∀ x, x ∈ L → x ∉ L' → nd M' !! x = None) →
  (∀ x y, x ∈ L' → y ∈ L' → ident (nd M') x = ident (nd M') y → x = y) →
  table_ok (State M' (<[i := m']> (range_map_list S))) (<[i := (L', V')]> A).
Proof.
  intros HT Hm HA Hname Hok Hframe Hnew Hgone Hid.
  assert (Hi : (i < length (range_map_list S))%nat) by (by eapply lookup_lt_Some).
  assert (HiA : (i < length A)%nat) by (by eapply lookup_lt_Some).
  assert (Hother : ∀ j a x, A !! j = Some a → j ≠ i → x ∈ a.1 →
    x ∉ L ++ L').
  { intros j a x Hj Hji Hx. rewrite elem_of_app. intros [HxL|HxL].
    - apply Hji. by eapply (to_disjoint _ _ HT).
    - destruct (decide (x ∈ L)) as [HxL0|HxL0]; [apply Hji; by eapply (to_disjoint _ _ HT)|].
      assert (is_Some (nd (memory S) !! x)) as [n Hn] by (apply (to_memory _ _ HT); eauto).
      rewrite Hnew in Hn; done. }
  split; simpl.
  - rewrite length_insert. apply (to_len _ _ HT).
  - apply Forall2_same_length_lookup. rewrite !length_insert.
    pose proof (to_maps _ _ HT) as HF. split; [by eapply Forall2_length|].
    intros j mj aj Hj Haj. destruct (decide (j = i)) as [->|Hji].
    + rewrite list_lookup_insert_eq in Hj by done. rewrite list_lookup_insert_eq in Haj by done. by simplify_eq.
    + rewrite list_lookup_insert_ne in Hj by done. rewrite list_lookup_insert_ne in Haj by done.
      apply (map_ok_frame (memory S)).
      * intros x Hx. apply Hframe. by eapply Hother.
      * by eapply (Forall2_lookup_lr _ _ _ _ _ _ HF).
  - apply Forall_insert; [apply (to_names _ _ HT)|].
    pose proof (Forall_lookup_1 _ _ _ _ (to_names _ _ HT) Hm) as Hw. unfold name_wf in *. by rewrite Hname.
  - intros j j' a b x Hj Hj' Hx Hx'.
    destruct (decide (j = i)) as [->|Hji], (decide (j' = i)) as [->|Hji']; try done.
    + rewrite list_lookup_insert_eq in Hj by done. rewrite list_lookup_insert_ne in Hj' by done.
      injection Hj as <-. exfalso. eapply (Hother j' b x); [done|done|done|]. set_solver.
    + rewrite list_lookup_insert_ne in Hj by done. rewrite list_lookup_insert_eq in Hj' by done.
      injection Hj' as <-. exfalso. eapply (Hother j a x); [done|done|done|]. set_solver.
    + rewrite list_lookup_insert_ne in Hj by done. rewrite list_lookup_insert_ne in Hj' by done. by eapply (to_disjoint _ _ HT).
  - intros x. split.
    + intros Hx. destruct (decide (x ∈ L')) as [HxL'|HxL'].
      { exists i, (L', V'). by rewrite list_lookup_insert_eq. }
      destruct (decide (x ∈ L)) as [HxL|HxL]; [rewrite Hgone in Hx by done; by destruct Hx|].
      destruct (Hframe x) as [E _]; [set_solver|]. rewrite E in Hx.
      apply (to_memory _ _ HT) in Hx as (j & a & Hj & Hxa). exists j, a. split; [|done].
      rewrite list_lookup_insert_ne; [done|]. intros ->. rewrite HA in Hj. injection Hj as <-. done.
    + intros (j & a & Hj & Hx). destruct (decide (j = i)) as [->|Hji].
      * rewrite list_lookup_insert_eq in Hj by done. injection Hj as <-.
        destruct (mo_nodes _ _ _ _ Hok x Hx) as (n & Hn & _). eauto.
      * rewrite list_lookup_insert_ne in Hj by done. destruct (Hframe x) as [-> _]; [by eapply Hother|].
        apply (to_memory _ _ HT). eauto.
  - intros j a x y Hj Hx Hy. destruct (decide (j = i)) as [->|Hji].
    + rewrite list_lookup_insert_eq in Hj by done. injection Hj as <-. by apply Hid.
    + rewrite list_lookup_insert_ne in Hj by done. unfold ident.
      destruct (Hframe x) as [-> _]; [by eapply Hother|]. destruct (Hframe y) as [-> _]; [by eapply Hother|].
      by apply (to_ident _ _ HT j a).
Qed.

(** Memories that differ in the flags of the nodes [L] only. *)
Record marked_only (L : list loc) (M M1 : mem) : Prop := {
  mk_flags x : set_flags 0 <$> nd M1 !! x = set_flags 0 <$> nd M !! x;
  mk_other x : x ∉ L → nd M1 !! x = nd M !! x;
  mk_entries : en M1 = en M
}.

Lemma marked_lookup L M M1 x n :
  marked_only L M M1 → nd M !! x = Some n → ∃ f, nd M1 !! x = Some (set_flags f n).
Proof.
  intros [HF _ _] Hn. specialize (HF x). rewrite Hn in HF. destruct (nd M1 !! x) as [n'|]; [|done].
  apply (inj Some) in HF. exists (flags n'). f_equal.
  apply (f_equal (set_flags (flags n'))) in HF. by destruct n, n'.
Qed.

(** Rebuilding a map of the table. *)
Lemma rebuild_ok S A i m L V M1 :
  table_ok S A → range_map_list S !! i = Some m → A !! i = Some (L, V) →
  marked_only L (memory S) M1 →
  ∃ S' m', rebuild S M1 i m = Ret S' ∧ range_map_list S' = <[i := m']> (range_map_list S) ∧
    name m' = name m ∧
    table_ok S' (<[i := (alive (nd M1) L, alive (nd M1) L)]> A) ∧ rebuilt L M1 (memory S').
Proof.
  intros HT Hm HA Hmk. pose proof (table_map _ _ _ _ HT Hm) as (L0 & V0 & HA0 & Hok).
  rewrite HA in HA0. injection HA0 as <- <-.
  assert (Hno : ∀ x, x ∈ L → ∃ n, nd M1 !! x = Some n ∧ node_ok n).
  { intros x Hx. destruct (mo_nodes _ _ _ _ Hok x Hx) as (n & Hn & Hnok).
    destruct (marked_lookup _ _ _ _ _ Hmk Hn) as [f Hf]. eauto. }
  destruct (rebuild_map_ok M1 m L) as (M' & m' & E & En & Hok' & Hrb); [|apply (mo_nodup _ _ _ _ Hok)
    |by eapply map_roots|done|].
  { eapply all_seg_frame; [|exact (mo_all _ _ _ _ Hok)]. intros x Hx.
    destruct (mo_nodes _ _ _ _ Hok x Hx) as (n & Hn & _).
    destruct (marked_lookup _ _ _ _ _ Hmk Hn) as [f ->]. by rewrite Hn. }
  assert (Hi : (i < length (range_map_list S))%nat) by (by eapply lookup_lt_Some).
  exists (State M' (<[i := m']> (range_map_list S))), m'. split.
  { unfold rebuild. apply cres_bind_Ret in E as ([M2 m2] & -> & E). simpl in E |- *. rewrite E. simpl.
    by rewrite wr_nat. }
  split; [done|]. split; [done|]. split; [|done].
  assert (Hsub : ∀ x, x ∈ alive (nd M1) L ↔ x ∈ L ∧ doomed (nd M1) x = false).
  { intros x. unfold alive. rewrite list_elem_of_filter. naive_solver. }
  eapply table_update; [done|done|done|done|done|..].
  - intros x Hx. destruct (rb_other _ _ _ Hrb x) as [-> ->]; [set_solver|].
    rewrite (mk_other _ _ _ Hmk), (mk_entries _ _ _ Hmk) by set_solver. done.
  - intros x [Hx _]%Hsub Hnx. done.
  - intros x Hx Hnx. apply (rb_dead _ _ _ Hrb); [done|]. rewrite Hsub in Hnx.
    destruct (doomed (nd M1) x); [done|]. exfalso. by apply Hnx.
  - assert (Hid : ∀ x, x ∈ alive (nd M1) L → ident (nd M') x = ident (nd (memory S)) x).
    { intros x [Hx Hd]%Hsub. pose proof (rb_alive _ _ _ Hrb x Hx Hd) as Hu.
      destruct (mo_nodes _ _ _ _ Hok x Hx) as (n & Hn & _).
      destruct (marked_lookup _ _ _ _ _ Hmk Hn) as [f Hf]. unfold ident. rewrite Hn. rewrite Hf in Hu.
      destruct (nd M' !! x) as [n'|]; [|done]. simpl in Hu |- *. apply (inj Some) in Hu.
      assert (E1 : ip n' = ip n) by (by apply (f_equal ip) in Hu).
      assert (E2 : port n' = port n) by (by apply (f_equal port) in Hu).
      destruct (unlinked_facts _ _ Hu) as (_ & Hk & _). rewrite E1, E2, Hk. done. }
    intros x y Hx Hy. rewrite !Hid by done. apply Hsub in Hx as [Hx _]. apply Hsub in Hy as [Hy _].
    by apply (to_ident _ _ HT i (L, V)).
Qed.

(** ** Loops over the nodes of a map *)

Lemma c_memcmp_key (n : range_node_t) k buf :
  node_ok n → hash_length n = Z.of_nat (length k) → (length k <= length buf)%nat →
  ∃ z, c_memcmp (hash_buffer n) (ow k buf) (Z.of_nat (length k)) = Ret z ∧ (z = 0 ↔ node_key n = k).
Proof.
  intros (Hl & Hb & _) Hlen Hk. unfold c_memcmp.
  assert (Ho : length (ow k buf) = length buf) by (by apply length_ow).
  rewrite decide_True by lia. eexists. split; [done|]. rewrite Nat2Z.id, memcmp_eq by lia.
  unfold node_key. rewrite Hlen, Nat2Z.id. unfold ow. rewrite take_app_length. done.
Qed.

(** The first node of the list with an address and a key. *)
Definition node_with (h : nodes) (a p : Z) (k : list Z) (L : list loc) : option loc :=
  snd <$> list_find (fun x => ident h x = Some (a, p, k)) L.

Lemma find_node_loop_ok fuel M q L a p k buf :
  all_seg (nd M) q L None → (∀ x, x ∈ L → ∃ n, nd M !! x = Some n ∧ node_ok n) →
  (length L < fuel)%nat → (length k <= length buf)%nat →
  find_node_loop fuel M q a p (ow k buf) (Z.of_nat (length k)) = Ret (node_with (nd M) a p k L).
Proof.
  revert fuel q. induction L as [|x L IH]; intros fuel q HL Hno Hf Hk;
    (destruct fuel as [|fuel]; [simpl in Hf; lia|]); simpl in HL |- *.
  { by subst q. }
  destruct HL as (-> & n & Hn & HL). destruct (Hno x) as (n' & Hn' & Hok); [set_solver|].
  rewrite Hn in Hn'. injection Hn' as <-. rewrite (nget_ok _ _ _ _ Hn). cbn [mbind cres_bind id].
  assert (Hid : ident (nd M) x = Some (ip n, port n, node_key n)) by (unfold ident; by rewrite Hn).
  rewrite (IH fuel) by (done || (simpl in Hf; lia) || (intros; apply Hno; set_solver)).
  assert (Hcons : node_with (nd M) a p k (x :: L) =
    if decide (Some (ip n, port n, node_key n) = Some (a, p, k)) then Some x
    else node_with (nd M) a p k L).
  { unfold node_with. simpl. rewrite Hid. case_decide; [done|]. by destruct (list_find _ L) as [[]|]. }
  rewrite Hcons. cbv zeta.
  destruct (Z.eqb_spec (ip n) a) as [<-|Hne]; simpl negb; cbn iota; [|by rewrite decide_False by congruence].
  destruct (Z.eqb_spec (port n) p) as [<-|Hne]; simpl negb; cbn iota; [|by rewrite decide_False by congruence].
  destruct (Z.eqb_spec (hash_length n) (Z.of_nat (length k))) as [Hl|Hne]; simpl negb; cbn iota.
  2:{ rewrite decide_False; [done|]. intros [= <-]. rewrite (node_key_length n Hok) in Hne. destruct Hok. lia. }
  destruct (c_memcmp_key n k buf Hok Hl Hk) as (z & -> & Hz). cbn [mbind cres_bind].
  destruct (Z.eqb_spec z 0) as [Hz0|Hz0]; simpl negb; cbn iota.
  - rewrite decide_True by (do 2 f_equal; tauto). done.
  - rewrite decide_False; [done|]. intros [= <-]. tauto.
Qed.

Lemma find_node_ok M m L V a p k buf :
  map_ok M m L V → (length k <= length buf)%nat →
  range_map_find_node M m a p (ow k buf) (Z.of_nat (length k)) = Ret (node_with (nd M) a p k L).
Proof.
  intros [Hal Hnd Hno _ _ _] Hk. unfold range_map_find_node. apply find_node_loop_ok; try done.
  apply list_fuel_ok; [done|]. intros x Hx. by eapply all_seg_elem.
Qed.

Lemma node_with_Some h a p k L x :
  node_with h a p k L = Some x → x ∈ L ∧ ident h x = Some (a, p, k).
Proof.
  unfold node_with. intros H. apply fmap_Some in H as ([i y] & H & ->).
  apply list_find_Some in H as (H & Hi & _). split; [by eapply list_elem_of_lookup_2|done].
Qed.

Lemma node_with_None h a p k L x :
  node_with h a p k L = None → x ∈ L → ident h x ≠ Some (a, p, k).
Proof.
  unfold node_with. intros H. apply fmap_None in H. apply list_find_None in H.
  rewrite Forall_forall in H. apply H.
Qed.

(** A loop whose body updates the node it is at, without its link in the list. *)
Lemma each_node_ok body (g : range_node_t → range_node_t) fuel M q L :
  (∀ M' x n, nd M' !! x = Some n → node_ok n → all_node_list_next (g n) = all_node_list_next n ∧
     body M' x = Ret (Mem (<[x := g n]> (nd M')) (en M'))) →
  all_seg (nd M) q L None → NoDup L → (∀ x, x ∈ L → ∃ n, nd M !! x = Some n ∧ node_ok n) →
  (length L < fuel)%nat →
  ∃ M', each_node fuel M body q = Ret M' ∧ en M' = en M ∧
    (∀ x, x ∉ L → nd M' !! x = nd M !! x) ∧ (∀ x, x ∈ L → nd M' !! x = g <$> nd M !! x).
Proof.
  intros Hbody. revert fuel M q. induction L as [|x L IH]; intros fuel M q HL Hn Hno Hf;
    (destruct fuel as [|fuel]; [simpl in Hf; lia|]); simpl in HL |- *.
  { subst q. exists M. split_and!; try done. set_solver. }
  destruct HL as (-> & n & Hx & HL). apply NoDup_cons in Hn as [HxL Hn].
  destruct (Hno x) as (n' & Hn' & Hok); [set_solver|]. rewrite Hx in Hn'. injection Hn' as <-.
  destruct (Hbody M x n Hx Hok) as [Hnext ->]. cbn [mbind cres_bind].
  rewrite (nget_ok (Mem _ _) x (g n) all_node_list_next) by (simpl; by rewrite lookup_insert_eq).
  cbn [mbind cres_bind].
  destruct (IH fuel (Mem (<[x:=g n]> (nd M)) (en M)) (all_node_list_next (g n)))
    as (M' & E & He & Ho & Hi); simpl.
  { rewrite Hnext. by apply all_seg_insert_other. }
  { done. }
  { intros y Hy. rewrite lookup_insert_ne by set_solver. apply Hno. set_solver. }
  { simpl in Hf. lia. }
  exists M'. split; [done|]. split; [done|]. simpl in Ho, Hi. split.
  - intros y Hy. rewrite Ho by set_solver. apply lookup_insert_ne. set_solver.
  - intros y [->|Hy]%elem_of_cons.
    + rewrite Ho by done. by rewrite lookup_insert_eq, Hx.
    + rewrite Hi by done. by rewrite lookup_insert_ne by set_solver.
Qed.

(** ** Lookups *)

Definition indexed_of (A : list (list loc * list loc)) (i : nat) : list loc :=
  match A !! i with Some a => a.2 | None => [] end.

(** The nodes a lookup of [hash] in the map [nm] is answered with. *)
Definition answer (S : state) (A : list (list loc * list loc)) (nm hash : list Z) : list loc :=
  match lookup_name S nm with
  | Some (i, _) => matches (key_of (nd (memory S))) (indexed_of A i) hash 31
  | None => []
  end.

Lemma find_and_lock_ok S A nm tl hash :
  table_ok S A → cstring nm → length hash = 32%nat →
  range_map_find_and_lock S (nm ++ 0 :: tl) hash = Ret (head (answer S A nm hash)) ∧
  seg (nd (memory S)) (answer S A nm hash) None.
Proof.
  intros HT Hnm Hh. unfold range_map_find_and_lock, answer. rewrite (find_by_name_ok S A) by done.
  destruct (lookup_name S nm) as [[i m]|] eqn:El; simpl; [|done].
  apply lookup_name_Some in El as [Hm _]. destruct (table_map _ _ _ _ HT Hm) as (L & V & HA & Hok).
  rewrite (rd_nat _ _ _ Hm). simpl. unfold indexed_of. rewrite HA.
  apply find_ok; [apply (mo_built _ _ _ _ Hok)|done].
Qed.

Lemma elem_of_answer S A nm hash x :
  table_ok S A → length hash = 32%nat →
  x ∈ answer S A nm hash ↔
  ∃ i m L V k, lookup_name S nm = Some (i, m) ∧ A !! i = Some (L, V) ∧ x ∈ V ∧
    key_of (nd (memory S)) x = Some k ∧ k `prefix_of` hash.
Proof.
  intros HT Hh. unfold answer. destruct (lookup_name S nm) as [[i m]|] eqn:El; [|set_solver].
  pose proof (lookup_name_Some _ _ _ _ El) as [Hm _].
  destruct (table_map _ _ _ _ HT Hm) as (L & V & HA & Hok). unfold indexed_of. rewrite HA.
  rewrite elem_of_matches by lia. split.
  - intros (Hx & k & Hk & Hp & _). eauto 10.
  - intros (i' & m' & L' & V' & k & [= <- <-] & HA' & Hx & Hk & Hp). rewrite HA in HA'. injection HA' as <- <-.
    split; [done|]. exists k. split; [done|]. split; [done|].
    destruct (mo_new _ _ _ _ Hok) as [W ->]. destruct (mo_nodes _ _ _ _ Hok x) as (n & Hn & Hno); [set_solver|].
    unfold key_of in Hk. rewrite Hn in Hk. injection Hk as <-. rewrite (node_key_length n Hno).
    destruct Hno. lia.
Qed.

Lemma answer_alive S A nm hash x :
  table_ok S A → length hash = 32%nat → x ∈ answer S A nm hash →
  ∃ n, nd (memory S) !! x = Some n ∧ (negb (Z.land RM_NODE_DELETE (flags n) =? 0)) = false.
Proof.
  intros HT Hh Hx. apply elem_of_answer in Hx as (i & m & L & V & k & Hl & HA & HxV & Hk & _); [|done|done].
  apply lookup_name_Some in Hl as [Hm _]. destruct (table_map _ _ _ _ HT Hm) as (L' & V' & HA' & Hok).
  rewrite HA in HA'. injection HA' as <- <-. pose proof (mo_alive _ _ _ _ Hok x HxV) as Hd.
  unfold key_of in Hk. apply fmap_Some in Hk as (n & Hn & _). exists n. split; [done|].
  unfold doomed in Hd. by rewrite Hn in Hd.
Qed.

Lemma matches_NoDup kf V hash l : (l <= length hash)%nat → NoDup V → NoDup (matches kf V hash l).
Proof.
  intros Hl Hn. induction l as [|l IH]; simpl; [rewrite app_nil_r; by apply group_NoDup|].
  apply NoDup_app. split; [by apply group_NoDup|]. split; [|apply IH; lia].
  intros x [_ Hx]%elem_of_group Hx'. apply elem_of_matches in Hx' as (_ & k & Hk & _ & Hlen); [|lia].
  rewrite Hx in Hk. injection Hk as <-. rewrite length_take in Hlen. lia.
Qed.

Lemma answer_NoDup S A nm hash : table_ok S A → length hash = 32%nat → NoDup (answer S A nm hash).
Proof.
  intros HT Hh. unfold answer. destruct (lookup_name S nm) as [[i m]|] eqn:El; [|constructor].
  apply lookup_name_Some in El as [Hm _]. destruct (table_map _ _ _ _ HT Hm) as (L & V & HA & Hok).
  unfold indexed_of. rewrite HA. apply matches_NoDup; [lia|].
  pose proof (mo_nodup _ _ _ _ Hok) as Hn. destruct (mo_new _ _ _ _ Hok) as [W ->].
  by apply NoDup_app in Hn as (_ & _ & ?).
Qed.

Lemma lookup_ok S A nm tl hash :
  table_ok S A → cstring nm → length hash = 32%nat →
  ∃ C, range_map_find_and_lock S (nm ++ 0 :: tl) hash = Ret (head C) ∧
    seg (nd (memory S)) C None ∧ NoDup C ∧
    StronglySorted (fun x y => (key_len (key_of (nd (memory S))) y <= key_len (key_of (nd (memory S))) x)%nat) C ∧
    ∀ x, x ∈ C ↔ ∃ i m L V k, lookup_name S nm = Some (i, m) ∧ A !! i = Some (L, V) ∧ x ∈ V ∧
      key_of (nd (memory S)) x = Some k ∧ k `prefix_of` hash.
Proof.
  intros HT Hnm Hh. destruct (find_and_lock_ok S A nm tl hash HT Hnm Hh) as [E Hs].
  exists (answer S A nm hash). split; [done|]. split; [done|]. split; [by apply answer_NoDup|]. split.
  - unfold answer. destruct (lookup_name S nm) as [[i m]|]; [|constructor]. apply matches_order. lia.
  - intros x. by apply elem_of_answer.
Qed.

(** The addresses of nodes. *)
Definition addresses_of (h : nodes) (C : list loc) : list sockaddr_in :=
  omap (fun x => address <$> h !! x) C.

Lemma addresses_loop_ok fuel M C done buf mx :
  seg (nd M) C None →
  (∀ x, x ∈ C → ∃ n, nd M !! x = Some n ∧ negb (Z.land RM_NODE_DELETE (flags n) =? 0) = false) →
  (length C < fuel)%nat → (mx <= length buf)%nat → (length done <= mx)%nat →
  addresses_loop fuel M (head C) (ow done buf) (Z.of_nat (length done)) (Z.of_nat mx) =
  Ret (if (length done + length C <=? mx)%nat
       then (Z.of_nat (length done + length C), ow (done ++ addresses_of (nd M) C) buf)
       else (-1, ow (take mx (done ++ addresses_of (nd M) C)) buf)).
Proof.
  revert fuel done. induction C as [|x C IH]; intros fuel dn HC Hal Hf Hmx Hdn;
    (destruct fuel as [|fuel]; [simpl in Hf; lia|]); simpl head; cbn [addresses_loop].
  { simpl. rewrite (proj2 (Nat.leb_le _ _)) by lia. by rewrite Nat.add_0_r, app_nil_r. }
  destruct HC as [(n & Hn & Hnx) HC]. destruct (Hal x) as (n' & Hn' & Hd); [set_solver|].
  rewrite Hn in Hn'. injection Hn' as <-. rewrite !(nget_ok _ _ _ _ Hn). cbn [mbind cres_bind]. rewrite Hd.
  cbn [mbind cres_bind]. rewrite !(nget_ok _ _ _ _ Hn).
  assert (Hao : addresses_of (nd M) (x :: C) = address n :: addresses_of (nd M) C).
  { unfold addresses_of. simpl. by rewrite Hn. }
  rewrite Hao. destruct (Z.leb_spec (Z.of_nat mx) (Z.of_nat (length dn))).
  { rewrite (proj2 (Nat.leb_gt _ _)) by (simpl; lia). rewrite take_app_le by lia. by rewrite take_ge by lia. }
  cbn [mbind cres_bind]. rewrite ow_wr by lia. cbn [mbind cres_bind]. rewrite Hnx.
  replace (Z.of_nat (length dn) + 1) with (Z.of_nat (length (dn ++ [address n])))
    by (rewrite length_app; simpl; lia).
  rewrite hd_or_None, IH; [|done|intros; apply Hal; set_solver|simpl in Hf; lia|done|
    rewrite length_app; simpl; lia].
  rewrite <- app_assoc, length_app. simpl. rewrite <- Nat.add_assoc. done.
Qed.

(** The addresses of the nodes that answer a lookup are stored in order and counted; when there
    are more than the caller has room for, the room is filled and the result is -1. *)
Theorem range_map_get_addresses_correct S A nm tl hash buf mx :
  table_ok S A → cstring nm → length hash = 32%nat → (mx <= length buf)%nat →
  range_map_get_addresses S (nm ++ 0 :: tl) hash buf (Z.of_nat mx) =
  Ret (let C := answer S A nm hash in
       let as' := addresses_of (nd (memory S)) C in
       if (length C <=? mx)%nat then (Z.of_nat (length C), ow as' buf) else (-1, ow (take mx as') buf)).
Proof.
  intros HT Hnm Hh Hmx. unfold range_map_get_addresses.
  destruct (find_and_lock_ok S A nm tl hash HT Hnm Hh) as [-> Hs]. cbn [mbind cres_bind].
  pose proof (answer_NoDup S A nm hash HT Hh) as Hn.
  pose proof (fun x => answer_alive S A nm hash x HT Hh) as Hal.
  destruct (answer S A nm hash) as [|x C]; [done|]. simpl head. cbn iota.
  etrans; [apply (addresses_loop_ok (list_fuel (memory S)) (memory S) (x :: C) [] buf mx)|]; try done.
  - apply list_fuel_ok; [done|]. intros y Hy. destruct (Hal y Hy) as (n & -> & _). eauto.
  - simpl. lia.
Qed.

(** Whether a node is the main one of its range. *)
Definition is_main (h : nodes) (x : loc) : bool :=
  match h !! x with Some n => negb (Z.land (flags n) RM_NODE_MAIN =? 0) | None => false end.

Lemma main_loop_ok fuel M C addr :
  seg (nd M) C None → (∀ x, x ∈ C → is_Some (nd M !! x)) → (length C < fuel)%nat →
  main_loop fuel M (head C) addr =
  Ret (match head (addresses_of (nd M) (filter (fun x => is_main (nd M) x = true) C)) with
       | Some a => (0, a) | None => (-1, addr) end).
Proof.
  revert fuel. induction C as [|x C IH]; intros fuel HC Hal Hf;
    (destruct fuel as [|fuel]; [simpl in Hf; lia|]); simpl head; cbn [main_loop]; [done|].
  destruct HC as [(n & Hn & Hnx) HC]. rewrite !(nget_ok _ _ _ _ Hn). cbn [mbind cres_bind].
  assert (Hm : is_main (nd M) x = negb (Z.land (flags n) RM_NODE_MAIN =? 0)) by (unfold is_main; by rewrite Hn).
  destruct (negb (Z.land (flags n) RM_NODE_MAIN =? 0)).
  - rewrite filter_cons_True by done. unfold addresses_of. simpl. by rewrite Hn.
  - rewrite filter_cons_False by congruence. rewrite Hnx, hd_or_None.
    apply IH; [done|intros; apply Hal; set_solver|simpl in Hf; lia].
Qed.

(** The main address of a hash is the address of the first node of its chain, so of the longest
    key, that is marked as main.  A chain without such a node is an error; an empty chain is not:
    the result is 0 and the caller's address is left as it was. *)
Theorem range_map_get_main_address_correct S A nm tl hash addr :
  table_ok S A → cstring nm → length hash = 32%nat →
  range_map_get_main_address S (nm ++ 0 :: tl) hash addr =
  Ret (let C := answer S A nm hash in
       match head (addresses_of (nd (memory S)) (filter (fun x => is_main (nd (memory S)) x = true) C)) with
       | Some a => (0, a)
       | None => (match C with [] => 0 | _ => -1 end, addr)
       end).
Proof.
  intros HT Hnm Hh. unfold range_map_get_main_address.
  destruct (find_and_lock_ok S A nm tl hash HT Hnm Hh) as [-> Hs]. cbn [mbind cres_bind].
  pose proof (answer_NoDup S A nm hash HT Hh) as Hn.
  assert (Hal : ∀ x, x ∈ answer S A nm hash → is_Some (nd (memory S) !! x)).
  { intros x Hx. destruct (answer_alive S A nm hash x HT Hh Hx) as (n & -> & _). eauto. }
  destruct (answer S A nm hash) as [|x C]; [done|]. cbv zeta.
  change (head (x :: C)) with (Some x) at 1. cbn iota. change (Some x) with (head (x :: C)).
  rewrite (main_loop_ok (list_fuel (memory S)) (memory S) (x :: C)) by (done || by apply list_fuel_ok).
  by destruct (head _).
Qed.

(** ** Flushing and removing *)

Lemma marked_refl L M : marked_only L M M.
Proof. done. Qed.

Lemma flush_ok S A nm tl :
  table_ok S A → cstring nm →
  match lookup_name S nm with
  | None => range_map_flush S (nm ++ 0 :: tl) = Ret (Some "range map not found"%string, S)
  | Some (i, _) =>
      ∃ L V S', A !! i = Some (L, V) ∧ range_map_flush S (nm ++ 0 :: tl) = Ret (None, S') ∧
        (let L' := alive (nd (memory S)) L in table_ok S' (<[i := (L', L')]> A)) ∧
        map_name <$> range_map_list S' = map_name <$> range_map_list S ∧
        rebuilt L (memory S) (memory S')
  end.
Proof.
  intros HT Hnm. unfold range_map_flush. rewrite (find_by_name_ok S A) by done.
  destruct (lookup_name S nm) as [[i m]|] eqn:El; simpl; [|done].
  apply lookup_name_Some in El as [Hm _]. destruct (table_map _ _ _ _ HT Hm) as (L & V & HA & Hok).
  destruct (rebuild_ok S A i m L V (memory S) HT Hm HA (marked_refl _ _))
    as (S' & m' & E & El & En & HT' & Hrb).
  exists L, V, S'. rewrite (rd_nat _ _ _ Hm). simpl. rewrite E. simpl. split_and!; try done.
  rewrite El, list_fmap_insert. apply list_insert_id. rewrite list_lookup_fmap, Hm. simpl.
  unfold map_name. by rewrite En.
Qed.

Lemma land_delete_lor f : negb (Z.land RM_NODE_DELETE (Z.lor f RM_NODE_DELETE) =? 0) = true.
Proof.
  rewrite Z.land_lor_distr_r. change (Z.land RM_NODE_DELETE RM_NODE_DELETE) with 2.
  destruct (Z.eqb_spec (Z.lor (Z.land RM_NODE_DELETE f) 2) 0) as [E|]; [|done].
  apply Z.lor_eq_0_iff in E as [_ E]. lia.
Qed.

(** Marking a node. *)
Definition doom (n : range_node_t) : range_node_t := set_flags (Z.lor (flags n) RM_NODE_DELETE) n.

Lemma marked_doom L M M1 :
  en M1 = en M → (∀ x, x ∉ L → nd M1 !! x = nd M !! x) → (∀ x, x ∈ L → nd M1 !! x = doom <$> nd M !! x) →
  marked_only L M M1.
Proof.
  intros He Ho Hi. split; [|done|done]. intros x. destruct (decide (x ∈ L)) as [Hx|Hx].
  - rewrite Hi by done. by destruct (nd M !! x).
  - by rewrite Ho.
Qed.

Lemma doomed_doom M M1 x :
  nd M1 !! x = doom <$> nd M !! x → is_Some (nd M !! x) → doomed (nd M1) x = true.
Proof. intros E [n Hn]. unfold doomed. rewrite E, Hn. simpl. apply land_delete_lor. Qed.

Lemma doomed_same M M1 x : nd M1 !! x = nd M !! x → doomed (nd M1) x = doomed (nd M) x.
Proof. intros E. unfold doomed. by rewrite E. Qed.

(** The text parameters name a node of the table: it is [x], in the list [L] of map [i]. *)
Definition named_node (S : state) (A : list (list loc * list loc)) (nm ips : list Z) (p : Z)
    (hs : list Z) (i : nat) (L : list loc) (x : loc) : Prop :=
  ∃ a k m V, addr_text ips a ∧ key_text hs k ∧ lookup_name S nm = Some (i, m) ∧
    A !! i = Some (L, V) ∧ x ∈ L ∧ ident (nd (memory S)) x = Some (a, p, k).

Lemma key_text_length s k : key_text s k → (length k <= 16)%nat.
Proof. intros (h & e & _ & _ & He & Hl & _ & ->). pose proof (pairs_length h He). lia. Qed.

Lemma key_text_fun s k k' : key_text s k → key_text s k' → k = k'.
Proof.
  intros (h & e & -> & _ & _ & _ & _ & ->) (h' & e' & E & _ & _ & _ & _ & ->).
  by apply app_inj_tail in E as [<- _].
Qed.

Lemma addr_text_fun s a a' : cstring s → addr_text s a → addr_text s a' → a = a'.
Proof.
  intros Hs%cstring_bytes [_ [r Hr]] [_ [r' Hr']].
  pose proof (Ipv4.run_complete _ _ _ Hs Hr). pose proof (Ipv4.run_complete _ _ _ Hs Hr'). congruence.
Qed.

Lemma del_node_ok S A nm ips hs t1 t2 t3 p :
  table_ok S A → cstring nm → cstring ips → cstring hs →
  (∃ i L x S', named_node S A nm ips p hs i L x ∧
     range_map_del_node S (nm ++ 0 :: t1) (ips ++ 0 :: t2) p (hs ++ 0 :: t3) = Ret (None, S') ∧
     nd (memory S') !! x = None ∧
     (let L' := filter (fun y => y ≠ x ∧ doomed (nd (memory S)) y = false) L in
      table_ok S' (<[i := (L', L')]> A) ∧
      ∀ y, y ∈ L' → unlinked <$> nd (memory S') !! y = unlinked <$> nd (memory S) !! y) ∧
     ∀ y, y ∉ L → nd (memory S') !! y = nd (memory S) !! y) ∨
  (∃ e, range_map_del_node S (nm ++ 0 :: t1) (ips ++ 0 :: t2) p (hs ++ 0 :: t3) = Ret (Some e, S) ∧
     ¬ ∃ i L x, named_node S A nm ips p hs i L x).
Proof.
  intros HT Hnm Hi Hh. unfold range_map_del_node.
  destruct (translate_ok ips hs t2 t3 Hi Hh) as [(a & k & Ha & Hk & ->)|[Hno [e ->]]]; cbn [mbind cres_bind].
  2:{ right. exists e. split; [done|]. intros (i & L & x & a & k & _ & _ & Ha & Hk & _). naive_solver. }
  rewrite (find_by_name_ok S A) by done.
  destruct (lookup_name S nm) as [[i m]|] eqn:El; cbn [mbind cres_bind fmap option_fmap option_map fst].
  2:{ right. eexists. split; [done|]. intros (i & L & x & a' & k' & m & V & _ & _ & Hl & _). congruence. }
  pose proof (lookup_name_Some _ _ _ _ El) as [Hm _].
  destruct (table_map _ _ _ _ HT Hm) as (L & V & HA & Hok). rewrite (rd_nat _ _ _ Hm). cbn [mbind cres_bind].
  rewrite (find_node_ok _ _ _ _ _ _ _ _ Hok)
    by (rewrite length_replicate; pose proof (key_text_length _ _ Hk); lia).
  cbn [mbind cres_bind]. destruct (node_with _ _ _ _ _) as [x|] eqn:Ex.
  2:{ right. eexists. split; [done|].
      intros (i' & L' & x & a' & k' & m' & V' & Ha' & Hk' & Hl' & HA' & Hx & Hid). rewrite El in Hl'. injection Hl' as <- <-.
      rewrite HA in HA'. injection HA' as <- <-. rewrite (key_text_fun _ _ _ Hk' Hk) in Hid.
      rewrite (addr_text_fun _ _ _ Hi Ha' Ha) in Hid.
      by apply (node_with_None _ _ _ _ _ _ Ex Hx). }
  apply node_with_Some in Ex as [Hx Hid]. destruct (mo_nodes _ _ _ _ Hok x Hx) as (n & Hn & _).
  rewrite (nget_ok _ _ _ _ Hn). cbn [mbind cres_bind]. rewrite (nput_ok _ _ _ _ Hn). cbn [mbind cres_bind].
  set (M1 := Mem _ _).
  assert (Hx1 : nd M1 !! x = doom <$> nd (memory S) !! x) by (simpl; by rewrite lookup_insert_eq, Hn).
  assert (Hy1 : ∀ y, y ≠ x → nd M1 !! y = nd (memory S) !! y) by (intros y Hy; simpl; by rewrite lookup_insert_ne).
  assert (Hmk : marked_only L (memory S) M1).
  { destruct (marked_doom [x] (memory S) M1) as [B1 B2 B3]; [done|set_solver| |].
    - intros y Hy. assert (y = x) as -> by set_solver. done.
    - split; [done| |done]. intros y Hy. apply Hy1. intros ->. done. }
  destruct (rebuild_ok S A i m L V M1 HT Hm HA Hmk) as (S' & m' & -> & _ & _ & HT' & Hrb).
  assert (HL' : alive (nd M1) L = filter (fun y => y ≠ x ∧ doomed (nd (memory S)) y = false) L).
  { unfold alive. apply list_filter_iff. intros y. destruct (decide (y = x)) as [->|Hne].
    - rewrite (doomed_doom (memory S) M1) by (done || by eexists). naive_solver.
    - rewrite (doomed_same (memory S) M1) by (by apply Hy1). naive_solver. }
  left. exists i, L, x, S'. split; [exists a, k, m, V; done|]. split; [done|]. split.
  { apply (rb_dead _ _ _ Hrb); [done|]. apply (doomed_doom (memory S)); [done|by eexists]. }
  cbv zeta. rewrite <- HL'. split; [split; [done|]|].
  - intros y Hy. rewrite HL' in Hy. apply list_elem_of_filter in Hy as [[Hne Hd] Hy].
    rewrite (rb_alive _ _ _ Hrb y Hy) by (by rewrite (doomed_same (memory S) M1) by (by apply Hy1)).
    by rewrite Hy1.
  - intros y Hy. destruct (rb_other _ _ _ Hrb y Hy) as [-> _]. apply Hy1. by intros ->.
Qed.

Lemma mark_deleted_ok M x n :
  nd M !! x = Some n → mark_deleted M x = Ret (Mem (<[x := doom n]> (nd M)) (en M)).
Proof.
  intros Hn. unfold mark_deleted. rewrite (nget_ok _ _ _ _ Hn). cbn [mbind cres_bind].
  by rewrite (nput_ok _ _ _ _ Hn).
Qed.

(** Removing all nodes of a known map frees every node it has and leaves it empty, the other
    maps as they are. *)
Theorem range_map_del_all_node_correct S A nm tl :
  table_ok S A → cstring nm →
  match lookup_name S nm with
  | None => range_map_del_all_node S (nm ++ 0 :: tl) = Ret (Some "range map not exist"%string, S)
  | Some (i, _) =>
      ∃ L V S', A !! i = Some (L, V) ∧ range_map_del_all_node S (nm ++ 0 :: tl) = Ret (None, S') ∧
        table_ok S' (<[i := ([], [])]> A) ∧
        ∀ x, nd (memory S') !! x = if decide (x ∈ L) then None else nd (memory S) !! x
  end.
Proof.
  intros HT Hnm. unfold range_map_del_all_node. rewrite (find_by_name_ok S A) by done.
  destruct (lookup_name S nm) as [[i m]|] eqn:El; [|done].
  cbn [mbind cres_bind fmap option_fmap option_map fst].
  apply lookup_name_Some in El as [Hm _]. destruct (table_map _ _ _ _ HT Hm) as (L & V & HA & Hok).
  rewrite (rd_nat _ _ _ Hm). cbn [mbind cres_bind].
  destruct (each_node_ok mark_deleted doom (list_fuel (memory S)) (memory S) (all_list m) L)
    as (M1 & -> & He & Ho & Hi).
  { intros M' x n Hn _. split; [done|]. by apply mark_deleted_ok. }
  { apply (mo_all _ _ _ _ Hok). }
  { apply (mo_nodup _ _ _ _ Hok). }
  { apply (mo_nodes _ _ _ _ Hok). }
  { apply list_fuel_ok; [apply (mo_nodup _ _ _ _ Hok)|]. intros x Hx.
    destruct (mo_nodes _ _ _ _ Hok x Hx) as (n & -> & _). eauto. }
  cbn [mbind cres_bind].
  destruct (rebuild_ok S A i m L V M1 HT Hm HA) as (S' & m' & -> & _ & _ & HT' & Hrb).
  { by apply marked_doom. }
  assert (Hd : ∀ x, x ∈ L → doomed (nd M1) x = true).
  { intros x Hx. apply (doomed_doom (memory S)); [by apply Hi|].
    destruct (mo_nodes _ _ _ _ Hok x Hx) as (n & -> & _). eauto. }
  assert (E : alive (nd M1) L = []).
  { destruct (alive (nd M1) L) as [|x l] eqn:El; [done|]. exfalso.
    assert (Hx : x ∈ alive (nd M1) L) by (rewrite El; set_solver).
    apply list_elem_of_filter in Hx as [Hx HxL]. rewrite Hd in Hx; done. }
  rewrite E in HT'. exists L, V, S'. split_and!; try done.
  intros x. case_decide as Hx.
  - apply (rb_dead _ _ _ Hrb); auto.
  - destruct (rb_other _ _ _ Hrb x Hx) as [-> _]. auto.
Qed.

(** ** Adding *)

Section Add.
Context (is_me : sockaddr_in → bool) (my_port : Z → bool)
        (find_bucket : list Z → Z → list Z → Z → Z → Z → ptr)
        (inet_addr : list Z → Z).

(** The map [i] is called [nm], and has no node with this address, port and key. *)
Definition addable (S : state) (A : list (list loc * list loc)) (nm ips : list Z) (p : Z)
    (hs : list Z) (i : nat) : Prop :=
  ∃ a k m L V, addr_text ips a ∧ key_text hs k ∧ lookup_name S nm = Some (i, m) ∧
    A !! i = Some (L, V) ∧ ∀ x, x ∈ L → ident (nd (memory S)) x ≠ Some (a, p, k).

(** A node put at the front of the list of a map. *)
Lemma table_add S A i m L V x n e :
  table_ok S A → range_map_list S !! i = Some m → A !! i = Some (L, V) →
  nd (memory S) !! x = None → node_ok n → all_node_list_next n = all_list m →
  (∀ y, y ∈ L → ident (nd (memory S)) y ≠ Some (ip n, port n, node_key n)) →
  table_ok (State (Mem (<[x := n]> (nd (memory S))) (<[x := e]> (en (memory S))))
                  (<[i := set_all_list (Some x) m]> (range_map_list S)))
           (<[i := (x :: L, V)]> A).
Proof.
  intros HT Hm HA Hx Hn Hnext Hid. destruct (table_map _ _ _ _ HT Hm) as (L0 & V0 & HA0 & Hok).
  rewrite HA in HA0. injection HA0 as <- <-.
  assert (HxL : x ∉ L).
  { intros HxL. destruct (mo_nodes _ _ _ _ Hok x HxL) as (? & ? & _). congruence. }
  assert (Hfr : ∀ y, y ∈ L → (<[x := n]> (nd (memory S))) !! y = nd (memory S) !! y ∧
    (<[x := e]> (en (memory S))) !! y = en (memory S) !! y).
  { intros y Hy. rewrite !lookup_insert_ne by set_solver. done. }
  eapply table_update; [done|done|done|done|..].
  - apply (map_ok_frame _ (Mem (<[x := n]> (nd (memory S))) (<[x := e]> (en (memory S))))) in Hok;
      [|done]. destruct Hok as [Hal Hnd Hno (W & HW) Hav Hb]. split; simpl in *.
    + split; [done|]. exists n. rewrite lookup_insert_eq, Hnext. done.
    + by apply NoDup_cons.
    + intros y [->|Hy]%elem_of_cons; [exists n; by rewrite lookup_insert_eq|by apply Hno].
    + exists (x :: W). simpl. by f_equal.
    + done.
    + destruct Hb as [(P & [? ? ? ? ?] & HP) ? ?]. split; [|done|done]. exists P. split; [|done]. by split.
  - intros y Hy. simpl. rewrite !lookup_insert_ne by set_solver. done.
  - intros y Hy HyL. assert (y = x) as -> by set_solver. done.
  - set_solver.
  - assert (Hold : ∀ y, y ∈ L → ident (<[x := n]> (nd (memory S))) y = ident (nd (memory S)) y).
    { intros y Hy. unfold ident. destruct (Hfr y Hy) as [-> _]. done. }
    assert (Hnew : ident (<[x := n]> (nd (memory S))) x = Some (ip n, port n, node_key n)).
    { unfold ident. by rewrite lookup_insert_eq. }
    intros y z [->|Hy]%elem_of_cons [->|Hz]%elem_of_cons; simpl; try done.
    + rewrite Hnew, Hold by done. intros E. by destruct (Hid z Hz).
    + rewrite Hnew, Hold by done. intros E. by destruct (Hid y Hy).
    + rewrite !Hold by done. by apply (to_ident _ _ HT i (L, V)).
Qed.

Lemma new_key k :
  (length k <= 16)%nat → Forall is_byte k →
  let buf := take (Z.to_nat (Z.of_nat (length k))) (ow k (replicate 32 0))
             ++ drop (Z.to_nat (Z.of_nat (length k))) (replicate 40 0) in
  buf = ow k (replicate 40 0) ∧ length buf = 40%nat ∧ Forall is_byte buf.
Proof.
  intros Hl Hk. rewrite Nat2Z.id. unfold ow at 1. rewrite take_app_length. split; [done|]. split.
  - rewrite length_app, length_drop, length_replicate. lia.
  - apply Forall_app. split; [done|]. apply Forall_drop, Forall_replicate. unfold is_byte. lia.
Qed.

Lemma key_text_bytes s k : key_text s k → Forall is_byte k.
Proof. intros (h & e & _ & _ & _ & _ & _ & ->). apply pairs_bytes. Qed.

Lemma add_node_ok mem_ok S A nm ips hs t1 t2 t3 p f :
  table_ok S A → cstring nm → cstring ips → cstring hs →
  (∃ i L V x n S', mem_ok = true ∧ addable S A nm ips p hs i ∧ A !! i = Some (L, V) ∧
     range_map_add_node is_me my_port find_bucket inet_addr mem_ok S (nm ++ 0 :: t1) (ips ++ 0 :: t2) p f
       (hs ++ 0 :: t3) = Ret (None, S') ∧
     nd (memory S) !! x = None ∧ nd (memory S') = <[x := n]> (nd (memory S)) ∧
     addr_text ips (ip n) ∧ key_text hs (node_key n) ∧ port n = p ∧
     Z.lor (flags n) RM_NODE_ME = Z.lor f RM_NODE_ME ∧
     table_ok S' (<[i := (x :: L, V)]> A)) ∨
  (∃ e, range_map_add_node is_me my_port find_bucket inet_addr mem_ok S (nm ++ 0 :: t1) (ips ++ 0 :: t2) p f
       (hs ++ 0 :: t3) = Ret (Some e, S) ∧ ¬ (mem_ok = true ∧ ∃ i, addable S A nm ips p hs i)).
Proof.
  intros HT Hnm Hi Hh. unfold range_map_add_node.
  destruct (translate_ok ips hs t2 t3 Hi Hh) as [(a & k & Ha & Hk & ->)|[Hno [e ->]]]; cbn [mbind cres_bind].
  2:{ right. exists e. split; [done|]. intros (_ & i & a & k & m & L & V & Ha & Hk & _). naive_solver. }
  rewrite (find_by_name_ok S A) by done.
  destruct (lookup_name S nm) as [[i m]|] eqn:El; cbn [mbind cres_bind fmap option_fmap option_map fst].
  2:{ right. eexists. split; [done|]. intros (_ & i & a' & k' & m & L & V & _ & _ & Hl & _). congruence. }
  pose proof (lookup_name_Some _ _ _ _ El) as [Hm _].
  destruct (table_map _ _ _ _ HT Hm) as (L & V & HA & Hok). rewrite (rd_nat _ _ _ Hm). cbn [mbind cres_bind].
  pose proof (key_text_length _ _ Hk) as Hkl.
  rewrite (find_node_ok _ _ _ _ _ _ _ _ Hok) by (rewrite length_replicate; lia).
  cbn [mbind cres_bind]. destruct (node_with _ _ _ _ _) as [y|] eqn:Ex.
  { right. eexists. split; [done|]. apply node_with_Some in Ex as [Hy Hid].
    intros (_ & i' & a' & k' & m' & L' & V' & Ha' & Hk' & Hl' & HA' & Hnew). rewrite El in Hl'. injection Hl' as <- <-.
    rewrite HA in HA'. injection HA' as <- <-. apply (Hnew y Hy).
    by rewrite (key_text_fun _ _ _ Hk' Hk), (addr_text_fun _ _ _ Hi Ha' Ha). }
  destruct mem_ok; cbn [negb].
  2:{ right. eexists. split; [done|]. by intros [? _]. }
  rewrite c_strlen_ok by done. cbn [mbind cres_bind].
  rewrite wr_nat by (by eapply lookup_lt_Some). cbn [mbind cres_bind].
  destruct (new_key k Hkl (key_text_bytes _ _ Hk)) as (Ebuf & Hbl & Hbb).
  set (x := fresh (dom (nd (memory S)))). set (buf := _ ++ _) in *.
  assert (Hkey : take (length k) buf = k) by (rewrite Ebuf; unfold ow; by rewrite take_app_length).
  assert (Hx : nd (memory S) !! x = None).
  { apply not_elem_of_dom. apply is_fresh. }
  set (me := is_me _ && my_port _). left.
  set (n := if me : bool then _ else _).
  assert (Hn : hash_length n = Z.of_nat (length k) ∧ hash_buffer n = buf ∧ ip n = a ∧ port n = p ∧
    all_node_list_next n = all_list m ∧ Z.lor (flags n) RM_NODE_ME = Z.lor f RM_NODE_ME).
  { unfold n. destruct me; simpl; split_and!; try done. by rewrite <- Z.lor_assoc, Z.lor_diag. }
  destruct Hn as (N1 & N2 & N3 & N4 & N5 & N6).
  assert (Hnk : node_key n = k) by (unfold node_key; by rewrite N1, N2, Nat2Z.id).
  exists i, L, V, x, n. eexists. split; [done|]. split.
  { exists a, k, m, L, V. split_and!; try done. intros y Hy. by eapply node_with_None. }
  split; [done|]. split; [done|]. split; [done|]. split; [done|]. rewrite N3, N4, Hnk. split_and!; try done.
  apply table_add; try done.
  - split; [rewrite N1; lia|]. by rewrite N2.
  - intros y Hy. rewrite N3, N4, Hnk. by eapply node_with_None.
Qed.
End Add.

(** ** Creating and destroying maps *)

Definition name_char (c : Z) : Prop := 97 <= c <= 122 ∨ 48 <= c <= 57.

Definition valid_name (s : list Z) : Prop := (1 <= length s < 32)%nat ∧ Forall name_char s.

#[global] Instance name_char_dec c : Decision (name_char c).
Proof. unfold name_char. apply _. Defined.

Lemma name_chars_ok s tl : name_chars (s ++ tl) (length s) = Ret (bool_decide (Forall name_char s)).
Proof.
  induction s as [|c s IH]; [rewrite bool_decide_eq_true_2 by apply Forall_nil_2; by destruct tl|]. simpl app. cbn [length name_chars]. rewrite IH.
  assert (Hc : name_char c ↔ (97 <=? c) && (c <=? 122) = true ∨ (48 <=? c) && (c <=? 57) = true).
  { unfold name_char. rewrite !andb_true_iff, !Z.leb_le. lia. }
  destruct ((97 <=? c) && (c <=? 122)), ((48 <=? c) && (c <=? 57)); try (f_equal; apply bool_decide_ext);
    rewrite ?Forall_cons; try tauto.
  rewrite bool_decide_eq_false_2; [done|]. rewrite Forall_cons. naive_solver.
Qed.

Lemma name_check_ok s tl :
  cstring s → ∃ e, range_map_name_check (s ++ 0 :: tl) = Ret e ∧ (e = None ↔ valid_name s).
Proof.
  intros Hs. unfold range_map_name_check, range_map_name_check2, RANGE_MAP_NAME_MAX, valid_name.
  rewrite c_strnlen_ok by done. cbn [mbind cres_bind]. change (Z.to_nat (32 + 2)) with 34%nat.
  destruct (Z.leb_spec (Z.of_nat (length s `min` 34)) 0).
  { eexists. split; [done|]. split; [done|]. lia. }
  destruct (Z.leb_spec 32 (Z.of_nat (length s `min` 34))).
  { eexists. split; [done|]. split; [done|]. lia. }
  rewrite Nat.min_l, Nat2Z.id by lia. rewrite name_chars_ok. cbn [mbind cres_bind].
  eexists. split; [done|]. case_bool_decide; (split; [|]); try done; try tauto. intros _. split; [lia|done].
Qed.

(** The first slot without a name. *)
Definition free_slot (S : state) : option (nat * range_map_t) :=
  list_find (fun m => map_name m = []) (range_map_list S).

Lemma free_slot_ok S A :
  table_ok S A →
  first_map (fun m => c ← rd (name m) 0; Ret (c =? 0)) 0 (range_map_list S) = Ret (fst <$> free_slot S).
Proof.
  intros HT. rewrite (first_map_ok _ (fun m => map_name m = [])).
  - unfold free_slot. by destruct (list_find _ _) as [[]|].
  - eapply Forall_impl; [exact (to_names _ _ HT)|]. intros m (_ & s & t & E & Hs).
    unfold map_name. rewrite E, cstr_app by done. destruct s as [|c s]; [done|].
    apply Forall_cons_1 in Hs as [Hc _]. change 0 with (Z.of_nat 0) at 2. rewrite (rd_nat _ O c) by done.
    cbn [mbind cres_bind]. destruct (Z.eqb_spec c 0); [lia|]. done.
Qed.

Lemma map_ok_name M m L V s : map_ok M m L V → map_ok M (set_name s m) L V.
Proof.
  intros [? ? ? ? ? [(P & [? ? ? ? ?] & HP) ? ?]]. split; try done. split; [|done|done].
  exists P. split; [|done]. by split.
Qed.

Lemma table_rename S A i m s :
  table_ok S A → range_map_list S !! i = Some m → name_wf (set_name s m) →
  table_ok (State (memory S) (<[i := set_name s m]> (range_map_list S))) A.
Proof.
  intros [Hl Hmaps Hns Hdj Hme Hid] Hm Hw. split; simpl; try done.
  - by rewrite length_insert.
  - destruct (Forall2_lookup_l _ _ _ _ _ Hmaps Hm) as (a & Ha & Hok).
    rewrite <- (list_insert_id A i a) by done. apply Forall2_insert; [done|]. by apply map_ok_name.
  - by apply Forall_insert.
Qed.

Lemma new_ok S A s tl :
  table_ok S A → cstring s →
  (∃ i m m' S', valid_name s ∧ lookup_name S s = None ∧ free_slot S = Some (i, m) ∧
     range_map_new S (s ++ 0 :: tl) = Ret (None, S') ∧ memory S' = memory S ∧
     range_map_list S' = <[i := m']> (range_map_list S) ∧ lookup_name S' s = Some (i, m') ∧
     table_ok S' A) ∨
  (∃ e, range_map_new S (s ++ 0 :: tl) = Ret (Some e, S) ∧
     ¬ (valid_name s ∧ lookup_name S s = None ∧ is_Some (free_slot S))).
Proof.
  intros HT Hs. unfold range_map_new. destruct (name_check_ok s tl Hs) as (e & -> & He).
  cbn [mbind cres_bind]. destruct e as [e|].
  { right. exists e. split; [done|]. intros (Hv & _). by apply He in Hv. }
  destruct He as [Hv _]. specialize (Hv eq_refl). rewrite (find_by_name_ok S A) by done.
  cbn [mbind cres_bind]. destruct (lookup_name S s) as [[j mj]|] eqn:El; simpl.
  { right. eexists. split; [done|]. by intros (_ & ? & _). }
  rewrite (free_slot_ok S A) by done. cbn [mbind cres_bind].
  destruct (free_slot S) as [[i m]|] eqn:Ef; simpl.
  2:{ right. eexists. split; [done|]. by intros (_ & _ & [? ?]). }
  pose proof Ef as Hf. apply list_find_Some in Hf as (Hm & Hnm & _). rewrite (rd_nat _ _ _ Hm).
  cbn [mbind cres_bind]. pose proof (Forall_lookup_1 _ _ _ _ (to_names _ _ HT) Hm) as [Hlen _].
  destruct Hv as [Hsl Hch].
  rewrite c_strcpy_ok by (done || lia). cbn [mbind cres_bind].
  assert (Hi : (i < length (range_map_list S))%nat) by (by eapply lookup_lt_Some).
  rewrite wr_nat by done. cbn [mbind cres_bind]. left.
  set (m' := set_name _ m). exists i, m, m'. eexists. split; [done|]. split; [done|]. split; [done|].
  split; [done|]. split; [done|]. split; [done|].
  assert (Hm' : map_name m' = s) by (unfold map_name; simpl; by apply cstr_app).
  split.
  - unfold lookup_name in *. simpl. apply list_find_Some. rewrite list_lookup_insert_eq by done.
    split; [done|]. split; [done|]. intros j y Hj Hlt. rewrite list_lookup_insert_ne in Hj by lia.
    apply list_find_None in El. rewrite Forall_lookup in El. by eapply El.
  - apply table_rename; [done|done|]. split; simpl.
    + rewrite length_app. simpl. rewrite length_drop. lia.
    + by eexists _, _.
Qed.

Lemma empty_map_ok M : map_ok M zero_map [] [].
Proof.
  split; try done; try set_solver; [constructor|by exists []|]. split; simpl; [|lia|done].
  exists ∅. split; [|done]. split; [constructor|set_solver|done| |done].
  exists (fun _ => []). intros i r Hr. apply lookup_replicate in Hr as [-> _].
  split; [apply (holds_init (Rb None (en M)))|]. split; [constructor|]. set_solver.
Qed.

(** The table after start-up. *)
Lemma table_init S :
  nd (memory S) = ∅ → table_ok (range_map_init S) (replicate RANGE_MAP_MAX ([], [])).
Proof.
  intros HM. split; simpl.
  - done.
  - apply (Forall2_replicate _ 10). apply empty_map_ok.
  - apply (Forall_replicate _ 10). split; [done|]. exists [], (replicate 31 0). split; [done|constructor].
  - intros i j a b x Ha _ Hx. apply (lookup_replicate_1 10 ([], [])) in Ha as [-> _]. set_solver.
  - intros x. rewrite HM, lookup_empty. split; [by intros []|]. intros (i & a & Ha & Hx).
    apply (lookup_replicate_1 10 ([], [])) in Ha as [-> _]. set_solver.
  - intros i a x y Ha Hx. apply (lookup_replicate_1 10 ([], [])) in Ha as [-> _]. set_solver.
Qed.

(** ** Buckets *)

(** Nothing the index depends on changes. *)
Lemma table_core S A M' :
  table_ok S A → (∀ x, core <$> nd M' !! x = core <$> nd (memory S) !! x) → en M' = en (memory S) →
  table_ok (State M' (range_map_list S)) A.
Proof.
  intros [Hl Hmaps Hns Hdj Hme Hid] Hc He. split; simpl; try done.
  - eapply Forall2_impl; [exact Hmaps|]. intros m a. apply map_ok_core. intros x _. by rewrite He.
  - intros x. rewrite <- Hme, <- (fmap_is_Some core (nd M' !! x)), Hc. apply fmap_is_Some.
  - assert (E : ∀ x, ident (nd M') x = ident (nd (memory S)) x).
    { intros x. apply core_fmap; [|done]. intros n n' En.
      destruct (core_facts _ _ En) as (_ & -> & _ & _ & _ & -> & ->). done. }
    intros i a x y. rewrite !E. apply Hid.
Qed.

Lemma find_by_name2_ok S A s tl :
  table_ok S A → cstring s → (length s < 32)%nat →
  range_map_find_by_name2 S (s ++ tl) (Z.of_nat (length s)) = Ret (fst <$> lookup_name S s).
Proof.
  intros HT Hs Hl. unfold range_map_find_by_name2.
  rewrite (first_map_ok _ (fun m => map_name m = s)).
  - unfold lookup_name. by destruct (list_find _ _) as [[]|].
  - eapply Forall_impl; [exact (to_names _ _ HT)|]. intros m (Hlen & s' & t' & E & Hs').
    unfold map_name, c_memcmp. rewrite decide_True by (rewrite length_app; lia). cbn [mbind cres_bind].
    rewrite Nat2Z.id. assert (Hmc : memcmp (name m) (s ++ tl) (length s) = 0 ↔ take (length s) (name m) = s).
    { rewrite memcmp_eq by (rewrite ?length_app; lia). by rewrite take_app_length. }
    destruct (lookup_lt_is_Some_2 (name m) (length s)) as [c Hc]; [lia|].
    destruct (Z.eqb_spec (memcmp (name m) (s ++ tl) (length s)) 0) as [Hz|Hz]; cbn [negb].
    + rewrite (rd_nat _ _ _ Hc). cbn [mbind cres_bind]. f_equal. apply Hmc in Hz.
      assert (En : name m = s ++ c :: drop (Datatypes.S (length s)) (name m)).
      { rewrite <- (take_drop_middle _ _ _ Hc) at 1. by rewrite Hz. }
      destruct (Z.eqb_spec c 0) as [->|Hc0].
      * rewrite bool_decide_eq_true_2; [done|]. rewrite En. by apply cstr_app.
      * rewrite bool_decide_eq_false_2; [done|]. rewrite E, cstr_app by done. intros ->.
        rewrite E in Hc. rewrite lookup_app_r in Hc by lia. rewrite Nat.sub_diag in Hc. by injection Hc as <-.
    + rewrite bool_decide_eq_false_2; [done|]. rewrite E, cstr_app by done. intros ->. apply Hz, Hmc.
      rewrite E. apply take_app_length.
Qed.

(** A loop over the nodes of a map that keeps what the index depends on. *)
Lemma each_node_table S A i m L V body g :
  table_ok S A → range_map_list S !! i = Some m → A !! i = Some (L, V) →
  (∀ n, core (g n) = core n) →
  (∀ M' x n, nd M' !! x = Some n → node_ok n → body M' x = Ret (Mem (<[x := g n]> (nd M')) (en M'))) →
  ∃ M', each_node (list_fuel (memory S)) (memory S) body (all_list m) = Ret M' ∧
    table_ok (State M' (range_map_list S)) A ∧
    ∀ x, nd M' !! x = if decide (x ∈ L) then g <$> nd (memory S) !! x else nd (memory S) !! x.
Proof.
  intros HT Hm HA Hg Hbody. destruct (table_map _ _ _ _ HT Hm) as (L' & V' & HA' & Hok).
  rewrite HA in HA'. injection HA' as <- <-.
  destruct (each_node_ok body g (list_fuel (memory S)) (memory S) (all_list m) L)
    as (M1 & E & He & Ho & Hi).
  { intros M' x n Hn Hnok. split; [by apply (core_facts _ _ (Hg n))|by apply Hbody]. }
  { apply (mo_all _ _ _ _ Hok). }
  { apply (mo_nodup _ _ _ _ Hok). }
  { apply (mo_nodes _ _ _ _ Hok). }
  { apply list_fuel_ok; [apply (mo_nodup _ _ _ _ Hok)|]. intros x Hx.
    destruct (mo_nodes _ _ _ _ Hok x Hx) as (n & -> & _). eauto. }
  assert (Hall : ∀ x, nd M1 !! x = if decide (x ∈ L) then g <$> nd (memory S) !! x else nd (memory S) !! x).
  { intros x. case_decide; auto. }
  exists M1. split; [done|]. split; [|done]. apply table_core; [done| |done]. intros x. rewrite Hall.
  case_decide; [|done]. destruct (nd (memory S) !! x); simpl; [by rewrite Hg|done].
Qed.

(** A bucket of address [bip], port [bport] (both 0 for one of this server) and key [k]
    belongs to the node. *)
Definition owns (bip bport : Z) (k : list Z) (n : range_node_t) : bool :=
  bool_decide (node_key n = k) &&
  (if (bip =? 0) && (bport =? 0) then negb (Z.land (flags n) RM_NODE_ME =? 0)
   else (Z.land (flags n) RM_NODE_ME =? 0) && (ip n =? bip) && (port n =? bport)).

Lemma node_same_key n k tl :
  node_ok n →
  (hash_length n = Z.of_nat (length k) ∧
   ∃ z, c_memcmp (hash_buffer n) (k ++ tl) (Z.of_nat (length k)) = Ret z ∧ (z = 0 ↔ node_key n = k)) ∨
  (hash_length n ≠ Z.of_nat (length k) ∧ node_key n ≠ k).
Proof.
  intros Hok. destruct (decide (hash_length n = Z.of_nat (length k))) as [Hl|Hl].
  - left. split; [done|]. destruct (c_memcmp_key n k (k ++ tl) Hok Hl) as (z & Hz).
    { rewrite length_app. lia. }
    exists z. unfold ow in Hz. by rewrite drop_app_length in Hz.
  - right. split; [done|]. intros <-. rewrite (node_key_length n Hok) in Hl. destruct Hok. lia.
Qed.

Lemma insert_same M x n : nd M !! x = Some n → Mem (<[x := n]> (nd M)) (en M) = M.
Proof. intros Hn. rewrite insert_id by done. by destruct M. Qed.

Lemma online_body_ok b bip bport k tl M x n :
  nd M !! x = Some n → node_ok n →
  online_body b bip bport (k ++ tl) (Z.of_nat (length k)) M x =
  Ret (Mem (<[x := if owns bip bport k n then set_bucket (Some b) n else n]> (nd M)) (en M)).
Proof.
  intros Hn Hok. unfold online_body, owns. rewrite (nget_ok _ _ _ _ Hn). cbn [mbind cres_bind id].
  assert (Hput : nput M (Some x) (set_bucket (Some b)) = Ret (Mem (<[x := set_bucket (Some b) n]> (nd M)) (en M)))
    by (by apply nput_ok).
  assert (Hsame : Ret M = Ret (Mem (<[x := n]> (nd M)) (en M))) by (by rewrite insert_same).
  assert (Hkey : (if negb (hash_length n =? Z.of_nat (length k)) then Ret M
      else r ← c_memcmp (hash_buffer n) (k ++ tl) (Z.of_nat (length k));
           if negb (r =? 0) then Ret M else nput M (Some x) (set_bucket (Some b)))
    = Ret (Mem (<[x := if bool_decide (node_key n = k) then set_bucket (Some b) n else n]> (nd M)) (en M))).
  { destruct (node_same_key n k tl Hok) as [(-> & z & -> & Hz)|[Hl Hnk]].
    - rewrite Z.eqb_refl. cbn [negb mbind cres_bind].
      destruct (Z.eqb_spec z 0); cbn [negb]; [rewrite bool_decide_eq_true_2 by tauto; done
        |rewrite bool_decide_eq_false_2 by tauto; done].
    - rewrite (proj2 (Z.eqb_neq _ _) Hl). cbn [negb]. by rewrite bool_decide_eq_false_2. }
  destruct (Z.eqb_spec bip 0), (Z.eqb_spec bport 0); cbn [negb orb andb];
    destruct (Z.eqb_spec (Z.land (flags n) RM_NODE_ME) 0); cbn [negb andb];
    rewrite ?andb_true_r, ?andb_false_r; try done;
    destruct (Z.eqb_spec (ip n) bip); cbn [negb andb]; rewrite ?andb_false_r; try done;
    destruct (Z.eqb_spec (port n) bport); cbn [negb andb]; rewrite ?andb_true_r, ?andb_false_r; done.
Qed.

(** A bucket that goes online is entered in exactly the nodes of its map it belongs to. *)
Theorem notify_bucket_online_ok S A b bip bport k tk nm tl :
  table_ok S A → cstring nm → (length nm < 32)%nat →
  match lookup_name S nm with
  | None => range_map_notify_bucket_online S b bip bport (k ++ tk) (Z.of_nat (length k)) (nm ++ tl)
              (Z.of_nat (length nm)) = Ret S
  | Some (i, _) =>
      ∃ L V S', A !! i = Some (L, V) ∧
        range_map_notify_bucket_online S b bip bport (k ++ tk) (Z.of_nat (length k)) (nm ++ tl)
          (Z.of_nat (length nm)) = Ret S' ∧ table_ok S' A ∧
        ∀ x, nd (memory S') !! x =
          if decide (x ∈ L)
          then (fun n => if owns bip bport k n then set_bucket (Some b) n else n) <$> nd (memory S) !! x
          else nd (memory S) !! x
  end.
Proof.
  intros HT Hnm Hnl. unfold range_map_notify_bucket_online. rewrite (find_by_name2_ok S A) by done.
  destruct (lookup_name S nm) as [[i m]|] eqn:El; [|done].
  cbn [mbind cres_bind fmap option_fmap option_map fst].
  apply lookup_name_Some in El as [Hm _]. destruct (table_map _ _ _ _ HT Hm) as (L & V & HA & Hok).
  rewrite (rd_nat _ _ _ Hm). cbn [mbind cres_bind].
  destruct (each_node_table S A i m L V (online_body b bip bport (k ++ tk) (Z.of_nat (length k)))
    (fun n => if owns bip bport k n then set_bucket (Some b) n else n) HT Hm HA) as (M' & -> & HT' & Hall).
  { intros n. by destruct (owns _ _ _ _). }
  { intros M' x n Hn Hno. by apply online_body_ok. }
  exists L, V. eexists. by split_and!.
Qed.

(** A bucket that goes offline is not the bucket of any node of its map any more; nothing else
    changes. *)
Theorem notify_bucket_offline_ok S A b nm tl :
  table_ok S A → cstring nm → (length nm < 32)%nat →
  match lookup_name S nm with
  | None => range_map_notify_bucket_offline S b (nm ++ tl) (Z.of_nat (length nm)) = Ret S
  | Some (i, _) =>
      ∃ L V S', A !! i = Some (L, V) ∧
        range_map_notify_bucket_offline S b (nm ++ tl) (Z.of_nat (length nm)) = Ret S' ∧ table_ok S' A ∧
        ∀ x, nd (memory S') !! x =
          if decide (x ∈ L)
          then (fun n => if decide (bucket n = Some b) then set_bucket None n else n) <$> nd (memory S) !! x
          else nd (memory S) !! x
  end.
Proof.
  intros HT Hnm Hnl. unfold range_map_notify_bucket_offline. rewrite (find_by_name2_ok S A) by done.
  destruct (lookup_name S nm) as [[i m]|] eqn:El; [|done].
  cbn [mbind cres_bind fmap option_fmap option_map fst].
  apply lookup_name_Some in El as [Hm _]. destruct (table_map _ _ _ _ HT Hm) as (L & V & HA & Hok).
  rewrite (rd_nat _ _ _ Hm). cbn [mbind cres_bind].
  destruct (each_node_table S A i m L V (offline_body b)
    (fun n => if decide (bucket n = Some b) then set_bucket None n else n) HT Hm HA) as (M' & -> & HT' & Hall).
  { intros n. by case_decide. }
  { intros M' x n Hn _. unfold offline_body. rewrite (nget_ok _ _ _ _ Hn). cbn [mbind cres_bind].
    case_decide; [by rewrite (nput_ok _ _ _ _ Hn)|by rewrite insert_same]. }
  exists L, V. eexists. by split_and!.
Qed.

Section Connection.
Context (is_me : sockaddr_in → bool) (my_port : Z → bool)
        (find_bucket : list Z → Z → list Z → Z → Z → Z → ptr).

(** A node of the map [nm] with its bucket looked up again. *)
Definition connected (nm : list Z) (nl : Z) (n : range_node_t) : range_node_t :=
  if is_me (address n) && my_port (port n)
  then set_bucket (find_bucket nm nl (hash_buffer n) (hash_length n) 0 0)
         (set_flags (Z.lor (flags n) RM_NODE_ME) n)
  else set_bucket (find_bucket nm nl (hash_buffer n) (hash_length n) (ip n) (port n))
         (set_flags (Z.land (flags n) (Z.lnot RM_NODE_ME)) n).

Lemma connected_core nm nl n : core (connected nm nl n) = core n.
Proof.
  unfold connected, core. destruct (is_me _ && my_port _); simpl.
  - replace (Z.land RM_NODE_DELETE (Z.lor (flags n) RM_NODE_ME)) with (Z.land RM_NODE_DELETE (flags n)); [done|].
    rewrite Z.land_lor_distr_r. change (Z.land RM_NODE_DELETE RM_NODE_ME) with 0. by rewrite Z.lor_0_r.
  - replace (Z.land RM_NODE_DELETE (Z.land (flags n) (Z.lnot RM_NODE_ME))) with (Z.land RM_NODE_DELETE (flags n)); [done|].
    rewrite (Z.land_comm (flags n)), Z.land_assoc. done.
Qed.

Lemma connection_body_ok s tl M x n :
  cstring s → nd M !! x = Some n →
  connection_body is_me my_port find_bucket (s ++ 0 :: tl) M x
  = Ret (Mem (<[x := connected (s ++ 0 :: tl) (Z.of_nat (length s)) n]> (nd M)) (en M)).
Proof.
  intros Hs Hn. unfold connection_body, connected. rewrite c_strlen_ok by done. cbn [mbind cres_bind].
  rewrite (nget_ok _ _ _ _ Hn). cbn [mbind cres_bind id].
  destruct (is_me _ && my_port _); by rewrite (nput_ok _ _ _ _ Hn).
Qed.

(** What the loop makes of the nodes of a map. *)
Definition reconnect (m : range_map_t) (n : range_node_t) : range_node_t :=
  if decide (map_name m = []) then n else connected (name m) (Z.of_nat (length (map_name m))) n.

Lemma reconnect_core m n : core (reconnect m n) = core n.
Proof. unfold reconnect. case_decide; [done|]. apply connected_core. Qed.

Lemma name_empty m : name_wf m → ∃ c, rd (name m) 0 = Ret c ∧ (c = 0 ↔ map_name m = []).
Proof.
  intros (_ & s & t & E & Hs). unfold map_name. rewrite E, cstr_app by done. change 0 with (Z.of_nat 0) at 2.
  destruct s as [|c s]; [by exists 0|]. apply Forall_cons_1 in Hs as [Hc _]. exists c. split; [done|].
  split; [lia|done].
Qed.

Lemma connection_loop_ok M pre l A :
  table_ok (State M (pre ++ l)) A →
  ∃ M', connection_loop is_me my_port find_bucket M l = Ret M' ∧ table_ok (State M' (pre ++ l)) A ∧
    (∀ j m a x, l !! j = Some m → A !! (length pre + j)%nat = Some a → x ∈ a.1 →
       nd M' !! x = reconnect m <$> nd M !! x) ∧
    (∀ j a x, A !! j = Some a → (j < length pre)%nat → x ∈ a.1 → nd M' !! x = nd M !! x).
Proof.
  revert M pre; induction l as [|m l IH]; intros M pre HT; cbn [connection_loop].
  { exists M. split_and!; try done. }
  assert (Hm : (pre ++ m :: l) !! length pre = Some m) by (by apply list_lookup_middle).
  pose proof (Forall_lookup_1 _ _ _ _ (to_names _ _ HT) Hm) as Hw.
  destruct (table_map _ _ _ _ HT Hm) as (L & V & HA & Hok).
  destruct (name_empty m Hw) as (c & -> & Hc). cbn [mbind cres_bind].
  assert (Hstep : ∃ M1,
    (if c =? 0 then Ret M
     else each_node (list_fuel M) M (connection_body is_me my_port find_bucket (name m)) (all_list m)) = Ret M1 ∧
    table_ok (State M1 (pre ++ m :: l)) A ∧
    ∀ x, nd M1 !! x = if decide (x ∈ L) then reconnect m <$> nd M !! x else nd M !! x).
  { destruct (Z.eqb_spec c 0) as [H0|H0].
    - exists M. split_and!; try done. intros x. case_decide; [|done].
      destruct (nd M !! x) as [n|]; [|done]. simpl. unfold reconnect. by rewrite decide_True by tauto.
    - eapply (each_node_table _ _ _ _ _ _ _ (reconnect m) HT Hm HA); [apply reconnect_core|].
      intros M' x n Hn _. unfold reconnect. rewrite decide_False by tauto.
      destruct Hw as (_ & s & t & E & Hs). unfold map_name. rewrite E, cstr_app by done.
      by apply connection_body_ok. }
  destruct Hstep as (M1 & E1 & HT1 & H1).
  destruct (IH M1 (pre ++ [m])) as (M2 & E2 & HT2 & Hin & Hpre); [by rewrite <- app_assoc|].
  rewrite <- app_assoc in HT2. rewrite length_app in Hin, Hpre. simpl in Hin, Hpre.
  exists M2. split.
  { destruct (c =? 0); [injection E1 as ->; exact E2|]. rewrite E1. exact E2. }
  split; [done|]. split.
  - intros [|j] mj a x Hj Ha Hx; simpl in Hj.
    + injection Hj as <-. rewrite Nat.add_0_r in Ha. rewrite (Hpre (length pre) a x) by (done || lia).
      rewrite H1. rewrite HA in Ha. injection Ha as <-. by rewrite decide_True.
    + rewrite (Hin j mj a x); [|done|by rewrite <- Nat.add_assoc|done]. rewrite H1.
      rewrite decide_False; [done|]. intros HxL.
      pose proof (to_disjoint _ _ HT _ _ _ _ x Ha HA Hx HxL). lia.
  - intros j a x Ha Hj Hx. rewrite (Hpre j a x) by (done || lia). rewrite H1.
    rewrite decide_False; [done|]. intros HxL.
    pose proof (to_disjoint _ _ HT _ _ _ _ x Ha HA Hx HxL). lia.
Qed.

(** Reconnecting looks up the bucket of every node of every named map again, and sets the mark of
    the nodes of this server accordingly. *)
Theorem flush_connection_ok S A :
  table_ok S A →
  ∃ S', esq_range_map_flush_range_node_bucket_connection is_me my_port find_bucket S = Ret S' ∧ table_ok S' A ∧
    ∀ i m a x, range_map_list S !! i = Some m → A !! i = Some a → x ∈ a.1 →
      nd (memory S') !! x = reconnect m <$> nd (memory S) !! x.
Proof.
  intros HT. destruct S as [M l]. destruct (connection_loop_ok M [] l A HT) as (M' & E & HT' & Hin & _).
  exists (State M' l). unfold esq_range_map_flush_range_node_bucket_connection. simpl. rewrite E. done.
Qed.
End Connection.

(** ** The end *)

Lemma free_loop_ok fuel M p L :
  all_seg (nd M) p L None → NoDup L → (length L < fuel)%nat →
  ∃ M', free_loop fuel M p = Ret M' ∧
    ∀ x, nd M' !! x = if decide (x ∈ L) then None else nd M !! x.
Proof.
  revert fuel M p; induction L as [|x L IH]; intros fuel M p HL Hn Hf;
    (destruct fuel as [|fuel]; [simpl in Hf; lia|]); simpl in HL; cbn [free_loop].
  { subst p. exists M. split; [done|]. intros x. rewrite decide_False by set_solver. done. }
  destruct HL as (-> & n & Hx & HL). apply NoDup_cons in Hn as [HxL Hn].
  rewrite (nget_ok _ _ _ _ Hx). cbn [mbind cres_bind].
  destruct (IH fuel (mfree M x) (all_node_list_next n)) as (M' & E & H'); [by apply all_seg_delete_other|done| |].
  { simpl in Hf. lia. }
  exists M'. split; [done|]. intros y. rewrite H'. simpl. destruct (decide (y = x)) as [->|Hne].
  - rewrite decide_False, decide_True by set_solver. apply lookup_delete_eq.
  - rewrite lookup_delete_ne by done. destruct (decide (y ∈ L)); [rewrite decide_True by set_solver|
      rewrite decide_False by set_solver]; done.
Qed.

(** All the nodes of a list of maps. *)
Definition nodes_of (l : list range_map_t) (A : list (list loc * list loc)) : list loc :=
  concat (zip_with (fun m a => if decide (map_name m = []) then [] else a.1) l A).

Lemma destroy_loop_ok M l A :
  Forall2 (fun m a => all_seg (nd M) (all_list m) a.1 None ∧ NoDup a.1) l A →
  Forall name_wf l →
  (∀ i j a b x, A !! i = Some a → A !! j = Some b → x ∈ a.1 → x ∈ b.1 → i = j) →
  ∃ M' l', destroy_loop M l = Ret (M', l') ∧ Forall (fun m => map_name m = []) l' ∧
    ∀ x, nd M' !! x = if decide (x ∈ nodes_of l A) then None else nd M !! x.
Proof.
  intros HF. revert M HF. induction l as [|m l IH] in A |- *; intros M HF Hw Hd.
  { apply Forall2_nil_inv_l in HF as ->. exists M, []. split_and!; try done. }
  apply Forall2_cons_inv_l in HF as (a & A' & [Hal Hn] & HF & ->).
  apply Forall_cons_1 in Hw as [Hwm Hw]. cbn [destroy_loop].
  destruct (name_empty m Hwm) as (c & -> & Hc). cbn [mbind cres_bind].
  set (F := if decide (map_name m = []) then [] else a.1).
  assert (Hstep : ∃ M1 m1,
    (if c =? 0 then Ret (M, m) else M ← range_map_free M m; s ← wr (name m) 0 0; Ret (M, set_name s m))
      = Ret (M1, m1) ∧ map_name m1 = [] ∧ ∀ x, nd M1 !! x = if decide (x ∈ F) then None else nd M !! x).
  { unfold F. destruct (Z.eqb_spec c 0) as [H0|H0].
    - rewrite (decide_True (P := map_name m = [])) by tauto. exists M, m. split; [done|]. split; [tauto|].
      intros x. by rewrite decide_False by set_solver.
    - rewrite (decide_False (P := map_name m = [])) by tauto. unfold range_map_free.
      destruct (free_loop_ok (list_fuel M) M (all_list m) a.1 Hal Hn) as (M1 & -> & H1).
      { apply list_fuel_ok; [done|]. intros x Hx. by eapply all_seg_elem. }
      cbn [mbind cres_bind]. destruct Hwm as (Hl & _). destruct (name m) as [|c0 r] eqn:E; [done|].
      change 0 with (Z.of_nat 0) at 1. rewrite wr_nat by (simpl; lia). cbn [mbind cres_bind].
      by eexists _, _. }
  destruct Hstep as (M1 & m1 & -> & Hm1 & H1). cbn [mbind cres_bind].
  destruct (IH A' M1) as (M2 & l2 & -> & Hl2 & H2).
  { apply Forall2_same_length_lookup. split; [by eapply Forall2_length|]. intros i mi ai Hi Hai.
    destruct (Forall2_lookup_lr _ _ _ _ _ _ HF Hi Hai) as [Hs ?]. split; [|done].
    eapply all_seg_frame; [|exact Hs]. intros x Hx. rewrite H1, decide_False; [done|]. unfold F.
    case_decide; [set_solver|]. intros Hxa. by specialize (Hd O (S i) a ai x eq_refl Hai Hxa Hx). }
  { done. }
  { intros i j a1 b1 x Hi Hj Hx Hx'. specialize (Hd (S i) (S j) a1 b1 x Hi Hj Hx Hx'). lia. }
  cbn [mbind cres_bind]. eexists _, _. split; [done|]. split; [by constructor|]. intros x.
  rewrite H2, H1. change (nodes_of (m :: l) (a :: A')) with (F ++ nodes_of l A').
  pose proof (elem_of_app F (nodes_of l A') x) as He. clear -He.
  repeat case_decide; (done || (exfalso; tauto)).
Qed.

(** At exit every name is cleared and every node of a named map is freed. *)
Theorem range_map_destroy_ok S A :
  table_ok S A →
  ∃ S', range_map_destroy S = Ret S' ∧ Forall (fun m => map_name m = []) (range_map_list S') ∧
    ∀ x, nd (memory S') !! x =
      if decide (x ∈ nodes_of (range_map_list S) A) then None else nd (memory S) !! x.
Proof.
  intros HT. unfold range_map_destroy.
  destruct (destroy_loop_ok (memory S) (range_map_list S) A) as (M' & l' & -> & Hl & Hx).
  - eapply Forall2_impl; [exact (to_maps _ _ HT)|]. intros m a Hok. split; [apply (mo_all _ _ _ _ Hok)|].
    apply (mo_nodup _ _ _ _ Hok).
  - apply (to_names _ _ HT).
  - apply (to_disjoint _ _ HT).
  - by eexists.
Qed.

(** ** A run *)

(** A map called "kv" on an empty table, nodes with the keys "" and [0xaa], and a flush. *)
Module Run.
Definition no_me (_ : sockaddr_in) : bool := false.
Definition no_port (_ : Z) : bool := false.
Definition no_bucket (_ : list Z) (_ : Z) (_ : list Z) (_ _ _ : Z) : ptr := None.
Definition address0 (_ : list Z) : Z := 0.

Definition kv : list Z := [107; 118].
Definition local : list Z := [49; 50; 55; 46; 48; 46; 48; 46; 49].
Definition any : list Z := [120].
Definition aa : list Z := [97; 97; 120].
Definition hash : list Z := 170 :: replicate 31 0.

Definition after (r : cres (option string * state)) (S : state) : state :=
  match r with Ret (None, S') => S' | _ => S end.

Definition A0 : list (list loc * list loc) := replicate RANGE_MAP_MAX ([], []).
Definition S0 : state := range_map_init (State (Mem ∅ ∅) []).
Definition S1 : state := after (range_map_new S0 (kv ++ [0])) S0.
Definition add (S : state) (hs : list Z) : cres (option string * state) :=
  range_map_add_node no_me no_port no_bucket address0 true S (kv ++ [0]) (local ++ [0]) 80 1 (hs ++ [0]).
Definition S2 : state := after (add S1 any) S1.
Definition S3 : state := after (add S2 aa) S2.
Definition S4 : state := after (range_map_flush S3 (kv ++ [0])) S3.

Lemma text_ok s : Forall (fun c => 0 <? c = true ∧ c <? 256 = true) s → cstring s.
Proof. intros H. eapply Forall_impl; [exact H|]. intros c [H1%Z.ltb_lt H2%Z.ltb_lt]. lia. Qed.

Lemma texts : cstring kv ∧ cstring local ∧ cstring any ∧ cstring aa.
Proof. split_and!; apply text_ok; repeat constructor. Qed.

Lemma run0 : table_ok S0 A0.
Proof. by apply table_init. Qed.

Lemma run1 : table_ok S1 A0.
Proof.
  destruct texts as (Hk & _).
  destruct (new_ok S0 A0 kv [] run0 Hk) as [(i & m & m' & S' & _ & _ & _ & E & _ & _ & _ & HT)|(e & E & _)].
  - unfold S1. by rewrite E.
  - exfalso. vm_compute in E. discriminate E.
Qed.

Lemma run_add S A hs :
  table_ok S A → cstring hs → (∀ e, add S hs ≠ Ret (Some e, S)) →
  ∃ A', table_ok (after (add S hs) S) A'.
Proof.
  intros HT Hh Hne. destruct texts as (Hk & Hl & _).
  destruct (add_node_ok no_me no_port no_bucket address0 true S A kv local hs [] [] [] 80 1 HT Hk Hl Hh)
    as [(i & L & V & x & n & S' & _ & _ & _ & E & _ & _ & _ & _ & _ & _ & HT')|(e & E & _)].
  - unfold add. rewrite E. eauto.
  - exfalso. by apply (Hne e).
Qed.

Lemma run3 : ∃ A, table_ok S3 A.
Proof.
  destruct texts as (_ & _ & Hn & Ha).
  destruct (run_add S1 A0 any run1 Hn) as [A HT]; [intros e E; vm_compute in E; discriminate E|].
  apply (run_add S2 A aa HT Ha). intros e E. vm_compute in E. discriminate E.
Qed.

Lemma run4 : ∃ A, table_ok S4 A.
Proof.
  destruct run3 as [A HT], texts as (Hk & _). pose proof (flush_ok S3 A kv [] HT Hk) as HF.
  destruct (lookup_name S3 kv) as [[i m]|] eqn:El; [|vm_compute in El; discriminate El].
  destruct HF as (L & V & S' & _ & E & HT' & _). unfold S4. rewrite E. eauto.
Qed.
End Run.

(** ** The contract of the table *)

(** C27: a lookup ends, without a bad access, at the head of a chain that holds exactly the
    indexed nodes of the map whose key is a prefix of the hash, longest keys first and each
    node once. *)
Theorem range_map_find_and_lock_correct S A nm tl hash :
  table_ok S A → cstring nm → length hash = 32%nat →
  ∃ C, range_map_find_and_lock S (nm ++ 0 :: tl) hash = Ret (head C) ∧
    seg (nd (memory S)) C None ∧ NoDup C ∧
    StronglySorted (fun x y => (key_len (key_of (nd (memory S))) y <= key_len (key_of (nd (memory S))) x)%nat) C ∧
    ∀ x, x ∈ C ↔ ∃ i m L V k, lookup_name S nm = Some (i, m) ∧ A !! i = Some (L, V) ∧ x ∈ V ∧
      key_of (nd (memory S)) x = Some k ∧ k `prefix_of` hash.
Proof. apply lookup_ok. Qed.

Lemma range_map_find_and_lock_correct_witness :
  ∃ C, range_map_find_and_lock Run.S4 (Run.kv ++ [0]) Run.hash = Ret (head C) ∧
    seg (nd (memory Run.S4)) C None ∧ NoDup C ∧ is_Some (head C).
Proof.
  destruct Run.run4 as [A HT].
  destruct (range_map_find_and_lock_correct Run.S4 A Run.kv [] Run.hash HT (proj1 Run.texts) eq_refl)
    as (C & E & Hs & Hn & _).
  exists C. split; [exact E|]. split; [exact Hs|]. split; [exact Hn|].
  destruct (head C); [by eexists|]. vm_compute in E. discriminate E.
Defined.

(** A flush of a known map frees the nodes marked for removal and indexes all the others, so
    that nodes added before can be found; the other maps and every address, key and flag
    stay.  An unknown name is an error that changes nothing. *)
Theorem range_map_flush_correct S A nm tl :
  table_ok S A → cstring nm →
  match lookup_name S nm with
  | None => range_map_flush S (nm ++ 0 :: tl) = Ret (Some "range map not found"%string, S)
  | Some (i, _) =>
      ∃ L V S', A !! i = Some (L, V) ∧ range_map_flush S (nm ++ 0 :: tl) = Ret (None, S') ∧
        (let L' := alive (nd (memory S)) L in table_ok S' (<[i := (L', L')]> A)) ∧
        map_name <$> range_map_list S' = map_name <$> range_map_list S ∧
        rebuilt L (memory S) (memory S')
  end.
Proof. apply flush_ok. Qed.

Lemma range_map_flush_correct_witness :
  ∃ L S', range_map_flush Run.S3 (Run.kv ++ [0]) = Ret (None, S') ∧
    rebuilt L (memory Run.S3) (memory S').
Proof.
  destruct Run.run3 as [A HT].
  pose proof (range_map_flush_correct Run.S3 A Run.kv [] HT (proj1 Run.texts)) as HF.
  destruct (lookup_name Run.S3 Run.kv) as [[i m]|] eqn:El; [|vm_compute in El; discriminate El].
  destruct HF as (L & V & S' & _ & E & _ & _ & Hr). exists L, S'. split; [exact E|exact Hr].
Defined.

(** Removing a node by its address, port and key succeeds exactly when the map has it (it is then
    unique); the node is freed, with those a flush would free, and the others are indexed.
    Anything else is an error that changes nothing. *)
Theorem range_map_del_node_correct S A nm ips hs t1 t2 t3 p :
  table_ok S A → cstring nm → cstring ips → cstring hs →
  (∃ i L x S', named_node S A nm ips p hs i L x ∧
     range_map_del_node S (nm ++ 0 :: t1) (ips ++ 0 :: t2) p (hs ++ 0 :: t3) = Ret (None, S') ∧
     nd (memory S') !! x = None ∧
     (let L' := filter (fun y => y ≠ x ∧ doomed (nd (memory S)) y = false) L in
      table_ok S' (<[i := (L', L')]> A) ∧
      ∀ y, y ∈ L' → unlinked <$> nd (memory S') !! y = unlinked <$> nd (memory S) !! y) ∧
     ∀ y, y ∉ L → nd (memory S') !! y = nd (memory S) !! y) ∨
  (∃ e, range_map_del_node S (nm ++ 0 :: t1) (ips ++ 0 :: t2) p (hs ++ 0 :: t3) = Ret (Some e, S) ∧
     ¬ ∃ i L x, named_node S A nm ips p hs i L x).
Proof. apply del_node_ok. Qed.

Lemma range_map_del_node_correct_witness :
  ∃ x S', range_map_del_node Run.S4 (Run.kv ++ [0]) (Run.local ++ [0]) 80 (Run.aa ++ [0]) = Ret (None, S') ∧
    nd (memory S') !! x = None.
Proof.
  destruct Run.run4 as [A HT], Run.texts as (Hk & Hl & _ & Ha).
  destruct (range_map_del_node_correct Run.S4 A Run.kv Run.local Run.aa [] [] [] 80 HT Hk Hl Ha)
    as [(i & L & x & S' & _ & E & Hx & _)|(e & E & _)]; [exists x, S'; split; [exact E|exact Hx]|].
  exfalso. vm_compute in E. discriminate E.
Defined.

Section Claims.
Context (is_me : sockaddr_in → bool) (my_port : Z → bool)
        (find_bucket : list Z → Z → list Z → Z → Z → Z → ptr)
        (inet_addr : list Z → Z).

(** A node is added exactly when the texts are well formed, the map exists, it has no node of the
    same address, port and key, and there is memory.  The new node is the first of the map's
    list and not yet indexed, the invariant of the table holds with it, and nothing else
    changes; otherwise the result is an error and the table is as it was. *)
Theorem range_map_add_node_correct mem_ok S A nm ips hs t1 t2 t3 p f :
  table_ok S A → cstring nm → cstring ips → cstring hs →
  (∃ i L V x n S', mem_ok = true ∧ addable S A nm ips p hs i ∧ A !! i = Some (L, V) ∧
     range_map_add_node is_me my_port find_bucket inet_addr mem_ok S (nm ++ 0 :: t1) (ips ++ 0 :: t2) p f
       (hs ++ 0 :: t3) = Ret (None, S') ∧
     nd (memory S) !! x = None ∧ nd (memory S') = <[x := n]> (nd (memory S)) ∧
     addr_text ips (ip n) ∧ key_text hs (node_key n) ∧ port n = p ∧
     Z.lor (flags n) RM_NODE_ME = Z.lor f RM_NODE_ME ∧
     table_ok S' (<[i := (x :: L, V)]> A)) ∨
  (∃ e, range_map_add_node is_me my_port find_bucket inet_addr mem_ok S (nm ++ 0 :: t1) (ips ++ 0 :: t2) p f
       (hs ++ 0 :: t3) = Ret (Some e, S) ∧ ¬ (mem_ok = true ∧ ∃ i, addable S A nm ips p hs i)).
Proof. apply add_node_ok. Qed.
End Claims.

Lemma range_map_add_node_correct_witness :
  ∃ x n S', Run.add Run.S1 Run.aa = Ret (None, S') ∧ nd (memory S') !! x = Some n ∧ key_text Run.aa (node_key n).
Proof.
  destruct Run.texts as (Hk & Hl & _ & Ha).
  destruct (range_map_add_node_correct Run.no_me Run.no_port Run.no_bucket Run.address0 true Run.S1 Run.A0
    Run.kv Run.local Run.aa [] [] [] 80 1 Run.run1 Hk Hl Ha)
    as [(i & L & V & x & n & S' & _ & _ & _ & E & _ & En & _ & Hkey & _)|(e & E & _)].
  - exists x, n, S'. split; [exact E|]. split; [rewrite En; apply lookup_insert_eq|exact Hkey].
  - exfalso. vm_compute in E. discriminate E.
Defined.

(** A map is created exactly when its name has 1 to 31 lower case letters and digits, is not
    taken, and a slot of the table is free; the first free slot then carries the name, and
    the nodes are as they were.  Every other call is an error that changes nothing. *)
Theorem range_map_new_correct S A s tl :
  table_ok S A → cstring s →
  (∃ i m m' S', valid_name s ∧ lookup_name S s = None ∧ free_slot S = Some (i, m) ∧
     range_map_new S (s ++ 0 :: tl) = Ret (None, S') ∧ memory S' = memory S ∧
     range_map_list S' = <[i := m']> (range_map_list S) ∧ lookup_name S' s = Some (i, m') ∧
     table_ok S' A) ∨
  (∃ e, range_map_new S (s ++ 0 :: tl) = Ret (Some e, S) ∧
     ¬ (valid_name s ∧ lookup_name S s = None ∧ is_Some (free_slot S))).
Proof. apply new_ok. Qed.

Lemma range_map_new_correct_witness :
  ∃ i m S', range_map_new Run.S0 (Run.kv ++ [0]) = Ret (None, S') ∧ lookup_name S' Run.kv = Some (i, m).
Proof.
  destruct (range_map_new_correct Run.S0 Run.A0 Run.kv [] Run.run0 (proj1 Run.texts))
    as [(i & m & m' & S' & _ & _ & _ & E & _ & _ & El & _)|(e & E & _)]; [exists i, m', S'; split; [exact E|exact El]|].
  exfalso. vm_compute in E. discriminate E.
Defined.
