(* ===== verification/Bucket.v ===== *)
(** * Buckets

    [bee/bucket.c] keeps the buckets of the key-value service: a bucket stands for a range
    of hashes of a range map, on this server ([ip] and [port] 0) or as a patch for another
    one, and has up to two databases: [kcdb[0]] with the data and [kcdb[1]] in front of it.
    The buckets are in a red-black tree; buckets that come and go are told to the range
    maps ([RangeMap]), whose nodes point to them.

    The databases are objects of Kyoto Cabinet: [KcLib] is what the file uses of the library
    and [KcLaws] what the library documents; a database lives in [dbs] and its handle is its
    location.  The pointers [range_map_name] and [hash_str] of a bucket, into its own
    buffer, are the bytes from there to the end of the buffer.  The lock of the range maps,
    which guards the tree, is not modelled; sending a bucket to other servers is in
    [BeeSync]. *)
From stdpp Require Import strings.
From S2P Require Import Prelude CString LinkedList RbTree Scan RangeMap.

Definition ESQ_OK : Z := 0.
Definition ESQ_ERROR_LIBCALL : Z := -3.
Definition ESQ_ERROR_NOTFOUND : Z := -4.

Definition PORT_NUMBER_INVALID (port : Z) : bool := (port <? 0) || (65535 <? port).

(** ** The database library *)

(** Reading a value; storing, removing (no result on failure); an empty database. *)
Class KcLib (DB : Type) := {
  kc_get : DB → list Z → option (list Z);
  kc_set : DB → list Z → list Z → option DB;
  kc_remove : DB → list Z → option DB;
  kc_empty : DB
}.

Class KcLaws (DB : Type) `{KcLib DB} := {
  kc_get_set d k v d' : kc_set d k v = Some d' → kc_get d' k = Some v;
  kc_get_set_other d k v d' k' : kc_set d k v = Some d' → k' ≠ k → kc_get d' k' = kc_get d k';
  kc_get_remove d k d' : kc_remove d k = Some d' → kc_get d' k = None;
  kc_get_remove_other d k d' k' : kc_remove d k = Some d' → k' ≠ k → kc_get d' k' = kc_get d k';
  kc_get_empty k : kc_get kc_empty k = None
}.

(** ** Data *)

Record bee_bucket_t := BeeBucket {
  range_map_name : list Z;
  range_map_name_length : Z;
  hash_str : list Z;
  hash_str_length : Z;
  search_id : Z;
  ip : Z;
  port : Z;
  kcdb0 : ptr;
  kcdb1 : ptr
}.

Definition set_kcdb0 (p : ptr) (b : bee_bucket_t) : bee_bucket_t :=
  BeeBucket (range_map_name b) (range_map_name_length b) (hash_str b) (hash_str_length b)
    (search_id b) (ip b) (port b) p (kcdb1 b).
Definition set_kcdb1 (p : ptr) (b : bee_bucket_t) : bee_bucket_t :=
  BeeBucket (range_map_name b) (range_map_name_length b) (hash_str b) (hash_str_length b)
    (search_id b) (ip b) (port b) (kcdb0 b) p.

(** [b->kcdb[idx]]. *)
Definition kcdb (b : bee_bucket_t) (idx : Z) : cres ptr :=
  if idx =? 0 then Ret (kcdb0 b) else if idx =? 1 then Ret (kcdb1 b) else Fault.
Definition set_kcdb (idx : Z) (p : ptr) (b : bee_bucket_t) : bee_bucket_t :=
  if idx =? 0 then set_kcdb0 p b else set_kcdb1 p b.

(** ** The order of buckets *)

(** The characters of a string as numbers, every other one shifted. *)
Fixpoint id_loop (len : nat) (s : list Z) (i : Z) (conv : Z → Z) (sum : Z) : cres Z :=
  match len with
  | O => Ret sum
  | S len =>
      c ← rd s i;
      id_loop len s (i + 1) conv
        (i32 (sum + (if negb (Z.land i 1 =? 0) then conv c else Z.shiftl (conv c) 8)))
  end.

Definition bee_bucket_calculate_search_id (name : list Z) (name_len : Z) (hash : list Z) (hash_len : Z)
    : cres Z :=
  rns ← id_loop (Z.to_nat name_len) name 0 schar 0;
  hashs ← id_loop (Z.to_nat hash_len) hash 0 id 0;
  Ret (i32 (rns + i32 (Z.shiftl hashs 16))).

Definition esq_bee_bucket_cmp (a b : bee_bucket_t) : cres Z :=
  if negb (search_id a =? search_id b) then Ret (i32 (search_id a - search_id b))
  else if negb (hash_str_length a =? hash_str_length b) then Ret (i32 (hash_str_length a - hash_str_length b))
  else if negb (range_map_name_length a =? range_map_name_length b)
  then Ret (i32 (range_map_name_length a - range_map_name_length b))
  else if negb (ip a =? ip b) then Ret (i32 (i32 (ip a) - i32 (ip b)))
  else if negb (port a =? port b) then Ret (i32 (port a - port b))
  else
    r ← c_memcmp (hash_str a) (hash_str b) (hash_str_length a);
    if negb (r =? 0) then Ret r
    else c_memcmp (range_map_name a) (range_map_name b) (range_map_name_length a).

Section Bucket.
Context {DB : Type} `{KcLib DB}.

(** The buckets, the databases and the range maps. *)
Record bees := Bees {
  bks : gmap loc bee_bucket_t;
  bents : cells;
  esq_bucket_rb : ptr;
  dbs : gmap loc DB;
  rms : RangeMap.state
}.

Definition btree (W : bees) : rb := Rb (esq_bucket_rb W) (bents W).
Definition with_btree (T : rb) (W : bees) : bees :=
  Bees (bks W) (rb_cells T) (rbh_root T) (dbs W) (rms W).
Definition with_bks (m : gmap loc bee_bucket_t) (W : bees) : bees :=
  Bees m (bents W) (esq_bucket_rb W) (dbs W) (rms W).
Definition with_dbs (m : gmap loc DB) (W : bees) : bees :=
  Bees (bks W) (bents W) (esq_bucket_rb W) m (rms W).
Definition with_rms (r : RangeMap.state) (W : bees) : bees :=
  Bees (bks W) (bents W) (esq_bucket_rb W) (dbs W) r.

Definition bget (W : bees) (x : loc) : cres bee_bucket_t := fld (bks W) (Some x) id.
Definition bput (W : bees) (x : loc) (f : bee_bucket_t → bee_bucket_t) : cres bees :=
  m ← upd (bks W) (Some x) f; Ret (with_bks m W).

Definition bkt_cmp (W : bees) (a : bee_bucket_t) (t : loc) : cres Z :=
  b ← bget W t; esq_bee_bucket_cmp a b.

(** A database is opened, closed. *)
Definition new_db (W : bees) (d : DB) : loc * bees :=
  let h := fresh (dom (dbs W)) in (h, with_dbs (<[h := d]> (dbs W)) W).
Definition bee_close_kcdb (W : bees) (h : loc) : cres bees :=
  match dbs W !! h with Some _ => Ret (with_dbs (delete h (dbs W)) W) | None => Fault end.

Definition bee_bucket_get_ip_port (b : bee_bucket_t) : Z * Z := (ip b, port b).
Definition bee_bucket_get_hash_str (b : bee_bucket_t) : list Z * Z := (hash_str b, hash_str_length b).

Definition notify_online (W : bees) (x : loc) : cres bees :=
  b ← bget W x;
  r ← range_map_notify_bucket_online (rms W) x (bee_bucket_get_ip_port b).1 (bee_bucket_get_ip_port b).2
        (bee_bucket_get_hash_str b).1 (bee_bucket_get_hash_str b).2
        (range_map_name b) (range_map_name_length b);
  Ret (with_rms r W).

Definition notify_offline (W : bees) (x : loc) : cres bees :=
  b ← bget W x;
  r ← range_map_notify_bucket_offline (rms W) x (range_map_name b) (range_map_name_length b);
  Ret (with_rms r W).

(** ** Finding *)

(** The bucket on the stack that is looked for. *)
Definition key_bucket (name : list Z) (name_len : Z) (hash : list Z) (hash_len bip bport : Z)
    : cres bee_bucket_t :=
  sid ← bee_bucket_calculate_search_id name name_len hash hash_len;
  Ret (BeeBucket name name_len hash hash_len sid bip bport None None).

Definition esq_bee_find_bucket (W : bees) (range_map : list Z) (range_map_len : Z) (hash : list Z)
    (hash_len bip bport : Z) : cres ptr :=
  n ← key_bucket range_map range_map_len hash hash_len bip bport;
  RB_FIND (btree W) (bkt_cmp W n).

(** ** Opening and closing *)

(** A new bucket enters the tree. *)
Definition add_bucket (W : bees) (b : bee_bucket_t) : cres (ptr * loc * bees) :=
  let x := fresh (dom (bks W)) in
  let W := Bees (<[x := b]> (bks W)) (<[x := RbEntry None None None RB_BLACK]> (bents W))
             (esq_bucket_rb W) (dbs W) (rms W) in
  '(e, T) ← RB_INSERT (btree W) (bkt_cmp W b) x;
  Ret (e, x, with_btree T W).

(** [opened] is the database [bee_open_kcdb] gives, if it can be opened. *)
Definition bee_open_disk_bucket (opened : option DB) (W : bees) (bucket : bee_bucket_t) (idx : Z)
    : cres (option string * bees) :=
  p ← RB_FIND (btree W) (bkt_cmp W bucket);
  taken ← match p with
          | None => Ret None
          | Some x => b ← bget W x; kcdb b idx
          end;
  match taken with
  | Some _ => Ret (Some "bucket for the same map, same range, same index already open"%string, W)
  | None =>
      match opened with
      | None => Ret (Some "failed to open disk db"%string, W)
      | Some d =>
          let '(h, W) := new_db W d in
          match p with
          | Some x => W ← bput W x (set_kcdb idx (Some h)); Ret (None, W)
          | None =>
              '(_, x, W) ← add_bucket W (set_kcdb idx (Some h) bucket);
              W ← notify_online W x;
              Ret (None, W)
          end
      end
  end.

Definition close_slot (W : bees) (p : ptr) : cres bees :=
  match p with Some h => bee_close_kcdb W h | None => Ret W end.

Definition bfree (x : loc) (W : bees) : bees :=
  Bees (delete x (bks W)) (delete x (bents W)) (esq_bucket_rb W) (dbs W) (rms W).

Fixpoint close_all_loop (fuel : nat) (W : bees) : cres bees :=
  p ← RB_MINMAX (btree W) LEFT;
  match p with
  | None => Ret W
  | Some x =>
      match fuel with
      | O => NoFuel
      | S fuel =>
          b ← bget W x;
          W ← close_slot W (kcdb0 b);
          W ← close_slot W (kcdb1 b);
          T ← RB_REMOVE (btree W) x;
          close_all_loop fuel (bfree x (with_btree T W))
      end
  end.

Definition bee_close_all_buckets (W : bees) : cres bees := close_all_loop (size (bks W)) W.

(** ** Values *)

Definition kcdbget (W : bees) (h : loc) (key : list Z) : cres (option (list Z)) :=
  match dbs W !! h with Some d => Ret (kc_get d key) | None => Fault end.

(** The first database that has the key, the one in front first. *)
Definition bucket_value (W : bees) (bucket : loc) (key : list Z) : cres (option (list Z)) :=
  b ← bget W bucket;
  match kcdb0 b with
  | None => Ret None
  | Some h0 =>
      match kcdb1 b with
      | Some h1 =>
          r ← kcdbget W h1 key;
          match r with Some v => Ret (Some v) | None => kcdbget W h0 key end
      | None => kcdbget W h0 key
      end
  end.

(** The result, its length and what the buffer holds. *)
Definition bee_bucket_get (W : bees) (bucket : loc) (key buffer : list Z) (buf_len : Z)
    : cres (Z * option (Z * list Z)) :=
  r ← bucket_value W bucket key;
  match r with
  | None => Ret (ESQ_ERROR_NOTFOUND, None)
  | Some v => Ret (ESQ_OK, Some (Z.of_nat (length v), ow (take (Z.to_nat buf_len) v) buffer))
  end.

Definition bee_bucket_get2 (W : bees) (bucket : loc) (key : list Z) : cres (Z * option (list Z)) :=
  r ← bucket_value W bucket key;
  match r with None => Ret (ESQ_ERROR_NOTFOUND, None) | Some v => Ret (ESQ_OK, Some v) end.

Definition kcdb_update (W : bees) (h : loc) (f : DB → option DB) : cres (Z * bees) :=
  match dbs W !! h with
  | None => Fault
  | Some d => match f d with
              | Some d' => Ret (0, with_dbs (<[h := d']> (dbs W)) W)
              | None => Ret (ESQ_ERROR_LIBCALL, W)
              end
  end.

Definition bee_bucket_set (W : bees) (bucket : loc) (key value : list Z) : cres (Z * bees) :=
  b ← bget W bucket;
  match kcdb1 b, kcdb0 b with
  | Some h, _ => kcdb_update W h (fun d => kc_set d key value)
  | None, Some h => kcdb_update W h (fun d => kc_set d key value)
  | None, None => Ret (ESQ_ERROR_NOTFOUND, W)
  end.

(** With a database in front the key is not removed but given the value of the caller. *)
Definition bee_bucket_del (W : bees) (bucket : loc) (key value : list Z) : cres (Z * bees) :=
  b ← bget W bucket;
  match kcdb1 b, kcdb0 b with
  | Some h, _ => kcdb_update W h (fun d => kc_set d key value)
  | None, Some h => kcdb_update W h (fun d => kc_remove d key)
  | None, None => Ret (ESQ_ERROR_NOTFOUND, W)
  end.

Definition bee_bucket_get_db_ptr_state (b : bee_bucket_t) : cres string :=
  match kcdb0 b, kcdb1 b with
  | Some _, Some _ => Ret "BP"%string
  | Some _, None => Ret "B"%string
  | None, Some _ => Ret "P"%string
  | None, None => Exit
  end.

(** ** Names of bucket files *)

(** [.kct] and the end behind the last dot. *)
Definition postfix_ok (d_name : list Z) (dot : Z) : cres bool :=
  s ← at_off d_name dot;
  c1 ← rd s 1;
  if negb (c1 =? 107) then Ret false else
  c2 ← rd s 2;
  if negb (c2 =? 99) then Ret false else
  c3 ← rd s 3;
  if negb (c3 =? 116) then Ret false else
  c4 ← rd s 4;
  Ret (c4 =? 0).

Definition char_before (d_name : list Z) (dot : Z) : cres Z := rd d_name (dot - 1).

(** The buffer of [n] bytes with the path of the file in it. *)
Definition path_buffer (n folder_len : Z) (folder d_name : list Z) (name_len : Z) : cres (list Z) :=
  b ← c_memcpy (replicate (Z.to_nat n) 0) 0 folder folder_len;
  b ← wr b folder_len 47;
  c_memcpy b (folder_len + 1) d_name name_len.

(** [None] is a file that is not a bucket. *)
Definition local_bucket_of_file (mem_ok : bool) (folder : list Z) (folder_len : Z) (d_name : list Z)
    (dots : list Z) : cres (option (string + bee_bucket_t * Z)) :=
  dot0 ← rd dots 0; dot1 ← rd dots 1; dot2 ← rd dots 2;
  c ← char_before d_name dot1;
  if negb (c =? 120) then Ret None else
  i ← char_before d_name dot2;
  if negb ((i =? 48) || (i =? 49)) then Ret None else
  let idx := if i =? 48 then 0 else 1 in
  ok ← postfix_ok d_name dot2;
  if negb ok then Ret None else
  e ← range_map_name_check2 d_name dot0;
  if decide (e ≠ None) then Ret None else
  s ← at_off d_name (dot0 + 1);
  '(r, h) ← HashString.get_hash_string s (dot1 - dot0 - 1);
  match h with
  | None => Ret None
  | Some (hash_start, hash_str_len) =>
      if (r =? -1) then Ret None
      else if negb (hash_start =? 0) || negb (dot1 - dot0 - 2 =? hash_str_len) then Ret None
      else if negb mem_ok then Ret (Some (inl "no memory for opening local bucket from folder"%string))
      else
        b ← path_buffer (folder_len + 1 + dot2 + 5) folder_len folder d_name (dot2 + 5);
        nm ← at_off b (folder_len + 1);
        hs ← at_off b (folder_len + 1 + dot0 + 1);
        sid ← bee_bucket_calculate_search_id nm dot0 hs hash_str_len;
        Ret (Some (inr (BeeBucket nm dot0 hs hash_str_len sid 0 0 None None, idx)))
  end.

Definition remote_bucket_of_file (mem_ok : bool) (folder : list Z) (folder_len : Z) (d_name : list Z)
    (dots : list Z) : cres (option (string + bee_bucket_t * Z)) :=
  dot0 ← rd dots 0; dot4 ← rd dots 4; dot5 ← rd dots 5; dot6 ← rd dots 6;
  c ← char_before d_name dot6;
  if negb (c =? 120) then Ret None else
  ok ← postfix_ok d_name dot6;
  if negb ok then Ret None else
  e ← range_map_name_check2 d_name dot0;
  if decide (e ≠ None) then Ret None else
  s ← at_off d_name (dot0 + 1);
  '(r, ap) ← Ipv4.get_ipv4_addr s (dot4 - dot0 - 1);
  if r =? 0 then Ret None else
  s ← at_off d_name (dot4 + 1);
  '(r, pt) ← Integer.get_integer_1000000 s (dot5 - dot4 - 1);
  if r =? 0 then Ret None else
  match ap, pt with
  | Some ap, Some pt =>
      if PORT_NUMBER_INVALID pt then Ret None else
      s ← at_off d_name (dot5 + 1);
      '(r, h) ← HashString.get_hash_string s (dot6 - dot5 - 1);
      match h with
      | None => Ret None
      | Some (hash_start, hash_str_len) =>
          if (r =? -1) then Ret None
          else if negb (hash_start =? 0) || negb (dot6 - dot5 - 2 =? hash_str_len) then Ret None
          else if negb mem_ok
          then Ret (Some (inl "no memory for opening remote patch bucket from folder"%string))
          else
            b ← path_buffer (folder_len + 1 + dot6 + 4) folder_len folder d_name (dot6 + 5);
            nm ← at_off b (folder_len + 1);
            hs ← at_off b (folder_len + 1 + dot5 + 1);
            sid ← bee_bucket_calculate_search_id nm dot0 hs hash_str_len;
            Ret (Some (inr (BeeBucket nm dot0 hs hash_str_len sid ap pt None None, 1)))
      end
  | _, _ => Fault
  end.

Definition open_parsed (opened : option DB) (W : bees) (r : option (string + bee_bucket_t * Z))
    : cres (option string * bees) :=
  match r with
  | None => Ret (None, W)
  | Some (inl e) => Ret (Some e, W)
  | Some (inr (b, idx)) => bee_open_disk_bucket opened W b idx
  end.

Definition bee_open_local_bucket_file (mem_ok : bool) (opened : option DB) (W : bees) (folder : list Z)
    (folder_len : Z) (d_name dots : list Z) : cres (option string * bees) :=
  r ← local_bucket_of_file mem_ok folder folder_len d_name dots; open_parsed opened W r.

Definition bee_open_remote_patch_bucket_file (mem_ok : bool) (opened : option DB) (W : bees)
    (folder : list Z) (folder_len : Z) (d_name dots : list Z) : cres (option string * bees) :=
  r ← remote_bucket_of_file mem_ok folder folder_len d_name dots; open_parsed opened W r.

Definition DOTSMAX : nat := 8.

(** The places of the dots, or nothing when there are more than [DOTSMAX]. *)
Fixpoint find_dots (d_name : list Z) (i : Z) (dots : list Z) : cres (option (list Z)) :=
  match d_name with
  | [] => Fault
  | c :: d_name =>
      if c =? 0 then Ret (Some dots)
      else if c =? 46 then
        if (length dots <? DOTSMAX)%nat then find_dots d_name (i + 1) (dots ++ [i]) else Ret None
      else find_dots d_name (i + 1) dots
  end.

Definition bee_open_bucket_file (mem_ok : bool) (opened : option DB) (W : bees) (folder : list Z)
    (folder_len : Z) (d_name : list Z) : cres (option string * bees) :=
  r ← find_dots d_name 0 [];
  match r with
  | None => Ret (None, W)
  | Some dots =>
      if (length dots =? 3)%nat then bee_open_local_bucket_file mem_ok opened W folder folder_len d_name dots
      else if (length dots =? 7)%nat
      then bee_open_remote_patch_bucket_file mem_ok opened W folder folder_len d_name dots
      else Ret (None, W)
  end.

Definition MAX_DISK_BUCKET_FOLDER : Z := 100.

(** [entries] are the regular files of the folder, each with what opening it gives. *)
Fixpoint open_entries (W : bees) (folder : list Z) (folder_len : Z)
    (entries : list (list Z * bool * option DB)) : cres (option string * bees) :=
  match entries with
  | [] => Ret (None, W)
  | (d_name, mem_ok, opened) :: entries =>
      '(e, W) ← bee_open_bucket_file mem_ok opened W folder folder_len d_name;
      match e with Some _ => Ret (e, W) | None => open_entries W folder folder_len entries end
  end.

(** [None]: the folder cannot be opened. *)
Definition bee_open_buckets_from_folder (W : bees) (folder : list Z) (folder_len : Z)
    (dir : option (list (list Z * bool * option DB))) : cres (option string * bees) :=
  if MAX_DISK_BUCKET_FOLDER <? folder_len then Ret (Some "folder name too long"%string, W)
  else
    let '(folder, folder_len) := if folder_len =? 0 then ([46; 0], 1) else (folder, folder_len) in
    match dir with
    | None => Ret (Some "failed to open folder"%string, W)
    | Some entries => open_entries W folder folder_len entries
    end.

(** ** Buckets from the configuration *)

(** The hash of a bucket by its text, which ends with the [x]. *)
Definition config_hash (hash : list Z) (hash_length : Z) (invalid format : string) : cres (string + Z) :=
  '(r, h) ← HashString.get_hash_string hash hash_length;
  match h with
  | Some (hash_start, hash_len) =>
      if r =? -1 then Ret (inl invalid)
      else if negb (hash_start =? 0) || negb (hash_length =? hash_len + 1) then Ret (inl format)
      else Ret (inr hash_len)
  | None => Ret (inl invalid)
  end.

(** [addr] is the address and port of a patch bucket, [None] the null pointer, length 0 and
    port -1 of the callback for a local one. *)
Definition bee_add_disk_bucket_by_config (mem_ok : bool) (opened : option DB) (W : bees)
    (folder range_map : list Z) (range_map_length : Z) (addr : option (list Z * Z * Z))
    (hash : list Z) (hash_length idx : Z) : cres (option string * bees) :=
  if match addr with Some (_, ip_length, bport) => (ip_length <=? 0) || (bport =? -1) | None => false end
  then Ret (Some "design error"%string, W)
  else if negb (idx =? 0) && negb (idx =? 1)
  then Ret (Some "value of bucket idx should be 0 or 1"%string, W)
  else
    ap ← match addr with
         | None => Ret (inr 0)
         | Some (bip, ip_length, bport) =>
             '(r, ap) ← Ipv4.get_ipv4_addr bip ip_length;
             if negb (r =? ip_length) then Ret (inl "invalid IP address string"%string)
             else if PORT_NUMBER_INVALID bport then Ret (inl "invalid port number"%string)
             else match ap with Some ap => Ret (inr ap) | None => Fault end
         end;
    match ap with
    | inl e => Ret (Some e, W)
    | inr ap =>
        folder_len ← c_strnlen folder (Z.to_nat (MAX_DISK_BUCKET_FOLDER + 3));
        if MAX_DISK_BUCKET_FOLDER <? folder_len then Ret (Some "folder name too long"%string, W)
        else
          let '(folder, folder_len) := if folder_len =? 0 then ([46; 0], 1) else (folder, folder_len) in
          e ← range_map_name_check2 range_map range_map_length;
          match e with
          | Some e => Ret (Some e, W)
          | None =>
              h ← config_hash hash hash_length "invalid hash string" "invalid hash string format";
              match h with
              | inl e => Ret (Some e, W)
              | inr hash_len =>
                  if negb mem_ok then Ret (Some "no memory for new bucket"%string, W) else
                  f ← c_chars folder;
                  rm ← c_chars range_map;
                  hs ← c_chars hash;
                  '(n, text, bport) ←
                    match addr with
                    | None =>
                        Ret (folder_len + 1 + range_map_length + 1 + hash_len + 1 + 7,
                             f ++ [47] ++ rm ++ [46] ++ hs ++ [46] ++ c_decimal idx ++ [46; 107; 99; 116],
                             0)
                    | Some (bip, ip_length, bport) =>
                        i ← c_chars bip;
                        Ret (folder_len + 1 + range_map_length + 1 + ip_length + 1 + 5 + 1 + hash_len + 1 + 5,
                             f ++ [47] ++ rm ++ [46] ++ i ++ [46] ++ c_decimal bport ++ [46] ++ hs ++
                             [46; 107; 99; 116],
                             bport)
                    end;
                  let '(r, b) := c_snprintf (replicate (Z.to_nat n) 0) text in
                  if (n <=? r) || (r <=? 0) then Ret (Some "design error"%string, W) else
                  nm ← at_off b (folder_len + 1);
                  hs ← at_off b (match addr with
                                 | None => folder_len + 1 + range_map_length + 1
                                 | Some _ => r - 5 - hash_len
                                 end);
                  sid ← bee_bucket_calculate_search_id nm range_map_length hs hash_len;
                  bee_open_disk_bucket opened W
                    (BeeBucket nm range_map_length hs hash_len sid ap bport None None) idx
              end
          end
    end.

(** A new database in memory comes in front; the one at the back is dropped when there are
    two. *)
Definition shift_in (W : bees) (p h : loc) : cres bees :=
  b ← bget W p;
  match kcdb0 b, kcdb1 b with
  | Some h0, Some h1 =>
      W ← bee_close_kcdb W h0;
      bput W p (fun b => set_kcdb1 (Some h) (set_kcdb0 (Some h1) b))
  | Some _, None => bput W p (set_kcdb1 (Some h))
  | None, _ =>
      W ← bput W p (set_kcdb0 (Some h));
      notify_online W p
  end.

(** The bucket of a range map and a hash text, with its name in front of its hash. *)
Definition mem_bucket (range_map_name : list Z) (range_map_name_len : Z) (hash : list Z)
    (hash_length hash_len : Z) : cres bee_bucket_t :=
  b ← c_memcpy (replicate (Z.to_nat (range_map_name_len + 1 + hash_length + 3)) 0) 0
        range_map_name range_map_name_len;
  b ← wr b range_map_name_len 46;
  b ← c_memcpy b (range_map_name_len + 1) hash hash_length;
  b ← c_memcpy b (range_map_name_len + 1 + hash_length) [46; 37; 0] 3;
  hs ← at_off b (range_map_name_len + 1);
  sid ← bee_bucket_calculate_search_id b range_map_name_len hs hash_len;
  Ret (BeeBucket b range_map_name_len hs hash_len sid 0 0 None None).

(** [mem_ok], [new_ok], [open_ok]: the memory, the database object and opening it. *)
Definition bee_shift_mem_bucket (mem_ok new_ok open_ok : bool) (W : bees) (range_map_name : list Z)
    (range_map_name_len : Z) (hash : list Z) (hash_length : Z) : cres (option string * bees) :=
  e ← range_map_name_check2 range_map_name range_map_name_len;
  match e with
  | Some e => Ret (Some e, W)
  | None =>
      h ← config_hash hash hash_length
            "invalid hash string (mem bucket)" "invalid hash string format (mem bucket)";
      match h with
      | inl e => Ret (Some e, W)
      | inr hash_len =>
          if negb mem_ok then Ret (Some "no memory for new memory bucket"%string, W) else
          b ← mem_bucket range_map_name range_map_name_len hash hash_length hash_len;
          if negb new_ok then Ret (Some "no memory for new memory db"%string, W)
          else if negb open_ok then Ret (Some "failed to open memory kcdb"%string, W)
          else
            let '(h, W) := new_db W kc_empty in
            '(ep, x, W) ← add_bucket W b;
            let '(p, W) := match ep with Some y => (y, bfree x W) | None => (x, W) end in
            W ← shift_in W p h;
            Ret (None, W)
      end
  end.

(** The key on the stack has no address and port: [jip] and [jport] are what is there. *)
Definition bee_bucket_set_offline (W : bees) (jip jport : Z) (range_map : list Z)
    (range_map_length : Z) (hash : list Z) (hash_length idx : Z) : cres (option string * bees) :=
  e ← range_map_name_check2 range_map range_map_length;
  if decide (e ≠ None) then Ret (Some "invalid range map name"%string, W) else
  '(r, _) ← HashString.get_hash_string hash hash_length;
  if r =? -1 then Ret (Some "invalid hash string"%string, W)
  else if negb (idx =? 0) && negb (idx =? 1)
  then Ret (Some "bucket index should be 0 or 1"%string, W)
  else
    p ← esq_bee_find_bucket W range_map range_map_length hash hash_length jip jport;
    match p with
    | None => Ret (Some "no such range map item"%string, W)
    | Some x =>
        b ← bget W x;
        k ← kcdb b idx;
        match k with
        | None =>
            Ret (Some "the range map ok, but the bucket serve that idx is not attached"%string, W)
        | Some h =>
            W ← bee_close_kcdb W h;
            W ← bput W x (set_kcdb idx None);
            b ← bget W x;
            match kcdb0 b, kcdb1 b with
            | None, None =>
                T ← RB_REMOVE (btree W) x;
                W ← notify_offline (with_btree T W) x;
                Ret (None, bfree x W)
            | _, _ => Ret (None, W)
            end
        end
    end.

(** ** Merging an item of another server *)

Record merge_session := MergeSession {
  m_range_map_name : list Z;
  m_range_map_name_length : Z;
  m_hash_str : list Z;
  m_hash_str_length : Z;
  m_key : list Z;
  m_value : list Z;
  m_bucket : ptr
}.

Definition set_m_bucket (p : ptr) (s : merge_session) : merge_session :=
  MergeSession (m_range_map_name s) (m_range_map_name_length s) (m_hash_str s) (m_hash_str_length s)
    (m_key s) (m_value s) p.

Definition sizeof_timeval : Z := 16.

(** A [long] of eight bytes, least first. *)
Definition long_at (s : list Z) (off : Z) : cres Z :=
  b ← at_off s off;
  if decide (8 <= Z.of_nat (length b)) then
    let v := foldr (fun c a => c + 256 * a) 0 (take 8 b) in
    Ret (if v <? 2^63 then v else v - 2^64)
  else Fault.

(** [timercmp(a, b, >)]. *)
Definition timer_gt (a b : list Z) : cres bool :=
  sa ← long_at a 0;
  sb ← long_at b 0;
  if sa =? sb then ua ← long_at a 8; ub ← long_at b 8; Ret (ub <? ua) else Ret (sb <? sa).

Definition merge_into (W : bees) (b : loc) (s : merge_session) : cres (Z * bees) :=
  '(r, data) ← bee_bucket_get2 W b (m_key s);
  match data with
  | None => Ret (0, W)
  | Some d =>
      if negb (r =? 0) then Ret (0, W) else
      write ← (if Z.of_nat (length d) <? sizeof_timeval then Ret true else timer_gt (m_value s) d);
      if write : bool then '(_, W) ← bee_bucket_set W b (m_key s) d; Ret (0, W) else Ret (0, W)
  end.

Definition esq_bucket_merge_item (W : bees) (s : merge_session) : cres (Z * merge_session * bees) :=
  match m_bucket s with
  | Some b => '(r, W) ← merge_into W b s; Ret (r, s, W)
  | None =>
      if m_range_map_name_length s =? 0 then Ret (-1, s, W) else
      p ← esq_bee_find_bucket W (m_range_map_name s) (m_range_map_name_length s) (m_hash_str s)
            (m_hash_str_length s) 0 0;
      match p with
      | None => Ret (-1, s, W)
      | Some b => let s := set_m_bucket (Some b) s in '(r, W) ← merge_into W b s; Ret (r, s, W)
      end
  end.

End Bucket.
