(* ===== verification/BucketInv.v ===== *)
(** * The buckets behave like layered maps

    The order of the bucket tree, what the tree and the databases always satisfy, and what
    the operations of [Bucket] do to the layered maps the buckets stand for. *)
From stdpp Require Import strings functions.
From S2P Require Import Prelude CString LinkedList RbTree Scan RangeMap RangeIndex RangeTable Bucket.

(** ** Keys *)

(** The name and the hash of a bucket, without what follows them in its buffer. *)
Definition bname (b : bee_bucket_t) : list Z := take (Z.to_nat (range_map_name_length b)) (range_map_name b).
Definition bhash (b : bee_bucket_t) : list Z := take (Z.to_nat (hash_str_length b)) (hash_str b).

(** A bucket is for an address, a port, a hash and a range map. *)
Definition bkey_t : Type := Z * (Z * (list Z * list Z)).
Definition bkey (b : bee_bucket_t) : bkey_t := (ip b, (port b, (bhash b, bname b))).

Fixpoint id_sum (s : list Z) (i : Z) (conv : Z → Z) (sum : Z) : Z :=
  match s with
  | [] => sum
  | c :: s =>
      id_sum s (i + 1) conv (i32 (sum + (if negb (Z.land i 1 =? 0) then conv c else Z.shiftl (conv c) 8)))
  end.

(** The number the tree is ordered by first. *)
Definition key_id (k : bkey_t) : Z :=
  i32 (id_sum k.2.2.2 0 schar 0 + i32 (Z.shiftl (id_sum k.2.2.1 0 id 0) 16)).

Lemma id_loop_ok s pre tl conv sum :
  id_loop (length s) (pre ++ s ++ tl) (Z.of_nat (length pre)) conv sum
  = Ret (id_sum s (Z.of_nat (length pre)) conv sum).
Proof.
  revert pre sum; induction s as [|c s IH]; intros pre sum; [done|]. cbn [length id_loop id_sum].
  rewrite (rd_nat _ _ c) by (by rewrite lookup_app_r, Nat.sub_diag by lia). cbn [mbind cres_bind].
  replace (pre ++ (c :: s) ++ tl) with ((pre ++ [c]) ++ s ++ tl) by (by rewrite <- app_assoc).
  replace (Z.of_nat (length pre) + 1) with (Z.of_nat (length (pre ++ [c]))) by (rewrite length_app; simpl; lia).
  apply IH.
Qed.

(** Lengths inside the buffer, and the number that belongs to the key. *)
Record fits (b : bee_bucket_t) : Prop := {
  ft_name : 0 <= range_map_name_length b <= Z.of_nat (length (range_map_name b));
  ft_hash : 0 <= hash_str_length b <= Z.of_nat (length (hash_str b));
  ft_small : range_map_name_length b < 2^31 ∧ hash_str_length b < 2^31;
  ft_id : search_id b = key_id (bkey b)
}.

Lemma search_id_ok nm tl h tl' a p :
  bee_bucket_calculate_search_id (nm ++ tl) (Z.of_nat (length nm)) (h ++ tl') (Z.of_nat (length h))
  = Ret (key_id (a, (p, (h, nm)))).
Proof.
  unfold bee_bucket_calculate_search_id. rewrite !Nat2Z.id.
  rewrite (id_loop_ok nm [] tl). cbn [mbind cres_bind]. by rewrite (id_loop_ok h [] tl').
Qed.

Lemma new_bucket_fits nm tl h tl' a p k0 k1 :
  Z.of_nat (length nm) < 2^31 → Z.of_nat (length h) < 2^31 →
  let b := BeeBucket (nm ++ tl) (Z.of_nat (length nm)) (h ++ tl') (Z.of_nat (length h))
             (key_id (a, (p, (h, nm)))) a p k0 k1 in
  fits b ∧ bkey b = (a, (p, (h, nm))).
Proof.
  intros Hn Hh. cbv zeta.
  match goal with |- fits ?b ∧ _ => assert (E : bkey b = (a, (p, (h, nm)))) end.
  { unfold bkey, bname, bhash. simpl. by rewrite !Nat2Z.id, !take_app_length. }
  split; [|done]. split; simpl; [rewrite length_app; lia|rewrite length_app; lia|done|by rewrite E].
Qed.

(** ** The order *)

Definition key_order : bkey_t → bkey_t → Z :=
  first_by key_id
    (first_by (fun k => Z.of_nat (length k.2.2.1))
      (first_by (fun k => Z.of_nat (length k.2.2.2))
        (pair_cmp Z.sub (pair_cmp Z.sub (pair_cmp bytes_cmp bytes_cmp))))).

#[export] Instance key_order_ok : KeyOrder key_order.
Proof. unfold key_order. apply _. Qed.

(** Numbers and addresses less than 2^31 apart, where the differences do not wrap. *)
Definition near (a b : bkey_t) : Prop :=
  Z.abs (key_id a - key_id b) < 2^31 ∧ Z.abs (a.1 - b.1) < 2^31 ∧ Z.abs (a.2.1 - b.2.1) < 2^31.

Lemma i32_diff a b : i32 (i32 a - i32 b) = i32 (a - b).
Proof.
  unfold i32.
  replace ((a + 2 ^ 31) mod 2 ^ 32 - 2 ^ 31 - ((b + 2 ^ 31) mod 2 ^ 32 - 2 ^ 31) + 2^31)
    with (((a + 2 ^ 31) mod 2 ^ 32 - (b + 2 ^ 31) mod 2 ^ 32) + 2^31) by lia.
  rewrite <- Zplus_mod_idemp_l, <- Zminus_mod, Zplus_mod_idemp_l.
  do 2 f_equal. lia.
Qed.

Lemma bname_split b : fits b →
  ∃ tl, range_map_name b = bname b ++ tl ∧ range_map_name_length b = Z.of_nat (length (bname b)).
Proof.
  intros [Hn _ _ _]. exists (drop (Z.to_nat (range_map_name_length b)) (range_map_name b)).
  unfold bname. rewrite take_drop, length_take. split; [done|lia].
Qed.

Lemma bhash_split b : fits b →
  ∃ tl, hash_str b = bhash b ++ tl ∧ hash_str_length b = Z.of_nat (length (bhash b)).
Proof.
  intros [_ Hn _ _]. exists (drop (Z.to_nat (hash_str_length b)) (hash_str b)).
  unfold bhash. rewrite take_drop, length_take. split; [done|lia].
Qed.

Lemma memcmp_app a b ta tb n : length a = n → length b = n → memcmp (a ++ ta) (b ++ tb) n = memcmp a b n.
Proof.
  revert a b; induction n as [|n IH]; intros [|x a] [|y b] Ha Hb; simpl in *; try done.
  case_match; [apply IH; lia|done].
Qed.

Lemma c_memcmp_app a b ta tb :
  length a = length b → c_memcmp (a ++ ta) (b ++ tb) (Z.of_nat (length a)) = Ret (bytes_cmp a b).
Proof.
  intros El. unfold c_memcmp, bytes_cmp. rewrite !length_app.
  rewrite decide_True by lia. rewrite decide_True by done. rewrite Nat2Z.id. by rewrite memcmp_app.
Qed.

(** On keys that are near the comparison of the code is that order. *)
Lemma bucket_cmp_order a b :
  fits a → fits b → near (bkey a) (bkey b) →
  esq_bee_bucket_cmp a b = Ret (key_order (bkey a) (bkey b)).
Proof.
  intros Ha Hb (Hi & Hip & Hport). unfold esq_bee_bucket_cmp, key_order, first_by, pair_cmp.
  rewrite (ft_id a Ha), (ft_id b Hb). cbn [bkey fst snd].
  destruct (bname_split a Ha) as (ta & Ena & Ela), (bname_split b Hb) as (tb & Enb & Elb).
  destruct (bhash_split a Ha) as (ta' & Eha & Elha), (bhash_split b Hb) as (tb' & Ehb & Elhb).
  pose proof (ft_small a Ha) as [Hs1 Hs2]. pose proof (ft_small b Hb) as [Hs3 Hs4].
  rewrite i32_diff. cbn [bkey fst snd] in Hip, Hport.
  rewrite Ela, Elb, Elha, Elhb in *. rewrite !i32_small by lia.
  destruct (Z.eqb_spec (key_id (bkey a)) (key_id (bkey b))); [|done]. cbn [negb].
  destruct (Z.eqb_spec (Z.of_nat (length (bhash a))) (Z.of_nat (length (bhash b)))) as [Elh|]; [|done]. cbn [negb].
  destruct (Z.eqb_spec (Z.of_nat (length (bname a))) (Z.of_nat (length (bname b)))) as [Eln|]; [|done]. cbn [negb].
  destruct (Z.eqb_spec (ip a) (ip b)) as [->|]; cbn [negb].
  2:{ destruct (Z.eqb_spec (ip a - ip b) 0); [lia|done]. }
  rewrite Z.sub_diag. cbn [Z.eqb].
  destruct (Z.eqb_spec (port a) (port b)) as [->|]; cbn [negb].
  2:{ destruct (Z.eqb_spec (port a - port b) 0); [lia|done]. }
  rewrite Z.sub_diag. cbn [Z.eqb]. apply Nat2Z.inj in Elh, Eln.
  rewrite Eha, Ehb, c_memcmp_app by done. cbn [mbind cres_bind].
  destruct (Z.eqb_spec (bytes_cmp (bhash a) (bhash b)) 0); cbn [negb]; [|done].
  by rewrite Ena, Enb, c_memcmp_app.
Qed.

(** On any keys it has a value, and is equal only on hashes of the same length. *)
Lemma bucket_cmp_total a b :
  fits a → fits b → ∃ z, esq_bee_bucket_cmp a b = Ret z ∧ (z = 0 → length (bhash a) = length (bhash b)).
Proof.
  intros Ha Hb. unfold esq_bee_bucket_cmp. rewrite (ft_id a Ha), (ft_id b Hb).
  pose proof (i32_range (id_sum (bkey a).2.2.2 0 schar 0 + i32 (Z.shiftl (id_sum (bkey a).2.2.1 0 id 0) 16))) as H1.
  pose proof (i32_range (id_sum (bkey b).2.2.2 0 schar 0 + i32 (Z.shiftl (id_sum (bkey b).2.2.1 0 id 0) 16))) as H2.
  change (- 2^31 <= key_id (bkey a) < 2^31) in H1. change (- 2^31 <= key_id (bkey b) < 2^31) in H2.
  destruct (bname_split a Ha) as (ta & Ena & Ela), (bname_split b Hb) as (tb & Enb & Elb).
  destruct (bhash_split a Ha) as (ta' & Eha & Elha), (bhash_split b Hb) as (tb' & Ehb & Elhb).
  pose proof (ft_small a Ha) as [Hs1 Hs2]. pose proof (ft_small b Hb) as [Hs3 Hs4].
  rewrite Ela, Elb, Elha, Elhb in *.
  destruct (Z.eqb_spec (key_id (bkey a)) (key_id (bkey b))); cbn [negb].
  2:{ eexists. split; [done|]. intros E. apply i32_eq_0_small in E; lia. }
  destruct (Z.eqb_spec (Z.of_nat (length (bhash a))) (Z.of_nat (length (bhash b)))) as [Elh|]; cbn [negb].
  2:{ eexists. split; [done|]. intros E. apply i32_eq_0_small in E; lia. }
  apply Nat2Z.inj in Elh.
  destruct (Z.eqb_spec (Z.of_nat (length (bname a))) (Z.of_nat (length (bname b)))) as [Eln|]; cbn [negb]; [|eauto].
  apply Nat2Z.inj in Eln. case_match; [eauto|]. case_match; [eauto|].
  rewrite Eha, Ehb, c_memcmp_app by done. cbn [mbind cres_bind]. case_match; [eauto|].
  rewrite Ena, Enb, c_memcmp_app by done. eauto.
Qed.

(** ** What always holds *)

(** A hash is an even number of digits, or of blanks. *)
Definition bucket_hash (h : list Z) : Prop :=
  Z.even (Z.of_nat (length h)) = true ∧ (Forall HashString.hex h ∨ Forall blank h).

Record bucket_ok (b : bee_bucket_t) : Prop := {
  bo_fits : fits b;
  bo_name : valid_name (bname b);
  bo_hash : bucket_hash (bhash b)
}.

Definition slots (b : bee_bucket_t) : list loc := option_list (kcdb0 b) ++ option_list (kcdb1 b).

(** ** The arguments of the configuration *)

(** The text of a hash, with its mark. *)
Definition hash_arg (s h : list Z) : Prop := ∃ e, s = h ++ [e] ∧ HashString.mark e ∧ bucket_hash h.

Lemma hash_arg_length s h : hash_arg s h → length s = S (length h).
Proof. intros (e & -> & _). rewrite length_app. simpl. lia. Qed.

Lemma hash_arg_get s h tl :
  Forall is_byte s → hash_arg s h →
  HashString.get_hash_string (s ++ tl) (Z.of_nat (length s))
  = Ret (Z.of_nat (length s), Some (0, Z.of_nat (length h))).
Proof.
  intros Hs (e & -> & He & Hev & Hh).
  assert (Hne : ¬ HashString.hex e ∧ ¬ blank e) by (unfold HashString.hex, HashString.mark, blank, digit in *; lia).
  destruct Hh as [Hh|Hh].
  - pose proof (HashString.get_hash_string_split [] h [e] tl) as E. simpl app in E.
    rewrite E; [|done|apply Forall_nil_2|done|apply Hne|intros _; apply Hne].
    rewrite decide_True; [|split; [by destruct h|done]].
    rewrite length_app. cbn [length]. f_equal. destruct h; done || (f_equal; lia).
  - pose proof (HashString.get_hash_string_split h [] [e] tl) as E. simpl app in E.
    rewrite E; [|done|done|apply Forall_nil_2|apply Hne|intros _; apply Hne].
    rewrite decide_True by done. rewrite length_app. simpl. do 2 f_equal. lia.
Qed.

Lemma config_hash_arg s h tl i f :
  Forall is_byte s → hash_arg s h →
  config_hash (s ++ tl) (Z.of_nat (length s)) i f = Ret (inr (Z.of_nat (length h))).
Proof.
  intros Hs Ha. unfold config_hash. rewrite (hash_arg_get s h) by done. cbn [mbind cres_bind].
  rewrite (hash_arg_length s h Ha). destruct (Z.eqb_spec (Z.of_nat (S (length h))) (-1)); [lia|].
  destruct (Z.eqb_spec (Z.of_nat (S (length h))) (Z.of_nat (length h) + 1)); [done|lia].
Qed.

Lemma config_hash_ok s tl i f :
  Forall is_byte s →
  (∃ h, hash_arg s h ∧ config_hash (s ++ tl) (Z.of_nat (length s)) i f = Ret (inr (Z.of_nat (length h)))) ∨
  ((∀ h, ¬ hash_arg s h) ∧ ∃ e, config_hash (s ++ tl) (Z.of_nat (length s)) i f = Ret (inl e)).
Proof.
  intros Hs.
  assert (Hno : ∀ e, config_hash (s ++ tl) (Z.of_nat (length s)) i f = Ret (inl e) →
    (∀ h, ¬ hash_arg s h) ∧ ∃ e, config_hash (s ++ tl) (Z.of_nat (length s)) i f = Ret (inl e)).
  { intros e E. split; [|eauto]. intros h Ha. by rewrite (config_hash_arg s h) in E. }
  destruct (blanks_split s) as (bl & u & Es & Hbl & Hu).
  destruct (HashString.hex_split u) as (h & t & -> & Hh & Ht).
  unfold config_hash in *. rewrite Es in *. rewrite HashString.get_hash_string_split in * by (done || by intros ->).
  cbn [mbind cres_bind] in *. case_decide as Hd; [|right; eauto].
  destruct Hd as [Hev Hm]. destruct t as [|e t]; [done|]. simpl in Hm.
  destruct (Z.eqb_spec (Z.of_nat (length bl + length h + 1)) (-1)); [lia|].
  rewrite !length_app in *. simpl length in *.
  match goal with |- context [if negb ?a || negb ?c then _ else _] => destruct a eqn:E1, c eqn:E2 end;
    simpl in Hno |- *; try (right; eauto; fail).
  apply Z.eqb_eq in E1, E2. left. destruct h as [|c h].
  - exists bl. split; [|done]. exists e. destruct t; [|simpl in *; lia]. split; [done|]. split; [done|].
    split; [done|by right].
  - destruct bl; [|simpl in *; lia]. exists (c :: h). split; [|done]. exists e.
    destruct t; [|simpl in *; lia]. split; [done|]. split; [done|]. split; [done|by left].
Qed.

Lemma name_check2_ok s tl :
  ∃ e, range_map_name_check2 (s ++ tl) (Z.of_nat (length s)) = Ret e ∧ (e = None ↔ valid_name s).
Proof.
  unfold range_map_name_check2, RANGE_MAP_NAME_MAX, valid_name.
  destruct (Z.leb_spec (Z.of_nat (length s)) 0); [eexists; split; [done|]; split; [done|lia]|].
  destruct (Z.leb_spec 32 (Z.of_nat (length s))); [eexists; split; [done|]; split; [done|lia]|].
  rewrite Nat2Z.id, name_chars_ok. cbn [mbind cres_bind]. eexists. split; [done|].
  case_bool_decide; split; try done; try tauto. intros _. split; [lia|done].
Qed.

Section Inv.
Context {DB : Type} `{KcLib DB} (N : bkey_t → Prop).
Implicit Types W : bees (DB := DB).

Definition all_near : Prop := ∀ a b, N a → N b → near a b.

Definition key_at W (x : loc) : option bkey_t := bkey <$> bks W !! x.

(** The tree holds all buckets, by their keys. *)
Record tree_inv W : Prop := {
  ti_tree : ∃ l, holds (btree W) l ∧ sorted key_order (key_at W) l ∧ ∀ x, x ∈ l ↔ is_Some (bks W !! x);
  ti_dom : dom (bents W) = dom (bks W);
  ti_bucket x b : bks W !! x = Some b → bucket_ok b ∧ N (bkey b)
}.

(** Every bucket has a database, the databases that are open are those of the buckets, and
    the range maps point to buckets there are. *)
Record inv W : Prop := {
  bi_tree : tree_inv W;
  bi_slots x b : bks W !! x = Some b → NoDup (slots b) ∧ slots b ≠ [];
  bi_open x b h : bks W !! x = Some b → h ∈ slots b → is_Some (dbs W !! h);
  bi_apart x y b c h : bks W !! x = Some b → bks W !! y = Some c → h ∈ slots b → h ∈ slots c → x = y;
  bi_owned h : is_Some (dbs W !! h) → ∃ x b, bks W !! x = Some b ∧ h ∈ slots b;
  bi_maps : ∃ A, table_ok (rms W) A;
  bi_nodes n x p : nd (memory (rms W)) !! n = Some x → bucket x = Some p → is_Some (bks W !! p)
}.

Lemma bget_ok W x b : bks W !! x = Some b → bget W x = Ret b.
Proof. intros Hb. unfold bget, fld. by rewrite Hb. Qed.

Lemma bput_ok W x b f : bks W !! x = Some b → bput W x f = Ret (with_bks (<[x := f b]> (bks W)) W).
Proof. intros Hb. unfold bput. by rewrite (upd_Some _ _ _ _ Hb). Qed.

(** ** Searching *)

Section Near.
Hypothesis Hnear : all_near.

Lemma key_cut W q :
  tree_inv W → fits q → N (bkey q) →
  ∃ A m B, holds (btree W) (A ++ option_list m ++ B) ∧
    sorted key_order (key_at W) (A ++ option_list m ++ B) ∧
    (∀ x, x ∈ A ++ option_list m ++ B ↔ is_Some (bks W !! x)) ∧
    cut (key_cmp key_order (key_at W) (bkey q)) (A ++ option_list m ++ B) A m B ∧
    cut (bkt_cmp W q) (A ++ option_list m ++ B) A m B ∧
    ∀ x, m = Some x ↔ key_at W x = Some (bkey q).
Proof.
  intros Hi Hq HN. destruct (ti_tree W Hi) as (l & Hh & Hs & Hl).
  destruct (sorted_cut key_order (key_at W) l (bkey q) Hs) as (A & m & B & Hc & Hm).
  pose proof (cut_split _ _ _ _ _ Hc) as ->. exists A, m, B. split_and!; try done.
  - eapply cut_ext; [|exact Hc]. intros x Hx. apply Hl in Hx as [b Hb].
    destruct (ti_bucket W Hi x b Hb) as [[Hok _ _] HNb].
    unfold bkt_cmp, key_cmp, key_at. rewrite (bget_ok _ _ _ Hb), Hb. cbn [mbind cres_bind fmap option_fmap option_map].
    apply bucket_cmp_order; [done|done|]. by apply Hnear.
  - intros x. rewrite Hm. split; [tauto|]. intros Hk. split; [|done]. apply Hl.
    unfold key_at in Hk. destruct (bks W !! x); [eauto|done].
Qed.

Lemma find_key W q :
  tree_inv W → fits q → N (bkey q) →
  ∃ m, RB_FIND (btree W) (bkt_cmp W q) = Ret m ∧ ∀ x, m = Some x ↔ key_at W x = Some (bkey q).
Proof.
  intros Hi Hq HN. destruct (key_cut W q Hi Hq HN) as (A & m & B & Hh & _ & _ & _ & Hc & Hm).
  exists m. split; [|done]. by eapply RB_FIND_ok.
Qed.

Lemma key_at_Some W x k : key_at W x = Some k ↔ ∃ b, bks W !! x = Some b ∧ bkey b = k.
Proof. unfold key_at. destruct (bks W !! x); naive_solver. Qed.

(** A bucket enters the tree, unless there is one with its key. *)
Lemma add_bucket_ok W b :
  tree_inv W → bucket_ok b → N (bkey b) →
  let x := fresh (dom (bks W)) in
  (∃ y W', key_at W y = Some (bkey b) ∧ add_bucket W b = Ret (Some y, x, W') ∧ bfree x W' = W) ∨
  ((∀ y, key_at W y ≠ Some (bkey b)) ∧
   ∃ W', add_bucket W b = Ret (None, x, W') ∧ tree_inv W' ∧ bks W' = <[x := b]> (bks W) ∧
     dbs W' = dbs W ∧ rms W' = rms W).
Proof.
  intros Hi Hok HN. cbv zeta. set (x := fresh (dom (bks W))).
  assert (Hx : bks W !! x = None) by (apply not_elem_of_dom, is_fresh).
  assert (Hxe : bents W !! x = None) by (apply not_elem_of_dom; rewrite (ti_dom W Hi); apply is_fresh).
  destruct (key_cut W b Hi (bo_fits b Hok) HN) as (A & m & B & Hh & Hs & Hl & Hkc & Hc & Hm).
  assert (Hxl : x ∉ A ++ option_list m ++ B) by (rewrite Hl, Hx; intros []; done).
  unfold add_bucket. fold x. cbv zeta.
  match goal with |- context [RB_INSERT (btree ?X)] => set (W1 := X) end.
  assert (Hh1 : holds (btree W1) (A ++ option_list m ++ B)).
  { eapply (rb_holds_frame (btree W)); [|done|exact Hh]. intros y Hy. simpl. rewrite lookup_insert_ne; [done|].
    by intros <-. }
  assert (Hc1 : cut (bkt_cmp W1 b) (A ++ option_list m ++ B) A m B).
  { eapply cut_ext; [|exact Hc]. intros y Hy. unfold bkt_cmp, bget, fld. simpl. rewrite lookup_insert_ne; [done|].
    by intros <-. }
  destruct m as [y|].
  - left. exists y. rewrite (RB_INSERT_found _ _ _ _ _ _ _ Hh1 Hc1). cbn [mbind cres_bind].
    eexists. split; [by apply Hm|]. split; [done|]. unfold bfree, with_btree, W1. simpl.
    rewrite !delete_insert_id by done. by destruct W.
  - right. split. { intros y Hy. by apply Hm in Hy. }
    destruct (RB_INSERT_new _ _ x _ _ _ Hh1 Hc1 Hxl) as (T & -> & HT & _ & Hd). cbn [mbind cres_bind].
    eexists. split; [done|]. split; [|done]. simpl in Hl, Hs, Hkc. split.
    + exists (A ++ x :: B). split; [by destruct T|]. split.
      * assert (Hks : sorted key_order (key_at (with_btree T W1)) (A ++ B)).
        { apply (sorted_frame key_order (key_at W)); [|exact Hs]. intros y Hy. unfold key_at. simpl. rewrite lookup_insert_ne; [done|].
          intros <-. by apply Hxl. }
        apply (sorted_insert key_order _ (bkey b)); [done| |].
        { eapply cut_ext; [|exact Hkc]. intros y Hy. unfold key_cmp, key_at. simpl. rewrite lookup_insert_ne; [done|].
          intros <-. by apply Hxl. }
        unfold key_at. simpl. by rewrite lookup_insert_eq.
      * intros y. rewrite elem_of_app, elem_of_cons. simpl. destruct (decide (y = x)) as [->|Hne].
        { rewrite lookup_insert_eq. naive_solver. }
        rewrite lookup_insert_ne by done. rewrite <- Hl, elem_of_app. naive_solver.
    + simpl. rewrite Hd. simpl. rewrite !dom_insert_L, (ti_dom W Hi). set_solver.
    + intros y c. simpl. destruct (decide (y = x)) as [->|Hne].
      * rewrite lookup_insert_eq. intros [= <-]. done.
      * rewrite lookup_insert_ne by done. apply (ti_bucket W Hi).
Qed.
End Near.

(** ** The layered maps

    A key has at most one bucket; a bucket has a map at the back and one in front of it. *)
Notation layers_t := (bkey_t → option (option DB * option DB)).

Definition db_at (D : gmap loc DB) (p : ptr) : option DB := p ≫= fun h => D !! h.
Definition layer (D : gmap loc DB) (b : bee_bucket_t) : option DB * option DB :=
  (db_at D (kcdb0 b), db_at D (kcdb1 b)).

Definition shown W (m : layers_t) : Prop :=
  ∀ k, match m k with
       | Some l => ∃ x b, bks W !! x = Some b ∧ bkey b = k ∧ layer (dbs W) b = l
       | None => ∀ x, key_at W x ≠ Some k
       end.

Lemma layer_frame D D' b : (∀ h, h ∈ slots b → D' !! h = D !! h) → layer D' b = layer D b.
Proof.
  intros Hf. unfold layer, slots, db_at in *.
  destruct (kcdb0 b), (kcdb1 b); simpl in *; rewrite ?Hf by set_solver; done.
Qed.

(** One bucket is new or changed, with the databases of the others as they were. *)
Lemma shown_update W W' m x b :
  shown W m →
  bks W' = <[x := b]> (bks W) → (∀ c, bks W !! x = Some c → bkey c = bkey b) →
  (∀ y c h, y ≠ x → bks W !! y = Some c → h ∈ slots c → dbs W' !! h = dbs W !! h) →
  shown W' (<[bkey b := Some (layer (dbs W') b)]> m).
Proof.
  intros Hs Hb Hx Hd k. destruct (decide (k = bkey b)) as [->|Hne].
  { rewrite fn_lookup_insert. exists x, b. by rewrite Hb, lookup_insert_eq. }
  rewrite fn_lookup_insert_ne by done. specialize (Hs k). destruct (m k) as [l|].
  - destruct Hs as (y & c & Hy & Hk & Hl). assert (y ≠ x) by (intros ->; apply Hne; by rewrite <- Hk, (Hx c)).
    exists y, c. rewrite Hb, lookup_insert_ne by done. split; [done|]. split; [done|]. rewrite <- Hl.
    apply layer_frame. intros h Hh. by eapply Hd.
  - intros y. unfold key_at. rewrite Hb. destruct (decide (y = x)) as [->|Hyx].
    + rewrite lookup_insert_eq. intros [= E]. by apply Hne.
    + rewrite lookup_insert_ne by done. apply Hs.
Qed.

(** ** Telling the range maps *)

Lemma valid_name_cstring s : valid_name s → cstring s ∧ (length s < 32)%nat.
Proof.
  intros [Hl Hc]. split; [|lia]. eapply Forall_impl; [exact Hc|]. unfold name_char. simpl. lia.
Qed.

Lemma notify_online_ok W x b :
  (∃ A, table_ok (rms W) A) → bks W !! x = Some b → bucket_ok b →
  ∃ r, notify_online W x = Ret (with_rms r W) ∧ (∃ A, table_ok r A) ∧
    ∀ n c p, nd (memory r) !! n = Some c → bucket c = Some p →
      p = x ∨ ∃ c0, nd (memory (rms W)) !! n = Some c0 ∧ bucket c0 = Some p.
Proof.
  intros [A HT] Hb [Hf Hn _]. unfold notify_online, bee_bucket_get_ip_port, bee_bucket_get_hash_str.
  rewrite (bget_ok _ _ _ Hb). cbn [mbind cres_bind fst snd].
  destruct (bname_split b Hf) as (tn & -> & ->), (bhash_split b Hf) as (th & -> & ->).
  destruct (valid_name_cstring _ Hn) as [Hc Hl].
  pose proof (notify_bucket_online_ok (rms W) A x (ip b) (port b) (bhash b) th (bname b) tn HT Hc Hl) as Ho.
  destruct (lookup_name (rms W) (bname b)) as [[i m]|].
  - destruct Ho as (L & V & r & _ & -> & HT' & Hnd). exists r. split; [done|]. split; [eauto|].
    intros n c p. rewrite Hnd. case_decide; [|eauto].
    destruct (nd (memory (rms W)) !! n) as [c0|]; simpl; [|done]. intros [= <-].
    destruct (owns _ _ _ c0); simpl; [intros [= <-]; by left|eauto].
  - rewrite Ho. exists (rms W). split; [by destruct W|]. split; [by exists A|]. eauto.
Qed.

Lemma inv_rms W r :
  inv W → (∃ A, table_ok r A) →
  (∀ n c p, nd (memory r) !! n = Some c → bucket c = Some p → is_Some (bks W !! p)) →
  inv (with_rms r W).
Proof. intros [[Ht Hd Hb] Hs Ho Ha Hw _ _] HT Hn. split; done. Qed.

(** A bucket gets other databases. *)
Definition reslot (p0 p1 : ptr) (b : bee_bucket_t) : bee_bucket_t := set_kcdb0 p0 (set_kcdb1 p1 b).

Lemma reslot_ok p0 p1 b : bkey (reslot p0 p1 b) = bkey b ∧ (bucket_ok b → bucket_ok (reslot p0 p1 b)).
Proof. split; [done|]. intros [[? ? ? ?] ? ?]. by split. Qed.

Definition with_slots W (x : loc) (b : bee_bucket_t) (D : gmap loc DB) : bees :=
  with_dbs D (with_bks (<[x := b]> (bks W)) W).

Lemma tree_inv_reslot W x b p0 p1 D :
  tree_inv W → bks W !! x = Some b → tree_inv (with_slots W x (reslot p0 p1 b) D).
Proof.
  intros [(l & Hh & Hs & Hl) Hd Hb] Hx.
  assert (Hlk : ∀ y, is_Some (<[x := reslot p0 p1 b]> (bks W) !! y) ↔ is_Some (bks W !! y)).
  { intros y. destruct (decide (y = x)) as [->|Hne]; [|by rewrite lookup_insert_ne].
    rewrite lookup_insert_eq, Hx. by split; eauto. }
  split; simpl.
  - exists l. split; [done|]. split; [|intros y; by rewrite Hlk].
    apply (sorted_frame key_order (key_at W)); [|done]. intros y _. unfold key_at. simpl.
    destruct (decide (y = x)) as [->|Hne]; [|by rewrite lookup_insert_ne].
    by rewrite lookup_insert_eq, Hx.
  - rewrite dom_insert_L, Hd. apply elem_of_dom_2 in Hx. set_solver.
  - intros y c. destruct (decide (y = x)) as [->|Hne]; [|rewrite lookup_insert_ne by done; apply Hb].
    rewrite lookup_insert_eq. intros [= <-]. destruct (Hb x b Hx) as [Hok HNb].
    split; [|done]. by apply reslot_ok.
Qed.

(** What a change of the databases of a bucket has to keep. *)
Record slots_step (D D' : gmap loc DB) (b b' : bee_bucket_t) : Prop := {
  ss_nodup : NoDup (slots b');
  ss_some : slots b' ≠ [];
  ss_open h : h ∈ slots b' → is_Some (D' !! h) ∧ (h ∈ slots b ∨ D !! h = None);
  ss_closed h : h ∈ slots b → h ∉ slots b' → D' !! h = None;
  ss_other h : h ∉ slots b → h ∉ slots b' → D' !! h = D !! h
}.

Lemma slots_step_other W D' x y b b' c h :
  inv W → slots_step (dbs W) D' b b' → bks W !! x = Some b → bks W !! y = Some c → y ≠ x → h ∈ slots c →
  h ∉ slots b' ∧ D' !! h = dbs W !! h.
Proof.
  intros Hi Hst Hb Hc Hne Hh.
  assert (H1 : h ∉ slots b). { intros Hh'. apply Hne. exact (bi_apart W Hi y x c b h Hc Hb Hh Hh'). }
  assert (H2 : h ∉ slots b').
  { intros Hh'. destruct (ss_open _ _ _ _ Hst h Hh') as [_ [Hh2|HN]]; [done|].
    destruct (bi_open W Hi y c h Hc Hh) as [d Hd]. congruence. }
  split; [done|]. by apply (ss_other _ _ _ _ Hst).
Qed.

Lemma inv_reslot W x b p0 p1 D' m :
  inv W → shown W m → bks W !! x = Some b → slots_step (dbs W) D' b (reslot p0 p1 b) →
  inv (with_slots W x (reslot p0 p1 b) D') ∧
  shown (with_slots W x (reslot p0 p1 b) D') (<[bkey b := Some (db_at D' p0, db_at D' p1)]> m).
Proof.
  intros Hi Hm Hb Hst. split.
  2:{ apply (shown_update W (with_slots W x (reslot p0 p1 b) D') m x (reslot p0 p1 b)); [done|done|..].
      - intros c Hc. rewrite Hb in Hc. by injection Hc as <-.
      - intros y c h Hne Hc Hh. by apply (slots_step_other W D' x y b (reslot p0 p1 b) c h). }
  assert (Hcase : ∀ y c, <[x := reslot p0 p1 b]> (bks W) !! y = Some c →
    y = x ∧ c = reslot p0 p1 b ∨ y ≠ x ∧ bks W !! y = Some c).
  { intros y c. destruct (decide (y = x)) as [->|Hne]; [rewrite lookup_insert_eq; naive_solver|].
    rewrite lookup_insert_ne by done. auto. }
  split; simpl.
  - apply tree_inv_reslot; [apply Hi|done].
  - intros y c [[-> ->]|[Hne Hc]]%Hcase; [split; apply Hst|by apply (bi_slots W Hi y)].
  - intros y c h [[-> ->]|[Hne Hc]]%Hcase Hh; [by apply Hst|].
    destruct (slots_step_other W D' x y b (reslot p0 p1 b) c h) as [_ ->]; try done. by eapply (bi_open W Hi).
  - intros y z c c' h [[-> ->]|[Hne Hc]]%Hcase [[-> ->]|[Hne' Hc']]%Hcase Hh Hh'; [done|..].
    + by destruct (slots_step_other W D' x z b (reslot p0 p1 b) c' h) as [? _].
    + by destruct (slots_step_other W D' x y b (reslot p0 p1 b) c h) as [? _].
    + by eapply (bi_apart W Hi).
  - intros h Hh. destruct (decide (h ∈ slots (reslot p0 p1 b))) as [Hin|Hout].
    { exists x, (reslot p0 p1 b). by rewrite lookup_insert_eq. }
    destruct (decide (h ∈ slots b)) as [Hb'|Hb'].
    { rewrite (ss_closed _ _ _ _ Hst h Hb' Hout) in Hh. by destruct Hh. }
    rewrite (ss_other _ _ _ _ Hst h Hb' Hout) in Hh. destruct (bi_owned W Hi h Hh) as (y & c & Hc & Hy).
    exists y, c. rewrite lookup_insert_ne; [done|]. intros ->. congruence.
  - apply (bi_maps W Hi).
  - intros n c p Hn Hp. destruct (bi_nodes W Hi n c p Hn Hp) as [d Hd].
    destruct (decide (p = x)) as [->|Hne]; [by rewrite lookup_insert_eq|by rewrite lookup_insert_ne].
Qed.

(** A bucket with one database is new. *)
Lemma inv_new W W' x b h d m :
  inv W → shown W m → tree_inv W' → bks W !! x = None → bks W' = <[x := b]> (bks W) →
  dbs W !! h = None → dbs W' = <[h := d]> (dbs W) → rms W' = rms W → slots b = [h] →
  inv W' ∧ shown W' (<[bkey b := Some (layer (dbs W') b)]> m).
Proof.
  intros Hi Hm Ht Hx Eb Hh Ed Er Es.
  assert (Hcase : ∀ y c, bks W' !! y = Some c → y = x ∧ c = b ∨ y ≠ x ∧ bks W !! y = Some c).
  { intros y c. rewrite Eb. destruct (decide (y = x)) as [->|Hne]; [rewrite lookup_insert_eq; naive_solver|].
    rewrite lookup_insert_ne by done. auto. }
  assert (Hold : ∀ y c g, bks W !! y = Some c → g ∈ slots c → g ≠ h).
  { intros y c g Hc Hg ->. destruct (bi_open W Hi y c h Hc Hg) as [? ?]. congruence. }
  split.
  2:{ apply (shown_update W W' m x b); [done|done|by rewrite Hx|]. intros y c g _ Hc Hg. rewrite Ed.
      apply lookup_insert_ne. intros <-. by eapply Hold. }
  split; [done|..].
  - intros y c [[-> ->]|[_ Hc]]%Hcase; [rewrite Es; split; [apply NoDup_singleton|done]|by apply (bi_slots W Hi y)].
  - intros y c g [[-> ->]|[_ Hc]]%Hcase Hg; rewrite Ed.
    + rewrite Es in Hg. apply list_elem_of_singleton in Hg as ->. by rewrite lookup_insert_eq.
    + rewrite lookup_insert_ne by (intros <-; by eapply Hold). by eapply (bi_open W Hi).
  - intros y z c c' g [[-> ->]|[Hne Hc]]%Hcase [[-> ->]|[Hne' Hc']]%Hcase Hg Hg'; [done|..].
    + rewrite Es in Hg. apply list_elem_of_singleton in Hg as ->. by destruct (Hold z c' h).
    + rewrite Es in Hg'. apply list_elem_of_singleton in Hg' as ->. by destruct (Hold y c h).
    + by eapply (bi_apart W Hi).
  - intros g. rewrite Ed, Eb. destruct (decide (g = h)) as [->|Hne].
    { intros _. exists x, b. rewrite lookup_insert_eq, Es. split; [done|]. by apply list_elem_of_singleton. }
    rewrite lookup_insert_ne by done. intros (y & c & Hc & Hg)%(bi_owned W Hi). exists y, c.
    split; [|done]. rewrite lookup_insert_ne; [done|]. intros ->. congruence.
  - rewrite Er. apply (bi_maps W Hi).
  - rewrite Er, Eb. intros n c p Hn Hp. destruct (bi_nodes W Hi n c p Hn Hp) as [e He].
    rewrite lookup_insert_ne; [by rewrite He|]. intros ->. congruence.
Qed.

(** Telling the range maps keeps everything. *)
Lemma online_step W x b m :
  inv W → shown W m → bks W !! x = Some b →
  ∃ W', notify_online W x = Ret W' ∧ inv W' ∧ shown W' m.
Proof.
  intros Hi Hm Hb. destruct (ti_bucket W (bi_tree W Hi) x b Hb) as [Hok _].
  destruct (notify_online_ok W x b (bi_maps W Hi) Hb Hok) as (r & -> & HT & Hn).
  exists (with_rms r W). split; [done|]. split; [|done]. apply inv_rms; [done|done|].
  intros n c p Hc Hp. destruct (Hn n c p Hc Hp) as [->|(c0 & Hc0 & Hp0)]; [eauto|]. by eapply (bi_nodes W Hi).
Qed.

Lemma fresh_db W : dbs W !! fresh (dom (dbs W)) = None.
Proof. apply not_elem_of_dom, is_fresh. Qed.

Lemma tree_inv_dbs W D : tree_inv W → tree_inv (with_dbs D W).
Proof. by intros [? ? ?]. Qed.

(** A new database comes in, and perhaps one of the bucket's goes. *)
Lemma slots_swap W x b b' h d g rest :
  inv W → bks W !! x = Some b → dbs W !! h = None →
  slots b' ≡ₚ h :: rest → slots b ≡ₚ rest ++ option_list g →
  slots_step (dbs W)
    (match g with Some g => delete g (<[h := d]> (dbs W)) | None => <[h := d]> (dbs W) end) b b'.
Proof.
  intros Hi Hb Hh Hs' Hs. destruct (bi_slots W Hi x b Hb) as [Hnd _].
  assert (Hop : ∀ y, y ∈ slots b → is_Some (dbs W !! y)) by (intros y; by apply (bi_open W Hi x b y)).
  assert (Hhb : h ∉ slots b) by (intros Hin; destruct (Hop h Hin); congruence).
  rewrite Hs in Hnd. apply NoDup_app in Hnd as (Hr & Hrg & _).
  assert (Hhr : h ∉ rest) by (rewrite Hs in Hhb; set_solver).
  split.
  - rewrite Hs'. by apply NoDup_cons.
  - intros E. rewrite E in Hs'. by apply Permutation_nil_cons in Hs'.
  - intros y Hy. rewrite Hs' in Hy. apply elem_of_cons in Hy as [->|Hy].
    { split; [|by right]. destruct g as [g|]; [|by rewrite lookup_insert_eq].
      rewrite lookup_delete_ne, lookup_insert_eq; [done|]. intros ->. apply Hhb. rewrite Hs. set_solver. }
    assert (Hy' : y ∈ slots b) by (rewrite Hs; set_solver). split; [|by left].
    assert (Hyh : h ≠ y) by congruence.
    destruct g as [g|]; [rewrite lookup_delete_ne by (intros ->; apply (Hrg y Hy); set_solver)|];
      rewrite lookup_insert_ne by done; auto.
  - intros y Hy Hy'. rewrite Hs in Hy. rewrite Hs' in Hy'. destruct g as [g|]; simpl in Hy; [|set_solver].
    apply elem_of_app in Hy as [Hy|Hy]; [set_solver|]. apply list_elem_of_singleton in Hy as ->. apply lookup_delete_eq.
  - intros y Hy Hy'. rewrite Hs' in Hy'. rewrite Hs in Hy. assert (h ≠ y) by set_solver.
    destruct g as [g|]; simpl in Hy; [rewrite lookup_delete_ne by set_solver|]; by apply lookup_insert_ne.
Qed.

(** ** Opening a bucket *)

Definition put_slot (idx : Z) (d : DB) (l : option (option DB * option DB)) : option DB * option DB :=
  let '(d0, d1) := default (None, None) l in if idx =? 0 then (Some d, d1) else (d0, Some d).

Definition slot_of (idx : Z) (l : option (option DB * option DB)) : option DB :=
  let '(d0, d1) := default (None, None) l in if idx =? 0 then d0 else d1.

Lemma shown_at W m x b :
  all_near → inv W → shown W m → bks W !! x = Some b → m (bkey b) = Some (layer (dbs W) b).
Proof.
  intros Hnear Hi Hm Hb. specialize (Hm (bkey b)). destruct (ti_bucket W (bi_tree W Hi) x b Hb) as [Hok HN].
  destruct (find_key Hnear W b (bi_tree W Hi) (bo_fits b Hok) HN) as (p & _ & Hp).
  assert (Hx : p = Some x) by (apply Hp, key_at_Some; eauto).
  destruct (m (bkey b)) as [l|].
  - destruct Hm as (y & c & Hc & Hk & <-). assert (Hy : p = Some y) by (apply Hp, key_at_Some; eauto).
    rewrite Hx in Hy. injection Hy as <-. rewrite Hb in Hc. by injection Hc as <-.
  - exfalso. apply (Hm x), key_at_Some. eauto.
Qed.

Lemma shown_free W m k : shown W m → (∀ y, key_at W y ≠ Some k) → m k = None.
Proof.
  intros Hm Hn. specialize (Hm k). destruct (m k); [|done].
  destruct Hm as (y & c & Hc & Hk & _). exfalso. apply (Hn y), key_at_Some. eauto.
Qed.

Lemma db_at_handle W x b h :
  inv W → bks W !! x = Some b → h ∈ slots b → ∃ d, dbs W !! h = Some d ∧ h ≠ fresh (dom (dbs W)).
Proof.
  intros Hi Hb Hh. destruct (bi_open W Hi x b h Hb Hh) as [d Hd]. exists d. split; [done|].
  intros ->. by rewrite fresh_db in Hd.
Qed.

Lemma open_existing W m x b idx h d :
  all_near → inv W → shown W m → bks W !! x = Some b → idx = 0 ∨ idx = 1 →
  kcdb b idx = Ret None → h = fresh (dom (dbs W)) →
  ∃ W', bput (with_dbs (<[h := d]> (dbs W)) W) x (set_kcdb idx (Some h)) = Ret W' ∧ inv W' ∧
    shown W' (<[bkey b := Some (put_slot idx d (m (bkey b)))]> m).
Proof.
  intros Hnear Hi Hm Hb Hidx Hk ->. rewrite (shown_at W m x b) by done.
  rewrite (bput_ok _ x b) by done. eexists. split; [done|].
  set (h := fresh (dom (dbs W))). set (D' := <[h := d]> (dbs W)).
  set (p0 := if idx =? 0 then Some h else kcdb0 b). set (p1 := if idx =? 0 then kcdb1 b else Some h).
  assert (Hst : slots_step (dbs W) D' b (reslot p0 p1 b)).
  { apply (slots_swap W x b (reslot p0 p1 b) h d None (slots b)); [done|done|apply fresh_db| |by rewrite app_nil_r].
    unfold slots, reslot, p0, p1. unfold kcdb in Hk.
    destruct Hidx as [-> | ->]; simpl in *; injection Hk as ->; simpl; [done|].
    by rewrite app_nil_r, Permutation_app_comm. }
  destruct (inv_reslot W x b p0 p1 D' m Hi Hm Hb Hst) as [Hi' Hm'].
  assert (Hot : ∀ p, (p = kcdb0 b ∨ p = kcdb1 b) → db_at D' p = db_at (dbs W) p).
  { intros [g|] Hg; [|done]. unfold db_at, D'. simpl. apply lookup_insert_ne.
    destruct (db_at_handle W x b g Hi Hb) as (? & ? & ?); [|done]. unfold slots. destruct Hg as [<-|<-]; set_solver. }
  assert (Hh : db_at D' (Some h) = Some d) by (unfold db_at, D'; simpl; by rewrite lookup_insert_eq).
  unfold p0, p1 in Hi', Hm'. unfold put_slot, layer. cbn [default].
  destruct Hidx as [-> | ->]; cbn [Z.eqb] in *; (split; [exact Hi'|]).
  - rewrite Hh, Hot in Hm' by tauto. exact Hm'.
  - rewrite Hh, Hot in Hm' by tauto. exact Hm'.
Qed.

(** A new bucket with one database, told to the range maps. *)
Lemma open_new W m b idx h d :
  all_near → inv W → shown W m → bucket_ok b → N (bkey b) → (∀ y, key_at W y ≠ Some (bkey b)) →
  idx = 0 ∨ idx = 1 → kcdb0 b = None → kcdb1 b = None → h = fresh (dom (dbs W)) →
  ∃ x W1, add_bucket (with_dbs (<[h := d]> (dbs W)) W) (set_kcdb idx (Some h) b) = Ret (None, x, W1) ∧
    is_Some (bks W1 !! x) ∧ inv W1 ∧ shown W1 (<[bkey b := Some (put_slot idx d (m (bkey b)))]> m).
Proof.
  intros Hnear Hi Hm Hok HN Hno Hidx H0 H1 ->. set (h := fresh (dom (dbs W))).
  set (b' := set_kcdb idx (Some h) b). set (Wd := with_dbs (<[h := d]> (dbs W)) W).
  assert (Hk : bkey b' = bkey b) by (unfold b', set_kcdb; by case_match).
  assert (Hok' : bucket_ok b').
  { destruct Hok as [[? ? ? ?] ? ?]. unfold b', set_kcdb. by destruct Hidx as [-> | ->]; split. }
  assert (Es : slots b' = [h]).
  { unfold b', slots, set_kcdb. destruct Hidx as [-> | ->]; simpl; rewrite ?H0, ?H1; done. }
  destruct (add_bucket_ok Hnear Wd b') as [(y & W' & Hy & _)|(_ & W' & E & Ht & Eb & Ed & Er)].
  { apply tree_inv_dbs, Hi. } { done. } { by rewrite Hk. }
  { exfalso. apply (Hno y). by rewrite <- Hk. }
  exists (fresh (dom (bks Wd))), W'. split; [done|]. rewrite Eb, lookup_insert_eq. split; [eauto|].
  destruct (inv_new W W' (fresh (dom (bks W))) b' h d m) as [Hi' Hm']; try done.
  { apply not_elem_of_dom, is_fresh. } { apply fresh_db. }
  split; [done|]. rewrite Hk in Hm'. rewrite (shown_free W m (bkey b)) by done.
  replace (put_slot idx d None) with (layer (dbs W') b'); [done|].
  unfold layer, b', put_slot, set_kcdb, db_at. rewrite Ed. simpl.
  destruct Hidx as [-> | ->]; simpl; rewrite ?H0, ?H1; simpl; by rewrite lookup_insert_eq.
Qed.

(** Opening fills the slot of the bucket, when it was free and the database can be opened. *)
Lemma open_disk_bucket_ok W m b idx opened :
  all_near → inv W → shown W m → bucket_ok b → N (bkey b) → idx = 0 ∨ idx = 1 →
  kcdb0 b = None → kcdb1 b = None →
  ∃ e W', bee_open_disk_bucket opened W b idx = Ret (e, W') ∧ inv W' ∧
    match opened with
    | Some d => if decide (slot_of idx (m (bkey b)) = None)
                then e = None ∧ shown W' (<[bkey b := Some (put_slot idx d (m (bkey b)))]> m)
                else e ≠ None ∧ W' = W
    | None => e ≠ None ∧ W' = W
    end.
Proof.
  intros Hnear Hi Hm Hok HN Hidx H0 H1. unfold bee_open_disk_bucket.
  destruct (find_key Hnear W b (bi_tree W Hi) (bo_fits b Hok) HN) as (p & -> & Hp). cbn [mbind cres_bind].
  destruct p as [x|].
  - destruct (proj1 (key_at_Some W x (bkey b)) (proj1 (Hp x) eq_refl)) as (c & Hc & Hk).
    rewrite (bget_ok _ _ _ Hc). cbn [mbind cres_bind].
    assert (Hkc : ∃ q, kcdb c idx = Ret q ∧ slot_of idx (m (bkey b)) = db_at (dbs W) q ∧
      ∀ h, q = Some h → h ∈ slots c).
    { rewrite <- Hk, (shown_at W m x c) by done. unfold kcdb, slot_of, layer, slots. cbn [default].
      destruct Hidx as [-> | ->]; simpl; eexists; (split; [done|]); (split; [done|]); intros h ->; set_solver. }
    destruct Hkc as (q & Eq & Hslot & Hq). rewrite Eq, Hslot. cbn [mbind cres_bind]. destruct q as [h|].
    + destruct (db_at_handle W x c h Hi Hc) as (d0 & Hd0 & _); [by apply Hq|].
      eexists _, W. split; [done|]. split; [done|]. destruct opened; [|done]. unfold db_at. simpl. rewrite Hd0. done.
    + simpl. destruct opened as [d|]; [|by eexists _, W]. cbv zeta. unfold new_db.
      destruct (open_existing W m x c idx _ d Hnear Hi Hm Hc Hidx Eq eq_refl) as (W' & -> & Hi' & Hm').
      eexists None, W'. rewrite Hk in Hm'. split; [done|]. split; [done|]. done.
  - cbn [mbind cres_bind]. assert (Hno : ∀ y, key_at W y ≠ Some (bkey b)) by (intros y Hy; by apply Hp in Hy).
    destruct opened as [d|]; [|by eexists _, W]. unfold new_db.
    destruct (open_new W m b idx _ d Hnear Hi Hm Hok HN Hno Hidx H0 H1 eq_refl) as (x & W1 & -> & [c Hc] & Hi1 & Hm1).
    cbn [mbind cres_bind]. destruct (online_step W1 x c _ Hi1 Hm1 Hc) as (W' & -> & Hi' & Hm').
    eexists None, W'. split; [done|]. split; [done|]. rewrite (shown_free W m (bkey b)) in * by done. rewrite decide_True; [done|]. by destruct Hidx as [-> | ->].
Qed.

(** ** Shifting a database in *)

(** The new database in front; with two the one at the back goes. *)
Definition shift_layer (d : DB) (l : option (option DB * option DB)) : option DB * option DB :=
  match l with
  | Some (Some d0, None) => (Some d0, Some d)
  | Some (Some d0, Some d1) => (Some d1, Some d)
  | Some (None, d1) => (Some d, d1)
  | None => (Some d, None)
  end.

Lemma shift_in_existing W m x b h d :
  all_near → inv W → shown W m → bks W !! x = Some b → h = fresh (dom (dbs W)) →
  ∃ W', shift_in (with_dbs (<[h := d]> (dbs W)) W) x h = Ret W' ∧ inv W' ∧
    shown W' (<[bkey b := Some (shift_layer d (m (bkey b)))]> m).
Proof.
  intros Hnear Hi Hm Hb ->. rewrite (shown_at W m x b) by done. unfold shift_in.
  set (h := fresh (dom (dbs W))). set (D' := <[h := d]> (dbs W)).
  rewrite (bget_ok _ x b) by done. cbn [mbind cres_bind].
  assert (Hslot : ∀ g, g ∈ slots b → ∃ e, dbs W !! g = Some e ∧ g ≠ h).
  { intros g Hg. by apply (db_at_handle W x b g). }
  assert (Hh : D' !! h = Some d) by (unfold D'; by rewrite lookup_insert_eq).
  assert (Hg' : ∀ g, g ≠ h → D' !! g = dbs W !! g) by (intros g Hg; unfold D'; by apply lookup_insert_ne).
  assert (Hfin : ∀ p0 p1 rest g, slots (reslot p0 p1 b) ≡ₚ h :: rest → slots b ≡ₚ rest ++ option_list g →
    let D := match g with Some g => delete g D' | None => D' end in
    inv (with_slots W x (reslot p0 p1 b) D) ∧
    shown (with_slots W x (reslot p0 p1 b) D) (<[bkey b := Some (db_at D p0, db_at D p1)]> m)).
  { intros p0 p1 rest g E1 E2. apply inv_reslot; [done|done|done|].
    eapply slots_swap; [done|exact Hb|apply fresh_db|exact E1|exact E2]. }
  unfold slots in Hslot, Hfin. unfold layer. destruct (bi_slots W Hi x b Hb) as [Hnd _]. unfold slots in Hnd.
  destruct (kcdb0 b) as [h0|] eqn:E0, (kcdb1 b) as [h1|] eqn:E1; simpl in Hslot, Hnd; cbn [db_at mbind option_bind].
  - destruct (Hslot h0) as (d0 & Hd0 & Hn0); [set_solver|]. destruct (Hslot h1) as (d1 & Hd1 & Hn1); [set_solver|].
    assert (h0 ≠ h1) by (apply NoDup_cons in Hnd as [Hn _]; set_solver).
    unfold bee_close_kcdb. cbn [dbs with_dbs]. rewrite Hg', Hd0 by done. cbn [mbind cres_bind].
    rewrite (bput_ok _ x b) by done. eexists. split; [done|].
    destruct (Hfin (Some h1) (Some h) [h1] (Some h0)) as [Hi' Hm']; [apply Permutation_swap|apply Permutation_swap|].
    split; [exact Hi'|]. unfold db_at in Hm'. cbn [mbind option_bind] in Hm'.
    rewrite !lookup_delete_ne in Hm' by done. rewrite Hh, Hg', Hd1 in Hm' by done. rewrite Hd1. exact Hm'.
  - destruct (Hslot h0) as (d0 & Hd0 & Hn0); [set_solver|].
    rewrite (bput_ok _ x b) by done. eexists. split; [done|].
    destruct (Hfin (Some h0) (Some h) [h0] None) as [Hi' Hm']; [apply Permutation_swap|done|].
    unfold reslot in Hi', Hm'. simpl in Hm'. rewrite Hh, Hg', Hd0 in Hm' by done. rewrite Hd0.
    replace (set_kcdb1 (Some h) b) with (set_kcdb0 (Some h0) (set_kcdb1 (Some h) b)); [by split|].
    rewrite <- E0. by destruct b.
  - destruct (Hslot h1) as (d1 & Hd1 & Hn1); [set_solver|].
    rewrite (bput_ok _ x b) by done. cbn [mbind cres_bind].
    destruct (Hfin (Some h) (Some h1) [h1] None) as [Hi' Hm']; [done|done|].
    simpl in Hm'. rewrite Hh, Hg', Hd1 in Hm' by done. rewrite Hd1.
    assert (Er : reslot (Some h) (Some h1) b = set_kcdb0 (Some h) b) by (rewrite <- E1; by destruct b).
    rewrite Er in *. cbv zeta in Hi'. destruct (online_step _ x (set_kcdb0 (Some h) b) _ Hi' Hm') as (W' & E & HW).
    { simpl. by rewrite lookup_insert_eq. }
    exists W'. split; [exact E|]. exact HW.
  - destruct (bi_slots W Hi x b Hb) as [_ Hs]. unfold slots in Hs. by rewrite E0, E1 in Hs.
Qed.

(** ** [bee_shift_mem_bucket] *)

Lemma mem_bucket_ok nm t1 s h t2 :
  valid_name nm → hash_arg s h → Z.of_nat (length h) < 2^31 →
  ∃ b, mem_bucket (nm ++ t1) (Z.of_nat (length nm)) (s ++ t2) (Z.of_nat (length s)) (Z.of_nat (length h)) = Ret b ∧
    bucket_ok b ∧ bkey b = (0, (0, (h, nm))) ∧ kcdb0 b = None ∧ kcdb1 b = None.
Proof.
  intros Hn Ha Hh. pose proof Ha as (e & Es & _ & Hbh). unfold mem_bucket.
  replace (Z.of_nat (length nm) + 1 + Z.of_nat (length s) + 3)
    with (Z.of_nat (length (nm ++ [46] ++ s ++ [46; 37; 0]))) by (rewrite !length_app; simpl; lia).
  rewrite Nat2Z.id. set (z := replicate _ 0).
  assert (Hz : length z = (length nm + 1 + length s + 3)%nat).
  { unfold z. rewrite length_replicate, !length_app. simpl. lia. }
  pose proof (c_memcpy_ow [] z nm t1) as E. change (Z.of_nat (length [])) with 0 in E. rewrite ow_nil in E.
  rewrite E by (simpl; lia). clear E. cbn [mbind cres_bind app].
  rewrite ow_wr by lia. cbn [mbind cres_bind].
  replace (Z.of_nat (length nm) + 1) with (Z.of_nat (length (nm ++ [46]))) by (rewrite length_app; simpl; lia).
  rewrite c_memcpy_ow by (rewrite length_app; simpl; lia). cbn [mbind cres_bind].
  rewrite <- Nat2Z.inj_add, <- length_app.
  pose proof (c_memcpy_ow ((nm ++ [46]) ++ s) z [46; 37; 0] []) as E. rewrite app_nil_r in E.
  change (Z.of_nat (length [46; 37; 0])) with 3 in E. rewrite E by (rewrite !length_app; simpl; lia). clear E.
  cbn [mbind cres_bind].
  assert (Eb : ow (((nm ++ [46]) ++ s) ++ [46; 37; 0]) z = nm ++ 46 :: h ++ e :: [46; 37; 0]).
  { unfold ow. rewrite drop_ge by (rewrite !length_app; simpl; lia). rewrite Es, app_nil_r, <- !app_assoc. done. }
  rewrite Eb.
  assert (Eo : at_off (nm ++ 46 :: h ++ [e; 46; 37; 0]) (Z.of_nat (length (nm ++ [46]))) = Ret (h ++ [e; 46; 37; 0])).
  { change (46 :: h ++ [e; 46; 37; 0]) with ([46] ++ h ++ [e; 46; 37; 0]). rewrite app_assoc. by apply at_off_app. }
  rewrite Eo. cbn [mbind cres_bind].
  rewrite (search_id_ok nm _ h _ 0 0). cbn [mbind cres_bind]. eexists. split; [done|].
  destruct (new_bucket_fits nm (46 :: h ++ [e; 46; 37; 0]) h [e; 46; 37; 0] 0 0 None None) as [Hf Hk].
  { destruct Hn. lia. } { done. }
  split; [|done]. split; [done|..]; unfold bkey in Hk; injection Hk; [intros -> _|intros _ ->]; done.
Qed.

Lemma shift_mem_bucket_ok W m nm t1 s t2 (mem_ok new_ok open_ok : bool) :
  all_near → inv W → shown W m → Forall is_byte s → Z.of_nat (length s) < 2^31 →
  (∀ h, hash_arg s h → N (0, (0, (h, nm)))) →
  let r := bee_shift_mem_bucket mem_ok new_ok open_ok W (nm ++ t1) (Z.of_nat (length nm))
             (s ++ t2) (Z.of_nat (length s)) in
  (∃ h W', valid_name nm ∧ hash_arg s h ∧ mem_ok && new_ok && open_ok = true ∧ r = Ret (None, W') ∧ inv W' ∧
     shown W' (<[(0, (0, (h, nm))) := Some (shift_layer kc_empty (m (0, (0, (h, nm)))))]> m)) ∨
  (∃ e, r = Ret (Some e, W) ∧
     ¬ (valid_name nm ∧ (∃ h, hash_arg s h) ∧ mem_ok && new_ok && open_ok = true)).
Proof.
  intros Hnear Hi Hm Hs Hsl HN. unfold bee_shift_mem_bucket. cbv zeta.
  destruct (name_check2_ok nm t1) as ([e|] & -> & Hn); cbn [mbind cres_bind].
  { right. exists e. split; [done|]. intros [Hv _]. by apply Hn in Hv. }
  destruct (config_hash_ok s t2 "invalid hash string (mem bucket)" "invalid hash string format (mem bucket)" Hs)
    as [(h & Ha & ->)|(Ha & e & ->)]; cbn [mbind cres_bind].
  2:{ right. exists e. split; [done|]. intros (_ & (h & Hh) & _). by apply (Ha h). }
  assert (Hv : valid_name nm) by (by apply Hn).
  destruct mem_ok; simpl negb; cbn iota; [|by right; eexists; split; [|intros (_ & _ & ?)]].
  destruct (mem_bucket_ok nm t1 s h t2 Hv Ha) as (b & -> & Hok & Hk & H0 & H1).
  { rewrite (hash_arg_length s h Ha) in Hsl. lia. }
  cbn [mbind cres_bind].
  destruct new_ok; simpl negb; cbn iota; [|by right; eexists; split; [|intros (_ & _ & ?)]].
  destruct open_ok; simpl negb; cbn iota; [|by right; eexists; split; [|intros (_ & _ & ?)]].
  unfold new_db. left. exists h.
  set (d := kc_empty). set (g := fresh (dom (dbs W))). set (Wd := with_dbs (<[g := d]> (dbs W)) W).
  destruct (add_bucket_ok Hnear Wd b) as [(y & W' & Hy & -> & Hfr)|(Hno & W' & E & Ht & Eb & Ed & Er)].
  { apply tree_inv_dbs, Hi. } { done. } { rewrite Hk. by apply HN. }
  - cbn [mbind cres_bind]. rewrite Hfr.
    destruct (proj1 (key_at_Some W y (bkey b)) Hy) as (c & Hc & Hkc).
    destruct (shift_in_existing W m y c g d Hnear Hi Hm Hc eq_refl) as (W2 & Esh & Hi2 & Hm2). fold Wd in Esh. rewrite Esh.
    exists W2. rewrite Hkc, Hk in Hm2. by split_and!.
  - rewrite E. cbn [mbind cres_bind]. set (x := fresh (dom (bks Wd))) in *.
    assert (Hx : bks W' !! x = Some b) by (rewrite Eb; by rewrite lookup_insert_eq).
    unfold shift_in. rewrite (bget_ok _ _ _ Hx). cbn [mbind cres_bind]. rewrite H0.
    rewrite (bput_ok _ _ _ _ Hx). cbn [mbind cres_bind].
    set (b' := set_kcdb0 (Some g) b). set (W2 := with_bks _ W').
    assert (Hr : b' = reslot (Some g) None b) by (unfold b', reslot; rewrite <- H1; by destruct b).
    assert (Ht2 : tree_inv W2).
    { pose proof (tree_inv_reslot W' x b (Some g) None (dbs W') Ht Hx) as H2. rewrite <- Hr in H2. exact H2. }
    assert (Hk' : bkey b' = (0, (0, (h, nm)))) by done.
    destruct (inv_new W W2 x b' g d m) as [Hi2 Hm2]; try done.
    { apply not_elem_of_dom, is_fresh. }
    { unfold W2. simpl. rewrite Eb. by rewrite insert_insert_eq. }
    { apply fresh_db. }
    { unfold slots, b'. simpl. by rewrite H1. }
    destruct (online_step W2 x b' _ Hi2 Hm2) as (W3 & -> & Hi3 & Hm3); [unfold W2; simpl; by rewrite lookup_insert_eq|].
    exists W3. split_and!; try done. rewrite Hk' in Hm3.
    rewrite (shown_free W m); [|done|intros y; rewrite <- Hk; apply Hno].
    replace (shift_layer d None) with (layer (dbs W2) b'); [done|].
    unfold layer, b', W2, db_at. simpl. rewrite H1, Ed. simpl. by rewrite lookup_insert_eq.
Qed.

(** ** Values *)

(** What a bucket says of a key: the front map before the one at the back, and nothing when
    there is none at the back. *)
Definition read (l : option DB * option DB) (key : list Z) : option (list Z) :=
  match l with
  | (None, _) => None
  | (Some d0, None) => kc_get d0 key
  | (Some d0, Some d1) => match kc_get d1 key with Some v => Some v | None => kc_get d0 key end
  end.

(** A change of the front map, or of the only one. *)
Definition change (f : DB → option DB) (l : option DB * option DB) : option (option DB * option DB) :=
  match l.2 with
  | Some d1 => (fun d => (l.1, Some d)) <$> f d1
  | None => d0 ← l.1; (fun d => (Some d, None)) <$> f d0
  end.

Lemma bucket_value_ok W x b key :
  inv W → bks W !! x = Some b → bucket_value W x key = Ret (read (layer (dbs W) b) key).
Proof.
  intros Hi Hb. unfold bucket_value. rewrite (bget_ok _ _ _ Hb). cbn [mbind cres_bind].
  assert (Hop : ∀ h, h ∈ slots b → is_Some (dbs W !! h)) by (intros h; by apply (bi_open W Hi x b h)).
  unfold slots in Hop. unfold layer, db_at, read, kcdbget.
  destruct (kcdb0 b) as [h0|], (kcdb1 b) as [h1|]; cbn [mbind option_bind]; try done.
  - destruct (Hop h0) as [d0 ->]; [set_solver|]. destruct (Hop h1) as [d1 ->]; [set_solver|].
    cbn [mbind cres_bind]. by destruct (kc_get d1 key).
  - destruct (Hop h0) as [d0 ->]; [set_solver|]. done.
Qed.

Lemma reslot_same b : reslot (kcdb0 b) (kcdb1 b) b = b.
Proof. by destruct b. Qed.

(** A database of a bucket gets other contents. *)
Lemma content_step W x b h d m :
  inv W → shown W m → bks W !! x = Some b → h ∈ slots b →
  inv (with_dbs (<[h := d]> (dbs W)) W) ∧
  shown (with_dbs (<[h := d]> (dbs W)) W) (<[bkey b := Some (layer (<[h := d]> (dbs W)) b)]> m).
Proof.
  intros Hi Hm Hb Hh. destruct (bi_slots W Hi x b Hb) as [Hnd Hne].
  assert (Hst : slots_step (dbs W) (<[h := d]> (dbs W)) b (reslot (kcdb0 b) (kcdb1 b) b)).
  { rewrite reslot_same. split; [done|done|..].
    - intros g Hg. split; [|by left]. destruct (decide (g = h)) as [->|Hgh]; [by rewrite lookup_insert_eq|].
      rewrite lookup_insert_ne by done. by apply (bi_open W Hi x b g).
    - done.
    - intros g Hg _. apply lookup_insert_ne. congruence. }
  destruct (inv_reslot W x b (kcdb0 b) (kcdb1 b) _ m Hi Hm Hb Hst) as [Hi' Hm']. rewrite reslot_same in Hi', Hm'.
  assert (Ew : ∀ D, with_slots W x b D = with_dbs D W).
  { intros D. unfold with_slots. rewrite insert_id by done. by destruct W. }
  rewrite Ew in Hi', Hm'. done.
Qed.

Lemma kcdb_update_ok W x b m (f : DB → option DB) h :
  inv W → shown W m → bks W !! x = Some b →
  (kcdb1 b = Some h ∨ kcdb1 b = None ∧ kcdb0 b = Some h) →
  ∃ r W', kcdb_update W h f = Ret (r, W') ∧ inv W' ∧ bks W' = bks W ∧
    match change f (layer (dbs W) b) with
    | Some l => r = 0 ∧ layer (dbs W') b = l ∧ shown W' (<[bkey b := Some l]> m)
    | None => r = ESQ_ERROR_LIBCALL ∧ W' = W
    end.
Proof.
  intros Hi Hm Hb Hh.
  assert (Hin : h ∈ slots b). { unfold slots. destruct Hh as [->|[-> ->]]; set_solver. }
  destruct (bi_open W Hi x b h Hb Hin) as [d Hd]. unfold kcdb_update. rewrite Hd.
  destruct (bi_slots W Hi x b Hb) as [Hnd _].
  assert (Hc : change f (layer (dbs W) b) = (fun d' => layer (<[h := d']> (dbs W)) b) <$> f d).
  { unfold layer, db_at, slots in *. destruct Hh as [E|[E E']]; rewrite E, ?E' in *; cbn [mbind option_bind] in *.
    - rewrite Hd. destruct (kcdb0 b) as [h0|]; cbn [mbind option_bind change fst snd]; apply option_fmap_ext; intros d'.
      + rewrite lookup_insert_eq, lookup_insert_ne; [done|]. intros <-. simpl in Hnd.
        apply NoDup_cons in Hnd as [Hn _]. set_solver.
      + by rewrite lookup_insert_eq.
    - rewrite Hd. cbn [change fst snd mbind option_bind]. apply option_fmap_ext. intros d'. by rewrite lookup_insert_eq. }
  rewrite Hc. destruct (f d) as [d'|]; cbn [fmap option_fmap option_map].
  - destruct (content_step W x b h d' m Hi Hm Hb Hin) as [Hi' Hm']. eexists _, _. by split_and!.
  - eexists _, W. by split_and!.
Qed.

(** ** Closing everything *)

(** The tree [l], its buckets and their databases. *)
Record stock W (l : list loc) : Prop := {
  st_tree : holds (btree W) l;
  st_dom x : x ∈ l ↔ is_Some (bks W !! x);
  st_slots x b : bks W !! x = Some b → NoDup (slots b);
  st_open x b h : bks W !! x = Some b → h ∈ slots b → is_Some (dbs W !! h);
  st_apart x y b c h : bks W !! x = Some b → bks W !! y = Some c → h ∈ slots b → h ∈ slots c → x = y;
  st_owned h : is_Some (dbs W !! h) → ∃ x b, bks W !! x = Some b ∧ h ∈ slots b
}.

Lemma inv_stock W : inv W → ∃ l, stock W l.
Proof.
  intros [[(l & Hh & _ & Hl) _ _] Hs Ho Ha Hw _ _]. exists l. split; try done. intros x b Hb. by apply (Hs x b).
Qed.

Lemma close_slots_ok W (p0 p1 : ptr) :
  (∀ h, h ∈ option_list p0 ++ option_list p1 → is_Some (dbs W !! h)) → NoDup (option_list p0 ++ option_list p1) →
  (W ← close_slot W p0; close_slot W p1)
  = Ret (with_dbs (foldr delete (dbs W) (reverse (option_list p0 ++ option_list p1))) W).
Proof.
  intros Hop Hnd. unfold close_slot, bee_close_kcdb.
  destruct p0 as [h0|], p1 as [h1|]; simpl in *.
  - destruct (Hop h0) as [d0 E0]; [set_solver|]. destruct (Hop h1) as [d1 E1]; [set_solver|].
    rewrite E0. cbn [mbind cres_bind dbs with_dbs]. rewrite lookup_delete_ne, E1; [done|].
    apply NoDup_cons in Hnd as [Hn _]. set_solver.
  - destruct (Hop h0) as [d0 E0]; [set_solver|]. by rewrite E0.
  - destruct (Hop h1) as [d1 E1]; [set_solver|]. by rewrite E1.
  - by destruct W.
Qed.

Lemma foldr_delete_lookup (D : gmap loc DB) l h :
  foldr delete D l !! h = if decide (h ∈ l) then None else D !! h.
Proof.
  case_decide as Hh; [by apply lookup_foldr_delete|by apply lookup_foldr_delete_not_elem_of].
Qed.

Lemma stock_drop W x b l T :
  stock W (x :: l) → bks W !! x = Some b → RB_REMOVE (btree W) x = Ret T → holds T l →
  stock (bfree x (with_btree T (with_dbs (foldr delete (dbs W) (reverse (slots b))) W))) l.
Proof.
  intros [Hh Hd Hs Ho Ha Hw] Hb _ HT. apply holds_NoDup in Hh as Hnd. apply NoDup_cons in Hnd as [Hxl _].
  assert (Hold : ∀ y c, delete x (bks W) !! y = Some c → y ≠ x ∧ bks W !! y = Some c).
  { intros y c Hy. apply lookup_delete_Some in Hy as [Hne Hy]. split; [congruence|done]. }
  split; simpl.
  - apply (rb_holds_frame T); [|done|done]. intros y Hy. simpl. rewrite lookup_delete_ne; [done|]. by intros <-.
  - intros y. destruct (decide (y = x)) as [->|Hne].
    + rewrite lookup_delete_eq. split; [done|by intros []].
    + rewrite lookup_delete_ne, <- Hd by done. set_solver.
  - intros y c [_ Hc]%Hold. by eapply Hs.
  - intros y c h [Hne Hc]%Hold Hh'. rewrite foldr_delete_lookup, decide_False; [by eapply Ho|].
    rewrite elem_of_reverse. intros Hin. apply Hne. by eapply Ha.
  - intros y z c c' h [_ Hc]%Hold [_ Hc']%Hold. by eapply Ha.
  - intros h. rewrite foldr_delete_lookup. case_decide as Hin; [by intros []|]. intros (y & c & Hc & Hh')%Hw.
    exists y, c. split; [|done]. rewrite lookup_delete_ne; [done|]. intros ->. apply Hin, elem_of_reverse.
    congruence.
Qed.

Lemma close_all_loop_ok l W fuel :
  stock W l → (length l <= fuel)%nat →
  ∃ W', close_all_loop fuel W = Ret W' ∧ bks W' = ∅ ∧ dbs W' = ∅ ∧ esq_bucket_rb W' = None ∧ rms W' = rms W.
Proof.
  revert W fuel. induction l as [|x l IH]; intros W fuel Hst Hf; pose proof Hst as [Hh Hd Hs Ho Ha Hw].
  - pose proof (RB_MINMAX_ok (btree W) RIGHT [] Hh) as E. cbn [flip along head] in E.
    exists W. split; [destruct fuel; simpl; by rewrite E|].
    assert (Eb : bks W = ∅). { apply map_empty. intros y. apply eq_None_not_Some. rewrite <- Hd. set_solver. }
    split_and!; try done.
    + apply map_empty. intros h. apply eq_None_not_Some. intros (y & c & Hc & _)%Hw. by rewrite Eb in Hc.
    + destruct Hh as (t & [Hr Ht _] & _ & Hi). destruct t as [|c t1 y t2]; [done|]. by apply app_eq_nil in Hi as [_ ?].
  - destruct fuel as [|fuel]; [simpl in Hf; lia|]. simpl in Hf.
    pose proof (RB_MINMAX_ok (btree W) RIGHT (x :: l) Hh) as E. cbn [flip along head] in E.
    destruct (proj1 (Hd x)) as [b Hb]; [set_solver|].
    cbn [close_all_loop]. rewrite E. cbn [mbind cres_bind]. rewrite (bget_ok _ _ _ Hb). cbn [mbind cres_bind].
    pose proof (close_slots_ok W (kcdb0 b) (kcdb1 b)) as Ec. fold (slots b) in Ec.
    destruct (close_slot W (kcdb0 b)) as [W1| | |] eqn:E1; cbn [mbind cres_bind] in Ec;
      try (exfalso; discriminate Ec; [by intros h; apply (Ho x b)|by apply (Hs x b)]).
    cbn [mbind cres_bind]. rewrite Ec; [|by intros h; apply (Ho x b)|by apply (Hs x b)]. cbn [mbind cres_bind].
    destruct (RB_REMOVE_ok (btree W) [] x l Hh) as (T & ET & HT & _).
    change (btree (with_dbs _ W)) with (btree W). rewrite ET. cbn [mbind cres_bind].
    destruct (IH _ fuel (stock_drop W x b l T Hst Hb ET HT)) as (W' & -> & H1 & H2 & H3 & H4); [lia|]. exists W'. by split_and!.
Qed.

(** ** Searches by any key *)

Lemma find_any W nm tn h th a p :
  inv W → Z.of_nat (length nm) < 2^31 → Z.of_nat (length h) < 2^31 →
  ∃ m, esq_bee_find_bucket W (nm ++ tn) (Z.of_nat (length nm)) (h ++ th) (Z.of_nat (length h)) a p = Ret m ∧
    ∀ x, m = Some x → ∃ b, bks W !! x = Some b ∧ length h = length (bhash b).
Proof.
  intros Hi Hn Hh. unfold esq_bee_find_bucket, key_bucket. rewrite (search_id_ok nm tn h th a p). cbn [mbind cres_bind].
  destruct (new_bucket_fits nm tn h th a p None None Hn Hh) as [Hf Hk]. cbv zeta in Hf, Hk.
  destruct (ti_tree W (bi_tree W Hi)) as (l & Hho & _ & Hl).
  set (q := BeeBucket _ _ _ _ _ _ _ _ _) in *.
  assert (Hcmp : ∀ x b, bks W !! x = Some b →
    ∃ z, bkt_cmp W q x = Ret z ∧ (z = 0 → length h = length (bhash b))).
  { intros x b Hb. unfold bkt_cmp. rewrite (bget_ok _ _ _ Hb). cbn [mbind cres_bind].
    destruct (ti_bucket W (bi_tree W Hi) x b Hb) as [[Hfb _ _] _].
    destruct (bucket_cmp_total q b Hf Hfb) as (z & Ez & Hz). exists z. split; [done|]. intros E0.
    rewrite <- (Hz E0). unfold bkey in Hk. injection Hk as Ehh _. by rewrite Ehh. }
  destruct (RB_FIND_sound (btree W) (bkt_cmp W q) l Hho) as (m & Em & Hm).
  { intros x Hx. apply Hl in Hx as [b Hb]. destruct (Hcmp x b Hb) as (z & Ez & _). eauto. }
  exists m. split; [done|]. intros x Ex. destruct (Hm x Ex) as [Hx E0]. apply Hl in Hx as [b Hb].
  exists b. split; [done|]. destruct (Hcmp x b Hb) as (z & Ez & Hz). apply Hz. congruence.
Qed.

Lemma set_offline_ok W jip jport nm t1 s h t2 idx :
  inv W → Forall is_byte s → hash_arg s h → Z.of_nat (length nm) < 2^31 → Z.of_nat (length s) < 2^31 →
  ∃ e, bee_bucket_set_offline W jip jport (nm ++ t1) (Z.of_nat (length nm)) (s ++ t2) (Z.of_nat (length s)) idx
       = Ret (Some e, W) ∧
    (valid_name nm → idx = 0 ∨ idx = 1 → e = "no such range map item"%string).
Proof.
  intros Hi Hs Ha Hnl Hsl. unfold bee_bucket_set_offline.
  destruct (name_check2_ok nm t1) as ([e|] & -> & Hn); cbn [mbind cres_bind].
  { eexists. split; [by rewrite decide_True|]. intros Hv. by apply Hn in Hv. }
  rewrite decide_False by tauto. rewrite (hash_arg_get s h) by done. cbn [mbind cres_bind].
  destruct (Z.eqb_spec (Z.of_nat (length s)) (-1)); [lia|].
  destruct (negb (idx =? 0) && negb (idx =? 1)) eqn:Eidx.
  { eexists. split; [done|]. intros _ [-> | ->]; done. }
  destruct (find_any W nm t1 s t2 jip jport Hi) as (m & -> & Hm); [done|done|]. cbn [mbind cres_bind].
  destruct m as [x|]; [|by eexists]. exfalso. destruct (Hm x eq_refl) as (b & Hb & El).
  destruct (ti_bucket W (bi_tree W Hi) x b Hb) as [[_ _ [Hev _]] _].
  rewrite (hash_arg_length s h Ha) in El. destruct Ha as (_ & _ & _ & Hev' & _).
  rewrite <- El, Nat2Z.inj_succ, Z.even_succ, <- Z.negb_even, Hev' in Hev. done.
Qed.
End Inv.

(** ** Reading what was written *)

Section Laws.
Context {DB : Type} `{KcLaws DB}.

Lemma read_change_set (l l' : option DB * option DB) key value :
  change (fun d => kc_set d key value) l = Some l' → is_Some l.1 →
  read l' key = Some value ∧ ∀ key', key' ≠ key → read l' key' = read l key'.
Proof.
  unfold change. destruct l as [[d0|] [d1|]]; simpl; intros E [d Hd]; try done;
    [destruct (kc_set d1 key value) as [d'|] eqn:Es|destruct (kc_set d0 key value) as [d'|] eqn:Es];
    try done; injection E as <-; simpl.
  - rewrite (kc_get_set _ _ _ _ Es). split; [done|]. intros key' Hne.
    by rewrite (kc_get_set_other _ _ _ _ _ Es Hne).
  - rewrite (kc_get_set _ _ _ _ Es). split; [done|]. intros key' Hne.
    by rewrite (kc_get_set_other _ _ _ _ _ Es Hne).
Qed.
End Laws.
