(* ===== verification/BucketThms.v ===== *)
(** * What the buckets promise

    The theorems about [Bucket], on the invariant and the layered maps of [BucketInv]. *)
From stdpp Require Import strings functions.
From S2P Require Import Prelude CString LinkedList RbTree Scan RangeMap RangeIndex RangeTable Bucket BucketInv.

Section More.
Context {DB : Type} `{KcLaws DB} (N : bkey_t → Prop).
Implicit Types W : bees (DB := DB).

(** The layered maps of the buckets, computed. *)
Definition layers W (k : bkey_t) : option (option DB * option DB) :=
  (fun ixb => layer (dbs W) ixb.2.2) <$> list_find (fun xb => bkey xb.2 = k) (map_to_list (bks W)).

Lemma shown_layers W : shown W (layers W).
Proof.
  intros k. unfold layers. destruct (list_find _ _) as [[i [x b]]|] eqn:E; simpl.
  - apply list_find_Some in E as (Hi & Hk & _). exists x, b. split; [|done].
    apply elem_of_map_to_list. by eapply list_elem_of_lookup_2.
  - apply list_find_None in E. rewrite Forall_forall in E. intros x Hx.
    apply key_at_Some in Hx as (b & Hb & Hk). apply (E (x, b)); [|done]. by apply elem_of_map_to_list.
Qed.

Lemma key_unique W x y b c :
  all_near N → inv N W → bks W !! x = Some b → bks W !! y = Some c → bkey b = bkey c → x = y.
Proof.
  intros Hnear Hi Hb Hc Hk. destruct (ti_bucket N W (bi_tree N W Hi) x b Hb) as [Hok HN].
  destruct (find_key N Hnear W b (bi_tree N W Hi) (bo_fits b Hok) HN) as (p & _ & Hp).
  assert (E1 : p = Some x) by (apply Hp, key_at_Some; eauto).
  assert (E2 : p = Some y) by (apply Hp, key_at_Some; eauto). congruence.
Qed.

(** Changing the database in front leaves the values of other buckets. *)
Lemma update_values W x b (f : DB → option DB) h :
  all_near N → inv N W → bks W !! x = Some b →
  (kcdb1 b = Some h ∨ kcdb1 b = None ∧ kcdb0 b = Some h) →
  ∃ r W', kcdb_update W h f = Ret (r, W') ∧ inv N W' ∧ bks W' = bks W ∧ rms W' = rms W ∧
    (r = 0 ∧ change f (layer (dbs W) b) = Some (layer (dbs W') b) ∨ r = ESQ_ERROR_LIBCALL ∧ W' = W) ∧
    ∀ y c, bks W !! y = Some c → y ≠ x → layer (dbs W') c = layer (dbs W) c.
Proof.
  intros Hnear Hi Hb Hh. pose proof (shown_layers W) as Hm.
  destruct (kcdb_update_ok N W x b (layers W) f h Hi Hm Hb Hh) as (r & W' & E & Hi' & Eb & Hr).
  exists r, W'. split; [done|]. split; [done|]. split; [done|]. split.
  { unfold kcdb_update in E. repeat case_match; simplify_eq; done. }
  destruct (change _ _) as [l|] eqn:Ec; [|destruct Hr as [-> ->]; split; [by right|done]].
  destruct Hr as (-> & El & Hm'). split; [left; by rewrite El|]. intros y c Hc Hne.
  assert (Hk : bkey c ≠ bkey b). { intros Hk. apply Hne. by eapply (key_unique W). }
  rewrite <- Eb in Hc. pose proof (shown_at N W' _ y c Hnear Hi' Hm' Hc) as H1.
  rewrite fn_lookup_insert_ne in H1 by done. rewrite Eb in Hc.
  pose proof (shown_at N W _ y c Hnear Hi Hm Hc) as H2. congruence.
Qed.

(** Storing in a bucket leaves the values of the others. *)
Lemma bucket_set_values W x b key value :
  all_near N → inv N W → bks W !! x = Some b →
  ∃ r W', bee_bucket_set W x key value = Ret (r, W') ∧ inv N W' ∧ bks W' = bks W ∧ rms W' = rms W ∧
    (r = 0 ∧ change (fun d => kc_set d key value) (layer (dbs W) b) = Some (layer (dbs W') b) ∨
     r = ESQ_ERROR_LIBCALL ∧ W' = W) ∧
    ∀ y c, bks W !! y = Some c → y ≠ x → layer (dbs W') c = layer (dbs W) c.
Proof.
  intros Hnear Hi Hb. unfold bee_bucket_set. rewrite (bget_ok _ _ _ Hb). cbn [mbind cres_bind].
  destruct (bi_slots N W Hi x b Hb) as [_ Hne]. unfold slots in Hne.
  destruct (kcdb1 b) as [h1|] eqn:E1; [|destruct (kcdb0 b) as [h0|] eqn:E0; [|done]].
  - by apply update_values; [..|left].
  - by apply update_values; [..|right].
Qed.

(** Removing changes the database in front, or removes the key of the only one. *)
Lemma bucket_del_values W x b key value :
  all_near N → inv N W → bks W !! x = Some b →
  ∃ r W', bee_bucket_del W x key value = Ret (r, W') ∧ inv N W' ∧ bks W' = bks W ∧ rms W' = rms W ∧
    (r = 0 ∧ change (fun d => if kcdb1 b then kc_set d key value else kc_remove d key) (layer (dbs W) b)
             = Some (layer (dbs W') b) ∨
     r = ESQ_ERROR_LIBCALL ∧ W' = W) ∧
    ∀ y c, bks W !! y = Some c → y ≠ x → layer (dbs W') c = layer (dbs W) c.
Proof.
  intros Hnear Hi Hb. unfold bee_bucket_del. rewrite (bget_ok _ _ _ Hb). cbn [mbind cres_bind].
  destruct (bi_slots N W Hi x b Hb) as [_ Hne]. unfold slots in Hne.
  destruct (kcdb1 b) as [h1|] eqn:E1; [|destruct (kcdb0 b) as [h0|] eqn:E0; [|done]].
  - by apply update_values; [..|left].
  - by apply update_values; [..|right].
Qed.

Lemma get2_ok W x b key :
  inv N W → bks W !! x = Some b →
  bee_bucket_get2 W x key = Ret (match read (layer (dbs W) b) key with
                                 | Some v => (ESQ_OK, Some v) | None => (ESQ_ERROR_NOTFOUND, None) end).
Proof.
  intros Hi Hb. unfold bee_bucket_get2. rewrite (bucket_value_ok N W x b key Hi Hb). cbn [mbind cres_bind].
  by destruct (read _ key).
Qed.

Lemma read_no_main (l : option DB * option DB) key : l.1 = None → read l key = None.
Proof. destruct l as [[] ?]; simpl; congruence. Qed.

Lemma layer_main W x b : inv N W → bks W !! x = Some b → (layer (dbs W) b).1 = None ↔ kcdb0 b = None.
Proof.
  intros Hi Hb. unfold layer, db_at. simpl. destruct (kcdb0 b) as [h|] eqn:E; [|done].
  destruct (bi_open N W Hi x b h Hb) as [d Hd]; [unfold slots; rewrite E; set_solver|]. simpl. by rewrite Hd.
Qed.

(** ** Merging *)

Lemma long_at_ok s off : 0 <= off → off + 8 <= Z.of_nat (length s) → ∃ v, long_at s off = Ret v.
Proof.
  intros Ho Hs. unfold long_at, at_off. rewrite decide_True by lia. cbn [mbind cres_bind].
  rewrite decide_True by (rewrite length_drop; lia). by eexists.
Qed.

Lemma timer_gt_ok a b :
  sizeof_timeval <= Z.of_nat (length a) → sizeof_timeval <= Z.of_nat (length b) → ∃ r, timer_gt a b = Ret r.
Proof.
  unfold sizeof_timeval. intros Ha Hb. unfold timer_gt.
  destruct (long_at_ok a 0) as [sa ->]; [lia..|]. destruct (long_at_ok b 0) as [sb ->]; [lia..|]. cbn [mbind cres_bind].
  destruct (sa =? sb); [|by eexists].
  destruct (long_at_ok a 8) as [ua ->]; [lia..|]. destruct (long_at_ok b 8) as [ub ->]; [lia..|]. by eexists.
Qed.

(** Nothing a reader sees changes. *)
Definition same_values W W' : Prop :=
  bks W' = bks W ∧ ∀ y key, is_Some (bks W !! y) → bee_bucket_get2 W' y key = bee_bucket_get2 W y key.

Lemma merge_into_ok W x b s :
  all_near N → inv N W → bks W !! x = Some b → sizeof_timeval <= Z.of_nat (length (m_value s)) →
  ∃ W', merge_into W x s = Ret (0, W') ∧ inv N W' ∧ same_values W W'.
Proof.
  intros Hnear Hi Hb Hv. unfold merge_into. rewrite (get2_ok W x b) by done. cbn [mbind cres_bind].
  assert (Hsame : same_values W W) by done.
  destruct (read (layer (dbs W) b) (m_key s)) as [d|] eqn:Er; cbn [mbind cres_bind]; [|by exists W].
  simpl negb. cbn iota.
  assert (Hw : ∃ w, (if Z.of_nat (length d) <? sizeof_timeval then Ret true else timer_gt (m_value s) d) = Ret w).
  { destruct (Z.ltb_spec (Z.of_nat (length d)) sizeof_timeval); [by eexists|]. by apply timer_gt_ok. }
  destruct Hw as [w ->]. cbn [mbind cres_bind]. destruct w; [|by exists W].
  destruct (bucket_set_values W x b (m_key s) d Hnear Hi Hb) as (r & W' & -> & Hi' & Eb & _ & Hr & Hot).
  cbn [mbind cres_bind]. exists W'. split; [done|]. split; [done|]. split; [done|]. intros y key [c Hc].
  rewrite (get2_ok W y c) by done. rewrite (get2_ok W' y c) by (done || by rewrite Eb).
  destruct (decide (y = x)) as [->|Hne]; [|by rewrite (Hot y c)].
  destruct Hr as [[_ Hch]|[_ ->]]; [|done]. rewrite Hb in Hc. injection Hc as <-.
  assert (Hmain : is_Some (layer (dbs W) b).1).
  { destruct (layer (dbs W) b).1 eqn:E; [eauto|]. by rewrite read_no_main in Er. }
  destruct (read_change_set _ _ _ _ Hch Hmain) as [Hk Hko].
  destruct (decide (key = m_key s)) as [->|Hnk]; [by rewrite Hk, Er|by rewrite Hko].
Qed.

Lemma merge_item_ok W s nm tn h th :
  all_near N → inv N W → sizeof_timeval <= Z.of_nat (length (m_value s)) →
  m_range_map_name s = nm ++ tn → m_range_map_name_length s = Z.of_nat (length nm) →
  m_hash_str s = h ++ th → m_hash_str_length s = Z.of_nat (length h) →
  Z.of_nat (length nm) < 2^31 → Z.of_nat (length h) < 2^31 →
  (∀ x, m_bucket s = Some x → is_Some (bks W !! x)) →
  ∃ r p W', esq_bucket_merge_item W s = Ret (r, set_m_bucket p s, W') ∧ inv N W' ∧ same_values W W' ∧
    ∀ x, p = Some x → is_Some (bks W' !! x).
Proof.
  intros Hnear Hi Hv En Eln Eh Elh Hn Hh Hx. unfold esq_bucket_merge_item.
  assert (Hset : s = set_m_bucket (m_bucket s) s) by (by destruct s).
  destruct (m_bucket s) as [x|].
  { destruct (Hx x eq_refl) as [b Hb]. destruct (merge_into_ok W x b s Hnear Hi Hb Hv) as (W' & -> & Hi' & Hs).
    cbn [mbind cres_bind]. eexists _, (Some x), W'. rewrite <- Hset. split; [done|]. split; [done|]. split; [done|].
    destruct Hs as [-> _]. done. }
  destruct (_ =? 0); [exists (-1), None, W; by rewrite <- Hset|]. rewrite En, Eln, Eh, Elh.
  destruct (find_any N W nm tn h th 0 0 Hi Hn Hh) as (p & -> & Hp). cbn [mbind cres_bind].
  destruct p as [x|]; [|exists (-1), None, W; by rewrite <- Hset]. destruct (Hp x eq_refl) as (b & Hb & _).
  destruct (merge_into_ok W x b (set_m_bucket (Some x) s) Hnear Hi Hb Hv) as (W' & E & Hi' & Hs).
  rewrite E. eexists _, (Some x), W'. split; [done|]. split; [done|]. split; [done|]. intros y [= <-].
  destruct Hs as [-> _]. eauto.
Qed.

Lemma same_values_trans W W1 W2 : same_values W W1 → same_values W1 W2 → same_values W W2.
Proof.
  intros [E1 H1] [E2 H2]. split; [congruence|]. intros y key Hy. rewrite H2, H1; [done|done|by rewrite E1].
Qed.
End More.

(** ** Files of patch buckets *)

Lemma path_buffer_short n folder_len folder d_name name_len :
  n < folder_len + 1 + name_len → ∀ b, path_buffer n folder_len folder d_name name_len ≠ Ret b.
Proof.
  intros Hn b. unfold path_buffer. intros (b1 & E1 & (b2 & E2 & E3)%cres_bind_Ret)%cres_bind_Ret.
  unfold c_memcpy in E1, E3. unfold wr in E2. repeat case_decide; try done.
  injection E1 as <-. injection E2 as <-.
  rewrite length_insert, !length_app, !length_take, length_drop, length_replicate in *. lia.
Qed.

Lemma remote_bucket_none folder folder_len d_name dots r :
  remote_bucket_of_file true folder folder_len d_name dots = Ret r → r = None.
Proof.
  unfold remote_bucket_of_file. intros E.
  repeat first
    [ reflexivity
    | match goal with Hp : path_buffer _ _ _ _ _ = Ret _ |- _ =>
        exfalso; revert Hp; apply path_buffer_short; lia end
    | by injection E
    | apply cres_bind_Ret in E as (? & ?Hb & E)
    | case_match; simplify_eq ].
Qed.

(** ** The theorems *)

Section Theorems.
Context {DB : Type} `{KcLaws DB} (N : bkey_t → Prop).
Implicit Types (W : bees (DB := DB)) (m : bkey_t → option (option DB * option DB)).

(** C32: [bee_shift_mem_bucket] refines the layered maps, for keys whose numbers are less than 2^31
    apart, so that comparing them does not wrap.  For a valid range map name and hash
    text, with memory and a database, the local bucket of that key has an empty map in front
    (the map that was in front becomes the one at the back, the one at the back is closed;
    the first map of a bucket is the one at the back), every other bucket is as it was, and
    no database is lost or shared; in every other case an error is returned and nothing
    changes.  (A new bucket is also entered into the nodes of its range map that have its address
    and hash.) *)
Theorem bee_shift_mem_bucket_correct W m nm t1 s t2 (mem_ok new_ok open_ok : bool) :
  all_near N → inv N W → shown W m → Forall is_byte s → Z.of_nat (length s) < 2^31 →
  (∀ h, hash_arg s h → N (0, (0, (h, nm)))) →
  let r := bee_shift_mem_bucket mem_ok new_ok open_ok W (nm ++ t1) (Z.of_nat (length nm))
             (s ++ t2) (Z.of_nat (length s)) in
  (∃ h W', valid_name nm ∧ hash_arg s h ∧ mem_ok && new_ok && open_ok = true ∧ r = Ret (None, W') ∧ inv N W' ∧
     shown W' (<[(0, (0, (h, nm))) := Some (shift_layer kc_empty (m (0, (0, (h, nm)))))]> m)) ∨
  (∃ e, r = Ret (Some e, W) ∧
     ¬ (valid_name nm ∧ (∃ h, hash_arg s h) ∧ mem_ok && new_ok && open_ok = true)).
Proof. apply shift_mem_bucket_ok. Qed.

(** [bee_open_disk_bucket] refines the layered maps: the opened database is put into the
    slot of the bucket of that key, in a new bucket when there was none, unless the slot is
    taken or the database cannot be opened, when an error is returned and nothing changes. *)
Theorem bee_open_disk_bucket_correct W m b idx opened :
  all_near N → inv N W → shown W m → bucket_ok b → N (bkey b) → idx = 0 ∨ idx = 1 →
  kcdb0 b = None → kcdb1 b = None →
  ∃ e W', bee_open_disk_bucket opened W b idx = Ret (e, W') ∧ inv N W' ∧
    match opened with
    | Some d => if decide (slot_of idx (m (bkey b)) = None)
                then e = None ∧ shown W' (<[bkey b := Some (put_slot idx d (m (bkey b)))]> m)
                else e ≠ None ∧ W' = W
    | None => e ≠ None ∧ W' = W
    end.
Proof. apply open_disk_bucket_ok. Qed.

(** C33: a value [bee_bucket_set] stored is the value [bee_bucket_get2] returns for that key
    of that bucket, and all other keys and buckets keep their values; a bucket without a
    database at the back takes values and never returns one. *)
Theorem bee_bucket_set_get_correct W x b key value :
  all_near N → inv N W → bks W !! x = Some b →
  ∃ r W', bee_bucket_set W x key value = Ret (r, W') ∧ inv N W' ∧
    (r = 0 ∨ r = ESQ_ERROR_LIBCALL ∧ W' = W) ∧
    (r = 0 →
     bee_bucket_get2 W' x key = Ret (if decide (kcdb0 b = None) then (ESQ_ERROR_NOTFOUND, None)
                                     else (ESQ_OK, Some value)) ∧
     ∀ y key', is_Some (bks W !! y) → y ≠ x ∨ key' ≠ key →
       bee_bucket_get2 W' y key' = bee_bucket_get2 W y key').
Proof.
  intros Hnear Hi Hb.
  destruct (bucket_set_values N W x b key value Hnear Hi Hb) as (r & W' & E & Hi' & Eb & _ & Hr & Hot).
  exists r, W'. split; [done|]. split; [done|]. split; [tauto|]. intros ->.
  destruct Hr as [[_ Hc]|[? _]]; [|done]. rewrite <- Eb in Hb. rewrite (get2_ok N W' x b) by done.
  pose proof (layer_main N W' x b Hi' Hb) as Hm'. rewrite Eb in Hb. pose proof (layer_main N W x b Hi Hb) as Hm.
  assert (Hkey : (layer (dbs W) b).1 = None → ∀ k, read (layer (dbs W') b) k = read (layer (dbs W) b) k).
  { intros E0 k. rewrite !read_no_main; tauto. }
  assert (Hkey' : (layer (dbs W) b).1 ≠ None → read (layer (dbs W') b) key = Some value ∧
    ∀ k, k ≠ key → read (layer (dbs W') b) k = read (layer (dbs W) b) k).
  { intros E0. apply read_change_set; [done|]. by apply not_eq_None_Some. }
  split.
  - case_decide as E0; [by rewrite read_no_main by tauto|]. destruct Hkey' as [-> _]; [tauto|done].
  - intros y k [c Hc'] Hyk. rewrite (get2_ok N W y c), (get2_ok N W' y c) by (done || by rewrite Eb).
    destruct (decide (y = x)) as [->|Hne]; [|by rewrite (Hot y c)].
    rewrite Hb in Hc'. injection Hc' as <-. destruct Hyk as [?|Hk]; [done|].
    destruct (decide ((layer (dbs W) b).1 = None)) as [E0|E0]; [by rewrite Hkey|].
    destruct (Hkey' E0) as [_ ->]; done.
Qed.

(** [esq_bucket_merge_item] with the item of another server always returns, and no reader
    of any bucket sees a difference: the value that came is never stored. *)
Theorem esq_bucket_merge_item_stores_nothing W s nm tn h th :
  all_near N → inv N W → sizeof_timeval <= Z.of_nat (length (m_value s)) →
  m_range_map_name s = nm ++ tn → m_range_map_name_length s = Z.of_nat (length nm) →
  m_hash_str s = h ++ th → m_hash_str_length s = Z.of_nat (length h) →
  Z.of_nat (length nm) < 2^31 → Z.of_nat (length h) < 2^31 →
  (∀ x, m_bucket s = Some x → is_Some (bks W !! x)) →
  ∃ r s' W', esq_bucket_merge_item W s = Ret (r, s', W') ∧ inv N W' ∧ same_values W W'.
Proof.
  intros Hnear Hi Hv En Eln Eh Elh Hn Hh Hx.
  destruct (merge_item_ok N W s nm tn h th Hnear Hi Hv En Eln Eh Elh Hn Hh Hx) as (r & p & W' & E & Hi' & Hs & _). eauto 10.
Qed.

(** [bee_bucket_set_offline] never takes a bucket offline: for every text of a hash, with
    the mark the scanner asks for, and whatever is on the stack, it returns an error (that
    there is no such item, when the name and the index are right) and changes nothing. *)
Theorem bee_bucket_set_offline_never W jip jport nm t1 s h t2 idx :
  inv N W → Forall is_byte s → hash_arg s h → Z.of_nat (length nm) < 2^31 → Z.of_nat (length s) < 2^31 →
  ∃ e, bee_bucket_set_offline W jip jport (nm ++ t1) (Z.of_nat (length nm)) (s ++ t2) (Z.of_nat (length s)) idx
       = Ret (Some e, W) ∧
    (valid_name nm → idx = 0 ∨ idx = 1 → e = "no such range map item"%string).
Proof. apply set_offline_ok. Qed.

(** [bee_close_all_buckets] ends, with every bucket freed, every database closed and the
    tree empty. *)
Theorem bee_close_all_buckets_correct W :
  inv N W →
  ∃ W', bee_close_all_buckets W = Ret W' ∧ bks W' = ∅ ∧ dbs W' = ∅ ∧ esq_bucket_rb W' = None ∧ rms W' = rms W.
Proof.
  intros Hi. destruct (inv_stock N W Hi) as [l Hl]. unfold bee_close_all_buckets.
  apply (close_all_loop_ok l); [done|]. pose proof (holds_NoDup _ _ (st_tree _ _ Hl)) as Hnd.
  transitivity (size (list_to_set (C := gset loc) l)); [by rewrite size_list_to_set|].
  rewrite <- size_dom. apply subseteq_size. intros x. rewrite elem_of_list_to_set, elem_of_dom. apply (st_dom _ _ Hl).
Qed.

End Theorems.

Definition bytes_of (s : string) : list Z := (fun c => Z.of_N (Ascii.N_of_ascii c)) <$> String.list_ascii_of_string s.

(** The file of a patch bucket is never opened: whatever the name, the bucket is not
    created, and on the name the source gives as its example the path is copied one byte
    behind the buffer. *)
Theorem bee_open_remote_patch_bucket_file_overflow {DB} (W : bees (DB := DB)) opened folder folder_len d_name dots :
  (∀ r W', bee_open_remote_patch_bucket_file true opened W folder folder_len d_name dots = Ret (r, W') →
     r = None ∧ W' = W) ∧
  bee_open_bucket_file true opened W [46; 0] 1 (bytes_of "rangemap0.127.0.0.1.2000.x.kct" ++ [0]) = Fault.
Proof.
  split; [|reflexivity]. intros r W' E. unfold bee_open_remote_patch_bucket_file in E.
  apply cres_bind_Ret in E as (b & ->%remote_bucket_none & E). simpl in E. by injection E as <- <-.
Qed.

(** ** Examples *)

(** A database as a finite map. *)
Definition demo_db : Type := gmap (list Z) (list Z).

#[export] Instance demo_kc : KcLib demo_db := {|
  kc_get d k := (d : gmap _ _) !! k;
  kc_set d k v := Some (<[k := v]> (d : gmap _ _));
  kc_remove d k := Some (delete k (d : gmap _ _));
  kc_empty := ∅
|}.

#[export] Instance demo_kc_laws : KcLaws demo_db.
Proof.
  split; unfold kc_get, kc_set, kc_remove, kc_empty, demo_kc.
  - intros d k v d' [= <-]. apply lookup_insert_eq.
  - intros d k v d' k' [= <-] Hne. by apply lookup_insert_ne.
  - intros d k d' [= <-]. apply lookup_delete_eq.
  - intros d k d' k' [= <-] Hne. by apply lookup_delete_ne.
  - intros k. apply lookup_empty.
Qed.

(** No bucket, and the range maps after start-up. *)
Definition no_bees : bees (DB := demo_db) := Bees ∅ ∅ None ∅ (range_map_init (State (Mem ∅ ∅) [])).

Definition demo_name : list Z := [109].
Definition demo_hash : list Z := [97; 98; 120].
Definition demo_bkey : bkey_t := (0, (0, ([97; 98], demo_name))).
Definition demo_keys (k : bkey_t) : Prop := k = demo_bkey.

Lemma demo_keys_near : all_near demo_keys.
Proof. intros a b -> ->. unfold near. rewrite !Z.sub_diag. done. Qed.

Lemma no_bees_inv : inv demo_keys no_bees.
Proof.
  split; simpl; try done.
  - split; simpl; try done. exists []. split; [apply (holds_init (Rb None ∅))|]. split; [constructor|].
    intros x. rewrite lookup_empty. split; [set_solver|by intros []].
  - intros h. rewrite lookup_empty. by intros [].
  - eexists. by apply table_init.
Qed.

Lemma no_bees_shown : shown no_bees (fun _ => None).
Proof. intros k. simpl. intros x. unfold key_at. simpl. by rewrite lookup_empty. Qed.

Lemma demo_hash_bytes : Forall is_byte demo_hash.
Proof. repeat (apply Forall_cons_2; [unfold is_byte; lia|]). apply Forall_nil_2. Qed.

Lemma demo_hash_arg : hash_arg demo_hash [97; 98].
Proof.
  exists 120. split; [done|]. split; [unfold HashString.mark; lia|]. split; [done|]. left.
  repeat (apply Forall_cons_2; [unfold HashString.hex, digit; lia|]). apply Forall_nil_2.
Qed.

Lemma demo_arg_unique h : hash_arg demo_hash h → demo_keys (0, (0, (h, demo_name))).
Proof.
  intros (e & E & _). unfold demo_hash in E. change [97; 98; 120] with ([97; 98] ++ [120]) in E.
  apply app_inj_tail in E as [<- _]. done.
Qed.

(** The world after the first [bee_shift_mem_bucket]. *)
Definition one_bee : bees (DB := demo_db) :=
  (ret_of (bee_shift_mem_bucket true true true no_bees (demo_name ++ [0]) 1 (demo_hash ++ [0]) 3)
     (None, no_bees)).2.

Definition demo_bucket : bee_bucket_t :=
  BeeBucket [109; 46; 97; 98; 120; 46; 37; 0] 1 [97; 98; 120; 46; 37; 0] 2 1633840384 0 0 (Some 1%positive) None.

Lemma one_bee_bucket : bks one_bee !! 1%positive = Some demo_bucket.
Proof. vm_compute. reflexivity. Qed.

Lemma demo_name_valid : valid_name demo_name.
Proof.
  split; [simpl; lia|]. apply Forall_cons_2; [unfold name_char; lia|apply Forall_nil_2].
Qed.

Lemma one_bee_inv : inv demo_keys one_bee.
Proof.
  destruct (shift_mem_bucket_ok demo_keys no_bees (fun _ => None) demo_name [0] demo_hash [0] true true true
    demo_keys_near no_bees_inv no_bees_shown demo_hash_bytes ltac:(simpl; lia) demo_arg_unique)
    as [(h & W' & _ & _ & _ & E & Hi & _)|(e & _ & Hn)].
  - change (Z.of_nat (length demo_name)) with 1 in E. change (Z.of_nat (length demo_hash)) with 3 in E.
    unfold one_bee. rewrite E. exact Hi.
  - exfalso. apply Hn. split; [apply demo_name_valid|]. split; [exists [97; 98]; apply demo_hash_arg|done].
Qed.

Lemma bee_shift_mem_bucket_correct_witness :
  ∃ W', bee_shift_mem_bucket true true true no_bees (demo_name ++ [0]) 1 (demo_hash ++ [0]) 3 = Ret (None, W') ∧
    inv demo_keys W' ∧ shown W' (<[demo_bkey := Some (Some kc_empty, None)]> (fun _ => None)).
Proof.
  destruct (bee_shift_mem_bucket_correct demo_keys no_bees (fun _ => None) demo_name [0] demo_hash [0] true true true
    demo_keys_near no_bees_inv no_bees_shown demo_hash_bytes ltac:(simpl; lia) demo_arg_unique)
    as [(h & W' & _ & Ha & _ & E & Hi & Hs)|(e & _ & Hn)].
  - exists W'. split; [exact E|]. split; [exact Hi|]. rewrite (demo_arg_unique h Ha) in Hs. exact Hs.
  - exfalso. apply Hn. split; [apply demo_name_valid|]. split; [exists [97; 98]; apply demo_hash_arg|reflexivity].
Defined.

Definition closed_bucket : bee_bucket_t := reslot None None demo_bucket.

Lemma closed_bucket_ok : bucket_ok closed_bucket.
Proof.
  destruct (ti_bucket demo_keys one_bee (bi_tree _ _ one_bee_inv) _ _ one_bee_bucket) as [Hok _].
  by apply reslot_ok.
Qed.

Lemma bee_open_disk_bucket_correct_witness :
  ∃ e W', bee_open_disk_bucket (Some (∅ : demo_db)) no_bees closed_bucket 1 = Ret (e, W') ∧ inv demo_keys W' ∧
    e = None ∧ shown W' (<[demo_bkey := Some (None, Some ∅)]> (fun _ => None)).
Proof.
  destruct (bee_open_disk_bucket_correct demo_keys no_bees (fun _ => None) closed_bucket 1 (Some (∅ : demo_db))
    demo_keys_near no_bees_inv no_bees_shown closed_bucket_ok eq_refl (or_intror eq_refl) eq_refl eq_refl)
    as (e & W' & E & Hi & Hr).
  rewrite decide_True in Hr by reflexivity. exists e, W'. split; [exact E|]. split; [exact Hi|exact Hr].
Defined.

Lemma bee_bucket_set_get_correct_witness :
  ∃ r W', bee_bucket_set one_bee 1 [7] [8] = Ret (r, W') ∧ inv demo_keys W' ∧
    (r = 0 → bee_bucket_get2 W' 1 [7] = Ret (ESQ_OK, Some [8])).
Proof.
  destruct (bee_bucket_set_get_correct demo_keys one_bee 1 demo_bucket [7] [8]
    demo_keys_near one_bee_inv one_bee_bucket) as (r & W' & E & Hi & _ & Hr).
  exists r, W'. split; [exact E|]. split; [exact Hi|]. intros H0. exact (proj1 (Hr H0)).
Defined.

Definition demo_merge : merge_session :=
  MergeSession (demo_name ++ [0]) 1 ([97; 98] ++ [0]) 2 [7] (replicate 16 9) None.

Lemma esq_bucket_merge_item_stores_nothing_witness :
  ∃ r s' W', esq_bucket_merge_item one_bee demo_merge = Ret (r, s', W') ∧ inv demo_keys W' ∧ same_values one_bee W'.
Proof.
  apply (esq_bucket_merge_item_stores_nothing demo_keys one_bee demo_merge demo_name [0] [97; 98] [0]
    demo_keys_near one_bee_inv).
  - unfold sizeof_timeval. simpl. lia.
  - reflexivity.
  - reflexivity.
  - reflexivity.
  - reflexivity.
  - simpl. lia.
  - simpl. lia.
  - intros x [=].
Defined.

Lemma bee_bucket_set_offline_never_witness :
  ∃ e, bee_bucket_set_offline one_bee 5 6 (demo_name ++ [0]) 1 (demo_hash ++ [0]) 3 0 = Ret (Some e, one_bee) ∧
    e = "no such range map item"%string.
Proof.
  destruct (bee_bucket_set_offline_never demo_keys one_bee 5 6 demo_name [0] demo_hash [97; 98] [0] 0
    one_bee_inv demo_hash_bytes demo_hash_arg ltac:(simpl; lia) ltac:(simpl; lia)) as (e & E & He).
  exists e. split; [exact E|]. exact (He demo_name_valid (or_introl eq_refl)).
Defined.

Lemma bee_close_all_buckets_correct_witness :
  ∃ W', bee_close_all_buckets one_bee = Ret W' ∧ bks W' = ∅ ∧ dbs W' = ∅ ∧ esq_bucket_rb W' = None ∧
    rms W' = rms one_bee.
Proof. exact (bee_close_all_buckets_correct demo_keys one_bee one_bee_inv). Defined.
