(* ===== verification/BeeDb.v ===== *)
(** * Requests to the key-value service

    [bee/db.c]: the handlers for reading, storing and removing a value.  A request carries
    the name of a range map and a key; the nodes of the map whose range has the hash of the
    key form a chain, and a handler walks it: values are read from the first bucket of this
    server that has the key, stored in (removed from) every bucket of the chain, and passed
    on to the servers of the nodes that have no bucket here.  A server that synchronises its
    buckets sends item after item, which [bee_db_start_merge_sprint0] merges.

    The hash function is a parameter; so are what [malloc] returns, with the bytes of the
    block, and what the kernel answers on the sockets to other servers ([peer]).  The bytes
    sent to them are collected. *)
From stdpp Require Import strings functions.
From S2P Require Import Prelude CString LinkedList RbTree RangeMap RangeIndex RangeTable Bucket BucketInv BucketThms.

Definition ESQ_ERROR_PARAM : Z := -1.
Definition ESQ_ERROR_MEMORY : Z := -2.

Definition BEE_OP_INTERNAL_SET : Z := 8.
Definition BEE_OP_INTERNAL_DEL : Z := 9.
Definition BEE_OP_SYNC : Z := 10.

(** ** Messages *)

Record header_from_pony_to_bee_t := Header {
  h_opcode : Z;
  h_range_map_name_len : Z;
  h_key_len : Z;
  h_data_len : Z;
  h_result_buf_size : Z
}.

Definition set_h_opcode (op : Z) (h : header_from_pony_to_bee_t) : header_from_pony_to_bee_t :=
  Header op (h_range_map_name_len h) (h_key_len h) (h_data_len h) (h_result_buf_size h).

Record reply_from_bee_to_pony_t := Reply { return_code : Z; result_len : Z }.

(** The reply with a result: [result] is all of the block behind the two numbers. *)
Record reply_from_bee_to_pony_2_t := Reply2 { return_code2 : Z; result_len2 : Z; result : list Z }.

(** The bytes of an [int], least first. *)
Definition int_bytes (z : Z) : list Z :=
  let u := u32 z in [u mod 256; u / 2^8 mod 256; u / 2^16 mod 256; u / 2^24 mod 256].

Definition int_of (b : list Z) : Z := i32 (foldr (fun c a => c + 256 * a) 0 b).

Definition sizeof_header : Z := 20.

Definition header_bytes (h : header_from_pony_to_bee_t) : list Z :=
  int_bytes (h_opcode h) ++ int_bytes (h_range_map_name_len h) ++ int_bytes (h_key_len h) ++
  int_bytes (h_data_len h) ++ int_bytes (h_result_buf_size h).

(** The header in an object of [sizeof_header] bytes. *)
Definition header_of (b : list Z) : header_from_pony_to_bee_t :=
  let f k := int_of (take 4 (drop (4 * k) b)) in Header (f 0%nat) (f 1%nat) (f 2%nat) (f 3%nat) (f 4%nat).

(** [n] bytes at [p + off]. *)
Definition span (p : list Z) (off n : Z) : cres (list Z) :=
  if decide (0 <= off ∧ 0 <= n ∧ off + n <= Z.of_nat (length p))
  then Ret (take (Z.to_nat n) (drop (Z.to_nat off) p)) else Fault.

(** What the handlers use of a session of the service. *)
Record bee_service_ctx_t := Ctx {
  ctx_header : header_from_pony_to_bee_t;
  ctx_recv_buf : option (list Z);
  ctx_payload_size : Z;
  ctx_reply : reply_from_bee_to_pony_t;
  ctx_reply_ptr : option reply_from_bee_to_pony_2_t
}.

Definition set_reply (r : reply_from_bee_to_pony_t) (c : bee_service_ctx_t) : bee_service_ctx_t :=
  Ctx (ctx_header c) (ctx_recv_buf c) (ctx_payload_size c) r (ctx_reply_ptr c).
Definition set_reply_ptr (p : option reply_from_bee_to_pony_2_t) (c : bee_service_ctx_t) : bee_service_ctx_t :=
  Ctx (ctx_header c) (ctx_recv_buf c) (ctx_payload_size c) (ctx_reply c) p.
Definition set_ctx_header (h : header_from_pony_to_bee_t) (c : bee_service_ctx_t) : bee_service_ctx_t :=
  Ctx h (ctx_recv_buf c) (ctx_payload_size c) (ctx_reply c) (ctx_reply_ptr c).

Definition recv_buf_of (c : bee_service_ctx_t) : cres (list Z) :=
  match ctx_recv_buf c with Some b => Ret b | None => Fault end.

(** ** Other servers *)

(** What the kernel answers when a node's server is written to: whether a socket can be had,
    the result of [sendto] with the header and of [write] with that many bytes. *)
Record peer := Peer { open_ok : bool; sendto : Z; write : Z → Z }.

(** What was sent to whom. *)
Abbreviation sent_t := (list (sockaddr_in * list Z)).

(** The arguments of a request, as places in the receive buffer. *)
Record bee_db_op_session_t := OpSession {
  s_range_nodes : ptr;
  s_header : header_from_pony_to_bee_t;
  s_key : Z;
  s_key_len : Z;
  s_value : Z;
  s_value_len : Z;
  s_recv_buf : list Z;
  s_recv_buf_size : Z
}.

Definition set_s_header (h : header_from_pony_to_bee_t) (s : bee_db_op_session_t) : bee_db_op_session_t :=
  OpSession (s_range_nodes s) h (s_key s) (s_key_len s) (s_value s) (s_value_len s) (s_recv_buf s)
    (s_recv_buf_size s).

(** The loop that writes the receive buffer out. *)
Fixpoint forward_loop (fuel : nat) (write : Z → Z) (buf : list Z) (size offset : Z) (sent : list Z)
    : cres (Z * list Z) :=
  if offset <? size then
    match fuel with
    | O => NoFuel
    | S fuel =>
        d ← span buf offset (size - offset);
        let r := write (size - offset) in
        if r <=? 0 then Ret (ESQ_ERROR_LIBCALL, sent)
        else forward_loop fuel write buf size (offset + r) (sent ++ take (Z.to_nat r) d)
    end
  else Ret (ESQ_OK, sent).

Definition range_map_get_node_address (S : state) (node : loc) : cres sockaddr_in :=
  nget (memory S) (Some node) address.

Section BeeDb.
Context {DB : Type} `{KcLib DB}.
Context (sha256 : list Z → list Z).
Implicit Types W : bees (DB := DB).

Definition get_hash_value (b : list Z) (off length : Z) : cres (list Z) :=
  k ← span b off length; Ret (sha256 k).

(** ** The chain of nodes *)

Fixpoint bee_db_get_local (fuel : nat) W (p : ptr) (key buffer : list Z) (buf_len : Z)
    : cres (Z * option (Z * list Z)) :=
  match fuel with
  | O => NoFuel
  | S fuel =>
      match p with
      | None => Ret (ESQ_ERROR_NOTFOUND, None)
      | Some _ =>
          f ← nget (memory (rms W)) p flags;
          n ← nget (memory (rms W)) p next;
          if Z.land RM_NODE_ME f =? 0 then bee_db_get_local fuel W n key buffer buf_len
          else
            b ← nget (memory (rms W)) p bucket;
            match b with
            | None => bee_db_get_local fuel W n key buffer buf_len
            | Some b =>
                '(r, res) ← bee_bucket_get W b key buffer buf_len;
                if r =? 0 then Ret (ESQ_OK, res) else bee_db_get_local fuel W n key buffer buf_len
            end
      end
  end.

(** Something is done with every bucket of the chain, until it fails; [r] is the result so
    far. *)
Fixpoint each_bucket (fuel : nat) W (p : ptr) (f : bees (DB := DB) → loc → cres (Z * bees (DB := DB))) (r : Z)
    : cres (Z * bees (DB := DB)) :=
  match fuel with
  | O => NoFuel
  | S fuel =>
      match p with
      | None => Ret (r, W)
      | Some _ =>
          n ← nget (memory (rms W)) p next;
          b ← nget (memory (rms W)) p bucket;
          match b with
          | None => each_bucket fuel W n f r
          | Some b => '(r, W) ← f W b; if r =? 0 then each_bucket fuel W n f r else Ret (r, W)
          end
      end
  end.

Definition bee_db_set_local W (s : bee_db_op_session_t) : cres (Z * bees (DB := DB)) :=
  each_bucket (list_fuel (memory (rms W))) W (s_range_nodes s)
    (fun W b =>
       key ← span (s_recv_buf s) (s_key s) (s_key_len s);
       value ← span (s_recv_buf s) (s_value s) (s_value_len s);
       bee_bucket_set W b key value)
    ESQ_ERROR_NOTFOUND.

Definition bee_db_del_local W (s : bee_db_op_session_t) : cres (Z * bees (DB := DB)) :=
  each_bucket (list_fuel (memory (rms W))) W (s_range_nodes s)
    (fun W b =>
       key ← span (s_recv_buf s) (s_key s) (s_key_len s);
       value ← span (s_recv_buf s) (s_value s) (s_value_len s);
       bee_bucket_del W b key value)
    ESQ_OK.

(** The header of the request is the one that is sent: its opcode changes. *)
Definition bee_db_forward_to_node (S : state) (pr : peer) (range_node : loc) (opcode : Z)
    (s : bee_db_op_session_t) : cres (Z * bee_db_op_session_t * sent_t) :=
  let s := set_s_header (set_h_opcode opcode (s_header s)) s in
  a ← range_map_get_node_address S range_node;
  if negb (open_ok pr) then Ret (ESQ_ERROR_LIBCALL, s, [])
  else
    let hb := take (Z.to_nat (sendto pr)) (header_bytes (s_header s)) in
    if negb (sizeof_header =? sendto pr) then Ret (ESQ_ERROR_LIBCALL, s, [(a, hb)])
    else
      '(r, sent) ← forward_loop (Z.to_nat (s_recv_buf_size s)) (write pr) (s_recv_buf s)
                     (s_recv_buf_size s) 0 hb;
      Ret (r, s, [(a, sent)]).

Fixpoint sync_loop (fuel : nat) (S : state) (net : loc → peer) (p : ptr) (op : Z)
    (s : bee_db_op_session_t) (sent : sent_t) : cres (Z * bee_db_op_session_t * sent_t) :=
  match fuel with
  | O => NoFuel
  | Datatypes.S fuel =>
      match p with
      | None => Ret (ESQ_OK, s, sent)
      | Some x =>
          f ← nget (memory S) p flags;
          n ← nget (memory S) p next;
          if negb (Z.land RM_NODE_ME f =? 0) then sync_loop fuel S net n op s sent
          else
            b ← nget (memory S) p bucket;
            '(r, s, out) ← match b with
                           | Some _ => Ret (ESQ_OK, s, [])
                           | None => bee_db_forward_to_node S (net x) x op s
                           end;
            if r =? 0 then sync_loop fuel S net n op s (sent ++ out) else Ret (r, s, sent ++ out)
      end
  end.

Definition bee_db_sync_to_remote (S : state) (net : loc → peer) (op : Z) (s : bee_db_op_session_t)
    : cres (Z * bee_db_op_session_t * sent_t) :=
  sync_loop (list_fuel (memory S)) S net (s_range_nodes s) op s [].

(** ** The handlers *)

Definition fail_get (c : bee_service_ctx_t) (r : Z) : bee_service_ctx_t := set_reply (Reply r 0) c.

(** [block] is what [malloc] returns: its bytes are those of the last owner. *)
Definition bee_db_get W (c : bee_service_ctx_t) (block : option reply_from_bee_to_pony_2_t)
    : cres bee_service_ctx_t :=
  let h := ctx_header c in
  let c := set_reply_ptr None c in
  if h_result_buf_size h <=? 0 then Ret (fail_get c ESQ_ERROR_PARAM)
  else
    match block with
    | None => Ret (fail_get c ESQ_ERROR_MEMORY)
    | Some m =>
        let c := set_reply_ptr (Some m) c in
        buf ← recv_buf_of c;
        hash ← get_hash_value buf (h_range_map_name_len h + 1) (h_key_len h);
        nodes ← range_map_find_and_lock (rms W) buf hash;
        match nodes with
        | None => Ret (fail_get c ESQ_ERROR_NOTFOUND)
        | Some _ =>
            key ← span buf (h_range_map_name_len h + 1) (h_key_len h);
            '(r, res) ← bee_db_get_local (list_fuel (memory (rms W))) W nodes key (result m)
                          (h_result_buf_size h);
            match res with
            | Some (result_size, data) =>
                let c := set_reply_ptr (Some (Reply2 (return_code2 m) (result_len2 m) data)) c in
                if negb (r =? 0) then Ret (fail_get c r)
                else if result_size <=? sizeof_timeval then Ret (fail_get c ESQ_ERROR_NOTFOUND)
                else Ret (set_reply_ptr (Some (Reply2 ESQ_OK (result_size - sizeof_timeval) data)) c)
            | None => Ret (fail_get c r)
            end
        end
    end.

(** The part that is the same for storing and removing. *)
Definition op_session (c : bee_service_ctx_t) (buf : list Z) (nodes : ptr) (value_len : Z) : bee_db_op_session_t :=
  let h := ctx_header c in
  OpSession nodes h (h_range_map_name_len h + 1) (h_key_len h)
    (h_range_map_name_len h + 1 + h_key_len h) value_len buf (ctx_payload_size c).

Definition finish_op W (net : loc → peer) (need_sync : bool) (op : Z) (c : bee_service_ctx_t)
    (s : bee_db_op_session_t) (r : Z) : cres (bee_service_ctx_t * bees (DB := DB) * sent_t) :=
  if negb (r =? 0) then Ret (set_reply (Reply r 0) c, W, [])
  else if need_sync then
    '(r, s, sent) ← bee_db_sync_to_remote (rms W) net op s;
    Ret (set_reply (Reply r 0) (set_ctx_header (s_header s) c), W, sent)
  else Ret (set_reply (Reply ESQ_OK 0) c, W, []).

Definition bee_db_set W (net : loc → peer) (c : bee_service_ctx_t) (need_sync : bool)
    : cres (bee_service_ctx_t * bees (DB := DB) * sent_t) :=
  let h := ctx_header c in
  buf ← recv_buf_of c;
  hash ← get_hash_value buf (h_range_map_name_len h + 1) (h_key_len h);
  nodes ← range_map_find_and_lock (rms W) buf hash;
  match nodes with
  | None => Ret (set_reply (Reply ESQ_ERROR_NOTFOUND 0) c, W, [])
  | Some _ =>
      let s := op_session c buf nodes (i32 (sizeof_timeval + h_data_len h)) in
      '(r, W) ← bee_db_set_local W s;
      finish_op W net need_sync BEE_OP_INTERNAL_SET c s r
  end.

Definition bee_db_del W (net : loc → peer) (c : bee_service_ctx_t) (need_sync : bool)
    : cres (bee_service_ctx_t * bees (DB := DB) * sent_t) :=
  let h := ctx_header c in
  buf ← recv_buf_of c;
  hash ← get_hash_value buf (h_range_map_name_len h + 1) (h_key_len h);
  nodes ← range_map_find_and_lock (rms W) buf hash;
  match nodes with
  | None => Ret (set_reply (Reply ESQ_ERROR_NOTFOUND 0) c, W, [])
  | Some _ =>
      let s := op_session c buf nodes sizeof_timeval in
      '(r, W) ← bee_db_del_local W s;
      finish_op W net need_sync BEE_OP_INTERNAL_DEL c s r
  end.

(** ** Items of another server *)

(** What the kernel does in one round: whether there is memory, the bytes that [read] gives
    for the item and those it gives for the next header. *)
Record round := Round { r_mem : bool; r_item : list Z; r_next : list Z }.

Definition sync_header_ok (h : header_from_pony_to_bee_t) : bool :=
  (BEE_OP_SYNC =? h_opcode h)
  && negb ((h_range_map_name_len h <? 0) || (h_key_len h <=? 0) || (h_data_len h <? 0))
  && negb (RANGE_MAP_NAME_MAX <=? h_range_map_name_len h)
  && negb (h_result_buf_size h <? 0)
  && negb (HASH_VALUE_LENGTH * 2 <? h_result_buf_size h)
  && negb (h_data_len h <? sizeof_timeval).

(** The item in the buffer: range map name, hash, key and value. *)
Definition merge_fields (m : merge_session) (h : header_from_pony_to_bee_t) (buffer : list Z) : cres merge_session :=
  let nl := h_range_map_name_len h in
  let hl := h_result_buf_size h in
  '(nm, nl') ← (if negb (nl =? 0) then b ← c_memcpy (m_range_map_name m) 0 buffer nl; Ret (b, nl)
                else Ret (m_range_map_name m, m_range_map_name_length m));
  hs ← at_off buffer nl;
  key ← span buffer (nl + hl) (h_key_len h);
  value ← span buffer (nl + hl + h_key_len h) (h_data_len h);
  Ret (MergeSession nm nl' hs hl key value (m_bucket m)).

(** The loop, for the rounds until the connection ends. *)
Fixpoint merge_loop W (m : merge_session) (h : header_from_pony_to_bee_t) (io : list round)
    : cres (bees (DB := DB)) :=
  if negb (sync_header_ok h) then Ret W
  else
    match io with
    | [] => Ret W
    | r :: io =>
        let malloc_size := i32 (h_range_map_name_len h + h_key_len h + h_data_len h + h_result_buf_size h) in
        if negb (r_mem r) then Ret W
        else if negb (Z.of_nat (length (r_item r)) =? malloc_size) then Ret W
        else
          m ← merge_fields m h (r_item r);
          '(res, m, W) ← esq_bucket_merge_item W m;
          if negb (res =? 0) then Ret W
          else if negb (Z.of_nat (length (r_next r)) =? sizeof_header) then Ret W
          else merge_loop W m (header_of (r_next r)) io
    end.

(** [junk] is what is in the name of the session on the stack. *)
Definition bee_db_start_merge_sprint0 W (timeout_ok : bool) (junk : list Z) (header0 : header_from_pony_to_bee_t)
    (io : list round) : cres (bees (DB := DB)) :=
  if negb timeout_ok then Ret W
  else merge_loop W (MergeSession junk 0 [] 0 [] [] None) header0 io.

End BeeDb.

(** ** Bytes *)

Lemma span_app (p k t : list Z) off n :
  off = Z.of_nat (length p) → n = Z.of_nat (length k) → span (p ++ k ++ t) off n = Ret k.
Proof.
  intros -> ->. unfold span. rewrite !length_app, decide_True by lia.
  by rewrite !Nat2Z.id, drop_app_length, take_app_length.
Qed.

Lemma length_int_bytes z : length (int_bytes z) = 4%nat.
Proof. done. Qed.

Lemma length_header_bytes h : length (header_bytes h) = 20%nat.
Proof. done. Qed.

Lemma int_bytes_bytes z : Forall is_byte (int_bytes z).
Proof.
  unfold int_bytes, is_byte. repeat (apply Forall_cons_2; [apply Z.mod_pos_bound; lia|]). apply Forall_nil_2.
Qed.

Definition is_int (z : Z) : Prop := - 2^31 <= z < 2^31.

Lemma int_of_bytes z : is_int z → int_of (int_bytes z) = z.
Proof.
  intros Hz. unfold int_of, int_bytes. cbn [foldr].
  pose proof (u32_range z) as Hu. set (u := u32 z) in *.
  assert (E : u mod 256 + 256 * (u / 2^8 mod 256 + 256 * (u / 2^16 mod 256 + 256 * (u / 2^24 mod 256 + 256 * 0))) = u).
  { assert (E1 : u / 2^8 = u / 256) by done.
    assert (E2 : u / 2^16 = u / 256 / 256) by (by rewrite Z.div_div by lia).
    assert (E3 : u / 2^24 = u / 256 / 256 / 256) by (by rewrite !Z.div_div by lia).
    rewrite E1, E2, E3. Z.div_mod_to_equations. lia. }
  rewrite E. unfold u, u32, i32, is_int in *. clear - Hz. Z.div_mod_to_equations. lia.
Qed.

Record header_ok (h : header_from_pony_to_bee_t) : Prop := {
  ho_opcode : is_int (h_opcode h);
  ho_name : is_int (h_range_map_name_len h);
  ho_key : is_int (h_key_len h);
  ho_data : is_int (h_data_len h);
  ho_size : is_int (h_result_buf_size h)
}.

Lemma header_of_bytes h : header_ok h → header_of (header_bytes h) = h.
Proof.
  intros [H1 H2 H3 H4 H5]. unfold header_of, header_bytes. cbn [int_bytes app take drop Nat.mul Nat.add].
  destruct h as [a b c d e]. simpl in *.
  f_equal; by apply int_of_bytes.
Qed.

(** ** What the chain of a key says *)

Section Chain.
Context {DB : Type} `{KcLaws DB} (N : bkey_t → Prop).
Implicit Types W : bees (DB := DB).

Definition node_bucket W (x : loc) : ptr := n ← nd (memory (rms W)) !! x; bucket n.

Definition is_me W (x : loc) : bool :=
  match nd (memory (rms W)) !! x with Some n => negb (Z.land RM_NODE_ME (flags n) =? 0) | None => false end.

Definition bucket_read W (b : loc) (key : list Z) : option (list Z) :=
  c ← bks W !! b; read (layer (dbs W) c) key.

(** What the node says of the key. *)
Definition node_value W (key : list Z) (x : loc) : option (list Z) :=
  if is_me W x then b ← node_bucket W x; bucket_read W b key else None.

(** The value of a key: the first that a bucket of a node of this server has. *)
Definition local_value W (C : list loc) (key : list Z) : option (list Z) := head (omap (node_value W key) C).

(** The buckets of the nodes, those for other servers included. *)
Definition chain_buckets W (C : list loc) : list loc := omap (node_bucket W) C.

Lemma chain_bucket_live W C b : inv N W → b ∈ chain_buckets W C → is_Some (bks W !! b).
Proof.
  intros Hi (x & _ & Hx)%list_elem_of_omap. unfold node_bucket in Hx.
  destruct (nd (memory (rms W)) !! x) as [n|] eqn:E; [|done]. by apply (bi_nodes N W Hi x n).
Qed.

Lemma bucket_get_ok W b key buffer buf_len :
  inv N W → is_Some (bks W !! b) →
  bee_bucket_get W b key buffer buf_len =
  Ret (match bucket_read W b key with
       | Some v => (ESQ_OK, Some (Z.of_nat (length v), ow (take (Z.to_nat buf_len) v) buffer))
       | None => (ESQ_ERROR_NOTFOUND, None)
       end).
Proof.
  intros Hi [c Hc]. unfold bee_bucket_get, bucket_read. rewrite (bucket_value_ok N W b c key Hi Hc), Hc.
  cbn [mbind cres_bind option_bind]. by destruct (read _ key).
Qed.

Lemma get_local_ok fuel W C key buffer buf_len :
  inv N W → seg (nd (memory (rms W))) C None → (length C < fuel)%nat →
  bee_db_get_local fuel W (head C) key buffer buf_len =
  Ret (match local_value W C key with
       | Some v => (ESQ_OK, Some (Z.of_nat (length v), ow (take (Z.to_nat buf_len) v) buffer))
       | None => (ESQ_ERROR_NOTFOUND, None)
       end).
Proof.
  intros Hi. revert fuel. induction C as [|x C IH]; intros fuel HC Hf;
    (destruct fuel as [|fuel]; [simpl in Hf; lia|]); simpl head; cbn [bee_db_get_local]; [done|].
  destruct HC as [(n & Hn & Hnx) HC]. rewrite !(nget_ok _ _ _ _ Hn). cbn [mbind cres_bind].
  rewrite Hnx, hd_or_None. pose proof (IH fuel HC ltac:(simpl in Hf; lia)) as E. clear IH.
  unfold local_value in *. cbn [omap list_omap]. unfold node_value at 1, is_me, node_bucket. rewrite Hn.
  cbn [mbind option_bind].
  destruct (Z.land RM_NODE_ME (flags n) =? 0); cbn [negb]; [exact E|].
  destruct (bucket n) as [b|] eqn:Eb; cbn [mbind option_bind]; [|exact E].
  rewrite (bucket_get_ok W b) by (done || by apply (bi_nodes N W Hi x n)). cbn [mbind cres_bind].
  destruct (bucket_read W b key) as [v|]; [done|exact E].
Qed.

(** ** Changing the buckets of a chain *)

(** Only the values of one key in some buckets change. *)
Record touches (key : list Z) (B : list loc) W W' : Prop := {
  to_inv : inv N W';
  to_bks : bks W' = bks W;
  to_rms : rms W' = rms W;
  to_other y k : y ∉ B ∨ k ≠ key → bucket_read W' y k = bucket_read W y k
}.

Lemma touches_refl key B W : inv N W → touches key B W W.
Proof. done. Qed.

Lemma touches_trans key B1 B2 W W1 W2 :
  touches key B1 W W1 → touches key B2 W1 W2 → touches key (B1 ++ B2) W W2.
Proof.
  intros [Hi1 Eb1 Er1 Ho1] [Hi2 Eb2 Er2 Ho2]. split; [done|congruence|congruence|].
  intros y k Hy. rewrite Ho2, Ho1; [done|..]; set_solver.
Qed.

(** One bucket: on success [P] holds of what it says of the key, and nothing happens on
    failure. *)
Definition bucket_step (key : list Z) (P : gmap loc bee_bucket_t → loc → option (list Z) → Prop)
    (f : bees (DB := DB) → loc → cres (Z * bees (DB := DB))) : Prop :=
  ∀ W b, inv N W → is_Some (bks W !! b) →
    ∃ r W', f W b = Ret (r, W') ∧ touches key [b] W W' ∧
      (r = 0 ∧ P (bks W) b (bucket_read W' b key) ∨ r = ESQ_ERROR_LIBCALL ∧ W' = W).

Lemma each_bucket_ok key P f fuel W C r :
  bucket_step key P f → inv N W → seg (nd (memory (rms W))) C None → (length C < fuel)%nat →
  ∃ r' W', each_bucket fuel W (head C) f r = Ret (r', W') ∧ touches key (chain_buckets W C) W W' ∧
    (chain_buckets W C = [] ∧ r' = r ∧ W' = W ∨
     chain_buckets W C ≠ [] ∧ r' = 0 ∧ (∀ b, b ∈ chain_buckets W C → P (bks W) b (bucket_read W' b key)) ∨
     chain_buckets W C ≠ [] ∧ r' = ESQ_ERROR_LIBCALL).
Proof.
  intros Hf. revert fuel W r. induction C as [|x C IH]; intros fuel W r Hi HC Hfu;
    (destruct fuel as [|fuel]; [simpl in Hfu; lia|]); simpl head; cbn [each_bucket].
  { exists r, W. split; [done|]. split; [done|]. by left. }
  destruct HC as [(n & Hn & Hnx) HC]. rewrite !(nget_ok _ _ _ _ Hn). cbn [mbind cres_bind].
  rewrite Hnx, hd_or_None. change (head (x :: C)) with (Some x). cbn iota.
  assert (Ecb : chain_buckets W (x :: C) =
    match bucket n with Some b => b :: chain_buckets W C | None => chain_buckets W C end).
  { unfold chain_buckets, node_bucket. cbn [omap list_omap]. by rewrite Hn. }
  rewrite Ecb. simpl in Hfu. clear Ecb.
  destruct (bucket n) as [b|] eqn:Eb; [|by apply IH; [..|lia]].
  destruct (Hf W b Hi) as (r1 & W1 & -> & Ht & Hr); [by apply (bi_nodes N W Hi x n)|]. cbn [mbind cres_bind].
  pose proof Ht as [Hi1 Eb1 Er1 Ho1]. destruct Hr as [[-> HP]|[-> ->]]; cbn [Z.eqb].
  2:{ eexists _, _. split; [done|]. split; [|right; right; done]. by apply touches_refl. }
  rewrite <- Er1 in HC. destruct (IH fuel W1 0 Hi1 HC) as (r' & W' & -> & Ht' & Hr'); [lia|].
  assert (Ec : chain_buckets W1 C = chain_buckets W C). { unfold chain_buckets, node_bucket. by rewrite Er1. }
  rewrite Ec, Eb1 in *. exists r', W'. split; [done|]. split; [by eapply (touches_trans key [b])|].
  right. destruct Hr' as [(En & -> & ->)|[(_ & -> & HP')|[_ ->]]]; [left..|by right]; (split; [done|]; split; [done|]).
  - rewrite En. by intros y ->%list_elem_of_singleton.
  - intros y [->|Hy]%elem_of_cons; [|by apply HP'].
    destruct (decide (b ∈ chain_buckets W C)); [by apply HP'|]. rewrite (to_other _ _ _ _ Ht'); tauto.
Qed.
(** ** Storing and removing *)

Definition has_main (m : gmap loc bee_bucket_t) (b : loc) : bool :=
  match m !! b with Some c => bool_decide (kcdb0 c ≠ None) | None => false end.

Lemma layer_step_touches W W' b c key :
  inv N W → inv N W' → bks W' = bks W → rms W' = rms W → bks W !! b = Some c →
  (∀ k, k ≠ key → read (layer (dbs W') c) k = read (layer (dbs W) c) k) →
  (∀ y d, bks W !! y = Some d → y ≠ b → layer (dbs W') d = layer (dbs W) d) →
  touches key [b] W W'.
Proof.
  intros Hi Hi' Eb Er Hc Hk Ho. split; [done..|]. intros y k Hy. unfold bucket_read. rewrite Eb.
  destruct (bks W !! y) as [d|] eqn:Hd; [|done]. cbn [mbind option_bind].
  destruct (decide (y = b)) as [->|Hne]; [|by rewrite (Ho y d)].
  rewrite Hc in Hd. injection Hd as <-. apply Hk. set_solver.
Qed.

Lemma bucket_set_step key value :
  all_near N →
  bucket_step key (fun m b o => o = if has_main m b then Some value else None)
    (fun W b => bee_bucket_set W b key value).
Proof.
  intros Hnear W b Hi [c Hc]. destruct (bucket_set_values N W b c key value Hnear Hi Hc)
    as (r & W' & E & Hi' & Eb & Er & Hr & Ho).
  exists r, W'. split; [done|]. destruct Hr as [[-> Hch]|[-> ->]]; [|by split; [|right]].
  pose proof (layer_main N W b c Hi Hc) as Hm. pose proof Hc as Hc'. rewrite <- Eb in Hc'.
  pose proof (layer_main N W' b c Hi' Hc') as Hm'.
  assert (Hkey : read (layer (dbs W') c) key = (if bool_decide (kcdb0 c ≠ None) then Some value else None) ∧
    ∀ k, k ≠ key → read (layer (dbs W') c) k = read (layer (dbs W) c) k).
  { case_bool_decide as Hz; [apply read_change_set; [done|]; apply not_eq_None_Some; tauto|].
    split; [by apply read_no_main, Hm'|]. intros k _. rewrite !read_no_main; tauto. }
  destruct Hkey as [Hk Hko]. split; [by eapply layer_step_touches|]. left. split; [done|].
  unfold bucket_read, has_main. rewrite Hc', Hc. exact Hk.
Qed.

Lemma read_change_remove (l l' : option DB * option DB) key :
  l.2 = None → change (fun d => kc_remove d key) l = Some l' →
  read l' key = None ∧ ∀ k, k ≠ key → read l' k = read l k.
Proof.
  destruct l as [[d0|] [d1|]]; simpl; intros E2 E; try done. unfold change in E. simpl in E.
  destruct (kc_remove d0 key) as [d|] eqn:Ed; [|done]. injection E as <-. simpl.
  split; [by eapply kc_get_remove|]. intros k Hk. by apply (kc_get_remove_other _ _ _ _ Ed).
Qed.

(** A removed key is gone, or has only the time of the removal. *)
Lemma bucket_del_step key stamp :
  all_near N →
  bucket_step key (fun _ _ o => o = None ∨ o = Some stamp) (fun W b => bee_bucket_del W b key stamp).
Proof.
  intros Hnear W b Hi [c Hc]. destruct (bucket_del_values N W b c key stamp Hnear Hi Hc)
    as (r & W' & E & Hi' & Eb & Er & Hr & Ho).
  exists r, W'. split; [done|]. destruct Hr as [[-> Hch]|[-> ->]]; [|by split; [|right]].
  pose proof (layer_main N W b c Hi Hc) as Hm. pose proof Hc as Hc'. rewrite <- Eb in Hc'.
  pose proof (layer_main N W' b c Hi' Hc') as Hm'.
  assert (Hkey : (read (layer (dbs W') c) key = None ∨ read (layer (dbs W') c) key = Some stamp) ∧
    ∀ k, k ≠ key → read (layer (dbs W') c) k = read (layer (dbs W) c) k).
  { destruct (kcdb1 c) as [h1|] eqn:E1.
    - destruct (decide (kcdb0 c = None)) as [Hz|Hz].
      + split; [left; by apply read_no_main, Hm'|]. intros k _. rewrite !read_no_main; tauto.
      + destruct (read_change_set _ _ _ _ Hch) as [-> ?]; [apply not_eq_None_Some; tauto|]. split; [by right|done].
    - assert (E2 : (layer (dbs W) c).2 = None) by (unfold layer, db_at; by rewrite E1).
      destruct (read_change_remove _ _ key E2 Hch) as [-> ?]. split; [by left|done]. }
  destruct Hkey as [Hk Hko]. split; [by eapply layer_step_touches|]. left. split; [done|].
  unfold bucket_read. rewrite Hc'. exact Hk.
Qed.
End Chain.

(** ** Other servers *)

(** The server can be reached and the kernel takes what it is given, in pieces. *)
Definition peer_ok (pr : peer) : Prop :=
  open_ok pr = true ∧ sendto pr = sizeof_header ∧ ∀ n, 0 < n → 0 < write pr n <= n.

Lemma forward_loop_total fuel write buf size offset sent :
  0 <= offset → size <= Z.of_nat (length buf) → size - offset <= Z.of_nat fuel →
  ∃ r s, forward_loop fuel write buf size offset sent = Ret (r, s) ∧ (r = ESQ_OK ∨ r = ESQ_ERROR_LIBCALL).
Proof.
  revert offset sent. induction fuel as [|fuel IH]; intros offset sent Ho Hs Hf; cbn [forward_loop];
    (destruct (Z.ltb_spec offset size); [|eauto]); [lia|].
  unfold span at 1. rewrite decide_True by lia. cbn [mbind cres_bind]. cbv zeta.
  destruct (Z.leb_spec (write (size - offset)) 0); [eauto|]. apply IH; lia.
Qed.

Lemma forward_loop_ok fuel write (d t : list Z) sent :
  (∀ n, 0 < n → 0 < write n <= n) → (length t <= fuel)%nat →
  forward_loop fuel write (d ++ t) (Z.of_nat (length (d ++ t))) (Z.of_nat (length d)) sent = Ret (ESQ_OK, sent ++ t).
Proof.
  intros Hw. revert d t sent. induction fuel as [|fuel IH]; intros d t sent Hf; cbn [forward_loop];
    rewrite length_app, Nat2Z.inj_add; (destruct (Z.ltb_spec (Z.of_nat (length d)) (Z.of_nat (length d) + Z.of_nat (length t)))
      as [Hlt|Hge]; [|destruct t; [by rewrite app_nil_r|simpl in Hge; lia]]); [lia|].
  rewrite Z.add_simpl_l. pose proof (span_app d t [] _ _ eq_refl eq_refl) as E. rewrite app_nil_r in E.
  rewrite E. cbn [mbind cres_bind]. cbv zeta. pose proof (Hw (Z.of_nat (length t)) ltac:(lia)) as Hr.
  destruct (Z.leb_spec (write (Z.of_nat (length t))) 0); [lia|].
  set (k := Z.to_nat (write (Z.of_nat (length t)))) in *.
  assert (Hk : (0 < k <= length t)%nat) by lia.
  pose proof (IH (d ++ take k t) (drop k t) (sent ++ take k t)) as E'.
  rewrite <- !app_assoc, take_drop, !length_app, length_take, length_drop in E'.
  rewrite <- E' by lia. f_equal; lia.
Qed.

(** The message another server gets. *)
Definition message (op : Z) (s : bee_db_op_session_t) : list Z :=
  header_bytes (set_h_opcode op (s_header s)) ++ s_recv_buf s.

Section Sync.
Context (S : state).
Implicit Types (s : bee_db_op_session_t) (net : loc → peer).

(** The nodes a request is passed on to. *)
Definition is_remote (x : loc) : bool :=
  match nd (memory S) !! x with
  | Some n => (Z.land RM_NODE_ME (flags n) =? 0) && bool_decide (bucket n = None)
  | None => false
  end.

Lemma forward_ok pr x n op s :
  nd (memory S) !! x = Some n → s_recv_buf_size s = Z.of_nat (length (s_recv_buf s)) →
  ∃ r out, bee_db_forward_to_node S pr x op s = Ret (r, set_s_header (set_h_opcode op (s_header s)) s, out) ∧
    (r = ESQ_OK ∨ r = ESQ_ERROR_LIBCALL) ∧
    (peer_ok pr → r = ESQ_OK ∧ out = [(address n, message op s)]).
Proof.
  intros Hn Hs. unfold bee_db_forward_to_node, range_map_get_node_address. rewrite (nget_ok _ _ _ _ Hn).
  cbn [mbind cres_bind]. destruct (open_ok pr) eqn:Eo; cbn [negb].
  2:{ eexists _, _. split; [done|]. split; [by right|]. intros (? & _). congruence. }
  destruct (Z.eqb_spec sizeof_header (sendto pr)) as [Es|Es]; cbn [negb].
  2:{ eexists _, _. split; [done|]. split; [by right|]. intros (_ & ? & _). congruence. }
  cbn [s_recv_buf_size s_recv_buf set_s_header]. rewrite <- Es, Hs, Nat2Z.id.
  destruct (forward_loop_total (length (s_recv_buf s)) (write pr) (s_recv_buf s) (Z.of_nat (length (s_recv_buf s))) 0
    (take (Z.to_nat sizeof_header) (header_bytes (s_header (set_s_header (set_h_opcode op (s_header s)) s)))))
    as (r & out & E & Hr); [lia..|].
  rewrite E. cbn [mbind cres_bind]. eexists _, _. split; [done|]. split; [done|]. intros (_ & _ & Hw).
  pose proof (forward_loop_ok (length (s_recv_buf s)) (write pr) [] (s_recv_buf s)
    (take (Z.to_nat sizeof_header) (header_bytes (s_header (set_s_header (set_h_opcode op (s_header s)) s)))) Hw)
    as E'. cbn [app length] in E'. change (Z.of_nat 0) with 0 in E'. rewrite E' in E by lia. injection E as <- <-. done.
Qed.

(** What is sent when a chain of nodes is synchronised. *)
Definition remote_messages (C : list loc) (m : list Z) : sent_t :=
  (fun a => (a, m)) <$> addresses_of (nd (memory S)) (filter (fun x => is_remote x = true) C).

Lemma remote_messages_cons x n C m :
  nd (memory S) !! x = Some n →
  remote_messages (x :: C) m = (if is_remote x then [(address n, m)] else []) ++ remote_messages C m.
Proof.
  intros Hn. unfold remote_messages. destruct (is_remote x) eqn:E.
  - rewrite filter_cons_True by done. unfold addresses_of. cbn [omap list_omap]. by rewrite Hn.
  - by rewrite filter_cons_False by congruence.
Qed.

Lemma sync_loop_ok fuel net C op s sent :
  seg (nd (memory S)) C None → (length C < fuel)%nat →
  s_recv_buf_size s = Z.of_nat (length (s_recv_buf s)) →
  ∃ r s' out, sync_loop fuel S net (head C) op s sent = Ret (r, s', out) ∧
    (r = ESQ_OK ∨ r = ESQ_ERROR_LIBCALL) ∧
    ((∀ x, x ∈ C → is_remote x = true → peer_ok (net x)) →
     r = ESQ_OK ∧ out = sent ++ remote_messages C (message op s)).
Proof.
  revert fuel s sent. induction C as [|x C IH]; intros fuel s sent HC Hf Hs;
    (destruct fuel as [|fuel]; [simpl in Hf; lia|]); simpl head; cbn [sync_loop].
  { eexists _, _, _. split; [done|]. split; [by left|]. intros _. by rewrite app_nil_r. }
  destruct HC as [(n & Hn & Hnx) HC]. rewrite !(nget_ok _ _ _ _ Hn). cbn [mbind cres_bind].
  rewrite Hnx, hd_or_None. change (head (x :: C)) with (Some x). cbn iota. simpl in Hf.
  rewrite (remote_messages_cons x n) by done.
  assert (Hrem : is_remote x = (Z.land RM_NODE_ME (flags n) =? 0) && bool_decide (bucket n = None))
    by (unfold is_remote; by rewrite Hn).
  assert (Hskip : is_remote x = false → ∃ r s' out, sync_loop fuel S net (head C) op s sent = Ret (r, s', out) ∧
    (r = ESQ_OK ∨ r = ESQ_ERROR_LIBCALL) ∧
    ((∀ x0, x0 ∈ x :: C → is_remote x0 = true → peer_ok (net x0)) →
     r = ESQ_OK ∧ out = sent ++ (if is_remote x then [(address n, message op s)] else []) ++ remote_messages C (message op s))).
  { intros ->. destruct (IH fuel s sent HC ltac:(lia) Hs) as (r & s' & out & E & Hr & Ho).
    exists r, s', out. split; [done|]. split; [done|]. intros Hp. apply Ho. set_solver. }
  destruct (Z.land RM_NODE_ME (flags n) =? 0); cbn [negb]; [|by apply Hskip].
  destruct (bucket n) as [b|]; cbn [mbind cres_bind Z.eqb]; [rewrite app_nil_r; by apply Hskip|]. clear Hskip.
  destruct (forward_ok (net x) x n op s Hn Hs) as (r & out & -> & Hr & Hout). cbn [mbind cres_bind].
  rewrite Hrem. cbn [andb]. rewrite bool_decide_true by done.
  assert (Hpx : (∀ x0, x0 ∈ x :: C → is_remote x0 = true → peer_ok (net x0)) → peer_ok (net x)).
  { intros Hp. apply Hp; [set_solver|]. rewrite Hrem. by rewrite bool_decide_true. }
  destruct Hr as [-> | ->]; cbn [Z.eqb].
  - destruct (IH fuel (set_s_header (set_h_opcode op (s_header s)) s) (sent ++ out) HC ltac:(lia) Hs)
      as (r & s' & out' & E & Hr & Ho).
    change (ESQ_OK =? 0) with true. cbn iota. rewrite E. exists r, s', out'. split; [done|]. split; [done|].
    intros Hp. destruct (Hout (Hpx Hp)) as [_ ->]. destruct Ho as [-> ->]; [set_solver|].
    by rewrite <- app_assoc.
  - change (ESQ_ERROR_LIBCALL =? 0) with false. cbn iota. eexists _, _, _. split; [done|]. split; [by right|].
    intros Hp. by destruct (Hout (Hpx Hp)).
Qed.
End Sync.
