(* ===== verification/BeeDbThms.v ===== *)
(** * What the requests promise

    The theorems about the handlers of [BeeDb]: what a request reads, stores, removes and
    passes on is told by the chain of nodes of its key ([chain]) and the values of the
    buckets ([bucket_read]). *)
From stdpp Require Import strings functions.
From S2P Require Import Prelude CString LinkedList RbTree RangeMap RangeIndex RangeTable Bucket BucketInv BucketThms BeeDb.

(** A request as it is in the receive buffer: the name with its zero, the key, the time and
    the data. *)
Definition payload (nm key stamp data : list Z) : list Z := nm ++ 0 :: key ++ stamp ++ data.

Record request (c : bee_service_ctx_t) (nm key stamp data : list Z) : Prop := {
  rq_buf : ctx_recv_buf c = Some (payload nm key stamp data);
  rq_size : ctx_payload_size c = Z.of_nat (length (payload nm key stamp data));
  rq_name : cstring nm;
  rq_name_len : h_range_map_name_len (ctx_header c) = Z.of_nat (length nm);
  rq_key_len : h_key_len (ctx_header c) = Z.of_nat (length key);
  rq_stamp : Z.of_nat (length stamp) = sizeof_timeval;
  rq_data_len : h_data_len (ctx_header c) = Z.of_nat (length data);
  rq_small : Z.of_nat (length (payload nm key stamp data)) < 2^31
}.

Lemma payload_key nm key stamp data : payload nm key stamp data = (nm ++ [0]) ++ key ++ stamp ++ data.
Proof. unfold payload. by rewrite <- app_assoc. Qed.

Lemma payload_value nm key stamp data :
  payload nm key stamp data = (nm ++ [0] ++ key) ++ (stamp ++ data) ++ [].
Proof. unfold payload. by rewrite !app_nil_r, <- !app_assoc. Qed.

Lemma payload_stamp nm key stamp data : payload nm key stamp data = (nm ++ [0] ++ key) ++ stamp ++ data.
Proof. unfold payload. by rewrite <- !app_assoc. Qed.

Lemma length_payload nm key stamp data :
  Z.of_nat (length (payload nm key stamp data)) =
  Z.of_nat (length nm) + 1 + Z.of_nat (length key) + Z.of_nat (length stamp) + Z.of_nat (length data).
Proof. unfold payload. rewrite length_app. simpl. rewrite !length_app. lia. Qed.

Section Handlers.
Context {DB : Type} `{KcLaws DB} (N : bkey_t → Prop).
Context (sha256 : list Z → list Z) (Hsha : ∀ k, length (sha256 k) = 32%nat).
Implicit Types (W : bees (DB := DB)) (c : bee_service_ctx_t).

(** The nodes of a key, longest range first. *)
Definition chain W (A : list (list loc * list loc)) (nm key : list Z) : list loc :=
  answer (rms W) A nm (sha256 key).

Lemma chain_fuel W A nm key :
  table_ok (rms W) A →
  (length (chain W A nm key) < list_fuel (memory (rms W)))%nat ∧ seg (nd (memory (rms W))) (chain W A nm key) None.
Proof.
  intros HT. unfold chain. split.
  - apply list_fuel_ok; [by apply answer_NoDup|]. intros x Hx.
    destruct (answer_alive (rms W) A nm (sha256 key) x HT (Hsha key) Hx) as (n & -> & _). eauto.
  - unfold answer.
    destruct (lookup_name (rms W) nm) as [[i m]|] eqn:El; [|done].
    apply lookup_name_Some in El as [Hm _]. destruct (table_map _ _ _ _ HT Hm) as (L & V & HA & Hok).
    unfold indexed_of. rewrite HA. eapply find_ok; [apply (mo_built _ _ _ _ Hok)|done].
Qed.

Lemma request_chain W A c nm key stamp data :
  table_ok (rms W) A → request c nm key stamp data →
  let h := ctx_header c in let b := payload nm key stamp data in
  get_hash_value sha256 b (h_range_map_name_len h + 1) (h_key_len h) = Ret (sha256 key) ∧
  span b (h_range_map_name_len h + 1) (h_key_len h) = Ret key ∧
  range_map_find_and_lock (rms W) b (sha256 key) = Ret (head (chain W A nm key)).
Proof.
  intros HT Hrq. cbv zeta. rewrite (rq_name_len _ _ _ _ _ Hrq), (rq_key_len _ _ _ _ _ Hrq).
  assert (E : span (payload nm key stamp data) (Z.of_nat (length nm) + 1) (Z.of_nat (length key)) = Ret key).
  { rewrite payload_key. apply span_app; [rewrite length_app; simpl; lia|done]. }
  split; [unfold get_hash_value; by rewrite E|]. split; [done|].
  by destruct (find_and_lock_ok (rms W) A nm (key ++ stamp ++ data) (sha256 key) HT (rq_name _ _ _ _ _ Hrq) (Hsha key)).
Qed.

(** What [bee_db_get] leaves in the session. *)
Definition get_result c (m : reply_from_bee_to_pony_2_t) (o : option (list Z)) : bee_service_ctx_t :=
  match o with
  | None => set_reply (Reply ESQ_ERROR_NOTFOUND 0) (set_reply_ptr (Some m) c)
  | Some v =>
      let data := ow (take (Z.to_nat (h_result_buf_size (ctx_header c))) v) (result m) in
      if Z.of_nat (length v) <=? sizeof_timeval
      then set_reply (Reply ESQ_ERROR_NOTFOUND 0)
             (set_reply_ptr (Some (Reply2 (return_code2 m) (result_len2 m) data)) c)
      else set_reply_ptr (Some (Reply2 ESQ_OK (Z.of_nat (length v) - sizeof_timeval) data)) c
  end.

Lemma db_get_ok W A c m nm key stamp data :
  inv N W → table_ok (rms W) A → request c nm key stamp data → 0 < h_result_buf_size (ctx_header c) →
  bee_db_get sha256 W c (Some m) = Ret (get_result c m (local_value W (chain W A nm key) key)).
Proof.
  intros Hi HT Hrq Hs. unfold bee_db_get. destruct (Z.leb_spec (h_result_buf_size (ctx_header c)) 0); [lia|].
  unfold recv_buf_of. cbn [ctx_recv_buf set_reply_ptr]. rewrite (rq_buf _ _ _ _ _ Hrq). cbn [mbind cres_bind].
  destruct (request_chain W A c nm key stamp data HT Hrq) as (-> & Es & Ef). cbn [mbind cres_bind].
  rewrite Ef. cbn [mbind cres_bind].
  destruct (chain_fuel W A nm key HT) as [Hf Hseg].
  destruct (chain W A nm key) as [|x C] eqn:EC; [done|].
  change (head (x :: C)) with (Some x) at 1. cbn iota. rewrite Es. cbn [mbind cres_bind].
  rewrite (get_local_ok N) by done. cbn [mbind cres_bind].
  unfold get_result. destruct (local_value W (x :: C) key) as [v|]; [|done].
  change (negb (ESQ_OK =? 0)) with false. cbn iota. by destruct (_ <=? _).
Qed.

(** What storing and removing do in the buckets of the chain. *)
Lemma op_spans c nm key stamp data nodes (k : list Z) (t : list Z) vl :
  request c nm key stamp data → stamp ++ data = k ++ t → vl = Z.of_nat (length k) →
  let s := op_session c (payload nm key stamp data) nodes vl in
  span (s_recv_buf s) (s_key s) (s_key_len s) = Ret key ∧ span (s_recv_buf s) (s_value s) (s_value_len s) = Ret k.
Proof.
  intros Hrq Ek ->. cbn. rewrite (rq_name_len _ _ _ _ _ Hrq), (rq_key_len _ _ _ _ _ Hrq). split.
  - rewrite payload_key. apply span_app; [rewrite length_app; simpl; lia|done].
  - rewrite payload_stamp, Ek. apply span_app; [rewrite !length_app; simpl; lia|done].
Qed.

Lemma finish_op_ok W net (need_sync : bool) op c s r C :
  s_range_nodes s = head C → seg (nd (memory (rms W))) C None → (length C < list_fuel (memory (rms W)))%nat →
  s_recv_buf_size s = Z.of_nat (length (s_recv_buf s)) →
  ∃ c' sent, finish_op W net need_sync op c s r = Ret (c', W, sent) ∧ (need_sync = false → sent = []) ∧
    ctx_reply_ptr c' = ctx_reply_ptr c ∧ result_len (ctx_reply c') = 0 ∧
    (r ≠ 0 → return_code (ctx_reply c') = r) ∧
    (r = 0 → return_code (ctx_reply c') = ESQ_OK ∨ return_code (ctx_reply c') = ESQ_ERROR_LIBCALL) ∧
    (r = 0 → (∀ x, x ∈ C → is_remote (rms W) x = true → peer_ok (net x)) →
       return_code (ctx_reply c') = ESQ_OK ∧
       sent = if need_sync then remote_messages (rms W) C (message op s) else []).
Proof.
  intros Hn Hseg Hf Hs. unfold finish_op. destruct (Z.eqb_spec r 0) as [->|Hr]; cbn [negb].
  2:{ eexists _, _. split; [done|]. split_and!; done. }
  destruct need_sync; [|eexists _, _; split; [done|]; split_and!; auto; done].
  unfold bee_db_sync_to_remote. rewrite Hn.
  destruct (sync_loop_ok (rms W) (list_fuel (memory (rms W))) net C op s [] Hseg Hf Hs) as (r & s' & out & -> & Hr & Ho).
  cbn [mbind cres_bind]. eexists _, _. split; [done|]. split_and!; try done. 
Qed.

(** The answer [c'] to a request that changes the buckets [B] of a chain: [P] holds of what
    every one says of the key, unless one failed; all other values stay. *)
Record carried_out (key : list Z) (P : gmap loc bee_bucket_t → loc → option (list Z) → Prop) (B : list loc)
    W c W' c' : Prop := {
  co_touches : touches N key B W W';
  co_reply_ptr : ctx_reply_ptr c' = ctx_reply_ptr c;
  co_result_len : result_len (ctx_reply c') = 0;
  co_none : B = [] → W' = W;
  co_code : B ≠ [] → return_code (ctx_reply c') = ESQ_OK ∨ return_code (ctx_reply c') = ESQ_ERROR_LIBCALL;
  co_values b : return_code (ctx_reply c') = ESQ_OK → b ∈ B → P (bks W) b (bucket_read W' b key)
}.

Lemma op_ok key P f W net (need_sync : bool) op c s r0 C :
  bucket_step N key P f → inv N W →
  s_range_nodes s = head C → seg (nd (memory (rms W))) C None → (length C < list_fuel (memory (rms W)))%nat →
  s_recv_buf_size s = Z.of_nat (length (s_recv_buf s)) →
  let B := chain_buckets W C in
  ∃ c' W' sent,
    ('(r, W) ← each_bucket (list_fuel (memory (rms W))) W (s_range_nodes s) f r0;
     finish_op W net need_sync op c s r) = Ret (c', W', sent) ∧ (need_sync = false → sent = []) ∧
    carried_out key P B W c W' c' ∧
    (B = [] → r0 ≠ 0 → return_code (ctx_reply c') = r0) ∧
    (B = [] → r0 = 0 → return_code (ctx_reply c') = ESQ_OK ∨ return_code (ctx_reply c') = ESQ_ERROR_LIBCALL) ∧
    (return_code (ctx_reply c') = ESQ_OK → (∀ x, x ∈ C → is_remote (rms W) x = true → peer_ok (net x)) →
       sent = if need_sync then remote_messages (rms W) C (message op s) else []).
Proof.
  intros Hf Hi Hn Hseg Hfu Hs. cbv zeta. rewrite Hn.
  destruct (each_bucket_ok N key P f _ W C r0 Hf Hi Hseg Hfu) as (r & W' & -> & Ht & Hr). cbn [mbind cres_bind].
  pose proof (to_rms _ _ _ _ _ Ht) as Er. rewrite <- Er in Hseg, Hfu.
  destruct (finish_op_ok W' net need_sync op c s r C Hn Hseg Hfu Hs) as (c' & sent & -> & Hns & Hp & Hl & Hne & Hz0 & Hsent).
  rewrite Er in Hsent. assert (Hcode : return_code (ctx_reply c') = ESQ_OK → r = 0).
  { intros E. destruct (decide (r = 0)) as [|Hz]; [done|]. by rewrite <- (Hne Hz). }
  exists c', W', sent. split; [done|]. split; [done|]. split.
  { split; [done..| | |].
    - intros E. destruct Hr as [(_ & _ & ?)|[[? _]|[? _]]]; done.
    - intros E. destruct Hr as [(? & _)|[(_ & -> & _)|[_ ->]]]; [done|by apply Hz0|right; by apply Hne].
    - intros b E Hb. destruct Hr as [(EB & _)|[(_ & _ & HP)|[_ ->]]].
      + rewrite EB in Hb. set_solver.
      + by apply HP.
      + by apply Hcode in E. }
  split; [|split].
  - intros E Hz. destruct Hr as [(_ & -> & _)|[[? _]|[? _]]]; [|done..]. by apply Hne.
  - intros E Hz. destruct Hr as [(_ & -> & _)|[[? _]|[? _]]]; [|done..]. by apply Hz0.
  - intros E Hp'. by apply Hsent; [apply Hcode|].
Qed.

Lemma db_set_ok W A net c (need_sync : bool) nm key stamp data :
  all_near N → inv N W → table_ok (rms W) A → request c nm key stamp data →
  let C := chain W A nm key in let B := chain_buckets W C in
  ∃ c' W' sent, bee_db_set sha256 W net c need_sync = Ret (c', W', sent) ∧ (need_sync = false → sent = []) ∧
    carried_out key (fun m b o => o = if has_main m b then Some (stamp ++ data) else None) B W c W' c' ∧
    (B = [] → return_code (ctx_reply c') = ESQ_ERROR_NOTFOUND) ∧
    (return_code (ctx_reply c') = ESQ_OK → (∀ x, x ∈ C → is_remote (rms W) x = true → peer_ok (net x)) →
       sent = if need_sync
              then remote_messages (rms W) C
                     (header_bytes (set_h_opcode BEE_OP_INTERNAL_SET (ctx_header c)) ++ payload nm key stamp data)
              else []).
Proof.
  intros Hnear Hi HT Hrq. cbv zeta. unfold bee_db_set, recv_buf_of. rewrite (rq_buf _ _ _ _ _ Hrq). cbn [mbind cres_bind].
  destruct (request_chain W A c nm key stamp data HT Hrq) as (-> & _ & Ef). cbn [mbind cres_bind].
  rewrite Ef. cbn [mbind cres_bind]. destruct (chain_fuel W A nm key HT) as [Hf Hseg].
  destruct (chain W A nm key) as [|x C] eqn:EC.
  { eexists _, W, []. split; [done|]. split; [done|]. split; [by split|]. split; [done|]. intros E. discriminate E. }
  change (head (x :: C)) with (Some x) at 1. cbn iota. rewrite <- EC in *.
  assert (Hvl : i32 (sizeof_timeval + h_data_len (ctx_header c)) = Z.of_nat (length (stamp ++ data))).
  { rewrite (rq_data_len _ _ _ _ _ Hrq), length_app, Nat2Z.inj_add, (rq_stamp _ _ _ _ _ Hrq). apply i32_small.
    pose proof (rq_small _ _ _ _ _ Hrq). pose proof (rq_stamp _ _ _ _ _ Hrq). rewrite length_payload in *.
    unfold sizeof_timeval in *. lia. }
  destruct (op_spans c nm key stamp data (head (chain W A nm key)) (stamp ++ data) [] _ Hrq ltac:(by rewrite app_nil_r) Hvl)
    as [E1 E2].
  unfold bee_db_set_local. rewrite E1, E2. cbn [mbind cres_bind].
  destruct (op_ok key _ _ W net need_sync BEE_OP_INTERNAL_SET c (op_session c (payload nm key stamp data)
    (head (chain W A nm key)) (i32 (sizeof_timeval + h_data_len (ctx_header c)))) ESQ_ERROR_NOTFOUND (chain W A nm key)
    (bucket_set_step N key (stamp ++ data) Hnear) Hi eq_refl Hseg Hf (rq_size _ _ _ _ _ Hrq))
    as (c' & W' & sent & E & Hns & Hco & Hn & _ & Hsent).
  exists c', W', sent. split; [exact E|]. split; [done|]. split; [done|]. split; [intros EB; by apply Hn|done].
Qed.
Lemma db_del_ok W A net c (need_sync : bool) nm key stamp data :
  all_near N → inv N W → table_ok (rms W) A → request c nm key stamp data →
  let C := chain W A nm key in let B := chain_buckets W C in
  ∃ c' W' sent, bee_db_del sha256 W net c need_sync = Ret (c', W', sent) ∧ (need_sync = false → sent = []) ∧
    carried_out key (fun _ _ o => o = None ∨ o = Some stamp) B W c W' c' ∧
    (C = [] → return_code (ctx_reply c') = ESQ_ERROR_NOTFOUND) ∧
    (return_code (ctx_reply c') = ESQ_OK → (∀ x, x ∈ C → is_remote (rms W) x = true → peer_ok (net x)) →
       sent = if need_sync
              then remote_messages (rms W) C
                     (header_bytes (set_h_opcode BEE_OP_INTERNAL_DEL (ctx_header c)) ++ payload nm key stamp data)
              else []).
Proof.
  intros Hnear Hi HT Hrq. cbv zeta. unfold bee_db_del, recv_buf_of. rewrite (rq_buf _ _ _ _ _ Hrq). cbn [mbind cres_bind].
  destruct (request_chain W A c nm key stamp data HT Hrq) as (-> & _ & Ef). cbn [mbind cres_bind].
  rewrite Ef. cbn [mbind cres_bind]. destruct (chain_fuel W A nm key HT) as [Hf Hseg].
  destruct (chain W A nm key) as [|x C] eqn:EC.
  { eexists _, W, []. split; [done|]. split; [done|]. split; [by split|]. split; [done|]. intros E. discriminate E. }
  change (head (x :: C)) with (Some x) at 1. cbn iota. rewrite <- EC in *.
  destruct (op_spans c nm key stamp data (head (chain W A nm key)) stamp data sizeof_timeval Hrq eq_refl
    (eq_sym (rq_stamp _ _ _ _ _ Hrq))) as [E1 E2].
  unfold bee_db_del_local. rewrite E1, E2. cbn [mbind cres_bind].
  destruct (op_ok key _ _ W net need_sync BEE_OP_INTERNAL_DEL c (op_session c (payload nm key stamp data)
    (head (chain W A nm key)) sizeof_timeval) ESQ_OK (chain W A nm key)
    (bucket_del_step N key stamp Hnear) Hi eq_refl Hseg Hf (rq_size _ _ _ _ _ Hrq))
    as (c' & W' & sent & E & Hns & Hco & Hn & _ & Hsent).
  exists c', W', sent. split; [exact E|]. split; [done|]. split; [done|]. split; [intros EB; congruence|done].
Qed.

Lemma chain_frame W W' A nm key : rms W' = rms W → chain W' A nm key = chain W A nm key.
Proof. unfold chain. by intros ->. Qed.
End Handlers.

(** ** Reading what was stored *)

Section Values.
Context {DB : Type} `{KcLib DB} (N : bkey_t → Prop).
Implicit Types W : bees (DB := DB).

(** Some node of this server has a bucket with data. *)
Definition serves W (x : loc) : bool :=
  is_me W x && match node_bucket W x with Some b => has_main (bks W) b | None => false end.

Lemma serves_bucket W C : existsb (serves W) C = true → chain_buckets W C ≠ [].
Proof.
  intros (x & Hx & Hs)%existsb_exists E. unfold serves in Hs. destruct (node_bucket W x) as [b|] eqn:Eb;
    [|by rewrite andb_false_r in Hs].
  assert (Hb : b ∈ chain_buckets W C). { apply list_elem_of_omap. exists x. split; [|done]. by apply list_elem_of_In. }
  rewrite E in Hb. set_solver.
Qed.

Lemma local_value_cons W x C key :
  local_value W (x :: C) key = match node_value W key x with Some v => Some v | None => local_value W C key end.
Proof. unfold local_value. cbn [omap list_omap]. by destruct (node_value W key x). Qed.

Lemma node_value_frame W W' key x :
  rms W' = rms W →
  node_value W' key x = if is_me W x then b ← node_bucket W x; bucket_read W' b key else None.
Proof. intros E. unfold node_value, is_me, node_bucket. by rewrite E. Qed.

Lemma local_value_set W W' C key v :
  rms W' = rms W →
  (∀ b, b ∈ chain_buckets W C → bucket_read W' b key = if has_main (bks W) b then Some v else None) →
  local_value W' C key = if existsb (serves W) C then Some v else None.
Proof.
  intros Er. induction C as [|x C IH]; intros HB; [done|]. rewrite local_value_cons, (node_value_frame W) by done.
  cbn [existsb]. unfold serves at 1. unfold chain_buckets in HB. cbn [omap list_omap] in HB.
  destruct (node_bucket W x) as [b|]; cbn [mbind option_bind].
  - rewrite (HB b) by set_solver. destruct (is_me W x); cbn [andb]; [destruct (has_main (bks W) b); [done|]|];
      apply IH; set_solver.
  - destruct (is_me W x); cbn [andb]; by apply IH.
Qed.

Lemma local_value_del W W' C key stamp :
  rms W' = rms W → (∀ b, b ∈ chain_buckets W C → bucket_read W' b key = None ∨ bucket_read W' b key = Some stamp) →
  local_value W' C key = None ∨ local_value W' C key = Some stamp.
Proof.
  intros Er. induction C as [|x C IH]; intros HB; [by left|]. rewrite local_value_cons, (node_value_frame W) by done.
  unfold chain_buckets in HB. cbn [omap list_omap] in HB.
  destruct (node_bucket W x) as [b|]; cbn [mbind option_bind].
  - assert (IH' : local_value W' C key = None ∨ local_value W' C key = Some stamp) by (apply IH; set_solver).
    destruct (is_me W x); [|done]. destruct (HB b) as [-> | ->]; [set_solver|done|by right].
  - destruct (is_me W x); by apply IH.
Qed.

(** Values of other keys. *)
Lemma local_value_frame key B W W' C k :
  touches N key B W W' → k ≠ key → local_value W' C k = local_value W C k.
Proof.
  intros Ht Hk. induction C as [|x C IH]; [done|]. rewrite !local_value_cons, IH, (node_value_frame W) by apply Ht.
  unfold node_value. destruct (is_me W x), (node_bucket W x) as [b|]; try done. cbn [mbind option_bind].
  by rewrite (to_other _ _ _ _ _ Ht) by tauto.
Qed.
End Values.

(** ** The contract of removing *)

Section Removing.
Context {DB : Type} `{KcLaws DB} (N : bkey_t → Prop).
Context (sha256 : list Z → list Z) (Hsha : ∀ k, length (sha256 k) = 32%nat).
Implicit Types (W : bees (DB := DB)) (c : bee_service_ctx_t).

(** C12: a request to remove a key always returns, with an answer (for keys whose searches in
    the range maps and buckets do not wrap); it changes nothing but what the buckets of the
    chain say of that key.  After a success the handler of a request to read the key sets the
    answer to not found with no data, although a bucket with two databases keeps the time of
    the removal under the key; but the block for the answer, which the session sends first, is
    set too, with the code and the length its memory had before. *)
Theorem bee_db_del_then_get W A net c c2 (need_sync : bool) nm key stamp data stamp2 data2 m :
  all_near N → inv N W → table_ok (rms W) A → request c nm key stamp data → request c2 nm key stamp2 data2 →
  0 < h_result_buf_size (ctx_header c2) →
  ∃ c' W' sent, bee_db_del sha256 W net c need_sync = Ret (c', W', sent) ∧ inv N W' ∧
    (∀ b k, b ∉ chain_buckets W (chain sha256 W A nm key) ∨ k ≠ key → bucket_read W' b k = bucket_read W b k) ∧
    (return_code (ctx_reply c') = ESQ_OK →
     ∃ c2' m2, bee_db_get sha256 W' c2 (Some m) = Ret c2' ∧ ctx_reply c2' = Reply ESQ_ERROR_NOTFOUND 0 ∧
       ctx_reply_ptr c2' = Some m2 ∧ return_code2 m2 = return_code2 m ∧ result_len2 m2 = result_len2 m).
Proof.
  intros Hnear Hi HT Hrq Hrq2 Hs.
  destruct (db_del_ok N sha256 Hsha W A net c need_sync nm key stamp data Hnear Hi HT Hrq)
    as (c' & W' & sent & E & _ & [Ht _ _ _ _ Hv] & _ & _).
  exists c', W', sent. split; [done|]. split; [apply Ht|]. split; [apply Ht|]. intros Hok.
  assert (HT' : table_ok (rms W') A) by (by rewrite (to_rms _ _ _ _ _ Ht)).
  rewrite (db_get_ok N sha256 Hsha W' A c2 m nm key stamp2 data2 (to_inv _ _ _ _ _ Ht) HT' Hrq2 Hs).
  rewrite (chain_frame sha256 W W') by apply Ht.
  destruct (local_value_del W W' (chain sha256 W A nm key) key stamp) as [-> | ->].
  - apply Ht.
  - intros b Hb. by apply Hv.
  - by eexists _, _.
  - unfold get_result. rewrite (proj2 (Z.leb_le _ _)) by (by rewrite (rq_stamp _ _ _ _ _ Hrq)). by eexists _, _.
Qed.
End Removing.

(** ** Merging *)

Section Merge.
Context {DB : Type} `{KcLaws DB} (N : bkey_t → Prop).
Implicit Types W : bees (DB := DB).

(** The sizes an item announces are not so large that their sum wraps. *)
Definition sizes_ok (h : header_from_pony_to_bee_t) : Prop :=
  sync_header_ok h = true →
  h_range_map_name_len h + h_key_len h + h_data_len h + h_result_buf_size h < 2^31.

Record merging W (m : merge_session) : Prop := {
  mg_name : length (m_range_map_name m) = 40%nat;
  mg_length : 0 <= m_range_map_name_length m < 40;
  mg_bucket x : m_bucket m = Some x → is_Some (bks W !! x)
}.

Lemma sync_header_true h :
  sync_header_ok h = true →
  0 <= h_range_map_name_len h < 32 ∧ 0 < h_key_len h ∧ 16 <= h_data_len h ∧ 0 <= h_result_buf_size h <= 64.
Proof.
  unfold sync_header_ok, RANGE_MAP_NAME_MAX, HASH_VALUE_LENGTH, sizeof_timeval.
  rewrite !andb_true_iff, !negb_true_iff, !orb_false_iff. lia.
Qed.

Lemma merge_fields_ok W m h buffer :
  merging W m → sync_header_ok h = true →
  Z.of_nat (length buffer) = h_range_map_name_len h + h_key_len h + h_data_len h + h_result_buf_size h →
  ∃ m', merge_fields m h buffer = Ret m' ∧ merging W m' ∧ Z.of_nat (length (m_value m')) = h_data_len h ∧
    m_hash_str_length m' = h_result_buf_size h ∧ h_result_buf_size h <= Z.of_nat (length (m_hash_str m')).
Proof.
  intros [Hn Hl Hb] (Hnl & Hk & Hd & Hr)%sync_header_true Hlen. unfold merge_fields.
  unfold at_off, span, c_memcpy. rewrite !decide_True by lia.
  assert (Hdr : ∀ o n : Z, 0 <= o → 0 <= n → o + n <= Z.of_nat (length buffer) →
    Z.of_nat (length (take (Z.to_nat n) (drop (Z.to_nat o) buffer))) = n).
  { intros o n ? ? ?. rewrite length_take, length_drop. lia. }
  destruct (Z.eqb_spec (h_range_map_name_len h) 0); cbn [negb mbind cres_bind].
  - eexists. split; [done|]. cbn. split; [by split|]. rewrite Hdr by lia. split; [done|]. split; [done|].
    rewrite length_drop. lia.
  - eexists. split; [done|]. cbn. split; [|rewrite Hdr by lia; split; [done|]; split; [done|]; rewrite length_drop; lia].
    split; cbn; [|lia|done]. rewrite !length_app, !length_take, length_drop. lia.
Qed.

Lemma merge_loop_ok io W m h :
  all_near N → inv N W → merging W m → sizes_ok h → (∀ r, r ∈ io → sizes_ok (header_of (r_next r))) →
  ∃ W', merge_loop W m h io = Ret W' ∧ inv N W' ∧ same_values W W'.
Proof.
  intros Hnear. revert W m h. induction io as [|r io IH]; intros W m h Hi Hm Hs Hio; cbn [merge_loop];
    (destruct (sync_header_ok h) eqn:Eh; cbn [negb]; [|by exists W]); [by exists W|]. cbv zeta.
  pose proof (sync_header_true h Eh) as (Hnl & Hk & Hd & Hr). specialize (Hs Eh).
  rewrite i32_small by lia. destruct (r_mem r); cbn [negb]; [|by exists W].
  destruct (Z.eqb_spec (Z.of_nat (length (r_item r)))
    (h_range_map_name_len h + h_key_len h + h_data_len h + h_result_buf_size h)) as [El|]; cbn [negb]; [|by exists W].
  destruct (merge_fields_ok W m h (r_item r) Hm Eh El) as (m1 & -> & [Hn1 Hl1 Hb1] & Hv1 & Eh1 & Hh1). cbn [mbind cres_bind].
  destruct (merge_item_ok N W m1 (take (Z.to_nat (m_range_map_name_length m1)) (m_range_map_name m1))
    (drop (Z.to_nat (m_range_map_name_length m1)) (m_range_map_name m1))
    (take (Z.to_nat (h_result_buf_size h)) (m_hash_str m1)) (drop (Z.to_nat (h_result_buf_size h)) (m_hash_str m1)))
    as (res & p & W1 & -> & Hi1 & Hs1 & Hp); try done; rewrite ?take_drop, ?length_take; try done; unfold sizeof_timeval; try lia.
  cbn [mbind cres_bind]. destruct (res =? 0); cbn [negb]; [|by exists W1].
  destruct (_ =? sizeof_header); cbn [negb]; [|by exists W1].
  destruct (IH W1 (set_m_bucket p m1) (header_of (r_next r)) Hi1) as (W' & -> & Hi' & Hs'); [by split|apply Hio; set_solver|set_solver|].
  exists W'. split; [done|]. split; [done|]. by eapply same_values_trans.
Qed.

(** A server that synchronises its buckets changes nothing here: whatever the connection
    brings, the merging ends, and every reader of every bucket sees what was there before: the
    values that come are never stored. *)
Theorem bee_db_merge_sprint_stores_nothing W timeout_ok junk header0 io :
  all_near N → inv N W → length junk = 40%nat → sizes_ok header0 →
  (∀ r, r ∈ io → sizes_ok (header_of (r_next r))) →
  ∃ W', bee_db_start_merge_sprint0 W timeout_ok junk header0 io = Ret W' ∧ inv N W' ∧ same_values W W'.
Proof.
  intros Hnear Hi Hj Hs Hio. unfold bee_db_start_merge_sprint0. destruct timeout_ok; cbn [negb]; [|by exists W].
  apply merge_loop_ok; try done.
Qed.
End Merge.

(** ** A server with one bucket *)

Module Hive.
Definition yes (_ : sockaddr_in) : bool := true.
Definition my_port (p : Z) : bool := p =? 80.
Definition sha (_ : list Z) : list Z := replicate 32 0.

Definition add (S : state) (p : Z) : cres (option string * state) :=
  range_map_add_node yes my_port Run.no_bucket Run.address0 true S (Run.kv ++ [0]) (Run.local ++ [0]) p 1 (Run.any ++ [0]).

(** The map "kv" with a node of this server and one of another server, for all hashes. *)
Definition SA : state := Run.after (add Run.S1 80) Run.S1.
Definition SA2 : state := Run.after (add SA 81) SA.
Definition SB : state := Run.after (range_map_flush SA2 (Run.kv ++ [0])) SA2.

Lemma add_table S A p : table_ok S A → (∀ e, add S p ≠ Ret (Some e, S)) → ∃ A', table_ok (Run.after (add S p) S) A'.
Proof.
  intros HT Hne. destruct Run.texts as (Hk & Hl & Ha & _).
  destruct (add_node_ok yes my_port Run.no_bucket Run.address0 true S A Run.kv Run.local Run.any [] [] [] p 1 HT Hk Hl Ha)
    as [(i & L & V & x & n & S' & _ & _ & _ & E & _ & _ & _ & _ & _ & _ & HT')|(e & E & _)].
  - unfold add. rewrite E. eauto.
  - exfalso. by apply (Hne e).
Qed.

Lemma table_SB : ∃ A, table_ok SB A.
Proof.
  destruct (add_table Run.S1 Run.A0 80 Run.run1) as [A HA]; [intros e E; vm_compute in E; discriminate E|].
  destruct (add_table SA A 81 HA) as [A2 HA2]; [intros e E; vm_compute in E; discriminate E|].
  pose proof (flush_ok SA2 _ Run.kv [] HA2 (proj1 Run.texts)) as HF.
  destruct (lookup_name SA2 Run.kv) as [[j m]|] eqn:El; [|vm_compute in El; discriminate El].
  destruct HF as (L' & V' & S'' & _ & E' & HT' & _). unfold SB. rewrite E'. eauto.
Qed.

Definition W0 : bees (DB := demo_db) := Bees ∅ ∅ None ∅ SB.
Definition keys (k : bkey_t) : Prop := k = (0, (0, ([], Run.kv))).

Lemma keys_near : all_near keys.
Proof. intros a b -> ->. unfold near. rewrite !Z.sub_diag. done. Qed.

Lemma no_buckets : map_Forall (fun _ n => bucket n = None) (nd (memory SB)).
Proof. apply (bool_decide_unpack _). vm_compute. exact I. Qed.

Lemma W0_inv : inv keys W0.
Proof.
  split; simpl; try done.
  - split; simpl; try done. exists []. split; [apply (holds_init (Rb None ∅))|]. split; [constructor|].
    intros x. rewrite lookup_empty. split; [set_solver|by intros []].
  - intros h. rewrite lookup_empty. by intros [].
  - apply table_SB.
  - intros n x p Hn Hb. rewrite (no_buckets n x Hn) in Hb. discriminate Hb.
Qed.

(** The bucket comes online. *)
Definition W1 : bees (DB := demo_db) :=
  (ret_of (bee_shift_mem_bucket true true true W0 (Run.kv ++ [0]) 2 (Run.any ++ [0]) 1) (None, W0)).2.

Lemma W1_inv : inv keys W1.
Proof.
  assert (Hsh : shown W0 (fun _ => None)) by (intros k x; unfold key_at; simpl; by rewrite lookup_empty).
  assert (Hby : Forall is_byte Run.any) by (apply Forall_cons_2; [unfold is_byte; lia|apply Forall_nil_2]).
  assert (Hk : ∀ h, hash_arg Run.any h → keys (0, (0, (h, Run.kv)))).
  { intros h (c & E & _). change Run.any with ([] ++ [120]) in E. apply app_inj_tail in E as [<- _]. done. }
  destruct (shift_mem_bucket_ok keys W0 (fun _ => None) Run.kv [0] Run.any [0] true true true
    keys_near W0_inv Hsh Hby ltac:(simpl; lia) Hk) as [(h & W' & _ & _ & _ & E & Hi & _)|(e & E & _)];
    change (Z.of_nat (length Run.kv)) with 2 in E; change (Z.of_nat (length Run.any)) with 1 in E.
  - unfold W1. rewrite E. exact Hi.
  - exfalso. vm_compute in E. discriminate E.
Qed.

Lemma W1_table : ∃ A, table_ok (rms W1) A.
Proof. apply (bi_maps _ _ W1_inv). Qed.

(** The nodes of every key: the other server's and this one's. *)
Lemma W1_head : range_map_find_and_lock (rms W1) (Run.kv ++ [0]) (replicate 32 0) = Ret (Some 2%positive).
Proof. vm_compute. reflexivity. Qed.

Lemma W1_next : next <$> nd (memory (rms W1)) !! 2%positive = Some (Some 1%positive) ∧
  next <$> nd (memory (rms W1)) !! 1%positive = Some None.
Proof. split; vm_compute; reflexivity. Qed.

Lemma seg_step h x l e p : seg h (x :: l) e → next <$> h !! x = Some p → hd_or l e = p ∧ seg h l e.
Proof. intros [(n & -> & E) Hs] Hp. simpl in Hp. split; [congruence|done]. Qed.

Lemma W1_chain A key : table_ok (rms W1) A → chain sha W1 A Run.kv key = [2%positive; 1%positive].
Proof.
  intros HT. destruct (find_and_lock_ok (rms W1) A Run.kv [] (sha key) HT (proj1 Run.texts) eq_refl) as [E Hs].
  pose proof W1_head as E'. change (replicate 32 0) with (sha key) in E'. change (Run.kv ++ [0]) with (Run.kv ++ 0 :: []) in E'.
  rewrite E' in E. unfold chain. destruct W1_next as [H2 H1].
  destruct (answer (rms W1) A Run.kv (sha key)) as [|x C]; [discriminate E|].
  assert (x = 2%positive) as -> by (simpl in E; congruence).
  destruct (seg_step _ _ _ _ _ Hs H2) as [Ex Hs']. destruct C as [|y C]; [discriminate Ex|].
  assert (y = 1%positive) as -> by (simpl in Ex; congruence).
  destruct (seg_step _ _ _ _ _ Hs' H1) as [Ey _]. destruct C; [done|discriminate Ey].
Qed.

Lemma W1_serves A key : table_ok (rms W1) A → existsb (serves W1) (chain sha W1 A Run.kv key) = true.
Proof. intros HT. rewrite W1_chain by done. vm_compute. reflexivity. Qed.

(** Nothing has been stored yet. *)
Lemma W1_empty : map_Forall (fun _ d => d = ∅) (dbs W1).
Proof. apply (bool_decide_unpack _). vm_compute. exact I. Qed.

Lemma W1_db p d : db_at (dbs W1) p = Some d → d = ∅.
Proof. destruct p as [h|]; [|done]. simpl. apply W1_empty. Qed.

Lemma W1_value C key : local_value W1 C key = None.
Proof.
  unfold local_value. replace (omap (node_value W1 key) C) with (@nil (list Z)); [done|].
  induction C as [|x C IH]; [done|]. cbn [omap list_omap]. unfold node_value at 1.
  destruct (is_me W1 x); [|done]. destruct (node_bucket W1 x) as [b|]; [|done]. cbn [mbind option_bind].
  unfold bucket_read. destruct (bks W1 !! b) as [c|]; [|done]. cbn [mbind option_bind].
  unfold layer. destruct (db_at (dbs W1) (kcdb0 c)) as [d0|] eqn:E0; [|done]. apply W1_db in E0 as ->.
  destruct (db_at (dbs W1) (kcdb1 c)) as [d1|] eqn:E1; [|done]. by apply W1_db in E1 as ->.
Qed.

Definition stamp : list Z := replicate 16 5.
End Hive.

(** A request in the receive buffer of the server. *)
Definition hive_ctx (size : Z) (data : list Z) : bee_service_ctx_t :=
  Ctx (Header 0 2 1 (Z.of_nat (length data)) size) (Some (payload Run.kv [107] Hive.stamp data))
    (Z.of_nat (length (payload Run.kv [107] Hive.stamp data))) (Reply 0 0) None.

Lemma hive_request size data : (length data <= 100)%nat → request (hive_ctx size data) Run.kv [107] Hive.stamp data.
Proof.
  intros Hd. split; try done; [apply Run.texts|]. rewrite length_payload. simpl. lia.
Qed.

Lemma bee_db_del_then_get_witness :
  ∃ c' W' sent, bee_db_del Hive.sha Hive.W1 (fun _ => Peer true 20 (fun n => n)) (hive_ctx 0 []) true = Ret (c', W', sent) ∧
    (return_code (ctx_reply c') = ESQ_OK →
     ∃ c2' m2, bee_db_get Hive.sha W' (hive_ctx 8 []) (Some (Reply2 7 7 (replicate 24 0))) = Ret c2' ∧
       ctx_reply c2' = Reply ESQ_ERROR_NOTFOUND 0 ∧ ctx_reply_ptr c2' = Some m2 ∧ return_code2 m2 = 7 ∧ result_len2 m2 = 7).
Proof.
  destruct Hive.W1_table as [A HT].
  destruct (bee_db_del_then_get Hive.keys Hive.sha (fun _ => eq_refl) Hive.W1 A (fun _ => Peer true 20 (fun n => n))
    (hive_ctx 0 []) (hive_ctx 8 []) true Run.kv [107] Hive.stamp [] Hive.stamp [] (Reply2 7 7 (replicate 24 0))
    Hive.keys_near Hive.W1_inv HT (hive_request 0 [] ltac:(simpl; lia))
    (hive_request 8 [] ltac:(simpl; lia)) eq_refl) as (c' & W' & sent & E & _ & _ & Hr).
  exists c', W', sent. split; [exact E|exact Hr].
Defined.

Lemma bee_db_merge_sprint_stores_nothing_witness :
  ∃ W', bee_db_start_merge_sprint0 Hive.W1 true (replicate 40 0) (Header BEE_OP_SYNC 2 1 17 0)
      [Round true (Run.kv ++ [107] ++ Hive.stamp ++ [1]) []] = Ret W' ∧
    inv Hive.keys W' ∧ same_values Hive.W1 W'.
Proof.
  apply (bee_db_merge_sprint_stores_nothing Hive.keys Hive.W1 true (replicate 40 0) (Header BEE_OP_SYNC 2 1 17 0)
    [Round true (Run.kv ++ [107] ++ Hive.stamp ++ [1]) []] Hive.keys_near Hive.W1_inv).
  - reflexivity.
  - intros _. simpl. lia.
  - intros r ->%list_elem_of_singleton. intros E. discriminate E.
Defined.
