(* ===== verification/BeeSession.v ===== *)
(** * Sessions of the key-value service

    [bee/session.c]: the callback of a connection, a protothread that receives the header and
    the rest of a request as the data comes, has the request carried out ([BeeDb]), writes
    the reply and closes.  [bee/instance.c] creates the context, with all bytes zero.

    [sock] is the receiving side of a socket: the bytes that have come and whether more can
    come.  [env] has what else the callback gets from outside: memory, the sockets to other
    servers, what a script writes, what the merging reads.  What the callback writes is
    collected; the kernel is taken to accept it. *)
From stdpp Require Import strings functions.
From S2P Require Import Prelude CString LinkedList RbTree RangeMap RangeIndex RangeTable Bucket BucketInv BucketThms BeeDb BeeDbThms.

Definition ESQ_EVENT_BIT_FD_CLOSE : Z := 1.
Definition ESQ_EVENT_BIT_ERROR : Z := 2.
Definition ESQ_EVENT_BIT_TIMEOUT : Z := 4.
Definition ESQ_EVENT_BIT_READ : Z := 8.
Definition ESQ_EVENT_BIT_WRITE : Z := 16.
Definition ESQ_EVENT_BIT_EXIT : Z := 128.

Definition BEE_OP_TYPE_MASK : Z := 15.
Definition BEE_OP_DB_SET : Z := 1.
Definition BEE_OP_DB_GET : Z := 2.
Definition BEE_OP_DB_DEL : Z := 3.
Definition BEE_OP_FILE_WRITE : Z := 4.
Definition BEE_OP_FILE_READ : Z := 5.
Definition BEE_OP_FILE_DEL : Z := 6.
Definition BEE_OP_SCRIPT : Z := 7.
Definition BEE_OP_MONKEY : Z := 11.

Definition bit (bits b : Z) : bool := negb (Z.land b bits =? 0).

(** ** Sockets *)

(** No more bytes now, none any more, or an error. *)
Inductive link := Open | Closed | Broken.
Record sock := Sock { avail : list Z; state_of : link }.

(** The result of [read]: the bytes, or what [errno] says. *)
Inductive rres := Data (d : list Z) | EAgain | EError.

Definition sys_read (k : sock) (n : Z) : rres * sock :=
  match avail k with
  | [] => (match state_of k with Open => EAgain | Closed => Data [] | Broken => EError end, k)
  | _ => (Data (take (Z.to_nat n) (avail k)), Sock (drop (Z.to_nat n) (avail k)) (state_of k))
  end.

Definition os_read_nb (k : sock) (n : Z) : Z * list Z * sock :=
  match sys_read k n with
  | (Data d, k) => (Z.of_nat (length d), d, k)
  | (EAgain, k) => (0, [], k)
  | (EError, k) => (-1, [], k)
  end.

(** ** The context *)

(** The labels a callback goes on from.  Those inside the branches of the operations are set
    only by a call that ends the session. *)
Inductive lc_t := LC_START | LC_HEADER | LC_PAYLOAD.

(** [sv_header] are the bytes of the header as far as it has come; the header of [sv_ctx]
    is read from them when they are complete. *)
Record bee_session_t := BeeSess {
  sv_header : list Z;
  sv_offset : Z;
  sv_opcode : Z;
  sv_lc : lc_t;
  sv_ctx : bee_service_ctx_t
}.

(** What [bee_create_new_session] makes. *)
Definition new_session : bee_session_t :=
  BeeSess (replicate 20 0) 0 0 LC_START (Ctx (Header 0 0 0 0 0) None 0 (Reply 0 0) None).

Record env := Env {
  e_recv_buf : Z → option (list Z);
  e_reply : option reply_from_bee_to_pony_2_t;
  e_net : loc → peer;
  e_timeout_ok : bool;
  e_junk : list Z;
  e_rounds : list round;
  e_monkey : header_from_pony_to_bee_t → list Z → list Z;
  e_set_fd : Z
}.

(** The bytes of a reply with a result: [n] bytes of the block. *)
Definition reply2_bytes (m : reply_from_bee_to_pony_2_t) (n : Z) : cres (list Z) :=
  span (int_bytes (return_code2 m) ++ int_bytes (result_len2 m) ++ result m) 0 n.

Definition reply_bytes (r : reply_from_bee_to_pony_t) : list Z := int_bytes (return_code r) ++ int_bytes (result_len r).

Definition sizeof_reply : Z := 8.

(** [size_t] arithmetic. *)
Definition u64 (z : Z) : Z := z mod 2^64.

Section Session.
Context {DB : Type} `{KcLib DB}.
Context (sha256 : list Z → list Z).
Implicit Types W : bees (DB := DB).

(** A call ends with the session waiting for more, or with the connection closed (how often
    is counted) and the context freed. *)
Inductive outcome :=
| Waits (s : bee_session_t)
| Done (W : bees (DB := DB)) (sent : sent_t) (out : list Z) (closes : nat).

(** The reply is written. *)
Definition write_reply (c : bee_service_ctx_t) : cres (list Z) :=
  match ctx_reply_ptr c with
  | Some m =>
      b ← reply2_bytes m (u64 (result_len2 m + sizeof_timeval + sizeof_reply));
      Ret (b ++ reply_bytes (ctx_reply c))
  | None => Ret (reply_bytes (ctx_reply c))
  end.

(** The request is carried out. *)
Definition run_op W (e : env) (opcode : Z) (c : bee_service_ctx_t)
    : cres (bee_service_ctx_t * bees (DB := DB) * sent_t) :=
  if BEE_OP_DB_SET =? opcode then bee_db_set sha256 W (e_net e) c true
  else if BEE_OP_DB_GET =? opcode then c ← bee_db_get sha256 W c (e_reply e); Ret (c, W, [])
  else if BEE_OP_DB_DEL =? opcode then bee_db_del sha256 W (e_net e) c true
  else if BEE_OP_FILE_WRITE =? opcode then Ret (c, W, [])
  else if BEE_OP_FILE_READ =? opcode then Ret (c, W, [])
  else if BEE_OP_FILE_DEL =? opcode then Ret (c, W, [])
  else if BEE_OP_SCRIPT =? opcode then Ret (c, W, [])
  else if BEE_OP_INTERNAL_SET =? opcode then bee_db_set sha256 W (e_net e) c false
  else if BEE_OP_INTERNAL_DEL =? opcode then bee_db_del sha256 W (e_net e) c false
  else Ret (set_reply (Reply ESQ_ERROR_PARAM 0) c, W, []).

(** All has been received. *)
Definition dispatch W (e : env) (opcode : Z) (c : bee_service_ctx_t) : cres outcome :=
  b ← recv_buf_of c;
  z ← rd b (h_range_map_name_len (ctx_header c));
  if negb (z =? 0) then Ret (Done W [] [] 1)
  else if BEE_OP_MONKEY =? opcode then Ret (Done W [] (e_monkey e (ctx_header c) b) 1)
  else
    '(c, W, sent) ← run_op W e opcode c;
    out ← write_reply c;
    Ret (Done W sent out 1).

(** Waiting for more data, unless the session cannot be registered for it. *)
Definition __read_again W (e : env) (s : bee_session_t) : outcome :=
  if negb (e_set_fd e =? 0) then Done W [] [] 1 else Waits s.

Definition set_lc (l : lc_t) (o : Z) (s : bee_session_t) : bee_session_t :=
  BeeSess (sv_header s) o (sv_opcode s) l (sv_ctx s).
Definition set_sv_header (b : list Z) (s : bee_session_t) : bee_session_t :=
  BeeSess b (sv_offset s) (sv_opcode s) (sv_lc s) (sv_ctx s).
Definition set_recv_buf (b : list Z) (s : bee_session_t) : bee_session_t :=
  BeeSess (sv_header s) (sv_offset s) (sv_opcode s) (sv_lc s)
    (Ctx (ctx_header (sv_ctx s)) (Some b) (ctx_payload_size (sv_ctx s)) (ctx_reply (sv_ctx s)) (ctx_reply_ptr (sv_ctx s))).

(** From the second label: the rest of the request. *)
Definition receive_payload W (e : env) (event_bits : Z) (k : sock) (s : bee_session_t) : cres (outcome * sock) :=
  if bit event_bits ESQ_EVENT_BIT_READ then
    let n := ctx_payload_size (sv_ctx s) - sv_offset s in
    b ← recv_buf_of (sv_ctx s);
    let '(r, k) := sys_read k n in
    match r with
    | EAgain => Ret (__read_again W e s, k)
    | EError => Ret (Done W [] [] 1, k)
    | Data d =>
        let r := Z.of_nat (length d) in
        if r =? 0 then Ret (Done W [] [] 1, k)
        else
          b ← c_memcpy b (sv_offset s) d r;
          let s := set_recv_buf b s in
          if r =? n then o ← dispatch W e (sv_opcode s) (sv_ctx s); Ret (o, k)
          else if n <? r then Ret (Done W [] [] 1, k)
          else Ret (__read_again W e (set_lc LC_PAYLOAD (sv_offset s + r) s), k)
    end
  else o ← dispatch W e (sv_opcode s) (sv_ctx s); Ret (o, k).

Definition header_bad (h : header_from_pony_to_bee_t) : bool :=
  (h_range_map_name_len h <=? 0) || (h_key_len h <=? 0) || (h_data_len h <? 0)
  || (RANGE_MAP_NAME_MAX <=? h_range_map_name_len h).

Definition payload_size_of (h : header_from_pony_to_bee_t) : Z :=
  i32 (i32 (h_range_map_name_len h + 1 + h_key_len h) + sizeof_timeval + h_data_len h).

(** The header is complete. *)
Definition header_received W (e : env) (event_bits : Z) (k : sock) (s : bee_session_t) : cres (outcome * sock) :=
  let h := header_of (sv_header s) in
  if header_bad h then Ret (Done W [] [] 1, k)
  else
    let op := Z.land (h_opcode h) BEE_OP_TYPE_MASK in
    if BEE_OP_SYNC =? op then
      W ← bee_db_start_merge_sprint0 W (e_timeout_ok e) (e_junk e) h (e_rounds e);
      Ret (Done W [] [] 2, k)
    else
      let n := payload_size_of h in
      match e_recv_buf e n with
      | None => Ret (Done W [] [] 1, k)
      | Some b =>
          receive_payload W e event_bits k
            (BeeSess (sv_header s) 0 op LC_PAYLOAD
               (Ctx h (Some b) n (ctx_reply (sv_ctx s)) (ctx_reply_ptr (sv_ctx s))))
      end.

(** From the first label: the header. *)
Definition receive_header W (e : env) (event_bits : Z) (k : sock) (s : bee_session_t) : cres (outcome * sock) :=
  let n := sizeof_header - sv_offset s in
  let '(r, d, k) := os_read_nb k n in
  if r <? 0 then Ret (Done W [] [] 1, k)
  else if r =? 0 then Ret (Done W [] [] 1, k)
  else
    b ← c_memcpy (sv_header s) (sv_offset s) d r;
    let s := set_sv_header b s in
    if r =? n then header_received W e event_bits k s
    else if n <? r then Ret (Done W [] [] 1, k)
    else Ret (__read_again W e (set_lc LC_HEADER (sv_offset s + r) s), k).

Definition bee_session_receive_request W (e : env) (fd event_bits : Z) (k : sock) (s : bee_session_t)
    : cres (outcome * sock) :=
  if fd <=? 0 then Exit
  else if bit event_bits ESQ_EVENT_BIT_FD_CLOSE || bit event_bits ESQ_EVENT_BIT_ERROR
          || bit event_bits ESQ_EVENT_BIT_TIMEOUT || bit event_bits ESQ_EVENT_BIT_EXIT
  then Ret (Done W [] [] 1, k)
  else
    match sv_lc s with
    | LC_START => receive_header W e event_bits k (set_lc LC_HEADER 0 s)
    | LC_HEADER => receive_header W e event_bits k s
    | LC_PAYLOAD => receive_payload W e event_bits k s
    end.

(** The events of a connection on which data comes in pieces. *)
Fixpoint serve W (e : env) (fd : Z) (chunks : list (list Z)) (k : sock) (s : bee_session_t) : cres outcome :=
  match chunks with
  | [] => Ret (Waits s)
  | d :: chunks =>
      '(o, k) ← bee_session_receive_request W e fd ESQ_EVENT_BIT_READ (Sock (avail k ++ d) (state_of k)) s;
      match o with Waits s => serve W e fd chunks k s | Done _ _ _ _ => Ret o end
  end.

(** ** Putting a request together *)

Section Reassembly.
Context (e : env) (h : header_from_pony_to_bee_t) (body block : list Z).
Hypothesis Hset : e_set_fd e = 0.
Hypothesis Hok : header_ok h.
Hypothesis Hgood : header_bad h = false.
Hypothesis Hop : Z.land (h_opcode h) BEE_OP_TYPE_MASK ≠ BEE_OP_SYNC.
Hypothesis Hsize : payload_size_of h = Z.of_nat (length body).
Hypothesis Hpos : body ≠ [].
Hypothesis Hmem : e_recv_buf e (Z.of_nat (length body)) = Some block.
Hypothesis Hblock : length block = length body.

Definition op_of : Z := Z.land (h_opcode h) BEE_OP_TYPE_MASK.

Definition ctx_with (b : list Z) : bee_service_ctx_t := Ctx h (Some b) (Z.of_nat (length body)) (Reply 0 0) None.

Definition in_header (p : list Z) : bee_session_t :=
  BeeSess (ow p (replicate 20 0)) (Z.of_nat (length p)) 0 LC_HEADER (sv_ctx new_session).

Definition in_payload (q : list Z) : bee_session_t :=
  BeeSess (header_bytes h) (Z.of_nat (length q)) op_of LC_PAYLOAD (ctx_with (ow q block)).

(** The session after the bytes [p]. *)
Definition after (p : list Z) : bee_session_t :=
  if (length p <? 20)%nat then in_header p else in_payload (drop 20 p).

Lemma ow_all {A} (d b : list A) : length d = length b → ow d b = d.
Proof. intros E. unfold ow. by rewrite E, drop_all, app_nil_r. Qed.

Lemma receive_payload_ok W q c t :
  body = q ++ c ++ t →
  receive_payload W e ESQ_EVENT_BIT_READ (Sock c Open) (in_payload q) =
  if (length t =? 0)%nat && negb (length c =? 0)%nat
  then o ← dispatch W e op_of (ctx_with body); Ret (o, Sock [] Open)
  else Ret (Waits (in_payload (q ++ c)), Sock [] Open).
Proof.
  intros Eb. unfold receive_payload. change (bit ESQ_EVENT_BIT_READ ESQ_EVENT_BIT_READ) with true. cbn iota.
  cbn [in_payload sv_ctx ctx_with recv_buf_of ctx_recv_buf ctx_payload_size sv_offset mbind cres_bind].
  assert (El : length body = (length q + length c + length t)%nat) by (rewrite Eb, !length_app; lia).
  destruct c as [|x c].
  { cbn [sys_read avail state_of]. unfold __read_again. rewrite Hset. cbn [negb Z.eqb]. rewrite app_nil_r.
    by rewrite andb_false_r. }
  unfold sys_read. cbn [avail state_of].
  rewrite take_ge, drop_ge by (cbn [length] in *; lia).
  destruct (Z.eqb_spec (Z.of_nat (length (x :: c))) 0); [cbn [length] in *; lia|].
  pose proof (c_memcpy_ow q block (x :: c) []) as E. rewrite app_nil_r in E. rewrite E by (cbn [length] in *; lia). clear E.
  cbn [mbind cres_bind]. unfold set_recv_buf. cbn [sv_header sv_offset sv_opcode sv_lc sv_ctx ctx_header ctx_payload_size ctx_reply ctx_reply_ptr].
  replace (negb (length (x :: c) =? 0)%nat) with true by done. rewrite andb_true_r.
  destruct (Nat.eqb_spec (length t) 0) as [Et|Et].
  - rewrite (proj2 (Z.eqb_eq _ _)) by lia. destruct t; [|done]. rewrite app_nil_r in Eb.
    rewrite <- Eb, ow_all by done. done.
  - rewrite (proj2 (Z.eqb_neq _ _)) by lia. rewrite (proj2 (Z.ltb_ge _ _)) by lia.
    unfold __read_again. rewrite Hset. cbn [negb Z.eqb]. do 2 f_equal.
    unfold set_lc, in_payload, ctx_with. cbn [sv_header sv_offset sv_opcode sv_lc sv_ctx]. do 2 f_equal.
    rewrite length_app. lia.
Qed.

Lemma dispatch_done W op c o :
  dispatch W e op c = Ret o → ∃ W' sent out n, o = Done W' sent out n.
Proof.
  unfold dispatch. intros (b & _ & E)%cres_bind_Ret. apply cres_bind_Ret in E as (z & _ & E).
  destruct (negb (z =? 0)); [injection E as <-; eauto|]. destruct (_ =? op); [injection E as <-; eauto|].
  apply cres_bind_Ret in E as ([[c' W'] sent] & _ & E). apply cres_bind_Ret in E as (out & _ & [= <-]). eauto.
Qed.

(** The result of an event: the last piece has the request carried out. *)
Definition event_result W (p c t : list Z) : cres (outcome * sock) :=
  if (length t =? 0)%nat then o ← dispatch W e op_of (ctx_with body); Ret (o, Sock [] Open)
  else Ret (Waits (after (p ++ c)), Sock [] Open).

Lemma header_received_ok W c t :
  body = c ++ t →
  header_received W e ESQ_EVENT_BIT_READ (Sock c Open) (BeeSess (header_bytes h) (Z.of_nat 0) 0 LC_HEADER (sv_ctx new_session)) =
  event_result W (header_bytes h) c t.
Proof.
  intros Eb. unfold header_received. cbn [sv_header]. rewrite header_of_bytes by exact Hok. rewrite Hgood.
  rewrite (proj2 (Z.eqb_neq _ _)) by (intros E; by apply Hop). cbv zeta. rewrite Hsize, Hmem.
  cbn [sv_ctx new_session ctx_reply ctx_reply_ptr].
  change (BeeSess (header_bytes h) 0 (Z.land (h_opcode h) BEE_OP_TYPE_MASK) LC_PAYLOAD
    (Ctx h (Some block) (Z.of_nat (length body)) (Reply 0 0) None)) with (in_payload []).
  rewrite (receive_payload_ok W [] c t) by done. unfold event_result, after.
  rewrite length_app, length_header_bytes. rewrite (proj2 (Nat.ltb_ge _ _)) by lia.
  rewrite drop_app_length' by done. cbn [app].
  destruct (Nat.eqb_spec (length t) 0) as [Et|]; [|done]. destruct t; [|done]. rewrite app_nil_r in Eb.
  destruct (Nat.eqb_spec (length c) 0) as [Ec|]; [|done]. destruct c; [|done]. by apply Hpos in Eb.
Qed.

Lemma receive_header_ok W p c t :
  (length p < 20)%nat → c ≠ [] → header_bytes h ++ body = p ++ c ++ t →
  receive_header W e ESQ_EVENT_BIT_READ (Sock c Open) (in_header p) = event_result W p c t.
Proof.
  intros Hp Hc E. unfold receive_header. cbn [in_header sv_offset sv_header]. cbv zeta.
  assert (Hn : Z.to_nat (sizeof_header - Z.of_nat (length p)) = (20 - length p)%nat) by (unfold sizeof_header; lia).
  unfold os_read_nb, sys_read. cbn [avail state_of]. destruct c as [|x c]; [done|]. cbn iota beta. rewrite Hn.
  set (c1 := take (20 - length p) (x :: c)). set (c2 := drop (20 - length p) (x :: c)).
  assert (Ec : x :: c = c1 ++ c2) by (unfold c1, c2; by rewrite take_drop).
  assert (H1 : (length c1 = min (20 - length p) (length (x :: c)))%nat) by apply length_take.
  assert (Hx : (0 < length (x :: c))%nat) by (cbn [length]; lia). clearbody c1 c2. rewrite Ec in *.
  rewrite (proj2 (Z.ltb_ge _ _)) by lia. rewrite (proj2 (Z.eqb_neq _ _)) by lia.
  pose proof (c_memcpy_ow p (replicate 20 0) c1 []) as Em. rewrite app_nil_r, length_replicate in Em.
  rewrite Em by lia. clear Em. cbn [mbind cres_bind]. unfold set_sv_header. cbn [sv_offset sv_opcode sv_lc sv_ctx].
  assert (Hl : (length (header_bytes h ++ body) = length p + length (c1 ++ c2) + length t)%nat)
    by (rewrite E, !length_app; lia). rewrite !length_app, length_header_bytes in Hl. rewrite length_app in H1.
  destruct (Z.eqb_spec (Z.of_nat (length c1)) (sizeof_header - Z.of_nat (length p))) as [Er|Er].
  - assert (Eh : header_bytes h = p ++ c1 ∧ body = c2 ++ t).
    { apply app_inj_1; [rewrite length_header_bytes, length_app; unfold sizeof_header in Er; lia|].
      by rewrite E, <- !app_assoc. }
    destruct Eh as [Eh Eb]. rewrite ow_all by (rewrite <- Eh; done). rewrite <- Eh.
    etrans; [exact (header_received_ok W c2 t Eb)|]. unfold event_result. by rewrite Eh, <- app_assoc.
  - assert (E2 : c2 = []). { destruct c2; [done|]. unfold sizeof_header in Er. cbn [length] in *. lia. }
    subst c2. rewrite app_nil_r in *. unfold sizeof_header in *. cbn [length] in *.
    rewrite (proj2 (Z.ltb_ge _ _)) by lia. unfold __read_again. rewrite Hset. cbn [negb Z.eqb].
    unfold event_result. rewrite (proj2 (Nat.eqb_neq _ _)) by lia. unfold after.
    rewrite (proj2 (Nat.ltb_lt _ _)) by (rewrite length_app; lia).
    do 2 f_equal. unfold set_lc, in_header. cbn [sv_header sv_offset sv_opcode sv_lc sv_ctx].
    do 2 f_equal. rewrite length_app. lia.
Qed.

(** One event with the piece [c]. *)
Lemma event_ok W fd p c t s :
  0 < fd → c ≠ [] → header_bytes h ++ body = p ++ c ++ t →
  s = (match p with [] => new_session | _ => after p end) →
  bee_session_receive_request W e fd ESQ_EVENT_BIT_READ (Sock c Open) s = event_result W p c t.
Proof.
  intros Hfd Hc E ->. unfold bee_session_receive_request. rewrite (proj2 (Z.leb_gt _ _)) by done. cbn iota.
  change (bit ESQ_EVENT_BIT_READ ESQ_EVENT_BIT_FD_CLOSE || bit ESQ_EVENT_BIT_READ ESQ_EVENT_BIT_ERROR
    || bit ESQ_EVENT_BIT_READ ESQ_EVENT_BIT_TIMEOUT || bit ESQ_EVENT_BIT_READ ESQ_EVENT_BIT_EXIT) with false. cbn iota.
  destruct p as [|x p].
  { change (set_lc LC_HEADER 0 new_session) with (in_header []). cbn [new_session sv_lc].
    apply (receive_header_ok W [] c t); [cbn; lia|done..]. }
  assert (Ea : after (x :: p) = if (length (x :: p) <? 20)%nat then in_header (x :: p) else in_payload (drop 20 (x :: p)))
    by done. rewrite Ea. clear Ea. destruct (Nat.ltb_spec (length (x :: p)) 20) as [Hp|Hp].
  { cbn [in_header sv_lc]. by apply receive_header_ok. }
  cbn [in_payload sv_lc]. set (q := drop 20 (x :: p)).
  assert (Ep : x :: p = header_bytes h ++ q).
  { rewrite <- (take_drop 20 (x :: p)). f_equal. apply (f_equal (take 20)) in E.
    rewrite take_app_length' in E by done. rewrite take_app_le in E by done. done. }
  rewrite Ep, <- app_assoc in E. apply app_inv_head in E. clearbody q.
  rewrite (receive_payload_ok W q c t E). unfold event_result, after. rewrite Ep, !length_app, length_header_bytes.
  rewrite (proj2 (Nat.ltb_ge _ _)) by lia. rewrite <- app_assoc, drop_app_length' by done.
  destruct (Nat.eqb_spec (length c) 0) as [Ec|]; [by destruct c|]. by rewrite andb_true_r.
Qed.

Lemma serve_ok W fd chunks p :
  0 < fd → Forall (fun c => c ≠ []) chunks → chunks ≠ [] → header_bytes h ++ body = p ++ concat chunks →
  serve W e fd chunks (Sock [] Open) (match p with [] => new_session | _ => after p end) =
  dispatch W e op_of (ctx_with body).
Proof.
  intros Hfd Hne. revert p. induction Hne as [|c chunks Hc Hne IH]; intros p Hnil E; [done|]. cbn [serve avail state_of].
  cbn [concat] in E. cbn [app]. rewrite (event_ok W fd p c (concat chunks)) by done. unfold event_result.
  destruct (Nat.eqb_spec (length (concat chunks)) 0) as [Ez|Ez].
  - destruct (dispatch W e op_of (ctx_with body)) as [o| | |] eqn:Ed; try done. cbn [mbind cres_bind].
    destruct (dispatch_done _ _ _ _ Ed) as (W' & sent & out & n & ->). done.
  - cbn [mbind cres_bind].
    assert (Ea : after (p ++ c) = match p ++ c with [] => new_session | _ => after (p ++ c) end)
      by (destruct p; [by destruct c|done]).
    rewrite Ea. apply IH; [by intros ->|by rewrite <- app_assoc].
Qed.
End Reassembly.

End Session.

(** ** Carrying requests out *)

Section Requests.
Context {DB : Type} `{KcLaws DB} (N : bkey_t → Prop).
Context (sha256 : list Z → list Z) (Hsha : ∀ k, length (sha256 k) = 32%nat).
Implicit Types (W : bees (DB := DB)) (e : env).

(** The header of a request. *)
Definition header_for (op : Z) (nm key data : list Z) (size : Z) : header_from_pony_to_bee_t :=
  Header op (Z.of_nat (length nm)) (Z.of_nat (length key)) (Z.of_nat (length data)) size.

(** A request a session takes: a name, a key, and sizes of an [int]. *)
Record sendable (nm key stamp data : list Z) : Prop := {
  sn_name : cstring nm;
  sn_name_len : (1 <= length nm < 32)%nat;
  sn_key : key ≠ [];
  sn_stamp : length stamp = 16%nat;
  sn_small : Z.of_nat (length (payload nm key stamp data)) < 2^31
}.

Lemma sendable_request op nm key stamp data size :
  sendable nm key stamp data →
  request (ctx_with (header_for op nm key data size) (payload nm key stamp data) (payload nm key stamp data)) nm key stamp data.
Proof. intros [? ? ? Hst ?]. split; try done. rewrite Hst. done. Qed.

Lemma sendable_header op nm key stamp data size :
  sendable nm key stamp data → is_int op → is_int size →
  let h := header_for op nm key data size in
  header_ok h ∧ header_bad h = false ∧ payload_size_of h = Z.of_nat (length (payload nm key stamp data)) ∧
  payload nm key stamp data ≠ [].
Proof.
  intros [Hn Hnl Hk Hst Hsm] Hop Hs. cbv zeta. rewrite length_payload in *. rewrite Hst in *.
  assert (0 < length key)%nat by (destruct key; [done|simpl; lia]).
  split; [split; cbn; unfold is_int in *; lia|]. split.
  { unfold header_bad, RANGE_MAP_NAME_MAX. cbn. repeat (apply orb_false_iff; split); lia. }
  split; [|by destruct nm].
  unfold payload_size_of, sizeof_timeval. cbn. rewrite (i32_small (Z.of_nat (length nm) + 1 + _)), i32_small by lia. lia.
Qed.

(** The memory a request needs is there. *)
Record supplied e (nm key stamp data : list Z) : Prop := {
  su_block : ∃ block, e_recv_buf e (Z.of_nat (length (payload nm key stamp data))) = Some block ∧
    length block = length (payload nm key stamp data);
  su_set : e_set_fd e = 0
}.

(** A request that comes in pieces is carried out as if it had come at once. *)
Lemma serve_request W e fd chunks op nm key stamp data size :
  0 < fd → sendable nm key stamp data → supplied e nm key stamp data → is_int op → is_int size →
  Z.land op BEE_OP_TYPE_MASK ≠ BEE_OP_SYNC → Forall (fun c => c ≠ []) chunks →
  concat chunks = header_bytes (header_for op nm key data size) ++ payload nm key stamp data →
  serve sha256 W e fd chunks (Sock [] Open) new_session =
  dispatch sha256 W e (Z.land op BEE_OP_TYPE_MASK)
    (ctx_with (header_for op nm key data size) (payload nm key stamp data) (payload nm key stamp data)).
Proof.
  intros Hfd Hsn [(block & Hb & Hbl) Hset] Hop Hs Hns Hne Ec.
  destruct (sendable_header op nm key stamp data size Hsn Hop Hs) as (Hok & Hgood & Hsize & Hpos).
  refine (serve_ok sha256 e (header_for op nm key data size) (payload nm key stamp data) block Hset Hok Hgood Hns
    Hsize Hpos Hb Hbl W fd chunks [] Hfd Hne _ (eq_sym Ec)).
  intros ->. by apply (f_equal length) in Ec.
Qed.

Lemma rd_name_end op nm key stamp data size :
  rd (payload nm key stamp data) (h_range_map_name_len (header_for op nm key data size)) = Ret 0.
Proof. apply rd_nat. unfold payload. by rewrite lookup_app_r, Nat.sub_diag. Qed.

(** The two opcodes that store: of clients, and of servers that pass a request on. *)
Definition store_op (op : Z) (sync : bool) : Prop :=
  op = BEE_OP_DB_SET ∧ sync = true ∨ op = BEE_OP_INTERNAL_SET ∧ sync = false.

Lemma dispatch_store W A e op sync nm key stamp data size :
  store_op op sync → all_near N → inv N W → table_ok (rms W) A → sendable nm key stamp data →
  let h := header_for op nm key data size in
  let C := chain sha256 W A nm key in
  ∃ r W' sent, dispatch sha256 W e op (ctx_with h (payload nm key stamp data) (payload nm key stamp data))
      = Ret (Done W' sent (int_bytes r ++ int_bytes 0) 1) ∧ (sync = false → sent = []) ∧
    touches N key (chain_buckets W C) W W' ∧
    (chain_buckets W C = [] → r = ESQ_ERROR_NOTFOUND ∧ W' = W) ∧
    (chain_buckets W C ≠ [] → r = ESQ_OK ∨ r = ESQ_ERROR_LIBCALL) ∧
    (r = ESQ_OK → local_value W' C key = if existsb (serves W) C then Some (stamp ++ data) else None) ∧
    (r = ESQ_OK → (∀ x, x ∈ C → is_remote (rms W) x = true → peer_ok (e_net e x)) →
       sent = if sync then remote_messages (rms W) C
                             (header_bytes (header_for BEE_OP_INTERNAL_SET nm key data size) ++ payload nm key stamp data)
              else []).
Proof.
  intros Hop Hnear Hi HT Hsn. cbv zeta. pose proof (sendable_request op nm key stamp data size Hsn) as Hrq.
  destruct (db_set_ok N sha256 Hsha W A (e_net e) _ sync nm key stamp data Hnear Hi HT Hrq)
    as (c' & W' & sent & E & Hns & [Ht Hp Hl Hn Hc Hv] & Hnf & Hsent).
  exists (return_code (ctx_reply c')), W', sent. split.
  - unfold dispatch. cbn [recv_buf_of ctx_with ctx_recv_buf ctx_header mbind cres_bind].
    rewrite rd_name_end. cbn [mbind cres_bind]. change (negb (0 =? 0)) with false. cbn iota.
    assert (Er : (BEE_OP_MONKEY =? op) = false ∧
      ∀ c, run_op sha256 W e op c = bee_db_set sha256 W (e_net e) c sync).
    { destruct Hop as [[-> ->]|[-> ->]]; split; done. }
    destruct Er as [-> ->]. rewrite E.
    cbn [mbind cres_bind]. unfold write_reply. rewrite Hp. cbn [ctx_with ctx_reply_ptr mbind cres_bind].
    unfold reply_bytes. by rewrite Hl.
  - split; [done|]. split; [done|]. split; [by auto|]. split; [done|]. split; [|done]. intros Hr.
    apply local_value_set; [apply Ht|]. intros b Hb. by apply Hv.
Qed.

(** What a reader gets when the key has a value: the code, the length, the time and the
    data. *)
Lemma dispatch_get W A e m nm key stamp data size v :
  inv N W → table_ok (rms W) A → sendable nm key stamp data →
  e_reply e = Some m → Z.of_nat (length (result m)) = size + sizeof_timeval → size < 2^31 →
  local_value W (chain sha256 W A nm key) key = Some v → sizeof_timeval < Z.of_nat (length v) <= size →
  dispatch sha256 W e BEE_OP_DB_GET
    (ctx_with (header_for BEE_OP_DB_GET nm key data size) (payload nm key stamp data) (payload nm key stamp data)) =
  Ret (Done W [] (int_bytes ESQ_OK ++ int_bytes (Z.of_nat (length v) - sizeof_timeval) ++ v ++ int_bytes 0 ++ int_bytes 0) 1).
Proof.
  intros Hi HT Hsn Hm Hlen Hsz Hv Hvl. assert (Hst : sizeof_timeval = 16) by done. pose proof (sendable_request BEE_OP_DB_GET nm key stamp data size Hsn) as Hrq.
  unfold dispatch. cbn [recv_buf_of ctx_with ctx_recv_buf ctx_header mbind cres_bind].
  rewrite rd_name_end. cbn [mbind cres_bind]. change (negb (0 =? 0)) with false.
  change (BEE_OP_MONKEY =? BEE_OP_DB_GET) with false. cbn iota.
  unfold run_op. change (BEE_OP_DB_SET =? BEE_OP_DB_GET) with false. change (BEE_OP_DB_GET =? BEE_OP_DB_GET) with true.
  cbn iota. pose proof (db_get_ok N sha256 Hsha W A _ m nm key stamp data Hi HT Hrq) as Eg.
  cbn [ctx_header ctx_with header_for h_result_buf_size] in Eg.
  rewrite Hm, Eg by lia. cbn [mbind cres_bind]. rewrite Hv. unfold get_result. cbv zeta.
  rewrite (proj2 (Z.leb_gt _ _)) by lia.
  change (h_result_buf_size (ctx_header (ctx_with (header_for BEE_OP_DB_GET nm key data size) (payload nm key stamp data)
    (payload nm key stamp data)))) with size.
  unfold write_reply. cbn [set_reply_ptr ctx_reply_ptr result_len2 ctx_reply]. rewrite take_ge by lia.
  unfold reply2_bytes. cbn [return_code2 result_len2 result].
  assert (Eu : u64 (Z.of_nat (length v) - sizeof_timeval + sizeof_timeval + sizeof_reply) = Z.of_nat (length v) + 8).
  { unfold u64, sizeof_reply. rewrite Z.mod_small; lia. }
  rewrite Eu. unfold ow. rewrite !app_assoc.
  rewrite <- (app_assoc _ v (drop (length v) (result m))).
  change ((int_bytes ESQ_OK ++ int_bytes (Z.of_nat (length v) - sizeof_timeval)) ++ v ++ drop (length v) (result m))
    with ([] ++ (int_bytes ESQ_OK ++ int_bytes (Z.of_nat (length v) - sizeof_timeval)) ++ v ++ drop (length v) (result m)).
  rewrite (app_assoc _ v (drop (length v) (result m))).
  rewrite (span_app [] ((int_bytes ESQ_OK ++ int_bytes (Z.of_nat (length v) - sizeof_timeval)) ++ v)).
  - cbn [mbind cres_bind]. do 2 f_equal. unfold reply_bytes, ctx_with. cbn [ctx_reply return_code result_len]. by rewrite app_assoc.
  - done.
  - rewrite !length_app, !length_int_bytes. lia.
Qed.
End Requests.

(** ** What connections see *)

Section Theorems.
Context {DB : Type} `{KcLaws DB} (N : bkey_t → Prop).
Context (sha256 : list Z → list Z) (Hsha : ∀ k, length (sha256 k) = 32%nat).
Implicit Types (W : bees (DB := DB)) (e : env).

(** C10: however the bytes of a request are cut into pieces that come one after the other, the
    session puts the same request together and carries it out once, with the last piece:
    the header and the data are decoded as they were sent, and no other byte of the
    connection or of the buffer is looked at. *)
Theorem bee_session_any_pieces W e fd chunks op nm key stamp data size :
  0 < fd → sendable nm key stamp data → supplied e nm key stamp data → is_int op → is_int size →
  Z.land op BEE_OP_TYPE_MASK ≠ BEE_OP_SYNC → Forall (fun c => c ≠ []) chunks →
  concat chunks = header_bytes (header_for op nm key data size) ++ payload nm key stamp data →
  serve sha256 W e fd chunks (Sock [] Open) new_session =
  dispatch sha256 W e (Z.land op BEE_OP_TYPE_MASK)
    (ctx_with (header_for op nm key data size) (payload nm key stamp data) (payload nm key stamp data)).
Proof. apply serve_request. Qed.

(** The reply to a read of a key without a value is not the error: [bee_db_get] leaves the
    block it got from [malloc] as the reply, so that the reader is sent the numbers (and
    as many bytes as they say) its last owner left there, and when the length there is
    larger than the block memory behind it is read. *)
Theorem bee_session_get_not_found W A e m nm key stamp data size :
  inv N W → table_ok (rms W) A → sendable nm key stamp data →
  e_reply e = Some m → Z.of_nat (length (result m)) = size + sizeof_timeval → 0 < size < 2^31 →
  local_value W (chain sha256 W A nm key) key = None → 0 <= result_len2 m < 2^31 →
  dispatch sha256 W e BEE_OP_DB_GET
    (ctx_with (header_for BEE_OP_DB_GET nm key data size) (payload nm key stamp data) (payload nm key stamp data)) =
  if result_len2 m <=? size
  then Ret (Done W [] (int_bytes (return_code2 m) ++ int_bytes (result_len2 m)
                       ++ take (Z.to_nat (result_len2 m + sizeof_timeval)) (result m)
                       ++ int_bytes ESQ_ERROR_NOTFOUND ++ int_bytes 0) 1)
  else Fault.
Proof.
  intros Hi HT Hsn Hm Hlen Hsz Hv Hrl. assert (Hst : sizeof_timeval = 16) by done.
  pose proof (sendable_request BEE_OP_DB_GET nm key stamp data size Hsn) as Hrq.
  unfold dispatch. cbn [recv_buf_of ctx_with ctx_recv_buf ctx_header mbind cres_bind].
  rewrite rd_name_end. cbn [mbind cres_bind]. change (negb (0 =? 0)) with false.
  change (BEE_OP_MONKEY =? BEE_OP_DB_GET) with false. cbn iota.
  unfold run_op. change (BEE_OP_DB_SET =? BEE_OP_DB_GET) with false. change (BEE_OP_DB_GET =? BEE_OP_DB_GET) with true.
  cbn iota. pose proof (db_get_ok N sha256 Hsha W A _ m nm key stamp data Hi HT Hrq) as Eg.
  cbn [ctx_header ctx_with header_for h_result_buf_size] in Eg.
  rewrite Hm, Eg by lia. cbn [mbind cres_bind]. rewrite Hv. unfold get_result.
  unfold write_reply. cbn [set_reply set_reply_ptr ctx_reply_ptr ctx_reply].
  unfold reply2_bytes. cbn [return_code2 result_len2 result].
  assert (Eu : u64 (result_len2 m + sizeof_timeval + sizeof_reply) = result_len2 m + sizeof_timeval + 8).
  { unfold u64, sizeof_reply. rewrite Z.mod_small; lia. }
  rewrite Eu. unfold span. rewrite !length_app, !length_int_bytes.
  destruct (Z.leb_spec (result_len2 m) size).
  - rewrite decide_True by lia. cbn [mbind cres_bind]. change (Z.to_nat 0) with 0%nat. rewrite drop_0.
    rewrite Z2Nat.inj_add, (Nat.add_comm (Z.to_nat _)) by lia.
    unfold reply_bytes. cbn [return_code result_len]. do 2 f_equal.
  - by rewrite decide_False by lia.
Qed.


(** A header that comes at once. *)
Lemma whole_header W e bits h :
  receive_header sha256 W e bits (Sock (header_bytes h) Open) (set_lc LC_HEADER 0 new_session) =
  header_received sha256 W e bits (Sock [] Open) (BeeSess (header_bytes h) 0 0 LC_HEADER (sv_ctx new_session)).
Proof. done. Qed.

(** An event before the request has come (the session is also registered for writing) ends
    the connection: [os_read_nb] says 0 for "nothing yet" and the caller takes it for the
    end. *)
Theorem bee_session_early_event_closes W e fd :
  0 < fd →
  bee_session_receive_request sha256 W e fd ESQ_EVENT_BIT_WRITE (Sock [] Open) new_session =
  Ret (Done W [] [] 1, Sock [] Open).
Proof. intros Hfd. unfold bee_session_receive_request. by rewrite (proj2 (Z.leb_gt _ _)). Qed.

(** A header of another server that synchronises has its connection closed twice: by the
    merging and by the session. *)
Theorem bee_session_sync_closes_twice W e fd h :
  0 < fd → header_ok h → header_bad h = false → Z.land (h_opcode h) BEE_OP_TYPE_MASK = BEE_OP_SYNC →
  e_timeout_ok e = false →
  serve sha256 W e fd [header_bytes h] (Sock [] Open) new_session = Ret (Done W [] [] 2).
Proof.
  intros Hfd Hok Hgood Hop Ht. cbn [serve avail state_of app]. unfold bee_session_receive_request.
  rewrite (proj2 (Z.leb_gt _ _)) by done.
  cbn [new_session sv_lc]. change (bit ESQ_EVENT_BIT_READ ESQ_EVENT_BIT_FD_CLOSE || bit ESQ_EVENT_BIT_READ ESQ_EVENT_BIT_ERROR
    || bit ESQ_EVENT_BIT_READ ESQ_EVENT_BIT_TIMEOUT || bit ESQ_EVENT_BIT_READ ESQ_EVENT_BIT_EXIT) with false. cbn iota.
  rewrite whole_header by done. unfold header_received. cbn [sv_header]. rewrite header_of_bytes, Hgood by done.
  rewrite Hop. change (BEE_OP_SYNC =? BEE_OP_SYNC) with true. cbn iota. unfold bee_db_start_merge_sprint0. by rewrite Ht.
Qed.

(** C23: the size of a request is added up in an [int]: with a key and data of almost [2^31] bytes
    the buffer has 14 bytes, and the key is read behind its end. *)
Theorem bee_session_size_wraps W e fd chunks block :
  0 < fd → e_set_fd e = 0 → e_recv_buf e 14 = Some block → length block = 14%nat → is_Some (e_reply e) →
  Forall (fun c => c ≠ []) chunks →
  concat chunks = header_bytes (Header BEE_OP_DB_GET 1 (2^31 - 3) (2^31 - 1) 64) ++ [109; 0] ++ replicate 12 7 →
  serve sha256 W e fd chunks (Sock [] Open) new_session = Fault.
Proof.
  intros Hfd Hset Hb Hl [m Hm] Hne Ec. set (h := Header BEE_OP_DB_GET 1 (2^31 - 3) (2^31 - 1) 64) in *.
  set (body := [109; 0] ++ replicate 12 7) in *.
  etrans; [refine (serve_ok sha256 e h body block Hset _ _ _ _ _ Hb Hl W fd chunks [] Hfd Hne _ (eq_sym Ec))|].
  - split; unfold is_int, h, BEE_OP_DB_GET; cbn; lia.
  - reflexivity.
  - discriminate.
  - reflexivity.
  - discriminate.
  - intros ->. discriminate Ec.
  - unfold dispatch. cbn [recv_buf_of ctx_with ctx_recv_buf ctx_header mbind cres_bind].
    change (rd body (h_range_map_name_len h)) with (Ret 0). cbn [mbind cres_bind]. change (negb (0 =? 0)) with false.
    change (op_of h) with BEE_OP_DB_GET. change (BEE_OP_MONKEY =? BEE_OP_DB_GET) with false. cbn iota.
    unfold run_op. change (BEE_OP_DB_SET =? BEE_OP_DB_GET) with false. change (BEE_OP_DB_GET =? BEE_OP_DB_GET) with true.
    cbn iota. by rewrite Hm.
Qed.
End Theorems.

(** ** A server with one bucket *)

Module HiveNet.
Definition no_net (_ : loc) : peer := Peer true sizeof_header (fun n => n).
(** The block of a reply, with what was in it. *)
Definition old_block (n : nat) : reply_from_bee_to_pony_2_t := Reply2 0 3 (replicate (n + 16) 119).
Definition hive_env (n : nat) : env :=
  Env (fun z => Some (replicate (Z.to_nat z) 0)) (Some (old_block n)) no_net true (replicate 40 0) [] (fun _ _ => []) 0.

Lemma hive_sendable data : (length data <= 100)%nat → sendable Run.kv [107] Hive.stamp data.
Proof.
  intros Hd. split; [apply Run.texts|simpl; lia|done|done|]. rewrite length_payload. simpl. lia.
Qed.

Lemma hive_supplied n data : supplied (hive_env n) Run.kv [107] Hive.stamp data.
Proof.
  split; [|reflexivity]. eexists. split; [reflexivity|]. by rewrite length_replicate, Nat2Z.id.
Qed.
End HiveNet.

Lemma bee_session_any_pieces_witness :
  serve Hive.sha Hive.W1 (HiveNet.hive_env 8) 5
    [take 7 (header_bytes (header_for BEE_OP_DB_SET Run.kv [107] [1; 2; 3] 0));
     drop 7 (header_bytes (header_for BEE_OP_DB_SET Run.kv [107] [1; 2; 3] 0)) ++ [107; 118];
     [0; 107] ++ Hive.stamp ++ [1; 2; 3]] (Sock [] Open) new_session =
  dispatch Hive.sha Hive.W1 (HiveNet.hive_env 8) BEE_OP_DB_SET
    (ctx_with (header_for BEE_OP_DB_SET Run.kv [107] [1; 2; 3] 0) (payload Run.kv [107] Hive.stamp [1; 2; 3])
       (payload Run.kv [107] Hive.stamp [1; 2; 3])).
Proof.
  apply (bee_session_any_pieces Hive.sha Hive.W1 (HiveNet.hive_env 8) 5 _ BEE_OP_DB_SET Run.kv [107] Hive.stamp [1; 2; 3] 0).
  - reflexivity.
  - apply HiveNet.hive_sendable. simpl. lia.
  - apply HiveNet.hive_supplied.
  - unfold is_int, BEE_OP_DB_SET. lia.
  - unfold is_int. lia.
  - discriminate.
  - repeat (apply Forall_cons_2; [discriminate|]). apply Forall_nil_2.
  - reflexivity.
Defined.

Lemma bee_session_get_not_found_witness :
  dispatch Hive.sha Hive.W1 (HiveNet.hive_env 8) BEE_OP_DB_GET
    (ctx_with (header_for BEE_OP_DB_GET Run.kv [107] [] 8) (payload Run.kv [107] Hive.stamp [])
       (payload Run.kv [107] Hive.stamp [])) =
  Ret (Done Hive.W1 [] (int_bytes 0 ++ int_bytes 3 ++ replicate 19 119 ++ int_bytes ESQ_ERROR_NOTFOUND ++ int_bytes 0) 1).
Proof.
  destruct Hive.W1_table as [A HT].
  apply (bee_session_get_not_found Hive.keys Hive.sha (fun _ => eq_refl) Hive.W1 A (HiveNet.hive_env 8) (HiveNet.old_block 8)
    Run.kv [107] Hive.stamp [] 8 Hive.W1_inv HT).
  - apply HiveNet.hive_sendable. simpl. lia.
  - reflexivity.
  - reflexivity.
  - lia.
  - apply Hive.W1_value.
  - simpl. lia.
Defined.

Lemma bee_session_size_wraps_witness :
  serve Hive.sha Hive.W1 (HiveNet.hive_env 64) 5
    [header_bytes (Header BEE_OP_DB_GET 1 (2^31 - 3) (2^31 - 1) 64); [109; 0] ++ replicate 12 7] (Sock [] Open) new_session
  = Fault.
Proof.
  apply (bee_session_size_wraps Hive.sha Hive.W1 (HiveNet.hive_env 64) 5 _ (replicate 14 0)).
  - reflexivity.
  - reflexivity.
  - reflexivity.
  - reflexivity.
  - eexists. reflexivity.
  - repeat (apply Forall_cons_2; [discriminate|]). apply Forall_nil_2.
  - reflexivity.
Defined.

