(* ===== verification/Pony.v ===== *)
(** * Asking the key-value service

    [src/pony.c] is the client of the service: a coroutine that finds the server of a key,
    sends the request and reads the reply, over the socket functions for coroutines of
    [mco/socket.c] and [libs/os-utils/socket-utils.c].

    What the kernel answers to writing is a list of answers ([wres]), one per call; the
    receiving side is a [sock] with the pieces that come while the coroutine waits.  The
    server is a parameter: from what was sent it makes what comes back, with a state of its
    own. *)
From stdpp Require Import strings.
From S2P Require Import Prelude CString LinkedList RbTree RangeMap RangeIndex RangeTable Bucket BucketInv BucketThms BeeDb BeeDbThms BeeSession.

Definition ESQ_ERROR_SIZE : Z := -5.
Definition ESQ_ERROR_TIMEOUT : Z := -8.
Definition ESQ_ERROR_TBD : Z := -11.

Definition MCO_SOCKET_IO_MAX_RETRY : Z := 3.

(** ** Sockets *)

(** Writing takes some bytes, none for now, or fails. *)
Inductive wres := Took (n : Z) | WAgain | WError.

Definition os_write_nb (a : wres) : Z := match a with Took n => n | WAgain => 0 | WError => -1 end.

(** [sendto] also says that the connection is still being made. *)
Definition os_fast_open_sendto_nb (a : wres) : Z := os_write_nb a.

(** Where a coroutine runs: inside one, with its session, and the result of having the
    session wait for the socket. *)
Record mco := Mco { in_co : bool; has_session : bool; set_socket_fd : Z }.

(** The loop both ways of writing have; [late] is the result after too many waits.  Every
    call is given the whole buffer again.  [NoFuel]: the answers end before the loop. *)
Fixpoint write_loop (m : mco) (late : Z) (buf : list Z) (ans : list wres) (cl offset : Z) (sent : list Z)
    : cres (Z * list Z * list wres) :=
  if MCO_SOCKET_IO_MAX_RETRY <=? cl then Ret (late, sent, ans)
  else
    match ans with
    | [] => NoFuel
    | a :: ans =>
        let r := os_write_nb a in
        if r =? 0 then
          if negb (set_socket_fd m =? 0) then Ret (set_socket_fd m, sent, ans)
          else write_loop m late buf ans (cl + 1) offset sent
        else if r <? 0 then Ret (ESQ_ERROR_LIBCALL, sent, ans)
        else
          let sent := sent ++ take (Z.to_nat r) buf in
          let offset := offset + r in
          if offset =? Z.of_nat (length buf) then Ret (ESQ_OK, sent, ans)
          else if Z.of_nat (length buf) <? offset then Ret (ESQ_ERROR_LIBCALL, sent, ans)
          else write_loop m late buf ans cl offset sent
    end.

Definition in_service (m : mco) : bool := in_co m && has_session m.

Definition esq_mco_socket_connect_write (m : mco) (buf : list Z) (ans : list wres) : cres (Z * list Z * list wres) :=
  if negb (in_service m) then Ret (ESQ_ERROR_PARAM, [], ans) else write_loop m ESQ_ERROR_TIMEOUT buf ans 0 0 [].

Definition esq_mco_socket_write (m : mco) (buf : list Z) (ans : list wres) : cres (Z * list Z * list wres) :=
  if negb (in_service m) then Ret (ESQ_ERROR_PARAM, [], ans) else write_loop m ESQ_ERROR_LIBCALL buf ans 0 0 [].

(** The receiving side: what has come, and what comes at each wait. *)
Record inbox := Inbox { i_sock : sock; i_next : list (list Z) }.

Definition mco_yield (i : inbox) : inbox :=
  match i_next i with
  | [] => i
  | d :: next => Inbox (Sock (avail (i_sock i) ++ d) (state_of (i_sock i))) next
  end.

(** Every call reads to the beginning of the buffer. *)
Fixpoint read_loop (fuel : nat) (m : mco) (i : inbox) (buf : list Z) (buflen cl offset : Z)
    : cres (Z * list Z * inbox) :=
  match fuel with
  | O => NoFuel
  | S fuel =>
      if MCO_SOCKET_IO_MAX_RETRY <=? cl then Ret (ESQ_ERROR_TIMEOUT, buf, i)
      else
        let '(r, d, k) := os_read_nb (i_sock i) buflen in
        let i := Inbox k (i_next i) in
        if r =? 0 then
          if negb (set_socket_fd m =? 0) then Ret (set_socket_fd m, buf, i)
          else read_loop fuel m (mco_yield i) buf buflen (cl + 1) offset
        else if r <? 0 then Ret (ESQ_ERROR_LIBCALL, buf, i)
        else
          buf ← c_memcpy buf 0 d r;
          let offset := offset + r in
          if offset =? buflen then Ret (ESQ_OK, buf, i)
          else if buflen <? offset then Ret (ESQ_ERROR_LIBCALL, buf, i)
          else read_loop fuel m i buf buflen cl offset
  end.

Definition esq_mco_socket_read (m : mco) (i : inbox) (buf : list Z) (buflen : Z) : cres (Z * list Z * inbox) :=
  if negb (in_service m) then Ret (ESQ_ERROR_PARAM, buf, i)
  else read_loop (Z.to_nat buflen + 4) m i buf buflen 0 0.

(** ** The request *)

(** What the coroutine finds around it: the clock, a socket, the address on the stack, the
    memory of the variables that are read into. *)
Record client := Client {
  cl_mco : mco;
  cl_magic_ok : bool;
  cl_time : option (list Z);
  cl_open_ok : bool;
  cl_address : sockaddr_in;
  cl_reply : list Z;
  cl_tv : list Z
}.

(** The session of the coroutine, if this is one. *)
Definition pony_get_esq_session (cl : client) : bool :=
  in_co (cl_mco cl) && has_session (cl_mco cl) && cl_magic_ok cl.

(** Writing one piece after the other, until one fails. *)
Fixpoint write_all (m : mco) (bufs : list (list Z)) (ans : list wres) (sent : list Z) : cres (Z * list Z) :=
  match bufs with
  | [] => Ret (ESQ_OK, sent)
  | b :: bufs =>
      '(r, out, ans) ← esq_mco_socket_write m b ans;
      if negb (r =? 0) then Ret (r, sent ++ out) else write_all m bufs ans (sent ++ out)
  end.

Section Pony.
Context {St : Type} (sha256 : list Z → list Z).
Context (serve : sockaddr_in → list Z → St * list (list Z)).

(** The result, the caller's buffer and size, and the server. *)
Record answer_t := Answer { a_code : Z; a_buf : option (list Z); a_size : option Z; a_server : option St }.

(** The reply. *)
Definition read_reply (cl : client) (i : inbox) (result_buf : option (list Z)) (result_buf_size : option Z)
    (st : option St) : cres answer_t :=
  let m := cl_mco cl in
  let none r := Answer r result_buf ((fun _ => 0) <$> result_buf_size) st in
  '(r, rb, i) ← esq_mco_socket_read m i (cl_reply cl) sizeof_reply;
  if negb (r =? 0) then Ret (Answer r result_buf result_buf_size st)
  else
    let return_code := int_of (take 4 rb) in
    let result_len := int_of (take 4 (drop 4 rb)) in
    if result_len =? 0 then Ret (none return_code)
    else
      match result_buf, result_buf_size with
      | Some b, Some sz =>
          if sz <? result_len then Ret (none ESQ_ERROR_SIZE)
          else
            '(r, _, i) ← esq_mco_socket_read m i (cl_tv cl) sizeof_timeval;
            if negb (r =? 0) then Ret (none ESQ_ERROR_TBD)
            else
              '(r, b, i) ← esq_mco_socket_read m i b result_len;
              if negb (r =? 0) then Ret (Answer r (Some b) (Some 0) st)
              else Ret (Answer return_code (Some b) (Some result_len) st)
      | _, _ => Ret (none ESQ_ERROR_SIZE)
      end.

(** [data] is [None] for the null pointer, whatever [data_len] says. *)
Definition pony (S : state) (cl : client) (ans : list wres) (range_map_name : list Z) (key : option (list Z)) (key_len : Z)
    (data : option (list Z)) (data_len opcode : Z) (result_buf : option (list Z)) (result_buf_size : option Z)
    : cres answer_t :=
  let fail r := Ret (Answer r result_buf result_buf_size None) in
  match key with
  | None => fail ESQ_ERROR_PARAM
  | Some key =>
      if key_len <=? 0 then fail ESQ_ERROR_PARAM
      else if negb (pony_get_esq_session cl) then fail ESQ_ERROR_PARAM
      else
        match cl_time cl with
        | None => fail ESQ_ERROR_LIBCALL
        | Some tv =>
            hash ← get_hash_value sha256 key 0 key_len;
            '(r, address) ← range_map_get_main_address S range_map_name hash (cl_address cl);
            if negb (r =? 0) then fail ESQ_ERROR_NOTFOUND
            else if negb (cl_open_ok cl) then fail ESQ_ERROR_LIBCALL
            else
              name_len ← c_strlen range_map_name;
              let header := Header opcode (i32 name_len) key_len data_len
                              (match result_buf, result_buf_size with Some _, Some sz => sz | _, _ => 0 end) in
              '(r, sent, ans) ← esq_mco_socket_connect_write (cl_mco cl) (header_bytes header) ans;
              if negb (r =? 0) then fail r
              else
                nm ← span range_map_name 0 (i32 name_len + 1);
                k ← span key 0 key_len;
                d ← match data with
                    | Some d => if 0 <? data_len then d ← span d 0 data_len; Ret [d] else Ret []
                    | None => Ret []
                    end;
                '(r, sent) ← write_all (cl_mco cl) ([nm; k; tv] ++ d) ans sent;
                if negb (r =? 0) then fail r
                else
                  let '(st, pieces) := serve address sent in
                  read_reply cl (Inbox (Sock [] Open) pieces) result_buf result_buf_size (Some st)
        end
  end.
End Pony.

(** ** Whole transfers *)

(** The socket is busy [k] times and then takes all of [b]. *)
Definition whole (b : list Z) (k : nat) : list wres := replicate k WAgain ++ [Took (Z.of_nat (length b))].

(** A coroutine whose session can wait. *)
Definition mco_ok (m : mco) : Prop := in_service m = true ∧ set_socket_fd m = 0.

Lemma write_loop_whole m late b k rest cl sent :
  set_socket_fd m = 0 → b ≠ [] → cl + Z.of_nat k <= 2 →
  write_loop m late b (whole b k ++ rest) cl 0 sent = Ret (ESQ_OK, sent ++ b, rest).
Proof.
  intros Hm Hb. revert cl. induction k as [|k IH]; intros cl Hk; unfold whole; cbn [replicate app write_loop];
    unfold MCO_SOCKET_IO_MAX_RETRY; rewrite (proj2 (Z.leb_gt 3 cl)) by lia; cbn [os_write_nb].
  - assert (0 < length b)%nat by (destruct b; [done|simpl; lia]).
    rewrite (proj2 (Z.eqb_neq _ _)) by lia. rewrite (proj2 (Z.ltb_ge _ _)) by lia. cbv zeta.
    rewrite Z.add_0_l, Z.eqb_refl. by rewrite Nat2Z.id, firstn_all.
  - change (0 =? 0) with true. rewrite Hm. cbn [negb Z.eqb]. apply (IH (cl + 1)). lia.
Qed.

(** Several buffers, one after the other. *)
Fixpoint wholes (bufs : list (list Z)) (ks : list nat) : list wres :=
  match bufs, ks with
  | b :: bufs, k :: ks => whole b k ++ wholes bufs ks
  | _, _ => []
  end.

Lemma write_all_whole m bufs ks sent :
  mco_ok m → Forall (fun b => b ≠ []) bufs → Forall (fun k => (k <= 2)%nat) ks → length ks = length bufs →
  write_all m bufs (wholes bufs ks) sent = Ret (ESQ_OK, sent ++ concat bufs).
Proof.
  intros [Hs Hm] Hb. revert ks sent. induction Hb as [|b bufs Hne Hb IH]; intros ks sent Hk Hl; cbn [write_all concat].
  { by rewrite app_nil_r. }
  destruct Hk as [|k ks Hk Hks]; [done|]. cbn [wholes]. unfold esq_mco_socket_write. rewrite Hs. cbn [negb].
  rewrite write_loop_whole by (done || lia). cbn [mbind cres_bind negb Z.eqb app].
  rewrite IH by (done || (simpl in Hl; lia)). by rewrite <- app_assoc.
Qed.

(** Bytes that are there are read at once. *)
Lemma read_now m a l nx buf n fuel cl :
  0 < n → n <= Z.of_nat (length a) → n <= Z.of_nat (length buf) → cl <= 2 →
  read_loop (S fuel) m (Inbox (Sock a l) nx) buf n cl 0 =
  Ret (ESQ_OK, ow (take (Z.to_nat n) a) buf, Inbox (Sock (drop (Z.to_nat n) a) l) nx).
Proof.
  intros Hn Ha Hb Hcl. cbn [read_loop i_sock i_next]. unfold MCO_SOCKET_IO_MAX_RETRY. rewrite (proj2 (Z.leb_gt 3 cl)) by lia.
  unfold os_read_nb, sys_read. cbn [avail state_of]. destruct a as [|x a]; [simpl in Ha; lia|]. cbn iota beta.
  rewrite length_take. rewrite (proj2 (Z.eqb_neq _ _)) by lia. rewrite (proj2 (Z.ltb_ge _ _)) by lia.
  unfold c_memcpy. rewrite length_take, decide_True by lia. cbn [mbind cres_bind]. cbv zeta.
  rewrite (proj2 (Z.eqb_eq _ _)) by lia. f_equal. f_equal. f_equal. change (Z.to_nat 0) with 0%nat. rewrite take_0.
  cbn [app]. unfold ow. rewrite length_take, take_take. f_equal; f_equal; lia.
Qed.

Lemma socket_read_now m a l nx buf n :
  in_service m = true → 0 < n → n <= Z.of_nat (length a) → n <= Z.of_nat (length buf) →
  esq_mco_socket_read m (Inbox (Sock a l) nx) buf n =
  Ret (ESQ_OK, ow (take (Z.to_nat n) a) buf, Inbox (Sock (drop (Z.to_nat n) a) l) nx).
Proof.
  intros Hm Hn Ha Hb. unfold esq_mco_socket_read. rewrite Hm. cbn [negb].
  rewrite Nat.add_comm. cbn [Nat.add]. by apply read_now.
Qed.

(** Reading always returns: a turn either waits, at most three times, or makes progress. *)
Lemma read_loop_total fuel m i buf n cl offset :
  0 <= cl <= 3 → 0 <= offset < n → n <= Z.of_nat (length buf) → 3 - cl + (n - offset) < Z.of_nat fuel →
  ∃ r buf' i', read_loop fuel m i buf n cl offset = Ret (r, buf', i').
Proof.
  revert i buf cl offset. induction fuel as [|fuel IH]; intros i buf cl offset Hcl Ho Hb Hf; [lia|]. cbn [read_loop].
  unfold MCO_SOCKET_IO_MAX_RETRY. destruct (Z.leb_spec 3 cl); [eauto|].
  assert (Hr : ∃ r d k, os_read_nb (i_sock i) n = (r, d, k) ∧ (r = -1 ∨ r = Z.of_nat (length d)) ∧ Z.of_nat (length d) <= n).
  { unfold os_read_nb, sys_read. destruct (avail (i_sock i)) as [|x a].
    - destruct (state_of (i_sock i)); eexists _, _, _; (split; [done|]); simpl; (split; [auto|lia]).
    - eexists _, _, _. split; [done|]. split; [auto|]. rewrite length_take. lia. }
  destruct Hr as (r & d & k & -> & Hr & Hd).
  destruct (Z.eqb_spec r 0) as [->|Hr0].
  { destruct (set_socket_fd m =? 0); cbn [negb]; [|eauto]. apply IH; lia. }
  destruct (Z.ltb_spec r 0); [eauto|]. destruct Hr as [->| ->]; [lia|].
  unfold c_memcpy. rewrite decide_True by lia. cbn [mbind cres_bind]. cbv zeta.
  destruct (Z.eqb_spec (offset + Z.of_nat (length d)) n); [eauto|]. destruct (Z.ltb_spec n (offset + Z.of_nat (length d))); [eauto|].
  apply IH; [lia|lia| |lia]. rewrite !length_app, !length_take, length_drop. lia.
Qed.

Lemma esq_mco_socket_read_total m i buf n :
  0 < n <= Z.of_nat (length buf) → ∃ r buf' i', esq_mco_socket_read m i buf n = Ret (r, buf', i').
Proof.
  intros Hn. unfold esq_mco_socket_read. destruct (in_service m); cbn [negb]; [|eauto]. apply read_loop_total; lia.
Qed.

(** The first bytes may take one more turn to come. *)
Lemma socket_read_wait m (k : nat) out nx buf n :
  mco_ok m → (k <= 1)%nat → 0 < n → n <= Z.of_nat (length out) → n <= Z.of_nat (length buf) →
  esq_mco_socket_read m (Inbox (Sock [] Open) (replicate k [] ++ out :: nx)) buf n =
  Ret (ESQ_OK, ow (take (Z.to_nat n) out) buf, Inbox (Sock (drop (Z.to_nat n) out) Open) nx).
Proof.
  intros [Hs Hm] Hk Hn Ho Hb. unfold esq_mco_socket_read. rewrite Hs. cbn [negb]. rewrite Nat.add_comm. cbn [Nat.add].
  assert (Hwait : ∀ fuel cl nx', cl <= 2 →
    read_loop (S fuel) m (Inbox (Sock [] Open) nx') buf n cl 0 =
    read_loop fuel m (mco_yield (Inbox (Sock [] Open) nx')) buf n (cl + 1) 0).
  { intros fuel cl nx' Hcl. cbn [read_loop i_sock i_next]. unfold MCO_SOCKET_IO_MAX_RETRY.
    rewrite (proj2 (Z.leb_gt 3 cl)) by lia. cbn [os_read_nb sys_read avail state_of]. rewrite Hm. done. }
  rewrite Hwait by lia. destruct k as [|[|k]]; [| |lia]; cbn [replicate app mco_yield i_next i_sock avail state_of].
  - by apply read_now.
  - rewrite Hwait by lia. cbn [mco_yield i_next i_sock avail state_of app]. by apply read_now.
Qed.

(** ** Replies and requests *)

(** A client that can ask: in a coroutine, with a clock and a socket; its variables have the
    sizes of their types. *)
Record client_ok (cl : client) (tv : list Z) : Prop := {
  co_mco : mco_ok (cl_mco cl);
  co_magic : cl_magic_ok cl = true;
  co_time : cl_time cl = Some tv;
  co_tv : length tv = 16%nat;
  co_open : cl_open_ok cl = true;
  co_reply : length (cl_reply cl) = 8%nat;
  co_tv_buf : length (cl_tv cl) = 16%nat
}.

Section Replies.
Context {St : Type}.

Lemma reply_numbers (a b : Z) rest :
  is_int a → is_int b →
  take (Z.to_nat sizeof_reply) (int_bytes a ++ int_bytes b ++ rest) = int_bytes a ++ int_bytes b ∧
  drop (Z.to_nat sizeof_reply) (int_bytes a ++ int_bytes b ++ rest) = rest ∧
  int_of (take 4 (int_bytes a ++ int_bytes b)) = a ∧ int_of (take 4 (drop 4 (int_bytes a ++ int_bytes b))) = b.
Proof.
  intros Ha Hb. split; [done|]. split; [done|]. split; [exact (int_of_bytes a Ha)|exact (int_of_bytes b Hb)].
Qed.

Lemma read_reply_head cl tv k a b rest :
  client_ok cl tv → (k <= 1)%nat → is_int a → is_int b →
  esq_mco_socket_read (cl_mco cl) (Inbox (Sock [] Open) (replicate k [] ++ [int_bytes a ++ int_bytes b ++ rest]))
    (cl_reply cl) sizeof_reply = Ret (ESQ_OK, int_bytes a ++ int_bytes b, Inbox (Sock rest Open) []).
Proof.
  intros Hc Hk Ha Hb. destruct (reply_numbers a b rest Ha Hb) as (E1 & E2 & _).
  rewrite socket_read_wait; [|apply Hc|done|done|rewrite !length_app; unfold sizeof_reply; simpl; lia|
    rewrite (co_reply _ _ Hc); done].
  rewrite E1, E2. rewrite ow_all; [done|]. by rewrite (co_reply _ _ Hc).
Qed.

(** A reply without a result. *)
Lemma read_reply_none cl tv k a rest buf size (st : option St) :
  client_ok cl tv → (k <= 1)%nat → is_int a →
  read_reply cl (Inbox (Sock [] Open) (replicate k [] ++ [int_bytes a ++ int_bytes 0 ++ rest])) buf size st =
  Ret (Answer a buf ((fun _ => 0) <$> size) st).
Proof.
  intros Hc Hk Ha. unfold read_reply. rewrite (read_reply_head cl tv) by done. cbn [mbind cres_bind].
  destruct (reply_numbers a 0 [] Ha) as (_ & _ & E3 & E4); [done|]. rewrite E3, E4. done.
Qed.

(** A reply with a result: the time before it is not given to the caller. *)
Lemma read_reply_data cl tv k a t d rest buf size (st : option St) :
  client_ok cl tv → (k <= 1)%nat → is_int a → length t = 16%nat → d ≠ [] →
  Z.of_nat (length d) < 2^31 → Z.of_nat (length d) <= size → (length d <= length buf)%nat →
  read_reply cl (Inbox (Sock [] Open) (replicate k [] ++ [int_bytes a ++ int_bytes (Z.of_nat (length d)) ++ t ++ d ++ rest]))
    (Some buf) (Some size) st =
  Ret (Answer a (Some (ow d buf)) (Some (Z.of_nat (length d))) st).
Proof.
  intros Hc Hk Ha Ht Hd Hs Hsz Hb. assert (Hpos : (0 < length d)%nat) by (destruct d; [done|simpl; lia]).
  assert (Hi : is_int (Z.of_nat (length d))) by (unfold is_int; lia).
  unfold read_reply. rewrite (read_reply_head cl tv) by done. cbn [mbind cres_bind].
  destruct (reply_numbers a _ [] Ha Hi) as (_ & _ & E3 & E4). rewrite E3, E4. change (negb (ESQ_OK =? 0)) with false.
  cbn iota. rewrite (proj2 (Z.eqb_neq _ _)) by lia. rewrite (proj2 (Z.ltb_ge _ _)) by lia.
  rewrite socket_read_now; [|apply Hc|done|rewrite !length_app, Ht; unfold sizeof_timeval; lia|
    rewrite (co_tv_buf _ _ Hc); done].
  cbn [mbind cres_bind]. change (negb (ESQ_OK =? 0)) with false. cbn iota.
  change (Z.to_nat sizeof_timeval) with 16%nat. rewrite drop_app_length' by done.
  rewrite socket_read_now; [|apply Hc|lia|rewrite length_app; lia|lia]. cbn [mbind cres_bind].
  rewrite Nat2Z.id, take_app_length. done.
Qed.

Context (sha256 : list Z → list Z) (server : sockaddr_in → list Z → St * list (list Z)).

(** What is passed for some data. *)
Definition data_arg (data : list Z) : option (list Z) := match data with [] => None | _ => Some data end.

(** The buffers a request is written from. *)
Definition request_bufs (h : header_from_pony_to_bee_t) (nm key tv data : list Z) : list (list Z) :=
  header_bytes h :: [nm ++ [0]; key; tv] ++ option_list (data_arg data).

Lemma concat_bufs h nm key tv data : concat (request_bufs h nm key tv data) = header_bytes h ++ payload nm key tv data.
Proof.
  assert (Ed : concat (option_list (data_arg data)) = data) by (destruct data; [done|]; simpl; by rewrite app_nil_r).
  unfold request_bufs, payload. cbn [concat app]. by rewrite Ed, <- app_assoc.
Qed.

Lemma pony_sends S cl tv a ks nm key data op buf size :
  client_ok cl tv → sendable nm key tv data → (∀ b, buf = Some b → is_Some size) →
  range_map_get_main_address S (nm ++ [0]) (sha256 key) (cl_address cl) = Ret (0, a) →
  let sz := match buf, size with Some _, Some sz => sz | _, _ => 0 end in
  let h := header_for op nm key data sz in
  Forall (fun k => (k <= 2)%nat) ks → length ks = length (request_bufs h nm key tv data) →
  pony sha256 server S cl (wholes (request_bufs h nm key tv data) ks) (nm ++ [0]) (Some key) (Z.of_nat (length key))
    (data_arg data) (Z.of_nat (length data)) op buf size =
  (let '(st, pieces) := server a (header_bytes h ++ payload nm key tv data) in
   read_reply cl (Inbox (Sock [] Open) pieces) buf size (Some st)).
Proof.
  intros Hc Hsn Hbs Ha sz h Hks Hl. pose proof Hsn as [Hn Hnl Hk Hst Hsm]. rewrite length_payload, Hst in Hsm.
  assert (Hkl : (0 < length key)%nat) by (destruct key; [done|simpl; lia]).
  unfold pony. rewrite (proj2 (Z.leb_gt _ _)) by lia.
  pose proof (co_mco _ _ Hc) as [Hs Hm].
  assert (Hg : pony_get_esq_session cl = true).
  { unfold pony_get_esq_session. by rewrite <- Hs, (co_magic _ _ Hc), andb_true_r. }
  rewrite Hg, (co_time _ _ Hc). cbn [negb].
  pose proof (span_app [] key [] 0 (Z.of_nat (length key)) eq_refl eq_refl) as Ek. rewrite app_nil_r in Ek. cbn [app] in Ek.
  unfold get_hash_value. rewrite Ek. cbn [mbind cres_bind]. rewrite Ha. cbn [mbind cres_bind].
  change (negb (0 =? 0)) with false. rewrite (co_open _ _ Hc). cbn [negb].
  rewrite (c_strlen_ok nm []) by done. cbn [mbind cres_bind]. rewrite i32_small by lia.
  change (Header op (Z.of_nat (length nm)) (Z.of_nat (length key)) (Z.of_nat (length data))
    match buf, size with Some _, Some sz => sz | _, _ => 0 end) with h.
  unfold request_bufs in *. destruct Hks as [|k0 ks Hk0 Hks]; [done|]. cbn [wholes].
  unfold esq_mco_socket_connect_write. rewrite Hs. cbn [negb].
  rewrite write_loop_whole by (done || lia). cbn [mbind cres_bind app]. change (negb (ESQ_OK =? 0)) with false. cbn iota.
  pose proof (span_app [] (nm ++ [0]) [] 0 (Z.of_nat (length nm) + 1) eq_refl) as En. rewrite app_nil_r in En. cbn [app] in En.
  rewrite En by (rewrite length_app; simpl; lia). cbn [mbind cres_bind].
  assert (Ed : match data_arg data with
    | Some d => if 0 <? Z.of_nat (length data) then d ← span d 0 (Z.of_nat (length data)); Ret [d] else Ret []
    | None => Ret [] end = Ret (option_list (data_arg data))).
  { destruct data as [|x data]; [done|]. cbn [data_arg]. rewrite (proj2 (Z.ltb_lt _ _)) by (simpl; lia).
    pose proof (span_app [] (x :: data) [] 0 _ eq_refl eq_refl) as E. rewrite app_nil_r in E. cbn [app] in E. by rewrite E. }
  rewrite Ed. cbn [mbind cres_bind].
  rewrite write_all_whole; [|done| |done|simpl in Hl |- *; lia].
  2:{ apply Forall_cons_2; [by destruct nm|]. apply Forall_cons_2; [done|]. apply Forall_cons_2; [by intros ->|].
      destruct data; cbn; [apply Forall_nil_2|apply Forall_cons_2; [done|apply Forall_nil_2]]. }
  cbn [mbind cres_bind]. change (negb (ESQ_OK =? 0)) with false. cbn iota.
  rewrite <- (concat_bufs h). done.
Qed.
End Replies.

(** ** Client and server together *)

Section Together.
Context {DB : Type} `{KcLaws DB} (N : bkey_t → Prop).
Context (sha256 : list Z → list Z) (Hsha : ∀ k, length (sha256 k) = 32%nat).
Implicit Types W : bees (DB := DB).

(** The server behind the network: the request comes in the pieces [cut] makes of it, the
    reply at once, after [k] turns. *)
Definition bee_server W (e : env) (fd : Z) (cut : list Z → list (list Z)) (k : nat) (_ : sockaddr_in) (stream : list Z)
    : option (bees (DB := DB)) * list (list Z) :=
  match serve sha256 W e fd (cut stream) (Sock [] Open) new_session with
  | Ret (Done W' _ out _) => (Some W', replicate k [] ++ [out])
  | _ => (None, [])
  end.

(** A way to cut a stream into pieces. *)
Definition cuts (cut : list Z → list (list Z)) : Prop := ∀ s, concat (cut s) = s ∧ Forall (fun c => c ≠ []) (cut s).

(** The network between a client and a server, for one request. *)
Record linked (e : env) (fd : Z) (cut : list Z → list (list Z)) (k : nat) (S : state) (cl : client) (a : sockaddr_in)
    (nm key tv data : list Z) : Prop := {
  li_fd : 0 < fd;
  li_cut : cuts cut;
  li_wait : (k <= 1)%nat;
  li_client : client_ok cl tv;
  li_request : sendable nm key tv data;
  li_memory : supplied e nm key tv data;
  li_address : range_map_get_main_address S (nm ++ [0]) (sha256 key) (cl_address cl) = Ret (0, a)
}.

(** The answers of the kernel to writing a request, busy [ks] times before each buffer. *)
Definition busy (h : header_from_pony_to_bee_t) (nm key tv data : list Z) (ks : list nat) : Prop :=
  Forall (fun k => (k <= 2)%nat) ks ∧ length ks = length (request_bufs h nm key tv data).

Lemma pony_asks W e fd cut k S cl a nm key tv data op buf size ks :
  linked e fd cut k S cl a nm key tv data → (∀ b, buf = Some b → is_Some size) →
  let sz := match buf, size with Some _, Some sz => sz | _, _ => 0 end in
  let h := header_for op nm key data sz in
  is_int op → is_int sz → Z.land op BEE_OP_TYPE_MASK ≠ BEE_OP_SYNC → busy h nm key tv data ks →
  ∀ W' sent out, dispatch sha256 W e (Z.land op BEE_OP_TYPE_MASK)
    (ctx_with h (payload nm key tv data) (payload nm key tv data)) = Ret (Done W' sent out 1) →
  pony sha256 (bee_server W e fd cut k) S cl (wholes (request_bufs h nm key tv data) ks) (nm ++ [0]) (Some key)
    (Z.of_nat (length key)) (data_arg data) (Z.of_nat (length data)) op buf size =
  read_reply cl (Inbox (Sock [] Open) (replicate k [] ++ [out])) buf size (Some (Some W')).
Proof.
  intros [Hfd Hcut Hk Hcl Hrq Hmem Ha] Hbs sz h Hop Hsz Hns [Hks Hl] W' sent out Ed.
  etrans; [exact (pony_sends sha256 (bee_server W e fd cut k) S cl tv a ks nm key data op buf size Hcl Hrq Hbs Ha Hks Hl)|].
  cbv zeta. fold sz. fold h. unfold bee_server.
  destruct (Hcut (header_bytes h ++ payload nm key tv data)) as [Ec Hne].
  rewrite (serve_request sha256 W e fd _ op nm key tv data sz) by done. fold h. by rewrite Ed.
Qed.

(** C9: what one client stores another one reads.  A request of [pony] to store data that are not
    empty, sent to a server with a bucket that serves the key, comes to an end with success or
    [ESQ_ERROR_LIBCALL]; with success a later request for that key returns exactly these data,
    and the values of all other keys are as they were either way.  The requests are put
    together, received, carried out and answered by the code of the client, of the session and
    of the buckets.  The conditions: the kernel takes each buffer of the clients whole, after
    at most two turns in which it is busy; a request reaches the server in any pieces; the
    reply is written whole and comes in one piece after at most one empty turn; there is memory
    and the server's address is known; the buffer of the reader has room for the data and the
    time; the keys of the buckets are less than 2^31 apart, so that comparing them does not
    wrap. *)
Theorem pony_set_then_get W A e e' fd cut k S cl cl' a a' nm key tv tv' data buf m ks ks' :
  all_near N → inv N W → table_ok (rms W) A → existsb (serves W) (chain sha256 W A nm key) = true →
  linked e fd cut k S cl a nm key tv data → linked e' fd cut k S cl' a' nm key tv' [] →
  data ≠ [] → let size := Z.of_nat (length buf) in
  Z.of_nat (length data) + sizeof_timeval <= size < 2^31 →
  e_reply e' = Some m → Z.of_nat (length (result m)) = size + sizeof_timeval →
  busy (header_for BEE_OP_DB_SET nm key data 0) nm key tv data ks →
  busy (header_for BEE_OP_DB_GET nm key [] size) nm key tv' [] ks' →
  ∃ r W',
    pony sha256 (bee_server W e fd cut k) S cl
      (wholes (request_bufs (header_for BEE_OP_DB_SET nm key data 0) nm key tv data) ks) (nm ++ [0]) (Some key)
      (Z.of_nat (length key)) (data_arg data) (Z.of_nat (length data)) BEE_OP_DB_SET None None
    = Ret (Answer r None None (Some (Some W'))) ∧
    (r = ESQ_OK ∨ r = ESQ_ERROR_LIBCALL) ∧ inv N W' ∧
    (∀ nm2 key2, key2 ≠ key → local_value W' (chain sha256 W' A nm2 key2) key2 = local_value W (chain sha256 W A nm2 key2) key2) ∧
    (r = ESQ_OK →
     pony sha256 (bee_server W' e' fd cut k) S cl'
       (wholes (request_bufs (header_for BEE_OP_DB_GET nm key [] size) nm key tv' []) ks') (nm ++ [0]) (Some key)
       (Z.of_nat (length key)) None 0 BEE_OP_DB_GET (Some buf) (Some size)
     = Ret (Answer ESQ_OK (Some (ow data buf)) (Some (Z.of_nat (length data))) (Some (Some W')))).
Proof.
  intros Hnear Hi HT Hse Hl Hl' Hd size Hsz Hm Hml Hb Hb'. assert (Hst : sizeof_timeval = 16) by done.
  destruct (dispatch_store N sha256 Hsha W A e BEE_OP_DB_SET true nm key tv data 0 (or_introl (conj eq_refl eq_refl))
    Hnear Hi HT (li_request _ _ _ _ _ _ _ _ _ _ _ Hl)) as (r & W' & sent & Ed & _ & Ht & _ & Hr & Hv & _).
  assert (Hne : chain_buckets W (chain sha256 W A nm key) ≠ []) by (by apply serves_bucket).
  specialize (Hr Hne). assert (Hri : is_int r) by (destruct Hr as [-> | ->]; done).
  exists r, W'. split.
  { rewrite (pony_asks W e fd cut k S cl a nm key tv data BEE_OP_DB_SET None None ks Hl) with
      (W' := W') (sent := sent) (out := int_bytes r ++ int_bytes 0) by done.
    rewrite <- (app_nil_r (int_bytes 0)).
    rewrite (read_reply_none cl tv k r []) by (done || apply Hl). done. }
  split; [done|]. split; [apply Ht|]. split.
  { intros nm2 key2 Hne2. rewrite (chain_frame sha256 W W') by apply Ht. exact (local_value_frame N key _ W W' _ key2 Ht Hne2). }
  intros Hok. specialize (Hv Hok). rewrite Hse in Hv.
  assert (HT' : table_ok (rms W') A) by (by rewrite (to_rms _ _ _ _ _ Ht)).
  rewrite <- (chain_frame sha256 W W') in Hv by apply Ht.
  assert (Ht1 : length tv = 16%nat) by apply (li_client _ _ _ _ _ _ _ _ _ _ _ Hl).
  pose proof (dispatch_get N sha256 Hsha W' A e' m nm key tv' [] size (tv ++ data) (to_inv _ _ _ _ _ Ht) HT'
    (li_request _ _ _ _ _ _ _ _ _ _ _ Hl') Hm Hml) as Eg.
  rewrite length_app, Ht1 in Eg. assert (0 < length data)%nat by (destruct data; [done|simpl; lia]).
  assert (Hbs : ∀ b, Some buf = Some b → is_Some (Some size)) by eauto.
  etrans; [refine (pony_asks W' e' fd cut k S cl' a' nm key tv' [] BEE_OP_DB_GET (Some buf) (Some size) ks' Hl' Hbs
    _ _ _ Hb' W' [] _ (Eg _ _ _)); try done; unfold is_int; lia|].
  replace (Z.of_nat (16 + length data) - sizeof_timeval) with (Z.of_nat (length data)) by lia.
  rewrite <- !app_assoc. apply (read_reply_data cl' tv' k ESQ_OK tv data); try done; try lia; apply Hl'.
Qed.
End Together.

(** ** Transfers in parts *)

(** The socket functions for coroutines forget how far they came: when the kernel takes
    a buffer in two parts its beginning is sent twice and its end never, and when data come
    in two parts the second is stored over the first; both report success. *)
Theorem esq_mco_socket_parts m (b d1 d2 : list Z) (n1 n2 : Z) (rest : list wres) :
  mco_ok m → 0 < n1 → 0 < n2 → n1 + n2 = Z.of_nat (length b) →
  d1 ≠ [] → d2 ≠ [] → length b = (length d1 + length d2)%nat →
  esq_mco_socket_write m b (Took n1 :: Took n2 :: rest) = Ret (ESQ_OK, take (Z.to_nat n1) b ++ take (Z.to_nat n2) b, rest) ∧
  esq_mco_socket_read m (Inbox (Sock d1 Open) [d2]) b (Z.of_nat (length b)) =
    Ret (ESQ_OK, ow d2 (ow d1 b), Inbox (Sock [] Open) []).
Proof.
  intros [Hs Hm] H1 H2 Hn Hd1 Hd2 Hl. split.
  - unfold esq_mco_socket_write. rewrite Hs. cbn [negb write_loop os_write_nb].
    change (MCO_SOCKET_IO_MAX_RETRY <=? 0) with false. cbn iota. cbv zeta.
    rewrite (proj2 (Z.eqb_neq n1 0)), (proj2 (Z.ltb_ge n1 0)), (proj2 (Z.eqb_neq (0 + n1) _)), (proj2 (Z.ltb_ge _ (0 + n1))) by lia.
    rewrite (proj2 (Z.eqb_neq n2 0)), (proj2 (Z.ltb_ge n2 0)), (proj2 (Z.eqb_eq (0 + n1 + n2) _)) by lia. done.
  - assert (L1 : (0 < length d1)%nat) by (destruct d1; [done|simpl; lia]).
    assert (L2 : (0 < length d2)%nat) by (destruct d2; [done|simpl; lia]).
    assert (Hcp : ∀ d b' : list Z, (length d <= length b')%nat → c_memcpy b' 0 d (Z.of_nat (length d)) = Ret (ow d b')).
    { intros d b' Hle. pose proof (c_memcpy_ow [] b' d []) as E. rewrite app_nil_r in E. by apply E. }
    assert (Hrd : ∀ d, (0 < length d <= length b)%nat →
      os_read_nb (Sock d Open) (Z.of_nat (length b)) = (Z.of_nat (length d), d, Sock [] Open)).
    { intros d Hd. unfold os_read_nb, sys_read. cbn [avail state_of]. destruct d as [|x d]; [simpl in Hd; lia|].
      cbn iota beta. by rewrite take_ge, drop_ge by lia. }
    unfold esq_mco_socket_read. rewrite Hs. cbn [negb]. rewrite Nat2Z.id, Nat.add_comm. cbn [Nat.add].
    cbn [read_loop i_sock i_next]. change (MCO_SOCKET_IO_MAX_RETRY <=? 0) with false. cbn iota.
    rewrite Hrd by lia. cbv zeta.
    rewrite (proj2 (Z.eqb_neq (Z.of_nat (length d1)) 0)), (proj2 (Z.ltb_ge (Z.of_nat (length d1)) 0)) by lia.
    rewrite Hcp by lia. cbn [mbind cres_bind].
    rewrite (proj2 (Z.eqb_neq (0 + _) _)), (proj2 (Z.ltb_ge _ (0 + _))) by lia.
    cbn [i_sock i_next os_read_nb sys_read avail state_of]. rewrite Hm.
    change (0 =? 0) with true. cbn [negb Z.eqb]. cbn [mco_yield i_next i_sock avail state_of app].
    change (MCO_SOCKET_IO_MAX_RETRY <=? 0 + 1) with false. cbn iota. rewrite Hrd by lia.
    rewrite (proj2 (Z.eqb_neq (Z.of_nat (length d2)) 0)), (proj2 (Z.ltb_ge (Z.of_nat (length d2)) 0)) by lia.
    rewrite Hcp by (rewrite length_ow; lia). cbn [mbind cres_bind].
    rewrite (proj2 (Z.eqb_eq (_ + Z.of_nat (length d2)) _)) by lia. done.
Qed.

(** ** Examples *)

Definition demo_mco : mco := Mco true true 0.

Lemma esq_mco_socket_parts_witness :
  esq_mco_socket_write demo_mco [1; 2; 3] [Took 1; Took 2] = Ret (ESQ_OK, [1; 1; 2], []) ∧
  esq_mco_socket_read demo_mco (Inbox (Sock [8] Open) [[9; 9]]) [1; 2; 3] 3 =
    Ret (ESQ_OK, [9; 9; 3], Inbox (Sock [] Open) []).
Proof.
  apply (esq_mco_socket_parts demo_mco [1; 2; 3] [8] [9; 9] 1 2 []).
  - split; reflexivity.
  - lia.
  - lia.
  - reflexivity.
  - discriminate.
  - discriminate.
  - reflexivity.
Defined.

Definition demo_client : client :=
  Client demo_mco true (Some Hive.stamp) true (Sockaddr 0 0 0) (replicate 8 0) (replicate 16 0).

(** Every byte comes alone. *)
Definition byte_by_byte (s : list Z) : list (list Z) := (fun c => [c]) <$> s.

Lemma byte_by_byte_cuts : cuts byte_by_byte.
Proof.
  intros s. split; [induction s as [|c s IH]; [done|]; exact (f_equal (cons c) IH)|].
  apply Forall_fmap, Forall_true. intros c. simpl. discriminate.
Qed.

Lemma demo_linked n data : (length data <= 100)%nat →
  linked Hive.sha (HiveNet.hive_env n) 5 byte_by_byte 1 (rms Hive.W1) demo_client (Sockaddr 2 20736 0) Run.kv [107] Hive.stamp data.
Proof.
  intros Hd. split.
  - lia.
  - apply byte_by_byte_cuts.
  - lia.
  - split; try reflexivity. split; reflexivity.
  - by apply HiveNet.hive_sendable.
  - apply HiveNet.hive_supplied.
  - vm_compute. reflexivity.
Qed.

Lemma pony_set_then_get_witness :
  ∃ r W',
    pony Hive.sha (bee_server Hive.sha Hive.W1 (HiveNet.hive_env 20) 5 byte_by_byte 1) (rms Hive.W1) demo_client
      (wholes (request_bufs (header_for BEE_OP_DB_SET Run.kv [107] [1; 2] 0) Run.kv [107] Hive.stamp [1; 2]) [2; 0; 0; 0; 1]%nat)
      (Run.kv ++ [0]) (Some [107]) 1 (Some [1; 2]) 2 BEE_OP_DB_SET None None
    = Ret (Answer r None None (Some (Some W'))) ∧
    (r = ESQ_OK →
     pony Hive.sha (bee_server Hive.sha W' (HiveNet.hive_env 20) 5 byte_by_byte 1) (rms Hive.W1) demo_client
       (wholes (request_bufs (header_for BEE_OP_DB_GET Run.kv [107] [] 20) Run.kv [107] Hive.stamp []) [0; 0; 0; 0]%nat)
       (Run.kv ++ [0]) (Some [107]) 1 None 0 BEE_OP_DB_GET (Some (replicate 20 0)) (Some 20)
     = Ret (Answer ESQ_OK (Some ([1; 2] ++ replicate 18 0)) (Some 2) (Some (Some W')))).
Proof.
  destruct Hive.W1_table as [A HT].
  destruct (pony_set_then_get Hive.keys Hive.sha (fun _ => eq_refl) Hive.W1 A (HiveNet.hive_env 20) (HiveNet.hive_env 20) 5
    byte_by_byte 1 (rms Hive.W1) demo_client demo_client (Sockaddr 2 20736 0) (Sockaddr 2 20736 0) Run.kv [107] Hive.stamp
    Hive.stamp [1; 2] (replicate 20 0) (HiveNet.old_block 20) [2; 0; 0; 0; 1]%nat [0; 0; 0; 0]%nat
    Hive.keys_near Hive.W1_inv HT (Hive.W1_serves A [107] HT)) as (r & W' & E & _ & _ & _ & Hr).
  - apply demo_linked. simpl. lia.
  - apply demo_linked. simpl. lia.
  - discriminate.
  - unfold sizeof_timeval. simpl. lia.
  - reflexivity.
  - reflexivity.
  - split; [repeat (apply Forall_cons_2; [lia|]); apply Forall_nil_2|reflexivity].
  - split; [repeat (apply Forall_cons_2; [lia|]); apply Forall_nil_2|reflexivity].
  - exists r, W'. split; [exact E|exact Hr].
Defined.
