(* ===== verification/Monkey.v ===== *)
(** * Scripts for other servers

    [src/pony.c] also sends scripts with named parameters, and [bee/monkey.c] runs them:
    the parameters are put one after the other behind heads of four bytes, and a script asks
    for them by name.  The interpreter ([mkc_*]) is a library: its types are numbers of two
    bits (as the comment in [bee/monkey.c] says), and running a script is a parameter. *)
From stdpp Require Import strings.
From S2P Require Import Prelude CString LinkedList RbTree RangeMap RangeIndex RangeTable Bucket BucketInv BeeDb BeeDbThms BeeSession Pony.

Definition PONY_MONKEY_CTX_MAGIC : Z := i32 0xAEEA1253.
Definition MAX_VALUES : Z := 20.

(** ** The context of a request *)

(** [name] is the object the pointer points to. *)
Record pony_monkey_param_t := MParam {
  p_name : list Z;
  p_data : option (list Z);
  p_data_length : Z;
  p_name_length : Z;
  p_type : Z;
  p_value : Z
}.

Record pony_monkey_ctx_t := MCtx {
  script : option (list Z);
  script_length : Z;
  values_max : Z;
  values_cnt : Z;
  magic : Z;
  params : list pony_monkey_param_t
}.

Definition zero_param : pony_monkey_param_t := MParam [] None 0 0 0 0.

(** A negative number of values makes the size negative, and [malloc] fails. *)
Definition pony_monkey_ctx_new (mem_ok : bool) (values_max : Z) : option pony_monkey_ctx_t :=
  if MAX_VALUES <? values_max then None
  else if negb mem_ok || (values_max <? 0) then None
  else Some (MCtx None 0 values_max 0 PONY_MONKEY_CTX_MAGIC (replicate (Z.to_nat values_max) zero_param)).

Definition magic_ok (p : pony_monkey_ctx_t) : bool := PONY_MONKEY_CTX_MAGIC =? magic p.

Definition pony_monkey_ctx_free (p : pony_monkey_ctx_t) : cres unit := if magic_ok p then Ret () else Exit.

Definition pony_monkey_ctx_set_script2 (p : pony_monkey_ctx_t) (s : list Z) (length : Z) : cres (Z * pony_monkey_ctx_t) :=
  if negb (magic_ok p) then Exit
  else Ret (ESQ_OK, MCtx (Some s) length (values_max p) (values_cnt p) (magic p) (params p)).

Definition pony_monkey_ctx_set_script (p : pony_monkey_ctx_t) (s : list Z) : cres (Z * pony_monkey_ctx_t) :=
  l ← c_strlen s; pony_monkey_ctx_set_script2 p s (i32 (l + 1)).

(** The next parameter is filled in; what is not assigned keeps its value. *)
Definition add_param (p : pony_monkey_ctx_t) (f : pony_monkey_param_t → pony_monkey_param_t) : cres pony_monkey_ctx_t :=
  o ← rd (params p) (values_cnt p);
  l ← wr (params p) (values_cnt p) (f o);
  Ret (MCtx (script p) (script_length p) (values_max p) (values_cnt p + 1) (magic p) l).

Section Mkc.
Context (MKC_D_VOID MKC_D_INT MKC_D_BUF MKC_D_ID : Z).

Definition pony_monkey_ctx_add_int_param (p : pony_monkey_ctx_t) (name : list Z) (value : Z)
    : cres (Z * pony_monkey_ctx_t) :=
  if negb (magic_ok p) then Exit
  else if values_max p <=? values_cnt p then Exit
  else
    l ← c_strlen name;
    p ← add_param p (fun o => MParam name (p_data o) 4 (i32 (l + 1)) MKC_D_INT value);
    Ret (ESQ_OK, p).

Definition __pony_monkey_ctx_add_buf_param (p : pony_monkey_ctx_t) (name : list Z) (buf : option (list Z)) (buf_len type : Z)
    : cres (Z * pony_monkey_ctx_t) :=
  if negb (magic_ok p) then Exit
  else if 0xffff <? u32 buf_len then Ret (ESQ_ERROR_SIZE, p)
  else if values_max p <=? values_cnt p then Exit
  else
    l ← c_strlen name;
    p ← add_param p (fun o => MParam name buf buf_len (i32 (l + 1)) type (p_value o));
    Ret (ESQ_OK, p).

Definition pony_monkey_ctx_add_buf_param (p : pony_monkey_ctx_t) (name : list Z) (buf : option (list Z)) (buf_len : Z) :=
  __pony_monkey_ctx_add_buf_param p name buf buf_len MKC_D_BUF.
Definition pony_monkey_ctx_add_str_param (p : pony_monkey_ctx_t) (name : list Z) (str : option (list Z)) (str_len : Z) :=
  __pony_monkey_ctx_add_buf_param p name str str_len MKC_D_ID.

Definition pony_check_ctx (p : pony_monkey_ctx_t) : cres Z :=
  if negb (magic_ok p) then Exit
  else match script p with
       | None => Ret ESQ_ERROR_PARAM
       | Some _ => if script_length p <=? 0 then Ret ESQ_ERROR_PARAM else Ret ESQ_OK
       end.

(** The parameters that were filled in. *)
Definition used (p : pony_monkey_ctx_t) : list pony_monkey_param_t := take (Z.to_nat (values_cnt p)) (params p).

Definition pony_monkey_get_data_length (p : pony_monkey_ctx_t) : Z :=
  fold_left (fun s q => i32 (s + 4 + p_data_length q + p_name_length q)) (used p) 0.

(** The four bytes before a parameter. *)
Definition param_head (q : pony_monkey_param_t) : list Z :=
  [Z.land (Z.shiftl (p_type q) 2) 0xc; u8 (p_name_length q);
   Z.land (Z.shiftr (p_data_length q) 8) 0xff; Z.land (p_data_length q) 0xff].

(** What is written for the value of a parameter. *)
Definition param_data (q : pony_monkey_param_t) : cres (list Z) :=
  if MKC_D_INT =? p_type q then Ret (int_bytes (p_value q))
  else if (MKC_D_BUF =? p_type q) || (MKC_D_ID =? p_type q) then
    match p_data q with Some d => span d 0 (p_data_length q) | None => if p_data_length q =? 0 then Ret [] else Fault end
  else Exit.

Definition send_param (m : mco) (q : pony_monkey_param_t) (ans : list wres) (sent : list Z) : cres (Z * list Z * list wres) :=
  '(r, out, ans) ← esq_mco_socket_write m (param_head q) ans;
  let sent := sent ++ out in
  if negb (r =? 0) then Ret (ESQ_ERROR_LIBCALL, sent, ans)
  else
    nm ← span (p_name q) 0 (p_name_length q);
    '(r, out, ans) ← esq_mco_socket_write m nm ans;
    let sent := sent ++ out in
    if negb (r =? 0) then Ret (r, sent, ans)
    else
      d ← param_data q;
      '(r, out, ans) ← esq_mco_socket_write m d ans;
      Ret (r, sent ++ out, ans).

Fixpoint send_params (m : mco) (qs : list pony_monkey_param_t) (ans : list wres) (sent : list Z) : cres (Z * list Z * list wres) :=
  match qs with
  | [] => Ret (ESQ_OK, sent, ans)
  | q :: qs =>
      '(r, sent, ans) ← send_param m q ans sent;
      if negb (r =? 0) then Ret (r, sent, ans) else send_params m qs ans sent
  end.

Definition pony_monkey_send_data (m : mco) (p : pony_monkey_ctx_t) (ans : list wres) (sent : list Z) : cres (Z * list Z * list wres) :=
  send_params m (used p) ans sent.

(** ** Asking for a parameter *)

Definition SIZEOFHEAD : Z := 4.

(** A number, or a place and a length in the data. *)
Inductive value_t := VVoid | VInt (v : Z) | VBuf (off len : Z) | VId (off len : Z).

(** The bytes come from a plain [char] and are put in place by [|] and [<<]. *)
Definition or_byte (v c s : Z) : Z := i32 (Z.lor v (i32 (Z.shiftl (schar c) s))).

Definition int_at (p : list Z) (offset : Z) : cres Z :=
  b0 ← rd p offset; b1 ← rd p (offset + 1); b2 ← rd p (offset + 2); b3 ← rd p (offset + 3);
  Ret (or_byte (or_byte (or_byte (or_byte 0 b0 0) b1 8) b2 16) b3 24).

Fixpoint param_loop (fuel : nat) (p : list Z) (l : Z) (name : list Z) (name_len offset : Z) : cres value_t :=
  match fuel with
  | O => NoFuel
  | S fuel =>
      if l - offset <=? SIZEOFHEAD then Ret VVoid
      else
        t ← rd p offset; nl ← rd p (offset + 1); d2 ← rd p (offset + 2); d3 ← rd p (offset + 3);
        let type := Z.shiftr (Z.land t 0xc) 2 in
        let datalen := Z.shiftl d2 8 + d3 in
        let offset := offset + SIZEOFHEAD in
        if l - offset <? nl + datalen then Ret VVoid
        else
          differs ← (if negb (name_len + 1 =? nl) then Ret true
                     else s ← at_off p offset; r ← c_memcmp name s name_len; Ret (negb (r =? 0)));
          if differs : bool then param_loop fuel p l name name_len (offset + nl + datalen)
          else
            let offset := offset + nl in
            if MKC_D_INT =? type then v ← int_at p offset; Ret (VInt v)
            else if MKC_D_BUF =? type then Ret (VBuf offset datalen)
            else if MKC_D_ID =? type then Ret (VId offset datalen)
            else Ret VVoid
  end.

Definition esq_mkc_get_session_param_by_name (payload : list Z) (name : list Z) (name_len : Z) : cres value_t :=
  param_loop (S (length payload)) payload (Z.of_nat (length payload)) name name_len 0.

(** ** What was sent is what is found *)

(** The types are different numbers of two bits. *)
Record types_ok : Prop := {
  ty_int : 0 <= MKC_D_INT < 4;
  ty_buf : 0 <= MKC_D_BUF < 4;
  ty_id : 0 <= MKC_D_ID < 4;
  ty_int_buf : MKC_D_INT ≠ MKC_D_BUF;
  ty_int_id : MKC_D_INT ≠ MKC_D_ID;
  ty_buf_id : MKC_D_BUF ≠ MKC_D_ID
}.
Context (Hty : types_ok).

(** A parameter by its name and value. *)
Inductive arg_val := AInt (z : Z) | ABuf (d : list Z) | AStr (d : list Z).

Definition val_bytes (v : arg_val) : list Z := match v with AInt z => int_bytes z | ABuf d | AStr d => d end.
Definition val_type (v : arg_val) : Z :=
  match v with AInt _ => MKC_D_INT | ABuf _ => MKC_D_BUF | AStr _ => MKC_D_ID end.

(** The parameter that was filled in for it. *)
Record param_for (q : pony_monkey_param_t) (nm : list Z) (v : arg_val) : Prop := {
  pf_name : ∃ t, p_name q = nm ++ 0 :: t;
  pf_name_length : p_name_length q = Z.of_nat (length nm) + 1;
  pf_short : (length nm <= 254)%nat;
  pf_type : p_type q = val_type v;
  pf_length : p_data_length q = Z.of_nat (length (val_bytes v));
  pf_small : Z.of_nat (length (val_bytes v)) <= 0xffff;
  pf_value : match v with AInt z => p_value q = z | ABuf d | AStr d => ∃ t, p_data q = Some (d ++ t) end
}.

Lemma val_type_range v : 0 <= val_type v < 4.
Proof. destruct Hty, v; done. Qed.

Definition encode (nm : list Z) (v : arg_val) : list Z :=
  [Z.shiftl (val_type v) 2; Z.of_nat (length nm) + 1;
   Z.of_nat (length (val_bytes v)) / 256; Z.of_nat (length (val_bytes v)) mod 256] ++ nm ++ 0 :: val_bytes v.

Lemma land_255 z : Z.land z 0xff = z mod 256.
Proof. exact (Z.land_ones z 8 ltac:(lia)). Qed.

Lemma type_bits t : 0 <= t < 4 → Z.land (Z.shiftl t 2) 0xc = Z.shiftl t 2 ∧ Z.shiftr (Z.land (Z.shiftl t 2) 0xc) 2 = t.
Proof. intros Ht. assert (t = 0 ∨ t = 1 ∨ t = 2 ∨ t = 3) as [->|[->|[->| ->]]] by lia; done. Qed.

(** What is written is the encoding. *)
Lemma param_writes q nm v :
  param_for q nm v →
  param_head q = take 4 (encode nm v) ∧ span (p_name q) 0 (p_name_length q) = Ret (nm ++ [0]) ∧
  param_data q = Ret (val_bytes v) ∧ encode nm v = param_head q ++ (nm ++ [0]) ++ val_bytes v.
Proof.
  intros [[t Hn] Hnl Hs Htp Hl Hsm Hv].
  assert (Hh : param_head q = take 4 (encode nm v)).
  { unfold param_head, encode. rewrite Htp, Hnl, Hl, !land_255, Z.shiftr_div_pow2, u8_small by lia.
    change (2 ^ 8) with 256. rewrite (Z.mod_small (_ / 256)) 
      by (split; [apply Z.div_pos; lia|apply Z.div_lt_upper_bound; lia]).
    destruct (type_bits (val_type v) (val_type_range v)) as [-> _]. done. }
  split; [done|]. split.
  { rewrite Hn, Hnl. replace (nm ++ 0 :: t) with ([] ++ (nm ++ [0]) ++ t) by (by rewrite <- app_assoc).
    apply span_app; [done|]. rewrite length_app. simpl. lia. }
  split; [|rewrite Hh; unfold encode; cbn [take app]; by rewrite <- app_assoc].
  unfold param_data. rewrite Htp. destruct Hty as [_ _ _ H1 H2 H3]. destruct v as [z|d|d]; cbn [val_type val_bytes] in *.
  - by rewrite Z.eqb_refl, Hv.
  - destruct Hv as [t' ->]. rewrite (proj2 (Z.eqb_neq _ _)) by done. rewrite Z.eqb_refl. cbn [orb].
    rewrite Hl. by apply (span_app [] d t').
  - destruct Hv as [t' ->]. rewrite (proj2 (Z.eqb_neq _ _)) by done. rewrite Z.eqb_refl, orb_true_r.
    rewrite Hl. by apply (span_app [] d t').
Qed.

Abbreviation args_t := (list (list Z * arg_val)).

(** ** Filling a context in *)

(** The context holds the parameters [args], in order. *)
Record ctx_ok (p : pony_monkey_ctx_t) (args : args_t) : Prop := {
  cx_used : Forall2 (fun q a => param_for q a.1 a.2) (used p) args;
  cx_cnt : values_cnt p = Z.of_nat (length args);
  cx_max : values_max p = Z.of_nat (length (params p));
  cx_magic : magic_ok p = true
}.

Lemma ctx_new_ok n p : pony_monkey_ctx_new true n = Some p → ctx_ok p [] ∧ values_max p = n ∧ 0 <= n <= MAX_VALUES.
Proof.
  unfold pony_monkey_ctx_new. destruct (Z.ltb_spec MAX_VALUES n); [done|]. destruct (Z.ltb_spec n 0); [done|].
  intros [= <-]. split; [|cbn; lia]. split; cbn; try done. rewrite length_replicate. lia.
Qed.

Lemma add_param_ok p args f nm v :
  ctx_ok p args → values_cnt p < values_max p → (∀ o, param_for (f o) nm v) →
  ∃ p', add_param p f = Ret p' ∧ ctx_ok p' (args ++ [(nm, v)]) ∧ values_max p' = values_max p.
Proof.
  intros [Hu Hc Hm Hmg] Hlt Hf. unfold add_param. rewrite Hc in *. rewrite Hm in Hlt.
  destruct (lookup_lt_is_Some_2 (params p) (length args)) as [o Ho]; [lia|].
  rewrite (rd_nat _ _ _ Ho). cbn [mbind cres_bind]. rewrite wr_nat by lia. cbn [mbind cres_bind].
  eexists. split; [reflexivity|]. split; [|done]. split; cbn.
  - unfold used in *. cbn. rewrite Hc, Nat2Z.id in Hu. replace (Z.to_nat (Z.of_nat (length args) + 1)) with (S (length args)) by lia.
    rewrite (take_S_r _ _ (f o)) by (rewrite list_lookup_insert_eq; [done|lia]).
    rewrite take_insert_ge by lia. apply Forall2_app; [done|]. apply Forall2_cons_2; [apply Hf|apply Forall2_nil_2].
  - rewrite length_app. simpl. lia.
  - by rewrite length_insert.
  - done.
Qed.

(** Numbers, buffers and texts are added to a context that has room; a context that is full
    is a design error, and a buffer of more than 65535 bytes is refused. *)
Lemma add_int_ok p args nm tl z :
  ctx_ok p args → cstring nm → (length nm <= 254)%nat →
  if values_max p <=? values_cnt p then pony_monkey_ctx_add_int_param p (nm ++ 0 :: tl) z = Exit
  else ∃ p', pony_monkey_ctx_add_int_param p (nm ++ 0 :: tl) z = Ret (ESQ_OK, p') ∧ ctx_ok p' (args ++ [(nm, AInt z)]) ∧
         values_max p' = values_max p.
Proof.
  intros Hp Hnm Hl. unfold pony_monkey_ctx_add_int_param. rewrite (cx_magic _ _ Hp). cbn [negb].
  destruct (Z.leb_spec (values_max p) (values_cnt p)); [done|]. rewrite c_strlen_ok by done. cbn [mbind cres_bind].
  rewrite i32_small by lia.
  destruct (add_param_ok p args (fun o => MParam (nm ++ 0 :: tl) (p_data o) 4 (Z.of_nat (length nm) + 1) MKC_D_INT z) nm (AInt z))
    as (p' & -> & Hp' & Hm); [done|done| |eauto].
  intros o. split; cbn; try done. by exists tl.
Qed.

Lemma add_buf_ok (id : bool) p args nm tl d t :
  ctx_ok p args → cstring nm → (length nm <= 254)%nat → Z.of_nat (length d) < 2^31 →
  let r := __pony_monkey_ctx_add_buf_param p (nm ++ 0 :: tl) (Some (d ++ t)) (Z.of_nat (length d))
             (if id then MKC_D_ID else MKC_D_BUF) in
  if 0xffff <? Z.of_nat (length d) then r = Ret (ESQ_ERROR_SIZE, p)
  else if values_max p <=? values_cnt p then r = Exit
  else ∃ p', r = Ret (ESQ_OK, p') ∧ ctx_ok p' (args ++ [(nm, if id then AStr d else ABuf d)]) ∧ values_max p' = values_max p.
Proof.
  intros Hp Hnm Hl Hd. cbv zeta. unfold __pony_monkey_ctx_add_buf_param. rewrite (cx_magic _ _ Hp). cbn [negb].
  rewrite u32_small by lia. destruct (Z.ltb_spec 0xffff (Z.of_nat (length d))); [done|].
  destruct (Z.leb_spec (values_max p) (values_cnt p)); [done|]. rewrite c_strlen_ok by done. cbn [mbind cres_bind].
  rewrite i32_small by lia.
  destruct (add_param_ok p args (fun o => MParam (nm ++ 0 :: tl) (Some (d ++ t)) (Z.of_nat (length d)) (Z.of_nat (length nm) + 1)
    (if id then MKC_D_ID else MKC_D_BUF) (p_value o)) nm (if id then AStr d else ABuf d)) as (p' & -> & Hp' & Hm);
    [done|done| |eauto].
  intros o. split; cbn; try done; destruct id; cbn; eauto; lia.
Qed.

Definition stream (args : args_t) : list Z := concat ((fun a => encode a.1 a.2) <$> args).

(** The buffers they are written from. *)
Definition param_bufs (args : args_t) : list (list Z) :=
  concat ((fun a => [take 4 (encode a.1 a.2); a.1 ++ [0]; val_bytes a.2]) <$> args).

Lemma socket_write_whole m b k rest :
  mco_ok m → b ≠ [] → (k <= 2)%nat → esq_mco_socket_write m b (whole b k ++ rest) = Ret (ESQ_OK, b, rest).
Proof.
  intros [Hs Hm] Hb Hk. unfold esq_mco_socket_write. rewrite Hs. cbn [negb]. by apply write_loop_whole; [..|lia].
Qed.

Lemma send_params_whole m qs args ks sent :
  mco_ok m → Forall2 (fun q a => param_for q a.1 a.2) qs args → Forall (fun a => val_bytes a.2 ≠ []) args →
  Forall (fun k => (k <= 2)%nat) ks → length ks = length (param_bufs args) →
  send_params m qs (wholes (param_bufs args) ks) sent = Ret (ESQ_OK, sent ++ stream args, []).
Proof.
  intros Hm Hq. revert ks sent. induction Hq as [|q [nm v] qs args Hqa Hq IH]; intros ks sent Hne Hk Hl.
  { cbn. by rewrite app_nil_r. }
  apply Forall_cons_1 in Hne as [Hv Hne]. cbn [fst snd] in *.
  destruct (param_writes q nm v Hqa) as (Hh & Hn & Hd & He).
  destruct Hk as [|k1 ks Hk1 Hk]; [discriminate Hl|]. destruct Hk as [|k2 ks Hk2 Hk]; [discriminate Hl|].
  destruct Hk as [|k3 ks Hk3 Hk]; [discriminate Hl|].
  cbn [param_bufs fmap list_fmap concat app wholes fst snd send_params]. unfold send_param. rewrite Hh.
  rewrite socket_write_whole by done. cbn [mbind cres_bind]. change (negb (ESQ_OK =? 0)) with false. cbn iota.
  rewrite Hn. cbn [mbind cres_bind]. rewrite socket_write_whole by (done || by destruct nm). cbn [mbind cres_bind].
  change (negb (ESQ_OK =? 0)) with false. cbn iota. rewrite Hd. cbn [mbind cres_bind].
  rewrite socket_write_whole by done. cbn [mbind cres_bind]. change (negb (ESQ_OK =? 0)) with false. cbn iota.
  assert (Hl' : length ks = length (param_bufs args)) by (injection Hl as Hl; exact Hl).
  pose proof (IH ks (((sent ++ take 4 (encode nm v)) ++ nm ++ [0]) ++ val_bytes v) Hne Hk Hl') as E.
  unfold param_bufs in E. rewrite E. unfold stream. cbn [fmap list_fmap concat fst snd]. rewrite He, Hh.
  by rewrite <- !app_assoc.
Qed.

(** ** Reading *)

(** The number a script gets for the number that was sent. *)
Definition arrived (z : Z) : Z :=
  or_byte (or_byte (or_byte (or_byte 0 (u32 z mod 256) 0) (u32 z / 2^8 mod 256) 8) (u32 z / 2^16 mod 256) 16)
    (u32 z / 2^24 mod 256) 24.

(** What a lookup finds, for the parameters from [off] on. *)
Fixpoint find_arg (args : args_t) (nm : list Z) (off : Z) : value_t :=
  match args with
  | [] => VVoid
  | (n, v) :: args =>
      if decide (n = nm) then
        let o := off + 4 + (Z.of_nat (length n) + 1) in
        match v with
        | AInt z => VInt (arrived z)
        | ABuf d => VBuf o (Z.of_nat (length d))
        | AStr d => VId o (Z.of_nat (length d))
        end
      else find_arg args nm (off + Z.of_nat (length (encode n v)))
  end.

Lemma length_encode nm v : length (encode nm v) = (5 + length nm + length (val_bytes v))%nat.
Proof. unfold encode. rewrite !length_app. simpl. lia. Qed.

Lemma rd_app {A} (p : list A) x t off : off = Z.of_nat (length p) → rd (p ++ x :: t) off = Ret x.
Proof. intros ->. apply rd_nat. by rewrite lookup_app_r, Nat.sub_diag. Qed.

Lemma int_at_ok pre z t off : off = Z.of_nat (length pre) → int_at (pre ++ int_bytes z ++ t) off = Ret (arrived z).
Proof.
  intros ->. unfold int_at, int_bytes. set (u := u32 z). cbv zeta.
  assert (Hr : ∀ k b, [u mod 256; u / 2^8 mod 256; u / 2^16 mod 256; u / 2^24 mod 256] !! k = Some b →
    rd (pre ++ [u mod 256; u / 2^8 mod 256; u / 2^16 mod 256; u / 2^24 mod 256] ++ t) (Z.of_nat (length pre) + Z.of_nat k)
    = Ret b).
  { intros k b Hk. rewrite <- Nat2Z.inj_add. apply rd_nat. rewrite lookup_app_r by lia.
    replace (length pre + k - length pre)%nat with k by lia. by apply lookup_app_l_Some. }
  pose proof (Hr 0%nat _ eq_refl) as E0. pose proof (Hr 1%nat _ eq_refl) as E1.
  pose proof (Hr 2%nat _ eq_refl) as E2. pose proof (Hr 3%nat _ eq_refl) as E3.
  change (Z.of_nat 0) with 0 in E0. change (Z.of_nat 1) with 1 in E1. change (Z.of_nat 2) with 2 in E2.
  change (Z.of_nat 3) with 3 in E3. rewrite Z.add_0_r in E0. rewrite E0, E1, E2, E3.
  cbn [mbind cres_bind]. unfold arrived. fold u. reflexivity.
Qed.

Lemma param_loop_ok fuel pre args nm tl :
  (length args < fuel)%nat →
  param_loop fuel (pre ++ stream args) (Z.of_nat (length (pre ++ stream args))) (nm ++ tl) (Z.of_nat (length nm))
    (Z.of_nat (length pre)) = Ret (find_arg args nm (Z.of_nat (length pre))).
Proof.
  revert pre fuel. induction args as [|[n v] args IH]; intros pre fuel Hf; (destruct fuel as [|fuel]; [simpl in Hf; lia|]);
    cbn [param_loop].
  { unfold stream. cbn. rewrite app_nil_r. by rewrite (proj2 (Z.leb_le _ _)) by (unfold SIZEOFHEAD; lia). }
  unfold stream. cbn [fmap list_fmap concat fst snd]. fold (stream args).
  set (rest := stream args). unfold SIZEOFHEAD.
  assert (Hlen : Z.of_nat (length (pre ++ encode n v ++ rest)) =
    Z.of_nat (length pre) + 5 + Z.of_nat (length n) + Z.of_nat (length (val_bytes v)) + Z.of_nat (length rest))
    by (rewrite !length_app, length_encode; lia).
  rewrite Hlen. rewrite (proj2 (Z.leb_gt _ _)) by lia.
  assert (E4 : pre ++ encode n v ++ rest =
    (pre ++ [Z.shiftl (val_type v) 2; Z.of_nat (length n) + 1; Z.of_nat (length (val_bytes v)) / 256;
             Z.of_nat (length (val_bytes v)) mod 256]) ++ n ++ (0 :: val_bytes v) ++ rest).
  { unfold encode. by rewrite <- !app_assoc. }
  set (hd := pre ++ [Z.shiftl (val_type v) 2; Z.of_nat (length n) + 1; Z.of_nat (length (val_bytes v)) / 256;
             Z.of_nat (length (val_bytes v)) mod 256]) in *.
  assert (Hhd : Z.of_nat (length hd) = Z.of_nat (length pre) + 4) by (unfold hd; rewrite length_app; simpl; lia).
  assert (Hr : ∀ k b, [Z.shiftl (val_type v) 2; Z.of_nat (length n) + 1; Z.of_nat (length (val_bytes v)) / 256;
             Z.of_nat (length (val_bytes v)) mod 256] !! k = Some b →
    rd (pre ++ encode n v ++ rest) (Z.of_nat (length pre) + Z.of_nat k) = Ret b).
  { intros k b Hk. rewrite <- Nat2Z.inj_add. apply rd_nat. rewrite lookup_app_r by lia.
    replace (length pre + k - length pre)%nat with k by lia. unfold encode. rewrite <- app_assoc. by apply lookup_app_l_Some. }
  pose proof (Hr 0%nat _ eq_refl) as R0. pose proof (Hr 1%nat _ eq_refl) as R1.
  pose proof (Hr 2%nat _ eq_refl) as R2. pose proof (Hr 3%nat _ eq_refl) as R3. clear Hr.
  change (Z.of_nat 0) with 0 in R0. change (Z.of_nat 1) with 1 in R1. change (Z.of_nat 2) with 2 in R2.
  change (Z.of_nat 3) with 3 in R3. rewrite Z.add_0_r in R0. rewrite R0, R1, R2, R3. clear R0 R1 R2 R3.
  cbn [mbind cres_bind]. cbv zeta.
  assert (Edl : Z.shiftl (Z.of_nat (length (val_bytes v)) / 256) 8 + Z.of_nat (length (val_bytes v)) mod 256
    = Z.of_nat (length (val_bytes v))).
  { rewrite Z.shiftl_mul_pow2 by lia. change (2 ^ 8) with 256. pose proof (Z.div_mod (Z.of_nat (length (val_bytes v))) 256). lia. }
  rewrite Edl. clear Edl. rewrite (proj2 (Z.ltb_ge _ _)) by lia.
  assert (Hdf : (if negb (Z.of_nat (length nm) + 1 =? Z.of_nat (length n) + 1) then Ret true
    else s ← at_off (pre ++ encode n v ++ rest) (Z.of_nat (length pre) + 4); r ← c_memcmp (nm ++ tl) s (Z.of_nat (length nm));
         Ret (negb (r =? 0))) = Ret (negb (bool_decide (n = nm)))).
  { destruct (Z.eqb_spec (Z.of_nat (length nm) + 1) (Z.of_nat (length n) + 1)) as [El|El]; cbn [negb].
    - rewrite E4, at_off_app by lia. cbn [mbind cres_bind]. rewrite c_memcmp_app by lia. cbn [mbind cres_bind].
      do 2 f_equal. apply Bool.eq_iff_eq_true. rewrite bool_decide_eq_true, Z.eqb_eq, ko_eq. done.
    - by rewrite bool_decide_false by (intros ->; lia). }
  rewrite Hdf. clear Hdf. cbn [mbind cres_bind find_arg].
  destruct (decide (n = nm)) as [->|Hne].
  2:{ rewrite bool_decide_false by done. cbn [negb].
      pose proof (IH (pre ++ encode n v) fuel ltac:(simpl in Hf; lia)) as E. rewrite <- app_assoc in E.
      fold rest in E. rewrite Hlen in E. rewrite <- (Nat2Z.inj_add (length pre)), <- length_app.
      rewrite <- E. f_equal. rewrite length_app, length_encode. lia. }
  rewrite bool_decide_true by done. cbn [negb].
  destruct (type_bits (val_type v) (val_type_range v)) as [_ ->].
  pose proof Hty as [_ _ _ H1 H2 H3].
  destruct v as [z|d|d]; cbn [val_type val_bytes] in *.
  - rewrite Z.eqb_refl. change ((0 :: int_bytes z) ++ rest) with ([0] ++ int_bytes z ++ rest) in E4.
    rewrite E4. rewrite !app_assoc, <- (app_assoc _ (int_bytes z)).
    rewrite int_at_ok by (rewrite !length_app; simpl length; lia). done.
  - rewrite (proj2 (Z.eqb_neq _ _)) by done. rewrite Z.eqb_refl. done.
  - rewrite (proj2 (Z.eqb_neq _ _)) by done. rewrite (proj2 (Z.eqb_neq _ _)) by done. rewrite Z.eqb_refl. done.
Qed.

(** ** Numbers *)

(** The number that arrives for a number: itself, when its three lower bytes are below 128;
    otherwise the part up to and with the lowest byte that is not, as a signed number. *)
Definition received (z : Z) : Z :=
  if decide (2^7 <= z mod 2^8) then z mod 2^8 - 2^8
  else if decide (2^15 <= z mod 2^16) then z mod 2^16 - 2^16
  else if decide (2^23 <= z mod 2^24) then z mod 2^24 - 2^24
  else z.

Lemma lor_add v c s : 0 <= s → 0 <= v < 2^s → Z.lor v (Z.shiftl c s) = v + Z.shiftl c s.
Proof.
  intros Hs Hv. assert (Hl : Z.land v (Z.shiftl c s) = 0).
  { apply Z.bits_inj'. intros n Hn. rewrite Z.land_spec, Z.bits_0, Z.shiftl_spec by done.
    destruct (Z.lt_ge_cases n s); [rewrite (Z.testbit_neg_r c) by lia; apply andb_false_r|].
    rewrite <- (Z.mod_small v (2^s)) by done. rewrite Z.mod_pow2_bits_high by lia. done. }
  rewrite <- (Z.lxor_lor v) by done. by rewrite <- Z.add_nocarry_lxor.
Qed.

Lemma or_byte_ok v c s :
  0 <= s → 0 <= v < 2^s → is_int (v + schar c * 2^s) → is_int (schar c * 2^s) →
  or_byte v c s = v + schar c * 2^s.
Proof.
  intros Hs Hv Hi Hc. unfold or_byte. rewrite Z.shiftl_mul_pow2 by done. rewrite (i32_small (_ * _)) by done.
  rewrite <- Z.shiftl_mul_pow2, lor_add by done. rewrite Z.shiftl_mul_pow2 by done. by apply i32_small.
Qed.

(** A negative number that reaches the place of the byte has all its bits from there on. *)
Lemma or_byte_neg v c s : 0 <= s <= 31 → - 2^s <= v < 0 → or_byte v c s = v.
Proof.
  intros Hs Hv. assert (Hp : 2^s <= 2^31) by (apply Z.pow_le_mono_r; lia).
  assert (E : Z.lor v (i32 (Z.shiftl (schar c) s)) = v).
  { apply Z.bits_inj'. intros n Hn. rewrite Z.lor_spec. destruct (Z.lt_ge_cases n s) as [Hlt|Hge].
    - assert (Hz : Z.testbit (i32 (Z.shiftl (schar c) s)) n = false); [|rewrite Hz; apply orb_false_r].
      rewrite <- (Z.mod_pow2_bits_low _ s) by lia. unfold i32.
      replace (((Z.shiftl (schar c) s + 2^31) mod 2^32 - 2^31) mod 2^s) with 0; [by rewrite Z.bits_0|].
      rewrite Z.shiftl_mul_pow2 by lia. symmetry. apply Z.mod_divide; [lia|].
      assert (D31 : (2^s | 2^31)) by (exists (2^(31 - s)); rewrite <- Z.pow_add_r by lia; f_equal; lia).
      assert (D32 : (2^s | 2^32)) by (exists (2^(32 - s)); rewrite <- Z.pow_add_r by lia; f_equal; lia).
      apply Z.divide_sub_r; [|done]. apply Z.mod_divide; [lia|]. rewrite Z.mod_mod_divide by done.
      apply Z.mod_divide; [lia|]. apply Z.divide_add_r; [apply Z.divide_factor_r|done].
    - replace (Z.testbit v n) with true; [done|]. symmetry.
      replace v with (Z.lnot (- v - 1)) by (unfold Z.lnot; lia). rewrite Z.lnot_spec by done.
      rewrite <- (Z.mod_small (- v - 1) (2^s)) by lia. by rewrite Z.mod_pow2_bits_high by lia. }
  unfold or_byte. rewrite E. apply i32_small. unfold is_int. lia.
Qed.

(** Four bytes put together: a byte from 128 on decides all higher bits. *)
Lemma or_bytes a b c d :
  0 <= a < 256 → 0 <= b < 256 → 0 <= c < 256 → 0 <= d < 256 →
  or_byte (or_byte (or_byte (or_byte 0 a 0) b 8) c 16) d 24 =
  if decide (128 <= a) then a - 2^8
  else if decide (128 <= b) then a + b * 2^8 - 2^16
  else if decide (128 <= c) then a + b * 2^8 + c * 2^16 - 2^24
  else a + b * 2^8 + c * 2^16 + schar d * 2^24.
Proof.
  intros Ha Hb Hc Hd.
  assert (S : ∀ c, c < 128 → schar c = c) by (intros x Hx; unfold schar; by rewrite (proj2 (Z.ltb_lt _ _))).
  assert (S' : ∀ c, 128 <= c → schar c = c - 256) by (intros x Hx; unfold schar; by rewrite (proj2 (Z.ltb_ge _ _))).
  assert (R0 : or_byte 0 a 0 = schar a).
  { rewrite or_byte_ok; unfold is_int; destruct (Z.lt_ge_cases a 128); rewrite ?S, ?S' by lia; lia. }
  rewrite R0. case_decide.
  { rewrite S' by lia. by rewrite (or_byte_neg _ b), (or_byte_neg _ c), or_byte_neg by lia. }
  assert (R1 : or_byte a b 8 = a + schar b * 2^8).
  { apply or_byte_ok; unfold is_int; destruct (Z.lt_ge_cases b 128); rewrite ?S, ?S' by lia; lia. }
  rewrite (S a), R1 by lia. case_decide; [rewrite S', (or_byte_neg _ c), or_byte_neg by lia; lia|]. rewrite (S b) by lia.
  assert (R2 : or_byte (a + b * 2^8) c 16 = a + b * 2^8 + schar c * 2^16).
  { apply or_byte_ok; unfold is_int; destruct (Z.lt_ge_cases c 128); rewrite ?S, ?S' by lia; lia. }
  rewrite R2. case_decide; [rewrite S' by lia; rewrite or_byte_neg by lia; lia|]. rewrite (S c) by lia.
  apply or_byte_ok; unfold is_int; destruct (Z.lt_ge_cases d 128); rewrite ?S, ?S' by lia; lia.
Qed.

Lemma arrived_received z : is_int z → arrived z = received z.
Proof.
  intros Hz. unfold arrived.
  assert (E0 : u32 z mod 256 = z mod 256).
  { unfold u32. change (2^32) with (256 * 2^24). rewrite Z.rem_mul_r by lia. Z.div_mod_to_equations. lia. }
  assert (E1 : u32 z / 2^8 mod 256 = z / 2^8 mod 256) by (unfold u32; Z.div_mod_to_equations; lia).
  assert (E2 : u32 z / 2^16 mod 256 = z / 2^16 mod 256) by (unfold u32; Z.div_mod_to_equations; lia).
  assert (E3 : schar (u32 z / 2^24 mod 256) = z / 2^24).
  { unfold schar, u32, is_int in *. case_match; Z.div_mod_to_equations; lia. }
  rewrite or_bytes, E3, E0, E1, E2 by (apply Z.mod_pos_bound; lia). unfold received.
  assert (M1 : z mod 2^8 = z mod 256) by done.
  assert (M2 : z mod 2^16 = z mod 256 + z / 2^8 mod 256 * 2^8) by (clear; Z.div_mod_to_equations; lia).
  assert (M3 : z mod 2^24 = z mod 256 + z / 2^8 mod 256 * 2^8 + z / 2^16 mod 256 * 2^16)
    by (clear; Z.div_mod_to_equations; lia).
  assert (M4 : z = z mod 2^24 + z / 2^24 * 2^24) by (clear; Z.div_mod_to_equations; lia).
  pose proof (Z.mod_pos_bound z 256). pose proof (Z.mod_pos_bound (z / 2^8) 256). pose proof (Z.mod_pos_bound (z / 2^16) 256).
  rewrite M1, M2, M3. rewrite M3 in M4. clear -M4 H H0 H1. set (a := z mod 256) in *. set (b := z / 2^8 mod 256) in *.
  set (c := z / 2^16 mod 256) in *. set (e := z / 2^24) in *. clearbody a b c e.
  repeat case_decide; lia.
Qed.

(** ** The contract *)

(** The first parameter of that name. *)
Fixpoint arg_named (args : args_t) (nm : list Z) : option arg_val :=
  match args with [] => None | (n, v) :: args => if decide (n = nm) then Some v else arg_named args nm end.

(** What a script gets when it asks for a parameter: the number, or the place of the bytes. *)
Definition gets (s : list Z) (r : cres value_t) (v : option arg_val) : Prop :=
  match v with
  | None => r = Ret VVoid
  | Some (AInt z) => ∃ x, r = Ret (VInt x) ∧ (is_int z → x = received z)
  | Some (ABuf d) => ∃ off, r = Ret (VBuf off (Z.of_nat (length d))) ∧ span s off (Z.of_nat (length d)) = Ret d
  | Some (AStr d) => ∃ off, r = Ret (VId off (Z.of_nat (length d))) ∧ span s off (Z.of_nat (length d)) = Ret d
  end.

Lemma find_arg_gets args nm pre :
  gets (pre ++ stream args) (Ret (find_arg args nm (Z.of_nat (length pre)))) (arg_named args nm).
Proof.
  revert pre. induction args as [|[n v] args IH]; intros pre; [done|]. cbn [find_arg arg_named].
  unfold stream. cbn [fmap list_fmap concat fst snd]. fold (stream args). destruct (decide (n = nm)) as [->|Hne].
  - assert (Hsp : ∀ d, val_bytes v = d → span (pre ++ encode nm v ++ stream args)
      (Z.of_nat (length pre) + 4 + (Z.of_nat (length nm) + 1)) (Z.of_nat (length d)) = Ret d).
    { intros d <-. unfold encode. rewrite !app_assoc, <- (app_assoc _ _ (stream args)).
      match goal with |- span (?p ++ (0 :: ?b) ++ ?t) _ _ = _ => change (p ++ (0 :: b) ++ t) with (p ++ [0] ++ b ++ t) end.
      rewrite app_assoc. apply span_app; [rewrite !length_app; simpl length; lia|done]. }
    destruct v as [z|d|d]; cbn [gets]; [|eauto|eauto].
    eexists. split; [done|]. apply arrived_received.
  - replace (Z.of_nat (length pre) + Z.of_nat (length (encode n v))) with (Z.of_nat (length (pre ++ encode n v)))
      by (rewrite length_app; lia).
    rewrite app_assoc. apply IH.
Qed.

Lemma data_length_ok qs args acc :
  Forall2 (fun q a => param_for q a.1 a.2) qs args → 0 <= acc → acc + Z.of_nat (length (stream args)) < 2^31 →
  fold_left (fun s q => i32 (s + 4 + p_data_length q + p_name_length q)) qs acc = acc + Z.of_nat (length (stream args)).
Proof.
  intros Hq. revert acc. induction Hq as [|q [nm v] qs args Hqa Hq IH]; intros acc Ha Hl; cbn [fold_left]; [cbn; lia|].
  unfold stream in *. cbn [fmap list_fmap concat fst snd] in *. rewrite length_app, length_encode in Hl |- *.
  rewrite (pf_length _ _ _ Hqa), (pf_name_length _ _ _ Hqa). cbn [fst snd] in *. rewrite i32_small by lia. rewrite IH by lia. lia.
Qed.

Lemma stream_length args : (length args <= length (stream args))%nat.
Proof.
  induction args as [|[n v] args IH]; [done|]. unfold stream in *. cbn [fmap list_fmap concat fst snd].
  rewrite length_app, length_encode. simpl length. lia.
Qed.

End Mkc.

(** The number 128 arrives as -128. *)
Theorem monkey_int_128_arrives_negative : arrived 128 = -128.
Proof. vm_compute. reflexivity. Qed.

(** ** Sending a script *)

Section Scripts.
Context (MKC_D_VOID MKC_D_INT MKC_D_BUF MKC_D_ID : Z).
Context {St : Type} (sha256 : list Z → list Z) (server : sockaddr_in → list Z → St * list (list Z)).

Definition sizeof_monkey_reply : Z := 12.

(** The reply of three numbers, and the result behind it; [mr] is the memory it is read to. *)
Definition monkey_reply (m : mco) (mr : list Z) (i : inbox) (result_buf : option (list Z)) (result_buf_size : option Z)
    (st : option St) : cres (answer_t (St := St)) :=
  '(r, rb, i) ← esq_mco_socket_read m i mr sizeof_monkey_reply;
  if negb (r =? 0) then Ret (Answer r result_buf result_buf_size st)
  else
    let return_code := int_of (take 4 rb) in
    let result_len := int_of (take 4 (drop 4 rb)) in
    let type := int_of (take 4 (drop 8 rb)) in
    match result_buf, result_buf_size with
    | Some b, Some sz =>
        if result_len =? 0 then Ret (Answer return_code (Some b) (Some 0) st)
        else if negb (return_code =? ESQ_OK) then Ret (Answer return_code (Some b) (Some 0) st)
        else
          let required_length := if MKC_D_BUF =? type then i32 (result_len + 1) else result_len in
          if sz <? required_length then Ret (Answer ESQ_ERROR_SIZE (Some b) (Some 0) st)
          else
            '(r, b, i) ← esq_mco_socket_read m i b result_len;
            if negb (r =? 0) then Ret (Answer r (Some b) (Some 0) st)
            else
              b ← (if MKC_D_BUF =? type then wr b result_len 0 else Ret b);
              Ret (Answer return_code (Some b) (Some result_len) st)
    | _, _ => Ret (Answer return_code result_buf result_buf_size st)
    end.

(** Two buffers and the time, until one fails. *)
Definition pony_monkey (S : state) (cl : client) (mr : list Z) (ans : list wres) (range_map_name : list Z)
    (p : pony_monkey_ctx_t) (result_buf : option (list Z)) (result_buf_size : option Z) : cres (answer_t (St := St)) :=
  let fail r := Ret (Answer r result_buf result_buf_size None) in
  r ← pony_check_ctx p;
  if negb (r =? 0) then fail r
  else if negb (pony_get_esq_session cl) then fail ESQ_ERROR_PARAM
  else
    match cl_time cl, script p with
    | None, _ => fail ESQ_ERROR_LIBCALL
    | Some _, None => Fault
    | Some tv, Some sc =>
        hash ← get_hash_value sha256 sc 0 (script_length p - 1);
        '(r, address) ← range_map_get_main_address S range_map_name hash (cl_address cl);
        if negb (r =? 0) then fail ESQ_ERROR_NOTFOUND
        else if negb (cl_open_ok cl) then fail ESQ_ERROR_LIBCALL
        else if negb (set_socket_fd (cl_mco cl) =? 0) then fail (set_socket_fd (cl_mco cl))
        else
          name_len ← c_strlen range_map_name;
          let header := Header BEE_OP_MONKEY (i32 name_len) (script_length p) (pony_monkey_get_data_length p)
                          (match result_buf, result_buf_size with Some _, Some sz => sz | _, _ => 0 end) in
          '(r, sent, ans) ← esq_mco_socket_connect_write (cl_mco cl) (header_bytes header) ans;
          if negb (r =? 0) then fail r
          else
            nm ← span range_map_name 0 (i32 name_len + 1);
            '(r, out, ans) ← esq_mco_socket_write (cl_mco cl) nm ans;
            if negb (r =? 0) then fail r
            else
              let sent := sent ++ out in
              s ← span sc 0 (script_length p);
              '(r, out, ans) ← esq_mco_socket_write (cl_mco cl) s ans;
              if negb (r =? 0) then fail r
              else
                let sent := sent ++ out in
                '(r, out, ans) ← esq_mco_socket_write (cl_mco cl) tv ans;
                if negb (r =? 0) then fail r
                else
                  '(r, sent, _) ← pony_monkey_send_data MKC_D_INT MKC_D_BUF MKC_D_ID (cl_mco cl) p ans (sent ++ out);
                  if negb (r =? 0) then fail r
                  else
                    let '(st, pieces) := server address sent in
                    monkey_reply (cl_mco cl) mr (Inbox (Sock [] Open) pieces) result_buf result_buf_size (Some st)
    end.

(** ** Running a script *)

(** What the interpreter does with a script and its data: no session, an error with what is in
    the buffer for messages, or a result. *)
Inductive run_t :=
| NoSession
| Failed (r : Z) (info : list Z)
| Result (type integer : Z) (buffer : list Z).

Context (interpret : list Z → option (list Z) → run_t).

(** The result, the type and length of the reply, and its buffer. *)
Definition esq_bee_monkey_execute (sc : list Z) (data : option (list Z)) (reply : option (list Z)) (reply_length : Z)
    : cres (Z * Z * Z * option (list Z)) :=
  match interpret sc data with
  | NoSession => Ret (ESQ_ERROR_MEMORY, MKC_D_VOID, 0, reply)
  | Failed r info =>
      match reply with
      | None => Ret (r, MKC_D_VOID, reply_length, None)
      | Some b =>
          let b := ow (take (length b) info) b in
          let l := Z.of_nat (strnlen b (Z.to_nat reply_length)) in
          Ret (r, MKC_D_VOID, if (reply_length <=? l) || (l <=? 0) then 0 else l, Some b)
      end
  | Result type integer buffer =>
      match reply with
      | None => Ret (ESQ_OK, MKC_D_VOID, reply_length, None)
      | Some b =>
          if MKC_D_BUF =? type then
            let l := Z.of_nat (length buffer) in
            if (0 <? l) || (l <=? reply_length)
            then b ← c_memcpy b 0 buffer l; Ret (ESQ_OK, MKC_D_BUF, l, Some b)
            else Ret (ESQ_OK, MKC_D_VOID, 0, Some b)
          else if MKC_D_INT =? type then
            if 4 <=? reply_length
            then b ← c_memcpy b 0 (int_bytes integer) 4; Ret (ESQ_OK, MKC_D_INT, 4, Some b)
            else Ret (ESQ_OK, MKC_D_VOID, 0, Some b)
          else Ret (ESQ_OK, MKC_D_VOID, 0, Some b)
      end
  end.

Definition monkey_reply_bytes (return_code result_len type : Z) : list Z :=
  int_bytes return_code ++ int_bytes result_len ++ int_bytes type.

(** What is written; the kernel is taken to accept it.  [mem_ok] is whether there is memory for
    the reply. *)
Definition bee_monkey (mem_ok : bool) (h : header_from_pony_to_bee_t) (recv_buf : list Z) : cres (list Z) :=
  let exx r := Ret (monkey_reply_bytes r 0 MKC_D_VOID) in
  let script := h_range_map_name_len h + 1 in
  if h_key_len h <=? 0 then exx ESQ_ERROR_PARAM
  else if h_data_len h <? 0 then exx ESQ_ERROR_PARAM
  else if h_result_buf_size h <? 0 then exx ESQ_ERROR_PARAM
  else if (0 <? h_result_buf_size h) && negb mem_ok then exx ESQ_ERROR_MEMORY
  else
    let reply := if 0 <? h_result_buf_size h then Some (replicate (Z.to_nat (h_result_buf_size h)) 0) else None in
    sc ← span recv_buf script (h_key_len h - 1);
    data ← (if 0 <? h_data_len h
            then d ← span recv_buf (script + h_key_len h + sizeof_timeval) (h_data_len h); Ret (Some d)
            else Ret None);
    '(r, type, reply_length, reply) ← esq_bee_monkey_execute sc data reply (h_result_buf_size h);
    if negb (r =? 0) then exx r
    else
      match reply with
      | Some b =>
          if reply_length =? 0 then Ret (monkey_reply_bytes r 0 MKC_D_VOID)
          else d ← span b 0 reply_length; Ret (monkey_reply_bytes r reply_length type ++ d)
      | None => Ret (monkey_reply_bytes r 0 MKC_D_VOID)
      end.

(** The length of a result is not checked: a buffer that is longer than the caller's is
    copied over the end of the reply. *)
Theorem bee_monkey_result_overflow h nm sc stamp data type integer buffer rest :
  type = MKC_D_BUF → h_range_map_name_len h = Z.of_nat (length nm) → h_key_len h = Z.of_nat (length sc) + 1 →
  h_data_len h = Z.of_nat (length data) → length stamp = 16%nat → 0 < h_result_buf_size h < Z.of_nat (length buffer) →
  (∀ d, interpret sc d = Result type integer buffer) →
  bee_monkey true h ((nm ++ [0]) ++ sc ++ [0] ++ stamp ++ data ++ rest) = Fault.
Proof.
  intros -> Hn Hk Hd Hst Hsz Hi. unfold bee_monkey.
  rewrite (proj2 (Z.leb_gt (h_key_len h) 0)), (proj2 (Z.ltb_ge (h_data_len h) 0)), (proj2 (Z.ltb_ge (h_result_buf_size h) 0)),
    (proj2 (Z.ltb_lt 0 (h_result_buf_size h))) by lia. cbn [negb andb].
  cbv zeta. rewrite Hn, Hk, Z.add_simpl_r.
  rewrite (span_app (nm ++ [0]) sc _ (Z.of_nat (length nm) + 1) (Z.of_nat (length sc)))
    by (done || (rewrite length_app; simpl; lia)). cbn [mbind cres_bind].
  assert (Ed : ∃ d, (if 0 <? h_data_len h
    then d ← span ((nm ++ [0]) ++ sc ++ [0] ++ stamp ++ data ++ rest)
               (Z.of_nat (length nm) + 1 + (Z.of_nat (length sc) + 1) + sizeof_timeval) (h_data_len h); Ret (Some d)
    else Ret None) = Ret d).
  { destruct (0 <? h_data_len h); [|eauto]. rewrite Hd.
    replace ((nm ++ [0]) ++ sc ++ [0] ++ stamp ++ data ++ rest) with (((nm ++ [0]) ++ sc ++ [0] ++ stamp) ++ data ++ rest)
      by (by rewrite <- !app_assoc).
    rewrite span_app by (rewrite ?length_app, ?Hst; unfold sizeof_timeval; simpl length; lia). cbn [mbind cres_bind]. eauto. }
  destruct Ed as [d ->]. cbn [mbind cres_bind]. unfold esq_bee_monkey_execute. rewrite Hi, Z.eqb_refl.
  cbv zeta. rewrite (proj2 (Z.ltb_lt 0 _)) by lia. cbn [orb]. unfold c_memcpy. rewrite length_replicate.
  by rewrite decide_False by lia.
Qed.
End Scripts.

(** ** An example *)

Definition demo_params : list pony_monkey_param_t :=
  [MParam [110; 0] None 4 2 0 5; MParam [116; 0] (Some [104; 105]) 2 2 2 0].
Definition demo_mctx : pony_monkey_ctx_t := MCtx None 0 2 2 PONY_MONKEY_CTX_MAGIC demo_params.
Definition demo_args : list (list Z * arg_val) := [([110], AInt 5); ([116], AStr [104; 105])].

Lemma demo_types : types_ok 0 1 2.
Proof. split; lia. Qed.

Lemma demo_ctx_ok : ctx_ok 0 1 2 demo_mctx demo_args.
Proof.
  split; try reflexivity. repeat constructor; cbn; try lia; eauto.
Qed.

