(* ===== verification/Cookie.v ===== *)
(** * Cookies

    [nghttp2_wrapper/cookie.c] keeps the cookies of a request in two red-black trees over
    the same objects, by name and by the number of the cookie.  Both trees share the
    objects [cks]; each has its own link fields, [by_name] and [by_idx]. *)
From S2P Require Import Prelude CString LinkedList RbTree.

Definition COOKIE_STR_MAX : Z := 4095.
Definition COOKIE_NAME_MAX : Z := 1024.

(** The name is at the beginning of [buf], the value behind its end. *)
Record h2esq_cookie_t := Cookie {
  idx : Z;
  name_len : Z;
  name_hash : Z;
  value_len : Z;
  buf : list Z
}.

Definition set_idx (i : Z) (c : h2esq_cookie_t) : h2esq_cookie_t :=
  Cookie i (name_len c) (name_hash c) (value_len c) (buf c).

Record cookies := Cookies {
  cks : gmap loc h2esq_cookie_t;
  by_name : cells;
  by_idx : cells;
  root_by_name : ptr;
  root_by_idx : ptr
}.

Definition name_tree (C : cookies) : rb := Rb (root_by_name C) (by_name C).
Definition idx_tree (C : cookies) : rb := Rb (root_by_idx C) (by_idx C).
Definition with_name_tree (T : rb) (C : cookies) : cookies :=
  Cookies (cks C) (rb_cells T) (by_idx C) (rbh_root T) (root_by_idx C).
Definition with_idx_tree (T : rb) (C : cookies) : cookies :=
  Cookies (cks C) (by_name C) (rb_cells T) (root_by_name C) (rbh_root T).
Definition with_cks (m : gmap loc h2esq_cookie_t) (C : cookies) : cookies :=
  Cookies m (by_name C) (by_idx C) (root_by_name C) (root_by_idx C).

Definition cget {A} (C : cookies) (p : ptr) (f : h2esq_cookie_t → A) : cres A := fld (cks C) p f.

(** The hash is an [unsigned long]; the difference is returned as an [int]. *)
Definition u64 (z : Z) : Z := z mod 2^64.

Definition h2esq_rbtree_cmp_name (a b : h2esq_cookie_t) : cres Z :=
  if negb (name_hash a =? name_hash b) then Ret (i32 (u64 (name_hash a - name_hash b)))
  else if negb (name_len a =? name_len b) then Ret (i32 (name_len a - name_len b))
  else strcmp (buf a) (buf b).

Definition h2esq_rbtree_cmp_idx (a b : h2esq_cookie_t) : Z := i32 (idx a - idx b).

Definition name_cmp (C : cookies) (a : h2esq_cookie_t) (t : loc) : cres Z :=
  b ← cget C (Some t) id; h2esq_rbtree_cmp_name a b.
Definition idx_cmp (C : cookies) (a : h2esq_cookie_t) (t : loc) : cres Z :=
  b ← cget C (Some t) id; Ret (h2esq_rbtree_cmp_idx a b).

(** ** Hashes of names *)

Record sums := Sums { h0 : Z; h1 : Z; h2 : Z; h3 : Z }.

Definition add_char (i c : Z) (h : sums) : sums :=
  let on m v := if negb (Z.land i m =? 0) then u8 (v + c) else v in
  Sums (on 1 (h0 h)) (on 3 (h1 h)) (on 2 (h2 h)) (on 6 (h3 h)).

(** The sum is an [int], which may overflow, and is converted to [unsigned long]. *)
Definition hash_of_sums (h : sums) : Z :=
  u64 (i32 (h0 h + Z.shiftl (h1 h) 8 + Z.shiftl (h2 h) 16 + Z.shiftl (h3 h) 23)).

(** The result and what is stored in [*hash] and [*namelen]. *)
Fixpoint features_loop (n : nat) (str : list Z) (i : Z) (h : sums) : cres (Z * (Z * Z)) :=
  match n with
  | O => Ret (-1, (hash_of_sums h, i))
  | S n =>
      c ← rd str i;
      if c =? 61 then Ret (if negb (i =? 0) then 0 else -1, (hash_of_sums h, i))
      else features_loop n str (i + 1) (add_char i c h)
  end.

Definition h2esq_get_cookie_string_features (str : list Z) (len : Z) : cres (Z * (Z * Z)) :=
  if (len <=? 0) || (COOKIE_STR_MAX <=? len) then Ret (-1, (0, 0))
  else features_loop (Z.to_nat len) str 0 (Sums 0 0 0 0).

Fixpoint hash_loop (n : nat) (str : list Z) (i : Z) (h : sums) : cres Z :=
  match n with
  | O => Ret (hash_of_sums h)
  | S n => c ← rd str i; hash_loop n str (i + 1) (add_char i c h)
  end.

Definition h2esq_get_cookie_string_hash (str : list Z) (len : Z) : cres Z :=
  hash_loop (Z.to_nat len) str 0 (Sums 0 0 0 0).

(** ** Saving *)

(** The object of the cookie [str], every byte of its buffer written. *)
Definition new_cookie (str : list Z) (hash nl vl : Z) : cres h2esq_cookie_t :=
  b ← c_memcpy (replicate (Z.to_nat (nl + vl + 2)) 0) 0 str nl;
  v ← at_off str (nl + 1);
  b ← c_memcpy b (nl + 1) v vl;
  b ← wr b nl 0;
  b ← wr b (nl + 1 + vl) 0;
  Ret (Cookie 0 nl hash vl b).

Definition cfree (C : cookies) (x : loc) : cookies :=
  Cookies (delete x (cks C)) (delete x (by_name C)) (delete x (by_idx C)) (root_by_name C) (root_by_idx C).

(** The largest element is looked for from the root of the tree by number along the links
    of the tree by name ([RB_MAX(H2ESQ_COOKIE_BY_NAME, root_by_idx)]). *)
Definition max_cookie (C : cookies) : cres ptr := RB_MINMAX (Rb (root_by_idx C) (by_name C)) RIGHT.

Definition number_cookie (C : cookies) (p : loc) : cres cookies :=
  max ← max_cookie C;
  i ← match max with Some q => k ← cget C (Some q) idx; Ret (i32 (k + 1)) | None => Ret 0 end;
  m ← upd (cks C) (Some p) (set_idx i);
  let C := with_cks m C in
  c ← cget C (Some p) id;
  '(_, T) ← RB_INSERT (idx_tree C) (idx_cmp C c) p;
  Ret (with_idx_tree T C).

Definition h2esq_save_cookie (mem_ok : bool) (C : cookies) (str : list Z) (len : Z) : cres (Z * cookies) :=
  '(r, (hash, nl)) ← h2esq_get_cookie_string_features str len;
  if negb (r =? 0) then Ret (-1, C)
  else if negb mem_ok then Ret (-1, C)
  else
    c ← new_cookie str hash nl (len - nl - 1);
    let p := fresh (dom (cks C)) in
    let e := RbEntry None None None RB_BLACK in
    let C := Cookies (<[p := c]> (cks C)) (<[p := e]> (by_name C)) (<[p := e]> (by_idx C))
               (root_by_name C) (root_by_idx C) in
    '(found, T) ← RB_INSERT (name_tree C) (name_cmp C c) p;
    let C := with_name_tree T C in
    match found with
    | Some _ => Ret (0, cfree C p)
    | None => C ← number_cookie C p; Ret (0, C)
    end.

(** ** Looking up *)

Definition cookie_value (c : h2esq_cookie_t) : cres (list Z) := at_off (buf c) (name_len c + 1).

(** [None] is the null pointer; a value is the buffer from there. *)
Definition h2esq_get_cookie_value_by_name (C : cookies) (name : list Z) : cres (option (list Z)) :=
  nl ← c_strnlen name (Z.to_nat COOKIE_NAME_MAX);
  if (nl <=? 0) || (COOKIE_NAME_MAX <=? nl) then Ret None
  else
    h ← h2esq_get_cookie_string_hash name nl;
    p ← RB_FIND (name_tree C) (name_cmp C (Cookie 0 nl h 0 name));
    match p with
    | Some x => c ← cget C (Some x) id; Some <$> cookie_value c
    | None => Ret None
    end.

(** The name and the value. *)
Definition h2esq_get_cookie_value_by_idx (C : cookies) (i : Z) : cres (option (list Z * list Z)) :=
  p ← RB_FIND (idx_tree C) (idx_cmp C (Cookie i 0 0 0 []));
  match p with
  | Some x => c ← cget C (Some x) id; v ← cookie_value c; Ret (Some (buf c, v))
  | None => Ret None
  end.

(** The trees are given by the address of their first field, the root by name. *)
Fixpoint free_loop (fuel : nat) (C : cookies) : cres cookies :=
  p ← RB_MINMAX (name_tree C) LEFT;
  match p with
  | None => Ret C
  | Some x =>
      match fuel with
      | O => NoFuel
      | S fuel => T ← RB_REMOVE (name_tree C) x; free_loop fuel (cfree (with_name_tree T C) x)
      end
  end.

Definition h2esq_free_cookies (C : cookies) : cres cookies := free_loop (size (cks C)) C.

(** ** Names and their order *)

Fixpoint sums_from (s : list Z) (i : Z) (h : sums) : sums :=
  match s with [] => h | c :: s => sums_from s (i + 1) (add_char i c h) end.

Definition name_id (n : list Z) : Z := hash_of_sums (sums_from n 0 (Sums 0 0 0 0)).

(** The hash of the name did not overflow. *)
Definition calm (n : list Z) : Prop := name_id n < 2^31.

Definition cookie_order : list Z → list Z → Z := first_by name_id bytes_cmp.

Lemma name_id_nonneg n : 0 <= name_id n.
Proof. unfold name_id, hash_of_sums, u64. apply Z.mod_pos_bound. lia. Qed.

Lemma i32_u64 z : i32 (u64 z) = i32 z.
Proof.
  unfold i32, u64. rewrite <- Zplus_mod_idemp_l.
  rewrite Z.mod_mod_divide by (exists (2^32); lia). by rewrite Zplus_mod_idemp_l.
Qed.

Lemma hash_loop_ok s pre tl h :
  hash_loop (length s) (pre ++ s ++ tl) (Z.of_nat (length pre)) h
  = Ret (hash_of_sums (sums_from s (Z.of_nat (length pre)) h)).
Proof.
  revert pre h; induction s as [|c s IH]; intros pre h; [done|]. cbn [length hash_loop sums_from].
  rewrite (rd_nat _ _ c) by (by rewrite lookup_app_r, Nat.sub_diag by lia). cbn [mbind cres_bind].
  replace (pre ++ (c :: s) ++ tl) with ((pre ++ [c]) ++ s ++ tl) by (by rewrite <- app_assoc).
  replace (Z.of_nat (length pre) + 1) with (Z.of_nat (length (pre ++ [c]))) by (rewrite length_app; simpl; lia).
  apply IH.
Qed.

Lemma string_hash_ok n tl : h2esq_get_cookie_string_hash (n ++ tl) (Z.of_nat (length n)) = Ret (name_id n).
Proof. unfold h2esq_get_cookie_string_hash. rewrite Nat2Z.id. apply (hash_loop_ok n []). Qed.

Lemma features_loop_ok n v pre tl h k :
  61 ∉ n →
  features_loop (length n + k) (pre ++ n ++ v ++ tl) (Z.of_nat (length pre)) h
  = features_loop k (pre ++ n ++ v ++ tl) (Z.of_nat (length (pre ++ n))) (sums_from n (Z.of_nat (length pre)) h).
Proof.
  revert pre h; induction n as [|c n IH]; intros pre h Hn; [by rewrite app_nil_r|].
  apply not_elem_of_cons in Hn as [Hc Hn]. cbn [length Nat.add features_loop sums_from].
  rewrite (rd_nat _ _ c) by (by rewrite lookup_app_r, Nat.sub_diag by lia). cbn [mbind cres_bind].
  destruct (Z.eqb_spec c 61); [done|].
  replace (pre ++ (c :: n) ++ v ++ tl) with ((pre ++ [c]) ++ n ++ v ++ tl) by (by rewrite <- app_assoc).
  replace (Z.of_nat (length pre) + 1) with (Z.of_nat (length (pre ++ [c]))) by (rewrite length_app; simpl; lia).
  rewrite IH by done. replace (pre ++ c :: n) with ((pre ++ [c]) ++ n) by (by rewrite <- app_assoc). done.
Qed.

(** A header is a name, the mark [=] and a value; anything else is refused. *)
Inductive header_view (s : list Z) : Prop :=
| header_pair n v : s = n ++ 61 :: v → 61 ∉ n → n ≠ [] → header_view s
| header_bad : (61 ∉ s ∨ head s = Some 61) → header_view s.

Lemma header_cases s : header_view s.
Proof.
  destruct (decide (61 ∈ s)) as [Hin|Hout]; [|apply header_bad; by left].
  apply list_elem_of_split_l in Hin as (n & v & -> & Hn).
  destruct n as [|c n]; [apply header_bad; by right|]. by eapply (header_pair _ (c :: n) v).
Qed.

Lemma features_pair n v tl :
  61 ∉ n → n ≠ [] → Z.of_nat (length (n ++ 61 :: v)) < COOKIE_STR_MAX →
  h2esq_get_cookie_string_features ((n ++ 61 :: v) ++ tl) (Z.of_nat (length (n ++ 61 :: v)))
  = Ret (0, (name_id n, Z.of_nat (length n))).
Proof.
  intros Hn Hne Hl. unfold h2esq_get_cookie_string_features.
  assert (0 < length n)%nat by (destruct n; [done|simpl; lia]).
  rewrite length_app in Hl |- *. simpl length in *.
  destruct (Z.leb_spec (Z.of_nat (length n + S (length v))) 0); [lia|].
  destruct (Z.leb_spec COOKIE_STR_MAX (Z.of_nat (length n + S (length v)))); [lia|]. simpl orb. cbn iota.
  rewrite Nat2Z.id, <- app_assoc.
  pose proof (features_loop_ok n (61 :: v) [] tl (Sums 0 0 0 0) (S (length v)) Hn) as E.
  change (Z.of_nat (length [])) with 0 in E. simpl app in E. simpl app. rewrite E. cbn [features_loop].
  rewrite (rd_nat _ _ 61) by (by rewrite lookup_app_r, Nat.sub_diag by lia). cbn [mbind cres_bind].
  rewrite Z.eqb_refl. destruct (Z.eqb_spec (Z.of_nat (length n)) 0); [lia|]. done.
Qed.

Lemma features_bad s tl :
  (61 ∉ s ∨ head s = Some 61) →
  ∃ hn, h2esq_get_cookie_string_features (s ++ tl) (Z.of_nat (length s)) = Ret (-1, hn).
Proof.
  intros Hs. unfold h2esq_get_cookie_string_features. case_match; [by eexists|]. rewrite Nat2Z.id.
  destruct Hs as [Hs|Hs].
  - pose proof (features_loop_ok s [] [] tl (Sums 0 0 0 0) 0 Hs) as E. simpl app in E.
    rewrite Nat.add_0_r in E. change (Z.of_nat (length [])) with 0 in E. rewrite E. by eexists.
  - destruct s as [|c s]; [done|]. simpl in Hs. injection Hs as ->. simpl length. cbn [features_loop].
    change 0 with (Z.of_nat 0) at 1. rewrite (rd_nat _ O 61) by done. by eexists.
Qed.

(** Lengths of appended lists. *)
Ltac lens := rewrite ?length_app; simpl; rewrite ?length_app; simpl; lia.

Lemma new_cookie_ok n v tl h :
  new_cookie ((n ++ 61 :: v) ++ tl) h (Z.of_nat (length n)) (Z.of_nat (length v))
  = Ret (Cookie 0 (Z.of_nat (length n)) h (Z.of_nat (length v)) (n ++ 0 :: v ++ [0])).
Proof.
  unfold new_cookie. rewrite <- app_assoc. simpl app.
  replace (Z.to_nat (Z.of_nat (length n) + Z.of_nat (length v) + 2)) with (length n + (1 + (length v + 1)))%nat by lia.
  rewrite !replicate_add. set (zn := replicate (length n) 0). set (zv := replicate (length v) 0).
  assert (Ezn : length zn = length n) by apply length_replicate.
  assert (Ezv : length zv = length v) by apply length_replicate.
  change (replicate 1 0) with [0].
  assert (E1 : c_memcpy (zn ++ [0] ++ zv ++ [0]) 0 (n ++ 61 :: v ++ tl) (Z.of_nat (length n))
    = Ret (n ++ [0] ++ zv ++ [0])).
  { unfold c_memcpy. rewrite decide_True by lens. f_equal.
    rewrite Z.add_0_l, Nat2Z.id, take_app_length, <- Ezn, drop_app_length. done. }
  rewrite E1. cbn [mbind cres_bind].
  assert (E2 : at_off (n ++ 61 :: v ++ tl) (Z.of_nat (length n) + 1) = Ret (v ++ tl)).
  { change (61 :: v ++ tl) with ([61] ++ v ++ tl). rewrite app_assoc. apply at_off_app. lens. }
  rewrite E2. cbn [mbind cres_bind].
  assert (E3 : c_memcpy (n ++ [0] ++ zv ++ [0]) (Z.of_nat (length n) + 1) (v ++ tl) (Z.of_nat (length v))
    = Ret ((n ++ [0]) ++ v ++ [0])).
  { unfold c_memcpy. rewrite decide_True by lens. f_equal.
    replace (Z.to_nat (Z.of_nat (length n) + 1)) with (length (n ++ [0])) by lens.
    replace (Z.to_nat (Z.of_nat (length n) + 1 + Z.of_nat (length v))) with (length ((n ++ [0]) ++ zv))
      by lens.
    rewrite Nat2Z.id, take_app_length. rewrite (app_assoc n [0]). rewrite take_app_length.
    rewrite (app_assoc (n ++ [0]) zv). by rewrite drop_app_length. }
  rewrite E3. cbn [mbind cres_bind].
  rewrite wr_nat by lens. cbn [mbind cres_bind].
  rewrite <- app_assoc, insert_app_r_alt, Nat.sub_diag by lia. simpl.
  rewrite wr_Ret by lens. cbn [mbind cres_bind].
  replace (Z.to_nat (Z.of_nat (length n) + 1 + Z.of_nat (length v))) with (length n + S (length v))%nat by lia.
  rewrite insert_app_r. simpl. rewrite insert_app_r_alt, Nat.sub_diag by lia. done.
Qed.

(** ** What always holds *)

Record cookie_ok (c : h2esq_cookie_t) (n v : list Z) : Prop := {
  co_buf : buf c = n ++ 0 :: v ++ [0];
  co_len : name_len c = Z.of_nat (length n);
  co_hash : name_hash c = name_id n;
  co_name : cstring n ∧ n ≠ [] ∧ calm n ∧ Z.of_nat (length n) < 2^31
}.

Definition cname (c : h2esq_cookie_t) : list Z := take (Z.to_nat (name_len c)) (buf c).
Definition name_at (C : cookies) (x : loc) : option (list Z) := cname <$> cks C !! x.
Definition idx_at (C : cookies) (x : loc) : option Z := idx <$> cks C !! x.

Record inv (C : cookies) : Prop := {
  ci_name : ∃ l, holds (name_tree C) l ∧ sorted cookie_order (name_at C) l ∧ ∀ x, x ∈ l ↔ is_Some (cks C !! x);
  ci_idx : ∃ l, holds (idx_tree C) l ∧ sorted Z.sub (idx_at C) l ∧ ∀ x, x ∈ l → is_Some (cks C !! x);
  ci_dom : dom (by_name C) = dom (cks C) ∧ dom (by_idx C) = dom (cks C);
  ci_ok x c : cks C !! x = Some c → (∃ n v, cookie_ok c n v) ∧ 0 <= idx c <= Z.of_nat (size (cks C))
}.

(** The cookies as a map. *)
Definition stored (C : cookies) (jar : gmap (list Z) (list Z)) : Prop :=
  ∀ n v, jar !! n = Some v ↔ ∃ x c, cks C !! x = Some c ∧ cookie_ok c n v.

Lemma cookie_cname c n v : cookie_ok c n v → cname c = n.
Proof. intros [Hb Hl _ _]. unfold cname. by rewrite Hl, Nat2Z.id, Hb, take_app_length. Qed.

Lemma cookie_ok_inj c n v n' v' : cookie_ok c n v → cookie_ok c n' v' → n = n' ∧ v = v'.
Proof.
  intros H H'. pose proof (cookie_cname _ _ _ H) as E. rewrite (cookie_cname _ _ _ H') in E. subst n'.
  split; [done|]. destruct H as [Hb _ _ _], H' as [Hb' _ _ _]. rewrite Hb in Hb'.
  apply app_inv_head in Hb'. injection Hb' as E. by apply app_inj_tail in E as [? _].
Qed.

Lemma cget_ok {A} C x c (f : h2esq_cookie_t → A) : cks C !! x = Some c → cget C (Some x) f = Ret (f c).
Proof. intros H. unfold cget, fld. by rewrite H. Qed.

(** The comparison of the code is that order. *)
Lemma name_cmp_order C q n tl x :
  inv C → cstring n → calm n → Z.of_nat (length n) < 2^31 →
  name_len q = Z.of_nat (length n) → name_hash q = name_id n → buf q = n ++ 0 :: tl → is_Some (cks C !! x) →
  name_cmp C q x = key_cmp cookie_order (name_at C) n x.
Proof.
  intros Hi Hn Hca Hl El Eh Eb [c Hc]. destruct (ci_ok C Hi x c Hc) as [(n' & v' & Hok) _].
  unfold name_cmp, key_cmp, name_at. rewrite (cget_ok _ _ _ _ Hc), Hc.
  cbn [mbind cres_bind id fmap option_fmap option_map]. rewrite (cookie_cname _ _ _ Hok).
  destruct Hok as [Hb Hl' Hh' (Hn' & _ & Hca' & Hs')].
  unfold h2esq_rbtree_cmp_name, cookie_order, first_by, bytes_cmp. rewrite El, Eh, Eb, Hb, Hl', Hh'.
  pose proof (name_id_nonneg n). pose proof (name_id_nonneg n'). unfold calm in *.
  rewrite i32_u64, !i32_small by lia.
  destruct (Z.eqb_spec (name_id n) (name_id n')); cbn [negb]; [|done].
  destruct (decide (length n = length n')) as [E|E].
  - rewrite E, Z.eqb_refl. cbn [negb]. rewrite <- E. by apply strcmp_same_length.
  - destruct (Z.eqb_spec (Z.of_nat (length n)) (Z.of_nat (length n'))); [lia|]. done.
Qed.

Lemma name_at_Some C x n : inv C → name_at C x = Some n ↔ ∃ c v, cks C !! x = Some c ∧ cookie_ok c n v.
Proof.
  intros Hi. unfold name_at. destruct (cks C !! x) as [c|] eqn:Hc; simpl.
  - destruct (ci_ok C Hi x c Hc) as [(n' & v' & Hok) _]. rewrite (cookie_cname _ _ _ Hok). split.
    + intros [= <-]. eauto.
    + intros (c' & v & [= <-] & Hok'). by destruct (cookie_ok_inj _ _ _ _ _ Hok Hok') as [-> _].
  - naive_solver.
Qed.

(** ** Looking up by name *)

Lemma get_by_name_ok C jar n tl :
  inv C → stored C jar → cstring n → calm n →
  h2esq_get_cookie_value_by_name C (n ++ 0 :: tl)
  = Ret (if decide (0 < length n < 1024)%nat then (fun v => v ++ [0]) <$> jar !! n else None).
Proof.
  intros Hi Hj Hn Hca. unfold h2esq_get_cookie_value_by_name, COOKIE_NAME_MAX.
  rewrite c_strnlen_ok by done. cbn [mbind cres_bind]. change (Z.to_nat 1024) with 1024%nat.
  destruct (Z.leb_spec (Z.of_nat (length n `min` 1024)) 0); [rewrite decide_False by lia; done|].
  destruct (Z.leb_spec 1024 (Z.of_nat (length n `min` 1024))); [rewrite decide_False by lia; done|].
  simpl orb. cbn iota. rewrite decide_True by lia. rewrite Nat.min_l by lia.
  rewrite string_hash_ok. cbn [mbind cres_bind].
  destruct (ci_name C Hi) as (l & Hh & Hs & Hl).
  destruct (keyed_find cookie_order (name_at C) (name_tree C) l n
    (name_cmp C (Cookie 0 (Z.of_nat (length n)) (name_id n) 0 (n ++ 0 :: tl))) Hh Hs) as (m & -> & Hm).
  { intros y Hy. apply (name_cmp_order C _ n tl); try done; [lia|]. by apply Hl. }
  cbn [mbind cres_bind]. destruct m as [x|].
  - destruct (proj1 (Hm x) eq_refl) as [_ Hk]. apply name_at_Some in Hk as (c & v & Hc & Hok); [|done].
    rewrite (cget_ok _ _ _ _ Hc). cbn [mbind cres_bind id].
    assert (E : jar !! n = Some v) by (apply Hj; eauto). rewrite E. destruct Hok as [Hb Hlen _ _].
    unfold cookie_value. rewrite Hb, Hlen. change (0 :: v ++ [0]) with ([0] ++ v ++ [0]). rewrite app_assoc.
    rewrite at_off_app by lens. done.
  - destruct (jar !! n) as [v|] eqn:E; [|done]. exfalso. apply Hj in E as (x & c & Hc & Hok).
    assert (None = Some x); [|done]. apply Hm. split; [apply Hl; eauto|]. apply name_at_Some; eauto.
Qed.

(** ** Saving *)

Lemma holds_root T l r : holds T l → rbh_root T = Some r → r ∈ l.
Proof.
  intros (t & [_ Hr _] & _ & <-) E. simpl in Hr. rewrite E in Hr. destruct t as [|c a x b]; [done|].
  simpl in Hr. injection Hr as ->. simpl. set_solver.
Qed.

(** The search along the links of the other tree ends at some cookie. *)
Lemma max_cookie_ok C l :
  holds (name_tree C) l → (∀ r, root_by_idx C = Some r → r ∈ l) →
  ∃ m, max_cookie C = Ret m ∧ ∀ q, m = Some q → q ∈ l.
Proof.
  intros Hh Hr. unfold max_cookie, RB_MINMAX. cbn [rbh_root].
  destruct (root_by_idx C) as [r|].
  2:{ exists None. split; [|done]. destruct Hh as (t & Ha & _). pose proof (at_hole_fuel _ _ _ Ha) as Hf.
      change (rb_fuel (Rb None (by_name C))) with (rb_fuel (name_tree C)).
      destruct (rb_fuel (name_tree C)); [lia|done]. }
  destruct (list_elem_of_split l r (Hr r eq_refl)) as (A & B & El). rewrite El in Hh.
  destruct (holds_focus _ _ _ _ Hh) as (S & c & a & b & Ha & _ & EA & EB).
  pose proof (at_hole_fuel _ _ _ Ha) as Hf. pose proof (ah_rep _ _ _ Ha) as Hrep.
  change (rb_fuel (Rb (Some r) (by_name C))) with (rb_fuel (name_tree C)).
  pose proof (minmax_walk_ok (rb_fuel (name_tree C)) (Rb (Some r) (by_name C)) LEFT _ _ None Hrep ltac:(lia)) as E.
  cbn [flip rootp along] in E. rewrite E. eexists. split; [done|]. intros q Hq.
  assert (Hin : q ∈ inorder (Bin c a r b)).
  { destruct (head (reverse (inorder (Bin c a r b)))) as [y|] eqn:Ey; [|done]. injection Hq as <-.
    apply elem_of_reverse. destruct (reverse _) as [|z r0]; [done|]. injection Ey as ->. set_solver. }
  rewrite El, EA, EB. simpl in Hin. set_solver.
Qed.

Lemma number_ok C p c l li cells0 e B :
  holds (name_tree C) l → (∀ x, x ∈ l ↔ is_Some (cks C !! x)) →
  by_idx C = <[p := e]> cells0 → holds (Rb (root_by_idx C) cells0) li → sorted Z.sub (idx_at C) li →
  p ∉ li → (∀ x, x ∈ li → x ∈ l) → cks C !! p = Some c →
  (∀ x d, cks C !! x = Some d → 0 <= idx d < B) → B < 2^31 - 1 →
  ∃ i T li', let C1 := with_cks (<[p := set_idx i c]> (cks C)) C in
    number_cookie C p = Ret (with_idx_tree T C1) ∧ 0 <= i < B + 1 ∧
    holds T li' ∧ sorted Z.sub (idx_at C1) li' ∧ (∀ x, x ∈ li' → x ∈ l) ∧ dom (rb_cells T) = {[p]} ∪ dom cells0.
Proof.
  intros Hh Hl Ei Hhi Hsi Hp Hli Hc HB HBs. unfold number_cookie.
  destruct (max_cookie_ok C l Hh) as (m & -> & Hm).
  { intros r Hr. apply Hli. by apply (holds_root _ _ _ Hhi). }
  cbn [mbind cres_bind].
  assert (Hi : ∃ i, match m with Some q => k ← cget C (Some q) idx; Ret (i32 (k + 1)) | None => Ret 0 end = Ret i
    ∧ 0 <= i < B + 1).
  { destruct m as [q|].
    - destruct (proj1 (Hl q) (Hm q eq_refl)) as [d Hd]. rewrite (cget_ok _ _ _ idx Hd). cbn [mbind cres_bind].
      pose proof (HB q d Hd). exists (i32 (idx d + 1)). split; [done|]. rewrite i32_small by lia. lia.
    - exists 0. split; [done|]. pose proof (HB p c Hc). lia. }
  destruct Hi as (i & -> & Hi). cbn [mbind cres_bind]. rewrite (upd_Some _ _ _ _ Hc). cbn [mbind cres_bind].
  set (C1 := with_cks (<[p := set_idx i c]> (cks C)) C).
  assert (Hc1 : cks C1 !! p = Some (set_idx i c)) by (simpl; by rewrite lookup_insert_eq).
  rewrite (cget_ok _ _ _ id Hc1). cbn [mbind cres_bind id].
  assert (Hold : ∀ y, y ∈ li → cks C1 !! y = cks C !! y).
  { intros y Hy. simpl. apply lookup_insert_ne. by intros ->. }
  assert (Hs1 : sorted Z.sub (idx_at C1) li).
  { apply (sorted_frame Z.sub (idx_at C)); [|done]. intros y Hy. unfold idx_at. by rewrite Hold. }
  assert (Hk : idx_at C1 p = Some i) by (unfold idx_at; by rewrite Hc1).
  destruct (keyed_insert Z.sub (idx_at C1) (Rb (root_by_idx C) cells0) li p i e
    (idx_cmp C1 (set_idx i c)) Hhi Hs1 Hp Hk) as [(y & Hy & _ & E)|(_ & T & li' & E & Hh' & Hs' & Hp' & Hd)].
  { intros y Hy. destruct (proj1 (Hl y) (Hli y Hy)) as [d Hd]. unfold idx_cmp, key_cmp, idx_at.
    rewrite <- Hold in Hd by done. rewrite (cget_ok _ _ _ id Hd), Hd. cbn [mbind cres_bind fmap option_fmap option_map id].
    f_equal. unfold h2esq_rbtree_cmp_idx. cbn [idx set_idx]. rewrite Hold in Hd by done. pose proof (HB y d Hd).
    apply i32_small. lia. }
  all: simpl in E; unfold idx_tree; cbn [root_by_idx by_idx C1 with_cks]; rewrite Ei, E; cbn [mbind cres_bind].
  - eexists i, _, li. split; [done|]. split; [done|]. split_and!; try done.
    + apply (rb_holds_frame (Rb (root_by_idx C) cells0)); [|done|done]. intros z Hz. simpl.
      apply lookup_insert_ne. by intros ->.
    + simpl. by rewrite dom_insert_L.
  - exists i, T, li'. split; [done|]. split; [done|]. split_and!; try done.
    intros x. rewrite Hp'. intros [->|Hx]%elem_of_cons; [apply Hl; eauto|auto].
Qed.

(** One cookie more. *)
Lemma inv_added C C' jar p c n v l li :
  inv C → stored C jar → cks C !! p = None → jar !! n = None → cookie_ok c n v →
  0 <= idx c <= Z.of_nat (size (cks C)) + 1 → cks C' = <[p := c]> (cks C) →
  holds (name_tree C') l → sorted cookie_order (name_at C') l → (∀ x, x ∈ l ↔ is_Some (cks C' !! x)) →
  holds (idx_tree C') li → sorted Z.sub (idx_at C') li → (∀ x, x ∈ li → x ∈ l) →
  dom (by_name C') = dom (cks C') → dom (by_idx C') = dom (cks C') →
  inv C' ∧ stored C' (<[n := v]> jar).
Proof.
  intros Hi Hj Hp Hjn Hok Hib Ec Hh Hs Hl Hhi Hsi Hli Hd1 Hd2.
  assert (Hcase : ∀ x d, cks C' !! x = Some d → x = p ∧ d = c ∨ x ≠ p ∧ cks C !! x = Some d).
  { intros x d. rewrite Ec. destruct (decide (x = p)) as [->|Hne']; [rewrite lookup_insert_eq; naive_solver|].
    rewrite lookup_insert_ne by done. auto. }
  assert (Hsz : size (cks C') = S (size (cks C))) by (rewrite Ec; by apply map_size_insert_None).
  split.
  - split; [by exists l| |done|].
    + exists li. split; [done|]. split; [done|]. intros x Hx. by apply Hl, Hli.
    + intros x d [[-> ->]|[Hne' Hd]]%Hcase; rewrite Hsz; [split; [eauto|lia]|].
      destruct (ci_ok C Hi x d Hd) as [? ?]. split; [done|lia].
  - intros n' v'. destruct (decide (n' = n)) as [->|Hnn].
    + rewrite lookup_insert_eq. split.
      * intros [= <-]. exists p, c. by rewrite Ec, lookup_insert_eq.
      * intros (x & d & [[-> ->]|[Hne' Hd]]%Hcase & Hokd).
        { by destruct (cookie_ok_inj _ _ _ _ _ Hok Hokd) as [_ ->]. }
        exfalso. assert (Ej : jar !! n = Some v') by (apply Hj; eauto). congruence.
    + rewrite lookup_insert_ne by done. etransitivity; [apply Hj|]. split.
      * intros (x & d & Hd & Hokd). exists x, d. split; [|done]. rewrite Ec, lookup_insert_ne; [done|].
        intros <-. congruence.
      * intros (x & d & [[-> ->]|[Hne' Hd]]%Hcase & Hokd); [|eauto].
        exfalso. apply Hnn. by destruct (cookie_ok_inj _ _ _ _ _ Hok Hokd) as [-> _].
Qed.

Lemma save_new C jar n v c :
  inv C → stored C jar → cookie_ok c n v → idx c = 0 → Z.of_nat (size (cks C)) < 2^31 - 2 →
  let p := fresh (dom (cks C)) in
  let e := RbEntry None None None RB_BLACK in
  let C1 := Cookies (<[p := c]> (cks C)) (<[p := e]> (by_name C)) (<[p := e]> (by_idx C))
              (root_by_name C) (root_by_idx C) in
  (∃ v', jar !! n = Some v' ∧ ∃ y T, RB_INSERT (name_tree C1) (name_cmp C1 c) p = Ret (Some y, T) ∧
     cfree (with_name_tree T C1) p = C) ∨
  (jar !! n = None ∧ ∃ T C', RB_INSERT (name_tree C1) (name_cmp C1 c) p = Ret (None, T) ∧
     number_cookie (with_name_tree T C1) p = Ret C' ∧ inv C' ∧ stored C' (<[n := v]> jar)).
Proof.
  intros Hi Hj Hok Hidx Hsz p e C1. pose proof Hok as [Hb Hlen Hhash (Hn & Hne & Hca & Hlt)].
  assert (Hp : cks C !! p = None) by (apply not_elem_of_dom, is_fresh).
  destruct (ci_name C Hi) as (l & Hh & Hs & Hl), (ci_idx C Hi) as (li & Hhi & Hsi & Hli), (ci_dom C Hi) as [Hd1 Hd2].
  assert (Hpn : by_name C !! p = None) by (apply not_elem_of_dom; rewrite Hd1; apply is_fresh).
  assert (Hpi : by_idx C !! p = None) by (apply not_elem_of_dom; rewrite Hd2; apply is_fresh).
  assert (Hpl : p ∉ l) by (rewrite Hl, Hp; by intros []).
  assert (Hpli : p ∉ li) by (intros Hx; apply Hli in Hx; rewrite Hp in Hx; by destruct Hx).
  assert (Hold : ∀ y, y ∈ l → cks C1 !! y = cks C !! y).
  { intros y Hy. simpl. apply lookup_insert_ne. by intros ->. }
  assert (Hs1 : sorted cookie_order (name_at C1) l).
  { apply (sorted_frame cookie_order (name_at C)); [|done]. intros y Hy. unfold name_at. by rewrite Hold. }
  assert (Hk : name_at C1 p = Some n).
  { unfold name_at. simpl. rewrite lookup_insert_eq. simpl. by rewrite (cookie_cname _ _ _ Hok). }
  destruct (keyed_insert cookie_order (name_at C1) (name_tree C) l p n e (name_cmp C1 c) Hh Hs1 Hpl Hk)
    as [(y & Hy & Hky & E)|(Hno & T & l' & E & Hh' & Hs' & Hp' & HdT)].
  { intros y Hy. destruct (proj1 (Hl y) Hy) as [d Hd].
    pose proof (name_cmp_order C c n (v ++ [0]) y Hi Hn Hca Hlt Hlen Hhash Hb ltac:(eauto)) as Ec.
    unfold name_cmp, key_cmp, name_at, cget, fld in Ec |- *. by rewrite Hold. }
  - left. unfold name_at in Hky. rewrite Hold in Hky by done.
    apply name_at_Some in Hky as (d & v' & Hd & Hokd); [|done]. exists v'. split; [apply Hj; eauto|].
    exists y. eexists. split; [exact E|]. unfold cfree, with_name_tree. simpl.
    rewrite !delete_insert_id by done. by destruct C.
  - right.
    assert (Hjn : jar !! n = None).
    { destruct (jar !! n) as [v'|] eqn:Ej; [|done]. exfalso. apply Hj in Ej as (y & d & Hd & Hokd).
      apply (Hno y); [apply Hl; eauto|]. unfold name_at. rewrite Hold by (apply Hl; eauto). rewrite Hd. simpl.
      by rewrite (cookie_cname _ _ _ Hokd). }
    split; [done|]. exists T. set (C2 := with_name_tree T C1).
    assert (Hl' : ∀ x, x ∈ l' ↔ is_Some (cks C2 !! x)).
    { intros x. rewrite Hp', elem_of_cons. simpl. destruct (decide (x = p)) as [->|Hne'].
      - rewrite lookup_insert_eq. naive_solver.
      - rewrite lookup_insert_ne by done. rewrite Hl. naive_solver. }
    destruct (number_ok C2 p c l' li (by_idx C) e (Z.of_nat (size (cks C)) + 1)) as (i & T' & li' & E' & Hib & HT' & HsT' & HlT' & HdT');
      try done.
    { by destruct T. }
    { apply (sorted_frame Z.sub (idx_at C)); [|done]. intros y Hy. unfold idx_at. simpl.
      rewrite lookup_insert_ne; [done|]. by intros <-. }
    { intros x Hx. rewrite Hp'. right. by apply Hl, Hli. }
    { simpl. by rewrite lookup_insert_eq. }
    { intros x d. simpl. destruct (decide (x = p)) as [->|Hne']; [rewrite lookup_insert_eq; intros [= <-]; lia|].
      rewrite lookup_insert_ne by done. intros Hd. destruct (ci_ok C Hi x d Hd) as [_ ?]. lia. }
    { lia. }
    cbv zeta in E'. eexists. split; [exact E|]. split; [exact E'|].
    set (C3 := with_idx_tree T' (with_cks (<[p := set_idx i c]> (cks C2)) C2)).
    assert (Ec3 : cks C3 = <[p := set_idx i c]> (cks C)) by (simpl; by rewrite insert_insert_eq).
    apply (inv_added C C3 jar p (set_idx i c) n v l' li'); try done.
    + simpl. lia.
    + by destruct T.
    + apply (sorted_frame cookie_order (name_at C1)); [|done]. intros y _. unfold name_at. rewrite Ec3. simpl.
      destruct (decide (y = p)) as [->|Hne']; [by rewrite !lookup_insert_eq|by rewrite !lookup_insert_ne].
    + intros x. rewrite Hl', Ec3. simpl. destruct (decide (x = p)) as [->|Hne']; [by rewrite !lookup_insert_eq|].
      by rewrite !lookup_insert_ne.
    + by destruct T'.
    + rewrite Ec3, dom_insert_L. simpl. by rewrite HdT, <- Hd1.
    + rewrite Ec3, dom_insert_L. simpl. by rewrite HdT', <- Hd2.
Qed.

(** Any header. *)
Lemma save_ok (mem_ok : bool) C jar s tl :
  inv C → stored C jar → cstring s → (∀ n v, s = n ++ 61 :: v → 61 ∉ n → calm n) →
  Z.of_nat (size (cks C)) < 2^31 - 2 →
  let good n v := s = n ++ 61 :: v ∧ 61 ∉ n ∧ n ≠ [] ∧ Z.of_nat (length s) < COOKIE_STR_MAX ∧ mem_ok = true in
  (∃ n v C', good n v ∧ h2esq_save_cookie mem_ok C (s ++ tl) (Z.of_nat (length s)) = Ret (0, C') ∧ inv C' ∧
     stored C' (match jar !! n with Some _ => jar | None => <[n := v]> jar end)) ∨
  ((∀ n v, ¬ good n v) ∧ h2esq_save_cookie mem_ok C (s ++ tl) (Z.of_nat (length s)) = Ret (-1, C)).
Proof.
  intros Hi Hj Hs Hca Hsz good. unfold good, h2esq_save_cookie.
  destruct (decide (Z.of_nat (length s) < COOKIE_STR_MAX)) as [Hl|Hl].
  2:{ right. split; [tauto|]. unfold h2esq_get_cookie_string_features.
      destruct (Z.leb_spec COOKIE_STR_MAX (Z.of_nat (length s))); [|lia]. by rewrite orb_true_r. }
  destruct (header_cases s) as [n v Es Hn Hne|Hbad].
  2:{ right. split.
      - intros n v (-> & Hn & Hne & _). destruct Hbad as [Hbad|Hbad]; [set_solver|].
        destruct n as [|c n]; [done|]. injection Hbad as ->. set_solver.
      - destruct (features_bad s tl Hbad) as [[h k] ->]. done. }
  assert (Ef : h2esq_get_cookie_string_features (s ++ tl) (Z.of_nat (length s)) = Ret (0, (name_id n, Z.of_nat (length n)))).
  { rewrite Es. apply features_pair; [done|done|]. by rewrite <- Es. }
  rewrite Ef. cbn [mbind cres_bind]. simpl negb. cbn iota.
  destruct mem_ok; simpl negb; cbn iota; [|right; split; [by intros ? ? (_ & _ & _ & _ & ?)|done]].
  replace (Z.of_nat (length s) - Z.of_nat (length n) - 1) with (Z.of_nat (length v)) by (rewrite Es; lens).
  set (c := Cookie 0 (Z.of_nat (length n)) (name_id n) (Z.of_nat (length v)) (n ++ 0 :: v ++ [0])).
  assert (En : new_cookie (s ++ tl) (name_id n) (Z.of_nat (length n)) (Z.of_nat (length v)) = Ret c).
  { rewrite Es. apply new_cookie_ok. }
  rewrite En. cbn [mbind cres_bind].
  left. exists n, v.
  assert (Hn' : cstring n) by (rewrite Es in Hs; by apply Forall_app in Hs as [? _]).
  assert (Hok : cookie_ok c n v).
  { split; [done|done|done|]. split; [done|]. split; [done|]. split; [by eapply Hca|].
    rewrite Es in Hl. unfold COOKIE_STR_MAX in Hl. rewrite length_app in Hl. lia. }
  destruct (save_new C jar n v c Hi Hj Hok eq_refl Hsz)
    as [(v' & Ej & y & T & E & Efree)|(Ej & T & C' & E & E' & Hi' & Hj')]; cbv zeta; rewrite E; cbn [mbind cres_bind].
  - exists C. rewrite Efree, Ej. by split_and!.
  - exists C'. rewrite E', Ej. by split_and!.
Qed.

(** Every cookie is freed. *)
Lemma free_cookies_ok l C fuel :
  holds (name_tree C) l → (∀ x, x ∈ l ↔ is_Some (cks C !! x)) → (length l <= fuel)%nat →
  ∃ C', free_loop fuel C = Ret C' ∧ cks C' = ∅ ∧ root_by_name C' = None.
Proof.
  revert C fuel. induction l as [|x l IH]; intros C fuel Hh Hd Hf.
  - pose proof (RB_MINMAX_ok (name_tree C) RIGHT [] Hh) as E. cbn [flip along head] in E.
    exists C. split; [destruct fuel; simpl; by rewrite E|]. split.
    + apply map_empty. intros y. apply eq_None_not_Some. rewrite <- Hd. set_solver.
    + destruct Hh as (t & [_ Ht _] & _ & Hi). destruct t as [|c t1 y t2]; [done|]. by apply app_eq_nil in Hi as [_ ?].
  - destruct fuel as [|fuel]; [simpl in Hf; lia|]. simpl in Hf.
    pose proof (RB_MINMAX_ok (name_tree C) RIGHT (x :: l) Hh) as E. cbn [flip along head] in E.
    cbn [free_loop]. rewrite E. cbn [mbind cres_bind].
    destruct (RB_REMOVE_ok (name_tree C) [] x l Hh) as (T & -> & HT & _). cbn [mbind cres_bind].
    apply holds_NoDup in Hh as Hnd. apply NoDup_cons in Hnd as [Hxl _].
    apply IH; [| |lia].
    + apply (rb_holds_frame T); [|done|done]. intros y Hy. simpl. rewrite lookup_delete_ne; [done|]. by intros <-.
    + intros y. simpl. destruct (decide (y = x)) as [->|Hne].
      * rewrite lookup_delete_eq. split; [done|by intros []].
      * rewrite lookup_delete_ne, <- Hd by done. set_solver.
Qed.

(** ** The theorems *)

(** C34: the cookies of a request are a map from names to values, with the first value of a
    name kept.  For a text in which the hash of the name does not overflow an [int], and
    fewer than 2^31 - 2 cookies,
    [h2esq_save_cookie] accepts exactly a name, the mark [=] and a value, of together less than
    4095 bytes and when there is memory, and adds it to the map; everything else is refused
    without a change.  [h2esq_get_cookie_value_by_name] reads that map for names of less than
    1024 bytes whose hash does not overflow; a longer name is stored, too, but not found. *)
Theorem h2esq_save_cookie_correct (mem_ok : bool) C jar s tl :
  inv C → stored C jar → cstring s → (∀ n v, s = n ++ 61 :: v → 61 ∉ n → calm n) →
  Z.of_nat (size (cks C)) < 2^31 - 2 →
  let good n v := s = n ++ 61 :: v ∧ 61 ∉ n ∧ n ≠ [] ∧ Z.of_nat (length s) < COOKIE_STR_MAX ∧ mem_ok = true in
  ∃ r C' jar', h2esq_save_cookie mem_ok C (s ++ tl) (Z.of_nat (length s)) = Ret (r, C') ∧ inv C' ∧ stored C' jar' ∧
    ((∃ n v, good n v ∧ r = 0 ∧ jar' = match jar !! n with Some _ => jar | None => <[n := v]> jar end) ∨
     ((∀ n v, ¬ good n v) ∧ r = -1 ∧ C' = C ∧ jar' = jar)) ∧
    ∀ n t, cstring n → calm n →
      h2esq_get_cookie_value_by_name C' (n ++ 0 :: t)
      = Ret (if decide (0 < length n < 1024)%nat then (fun v => v ++ [0]) <$> jar' !! n else None).
Proof.
  intros Hi Hj Hs Hca Hsz good.
  destruct (save_ok mem_ok C jar s tl Hi Hj Hs Hca Hsz) as [(n & v & C' & Hg & E & Hi' & Hj')|[Hg E]].
  - exists 0, C'. eexists. split; [done|]. split; [done|]. split; [exact Hj'|]. split; [left; eauto|].
    intros k t Hk Hck. by apply get_by_name_ok.
  - exists (-1), C, jar. split; [done|]. split; [done|]. split; [done|]. split; [by right|].
    intros k t Hk Hck. by apply get_by_name_ok.
Qed.

(** [h2esq_free_cookies] frees all cookies. *)
Theorem h2esq_free_cookies_correct C :
  inv C → ∃ C', h2esq_free_cookies C = Ret C' ∧ cks C' = ∅ ∧ root_by_name C' = None.
Proof.
  intros Hi. destruct (ci_name C Hi) as (l & Hh & _ & Hl). unfold h2esq_free_cookies.
  apply (free_cookies_ok l); [done|done|]. pose proof (holds_NoDup _ _ Hh) as Hnd.
  transitivity (size (list_to_set (C := gset loc) l)); [by rewrite size_list_to_set|].
  rewrite <- size_dom. apply subseteq_size. intros x. rewrite elem_of_list_to_set, elem_of_dom. apply Hl.
Qed.

(** ** Examples *)

Definition no_cookies : cookies := Cookies ∅ ∅ ∅ None None.

Lemma no_cookies_inv : inv no_cookies.
Proof.
  split; simpl; try done.
  - exists []. split; [apply (holds_init (Rb None ∅))|]. split; [constructor|].
    intros x. rewrite lookup_empty. split; [set_solver|by intros []].
  - exists []. split; [apply (holds_init (Rb None ∅))|]. split; [constructor|]. set_solver.
Qed.

Lemma no_cookies_stored : stored no_cookies ∅.
Proof. intros n v. rewrite lookup_empty. simpl. split; [done|]. intros (x & c & Hc & _). by rewrite lookup_empty in Hc. Qed.

(** [aa=1]. *)
Definition demo_header : list Z := [97; 97; 61; 49].

Lemma demo_header_calm n v : demo_header = n ++ 61 :: v → 61 ∉ n → calm n.
Proof.
  intros E Hn. unfold demo_header in E. destruct n as [|a [|b [|c n]]]; simpl in E.
  - discriminate E.
  - injection E as _ E. discriminate E.
  - injection E as <- <- _. vm_compute. reflexivity.
  - injection E as _ _ <- _. exfalso. apply Hn. right. right. left.
Qed.

Lemma h2esq_save_cookie_correct_witness :
  ∃ r C' jar', h2esq_save_cookie true no_cookies (demo_header ++ [0]) 4 = Ret (r, C') ∧ inv C' ∧ stored C' jar' ∧
    h2esq_get_cookie_value_by_name C' ([97; 97] ++ 0 :: []) = Ret ((fun v => v ++ [0]) <$> jar' !! [97; 97]).
Proof.
  destruct (h2esq_save_cookie_correct true no_cookies ∅ demo_header [0] no_cookies_inv no_cookies_stored)
    as (r & C' & jar' & E & Hi & Hj & _ & Hg).
  - repeat (apply Forall_cons_2; [lia|]). apply Forall_nil_2.
  - exact demo_header_calm.
  - vm_compute. reflexivity.
  - exists r, C', jar'. split; [exact E|]. split; [exact Hi|]. split; [exact Hj|].
    rewrite (Hg [97; 97] []).
    + reflexivity.
    + repeat (apply Forall_cons_2; [lia|]). apply Forall_nil_2.
    + vm_compute. reflexivity.
Defined.

Definition save_all (hs : list (list Z)) : cookies :=
  foldl (fun C h => (ret_of (h2esq_save_cookie true C (h ++ [0]) (Z.of_nat (length h))) (0, C)).2) no_cookies hs.

(** The numbers of cookies do not work: of the three cookies [aa=1], [ab=2] and [ac=3]
    all are found by name, and the third is found by no number, because the largest number
    is looked for along the links of the other tree. *)
Theorem third_cookie_has_no_number :
  let C := save_all [[97; 97; 61; 49]; [97; 98; 61; 50]; [97; 99; 61; 51]] in
  h2esq_get_cookie_value_by_name C [97; 99; 0] = Ret (Some [51; 0]) ∧
  h2esq_get_cookie_value_by_idx C 0 = Ret (Some ([97; 97; 0; 49; 0], [49; 0])) ∧
  h2esq_get_cookie_value_by_idx C 1 = Ret (Some ([97; 98; 0; 50; 0], [50; 0])) ∧
  h2esq_get_cookie_value_by_idx C 2 = Ret None.
Proof. vm_compute. split_and!; reflexivity. Qed.
