(* ===== verification/UrlParams.v ===== *)
(** * Parameters of a URL

    [libs/url-parameters-spliter] cuts a text [?a=xxx?b=yyy] into names and values: the text
    is changed in place, a zero ends each name and value, and the parameters point into it.
    A pointer is an offset in the text, [None] the null pointer. *)
From S2P Require Import Prelude CString CText.

(** ** The code *)

Definition esq_param_spliter_char_type : list Z :=
  [ 0; 0; 0; 0; 0; 0; 0; 0; 0; 0; 0; 0; 0; 0; 0; 0;
    0; 0; 0; 0; 0; 0; 0; 0; 0; 0; 0; 0; 0; 0; 0; 0;
    0; 0; 0; 0; 0; 4; 0; 0; 0; 0; 0; 0; 0; 0; 0; 0;
    1; 1; 1; 1; 1; 1; 1; 1; 1; 1; 0; 0; 0; 14; 0; 15;
    0; 2; 2; 2; 2; 2; 2; 2; 2; 2; 2; 2; 2; 2; 2; 2;
    2; 2; 2; 2; 2; 2; 2; 2; 2; 2; 2; 0; 0; 0; 0; 0;
    0; 3; 3; 3; 3; 3; 3; 3; 3; 3; 3; 3; 3; 3; 3; 3;
    3; 3; 3; 3; 3; 3; 3; 3; 3; 3; 3; 0; 0; 0; 0; 0;
    0; 0; 0; 0; 0; 0; 0; 0; 0; 0; 0; 0; 0; 0; 0; 0;
    0; 0; 0; 0; 0; 0; 0; 0; 0; 0; 0; 0; 0; 0; 0; 0;
    0; 0; 0; 0; 0; 0; 0; 0; 0; 0; 0; 0; 0; 0; 0; 0;
    0; 0; 0; 0; 0; 0; 0; 0; 0; 0; 0; 0; 0; 0; 0; 0;
    0; 0; 0; 0; 0; 0; 0; 0; 0; 0; 0; 0; 0; 0; 0; 0;
    0; 0; 0; 0; 0; 0; 0; 0; 0; 0; 0; 0; 0; 0; 0; 0;
    0; 0; 0; 0; 0; 0; 0; 0; 0; 0; 0; 0; 0; 0; 0; 0;
    0; 0; 0; 0; 0; 0; 0; 0; 0; 0; 0; 0; 0; 0; 0; 0 ].

Record esq_url_parameter_t := Param {
  name : option Z;
  value : option Z;
  name_len : Z;
  value_len : Z
}.

Definition set_name (o : option Z) (l : Z) (p : esq_url_parameter_t) : esq_url_parameter_t :=
  Param o (value p) l (value_len p).
Definition set_value (o : option Z) (l : Z) (p : esq_url_parameter_t) : esq_url_parameter_t :=
  Param (name p) o (name_len p) l.

(** Start, after question mark, name, after equal mark, value. *)
Inductive state := S_ | Aq | Name | Ae | Value.

(** The local variables and the objects the loop changes. *)
Record frame := Frame {
  s : state;
  idx : Z;
  name_start : Z;
  value_start : Z;
  url : list Z;
  param : list esq_url_parameter_t
}.

Definition to (st : state) (F : frame) : frame := Frame st (idx F) (name_start F) (value_start F) (url F) (param F).

(** [param[idx]] changes. *)
Definition put_param (F : frame) (f : esq_url_parameter_t → esq_url_parameter_t) : cres frame :=
  p ← rd (param F) (idx F);
  ps ← wr (param F) (idx F) (f p);
  Ret (Frame (s F) (idx F) (name_start F) (value_start F) (url F) ps).

Definition put_url (F : frame) (i c : Z) : cres frame :=
  u ← wr (url F) i c; Ret (Frame (s F) (idx F) (name_start F) (value_start F) u (param F)).

Definition next_param (F : frame) : frame :=
  Frame (s F) (idx F + 1) (name_start F) (value_start F) (url F) (param F).

(** The value ends at [i], or there is none. *)
Definition end_value (F : frame) (i : Z) : cres frame :=
  F ← put_url F i 0;
  F ← put_param F (set_value (Some (value_start F)) (i - value_start F));
  Ret (next_param F).
Definition no_value (F : frame) : cres frame :=
  F ← put_param F (set_value None 0); Ret (next_param F).

(** One character: the loop goes on with the frame on the right, or the function returns -1
    with the objects as they are on the left. *)
Definition step (param_max : Z) (F : frame) (i : Z) : cres (frame + frame) :=
  c ← rd (url F) i;
  let r := tab esq_param_spliter_char_type 0 c in
  let alnum := (r =? 1) || (r =? 2) || (r =? 3) in
  match s F with
  | S_ => Ret (if c =? 63 then inr (to Aq F) else inl F)
  | Aq =>
      if alnum then Ret (inr (Frame Name (idx F) i (value_start F) (url F) (param F)))
      else if (r =? 15) || (r =? 14) then Ret (inr F) else Ret (inl F)
  | Name =>
      if alnum then Ret (inr F)
      else if r =? 14 then
        if idx F <? param_max then
          F ← put_url (to Ae F) i 0;
          F ← put_param F (set_name (Some (name_start F)) (i - name_start F));
          Ret (inr F)
        else Ret (inl F)
      else Ret (inl F)
  | Ae =>
      if alnum then Ret (inr (Frame Value (idx F) (name_start F) i (url F) (param F)))
      else if r =? 4 then Ret (inr F)
      else if r =? 15 then F ← no_value (to Aq F); Ret (inr F)
      else Ret (inl F)
  | Value =>
      if alnum || (r =? 4) || (r =? 14) then Ret (inr F)
      else if r =? 15 then F ← end_value (to Aq F) i; Ret (inr F)
      else Ret (inl F)
  end.

(** [n] characters from [i] on. *)
Fixpoint split_loop (n : nat) (param_max : Z) (F : frame) (i : Z) : cres (frame + frame) :=
  match n with
  | O => Ret (inr F)
  | S n =>
      r ← step param_max F i;
      match r with inr F => split_loop n param_max F (i + 1) | inl F => Ret (inl F) end
  end.

Definition null_param : esq_url_parameter_t := Param None None 0 0.

Fixpoint clear_loop (n : nat) (ps : list esq_url_parameter_t) (i : Z) : cres (list esq_url_parameter_t) :=
  match n with
  | O => Ret ps
  | S n => ps ← wr ps i null_param; clear_loop n ps (i + 1)
  end.

(** [j] is what the uninitialised [name_start] holds. *)
Definition esq_split_parameters (j : Z) (url_ptr : list Z) (url_len : Z)
    (params : list esq_url_parameter_t) (param_max : Z)
    : cres (Z * list Z * list esq_url_parameter_t) :=
  r ← split_loop (Z.to_nat url_len) param_max (Frame S_ 0 j 0 url_ptr params) 0;
  match r with
  | inl F => Ret (-1, url F, param F)
  | inr F =>
      F ← match s F with
          | Value => end_value F url_len
          | Ae => no_value F
          | _ => Ret F
          end;
      ps ← clear_loop (Z.to_nat (param_max - idx F)) (param F) (idx F);
      Ret (idx F, url F, ps)
  end.

(** A name or value is decoded where it is; a null pointer is not read when its length is
    0, and written at its end all the same. *)
Definition escape_at (u : list Z) (p : option Z) (l : Z) : cres (Z * list Z) :=
  match p with
  | None => if l <=? 0 then Ret (0, u) else Fault
  | Some o =>
      b ← at_off u o;
      '(r, b) ← EscapePercent.escape_percent_in_place b l;
      Ret (r, take (Z.to_nat o) u ++ b)
  end.

Definition end_at (u : list Z) (p : option Z) (r : Z) : cres (list Z) :=
  match p with Some o => wr u (o + r) 0 | None => Fault end.

Fixpoint escape_loop (n : nat) (u : list Z) (ps : list esq_url_parameter_t) (i : Z)
    : cres (Z * list Z * list esq_url_parameter_t) :=
  match n with
  | O => Ret (0, u, ps)
  | S n =>
      p ← rd ps i;
      '(r, u) ← escape_at u (name p) (name_len p);
      if r <? 0 then Ret (-1, u, ps) else
      u ← end_at u (name p) r;
      let p := set_name (name p) r p in
      '(r, u) ← escape_at u (value p) (value_len p);
      if r <? 0 then ps ← wr ps i p; Ret (-1, u, ps) else
      u ← end_at u (value p) r;
      ps ← wr ps i (set_value (value p) r p);
      escape_loop n u ps (i + 1)
  end.

Definition esq_url_parames_escape_in_place (u : list Z) (ps : list esq_url_parameter_t) (param_max : Z)
    : cres (Z * list Z * list esq_url_parameter_t) := escape_loop (Z.to_nat param_max) u ps 0.

(** ** Reference: the text of parameters *)

Definition alnum (c : Z) : Prop := 48 <= c <= 57 ∨ 65 <= c <= 90 ∨ 97 <= c <= 122.
Definition value_char (c : Z) : Prop := alnum c ∨ c = 37 ∨ c = 61.

(** A name, and a value that is empty or begins with a letter or digit. *)
Definition good_param (nv : list Z * list Z) : Prop :=
  nv.1 ≠ [] ∧ Forall alnum nv.1 ∧
  match nv.2 with [] => True | c :: v => alnum c ∧ Forall value_char v end.

Definition print_param (nv : list Z * list Z) : list Z := 63 :: nv.1 ++ 61 :: nv.2.
Definition print_params (ps : list (list Z * list Z)) : list Z := concat (print_param <$> ps).

(** What a reader finds through the pointers of a parameter, when its lengths are those of the
    texts there. *)
Definition read_param (u : list Z) (p : esq_url_parameter_t) : cres (list Z * list Z) :=
  match name p with
  | None => Fault
  | Some o =>
      b ← at_off u o; n ← c_chars b;
      v ← match value p with Some o => b ← at_off u o; c_chars b | None => Ret [] end;
      if decide (name_len p = Z.of_nat (length n) ∧ value_len p = Z.of_nat (length v)) then Ret (n, v) else Fault
  end.

Fixpoint read_params (u : list Z) (ps : list esq_url_parameter_t) : cres (list (list Z * list Z)) :=
  match ps with
  | [] => Ret []
  | p :: ps => nv ← read_param u p; l ← read_params u ps; Ret (nv :: l)
  end.

(** ** The parser reads what is printed *)

Definition class (c : Z) : Z := tab esq_param_spliter_char_type 0 c.
Definition is_alnum (c : Z) : bool := (class c =? 1) || (class c =? 2) || (class c =? 3).

Lemma alnum_class c : alnum c → is_alnum c = true ∧ c ≠ 0.
Proof.
  intros Hc. assert (Hb : 0 <= c < 256) by (unfold alnum in Hc; lia). unfold alnum in Hc. split; [|lia].
  by_range (fun c => is_alnum c || negb ((48 <=? c) && (c <=? 57) || (65 <=? c) && (c <=? 90)
    || (97 <=? c) && (c <=? 122))) 256 c Hb.
  destruct (is_alnum c); [done|]. simpl in Hrange. lia.
Qed.

Lemma value_char_class c : value_char c → is_alnum c || (class c =? 4) || (class c =? 14) = true ∧ c ≠ 0.
Proof. intros [Hc|[-> | ->]]; [|done|done]. destruct (alnum_class c Hc) as [-> ?]. done. Qed.

Lemma rd_at (D R : list Z) c : rd (D ++ c :: R) (Z.of_nat (length D)) = Ret c.
Proof. apply rd_nat. by rewrite lookup_app_r, Nat.sub_diag by lia. Qed.

Lemma wr_at {A} (D R : list A) c c' : wr (D ++ c :: R) (Z.of_nat (length D)) c' = Ret (D ++ c' :: R).
Proof.
  rewrite wr_nat by (rewrite length_app; simpl; lia). f_equal. by rewrite insert_app_r_alt, Nat.sub_diag by lia.
Qed.

Lemma snoc_length {A} (D : list A) c : Z.of_nat (length D) + 1 = Z.of_nat (length (D ++ [c])).
Proof. rewrite length_app. simpl. lia. Qed.

(** Letters and digits inside a name, and characters inside a value. *)
Lemma name_run M n D R k ix ns vs P :
  Forall alnum n →
  split_loop (length n + k) M (Frame Name ix ns vs (D ++ n ++ R) P) (Z.of_nat (length D))
  = split_loop k M (Frame Name ix ns vs (D ++ n ++ R) P) (Z.of_nat (length (D ++ n))).
Proof.
  intros Hn. revert D. induction Hn as [|c n Hc Hn IH]; intros D; [by rewrite app_nil_r|].
  cbn [length Nat.add split_loop]. unfold step. cbn [url s app]. rewrite rd_at. cbn [mbind cres_bind].
  fold (class c) (is_alnum c). rewrite (proj1 (alnum_class c Hc)). cbn [mbind cres_bind].
  rewrite (snoc_length D c). specialize (IH (D ++ [c])). rewrite <- !app_assoc in IH. simpl app in IH.
  by rewrite IH.
Qed.

Lemma value_run M v D R k ix ns vs P :
  Forall value_char v →
  split_loop (length v + k) M (Frame Value ix ns vs (D ++ v ++ R) P) (Z.of_nat (length D))
  = split_loop k M (Frame Value ix ns vs (D ++ v ++ R) P) (Z.of_nat (length (D ++ v))).
Proof.
  intros Hv. revert D. induction Hv as [|c v Hc Hv IH]; intros D; [by rewrite app_nil_r|].
  cbn [length Nat.add split_loop]. unfold step. cbn [url s app]. rewrite rd_at. cbn [mbind cres_bind].
  fold (class c) (is_alnum c). rewrite (proj1 (value_char_class c Hc)). cbn [mbind cres_bind].
  rewrite (snoc_length D c). specialize (IH (D ++ [c])). rewrite <- !app_assoc in IH. simpl app in IH.
  by rewrite IH.
Qed.

(** Single characters. *)
Lemma step_name M D c R ix ns vs P :
  alnum c →
  step M (Frame Aq ix ns vs (D ++ c :: R) P) (Z.of_nat (length D))
  = Ret (inr (Frame Name ix (Z.of_nat (length D)) vs (D ++ c :: R) P)).
Proof.
  intros Hc. unfold step. cbn [url s]. rewrite rd_at. cbn [mbind cres_bind]. fold (class c) (is_alnum c).
  by rewrite (proj1 (alnum_class c Hc)).
Qed.

Lemma put_param_at st ix ns vs u Q p P f :
  ix = Z.of_nat (length Q) →
  put_param (Frame st ix ns vs u (Q ++ p :: P)) f = Ret (Frame st ix ns vs u (Q ++ f p :: P)).
Proof.
  intros ->. unfold put_param. cbn [param idx]. rewrite (rd_nat _ _ p) by (by rewrite lookup_app_r, Nat.sub_diag by lia).
  cbn [mbind cres_bind]. by rewrite wr_at.
Qed.

Lemma step_equal M D R ix ns vs Q p P :
  ix = Z.of_nat (length Q) → ix < M →
  step M (Frame Name ix ns vs (D ++ 61 :: R) (Q ++ p :: P)) (Z.of_nat (length D))
  = Ret (inr (Frame Ae ix ns vs (D ++ 0 :: R) (Q ++ set_name (Some ns) (Z.of_nat (length D) - ns) p :: P))).
Proof.
  intros Eix HM. unfold step. cbn [url s]. rewrite rd_at. cbn [mbind cres_bind]. fold (class 61).
  change (class 61) with 14. cbn [Z.eqb Pos.eqb orb]. cbn [idx].
  destruct (Z.ltb_spec ix M); [|lia]. unfold put_url, to. cbn [url idx name_start value_start param s]. rewrite wr_at.
  cbn [mbind cres_bind]. by rewrite put_param_at.
Qed.

Lemma step_value M D c R ix ns vs P :
  alnum c →
  step M (Frame Ae ix ns vs (D ++ c :: R) P) (Z.of_nat (length D))
  = Ret (inr (Frame Value ix ns (Z.of_nat (length D)) (D ++ c :: R) P)).
Proof.
  intros Hc. unfold step. cbn [url s]. rewrite rd_at. cbn [mbind cres_bind]. fold (class c) (is_alnum c).
  by rewrite (proj1 (alnum_class c Hc)).
Qed.

(** After the name and the value of a parameter. *)
Definition after (v : list Z) : state := match v with [] => Ae | _ => Value end.
Definition start_of (v : list Z) (vs o : Z) : Z := match v with [] => vs | _ => o end.

Lemma param_run M n v D R k ix ns vs Q p P :
  good_param (n, v) → ix = Z.of_nat (length Q) → ix < M →
  split_loop (length (n ++ 61 :: v) + k) M (Frame Aq ix ns vs (D ++ n ++ 61 :: v ++ R) (Q ++ p :: P)) (Z.of_nat (length D))
  = split_loop k M
      (Frame (after v) ix (Z.of_nat (length D)) (start_of v vs (Z.of_nat (length (D ++ n ++ [0]))))
         (D ++ n ++ 0 :: v ++ R) (Q ++ set_name (Some (Z.of_nat (length D))) (Z.of_nat (length n)) p :: P))
      (Z.of_nat (length (D ++ n ++ 0 :: v))).
Proof.
  intros (Hne & Hn & Hv) Eix HM. simpl in Hne, Hn, Hv. destruct n as [|c n]; [done|].
  apply Forall_cons_1 in Hn as [Hc Hn]. rewrite length_app, <- Nat.add_assoc. cbn [length Nat.add split_loop app].
  rewrite step_name by done. cbn [mbind cres_bind]. rewrite (snoc_length D c).
  pose proof (name_run M n (D ++ [c]) (61 :: v ++ R) (S (length v) + k) ix (Z.of_nat (length D)) vs
    (Q ++ p :: P) Hn) as E.
  rewrite <- !app_assoc in E. simpl app in E. simpl Nat.add in E. rewrite E. clear E. cbn [split_loop].
  change (D ++ c :: n ++ 61 :: v ++ R) with (D ++ (c :: n) ++ 61 :: v ++ R). rewrite (app_assoc D (c :: n)).
  rewrite step_equal by done. cbn [mbind cres_bind]. rewrite (snoc_length _ 0).
  replace (Z.of_nat (length (D ++ c :: n)) - Z.of_nat (length D)) with (Z.of_nat (S (length n)))
    by (rewrite length_app; simpl; lia).
  rewrite <- !(app_assoc D (c :: n)). simpl app.
  destruct v as [|a v]; [done|]. destruct Hv as [Ha Hv]. cbn [length Nat.add split_loop after start_of].
  set (D0 := D ++ c :: n ++ [0]).
  assert (E0 : ∀ X, D ++ c :: n ++ 0 :: X = D0 ++ X) by (intros X; unfold D0; by rewrite <- app_assoc; simpl; rewrite <- app_assoc).
  rewrite !E0. simpl app. rewrite step_value by done. cbn [mbind cres_bind]. rewrite (snoc_length D0 a).
  pose proof (value_run M v (D0 ++ [a]) R k ix (Z.of_nat (length D)) (Z.of_nat (length D0))
    (Q ++ set_name (Some (Z.of_nat (length D))) (Z.of_nat (S (length n))) p :: P) Hv) as E.
  rewrite <- !app_assoc in E. simpl app in E. exact E.
Qed.

(** The character behind a value, and the finished parameter at offset [o]. *)
Definition mark (v : list Z) (c : Z) : Z := match v with [] => c | _ => 0 end.
Definition entry (o : Z) (nv : list Z * list Z) : esq_url_parameter_t :=
  Param (Some o) (match nv.2 with [] => None | _ => Some (o + Z.of_nat (length nv.1) + 1) end)
    (Z.of_nat (length nv.1)) (Z.of_nat (length nv.2)).

(** The text after the parser, and the parameters, behind a value [v]. *)
Fixpoint parsed (v : list Z) (ps : list (list Z * list Z)) (t : Z) : list Z :=
  match ps with
  | [] => [mark v t]
  | (n, v') :: ps => mark v 63 :: n ++ 0 :: v' ++ parsed v' ps t
  end.

Fixpoint entries (o : Z) (ps : list (list Z * list Z)) : list esq_url_parameter_t :=
  match ps with
  | [] => []
  | nv :: ps => entry (o + 1) nv :: entries (o + Z.of_nat (length (print_param nv))) ps
  end.

Definition close (F : frame) (i : Z) : cres frame :=
  match s F with Value => end_value F i | Ae => no_value F | _ => Ret F end.

Lemma close_ok st v D c R ix o n vs Q p P (Fs : state) :
  Fs = after v → ix = Z.of_nat (length Q) → D = n ++ 0 :: v → st = Z.of_nat (length o) →
  close (Frame Fs ix st (start_of v vs (st + Z.of_nat (length n) + 1)) ((o ++ D) ++ c :: R)
           (Q ++ set_name (Some st) (Z.of_nat (length n)) p :: P)) (Z.of_nat (length (o ++ D)))
  = Ret (Frame Fs (ix + 1) st (start_of v vs (st + Z.of_nat (length n) + 1)) ((o ++ D) ++ mark v c :: R)
           (Q ++ entry st (n, v) :: P)).
Proof.
  intros -> Eix -> Est. unfold close, entry. destruct v as [|a v]; cbn [after s start_of mark fst snd].
  - unfold no_value. rewrite put_param_at by done. cbn [mbind cres_bind]. done.
  - unfold end_value, put_url. cbn [url s idx name_start value_start param]. rewrite wr_at. cbn [mbind cres_bind].
    rewrite put_param_at by done. cbn [mbind cres_bind]. unfold next_param. cbn [s idx name_start value_start url param].
    unfold set_value, set_name. cbn [name value name_len value_len]. do 5 f_equal.
    f_equal. rewrite !length_app. simpl. lia.
Qed.

(** A question mark behind a parameter closes it. *)
Lemma step_question M D R ix ns vs P v :
  step M (Frame (after v) ix ns vs (D ++ 63 :: R) P) (Z.of_nat (length D))
  = F ← close (Frame (after v) ix ns vs (D ++ 63 :: R) P) (Z.of_nat (length D)); Ret (inr (to Aq F)).
Proof.
  unfold step, close. cbn [url s]. rewrite rd_at. cbn [mbind cres_bind]. fold (class 63). change (class 63) with 15.
  cbn [Z.eqb Pos.eqb orb]. destruct v as [|a v]; cbn [after].
  - unfold no_value, put_param, to. cbn [param idx s name_start value_start url].
    destruct (rd P ix); cbn [mbind cres_bind]; try done. destruct (wr P ix _); done.
  - unfold end_value, put_url, put_param, to. cbn [param idx s name_start value_start url].
    destruct (wr (D ++ 63 :: R) _ 0); cbn [mbind cres_bind param idx s name_start value_start url]; try done.
    destruct (rd P ix); cbn [mbind cres_bind]; try done. by destruct (wr P ix _).
Qed.

(** The parameters that follow one that is not closed yet. *)
Lemma params_run M ps o n v ix vs Q p P P2 tl t :
  Forall good_param ps → ix = Z.of_nat (length Q) → length P = length ps → ix + Z.of_nat (length ps) < M →
  let D := o ++ n ++ 0 :: v in
  ∃ F, (r ← split_loop (length (print_params ps)) M
             (Frame (after v) ix (Z.of_nat (length o)) (start_of v vs (Z.of_nat (length o) + Z.of_nat (length n) + 1))
                (D ++ print_params ps ++ t :: tl)
                (Q ++ set_name (Some (Z.of_nat (length o))) (Z.of_nat (length n)) p :: P ++ P2)) (Z.of_nat (length D));
        match r with inr F => inr <$> close F (Z.of_nat (length (D ++ print_params ps))) | inl F => Ret (inl F) end)
       = Ret (inr F) ∧
    idx F = ix + 1 + Z.of_nat (length ps) ∧ url F = D ++ parsed v ps t ++ tl ∧
    param F = Q ++ entry (Z.of_nat (length o)) (n, v) :: entries (Z.of_nat (length D)) ps ++ P2.
Proof.
  intros Hps. revert o n v ix vs Q p P. induction Hps as [|[n' v'] ps Hg Hps IH]; intros o n v ix vs Q p P Eix HP HM D.
  - destruct P; [|done]. cbn [print_params concat fmap list_fmap length split_loop app]. cbn [mbind cres_bind].
    rewrite app_nil_r. unfold D. rewrite close_ok by done. eexists. split; [done|]. cbn [idx url param parsed entries].
    split; [simpl; lia|]. split; [|done]. done.
  - destruct P as [|p' P]; [done|]. injection HP as HP. simpl length in HM.
    change (print_params ((n', v') :: ps)) with ((63 :: n' ++ 61 :: v') ++ print_params ps).
    rewrite length_app. cbn [length app Nat.add split_loop].
    rewrite step_question. unfold D. rewrite close_ok by done. cbn [mbind cres_bind]. unfold to.
    cbn [idx name_start value_start url param]. rewrite (snoc_length _ (mark v 63)).
    set (o' := (o ++ n ++ 0 :: v) ++ [mark v 63]). rewrite <- !(app_assoc n' (61 :: v')).
    assert (E0 : ∀ X, (o ++ n ++ 0 :: v) ++ mark v 63 :: X = o' ++ X) by (intros X; unfold o'; by rewrite <- (app_assoc _ [_])).
    rewrite E0.
    assert (EQ : ∀ X Y, Q ++ X :: Y = (Q ++ [X]) ++ Y) by (intros; by rewrite <- app_assoc). rewrite EQ. change ((p' :: P) ++ P2) with (p' :: P ++ P2).
    replace ((n' ++ (61 :: v') ++ print_params ps) ++ t :: tl) with (n' ++ 61 :: v' ++ print_params ps ++ t :: tl)
      by (by rewrite <- !app_assoc).
    replace (length (n' ++ (61 :: v') ++ print_params ps)) with (Nat.add (length (n' ++ 61 :: v')) (length (print_params ps)))
      by (rewrite !length_app; simpl; lia).
    rewrite param_run; [|done|rewrite length_app; simpl; lia|lia].
    replace (Z.of_nat (length (o' ++ n' ++ [0]))) with (Z.of_nat (length o') + Z.of_nat (length n') + 1)
      by (rewrite !length_app; simpl; lia).
    replace (Nat.add (length (o ++ n ++ 0 :: v)) (S (Nat.add (length (n' ++ 61 :: v')) (length (print_params ps)))))
      with (length ((o' ++ n' ++ 0 :: v') ++ print_params ps))
      by (unfold o'; repeat (rewrite ?length_app; simpl); lia).
    replace (o' ++ n' ++ 0 :: v' ++ print_params ps ++ t :: tl) with ((o' ++ n' ++ 0 :: v') ++ print_params ps ++ t :: tl)
      by (by rewrite <- !app_assoc).
    destruct (IH o' n' v' (ix + 1) (start_of v vs (Z.of_nat (length o) + Z.of_nat (length n) + 1))
      (Q ++ [entry (Z.of_nat (length o)) (n, v)]) p' P) as (F & E & Ei & Eu & Ep).
    { rewrite length_app. simpl. lia. } { done. } { lia. }
    exists F. split; [exact E|]. split; [rewrite Ei; simpl; lia|]. split.
    + rewrite Eu. cbn [parsed]. unfold o'. repeat (rewrite <- !app_assoc; simpl). done.
    + rewrite Ep, <- app_assoc. simpl. do 2 f_equal.
      assert (El : Z.of_nat (length o') = Z.of_nat (length (o ++ n ++ 0 :: v)) + 1)
        by (unfold o'; rewrite (length_app _ [_]); simpl; lia).
      rewrite El. f_equal. f_equal. f_equal. unfold print_param. rewrite (length_app o').
      cbn [length fst snd]. rewrite !(length_app n'). cbn [length]. lia.
Qed.

(** ** Reading back *)

Lemma c_chars_ok x tl : Forall (fun c => c ≠ 0) x → c_chars (x ++ 0 :: tl) = Ret x.
Proof.
  induction 1 as [|c x Hc Hx IH]; simpl; [done|]. destruct (Z.eqb_spec c 0); [done|]. by rewrite IH.
Qed.

Lemma good_chars n v : good_param (n, v) → Forall (fun c => c ≠ 0) n ∧ Forall (fun c => c ≠ 0) v.
Proof.
  intros (_ & Hn & Hv). simpl in *. split.
  - eapply Forall_impl; [exact Hn|]. intros c Hc. by apply alnum_class.
  - destruct v as [|c v]; [constructor|]. destruct Hv as [Hc Hv]. constructor; [by apply alnum_class|].
    eapply Forall_impl; [exact Hv|]. intros d Hd. by apply value_char_class.
Qed.

Lemma parsed_head v ps t : v ≠ [] → ∃ tl, parsed v ps t = 0 :: tl.
Proof. intros Hv. destruct v; [done|]. destruct ps as [|[n v'] ps]; simpl; eauto. Qed.

Lemma read_params_ok ps D v t tl :
  Forall good_param ps →
  read_params (D ++ parsed v ps t ++ tl) (entries (Z.of_nat (length D)) ps) = Ret ps.
Proof.
  intros Hps. revert D v. induction Hps as [|[n v'] ps Hg Hps IH]; intros D v; [done|].
  destruct (good_chars n v' Hg) as [Hn Hv]. cbn [entries read_params].
  set (U := D ++ parsed v ((n, v') :: ps) t ++ tl).
  assert (E1 : U = (D ++ [mark v 63]) ++ n ++ 0 :: v' ++ parsed v' ps t ++ tl)
    by (unfold U; cbn [parsed]; repeat (rewrite <- !app_assoc; simpl); done).
  assert (E2 : U = (D ++ mark v 63 :: n ++ [0]) ++ v' ++ parsed v' ps t ++ tl)
    by (unfold U; cbn [parsed]; repeat (rewrite <- !app_assoc; simpl); done).
  assert (E3 : U = (D ++ mark v 63 :: n ++ 0 :: v') ++ parsed v' ps t ++ tl)
    by (unfold U; cbn [parsed]; repeat (rewrite <- !app_assoc; simpl); done).
  assert (Hr : read_param U (entry (Z.of_nat (length D) + 1) (n, v')) = Ret (n, v')).
  { unfold read_param, entry. cbn [name value fst snd]. rewrite E1 at 1.
    rewrite at_off_app by (rewrite length_app; simpl; lia). cbn [mbind cres_bind]. rewrite c_chars_ok by done.
    cbn [mbind cres_bind name_len value_len]. destruct v' as [|a v'].
    { cbn [mbind cres_bind]. by rewrite decide_True. }
    rewrite E2. rewrite at_off_app by (repeat (rewrite ?length_app; simpl); lia). cbn [mbind cres_bind].
    destruct (parsed_head (a :: v') ps t) as [tl' ->]; [done|].
    change ((0 :: tl') ++ tl) with (0 :: tl' ++ tl). rewrite c_chars_ok by done. cbn [mbind cres_bind]. by rewrite decide_True. }
  rewrite Hr. cbn [mbind cres_bind].
  replace (Z.of_nat (length D) + Z.of_nat (length (print_param (n, v'))))
    with (Z.of_nat (length (D ++ mark v 63 :: n ++ 0 :: v')))
    by (unfold print_param; simpl; repeat (rewrite ?length_app; simpl); lia).
  rewrite E3, IH. done.
Qed.

Lemma clear_loop_ok n Q P : length P = n → clear_loop n (Q ++ P) (Z.of_nat (length Q)) = Ret (Q ++ replicate n null_param).
Proof.
  revert Q P. induction n as [|n IH]; intros Q P HP; [by destruct P|]. destruct P as [|p P]; [done|].
  cbn [clear_loop]. rewrite wr_at. cbn [mbind cres_bind]. rewrite (snoc_length Q null_param).
  replace (Q ++ null_param :: P) with ((Q ++ [null_param]) ++ P) by (by rewrite <- app_assoc).
  rewrite IH by (simpl in HP; lia). by rewrite <- app_assoc.
Qed.

Lemma split_loop_app a b M F i :
  split_loop (a + b) M F i
  = r ← split_loop a M F i; match r with inr F => split_loop b M F (i + Z.of_nat a) | inl F => Ret (inl F) end.
Proof.
  revert F i. induction a as [|a IH]; intros F i; cbn [Nat.add split_loop]; [by rewrite Z.add_0_r|].
  destruct (step M F i) as [[F'|F']| | |]; cbn [mbind cres_bind]; try done. rewrite IH.
  destruct (split_loop a M F' (i + 1)) as [[?|?]| | |]; cbn [mbind cres_bind]; try done. f_equal. lia.
Qed.

Lemma step_first M R ix ns vs P :
  step M (Frame S_ ix ns vs (63 :: R) P) 0 = Ret (inr (Frame Aq ix ns vs (63 :: R) P)).
Proof. unfold step. cbn [url s]. pose proof (rd_at [] R 63) as E. simpl app in E. change (Z.of_nat (length [])) with 0 in E. by rewrite E. Qed.

Lemma entries_length o ps : length (entries o ps) = length ps.
Proof. revert o; induction ps as [|nv ps IH]; intros o; simpl; [done|]. by rewrite IH. Qed.

(** The parser on a printed text. *)
Lemma split_print j ps t tl params :
  Forall good_param ps → ps ≠ [] → (length ps <= length params)%nat →
  esq_split_parameters j (print_params ps ++ t :: tl) (Z.of_nat (length (print_params ps))) params
    (Z.of_nat (length params))
  = Ret (Z.of_nat (length ps), parsed [] ps t ++ tl,
         entries 0 ps ++ replicate (length params - length ps) null_param).
Proof.
  intros Hps Hne Hl. destruct ps as [|[n v] ps]; [done|]. clear Hne. apply Forall_cons_1 in Hps as [Hg Hps].
  destruct params as [|p params]; [simpl in Hl; lia|]. simpl in Hl. apply le_S_n in Hl.
  set (P1 := take (length ps) params). set (P2 := drop (length ps) params).
  assert (HP1 : length P1 = length ps) by (unfold P1; rewrite length_take; lia).
  assert (HP2 : length P2 = (length (p :: params) - length ((n, v) :: ps))%nat) by (unfold P2; rewrite length_drop; done).
  assert (EP : params = P1 ++ P2) by (symmetry; apply take_drop).
  rewrite <- HP2. set (M := Z.of_nat (length (p :: params))).
  assert (EM : M = 1 + Z.of_nat (length ps) + Z.of_nat (length P2)) by (unfold M; rewrite HP2; simpl; lia).
  clearbody M. rewrite EP.
  unfold esq_split_parameters. rewrite Nat2Z.id.
  change (print_params ((n, v) :: ps)) with ((63 :: n ++ 61 :: v) ++ print_params ps).
  rewrite length_app. cbn [length Nat.add split_loop app]. rewrite step_first. cbn [mbind cres_bind].
  pose proof (param_run M n v [63] (print_params ps ++ t :: tl) (length (print_params ps)) 0 j 0 [] p (P1 ++ P2) Hg eq_refl
    ltac:(lia)) as E.
  simpl app in E. change (Z.of_nat (length [63])) with 1 in E. rewrite <- !app_assoc. simpl app.
  change (0 + 1) with 1. rewrite E. clear E.
  destruct (params_run M ps [63] n v 0 0 [] p P1 P2 tl t Hps eq_refl HP1 ltac:(lia)) as (F & E & Ei & Eu & Ep).
  change (Z.of_nat (length [63])) with 1 in E. change (Z.of_nat 1) with 1.
  replace (Z.of_nat (length (63 :: n ++ [0]))) with (1 + Z.of_nat (length n) + 1) by (simpl; rewrite length_app; simpl; lia).
  replace (([63] ++ n ++ 0 :: v) ++ print_params ps ++ t :: tl) with (63 :: n ++ 0 :: v ++ print_params ps ++ t :: tl) in E
    by (simpl; by rewrite <- !app_assoc).
  simpl app in E. simpl app in Eu. simpl app in Ep.
  destruct (split_loop _ M _ _) as [[F0|F0]| | |]; cbn [mbind cres_bind] in E |- *; try discriminate E.
  replace (S (Nat.add (length (n ++ 61 :: v)) (length (print_params ps))))
    with (length (63 :: (n ++ 0 :: v) ++ print_params ps)) by (simpl; repeat (rewrite ?length_app; simpl); lia).
  fold (close F0 (Z.of_nat (length (63 :: (n ++ 0 :: v) ++ print_params ps)))).
  destruct (close F0 _) as [F1| | |]; try discriminate E. injection E as ->. cbn [mbind cres_bind].
  rewrite Ep, Ei, Eu. set (en := entry 1 (n, v) :: entries (Z.of_nat (S (length (n ++ 0 :: v)))) ps).
  assert (Hen : length en = S (length ps)) by (unfold en; simpl; by rewrite entries_length).
  change (entry (Z.of_nat 1) (n, v) :: entries (Z.of_nat (S (length (n ++ 0 :: v)))) ps ++ P2) with (en ++ P2).
  replace (0 + 1 + Z.of_nat (length ps)) with (Z.of_nat (length en)) by lia.
  replace (Z.to_nat (M - Z.of_nat (length en))) with (length P2) by lia.
  rewrite clear_loop_ok by done. cbn [mbind cres_bind]. rewrite Hen. do 2 f_equal.
  - f_equal. simpl. repeat (rewrite <- !app_assoc; simpl). done.
  - unfold en. simpl. do 4 f_equal. rewrite !length_app. done.
Qed.

(** ** The theorems *)

(** C35: what [esq_split_parameters] finds in the text of parameters whose names are letters and
    digits and whose values, if not empty, begin with a letter or a digit and go on with
    letters, digits, percent signs and equal signs, when the array has room for them, are
    these parameters: the count, each name and value ended by a zero where its pointer says and
    with its length, a null pointer for an empty value, and null parameters behind them; only
    the byte behind the text is written besides. *)
Theorem esq_split_parameters_roundtrip j ps t tl params :
  Forall good_param ps → (length ps <= length params)%nat →
  ∃ u params', esq_split_parameters j (print_params ps ++ t :: tl) (Z.of_nat (length (print_params ps))) params
      (Z.of_nat (length params)) = Ret (Z.of_nat (length ps), u ++ tl, params') ∧
    length u = S (length (print_params ps)) ∧
    read_params (u ++ tl) (take (length ps) params') = Ret ps ∧
    drop (length ps) params' = replicate (length params - length ps) null_param.
Proof.
  intros Hps Hl. destruct (decide (ps = [])) as [->|Hne].
  - exists [t], (replicate (length params) null_param). unfold esq_split_parameters. change (print_params []) with (@nil Z).
    change (Z.to_nat (Z.of_nat (length []))) with O. cbn [split_loop mbind cres_bind s idx param url].
    rewrite Z.sub_0_r, Nat2Z.id.
    pose proof (clear_loop_ok (length params) [] params eq_refl) as E. change (Z.of_nat (length [])) with 0 in E.
    simpl app in E. rewrite E. cbn [mbind cres_bind]. split; [done|]. split; [done|]. split; [done|].
    by rewrite drop_0, Nat.sub_0_r.
  - rewrite split_print by done. do 2 eexists. split; [done|].
    rewrite take_app_length', drop_app_length' by (by rewrite entries_length).
    split; [|split; [exact (read_params_ok ps [] [] t tl Hps)|done]].
    clear. generalize (@nil Z). induction ps as [|[n v] ps IH]; intros w; [done|].
    change (print_params ((n, v) :: ps)) with (print_param (n, v) ++ print_params ps).
    unfold print_param. cbn [parsed length fst snd]. repeat (rewrite ?length_app, ?IH; cbn [length]). lia.
Qed.

Lemma escape_loop_null n u ps i :
  (∃ k p, (i <= k < i + n)%nat ∧ ps !! k = Some p ∧ (name p = None ∨ value p = None)) →
  ∀ u' ps', escape_loop n u ps (Z.of_nat i) ≠ Ret (0, u', ps').
Proof.
  revert u ps i. induction n as [|n IH]; intros u ps i (k & p & Hk & Hp & Hnull) u' ps'; [lia|].
  cbn [escape_loop]. intros E.
  apply cres_bind_Ret in E as (q & Hq & E). apply rd_Ret in Hq as [_ Hq]. rewrite Nat2Z.id in Hq.
  apply cres_bind_Ret in E as ([r u1] & _ & E). destruct (r <? 0); [done|].
  apply cres_bind_Ret in E as (u2 & E2 & E).
  apply cres_bind_Ret in E as ([r' u3] & _ & E). destruct (r' <? 0).
  { by apply cres_bind_Ret in E as (? & _ & ?). }
  apply cres_bind_Ret in E as (u4 & E4 & E). apply cres_bind_Ret in E as (ps1 & Ew & E).
  unfold end_at in E2, E4. cbn [value set_name] in E4.
  destruct (decide (k = i)) as [->|Hne].
  { rewrite Hp in Hq. injection Hq as <-. destruct Hnull as [Hx|Hx]; [by rewrite Hx in E2|by rewrite Hx in E4]. }
  replace (Z.of_nat i + 1) with (Z.of_nat (S i)) in E by lia.
  apply (IH u4 ps1 (S i)) in E; [done|]. exists k, p. split; [lia|]. split; [|done].
  unfold wr in Ew. case_decide; [|done]. injection Ew as <-. rewrite Nat2Z.id, list_lookup_insert_ne by done. done.
Qed.

(** Decoding in place never ends well when one of the parameters, or its value, is not there:
    the zero is written through the null pointer unless an earlier one is malformed.  After
    the parser that is so whenever there are fewer parameters than places for them. *)
Theorem escape_in_place_null u ps param_max k p :
  (k < param_max)%nat → ps !! k = Some p → name p = None ∨ value p = None →
  ∀ u' ps', esq_url_parames_escape_in_place u ps (Z.of_nat param_max) ≠ Ret (0, u', ps').
Proof.
  intros Hk Hp Hn. unfold esq_url_parames_escape_in_place. rewrite Nat2Z.id.
  apply (escape_loop_null param_max u ps 0). exists k, p. split; [lia|done].
Qed.

(** A value that begins with an escape loses its percent sign: [?a=%41] has the value [41]. *)
Theorem first_percent_lost :
  ∃ u ps, esq_split_parameters 0 [63; 97; 61; 37; 52; 49; 0] 6 [null_param] 1 = Ret (1, u, ps) ∧
    read_params u ps = Ret [([97], [52; 49])].
Proof. do 2 eexists. split; reflexivity. Qed.

Lemma esq_split_parameters_roundtrip_witness :
  ∃ u params', esq_split_parameters 0 ([63; 97; 61; 120] ++ 33 :: []) 4 [null_param; null_param] 2
    = Ret (1, u ++ [], params') ∧ read_params (u ++ []) (take 1 params') = Ret [([97], [120])].
Proof.
  destruct (esq_split_parameters_roundtrip 0 [([97], [120])] 33 [] [null_param; null_param])
    as (u & params' & E & _ & Hr & _).
  - apply Forall_cons_2; [|apply Forall_nil_2]. split; [discriminate|]. simpl. unfold alnum.
    split; [apply Forall_cons_2; [lia|apply Forall_nil_2]|]. split; [lia|apply Forall_nil_2].
  - simpl. lia.
  - exists u, params'. split; [exact E|exact Hr].
Defined.
