(* ===== verification/PostData.v ===== *)
(** * The parser of form data

    [libs/post-data-parser/parser.c] reads a [multipart/form-data] body in one or more
    pieces and reports its elements to a callback.  The piece is an object that holds at
    least [len] bytes; the callback and what it keeps are arguments.  An area given to
    [memmem] or to the callback that reaches behind the object is a fault. *)
From S2P Require Import Prelude CString.

Definition POST_ET_VOID : Z := 0.
Definition POST_ET_ERROR : Z := 1.
Definition POST_ET_EMPTY_LINE : Z := 2.
Definition POST_ET_BOUNDARY : Z := 3.
Definition POST_ET_CONTENT_FORM_DATA : Z := 4.
Definition POST_ET_FINISH : Z := 5.
Definition POST_ET_NAME : Z := 6.
Definition POST_ET_FILENAME : Z := 7.
Definition POST_ET_VALUE : Z := 8.
Definition POST_ET_CONTENT_TYPE : Z := 9.
Definition PDP_BOUNDARY_MAX : Z := 256.

Record post_data_ctx_t := Ctx { last_item_type : Z; boundary : list Z; boundary_len : Z }.

Definition CRLF : list Z := [13; 10].
(** An end of line and [Content-Disposition: form-data;]. *)
Definition CONTENT_DFD : list Z :=
  [13; 10; 67; 111; 110; 116; 101; 110; 116; 45; 68; 105; 115; 112; 111; 115; 105; 116; 105; 111; 110; 58; 32;
   102; 111; 114; 109; 45; 100; 97; 116; 97; 59].
(** A blank, [name=] and a quotation mark. *)
Definition NAME_S : list Z := [32; 110; 97; 109; 101; 61; 34].
(** [; filename=] and a quotation mark. *)
Definition FNAME_S : list Z := [59; 32; 102; 105; 108; 101; 110; 97; 109; 101; 61; 34].
Definition EMPTY_LINE : list Z := [13; 10; 13; 10].
(** An end of line, [Content-Type:] and a blank. *)
Definition CONTENT_TYPE_PREFIX : list Z := [13; 10; 67; 111; 110; 116; 101; 110; 116; 45; 84; 121; 112; 101; 58; 32].

(** [sizeof] of a string counts its zero. *)
Definition sizeof (s : list Z) : Z := Z.of_nat (length s) + 1.

(** The first place of [n] in [h]. *)
Fixpoint find_sub (h n : list Z) : option nat :=
  if decide (n `prefix_of` h) then Some O
  else match h with [] => None | _ :: h => S <$> find_sub h n end.

Definition c_memmem (p : list Z) (n : Z) (needle : list Z) : cres (option Z) :=
  if decide (0 <= n <= Z.of_nat (length p)) then Ret (Z.of_nat <$> find_sub (take (Z.to_nat n) p) needle) else Fault.

(** The [n] bytes at [p + off]. *)
Definition slice (p : list Z) (off n : Z) : cres (list Z) :=
  q ← at_off p off;
  if decide (0 <= n <= Z.of_nat (length q)) then Ret (take (Z.to_nat n) q) else Fault.

Definition pdp_locate_boundary (buf : list Z) (len : Z) : cres Z :=
  let max := if PDP_BOUNDARY_MAX <? len then PDP_BOUNDARY_MAX else len in
  r ← c_memmem buf max CRLF;
  Ret match r with
      | Some r => let l := r - 1 in if (len <=? l) || (l <=? 0) then -1 else l
      | None => -1
      end.

Section Parser.
  Context {App : Type} (cb : App → Z → list Z → Z * App) (buf : list Z) (len : Z).

(** The variables of [post_data_parser], and where it goes from a case of the switch. *)
Record pst := Pst { p_app : App; p_i : Z; p_type : Z }.
Inductive flow := Go (s : pst) | Ok (s : pst) | Exx (s : pst) | Return (r : Z) (a : App) | Finish (a : App).

(** The item of [n] bytes at [i] ends; the callback gets the [vn] bytes at [off]. *)
Definition CONSUME_ITEM2 (et n off vn : Z) (s : pst) : cres flow :=
  v ← slice buf off vn;
  let '(r, a) := cb (p_app s) et v in
  Ret (if negb (r =? 0) then Return (-1) a else Go (Pst a (p_i s + n) et)).
Definition CONSUME_ITEM (et n : Z) (s : pst) : cres flow := CONSUME_ITEM2 et n (p_i s) n s.

Definition after (m : cres flow) (f : pst → cres flow) : cres flow :=
  r ← m; match r with Go s => f s | _ => Ret r end.

(** Whether [t] stands at [i]. *)
Definition stands (t : list Z) (i : Z) : cres bool :=
  if Z.of_nat (length t) <=? len - i then
    p ← at_off buf i; r ← c_memcmp t p (Z.of_nat (length t)); Ret (r =? 0)
  else Ret false.

(** The place of the quotation mark from [t] on, or -1. *)
Fixpoint GET_NAME_END (fuel : nat) (t : Z) : cres Z :=
  match fuel with
  | O => NoFuel
  | S fuel =>
      if t <? len then c ← rd buf t; if 34 =? c then Ret t else GET_NAME_END fuel (t + 1)
      else Ret (-1)
  end.

(** [prefix], then a name up to the quotation mark. *)
Definition quoted (et : Z) (prefix : list Z) (s : pst) : cres flow :=
  let i := p_i s in
  name_end ← GET_NAME_END (S (length buf)) (i + Z.of_nat (length prefix));
  if name_end <=? 0 then Ret (Exx s)
  else CONSUME_ITEM2 et (name_end - i + 1) (i + Z.of_nat (length prefix)) (name_end - i - Z.of_nat (length prefix)) s.

(** A value up to the next boundary, or to the end of the piece. *)
Definition value_item (ctx : post_data_ctx_t) (s : pst) (empty : bool) : cres flow :=
  let i := p_i s in
  p ← at_off buf i;
  b ← slice (boundary ctx) 0 (boundary_len ctx);
  item_end ← c_memmem p (len - i) b;
  match item_end with
  | Some e =>
      if e =? 0 then
        if empty then after (CONSUME_ITEM POST_ET_VALUE 0 s) (CONSUME_ITEM POST_ET_BOUNDARY (boundary_len ctx + 1))
        else CONSUME_ITEM POST_ET_BOUNDARY (boundary_len ctx + 1) s
      else after (CONSUME_ITEM POST_ET_VALUE e s) (CONSUME_ITEM POST_ET_BOUNDARY (boundary_len ctx + 1))
  | None => r ← CONSUME_ITEM POST_ET_VALUE (len - i) s; Ret match r with Go s => Ok s | _ => r end
  end.

Definition case_boundary (s : pst) : cres flow :=
  let i := p_i s in
  b ← stands CONTENT_DFD i;
  if b : bool then CONSUME_ITEM POST_ET_CONTENT_FORM_DATA (Z.of_nat (length CONTENT_DFD)) s
  else if len - i =? 4 then
    e ← slice buf i 4;
    if decide (e = [45; 45; 13; 10]) then Ret (Finish (cb (p_app s) POST_ET_FINISH e).2) else Ret (Exx s)
  else Ret (Exx s).

Definition case_name (s : pst) : cres flow :=
  b ← stands FNAME_S (p_i s);
  if b : bool then quoted POST_ET_FILENAME FNAME_S s
  else b ← stands EMPTY_LINE (p_i s);
       if b : bool then CONSUME_ITEM POST_ET_EMPTY_LINE (Z.of_nat (length EMPTY_LINE)) s else Ret (Exx s).

Definition case_filename (s : pst) : cres flow :=
  let i := p_i s in
  b ← (if sizeof CONTENT_TYPE_PREFIX <? len - i then stands CONTENT_TYPE_PREFIX i else Ret false);
  if b : bool then
    p ← at_off buf (i + sizeof CONTENT_TYPE_PREFIX);
    r ← c_memmem p (len - i) CRLF;
    match r with
    | None => Ret (Exx s)
    | Some e =>
        let item_len := sizeof CONTENT_TYPE_PREFIX + e in
        let type_len := item_len - (sizeof CONTENT_TYPE_PREFIX - 1) in
        CONSUME_ITEM2 POST_ET_CONTENT_TYPE item_len (i + sizeof CONTENT_TYPE_PREFIX - 1) type_len s
    end
  else Ret (Exx s).

Definition switch (ctx : post_data_ctx_t) (s : pst) : cres flow :=
  let t := p_type s in
  if t =? POST_ET_VOID then Ret (Exx s)
  else if t =? POST_ET_ERROR then Ret (Return (-1) (p_app s))
  else if t =? POST_ET_EMPTY_LINE then value_item ctx s true
  else if t =? POST_ET_BOUNDARY then case_boundary s
  else if t =? POST_ET_CONTENT_FORM_DATA then
    b ← stands NAME_S (p_i s); if b : bool then quoted POST_ET_NAME NAME_S s else Ret (Exx s)
  else if t =? POST_ET_FINISH then Ret (Return (-1) (p_app s))
  else if t =? POST_ET_NAME then case_name s
  else if t =? POST_ET_FILENAME then case_filename s
  else if t =? POST_ET_VALUE then value_item ctx s false
  else if t =? POST_ET_CONTENT_TYPE then
    b ← stands EMPTY_LINE (p_i s);
    if b : bool then CONSUME_ITEM POST_ET_EMPTY_LINE (Z.of_nat (length EMPTY_LINE)) s else Ret (Exx s)
  else Ret (Exx s).

Definition set_type (t : Z) (ctx : post_data_ctx_t) : post_data_ctx_t := Ctx t (boundary ctx) (boundary_len ctx).

Fixpoint parse_loop (fuel : nat) (ctx : post_data_ctx_t) (s : pst) : cres (Z * App * post_data_ctx_t) :=
  match fuel with
  | O => NoFuel
  | S fuel =>
      if p_i s <? len then
        r ← switch ctx s;
        match r with
        | Go s => parse_loop fuel ctx s
        | Ok s => Ret (0, p_app s, set_type (p_type s) ctx)
        | Exx s => Ret (-1, (cb (p_app s) POST_ET_ERROR []).2, set_type POST_ET_ERROR ctx)
        | Return r a => Ret (r, a, ctx)
        | Finish a => Ret (0, a, set_type POST_ET_FINISH ctx)
        end
      else Ret (0, p_app s, set_type (p_type s) ctx)
  end.

(** The first line, recorded with the end of line before it. *)
Definition first_boundary (ctx : post_data_ctx_t) (a : App) : cres (post_data_ctx_t * flow) :=
  r ← pdp_locate_boundary buf len;
  if (r <=? 2) || (PDP_BOUNDARY_MAX <=? r + 2) then Ret (ctx, Return (-1) a) else
  b ← wr (boundary ctx) 0 13;
  b ← wr b 1 10;
  b ← c_memcpy b 2 buf r;
  b ← wr b (r + 2) 0;
  f ← CONSUME_ITEM POST_ET_BOUNDARY (r + 1) (Pst a 0 (last_item_type ctx));
  Ret (Ctx (last_item_type ctx) b (r + 2), f).

Definition post_data_parser (ctx : post_data_ctx_t) (a : App) : cres (Z * App * post_data_ctx_t) :=
  '(ctx, f) ← (if POST_ET_VOID =? last_item_type ctx then first_boundary ctx a
               else Ret (ctx, Go (Pst a 0 (last_item_type ctx))));
  match f with
  | Go s => parse_loop (S (S (length buf))) ctx s
  | Return r a => Ret (r, a, ctx)
  | _ => Fault
  end.

End Parser.

(** ** A body with its elements *)

(** A field of a form: its name, the name and type of its file if it has one, its value. *)
Record field := Field { f_name : list Z; f_file : option (list Z * list Z); f_value : list Z }.

Definition field_text (b : list Z) (f : field) : list Z :=
  CONTENT_DFD ++ NAME_S ++ f_name f ++ [34] ++
  match f_file f with
  | Some (fn, ct) => FNAME_S ++ fn ++ [34] ++ CONTENT_TYPE_PREFIX ++ ct
  | None => []
  end ++ EMPTY_LINE ++ f_value f ++ CRLF ++ b.
Definition body (b : list Z) (fs : list field) : list Z := b ++ concat (field_text b <$> fs) ++ [45; 45; 13; 10].

(** What the callback should be told. *)
Definition field_events (b : list Z) (f : field) : list (Z * list Z) :=
  [(POST_ET_CONTENT_FORM_DATA, CONTENT_DFD); (POST_ET_NAME, f_name f)] ++
  match f_file f with Some (fn, ct) => [(POST_ET_FILENAME, fn); (POST_ET_CONTENT_TYPE, ct)] | None => [] end ++
  [(POST_ET_EMPTY_LINE, EMPTY_LINE); (POST_ET_VALUE, f_value f); (POST_ET_BOUNDARY, CRLF ++ b)].
Definition events (b : list Z) (fs : list field) : list (Z * list Z) :=
  [(POST_ET_BOUNDARY, b)] ++ concat (field_events b <$> fs) ++ [(POST_ET_FINISH, [45; 45; 13; 10])].

(** A callback that writes down what it is told. *)
Definition note (a : list (Z * list Z)) (et : Z) (v : list Z) : Z * list (Z * list Z) := (0, a ++ [(et, v)]).

Definition fresh_ctx : post_data_ctx_t := Ctx POST_ET_VOID (replicate 256 0) 0.

Definition demo_b : list Z := [45; 45; 45; 88; 89].
Definition demo_fields : list field := [Field [97] None [49; 50]; Field [98] (Some ([102], [116; 47; 112])) []].
Example demo_parse :
  let d := body demo_b demo_fields in
  post_data_parser note (d ++ replicate 17 0) (Z.of_nat (length d)) fresh_ctx []
  = Ret (0, events demo_b demo_fields, Ctx POST_ET_FINISH ([13; 10; 45; 45; 45; 88] ++ replicate 250 0) 6).
Proof. vm_compute. reflexivity. Qed.

(** ** Searching *)

Lemma find_sub_Some h n k : find_sub h n = Some k → n `prefix_of` drop k h ∧ (k + length n <= length h)%nat.
Proof.
  revert k. induction h as [|x h IH]; intros k; simpl.
  - case_decide as Hp; [|done]. intros [= <-]. split; [done|]. apply prefix_length in Hp. simpl in Hp. lia.
  - case_decide as Hp.
    + intros [= <-]. split; [done|]. apply prefix_length in Hp. simpl in Hp. lia.
    + intros (k' & E & ->)%fmap_Some. destruct (IH k' E) as [? ?]. split; [done|]. simpl. lia.
Qed.

(** A match is found at the same place when there is more behind. *)
Lemma find_sub_app h n k x : find_sub h n = Some k → find_sub (h ++ x) n = Some k.
Proof.
  revert k. induction h as [|y h IH]; intros k E.
  - simpl in E. case_decide as Hp; [|done]. injection E as <-. apply prefix_nil_inv in Hp as ->. simpl.
    by destruct x.
  - pose proof (find_sub_Some _ _ _ E) as [_ Hlen]. simpl in E |- *. case_decide as Hp.
    + injection E as <-. rewrite decide_True; [done|]. change (y :: h ++ x) with ((y :: h) ++ x). by apply prefix_app_r.
    + apply fmap_Some in E as (k' & E & ->). rewrite decide_False.
      * by rewrite (IH k' E).
      * intros [t Ht]. apply Hp. exists (take (length (y :: h) - length n) t).
        change (y :: h ++ x) with ((y :: h) ++ x) in Ht. apply (f_equal (take (length (y :: h)))) in Ht.
        rewrite take_app_length, take_app, (take_ge n) in Ht by (simpl in *; lia). done.
Qed.

(** The end of a line that has no carriage return in it. *)
Lemma find_crlf u x : 13 ∉ u → find_sub (u ++ CRLF ++ x) CRLF = Some (length u).
Proof.
  intros Hu. induction u as [|c u IH].
  - done.
  - cbn [app find_sub length]. rewrite decide_False.
    + rewrite IH by (intros H; apply Hu; by right). done.
    + intros [t Ht]. unfold CRLF in Ht. simpl in Ht. injection Ht as Hc _. apply Hu. rewrite Hc. left.
Qed.

(** ** No piece is read behind its end *)

Definition ctx_ok (ctx : post_data_ctx_t) : Prop :=
  Z.of_nat (length (boundary ctx)) = PDP_BOUNDARY_MAX ∧ 0 <= boundary_len ctx < PDP_BOUNDARY_MAX ∧
  POST_ET_VOID <= last_item_type ctx <= POST_ET_CONTENT_TYPE.

Lemma memmem_ok p n needle : 0 <= n <= Z.of_nat (length p) →
  c_memmem p n needle = Ret (Z.of_nat <$> find_sub (take (Z.to_nat n) p) needle) ∧
  ∀ k, find_sub (take (Z.to_nat n) p) needle = Some k → Z.of_nat k + Z.of_nat (length needle) <= n.
Proof.
  intros Hn. unfold c_memmem. rewrite decide_True by done. split; [done|]. intros k [_ Hk]%find_sub_Some.
  rewrite length_take in Hk. lia.
Qed.

Lemma slice_ok (buf : list Z) off n : 0 <= off → 0 <= n → off + n <= Z.of_nat (length buf) → ∃ v, slice buf off n = Ret v.
Proof.
  intros Ho Hn Hl. unfold slice, at_off. rewrite decide_True by lia. cbn [mbind cres_bind].
  rewrite length_drop, decide_True by lia. eauto.
Qed.

Lemma consume2_ok {App} (cb : App → Z → list Z → Z * App) (buf : list Z) et n off vn (s : @pst App) :
  0 <= off → 0 <= vn → off + vn <= Z.of_nat (length buf) →
  ∃ a r, CONSUME_ITEM2 cb buf et n off vn s = Ret (if negb (r =? 0) then Return (-1) a else Go (Pst a (p_i s + n) et)).
Proof.
  intros Ho Hn Hl. unfold CONSUME_ITEM2. destruct (slice_ok buf off vn Ho Hn Hl) as [v ->]. cbn [mbind cres_bind].
  destruct (cb (p_app s) et v) as [r a]. by exists a, r.
Qed.

Section Safe.
  Context {App : Type} (cb : App → Z → list Z → Z * App) (buf : list Z) (len : Z).
  Context (Hlen : 0 <= len) (Hroom : len + sizeof CONTENT_TYPE_PREFIX <= Z.of_nat (length buf)).

(** What a case of the switch may do at [i]. *)
Definition flow_ok (i : Z) (f : @flow App) : Prop :=
  match f with
  | Go s => i < p_i s <= len + 16 ∧ POST_ET_VOID <= p_type s <= POST_ET_CONTENT_TYPE
  | Ok s | Exx s => POST_ET_VOID <= p_type s <= POST_ET_CONTENT_TYPE
  | Return r _ => r = -1
  | Finish _ => True
  end.

Lemma consume2_flow et n off vn (s : @pst App) :
  0 <= off → 0 <= vn → off + vn <= Z.of_nat (length buf) → 0 < n → p_i s + n <= len + 16 →
  POST_ET_VOID <= et <= POST_ET_CONTENT_TYPE →
  ∃ f, CONSUME_ITEM2 cb buf et n off vn s = Ret f ∧ flow_ok (p_i s) f.
Proof.
  intros Ho Hv Hl Hn Hi Het. destruct (consume2_ok cb buf et n off vn s Ho Hv Hl) as (a & r & ->). eexists. split; [reflexivity|].
  destruct (negb (r =? 0)); simpl; [done|]. lia.
Qed.

Lemma stands_ok t i : 0 <= i → ∃ b, stands buf len t i = Ret b.
Proof.
  intros Hi. unfold stands. destruct (Z.leb_spec (Z.of_nat (length t)) (len - i)); [|eauto].
  unfold at_off. unfold sizeof in Hroom. rewrite decide_True by lia. cbn [mbind cres_bind].
  unfold c_memcmp. rewrite length_drop, decide_True by lia. cbn [mbind cres_bind]. eauto.
Qed.

Lemma name_end_ok fuel t :
  0 <= t → 0 < Z.of_nat fuel → len - t < Z.of_nat fuel →
  ∃ r, GET_NAME_END buf len fuel t = Ret r ∧ (r = -1 ∨ t <= r < len).
Proof.
  revert t. induction fuel as [|fuel IH]; intros t Ht Hf0 Hf; [lia|].
  - cbn [GET_NAME_END]. destruct (Z.ltb_spec t len); [|eauto]. unfold sizeof in Hroom.
    destruct (lookup_lt_is_Some_2 buf (Z.to_nat t)) as [c Hc]; [lia|].
    rewrite (proj2 (rd_Ret buf t c)) by (split; [lia|done]). cbn [mbind cres_bind].
    destruct (34 =? c); [exists t; split; [done|right; lia]|].
    destruct (IH (t + 1)) as (r & -> & Hr); [lia|lia|lia|]. exists r. split; [done|]. lia.
Qed.

Lemma quoted_ok et prefix s :
  0 <= p_i s → POST_ET_VOID <= et <= POST_ET_CONTENT_TYPE → POST_ET_VOID <= p_type s <= POST_ET_CONTENT_TYPE →
  ∃ f, quoted cb buf len et prefix s = Ret f ∧ flow_ok (p_i s) f.
Proof.
  intros Hi Het Hty. unfold quoted. unfold sizeof in Hroom.
  destruct (name_end_ok (S (length buf)) (p_i s + Z.of_nat (length prefix))) as (r & -> & Hr); [lia|lia|lia|].
  cbn [mbind cres_bind]. destruct (Z.leb_spec r 0); [eauto|]. apply consume2_flow; try lia.
Qed.

Lemma value_ok ctx s empty :
  ctx_ok ctx → 0 <= p_i s < len → POST_ET_VOID <= p_type s <= POST_ET_CONTENT_TYPE →
  ∃ f, value_item cb buf len ctx s empty = Ret f ∧ flow_ok (p_i s) f.
Proof.
  intros (Hb & Hbl & _) Hi Hty. unfold value_item. unfold sizeof in Hroom. change (length CONTENT_TYPE_PREFIX) with 16%nat in Hroom.
  unfold at_off at 1. rewrite decide_True by lia. cbn [mbind cres_bind].
  unfold slice, at_off. rewrite decide_True by lia. cbn [mbind cres_bind]. change (Z.to_nat 0) with 0%nat. rewrite drop_0, decide_True by lia.
  cbn [mbind cres_bind]. set (needle := take (Z.to_nat (boundary_len ctx)) (boundary ctx)).
  destruct (memmem_ok (drop (Z.to_nat (p_i s)) buf) (len - p_i s) needle) as [-> Hk]; [rewrite length_drop; lia|]. cbn [mbind cres_bind].
  assert (Hnl : Z.of_nat (length needle) = boundary_len ctx) by (unfold needle; rewrite length_take; lia).
  unfold PDP_BOUNDARY_MAX in *.
  destruct (find_sub _ needle) as [k|]; simpl.
  - specialize (Hk k eq_refl). rewrite Hnl in Hk.
    assert (Hthen : ∀ a i, p_i s <= i <= p_i s + Z.of_nat k →
      ∃ f, CONSUME_ITEM cb buf POST_ET_BOUNDARY (boundary_len ctx + 1) (Pst a i POST_ET_VALUE) = Ret f ∧ flow_ok (p_i s) f).
    { intros a i Hri. unfold CONSUME_ITEM. cbn [p_i].
      destruct (consume2_flow POST_ET_BOUNDARY (boundary_len ctx + 1) i (boundary_len ctx + 1) (Pst a i POST_ET_VALUE)) as (f & E & Hf); cbn [p_i]; try lia; [done|].
      exists f. split; [done|]. destruct f; simpl in *; try done. lia. }
    assert (Hval : ∀ n, 0 <= n <= Z.of_nat k → ∃ f,
      after (CONSUME_ITEM cb buf POST_ET_VALUE n s) (CONSUME_ITEM cb buf POST_ET_BOUNDARY (boundary_len ctx + 1)) = Ret f ∧ flow_ok (p_i s) f).
    { intros n Hn. unfold after. change (CONSUME_ITEM cb buf POST_ET_VALUE n s) with (CONSUME_ITEM2 cb buf POST_ET_VALUE n (p_i s) n s). destruct (consume2_ok cb buf POST_ET_VALUE n (p_i s) n s) as (a & r & ->); [lia..|].
      cbn [mbind cres_bind]. destruct (negb (r =? 0)); [eexists; by split|]. apply Hthen. lia. }
    destruct (Z.eqb_spec (Z.of_nat k) 0); [destruct empty|]; [apply Hval; lia| |apply Hval; lia].
    unfold CONSUME_ITEM. apply consume2_flow; try lia. done.
  - unfold CONSUME_ITEM. destruct (consume2_ok cb buf POST_ET_VALUE (len - p_i s) (p_i s) (len - p_i s) s) as (a & r & ->); [lia..|].
    cbn [mbind cres_bind]. destruct (negb (r =? 0)); eexists; (split; [reflexivity|]); done.
Qed.

Lemma filename_ok s :
  0 <= p_i s < len → POST_ET_VOID <= p_type s <= POST_ET_CONTENT_TYPE →
  ∃ f, case_filename cb buf len s = Ret f ∧ flow_ok (p_i s) f.
Proof.
  intros Hi Hty. unfold case_filename. unfold sizeof in *. change (length CONTENT_TYPE_PREFIX) with 16%nat in *.
  destruct (Z.ltb_spec (Z.of_nat 16 + 1) (len - p_i s)) as [Hl|Hl]; [|eexists; by split].
  destruct (stands_ok CONTENT_TYPE_PREFIX (p_i s)) as [b ->]; [lia|]. cbn [mbind cres_bind].
  destruct b; [|eexists; by split]. unfold at_off. rewrite decide_True by lia. cbn [mbind cres_bind].
  destruct (memmem_ok (drop (Z.to_nat (p_i s + (Z.of_nat 16 + 1))) buf) (len - p_i s) CRLF) as [-> Hk]; [rewrite length_drop; lia|].
  cbn [mbind cres_bind]. destruct (find_sub _ CRLF) as [k|]; [|eexists; by split]. specialize (Hk k eq_refl). simpl in Hk.
  cbn [fmap option_fmap option_map]. apply consume2_flow; try done; lia.
Qed.

Lemma switch_ok ctx s :
  ctx_ok ctx → 0 <= p_i s < len → POST_ET_VOID <= p_type s <= POST_ET_CONTENT_TYPE →
  ∃ f, switch cb buf len ctx s = Ret f ∧ flow_ok (p_i s) f.
Proof.
  intros Hc Hi Hty. unfold switch. pose proof Hroom as Hr. unfold sizeof in Hr. change (length CONTENT_TYPE_PREFIX) with 16%nat in Hr.
  assert (Hexx : ∃ f, Ret (Exx s) = Ret f ∧ flow_ok (p_i s) f) by (eexists; by split).
  assert (Heat : ∀ t et, (0 < length t <= 40)%nat → POST_ET_VOID <= et <= POST_ET_CONTENT_TYPE →
    ∃ f, (b ← stands buf len t (p_i s); if b : bool then CONSUME_ITEM cb buf et (Z.of_nat (length t)) s else Ret (Exx s)) = Ret f ∧ flow_ok (p_i s) f).
  { intros t et Ht Het. unfold stands. destruct (Z.leb_spec (Z.of_nat (length t)) (len - p_i s)) as [Hl|Hl]; [|done].
    unfold at_off. rewrite decide_True by lia. cbn [mbind cres_bind]. unfold c_memcmp. rewrite length_drop, decide_True by lia.
    cbn [mbind cres_bind]. destruct (_ =? 0); [|done]. unfold CONSUME_ITEM. apply consume2_flow; lia. }
  repeat match goal with |- context [if p_type s =? ?c then _ else _] => destruct (Z.eqb_spec (p_type s) c) end; try done.
  - eexists. by split.
  - by apply value_ok.
  - unfold case_boundary. destruct (stands_ok CONTENT_DFD (p_i s)) as [b E]; [lia|].
    destruct (Heat CONTENT_DFD POST_ET_CONTENT_FORM_DATA) as (f & Ef & Hf); [simpl; lia|done|]. rewrite E in Ef |- *.
    cbn [mbind cres_bind] in *. destruct b; [by exists f|]. destruct (Z.eqb_spec (len - p_i s) 4); [|done].
    destruct (slice_ok buf (p_i s) 4) as [v ->]; [lia..|]. cbn [mbind cres_bind]. case_decide; [eexists; by split|done].
  - destruct (stands_ok NAME_S (p_i s)) as [b ->]; [lia|]. cbn [mbind cres_bind]. destruct b; [|done]. by apply quoted_ok; [lia| |].
  - eexists. by split.
  - unfold case_name. destruct (stands_ok FNAME_S (p_i s)) as [b ->]; [lia|]. cbn [mbind cres_bind].
    destruct b; [by apply quoted_ok; [lia| |]|]. apply Heat; [simpl; lia|done].
  - by apply filename_ok.
  - by apply value_ok.
  - apply Heat; [simpl; lia|done].
Qed.

Lemma parse_loop_ok fuel ctx s :
  ctx_ok ctx → 0 <= p_i s → POST_ET_VOID <= p_type s <= POST_ET_CONTENT_TYPE → 0 < Z.of_nat fuel → len - p_i s < Z.of_nat fuel →
  ∃ r a ctx', parse_loop cb buf len fuel ctx s = Ret (r, a, ctx') ∧ (r = 0 ∨ r = -1) ∧ ctx_ok ctx'.
Proof.
  intros Hc. pose proof Hc as (Hb & Hbl & Hct). revert s. induction fuel as [|fuel IH]; intros s Hi Hty Hf0 Hf; [lia|]. cbn [parse_loop].
  destruct (Z.ltb_spec (p_i s) len) as [Hl|Hl].
  2:{ eexists _, _, _. split; [reflexivity|]. split; [by left|]. by split. }
  destruct (switch_ok ctx s Hc ltac:(lia) Hty) as (f & -> & Hfo). cbn [mbind cres_bind].
  destruct f as [s'|s'|s'|r a|a]; simpl in Hfo.
  - apply IH; lia.
  - eexists _, _, _. split; [reflexivity|]. split; [by left|]. by split.
  - eexists _, _, _. split; [reflexivity|]. split; [by right|]. by split.
  - eexists _, _, _. split; [reflexivity|]. split; [by right|done].
  - eexists _, _, _. split; [reflexivity|]. split; [by left|]. by split.
Qed.

End Safe.

Lemma locate_ok buf len :
  0 <= len <= Z.of_nat (length buf) →
  ∃ r, pdp_locate_boundary buf len = Ret r ∧ (r = -1 ∨ 0 < r ∧ r + 3 <= len ∧ r + 3 <= PDP_BOUNDARY_MAX).
Proof.
  intros Hl. unfold pdp_locate_boundary, PDP_BOUNDARY_MAX.
  set (max := if 256 <? len then 256 else len).
  assert (Hm : 0 <= max <= len ∧ max <= 256) by (unfold max; destruct (Z.ltb_spec 256 len); lia).
  destruct (memmem_ok buf max CRLF) as [-> Hk]; [lia|]. cbn [mbind cres_bind].
  destruct (find_sub _ CRLF) as [k|]; simpl; [|eauto]. specialize (Hk k eq_refl). simpl in Hk.
  eexists. split; [reflexivity|]. destruct (Z.leb_spec len (Z.of_nat k - 1)), (Z.leb_spec (Z.of_nat k - 1) 0); simpl; lia.
Qed.

Lemma first_boundary_ok {App} (cb : App → Z → list Z → Z * App) buf len ctx a :
  0 <= len <= Z.of_nat (length buf) → ctx_ok ctx →
  ∃ ctx' f, first_boundary cb buf len ctx a = Ret (ctx', f) ∧ ctx_ok ctx' ∧
    match f with
    | Go s => 0 <= p_i s ∧ POST_ET_VOID <= p_type s <= POST_ET_CONTENT_TYPE
    | Return r _ => r = -1
    | _ => False
    end.
Proof.
  intros Hl (Hb & Hbl & Ht). unfold first_boundary. destruct (locate_ok buf len Hl) as (r & -> & Hr). cbn [mbind cres_bind].
  unfold PDP_BOUNDARY_MAX in *. destruct (Z.leb_spec r 2); [eexists _, _; split; [reflexivity|]; by split|].
  destruct (Z.leb_spec 256 (r + 2)); [eexists _, _; split; [reflexivity|]; by split|]. cbn [orb].
  rewrite wr_Ret by lia. cbn [mbind cres_bind]. rewrite wr_Ret by (rewrite length_insert; lia). cbn [mbind cres_bind].
  unfold c_memcpy. rewrite !length_insert, decide_True by lia. cbn [mbind cres_bind].
  set (b := take _ _ ++ take _ _ ++ drop _ _).
  assert (Hlb : length b = length (boundary ctx)).
  { unfold b. rewrite !length_app, !length_take, length_drop, !length_insert. lia. }
  rewrite wr_Ret by lia. cbn [mbind cres_bind]. unfold CONSUME_ITEM. cbn [p_i].
  destruct (consume2_ok cb buf POST_ET_BOUNDARY (r + 1) 0 (r + 1) (Pst a 0 (last_item_type ctx))) as (a' & c & ->); [lia..|].
  cbn [mbind cres_bind]. eexists _, _. split; [reflexivity|]. split.
  - split; [|split]; cbn [boundary boundary_len last_item_type]; unfold PDP_BOUNDARY_MAX; [rewrite length_insert, Hlb; lia|lia|exact Ht].
  - destruct (negb (c =? 0)); [done|]. cbn [p_i p_type]. split; [lia|done].
Qed.

(** ** What is read of a body *)

Section Reads.
  Context (d pad : list Z).
  Local Notation buf := (d ++ pad).
  Local Notation len := (Z.of_nat (length d)).

(** The text [t] is what is left at [i]. *)
Definition left_at (i : Z) (t : list Z) : Prop := ∃ pre, d = pre ++ t ∧ i = Z.of_nat (length pre).

Lemma left_app i u t : left_at i (u ++ t) → left_at (i + Z.of_nat (length u)) t.
Proof. intros (pre & -> & ->). exists (pre ++ u). rewrite <- app_assoc, length_app. split; [done|lia]. Qed.

Lemma left_len i t : left_at i t → 0 <= i ∧ len - i = Z.of_nat (length t).
Proof. intros (pre & -> & ->). rewrite length_app. lia. Qed.

Lemma left_off i t : left_at i t → at_off buf i = Ret (t ++ pad).
Proof.
  intros (pre & E & ->). unfold at_off. rewrite decide_True by (rewrite E, !length_app; lia).
  rewrite E, Nat2Z.id, <- app_assoc, drop_app_length. done.
Qed.

Lemma left_slice i u v t : left_at i (u ++ v ++ t) →
  slice buf (i + Z.of_nat (length u)) (Z.of_nat (length v)) = Ret v.
Proof.
  intros Hl%left_app. unfold slice. rewrite (left_off _ _ Hl). cbn [mbind cres_bind].
  rewrite !length_app, decide_True by lia. by rewrite Nat2Z.id, <- app_assoc, take_app_length.
Qed.

Lemma left_slice0 i v t : left_at i (v ++ t) → slice buf i (Z.of_nat (length v)) = Ret v.
Proof. intros Hl. pose proof (left_slice i [] v t Hl) as E. cbn [length] in E. by rewrite Z.add_0_r in E. Qed.

Lemma left_slice_end i v n : left_at i v → n = Z.of_nat (length v) → slice buf i n = Ret v.
Proof.
  intros Hl ->. unfold slice. rewrite (left_off _ _ Hl). cbn [mbind cres_bind]. rewrite !length_app, decide_True by lia.
  by rewrite Nat2Z.id, take_app_length.
Qed.

Lemma stands_yes i t r : left_at i (t ++ r) → stands buf len t i = Ret true.
Proof.
  intros Hl. unfold stands. pose proof (left_len _ _ Hl) as [_ Hn]. rewrite length_app in Hn.
  destruct (Z.leb_spec (Z.of_nat (length t)) (len - i)); [|lia]. rewrite (left_off _ _ Hl). cbn [mbind cres_bind].
  unfold c_memcmp. rewrite !length_app, decide_True by lia. cbn [mbind cres_bind]. f_equal. apply Z.eqb_eq.
  apply memcmp_eq; [lia|rewrite !length_app; lia|]. rewrite !Nat2Z.id, <- app_assoc, take_app_length. by apply take_ge.
Qed.

Lemma stands_no i x y t r : left_at i (x :: r) → x ≠ y → stands buf len (y :: t) i = Ret false.
Proof.
  intros Hl Hne. unfold stands. pose proof (left_len _ _ Hl) as [_ Hn].
  destruct (Z.leb_spec (Z.of_nat (length (y :: t))) (len - i)) as [Hle|]; [|done]. rewrite (left_off _ _ Hl). cbn [mbind cres_bind].
  unfold c_memcmp. rewrite length_app, decide_True by lia. cbn [mbind cres_bind]. rewrite Nat2Z.id. simpl.
  destruct (Z.eqb_spec y x); [congruence|]. f_equal. destruct (Z.eqb_spec (y - x) 0); [lia|done].
Qed.

Lemma name_end_at fuel i u n r :
  left_at i (u ++ n ++ 34 :: r) → 34 ∉ n → (length n < fuel)%nat →
  GET_NAME_END buf len fuel (i + Z.of_nat (length u)) = Ret (i + Z.of_nat (length u) + Z.of_nat (length n)).
Proof.
  revert fuel u. induction n as [|c n IH]; intros fuel u Hl Hn Hf; (destruct fuel as [|fuel]; [simpl in Hf; lia|]); cbn [GET_NAME_END].
  - pose proof (left_app _ _ _ Hl) as Hl1. pose proof (left_len _ _ Hl1) as [Hp Hq]. simpl in Hq.
    destruct (Z.ltb_spec (i + Z.of_nat (length u)) len); [|lia].
    pose proof (left_off _ _ Hl1) as Ho. unfold at_off in Ho. case_decide as Hd; [|done]. injection Ho as Ho.
    rewrite (proj2 (rd_Ret buf (i + Z.of_nat (length u)) 34)); [cbn [mbind cres_bind]; simpl; f_equal; lia|].
    split; [lia|]. apply (f_equal (lookup 0%nat)) in Ho. rewrite lookup_drop, Nat.add_0_r in Ho. exact Ho.
  - pose proof (left_app _ _ _ Hl) as Hl1. pose proof (left_len _ _ Hl1) as [Hp Hq]. simpl in Hq.
    destruct (Z.ltb_spec (i + Z.of_nat (length u)) len); [|lia].
    pose proof (left_off _ _ Hl1) as Ho. unfold at_off in Ho. case_decide as Hd; [|done]. injection Ho as Ho.
    rewrite (proj2 (rd_Ret buf (i + Z.of_nat (length u)) c)).
    2:{ split; [lia|]. apply (f_equal (lookup 0%nat)) in Ho. rewrite lookup_drop, Nat.add_0_r in Ho. exact Ho. }
    cbn [mbind cres_bind]. destruct (Z.eqb_spec 34 c) as [<-|Hc]; [exfalso; apply Hn; left|].
    specialize (IH fuel (u ++ [c])). rewrite length_app in IH. simpl in IH, Hf.
    replace (i + Z.of_nat (length u) + 1) with (i + Z.of_nat (length u + 1)) by lia.
    rewrite IH; [f_equal; cbn [length]; lia| |intros H'; apply Hn; by right|lia]. by rewrite <- app_assoc.
Qed.

Lemma memmem_at i t needle : left_at i t →
  c_memmem (t ++ pad) (len - i) needle = Ret (Z.of_nat <$> find_sub t needle).
Proof.
  intros Hl. destruct (left_len _ _ Hl) as [_ ->]. unfold c_memmem. rewrite length_app, decide_True by lia.
  by rewrite Nat2Z.id, take_app_length.
Qed.

End Reads.

(** ** The body is read back *)

(** A value in which the boundary (all but its last character is compared) does not begin
    before its end. *)
Definition value_clear (b v : list Z) : Prop :=
  find_sub (v ++ CRLF ++ removelast b) (CRLF ++ removelast b) = Some (length v).
Definition field_ok (b : list Z) (f : field) : Prop :=
  34 ∉ f_name f ∧ value_clear b (f_value f) ∧
  match f_file f with Some (fn, ct) => 34 ∉ fn ∧ 13 ∉ ct ∧ ct ≠ [] | None => True end.
Definition boundary_ok (b : list Z) : Prop := 13 ∉ b ∧ (4 <= length b <= 254)%nat.

Section RoundTrip.
  Context (d pad b : list Z) (Hpad : (17 <= length pad)%nat) (Hb : boundary_ok b) (ctx : post_data_ctx_t).
  Context (Hctx : slice (boundary ctx) 0 (boundary_len ctx) = Ret (CRLF ++ removelast b)).
  Context (Hbl : boundary_len ctx = Z.of_nat (length b) + 1).
  Local Notation buf := (d ++ pad).
  Local Notation len := (Z.of_nat (length d)).
  Local Notation loop := (parse_loop note buf len).
  Local Notation St := (@Pst (list (Z * list Z))).

(** The loop comes from [s] to [s'] with at most one round for each byte. *)
Definition goes (s s' : @pst (list (Z * list Z))) : Prop :=
  ∃ n, Z.of_nat n <= p_i s' - p_i s ∧ ∀ fuel, loop (Nat.add n fuel) ctx s = loop fuel ctx s'.

Lemma goes_trans s1 s2 s3 : goes s1 s2 → goes s2 s3 → goes s1 s3.
Proof.
  intros (n & Hn & E1) (m & Hm & E2). exists (Nat.add n m). split; [lia|]. intros fuel.
  by rewrite <- Nat.add_assoc, E1, E2.
Qed.

Lemma goes_to s e p t e' p' : goes s (St e p t) → e = e' → p = p' → goes s (St e' p' t).
Proof. by intros H -> ->. Qed.

Lemma goes_step s s' : p_i s < len → p_i s < p_i s' → switch note buf len ctx s = Ret (Go s') → goes s s'.
Proof.
  intros Hl Hi E. exists 1%nat. split; [lia|]. intros fuel. cbn [Nat.add parse_loop].
  destruct (Z.ltb_spec (p_i s) len); [|lia]. by rewrite E.
Qed.

(** An item that begins with [t]. *)
Lemma goes_fixed a i ty et t r :
  left_at d i (t ++ r) → t ≠ [] →
  (switch note buf len ctx (St a i ty) = CONSUME_ITEM note buf et (Z.of_nat (length t)) (St a i ty)) →
  goes (St a i ty) (St (a ++ [(et, t)]) (i + Z.of_nat (length t)) et).
Proof.
  intros Hl Ht E. pose proof (left_len _ _ _ Hl) as [Hi Hn]. rewrite length_app in Hn.
  assert (Hpos : (0 < length t)%nat) by (destruct t; [done|simpl; lia]).
  apply goes_step; cbn [p_i]; [lia|lia|]. rewrite E. unfold CONSUME_ITEM, CONSUME_ITEM2. cbn [p_i p_app].
  rewrite (left_slice0 d pad i t r Hl). done.
Qed.

(** A quoted name behind [t]. *)
Lemma goes_quoted a i ty et t n r :
  left_at d i (t ++ n ++ 34 :: r) → 34 ∉ n → t ≠ [] →
  switch note buf len ctx (St a i ty) = quoted note buf len et t (St a i ty) →
  goes (St a i ty) (St (a ++ [(et, n)]) (i + Z.of_nat (length (t ++ n ++ [34]))) et).
Proof.
  intros Hl Hn Ht E. pose proof (left_len _ _ _ Hl) as [Hi Hd]. rewrite !length_app in Hd. simpl in Hd.
  assert (Hpos : (0 < length t)%nat) by (destruct t; [done|simpl; lia]).
  apply goes_step; cbn [p_i]; rewrite ?length_app; simpl; [lia|lia|]. rewrite E. unfold quoted. cbn [p_i].
  rewrite (name_end_at d pad _ i t n r Hl Hn) by (rewrite length_app; lia). cbn [mbind cres_bind].
  destruct (Z.leb_spec (i + Z.of_nat (length t) + Z.of_nat (length n)) 0); [lia|].
  unfold CONSUME_ITEM2. cbn [p_i p_app].
  replace (i + Z.of_nat (length t) + Z.of_nat (length n) - i - Z.of_nat (length t)) with (Z.of_nat (length n)) by lia.
  rewrite (left_slice d pad i t n (34 :: r)) by done. cbn [mbind cres_bind note]. simpl. do 3 f_equal. lia.
Qed.

Lemma goes_type a i ct r :
  left_at d i (CONTENT_TYPE_PREFIX ++ ct ++ EMPTY_LINE ++ r) → 13 ∉ ct → ct ≠ [] →
  goes (St a i POST_ET_FILENAME) (St (a ++ [(POST_ET_CONTENT_TYPE, ct)]) (i + 16 + Z.of_nat (length ct)) POST_ET_CONTENT_TYPE).
Proof.
  intros Hl Hct Hne. pose proof (left_len _ _ _ Hl) as [Hi Hn]. rewrite !length_app in Hn.
  change (length CONTENT_TYPE_PREFIX) with 16%nat in Hn. change (length EMPTY_LINE) with 4%nat in Hn.
  destruct ct as [|c ct]; [done|]. simpl (length (c :: ct)) in *.
  apply goes_step; cbn [p_i]; [lia|lia|]. unfold switch. cbn [p_type]. simpl (_ =? _). cbv iota.
  unfold case_filename. cbn [p_i]. change (sizeof CONTENT_TYPE_PREFIX) with 17.
  destruct (Z.ltb_spec 17 (len - i)); [|lia]. rewrite (stands_yes d pad i CONTENT_TYPE_PREFIX _ Hl). cbn [mbind cres_bind].
  pose proof (left_app d i (CONTENT_TYPE_PREFIX ++ [c]) (ct ++ EMPTY_LINE ++ r)) as Hl2.
  rewrite <- app_assoc in Hl2. specialize (Hl2 Hl). rewrite length_app in Hl2. change (Z.of_nat (length CONTENT_TYPE_PREFIX + length [c])) with 17 in Hl2.
  rewrite (left_off d pad _ _ Hl2). cbn [mbind cres_bind].
  assert (Hf : ∀ x, find_sub (ct ++ CRLF ++ x) CRLF = Some (length ct)) by (intros x; apply find_crlf; intros H'; apply Hct; by right).
  assert (E : c_memmem ((ct ++ EMPTY_LINE ++ r) ++ pad) (len - i) CRLF = Ret (Some (Z.of_nat (length ct)))).
  { unfold c_memmem. rewrite !length_app, decide_True by (change (length EMPTY_LINE) with 4%nat; lia).
    replace (take (Z.to_nat (len - i)) ((ct ++ EMPTY_LINE ++ r) ++ pad)) with
      (ct ++ CRLF ++ CRLF ++ r ++ take 17 pad).
    - by rewrite Hf.
    - rewrite take_app, (take_ge (ct ++ EMPTY_LINE ++ r)) by (rewrite !length_app; change (length EMPTY_LINE) with 4%nat; lia).
      replace (Z.to_nat (len - i) - length (ct ++ EMPTY_LINE ++ r))%nat with 17%nat
        by (rewrite !length_app; change (length EMPTY_LINE) with 4%nat; lia).
      by rewrite <- !app_assoc. }
  rewrite E. cbn [mbind cres_bind]. unfold CONSUME_ITEM2. cbn [p_i p_app].
  replace (i + 17 - 1) with (i + Z.of_nat (length CONTENT_TYPE_PREFIX)) by (change (length CONTENT_TYPE_PREFIX) with 16%nat; lia).
  replace (17 + Z.of_nat (length ct) - (17 - 1)) with (Z.of_nat (length (c :: ct))) by (simpl length; lia).
  rewrite (left_slice d pad i CONTENT_TYPE_PREFIX (c :: ct) (EMPTY_LINE ++ r) Hl). cbn [mbind cres_bind note]. simpl.
  do 3 f_equal. lia.
Qed.

Lemma b_split : ∃ z, b = removelast b ++ [z].
Proof.
  destruct Hb as [_ Hl]. destruct b as [|x b'] eqn:E; [simpl in Hl; lia|]. exists (List.last (x :: b') 0).
  by apply app_removelast_last.
Qed.

Lemma goes_value a i v r :
  left_at d i (v ++ CRLF ++ b ++ r) → value_clear b v →
  goes (St a i POST_ET_EMPTY_LINE)
    (St (a ++ [(POST_ET_VALUE, v); (POST_ET_BOUNDARY, CRLF ++ b)]) (i + Z.of_nat (length (v ++ CRLF ++ b))) POST_ET_BOUNDARY).
Proof.
  intros Hl Hv. pose proof (left_len _ _ _ Hl) as [Hi Hn]. rewrite !length_app in Hn. destruct Hb as [_ Hbb].
  change (length CRLF) with 2%nat in Hn. destruct b_split as [z Hz].
  apply goes_step; cbn [p_i]; rewrite ?length_app; change (length CRLF) with 2%nat; [lia|lia|].
  unfold switch. cbn [p_type]. simpl (_ =? _). cbv iota. unfold value_item. cbn [p_i].
  rewrite (left_off d pad i _ Hl). cbn [mbind cres_bind]. rewrite Hctx. cbn [mbind cres_bind].
  rewrite (memmem_at d pad i _ _ Hl). cbn [mbind cres_bind].
  assert (E : find_sub (v ++ CRLF ++ b ++ r) (CRLF ++ removelast b) = Some (length v)).
  { replace (v ++ CRLF ++ b ++ r) with ((v ++ CRLF ++ removelast b) ++ [z] ++ r); [by apply find_sub_app|].
    rewrite Hz at 2. by rewrite <- !app_assoc. }
  rewrite E. simpl (Z.of_nat <$> _). cbv iota.
  assert (Hbnd : ∀ a', CONSUME_ITEM note buf POST_ET_BOUNDARY (boundary_len ctx + 1) (St a' (i + Z.of_nat (length v)) POST_ET_VALUE)
    = Ret (Go (St (a' ++ [(POST_ET_BOUNDARY, CRLF ++ b)]) (i + Z.of_nat (length v) + (boundary_len ctx + 1)) POST_ET_BOUNDARY))).
  { intros a'. unfold CONSUME_ITEM, CONSUME_ITEM2. cbn [p_i p_app].
    replace (boundary_len ctx + 1) with (Z.of_nat (length (CRLF ++ b))) by (rewrite length_app; simpl length; lia).
    pose proof (left_slice d pad i v (CRLF ++ b) r) as Es. rewrite <- app_assoc in Es. by rewrite (Es Hl). }
  assert (Hval : CONSUME_ITEM note buf POST_ET_VALUE (Z.of_nat (length v)) (St a i POST_ET_EMPTY_LINE)
    = Ret (Go (St (a ++ [(POST_ET_VALUE, v)]) (i + Z.of_nat (length v)) POST_ET_VALUE))).
  { unfold CONSUME_ITEM, CONSUME_ITEM2. cbn [p_i p_app]. by rewrite (left_slice0 d pad i v _ Hl). }
  assert (Hend : after (CONSUME_ITEM note buf POST_ET_VALUE (Z.of_nat (length v)) (St a i POST_ET_EMPTY_LINE))
      (CONSUME_ITEM note buf POST_ET_BOUNDARY (boundary_len ctx + 1))
    = Ret (Go (St (a ++ [(POST_ET_VALUE, v); (POST_ET_BOUNDARY, CRLF ++ b)]) (i + Z.of_nat (length v + (2 + length b))) POST_ET_BOUNDARY))).
  { unfold after. rewrite Hval. cbn [mbind cres_bind]. rewrite Hbnd, <- app_assoc. do 3 f_equal. lia. }
  destruct (Z.eqb_spec (Z.of_nat (length v)) 0) as [H0|H0]; [rewrite H0 in Hend|]; exact Hend.
Qed.

Lemma goes_empty_line a i ty r :
  left_at d i (EMPTY_LINE ++ r) → ty = POST_ET_NAME ∨ ty = POST_ET_CONTENT_TYPE →
  goes (St a i ty) (St (a ++ [(POST_ET_EMPTY_LINE, EMPTY_LINE)]) (i + 4) POST_ET_EMPTY_LINE).
Proof.
  intros Hl Hty. apply (goes_fixed a i ty POST_ET_EMPTY_LINE EMPTY_LINE r Hl); [done|].
  destruct Hty as [-> | ->]; unfold switch; cbn [p_type]; simpl (_ =? _); cbv iota.
  - unfold case_name. cbn [p_i]. unfold FNAME_S. rewrite (stands_no d pad i 13 59 _ _ Hl) by done. cbn [mbind cres_bind].
    by rewrite (stands_yes d pad i EMPTY_LINE _ Hl).
  - cbn [p_i]. by rewrite (stands_yes d pad i EMPTY_LINE _ Hl).
Qed.

(** The empty line and the value. *)
Lemma goes_content a i ty v r :
  left_at d i (EMPTY_LINE ++ v ++ CRLF ++ b ++ r) → ty = POST_ET_NAME ∨ ty = POST_ET_CONTENT_TYPE → value_clear b v →
  goes (St a i ty) (St (a ++ [(POST_ET_EMPTY_LINE, EMPTY_LINE); (POST_ET_VALUE, v); (POST_ET_BOUNDARY, CRLF ++ b)])
                      (i + Z.of_nat (length (EMPTY_LINE ++ v ++ CRLF ++ b))) POST_ET_BOUNDARY).
Proof.
  intros Hl Hty Hv. eapply goes_trans; [by apply (goes_empty_line a i ty _ Hl)|].
  pose proof (left_app d i EMPTY_LINE _ Hl) as Hl1. pose proof (goes_value (a ++ [(POST_ET_EMPTY_LINE, EMPTY_LINE)]) _ v r Hl1 Hv) as G.
  rewrite <- app_assoc in G. change (Z.of_nat (length EMPTY_LINE)) with 4 in G.
  replace (i + Z.of_nat (length (EMPTY_LINE ++ v ++ CRLF ++ b))) with (i + 4 + Z.of_nat (length (v ++ CRLF ++ b))); [exact G|].
  rewrite (length_app EMPTY_LINE). change (length EMPTY_LINE) with 4%nat. lia.
Qed.

(** The disposition and the name. *)
Lemma goes_name a i n r :
  left_at d i (CONTENT_DFD ++ NAME_S ++ n ++ 34 :: r) → 34 ∉ n →
  goes (St a i POST_ET_BOUNDARY)
    (St (a ++ [(POST_ET_CONTENT_FORM_DATA, CONTENT_DFD); (POST_ET_NAME, n)])
       (i + Z.of_nat (length (CONTENT_DFD ++ NAME_S ++ n ++ [34]))) POST_ET_NAME).
Proof.
  intros Hl Hn. pose proof (left_app d i CONTENT_DFD _ Hl) as Hl1. eapply goes_trans.
  { apply (goes_fixed a i POST_ET_BOUNDARY POST_ET_CONTENT_FORM_DATA CONTENT_DFD _ Hl); [done|].
    unfold switch. cbn [p_type]. simpl (_ =? _). cbv iota. unfold case_boundary. cbn [p_i].
    by rewrite (stands_yes d pad i CONTENT_DFD _ Hl). }
  assert (G : goes (St (a ++ [(POST_ET_CONTENT_FORM_DATA, CONTENT_DFD)]) (i + Z.of_nat (length CONTENT_DFD)) POST_ET_CONTENT_FORM_DATA)
    (St ((a ++ [(POST_ET_CONTENT_FORM_DATA, CONTENT_DFD)]) ++ [(POST_ET_NAME, n)])
       (i + Z.of_nat (length CONTENT_DFD) + Z.of_nat (length (NAME_S ++ n ++ [34]))) POST_ET_NAME)).
  { apply (goes_quoted _ _ POST_ET_CONTENT_FORM_DATA POST_ET_NAME NAME_S n r Hl1); [done|done|].
    unfold switch. cbn [p_type]. simpl (_ =? _). cbv iota. cbn [p_i]. by rewrite (stands_yes d pad _ NAME_S _ Hl1). }
  rewrite <- app_assoc in G. rewrite (length_app CONTENT_DFD), Nat2Z.inj_add, Z.add_assoc. exact G.
Qed.

(** The name and the type of a file. *)
Lemma goes_file a i fn ct r :
  left_at d i (FNAME_S ++ fn ++ 34 :: CONTENT_TYPE_PREFIX ++ ct ++ EMPTY_LINE ++ r) → 34 ∉ fn → 13 ∉ ct → ct ≠ [] →
  goes (St a i POST_ET_NAME)
    (St (a ++ [(POST_ET_FILENAME, fn); (POST_ET_CONTENT_TYPE, ct)])
       (i + Z.of_nat (length (FNAME_S ++ fn ++ [34] ++ CONTENT_TYPE_PREFIX ++ ct))) POST_ET_CONTENT_TYPE).
Proof.
  intros Hl Hfn Hct Hne. eapply goes_trans.
  { apply (goes_quoted a i POST_ET_NAME POST_ET_FILENAME FNAME_S fn _ Hl); [done|done|].
    unfold switch. cbn [p_type]. simpl (_ =? _). cbv iota. unfold case_name. cbn [p_i].
    by rewrite (stands_yes d pad _ FNAME_S _ Hl). }
  pose proof (left_app d i (FNAME_S ++ fn ++ [34]) (CONTENT_TYPE_PREFIX ++ ct ++ EMPTY_LINE ++ r)) as Hl1.
  rewrite <- !app_assoc in Hl1. specialize (Hl1 Hl).
  pose proof (goes_type (a ++ [(POST_ET_FILENAME, fn)]) _ ct r Hl1 Hct Hne) as G. rewrite <- app_assoc in G.
  replace (i + Z.of_nat (length (FNAME_S ++ fn ++ [34] ++ CONTENT_TYPE_PREFIX ++ ct))) with
    (i + Z.of_nat (length (FNAME_S ++ fn ++ [34])) + 16 + Z.of_nat (length ct)); [exact G|].
  rewrite !length_app. change (length CONTENT_TYPE_PREFIX) with 16%nat. lia.
Qed.

Lemma goes_field a i f r :
  left_at d i (field_text b f ++ r) → field_ok b f →
  goes (St a i POST_ET_BOUNDARY) (St (a ++ field_events b f) (i + Z.of_nat (length (field_text b f))) POST_ET_BOUNDARY).
Proof.
  destruct f as [n file v]. unfold field_text, field_events, field_ok. cbn [f_name f_file f_value].
  intros Hl (Hn & Hv & Hf). rewrite <- !app_assoc in Hl.
  pose proof (left_app d i (CONTENT_DFD ++ NAME_S ++ n ++ [34])) as Hl1. setoid_rewrite <- app_assoc in Hl1.
  setoid_rewrite <- app_assoc in Hl1. setoid_rewrite <- app_assoc in Hl1. specialize (Hl1 _ Hl).
  eapply goes_trans; [exact (goes_name a i n _ Hl Hn)|]. destruct file as [[fn ct]|].
  - destruct Hf as (Hfn & Hct & Hne). rewrite <- !app_assoc in Hl1.
    eapply goes_trans; [exact (goes_file _ _ fn ct _ Hl1 Hfn Hct Hne)|].
    pose proof (left_app d (i + Z.of_nat (length (CONTENT_DFD ++ NAME_S ++ n ++ [34]))) (FNAME_S ++ fn ++ [34] ++ CONTENT_TYPE_PREFIX ++ ct)
      (EMPTY_LINE ++ v ++ CRLF ++ b ++ r)) as Hl2.
    rewrite <- !app_assoc in Hl2. specialize (Hl2 Hl1).
    eapply goes_to; [exact (goes_content _ _ POST_ET_CONTENT_TYPE v r Hl2 ltac:(by right) Hv)| |].
    + by rewrite <- !app_assoc.
    + rewrite !length_app. lia.
  - eapply goes_to; [exact (goes_content _ _ POST_ET_NAME v r Hl1 ltac:(by left) Hv)| |].
    + by rewrite <- !app_assoc.
    + rewrite !length_app. simpl (length []). lia.
Qed.

Lemma goes_fields a i fs r :
  left_at d i (concat (field_text b <$> fs) ++ r) → Forall (field_ok b) fs →
  goes (St a i POST_ET_BOUNDARY)
    (St (a ++ concat (field_events b <$> fs)) (i + Z.of_nat (length (concat (field_text b <$> fs)))) POST_ET_BOUNDARY).
Proof.
  revert a i. induction fs as [|f fs IH]; intros a i Hl Hfs; cbn [fmap list_fmap concat].
  - rewrite app_nil_r. simpl length. rewrite Z.add_0_r. exists 0%nat. split; [cbn [p_i]; lia|done].
  - apply Forall_cons in Hfs as [Hf Hfs]. simpl in Hl. rewrite <- app_assoc in Hl.
    eapply goes_trans; [exact (goes_field a i f _ Hl Hf)|]. pose proof (left_app d i (field_text b f) _ Hl) as Hl1.
    eapply goes_to; [exact (IH (a ++ field_events b f) _ Hl1 Hfs)|by rewrite <- app_assoc|].
    rewrite (length_app (field_text b f)). lia.
Qed.

(** The end of the body. *)
Lemma loop_finish fuel a i :
  left_at d i [45; 45; 13; 10] →
  loop (S fuel) ctx (St a i POST_ET_BOUNDARY)
  = Ret (0, a ++ [(POST_ET_FINISH, [45; 45; 13; 10])], set_type POST_ET_FINISH ctx).
Proof.
  intros Hl. pose proof (left_len _ _ _ Hl) as [Hi Hn]. simpl in Hn. cbn [parse_loop p_i].
  destruct (Z.ltb_spec i len); [|lia]. unfold switch. cbn [p_type]. simpl (_ =? _). cbv iota. unfold case_boundary. cbn [p_i].
  assert (E : stands buf len CONTENT_DFD i = Ret false).
  { unfold stands. rewrite Hn. done. }
  rewrite E. cbn [mbind cres_bind]. rewrite Hn. simpl (4 =? 4). cbv iota. rewrite (left_slice_end d pad i _ 4 Hl) by done.
  cbn [mbind cres_bind]. rewrite decide_True by done. done.
Qed.

End RoundTrip.

(** The first line is recorded. *)
Lemma first_boundary_at b t pad bd l a :
  boundary_ok b → (17 <= length pad)%nat → Z.of_nat (length bd) = PDP_BOUNDARY_MAX →
  let d := b ++ CRLF ++ t in
  ∃ bd', first_boundary note (d ++ pad) (Z.of_nat (length d)) (Ctx POST_ET_VOID bd l) a
      = Ret (Ctx POST_ET_VOID bd' (Z.of_nat (length b) + 1), Go (Pst (a ++ [(POST_ET_BOUNDARY, b)]) (Z.of_nat (length b)) POST_ET_BOUNDARY)) ∧
    slice bd' 0 (Z.of_nat (length b) + 1) = Ret (CRLF ++ removelast b).
Proof.
  intros [Hcr Hlb] Hpad Hbd d. unfold PDP_BOUNDARY_MAX in Hbd.
  assert (Hd : length d = (length b + 2 + length t)%nat) by (unfold d; rewrite !length_app; simpl; lia).
  assert (El : pdp_locate_boundary (d ++ pad) (Z.of_nat (length d)) = Ret (Z.of_nat (length b) - 1)).
  { unfold pdp_locate_boundary, PDP_BOUNDARY_MAX. set (max := if _ <? _ then _ else _).
    assert (Hm : Z.of_nat (length b) + 2 <= max <= Z.of_nat (length d)) by (unfold max; destruct (Z.ltb_spec 256 (Z.of_nat (length d))); lia).
    unfold c_memmem. rewrite decide_True by (rewrite length_app; lia). cbn [mbind cres_bind].
    replace (take (Z.to_nat max) (d ++ pad)) with (b ++ CRLF ++ take (Z.to_nat max - length b - 2) (t ++ pad)).
    - rewrite find_crlf by done. simpl. destruct (Z.leb_spec (Z.of_nat (length d)) (Z.of_nat (length b) - 1)), (Z.leb_spec (Z.of_nat (length b) - 1) 0); simpl; try lia. done.
    - unfold d. rewrite <- !app_assoc. rewrite (take_app_ge b (CRLF ++ t ++ pad)) by lia. f_equal.
      rewrite (take_app_ge CRLF (t ++ pad)) by (simpl; lia). f_equal. }
  unfold first_boundary. rewrite El. cbn [mbind cres_bind boundary last_item_type]. unfold PDP_BOUNDARY_MAX.
  destruct (Z.leb_spec (Z.of_nat (length b) - 1) 2); [lia|]. destruct (Z.leb_spec 256 (Z.of_nat (length b) - 1 + 2)); [lia|]. cbn [orb].
  rewrite wr_Ret by lia. cbn [mbind cres_bind]. rewrite wr_Ret by (rewrite length_insert; lia). cbn [mbind cres_bind].
  unfold c_memcpy. rewrite !length_insert, decide_True by (rewrite length_app; lia). cbn [mbind cres_bind].
  destruct bd as [|x [|y bd]]; [simpl in Hbd; lia..|]. simpl length in Hbd.
  change (<[Z.to_nat 1 := 10]> (<[Z.to_nat 0 := 13]> (x :: y :: bd))) with (13 :: 10 :: bd).
  change (take (Z.to_nat 2) (13 :: 10 :: bd)) with CRLF.
  replace (take (Z.to_nat (Z.of_nat (length b) - 1)) (d ++ pad)) with (removelast b).
  2:{ unfold d. rewrite <- app_assoc, take_app_le by lia. rewrite removelast_firstn_len. f_equal. lia. }
  assert (Hrl : length (removelast b) = (length b - 1)%nat) by (rewrite removelast_firstn_len, length_take; lia).
  rewrite wr_Ret by (rewrite !length_app, length_drop; simpl length; lia). cbn [mbind cres_bind].
  unfold CONSUME_ITEM, CONSUME_ITEM2. cbn [p_i p_app].
  replace (Z.of_nat (length b) - 1 + 1) with (Z.of_nat (length b)) by lia.
  rewrite (left_slice0 d pad 0 b (CRLF ++ t)) by (by exists []). cbn [mbind cres_bind note]. simpl negb. cbv iota.
  replace (Z.of_nat (length b) - 1 + 2) with (Z.of_nat (length b) + 1) by lia. eexists. split; [reflexivity|].
  unfold slice, at_off. rewrite decide_True by lia. cbn [mbind cres_bind]. change (Z.to_nat 0) with 0%nat. rewrite drop_0.
  rewrite length_insert, decide_True by (rewrite !length_app, length_drop; simpl length; lia).
  rewrite take_insert_ge by lia. rewrite app_assoc, take_app_le by (rewrite length_app; simpl; lia). f_equal. apply take_ge. rewrite length_app. simpl. lia.
Qed.

(** ** What a callback keeps *)

Definition flow_app {App} (f : @flow App) : App :=
  match f with Go s | Ok s | Exx s => p_app s | Return _ a | Finish a => a end.

(** What every call keeps, the parser keeps. *)
Section Keep.
  Context {App : Type} (cb : App → Z → list Z → Z * App) (buf : list Z) (len : Z) (P : App → Prop).
  Context (Hcb : ∀ a et v, P a → Forall is_byte v → P (cb a et v).2) (Hbuf : Forall is_byte buf).
  Implicit Types (s : @pst App) (f : @flow App) (m : cres (@flow App)).

Definition keeps m : Prop := ∀ f, m = Ret f → P (flow_app f).

Lemma keeps_bind {A} (k : cres A) (m : A → cres (@flow App)) : (∀ x, k = Ret x → keeps (m x)) → keeps (k ≫= m).
Proof. intros H f (x & E & E')%cres_bind_Ret. by eapply H. Qed.

Lemma keeps_ret f : P (flow_app f) → keeps (Ret f).
Proof. by intros H ? [= <-]. Qed.

Lemma slice_bytes off n v : slice buf off n = Ret v → Forall is_byte v.
Proof.
  unfold slice, at_off. case_decide; [|done]. cbn [mbind cres_bind]. case_decide; [|done]. intros [= <-]. by apply Forall_take, Forall_drop.
Qed.

Lemma keeps_consume2 et n off vn s : P (p_app s) → keeps (CONSUME_ITEM2 cb buf et n off vn s).
Proof.
  intros Hs. apply keeps_bind. intros v Hv. pose proof (Hcb (p_app s) et v Hs (slice_bytes _ _ _ Hv)) as H.
  destruct (cb (p_app s) et v) as [r a]. apply keeps_ret. by destruct (negb (r =? 0)).
Qed.

Lemma keeps_after m (k : pst → cres flow) : keeps m → (∀ s, P (p_app s) → keeps (k s)) → keeps (after m k).
Proof.
  intros Hm Hk. apply keeps_bind. intros r Hr. pose proof (Hm r Hr) as H. destruct r; try by apply keeps_ret. by apply Hk.
Qed.

Lemma keeps_quoted et p s : P (p_app s) → keeps (quoted cb buf len et p s).
Proof.
  intros Hs. apply keeps_bind. intros e _. destruct (e <=? 0); [by apply keeps_ret|by apply keeps_consume2].
Qed.

Lemma keeps_value ctx s b : P (p_app s) → keeps (value_item cb buf len ctx s b).
Proof.
  intros Hs. do 3 (apply keeps_bind; intros ? _).
  pose proof (fun n s => keeps_consume2 POST_ET_BOUNDARY n (p_i s) n s) as Hbd. pose proof (fun n => keeps_consume2 POST_ET_VALUE n (p_i s) n s Hs) as Hv.
  destruct x1 as [e|]; [destruct (e =? 0); [destruct b|]|].
  - apply keeps_after; [apply Hv|intros s' Hs'; by apply Hbd].
  - by apply Hbd.
  - apply keeps_after; [apply Hv|intros s' Hs'; by apply Hbd].
  - apply keeps_bind. intros r Hr. pose proof (Hv _ r Hr). by destruct r; apply keeps_ret.
Qed.

Lemma keeps_switch ctx s : P (p_app s) → keeps (switch cb buf len ctx s).
Proof.
  intros Hs. unfold switch, case_boundary, case_name, case_filename, CONSUME_ITEM.
  repeat first [by apply keeps_ret|by apply keeps_value|by apply keeps_quoted|by apply keeps_consume2|apply keeps_ret; apply Hcb; [done|by eapply slice_bytes]|case_match|apply keeps_bind; intros ? ?].
Qed.

Lemma keeps_loop fuel ctx s r a ctx' : parse_loop cb buf len fuel ctx s = Ret (r, a, ctx') → P (p_app s) → P a.
Proof.
  revert s. induction fuel as [|fuel IH]; intros s; [done|]. cbn [parse_loop]. destruct (p_i s <? len); [|by intros [= <- <- <-]].
  intros (f & Hf & H)%cres_bind_Ret Hs. pose proof (keeps_switch ctx s Hs f Hf) as Hp. destruct f; cbn [flow_app] in Hp.
  - by apply (IH _ H).
  - by injection H as <- <- <-.
  - injection H as <- <- <-. by apply Hcb.
  - by injection H as <- <- <-.
  - by injection H as <- <- <-.
Qed.

Lemma keeps_parser ctx a r a' ctx' : post_data_parser cb buf len ctx a = Ret (r, a', ctx') → P a → P a'.
Proof.
  intros H Ha. unfold post_data_parser in H. apply cres_bind_Ret in H as ([c f] & Hf & H).
  assert (Hp : P (flow_app f)).
  { destruct (POST_ET_VOID =? last_item_type ctx); [|by injection Hf as <- <-]. unfold first_boundary in Hf.
    apply cres_bind_Ret in Hf as (n & _ & Hf). destruct ((n <=? 2) || (PDP_BOUNDARY_MAX <=? n + 2)); [by injection Hf as <- <-|].
    do 4 (apply cres_bind_Ret in Hf as (? & _ & Hf)). apply cres_bind_Ret in Hf as (f' & Hf' & [= <- <-]).
    by eapply (keeps_consume2 POST_ET_BOUNDARY (n + 1) 0 (n + 1) (Pst a 0 (last_item_type ctx)) Ha). }
  destruct f; try done; [by eapply keeps_loop|by injection H as <- <- <-].
Qed.
End Keep.

(** ** Any callback that accepts is told what [note] writes down *)
Section Told.
  Context {App : Type} (cb : App → Z → list Z → Z * App) (buf : list Z) (len : Z) (a0 : App) (E : list (Z * list Z)).
  Local Notation npst := (@pst (list (Z * list Z))).
  Local Notation nflow := (@flow (list (Z * list Z))).

(** What the callback keeps after the elements [e]. *)
Definition acc (e : list (Z * list Z)) : App := foldl (fun a x => (cb a x.1 x.2).2) a0 e.

Context (Hok : ∀ e et v, (e ++ [(et, v)]) `prefix_of` E → et ≠ POST_ET_FINISH → et ≠ POST_ET_ERROR → (cb (acc e) et v).1 = 0).

Lemma acc_snoc e et v : acc (e ++ [(et, v)]) = (cb (acc e) et v).2.
Proof. unfold acc. by rewrite foldl_snoc. Qed.

Definition lift (s : npst) : @pst App := Pst (acc (p_app s)) (p_i s) (p_type s).
Definition lift_flow (f : nflow) : @flow App :=
  match f with
  | Go s => Go (lift s) | Ok s => Ok (lift s) | Exx s => Exx (lift s)
  | Return r e => Return r (acc e) | Finish e => Finish (acc e)
  end.

(** [m'] does what [m] does, as long as what [m] writes down begins [E]. *)
Definition sim (e : list (Z * list Z)) (m : cres nflow) (m' : cres (@flow App)) : Prop :=
  ∀ f, m = Ret f → e `prefix_of` flow_app f ∧ (flow_app f `prefix_of` E → m' = Ret (lift_flow f)).

Lemma sim_ret f : sim (flow_app f) (Ret f) (Ret (lift_flow f)).
Proof. by intros ? [= <-]. Qed.

Lemma sim_bind {A} e (k : cres A) (m : A → cres nflow) (m' : A → cres flow) : (∀ x, sim e (m x) (m' x)) → sim e (k ≫= m) (k ≫= m').
Proof. intros H f (x & -> & Hx)%cres_bind_Ret. cbn [mbind cres_bind]. by apply H. Qed.

Lemma sim_consume2 et n off vn s : et ≠ POST_ET_FINISH → et ≠ POST_ET_ERROR →
  sim (p_app s) (CONSUME_ITEM2 note buf et n off vn s) (CONSUME_ITEM2 cb buf et n off vn (lift s)).
Proof.
  intros H1 H2. apply sim_bind. intros v f [= <-]. cbn [note flow_app p_app]. split; [by eexists|]. intros Hpre.
  pose proof (Hok _ _ _ Hpre H1 H2) as Hr. cbn [lift p_app]. destruct (cb (acc (p_app s)) et v) as [r a] eqn:Ec. simpl in Hr. subst r.
  simpl. unfold lift. cbn [p_app p_i p_type]. by rewrite acc_snoc, Ec.
Qed.

Lemma sim_after e m m' k k' : sim e m m' → (∀ s, sim (p_app s) (k s) (k' (lift s))) → sim e (after m k) (after m' k').
Proof.
  intros Hm Hk f (r & Hr & H)%cres_bind_Ret. destruct (Hm r Hr) as [He Hm']. destruct r as [s|s|s|r a|a];
    [|injection H as <-; split; [done|]; intros Hp; unfold after; by rewrite (Hm' Hp)..].
  destruct (Hk s f H) as [Hs Hk']. split; [by etrans|]. intros Hp. unfold after. rewrite Hm' by (by etrans). cbn [mbind cres_bind lift_flow]. by apply Hk'.
Qed.

Lemma sim_quoted et p s : et ≠ POST_ET_FINISH → et ≠ POST_ET_ERROR →
  sim (p_app s) (quoted note buf len et p s) (quoted cb buf len et p (lift s)).
Proof.
  intros H1 H2. apply sim_bind. intros x. cbn [lift p_i]. destruct (x <=? 0); [apply (sim_ret (Exx s))|by apply sim_consume2].
Qed.

Lemma sim_value ctx s b : sim (p_app s) (value_item note buf len ctx s b) (value_item cb buf len ctx (lift s) b).
Proof.
  do 3 (apply sim_bind; intros ?). cbn [lift p_i].
  assert (Hbd : ∀ n s, sim (p_app s) (CONSUME_ITEM note buf POST_ET_BOUNDARY n s) (CONSUME_ITEM cb buf POST_ET_BOUNDARY n (lift s)))
    by (intros; by apply sim_consume2).
  assert (Hv : ∀ n, sim (p_app s) (CONSUME_ITEM note buf POST_ET_VALUE n s) (CONSUME_ITEM cb buf POST_ET_VALUE n (lift s)))
    by (intros; by apply sim_consume2).
  destruct x1 as [e|]; [destruct (e =? 0); [destruct b|]|].
  - by apply sim_after.
  - apply Hbd.
  - by apply sim_after.
  - intros f (r & Hr & Hf)%cres_bind_Ret. destruct (Hv _ r Hr) as [He Hm]. injection Hf as <-.
    split; [by destruct r|]. intros Hp. rewrite Hm by (by destruct r). by destruct r.
Qed.

Lemma sim_finish s v : sim (p_app s) (Ret (Finish (note (p_app s) POST_ET_FINISH v).2)) (Ret (Finish (cb (p_app (lift s)) POST_ET_FINISH v).2)).
Proof. intros f [= <-]. cbn [note snd flow_app lift_flow]. split; [by eexists|]. intros _. by rewrite acc_snoc. Qed.

Lemma sim_switch ctx s : sim (p_app s) (switch note buf len ctx s) (switch cb buf len ctx (lift s)).
Proof.
  pose proof (sim_ret (Exx s)) as Hexx. pose proof (sim_ret (Return (-1) (p_app s))) as Hret. cbn [flow_app lift_flow] in *.
  unfold switch, case_boundary, case_name, case_filename, CONSUME_ITEM. cbn [lift p_type p_i p_app]. fold (lift s).
  repeat first [exact Hexx|exact Hret|by apply sim_value|by apply sim_quoted|by apply sim_consume2|apply sim_finish|case_match|apply sim_bind; intros ?].
Qed.

Lemma sim_loop fuel ctx s r e ctx' : parse_loop note buf len fuel ctx s = Ret (r, e, ctx') →
  p_app s `prefix_of` e ∧ (e `prefix_of` E → parse_loop cb buf len fuel ctx (lift s) = Ret (r, acc e, ctx')).
Proof.
  revert s. induction fuel as [|fuel IH]; intros s; [done|]. cbn [parse_loop]. cbn [lift p_i p_app p_type]. fold (lift s).
  destruct (p_i s <? len); [|by intros [= <- <- <-]].
  intros (f & Hf & H)%cres_bind_Ret. destruct (sim_switch ctx s f Hf) as [Hpre Hsw]. destruct f as [s'|s'|s'|r' a'|a']; cbn [flow_app lift_flow] in *.
  - destruct (IH _ H) as [H1 H2]. split; [by etrans|]. intros Hp. rewrite Hsw by (by etrans). cbn [mbind cres_bind]. by apply H2.
  - injection H as <- <- <-. split; [done|]. intros Hp. by rewrite Hsw.
  - injection H as <- <- <-. cbn [note snd]. split; [etrans; [done|by eexists]|]. intros Hp.
    rewrite Hsw by (etrans; [by eexists|exact Hp]). cbn [mbind cres_bind lift p_app]. by rewrite acc_snoc.
  - injection H as <- <- <-. split; [done|]. intros Hp. by rewrite Hsw.
  - injection H as <- <- <-. split; [done|]. intros Hp. by rewrite Hsw.
Qed.

Lemma parser_told ctx r ctx' : post_data_parser note buf len ctx [] = Ret (r, E, ctx') →
  post_data_parser cb buf len ctx a0 = Ret (r, acc E, ctx').
Proof.
  unfold post_data_parser. destruct (POST_ET_VOID =? last_item_type ctx).
  2:{ cbn [mbind cres_bind]. intros H. by apply (sim_loop _ _ (Pst [] 0 (last_item_type ctx)) _ _ _ H). }
  intros ([c f] & Hf & H)%cres_bind_Ret. unfold first_boundary in *. apply cres_bind_Ret in Hf as (n & -> & Hf). cbn [mbind cres_bind].
  destruct ((n <=? 2) || (PDP_BOUNDARY_MAX <=? n + 2)); [injection Hf as <- <-; injection H as <- <- <-; done|].
  apply cres_bind_Ret in Hf as (b1 & -> & Hf). cbn [mbind cres_bind]. apply cres_bind_Ret in Hf as (b2 & -> & Hf). cbn [mbind cres_bind].
  apply cres_bind_Ret in Hf as (b3 & -> & Hf). cbn [mbind cres_bind]. apply cres_bind_Ret in Hf as (b4 & -> & Hf). cbn [mbind cres_bind].
  apply cres_bind_Ret in Hf as (f' & Hf' & [= <- <-]).
  destruct (sim_consume2 POST_ET_BOUNDARY (n + 1) 0 (n + 1) (Pst [] 0 (last_item_type ctx)) ltac:(done) ltac:(done) f' Hf') as [_ Hs].
  unfold CONSUME_ITEM. unfold lift at 1 in Hs. cbn [p_app p_i p_type] in Hs. cbn [p_i].
  destruct f' as [s|s|s|r' a'|a']; try done.
  - destruct (sim_loop _ _ _ _ _ _ H) as [Hp Hl]. cbn [flow_app] in Hs. change (acc []) with a0 in Hs. rewrite Hs by done. cbn [mbind cres_bind lift_flow]. by apply Hl.
  - injection H as <- <- <-. cbn [flow_app] in Hs. change (acc []) with a0 in Hs. by rewrite Hs.
Qed.
End Told.

(** ** The theorems *)

Lemma parser_total {App} (cb : App → Z → list Z → Z * App) buf len ctx a :
  0 <= len → len + sizeof CONTENT_TYPE_PREFIX <= Z.of_nat (length buf) → ctx_ok ctx →
  ∃ r a' ctx', post_data_parser cb buf len ctx a = Ret (r, a', ctx') ∧ (r = 0 ∨ r = -1) ∧ ctx_ok ctx'.
Proof.
  intros Hl Hroom Hc. pose proof Hroom as Hr. unfold sizeof in Hr. unfold post_data_parser.
  destruct (Z.eqb_spec POST_ET_VOID (last_item_type ctx)) as [E|E].
  - destruct (first_boundary_ok cb buf len ctx a ltac:(lia) Hc) as (ctx' & f & -> & Hc' & Hf). cbn [mbind cres_bind].
    destruct f as [s|s|s|r a'|a']; try done.
    + destruct Hf as [Hi Ht]. apply parse_loop_ok; try done; lia.
    + eexists _, _, _. split; [reflexivity|]. split; [by right|done].
  - cbn [mbind cres_bind]. apply parse_loop_ok; try done; cbn [p_i p_type]; try apply Hc; lia.
Qed.

(** C39: whatever arrives, the parser returns 0 or -1 and leaves a well-formed context (a
    boundary that fits its array, a known element type) for the next piece, for every
    callback: it ends and reads only the piece and the 17 bytes behind it. *)
Theorem post_data_parser_type {App} (cb : App → Z → list Z → Z * App) buf len ctx a :
  0 <= len → len + sizeof CONTENT_TYPE_PREFIX <= Z.of_nat (length buf) → ctx_ok ctx →
  ∃ r a' ctx', post_data_parser cb buf len ctx a = Ret (r, a', ctx') ∧ (r = 0 ∨ r = -1) ∧ ctx_ok ctx'.
Proof. apply parser_total. Qed.

Lemma post_data_parser_type_witness :
  ∃ r a' ctx', post_data_parser note (replicate 40 13) 20 fresh_ctx [] = Ret (r, a', ctx') ∧ (r = 0 ∨ r = -1) ∧ ctx_ok ctx'.
Proof.
  apply (post_data_parser_type note (replicate 40 13) 20 fresh_ctx []).
  - lia.
  - vm_compute. intros H. discriminate H.
  - unfold ctx_ok. simpl. unfold PDP_BOUNDARY_MAX, POST_ET_VOID, POST_ET_CONTENT_TYPE. lia.
Defined.

Lemma form_read_back b fs pad :
  boundary_ok b → fs ≠ [] → Forall (field_ok b) fs → (17 <= length pad)%nat →
  let d := body b fs in
  ∃ ctx, post_data_parser note (d ++ pad) (Z.of_nat (length d)) fresh_ctx [] = Ret (0, events b fs, ctx) ∧
    last_item_type ctx = POST_ET_FINISH.
Proof.
  intros Hb Hne Hfs Hpad d.
  assert (Hd : ∃ t, d = b ++ CRLF ++ t).
  { destruct fs as [|f fs]; [done|]. exists (drop 2 (concat (field_text b <$> f :: fs) ++ [45; 45; 13; 10])). reflexivity. }
  destruct Hd as [t Ht].
  destruct (first_boundary_at b t pad (replicate 256 0) 0 [] Hb Hpad eq_refl) as (bd & E & Hs). rewrite <- Ht in E.
  unfold post_data_parser, fresh_ctx. cbn [last_item_type]. simpl (_ =? _). cbv iota. rewrite E. cbn [mbind cres_bind].
  set (ctx := Ctx POST_ET_VOID bd (Z.of_nat (length b) + 1)).
  assert (Hl : left_at d (Z.of_nat (length b)) (concat (field_text b <$> fs) ++ [45; 45; 13; 10])) by (by exists b).
  destruct (goes_fields d pad b Hpad Hb ctx Hs eq_refl [(POST_ET_BOUNDARY, b)] (Z.of_nat (length b)) fs _ Hl Hfs) as (n & Hn & G).
  cbn [p_i] in Hn. pose proof (left_app d _ _ _ Hl) as Hl2. destruct (left_len _ _ _ Hl2) as [_ Hlen]. simpl in Hlen.
  assert (Hfuel : S (S (length (d ++ pad))) = Nat.add n (S (S (length (d ++ pad)) - n))) by (rewrite length_app; lia).
  simpl ([] ++ _). rewrite Hfuel, G. rewrite (loop_finish d pad b Hpad ctx _ _ _ Hl2). eexists.
  split; [unfold events; rewrite <- app_assoc; reflexivity|reflexivity].
Qed.

(** C40: a printed form, passed in one piece with 17 readable bytes behind it, is read back: for a
    boundary of 4 to 254 characters without a carriage return, and fields whose names and file
    names have no quotation mark, whose types are not empty and have no carriage return, and
    whose values do not hold a line end and the boundary, not even without its last character,
    the callback is told the fields in order, with exactly their names, file names, types and
    values, and the parser ends with 0. *)
Theorem post_data_parser_roundtrip b fs pad :
  boundary_ok b → fs ≠ [] → Forall (field_ok b) fs → (17 <= length pad)%nat →
  let d := body b fs in
  ∃ ctx, post_data_parser note (d ++ pad) (Z.of_nat (length d)) fresh_ctx [] = Ret (0, events b fs, ctx) ∧
    last_item_type ctx = POST_ET_FINISH.
Proof. apply form_read_back. Qed.

Lemma post_data_parser_roundtrip_witness :
  ∃ ctx, post_data_parser note (body demo_b demo_fields ++ replicate 17 0) (Z.of_nat (length (body demo_b demo_fields))) fresh_ctx []
    = Ret (0, events demo_b demo_fields, ctx) ∧ last_item_type ctx = POST_ET_FINISH.
Proof.
  apply (post_data_parser_roundtrip demo_b demo_fields (replicate 17 0)).
  - split; [|simpl; lia]. apply (bool_decide_unpack _). vm_compute. exact I.
  - discriminate.
  - repeat apply Forall_cons_2; [..|apply Forall_nil_2]; unfold field_ok; simpl;
      repeat split; try discriminate; try (vm_compute; reflexivity); apply (bool_decide_unpack _); vm_compute; exact I.
  - simpl. lia.
Defined.

(** When the piece ends where its object ends, a file in a form makes the search for the
    end of its type reach 17 bytes behind the object. *)
Example content_type_read_behind :
  post_data_parser note (body demo_b demo_fields) (Z.of_nat (length (body demo_b demo_fields))) fresh_ctx [] = Fault.
Proof. vm_compute. reflexivity. Qed.

(** A value that holds the boundary without its last character is cut there. *)
Example boundary_cut_short :
  let fs := [Field [97] None (CRLF ++ [45; 45; 45; 88; 90])] in
  let d := body demo_b fs in
  ∃ a ctx, post_data_parser note (d ++ replicate 17 0) (Z.of_nat (length d)) fresh_ctx [] = Ret (-1, a, ctx) ∧
    (POST_ET_VALUE, []) ∈ a.
Proof. vm_compute. eexists _, _. split; [reflexivity|]. repeat constructor. Qed.
