(* ===== verification/Dashboard.v ===== *)
(** * The dashboard

    [src/dashboard.c] keeps numbered items, each with a code of an operation and a text, in a
    red-black tree by number.  One thread at a time holds the spin lock of the dashboard; an
    operation is what happens under it.  What a format prints is an argument. *)
From stdpp Require Import strings.
From Stdlib Require Import Sorted.
From S2P Require Import Prelude CString LinkedList RbTree.

Definition DASHBOARD_BUFFER_SIZE : Z := 1024 * 4.
Definition DASHBOARD_LIST_BUFFER_SIZE : Z := 2048.
Definition DASHBOARD_DETACH_ALERT_CYCLE : nat := 100.
Definition ESQ_DASHBOARD_OP_STOP : Z := 9.
Definition ESQ_OK : Z := 0.
Definition ESQ_ERROR_NOTFOUND : Z := -4.

Record esq_dashboard_item_t := Item {
  id : Z;
  opcode : Z;
  buf_string_length : Z;
  buf : list Z
}.

Definition set_id (i : Z) (e : esq_dashboard_item_t) : esq_dashboard_item_t :=
  Item i (opcode e) (buf_string_length e) (buf e).
Definition set_opcode (o : Z) (e : esq_dashboard_item_t) : esq_dashboard_item_t :=
  Item (id e) o (buf_string_length e) (buf e).
Definition set_text (l : Z) (b : list Z) (e : esq_dashboard_item_t) : esq_dashboard_item_t :=
  Item (id e) (opcode e) l b.

(** The items, their links, the root and the number to try first. *)
Record dash := Dash {
  items : gmap loc esq_dashboard_item_t;
  ents : cells;
  esq_dashboard_rb : ptr;
  esq_dashboard_id_max : Z
}.

Definition dtree (d : dash) : rb := Rb (esq_dashboard_rb d) (ents d).
Definition with_items (m : gmap loc esq_dashboard_item_t) (d : dash) : dash :=
  Dash m (ents d) (esq_dashboard_rb d) (esq_dashboard_id_max d).

Definition iget (d : dash) (x : loc) : cres esq_dashboard_item_t := fld (items d) (Some x) Datatypes.id.
Definition iput (d : dash) (x : loc) (f : esq_dashboard_item_t → esq_dashboard_item_t) : cres dash :=
  m ← upd (items d) (Some x) f; Ret (with_items m d).

Definition esq_dashboard_item_compare (a b : Z) : Z := i32 (a - b).
Definition id_cmp (d : dash) (i : Z) (t : loc) : cres Z :=
  e ← iget d t; Ret (esq_dashboard_item_compare i (id e)).
Definition find (d : dash) (i : Z) : cres ptr := RB_FIND (dtree d) (id_cmp d i).

(** ** Operations *)

(** The first number not taken, from [i] on. *)
Fixpoint new_loop (fuel : nat) (d : dash) (i : Z) : cres Z :=
  match fuel with
  | O => NoFuel
  | S fuel =>
      let i := if i <? 0 then 0 else i in
      e ← find d i;
      match e with Some _ => new_loop fuel d (i32 (i + 1)) | None => Ret i end
  end.

Definition zero_item (i : Z) : esq_dashboard_item_t := Item i 0 0 (replicate (Z.to_nat DASHBOARD_BUFFER_SIZE) 0).

Definition esq_dashboard_new (mem_ok : bool) (d : dash) : cres (Z * dash) :=
  if negb mem_ok then Ret (-1, d) else
  i ← new_loop (S (size (items d))) d (esq_dashboard_id_max d);
  let p := fresh (dom (items d)) in
  let d := Dash (<[p := zero_item i]> (items d)) (<[p := RbEntry None None None RB_BLACK]> (ents d))
             (esq_dashboard_rb d) (esq_dashboard_id_max d) in
  '(_, T) ← RB_INSERT (dtree d) (id_cmp d i) p;
  Ret (i, Dash (items d) (rb_cells T) (rbh_root T) (i32 (i + 1))).

Definition esq_dashboard_set_opcode (d : dash) (i o : Z) : cres (Z * dash) :=
  e ← find d i;
  match e with
  | None => Ret (ESQ_ERROR_NOTFOUND, d)
  | Some x => d ← iput d x (set_opcode o); Ret (ESQ_OK, d)
  end.

Definition esq_dashboard_get_opcode (d : dash) (i : Z) : cres (Z * option Z) :=
  e ← find d i;
  match e with
  | None => Ret (ESQ_ERROR_NOTFOUND, None)
  | Some x => e ← iget d x; Ret (ESQ_OK, Some (opcode e))
  end.

(** [text] is what the format and its arguments print.  [vsnprintf] fails only for a format or
    a text it cannot print (of 2^31 bytes or more); that case is left out. *)
Definition esq_dashboard_snprintf (d : dash) (i offset : Z) (text : list Z) : cres (Z * dash) :=
  if (offset <? 0) || (DASHBOARD_BUFFER_SIZE <=? offset) then Ret (-1, d) else
  e ← find d i;
  match e with
  | None => Ret (-1, d)
  | Some x =>
      e ← iget d x;
      let '(r, b) := c_snprintf (drop (Z.to_nat offset) (buf e)) text in
      let b := take (Z.to_nat offset) (buf e) ++ b in
      let l := if (r <=? 0) || (DASHBOARD_BUFFER_SIZE <=? r) then buf_string_length e else r in
      d ← iput d x (set_text l b);
      Ret (r, d)
  end.

Definition esq_dashboard_notify_stop_to_all_tasks (d : dash) : cres (Z * dash) :=
  RB_FOREACH (dtree d) (fun id x => d ← iput id.2 x (set_opcode ESQ_DASHBOARD_OP_STOP); Ret (id.1 + 1, d)) (0, d).

Definition dfree (d : dash) (T : rb) (x : loc) : dash :=
  Dash (delete x (items d)) (delete x (rb_cells T)) (rbh_root T) (esq_dashboard_id_max d).

Fixpoint remove_all_loop (fuel : nat) (d : dash) : cres dash :=
  p ← RB_MINMAX (dtree d) LEFT;
  match p with
  | None => Ret d
  | Some x =>
      match fuel with
      | O => NoFuel
      | S fuel => T ← RB_REMOVE (dtree d) x; remove_all_loop fuel (dfree d T x)
      end
  end.

Definition esq_dashboard_remove_all_items (d : dash) : cres dash := remove_all_loop (size (items d)) d.

(** The numbers, until one does not fit. *)
Fixpoint list_loop (fuel : nat) (d : dash) (b : list Z) (buflen offset : Z) (p : ptr) : cres (Z * list Z) :=
  match p with
  | None => Ret (offset, b)
  | Some x =>
      match fuel with
      | O => NoFuel
      | S fuel =>
          e ← iget d x;
          let text := (if negb (offset =? 0) then [32] else []) ++ c_decimal (id e) in
          let '(r, t) := c_snprintf (drop (Z.to_nat offset) b) text in
          let b := take (Z.to_nat offset) b ++ t in
          if (0 <? r) && (r <? buflen - offset) then
            n ← RB_NEXT (dtree d) p;
            list_loop fuel d b buflen (offset + r) n
          else Ret (offset, b)
      end
  end.

Definition esq_dashboard_list_all_items (d : dash) (b : list Z) (buflen : Z) : cres (Z * list Z) :=
  p ← RB_MINMAX (dtree d) LEFT;
  list_loop (S (size (items d))) d b buflen 0 p.

(** The rounds until no item is left; no other thread removes one here. *)
Fixpoint detach_rounds (n : nat) (d : dash) : cres dash :=
  match n with
  | O => Ret d
  | S n =>
      '(r, d) ← esq_dashboard_notify_stop_to_all_tasks d;
      if negb (r =? 0) then detach_rounds n d else Ret d
  end.

Definition esq_dashboard_detach_loop (d : dash) : cres dash :=
  d ← detach_rounds DASHBOARD_DETACH_ALERT_CYCLE d; esq_dashboard_remove_all_items d.

Definition esq_dashboard_get_item_count (d : dash) : cres Z :=
  RB_FOREACH (dtree d) (fun i _ => Ret (i + 1)) 0.

(** An error, or what the buffer holds and its new length. *)
Definition esq_dashboard_get_item_string (d : dash) (i : Z) (b : list Z) (buflen : Z)
    : cres (string + list Z * Z) :=
  e ← find d i;
  match e with
  | None => Ret (inl "dashboard item not found"%string)
  | Some x =>
      e ← iget d x;
      if negb (buf_string_length e =? 0) then
        if buflen <? buf_string_length e then Ret (inl "design issue, buffer size too small"%string)
        else b ← c_memcpy b 0 (buf e) (buf_string_length e + 1); Ret (inr (b, buf_string_length e))
      else Ret (inr (b, 0))
  end.

Definition esq_dashboard_get_item_opcode (d : dash) (i : Z) : cres (string + Z) :=
  e ← find d i;
  match e with
  | None => Ret (inl "dashboard item not found"%string)
  | Some x => e ← iget d x; Ret (inr (opcode e))
  end.

Definition esq_dashboard_set_item_opcode (d : dash) (i o : Z) : cres (option string * dash) :=
  e ← find d i;
  match e with
  | None => Ret (Some "dashboard item not found"%string, d)
  | Some x => d ← iput d x (set_opcode o); Ret (None, d)
  end.

Definition esq_dashboard_set_item_string (d : dash) (i : Z) (s : list Z) (string_length : Z)
    : cres (option string * dash) :=
  if DASHBOARD_BUFFER_SIZE <=? string_length then Ret (Some "string too long"%string, d) else
  e ← find d i;
  match e with
  | None => Ret (Some "dashboard item not found"%string, d)
  | Some x =>
      e ← iget d x;
      b ← c_memcpy (buf e) 0 s (string_length + 1);
      d ← iput d x (set_text string_length b);
      Ret (None, d)
  end.

Definition esq_dashboard_remove_item (d : dash) (i : Z) : cres (Z * dash) :=
  e ← find d i;
  match e with
  | None => Ret (-1, d)
  | Some x => T ← RB_REMOVE (dtree d) x; Ret (0, dfree d T x)
  end.

Definition esq_dashboard_remove_item2 (d : dash) (i : Z) : cres (option string * dash) :=
  '(r, d) ← esq_dashboard_remove_item d i;
  Ret (if negb (r =? 0) then Some "dashboard item not found"%string else None, d).

Definition esq_dashboard_init (d : dash) : dash :=
  Dash (items d) (rb_cells (RB_INIT (dtree d))) (rbh_root (RB_INIT (dtree d))) 0.

(** ** The specification

    Items by number, and the number to try first. *)
Record board := Board { am : gmap Z esq_dashboard_item_t; amax : Z }.

(** The first number from [i] on, and from 0 after the largest, that is free. *)
Fixpoint first_free (fuel : nat) (m : gmap Z esq_dashboard_item_t) (i : Z) : option Z :=
  match fuel with
  | O => None
  | S fuel => if decide (is_Some (m !! i)) then first_free fuel m ((i + 1) mod 2^31) else Some i
  end.

Inductive op :=
| New (mem_ok : bool)
| SetOpcode (i o : Z)
| GetOpcode (i : Z)
| Snprintf (i offset : Z) (text : list Z)
| NotifyStop
| RemoveAll
| Count
| GetString (i : Z) (b : list Z)
| SetString (i : Z) (s : list Z) (string_length : Z)
| Remove (i : Z).

Inductive out :=
| Num (r : Z)
| Opcode (r : Z) (o : option Z)
| Err (e : option string)
| Text (r : string + list Z * Z)
| Done.

Definition run_op (o : op) (d : dash) : cres (out * dash) :=
  match o with
  | New mem_ok => '(r, d) ← esq_dashboard_new mem_ok d; Ret (Num r, d)
  | SetOpcode i o => '(r, d) ← esq_dashboard_set_opcode d i o; Ret (Num r, d)
  | GetOpcode i => '(r, o) ← esq_dashboard_get_opcode d i; Ret (Opcode r o, d)
  | Snprintf i offset text => '(r, d) ← esq_dashboard_snprintf d i offset text; Ret (Num r, d)
  | NotifyStop => '(r, d) ← esq_dashboard_notify_stop_to_all_tasks d; Ret (Num r, d)
  | RemoveAll => d ← esq_dashboard_remove_all_items d; Ret (Done, d)
  | Count => r ← esq_dashboard_get_item_count d; Ret (Num r, d)
  | GetString i b => r ← esq_dashboard_get_item_string d i b DASHBOARD_BUFFER_SIZE; Ret (Text r, d)
  | SetString i s l => '(e, d) ← esq_dashboard_set_item_string d i s l; Ret (Err e, d)
  | Remove i => '(e, d) ← esq_dashboard_remove_item2 d i; Ret (Err e, d)
  end.

(** A text printed into an item: what is stored as its length is that of the text alone. *)
Definition printed (offset : Z) (text : list Z) (e : esq_dashboard_item_t) : esq_dashboard_item_t :=
  let r := Z.of_nat (length text) in
  set_text (if (r <=? 0) || (DASHBOARD_BUFFER_SIZE <=? r) then buf_string_length e else r)
    (take (Z.to_nat offset) (buf e) ++ (c_snprintf (drop (Z.to_nat offset) (buf e)) text).2) e.

Definition spec_op (o : op) (B : board) : out * board :=
  let on {A} i (none : A) (some : esq_dashboard_item_t → A) :=
    match am B !! i with Some e => some e | None => none end in
  let put i e := Board (<[i := e]> (am B)) (amax B) in
  match o with
  | New mem_ok =>
      match (if mem_ok then first_free (S (size (am B))) (am B) (amax B mod 2^31) else None) with
      | Some i => (Num i, Board (<[i := zero_item i]> (am B)) (i32 (i + 1)))
      | None => (Num (-1), B)
      end
  | SetOpcode i o => on i (Num ESQ_ERROR_NOTFOUND, B) (fun e => (Num ESQ_OK, put i (set_opcode o e)))
  | GetOpcode i => (on i (Opcode ESQ_ERROR_NOTFOUND None) (fun e => Opcode ESQ_OK (Some (opcode e))), B)
  | Snprintf i offset text =>
      if (offset <? 0) || (DASHBOARD_BUFFER_SIZE <=? offset) then (Num (-1), B)
      else on i (Num (-1), B) (fun e => (Num (Z.of_nat (length text)), put i (printed offset text e)))
  | NotifyStop => (Num (Z.of_nat (size (am B))), Board (set_opcode ESQ_DASHBOARD_OP_STOP <$> am B) (amax B))
  | RemoveAll => (Done, Board ∅ (amax B))
  | Count => (Num (Z.of_nat (size (am B))), B)
  | GetString i b =>
      (on i (Text (inl "dashboard item not found"%string)) (fun e =>
         if decide (buf_string_length e = 0) then Text (inr (b, 0))
         else Text (inr (ow (take (Z.to_nat (buf_string_length e + 1)) (buf e)) b, buf_string_length e))), B)
  | SetString i s l =>
      if DASHBOARD_BUFFER_SIZE <=? l then (Err (Some "string too long"%string), B)
      else on i (Err (Some "dashboard item not found"%string), B) (fun e =>
             (Err None, put i (set_text l (ow (take (Z.to_nat (l + 1)) s) (buf e)) e)))
  | Remove i =>
      on i (Err (Some "dashboard item not found"%string), B) (fun e =>
        (Err None, Board (delete i (am B)) (amax B)))
  end.

(** Arguments the callers may give. *)
Definition is_int (i : Z) : Prop := - 2^31 <= i < 2^31.
Definition valid_op (o : op) : Prop :=
  match o with
  | SetOpcode i _ | GetOpcode i | Remove i => is_int i
  | Snprintf i _ text => is_int i ∧ Z.of_nat (length text) < 2^31
  | GetString i b => is_int i ∧ Z.of_nat (length b) = DASHBOARD_BUFFER_SIZE
  | SetString i s l => is_int i ∧ 0 <= l < Z.of_nat (length s)
  | _ => True
  end.

(** ** What always holds *)

Definition id_at (d : dash) (x : loc) : option Z := id <$> items d !! x.

Definition item_ok (e : esq_dashboard_item_t) : Prop :=
  0 <= id e < 2^31 ∧ Z.of_nat (length (buf e)) = DASHBOARD_BUFFER_SIZE ∧
  0 <= buf_string_length e < DASHBOARD_BUFFER_SIZE.

Record inv (d : dash) : Prop := {
  di_tree : ∃ l, holds (dtree d) l ∧ sorted Z.sub (id_at d) l ∧ ∀ x, x ∈ l ↔ is_Some (items d !! x);
  di_dom : dom (ents d) = dom (items d);
  di_item x e : items d !! x = Some e → item_ok e
}.

Record refines (d : dash) (B : board) : Prop := {
  rf_inv : inv d;
  rf_map i e : am B !! i = Some e ↔ ∃ x, items d !! x = Some e ∧ id e = i;
  rf_max : amax B = esq_dashboard_id_max d;
  rf_range : - 2^31 = amax B ∨ 0 <= amax B < 2^31
}.

Lemma iget_ok d x e : items d !! x = Some e → iget d x = Ret e.
Proof. intros H. unfold iget, fld. by rewrite H. Qed.

Lemma iput_ok d x e f : items d !! x = Some e → iput d x f = Ret (with_items (<[x := f e]> (items d)) d).
Proof. intros H. unfold iput. by rewrite (upd_Some _ _ _ _ H). Qed.

(** Two items never have the same number. *)
Lemma id_unique d x y e f : inv d → items d !! x = Some e → items d !! y = Some f → id e = id f → x = y.
Proof.
  intros Hi Hx Hy Hid. destruct (di_tree d Hi) as (l & _ & Hs & Hl).
  destruct (sorted_cut Z.sub (id_at d) l (id e) Hs) as (A & m & B & _ & Hm).
  assert (m = Some x) by (apply Hm; split; [apply Hl; eauto|]; unfold id_at; by rewrite Hx).
  assert (m = Some y) by (apply Hm; split; [apply Hl; eauto|]; unfold id_at; rewrite Hy, Hid; done). congruence.
Qed.

(** A search finds the item with the number, for any [int]. *)
Lemma find_item_ok d B i :
  refines d B → is_int i →
  ∃ m, find d i = Ret m ∧
    match m with
    | Some x => ∃ e, items d !! x = Some e ∧ id e = i ∧ am B !! i = Some e
    | None => am B !! i = None
    end.
Proof.
  intros Hr Hint. pose proof (rf_inv _ _ Hr) as Hi. destruct (di_tree d Hi) as (l & Hh & Hs & Hl). unfold find.
  assert (Hcmp : ∀ x, x ∈ l → ∃ e, items d !! x = Some e ∧ item_ok e ∧ id_cmp d i x = Ret (i32 (i - id e))).
  { intros x Hx. destruct (proj1 (Hl x) Hx) as [e He]. exists e. split; [done|]. split; [by apply (di_item d Hi x)|].
    unfold id_cmp. by rewrite (iget_ok _ _ _ He). }
  destruct (decide (0 <= i)) as [Hpos|Hneg].
  - destruct (keyed_find Z.sub (id_at d) (dtree d) l i (id_cmp d i) Hh Hs) as (m & -> & Hm).
    { intros x Hx. destruct (Hcmp x Hx) as (e & He & ([Hid1 Hid2] & _) & ->). unfold key_cmp, id_at. rewrite He. simpl.
      f_equal. apply i32_small. unfold is_int in Hint. lia. }
    exists m. split; [done|]. destruct m as [x|].
    + destruct (proj1 (Hm x) eq_refl) as [_ Hx]. unfold id_at in Hx. destruct (items d !! x) as [e|] eqn:He; [|done].
      injection Hx as Hid. exists e. split; [done|]. split; [done|]. apply (rf_map _ _ Hr). eauto.
    + destruct (am B !! i) as [e|] eqn:E; [|done]. exfalso. apply (rf_map _ _ Hr) in E as (x & Hx & Hid).
      assert (None = Some x); [|done]. apply Hm. split; [apply Hl; eauto|]. unfold id_at. rewrite Hx. simpl. by f_equal.
  - destruct (RB_FIND_sound (dtree d) (id_cmp d i) l Hh) as (m & -> & Hm).
    { intros x Hx. destruct (Hcmp x Hx) as (e & _ & _ & ->). eauto. }
    exists m. split; [done|]. destruct m as [x|].
    + exfalso. destruct (Hm x eq_refl) as [Hx E]. destruct (Hcmp x Hx) as (e & _ & ([Hid1 Hid2] & _) & E').
      rewrite E' in E. injection E as E. apply i32_eq_0_small in E; unfold is_int in Hint; lia.
    + destruct (am B !! i) as [e|] eqn:E; [|done]. exfalso. apply (rf_map _ _ Hr) in E as (x & Hx & Hid).
      destruct (di_item d Hi x e Hx) as [? _]. lia.
Qed.

(** ** Changes *)

(** An item changes, not its number. *)
Lemma refines_update d B x e e' :
  refines d B → items d !! x = Some e → id e' = id e → item_ok e' →
  refines (with_items (<[x := e']> (items d)) d) (Board (<[id e := e']> (am B)) (amax B)).
Proof.
  intros [Hi Hm Hx Hra] He Hid Hok. pose proof Hi as [(l & Hh & Hs & Hl) Hd Hit].
  assert (Hcase : ∀ y f, <[x := e']> (items d) !! y = Some f → y = x ∧ f = e' ∨ y ≠ x ∧ items d !! y = Some f).
  { intros y f. destruct (decide (y = x)) as [->|Hne]; [rewrite lookup_insert_eq; naive_solver|].
    rewrite lookup_insert_ne by done. auto. }
  split; [split| |done|done]; simpl.
  - exists l. split; [done|]. split.
    + apply (sorted_frame Z.sub (id_at d)); [|done]. intros y _. unfold id_at. simpl.
      destruct (decide (y = x)) as [->|Hne]; [|by rewrite lookup_insert_ne].
      rewrite lookup_insert_eq, He. simpl. by rewrite Hid.
    + intros y. rewrite Hl. destruct (decide (y = x)) as [->|Hne]; [|by rewrite lookup_insert_ne].
      rewrite lookup_insert_eq, He. by split; eauto.
  - rewrite dom_insert_L, Hd. apply elem_of_dom_2 in He. set_solver.
  - intros y f [[-> ->]|[_ Hf]]%Hcase; [done|by apply (Hit y)].
  - intros i f. destruct (decide (i = id e)) as [->|Hne].
    + rewrite lookup_insert_eq. split.
      * intros [= <-]. exists x. by rewrite lookup_insert_eq.
      * intros (y & [[-> ->]|[Hne Hf]]%Hcase & Hidf); [done|]. exfalso. apply Hne. by apply (id_unique d y x f e).
    + rewrite lookup_insert_ne by done. rewrite Hm. split.
      * intros (y & Hy & Hidf). exists y. split; [|done]. rewrite lookup_insert_ne; [done|]. intros <-. congruence.
      * intros (y & [[-> ->]|[Hny Hf]]%Hcase & Hidf); [congruence|eauto].
Qed.

(** An item goes. *)
Lemma refines_remove d B x e T :
  refines d B → items d !! x = Some e → RB_REMOVE (dtree d) x = Ret T →
  refines (dfree d T x) (Board (delete (id e) (am B)) (amax B)).
Proof.
  intros [Hi Hm Hx Hra] He HT. pose proof Hi as [(l & Hh & Hs & Hl) Hd Hit].
  destruct (list_elem_of_split l x) as (A & C & ->); [apply Hl; eauto|].
  destruct (RB_REMOVE_ok (dtree d) A x C Hh) as (T' & E & HT' & Hloc). rewrite HT in E. injection E as <-.
  apply holds_NoDup in Hh as Hnd. apply NoDup_app in Hnd as (_ & Hax & [Hxc _]%NoDup_cons).
  assert (Hxl : x ∉ A ++ C) by set_solver.
  assert (Hcase : ∀ y f, delete x (items d) !! y = Some f ↔ y ≠ x ∧ items d !! y = Some f).
  { intros y f. rewrite lookup_delete_Some. naive_solver. }
  split; [split| |done|done]; simpl.
  - exists (A ++ C). split; [|split].
    + apply (rb_holds_frame T); [|done|done]. intros y Hy. simpl. rewrite lookup_delete_ne; [done|]. by intros <-.
    + pose proof (sorted_remove Z.sub (id_at d) A x C Hs) as Hs'. apply (sorted_frame Z.sub (id_at d)); [|done]. intros y Hy. unfold id_at. simpl.
      rewrite lookup_delete_ne; [done|]. by intros <-.
    + intros y. destruct (decide (y = x)) as [->|Hne].
      * rewrite lookup_delete_eq. split; [done|by intros []].
      * rewrite lookup_delete_ne, <- Hl by done. set_solver.
  - rewrite !dom_delete_L, (lt_dom _ _ _ Hloc). simpl. by rewrite Hd.
  - intros y f [_ Hf]%Hcase. by apply (Hit y).
  - intros i f. destruct (decide (i = id e)) as [->|Hne].
    + rewrite lookup_delete_eq. split; [done|]. intros (y & [Hne Hf]%Hcase & Hidf).
      exfalso. apply Hne. by apply (id_unique d y x f e).
    + rewrite lookup_delete_ne by done. rewrite Hm. split.
      * intros (y & Hy & Hidf). exists y. split; [|done]. apply Hcase. split; [|done]. intros ->. congruence.
      * intros (y & [_ Hf]%Hcase & Hidf). eauto.
Qed.

(** There are as many numbers in use as items. *)
Lemma size_eq d B : refines d B → size (am B) = size (items d).
Proof.
  intros Hr. rewrite <- size_dom, <- length_map_to_list. unfold size, set_size.
  rewrite <- (length_fmap (fun xe => id xe.2) (map_to_list (items d))).
  assert (Hin : ∀ i, i ∈ elements (dom (am B)) ↔ i ∈ (fun xe => id xe.2) <$> map_to_list (items d)).
  { intros i. rewrite elem_of_elements, elem_of_dom, list_elem_of_fmap. split.
    - intros [e He]. apply (rf_map _ _ Hr) in He as (x & Hx & <-). exists (x, e). split; [done|].
      by apply elem_of_map_to_list.
    - intros ([x e] & -> & He). apply elem_of_map_to_list in He. exists e. apply (rf_map _ _ Hr). eauto. }
  apply Permutation_length, NoDup_Permutation; [apply NoDup_elements| |exact Hin].
  apply NoDup_fmap_2_strong; [|apply NoDup_map_to_list].
  intros [x e] [y f] Hx Hy Hid. simpl in Hid. apply elem_of_map_to_list in Hx, Hy.
  pose proof (id_unique d x y e f (rf_inv _ _ Hr) Hx Hy Hid) as ->. congruence.
Qed.

Lemma tree_size d l : holds (dtree d) l → (∀ x, x ∈ l ↔ is_Some (items d !! x)) → length l = size (items d).
Proof.
  intros Hh Hl. rewrite <- size_dom. unfold size, set_size. apply Permutation_length, NoDup_Permutation.
  - by apply holds_NoDup in Hh.
  - apply NoDup_elements.
  - intros x. by rewrite Hl, elem_of_elements, elem_of_dom.
Qed.

(** ** A new item *)

Lemma first_free_spec fuel m i :
  0 <= i < 2^31 → (Z.of_nat (size m) < 2^31) →
  match first_free fuel m i with
  | Some j => 0 <= j < 2^31 ∧ m !! j = None
  | None => ∀ k, (k < fuel)%nat → is_Some (m !! ((i + Z.of_nat k) mod 2^31))
  end.
Proof.
  intros Hi Hm. revert i Hi. induction fuel as [|fuel IH]; intros i Hi; simpl; [lia|].
  case_decide as Hd; [|split; [done|by apply eq_None_not_Some]].
  pose proof (Z.mod_pos_bound (i + 1) (2^31) ltac:(lia)) as Hb.
  specialize (IH ((i + 1) mod 2^31) Hb). destruct (first_free fuel m _); [done|].
  intros [|k] Hk; [by rewrite Z.add_0_r, Z.mod_small|].
  specialize (IH k ltac:(lia)). rewrite Zplus_mod_idemp_l in IH.
  by replace (i + Z.of_nat (S k)) with (i + 1 + Z.of_nat k) by lia.
Qed.

(** One more try than numbers in use is enough. *)
Lemma first_free_enough m i :
  0 <= i < 2^31 → Z.of_nat (size m) < 2^31 - 1 → ∃ j, first_free (S (size m)) m i = Some j.
Proof.
  intros Hi Hm. pose proof (first_free_spec (S (size m)) m i Hi ltac:(lia)) as Hs.
  destruct (first_free (S (size m)) m i) as [j|]; [eauto|]. exfalso.
  set (tried := (fun k : nat => (i + Z.of_nat k) mod 2^31) <$> seq 0 (S (size m))).
  assert (Hle : (length tried <= length (elements (dom m)))%nat).
  { apply submseteq_length, NoDup_submseteq.
    - apply NoDup_fmap_2_strong; [|apply NoDup_seq]. intros k k' Hk Hk' E.
      apply elem_of_seq in Hk, Hk'. 
      assert (Hd : (i + Z.of_nat k - (i + Z.of_nat k')) mod 2^31 = 0) by (rewrite Zminus_mod, E, Z.sub_diag; done).
      replace (i + Z.of_nat k - (i + Z.of_nat k')) with (Z.of_nat k - Z.of_nat k') in Hd by lia.
      apply Z.mod_divide in Hd as [q Hq]; [|lia]. nia.
    - intros j (k & -> & Hk)%list_elem_of_fmap. apply elem_of_seq in Hk.
      apply elem_of_elements, elem_of_dom, Hs. lia. }
  unfold tried in Hle. rewrite length_fmap, length_seq in Hle. rewrite <- size_dom in Hle. unfold size at 1, set_size in Hle. simpl in Hle. lia.
Qed.

Lemma i32_wrap i : 0 <= i < 2^31 → (if i32 (i + 1) <? 0 then 0 else i32 (i + 1)) = (i + 1) mod 2^31.
Proof.
  intros Hi. destruct (decide (i + 1 = 2^31)) as [E|E].
  - rewrite E. done.
  - rewrite i32_small, Z.mod_small by lia. destruct (Z.ltb_spec (i + 1) 0); [lia|done].
Qed.

Lemma new_loop_ok fuel d B i :
  refines d B → is_int i →
  new_loop fuel d i
  = match first_free fuel (am B) (if i <? 0 then 0 else i) with Some j => Ret j | None => NoFuel end.
Proof.
  intros Hr. revert i. induction fuel as [|fuel IH]; intros i Hi; simpl; [done|].
  assert (Hj : 0 <= (if i <? 0 then 0 else i) < 2^31) by (unfold is_int in Hi; destruct (Z.ltb_spec i 0); lia).
  set (j := if i <? 0 then 0 else i) in *.
  destruct (find_item_ok d B j Hr) as (m & -> & Hm); [unfold is_int; lia|]. cbn [mbind cres_bind].
  destruct m as [x|].
  - destruct Hm as (e & _ & _ & ->). rewrite decide_True by eauto.
    rewrite IH by (unfold is_int; apply i32_range). by rewrite i32_wrap.
  - rewrite Hm, decide_False by (by intros []). done.
Qed.

Lemma zero_item_ok i : 0 <= i < 2^31 → item_ok (zero_item i).
Proof. intros Hi. unfold item_ok, zero_item. cbn [id buf buf_string_length]. rewrite length_replicate. unfold DASHBOARD_BUFFER_SIZE. lia. Qed.

(** An item with a free number goes in. *)
Lemma refines_added d B p e T l' m :
  refines d B → items d !! p = None → am B !! id e = None → item_ok e → (- 2^31 = m ∨ 0 <= m < 2^31) →
  let d' := Dash (<[p := e]> (items d)) (rb_cells T) (rbh_root T) m in
  holds T l' → sorted Z.sub (id_at d') l' → (∀ x, x ∈ l' ↔ is_Some (items d' !! x)) →
  dom (rb_cells T) = {[p]} ∪ dom (items d) →
  refines d' (Board (<[id e := e]> (am B)) m).
Proof.
  intros [Hi Hm Hx Hra] Hp Hfree Hok Hmr d' Hh Hs Hl Hd. pose proof Hi as [_ _ Hit].
  assert (Hcase : ∀ y f, <[p := e]> (items d) !! y = Some f → y = p ∧ f = e ∨ y ≠ p ∧ items d !! y = Some f).
  { intros y f. destruct (decide (y = p)) as [->|Hne]; [rewrite lookup_insert_eq; naive_solver|].
    rewrite lookup_insert_ne by done. auto. }
  split; [split| |done|done]; simpl.
  - exists l'. split; [by destruct T|done].
  - rewrite dom_insert_L. done.
  - intros y f [[-> ->]|[_ Hf]]%Hcase; [done|by apply (Hit y)].
  - intros i f. destruct (decide (i = id e)) as [->|Hne].
    + rewrite lookup_insert_eq. split.
      * intros [= <-]. exists p. by rewrite lookup_insert_eq.
      * intros (y & [[-> ->]|[Hne Hf]]%Hcase & Hidf); [done|].
        exfalso. assert (am B !! id e = Some f) by (apply Hm; eauto). congruence.
    + rewrite lookup_insert_ne by done. rewrite Hm. split.
      * intros (y & Hy & Hidf). exists y. split; [|done]. rewrite lookup_insert_ne; [done|]. intros <-. congruence.
      * intros (y & [[-> ->]|[Hny Hf]]%Hcase & Hidf); [congruence|eauto].
Qed.

Lemma start_range m : - 2^31 = m ∨ 0 <= m < 2^31 → is_int m ∧ (if m <? 0 then 0 else m) = m mod 2^31.
Proof.
  unfold is_int. intros [<-|H]; [done|]. split; [lia|]. rewrite Z.mod_small by lia.
  destruct (Z.ltb_spec m 0); [lia|done].
Qed.

Lemma next_range i : 0 <= i < 2^31 → - 2^31 = i32 (i + 1) ∨ 0 <= i32 (i + 1) < 2^31.
Proof.
  intros Hi. destruct (decide (i + 1 = 2^31)) as [->|Hne]; [by left|]. right. rewrite i32_small by lia. lia.
Qed.

Lemma new_item_ok mem_ok d B :
  refines d B → Z.of_nat (size (am B)) < 2^31 - 1 →
  ∃ d', run_op (New mem_ok) d = Ret ((spec_op (New mem_ok) B).1, d') ∧ refines d' (spec_op (New mem_ok) B).2.
Proof.
  intros Hr Hsz. destruct mem_ok; [|by exists d]. destruct (start_range _ (rf_range _ _ Hr)) as [Hint Hst].
  pose proof (Z.mod_pos_bound (amax B) (2^31) ltac:(lia)) as Hb.
  destruct (first_free_enough (am B) (amax B mod 2^31) Hb Hsz) as [i Ei].
  pose proof (first_free_spec (S (size (am B))) (am B) (amax B mod 2^31) Hb ltac:(lia)) as Hi. rewrite Ei in Hi.
  destruct Hi as [Hi Hfree]. unfold run_op, spec_op, esq_dashboard_new. cbn [negb]. rewrite <- (size_eq d B Hr).
  rewrite (new_loop_ok _ d B) by (rewrite <- ?(rf_max _ _ Hr); done). rewrite <- (rf_max _ _ Hr), Hst, Ei.
  cbn [mbind cres_bind]. cbv zeta. pose proof (rf_inv _ _ Hr) as HI. destruct (di_tree d HI) as (l & Hh & Hs & Hl).
  set (p := fresh (dom (items d))). assert (Hp : items d !! p = None) by (apply not_elem_of_dom, is_fresh).
  assert (Hpl : p ∉ l) by (rewrite Hl, Hp; by intros []).
  set (d1 := Dash (<[p := zero_item i]> (items d)) (<[p := RbEntry None None None RB_BLACK]> (ents d))
             (esq_dashboard_rb d) (amax B)).
  assert (Hold : ∀ y, y ∈ l → items d1 !! y = items d !! y).
  { intros y Hy. simpl. apply lookup_insert_ne. by intros ->. }
  assert (Hk : id_at d1 p = Some i) by (unfold id_at; simpl; by rewrite lookup_insert_eq).
  assert (Hs1 : sorted Z.sub (id_at d1) l).
  { apply (sorted_frame Z.sub (id_at d)); [|done]. intros y Hy. unfold id_at. by rewrite Hold. }
  destruct (keyed_insert Z.sub (id_at d1) (dtree d) l p i (RbEntry None None None RB_BLACK) (id_cmp d1 i) Hh Hs1 Hpl Hk)
    as [(y & Hy & Hky & _)|(_ & T & l' & E & Hh' & Hs' & Hp' & HdT)].
  { intros y Hy. destruct (proj1 (Hl y) Hy) as [e He]. destruct (di_item d HI y e He) as [Hide _].
    unfold id_cmp, key_cmp, id_at, iget, fld. rewrite Hold, He by done. simpl. f_equal. apply i32_small. lia. }
  { exfalso. unfold id_at in Hky. rewrite Hold in Hky by done. destruct (items d !! y) as [e|] eqn:He; [|done].
    injection Hky as Hid. assert (am B !! i = Some e) by (apply (rf_map _ _ Hr); eauto). congruence. }
  change (dtree d1) with (Rb (rbh_root (dtree d)) (<[p := RbEntry None None None RB_BLACK]> (rb_cells (dtree d)))).
  rewrite E. eexists. split; [reflexivity|].
  apply (refines_added d B p (zero_item i) T l'); [done|done|done|by apply zero_item_ok|by apply next_range|done|done| |].
  - intros x. rewrite Hp', elem_of_cons, Hl. simpl. destruct (decide (x = p)) as [->|Hne].
    + rewrite lookup_insert_eq. split; [eauto|by left].
    + rewrite lookup_insert_ne by done. naive_solver.
  - rewrite HdT. simpl. by rewrite (di_dom d HI).
Qed.

(** ** Every item *)

(** The codes of all items change, in the order of the tree. *)
Lemma notify_fold l d n :
  NoDup l → (∀ x, x ∈ l → is_Some (items d !! x)) →
  ∃ m, fold_m (fun id x => d ← iput id.2 x (set_opcode ESQ_DASHBOARD_OP_STOP); Ret (id.1 + 1, d)) (n, d) l
    = Ret (n + Z.of_nat (length l), with_items m d) ∧
    ∀ x, m !! x = if decide (x ∈ l) then set_opcode ESQ_DASHBOARD_OP_STOP <$> items d !! x else items d !! x.
Proof.
  revert d n. induction l as [|x l IH]; intros d n Hnd Hl; simpl.
  - exists (items d). split; [by destruct d; rewrite Z.add_0_r|]. done.
  - apply NoDup_cons in Hnd as [Hx Hnd]. destruct (Hl x ltac:(left)) as [e He].
    rewrite (iput_ok _ _ _ _ He). cbn [mbind cres_bind].
    destruct (IH (with_items (<[x := set_opcode ESQ_DASHBOARD_OP_STOP e]> (items d)) d) (n + 1) Hnd) as (m & -> & Hm).
    { intros y Hy. simpl. destruct (decide (y = x)) as [->|Hne]; [by rewrite lookup_insert_eq|].
      rewrite lookup_insert_ne by done. apply Hl. by right. }
    exists m. split; [f_equal; f_equal; lia|]. intros y. rewrite Hm. simpl.
    destruct (decide (y = x)) as [->|Hne].
    + rewrite (decide_False (P := x ∈ l)), decide_True, lookup_insert_eq, He by (done || left). done.
    + rewrite !lookup_insert_ne by done. repeat case_decide; set_solver.
Qed.

Lemma notify_ok d B :
  refines d B →
  ∃ d', run_op NotifyStop d = Ret ((spec_op NotifyStop B).1, d') ∧ refines d' (spec_op NotifyStop B).2.
Proof.
  intros Hr. pose proof (rf_inv _ _ Hr) as HI. destruct (di_tree d HI) as (l & Hh & Hs & Hl).
  unfold run_op, spec_op, esq_dashboard_notify_stop_to_all_tasks. rewrite (RB_FOREACH_ok _ _ _ _ Hh).
  destruct (notify_fold l d 0) as (m & -> & Hm); [by apply holds_NoDup in Hh|by intros x Hx; apply Hl|].
  assert (Hm' : ∀ x, m !! x = set_opcode ESQ_DASHBOARD_OP_STOP <$> items d !! x).
  { intros x. rewrite Hm. case_decide as Hx; [done|]. rewrite Hl in Hx. apply eq_None_not_Some in Hx. by rewrite Hx. }
  cbn [mbind cres_bind]. rewrite (tree_size d l Hh Hl), (size_eq d B Hr). eexists. split; [reflexivity|].
  split; [split| |apply (rf_max _ _ Hr)|apply (rf_range _ _ Hr)]; simpl.
  - exists l. split; [done|]. split.
    + apply (sorted_frame Z.sub (id_at d)); [|done]. intros y _. unfold id_at. simpl. rewrite Hm'.
      by destruct (items d !! y).
    + intros x. by rewrite Hl, Hm', fmap_is_Some.
  - rewrite (di_dom d HI). apply set_eq. intros x. by rewrite !elem_of_dom, Hm', fmap_is_Some.
  - intros x e. rewrite Hm'. intros (e' & He & ->)%fmap_Some. apply (di_item d HI x e' He).
  - intros i e. rewrite lookup_fmap, fmap_Some. setoid_rewrite Hm'. setoid_rewrite fmap_Some. split.
    + intros (e' & (x & Hx & <-)%(rf_map _ _ Hr) & ->). exists x. eauto.
    + intros (x & (e' & Hx & ->) & <-). exists e'. split; [|done]. apply (rf_map _ _ Hr). eauto.
Qed.

Lemma remove_all_ok l d B fuel :
  refines d B → holds (dtree d) l → (∀ x, x ∈ l ↔ is_Some (items d !! x)) → (length l <= fuel)%nat →
  ∃ d', remove_all_loop fuel d = Ret d' ∧ refines d' (Board ∅ (amax B)).
Proof.
  revert d B fuel. induction l as [|x l IH]; intros d B fuel Hr Hh Hl Hf.
  - pose proof (RB_MINMAX_ok (dtree d) RIGHT [] Hh) as E. cbn [flip along head] in E.
    exists d. split; [destruct fuel; simpl; by rewrite E|].
    replace ∅ with (am B); [by destruct B|]. apply map_empty. intros i. apply eq_None_not_Some. intros [e He].
    apply (rf_map _ _ Hr) in He as (x & Hx & _). assert (Hn : x ∈ []) by (apply Hl; eauto). by apply elem_of_nil in Hn.
  - destruct fuel as [|fuel]; [simpl in Hf; lia|]. simpl in Hf.
    pose proof (RB_MINMAX_ok (dtree d) RIGHT (x :: l) Hh) as E. cbn [flip along head] in E.
    cbn [remove_all_loop]. rewrite E. cbn [mbind cres_bind].
    destruct (RB_REMOVE_ok (dtree d) [] x l Hh) as (T & ET & HT & _). rewrite ET. cbn [mbind cres_bind].
    destruct (proj1 (Hl x) ltac:(left)) as [e He].
    apply holds_NoDup in Hh as Hnd. apply NoDup_cons in Hnd as [Hxl _].
    apply (IH (dfree d T x) (Board (delete (id e) (am B)) (amax B))); [by apply refines_remove| | |lia].
    + apply (rb_holds_frame T); [|done|done]. intros y Hy. simpl. rewrite lookup_delete_ne; [done|]. by intros <-.
    + intros y. simpl. destruct (decide (y = x)) as [->|Hne].
      * rewrite lookup_delete_eq. split; [done|by intros []].
      * rewrite lookup_delete_ne, <- Hl by done. set_solver.
Qed.

Lemma count_fold (l : list loc) n : fold_m (fun i (_ : loc) => Ret (i + 1)) n l = Ret (n + Z.of_nat (length l)).
Proof. revert n. induction l as [|x l IH]; intros n; simpl; [by rewrite Z.add_0_r|]. rewrite IH. f_equal. lia. Qed.

(** ** The operations on one item *)

Lemma printed_ok offset text e : 0 <= offset < DASHBOARD_BUFFER_SIZE → item_ok e → item_ok (printed offset text e).
Proof.
  intros Hof (Hid & Hb & Hl). unfold item_ok, printed, c_snprintf. cbn [id buf buf_string_length set_text snd].
  split; [done|]. unfold DASHBOARD_BUFFER_SIZE in *. split.
  - rewrite length_app, length_take, length_ow; rewrite ?length_app, ?length_take, ?length_drop; simpl; lia.
  - destruct (Z.leb_spec (Z.of_nat (length text)) 0), (Z.leb_spec (1024 * 4) (Z.of_nat (length text))); simpl; lia.
Qed.

Lemma memcpy_front dst src n :
  0 <= n → n <= Z.of_nat (length dst) → n <= Z.of_nat (length src) →
  c_memcpy dst 0 src n = Ret (ow (take (Z.to_nat n) src) dst).
Proof.
  intros H0 Hd Hs. unfold c_memcpy, ow. rewrite decide_True by lia. rewrite length_take, Z.add_0_l.
  simpl. repeat f_equal. lia.
Qed.

(** Where the search ends: at the item with the number, or the specification has none. *)
Ltac at_item d B i Hr Hi :=
  let x := fresh "x" in let e := fresh "e" in let Hm := fresh "Hm" in
  destruct (find_item_ok d B i Hr Hi) as ([x|] & -> & Hm); cbn [mbind cres_bind];
  [destruct Hm as (e & He & <- & ->); rewrite ?(iget_ok _ _ _ He); cbn [mbind cres_bind];
   rewrite ?(iput_ok _ _ _ _ He); cbn [mbind cres_bind]
  |rewrite Hm; by exists d].

Lemma snprintf_ok d B i offset text :
  refines d B → is_int i →
  ∃ d', run_op (Snprintf i offset text) d = Ret ((spec_op (Snprintf i offset text) B).1, d') ∧
    refines d' (spec_op (Snprintf i offset text) B).2.
Proof.
  intros Hr Hi. unfold run_op, spec_op, esq_dashboard_snprintf.
  destruct (Z.ltb_spec offset 0), (Z.leb_spec DASHBOARD_BUFFER_SIZE offset); try by exists d.
  cbn [orb]. at_item d B i Hr Hi. unfold c_snprintf at 1. rewrite (iput_ok _ _ _ _ He). eexists. split; [reflexivity|].
  apply refines_update; [done|done|done|]. apply printed_ok; [lia|]. by apply (di_item d (rf_inv _ _ Hr) x).
Qed.

Lemma get_string_ok d B i b :
  refines d B → is_int i → Z.of_nat (length b) = DASHBOARD_BUFFER_SIZE →
  ∃ d', run_op (GetString i b) d = Ret ((spec_op (GetString i b) B).1, d') ∧ refines d' (spec_op (GetString i b) B).2.
Proof.
  intros Hr Hi Hb. unfold run_op, spec_op, esq_dashboard_get_item_string. at_item d B i Hr Hi.
  destruct (di_item d (rf_inv _ _ Hr) x e He) as (_ & Hbe & Hl). exists d. split; [|done].
  case_decide as Hz; [by rewrite Hz|].
  destruct (Z.eqb_spec (buf_string_length e) 0); [done|]. cbn [negb].
  destruct (Z.ltb_spec DASHBOARD_BUFFER_SIZE (buf_string_length e)); [lia|]. by rewrite memcpy_front by lia.
Qed.

Lemma set_string_ok d B i s n :
  refines d B → is_int i → 0 <= n < Z.of_nat (length s) →
  ∃ d', run_op (SetString i s n) d = Ret ((spec_op (SetString i s n) B).1, d') ∧ refines d' (spec_op (SetString i s n) B).2.
Proof.
  intros Hr Hi Hn. unfold run_op, spec_op, esq_dashboard_set_item_string.
  destruct (Z.leb_spec DASHBOARD_BUFFER_SIZE n); [by exists d|]. at_item d B i Hr Hi.
  destruct (di_item d (rf_inv _ _ Hr) x e He) as (Hid & Hbe & Hl).
  rewrite memcpy_front by lia. cbn [mbind cres_bind]. rewrite (iput_ok _ _ _ _ He). eexists. split; [reflexivity|].
  apply refines_update; [done|done|done|]. split; [done|]. simpl. split; [|lia].
  rewrite length_ow by (rewrite length_take; lia). done.
Qed.

(** Every operation is the operation of the specification. *)
Lemma run_op_ok o d B :
  refines d B → valid_op o → Z.of_nat (size (am B)) < 2^31 - 1 →
  ∃ d', run_op o d = Ret ((spec_op o B).1, d') ∧ refines d' (spec_op o B).2.
Proof.
  intros Hr Hv Hsz. pose proof (rf_inv _ _ Hr) as HI.
  destruct o as [ok|i c|i|i offset text| | | |i b|i s n|i]; simpl in Hv.
  - by apply new_item_ok.
  - unfold run_op, spec_op, esq_dashboard_set_opcode. at_item d B i Hr Hv. eexists. split; [reflexivity|].
    apply refines_update; [done|done|done|apply (di_item d HI x e He)].
  - unfold run_op, spec_op, esq_dashboard_get_opcode. at_item d B i Hr Hv. by exists d.
  - destruct Hv. by apply snprintf_ok.
  - by apply notify_ok.
  - destruct (di_tree d HI) as (l & Hh & _ & Hl). unfold run_op, esq_dashboard_remove_all_items.
    destruct (remove_all_ok l d B (size (items d)) Hr Hh Hl) as (d' & -> & Hd'); [by rewrite (tree_size d l)|].
    by exists d'.
  - destruct (di_tree d HI) as (l & Hh & _ & Hl). unfold run_op, spec_op, esq_dashboard_get_item_count.
    rewrite (RB_FOREACH_ok _ _ _ _ Hh), count_fold, (tree_size d l Hh Hl), (size_eq d B Hr). by exists d.
  - destruct Hv. by apply get_string_ok.
  - destruct Hv. by apply set_string_ok.
  - unfold run_op, spec_op, esq_dashboard_remove_item2, esq_dashboard_remove_item. at_item d B i Hr Hv.
    destruct (di_tree d HI) as (l & Hh & _ & Hl). destruct (list_elem_of_split l x) as (A & C & ->); [apply Hl; eauto|].
    destruct (RB_REMOVE_ok (dtree d) A x C Hh) as (T & ET & _). rewrite ET. cbn [mbind cres_bind].
    eexists. split; [reflexivity|]. by apply refines_remove.
Qed.

(** ** Runs *)

Fixpoint run_ops (os : list op) (d : dash) : cres (list out * dash) :=
  match os with
  | [] => Ret ([], d)
  | o :: os => '(r, d) ← run_op o d; '(rs, d) ← run_ops os d; Ret (r :: rs, d)
  end.

Fixpoint spec_ops (os : list op) (B : board) : list out * board :=
  match os with
  | [] => ([], B)
  | o :: os => let '(r, B) := spec_op o B in let '(rs, B) := spec_ops os B in (r :: rs, B)
  end.

Lemma spec_op_size o B : (size (am (spec_op o B).2) <= S (size (am B)))%nat.
Proof.
  assert (Hput : ∀ i e (m : gmap Z esq_dashboard_item_t), (size (<[i := e]> m) <= S (size m))%nat).
  { intros i e m. rewrite map_size_insert. case_match; unfold Datatypes.id; lia. }
  destruct o; simpl; repeat (case_match || case_decide); simpl;
    rewrite ?map_size_fmap, ?map_size_empty, ?map_size_delete; try apply Hput; try lia.
  case_match; unfold Datatypes.id; lia.
Qed.

Lemma run_ops_ok os d B :
  refines d B → Forall valid_op os → Z.of_nat (size (am B) + length os) < 2^31 - 1 →
  ∃ d', run_ops os d = Ret ((spec_ops os B).1, d') ∧ refines d' (spec_ops os B).2.
Proof.
  revert d B. induction os as [|o os IH]; intros d B Hr Hv Hsz; simpl; [by exists d|].
  apply Forall_cons in Hv as [Ho Hv]. simpl in Hsz.
  destruct (run_op_ok o d B Hr Ho) as (d1 & -> & Hr1); [lia|]. cbn [mbind cres_bind].
  pose proof (spec_op_size o B) as Hs1. destruct (spec_op o B) as [r B1]. simpl in *.
  destruct (IH d1 B1 Hr1 Hv) as (d2 & -> & Hr2); [lia|]. cbn [mbind cres_bind].
  destruct (spec_ops os B1) as [rs B2]. by exists d2.
Qed.

Definition no_dash : dash := Dash ∅ ∅ None 0.

Lemma init_ok : refines (esq_dashboard_init no_dash) (Board ∅ 0).
Proof.
  split; [split|..]; simpl; try done.
  - exists []. split; [apply (holds_init (Rb None ∅))|]. split; [constructor|].
    intros x. rewrite lookup_empty. split; [set_solver|by intros []].
  - intros i e. rewrite lookup_empty. split; [done|]. intros (x & Hx & _). by rewrite lookup_empty in Hx.
  - by right.
Qed.

(** ** The list of numbers *)

(** The numbers with a blank between two. *)
Fixpoint numbers_text (ids : list Z) : list Z :=
  match ids with
  | [] => []
  | [i] => c_decimal i
  | i :: ids => c_decimal i ++ 32 :: numbers_text ids
  end.

Lemma c_digits_length fuel z acc : (length acc <= length (c_digits fuel z acc))%nat.
Proof.
  revert z acc. induction fuel as [|fuel IH]; intros z acc; simpl; [done|]. destruct (z <? 10); simpl; [lia|].
  etransitivity; [|apply IH]. simpl. lia.
Qed.

Lemma c_decimal_length i : (0 < length (c_decimal i))%nat.
Proof.
  assert (H : ∀ fuel z, (0 < length (c_digits (S fuel) z []))%nat).
  { intros fuel z. cbn [c_digits]. destruct (z <? 10); [simpl; lia|].
    eapply Nat.lt_le_trans; [|apply c_digits_length]. simpl. lia. }
  unfold c_decimal. destruct (i <? 0); [simpl; lia|apply H].
Qed.

Lemma numbers_text_snoc ids i :
  numbers_text (ids ++ [i]) = numbers_text ids ++ (if decide (ids = []) then [] else [32]) ++ c_decimal i.
Proof.
  induction ids as [|j ids IH]; [done|]. simpl (_ ++ _). destruct ids as [|k ids]; [done|].
  change (numbers_text (j :: (k :: ids) ++ [i])) with (c_decimal j ++ 32 :: numbers_text ((k :: ids) ++ [i])).
  rewrite IH, !decide_False by done.
  change (numbers_text (j :: k :: ids)) with (c_decimal j ++ 32 :: numbers_text (k :: ids)). by rewrite <- app_assoc.
Qed.

Lemma numbers_text_nil ids : length (numbers_text ids) = 0%nat ↔ ids = [].
Proof.
  split; [|by intros ->]. destruct ids as [|i [|j ids]]; [done| |]; simpl; rewrite ?length_app;
    pose proof (c_decimal_length i); lia.
Qed.

(** The loop goes on from the numbers already printed. *)
Lemma list_loop_ok fuel d b l1 l2 ids1 ids2 :
  holds (dtree d) (l1 ++ l2) → Forall2 (fun x i => id_at d x = Some i) l2 ids2 → (length l2 < fuel)%nat →
  take (length (numbers_text ids1)) b = numbers_text ids1 → (length (numbers_text ids1) < length b)%nat →
  ∃ k b', list_loop fuel d b (Z.of_nat (length b)) (Z.of_nat (length (numbers_text ids1))) (head l2)
      = Ret (Z.of_nat (length (numbers_text (ids1 ++ take k ids2))), b') ∧
    take (length (numbers_text (ids1 ++ take k ids2))) b' = numbers_text (ids1 ++ take k ids2) ∧
    length b' = length b ∧
    ((length ids2 <= k)%nat ∨ (length b <= length (numbers_text (ids1 ++ take (S k) ids2)))%nat).
Proof.
  revert b l1 l2 ids1 ids2. induction fuel as [|fuel IH]; intros b l1 l2 ids1 ids2 Hh Hf2 Hf Hb Hn1; [lia|].
  destruct Hf2 as [|x i l2 ids2 Hx Hf2].
  { exists 0%nat, b. simpl. rewrite app_nil_r. split_and!; auto. }
  cbn [head list_loop]. unfold id_at in Hx. destruct (items d !! x) as [e|] eqn:He; [|done]. injection Hx as Hid.
  rewrite (iget_ok _ _ _ He). cbn [mbind cres_bind]. rewrite Hid.
  set (n1 := length (numbers_text ids1)) in *.
  set (text := (if negb (Z.of_nat n1 =? 0) then [32] else []) ++ c_decimal i).
  assert (Et : numbers_text (ids1 ++ [i]) = numbers_text ids1 ++ text).
  { rewrite numbers_text_snoc. unfold text. do 2 f_equal. pose proof (numbers_text_nil ids1) as Hn. fold n1 in Hn.
    destruct (Z.eqb_spec (Z.of_nat n1) 0); case_decide as Hc; simpl; try done; exfalso; [apply Hc, Hn; lia|].
    apply Hn in Hc. lia. }
  assert (Htx : (0 < length text)%nat) by (unfold text; rewrite length_app; pose proof (c_decimal_length i); lia).
  unfold c_snprintf at 1. cbn [fst snd]. rewrite Nat2Z.id, length_drop.
  set (b1 := take n1 b ++ ow (take (length b - n1 - 1) text ++ [0]) (drop n1 b)).
  destruct (Z.ltb_spec 0 (Z.of_nat (length text))); [|lia]. cbn [andb].
  assert (Hl1 : length b1 = length b).
  { unfold b1. rewrite length_app, length_take, length_ow; rewrite ?length_app, ?length_take, ?length_drop; simpl; lia. }
  destruct (Z.ltb_spec (Z.of_nat (length text)) (Z.of_nat (length b) - Z.of_nat n1)) as [Hfit|Hfit].
  - rewrite (RB_NEXT_ok _ l1 x l2 Hh). cbn [mbind cres_bind].
    rewrite <- Nat2Z.inj_add, <- Hl1. unfold n1. rewrite <- length_app, <- Et.
    destruct (IH b1 (l1 ++ [x]) l2 (ids1 ++ [i]) ids2) as (k & b' & E & Ht & Hl & Hend);
      [by rewrite <- app_assoc|done|simpl in Hf; lia| |rewrite Et, length_app; lia|].
    { unfold b1. rewrite Et, length_app, Hb. unfold ow. rewrite (take_ge text), <- !app_assoc by lia.
      rewrite app_assoc, <- length_app. apply take_app_length. }
    exists (S k), b'. rewrite <- app_assoc in E, Ht. simpl (take _ (i :: _)). rewrite E. split_and!; [done|done|lia|].
    simpl (length (i :: _)). destruct Hend as [Hend|Hend]; [left; lia|right]. rewrite <- app_assoc in Hend. simpl. simpl in Hend. lia.
  - exists 0%nat, b1. rewrite take_0, app_nil_r. fold n1. split; [done|]. split; [|split].
    + unfold b1. rewrite <- Hb at 1. rewrite take_app_le by (rewrite length_take; lia). by rewrite take_take, Nat.min_id.
    + done.
    + right. change (take 1 (i :: ids2)) with (i :: take 0 ids2). rewrite take_0, Et, length_app. lia.
Qed.

(** The numbers in the order of the tree are those of the specification, increasing. *)
Lemma tree_ids d B l :
  refines d B → sorted Z.sub (id_at d) l → (∀ x, x ∈ l ↔ is_Some (items d !! x)) →
  ∃ ids, Forall2 (fun x i => id_at d x = Some i) l ids ∧ StronglySorted Z.lt ids ∧
    ∀ i, i ∈ ids ↔ is_Some (am B !! i).
Proof.
  intros Hr Hs Hl.
  assert (Hids : ∃ ids, Forall2 (fun x i => id_at d x = Some i) l ids ∧ StronglySorted Z.lt ids).
  { clear Hl. induction Hs as [|x k l Hk Hlt Hs (ids & Hf & Ho)]; [exists []; split; constructor|].
    exists (k :: ids). split; [by constructor|]. constructor; [done|]. apply Forall_forall. intros i Hi.
    apply list_elem_of_lookup in Hi as [n Hn]. destruct (Forall2_lookup_r _ _ _ _ _ Hf Hn) as (y & Hy & Hyi).
    apply list_elem_of_lookup_2 in Hy. rewrite Forall_forall in Hlt. destruct (Hlt y Hy) as (k' & Hk' & Hc). rewrite Hyi in Hk'. injection Hk' as <-. lia. }
  destruct Hids as (ids & Hf & Ho). exists ids. split; [done|]. split; [done|]. intros i. split.
  - intros [n Hn]%list_elem_of_lookup. destruct (Forall2_lookup_r _ _ _ _ _ Hf Hn) as (y & Hy & Hyi).
    unfold id_at in Hyi. destruct (items d !! y) as [e|] eqn:He; [|done]. injection Hyi as Hid.
    exists e. apply (rf_map _ _ Hr). eauto.
  - intros [e (x & Hx & Hid)%(rf_map _ _ Hr)]. assert (Hxl : x ∈ l) by (apply Hl; eauto).
    apply list_elem_of_lookup in Hxl as [n Hn]. destruct (Forall2_lookup_l _ _ _ _ _ Hf Hn) as (j & Hj & Hxj).
    unfold id_at in Hxj. rewrite Hx in Hxj. injection Hxj as <-. rewrite <- Hid. by apply list_elem_of_lookup_2 in Hj.
Qed.

(** A text printed into an item, seen from the item. *)
Lemma snprintf_at d B i e offset text :
  refines d B → am B !! i = Some e → 0 <= offset < DASHBOARD_BUFFER_SIZE →
  ∃ d', esq_dashboard_snprintf d i offset text = Ret (Z.of_nat (length text), d') ∧
    refines d' (Board (<[i := printed offset text e]> (am B)) (amax B)).
Proof.
  intros Hr He Hof. destruct (proj1 (rf_map _ _ Hr i e) He) as (x & Hx & Hid).
  destruct (di_item d (rf_inv _ _ Hr) x e Hx) as [Hb _].
  destruct (snprintf_ok d B i offset text Hr) as (d' & E & Hr'); [unfold is_int; lia|].
  unfold spec_op in Hr', E. rewrite He in Hr', E.
  destruct (Z.ltb_spec offset 0), (Z.leb_spec DASHBOARD_BUFFER_SIZE offset); try lia. cbn [orb fst snd] in Hr', E.
  exists d'. split; [|done]. unfold run_op in E. destruct (esq_dashboard_snprintf d i offset text) as [[r d1]| | |]; try done.
  cbn [mbind cres_bind] in E. by simplify_eq.
Qed.

(** Printing at 0 and then behind the text. *)
Lemma printed_twice t u e :
  Z.of_nat (length (buf e)) = DASHBOARD_BUFFER_SIZE → (0 < length t)%nat → (0 < length u)%nat →
  Z.of_nat (length t + length u) < DASHBOARD_BUFFER_SIZE →
  printed (Z.of_nat (length t)) u (printed 0 t e)
  = set_text (Z.of_nat (length u)) (ow (t ++ u ++ [0]) (buf e)) e.
Proof.
  intros Hb Ht Hu Hl. unfold printed, c_snprintf. cbn [buf set_text snd buf_string_length]. unfold DASHBOARD_BUFFER_SIZE in *.
  rewrite !Nat2Z.id. change (Z.to_nat 0) with 0%nat. rewrite take_0, drop_0, app_nil_l. unfold set_text. cbn [id opcode]. f_equal.
  - destruct (Z.leb_spec (Z.of_nat (length u)) 0), (Z.leb_spec (1024 * 4) (Z.of_nat (length u))); simpl; try lia.
  - rewrite (take_ge t) by lia. unfold ow at 1 3. rewrite <- !app_assoc, take_app_length, drop_app_length.
    rewrite (take_ge u) by (rewrite length_app, length_drop; simpl; rewrite length_app; simpl; lia).
    unfold ow. rewrite <- !app_assoc. do 3 f_equal.
    rewrite drop_app_length, drop_app_ge, drop_drop, !length_app by (rewrite length_app; simpl; lia). f_equal. simpl. lia.
Qed.

(** ** The theorems *)

(** C36: the dashboard is a map from numbers to items with a number to try first: from the
    empty dashboard, every sequence of operations with arguments in range, in which printing
    does not fail, and of fewer than [2^31 - 1] operations, runs to its end and returns what
    the specification returns, errors included.  A new item gets the first free number,
    counting up from the one behind the number given last and from 0 again behind [2^31 - 1],
    and the search for it ends.  Printing returns the length of the whole text, also when only
    its beginning fits the buffer. *)
Theorem esq_dashboard_correct os :
  Forall valid_op os → Z.of_nat (length os) < 2^31 - 1 →
  ∃ d, run_ops os (esq_dashboard_init no_dash) = Ret ((spec_ops os (Board ∅ 0)).1, d) ∧
    refines d (spec_ops os (Board ∅ 0)).2.
Proof. intros Hv Hl. apply run_ops_ok; [apply init_ok|done|]. cbn [am]. by rewrite map_size_empty. Qed.

Definition demo_ops : list op :=
  [New true; New true; SetString 1 [104; 105; 0] 2; SetOpcode 0 7; Remove 5; NotifyStop; GetOpcode 0; Remove 0; New true; Count].

Lemma esq_dashboard_correct_witness :
  (spec_ops demo_ops (Board ∅ 0)).1
  = [Num 0; Num 1; Err None; Num ESQ_OK; Err (Some "dashboard item not found"%string); Num 2;
     Opcode ESQ_OK (Some ESQ_DASHBOARD_OP_STOP); Err None; Num 2; Num 2] ∧
  ∃ d, run_ops demo_ops (esq_dashboard_init no_dash) = Ret ((spec_ops demo_ops (Board ∅ 0)).1, d) ∧
    refines d (spec_ops demo_ops (Board ∅ 0)).2.
Proof.
  split; [vm_compute; reflexivity|]. apply (esq_dashboard_correct demo_ops).
  - unfold demo_ops, is_int. repeat constructor; simpl; unfold is_int; simpl; lia.
  - simpl. lia.
Defined.

(** A text printed behind another one is lost for the readers: the length that is stored
    is that of the last text alone, so [esq_dashboard_get_item_string] gives back the
    beginning of the buffer only, cut to the length of what was appended. *)
Theorem esq_dashboard_snprintf_append_lost d B i b t u :
  refines d B → is_Some (am B !! i) → Z.of_nat (length b) = DASHBOARD_BUFFER_SIZE →
  (0 < length u < length t)%nat → Z.of_nat (length t + length u) < DASHBOARD_BUFFER_SIZE →
  ∃ d1 d2, esq_dashboard_snprintf d i 0 t = Ret (Z.of_nat (length t), d1) ∧
    esq_dashboard_snprintf d1 i (Z.of_nat (length t)) u = Ret (Z.of_nat (length u), d2) ∧
    esq_dashboard_get_item_string d2 i b DASHBOARD_BUFFER_SIZE
    = Ret (inr (ow (take (S (length u)) t) b, Z.of_nat (length u))).
Proof.
  intros Hr [e He] Hb Hu Hl. destruct (proj1 (rf_map _ _ Hr i e) He) as (x & Hx & Hid).
  destruct (di_item d (rf_inv _ _ Hr) x e Hx) as (Hbi & Hbe & _).
  destruct (snprintf_at d B i e 0 t Hr He) as (d1 & E1 & Hr1); [unfold DASHBOARD_BUFFER_SIZE; lia|].
  destruct (snprintf_at d1 _ i (printed 0 t e) (Z.of_nat (length t)) u Hr1) as (d2 & E2 & Hr2);
    [cbn [am]; by rewrite lookup_insert_eq|lia|].
  exists d1, d2. split; [done|]. split; [done|]. rewrite printed_twice in Hr2 by lia.
  destruct (get_string_ok d2 _ i b Hr2) as (d3 & E3 & _); [unfold is_int; lia|done|].
  cbn [spec_op am fst] in E3. rewrite lookup_insert_eq in E3. cbn [run_op set_text buf buf_string_length] in E3.
  rewrite decide_False in E3 by lia.
  destruct (esq_dashboard_get_item_string d2 i b DASHBOARD_BUFFER_SIZE); try done.
  cbn [mbind cres_bind] in E3. injection E3 as -> _. do 4 f_equal.
  unfold ow. rewrite <- app_assoc, take_app_le by lia. f_equal. lia.
Qed.

Lemma esq_dashboard_snprintf_append_lost_witness :
  let B := (spec_op (New true) (Board ∅ 0)).2 in
  let b := replicate 4096 0 in
  ∃ d d1 d2, run_op (New true) (esq_dashboard_init no_dash) = Ret (Num 0, d) ∧
    esq_dashboard_snprintf d 0 0 [65; 66] = Ret (2, d1) ∧
    esq_dashboard_snprintf d1 0 2 [67] = Ret (1, d2) ∧
    esq_dashboard_get_item_string d2 0 b DASHBOARD_BUFFER_SIZE = Ret (inr (ow [65; 66] b, 1)).
Proof.
  intros B b. destruct (run_op_ok (New true) (esq_dashboard_init no_dash) (Board ∅ 0) init_ok I) as (d & E & Hr);
    [cbn [am]; rewrite map_size_empty; lia|].
  destruct (esq_dashboard_snprintf_append_lost d B 0 b [65; 66] [67] Hr) as (d1 & d2 & E1 & E2 & E3).
  - vm_compute. eauto.
  - vm_compute. exact eq_refl.
  - simpl. lia.
  - vm_compute. exact eq_refl.
  - exists d, d1, d2. split; [exact E|]. split; [exact E1|]. split; [exact E2|exact E3].
Defined.

(** The list of the numbers is that of the items, increasing, blanks between them: all of
    them, or as many as fit in the buffer with the zero behind. *)
Theorem esq_dashboard_list_all_items_correct d B b :
  refines d B → (0 < length b)%nat →
  ∃ ids k b', StronglySorted Z.lt ids ∧ (∀ i, i ∈ ids ↔ is_Some (am B !! i)) ∧
    esq_dashboard_list_all_items d b (Z.of_nat (length b))
    = Ret (Z.of_nat (length (numbers_text (take k ids))), b') ∧
    take (length (numbers_text (take k ids))) b' = numbers_text (take k ids) ∧ length b' = length b ∧
    ((length ids <= k)%nat ∨ (length b <= length (numbers_text (take (S k) ids)))%nat).
Proof.
  intros Hr Hb. destruct (di_tree d (rf_inv _ _ Hr)) as (l & Hh & Hs & Hl).
  destruct (tree_ids d B l Hr Hs Hl) as (ids & Hf & Ho & Hin). exists ids.
  destruct (list_loop_ok (S (size (items d))) d b [] l [] ids) as (k & b' & E & Ht & Hlen & Hend);
    [done|done|rewrite (tree_size d l Hh Hl); lia|by rewrite take_0|done|].
  exists k, b'. split; [done|]. split; [done|]. split; [|done].
  unfold esq_dashboard_list_all_items. change LEFT with (flip RIGHT). rewrite (RB_MINMAX_ok _ RIGHT l Hh). exact E.
Qed.

Lemma detach_rounds_ok n d B : refines d B → ∃ d' B', detach_rounds n d = Ret d' ∧ refines d' B' ∧ amax B' = amax B.
Proof.
  revert d B. induction n as [|n IH]; intros d B Hr; simpl; [by exists d, B|].
  destruct (notify_ok d B Hr) as (d1 & E & Hr1). unfold run_op in E.
  destruct (esq_dashboard_notify_stop_to_all_tasks d) as [[r d0]| | |]; try done.
  cbn [mbind cres_bind] in E |- *. injection E as -> ->. destruct (negb _); [|by eexists _, _].
  destruct (IH d1 _ Hr1) as (d' & B' & -> & Hr' & Hm). by exists d', B'.
Qed.

(** Stopping the dashboard ends, whatever the tasks do not do, and leaves no item. *)
Theorem esq_dashboard_detach_loop_correct d B :
  refines d B → ∃ d', esq_dashboard_detach_loop d = Ret d' ∧ refines d' (Board ∅ (amax B)).
Proof.
  intros Hr. unfold esq_dashboard_detach_loop.
  destruct (detach_rounds_ok DASHBOARD_DETACH_ALERT_CYCLE d B Hr) as (d1 & B1 & -> & Hr1 & <-). cbn [mbind cres_bind].
  destruct (di_tree d1 (rf_inv _ _ Hr1)) as (l & Hh & _ & Hl). unfold esq_dashboard_remove_all_items.
  apply (remove_all_ok l); [done|done|done|]. by rewrite (tree_size d1 l Hh Hl).
Qed.
