(* ===== verification/BeeSync.v ===== *)
(** * Sending a bucket to other servers

    A script asks for the items of a bucket to be sent to targets, each a server and the
    range of hashes it wants ([bee_mkccb_create_bucket_sync_session] of [bee/mkc.c]).  The
    targets of one range form a list and the lists are chained
    ([bee_create_target_cross_links] of [bee/instance.c]); a thread then walks the database
    of the bucket in sprints of twenty items ([esq_bucket_sync_worker] of [bee/db.c]) and
    sends each to the targets whose range it is in ([bee_bucket_sync_*] of [bee/bucket.c]).

    A pointer to a target is its index in the array behind the session.  The cursors of the
    database library are the class [KcCursor].  Every call of the kernel takes the next of
    its answers: [open_fd] for new sockets and [answer], given the number of bytes, for
    writing; what was written is kept with its socket. *)
From stdpp Require Import strings.
From S2P Require Import Prelude CString LinkedList RbTree Scan RangeMap Bucket BucketInv BucketThms BeeDb Dashboard.

Definition BUCKET_SYNC_SPRINT_SIZE : nat := 20.

(** ** Data *)

Record bucket_sync_target_t := Target {
  t_socket_fd : Z;
  t_address : sockaddr_in;
  t_hash : list Z;
  t_hash_length : Z;
  same_hash_next : option nat;
  next_hash_list : option nat;
  t_err : option string;
  t_hash_str : list Z;
  t_hash_str_length : Z
}.

Definition set_same_hash_next (p : option nat) (t : bucket_sync_target_t) : bucket_sync_target_t :=
  Target (t_socket_fd t) (t_address t) (t_hash t) (t_hash_length t) p (next_hash_list t) (t_err t) (t_hash_str t)
    (t_hash_str_length t).
Definition set_next_hash_list (p : option nat) (t : bucket_sync_target_t) : bucket_sync_target_t :=
  Target (t_socket_fd t) (t_address t) (t_hash t) (t_hash_length t) (same_hash_next t) p (t_err t) (t_hash_str t)
    (t_hash_str_length t).
Definition set_t_socket_fd (fd : Z) (t : bucket_sync_target_t) : bucket_sync_target_t :=
  Target fd (t_address t) (t_hash t) (t_hash_length t) (same_hash_next t) (next_hash_list t) (t_err t) (t_hash_str t)
    (t_hash_str_length t).
Definition set_err (e : string) (t : bucket_sync_target_t) : bucket_sync_target_t :=
  Target (t_socket_fd t) (t_address t) (t_hash t) (t_hash_length t) (same_hash_next t) (next_hash_list t) (Some e)
    (t_hash_str t) (t_hash_str_length t).

Abbreviation targets_t := (list bucket_sync_target_t).

Definition tget (ts : targets_t) (i : nat) : cres bucket_sync_target_t :=
  match ts !! i with Some t => Ret t | None => Fault end.
Definition tput (ts : targets_t) (i : nat) (f : bucket_sync_target_t → bucket_sync_target_t) : cres targets_t :=
  t ← tget ts i; Ret (<[i := f t]> ts).

(** ** The lists of targets *)

Definition same_hash (p t : bucket_sync_target_t) : cres bool :=
  if negb (t_hash_length p =? t_hash_length t) then Ret false
  else if t_hash_length p =? 0 then Ret true
  else r ← c_memcmp (t_hash p) (t_hash t) (t_hash_length p); Ret (r =? 0).

(** The first target with the hash of [t], from [p] on. *)
Fixpoint find_same_hash (fuel : nat) (ts : targets_t) (p : option nat) (t : bucket_sync_target_t) : cres (option nat) :=
  match p with
  | None => Ret None
  | Some i =>
      match fuel with
      | O => NoFuel
      | S fuel =>
          x ← tget ts i;
          same ← same_hash x t;
          if same : bool then Ret (Some i) else find_same_hash fuel ts (next_hash_list x) t
      end
  end.

(** The end of a list of targets. *)
Fixpoint last_target (fuel : nat) (next : bucket_sync_target_t → option nat) (ts : targets_t) (i : nat) : cres nat :=
  match fuel with
  | O => NoFuel
  | S fuel =>
      x ← tget ts i;
      match next x with None => Ret i | Some j => last_target fuel next ts j end
  end.

Definition link_target (ts : targets_t) (i : nat) : cres targets_t :=
  let n := S (length ts) in
  t ← tget ts i;
  p ← find_same_hash n ts (Some 0%nat) t;
  match p with
  | None => p ← last_target n next_hash_list ts 0; tput ts p (set_next_hash_list (Some i))
  | Some p => p ← last_target n same_hash_next ts p; tput ts p (set_same_hash_next (Some i))
  end.

Fixpoint cross_link_loop (ts : targets_t) (l : list nat) : cres targets_t :=
  match l with [] => Ret ts | i :: l => ts ← link_target ts i; cross_link_loop ts l end.

Definition bee_create_target_cross_links (ts : targets_t) : cres targets_t :=
  cross_link_loop ts (seq 1 (length ts - 1)).

(** ** Cursors of the database library *)

(** A cursor on the first record; the record of a cursor, and the cursor behind it. *)
Class KcCursor (DB : Type) := {
  cursor : Type;
  kccurjump : DB → cursor;
  kccurget : DB → cursor → option (list Z * list Z * cursor)
}.

(** The records from a cursor on. *)
Inductive records_from {DB} `{KcCursor DB} (d : DB) : cursor → list (list Z * list Z) → Prop :=
| records_end c : kccurget d c = None → records_from d c []
| records_step c k v c' l : kccurget d c = Some (k, v, c') → records_from d c' l → records_from d c ((k, v) :: l).

(** A database that does not change is walked record by record, each key once. *)
Class KcCursorLaws (DB : Type) `{KcLib DB, KcCursor DB} := {
  kc_walk d : ∃ l, records_from d (kccurjump d) l ∧ NoDup l.*1 ∧ ∀ k v, (k, v) ∈ l ↔ kc_get d k = Some v
}.

(** ** Sending *)

(** The calls so far, and the bytes written to each socket. *)
Record net_t := Net { tick : nat; sent : list (Z * list Z) }.

Section BeeSync.
Context {DB : Type} `{KcLib DB, KcCursor DB}.
Context (sha256 : list Z → list Z).
Context (open_fd : nat → Z) (answer : nat → Z → Z).
Implicit Types W : bees (DB := DB).

Record bucket_sync_session_t := Sync {
  ss_range_map_name : list Z;
  ss_range_map_name_length : Z;
  ss_hash_str : list Z;
  ss_hash_str_length : Z;
  ss_dashboard : Z;
  ss_kcdb : ptr;
  ss_kccursor : option cursor;
  session_err : option string;
  processed : Z;
  targets : targets_t
}.

Definition with_targets (ts : targets_t) (s : bucket_sync_session_t) : bucket_sync_session_t :=
  Sync (ss_range_map_name s) (ss_range_map_name_length s) (ss_hash_str s) (ss_hash_str_length s) (ss_dashboard s)
    (ss_kcdb s) (ss_kccursor s) (session_err s) (processed s) ts.
Definition with_cursor (h : ptr) (c : option cursor) (s : bucket_sync_session_t) : bucket_sync_session_t :=
  Sync (ss_range_map_name s) (ss_range_map_name_length s) (ss_hash_str s) (ss_hash_str_length s) (ss_dashboard s)
    h c (session_err s) (processed s) (targets s).
Definition with_session_err (e : string) (s : bucket_sync_session_t) : bucket_sync_session_t :=
  Sync (ss_range_map_name s) (ss_range_map_name_length s) (ss_hash_str s) (ss_hash_str_length s) (ss_dashboard s)
    (ss_kcdb s) (ss_kccursor s) (Some e) (processed s) (targets s).
Definition with_processed (n : Z) (s : bucket_sync_session_t) : bucket_sync_session_t :=
  Sync (ss_range_map_name s) (ss_range_map_name_length s) (ss_hash_str s) (ss_hash_str_length s) (ss_dashboard s)
    (ss_kcdb s) (ss_kccursor s) (session_err s) n (targets s).

(** [write(fd, data, length data)], and [sendto]. *)
Definition sys_write (fd : Z) (data : list Z) (w : net_t) : Z * net_t :=
  let r := answer (tick w) (Z.of_nat (length data)) in
  (r, Net (S (tick w)) (sent w ++ [(fd, take (Z.to_nat r) data)])).

Definition os_open_tcp_socket (w : net_t) : Z * net_t := (open_fd (tick w), Net (S (tick w)) (sent w)).

(** The pieces of a message, in order; the error of the first that is not written with the
    expected result. *)
Fixpoint send_parts (fd : Z) (parts : list (list Z * Z * string)) (w : net_t) : option string * net_t :=
  match parts with
  | [] => (None, w)
  | (data, expected, e) :: parts =>
      let '(r, w) := sys_write fd data w in
      if negb (r =? expected) then (Some e, w) else send_parts fd parts w
  end.

Definition sync_header (name_len ksiz vsiz hash_len : Z) : list Z :=
  header_bytes (Header BEE_OP_SYNC name_len ksiz vsiz hash_len).

(** [kbuf] and [cvbuf] are the bytes of the record, [ksiz] and [vsiz] their numbers as the
    function is given them.  The hash is checked against the size of the key. *)
Definition bee_bucket_sync_data_to_target (s : bucket_sync_session_t) (w : net_t) (kbuf : list Z) (ksiz : Z)
    (cvbuf : list Z) (vsiz : Z) (i : nat) : cres (Z * bucket_sync_session_t * net_t) :=
  p ← tget (targets s) i;
  hash ← span (t_hash_str p) 0 (t_hash_str_length p);
  key ← span kbuf 0 ksiz;
  value ← span cvbuf 0 vsiz;
  let rest := [(hash, ksiz, "failed to send key"%string); (key, ksiz, "failed to send key"%string);
               (value, vsiz, "failed to send value"%string)] in
  let finish fd ts parts w :=
    match send_parts fd parts w with
    | (None, w) => Ret (0, with_targets ts s, w)
    | (Some e, w) => ts ← tput ts i (set_err e); Ret (-1, with_targets ts s, w)
    end in
  if t_socket_fd p =? -1 then
    name ← span (ss_range_map_name s) 0 (ss_range_map_name_length s);
    let '(fd, w) := os_open_tcp_socket w in
    if fd =? -1 then
      ts ← tput (targets s) i (set_err "failed to open socket for data sync"); Ret (-1, with_targets ts s, w)
    else
      ts ← tput (targets s) i (set_t_socket_fd fd);
      finish fd ts ((sync_header (ss_range_map_name_length s) ksiz vsiz (t_hash_str_length p), sizeof_header,
                     "failed to send initial header"%string)
                    :: (name, ss_range_map_name_length s, "failed to send range map name"%string) :: rest) w
  else
    finish (t_socket_fd p) (targets s)
      ((sync_header 0 ksiz vsiz (t_hash_str_length p), sizeof_header, "failed to send sync header"%string) :: rest) w.

Fixpoint bee_bucket_sync_data_to_target_list (fuel : nat) (s : bucket_sync_session_t) (w : net_t) (kbuf : list Z)
    (ksiz : Z) (cvbuf : list Z) (vsiz : Z) (p : option nat) : cres (Z * bucket_sync_session_t * net_t) :=
  match p with
  | None => Ret (0, s, w)
  | Some i =>
      match fuel with
      | O => NoFuel
      | S fuel =>
          '(r, s, w) ← bee_bucket_sync_data_to_target s w kbuf ksiz cvbuf vsiz i;
          if negb (r =? 0) then Ret (r, s, w)
          else
            t ← tget (targets s) i;
            bee_bucket_sync_data_to_target_list fuel s w kbuf ksiz cvbuf vsiz (same_hash_next t)
      end
  end.

Definition hash_matches (t : bucket_sync_target_t) (hash : list Z) : cres bool :=
  if negb (t_hash_length t =? 0) then r ← c_memcmp (t_hash t) hash (t_hash_length t); Ret (r =? 0) else Ret true.

Fixpoint item_loop (fuel : nat) (s : bucket_sync_session_t) (w : net_t) (hash kbuf : list Z)
    (ksiz : Z) (cvbuf : list Z) (vsiz : Z) (p : option nat) : cres (Z * bucket_sync_session_t * net_t) :=
  match p with
  | None => Ret (0, s, w)
  | Some i =>
      match fuel with
      | O => NoFuel
      | S fuel =>
          t ← tget (targets s) i;
          same ← hash_matches t hash;
          '(r, s, w) ← (if same : bool then
                          bee_bucket_sync_data_to_target_list (S (length (targets s))) s w kbuf ksiz cvbuf vsiz p
                        else Ret (0, s, w));
          if negb (r =? 0) then Ret (r, s, w)
          else
            t ← tget (targets s) i;
            item_loop fuel s w hash kbuf ksiz cvbuf vsiz (next_hash_list t)
      end
  end.

Definition bee_bucket_sync_db_item (s : bucket_sync_session_t) (w : net_t) (kbuf : list Z) (ksiz : Z)
    (cvbuf : list Z) (vsiz : Z) : cres (Z * bucket_sync_session_t * net_t) :=
  hash ← get_hash_value sha256 kbuf 0 ksiz;
  item_loop (S (length (targets s))) s w hash kbuf ksiz cvbuf vsiz (Some 0%nat).

(** ** Sprints *)

(** The bucket of the session: the key on the stack has no address and port, [jip] and
    [jport] are what is there. *)
Definition source_bucket W (s : bucket_sync_session_t) (jip jport : Z) : cres ptr :=
  esq_bee_find_bucket W (ss_range_map_name s) (ss_range_map_name_length s) (ss_hash_str s)
    (ss_hash_str_length s - 1) jip jport.

Definition bee_bucket_start_sync_session W (cursor_ok : bool) (jip jport : Z) (s : bucket_sync_session_t)
    : cres (option string * bucket_sync_session_t) :=
  p ← source_bucket W s jip jport;
  match p with
  | None => Ret (Some "source bucket do not exist"%string, s)
  | Some x =>
      b ← bget W x;
      match kcdb0 b with
      | None => Ret (Some "source bucket do not have main db"%string, s)
      | Some h =>
          d ← fld (dbs W) (Some h) Datatypes.id;
          if negb cursor_ok then Ret (Some "failed to create new kcdbcursor"%string, with_cursor (Some h) (ss_kccursor s) s)
          else Ret (None, with_cursor (Some h) (Some (kccurjump d)) s)
      end
  end.

Fixpoint sprint_loop (n : nat) (d : DB) (s : bucket_sync_session_t) (w : net_t) : cres (Z * bucket_sync_session_t * net_t) :=
  match n with
  | O => Ret (0, s, w)
  | S n =>
      match ss_kccursor s with
      | None => Fault
      | Some c =>
          match kccurget d c with
          | None => Ret (0, s, w)
          | Some (k, v, c) =>
              '(r, s, w) ← bee_bucket_sync_db_item (with_cursor (ss_kcdb s) (Some c) s) w
                             k (i32 (Z.of_nat (length k))) v (i32 (Z.of_nat (length v)));
              if negb (r =? 0) then Ret (-1, s, w)
              else sprint_loop n d (with_processed (i32 (processed s + 1)) s) w
          end
      end
  end.

Definition bee_bucket_sync_session_sprint_0 W (jip jport : Z) (s : bucket_sync_session_t) (w : net_t)
    : cres (Z * bucket_sync_session_t * net_t) :=
  p ← source_bucket W s jip jport;
  match p with
  | None => Ret (-1, with_session_err "source bucket removed, bucket sync thread can't continue" s, w)
  | Some x =>
      b ← bget W x;
      match kcdb0 b with
      | None => Ret (-1, with_session_err "source bucket db removed, bucket sync thread can't continue" s, w)
      | Some h =>
          if decide (ss_kcdb s ≠ Some h) then
            Ret (-1, with_session_err "local kcdb changed between sync sprints, please restart sync thread" s, w)
          else d ← fld (dbs W) (Some h) Datatypes.id; sprint_loop BUCKET_SYNC_SPRINT_SIZE d s w
      end
  end.

(** Line by line, until one is not printed; the result is the offset reached. *)
Fixpoint print_lines (d : dash) (i offset : Z) (lines : list (list Z)) : cres dash :=
  match lines with
  | [] => Ret d
  | l :: lines =>
      '(r, d) ← esq_dashboard_snprintf d i offset l;
      if r <=? 0 then Ret d else print_lines d i (offset + r) lines
  end.

Definition report (s : bucket_sync_session_t) : list (list Z) :=
  match session_err s with
  | Some e => [bytes_of "sync session reports: " ++ bytes_of e ++ [10]]
  | None => []
  end ++
  omap (fun t => (fun e => bytes_of "sync target reports: " ++ bytes_of e ++ [10]) <$> t_err t) (targets s) ++
  [bytes_of "sync session proceed items: " ++ c_decimal (processed s) ++ [10]].

Definition bee_bucket_sync_session_write_dashboard (D : dash) (s : bucket_sync_session_t) : cres dash :=
  print_lines D (ss_dashboard s) 0 (report s).

Definition bee_bucket_sync_session_sprint W (jip jport : Z) (s : bucket_sync_session_t) (w : net_t) (D : dash)
    : cres (Z * bucket_sync_session_t * net_t * dash) :=
  '(r, s, w) ← bee_bucket_sync_session_sprint_0 W jip jport s w;
  D ← bee_bucket_sync_session_write_dashboard D s;
  Ret (r, s, w, D).

(** The cursor is gone; the sockets that are closed. *)
Definition bee_bucket_end_sync_session (s : bucket_sync_session_t) : bucket_sync_session_t * list Z :=
  (match ss_kccursor s with Some _ => with_cursor (ss_kcdb s) None s | None => s end,
   filter (fun fd => fd ≠ -1) (t_socket_fd <$> targets s)).

(** The thread: [rounds] is what it finds in each sprint, the buckets and the stack, while
    other threads act in between.  After these rounds it is still running, or it has ended
    and closed some sockets. *)
Fixpoint esq_bucket_sync_worker (rounds : list (bees (DB := DB) * Z * Z)) (s : bucket_sync_session_t) (w : net_t) (D : dash)
    : cres (bucket_sync_session_t * net_t * dash + bucket_sync_session_t * list Z * net_t * dash) :=
  match rounds with
  | [] => Ret (inl (s, w, D))
  | (W, jip, jport) :: rounds =>
      '(r, s, w, D) ← bee_bucket_sync_session_sprint W jip jport s w D;
      if r =? 0 then esq_bucket_sync_worker rounds s w D
      else let '(s, closed) := bee_bucket_end_sync_session s in Ret (inr (s, closed, w, D))
  end.

(** The session as the thread gets it, or left behind after an error. *)
Definition bee_bucket_start_sync_thread W (cursor_ok thread_ok : bool) (jip jport : Z) (s : bucket_sync_session_t)
    : cres (option string * bucket_sync_session_t) :=
  '(e, s) ← bee_bucket_start_sync_session W cursor_ok jip jport s;
  match e with
  | Some e => Ret (Some e, s)
  | None =>
      if negb thread_ok then
        Ret (Some "failed to create bucket sync worker thread"%string, (bee_bucket_end_sync_session s).1)
      else Ret (None, s)
  end.

(** ** The command of the script *)

Context (inet_addr : list Z → Z).

(** The address, the port and the text of the hash of a target, as the script gives them. *)
Record triad := Triad { a_ip : list Z; a_ip_length : Z; a_port : Z; a_hash : list Z; a_hash_length : Z }.

Definition zero_target : bucket_sync_target_t :=
  Target 0 (Sockaddr 0 0 0) (replicate (Z.to_nat HASH_VALUE_LENGTH) 0) 0 None None None
    (replicate (Z.to_nat (HASH_VALUE_LENGTH + 8)) 0) 0.

Definition sync_target (a : triad) : cres (string + bucket_sync_target_t) :=
  '(r, _) ← Ipv4.get_ipv4_addr (a_ip a) (a_ip_length a);
  if r =? 0 then Ret (inl "invalid ip"%string)
  else if PORT_NUMBER_INVALID (a_port a) then Ret (inl "invalid port"%string)
  else
    h ← config_hash (a_hash a) (a_hash_length a) "invalid hash string" "invalid hash string";
    match h with
    | inl e => Ret (inl e)
    | inr hash_len =>
        '(r, hash) ← HashString.hash_str_2_bin (t_hash zero_target) (a_hash a) hash_len;
        if negb (r =? 0) then Ret (inl "failed to transform hash string into binary"%string)
        else
          str ← c_memcpy (t_hash_str zero_target) 0 (a_hash a) (a_hash_length a);
          Ret (inr (Target 0 (Sockaddr AF_INET (htons (a_port a)) (inet_addr (a_ip a))) hash (Z.shiftr hash_len 1)
                      None None None str (a_hash_length a)))
    end.

Fixpoint sync_targets (l : list triad) : cres (string + targets_t) :=
  match l with
  | [] => Ret (inr [])
  | a :: l =>
      t ← sync_target a;
      match t with
      | inl e => Ret (inl e)
      | inr t => ts ← sync_targets l; Ret (match ts with inl e => inl e | inr ts => inr (t :: ts) end)
      end
  end.

Definition duplicated (t u : bucket_sync_target_t) : cres bool :=
  if negb (sin_port (t_address t) =? sin_port (t_address u)) then Ret false
  else if negb (s_addr (t_address t) =? s_addr (t_address u)) then Ret false
  else if negb (t_hash_length t =? t_hash_length u) then Ret false
  else r ← c_memcmp (t_hash t) (t_hash u) (t_hash_length t); Ret (r =? 0).

Fixpoint any_duplicate (t : bucket_sync_target_t) (us : targets_t) : cres bool :=
  match us with
  | [] => Ret false
  | u :: us => d ← duplicated t u; if d : bool then Ret true else any_duplicate t us
  end.

Fixpoint check_duplication (ts : targets_t) : cres bool :=
  match ts with
  | [] => Ret false
  | t :: ts => d ← any_duplicate t ts; if d : bool then Ret true else check_duplication ts
  end.

(** The message or the number of the dashboard item, the session of the new thread and the
    dashboard.  [mem_ok], [dash_ok], [cursor_ok] and [thread_ok] say whether the memory, the
    item, the cursor and the thread can be had. *)
Definition bee_mkccb_create_bucket_sync_session W (D : dash) (mem_ok dash_ok cursor_ok thread_ok : bool)
    (jip jport : Z) (range_map : list Z) (range_map_length : Z) (hash : list Z) (hash_length : Z) (l : list triad)
    : cres ((string + Z) * option bucket_sync_session_t * dash) :=
  if (length l =? 0)%nat
  then Ret (inl "need to specify range map name, hash string, target ip-port-hash triad(s)"%string, None, D)
  else if RANGE_MAP_NAME_MAX <=? range_map_length then Ret (inl "range map name too long"%string, None, D)
  else
    e ← range_map_name_check2 range_map range_map_length;
    if decide (e ≠ None) then Ret (inl "invalid range map name"%string, None, D)
    else if HASH_VALUE_LENGTH <=? hash_length then Ret (inl "hash string too long"%string, None, D)
    else
      h ← config_hash hash hash_length "invalid hash string" "invalid hash string";
      match h with
      | inl e => Ret (inl e, None, D)
      | inr _ =>
          if negb mem_ok then Ret (inl "out of memory"%string, None, D) else
          name ← c_memcpy (replicate (Z.to_nat (RANGE_MAP_NAME_MAX + 8)) 0) 0 range_map (range_map_length + 1);
          str ← c_memcpy (replicate (Z.to_nat (HASH_VALUE_LENGTH + 8)) 0) 0 hash (hash_length + 1);
          ts ← sync_targets l;
          match ts with
          | inl e => Ret (inl e, None, D)
          | inr ts =>
              d ← check_duplication ts;
              if d : bool then Ret (inl "items are duplicated"%string, None, D) else
              '(item, D) ← esq_dashboard_new dash_ok D;
              if item =? -1 then Ret (inl "failed to create dashboard item"%string, None, D) else
              ts ← bee_create_target_cross_links ts;
              let ts := set_t_socket_fd (-1) <$> ts in
              '(e, s) ← bee_bucket_start_sync_thread W cursor_ok thread_ok jip jport
                          (Sync name range_map_length str hash_length item None None None 0 ts);
              match e with
              | Some e => '(_, D) ← esq_dashboard_remove_item D item; Ret (inl e, None, D)
              | None => Ret (inr item, Some s, D)
              end
          end
      end.
End BeeSync.
