(* ===== verification/BeeSyncThms.v ===== *)
(** * Items reach the targets of their range

    The lists of targets, what is sent for an item, the sprints over a database and the end
    of the thread, for [BeeSync]. *)
From stdpp Require Import strings.
From S2P Require Import Prelude CString LinkedList RbTree Scan RangeMap RangeIndex RangeTable Bucket BucketInv BucketThms BeeDb BeeDbThms Dashboard BeeSync.

(** ** Targets *)

Definition hash_of (t : bucket_sync_target_t) : list Z := take (Z.to_nat (t_hash_length t)) (t_hash t).

Record target_ok (t : bucket_sync_target_t) : Prop := {
  to_hash : length (t_hash t) = 32%nat;
  to_length : 0 <= t_hash_length t <= 32;
  to_str : 0 <= t_hash_str_length t <= Z.of_nat (length (t_hash_str t))
}.

(** All of a target but its links. *)
Definition unlinked (t : bucket_sync_target_t) : bucket_sync_target_t :=
  set_same_hash_next None (set_next_hash_list None t).

Lemma target_ok_unlinked t : target_ok (unlinked t) ↔ target_ok t.
Proof. split; intros [H1 H2 H3]; by split. Qed.

Lemma length_hash_of t : target_ok t → length (hash_of t) = Z.to_nat (t_hash_length t).
Proof. intros [H1 H2 _]. unfold hash_of. rewrite length_take. lia. Qed.

Lemma same_hash_ok p t : target_ok p → target_ok t → same_hash p t = Ret (bool_decide (hash_of p = hash_of t)).
Proof.
  intros Hp Ht. unfold same_hash. pose proof (length_hash_of p Hp) as Lp. pose proof (length_hash_of t Ht) as Lt.
  destruct Hp as [Hp1 Hp2 _], Ht as [Ht1 Ht2 _].
  destruct (Z.eqb_spec (t_hash_length p) (t_hash_length t)) as [E|E]; cbn [negb].
  2:{ rewrite bool_decide_false; [done|]. intros E'. rewrite E' in Lp. lia. }
  unfold hash_of. rewrite <- E. destruct (Z.eqb_spec (t_hash_length p) 0) as [E0|E0].
  { rewrite E0. by rewrite bool_decide_true. }
  unfold c_memcmp. rewrite decide_True by lia. cbn [mbind cres_bind]. f_equal.
  apply eq_true_iff_eq. rewrite Z.eqb_eq, bool_decide_eq_true, memcmp_eq by lia. done.
Qed.

(** ** Lists of indices *)

(** The targets [l] in a row, by one of the two links. *)
Fixpoint chain (next : bucket_sync_target_t → option nat) (ts : targets_t) (l : list nat) : Prop :=
  match l with [] => True | i :: r => next <$> ts !! i = Some (head r) ∧ chain next ts r end.

Lemma chain_ext next ts ts' l :
  (∀ i, i ∈ l → next <$> ts' !! i = next <$> ts !! i) → chain next ts l → chain next ts' l.
Proof.
  induction l as [|i l IH]; intros He; [done|]. intros [E Hl]. split; [by rewrite He by set_solver|].
  apply IH; [set_solver|done].
Qed.

Lemma chain_lookup next ts l i : chain next ts l → i ∈ l → is_Some (ts !! i).
Proof.
  induction l as [|j l IH]; [by intros _ ?%elem_of_nil|]. intros [E Hl] [->|Hi]%elem_of_cons; [|by apply IH].
  by apply fmap_Some in E as (t & -> & _).
Qed.

Lemma tget_ok ts i t : ts !! i = Some t → tget ts i = Ret t.
Proof. intros E. unfold tget. by rewrite E. Qed.

Lemma tput_ok ts i t f : ts !! i = Some t → tput ts i f = Ret (<[i := f t]> ts).
Proof. intros E. unfold tput. by rewrite (tget_ok _ _ _ E). Qed.

Lemma last_target_ok next ts i l fuel :
  chain next ts (i :: l) → (length l < fuel)%nat → last_target fuel next ts i = Ret (List.last (i :: l) 0%nat).
Proof.
  revert i fuel. induction l as [|j l IH]; intros i fuel [E Hl] Hf; (destruct fuel as [|fuel]; [simpl in Hf; lia|]);
    cbn [last_target]; apply fmap_Some in E as (t & Et & En); rewrite (tget_ok _ _ _ Et); cbn [mbind cres_bind];
    rewrite <- En; [done|]. change (head (j :: l)) with (Some j). cbn iota. rewrite IH; [done|done|simpl in Hf; lia].
Qed.

(** A new target at the end. *)
Lemma chain_snoc next ts l i t ti f :
  let p := List.last l 0%nat in
  l ≠ [] → chain next ts l → NoDup l → i ∉ l → ts !! p = Some t → next (f t) = Some i →
  ts !! i = Some ti → next ti = None → chain next (<[p := f t]> ts) (l ++ [i]).
Proof.
  intros p Hl. subst p. induction l as [|j l IH]; [done|]. clear Hl. intros [E Hl] Hnd Hi Hp Hf Hti Hni.
  apply NoDup_cons in Hnd as [Hj Hnd]. destruct l as [|k l].
  - simpl in *. rewrite list_lookup_insert_eq by (by apply lookup_lt_Some in Hp). split; [simpl; by rewrite Hf|].
    rewrite list_lookup_insert_ne by set_solver. rewrite Hti. simpl. by rewrite Hni.
  - split.
    + change (List.last (j :: k :: l) 0%nat) with (List.last (k :: l) 0%nat).
      rewrite list_lookup_insert_ne; [done|]. intros <-. apply Hj.
      destruct (exists_last (l := k :: l)) as (r & z & Ez); [done|]. rewrite Ez, last_last. set_solver.
    + apply IH; try done. set_solver.
Qed.

Lemma last_in (l : list nat) d : l ≠ [] → List.last l d ∈ l.
Proof. intros H. destruct (exists_last H) as (r & z & ->). rewrite last_last. set_solver. Qed.

(** ** Groups *)

Definition hash_at (ts : targets_t) (i : nat) : option (list Z) := hash_of <$> ts !! i.
Definition heads (G : list (list nat)) : list nat := omap head G.
Definition group_hash (ts : targets_t) (g : list nat) : option (list Z) := head g ≫= hash_at ts.

(** The first [n] targets are in the groups [G], one for each hash, and the links are theirs. *)
Record grouped (ts : targets_t) (G : list (list nat)) (n : nat) : Prop := {
  gr_first : head (heads G) = Some 0%nat;
  gr_heads : chain next_hash_list ts (heads G);
  gr_groups : Forall (chain same_hash_next ts) G;
  gr_perm : concat G ≡ₚ seq 0 n;
  gr_ne : Forall (fun g => g ≠ []) G;
  gr_same g i : g ∈ G → i ∈ g → hash_at ts i = group_hash ts g;
  gr_nodup : NoDup (group_hash ts <$> G)
}.

Lemma hash_at_unlinked ts ts' i : unlinked <$> ts' = unlinked <$> ts → hash_at ts' i = hash_at ts i.
Proof.
  intros E. assert (Ei : (unlinked <$> ts') !! i = (unlinked <$> ts) !! i) by (by rewrite E).
  rewrite !list_lookup_fmap in Ei. unfold hash_at.
  destruct (ts' !! i), (ts !! i); try done. simpl in *. f_equal.
  change (hash_of (unlinked b) = hash_of (unlinked b0)). congruence.
Qed.

Lemma group_hash_unlinked ts ts' g : unlinked <$> ts' = unlinked <$> ts → group_hash ts' g = group_hash ts g.
Proof. intros E. unfold group_hash. destruct (head g); [|done]. by apply hash_at_unlinked. Qed.

Lemma insert_unlinked (ts : targets_t) p t f :
  ts !! p = Some t → unlinked (f t) = unlinked t → unlinked <$> <[p := f t]> ts = unlinked <$> ts.
Proof.
  intros E Ef. rewrite list_fmap_insert, Ef. apply list_insert_id. by rewrite list_lookup_fmap, E.
Qed.

Lemma all_ok_unlinked (ts ts' : targets_t) : unlinked <$> ts' = unlinked <$> ts → Forall target_ok ts → Forall target_ok ts'.
Proof.
  intros E H. assert (H' : Forall target_ok (unlinked <$> ts)).
  { apply Forall_fmap. eapply Forall_impl; [exact H|]. intros t. apply target_ok_unlinked. }
  rewrite <- E, Forall_fmap in H'. eapply Forall_impl; [exact H'|]. intros t. apply target_ok_unlinked.
Qed.

Lemma find_same_hash_ok ts l t fuel :
  Forall target_ok ts → target_ok t → chain next_hash_list ts l → (length l < fuel)%nat →
  find_same_hash fuel ts (head l) t = Ret (head (filter (fun j => hash_at ts j = Some (hash_of t)) l)).
Proof.
  intros Hts Ht. revert fuel. induction l as [|j l IH]; intros fuel Hl Hf; (destruct fuel as [|fuel]; [simpl in Hf; lia|]);
    [done|]. destruct Hl as [E Hl]. apply fmap_Some in E as (x & Ex & En). change (head (j :: l)) with (Some j). cbn [find_same_hash].
  rewrite (tget_ok _ _ _ Ex). cbn [mbind cres_bind].
  pose proof (proj1 (Forall_lookup _ _) Hts j x Ex) as Hx. rewrite same_hash_ok by done. cbn [mbind cres_bind].
  rewrite filter_cons. case_bool_decide as Hh.
  - rewrite decide_True; [done|]. unfold hash_at. rewrite Ex. simpl. by rewrite Hh.
  - rewrite decide_False; [rewrite <- En; apply IH; [done|simpl in Hf; lia]|].
    unfold hash_at. rewrite Ex. simpl. congruence.
Qed.

Lemma elem_heads G j : j ∈ heads G → ∃ G1 r G2, G = G1 ++ (j :: r) :: G2.
Proof.
  intros (g & Hg & Hh)%list_elem_of_omap. apply list_elem_of_split in Hg as (G1 & G2 & ->).
  destruct g as [|j' r]; [done|]. injection Hh as ->. eauto.
Qed.

Lemma heads_app G1 G2 : heads (G1 ++ G2) = heads G1 ++ heads G2.
Proof. unfold heads. by rewrite omap_app. Qed.

Lemma heads_in_concat G j : j ∈ heads G → j ∈ concat G.
Proof.
  intros (G1 & r & G2 & ->)%elem_heads. rewrite concat_app. simpl. set_solver.
Qed.

Lemma heads_sublist G : sublist (heads G) (concat G).
Proof.
  induction G as [|[|j r] G IH]; [done|done|]. simpl. apply sublist_skip, sublist_inserts_l, IH.
Qed.

Section Links.
Context (ts : targets_t) (G : list (list nat)) (i : nat) (t : bucket_sync_target_t).
Hypotheses (Hok : Forall target_ok ts) (HG : grouped ts G i) (Ht : ts !! i = Some t)
           (Hfree : same_hash_next t = None ∧ next_hash_list t = None).

Lemma grouped_bound l : l ⊆+ concat G → (length l < S (length ts))%nat ∧ NoDup l ∧ i ∉ l.
Proof.
  intros Hs. rewrite (gr_perm _ _ _ HG) in Hs. pose proof (submseteq_length _ _ Hs) as Hl. rewrite length_seq in Hl.
  apply lookup_lt_Some in Ht. split; [lia|]. destruct (submseteq_Permutation _ _ Hs) as [k Hk]. split.
  - assert (Hn : NoDup (l ++ k)) by (rewrite <- Hk; apply NoDup_seq). by apply NoDup_app in Hn as [? _].
  - intros Hi. assert (i ∈ seq 0 i) by (rewrite Hk; set_solver). rewrite elem_of_seq in *. lia.
Qed.

Lemma heads_bound : (length (heads G) < S (length ts))%nat ∧ NoDup (heads G) ∧ i ∉ heads G.
Proof. apply grouped_bound, sublist_submseteq, heads_sublist. Qed.

Lemma group_bound g : g ∈ G → (length g < S (length ts))%nat ∧ NoDup g ∧ i ∉ g.
Proof.
  intros (G1 & G2 & E)%list_elem_of_split. apply grouped_bound. rewrite E, concat_app. simpl.
  apply submseteq_inserts_l, submseteq_inserts_r. done.
Qed.

(** A target with a hash of its own starts a list. *)
Lemma link_new_group :
  (∀ j, j ∈ heads G → hash_at ts j ≠ Some (hash_of t)) →
  ∃ p tp, last_target (S (length ts)) next_hash_list ts 0 = Ret p ∧ ts !! p = Some tp ∧ (p < i)%nat ∧
    grouped (<[p := set_next_hash_list (Some i) tp]> ts) (G ++ [[i]]) (S i).
Proof.
  intros Hno. destruct heads_bound as (Hb & Hnd & Hi). pose proof HG as [Hf Hh Hg Hp Hne Hs Hd].
  destruct (heads G) as [|j l] eqn:El; [done|]. injection Hf as ->.
  set (p := List.last (0%nat :: l) 0%nat).
  assert (Hpl : p ∈ heads G) by (rewrite El; by apply last_in).
  assert (Hpi : (p < i)%nat).
  { apply heads_in_concat in Hpl. rewrite Hp, elem_of_seq in Hpl. lia. }
  rewrite <- El in Hh. destruct (chain_lookup _ _ _ p Hh Hpl) as [tp Htp]. exists p, tp.
  rewrite El in Hh. split; [apply last_target_ok; [done|simpl in Hb; lia]|]. split; [done|]. split; [done|].
  assert (Hu : unlinked <$> <[p := set_next_hash_list (Some i) tp]> ts = unlinked <$> ts)
    by (by apply insert_unlinked).
  split.
  - rewrite heads_app, El. done.
  - rewrite heads_app, El. simpl heads. apply (chain_snoc next_hash_list ts (0%nat :: l) i tp t); tauto || done.
  - apply Forall_app. split.
    + eapply Forall_impl; [exact Hg|]. intros g. apply chain_ext. intros j _.
      destruct (decide (j = p)) as [->|Hj]; [|by rewrite list_lookup_insert_ne by done].
      rewrite list_lookup_insert_eq by (by apply lookup_lt_Some in Htp). by rewrite Htp.
    + repeat constructor. simpl. rewrite list_lookup_insert_ne by lia. rewrite Ht. simpl. by destruct Hfree as [-> _].
  - rewrite concat_app, seq_S. simpl. by rewrite Hp.
  - apply Forall_app. split; [done|]. by repeat constructor.
  - intros g k Hgm Hk. rewrite (hash_at_unlinked ts), (group_hash_unlinked ts) by done.
    apply elem_of_app in Hgm as [Hgm | ->%list_elem_of_singleton]; [by apply Hs|].
    apply list_elem_of_singleton in Hk as ->. done.
  - rewrite fmap_app. rewrite (list_fmap_ext _ (group_hash ts)) by (intros; by apply group_hash_unlinked).
    simpl. rewrite group_hash_unlinked with (ts := ts) by done. apply NoDup_app. split; [done|]. split; [|apply NoDup_singleton].
    intros h (g & -> & Hgm)%list_elem_of_fmap Eh%list_elem_of_singleton. rewrite Forall_forall in Hne.
    destruct g as [|j r]; [by apply (Hne [])|]. apply (Hno j).
    + rewrite <- El. apply list_elem_of_omap. by exists (j :: r).
    + unfold group_hash in Eh. simpl in Eh. rewrite Eh. unfold hash_at. by rewrite Ht.
Qed.

(** Otherwise it comes to the end of the list of its hash. *)
Lemma link_old_group j :
  j ∈ heads G → hash_at ts j = Some (hash_of t) →
  ∃ p tp G', last_target (S (length ts)) same_hash_next ts j = Ret p ∧ ts !! p = Some tp ∧ (p < i)%nat ∧
    grouped (<[p := set_same_hash_next (Some i) tp]> ts) G' (S i).
Proof.
  intros Hj Eh. destruct (elem_heads G j Hj) as (G1 & r & G2 & EG). set (g := j :: r) in *.
  assert (Hgm : g ∈ G) by (rewrite EG; set_solver).
  destruct (group_bound g Hgm) as (Hb & Hnd & Hi). pose proof HG as [Hf Hh Hg Hp Hne Hs Hd].
  pose proof (proj1 (Forall_forall _ _) Hg g Hgm) as Hc.
  set (p := List.last g 0%nat). assert (Hpg : p ∈ g) by (by apply last_in).
  destruct (chain_lookup _ _ _ p Hc Hpg) as [tp Htp]. exists p, tp, (G1 ++ (g ++ [i]) :: G2).
  assert (Hpi : (p < i)%nat).
  { assert (Hpc : p ∈ concat G) by (rewrite EG, concat_app; simpl; set_solver). rewrite Hp, elem_of_seq in Hpc. lia. }
  split; [apply last_target_ok; [done|simpl in Hb; lia]|]. split; [done|]. split; [done|].
  assert (Hu : unlinked <$> <[p := set_same_hash_next (Some i) tp]> ts = unlinked <$> ts)
    by (by apply insert_unlinked).
  assert (Hhs : heads (G1 ++ (g ++ [i]) :: G2) = heads G) by (by rewrite EG, !heads_app).
  assert (Hother : ∀ g', g' ∈ G1 ++ G2 → chain same_hash_next (<[p := set_same_hash_next (Some i) tp]> ts) g').
  { intros g' Hg'. apply (chain_ext _ ts); [|apply (proj1 (Forall_forall _ _) Hg); rewrite EG; set_solver].
    intros k Hk. rewrite list_lookup_insert_ne; [done|]. intros <-.
    assert (Hn : NoDup (concat G)) by (rewrite Hp; apply NoDup_seq).
    assert (Hpp : concat G ≡ₚ g ++ concat (G1 ++ G2)).
    { rewrite EG, !concat_app. cbn [concat]. by rewrite Permutation_app_swap_app. }
    rewrite Hpp in Hn. apply NoDup_app in Hn as (_ & Hn & _). apply (Hn p Hpg).
    apply list_elem_of_split in Hg' as (A & B & ->). rewrite concat_app. simpl. set_solver. }
  split.
  - by rewrite Hhs.
  - rewrite Hhs. eapply chain_ext; [|exact Hh]. intros k _.
    destruct (decide (k = p)) as [->|Hk]; [|by rewrite list_lookup_insert_ne by done].
    rewrite list_lookup_insert_eq by (by apply lookup_lt_Some in Htp). by rewrite Htp.
  - apply Forall_app. split; [apply Forall_forall; intros; apply Hother; set_solver|].
    apply Forall_cons. split; [|apply Forall_forall; intros; apply Hother; set_solver].
    apply (chain_snoc same_hash_next ts g i tp t); tauto || done.
  - rewrite seq_S, <- Hp, EG, !concat_app. cbn [concat]. clear. solve_Permutation.
  - rewrite EG in Hne. apply Forall_app in Hne as [H1 H2]. apply Forall_cons in H2 as [_ H2].
    apply Forall_app. split; [done|]. by apply Forall_cons.
  - intros g' k Hg' Hk. rewrite (hash_at_unlinked ts), (group_hash_unlinked ts) by done.
    assert (Hcase : g' ∈ G ∨ g' = g ++ [i]) by (rewrite EG; set_solver). destruct Hcase as [Hin | ->]; [by apply Hs|].
    change (group_hash ts (g ++ [i])) with (group_hash ts g). apply elem_of_app in Hk as [Hk|Hk]; [by apply Hs|].
    apply list_elem_of_singleton in Hk as ->. unfold group_hash. simpl. rewrite Eh. unfold hash_at. by rewrite Ht.
  - rewrite (list_fmap_ext _ (group_hash ts)) by (intros; by apply group_hash_unlinked).
    rewrite EG in Hd. rewrite fmap_app in *. exact Hd.
Qed.

Lemma link_target_ok :
  ∃ ts' G', link_target ts i = Ret ts' ∧ grouped ts' G' (S i) ∧ unlinked <$> ts' = unlinked <$> ts ∧
    ∀ j, (i <= j)%nat → ts' !! j = ts !! j.
Proof.
  unfold link_target. rewrite (tget_ok _ _ _ Ht). cbn [mbind cres_bind].
  destruct heads_bound as (Hb & _). rewrite <- (gr_first _ _ _ HG).
  pose proof (proj1 (Forall_lookup _ _) Hok i t Ht) as Htok.
  rewrite find_same_hash_ok by (done || apply (gr_heads _ _ _ HG)). cbv zeta. cbn [mbind cres_bind].
  assert (Hdone : ∀ p tp f, ts !! p = Some tp → (p < i)%nat → unlinked (f tp) = unlinked tp →
    unlinked <$> <[p := f tp]> ts = unlinked <$> ts ∧ ∀ j, (i <= j)%nat → <[p := f tp]> ts !! j = ts !! j).
  { intros p tp f Htp Hp Hf. split; [by apply insert_unlinked|]. intros j Hj. by rewrite list_lookup_insert_ne by lia. }
  destruct (filter _ (heads G)) as [|j l] eqn:El.
  - destruct link_new_group as (p & tp & E & Htp & Hp & Hg).
    { intros j Hj Hh. apply (not_elem_of_nil j). rewrite <- El. by apply list_elem_of_filter. }
    cbn [head]. rewrite E. cbn [mbind cres_bind]. rewrite (tput_ok _ _ _ _ Htp). eexists _, _. split; [done|].
    split; [exact Hg|]. by apply Hdone.
  - assert (Hj : j ∈ filter (fun j => hash_at ts j = Some (hash_of t)) (heads G)) by (rewrite El; set_solver).
    apply list_elem_of_filter in Hj as [Hh Hj]. destruct (link_old_group j Hj Hh) as (p & tp & G' & E & Htp & Hp & Hg).
    cbn [head]. rewrite E. cbn [mbind cres_bind]. rewrite (tput_ok _ _ _ _ Htp). eexists _, _. split; [done|].
    split; [exact Hg|]. by apply Hdone.
Qed.
End Links.

Lemma cross_link_loop_ok n i ts G :
  Forall target_ok ts → grouped ts G i → (i + n <= length ts)%nat →
  (∀ j t, (i <= j)%nat → ts !! j = Some t → same_hash_next t = None ∧ next_hash_list t = None) →
  ∃ ts' G', cross_link_loop ts (seq i n) = Ret ts' ∧ grouped ts' G' (i + n) ∧ unlinked <$> ts' = unlinked <$> ts.
Proof.
  revert i ts G. induction n as [|n IH]; intros i ts G Hok HG Hn Hfree; simpl.
  { exists ts, G. by rewrite Nat.add_0_r. }
  destruct (lookup_lt_is_Some_2 ts i) as [t Ht]; [lia|].
  destruct (link_target_ok ts G i t Hok HG Ht) as (ts1 & G1 & -> & HG1 & Hu & Hlater); [by apply (Hfree i)|].
  cbn [mbind cres_bind]. assert (El : length ts1 = length ts).
  { rewrite <- (length_fmap unlinked ts1), Hu. by rewrite length_fmap. }
  destruct (IH (S i) ts1 G1) as (ts' & G' & E & HG' & Hu').
  - by eapply all_ok_unlinked.
  - done.
  - lia.
  - intros j t' Hj Ht'. rewrite Hlater in Ht' by lia. apply (Hfree j); [lia|done].
  - exists ts', G'. split; [done|]. split; [by rewrite Nat.add_succ_r|]. by rewrite Hu'.
Qed.

Lemma cross_links_ok ts :
  ts ≠ [] → Forall target_ok ts → Forall (fun t => same_hash_next t = None ∧ next_hash_list t = None) ts →
  ∃ ts' G, bee_create_target_cross_links ts = Ret ts' ∧ grouped ts' G (length ts) ∧ unlinked <$> ts' = unlinked <$> ts.
Proof.
  intros Hne Hok Hfree. unfold bee_create_target_cross_links. destruct ts as [|t0 ts0] eqn:Ets; [done|].
  rewrite <- Ets in *. assert (Ht0 : ts !! 0%nat = Some t0) by (by rewrite Ets).
  pose proof (proj1 (Forall_lookup _ _) Hfree 0%nat t0 Ht0) as [F1 F2].
  destruct (cross_link_loop_ok (length ts - 1) 1 ts [[0%nat]]) as (ts' & G & E & HG & Hu).
  - done.
  - split; simpl; rewrite ?Ht0; simpl; rewrite ?F1, ?F2; try done.
    + by repeat constructor; simpl; rewrite ?Ht0; simpl; rewrite ?F1.
    + by repeat constructor.
    + by intros g k ->%list_elem_of_singleton ->%list_elem_of_singleton.
    + apply NoDup_singleton.
  - rewrite Ets. simpl. lia.
  - intros j t _ Ht. apply (proj1 (Forall_lookup _ _) Hfree j t Ht).
  - exists ts', G. split; [done|]. split; [|done]. replace (length ts) with (1 + (length ts - 1))%nat; [done|].
    rewrite Ets. simpl. lia.
Qed.

(** ** What sending changes *)

(** All of a target but its socket and its error. *)
Definition core (t : bucket_sync_target_t) : bucket_sync_target_t :=
  Target 0 (t_address t) (t_hash t) (t_hash_length t) (same_hash_next t) (next_hash_list t) None (t_hash_str t)
    (t_hash_str_length t).

Lemma core_field {A} (f : bucket_sync_target_t → A) (ts ts' : targets_t) (i : nat) :
  (∀ t, f (core t) = f t) → core <$> ts' = core <$> ts → f <$> ts' !! i = f <$> ts !! i.
Proof.
  intros Hf E. assert (Ei : (core <$> ts') !! i = (core <$> ts) !! i) by (by rewrite E).
  rewrite !list_lookup_fmap in Ei. destruct (ts' !! i) as [a|], (ts !! i) as [b|]; try done.
  simpl in *. f_equal. rewrite <- (Hf a), <- (Hf b). congruence.
Qed.

Lemma core_ok (ts ts' : targets_t) : core <$> ts' = core <$> ts → Forall target_ok ts → Forall target_ok ts'.
Proof.
  intros E. rewrite !Forall_lookup. intros H i t Ht.
  pose proof (core_field core ts ts' i (fun _ => eq_refl) E) as Ei. rewrite Ht in Ei. simpl in Ei.
  symmetry in Ei. apply fmap_Some in Ei as (u & Hu & Eu). destruct (H i u Hu) as [H1 H2 H3].
  injection Eu as _ E1 E2 _ _ E3 E4. split; congruence.
Qed.

Lemma core_length (ts ts' : targets_t) : core <$> ts' = core <$> ts → length ts' = length ts.
Proof. intros E. rewrite <- (length_fmap core ts'), E. by rewrite length_fmap. Qed.

Lemma core_grouped (ts ts' : targets_t) G n : core <$> ts' = core <$> ts → grouped ts G n → grouped ts' G n.
Proof.
  intros E [Hf Hh Hg Hp Hne Hs Hd].
  assert (Ehash : ∀ i, hash_at ts' i = hash_at ts i) by (intros i; by apply core_field).
  assert (Egh : ∀ g, group_hash ts' g = group_hash ts g).
  { intros g. unfold group_hash. destruct (head g); [apply Ehash|done]. }
  split; try done.
  - eapply chain_ext; [|exact Hh]. intros i _. by apply core_field.
  - eapply Forall_impl; [exact Hg|]. intros g. apply chain_ext. intros i _. by apply core_field.
  - intros g i Hgm Hi. rewrite Ehash, Egh. by apply Hs.
  - by rewrite (list_fmap_ext _ (group_hash ts)) by (intros; apply Egh).
Qed.

Lemma bind_ext_in {A B} (f g : A → list B) l : (∀ x, x ∈ l → f x = g x) → l ≫= f = l ≫= g.
Proof.
  induction l as [|x l IH]; intros E; [done|]. rewrite !bind_cons, E, IH; [done|..]; set_solver.
Qed.

Lemma filter_all_in {A} (P : A → Prop) `{!∀ x, Decision (P x)} (l : list A) : (∀ x, x ∈ l → P x) → filter P l = l.
Proof.
  induction l as [|x l IH]; intros Hl; [done|]. rewrite filter_cons_True by (apply Hl; set_solver).
  f_equal. apply IH. set_solver.
Qed.

Lemma filter_none_in {A} (P : A → Prop) `{!∀ x, Decision (P x)} (l : list A) : (∀ x, x ∈ l → ¬ P x) → filter P l = [].
Proof.
  induction l as [|x l IH]; intros Hl; [done|]. rewrite filter_cons_False by (apply Hl; set_solver).
  apply IH. set_solver.
Qed.

(** ** The targets of a hash *)

Definition in_range (ts : targets_t) (hash : list Z) (i : nat) : bool :=
  match hash_at ts i with Some h => bool_decide (h `prefix_of` hash) | None => false end.

Lemma hash_matches_ok t hash :
  target_ok t → length hash = 32%nat → hash_matches t hash = Ret (bool_decide (hash_of t `prefix_of` hash)).
Proof.
  intros Ht Hh. unfold hash_matches. pose proof (length_hash_of t Ht) as Hl. destruct Ht as [H1 H2 _].
  destruct (Z.eqb_spec (t_hash_length t) 0) as [E|E]; cbn [negb].
  { rewrite bool_decide_true; [done|]. unfold hash_of. rewrite E. apply prefix_nil. }
  unfold c_memcmp. rewrite decide_True by lia. cbn [mbind cres_bind]. f_equal. apply eq_true_iff_eq.
  rewrite Z.eqb_eq, bool_decide_eq_true, memcmp_eq by lia. fold (hash_of t). split.
  - intros ->. apply prefix_take.
  - intros [r ->]. rewrite <- Hl. by rewrite take_app_length.
Qed.

(** The targets of the groups whose hash is a prefix. *)
Definition reached (ts : targets_t) (hash : list Z) (G : list (list nat)) : list nat :=
  concat (filter (fun g => in_range ts hash (default 0%nat (head g)) = true) G).

Lemma reached_core (ts ts' : targets_t) hash G :
  core <$> ts' = core <$> ts → reached ts' hash G = reached ts hash G.
Proof.
  intros C. assert (Ei : ∀ i, in_range ts' hash i = in_range ts hash i).
  { intros i. unfold in_range, hash_at. by rewrite (core_field hash_of ts ts'). }
  unfold reached. f_equal. induction G as [|g G IH]; [done|]. by rewrite !filter_cons, IH, Ei.
Qed.

Lemma reached_in ts hash G j : j ∈ reached ts hash G → j ∈ concat G.
Proof.
  unfold reached. rewrite !list_elem_of_In, !in_concat. intros (g & Hg & Hj). exists g. split; [|done].
  rewrite <- list_elem_of_In in *. by apply list_elem_of_filter in Hg as [_ Hg].
Qed.

Lemma reached_perm ts G n hash :
  grouped ts G n → reached ts hash G ≡ₚ filter (fun i => in_range ts hash i = true) (seq 0 n).
Proof.
  intros [_ _ _ Hp Hne Hs _]. rewrite <- Hp. clear Hp. unfold reached.
  induction G as [|g G IH]; [done|]. apply Forall_cons in Hne as [Hg Hne].
  assert (Hgs : ∀ i, i ∈ g → in_range ts hash i = in_range ts hash (default 0%nat (head g))).
  { intros i Hi. unfold in_range. rewrite (Hs g i) by set_solver. unfold group_hash. by destruct g. }
  cbn [concat]. rewrite filter_app, filter_cons.
  assert (IH' := IH Hne ltac:(intros; apply Hs; set_solver)). destruct (in_range ts hash (default 0%nat (head g))) eqn:E.
  - rewrite decide_True by done. cbn [concat]. by rewrite IH', (filter_all_in _ g).
  - rewrite decide_False by done. rewrite IH', (filter_none_in _ g); [done|]. intros i Hi. rewrite Hgs by done. congruence.
Qed.

(** ** What is sent for an item *)

Section Items.
Context {DB : Type} `{KcLaws DB, !KcCursor DB}.
Context (sha256 : list Z → list Z) (open_fd : nat → Z) (answer : nat → Z → Z).
Implicit Types (s : bucket_sync_session_t (DB := DB)) (w : net_t).

Record sync_ok s (G : list (list nat)) : Prop := {
  so_name : 0 <= ss_range_map_name_length s <= Z.of_nat (length (ss_range_map_name s));
  so_targets : Forall target_ok (targets s);
  so_groups : grouped (targets s) G (length (targets s))
}.

(** The pieces of the message for a target: the name is sent once on each connection. *)
Definition item_pieces s (t : bucket_sync_target_t) (k v : list Z) : list (list Z) :=
  let name := take (Z.to_nat (ss_range_map_name_length s)) (ss_range_map_name s) in
  let h n := sync_header n (Z.of_nat (length k)) (Z.of_nat (length v)) (t_hash_str_length t) in
  (if t_socket_fd t =? -1 then [h (ss_range_map_name_length s); name] else [h 0]) ++
  [take (Z.to_nat (t_hash_str_length t)) (t_hash_str t); k; v].

Definition item_parts s s' (k v : list Z) (i : nat) : list (Z * list Z) :=
  match targets s !! i, targets s' !! i with
  | Some t, Some t' => (fun d => (t_socket_fd t', d)) <$> item_pieces s t k v
  | _, _ => []
  end.

(** Only the targets change, and of them sockets and errors. *)
Definition kept s s' : Prop := s' = with_targets (targets s') s ∧ core <$> targets s' = core <$> targets s.

(** The item went to the targets [M], in that order, each over the socket it has or over a
    new one. *)
Record delivered s w s' w' (k v : list Z) (M : list nat) : Prop := {
  de_kept : kept s s';
  de_other j : j ∉ M → targets s' !! j = targets s !! j;
  de_socket j : j ∈ M → ∃ t fd, targets s !! j = Some t ∧ targets s' !! j = Some (set_t_socket_fd fd t) ∧ fd ≠ -1 ∧
    (t_socket_fd t ≠ -1 → fd = t_socket_fd t);
  de_sent : sent w' = sent w ++ (M ≫= item_parts s s' k v)
}.

(** The text of the hash of a target is as long as the key. *)
Definition as_long s (k : list Z) (i : nat) : Prop :=
  t_hash_str_length <$> targets s !! i = Some (Z.of_nat (length k)).

Definition outcome s w (k v : list Z) (M : list nat) (r : Z) s' w' : Prop :=
  Forall (as_long s k) M ∧ r = 0 ∧ delivered s w s' w' k v M ∨ ¬ Forall (as_long s k) M ∧ r = -1 ∧ kept s s'.

Lemma kept_trans s s1 s2 : kept s s1 → kept s1 s2 → kept s s2.
Proof. intros [E1 C1] [E2 C2]. split; [rewrite E2, E1; done|congruence]. Qed.

Lemma kept_ok s s' G : kept s s' → sync_ok s G → sync_ok s' G.
Proof.
  intros [E C] [H1 H2 H3]. split.
  - by rewrite E.
  - by eapply core_ok.
  - rewrite (core_length _ _ C). by eapply core_grouped.
Qed.

Lemma as_long_kept s s' k i : kept s s' → as_long s' k i ↔ as_long s k i.
Proof. intros [_ C]. unfold as_long. by rewrite (core_field t_hash_str_length (targets s) (targets s')). Qed.

Lemma delivered_nil s w k v : delivered s w s w k v [].
Proof. split; [by destruct s|done|by intros j ?%elem_of_nil|by rewrite app_nil_r]. Qed.

Lemma delivered_app s w s1 w1 s2 w2 k v M1 M2 :
  (∀ j, j ∈ M1 → j ∉ M2) → delivered s w s1 w1 k v M1 → delivered s1 w1 s2 w2 k v M2 →
  delivered s w s2 w2 k v (M1 ++ M2).
Proof.
  intros Hd [K1 O1 S1 E1] [K2 O2 S2 E2]. split.
  - by eapply kept_trans.
  - intros j Hj. rewrite O2, O1; [done|..]; set_solver.
  - intros j [Hj|Hj]%elem_of_app.
    + rewrite O2 by (by apply Hd). by apply S1.
    + destruct (S2 j Hj) as (t & fd & Ht & H'). exists t, fd. rewrite <- O1; [done|]. intros Hj1. by apply (Hd j).
  - rewrite E2, E1, bind_app, <- app_assoc. f_equal. f_equal; apply bind_ext_in; intros j Hj; unfold item_parts.
    + by rewrite O2 by (by apply Hd).
    + rewrite (O1 j) by (intros Hj1; by apply (Hd j)).
      assert (Ep : ∀ t, item_pieces s1 t k v = item_pieces s t k v); [|destruct (targets s !! j); [|done]; by rewrite Ep].
      intros t. destruct K1 as [-> _]. done.
Qed.

Lemma outcome_app s w s1 w1 s2 w2 k v M1 M2 r :
  (∀ j, j ∈ M1 → j ∉ M2) → outcome s w k v M1 0 s1 w1 → outcome s1 w1 k v M2 r s2 w2 →
  outcome s w k v (M1 ++ M2) r s2 w2.
Proof.
  intros Hd [(L1 & _ & D1)|(_ & ? & _)] H2; [|done]. pose proof (de_kept _ _ _ _ _ _ _ D1) as K1.
  assert (EM : Forall (as_long s1 k) M2 ↔ Forall (as_long s k) M2).
  { rewrite !Forall_forall. by split; intros HM i Hi; apply (as_long_kept s s1 k i K1), HM. }
  unfold outcome. rewrite Forall_app, <- EM. destruct H2 as [(L2 & -> & D2)|(L2 & -> & K2)].
  - left. split; [done|]. split; [done|]. by eapply delivered_app.
  - right. split; [tauto|]. split; [done|]. by eapply kept_trans.
Qed.

Lemma outcome_fail s w s1 w1 k v M1 M2 : outcome s w k v M1 (-1) s1 w1 → outcome s w k v (M1 ++ M2) (-1) s1 w1.
Proof. intros [(_ & ? & _)|(L & _ & K)]; [done|]. right. rewrite Forall_app. tauto. Qed.

(** *** With a kernel that takes everything *)

Definition kernel_ok : Prop := (∀ n z, 0 <= z → answer n z = z) ∧ ∀ n, open_fd n ≠ -1.

Context (Hkernel : kernel_ok).
Context (k v : list Z).

Lemma sys_write_ok fd data w :
  sys_write answer fd data w = (Z.of_nat (length data), Net (S (tick w)) (sent w ++ [(fd, data)])).
Proof.
  unfold sys_write. rewrite (proj1 Hkernel) by lia. by rewrite Nat2Z.id, firstn_all.
Qed.

Lemma span_take (b : list Z) n : 0 <= n <= Z.of_nat (length b) → span b 0 n = Ret (take (Z.to_nat n) b).
Proof. intros Hn. unfold span. by rewrite decide_True by lia. Qed.

Lemma span_all (b : list Z) : span b 0 (Z.of_nat (length b)) = Ret b.
Proof. rewrite span_take by lia. by rewrite Nat2Z.id, firstn_all. Qed.

(** The error, if one, and the sockets' bytes without one. *)
Lemma send_parts_ok fd parts w :
  match send_parts answer fd parts w with
  | (None, w') => Forall (fun p => Z.of_nat (length p.1.1) = p.1.2) parts ∧
                  sent w' = sent w ++ ((fun p => (fd, p.1.1)) <$> parts)
  | (Some _, _) => ¬ Forall (fun p => Z.of_nat (length p.1.1) = p.1.2) parts
  end.
Proof.
  revert w. induction parts as [|[[d n] e] parts IH]; intros w; cbn [send_parts].
  { split; [apply Forall_nil_2|]. by rewrite app_nil_r. }
  rewrite sys_write_ok. destruct (Z.eqb_spec (Z.of_nat (length d)) n) as [E|E]; cbn [negb].
  - specialize (IH (Net (S (tick w)) (sent w ++ [(fd, d)]))). destruct (send_parts _ _ _ _) as [[e'|] w'].
    + rewrite Forall_cons. tauto.
    + destruct IH as [IH ->]. split; [by apply Forall_cons|]. simpl. by rewrite <- app_assoc.
  - rewrite Forall_cons. tauto.
Qed.

Lemma insert_core (ts : targets_t) i t f : ts !! i = Some t → core (f t) = core t → core <$> <[i := f t]> ts = core <$> ts.
Proof. intros E Ef. rewrite list_fmap_insert, Ef. apply list_insert_id. by rewrite list_lookup_fmap, E. Qed.

Abbreviation to_target := (fun s w i => bee_bucket_sync_data_to_target open_fd answer s w k (Z.of_nat (length k)) v (Z.of_nat (length v)) i).

Lemma data_to_target_ok s w G i :
  sync_ok s G → (i < length (targets s))%nat →
  ∃ r s' w', to_target s w i = Ret (r, s', w') ∧ outcome s w k v [i] r s' w'.
Proof.
  intros [Hn Hts _] Hi. destruct (lookup_lt_is_Some_2 _ _ Hi) as [t Ht].
  pose proof (proj1 (Forall_lookup _ _) Hts i t Ht) as [Hh Hl Hs].
  unfold bee_bucket_sync_data_to_target. rewrite (tget_ok _ _ _ Ht). cbn [mbind cres_bind].
  rewrite (span_take (t_hash_str t)), !span_all by done. cbn [mbind cres_bind]. cbv zeta.
  set (hash := take (Z.to_nat (t_hash_str_length t)) (t_hash_str t)).
  assert (Hlen : Z.of_nat (length hash) = t_hash_str_length t) by (unfold hash; rewrite length_take; lia).
  assert (Hdone : ∀ fd pre w0, fd ≠ -1 → (t_socket_fd t ≠ -1 → fd = t_socket_fd t) →
    let ts := <[i := set_t_socket_fd fd t]> (targets s) in
    let parts := pre ++ [(hash, Z.of_nat (length k), "failed to send key"%string);
                         (k, Z.of_nat (length k), "failed to send key"%string);
                         (v, Z.of_nat (length v), "failed to send value"%string)] in
    Forall (fun p => Z.of_nat (length p.1.1) = p.1.2) pre → sent w0 = sent w →
    (fun p => p.1.1) <$> parts = item_pieces s t k v →
    ∃ r s' w', match send_parts answer fd parts w0 with
               | (Some e, w) => ts ← tput ts i (set_err e); Ret (-1, with_targets ts s, w)
               | (None, w) => Ret (0, with_targets ts s, w)
               end = Ret (r, s', w') ∧ outcome s w k v [i] r s' w').
  { intros fd pre w0 Hfd Hold ts parts Hpre Ew Ep.
    assert (Hts' : ts !! i = Some (set_t_socket_fd fd t)) by (by apply list_lookup_insert_eq).
    assert (Hcore : core <$> ts = core <$> targets s) by (by apply insert_core).
    assert (Hparts : Forall (fun p => Z.of_nat (length p.1.1) = p.1.2) parts ↔ Forall (as_long s k) [i]).
    { unfold parts. rewrite Forall_app, !Forall_cons. simpl. rewrite Hlen. unfold as_long. rewrite Ht. simpl.
      split; [intros (_ & -> & _); split; [done|apply Forall_nil_2]|].
      intros [[= ->] _]. split; [done|]. by split_and!. }
    pose proof (send_parts_ok fd parts w0) as Hsend. destruct (send_parts answer fd parts w0) as [[e|] w'].
    - rewrite (tput_ok _ _ _ _ Hts'). cbn [mbind cres_bind]. eexists _, _, _. split; [done|]. right.
      split; [tauto|]. split; [done|]. split; [done|]. simpl. rewrite <- Hcore. by apply (insert_core ts _ _ (set_err e)).
    - destruct Hsend as [Hf Es]. eexists _, _, _. split; [done|]. left. split; [tauto|]. split; [done|]. split.
      + split; [done|]. exact Hcore.
      + intros j Hj. simpl. unfold ts. rewrite list_lookup_insert_ne by set_solver. done.
      + intros j ->%list_elem_of_singleton. exists t, fd. split; [done|]. split; [exact Hts'|done].
      + rewrite Es, Ew. f_equal. simpl. rewrite app_nil_r. unfold item_parts. cbn [targets with_targets].
        rewrite Ht, Hts'. rewrite <- Ep, <- list_fmap_compose. done. }
  destruct (Z.eqb_spec (t_socket_fd t) (-1)) as [Efd|Efd].
  - rewrite span_take by done. cbn [mbind cres_bind]. unfold os_open_tcp_socket. cbv iota.
    destruct (Z.eqb_spec (open_fd (tick w)) (-1)) as [?|Hfd]; [by destruct (proj2 Hkernel (tick w))|].
    rewrite (tput_ok _ _ _ _ Ht). cbn [mbind cres_bind].
    apply (Hdone (open_fd (tick w))
      [(sync_header (ss_range_map_name_length s) (Z.of_nat (length k)) (Z.of_nat (length v)) (t_hash_str_length t),
        sizeof_header, "failed to send initial header"%string);
       (take (Z.to_nat (ss_range_map_name_length s)) (ss_range_map_name s), ss_range_map_name_length s,
        "failed to send range map name"%string)]); try done.
    + rewrite !Forall_cons. split; [done|]. split; [|apply Forall_nil_2]. simpl. rewrite length_take. lia.
    + unfold item_pieces. by rewrite (proj2 (Z.eqb_eq _ _) Efd).
  - assert (Eid : targets s = <[i := set_t_socket_fd (t_socket_fd t) t]> (targets s)).
    { symmetry. apply list_insert_id. rewrite Ht. by destruct t. }
    pose proof (Hdone (t_socket_fd t)
      [(sync_header 0 (Z.of_nat (length k)) (Z.of_nat (length v)) (t_hash_str_length t), sizeof_header,
        "failed to send sync header"%string)] w) as Hd. cbv zeta in Hd. rewrite <- Eid in Hd. apply Hd; try done.
    + rewrite Forall_cons. split; [done|apply Forall_nil_2].
    + unfold item_pieces. by rewrite (proj2 (Z.eqb_neq _ _) Efd).
Qed.

Lemma target_list_ok fuel s w G l :
  sync_ok s G → chain same_hash_next (targets s) l → NoDup l → (length l < fuel)%nat →
  ∃ r s' w', bee_bucket_sync_data_to_target_list open_fd answer fuel s w k (Z.of_nat (length k)) v (Z.of_nat (length v)) (head l)
    = Ret (r, s', w') ∧ outcome s w k v l r s' w'.
Proof.
  revert fuel s w. induction l as [|i l IH]; intros fuel s w Hok Hc Hnd Hf; (destruct fuel as [|fuel]; [simpl in Hf; lia|]).
  { exists 0, s, w. split; [done|]. left. split; [apply Forall_nil_2|]. split; [done|]. apply delivered_nil. }
  change (head (i :: l)) with (Some i). cbn [bee_bucket_sync_data_to_target_list].
  apply NoDup_cons in Hnd as [Hi Hnd]. destruct Hc as [En Hc].
  pose proof En as (t & Ht & _)%fmap_Some. pose proof (lookup_lt_Some _ _ _ Ht) as Hlt.
  destruct (data_to_target_ok s w G i Hok Hlt) as (r & s1 & w1 & -> & H1). cbn [mbind cres_bind].
  assert (Hk1 : kept s s1) by (destruct H1 as [(_ & _ & D)|(_ & _ & D)]; [apply (de_kept _ _ _ _ _ _ _ D)|done]).
  assert (Hr : r = 0 ∨ r = -1) by (destruct H1 as [(_ & -> & _)|(_ & -> & _)]; tauto).
  destruct Hr as [-> | ->]; cbn [Z.eqb negb].
  2:{ eexists _, _, _. split; [done|]. by apply (outcome_fail s w s1 w1 k v [i]). }
  rewrite <- (core_field same_hash_next (targets s) (targets s1) i) in En by (done || apply Hk1).
  apply fmap_Some in En as (t1 & Ht1 & En). rewrite (tget_ok _ _ _ Ht1). cbn [mbind cres_bind]. rewrite <- En.
  destruct (IH fuel s1 w1) as (r & s' & w' & -> & H2).
  - by eapply kept_ok.
  - eapply chain_ext; [|exact Hc]. intros j _. apply core_field; [done|apply Hk1].
  - done.
  - simpl in Hf. lia.
  - eexists _, _, _. split; [done|]. apply (outcome_app s w s1 w1 s' w' k v [i] l r); try done.
    by intros j ->%list_elem_of_singleton.
Qed.

Lemma item_loop_ok hash fuel s w G G' :
  length hash = 32%nat → sync_ok s G → chain next_hash_list (targets s) (heads G') →
  Forall (chain same_hash_next (targets s)) G' → Forall (fun g => g ≠ []) G' → NoDup (concat G') →
  (length G' < fuel)%nat → (length (concat G') < S (length (targets s)))%nat →
  ∃ r s' w', item_loop open_fd answer fuel s w hash k (Z.of_nat (length k)) v (Z.of_nat (length v)) (head (heads G'))
    = Ret (r, s', w') ∧ outcome s w k v (reached (targets s) hash G') r s' w'.
Proof.
  intros Hh. revert fuel s w. induction G' as [|g G' IH]; intros fuel s w Hok Hhs Hg Hne Hnd Hf Hl;
    (destruct fuel as [|fuel]; [simpl in Hf; lia|]).
  { exists 0, s, w. split; [done|]. left. split; [apply Forall_nil_2|]. split; [done|]. apply delivered_nil. }
  apply Forall_cons in Hne as [Hgne Hne], Hg as [Hg1 Hg]. destruct g as [|i g]; [done|].
  change (heads ((i :: g) :: G')) with (i :: heads G') in *. destruct Hhs as [En Hhs].
  change (head (i :: heads G')) with (Some i). cbn [item_loop].
  cbn [concat] in Hnd, Hl. rewrite length_app in Hl. apply NoDup_app in Hnd as (Hnd1 & Hdis & Hnd).
  pose proof En as (t & Ht & _)%fmap_Some. rewrite (tget_ok _ _ _ Ht). cbn [mbind cres_bind].
  rewrite hash_matches_ok by (done || by apply (proj1 (Forall_lookup _ _) (so_targets _ _ Hok) i)). cbn [mbind cres_bind].
  set (M1 := if bool_decide (hash_of t `prefix_of` hash) then i :: g else []).
  assert (HM : reached (targets s) hash ((i :: g) :: G') = M1 ++ reached (targets s) hash G').
  { assert (Ei : in_range (targets s) hash i = bool_decide (hash_of t `prefix_of` hash))
      by (unfold in_range, hash_at; by rewrite Ht).
    unfold reached, M1. rewrite filter_cons. simpl default. case_bool_decide; [by rewrite decide_True|].
    rewrite decide_False; [done|]. congruence. }
  rewrite HM. clear HM.
  assert (Hfirst : ∃ r s1 w1,
    (if bool_decide (hash_of t `prefix_of` hash) then
       bee_bucket_sync_data_to_target_list open_fd answer (S (length (targets s))) s w k (Z.of_nat (length k)) v (Z.of_nat (length v)) (Some i)
     else Ret (0, s, w)) = Ret (r, s1, w1) ∧ outcome s w k v M1 r s1 w1).
  { unfold M1. case_bool_decide.
    - apply (target_list_ok _ s w G (i :: g)); [done|done|done|]. simpl in *. lia.
    - exists 0, s, w. split; [done|]. left. split; [apply Forall_nil_2|]. split; [done|]. apply delivered_nil. }
  destruct Hfirst as (r & s1 & w1 & -> & H1). cbn [mbind cres_bind].
  assert (Hk1 : kept s s1) by (destruct H1 as [(_ & _ & D)|(_ & _ & D)]; [apply (de_kept _ _ _ _ _ _ _ D)|done]).
  assert (Hr : r = 0 ∨ r = -1) by (destruct H1 as [(_ & -> & _)|(_ & -> & _)]; tauto).
  destruct Hr as [-> | ->]; cbn [Z.eqb negb].
  2:{ eexists _, _, _. split; [done|]. by apply outcome_fail. }
  rewrite <- (core_field next_hash_list (targets s) (targets s1) i) in En by (done || apply Hk1).
  apply fmap_Some in En as (t1 & Ht1 & En). rewrite (tget_ok _ _ _ Ht1). cbn [mbind cres_bind]. rewrite <- En.
  destruct (IH fuel s1 w1) as (r & s' & w' & -> & H2).
  - by eapply kept_ok.
  - eapply chain_ext; [|exact Hhs]. intros j _. apply core_field; [done|apply Hk1].
  - eapply Forall_impl; [exact Hg|]. intros l. apply chain_ext. intros j _. apply core_field; [done|apply Hk1].
  - done.
  - done.
  - simpl in Hf. lia.
  - rewrite (core_length _ _ (proj2 Hk1)). lia.
  - eexists _, _, _. split; [done|]. eapply outcome_app; [|exact H1|].
    + unfold M1. case_bool_decide; [|by intros j ?%elem_of_nil]. intros j Hj ?%reached_in. by apply (Hdis j).
    + by rewrite <- (reached_core _ _ _ _ (proj2 Hk1)).
Qed.

Lemma sync_db_item_ok s w G :
  length (sha256 k) = 32%nat → sync_ok s G →
  ∃ r s' w', bee_bucket_sync_db_item sha256 open_fd answer s w k (Z.of_nat (length k)) v (Z.of_nat (length v)) = Ret (r, s', w') ∧
    outcome s w k v (reached (targets s) (sha256 k) G) r s' w'.
Proof.
  intros Hh Hok. unfold bee_bucket_sync_db_item, get_hash_value. rewrite span_all. cbn [mbind cres_bind].
  pose proof (so_groups _ _ Hok) as [Hf Hhs Hg Hp Hne _ _]. rewrite <- Hf. apply (item_loop_ok _ _ _ _ G); try done.
  - rewrite Hp. apply NoDup_seq.
  - assert (Hlen : (length G <= length (concat G))%nat).
    { clear - Hne. induction Hne as [|g G Hg _ IH]; [done|]. simpl. rewrite length_app. destruct g; [done|]. simpl. lia. }
    rewrite Hp, length_seq in Hlen. lia.
  - rewrite Hp, length_seq. lia.
Qed.
End Items.

(** ** Sprints over a database *)

Lemma print_lines_ok lines D B i offset :
  refines D B → Dashboard.is_int i → ∃ D' B', print_lines D i offset lines = Ret D' ∧ refines D' B'.
Proof.
  intros HD Hi. revert D B offset HD. induction lines as [|l lines IH]; intros D B offset HD; cbn [print_lines]; [eauto|].
  destruct (snprintf_ok D B i offset l HD Hi) as (D1 & E & HD1). unfold run_op in E.
  destruct (esq_dashboard_snprintf D i offset l) as [[r D2]| | |]; try done. cbn [mbind cres_bind] in *.
  injection E as E ->. destruct (r <=? 0); [eauto|]. by eapply IH.
Qed.

Section Sprints.
Context {DB : Type} `{KcLaws DB, !KcCursor DB}.
Context (sha256 : list Z → list Z) (open_fd : nat → Z) (answer : nat → Z → Z).
Context (Hsha : ∀ k, length (sha256 k) = 32%nat) (Hkernel : kernel_ok open_fd answer).
Implicit Types (s : bucket_sync_session_t (DB := DB)) (w : net_t) (G : list (list nat)).

(** The text of the hash of every target a key is for has the length of the key. *)
Definition sendable s G (kv : list Z * list Z) : Prop :=
  Forall (as_long s kv.1) (reached (targets s) (sha256 kv.1) G).

(** Items went to their targets one after the other. *)
Inductive delivered_items G : bucket_sync_session_t (DB := DB) → net_t → list (list Z * list Z) →
    bucket_sync_session_t (DB := DB) → net_t → Prop :=
| no_items s w : delivered_items G s w [] s w
| next_item s w k v c s1 w1 l s' w' :
    delivered (with_cursor (ss_kcdb s) c s) w s1 w1 k v (reached (targets s) (sha256 k) G) →
    delivered_items G (with_processed (i32 (processed s1 + 1)) s1) w1 l s' w' →
    delivered_items G s w ((k, v) :: l) s' w'.

Lemma delivered_items_app G s w l1 s1 w1 l2 s2 w2 :
  delivered_items G s w l1 s1 w1 → delivered_items G s1 w1 l2 s2 w2 → delivered_items G s w (l1 ++ l2) s2 w2.
Proof. induction 1; [done|]. intros. simpl. econstructor; eauto. Qed.

(** What the sprints keep: all but the cursor, the count and what sending changes. *)
Definition framed s s' : Prop :=
  s' = Sync (ss_range_map_name s) (ss_range_map_name_length s) (ss_hash_str s) (ss_hash_str_length s) (ss_dashboard s)
         (ss_kcdb s) (ss_kccursor s') (session_err s) (processed s') (targets s') ∧
  core <$> targets s' = core <$> targets s.

Lemma framed_trans s s1 s2 : framed s s1 → framed s1 s2 → framed s s2.
Proof. intros [E1 C1] [E2 C2]. split; [|congruence]. rewrite E2. by rewrite E1. Qed.

Lemma framed_ok s s' G : framed s s' → sync_ok s G → sync_ok s' G.
Proof.
  intros [E C] [H1 H2 H3]. split.
  - by rewrite E.
  - by eapply core_ok.
  - rewrite (core_length _ _ C). by eapply core_grouped.
Qed.

Lemma framed_sendable s s' G kv : framed s s' → sendable s' G kv ↔ sendable s G kv.
Proof.
  intros Hf. unfold sendable. destruct Hf as [_ C]. rewrite (reached_core _ _ _ _ C).
  rewrite !Forall_forall. unfold as_long.
  split; intros Hl i Hi; specialize (Hl i Hi); by rewrite (core_field t_hash_str_length (targets s) (targets s')) in *.
Qed.

Definition small (kv : list Z * list Z) : Prop := Z.of_nat (length kv.1) < 2^31 ∧ Z.of_nat (length kv.2) < 2^31.

(** One item of the loop. *)
Lemma sprint_item s w G k v c :
  sync_ok s G → small (k, v) →
  ∃ r s1 w1, bee_bucket_sync_db_item sha256 open_fd answer (with_cursor (ss_kcdb s) (Some c) s) w
      k (i32 (Z.of_nat (length k))) v (i32 (Z.of_nat (length v))) = Ret (r, s1, w1) ∧
    framed s s1 ∧ sync_ok s1 G ∧
    (r = 0 ∧ sendable s G (k, v) ∧ ss_kccursor s1 = Some c ∧
       delivered (with_cursor (ss_kcdb s) (Some c) s) w s1 w1 k v (reached (targets s) (sha256 k) G) ∨
     r = -1 ∧ ¬ sendable s G (k, v)).
Proof.
  intros Hok [Hk Hv]. simpl in Hk, Hv. rewrite !i32_small by lia.
  assert (Hok1 : sync_ok (with_cursor (ss_kcdb s) (Some c) s) G) by (destruct Hok; by split).
  destruct (sync_db_item_ok sha256 open_fd answer Hkernel k v (with_cursor (ss_kcdb s) (Some c) s) w G (Hsha k) Hok1)
    as (r & s1 & w1 & E & Ho). exists r, s1, w1. split; [done|].
  assert (Hkept : kept (with_cursor (ss_kcdb s) (Some c) s) s1).
  { destruct Ho as [(_ & _ & D)|(_ & _ & D)]; [apply (de_kept _ _ _ _ _ _ _ D)|done]. }
  split; [destruct Hkept as [-> C]; by split|]. split; [by eapply kept_ok|].
  destruct Ho as [(Hl & -> & Hd)|(Hl & -> & _)]; [left|right; by split].
  split; [done|]. split; [done|]. split; [|done]. by destruct Hkept as [-> _].
Qed.

Lemma sprint_loop_ok n d s w G c l :
  sync_ok s G → ss_kccursor s = Some c → records_from d c l → Forall small l →
  ∃ r s' w', sprint_loop sha256 open_fd answer n d s w = Ret (r, s', w') ∧ framed s s' ∧
    (r = 0 ∧ Forall (sendable s G) (take n l) ∧ delivered_items G s w (take n l) s' w' ∧
       (∃ c', ss_kccursor s' = Some c' ∧ records_from d c' (drop n l)) ∨
     r = -1 ∧ ¬ Forall (sendable s G) (take n l)).
Proof.
  revert s w c l. induction n as [|n IH]; intros s w c l Hok Hc Hr Hsm; cbn [sprint_loop].
  { exists 0, s, w. split; [done|]. split; [by destruct s|]. left. rewrite take_0, drop_0. split; [done|].
    split; [apply Forall_nil_2|]. split; [constructor|]. eauto. }
  rewrite Hc. destruct Hr as [c Hend|c k v c' l Hget Hr].
  { rewrite Hend. exists 0, s, w. split; [done|]. split; [by destruct s|]. left. split; [done|].
    split; [apply Forall_nil_2|]. split; [constructor|]. exists c. split; [done|]. by constructor. }
  rewrite Hget. apply Forall_cons in Hsm as [Hkv Hsm].
  destruct (sprint_item s w G k v c' Hok Hkv) as (r & s1 & w1 & -> & Hf1 & Hok1 & Hcase). cbn [mbind cres_bind take].
  destruct Hcase as [(-> & Hs & Hc1 & Hd)|(-> & Hs)]; cbn [Z.eqb negb].
  2:{ eexists _, _, _. split; [done|]. split; [done|]. right. rewrite Forall_cons. tauto. }
  set (s2 := with_processed (i32 (processed s1 + 1)) s1).
  assert (Hf2 : framed s s2) by (destruct Hf1 as [E C]; split; [unfold s2; rewrite E; done|done]).
  destruct (IH s2 w1 c' l) as (r & s' & w' & E & Hf' & Hcase); [by eapply framed_ok|done|done|done|].
  exists r, s', w'. split; [done|]. split; [by eapply framed_trans|].
  assert (EF : Forall (sendable s2 G) (take n l) ↔ Forall (sendable s G) (take n l)).
  { rewrite !Forall_forall. by split; intros HF kv Hin; apply (framed_sendable s s2 G kv Hf2), HF. }
  rewrite Forall_cons, <- EF. destruct Hcase as [(-> & HF & Hds & Hcur)|(-> & HF)]; [left|right; tauto].
  split; [done|]. split; [done|]. split; [by econstructor|done].
Qed.

(** The bucket of the session is there, with its database [d] at the handle [h]. *)
Definition source_at s (h : loc) (d : DB) (R : bees (DB := DB) * Z * Z) : Prop :=
  ∃ x b, source_bucket R.1.1 s R.1.2 R.2 = Ret (Some x) ∧ bks R.1.1 !! x = Some b ∧ kcdb0 b = Some h ∧
    dbs R.1.1 !! h = Some d.

Lemma source_at_framed s s' h d R : framed s s' → source_at s h d R → source_at s' h d R.
Proof. intros [E _] (x & b & Es & Hx). exists x, b. split; [|done]. rewrite <- Es, E. done. Qed.

Lemma sprint_ok s w D B G h d c l R :
  sync_ok s G → ss_kcdb s = Some h → ss_kccursor s = Some c → records_from d c l → Forall small l →
  source_at s h d R → refines D B → Dashboard.is_int (ss_dashboard s) →
  let n := BUCKET_SYNC_SPRINT_SIZE in
  ∃ r s' w' D' B', bee_bucket_sync_session_sprint sha256 open_fd answer R.1.1 R.1.2 R.2 s w D = Ret (r, s', w', D') ∧
    framed s s' ∧ refines D' B' ∧
    (r = 0 ∧ Forall (sendable s G) (take n l) ∧ delivered_items G s w (take n l) s' w' ∧
       (∃ c', ss_kccursor s' = Some c' ∧ records_from d c' (drop n l)) ∨
     r = -1 ∧ ¬ Forall (sendable s G) (take n l)).
Proof.
  intros Hok Hh Hc Hl Hsm (x & b & Es & Hb & Eh & Hd) HD Hi n.
  unfold bee_bucket_sync_session_sprint, bee_bucket_sync_session_sprint_0. rewrite Es. cbn [mbind cres_bind].
  rewrite (bget_ok _ _ _ Hb). cbn [mbind cres_bind]. rewrite Eh, decide_False by tauto.
  unfold fld. rewrite Hd. cbn [mbind cres_bind].
  destruct (sprint_loop_ok n d s w G c l Hok Hc Hl Hsm) as (r & s' & w' & E & Hf & Hcase).
  unfold Datatypes.id. unfold n in E. rewrite E. cbn [mbind cres_bind].
  destruct (print_lines_ok (report s') D B (ss_dashboard s') 0 HD) as (D' & B' & E' & HD').
  { destruct Hf as [Ef _]. rewrite Ef. done. }
  unfold bee_bucket_sync_session_write_dashboard. rewrite E'. cbn [mbind cres_bind].
  exists r, s', w', D', B'. by split_and!.
Qed.

Lemma worker_ok rounds s w D B G h d c l :
  sync_ok s G → ss_kcdb s = Some h → ss_kccursor s = Some c → records_from d c l → Forall small l →
  Forall (source_at s h d) rounds → refines D B → Dashboard.is_int (ss_dashboard s) →
  let n := (BUCKET_SYNC_SPRINT_SIZE * length rounds)%nat in
  ∃ res, esq_bucket_sync_worker sha256 open_fd answer rounds s w D = Ret res ∧
    match res with
    | inl (s', w', _) => Forall (sendable s G) (take n l) ∧ delivered_items G s w (take n l) s' w'
    | inr (s', closed, _, _) =>
        ¬ Forall (sendable s G) (take n l) ∧ ss_kccursor s' = None ∧
        closed = filter (fun fd => fd ≠ -1) (t_socket_fd <$> targets s')
    end.
Proof.
  revert s w D B c l. induction rounds as [|[[W jip] jport] rounds IH]; intros s w D B c l Hok Hh Hc Hl Hsm Hro HD Hi n.
  { eexists. split; [done|]. cbv iota. unfold n. rewrite Nat.mul_0_r, take_0. split; [apply Forall_nil_2|constructor]. }
  apply Forall_cons in Hro as [HR Hro]. cbn [esq_bucket_sync_worker].
  destruct (sprint_ok s w D B G h d c l (W, jip, jport) Hok Hh Hc Hl Hsm HR HD Hi)
    as (r & s1 & w1 & D1 & B1 & E & Hf & HD1 & Hcase). cbn [fst snd] in E. rewrite E. cbn [mbind cres_bind]. clear E.
  assert (En : n = (BUCKET_SYNC_SPRINT_SIZE + BUCKET_SYNC_SPRINT_SIZE * length rounds)%nat) by (unfold n; simpl length; lia).
  destruct Hcase as [(-> & HF & Hds & c' & Hc' & Hl')|(-> & HF)]; cbn [Z.eqb].
  - destruct (IH s1 w1 D1 B1 c' (drop BUCKET_SYNC_SPRINT_SIZE l)) as (res & -> & Hres).
    + by eapply framed_ok.
    + destruct Hf as [Ef _]. rewrite Ef. done.
    + done.
    + done.
    + by apply Forall_drop.
    + eapply Forall_impl; [exact Hro|]. intros R. by apply source_at_framed.
    + done.
    + destruct Hf as [Ef _]. rewrite Ef. done.
    + exists res. split; [done|]. rewrite En, <- (take_take_drop l).
      assert (EF : ∀ k, Forall (sendable s1 G) k ↔ Forall (sendable s G) k).
      { intros k. rewrite !Forall_forall. by split; intros HF' kv Hin; apply (framed_sendable s s1 G kv Hf), HF'. }
      destruct res as [[[s' w'] D']|[[[s' cl] w'] D']].
      * destruct Hres as [HF' Hds']. rewrite EF in HF'. split; [by apply Forall_app|]. by eapply delivered_items_app.
      * destruct Hres as (HF' & Hrest). rewrite EF in HF'. split; [rewrite Forall_app; tauto|done].
  - destruct (bee_bucket_end_sync_session s1) as [s' closed] eqn:Ee. eexists. split; [done|]. cbv iota.
    unfold bee_bucket_end_sync_session in Ee. injection Ee as Es Ec. split.
    + rewrite En, <- (take_take_drop l), Forall_app. tauto.
    + rewrite <- Ec, <- Es. by destruct (ss_kccursor s1) eqn:Ecur.
Qed.
End Sprints.
