(* ===== verification/BeeSyncStart.v ===== *)
(** * Starting to send a bucket

    The command of the script that starts the sending of a bucket, what it leaves behind
    when it fails, and the claims on the whole path from the command to the end of the
    thread ([BeeSync], [BeeSyncThms]). *)
From stdpp Require Import strings.
From S2P Require Import Prelude CString LinkedList RbTree Scan RangeMap RangeIndex RangeTable Bucket BucketInv BucketThms BeeDb BeeDbThms Dashboard BeeSync BeeSyncThms.

(** ** The arguments *)

(** Texts of bytes with their lengths. *)
Record triad_ok (a : triad) : Prop := {
  tr_ip : ∃ s tl, a_ip a = s ++ tl ∧ a_ip_length a = Z.of_nat (length s) ∧ Forall is_byte s;
  tr_hash : ∃ s tl, a_hash a = s ++ tl ∧ a_hash_length a = Z.of_nat (length s) ∧ Forall is_byte s
}.

Lemma bin_loop_total h tl fuel m w buf :
  Forall is_byte h → length h = (2 * m)%nat → (m <= length buf)%nat → (w <= m)%nat → (m - w < fuel)%nat →
  ∃ buf', HashString.bin_loop fuel buf (h ++ tl) (Z.of_nat (2 * m)) (Z.of_nat (2 * w)) (Z.of_nat w) = Ret buf' ∧
    length buf' = length buf.
Proof.
  intros Hh Hl. revert w buf. induction fuel as [|fuel IH]; intros w buf Hb Hw Hf; [lia|]. cbn [HashString.bin_loop].
  destruct (Z.ltb_spec (Z.of_nat (2 * w)) (Z.of_nat (2 * m))); [|eauto].
  assert (Hrd : ∀ i, (i < 2 * m)%nat → ∃ c, rd (h ++ tl) (Z.of_nat i) = Ret c ∧ is_byte c).
  { intros i Hi. destruct (lookup_lt_is_Some_2 h i) as [c Hc]; [lia|]. exists c. split.
    - apply rd_nat. by rewrite lookup_app_l by lia.
    - by apply (proj1 (Forall_lookup _ _) Hh i). }
  destruct (Hrd (2 * w)%nat) as (c1 & -> & B1); [lia|]. cbn [mbind cres_bind].
  rewrite (rd_tab HashString.hash_string_2_bin_table 0 c1 eq_refl B1). cbn [mbind cres_bind].
  replace (Z.of_nat (2 * w) + 1) with (Z.of_nat (2 * w + 1)) by lia.
  destruct (Hrd (2 * w + 1)%nat) as (c2 & -> & B2); [lia|]. cbn [mbind cres_bind].
  rewrite (rd_tab HashString.hash_string_2_bin_table 0 c2 eq_refl B2). cbn [mbind cres_bind].
  rewrite wr_nat by lia. cbn [mbind cres_bind].
  replace (Z.of_nat (2 * w) + 2) with (Z.of_nat (2 * (w + 1))) by lia.
  replace (Z.of_nat w + 1) with (Z.of_nat (w + 1)) by lia.
  destruct (IH (w + 1)%nat (<[w := u8 (Z.shiftl (tab HashString.hash_string_2_bin_table 0 c1) 4
    + tab HashString.hash_string_2_bin_table 0 c2)]> buf)) as (buf' & E & Hl'); [rewrite length_insert; lia|lia|lia|].
  exists buf'. split; [done|]. by rewrite length_insert in Hl'.
Qed.

Lemma hash_arg_bin s h tl buf :
  Forall is_byte s → hash_arg s h → (length h <= 2 * length buf)%nat →
  ∃ buf', HashString.hash_str_2_bin buf (s ++ tl) (Z.of_nat (length h)) = Ret (0, buf') ∧ length buf' = length buf.
Proof.
  intros Hs (e & -> & _ & Hev & _) Hl. apply Z.even_spec in Hev as [m Hm]. apply Forall_app in Hs as [Hs _].
  unfold HashString.hash_str_2_bin. rewrite HashString.land_1_even, Hm, Z.even_mul. cbn [Z.even orb negb].
  replace (2 * m) with (Z.of_nat (2 * Z.to_nat m)) by lia. rewrite <- app_assoc.
  destruct (bin_loop_total h ([e] ++ tl) (S (Z.to_nat (Z.of_nat (2 * Z.to_nat m)))) (Z.to_nat m) 0 buf)
    as (buf' & E & El); [done|lia..|].
  change (Z.of_nat (2 * 0)) with 0 in E. change (Z.of_nat 0) with 0 in E. rewrite E. cbn [mbind cres_bind]. eauto.
Qed.

Section Start.
Context (inet_addr : list Z → Z).

(** A target as the command makes it. *)
Record new_target (t : bucket_sync_target_t) : Prop := {
  nt_ok : target_ok t;
  nt_free : same_hash_next t = None ∧ next_hash_list t = None;
  nt_err : t_err t = None
}.

Lemma sync_target_ok a :
  triad_ok a → a_hash_length a <= 65 →
  (∃ e, sync_target inet_addr a = Ret (inl e)) ∨
  (a_hash_length a <= 40 ∧ ∃ t, sync_target inet_addr a = Ret (inr t) ∧ new_target t) ∨
  (40 < a_hash_length a ∧ sync_target inet_addr a = Fault).
Proof.
  intros [(si & ti & Ei & Li & Bi) (sh & th & Eh & Lh & Bh)] Hlen. unfold sync_target. rewrite Ei, Li, Eh, Lh in *.
  assert (Hip : ∃ r x, Ipv4.get_ipv4_addr (si ++ ti) (Z.of_nat (length si)) = Ret (r, x)).
  { destruct (Ipv4.ipv4_cases si ti Bi) as [(? & ? & _ & ->)|[_ ->]]; eauto. }
  destruct Hip as (r & x & ->). cbn [mbind cres_bind]. destruct (r =? 0); [eauto|].
  destruct (PORT_NUMBER_INVALID (a_port a)); [eauto|].
  destruct (config_hash_ok sh th "invalid hash string" "invalid hash string" Bh) as [(h & Ha & ->)|(_ & e & ->)];
    cbn [mbind cres_bind]; [|eauto].
  pose proof (hash_arg_length sh h Ha) as Ll.
  destruct (hash_arg_bin sh h th (t_hash zero_target) Bh Ha) as (hash & -> & Lhash).
  { change (length (t_hash zero_target)) with 32%nat. lia. }
  change (length (t_hash zero_target)) with 32%nat in Lhash. cbn [mbind cres_bind Z.eqb negb].
  unfold c_memcpy. change (length (t_hash_str zero_target)) with 40%nat.
  case_decide as Hfit; cbn [mbind cres_bind].
  - right. left. split; [lia|]. eexists. split; [done|]. split; [|done|done].
    split; cbn [t_hash t_hash_length t_hash_str t_hash_str_length].
    + done.
    + rewrite Z.shiftr_div_pow2 by lia. change (2 ^ 1) with 2. split; [apply Z.div_pos; lia|].
      apply Z.div_le_upper_bound; lia.
    + change (t_hash_str zero_target) with (replicate 40 0).
      rewrite !length_app, !length_take, !length_drop, length_replicate, length_app. lia.
  - right. right. split; [|done]. rewrite length_app in Hfit. lia.
Qed.

Lemma sync_targets_ok l :
  Forall triad_ok l → Forall (fun a => a_hash_length a <= 40) l →
  ∃ r, sync_targets inet_addr l = Ret r ∧
    match r with inl _ => True | inr ts => length ts = length l ∧ Forall new_target ts end.
Proof.
  induction 1 as [|a l Ha Hl IH]; intros Hs; [eexists; split; [done|]; split; [done|apply Forall_nil_2]|].
  apply Forall_cons in Hs as [Hs1 Hs]. cbn [sync_targets].
  destruct (sync_target_ok a Ha ltac:(lia)) as [[e ->]|[(_ & t & -> & Ht)|[? _]]]; [eexists; done| |lia].
  cbn [mbind cres_bind]. destruct (IH Hs) as (r & -> & Hr). cbn [mbind cres_bind]. eexists. split; [done|].
  destruct r as [e|ts]; [done|]. destruct Hr as [El Hts]. split; [simpl; by rewrite El|by apply Forall_cons].
Qed.

Lemma duplicated_ok t u : target_ok t → target_ok u → ∃ b, duplicated t u = Ret b.
Proof.
  intros [T1 T2 _] [U1 U2 _]. unfold duplicated.
  destruct (_ =? _); cbn [negb]; [|eauto]. destruct (_ =? _); cbn [negb]; [|eauto].
  destruct (Z.eqb_spec (t_hash_length t) (t_hash_length u)); cbn [negb]; [|eauto].
  unfold c_memcmp. rewrite decide_True by lia. cbn [mbind cres_bind]. eauto.
Qed.

Lemma check_duplication_ok ts : Forall target_ok ts → ∃ b, check_duplication ts = Ret b.
Proof.
  induction 1 as [|t ts Ht Hts IH]; cbn [check_duplication]; [eauto|].
  assert (Ha : ∃ b, any_duplicate t ts = Ret b).
  { clear IH. induction Hts as [|u us Hu Hus IH]; cbn [any_duplicate]; [eauto|].
    destruct (duplicated_ok t u Ht Hu) as [b ->]. cbn [mbind cres_bind]. destruct b; [eauto|done]. }
  destruct Ha as [b ->]. cbn [mbind cres_bind]. destruct b; [eauto|done].
Qed.

(** ** The thread gets a session *)

Context {DB : Type} `{KcLaws DB, !KcCursor DB} (N : bkey_t → Prop).
Implicit Types (W : bees (DB := DB)) (s : bucket_sync_session_t (DB := DB)).

Lemma start_thread_ok W cursor_ok thread_ok jip jport s nm tn h th :
  BucketInv.inv N W → ss_range_map_name s = nm ++ tn → ss_range_map_name_length s = Z.of_nat (length nm) →
  ss_hash_str s = h ++ th → ss_hash_str_length s - 1 = Z.of_nat (length h) →
  Z.of_nat (length nm) < 2^31 → Z.of_nat (length h) < 2^31 →
  ∃ e s', bee_bucket_start_sync_thread W cursor_ok thread_ok jip jport s = Ret (e, s') ∧
    (e = None → ∃ x d, s' = with_cursor (Some x) (Some (kccurjump d)) s ∧ source_at s x d (W, jip, jport)).
Proof.
  intros Hi En Ln Eh Lh Hn Hh. unfold bee_bucket_start_sync_thread, bee_bucket_start_sync_session, source_bucket.
  rewrite En, Ln, Eh, Lh. destruct (find_any N W nm tn h th jip jport Hi Hn Hh) as (p & E & Hp). rewrite E.
  cbn [mbind cres_bind]. destruct p as [x|]; [|eexists _, _; by split]. destruct (Hp x eq_refl) as (b & Hb & _).
  rewrite (bget_ok _ _ _ Hb). cbn [mbind cres_bind]. destruct (kcdb0 b) as [g|] eqn:Eg; [|eexists _, _; by split].
  destruct (db_at_handle N W x b g Hi Hb) as (d & Hd & _); [unfold slots; rewrite Eg; set_solver|].
  unfold fld. rewrite Hd. cbn [mbind cres_bind]. destruct cursor_ok; cbn [negb]; [|eexists _, _; by split].
  cbn [mbind cres_bind]. destruct thread_ok; cbn [negb]; [|eexists _, _; by split].
  eexists _, _. split; [done|]. intros _. exists g, d. split; [done|]. exists x, b. split; [|done].
  cbn [fst snd]. unfold source_bucket. by rewrite En, Ln, Eh, Lh.
Qed.

(** Copying a text with its zero into an array. *)
Lemma memcpy_text n t tl :
  (length t < n)%nat → c_memcpy (replicate n 0) 0 (t ++ 0 :: tl) (Z.of_nat (length t) + 1) = Ret (t ++ 0 :: replicate (n - S (length t)) 0).
Proof.
  intros Hl. pose proof (c_memcpy_ow [] (replicate n 0) (t ++ [0]) tl) as E.
  rewrite ow_nil, !app_nil_l, <- app_assoc, length_app, length_replicate in E. cbn [length app] in E.
  change (Z.of_nat 0) with 0 in E. replace (Z.of_nat (length t) + 1) with (Z.of_nat (length t + 1)) by lia.
  rewrite E by lia. unfold ow. rewrite <- app_assoc, length_app, drop_replicate. cbn [length app]. do 3 f_equal. f_equal. lia.
Qed.

(** The sockets are closed at first. *)
Lemma closed_ok ts G n : grouped ts G n → grouped (set_t_socket_fd (-1) <$> ts) G n.
Proof. apply core_grouped. rewrite <- list_fmap_compose. by apply list_fmap_ext. Qed.

(** A new item of the dashboard, or none. *)
Lemma new_item_cases ok D B :
  refines D B → Z.of_nat (size (am B)) < 2^31 - 1 →
  ∃ i D' B', esq_dashboard_new ok D = Ret (i, D') ∧ refines D' B' ∧
    (i = -1 ∧ B' = B ∨ 0 <= i < 2^31 ∧ am B !! i = None ∧ am B' = <[i := zero_item i]> (am B)).
Proof.
  intros HD Hsz. destruct (new_item_ok ok D B HD Hsz) as (D' & E & HD'). unfold run_op in E.
  destruct (esq_dashboard_new ok D) as [[i D2]| | |]; try done. cbn [mbind cres_bind] in E.
  assert (E1 : Num i = (spec_op (New ok) B).1) by congruence. assert (D2 = D') as -> by congruence. clear E.
  exists i, D', (spec_op (New ok) B).2. split; [done|]. split; [done|].
  destruct ok; [|left; by injection E1 as ->].
  pose proof (Z.mod_pos_bound (amax B) (2^31) ltac:(lia)) as Hb.
  pose proof (first_free_spec (S (size (am B))) (am B) (amax B mod 2^31) Hb ltac:(lia)) as Hs.
  assert (Es : spec_op (New true) B =
    match first_free (S (size (am B))) (am B) (amax B mod 2^31) with
    | Some i => (Num i, Board (<[i := zero_item i]> (am B)) (i32 (i + 1)))
    | None => (Num (-1), B)
    end) by reflexivity.
  rewrite Es in *. clear Es. revert Hs E1. generalize (first_free (S (size (am B))) (am B) (amax B mod 2^31)).
  intros [j|] Hs E1; injection E1 as ->; [right; tauto|by left].
Qed.

(** What a session is like that the thread begins with: the targets in their lists, every
    socket closed, and the cursor on the first record of the database of the bucket. *)
Record ready W (jip jport : Z) (n : nat) (item : Z) s : Prop := {
  rd_item : ss_dashboard s = item;
  rd_count : length (targets s) = n;
  rd_closed : Forall (fun t => t_socket_fd t = -1 ∧ t_err t = None) (targets s);
  rd_processed : processed s = 0 ∧ session_err s = None;
  rd_groups : ∃ G, sync_ok s G;
  rd_source : ∃ x d, source_at s x d (W, jip, jport) ∧ ss_kcdb s = Some x ∧ ss_kccursor s = Some (kccurjump d)
}.

Lemma new_targets_ready ts :
  ts ≠ [] → Forall new_target ts →
  ∃ ts' G, bee_create_target_cross_links ts = Ret ts' ∧ length ts' = length ts ∧
    grouped (set_t_socket_fd (-1) <$> ts') G (length ts) ∧ Forall target_ok (set_t_socket_fd (-1) <$> ts') ∧
    Forall (fun t => t_socket_fd t = -1 ∧ t_err t = None) (set_t_socket_fd (-1) <$> ts').
Proof.
  intros Hne Hnew. destruct (cross_links_ok ts Hne) as (ts' & G & E & HG & Hu).
  - eapply Forall_impl; [exact Hnew|]. by intros t [? _ _].
  - eapply Forall_impl; [exact Hnew|]. by intros t [_ ? _].
  - exists ts', G. split; [done|].
    assert (Hlen : length ts' = length ts) by (rewrite <- (length_fmap unlinked ts'), Hu; by rewrite length_fmap).
    assert (Hok : Forall target_ok ts').
    { eapply all_ok_unlinked; [exact Hu|]. eapply Forall_impl; [exact Hnew|]. by intros t [? _ _]. }
    split; [done|]. split; [by apply closed_ok|]. split.
    + apply Forall_fmap. eapply Forall_impl; [exact Hok|]. intros t [H1 H2 H3]. by split.
    + apply Forall_fmap, Forall_lookup. intros i t Ht. split; [done|]. simpl.
      assert (Ei : (unlinked <$> ts') !! i = (unlinked <$> ts) !! i) by (by rewrite Hu).
      rewrite !list_lookup_fmap, Ht in Ei. simpl in Ei. symmetry in Ei. apply fmap_Some in Ei as (u & Hiu & Eu).
      pose proof (proj1 (Forall_lookup _ _) Hnew i u Hiu) as [_ _ Herr]. rewrite <- Herr. by injection Eu.
Qed.

Lemma create_ok W D B mem_ok dash_ok cursor_ok thread_ok jip jport nm tn sh th l :
  BucketInv.inv N W → refines D B → Z.of_nat (size (am B)) < 2^31 - 2 →
  Forall is_byte sh → Forall triad_ok l → Forall (fun a => a_hash_length a <= 40) l →
  ∃ res o D' B',
    bee_mkccb_create_bucket_sync_session inet_addr W D mem_ok dash_ok cursor_ok thread_ok jip jport
      (nm ++ 0 :: tn) (Z.of_nat (length nm)) (sh ++ 0 :: th) (Z.of_nat (length sh)) l = Ret (res, o, D') ∧
    refines D' B' ∧
    match res with
    | inl _ => o = None ∧ am B' = am B
    | inr item => ∃ s, o = Some s ∧ am B !! item = None ∧ am B' = <[item := zero_item item]> (am B) ∧
                    ready W jip jport (length l) item s
    end.
Proof.
  intros Hi HD Hsz Hsh Hl Hl40.
  assert (Hno : ∀ e : string, ∃ res o D' B', Ret (inl e, None, D) = Ret (res, o, D') ∧ refines D' B' ∧
    match res with
    | inl _ => o = None ∧ am B' = am B
    | inr item => ∃ s, o = Some s ∧ am B !! item = None ∧ am B' = <[item := zero_item item]> (am B) ∧
                    ready W jip jport (length l) item s
    end) by (intros e; by exists (inl e), None, D, B).
  unfold bee_mkccb_create_bucket_sync_session. destruct (Nat.eqb_spec (length l) 0) as [?|Hne]; [apply Hno|].
  destruct (Z.leb_spec RANGE_MAP_NAME_MAX (Z.of_nat (length nm))) as [?|Hnm]; [apply Hno|].
  destruct (name_check2_ok nm (0 :: tn)) as (e & -> & He). cbn [mbind cres_bind].
  destruct (decide (e ≠ None)); [apply Hno|].
  destruct (Z.leb_spec HASH_VALUE_LENGTH (Z.of_nat (length sh))) as [?|Hshl]; [apply Hno|].
  destruct (config_hash_ok sh (0 :: th) "invalid hash string" "invalid hash string" Hsh) as [(h & Ha & ->)|(_ & e' & ->)];
    cbn [mbind cres_bind]; [|apply Hno].
  destruct mem_ok; cbn [negb]; [|apply Hno]. unfold RANGE_MAP_NAME_MAX, HASH_VALUE_LENGTH in *.
  rewrite !memcpy_text by lia. cbn [mbind cres_bind].
  destruct (sync_targets_ok l Hl Hl40) as (r & -> & Hr). cbn [mbind cres_bind]. destruct r as [e'|ts]; [apply Hno|].
  destruct Hr as [Hlen Hnew]. destruct (check_duplication_ok ts) as [d ->].
  { eapply Forall_impl; [exact Hnew|]. by intros t [? _ _]. }
  cbn [mbind cres_bind]. destruct d; [apply Hno|].
  destruct (new_item_cases dash_ok D B HD ltac:(lia)) as (i & D1 & B1 & -> & HD1 & Hcase). cbn [mbind cres_bind].
  destruct Hcase as [[-> ->]|(Hir & Hfree & HB1)]; cbn [Z.eqb]; [by exists (inl "failed to create dashboard item"%string), None, D1, B|].
  destruct (Z.eqb_spec i (-1)); [lia|].
  destruct (new_targets_ready ts) as (ts' & G & -> & Hlen' & HG & Hok & Hcl); [by intros ->|done|]. cbn [mbind cres_bind].
  pose proof (hash_arg_length sh h Ha) as Lh. destruct Ha as (c & Esh & _).
  set (s0 := Sync _ _ _ _ _ _ _ _ _ _).
  destruct (start_thread_ok W cursor_ok thread_ok jip jport s0 nm (0 :: replicate (40 - S (length nm)) 0) h
    ([c] ++ 0 :: replicate (40 - S (length sh)) 0)) as (e' & s' & E & Hs'); try done.
  { simpl. by rewrite Esh, <- app_assoc. }
  { simpl. lia. }
  { lia. }
  { lia. }
  change (Z.to_nat (32 + 8)) with 40%nat in *. rewrite E. cbn [mbind cres_bind]. destruct e' as [e'|].
  - destruct (run_op_ok (Remove i) D1 B1 HD1) as (D2 & E2 & HD2); [unfold valid_op, Dashboard.is_int; lia| |].
    { rewrite HB1, map_size_insert_None by done. lia. }
    unfold run_op, esq_dashboard_remove_item2 in E2.
    destruct (esq_dashboard_remove_item D1 i) as [[r D3]| | |]; try done. cbn [mbind cres_bind] in *. injection E2 as _ ->.
    eexists _, _, _, _. split; [done|]. split; [exact HD2|]. unfold spec_op. rewrite HB1, lookup_insert_eq. simpl.
    split; [done|]. by rewrite delete_insert_id.
  - destruct (Hs' eq_refl) as (x & d & -> & Hsrc). eexists _, _, _, B1. split; [done|]. split; [done|].
    eexists. split; [done|]. split; [done|]. split; [done|]. split; simpl; try done.
    + rewrite length_fmap. congruence.
    + exists G. split; simpl; [|done|by rewrite length_fmap, Hlen'].
      rewrite length_app. cbn [length]. lia.
    + exists x, d. split; [|done]. destruct Hsrc as (y & b & Es & Hrest). exists y, b. split; [|done]. rewrite <- Es. done.
Qed.
End Start.

(** ** Claims *)

Section Claims.
Context {DB : Type} `{KcLaws DB, !KcCursor DB} (N : bkey_t → Prop).
Implicit Types (W : bees (DB := DB)) (s : bucket_sync_session_t (DB := DB)).

(** C15: The command that starts to send a bucket ends, for all arguments with hash texts of
    at most 40 characters and fewer than 2^31 - 2 items on the dashboard.  With an error it leaves no item on the dashboard and no thread.
    Otherwise there is a new, empty item, and the thread gets a session in which every
    target is in exactly one list, the list of its hash, all sockets are closed and the
    cursor is on the first record of the database of the bucket asked for. *)
Theorem bee_create_bucket_sync_session_correct inet_addr W D B mem_ok dash_ok cursor_ok thread_ok jip jport nm tn sh th l :
  BucketInv.inv N W → refines D B → Z.of_nat (size (am B)) < 2^31 - 2 →
  Forall is_byte sh → Forall triad_ok l → Forall (fun a => a_hash_length a <= 40) l →
  ∃ res o D' B',
    bee_mkccb_create_bucket_sync_session inet_addr W D mem_ok dash_ok cursor_ok thread_ok jip jport
      (nm ++ 0 :: tn) (Z.of_nat (length nm)) (sh ++ 0 :: th) (Z.of_nat (length sh)) l = Ret (res, o, D') ∧
    refines D' B' ∧
    match res with
    | inl _ => o = None ∧ am B' = am B
    | inr item => ∃ s, o = Some s ∧ am B !! item = None ∧ am B' = <[item := zero_item item]> (am B) ∧
                    ready W jip jport (length l) item s
    end.
Proof. intros. by apply (create_ok inet_addr N). Qed.

(** A target whose hash text is longer than 40 characters, up to the 65 of a whole hash
    and its mark, passes every check of the command and is copied behind the end of its
    field: the length test is compiled out. *)
Theorem bee_create_bucket_sync_session_overflow inet_addr W D dash_ok cursor_ok thread_ok jip jport nm tn sh h th
    good a si ti ap rest' ha hh tl rest :
  valid_name nm → Forall is_byte sh → hash_arg sh h → (length sh < 32)%nat →
  (∃ ts, sync_targets inet_addr good = Ret (inr ts)) →
  a_ip a = si ++ ti → a_ip_length a = Z.of_nat (length si) → Forall is_byte si → Ipv4.ipv4_text si ap rest' →
  0 <= a_port a <= 65535 →
  a_hash a = ha ++ tl → a_hash_length a = Z.of_nat (length ha) → Forall is_byte ha → hash_arg ha hh →
  (40 < length ha <= 65)%nat →
  bee_mkccb_create_bucket_sync_session inet_addr W D true dash_ok cursor_ok thread_ok jip jport
    (nm ++ 0 :: tn) (Z.of_nat (length nm)) (sh ++ 0 :: th) (Z.of_nat (length sh)) (good ++ a :: rest) = Fault.
Proof.
  intros Hnm Hsh Harg Hshl [ts Hgood] Eip Lip Bip Tip Hport Eh Lh Bh Hha Hlong.
  pose proof (valid_name_cstring nm Hnm) as [_ Hnml]. unfold bee_mkccb_create_bucket_sync_session.
  rewrite length_app. cbn [length]. rewrite Nat.add_succ_r. cbn [Nat.eqb].
  destruct (Z.leb_spec RANGE_MAP_NAME_MAX (Z.of_nat (length nm))); [unfold RANGE_MAP_NAME_MAX in *; lia|].
  destruct (name_check2_ok nm (0 :: tn)) as (e & -> & He). cbn [mbind cres_bind].
  apply He in Hnm as ->. rewrite decide_False by tauto.
  destruct (Z.leb_spec HASH_VALUE_LENGTH (Z.of_nat (length sh))); [unfold HASH_VALUE_LENGTH in *; lia|].
  rewrite (config_hash_arg sh h) by done. cbn [mbind cres_bind negb]. unfold RANGE_MAP_NAME_MAX, HASH_VALUE_LENGTH in *.
  rewrite !memcpy_text by lia. cbn [mbind cres_bind].
  assert (Ea : sync_target inet_addr a = Fault).
  { assert (Hok : triad_ok a) by (split; [by exists si, ti|by exists ha, tl]).
    destruct (sync_target_ok inet_addr a Hok) as [[e Ee]|[(? & _)|[_ ?]]]; [lia| |lia|done]. exfalso.
    unfold sync_target in Ee. rewrite Eip, Lip, Eh, Lh in Ee.
    destruct (Ipv4.ipv4_cases si ti Bip) as [(ap' & r' & Ht & Ei)|[Hno _]]; [|by destruct (Hno ap rest')].
    rewrite Ei in Ee. cbn [mbind cres_bind] in Ee.
    assert (Hr' : (length r' < length si)%nat).
    { destruct Ht as (bl & d1 & d2 & d3 & d4 & -> & _). repeat (rewrite length_app; cbn [length]). lia. }
    destruct (Z.eqb_spec (Z.of_nat (length si) - Z.of_nat (length r')) 0); [lia|].
    unfold PORT_NUMBER_INVALID in Ee.
    rewrite (proj2 (Z.ltb_ge _ _)), (proj2 (Z.ltb_ge _ _)) in Ee by lia. cbn [orb] in Ee.
    rewrite (config_hash_arg ha hh) in Ee by done. cbn [mbind cres_bind] in Ee. pose proof (hash_arg_length ha hh Hha) as Ll.
    destruct (hash_arg_bin ha hh tl (t_hash zero_target) Bh Hha) as (hb & Eb & _).
    { change (length (t_hash zero_target)) with 32%nat. lia. }
    rewrite Eb in Ee. cbn [mbind cres_bind Z.eqb negb] in Ee.
    destruct (c_memcpy _ _ _ _); discriminate Ee. }
  assert (El : ∀ good ts, sync_targets inet_addr good = Ret (inr ts) → sync_targets inet_addr (good ++ a :: rest) = Fault).
  { clear Hgood. induction good0 as [|b good0 IH]; intros ts0; cbn [sync_targets app]; [by rewrite Ea|].
    destruct (sync_target inet_addr b) as [[e|t]| | |]; try done. cbn [mbind cres_bind].
    destruct (sync_targets inet_addr good0) as [[e|ts1]| | |]; try done. intros _. by rewrite (IH ts1). }
  by rewrite (El good ts).
Qed.

(** C14: While the bucket and its database stay as they are and the kernel opens the sockets and
    takes every write whole, and keys and values have less than 2^31 bytes, the thread sends twenty records in a round, each once to every
    target whose hash is a prefix of the hash of its key and to no other, in messages of a
    header, on a new connection the name of the range map, the text of the hash, the key and
    the value; it goes on for ever when all are sent.  Under these conditions it ends only with
    a record whose key does not have the length of the hash text of a target it is for, because
    the result of writing the text is compared with the length of the key; then the sockets are
    closed. *)
Theorem esq_bucket_sync_worker_correct `{!KcCursorLaws DB} sha256 open_fd answer rounds s w D B G x d :
  (∀ k, length (sha256 k) = 32%nat) → kernel_ok open_fd answer → sync_ok s G →
  ss_kcdb s = Some x → ss_kccursor s = Some (kccurjump d) → Forall (source_at s x d) rounds →
  (∀ k v, kc_get d k = Some v → small (k, v)) → refines D B → Dashboard.is_int (ss_dashboard s) →
  ∃ l res, NoDup l.*1 ∧ (∀ k v, (k, v) ∈ l ↔ kc_get d k = Some v) ∧
    (∀ k, reached (targets s) (sha256 k) G ≡ₚ
            filter (fun i => in_range (targets s) (sha256 k) i = true) (seq 0 (length (targets s)))) ∧
    esq_bucket_sync_worker sha256 open_fd answer rounds s w D = Ret res ∧
    let l' := take (BUCKET_SYNC_SPRINT_SIZE * length rounds) l in
    match res with
    | inl (s', w', _) => Forall (sendable sha256 s G) l' ∧ delivered_items sha256 G s w l' s' w'
    | inr (s', closed, _, _) =>
        ¬ Forall (sendable sha256 s G) l' ∧ ss_kccursor s' = None ∧
        closed = filter (fun fd => fd ≠ -1) (t_socket_fd <$> targets s')
    end.
Proof.
  intros Hsha Hker Hok Hx Hc Hro Hsm HD Hint. destruct (kc_walk d) as (l & Hl & Hnd & Hmem).
  destruct (worker_ok sha256 open_fd answer Hsha Hker rounds s w D B G x d _ l Hok Hx Hc Hl) as (res & E & Hres); try done.
  { apply Forall_forall. intros [k v] Hkv. by apply Hsm, Hmem. }
  exists l, res. split; [done|]. split; [done|]. split; [|done].
  intros k. apply reached_perm, (so_groups _ _ Hok).
Qed.

(** A server that is sent an item with the text of the hash of its range does not find the
    bucket, since the text has the mark and the key of the bucket has not, and stops. *)
Theorem bee_db_merge_refuses_hash_text W junk nm sh h k v nxt io :
  BucketInv.inv N W → valid_name nm → hash_arg sh h → length junk = 40%nat →
  Z.of_nat (length nm + length sh + length k + length v) < 2^31 →
  bee_db_start_merge_sprint0 W true junk
    (Header BEE_OP_SYNC (Z.of_nat (length nm)) (Z.of_nat (length k)) (Z.of_nat (length v)) (Z.of_nat (length sh)))
    (Round true (nm ++ sh ++ k ++ v) nxt :: io) = Ret W.
Proof.
  intros Hi Hnm Ha Hj Hlen. pose proof (valid_name_cstring nm Hnm) as [_ Hnml]. destruct Hnm as [Hnm1 _].
  unfold bee_db_start_merge_sprint0. cbn [negb merge_loop]. destruct (sync_header_ok _); cbn [negb]; [|done].
  cbn [r_mem r_item negb h_range_map_name_len h_key_len h_data_len h_result_buf_size].
  rewrite i32_small by lia. rewrite !length_app.
  destruct (Z.eqb_spec (Z.of_nat (length nm + (length sh + (length k + length v))))
    (Z.of_nat (length nm) + Z.of_nat (length k) + Z.of_nat (length v) + Z.of_nat (length sh))); [|lia]. cbn [negb].
  unfold merge_fields. cbn [h_range_map_name_len h_key_len h_data_len h_result_buf_size m_range_map_name].
  destruct (Z.eqb_spec (Z.of_nat (length nm)) 0); [lia|]. cbn [negb].
  pose proof (c_memcpy_ow [] junk nm (sh ++ k ++ v)) as Em. rewrite ow_nil, app_nil_l in Em. cbn [length] in Em.
  change (Z.of_nat 0) with 0 in Em. rewrite Em by (cbn [length]; lia). cbn [mbind cres_bind].
  rewrite (at_off_app nm) by done. cbn [mbind cres_bind].
  replace (nm ++ sh ++ k ++ v) with ((nm ++ sh) ++ k ++ v) by (by rewrite <- app_assoc).
  rewrite (span_app (nm ++ sh) k v (Z.of_nat (length nm) + Z.of_nat (length sh)) (Z.of_nat (length k)))
    by (rewrite ?length_app; lia). cbn [mbind cres_bind].
  replace ((nm ++ sh) ++ k ++ v) with ((nm ++ sh ++ k) ++ v ++ []) by (by rewrite app_nil_r, <- !app_assoc).
  rewrite (span_app (nm ++ sh ++ k) v [] (Z.of_nat (length nm) + Z.of_nat (length sh) + Z.of_nat (length k)) (Z.of_nat (length v)))
    by (rewrite ?length_app; lia). cbn [mbind cres_bind].
  unfold esq_bucket_merge_item. cbn [m_bucket m_range_map_name_length m_range_map_name m_hash_str m_hash_str_length].
  destruct (Z.eqb_spec (Z.of_nat (length nm)) 0); [lia|]. unfold ow.
  destruct (find_any N W nm (drop (length nm) junk) sh (k ++ v) 0 0 Hi) as (p & -> & Hp); [lia|lia|].
  cbn [mbind cres_bind]. destruct p as [x|]; [|done]. exfalso. destruct (Hp x eq_refl) as (b & Hb & El).
  destruct (ti_bucket N W (bi_tree N W Hi) x b Hb) as [[_ _ [Hev _]] _].
  rewrite (hash_arg_length sh h Ha) in El. destruct Ha as (_ & _ & _ & Hev' & _).
  rewrite <- El, Nat2Z.inj_succ, Z.even_succ, <- Z.negb_even, Hev' in Hev. done.
Qed.
End Claims.

(** ** Examples *)

(** A cursor of the finite map is the records that are left. *)
#[export] Instance demo_cursor : KcCursor demo_db := {|
  cursor := list (list Z * list Z);
  kccurjump d := map_to_list (d : gmap _ _);
  kccurget _ c := match c with [] => None | (k, v) :: c => Some (k, v, c) end
|}.

Lemma demo_records (d : demo_db) (c : list (list Z * list Z)) : records_from d c c.
Proof. induction c as [|[k v] c IH]; [by constructor|]. eapply records_step; [reflexivity|exact IH]. Qed.

#[export] Instance demo_cursor_laws : KcCursorLaws demo_db.
Proof.
  split. intros d. exists (map_to_list (d : gmap _ _)). split; [apply demo_records|].
  split; [apply NoDup_fst_map_to_list|]. intros k v. apply elem_of_map_to_list.
Qed.

Module SyncDemo.
Definition no_addr (_ : list Z) : Z := 0.
Definition ip1 : list Z := bytes_of "1.2.3.4".
Definition to_all : triad := Triad (ip1 ++ [0]) 7 80 (Run.any ++ [0]) 1.
Definition to_aa : triad := Triad (ip1 ++ [0]) 7 81 (Run.aa ++ [0]) 3.

(** The bucket of the server with one record. *)
Definition W2 : bees (DB := demo_db) := (ret_of (bee_bucket_set Hive.W1 1%positive [107] (replicate 16 5)) (0, Hive.W1)).2.
Definition D0 : dash := esq_dashboard_init no_dash.

Definition started : cres ((string + Z) * option (bucket_sync_session_t (DB := demo_db)) * dash) :=
  bee_mkccb_create_bucket_sync_session no_addr W2 D0 true true true true 0 0 (Run.kv ++ [0]) 2 (Run.any ++ [0]) 1
    [to_all; to_aa].

Definition S : bucket_sync_session_t (DB := demo_db) :=
  match started with
  | Ret (_, Some s, _) => s
  | _ => Sync [] 0 [] 0 0 None None None 0 []
  end.

Lemma sync_text_bytes (t : list Z) : forallb (fun c => (0 <=? c) && (c <? 256)) t = true → Forall is_byte t.
Proof.
  intros Ht. apply Forall_forall. intros c Hc. rewrite forallb_forall in Ht. apply list_elem_of_In, Ht in Hc.
  unfold is_byte. lia.
Qed.

Lemma triads_ok : Forall triad_ok [to_all; to_aa].
Proof.
  apply Forall_cons. split; [|apply Forall_cons; split; [|apply Forall_nil_2]].
  - split; [exists ip1, [0]|exists Run.any, [0]]; split; try done; split; try done; by apply sync_text_bytes.
  - split; [exists ip1, [0]|exists Run.aa, [0]]; split; try done; split; try done; by apply sync_text_bytes.
Qed.

Lemma targets_check ts :
  forallb (fun t => (length (t_hash t) =? 32)%nat && (0 <=? t_hash_length t) && (t_hash_length t <=? 32)
    && (0 <=? t_hash_str_length t) && (t_hash_str_length t <=? Z.of_nat (length (t_hash_str t)))) ts = true →
  Forall target_ok ts.
Proof.
  intros Ht. apply Forall_forall. intros t Hin. rewrite forallb_forall in Ht. apply list_elem_of_In, Ht in Hin.
  rewrite !andb_true_iff, Nat.eqb_eq, !Z.leb_le in Hin. split; tauto.
Qed.

Lemma S_ok : sync_ok S [[0%nat]; [1%nat]].
Proof.
  split; [split; by apply Z.leb_le|..].
  - apply targets_check. vm_compute. reflexivity.
  - split; try by vm_compute.
    + repeat constructor; vm_compute; reflexivity.
    + repeat constructor; discriminate.
    + intros g i [->|[->|?%elem_of_nil]%elem_of_cons]%elem_of_cons Hi; [..|done];
        apply list_elem_of_singleton in Hi as ->; reflexivity.
    + apply (bool_decide_unpack _). vm_compute. exact I.
Qed.

Lemma S_source : source_at S 1%positive ({[ [107] := replicate 16 5 ]} : demo_db) (W2, 0, 0).
Proof.
  destruct (bks W2 !! 1%positive) as [b|] eqn:Eb; [|vm_compute in Eb; discriminate Eb].
  exists 1%positive, b. split; [vm_compute; reflexivity|]. split; [exact Eb|].
  split; [vm_compute in Eb; injection Eb as <-; reflexivity|vm_compute; reflexivity].
Qed.

Lemma D0_refines : refines D0 (Board ∅ 0).
Proof. apply init_ok. Qed.
End SyncDemo.

Lemma bee_create_bucket_sync_session_correct_witness :
  ∃ res o D' B',
    bee_mkccb_create_bucket_sync_session SyncDemo.no_addr Hive.W1 SyncDemo.D0 true true true true 0 0
      (Run.kv ++ [0]) 2 (Run.any ++ [0]) 1 [SyncDemo.to_all; SyncDemo.to_aa] = Ret (res, o, D') ∧ refines D' B' ∧ res = inr 0.
Proof.
  destruct (bee_create_bucket_sync_session_correct Hive.keys SyncDemo.no_addr Hive.W1 SyncDemo.D0 (Board ∅ 0) true true true true
    0 0 Run.kv [] Run.any [] [SyncDemo.to_all; SyncDemo.to_aa] Hive.W1_inv SyncDemo.D0_refines)
    as (res & o & D' & B' & E & HD & _).
  - simpl. rewrite map_size_empty. lia.
  - by apply SyncDemo.sync_text_bytes.
  - apply SyncDemo.triads_ok.
  - repeat constructor; discriminate.
  - exists res, o, D', B'. split; [exact E|]. split; [exact HD|].
    vm_compute in E. injection E as <- _ _. reflexivity.
Defined.

Definition long_text : list Z := replicate 42 97 ++ [120].

Lemma bee_create_bucket_sync_session_overflow_witness :
  bee_mkccb_create_bucket_sync_session SyncDemo.no_addr Hive.W1 SyncDemo.D0 true true true true 0 0
    (Run.kv ++ [0]) 2 (Run.any ++ [0]) 1
    [SyncDemo.to_all; Triad (SyncDemo.ip1 ++ [0]) 7 81 (long_text ++ [0]) 43] = Fault.
Proof.
  apply (bee_create_bucket_sync_session_overflow SyncDemo.no_addr Hive.W1 SyncDemo.D0 true true true 0 0 Run.kv [] Run.any [] []
    [SyncDemo.to_all] (Triad (SyncDemo.ip1 ++ [0]) 7 81 (long_text ++ [0]) 43) SyncDemo.ip1 [0] (1 * 2^24 + 2 * 2^16 + 3 * 2^8 + 4) []
    long_text (replicate 42 97) [0] []); try reflexivity.
  - split; [simpl; lia|]. repeat constructor; vm_compute; intuition discriminate.
  - by apply SyncDemo.sync_text_bytes.
  - exists 120. split; [reflexivity|]. split; [by left|]. split; [reflexivity|]. left. apply Forall_nil_2.
  - simpl. lia.
  - eexists. vm_compute. reflexivity.
  - by apply SyncDemo.sync_text_bytes.
  - exists [], [49], [50], [51], [52]. split; [reflexivity|]. split; [apply Forall_nil_2|].
    assert (Ho : ∀ c, 48 <= c <= 57 → Ipv4.octet [c]).
    { intros c Hc. split; [done|]. split; [by repeat constructor; unfold digit; lia|]. unfold dec, dec_from. simpl. lia. }
    do 4 (split; [apply Ho; lia|]). split; [exact I|reflexivity].
  - simpl. lia.
  - by apply SyncDemo.sync_text_bytes.
  - exists 120. split; [reflexivity|]. split; [by left|]. split; [reflexivity|]. left.
    apply Forall_replicate. unfold HashString.hex, digit. lia.
  - simpl. lia.
Defined.

Lemma esq_bucket_sync_worker_correct_witness :
  ∃ l res, NoDup l.*1 ∧
    esq_bucket_sync_worker Hive.sha (fun n => 5 + Z.of_nat n) (fun _ z => z)
      [(SyncDemo.W2, 0, 0); (SyncDemo.W2, 0, 0)] SyncDemo.S (Net 0 []) SyncDemo.D0 = Ret res ∧
    match res with
    | inl (s', w', _) => delivered_items Hive.sha [[0%nat]; [1%nat]] SyncDemo.S (Net 0 []) (take 40 l) s' w'
    | inr _ => False
    end.
Proof.
  destruct (esq_bucket_sync_worker_correct (DB := demo_db) Hive.sha (fun n => 5 + Z.of_nat n) (fun _ z => z)
    [(SyncDemo.W2, 0, 0); (SyncDemo.W2, 0, 0)] SyncDemo.S (Net 0 []) SyncDemo.D0 (Board ∅ 0) [[0%nat]; [1%nat]] 1%positive
    ({[ [107] := replicate 16 5 ]} : demo_db)) as (l & res & Hl & _ & _ & E & Hres).
  - done.
  - split; [done|]. intros n. lia.
  - apply SyncDemo.S_ok.
  - vm_compute. reflexivity.
  - vm_compute. reflexivity.
  - repeat constructor; apply SyncDemo.S_source.
  - intros k v Hkv. unfold kc_get, demo_kc in Hkv. apply lookup_singleton_Some in Hkv as [<- <-]. by split.
  - apply SyncDemo.D0_refines.
  - split; vm_compute; discriminate || reflexivity.
  - exists l, res. split; [exact Hl|]. split; [exact E|]. vm_compute in E. injection E as <-. apply Hres.
Defined.
