(* ===== verification/SfsFolder.v ===== *)
(** * The pages of folders

    The file service ([modules/simple-file-service]) answers a request for a folder with a
    page that lists its folders and then its files ([folder.c]).  The page is made piece by
    piece: whenever the HTTP library has room for at least 8192 bytes it calls
    [sfs_read_local_folder_cb], which puts as many items into the buffer as fit; what comes
    next is kept in [dir_output_stat].

    A buffer given with its size is the list of the bytes it may write.  An open directory
    is the list of entries that [readdir] still delivers and the list it delivers after
    [rewinddir]; they may differ, since files come and go.  Formats are written with a
    single quotation mark for the double one. *)
From stdpp Require Import strings.
From S2P Require Import Prelude CString CText PostData.
Import Slash.

(** ** Data *)

Definition SFS_PREFEREC_BUFFER_SIZE : Z := 8192.
Definition SFS_FLAGS_ALLOW_BROWSE : Z := 1.
Definition SFS_FLAGS_ALLOW_UPLOAD : Z := 2.
Definition SFS_FLAGS_ALLOW_REMOVE : Z := 3.
Definition SFS_FLAGS_SEND_INDEX_HTML : Z := 4.

(** [path_head] and [local_path_head] are the bytes of [string_buf] from there on. *)
Record sfs_service_ctx_t := Service {
  flags : Z;
  path_head_len : Z;
  local_path_head_len : Z;
  path_head : list Z;
  local_path_head : list Z
}.

Inductive d_type_t := DT_DIR | DT_REG | DT_OTHER.
Record dirent := Dirent { d_type : d_type_t; d_name : list Z }.

Record DIR := Dir { d_next : list dirent; d_again : list dirent }.

Inductive dir_output :=
| SFS_OUTPUT_HEAD | SFS_OUTPUT_GO_UPPER | SFS_OUTPUT_DIR | SFS_OUTPUT_DIR_CONT
| SFS_OUTPUT_FILE | SFS_OUTPUT_FILE_CONT | SFS_OUTPUT_TAIL | SFS_OUTPUT_FINISHED.

Inductive post_state_t := STATE_INIT | STATE_OPEN | STATE_RECV | STATE_FINISHED | STATE_ERROR.

Record sfs_stream_ctx_t := Stream {
  fd : Z;
  dir : option DIR;
  dir_output_stat : dir_output;
  path : option (list Z);
  ent : option dirent;
  service_ctx : option sfs_service_ctx_t;
  item_idx : Z;
  post_fd : Z;
  post_state : post_state_t;
  post_parser_ctx : post_data_ctx_t;
  post_len : Z
}.

(** [sfs_new_ctx]; [mem_ok] is whether there is memory. *)
Definition sfs_new_ctx (mem_ok : bool) : option sfs_stream_ctx_t :=
  if mem_ok then
    Some (Stream (-1) None SFS_OUTPUT_HEAD None None None 0 (-1) STATE_INIT (Ctx POST_ET_VOID (replicate 256 0) 0) 0)
  else None.

Definition set_stat (s : dir_output) (c : sfs_stream_ctx_t) : sfs_stream_ctx_t :=
  Stream (fd c) (dir c) s (path c) (ent c) (service_ctx c) (item_idx c) (post_fd c) (post_state c) (post_parser_ctx c) (post_len c).
Definition set_dir (d : option DIR) (c : sfs_stream_ctx_t) : sfs_stream_ctx_t :=
  Stream (fd c) d (dir_output_stat c) (path c) (ent c) (service_ctx c) (item_idx c) (post_fd c) (post_state c) (post_parser_ctx c) (post_len c).
Definition set_ent (e : option dirent) (c : sfs_stream_ctx_t) : sfs_stream_ctx_t :=
  Stream (fd c) (dir c) (dir_output_stat c) (path c) e (service_ctx c) (item_idx c) (post_fd c) (post_state c) (post_parser_ctx c) (post_len c).
Definition set_path (p : option (list Z)) (c : sfs_stream_ctx_t) : sfs_stream_ctx_t :=
  Stream (fd c) (dir c) (dir_output_stat c) p (ent c) (service_ctx c) (item_idx c) (post_fd c) (post_state c) (post_parser_ctx c) (post_len c).
Definition next_item (c : sfs_stream_ctx_t) : sfs_stream_ctx_t :=
  Stream (fd c) (dir c) (dir_output_stat c) (path c) (ent c) (service_ctx c) (i32 (item_idx c + 1)) (post_fd c) (post_state c) (post_parser_ctx c) (post_len c).

(** A pointer that must not be null. *)
Definition deref {A} (p : option A) : cres A := match p with Some a => Ret a | None => Fault end.

(** ** Texts *)

Definition text (s : string) : list Z := (fun c => Z.of_N (Ascii.N_of_ascii c)) <$> String.list_ascii_of_string s.
Definition html (s : string) : list Z := (fun c => if c =? 39 then 34 else c) <$> text s.

Definition page_style : list Z := html
  "<meta http-equiv='Content-Type' content='text/html; charset=utf-8'><style type='text/css'>body{font-family:'Courier New', Courier, monospace;padding:2px;}td{padding-left:5px;padding-right:5px}.tdo{background-color:#f0f0ff}.tde{background-color:#f9f9ff}</style></head><body>".

Definition SFS_FOLDER_PAGE_HEAD (p r : list Z) : list Z :=
  text "<html><head><title>" ++ p ++ r ++ text "</title>" ++ page_style ++
  text "<table><tr><td>Index of: " ++ p ++ r ++ text "</td></tr></table><hr><table>".

Definition SFS_FOLDER_PAGE_HEAD2 (p r : list Z) : list Z :=
  text "<html><head><title>" ++ p ++ r ++ text "</title>" ++ page_style ++
  text "<table width=100%><tr><td>Index of: " ++ p ++ r ++ text "</td>" ++
  html "<form method='post' action='" ++ p ++ r ++ html "' enctype='multipart/form-data'>" ++
  html "<td align='right'><input type='file' id='ufile' name='ufile' />" ++
  html "<input type='submit' value='upload' /></td></tr></table></form>" ++ text "<hr><table>".

Definition SFS_FOLDER_PAGE_TAIL : list Z := text "</table><hr></body></html>".

Definition class_str (odd : bool) : list Z := if odd then html "class='tde'" else html "class='tdo'".

(** A row: its class, where it leads, what it shows. *)
Definition row (odd : bool) (href shown : list Z) : list Z :=
  text "<tr><td " ++ class_str odd ++ html "><a href='" ++ href ++ html "'>" ++ shown ++ text "</a></td></tr>" ++ [10].

(** ** Items *)

(** [snprintf(buf, len, ...)] into the bytes [b] of the buffer. *)
Definition snprintf (b t : list Z) : Z * list Z :=
  match b with [] => (Z.of_nat (length t), []) | _ => c_snprintf b t end.

(** [ctx->path + ctx->service_ctx->local_path_head_len]. *)
Definition rel_path (c : sfs_stream_ctx_t) : cres (list Z) :=
  p ← deref (path c); s ← deref (service_ctx c); at_off p (local_path_head_len s).

Definition len_of (b : list Z) : Z := Z.of_nat (length b).

Definition sfs_local_folder_output_go_upper (b : list Z) (c : sfs_stream_ctx_t) : cres (Z * list Z * sfs_stream_ctx_t) :=
  p ← deref (path c); s ← deref (service_ctx c);
  q ← at_off p (local_path_head_len s);
  q0 ← rd q 0;
  if q0 =? 0 then Ret (0, b, c) else
  last_slash ← find_last_slash q;
  '(r, b, c) ←
    (if last_slash <=? 0 then
       h ← c_chars (path_head s);
       let '(r, b) := snprintf b (row false h (text "../")) in Ret (r, b, c)
     else
       p ← wr p (local_path_head_len s + last_slash) 0;
       h ← c_chars (path_head s);
       q ← at_off p (local_path_head_len s);
       q ← c_chars q;
       let '(r, b) := snprintf b (row false (h ++ q ++ [47]) (text "../")) in
       p ← wr p (local_path_head_len s + last_slash) 47;
       Ret (r, b, set_path (Some p) c));
  if (len_of b <=? r) || (r <=? 0) then Ret (-3, b, c)
  else Ret (r, b, next_item c).

Definition sfs_local_folder_output_dir (b : list Z) (e : dirent) (c : sfs_stream_ctx_t) : cres (Z * list Z * sfs_stream_ctx_t) :=
  n0 ← rd (d_name e) 0;
  if 46 =? n0 then Ret (-1, b, c) else
  let odd := negb (Z.land (item_idx c) 1 =? 0) in
  s ← deref (service_ctx c);
  q ← rel_path c;
  q0 ← rd q 0;
  h ← c_chars (path_head s);
  n ← c_chars (d_name e);
  t ← (if negb (q0 =? 0) then q ← c_chars q; Ret (row odd (h ++ q ++ [47] ++ n) (n ++ [47]))
       else Ret (row odd (h ++ n) (n ++ [47])));
  let '(r, b) := snprintf b t in
  if (r <=? 0) || (len_of b <=? r) then Ret (-2, b, c)
  else Ret (r, b, next_item c).

Definition sfs_local_folder_output_file (b : list Z) (e : dirent) (c : sfs_stream_ctx_t) : cres (Z * list Z * sfs_stream_ctx_t) :=
  n0 ← rd (d_name e) 0;
  if 46 =? n0 then Ret (-1, b, c) else
  let odd := negb (Z.land (item_idx c) 1 =? 0) in
  s ← deref (service_ctx c);
  q ← rel_path c;
  q0 ← rd q 0;
  h ← c_chars (path_head s);
  n ← c_chars (d_name e);
  q ← c_chars q;
  let t := if negb (q0 =? 0) then row odd (h ++ q ++ [47] ++ n) n else row odd (h ++ q ++ n) n in
  let '(r, b) := snprintf b t in
  if (r <=? 0) || (len_of b <=? r) then Ret (-2, b, c)
  else Ret (r, b, next_item c).

(** [ctx->ent = readdir(ctx->dir)]. *)
Definition readdir (c : sfs_stream_ctx_t) : cres (option dirent * sfs_stream_ctx_t) :=
  d ← deref (dir c);
  match d_next d with
  | e :: l => Ret (Some e, set_ent (Some e) (set_dir (Some (Dir l (d_again d))) c))
  | [] => Ret (None, set_ent None c)
  end.

Definition rewinddir (c : sfs_stream_ctx_t) : cres sfs_stream_ctx_t :=
  d ← deref (dir c); Ret (set_dir (Some (Dir (d_again d) (d_again d))) c).

Definition is_DIR (e : dirent) : bool := match d_type e with DT_DIR => true | _ => false end.
Definition is_REG (e : dirent) : bool := match d_type e with DT_REG => true | _ => false end.

Definition output_head (b : list Z) (c : sfs_stream_ctx_t) : cres (Z * list Z * sfs_stream_ctx_t) :=
  s ← deref (service_ctx c);
  q ← rel_path c;
  h ← c_chars (path_head s);
  q ← c_chars q;
  let t := if negb (Z.land SFS_FLAGS_ALLOW_UPLOAD (flags s) =? 0) then SFS_FOLDER_PAGE_HEAD2 h q else SFS_FOLDER_PAGE_HEAD h q in
  let '(r, b) := snprintf b t in
  if (r <=? 0) || (len_of b <=? r) then Ret (-3, b, c)
  else Ret (r, b, set_stat SFS_OUTPUT_GO_UPPER c).

Definition output_upper (b : list Z) (c : sfs_stream_ctx_t) : cres (Z * list Z * sfs_stream_ctx_t) :=
  '(r, b, c) ← sfs_local_folder_output_go_upper b c;
  if 0 =? r then Ret (-1, b, set_stat SFS_OUTPUT_DIR c)
  else if (r <? 0) || (len_of b <=? r) then Ret (-3, b, c)
  else Ret (r, b, set_stat SFS_OUTPUT_DIR c).

Definition output_dir (b : list Z) (c : sfs_stream_ctx_t) : cres (Z * list Z * sfs_stream_ctx_t) :=
  '(e, c) ← readdir c;
  match e with
  | Some e =>
      if is_DIR e then
        '(r, b, c) ← sfs_local_folder_output_dir b e c;
        Ret (r, b, if -2 =? r then set_stat SFS_OUTPUT_DIR_CONT c else c)
      else Ret (-1, b, c)
  | None => c ← rewinddir c; Ret (-1, b, set_stat SFS_OUTPUT_FILE c)
  end.

Definition output_dir_cont (b : list Z) (c : sfs_stream_ctx_t) : cres (Z * list Z * sfs_stream_ctx_t) :=
  let c := set_stat SFS_OUTPUT_DIR c in
  e ← deref (ent c);
  if is_DIR e then
    '(r, b, c) ← sfs_local_folder_output_dir b e c;
    Ret (if r <=? 0 then -3 else r, b, c)
  else Ret (-1, b, c).

Definition output_file (b : list Z) (c : sfs_stream_ctx_t) : cres (Z * list Z * sfs_stream_ctx_t) :=
  '(e, c) ← readdir c;
  match e with
  | Some e =>
      if is_REG e then
        '(r, b, c) ← sfs_local_folder_output_file b e c;
        Ret (r, b, if -2 =? r then set_stat SFS_OUTPUT_FILE_CONT c else c)
      else Ret (-1, b, c)
  | None => Ret (-1, b, set_stat SFS_OUTPUT_TAIL c)
  end.

Definition output_file_cont (b : list Z) (c : sfs_stream_ctx_t) : cres (Z * list Z * sfs_stream_ctx_t) :=
  let c := set_stat SFS_OUTPUT_FILE c in
  e ← deref (ent c);
  if is_REG e then
    '(r, b, c) ← sfs_local_folder_output_file b e c;
    Ret (if r <=? 0 then -3 else r, b, c)
  else Ret (-1, b, c).

Definition output_tail (b : list Z) (c : sfs_stream_ctx_t) : cres (Z * list Z * sfs_stream_ctx_t) :=
  let '(r, b) := snprintf b SFS_FOLDER_PAGE_TAIL in
  if (r <=? 0) || (len_of b <=? r) then Ret (-3, b, c)
  else Ret (r, b, set_stat SFS_OUTPUT_FINISHED c).

Definition sfs_read_local_folder_output_one_item (b : list Z) (c : sfs_stream_ctx_t) : cres (Z * list Z * sfs_stream_ctx_t) :=
  match dir_output_stat c with
  | SFS_OUTPUT_HEAD => output_head b c
  | SFS_OUTPUT_GO_UPPER => output_upper b c
  | SFS_OUTPUT_DIR => output_dir b c
  | SFS_OUTPUT_DIR_CONT => output_dir_cont b c
  | SFS_OUTPUT_FILE => output_file b c
  | SFS_OUTPUT_FILE_CONT => output_file_cont b c
  | SFS_OUTPUT_TAIL => output_tail b c
  | SFS_OUTPUT_FINISHED => Ret (0, b, c)
  end.

(** ** The callback *)

Record reply := Reply { eof : bool; len_out : Z; out_buf : list Z }.

Fixpoint folder_loop (fuel : nat) (b : list Z) (offset : Z) (c : sfs_stream_ctx_t) : cres (reply * sfs_stream_ctx_t) :=
  match fuel with
  | O => NoFuel
  | S fuel =>
      q ← at_off b offset;
      '(r, q, c) ← sfs_read_local_folder_output_one_item q c;
      let b := take (Z.to_nat offset) b ++ q in
      if 0 <? r then folder_loop fuel b (offset + r) c
      else if r =? 0 then Ret (Reply true offset b, c)
      else if -1 =? r then folder_loop fuel b offset c
      else if -2 =? r then Ret (Reply false offset b, c)
      else Ret (Reply true 0 b, c)
  end.

(** Entries still to come, and the steps between them. *)
Definition folder_fuel (c : sfs_stream_ctx_t) : nat :=
  match dir c with Some d => length (d_next d) + length (d_again d) + 10 | None => 10 end.

(** The HTTP library gives the buffer [b]; its first 8192 bytes are used. *)
Definition sfs_read_local_folder_cb (b : list Z) (c : sfs_stream_ctx_t) : cres (reply * sfs_stream_ctx_t) :=
  if Z.of_nat (length b) <? SFS_PREFEREC_BUFFER_SIZE then Ret (Reply true 0 b, c) else
  '(a, c) ← folder_loop (folder_fuel c) (take (Z.to_nat SFS_PREFEREC_BUFFER_SIZE) b) 0 c;
  Ret (Reply (eof a) (len_out a) (out_buf a ++ drop (Z.to_nat SFS_PREFEREC_BUFFER_SIZE) b), c).

(** The HTTP library calls until it is told the end; what it gets. *)
Fixpoint serve (bufs : list (list Z)) (c : sfs_stream_ctx_t) : cres (bool * list (list Z)) :=
  match bufs with
  | [] => Ret (false, [])
  | b :: bufs =>
      '(a, c) ← sfs_read_local_folder_cb b c;
      let chunk := take (Z.to_nat (len_out a)) (out_buf a) in
      if eof a then Ret (true, [chunk])
      else '(e, l) ← serve bufs c; Ret (e, chunk :: l)
  end.

(** ** The page *)

(** [SFS_PREFEREC_BUFFER_SIZE] as a length. *)
Definition page_size : nat := Z.to_nat SFS_PREFEREC_BUFFER_SIZE.

Lemma page_size_Z : Z.of_nat page_size = SFS_PREFEREC_BUFFER_SIZE.
Proof. unfold page_size. by rewrite Z2Nat.id. Qed.

Lemma page_size_pos : (0 < page_size)%nat.
Proof. pose proof page_size_Z. unfold SFS_PREFEREC_BUFFER_SIZE in *. lia. Qed.
#[local] Opaque page_size.

Definition name_of (e : dirent) : list Z := cstr (d_name e).
Definition named (e : dirent) : Prop := ∃ tl, d_name e = name_of e ++ 0 :: tl ∧ cstring (name_of e).
Definition hidden (e : dirent) : bool := match name_of e with 46 :: _ => true | _ => false end.
Definition odd_idx (k : Z) : bool := negb (Z.land k 1 =? 0).

Section Page.
  (** The path of the service and the path below it, both without their zeros. *)
  Context (s : sfs_service_ctx_t) (ph rel : list Z).

Definition head_text : list Z :=
  if negb (Z.land SFS_FLAGS_ALLOW_UPLOAD (flags s) =? 0) then SFS_FOLDER_PAGE_HEAD2 ph rel else SFS_FOLDER_PAGE_HEAD ph rel.

(** The link to the folder above leads to the path before the last slash. *)
Definition upper_text : list Z :=
  let k := last_slash rel 0 (-1) in
  row false (if k <=? 0 then ph else ph ++ take (Z.to_nat k) rel ++ [47]) (text "../").

Definition href (e : dirent) : list Z :=
  match rel with [] => ph ++ name_of e | _ => ph ++ rel ++ [47] ++ name_of e end.
Definition dir_row (k : Z) (e : dirent) : list Z := row (odd_idx k) (href e) (name_of e ++ [47]).
Definition file_row (k : Z) (e : dirent) : list Z := row (odd_idx k) (href e) (name_of e).

(** The rows of the entries to show, from number [k] on. *)
Fixpoint rows (keep : dirent → bool) (mk : Z → dirent → list Z) (k : Z) (l : list dirent) : list (list Z) * Z :=
  match l with
  | [] => ([], k)
  | e :: l => if keep e && negb (hidden e) then let '(rs, k') := rows keep mk (i32 (k + 1)) l in (mk k e :: rs, k')
              else rows keep mk k l
  end.
Definition file_pieces (k : Z) (l : list dirent) : list (list Z) := (rows is_REG file_row k l).1 ++ [SFS_FOLDER_PAGE_TAIL].
Definition dir_pieces (k : Z) (l again : list dirent) : list (list Z) :=
  let '(rs, k') := rows is_DIR dir_row k l in rs ++ file_pieces k' again.
Definition upper_pieces (k : Z) (l again : list dirent) : list (list Z) :=
  match rel with [] => dir_pieces k l again | _ => upper_text :: dir_pieces (i32 (k + 1)) l again end.

(** What is still to come in a state. *)
Definition pieces (c : sfs_stream_ctx_t) : list (list Z) :=
  match dir c with
  | None => []
  | Some (Dir l again) =>
      let k := item_idx c in
      match dir_output_stat c, ent c with
      | SFS_OUTPUT_HEAD, _ => head_text :: upper_pieces k l again
      | SFS_OUTPUT_GO_UPPER, _ => upper_pieces k l again
      | SFS_OUTPUT_DIR, _ => dir_pieces k l again
      | SFS_OUTPUT_DIR_CONT, Some e => dir_row k e :: dir_pieces (i32 (k + 1)) l again
      | SFS_OUTPUT_FILE, _ => file_pieces k l
      | SFS_OUTPUT_FILE_CONT, Some e => file_row k e :: file_pieces (i32 (k + 1)) l
      | SFS_OUTPUT_TAIL, _ => [SFS_FOLDER_PAGE_TAIL]
      | _, _ => []
      end
  end.

Record folder_ok (c : sfs_stream_ctx_t) : Prop := {
  fo_service : service_ctx c = Some s;
  fo_ph : ∃ tl, path_head s = ph ++ 0 :: tl;
  fo_phs : cstring ph;
  fo_path : ∃ lp tl, path c = Some (lp ++ rel ++ 0 :: tl) ∧ local_path_head_len s = Z.of_nat (length lp);
  fo_rel : cstring rel ∧ 92 ∉ rel;
  fo_dir : ∃ l again, dir c = Some (Dir l again) ∧ Forall named l ∧ Forall named again;
  fo_ent : match dir_output_stat c with
           | SFS_OUTPUT_DIR_CONT => ∃ e, ent c = Some e ∧ named e ∧ is_DIR e = true ∧ hidden e = false
           | SFS_OUTPUT_FILE_CONT => ∃ e, ent c = Some e ∧ named e ∧ is_REG e = true ∧ hidden e = false
           | _ => True
           end
}.

Definition cost (c : sfs_stream_ctx_t) : nat :=
  match dir c with
  | None => 0
  | Some (Dir l again) =>
      match dir_output_stat c with
      | SFS_OUTPUT_HEAD => length l + length again + 5
      | SFS_OUTPUT_GO_UPPER | SFS_OUTPUT_DIR_CONT => length l + length again + 4
      | SFS_OUTPUT_DIR => length l + length again + 3
      | SFS_OUTPUT_FILE_CONT => length l + 3
      | SFS_OUTPUT_FILE => length l + 2
      | SFS_OUTPUT_TAIL => 1
      | SFS_OUTPUT_FINISHED => 0
      end
  end.

(** ** One item *)

Lemma page_snprintf_ok (b t : list Z) : b ≠ [] →
  ∃ b', snprintf b t = (Z.of_nat (length t), b') ∧ length b' = length b ∧
    ((length t < length b)%nat → take (length t) b' = t).
Proof.
  intros Hb. destruct b as [|x b]; [done|]. unfold snprintf, c_snprintf. eexists. split; [reflexivity|].
  assert (Hl : Nat.le (length (take (length (x :: b) - 1) t ++ [0])) (length (x :: b)))
    by (rewrite length_app, length_take; simpl; lia).
  split; [by apply length_ow|]. intros Ht. unfold ow. rewrite (take_ge t) by lia.
  rewrite <- app_assoc. by rewrite take_app_length.
Qed.

Lemma row_pos odd h t : (0 < length (row odd h t))%nat.
Proof. unfold row. rewrite length_app. simpl. lia. Qed.

(** What a step that is to output [t] does: it succeeds if there is room. *)
Definition item_done (b : list Z) (c : sfs_stream_ctx_t) (t : list Z) (bad : Z) (m : cres (Z * list Z * sfs_stream_ctx_t))
    (c1 c2 : sfs_stream_ctx_t) : Prop :=
  ∃ b', length b' = length b ∧
    if decide (length t < length b)%nat then m = Ret (Z.of_nat (length t), b', c1) ∧ take (length t) b' = t
    else m = Ret (bad, b', c2).

Lemma item_done_intro b c t bad c1 c2 : b ≠ [] → (0 < length t)%nat →
  item_done b c t bad (let '(r, b) := snprintf b t in
    if (r <=? 0) || (len_of b <=? r) then Ret (bad, b, c2) else Ret (r, b, c1)) c1 c2.
Proof.
  intros Hb Ht. destruct (page_snprintf_ok b t Hb) as (b' & -> & Hl & Htk). exists b'. split; [done|].
  unfold len_of. rewrite Hl. destruct (Z.leb_spec (Z.of_nat (length t)) 0); [lia|]. cbn [orb].
  destruct (Z.leb_spec (Z.of_nat (length b)) (Z.of_nat (length t))).
  - rewrite decide_False by lia. done.
  - rewrite decide_True by lia. split; [done|]. apply Htk. lia.
Qed.

(** The name of an entry in memory. *)
Lemma name_first e : named e → rd (d_name e) 0 = Ret (match name_of e with [] => 0 | x :: _ => x end).
Proof. intros (tl & E & Hc). rewrite E. by destruct (name_of e). Qed.

Lemma name_chars e : named e → c_chars (d_name e) = Ret (name_of e).
Proof.
  intros (tl & E & Hc). rewrite E. clear E. induction Hc as [|x n Hx Hn IH]; [done|]. simpl.
  destruct (Z.eqb_spec x 0); [lia|]. by rewrite IH.
Qed.

Lemma chars_app n tl : cstring n → c_chars (n ++ 0 :: tl) = Ret n.
Proof.
  intros Hc. induction Hc as [|x n Hx Hn IH]; [done|]. simpl.
  destruct (Z.eqb_spec x 0); [lia|]. by rewrite IH.
Qed.

Lemma rel_at c : folder_ok c → ∃ tl, rel_path c = Ret (rel ++ 0 :: tl).
Proof.
  intros [Hs _ _ (lp & tl & Hp & Hl) _ _ _]. exists tl. unfold rel_path. rewrite Hp, Hs. cbn [deref mbind cres_bind].
  by apply at_off_app.
Qed.

Lemma hidden_first e : (46 =? match name_of e with [] => 0 | x :: _ => x end) = hidden e.
Proof.
  unfold hidden. destruct (name_of e) as [|x n]; [done|]. destruct (Z.eqb_spec 46 x) as [<-|H]; [done|].
  repeat (case_match; try done; subst; try lia).
Qed.

Lemma first_rel tl : rd (rel ++ 0 :: tl) 0 = Ret (match rel with [] => 0 | x :: _ => x end).
Proof. by destruct rel. Qed.

Lemma rel_empty : cstring rel → (match rel with [] => 0 | x :: _ => x end =? 0) = match rel with [] => true | _ => false end.
Proof. intros H. destruct rel as [|x r]; [done|]. apply Forall_cons in H as [Hx _]. by destruct (Z.eqb_spec x 0); [lia|]. Qed.

Lemma output_dir_ok b c e : folder_ok c → named e → b ≠ [] →
  if hidden e then sfs_local_folder_output_dir b e c = Ret (-1, b, c)
  else item_done b c (dir_row (item_idx c) e) (-2) (sfs_local_folder_output_dir b e c) (next_item c) c.
Proof.
  intros Hc He Hb. destruct (rel_at c Hc) as [tl Er]. destruct Hc as [Hs [tl2 Eh] Hph _ [Hrel _] _ _].
  unfold sfs_local_folder_output_dir. rewrite name_first by done. cbn [mbind cres_bind]. rewrite hidden_first.
  destruct (hidden e); [done|]. rewrite Hs. cbn [deref mbind cres_bind]. rewrite Er. cbn [mbind cres_bind].
  rewrite first_rel. cbn [mbind cres_bind]. rewrite Eh, (chars_app ph) by done. cbn [mbind cres_bind].
  rewrite name_chars by done. cbn [mbind cres_bind]. rewrite rel_empty by done. unfold dir_row, href, odd_idx.
  destruct rel as [|x r] eqn:E; cbn [negb].
  - cbn [mbind cres_bind]. apply item_done_intro; [done|apply row_pos].
  - rewrite chars_app by done. cbn [mbind cres_bind]. apply item_done_intro; [done|apply row_pos].
Qed.

Lemma output_file_ok b c e : folder_ok c → named e → b ≠ [] →
  if hidden e then sfs_local_folder_output_file b e c = Ret (-1, b, c)
  else item_done b c (file_row (item_idx c) e) (-2) (sfs_local_folder_output_file b e c) (next_item c) c.
Proof.
  intros Hc He Hb. destruct (rel_at c Hc) as [tl Er]. destruct Hc as [Hs [tl2 Eh] Hph _ [Hrel _] _ _].
  unfold sfs_local_folder_output_file. rewrite name_first by done. cbn [mbind cres_bind]. rewrite hidden_first.
  destruct (hidden e); [done|]. rewrite Hs. cbn [deref mbind cres_bind]. rewrite Er. cbn [mbind cres_bind].
  rewrite first_rel. cbn [mbind cres_bind]. rewrite Eh, (chars_app ph) by done. cbn [mbind cres_bind].
  rewrite name_chars by done. cbn [mbind cres_bind]. rewrite rel_empty by done. unfold file_row, href, odd_idx.
  rewrite chars_app by done. cbn [mbind cres_bind].
  destruct rel as [|x r] eqn:E; cbn [negb]; apply item_done_intro; (done || apply row_pos).
Qed.

Lemma item_done_upper b b' c t : length b' = length b → (0 < length t)%nat →
  ((length t < length b)%nat → take (length t) b' = t) →
  item_done b c t (-3) (if (len_of b' <=? Z.of_nat (length t)) || (Z.of_nat (length t) <=? 0) then Ret (-3, b', c)
    else Ret (Z.of_nat (length t), b', next_item c)) (next_item c) c.
Proof.
  intros Hlb Hpos Htk. exists b'. split; [done|]. unfold len_of. rewrite Hlb.
  destruct (Z.leb_spec (Z.of_nat (length b)) (Z.of_nat (length t))); cbn [orb].
  - rewrite decide_False by lia. done.
  - destruct (Z.leb_spec (Z.of_nat (length t)) 0); [lia|]. rewrite decide_True by lia. split; [done|]. apply Htk. lia.
Qed.

(** The path is restored. *)
Lemma go_upper_ok b c : folder_ok c → b ≠ [] → rel ≠ [] →
  item_done b c upper_text (-3) (sfs_local_folder_output_go_upper b c) (next_item c) c.
Proof.
  intros [Hs [tl2 Eh] Hph (lp & tl & Hp & Hl) [Hrel Hbs] _ _] Hb Hne.
  unfold sfs_local_folder_output_go_upper. rewrite Hp, Hs. cbn [deref mbind cres_bind].
  rewrite (at_off_app lp) by done. cbn [mbind cres_bind]. rewrite first_rel. cbn [mbind cres_bind]. rewrite rel_empty by done.
  destruct rel as [|x r] eqn:E; [done|]. rewrite <- E in *. clear Hne. unfold find_last_slash.
  rewrite (fls_loop_spec _ rel tl 0) by (done || (rewrite ?length_app; simpl; lia)).
  cbn [mbind cres_bind]. rewrite drop_0. change (Z.of_nat 0) with 0. unfold upper_text.
  destruct (Z.leb_spec (last_slash rel 0 (-1)) 0) as [Hk|Hk].
  - rewrite Eh, chars_app by done. cbn [mbind cres_bind].
    destruct (page_snprintf_ok b (row false ph (text "../")) Hb) as (b' & -> & Hlb & Htk). cbn [mbind cres_bind].
    apply (item_done_upper b b'); (done || apply row_pos).
  - destruct (last_slash_spec rel 0 (-1)) as [[E1 _]|(k & y & Ek & Hy & Hsl & _)]; [lia|]. rewrite Z.add_0_l in Ek. rewrite Ek in *. clear Hk.
    assert (y = 47) as ->.
    { unfold is_slash in Hsl. apply orb_true_iff in Hsl as [H%Z.eqb_eq|H%Z.eqb_eq]; [done|]. subst y.
      destruct Hbs. by apply list_elem_of_lookup_2 in Hy. }
    pose proof (lookup_lt_Some _ _ _ Hy) as Hlt. rewrite Hl, <- Nat2Z.inj_add.
    rewrite wr_nat by (rewrite !length_app; lia). cbn [mbind cres_bind]. rewrite Eh, chars_app by done. cbn [mbind cres_bind].
    assert (Ecut : <[(length lp + k)%nat := 0]> (lp ++ rel ++ 0 :: tl) = lp ++ take k rel ++ 0 :: drop (S k) rel ++ 0 :: tl).
    { rewrite <- (take_drop_middle rel k 47 Hy) at 1. rewrite <- app_assoc, insert_app_r. cbn [app].
      by rewrite insert_after by (rewrite length_take; lia). }
    rewrite Ecut.
    rewrite (at_off_app lp) by done. cbn [mbind cres_bind]. rewrite chars_app by (by apply Forall_take). cbn [mbind cres_bind].
    rewrite Nat2Z.id. set (t := row false (ph ++ take k rel ++ [47]) (text "../")).
    destruct (page_snprintf_ok b t Hb) as (b' & -> & Hlb & Htk). cbn [mbind cres_bind].
    rewrite wr_nat by (rewrite !length_app; simpl; rewrite !length_app; simpl; rewrite length_take; lia). cbn [mbind cres_bind].
    rewrite insert_app_r, insert_after by (rewrite length_take; lia).
    assert (Ec : set_path (Some (lp ++ take k rel ++ 47 :: drop (S k) rel ++ 0 :: tl)) c = c).
    { change (take k rel ++ 47 :: drop (S k) rel ++ 0 :: tl) with (take k rel ++ (47 :: drop (S k) rel) ++ 0 :: tl).
      rewrite (app_assoc (take k rel)), (take_drop_middle rel k 47 Hy). unfold set_path. rewrite <- Hp. by destruct c. }
    rewrite Ec. apply (item_done_upper b b'); (done || apply row_pos).
Qed.

(** ** Steps of the machine *)

Definition waits (c : sfs_stream_ctx_t) : Prop :=
  match dir_output_stat c with SFS_OUTPUT_DIR_CONT | SFS_OUTPUT_FILE_CONT => True | _ => False end.

Definition upper_len : nat := match rel with [] => 0 | _ => length upper_text end.

(** The items for which a full buffer is no excuse fit behind [o] bytes. *)
Definition room (o : nat) (c : sfs_stream_ctx_t) : Prop :=
  match dir_output_stat c with
  | SFS_OUTPUT_HEAD => (o + length head_text + upper_len < page_size)%nat
  | SFS_OUTPUT_GO_UPPER => (o + upper_len < page_size)%nat
  | SFS_OUTPUT_DIR_CONT | SFS_OUTPUT_FILE_CONT =>
      match pieces c with t :: _ => (o + length t < page_size)%nat | [] => True end
  | _ => True
  end.

Definition outcome (b : list Z) (c : sfs_stream_ctx_t) (r : Z) (b' : list Z) (c' : sfs_stream_ctx_t) (ps : list (list Z)) : Prop :=
  match ps with
  | [] => r = 0 ∧ b' = b ∧ c' = c
  | t :: rest =>
      (r = -1 ∧ b' = b ∧ folder_ok c' ∧ pieces c' = ps ∧ (cost c' < cost c)%nat ∧ ∀ o, room o c → room o c') ∨
      (r = Z.of_nat (length t) ∧ (0 < length t < length b)%nat ∧ take (length t) b' = t ∧
       folder_ok c' ∧ pieces c' = rest ∧ (cost c' < cost c)%nat ∧ ∀ o, room o c → room (o + length t) c') ∨
      (r = -2 ∧ (length b <= length t)%nat ∧ waits c' ∧ folder_ok c' ∧ pieces c' = ps) ∨
      (r = -3 ∧ (length b <= length t)%nat ∧ ∀ o, room o c → (page_size <= o + length t)%nat → ps = [SFS_FOLDER_PAGE_TAIL])
  end.

Definition step_ok (b : list Z) (c : sfs_stream_ctx_t) : Prop :=
  ∃ r b' c', sfs_read_local_folder_output_one_item b c = Ret (r, b', c') ∧ length b' = length b ∧ outcome b c r b' c' (pieces c).

Lemma next_item_ok c : folder_ok c → folder_ok (next_item c).
Proof. by intros [? ? ? ? ? ? ?]. Qed.

Lemma set_stat_ok st c : folder_ok c → st ≠ SFS_OUTPUT_DIR_CONT → st ≠ SFS_OUTPUT_FILE_CONT → folder_ok (set_stat st c).
Proof. intros [? ? ? ? ? ? ?] H1 H2. constructor; try done. by destruct st. Qed.

(** The state after an entry was read. *)
Definition read_entry (e : dirent) (l again : list dirent) (c : sfs_stream_ctx_t) : sfs_stream_ctx_t :=
  set_ent (Some e) (set_dir (Some (Dir l again)) c).

Lemma read_entry_ok c e l again : folder_ok c → dir c = Some (Dir (e :: l) again) → ¬ waits c →
  named e ∧ folder_ok (read_entry e l again c).
Proof.
  intros [? ? ? ? ? (l0 & a0 & Hd & Hl & Ha) He] E Hw. rewrite E in Hd. injection Hd as <- <-.
  apply Forall_cons in Hl as [Hn Hl]. split; [done|]. constructor; try done; [by exists l, again|].
  unfold waits in Hw. cbn [dir_output_stat read_entry set_ent set_dir]. by destruct (dir_output_stat c).
Qed.

Lemma head_pos : (0 < length head_text)%nat.
Proof. unfold head_text, SFS_FOLDER_PAGE_HEAD, SFS_FOLDER_PAGE_HEAD2. case_match; rewrite length_app; simpl; lia. Qed.

(** An item that was put out, or did not fit. *)
Lemma outcome_item b c t rest bad m c1 c2 :
  item_done b c t bad m c1 c2 → pieces c = t :: rest → (0 < length t)%nat → m = sfs_read_local_folder_output_one_item b c →
  folder_ok c1 → pieces c1 = rest → (cost c1 < cost c)%nat → (∀ o, room o c → room (o + length t) c1) →
  (bad = -2 ∧ waits c2 ∧ folder_ok c2 ∧ pieces c2 = t :: rest) ∨
  (bad = -3 ∧ ∀ o, room o c → (page_size <= o + length t)%nat → t :: rest = [SFS_FOLDER_PAGE_TAIL]) → step_ok b c.
Proof.
  intros (b' & Hl & Hd) Hp Hpos -> Hok Hp1 Hc Hr Hbad. unfold step_ok. rewrite Hp. case_decide as Hlt.
  - destruct Hd as [-> Ht]. eexists _, _, _. split; [reflexivity|]. split; [done|]. right. left. split_and!; (done || lia).
  - rewrite Hd. eexists _, _, _. split; [reflexivity|]. split; [done|]. right. right.
    destruct Hbad as [(-> & ?)|(-> & ?)]; [left|right]; split_and!; try tauto; lia.
Qed.

Lemma step_head b c : folder_ok c → b ≠ [] → dir_output_stat c = SFS_OUTPUT_HEAD → step_ok b c.
Proof.
  intros Hc Hb Hst. destruct (rel_at c Hc) as [tl Er]. pose proof Hc as [Hs [tl2 Eh] Hph _ [Hrel _] (l & again & Hd & _) _].
  eapply (outcome_item b c head_text (upper_pieces (item_idx c) l again) (-3) _ (set_stat SFS_OUTPUT_GO_UPPER c) c).
  - apply item_done_intro; [done|apply head_pos].
  - unfold pieces. by rewrite Hst, Hd.
  - apply head_pos.
  - unfold sfs_read_local_folder_output_one_item. rewrite Hst. unfold output_head. rewrite Hs. cbn [deref mbind cres_bind].
    rewrite Er. cbn [mbind cres_bind]. rewrite Eh, (chars_app ph) by done. cbn [mbind cres_bind]. rewrite chars_app by done. done.
  - by apply set_stat_ok.
  - unfold pieces. cbn. by rewrite Hd.
  - unfold cost. cbn. rewrite Hst, Hd. lia.
  - intros o. unfold room. rewrite Hst. cbn. lia.
  - right. split; [done|]. intros o. unfold room. rewrite Hst. lia.
Qed.

Lemma dir_pieces_cons k l again : ∃ t rest, dir_pieces k l again = t :: rest.
Proof.
  unfold dir_pieces. destruct (rows is_DIR dir_row k l) as [[|t rs] k']; [|by eexists _, _].
  unfold file_pieces. destruct (rows is_REG file_row k' again).1; by eexists _, _.
Qed.

Lemma file_pieces_cons k l : ∃ t rest, file_pieces k l = t :: rest.
Proof. unfold file_pieces. destruct (rows is_REG file_row k l).1; by eexists _, _. Qed.

(** A step without output. *)
Lemma outcome_skip b c c' t rest :
  sfs_read_local_folder_output_one_item b c = Ret (-1, b, c') → pieces c = t :: rest → folder_ok c' → pieces c' = t :: rest →
  (cost c' < cost c)%nat → (∀ o, room o c → room o c') → step_ok b c.
Proof. intros E Hp Hok Hp' Hc Hr. exists (-1), b, c'. rewrite Hp. split_and!; try done. left. by split_and!. Qed.

Lemma step_upper b c : folder_ok c → b ≠ [] → dir_output_stat c = SFS_OUTPUT_GO_UPPER → step_ok b c.
Proof.
  intros Hc Hb Hst. pose proof Hc as [Hs _ _ (lp & tl & Hp & Hl) [Hrel _] (l & again & Hd & _) _].
  assert (Hpc : pieces c = upper_pieces (item_idx c) l again) by (unfold pieces; by rewrite Hst, Hd). unfold upper_pieces in Hpc.
  destruct (decide (rel = [])) as [Er|Hne].
  - rewrite Er in Hpc. destruct (dir_pieces_cons (item_idx c) l again) as (t & rest & E).
    apply (outcome_skip b c (set_stat SFS_OUTPUT_DIR c) t rest).
    + unfold sfs_read_local_folder_output_one_item. rewrite Hst. unfold output_upper, sfs_local_folder_output_go_upper. rewrite Hp, Hs.
      cbn [deref mbind cres_bind]. rewrite (at_off_app lp) by done. cbn [mbind cres_bind]. rewrite first_rel. cbn [mbind cres_bind].
      rewrite rel_empty by done. by rewrite Er.
    + by rewrite Hpc.
    + by apply set_stat_ok.
    + unfold pieces. cbn. by rewrite Hd.
    + unfold cost. cbn. rewrite Hst, Hd. lia.
    + done.
  - pose proof (go_upper_ok b c Hc Hb Hne) as (b' & Hlb & Hd'). pose proof (row_pos false (if last_slash rel 0 (-1) <=? 0 then ph else ph ++ take (Z.to_nat (last_slash rel 0 (-1))) rel ++ [47]) (text "../")) as Hpos.
    fold upper_text in Hpos.
    assert (Hul : upper_len = length upper_text) by (unfold upper_len; by destruct rel).
    eapply (outcome_item b c upper_text (dir_pieces (i32 (item_idx c + 1)) l again) (-3) _ (set_stat SFS_OUTPUT_DIR (next_item c)) c).
    2: { rewrite Hpc. by destruct rel. }
    3: reflexivity.
    + exists b'. split; [done|]. unfold sfs_read_local_folder_output_one_item. rewrite Hst. unfold output_upper. case_decide as Hlt.
      * destruct Hd' as [-> Ht]. cbn [mbind cres_bind]. destruct (Z.eqb_spec 0 (Z.of_nat (length upper_text))); [lia|].
        destruct (Z.ltb_spec (Z.of_nat (length upper_text)) 0); [lia|]. unfold len_of. rewrite Hlb.
        destruct (Z.leb_spec (Z.of_nat (length b)) (Z.of_nat (length upper_text))); [lia|]. done.
      * by rewrite Hd'.
    + done.
    + apply set_stat_ok; [by apply next_item_ok|done..].
    + unfold pieces. cbn. by rewrite Hd.
    + unfold cost. cbn. rewrite Hst, Hd. lia.
    + done.
    + right. split; [done|]. intros o. unfold room. rewrite Hst, Hul. lia.
Qed.

Lemma step_tail b c : folder_ok c → b ≠ [] → dir_output_stat c = SFS_OUTPUT_TAIL → step_ok b c.
Proof.
  intros Hc Hb Hst. pose proof Hc as [_ _ _ _ _ (l & again & Hd & _) _].
  eapply (outcome_item b c SFS_FOLDER_PAGE_TAIL [] (-3) _ (set_stat SFS_OUTPUT_FINISHED c) c).
  - apply item_done_intro; [done|simpl; lia].
  - unfold pieces. by rewrite Hst, Hd.
  - simpl. lia.
  - unfold sfs_read_local_folder_output_one_item. by rewrite Hst.
  - by apply set_stat_ok.
  - unfold pieces. cbn. by rewrite Hd.
  - unfold cost. cbn. rewrite Hst, Hd. lia.
  - done.
  - by right.
Qed.

Lemma dir_pieces_skip k e l again : is_DIR e && negb (hidden e) = false → dir_pieces k (e :: l) again = dir_pieces k l again.
Proof. intros E. unfold dir_pieces. cbn [rows]. by rewrite E. Qed.

Lemma dir_pieces_row k e l again : is_DIR e = true → hidden e = false →
  dir_pieces k (e :: l) again = dir_row k e :: dir_pieces (i32 (k + 1)) l again.
Proof. intros E1 E2. unfold dir_pieces. cbn [rows]. rewrite E1, E2. simpl. by destruct (rows is_DIR dir_row (i32 (k + 1)) l). Qed.

Lemma file_pieces_skip k e l : is_REG e && negb (hidden e) = false → file_pieces k (e :: l) = file_pieces k l.
Proof. intros E. unfold file_pieces. cbn [rows]. by rewrite E. Qed.

Lemma file_pieces_row k e l : is_REG e = true → hidden e = false →
  file_pieces k (e :: l) = file_row k e :: file_pieces (i32 (k + 1)) l.
Proof. intros E1 E2. unfold file_pieces. cbn [rows]. rewrite E1, E2. simpl. by destruct (rows is_REG file_row (i32 (k + 1)) l). Qed.

Lemma step_dir b c : folder_ok c → b ≠ [] → dir_output_stat c = SFS_OUTPUT_DIR → step_ok b c.
Proof.
  intros Hc Hb Hst. pose proof Hc as [_ _ _ _ _ (l & again & Hd & _ & Ha) _].
  assert (Hpc : pieces c = dir_pieces (item_idx c) l again) by (unfold pieces; by rewrite Hst, Hd).
  assert (Hone : sfs_read_local_folder_output_one_item b c = output_dir b c)
    by (unfold sfs_read_local_folder_output_one_item; by rewrite Hst).
  unfold output_dir, readdir in Hone. rewrite Hd in Hone. cbn [deref mbind cres_bind d_next d_again] in Hone. destruct l as [|e l].
  - destruct (file_pieces_cons (item_idx c) again) as (t & rest & E). cbn [mbind cres_bind] in Hone. unfold rewinddir in Hone.
    cbn [set_ent dir] in Hone. rewrite Hd in Hone. cbn [deref mbind cres_bind d_again] in Hone.
    eapply (outcome_skip b c _ t rest Hone); [rewrite Hpc; exact E|..]; try done.
    + apply set_stat_ok; [|done..]. destruct Hc as [? ? ? ? ? _ He]. constructor; try done; [by exists again, again|].
      cbn. by rewrite Hst.
    + unfold cost. cbn. rewrite Hst, Hd. simpl. lia.
  - destruct (read_entry_ok c e l again Hc Hd) as [He Hok]; [intros Hw; unfold waits in Hw; by rewrite Hst in Hw|].
    fold (read_entry e l again c) in Hone. cbn [mbind cres_bind] in Hone.
    destruct (dir_pieces_cons (item_idx c) l again) as (t & rest & E).
    assert (Hskip : is_DIR e && negb (hidden e) = false →
      sfs_read_local_folder_output_one_item b c = Ret (-1, b, read_entry e l again c) → step_ok b c).
    { intros Hk Hm. apply (outcome_skip b c _ t rest Hm); try done.
      - by rewrite Hpc, dir_pieces_skip.
      - unfold pieces. cbn. by rewrite Hst.
      - unfold cost. cbn. rewrite Hst, Hd. simpl. lia.
      - intros o. unfold room. cbn. by rewrite Hst. }
    destruct (is_DIR e) eqn:Ed; [|by apply Hskip]. pose proof (output_dir_ok b _ e Hok He Hb) as Ho.
    destruct (hidden e) eqn:Eh; [apply Hskip; [done|]; by rewrite Hone, Ho|]. clear Hskip.
    destruct Ho as (b' & Hlb & Ho). cbn [item_idx read_entry set_ent set_dir] in Ho.
    pose proof (row_pos (odd_idx (item_idx c)) (href e) (name_of e ++ [47])) as Hpos. fold (dir_row (item_idx c) e) in Hpos.
    eapply (outcome_item b c (dir_row (item_idx c) e) (dir_pieces (i32 (item_idx c + 1)) l again) (-2) _
      (next_item (read_entry e l again c)) (set_stat SFS_OUTPUT_DIR_CONT (read_entry e l again c))).
    2: by rewrite Hpc, dir_pieces_row. 3: reflexivity.
    + exists b'. split; [done|]. rewrite Hone. case_decide as Hlt.
      * destruct Ho as [-> Ht]. cbn [mbind cres_bind]. by destruct (Z.eqb_spec (-2) (Z.of_nat (length (dir_row (item_idx c) e)))); [lia|].
      * by rewrite Ho.
    + done.
    + by apply next_item_ok.
    + unfold pieces. cbn. by rewrite Hst.
    + unfold cost. cbn. rewrite Hst, Hd. simpl. lia.
    + intros o. unfold room. cbn. by rewrite Hst.
    + left. split_and!; try done. destruct Hok as [? ? ? ? ? ? _]. constructor; try done. cbn. by exists e.
Qed.

Lemma step_file b c : folder_ok c → b ≠ [] → dir_output_stat c = SFS_OUTPUT_FILE → step_ok b c.
Proof.
  intros Hc Hb Hst. pose proof Hc as [_ _ _ _ _ (l & again & Hd & _ & Ha) _].
  assert (Hpc : pieces c = file_pieces (item_idx c) l) by (unfold pieces; by rewrite Hst, Hd).
  assert (Hone : sfs_read_local_folder_output_one_item b c = output_file b c)
    by (unfold sfs_read_local_folder_output_one_item; by rewrite Hst).
  unfold output_file, readdir in Hone. rewrite Hd in Hone. cbn [deref mbind cres_bind d_next d_again] in Hone. destruct l as [|e l].
  - cbn [mbind cres_bind] in Hone.
    eapply (outcome_skip b c _ SFS_FOLDER_PAGE_TAIL [] Hone); [by rewrite Hpc|..]; try done.
    + apply set_stat_ok; [|done..]. destruct Hc as [? ? ? ? ? ? He]. constructor; try done. cbn. by rewrite Hst.
    + unfold pieces. cbn. by rewrite Hd.
    + unfold cost. cbn. rewrite Hst, Hd. simpl. lia.
  - destruct (read_entry_ok c e l again Hc Hd) as [He Hok]; [intros Hw; unfold waits in Hw; by rewrite Hst in Hw|].
    fold (read_entry e l again c) in Hone. cbn [mbind cres_bind] in Hone.
    destruct (file_pieces_cons (item_idx c) l) as (t & rest & E).
    assert (Hskip : is_REG e && negb (hidden e) = false →
      sfs_read_local_folder_output_one_item b c = Ret (-1, b, read_entry e l again c) → step_ok b c).
    { intros Hk Hm. apply (outcome_skip b c _ t rest Hm); try done.
      - by rewrite Hpc, file_pieces_skip.
      - unfold pieces. cbn. by rewrite Hst.
      - unfold cost. cbn. rewrite Hst, Hd. simpl. lia.
      - intros o. unfold room. cbn. by rewrite Hst. }
    destruct (is_REG e) eqn:Ed; [|by apply Hskip]. pose proof (output_file_ok b _ e Hok He Hb) as Ho.
    destruct (hidden e) eqn:Eh; [apply Hskip; [done|]; by rewrite Hone, Ho|]. clear Hskip.
    destruct Ho as (b' & Hlb & Ho). cbn [item_idx read_entry set_ent set_dir] in Ho.
    pose proof (row_pos (odd_idx (item_idx c)) (href e) (name_of e)) as Hpos. fold (file_row (item_idx c) e) in Hpos.
    eapply (outcome_item b c (file_row (item_idx c) e) (file_pieces (i32 (item_idx c + 1)) l) (-2) _
      (next_item (read_entry e l again c)) (set_stat SFS_OUTPUT_FILE_CONT (read_entry e l again c))).
    2: by rewrite Hpc, file_pieces_row. 3: reflexivity.
    + exists b'. split; [done|]. rewrite Hone. case_decide as Hlt.
      * destruct Ho as [-> Ht]. cbn [mbind cres_bind]. by destruct (Z.eqb_spec (-2) (Z.of_nat (length (file_row (item_idx c) e)))); [lia|].
      * by rewrite Ho.
    + done.
    + by apply next_item_ok.
    + unfold pieces. cbn. by rewrite Hst.
    + unfold cost. cbn. rewrite Hst, Hd. simpl. lia.
    + intros o. unfold room. cbn. by rewrite Hst.
    + left. split_and!; try done. destruct Hok as [? ? ? ? ? ? _]. constructor; try done. cbn. by exists e.
Qed.

Lemma step_dir_cont b c : folder_ok c → b ≠ [] → dir_output_stat c = SFS_OUTPUT_DIR_CONT → step_ok b c.
Proof.
  intros Hc Hb Hst. pose proof (fo_ent c Hc) as He. rewrite Hst in He. destruct He as (e & Ee & Hn & Hk & Hh).
  pose proof (fo_dir c Hc) as (l & again & Hd & _). set (c0 := set_stat SFS_OUTPUT_DIR c).
  assert (Hok : folder_ok c0) by (by apply set_stat_ok).
  assert (Hpc : pieces c = dir_row (item_idx c) e :: dir_pieces (i32 (item_idx c + 1)) l again) by (unfold pieces; by rewrite Hst, Hd, Ee).
  pose proof (output_dir_ok b c0 e Hok Hn Hb) as Ho. rewrite Hh in Ho. destruct Ho as (b' & Hlb & Ho). cbn [item_idx c0 set_stat] in Ho.
  pose proof (row_pos (odd_idx (item_idx c)) (href e) (name_of e ++ [47])) as Hpos. fold (dir_row (item_idx c) e) in Hpos.
  eapply (outcome_item b c _ _ (-3) _ (next_item c0) c0); [|exact Hpc|done|reflexivity|..].
  - exists b'. split; [done|]. unfold sfs_read_local_folder_output_one_item. rewrite Hst. unfold output_dir_cont. fold c0.
    cbn [ent c0 set_stat]. rewrite Ee. cbn [deref mbind cres_bind]. rewrite Hk. case_decide.
    + destruct Ho as [-> Ht]. cbn [mbind cres_bind]. by destruct (Z.leb_spec (Z.of_nat (length (dir_row (item_idx c) e))) 0); [lia|].
    + by rewrite Ho.
  - by apply next_item_ok.
  - unfold pieces. cbn. by rewrite Hd.
  - unfold cost. cbn. rewrite Hst, Hd. lia.
  - done.
  - right. split; [done|]. intros o. unfold room. rewrite Hst, Hpc. lia.
Qed.

Lemma step_file_cont b c : folder_ok c → b ≠ [] → dir_output_stat c = SFS_OUTPUT_FILE_CONT → step_ok b c.
Proof.
  intros Hc Hb Hst. pose proof (fo_ent c Hc) as He. rewrite Hst in He. destruct He as (e & Ee & Hn & Hk & Hh).
  pose proof (fo_dir c Hc) as (l & again & Hd & _). set (c0 := set_stat SFS_OUTPUT_FILE c).
  assert (Hok : folder_ok c0) by (by apply set_stat_ok).
  assert (Hpc : pieces c = file_row (item_idx c) e :: file_pieces (i32 (item_idx c + 1)) l) by (unfold pieces; by rewrite Hst, Hd, Ee).
  pose proof (output_file_ok b c0 e Hok Hn Hb) as Ho. rewrite Hh in Ho. destruct Ho as (b' & Hlb & Ho). cbn [item_idx c0 set_stat] in Ho.
  pose proof (row_pos (odd_idx (item_idx c)) (href e) (name_of e)) as Hpos. fold (file_row (item_idx c) e) in Hpos.
  eapply (outcome_item b c _ _ (-3) _ (next_item c0) c0); [|exact Hpc|done|reflexivity|..].
  - exists b'. split; [done|]. unfold sfs_read_local_folder_output_one_item. rewrite Hst. unfold output_file_cont. fold c0.
    cbn [ent c0 set_stat]. rewrite Ee. cbn [deref mbind cres_bind]. rewrite Hk. case_decide.
    + destruct Ho as [-> Ht]. cbn [mbind cres_bind]. by destruct (Z.leb_spec (Z.of_nat (length (file_row (item_idx c) e))) 0); [lia|].
    + by rewrite Ho.
  - by apply next_item_ok.
  - unfold pieces. cbn. by rewrite Hd.
  - unfold cost. cbn. rewrite Hst, Hd. lia.
  - done.
  - right. split; [done|]. intros o. unfold room. rewrite Hst, Hpc. lia.
Qed.

Lemma one_item_ok b c : folder_ok c → b ≠ [] → step_ok b c.
Proof.
  intros Hc Hb. destruct (dir_output_stat c) eqn:Hst;
    [by apply step_head|by apply step_upper|by apply step_dir|by apply step_dir_cont|by apply step_file|by apply step_file_cont|by apply step_tail|].
  exists 0, b, c. unfold sfs_read_local_folder_output_one_item. rewrite Hst. split_and!; try done.
  pose proof (fo_dir c Hc) as (l & again & Hd & _). unfold pieces. by rewrite Hst, Hd.
Qed.

(** ** One call *)

(** What a call does with [o] bytes in the buffer: it puts items there as long as they fit.
    Then all are out; or the next is an item for the next call; or the end of the page did
    not fit, and everything in the buffer is lost. *)
Definition filled (o : nat) (done : list Z) (ps : list (list Z)) (a : reply) (c' : sfs_stream_ctx_t) : Prop :=
  ∃ taken rest, ps = taken ++ rest ∧
    match rest with
    | [] => eof a = true ∧ (o + length (concat taken) < page_size)%nat ∧ len_out a = Z.of_nat (o + length (concat taken)) ∧
            take (o + length (concat taken)) (out_buf a) = done ++ concat taken
    | t :: _ => (page_size <= o + length (concat taken) + length t)%nat ∧
        ((eof a = false ∧ (o + length (concat taken) < page_size)%nat ∧ len_out a = Z.of_nat (o + length (concat taken)) ∧
          take (o + length (concat taken)) (out_buf a) = done ++ concat taken ∧
          folder_ok c' ∧ waits c' ∧ pieces c' = rest) ∨
         (eof a = true ∧ len_out a = 0 ∧ rest = [SFS_FOLDER_PAGE_TAIL]))
    end.

Lemma filled_cons o done t ps a c' :
  filled (o + length t) (done ++ t) ps a c' → filled o done (t :: ps) a c'.
Proof.
  intros (taken & rest & -> & H). exists (t :: taken), rest. split; [done|]. cbn [concat]. rewrite length_app.
  rewrite <- !Nat.add_assoc in H. destruct rest; [by rewrite <- app_assoc in H|].
  destruct H as [H1 H2]. split; [lia|]. by rewrite <- app_assoc in H2.
Qed.

Lemma folder_loop_ok fuel b o c :
  length b = page_size → (o < page_size)%nat → (cost c < fuel)%nat → folder_ok c → room o c →
  ∃ a c', folder_loop fuel b (Z.of_nat o) c = Ret (a, c') ∧ filled o (take o b) (pieces c) a c'.
Proof.
  revert b o c. induction fuel as [|fuel IH]; intros b o c Hb Ho Hf Hc Hr; [lia|].
  assert (Hdl : length (drop o b) = (page_size - o)%nat) by (rewrite length_drop; lia).
  destruct (one_item_ok (drop o b) c Hc) as (r & q & c' & E & Hq & Hout);
    [intros E; rewrite E in Hdl; change (length (@nil Z)) with 0%nat in Hdl; lia|].
  cbn [folder_loop]. unfold at_off. rewrite decide_True by lia. cbn [mbind cres_bind]. rewrite Nat2Z.id, E. cbn [mbind cres_bind].
  assert (Hbl : length (take o b ++ q) = page_size) by (rewrite length_app, length_take; lia).
  assert (Htk : take o (take o b ++ q) = take o b) by (rewrite take_app_le by (rewrite length_take; lia); by rewrite take_take, Nat.min_id).
  destruct (pieces c) as [|t rest].
  - destruct Hout as (-> & -> & ->). simpl. eexists _, _. split; [reflexivity|]. exists [], []. simpl.
    rewrite Nat.add_0_r, app_nil_r. by split_and!.
  - destruct Hout as [(-> & _ & Hok & Hp & Hcost & Hroom)|[(-> & Ht & Etk & Hok & Hp & Hcost & Hroom)|[(-> & Ht & Hw & Hok & Hp)|(-> & Ht & Htail)]]].
    + simpl. destruct (IH (take o b ++ q) o c') as (a & c2 & -> & Hfill); try lia; try done; [by apply Hroom|].
      eexists _, _. split; [reflexivity|]. by rewrite Htk, Hp in Hfill.
    + destruct (Z.ltb_spec 0 (Z.of_nat (length t))); [|lia]. rewrite <- Nat2Z.inj_add.
      destruct (IH (take o b ++ q) (o + length t)%nat c') as (a & c2 & -> & Hfill); try lia; try done; [by apply Hroom|].
      eexists _, _. split; [reflexivity|]. apply filled_cons. rewrite <- Hp.
      rewrite take_app_ge, length_take in Hfill by (rewrite length_take; lia).
      replace (o + length t - o `min` length b)%nat with (length t) in Hfill by lia. by rewrite Etk in Hfill.
    + simpl. eexists _, _. split; [reflexivity|]. exists [], (t :: rest). split; [done|]. simpl.
      rewrite Nat.add_0_r, app_nil_r. split; [lia|]. left. split_and!; try done.
    + simpl. eexists _, _. split; [reflexivity|]. exists [], (t :: rest). split; [done|]. simpl.
      rewrite Nat.add_0_r. split; [lia|]. right. split_and!; try done. eapply Htail; [exact Hr|lia].
Qed.

Lemma cost_fuel c : (cost c < folder_fuel c)%nat.
Proof. unfold cost, folder_fuel. destruct (dir c) as [[l again]|]; [|lia]. simpl. destruct (dir_output_stat c); lia. Qed.

Lemma folder_cb_ok b c : (page_size <= length b)%nat → folder_ok c → room 0 c →
  ∃ a c', sfs_read_local_folder_cb b c = Ret (a, c') ∧ filled 0 [] (pieces c) a c'.
Proof.
  intros Hb Hc Hr. pose proof page_size_Z as Hsz. pose proof page_size_pos as Hszp. unfold sfs_read_local_folder_cb.
  destruct (Z.ltb_spec (Z.of_nat (length b)) SFS_PREFEREC_BUFFER_SIZE); [lia|]. change (Z.to_nat SFS_PREFEREC_BUFFER_SIZE) with page_size.
  destruct (folder_loop_ok (folder_fuel c) (take page_size b) 0 c) as (a & c' & E & taken & rest & Hp & H');
    [rewrite length_take; lia|exact Hszp|apply cost_fuel|exact Hc|exact Hr|]. change (Z.of_nat 0) with 0 in E. rewrite E. cbn [mbind cres_bind].
  eexists _, _. split; [reflexivity|]. exists taken, rest. split; [done|]. cbn [eof len_out out_buf]. rewrite take_0 in H'. cbn [Nat.add] in *.
  assert (Hcut : ∀ n, take n (out_buf a) = [] ++ concat taken → n = length (concat taken) →
    take n (out_buf a ++ drop page_size b) = [] ++ concat taken).
  { intros n Hn Hl. rewrite take_app_le; [done|]. apply (f_equal length) in Hn. rewrite length_take in Hn. simpl in Hn. lia. }
  destruct rest as [|t rest].
  - destruct H' as (H1 & H2 & H3 & H4). exact (conj H1 (conj H2 (conj H3 (Hcut _ H4 eq_refl)))).
  - destruct H' as (H1 & [(H2 & H3 & H4 & H5 & H6)|H2]); (split; [exact H1|]); [left|right; exact H2].
    exact (conj H2 (conj H3 (conj H4 (conj (Hcut _ H5 eq_refl) H6)))).
Qed.

(** ** All calls *)

(** The chunks are the page, or the last buffer, with which the end of the page did not
    fit, is missing. *)
Definition delivered (chunks page : list (list Z)) : Prop :=
  Forall (fun x => (length x < page_size)%nat) chunks ∧
  (concat chunks = concat page ∨
   ∃ cs lost, chunks = cs ++ [[]] ∧ concat page = concat cs ++ lost ++ SFS_FOLDER_PAGE_TAIL ∧
     (page_size <= length lost + length SFS_FOLDER_PAGE_TAIL)%nat).

Lemma delivered_cons x taken rest chunks :
  x = concat taken → (length x < page_size)%nat → delivered chunks rest → delivered (x :: chunks) (taken ++ rest).
Proof.
  intros -> Hl [Hs H]. split; [by constructor|]. rewrite concat_app. destruct H as [E|(cs & lost & -> & E & Hlost)].
  - left. simpl. by rewrite E.
  - right. exists (concat taken :: cs), lost. split_and!; [done| |done]. simpl. by rewrite E, <- app_assoc.
Qed.

Lemma serve_page_ok bufs c : folder_ok c → room 0 c → Forall (fun t => (length t < page_size)%nat) (pieces c) → pieces c ≠ [] →
  Forall (fun b => (page_size <= length b)%nat) bufs → (length (pieces c) <= length bufs)%nat →
  ∃ chunks, serve bufs c = Ret (true, chunks) ∧ delivered chunks (pieces c).
Proof.
  revert c. induction bufs as [|b bufs IH]; intros c Hc Hr Hs Hne Hbs Hn; [by destruct (pieces c); simpl in Hn; try lia|].
  apply Forall_cons in Hbs as [Hb Hbs]. destruct (folder_cb_ok b c Hb Hc Hr) as (a & c' & E & taken & rest & Hp & H).
  cbn [serve]. rewrite E. cbn [mbind cres_bind]. rewrite Hp in *. cbn [Nat.add] in H. apply Forall_app in Hs as [Hs1 Hs2].
  destruct rest as [|t rest].
  - destruct H as (-> & Hl & -> & Ht). rewrite Nat2Z.id, Ht. eexists. split; [reflexivity|]. rewrite app_nil_r.
    split; [by repeat constructor|]. left. simpl. by rewrite app_nil_r.
  - apply Forall_cons in Hs2 as [Hst Hs2]. destruct H as (Hfull & [(-> & Hl & -> & Ht & Hok & Hw & Hp')|(-> & -> & [= -> ->])]).
    + rewrite Nat2Z.id, Ht. destruct (IH c' Hok) as (chunks & -> & Hdel); rewrite ?Hp'; try done.
      * unfold room, waits in *. destruct (dir_output_stat c'); try done; rewrite Hp'; simpl; lia.
      * by constructor.
      * destruct taken as [|t1 taken]; [simpl in Hfull; lia|]. rewrite length_app in Hn. simpl in *. lia.
      * cbn [mbind cres_bind]. eexists. split; [reflexivity|]. rewrite Hp' in Hdel. by apply delivered_cons.
    + eexists. split; [reflexivity|]. split; [repeat constructor; simpl; apply page_size_pos|]. right.
      exists [], (concat taken). split_and!; [done| |done]. by rewrite concat_app.
Qed.

(** The whole page of a folder, in its items: [l] is what reading the directory delivers,
    [again] what it delivers the second time. *)
Definition page (l again : list dirent) : list (list Z) :=
  head_text ::
  (match rel with [] => [] | _ => [upper_text] end) ++
  let k := match rel with [] => 0 | _ => 1 end in
  let '(ds, k) := rows is_DIR dir_row k l in
  ds ++ (rows is_REG file_row k again).1 ++ [SFS_FOLDER_PAGE_TAIL].

Lemma page_pieces c l again : dir c = Some (Dir l again) → dir_output_stat c = SFS_OUTPUT_HEAD → item_idx c = 0 →
  pieces c = page l again.
Proof.
  intros Hd Hst Hi. unfold pieces, page, upper_pieces, dir_pieces, file_pieces. rewrite Hd, Hst, Hi. f_equal.
  destruct rel; simpl; [|f_equal]; by destruct (rows _ _ _ l).
Qed.
End Page.

(** C19: The page of a folder whose path has no backslash arrives: the HTTP library, when it calls with buffers of 8192 bytes or
    more until it is told the end, is told it after at most one call for each item, and no
    call delivers 8192 bytes or more.  If the head of the page with the link to the folder
    above and each row are shorter than 8192 bytes, the chunks put together are the head, the
    link to the folder above (not in the root of the service), a row for each folder and one
    for each file that is not hidden, in the order of the directory and with alternating
    classes, and the end of the page; unless the end does not fit behind the last rows: then
    the rows of the last buffer are lost.  (A smaller buffer ends the page at once.) *)
Theorem sfs_read_local_folder_correct s ph rel c l again bufs :
  folder_ok s ph rel c → dir_output_stat c = SFS_OUTPUT_HEAD → item_idx c = 0 → dir c = Some (Dir l again) →
  Forall (fun t => (length t < page_size)%nat) (page s ph rel l again) →
  (length (head_text s ph rel) + upper_len ph rel < page_size)%nat →
  Forall (fun b => (page_size <= length b)%nat) bufs → (length (page s ph rel l again) <= length bufs)%nat →
  ∃ chunks, serve bufs c = Ret (true, chunks) ∧ delivered chunks (page s ph rel l again).
Proof.
  intros Hc Hst Hi Hd Hs Hh Hbs Hn. rewrite <- (page_pieces s ph rel c l again) in * by done.
  apply (serve_page_ok s ph rel bufs c); try done; [|unfold pieces; by rewrite Hd, Hst].
  unfold room. by rewrite Hst.
Qed.

(** A folder [/srv/d] of a service [/f/], seen below [/srv/]. *)
Module FolderDemo.
Definition service : sfs_service_ctx_t := Service SFS_FLAGS_ALLOW_BROWSE 3 5 (text "/f/" ++ [0]) (text "/srv/" ++ [0]).
Definition rel : list Z := text "d".
Definition entry (t : d_type_t) (n : list Z) : dirent := Dirent t (n ++ [0]).
Definition demo_ctx (l : list dirent) : sfs_stream_ctx_t :=
  Stream (-1) (Some (Dir l l)) SFS_OUTPUT_HEAD (Some (text "/srv/d" ++ [0])) None (Some service) 0 (-1) STATE_INIT
    (Ctx POST_ET_VOID (replicate 256 0) 0) 0.
Definition small : list dirent := [entry DT_DIR (text "."); entry DT_REG (text "a.txt"); entry DT_DIR (text "sub")].
Definition bufs (n : nat) : list (list Z) := replicate n (replicate page_size 0).
(** 138 files whose rows fill the first buffer but for a few bytes. *)
Definition many : list dirent := replicate 137 (entry DT_REG (text "ab")) ++ [entry DT_REG (replicate 85 99)].


Lemma cstring_test n : forallb (fun c => (0 <? c) && (c <? 256)) n = true → cstring n.
Proof.
  intros H. apply Forall_forall. intros x Hx. rewrite forallb_forall in H. apply list_elem_of_In in Hx. apply H in Hx. lia.
Qed.

Lemma entry_named t n : forallb (fun c => (0 <? c) && (c <? 256)) n = true → named (entry t n).
Proof. intros Hn%cstring_test. exists []. unfold name_of, entry. cbn [d_name]. by rewrite cstr_app. Qed.

Lemma demo_ok l : Forall named l → folder_ok service (text "/f/") rel (demo_ctx l).
Proof.
  intros Hl. constructor; try done.
  - by exists [].
  - by apply cstring_test.
  - exists (text "/srv/"), []. by split.
  - split; [by apply cstring_test|]. apply (bool_decide_unpack _). vm_compute. exact I.
  - by exists l, l.
Qed.
End FolderDemo.

Lemma sfs_read_local_folder_correct_witness :
  ∃ chunks, serve (FolderDemo.bufs 5) (FolderDemo.demo_ctx FolderDemo.small) = Ret (true, chunks) ∧
    delivered chunks (page FolderDemo.service (text "/f/") FolderDemo.rel FolderDemo.small FolderDemo.small).
Proof.
  apply (sfs_read_local_folder_correct FolderDemo.service (text "/f/") FolderDemo.rel).
  - apply FolderDemo.demo_ok. repeat constructor; apply FolderDemo.entry_named; reflexivity.
  - reflexivity.
  - reflexivity.
  - reflexivity.
  - apply (bool_decide_unpack _). vm_compute. exact I.
  - apply (bool_decide_unpack _). vm_compute. exact I.
  - apply (bool_decide_unpack _). vm_compute. exact I.
  - apply (bool_decide_unpack _). vm_compute. exact I.
Defined.

(** A folder of 138 files whose rows leave less room than the end of the page needs: the
    page arrives empty. *)
Theorem sfs_folder_page_lost :
  serve (FolderDemo.bufs 2) (FolderDemo.demo_ctx FolderDemo.many) = Ret (true, [[]]).
Proof. vm_compute. reflexivity. Qed.

Example sfs_folder_page_small :
  serve (FolderDemo.bufs 2) (FolderDemo.demo_ctx FolderDemo.small)
  = Ret (true, [concat (page FolderDemo.service (text "/f/") FolderDemo.rel FolderDemo.small FolderDemo.small)]).
Proof. vm_compute. reflexivity. Qed.
