(* ===== verification/H2Stream.v ===== *)
(** * Streams and services of HTTP/2

    A server instance has up to sixteen services, each bound to a path prefix
    ([h2esq_instance_bind_service] of [nghttp2_wrapper/instance.c]).  The HTTP library calls
    back for each request of a connection ([nghttp2_wrapper/stream.c]): a stream is created,
    its headers are recorded, data that is posted and at the end the request itself go to the
    service of its path, and the stream is closed.  The streams of a connection are linked in
    a list, so that they can be closed with it ([nghttp2_wrapper/session.c]).

    A service is what its class promises ([service_class]): functions on the stream and on
    the world [World] outside, with what the stream keeps for it ([App]).  A pointer to a
    service is its index; [user_data] is what the HTTP library keeps for the number of a
    stream. *)
From stdpp Require Import strings.
From S2P Require Import Prelude CString LinkedList HeadMatch Cookie SfsFolder.

Definition NGHTTP2_ERR_CALLBACK_FAILURE : Z := -902.
Definition ESQ_ERROR_LIBCALL : Z := -3.
Definition H2ESQ_SERVER_INSTANCE_NAME_MAX : nat := 64.
Definition H2ESQ_INSTANCE_SERVICE_MAX : nat := 16.

Definition H2ESQ_HEADER_METHOD : Z := 0.
Definition H2ESQ_HEADER_PATH : Z := 1.
Definition H2ESQ_HEADER_AUTHORITY : Z := 2.
Definition H2ESQ_HEADER_USER_AGENT : Z := 3.
Definition H2ESQ_HEADER_ACCEPT : Z := 4.
Definition H2ESQ_HEADER_ACCEPT_ENCODING : Z := 6.
Definition H2ESQ_HEADER_ACCEPT_LANGUAGE : Z := 7.
Definition H2ESQ_HEADER_CACHE_CONTROL : Z := 8.
Definition H2ESQ_HEADER_HOST : Z := 9.
Definition H2ESQ_HEADER_MAX : nat := 10.

(** ** Streams *)

Record h2esq_stream_t {App : Type} := H2Stream {
  id : Z;
  s_next : ptr;
  s_prev : ptr;
  app_stream_ctx : option App;
  header_strs : list (option (list Z));
  header_lens : list Z;
  cookies_root : cookies;
  h2esq_service : option nat;
  path_matched_length : Z
}.
Arguments h2esq_stream_t : clear implicits.

Section Stream.
  Context {App : Type}.
  Implicit Type st : h2esq_stream_t App.

Definition set_links (n p : ptr) st : h2esq_stream_t App :=
  H2Stream _ (id st) n p (app_stream_ctx st) (header_strs st) (header_lens st) (cookies_root st) (h2esq_service st) (path_matched_length st).
Definition set_app (a : option App) st : h2esq_stream_t App :=
  H2Stream _ (id st) (s_next st) (s_prev st) a (header_strs st) (header_lens st) (cookies_root st) (h2esq_service st) (path_matched_length st).
Definition set_header_strs (h : list (option (list Z))) st : h2esq_stream_t App :=
  H2Stream _ (id st) (s_next st) (s_prev st) (app_stream_ctx st) h (header_lens st) (cookies_root st) (h2esq_service st) (path_matched_length st).
Definition set_headers (h : list (option (list Z))) (l : list Z) st : h2esq_stream_t App :=
  H2Stream _ (id st) (s_next st) (s_prev st) (app_stream_ctx st) h l (cookies_root st) (h2esq_service st) (path_matched_length st).
Definition set_cookies (C : cookies) st : h2esq_stream_t App :=
  H2Stream _ (id st) (s_next st) (s_prev st) (app_stream_ctx st) (header_strs st) (header_lens st) C (h2esq_service st) (path_matched_length st).
Definition set_service (s : option nat) (m : Z) st : h2esq_stream_t App :=
  H2Stream _ (id st) (s_next st) (s_prev st) (app_stream_ctx st) (header_strs st) (header_lens st) (cookies_root st) s m.

#[export] Instance stream_node : LLNode (h2esq_stream_t App) := {
  ll_prev := s_prev;
  ll_next := s_next;
  set_prev p st := set_links (s_next st) p st;
  set_next p st := set_links p (s_prev st) st
}.
#[export] Instance stream_node_laws : LLNodeLaws (h2esq_stream_t App).
Proof. by split. Qed.

Definition h2esq_stream_set_app_ctx st (a : App) : Z * h2esq_stream_t App :=
  match app_stream_ctx st with Some _ => (-1, st) | None => (0, set_app (Some a) st) end.
Definition h2esq_stream_get_app_ctx st : option App := app_stream_ctx st.
Definition h2esq_stream_clear_app_ctx st : h2esq_stream_t App := set_app None st.

(** The header and its length; a null pointer comes with the length 0. *)
Definition h2esq_stream_get_header st (i : Z) : cres (option (list Z) * Z) :=
  h ← rd (header_strs st) i;
  match h with
  | Some b => l ← rd (header_lens st) i; Ret (Some b, l)
  | None => Ret (None, 0)
  end.

(** ** Headers *)

(** The library gives a value that is followed by a zero. *)
Definition h2esq_stream_dup_header (mem_ok : bool) st (i : Z) (value : list Z) (len : Z) : cres (Z * h2esq_stream_t App) :=
  h ← rd (header_strs st) i;
  match h with
  | Some _ => Ret (0, st)
  | None =>
      if negb mem_ok then Ret (-1, st) else
      b ← c_memcpy (replicate (Z.to_nat (len + 1)) 0) 0 value (len + 1);
      b ← wr b len 0;
      hs ← wr (header_strs st) i (Some b);
      ls ← wr (header_lens st) i len;
      Ret (0, set_headers hs ls st)
  end.

(** [!strncmp("...", name, sizeof("..."))]. *)
Definition name_is (s : string) (name : list Z) : bool :=
  strncmp (text s) name (S (length (text s))) =? 0.
Definition lower (c : Z) : Z := if (65 <=? c) && (c <=? 90) then c + 32 else c.

Definition h2esq_stream_record_header (mem_ok : bool) st (name value : list Z) (valuelen : Z) : cres (Z * h2esq_stream_t App) :=
  n0 ← rd name 0;
  let dup i := h2esq_stream_dup_header mem_ok st i value valuelen in
  if 58 =? n0 then
    if name_is ":authority" name then dup H2ESQ_HEADER_AUTHORITY
    else if name_is ":method" name then dup H2ESQ_HEADER_METHOD
    else if name_is ":path" name then dup H2ESQ_HEADER_PATH
    else Ret (0, st)
  else if 97 =? n0 then
    if name_is "accept" name then dup H2ESQ_HEADER_ACCEPT
    else if name_is "accept-encoding" name then dup H2ESQ_HEADER_ACCEPT_ENCODING
    else if name_is "accept-language" name then dup H2ESQ_HEADER_ACCEPT_LANGUAGE
    else Ret (0, st)
  else if 99 =? n0 then
    if name_is "cache-control" name then dup H2ESQ_HEADER_CACHE_CONTROL
    else if name_is "cookie" name then
      '(r, C) ← h2esq_save_cookie mem_ok (cookies_root st) value valuelen; Ret (r, set_cookies C st)
    else Ret (0, st)
  else if 117 =? n0 then
    if name_is "user-agent" name then dup H2ESQ_HEADER_USER_AGENT else Ret (0, st)
  else if (104 =? n0) || (72 =? n0) then
    if name_is "host" (lower <$> name) then dup H2ESQ_HEADER_HOST else Ret (0, st)
  else Ret (0, st).

Definition h2esq_create_stream (mem_ok : bool) (i : Z) : option (h2esq_stream_t App) :=
  if mem_ok then
    Some (H2Stream _ i None None None (replicate H2ESQ_HEADER_MAX None) (replicate H2ESQ_HEADER_MAX 0) no_cookies None 0)
  else None.
End Stream.

(** ** Services *)

(** What a service is: the ways it is called with its context ([h2esq_stream_get_service_app_ctx]),
    the stream and the world. *)
Record service_class {App Svc World : Type} := ServiceClass {
  handler : Svc → h2esq_stream_t App → World → cres (Z * h2esq_stream_t App * World);
  on_stream_close : h2esq_stream_t App → World → cres (h2esq_stream_t App * World);
  on_parse_post_data : Svc → h2esq_stream_t App → list Z → Z → World → cres (Z * h2esq_stream_t App * World)
}.
Arguments service_class : clear implicits.

Record h2esq_instance_t {App Svc World : Type} := Instance_ {
  i_name : list Z;
  path_hmt : option hmt_t;
  service : list (option (service_class App Svc World * Svc))
}.
Arguments h2esq_instance_t : clear implicits.

Section Service.
  Context {App Svc World : Type}.
  Local Notation instance := (h2esq_instance_t App Svc World).

(** [strncmp] of the names, which end with a zero. *)
Fixpoint h2esq_find_instance (l : list instance) (name : list Z) : option nat :=
  match l with
  | [] => None
  | i :: l => if negb (strncmp name (i_name i) H2ESQ_SERVER_INSTANCE_NAME_MAX =? 0) then S <$> h2esq_find_instance l name else Some O
  end.

(** The first slot without a class. *)
Fixpoint free_slot (l : list (option (service_class App Svc World * Svc))) : option nat :=
  match l with
  | [] => None
  | Some _ :: l => S <$> free_slot l
  | None :: _ => Some O
  end.

(** [add_ok] and [compile_ok] say whether there is memory in [hmt_add2] and [hmt_compile]. *)
Definition bind_service (add_ok : bool) (compile_ok : nat → bool) (inst : instance) (p : list Z)
    (c : service_class App Svc World) (ctx : Svc) : cres (Z * instance) :=
  match free_slot (service inst) with
  | None => Ret (ESQ_ERROR_LIBCALL, inst)
  | Some i =>
      pt ← deref (path_hmt inst);
      let '(r, pt) := hmt_add2 add_ok pt p (Z.of_nat i) in
      let inst := Instance_ _ _ _ (i_name inst) (Some pt) (service inst) in
      if negb (r =? 0) then Ret (ESQ_ERROR_LIBCALL, inst) else
      '(r, pt) ← hmt_compile compile_ok pt;
      let inst := Instance_ _ _ _ (i_name inst) (Some pt) (service inst) in
      if negb (r =? 0) then Ret (ESQ_ERROR_LIBCALL, inst) else
      s ← wr (service inst) (Z.of_nat i) (Some (c, ctx));
      Ret (0, Instance_ _ _ _ (i_name inst) (Some pt) s)
  end.

Definition h2esq_instance_bind_service (add_ok : bool) (compile_ok : nat → bool) (l : list instance) (name p : list Z)
    (c : service_class App Svc World) (ctx : Svc) : cres (Z * list instance) :=
  match h2esq_find_instance l name with
  | None => Ret (ESQ_ERROR_LIBCALL, l)
  | Some k =>
      inst ← rd l (Z.of_nat k);
      '(r, inst) ← bind_service add_ok compile_ok inst p c ctx;
      l ← wr l (Z.of_nat k) inst;
      Ret (r, l)
  end.

(** The service, and the length of its path. *)
Definition h2esq_instance_find_service (inst : instance) (p : list Z) : cres (option (nat * Z)) :=
  pt ← deref (path_hmt inst);
  s ← c_chars p;
  r ← hmt_match pt s;
  Ret match r with Some (u, m) => Some (Z.to_nat u, m) | None => None end.

(** [service->service_class->...]: the slot must hold a class. *)
Definition class_of (inst : instance) (k : nat) : cres (service_class App Svc World * Svc) :=
  s ← rd (service inst) (Z.of_nat k); deref s.

(** The service of the stream, looked for at the first need. *)
Definition stream_service (inst : instance) (st : h2esq_stream_t App) (p : list Z) : cres (option nat * h2esq_stream_t App) :=
  match h2esq_service st with
  | Some k => Ret (Some k, st)
  | None =>
      r ← h2esq_instance_find_service inst p;
      Ret match r with
          | Some (k, m) => (Some k, set_service (Some k) m st)
          | None => (None, st)
          end
  end.

(** ** Requests *)

Definition h2esq_stream_on_request_recv (inst : instance) (st : h2esq_stream_t App) (w : World)
    : cres (Z * h2esq_stream_t App * World) :=
  p ← rd (header_strs st) H2ESQ_HEADER_PATH;
  match p with
  | None => Ret (NGHTTP2_ERR_CALLBACK_FAILURE, st, w)
  | Some p =>
      '(k, st) ← stream_service inst st p;
      match k with
      | Some k =>
          '(c, ctx) ← class_of inst k;
          '(r, st, w) ← handler c ctx st w;
          Ret (if negb (r =? 0) then NGHTTP2_ERR_CALLBACK_FAILURE else 0, st, w)
      | None => Ret (0, st, w)
      end
  end.

Definition on_data_chunk (inst : instance) (st : h2esq_stream_t App) (data : list Z) (len : Z) (w : World)
    : cres (Z * h2esq_stream_t App * World) :=
  '(method, _) ← h2esq_stream_get_header st H2ESQ_HEADER_METHOD;
  m ← deref method;
  r ← c_memcmp m (text "POST" ++ [0]) 5;
  if negb (r =? 0) then Ret (NGHTTP2_ERR_CALLBACK_FAILURE, st, w) else
  p ← rd (header_strs st) H2ESQ_HEADER_PATH;
  match p with
  | None => Ret (NGHTTP2_ERR_CALLBACK_FAILURE, st, w)
  | Some p =>
      '(k, st) ← stream_service inst st p;
      match k with
      | Some k =>
          '(c, ctx) ← class_of inst k;
          '(r, st, w) ← on_parse_post_data c ctx st data len w;
          Ret (if negb (r =? 0) then NGHTTP2_ERR_CALLBACK_FAILURE else 0, st, w)
      | None => Ret (0, st, w)
      end
  end.
End Service.

(** ** The streams of a connection *)

Record h2esq_session_t {App : Type} := Session {
  user_data : gmap Z loc;
  streams : gmap loc (h2esq_stream_t App);
  stream_list : dlist
}.
Arguments h2esq_session_t : clear implicits.

Inductive frame_type := NGHTTP2_DATA | NGHTTP2_HEADERS | NGHTTP2_PUSH_PROMISE | NGHTTP2_OTHER.
Inductive headers_cat := NGHTTP2_HCAT_REQUEST | NGHTTP2_HCAT_OTHER.

Section Connection.
  Context {App Svc World : Type}.
  Local Notation instance := (h2esq_instance_t App Svc World).
  Local Notation session := (h2esq_session_t App).
  Implicit Type S : session.

(** The stream a number stands for. *)
Definition the_stream S (i : Z) : cres (option (loc * h2esq_stream_t App)) :=
  match user_data S !! i with
  | Some x => st ← deref (streams S !! x); Ret (Some (x, st))
  | None => Ret None
  end.
Definition put_stream S (x : loc) (st : h2esq_stream_t App) : session :=
  Session _ (user_data S) (<[x := st]> (streams S)) (stream_list S).

Definition h2esq_stream_on_begin_headers (mem_ok : bool) S (t : frame_type) (cat : headers_cat) (i : Z) : cres (Z * session) :=
  match t, cat with
  | NGHTTP2_HEADERS, NGHTTP2_HCAT_REQUEST =>
      match h2esq_create_stream mem_ok i with
      | None => Ret (NGHTTP2_ERR_CALLBACK_FAILURE, S)
      | Some st =>
          let x := fresh (dom (streams S)) in
          '(h, q) ← DOUBLE_LL_JOIN_HEAD (<[x := st]> (streams S)) (stream_list S) x;
          Ret (0, Session _ (<[i := x]> (user_data S)) h q)
      end
  | _, _ => Ret (0, S)
  end.

Definition h2esq_stream_on_header (mem_ok : bool) S (t : frame_type) (cat : headers_cat) (i : Z) (name value : list Z) (valuelen : Z)
    : cres (Z * session) :=
  match t, cat with
  | NGHTTP2_HEADERS, NGHTTP2_HCAT_REQUEST =>
      o ← the_stream S i;
      match o with
      | Some (x, st) =>
          '(r, st) ← h2esq_stream_record_header mem_ok st name value valuelen;
          Ret (if negb (r =? 0) then NGHTTP2_ERR_CALLBACK_FAILURE else 0, put_stream S x st)
      | None => Exit
      end
  | _, _ => Exit
  end.

Definition h2esq_frame_recv_cb (inst : instance) S (t : frame_type) (end_stream : bool) (i : Z) (w : World) : cres (Z * session * World) :=
  match t with
  | NGHTTP2_DATA | NGHTTP2_HEADERS =>
      if end_stream then
        o ← the_stream S i;
        match o with
        | Some (x, st) => '(r, st, w) ← h2esq_stream_on_request_recv inst st w; Ret (r, put_stream S x st, w)
        | None => Ret (0, S, w)
        end
      else Ret (0, S, w)
  | _ => Ret (0, S, w)
  end.

Definition h2esq_stream_on_data_chunk_recv (inst : instance) S (i : Z) (data : list Z) (len : Z) (w : World) : cres (Z * session * World) :=
  o ← the_stream S i;
  match o with
  | Some (x, st) => '(r, st, w) ← on_data_chunk inst st data len w; Ret (r, put_stream S x st, w)
  | None => Ret (NGHTTP2_ERR_CALLBACK_FAILURE, S, w)
  end.

(** The headers and cookies are freed with the stream. *)
Definition h2esq_stream_close (inst : instance) S (x : loc) (w : World) : cres (session * World) :=
  st ← deref (streams S !! x);
  '(st, w) ← match h2esq_service st with
             | Some k => '(c, _) ← class_of inst k; on_stream_close c st w
             | None => Ret (st, w)
             end;
  C ← h2esq_free_cookies (cookies_root st);
  '(h, q) ← DOUBLE_LL_LEFT (<[x := set_cookies C st]> (streams S)) (stream_list S) x;
  Ret (Session _ (user_data S) (delete x h) q, w).

(** The library forgets the stream after the call. *)
Definition h2esq_stream_on_close (inst : instance) S (i : Z) (w : World) : cres (session * World) :=
  match user_data S !! i with
  | None => Ret (S, w)
  | Some x => '(S, w) ← h2esq_stream_close inst S x w; Ret (Session _ (delete i (user_data S)) (streams S) (stream_list S), w)
  end.

(** The end of [h2esq_session_fd_cb]: all streams are closed. *)
Fixpoint close_streams (fuel : nat) (inst : instance) S (w : World) : cres (session * World) :=
  match d_head (stream_list S) with
  | None => Ret (S, w)
  | Some x =>
      match fuel with
      | O => NoFuel
      | Datatypes.S fuel => '(S, w) ← h2esq_stream_close inst S x w; close_streams fuel inst S w
      end
  end.
End Connection.
