(* ===== verification/H2StreamThms.v ===== *)
(** * Connections keep their streams in order

    [ServiceLaws] is what a service promises to a connection; [reach] are the states of a
    connection after any calls of the HTTP library.  In all of them the list holds exactly
    the streams, the numbers of the library lead to them, and closing the connection closes
    every stream.  [bound] says which services an instance has. *)
From stdpp Require Import strings.
From S2P Require Import Prelude CString LinkedList HeadMatch Cookie SfsFolder H2Stream.

(** ** Well-formed streams *)

Definition header_ok (l : Z) (b : list Z) : Prop :=
  Z.of_nat (length b) = l + 1 ∧ Forall is_byte b ∧ last b = Some 0.

Definition cookies_ok (C : cookies) : Prop := Cookie.inv C ∧ ∃ jar, stored C jar.

Section StreamOk.
  Context {App : Type}.
  Implicit Type st : h2esq_stream_t App.

Record stream_ok st : Prop := {
  so_strs : length (header_strs st) = H2ESQ_HEADER_MAX;
  so_lens : length (header_lens st) = H2ESQ_HEADER_MAX;
  so_header i b l : header_strs st !! i = Some (Some b) → header_lens st !! i = Some l → header_ok l b;
  so_cookies : cookies_ok (cookies_root st)
}.

(** The stream has a path, and the part of it that was matched lies in it. *)
Definition routed st : Prop :=
  ∃ p l, header_strs st !! 1%nat = Some (Some p) ∧ header_lens st !! 1%nat = Some l ∧ 0 <= path_matched_length st <= l.

(** A service may change what it keeps and the bytes of headers. *)
Definition kept st st' : Prop := ∃ a hs, st' = set_app a (set_header_strs hs st).

Lemma kept_refl st : kept st st.
Proof. exists (app_stream_ctx st), (header_strs st). by destruct st. Qed.

Lemma stream_kept_trans st1 st2 st3 : kept st1 st2 → kept st2 st3 → kept st1 st3.
Proof. intros (a & hs & ->) (a' & hs' & ->). by exists a', hs'. Qed.
End StreamOk.

(** A header is there as it was. *)
Definition grown (h h' : list (option (list Z))) : Prop := ∀ i b, h !! i = Some (Some b) → h' !! i = Some (Some b).

Section Headers.
  Context {App : Type}.
  Implicit Type st : h2esq_stream_t App.

(** What recording a header may change. *)
Definition recorded st st' : Prop :=
  ∃ C hs ls, st' = set_cookies C (set_headers hs ls st) ∧ grown (header_strs st) hs ∧
    ∀ i b, header_strs st !! i = Some (Some b) → ls !! i = header_lens st !! i.

Lemma recorded_refl st : recorded st st.
Proof. exists (cookies_root st), (header_strs st), (header_lens st). split; [by destruct st|]. split; [by intros i b|done]. Qed.

Lemma dup_header_ok mem_ok st i s : stream_ok st → 0 <= i < 10 → cstring s →
  ∃ r st', h2esq_stream_dup_header mem_ok st i (s ++ [0]) (Z.of_nat (length s)) = Ret (r, st') ∧ stream_ok st' ∧ recorded st st'.
Proof.
  intros Hst Hi Hs. pose proof Hst as [Hl1 Hl2 Hh Hc]. unfold H2ESQ_HEADER_MAX in *. unfold h2esq_stream_dup_header, rd.
  rewrite decide_True by lia. destruct (lookup_lt_is_Some_2 (header_strs st) (Z.to_nat i)) as [h Eh]; [lia|]. rewrite Eh. cbn [mbind cres_bind].
  destruct h as [b|]; [exists 0, st; by auto using recorded_refl|]. destruct mem_ok; [|exists (-1), st; by auto using recorded_refl]. cbn [negb].
  assert (Hlen : length (s ++ [0]) = Z.to_nat (Z.of_nat (length s) + 1)) by (rewrite length_app; simpl; lia).
  unfold c_memcpy. rewrite decide_True by (rewrite length_replicate, length_app; simpl; lia). cbn [mbind cres_bind].
  rewrite take_0, Z.add_0_l, (take_ge (s ++ [0])) by lia. rewrite drop_ge by (rewrite length_replicate; lia). rewrite app_nil_r. cbn [app].
  rewrite wr_nat by (rewrite length_app; simpl; lia). cbn [mbind cres_bind]. rewrite insert_after by done.
  rewrite !wr_Ret by lia. cbn [mbind cres_bind]. eexists _, _. split; [reflexivity|]. split.
  - split; cbn [header_strs header_lens set_headers]; rewrite ?length_insert; try done. intros j b l Hb Hlj.
    destruct (decide (j = Z.to_nat i)) as [->|Hne].
    + rewrite list_lookup_insert_eq in Hb by lia. rewrite list_lookup_insert_eq in Hlj by lia. injection Hb as <-. injection Hlj as <-. split_and!.
      * rewrite length_app. simpl. lia.
      * apply Forall_app. split; [by apply cstring_bytes|]. repeat constructor; lia.
      * by rewrite last_snoc.
    + rewrite list_lookup_insert_ne in Hb by done. rewrite list_lookup_insert_ne in Hlj by done. by eapply Hh.
  - exists (cookies_root st), (<[Z.to_nat i := Some (s ++ [0])]> (header_strs st)), (<[Z.to_nat i := Z.of_nat (length s)]> (header_lens st)).
    split; [done|]. split.
    + intros j b Hb. rewrite list_lookup_insert_ne; [done|]. intros <-. by rewrite Eh in Hb.
    + intros j b Hb. rewrite list_lookup_insert_ne; [done|]. intros <-. by rewrite Eh in Hb.
Qed.

Lemma record_header_ok mem_ok st n0 tl s : stream_ok st → cstring s → (∀ n v, s = n ++ 61 :: v → 61 ∉ n → calm n) →
  Z.of_nat (size (cks (cookies_root st))) < 2^31 - 2 →
  ∃ r st', h2esq_stream_record_header mem_ok st (n0 :: tl) (s ++ [0]) (Z.of_nat (length s)) = Ret (r, st') ∧ stream_ok st' ∧ recorded st st'.
Proof.
  intros Hst Hs Hca Hsz. pose proof (dup_header_ok mem_ok st) as Hdup.
  assert (Hno : ∃ r st', Ret (0, st) = Ret (r, st') ∧ stream_ok st' ∧ recorded st st') by (exists 0, st; by auto using recorded_refl).
  assert (Hck : ∃ r st', ('(r, C) ← h2esq_save_cookie mem_ok (cookies_root st) (s ++ [0]) (Z.of_nat (length s)); Ret (r, set_cookies C st))
      = Ret (r, st') ∧ stream_ok st' ∧ recorded st st').
  { destruct (so_cookies st Hst) as [Hi [jar Hj]].
    assert (Hset : ∀ C, cookies_ok C → stream_ok (set_cookies C st) ∧ recorded st (set_cookies C st)).
    { intros C HC. split; [by destruct Hst|]. exists C, (header_strs st), (header_lens st).
      split; [by destruct st|]. split; [by intros i b|done]. }
    destruct (save_ok mem_ok (cookies_root st) jar s [0] Hi Hj Hs Hca Hsz) as [(n & v & C' & _ & -> & Hi' & Hj')|[_ ->]]; cbn [mbind cres_bind].
    - eexists _, _. split; [reflexivity|]. apply Hset. split; [done|by eexists].
    - eexists _, _. split; [reflexivity|]. apply Hset. split; [done|by exists jar]. }
  unfold h2esq_stream_record_header. rewrite (rd_nat _ 0 n0) by done. cbn [mbind cres_bind].
  repeat first [exact Hck|exact Hno|apply Hdup; (done || unfold H2ESQ_HEADER_METHOD, H2ESQ_HEADER_PATH, H2ESQ_HEADER_AUTHORITY,
    H2ESQ_HEADER_USER_AGENT, H2ESQ_HEADER_ACCEPT, H2ESQ_HEADER_ACCEPT_ENCODING, H2ESQ_HEADER_ACCEPT_LANGUAGE,
    H2ESQ_HEADER_CACHE_CONTROL, H2ESQ_HEADER_HOST; lia)|case_match].
Qed.
End Headers.

(** ** What a service promises *)

Section Laws.
  Context {App Svc World : Type} (app_ok : Svc → App → Prop) (world_ok : World → Prop).
  Local Notation stream := (h2esq_stream_t App).

Definition app_good (ctx : Svc) (st : stream) : Prop :=
  match app_stream_ctx st with Some a => app_ok ctx a | None => True end.

Record ready (ctx : Svc) (st : stream) : Prop := {
  rd_stream : stream_ok st;
  rd_routed : routed st;
  rd_app : app_good ctx st
}.

Class ServiceLaws (c : service_class App Svc World) (ctx : Svc) : Prop := {
  law_handler st w : ready ctx st → world_ok w →
    ∃ r st' w', handler c ctx st w = Ret (r, st', w') ∧ kept st st' ∧ ready ctx st' ∧ world_ok w';
  law_post st data len w : ready ctx st → world_ok w → 0 <= len → len + 17 <= Z.of_nat (length data) → Forall is_byte data →
    ∃ r st' w', on_parse_post_data c ctx st data len w = Ret (r, st', w') ∧ kept st st' ∧ ready ctx st' ∧ world_ok w';
  law_close st w : app_good ctx st → world_ok w →
    ∃ w', on_stream_close c st w = Ret (set_app None st, w') ∧ world_ok w'
}.

Definition services_ok (inst : h2esq_instance_t App Svc World) : Prop :=
  (∀ k c ctx, service inst !! k = Some (Some (c, ctx)) → ServiceLaws c ctx) ∧
  ∃ pt, path_hmt inst = Some pt ∧ ∀ s, cstring s → ∃ r, hmt_match pt s = Ret r ∧
    ∀ u m, r = Some (u, m) → 0 <= u ∧ 0 <= m <= Z.of_nat (length s) ∧ ∃ c ctx, service inst !! Z.to_nat u = Some (Some (c, ctx)).

Definition stream_good (inst : h2esq_instance_t App Svc World) (st : stream) : Prop :=
  stream_ok st ∧
  match h2esq_service st with
  | None => app_stream_ctx st = None
  | Some k => ∃ c ctx, service inst !! k = Some (Some (c, ctx)) ∧ ready ctx st
  end.

Record session_ok (inst : h2esq_instance_t App Svc World) (S : h2esq_session_t App) : Prop := {
  se_list : ∃ l, dlist_rep (streams S) (stream_list S) l ∧ ∀ x, x ∈ l ↔ is_Some (streams S !! x);
  se_data i x : user_data S !! i = Some x ↔ ∃ st, streams S !! x = Some st ∧ id st = i;
  se_good x st : streams S !! x = Some st → stream_good inst st
}.

(** ** The calls of the HTTP library *)

Inductive event :=
| EvBegin (mem_ok : bool) (t : frame_type) (cat : headers_cat) (i : Z)
| EvHeader (mem_ok : bool) (t : frame_type) (cat : headers_cat) (i : Z) (name value : list Z) (len : Z)
| EvData (i : Z) (data : list Z) (len : Z)
| EvFrame (t : frame_type) (end_stream : bool) (i : Z)
| EvClose (i : Z).

Definition exec (inst : h2esq_instance_t App Svc World) (S : h2esq_session_t App) (w : World) (e : event)
    : cres (h2esq_session_t App * World) :=
  match e with
  | EvBegin mem_ok t cat i => '(_, S) ← h2esq_stream_on_begin_headers mem_ok S t cat i; Ret (S, w)
  | EvHeader mem_ok t cat i n v len => '(_, S) ← h2esq_stream_on_header mem_ok S t cat i n v len; Ret (S, w)
  | EvData i data len => '(_, S, w) ← h2esq_stream_on_data_chunk_recv inst S i data len w; Ret (S, w)
  | EvFrame t fin i => '(_, S, w) ← h2esq_frame_recv_cb inst S t fin i w; Ret (S, w)
  | EvClose i => h2esq_stream_on_close inst S i w
  end.

(** What the theorems ask of a call of the library: it begins a stream under a new number; it
    gives headers of requests, no trailers, with a zero behind name and value; a piece of data has 17 bytes behind it (the
    form parser reads them), and the method has four characters or more (five bytes of it are
    compared).  The hash of a cookie's name does not overflow. *)
Definition event_ok (S : h2esq_session_t App) (e : event) : Prop :=
  match e with
  | EvBegin _ t cat i => t = NGHTTP2_HEADERS → cat = NGHTTP2_HCAT_REQUEST → user_data S !! i = None
  | EvHeader _ t cat i n v len =>
      t = NGHTTP2_HEADERS ∧ cat = NGHTTP2_HCAT_REQUEST ∧ is_Some (user_data S !! i) ∧
      (∃ n0 tl, n = n0 :: tl) ∧ len = Z.of_nat (length v) - 1 ∧
      ∃ s, v = s ++ [0] ∧ cstring s ∧ (∀ n v, s = n ++ 61 :: v → 61 ∉ n → calm n) ∧
        ∀ x st, streams S !! x = Some st → Z.of_nat (size (cks (cookies_root st))) < 2^31 - 2
  | EvData i data len =>
      0 <= len ∧ len + 17 <= Z.of_nat (length data) ∧ Forall is_byte data ∧
      ∀ x st, user_data S !! i = Some x → streams S !! x = Some st →
        ∃ m l, header_strs st !! 0%nat = Some (Some m) ∧ header_lens st !! 0%nat = Some l ∧ 4 <= l
  | EvFrame _ _ _ | EvClose _ => True
  end.

(** The states of a connection. *)
Inductive reach (inst : h2esq_instance_t App Svc World) : h2esq_session_t App → World → Prop :=
| reach_new w : world_ok w → reach inst (Session _ ∅ ∅ dlist_empty) w
| reach_step S w e S' w' : reach inst S w → event_ok S e → exec inst S w e = Ret (S', w') → reach inst S' w'.

(** ** Lists of streams *)

Lemma dseg_same_links (h : gmap loc stream) x n n' pv l nx :
  h !! x = Some n → s_prev n' = s_prev n → s_next n' = s_next n → dseg h pv l nx → dseg (<[x := n']> h) pv l nx.
Proof.
  intros Hx Hp Hn. revert pv. induction l as [|y l IH]; intros pv; [done|]. cbn [dseg]. intros [(m & Hm & Hmp & Hmn) Hd]. split; [|by apply IH].
  destruct (decide (y = x)) as [->|Hne].
  - exists n'. rewrite lookup_insert_eq. rewrite Hx in Hm. injection Hm as <-. simpl in *. by rewrite Hp, Hn.
  - exists m. by rewrite lookup_insert_ne.
Qed.

Lemma put_stream_ok inst S x st st' : session_ok inst S → streams S !! x = Some st →
  s_prev st' = s_prev st → s_next st' = s_next st → id st' = id st → stream_good inst st' → session_ok inst (put_stream S x st').
Proof.
  intros [(l & (Hh & Ht & Hnd & Hd) & Hl) Hdata Hgood] Hx Hp Hn Hi Hg. split; cbn [put_stream streams stream_list user_data].
  - exists l. split; [split_and!; try done; by eapply dseg_same_links|]. intros y. rewrite Hl. destruct (decide (y = x)) as [->|Hne].
    + rewrite Hx, lookup_insert_eq. split; intros _; by eexists.
    + by rewrite lookup_insert_ne.
  - intros i y. rewrite Hdata. destruct (decide (y = x)) as [->|Hne].
    + rewrite lookup_insert_eq, Hx. split; intros (s0 & [= <-] & <-); eauto.
    + by rewrite lookup_insert_ne.
  - intros y s0. destruct (decide (y = x)) as [->|Hne].
    + rewrite lookup_insert_eq. by intros [= <-].
    + rewrite lookup_insert_ne by done. apply Hgood.
Qed.

Lemma erase_stream (n n' : stream) : erase_links n = erase_links n' → ∃ p q, n' = set_links p q n.
Proof. intros E. exists (s_next n'), (s_prev n'). destruct n, n'. simpl in E. by injection E as -> -> -> -> -> -> ->. Qed.

Lemma ready_links ctx st p q : ready ctx st → ready ctx (set_links p q st).
Proof. intros [[? ? ? ?] ? ?]. by split. Qed.

Lemma good_links inst st p q : stream_good inst st → stream_good inst (set_links p q st).
Proof.
  intros [[? ? ? ?] H]. split; [done|]. cbn [h2esq_service set_links app_stream_ctx]. destruct (h2esq_service st); [|done].
  destruct H as (c & ctx & ? & Hr). exists c, ctx. split; [done|by apply ready_links].
Qed.

Lemma new_stream_ok i st : h2esq_create_stream (App := App) true i = Some st → stream_ok st ∧ id st = i ∧ h2esq_service st = None ∧ app_stream_ctx st = None.
Proof.
  intros [= <-]. split_and!; try done. split; try done.
  - intros j b l Hj. apply list_elem_of_lookup_2 in Hj. change (Some b ∈ replicate H2ESQ_HEADER_MAX (@None (list Z))) in Hj.
    by apply elem_of_replicate in Hj as [? _].
  - split; [apply no_cookies_inv|]. exists ∅. apply no_cookies_stored.
Qed.

Lemma begin_headers_ok inst mem_ok S t cat i : session_ok inst S → (t = NGHTTP2_HEADERS → cat = NGHTTP2_HCAT_REQUEST → user_data S !! i = None) →
  ∃ r S', h2esq_stream_on_begin_headers mem_ok S t cat i = Ret (r, S') ∧ session_ok inst S'.
Proof.
  intros HS Hi. pose proof HS as [(l & Hl & Hdom) Hdata Hgood].
  assert (Hno : ∃ r S', Ret (0, S) = Ret (r, S') ∧ session_ok inst S') by (by exists 0, S).
  destruct t, cat; try exact Hno. clear Hno. specialize (Hi eq_refl eq_refl).
  unfold h2esq_stream_on_begin_headers. destruct mem_ok; [|eexists _, _; by split; [reflexivity|]].
  destruct (h2esq_create_stream true i) as [st|] eqn:Est; [|done]. destruct (new_stream_ok i st Est) as (Hst & Hid & Hsv & Hap).
  set (x := fresh (dom (streams S))). assert (Hx : streams S !! x = None) by (apply not_elem_of_dom; apply is_fresh).
  assert (Hxl : x ∉ l) by (rewrite Hdom, Hx; by intros []).
  destruct (join_head_ok (<[x := st]> (streams S)) (stream_list S) l x) as (h & q & -> & Hrep & Hw & Hag);
    [by apply dlist_rep_frame|done|rewrite lookup_insert_eq; by eexists|]. cbn [mbind cres_bind].
  eexists _, _. split; [reflexivity|].
  assert (Hlk : ∀ y n', h !! y = Some n' → ∃ n p q, <[x := st]> (streams S) !! y = Some n ∧ n' = set_links p q n).
  { intros y n' Hn. destruct (same_objects_lookup _ _ _ _ Hw Hn) as (n & E1 & E2). apply erase_stream in E2 as (p & q' & ->). by exists n, p, q'. }
  assert (Hlk' : ∀ y, is_Some (h !! y) ↔ is_Some (<[x := st]> (streams S) !! y)).
  { intros y. apply (f_equal (.!! y)) in Hw. rewrite !lookup_fmap in Hw. destruct (h !! y), (<[x := st]> (streams S) !! y); split; intros [? ?]; try done. }
  split; cbn [streams stream_list user_data].
  - exists (x :: l). split; [done|]. intros y. rewrite Hlk', elem_of_cons, Hdom. destruct (decide (y = x)) as [->|Hne].
    + rewrite lookup_insert_eq. split; [by eexists|by left].
    + rewrite lookup_insert_ne by done. naive_solver.
  - intros j y. split.
    + intros Hj. destruct (decide (j = i)) as [->|Hne].
      * rewrite lookup_insert_eq in Hj. injection Hj as <-. destruct (proj2 (Hlk' x)) as [n' Hn']; [rewrite lookup_insert_eq; by eexists|].
        exists n'. split; [done|]. destruct (Hlk _ _ Hn') as (n & p & q' & Hn & ->). rewrite lookup_insert_eq in Hn. by injection Hn as <-.
      * rewrite lookup_insert_ne in Hj by done. apply Hdata in Hj as (s0 & Hs0 & Hid0). assert (Hyx : y ≠ x) by congruence.
        destruct (proj2 (Hlk' y)) as [n' Hn']; [rewrite lookup_insert_ne by done; by eexists|].
        exists n'. split; [done|]. destruct (Hlk _ _ Hn') as (n & p & q' & Hn & ->). rewrite lookup_insert_ne in Hn by done. simpl. congruence.
    + intros (n' & Hn' & Hid'). destruct (Hlk _ _ Hn') as (n & p & q' & Hn & ->). cbn [id set_links] in Hid'.
      destruct (decide (y = x)) as [->|Hne].
      * rewrite lookup_insert_eq in Hn. injection Hn as <-. assert (j = i) as -> by congruence. by rewrite lookup_insert_eq.
      * rewrite lookup_insert_ne in Hn by done. assert (Hu : user_data S !! j = Some y) by (apply Hdata; by exists n).
        rewrite lookup_insert_ne by congruence. done.
  - intros y n' Hn'. destruct (Hlk _ _ Hn') as (n & p & q' & Hn & ->). apply good_links. destruct (decide (y = x)) as [->|Hne].
    + rewrite lookup_insert_eq in Hn. injection Hn as <-. split; [done|]. by rewrite Hsv.
    + rewrite lookup_insert_ne in Hn by done. by eapply Hgood.
Qed.

Lemma the_stream_ok inst S i : session_ok inst S →
  (user_data S !! i = None ∧ the_stream S i = Ret None) ∨
  ∃ x st, user_data S !! i = Some x ∧ streams S !! x = Some st ∧ the_stream S i = Ret (Some (x, st)).
Proof.
  intros [_ Hdata _]. unfold the_stream. destruct (user_data S !! i) as [x|] eqn:E; [right|by left].
  destruct (proj1 (Hdata i x) E) as (st & Hst & _). exists x, st. rewrite Hst. by split_and!.
Qed.

Lemma recorded_good inst st st' : stream_good inst st → stream_ok st' → recorded st st' → stream_good inst st'.
Proof.
  intros [_ H] Hok (C & hs & ls & -> & Hhs & Hls). split; [done|]. cbn [h2esq_service app_stream_ctx set_cookies set_headers].
  destruct (h2esq_service st) as [k|]; [|done]. destruct H as (c & ctx & Hk & [_ (p & l & Hp & Hl & Hm) Ha]).
  exists c, ctx. split; [done|]. split; [done| |done]. exists p, l. cbn [header_strs header_lens set_cookies set_headers path_matched_length].
  split_and!; try tauto; [by apply Hhs|by rewrite (Hls _ _ Hp)].
Qed.

Lemma on_header_ok inst S mem_ok i n0 tl s : session_ok inst S → is_Some (user_data S !! i) → cstring s →
  (∀ n v, s = n ++ 61 :: v → 61 ∉ n → calm n) → (∀ x st, streams S !! x = Some st → Z.of_nat (size (cks (cookies_root st))) < 2^31 - 2) →
  ∃ r S', h2esq_stream_on_header mem_ok S NGHTTP2_HEADERS NGHTTP2_HCAT_REQUEST i (n0 :: tl) (s ++ [0]) (Z.of_nat (length s)) = Ret (r, S') ∧
    session_ok inst S'.
Proof.
  intros HS Hi Hs Hca Hsz. unfold h2esq_stream_on_header.
  destruct (the_stream_ok inst S i HS) as [[E _]|(x & st & Hu & Hx & ->)]; [rewrite E in Hi; by destruct Hi|]. cbn [mbind cres_bind].
  pose proof (se_good inst S HS x st Hx) as Hg.
  destruct (record_header_ok mem_ok st n0 tl s (proj1 Hg) Hs Hca (Hsz x st Hx)) as (r & st' & -> & Hok & Hrec). cbn [mbind cres_bind].
  eexists _, _. split; [reflexivity|]. pose proof Hrec as (C & hs & ls & E & _). eapply put_stream_ok; try done; [by subst st'..|].
  by eapply recorded_good.
Qed.

(** The first bytes of a header are a string. *)
Lemma header_chars l b : header_ok l b → c_chars b = Ret (cstr b) ∧ cstring (cstr b) ∧ Z.of_nat (length (cstr b)) <= l.
Proof.
  intros (Hl & Hb & Hz). assert (Hin : 0 ∈ b) by (by apply last_Some_elem_of).
  cut (c_chars b = Ret (cstr b) ∧ cstring (cstr b) ∧ (length (cstr b) < length b)%nat); [intros (? & ? & ?); split_and!; try done; lia|].
  clear Hl Hz. induction b as [|x b IH]; [by apply not_elem_of_nil in Hin|]. apply Forall_cons in Hb as [Hx Hb]. simpl.
  destruct (Z.eqb_spec x 0) as [->|Hne]; [split_and!; [done|constructor|simpl; lia]|].
  assert (Hin' : 0 ∈ b) by (apply elem_of_cons in Hin as [?|?]; [congruence|done]).
  destruct IH as (-> & Hc & Hlt); [done|done|]. split_and!; [done| |simpl; lia]. apply Forall_cons. split; [|done]. unfold is_byte in Hx. lia.
Qed.

(** The stream has a service and is ready for it, or there is none for its path. *)
Lemma stream_service_ok inst st p l : services_ok inst → stream_good inst st →
  header_strs st !! 1%nat = Some (Some p) → header_lens st !! 1%nat = Some l →
  (stream_service inst st p = Ret (None, st) ∧ h2esq_service st = None) ∨
  ∃ k c ctx m, stream_service inst st p = Ret (Some k, set_service (Some k) m st) ∧ service inst !! k = Some (Some (c, ctx)) ∧
    ServiceLaws c ctx ∧ class_of inst k = Ret (c, ctx) ∧ ready ctx (set_service (Some k) m st).
Proof.
  intros [Hlaws (pt & Hpt & Hmatch)] [Hok Hg] Hp Hl. unfold stream_service.
  assert (Hcl : ∀ k c ctx, service inst !! k = Some (Some (c, ctx)) → class_of inst k = Ret (c, ctx)).
  { intros k c ctx Hk. unfold class_of. by rewrite (rd_nat _ _ _ Hk). }
  destruct (h2esq_service st) as [k|] eqn:Es.
  - right. destruct Hg as (c & ctx & Hk & Hr). exists k, c, ctx, (path_matched_length st).
    assert (E : set_service (Some k) (path_matched_length st) st = st) by (destruct st; cbn in *; by subst).
    rewrite E. split_and!; eauto.
  - unfold h2esq_instance_find_service. rewrite Hpt. cbn [deref mbind cres_bind].
    destruct (header_chars l p (so_header st Hok _ _ _ Hp Hl)) as (-> & Hc & Hlen). cbn [mbind cres_bind].
    destruct (Hmatch _ Hc) as (r & -> & Hr). cbn [mbind cres_bind]. destruct r as [[u m]|]; [|by left]. right.
    destruct (Hr u m eq_refl) as (Hu & Hm & c & ctx & Hk). exists (Z.to_nat u), c, ctx, m. split_and!; eauto.
    split; [by destruct Hok| |unfold app_good; cbn [app_stream_ctx set_service]; by rewrite Hg].
    exists p, l. cbn [header_strs header_lens set_service path_matched_length]. split_and!; try done; lia.
Qed.

Lemma served_good inst k c ctx m st st' : service inst !! k = Some (Some (c, ctx)) →
  kept (set_service (Some k) m st) st' → ready ctx st' →
  stream_good inst st' ∧ s_prev st' = s_prev st ∧ s_next st' = s_next st ∧ id st' = id st.
Proof.
  intros Hk (a & hs & ->) Hr. split_and!; try done. split; [apply Hr|]. cbn [h2esq_service set_app set_header_strs set_service]. by exists c, ctx.
Qed.

Lemma request_recv_ok inst st w : services_ok inst → stream_good inst st → world_ok w →
  ∃ r st' w', h2esq_stream_on_request_recv inst st w = Ret (r, st', w') ∧ world_ok w' ∧
    stream_good inst st' ∧ s_prev st' = s_prev st ∧ s_next st' = s_next st ∧ id st' = id st.
Proof.
  intros Hs Hg Hw. pose proof (proj1 Hg) as Hok. unfold h2esq_stream_on_request_recv, rd. rewrite decide_True by (unfold H2ESQ_HEADER_PATH; lia).
  change (Z.to_nat H2ESQ_HEADER_PATH) with 1%nat. pose proof (so_strs st Hok) as Hn. pose proof (so_lens st Hok) as Hn2. unfold H2ESQ_HEADER_MAX in *.
  destruct (lookup_lt_is_Some_2 (header_strs st) 1) as [h Eh]; [lia|]. rewrite Eh. cbn [mbind cres_bind].
  destruct h as [p|]; [|eexists _, _, _; by split; [reflexivity|]].
  destruct (lookup_lt_is_Some_2 (header_lens st) 1) as [l El]; [lia|].
  destruct (stream_service_ok inst st p l Hs Hg Eh El) as [[-> _]|(k & c & ctx & m & -> & Hk & Hlaw & Hcl & Hr)]; cbn [mbind cres_bind];
    [eexists _, _, _; by split; [reflexivity|]|].
  rewrite Hcl. cbn [mbind cres_bind]. destruct (law_handler _ w Hr Hw) as (r & st' & w' & -> & Hkept & Hr' & Hw'). cbn [mbind cres_bind].
  eexists _, _, _. split; [reflexivity|]. split; [done|]. by eapply served_good.
Qed.

Lemma on_data_chunk_ok inst st data len w : services_ok inst → stream_good inst st → world_ok w → 0 <= len → len + 17 <= Z.of_nat (length data) → Forall is_byte data →
  (∃ m l, header_strs st !! 0%nat = Some (Some m) ∧ header_lens st !! 0%nat = Some l ∧ 4 <= l) →
  ∃ r st' w', on_data_chunk inst st data len w = Ret (r, st', w') ∧ world_ok w' ∧
    stream_good inst st' ∧ s_prev st' = s_prev st ∧ s_next st' = s_next st ∧ id st' = id st.
Proof.
  intros Hs Hg Hw Hlen Hroom Hby (mt & ml & Hmt & Hml & H4). pose proof (proj1 Hg) as Hok.
  unfold on_data_chunk, h2esq_stream_get_header. rewrite (rd_nat _ 0 _ Hmt : rd _ H2ESQ_HEADER_METHOD = _). cbn [mbind cres_bind].
  rewrite (rd_nat _ 0 _ Hml : rd _ H2ESQ_HEADER_METHOD = _). cbn [mbind cres_bind deref].
  destruct (so_header st Hok _ _ _ Hmt Hml) as [Hl5 _]. unfold c_memcmp. rewrite decide_True by (split; [lia|vm_compute; discriminate]).
  cbn [mbind cres_bind]. case_match; [eexists _, _, _; by split; [reflexivity|]|].
  unfold rd. rewrite decide_True by (unfold H2ESQ_HEADER_PATH; lia).
  change (Z.to_nat H2ESQ_HEADER_PATH) with 1%nat. pose proof (so_strs st Hok) as Hn. pose proof (so_lens st Hok) as Hn2. unfold H2ESQ_HEADER_MAX in *.
  destruct (lookup_lt_is_Some_2 (header_strs st) 1) as [h Eh]; [lia|]. rewrite Eh. cbn [mbind cres_bind].
  destruct h as [p|]; [|eexists _, _, _; by split; [reflexivity|]].
  destruct (lookup_lt_is_Some_2 (header_lens st) 1) as [l El]; [lia|].
  destruct (stream_service_ok inst st p l Hs Hg Eh El) as [[-> _]|(k & c & ctx & m & -> & Hk & Hlaw & Hcl & Hr)]; cbn [mbind cres_bind];
    [eexists _, _, _; by split; [reflexivity|]|].
  rewrite Hcl. cbn [mbind cres_bind]. destruct (law_post _ data len w Hr Hw Hlen Hroom Hby) as (r & st' & w' & -> & Hkept & Hr' & Hw'). cbn [mbind cres_bind].
  eexists _, _, _. split; [reflexivity|]. split; [done|]. by eapply served_good.
Qed.

(** ** Closing *)

(** A stream that leaves: what is left is as it was, but for links. *)
Lemma stream_close_ok inst S x st w ud : services_ok inst → session_ok inst S → streams S !! x = Some st → world_ok w →
  ∃ h q w', h2esq_stream_close inst (Session _ ud (streams S) (stream_list S)) x w = Ret (Session _ ud h q, w') ∧ world_ok w' ∧
    session_ok inst (Session _ (delete (id st) (user_data S)) h q) ∧ size h = pred (size (streams S)).
Proof.
  intros Hs HS Hx Hw. pose proof HS as [(l & Hrep & Hdom) Hdata Hgood]. pose proof (Hgood x st Hx) as [Hok Hg].
  assert (Hcb : ∃ st1 w', match h2esq_service st with
                          | Some k => '(c, _) ← class_of inst k; on_stream_close c st w
                          | None => Ret (st, w)
                          end = Ret (st1, w') ∧ world_ok w' ∧ st1 = set_app None st).
  { destruct (h2esq_service st) as [k|].
    - destruct Hg as (c & ctx & Hk & Hr). unfold class_of. rewrite (rd_nat _ _ _ Hk). cbn [mbind cres_bind deref].
      pose proof (proj1 Hs _ _ _ Hk) as Hlaw. destruct (law_close st w (rd_app ctx st Hr) Hw) as (w' & -> & Hw'). by eexists _, _.
    - exists st, w. split_and!; try done. by destruct st; cbn in *; subst. }
  destruct Hcb as (st1 & w' & Ecb & Hw' & ->). unfold h2esq_stream_close. cbn [streams stream_list user_data]. rewrite Hx. cbn [deref mbind cres_bind]. rewrite Ecb. cbn [mbind cres_bind].
  cbn [cookies_root set_app].
  destruct (h2esq_free_cookies_correct (cookies_root st) (proj1 (so_cookies st Hok))) as (C & -> & _). cbn [mbind cres_bind].
  set (st2 := set_cookies C (set_app None st)).
  assert (Hin : x ∈ l) by (rewrite Hdom, Hx; by eexists). apply list_elem_of_split in Hin as (l1 & l2 & ->).
  assert (Hrep2 : dlist_rep (<[x := st2]> (streams S)) (stream_list S) (l1 ++ x :: l2)).
  { destruct Hrep as (? & ? & ? & ?). split_and!; try done. by eapply dseg_same_links. }
  destruct (left_ok _ _ l1 x l2 Hrep2) as (h & q & -> & Hrep3 & Hw3 & Hag). cbn [mbind cres_bind].
  destruct (dlist_rep_ends _ _ _ _ _ Hrep2) as (_ & _ & _ & Hxl & _).
  eexists _, _, _. split; [reflexivity|]. split; [done|].
  assert (Hlk : ∀ y n', y ≠ x → h !! y = Some n' → ∃ n p q, streams S !! y = Some n ∧ n' = set_links p q n).
  { intros y n' Hy Hn. destruct (same_objects_lookup _ _ _ _ Hw3 Hn) as (n & E1 & E2). rewrite lookup_insert_ne in E1 by done.
    apply erase_stream in E2 as (p & q' & ->). by exists n, p, q'. }
  assert (Hlk' : ∀ y, y ≠ x → (is_Some (h !! y) ↔ is_Some (streams S !! y))).
  { intros y Hy. apply (f_equal (.!! y)) in Hw3. rewrite !lookup_fmap, lookup_insert_ne in Hw3 by done. destruct (h !! y), (streams S !! y); split; intros [? ?]; try done. }
  split; [split; cbn [streams stream_list user_data]|].
  - exists (l1 ++ l2). split.
    + eapply dlist_rep_agree; [|exact Hrep3]. intros y Hy. rewrite lookup_delete_ne; [done|]. intros ->. done.
    + intros y. destruct (decide (y = x)) as [->|Hne].
      * rewrite lookup_delete_eq. split; [done|by intros []].
      * rewrite lookup_delete_ne by done. rewrite Hlk', <- Hdom by done. set_solver.
  - intros j y. split.
    + intros Hj. destruct (decide (j = id st)) as [->|Hne]; [by rewrite lookup_delete_eq in Hj|]. rewrite lookup_delete_ne in Hj by done.
      apply Hdata in Hj as (s0 & Hs0 & Hid0). assert (Hyx : y ≠ x) by (intros ->; congruence).
      destruct (proj2 (Hlk' y Hyx)) as [n' Hn']; [by eexists|]. exists n'. rewrite lookup_delete_ne by done. split; [done|].
      destruct (Hlk _ _ Hyx Hn') as (n & p & q' & Hn & ->). simpl. congruence.
    + intros (n' & Hn' & Hid'). destruct (decide (y = x)) as [->|Hne]; [by rewrite lookup_delete_eq in Hn'|].
      rewrite lookup_delete_ne in Hn' by done. destruct (Hlk _ _ Hne Hn') as (n & p & q' & Hn & ->). cbn [id set_links] in Hid'.
      assert (Hu : user_data S !! j = Some y) by (apply Hdata; by exists n). rewrite lookup_delete_ne; [done|]. intros E. subst j.
      assert (Hux : user_data S !! id st = Some x) by (apply Hdata; by exists st). congruence.
  - intros y n' Hn'. destruct (decide (y = x)) as [->|Hne]; [by rewrite lookup_delete_eq in Hn'|].
    rewrite lookup_delete_ne in Hn' by done. destruct (Hlk _ _ Hne Hn') as (n & p & q' & Hn & ->). apply good_links. by eapply Hgood.
  - assert (Hhx : is_Some (h !! x)).
    { apply (f_equal (.!! x)) in Hw3. rewrite !lookup_fmap, lookup_insert_eq in Hw3. by destruct (h !! x). }
    rewrite map_size_delete. destruct Hhx as [nx ->]. simpl. f_equal. rewrite <- !size_dom. f_equal. apply set_eq. intros y.
    rewrite !elem_of_dom. destruct (decide (y = x)) as [->|Hne]; [|by apply Hlk'].
    split; intros _; [by rewrite Hx|]. apply (f_equal (.!! x)) in Hw3. rewrite !lookup_fmap, lookup_insert_eq in Hw3. by destruct (h !! x).
Qed.

Lemma on_close_ok inst S i w : services_ok inst → session_ok inst S → world_ok w →
  ∃ S' w', h2esq_stream_on_close inst S i w = Ret (S', w') ∧ world_ok w' ∧ session_ok inst S'.
Proof.
  intros Hs HS Hw. unfold h2esq_stream_on_close. destruct (user_data S !! i) as [x|] eqn:E; [|by exists S, w].
  destruct (proj1 (se_data inst S HS i x) E) as (st & Hx & <-). destruct (stream_close_ok inst S x st w (user_data S) Hs HS Hx Hw) as (h & q & w' & Ec & Hw' & HS' & _).
  replace (Session _ (user_data S) (streams S) (stream_list S)) with S in Ec by (by destruct S).
  rewrite Ec. cbn [mbind cres_bind]. by eexists _, _.
Qed.

Lemma close_streams_ok fuel inst S ud w : services_ok inst → session_ok inst S → world_ok w → (size (streams S) <= fuel)%nat →
  ∃ S' w', close_streams fuel inst (Session _ ud (streams S) (stream_list S)) w = Ret (S', w') ∧ world_ok w' ∧ streams S' = ∅.
Proof.
  intros Hs. revert S w. induction fuel as [|fuel IH]; intros S w HS Hw Hf; destruct (se_list inst S HS) as (l & (Hh & _ & _ & Hd) & Hdom);
    cbn [close_streams stream_list]; rewrite Hh; destruct l as [|x l]; cbn [head].
  - eexists _, _. split_and!; try done. apply map_eq. intros y. rewrite lookup_empty. cbn [streams]. apply eq_None_not_Some. rewrite <- Hdom. apply not_elem_of_nil.
  - destruct Hd as [(n & Hn & _) _]. assert (Hz : size (streams S) = 0%nat) by lia. apply map_size_empty_inv in Hz. by rewrite Hz, lookup_empty in Hn.
  - eexists _, _. split_and!; try done. apply map_eq. intros y. rewrite lookup_empty. cbn [streams]. apply eq_None_not_Some. rewrite <- Hdom. apply not_elem_of_nil.
  - destruct Hd as [(n & Hn & _) _]. destruct (stream_close_ok inst S x n w ud Hs HS Hn Hw) as (h & q & w' & -> & Hw' & HS' & Hsz). cbn [mbind cres_bind].
    apply (IH (Session _ (delete (id n) (user_data S)) h q) w' HS' Hw'). cbn [streams]. lia.
Qed.

Lemma put_served inst S x st st' : session_ok inst S → streams S !! x = Some st →
  stream_good inst st' → s_prev st' = s_prev st → s_next st' = s_next st → id st' = id st → session_ok inst (put_stream S x st').
Proof. intros. by eapply put_stream_ok. Qed.

Lemma exec_ok inst S w e : services_ok inst → session_ok inst S → world_ok w → event_ok S e →
  ∃ S' w', exec inst S w e = Ret (S', w') ∧ session_ok inst S' ∧ world_ok w'.
Proof.
  intros Hs HS Hw He. destruct e as [mem_ok t cat i|mem_ok t cat i n v len|i data len|t fin i|i]; cbn [exec event_ok] in *.
  - destruct (begin_headers_ok inst mem_ok S t cat i HS He) as (r & S' & -> & HS'). cbn [mbind cres_bind]. by eexists _, _.
  - destruct He as (-> & -> & Hi & (n0 & tl & ->) & -> & s & -> & Hcs & Hca & Hsz).
    destruct (on_header_ok inst S mem_ok i n0 tl s HS Hi Hcs Hca Hsz) as (r & S' & E & HS').
    replace (Z.of_nat (length (s ++ [0])) - 1) with (Z.of_nat (length s)) by (rewrite length_app; simpl; lia).
    rewrite E. cbn [mbind cres_bind]. by eexists _, _.
  - destruct He as (Hl & Hroom & Hby & Hm). unfold h2esq_stream_on_data_chunk_recv.
    destruct (the_stream_ok inst S i HS) as [[_ ->]|(x & st & Hu & Hx & ->)]; cbn [mbind cres_bind]; [by eexists _, _|].
    destruct (on_data_chunk_ok inst st data len w Hs (se_good inst S HS x st Hx) Hw Hl Hroom Hby (Hm x st Hu Hx)) as (r & st' & w' & -> & Hw' & Hg & ? & ? & ?).
    cbn [mbind cres_bind]. eexists _, _. split; [reflexivity|]. split; [by eapply put_served|done].
  - unfold h2esq_frame_recv_cb.
    assert (Hno : ∃ S' w', ('(_, S1, w1) ← Ret (0, S, w); Ret (S1, w1)) = Ret (S', w') ∧ session_ok inst S' ∧ world_ok w') by (by exists S, w).
    assert (Hreq : ∃ S' w', ('(_, S1, w1) ← (if fin then o ← the_stream S i;
        match o with Some (x, st) => '(r, st, w) ← h2esq_stream_on_request_recv inst st w; Ret (r, put_stream S x st, w) | None => Ret (0, S, w) end
      else Ret (0, S, w)); Ret (S1, w1)) = Ret (S', w') ∧ session_ok inst S' ∧ world_ok w').
    { destruct fin; [|exact Hno]. destruct (the_stream_ok inst S i HS) as [[_ ->]|(x & st & Hu & Hx & ->)]; cbn [mbind cres_bind]; [by eexists _, _|].
      destruct (request_recv_ok inst st w Hs (se_good inst S HS x st Hx) Hw) as (r & st' & w' & -> & Hw' & Hg & ? & ? & ?).
      cbn [mbind cres_bind]. eexists _, _. split; [reflexivity|]. split; [by eapply put_served|done]. }
    by destruct t.
  - destruct (on_close_ok inst S i w Hs HS Hw) as (S' & w' & -> & ? & ?). by eexists _, _.
Qed.

Lemma new_session_ok inst : session_ok inst (Session _ ∅ ∅ dlist_empty).
Proof.
  split; cbn [streams stream_list user_data].
  - exists []. split; [apply dlist_rep_empty|]. intros x. rewrite lookup_empty. split; [by intros ?%not_elem_of_nil|by intros []].
  - intros i x. rewrite !lookup_empty. split; [done|]. by intros (st & Hst & _).
  - intros x st Hx. by rewrite lookup_empty in Hx.
Qed.

Lemma reach_ok inst S w : services_ok inst → reach inst S w → session_ok inst S ∧ world_ok w.
Proof.
  intros Hs. induction 1 as [w Hw|S w e S' w' _ [HS Hw] He E]; [split; [apply new_session_ok|done]|].
  destruct (exec_ok inst S w e Hs HS Hw He) as (S2 & w2 & E2 & ? & ?). rewrite E in E2. by injection E2 as <- <-.
Qed.
End Laws.

(** Five bytes of the method are compared when data come, whatever its length. *)
Lemma short_method_fault {App Svc World : Type} (inst : h2esq_instance_t App Svc World) S i x st o data len (w : World) :
  user_data S !! i = Some x → streams S !! x = Some st → header_strs st !! 0%nat = Some o →
  (∀ m, o = Some m → (length m < 5)%nat) → h2esq_stream_on_data_chunk_recv inst S i data len w = Fault.
Proof.
  intros Hi Hx Ho Hm. unfold h2esq_stream_on_data_chunk_recv, the_stream. rewrite Hi, Hx. cbn [deref mbind cres_bind].
  unfold on_data_chunk, h2esq_stream_get_header. change H2ESQ_HEADER_METHOD with (Z.of_nat 0). rewrite (rd_nat _ 0 o) by done. cbn [mbind cres_bind].
  destruct o as [m|]; [|done]. specialize (Hm m eq_refl). destruct (rd (header_lens st) _) as [l| | |] eqn:El; cbn [mbind cres_bind deref]; try done.
  - unfold c_memcmp. by rewrite decide_False by lia.
  - unfold rd in El. by repeat case_match.
  - unfold rd in El. by repeat case_match.
Qed.

(** C16: A connection whose services keep their promises is in order after all calls of the HTTP
    library that fulfil [event_ok]: a stream begins under a new number; headers are those of a
    request of a stream there is, with a zero behind name and value, and the hash of a cookie's
    name does not overflow; data come with 17 readable bytes behind them to a stream with a
    method of four characters or more.  In order means that the list holds exactly the
    streams, the numbers of the library lead to them, each stream has a service of the instance
    or keeps nothing.  The next such call returns and leaves it so; and when the connection
    ends, closing the streams ends and none is left.  Two of the conditions are there because
    other calls end the server: headers that are not of a request (trailers behind the data)
    make it exit, and data for a stream with a shorter method, or none, make it read behind the
    method. *)
Theorem h2esq_streams_safe {App Svc World : Type} (app_ok : Svc → App → Prop) (world_ok : World → Prop)
    (inst : h2esq_instance_t App Svc World) S w :
  services_ok app_ok world_ok inst → reach world_ok inst S w →
  session_ok app_ok inst S ∧
  (∀ e, event_ok S e → ∃ S' w', exec inst S w e = Ret (S', w') ∧ session_ok app_ok inst S' ∧ world_ok w') ∧
  (∀ mem_ok t cat i n v len, t ≠ NGHTTP2_HEADERS ∨ cat ≠ NGHTTP2_HCAT_REQUEST → exec inst S w (EvHeader mem_ok t cat i n v len) = Exit) ∧
  (∀ i data len x st o, user_data S !! i = Some x → streams S !! x = Some st → header_strs st !! 0%nat = Some o →
    (∀ m, o = Some m → (length m < 5)%nat) → exec inst S w (EvData i data len) = Fault) ∧
  ∃ S' w', close_streams (size (streams S)) inst S w = Ret (S', w') ∧ world_ok w' ∧ streams S' = ∅.
Proof.
  intros Hs Hr. destruct (reach_ok app_ok world_ok inst S w Hs Hr) as [HS Hw]. split_and!; [done| | | |].
  - intros e He. by apply exec_ok.
  - intros mem_ok t cat i n v len [Ht|Hc]; [by destruct t|]. by destruct t, cat.
  - intros i data len x st o Hi Hx Ho Hm. cbn [exec]. by rewrite (short_method_fault inst S i x st o data len w Hi Hx Ho Hm).
  - destruct (close_streams_ok app_ok world_ok (size (streams S)) inst S (user_data S) w Hs HS Hw (Nat.le_refl _)) as (S' & w' & E & H').
    exists S', w'. by destruct S.
Qed.

(** ** Services bound to paths *)

Section Bind.
  Context {App Svc World : Type}.
  Local Notation instance := (h2esq_instance_t App Svc World).
  Local Notation binding := (list Z * (service_class App Svc World * Svc))%type.
  Implicit Types (inst : instance) (bs : list binding).

Definition bound_item (i : nat) (b : binding) : hmt_item_t := Item b.1 (Z.of_nat i) true.

(** The instance has the services [bs], in the order they were bound. *)
Record bound inst bs : Prop := {
  bo_slots : service inst = (Some ∘ snd <$> bs) ++ replicate (H2ESQ_INSTANCE_SERVICE_MAX - length bs) None;
  bo_max : (length bs <= H2ESQ_INSTANCE_SERVICE_MAX)%nat;
  bo_tree : ∃ pt, path_hmt inst = Some pt ∧ wf pt ∧ HeadMatch.max pt = 100 ∧ pattern_len_max pt = 32 ∧
    items pt ≡ₚ imap bound_item bs ∧
    ∀ s, cstring s → ∃ r, hmt_match pt s = Ret r ∧ longest_match (items pt) s r
}.

Lemma free_slot_app bs n : free_slot ((Some ∘ snd <$> bs) ++ replicate n None) = match n with O => None | S _ => Some (length bs) end.
Proof.
  induction bs as [|b bs IH]; [by destruct n|].
  change (free_slot ((Some ∘ snd <$> b :: bs) ++ replicate n None)) with (S <$> free_slot ((Some ∘ snd <$> bs) ++ replicate n None)).
  rewrite IH. by destruct n.
Qed.

Lemma bound_paths bs : pattern <$> imap bound_item bs = bs.*1.
Proof.
  apply list_eq. intros i. rewrite !list_lookup_fmap, list_lookup_imap. by destruct (bs !! i).
Qed.

Lemma bound_new name pt : hmt_new2 true 100 HMT_SCALE_32 = Some pt →
  bound (Instance_ _ _ _ name (Some pt) (replicate H2ESQ_INSTANCE_SERVICE_MAX None)) [].
Proof.
  intros E. split; [done|simpl; lia|]. exists pt. cbn [path_hmt]. split_and!; [done|by eapply hmt_new2_wf|..]; injection E as <-; try done.
  intros s _. exists None. split; [done|]. intros it Hit. by apply not_elem_of_nil in Hit.
Qed.

Lemma bind_service_ok inst bs p c ctx : bound inst bs → Forall (fun b => 0 < b < 128) p →
  if decide (length bs = H2ESQ_INSTANCE_SERVICE_MAX ∨ p = [] ∨ 32 <= Z.of_nat (length p) ∨ p ∈ bs.*1)
  then bind_service true (fun _ => true) inst p c ctx = Ret (ESQ_ERROR_LIBCALL, inst)
  else ∃ inst', bind_service true (fun _ => true) inst p c ctx = Ret (0, inst') ∧ bound inst' (bs ++ [(p, (c, ctx))]).
Proof.
  intros [Hsl Hm (pt & Hpt & Hwf & Hmax & Hlen & Hits & Hmatch)] Hp. unfold bind_service. rewrite Hsl, free_slot_app, <- Hsl.
  unfold H2ESQ_INSTANCE_SERVICE_MAX in *.
  destruct (16 - length bs)%nat as [|n] eqn:En; [rewrite decide_True by (left; lia); done|].
  rewrite Hpt. cbn [deref mbind cres_bind]. pose proof (add2_cases pt p (Z.of_nat (length bs)) Hwf Hp) as H.
  assert (Hsame : Instance_ App Svc World (i_name inst) (Some pt) (service inst) = inst) by (rewrite <- Hpt; by destruct inst).
  assert (Hmem : p ∈ pattern <$> items pt ↔ p ∈ bs.*1) by (by rewrite Hits, bound_paths).
  rewrite Hlen, Hmax in H. assert (Hc : cnt pt < 100) by (unfold cnt; rewrite Hits, length_imap; lia).
  destruct (decide (p = [] ∨ 32 <= Z.of_nat (length p))) as [Hb|Hb].
  { rewrite H. cbn [negb]. simpl (-2 =? 0). cbn [negb]. rewrite Hsame, decide_True by tauto. done. }
  rewrite decide_False in H by lia. destruct (decide (p ∈ pattern <$> items pt)) as [Hin|Hin].
  { rewrite H. simpl (-3 =? 0). cbn [negb]. rewrite Hsame, decide_True by tauto. done. }
  destruct H as (pt1 & Eadd & Hwf1 & Hits1). destruct (add2_fields _ _ _ _ _ _ Eadd) as [Hmax1 Hlen1]. rewrite Eadd. simpl (0 =? 0). cbn [negb].
  assert (Hne : items pt1 ≠ []) by (intros E; rewrite E in Hits1; by apply Permutation_nil_cons in Hits1).
  destruct (compile_match_ok (fun _ => true) pt1 Hwf1 Hne (fun _ => eq_refl)) as (pt2 & -> & Hits2 & (Hwf2 & Hmax2 & Hlen2) & Hm2). cbn [mbind cres_bind service i_name].
  simpl (0 =? 0). cbn [negb]. rewrite wr_nat by (rewrite Hsl, length_app, length_fmap, length_replicate; lia). cbn [mbind cres_bind].
  rewrite decide_False by (intros [?|[?|[?|?]]]; [lia|tauto..]). eexists. split; [reflexivity|].
  split; cbn [service path_hmt].
  - rewrite Hsl. simpl replicate. rewrite fmap_app, length_app. simpl.
    rewrite insert_after by (by rewrite length_fmap). rewrite <- app_assoc. simpl. unfold H2ESQ_INSTANCE_SERVICE_MAX. do 3 f_equal. lia.
  - rewrite length_app. unfold H2ESQ_INSTANCE_SERVICE_MAX. simpl. lia.
  - exists pt2. split_and!; try done.
    + congruence.
    + congruence.
    + rewrite Hits2, Hits1, Hits, imap_app. simpl. unfold bound_item at 3. cbn [fst]. rewrite Nat.add_0_r. apply Permutation_cons_append.
    + by rewrite Hits2.
Qed.

(** Which service a path is for. *)
Definition longest_bound bs (s : list Z) (r : option (nat * Z)) : Prop :=
  match r with
  | None => ∀ b, b ∈ bs → ¬ b.1 `prefix_of` s
  | Some (k, m) => ∃ b, bs !! k = Some b ∧ b.1 `prefix_of` s ∧ m = Z.of_nat (length b.1) ∧
      ∀ b', b' ∈ bs → b'.1 `prefix_of` s → (length b'.1 <= length b.1)%nat
  end.

Lemma longest_bound_match bs its s r : its ≡ₚ imap bound_item bs → longest_match its s r →
  longest_bound bs s match r with Some (u, m) => Some (Z.to_nat u, m) | None => None end.
Proof.
  intros Hits H. assert (Hin : ∀ b, b ∈ bs → ∃ it, it ∈ its ∧ pattern it = b.1).
  { intros b [k Hk]%list_elem_of_lookup. exists (bound_item k b). split; [|done]. rewrite Hits. apply list_elem_of_lookup. exists k.
    by rewrite list_lookup_imap, Hk. }
  destruct r as [[u m]|]; simpl in *.
  - destruct H as (it & Hit & Hpre & -> & -> & Hlong). rewrite Hits in Hit. apply list_elem_of_lookup in Hit as [k Hk].
    rewrite list_lookup_imap in Hk. destruct (bs !! k) as [b|] eqn:E; [|done]. injection Hk as <-. exists b. cbn [userdata bound_item].
    rewrite Nat2Z.id. split_and!; try done. intros b' Hb' Hp'. destruct (Hin b' Hb') as (it' & Hit' & Ep). rewrite <- Ep in *. by apply Hlong.
  - intros b Hb Hp. destruct (Hin b Hb) as (it & Hit & Ep). apply (H it Hit). by rewrite Ep.
Qed.

Lemma find_service_ok inst bs s tl : bound inst bs → cstring s →
  ∃ r, h2esq_instance_find_service inst (s ++ 0 :: tl) = Ret r ∧ longest_bound bs s r.
Proof.
  intros [_ _ (pt & Hpt & _ & _ & _ & Hits & Hm)] Hs. unfold h2esq_instance_find_service. rewrite Hpt. cbn [deref mbind cres_bind].
  rewrite chars_app by done. cbn [mbind cres_bind]. destruct (Hm s Hs) as (r & -> & Hr). cbn [mbind cres_bind].
  eexists. split; [reflexivity|]. by apply (longest_bound_match bs (items pt)).
Qed.

(** A bound instance can serve connections if its services keep their promises. *)
Lemma bound_services_ok (app_ok : Svc → App → Prop) (world_ok : World → Prop) inst bs : bound inst bs →
  (∀ k p c ctx, bs !! k = Some (p, (c, ctx)) → ServiceLaws app_ok world_ok c ctx) → services_ok app_ok world_ok inst.
Proof.
  intros [Hsl _ (pt & Hpt & _ & _ & _ & Hits & Hm)] Hlaws.
  assert (Hlk : ∀ k c ctx, service inst !! k = Some (Some (c, ctx)) ↔ ∃ p, bs !! k = Some (p, (c, ctx))).
  { intros k c ctx. rewrite Hsl. destruct (decide (k < length bs)%nat) as [Hk|Hk].
    - rewrite lookup_app_l by (by rewrite length_fmap). rewrite list_lookup_fmap. destruct (bs !! k) as [[p [c' ctx']]|]; simpl; split; naive_solver.
    - rewrite lookup_app_r by (rewrite length_fmap; lia). split.
      + intros H. by apply lookup_replicate in H as [? _].
      + intros (p & H). apply lookup_lt_Some in H. lia. }
  split; [intros k c ctx (p & Hk)%Hlk; by eapply Hlaws|].
  exists pt. split; [done|]. intros s Hs. destruct (Hm s Hs) as (r & E & Hr). exists r. split; [done|]. intros u m ->.
  pose proof (longest_bound_match bs (items pt) s _ Hits Hr) as (b & Hb & Hpre & -> & _). destruct b as [p [c ctx]].
  destruct Hr as (it & Hit & _ & -> & _). rewrite Hits in Hit. apply list_elem_of_lookup in Hit as [k Hk].
  rewrite list_lookup_imap in Hk. destruct (bs !! k) as [b|]; [|done]. injection Hk as <-. cbn [userdata bound_item] in *. split_and!; [lia|lia| |].
  - apply prefix_length in Hpre. lia.
  - exists c, ctx. apply Hlk. by exists p.
Qed.
End Bind.

(** An instance answers a path with the service bound to the longest prefix of it and with
    the length of that prefix, and says so when there is none.  Binding a service succeeds
    exactly when there is one of the sixteen places left and the path has 1 to 31 characters
    and is not bound; otherwise it is refused and the instance is as before.  (There is memory,
    and paths are ASCII.) *)
Theorem h2esq_instance_bind_service_correct {App Svc World : Type} (inst : h2esq_instance_t App Svc World) bs p c ctx :
  bound inst bs → Forall (fun b => 0 < b < 128) p →
  (∀ s tl, cstring s → ∃ r, h2esq_instance_find_service inst (s ++ 0 :: tl) = Ret r ∧ longest_bound bs s r) ∧
  if decide (length bs = H2ESQ_INSTANCE_SERVICE_MAX ∨ p = [] ∨ 32 <= Z.of_nat (length p) ∨ p ∈ bs.*1)
  then bind_service true (fun _ => true) inst p c ctx = Ret (ESQ_ERROR_LIBCALL, inst)
  else ∃ inst', bind_service true (fun _ => true) inst p c ctx = Ret (0, inst') ∧ bound inst' (bs ++ [(p, (c, ctx))]).
Proof. intros Hb Hp. split; [intros s tl Hs; by apply find_service_ok|by apply bind_service_ok]. Qed.

(** ** An example *)

(** A service that remembers that it was called. *)
Module HelloDemo.
Definition hello : service_class unit unit unit := ServiceClass _ _ _
  (fun _ st w => Ret (0, set_app (Some tt) st, w))
  (fun st w => Ret (set_app None st, w))
  (fun _ st _ _ w => Ret (0, set_app (Some tt) st, w)).

#[export] Instance hello_laws : ServiceLaws (fun _ _ => True) (fun _ => True) hello tt.
Proof.
  assert (Hr : ∀ st : h2esq_stream_t unit, ready (fun _ _ => True) tt st → ready (fun _ _ => True) tt (set_app (Some tt) st)).
  { intros st [[? ? ? ?] ? _]. by split. }
  assert (Hk : ∀ st : h2esq_stream_t unit, kept st (set_app (Some tt) st)).
  { intros st. exists (Some tt), (header_strs st). by destruct st. }
  split.
  - intros st w H _. eexists _, _, _. by split_and!; [reflexivity|apply Hk|apply Hr|].
  - intros st data len w H _ _ _ _. eexists _, _, _. by split_and!; [reflexivity|apply Hk|apply Hr|].
  - intros st w _ _. by eexists.
Qed.

Definition tree0 : hmt_t := match hmt_new2 true 100 HMT_SCALE_32 with Some pt => pt | None => demo_tree end.
Definition inst0 : h2esq_instance_t unit unit unit := Instance_ _ _ _ (text "a" ++ [0]) (Some tree0) (replicate H2ESQ_INSTANCE_SERVICE_MAX None).
Definition bind_to (inst : h2esq_instance_t unit unit unit) (p : list Z) : h2esq_instance_t unit unit unit :=
  (ret_of (bind_service true (fun _ => true) inst p hello tt) (0, inst)).2.
Definition inst1 : h2esq_instance_t unit unit unit := bind_to inst0 (text "/").
Definition inst2 : h2esq_instance_t unit unit unit := bind_to inst1 (text "/f/").

Lemma bind_to_ok inst bs p : bound inst bs → forallb (fun b => (0 <? b) && (b <? 128)) p = true →
  bool_decide (length bs = H2ESQ_INSTANCE_SERVICE_MAX ∨ p = [] ∨ 32 <= Z.of_nat (length p) ∨ p ∈ bs.*1) = false →
  bound (bind_to inst p) (bs ++ [(p, (hello, tt))]).
Proof.
  intros Hb Hp Hd. apply bool_decide_eq_false in Hd. pose proof (bind_service_ok inst bs p hello tt Hb) as H. rewrite decide_False in H by done.
  destruct H as (inst' & E & Hb').
  { apply Forall_forall. intros x Hx. rewrite forallb_forall in Hp. apply list_elem_of_In in Hx. apply Hp in Hx. lia. }
  unfold bind_to. by rewrite E.
Qed.

Lemma bound2 : bound inst2 [(text "/", (hello, tt)); (text "/f/", (hello, tt))].
Proof.
  apply (bind_to_ok inst1 [(text "/", (hello, tt))]); [|reflexivity|vm_compute; reflexivity].
  apply (bind_to_ok inst0 []); [|reflexivity|vm_compute; reflexivity]. by apply bound_new.
Qed.

Lemma demo_services_ok : services_ok (fun _ _ => True) (fun _ => True) inst2.
Proof.
  apply (bound_services_ok _ _ _ _ bound2). intros [|[|k]] p c ctx Hk; simpl in Hk; [injection Hk as _ <- <-; apply hello_laws..|done].
Qed.

(** A request for [/f/a]. *)
Definition run (S : h2esq_session_t unit) (e : event) : h2esq_session_t unit := (ret_of (exec inst2 S tt e) (S, tt)).1.
Definition s0 : h2esq_session_t unit := Session _ ∅ ∅ dlist_empty.
Definition e1 : event := EvBegin true NGHTTP2_HEADERS NGHTTP2_HCAT_REQUEST 1.
Definition e2 : event := EvHeader true NGHTTP2_HEADERS NGHTTP2_HCAT_REQUEST 1 (text ":path" ++ [0]) (text "/f/a" ++ [0]) 4.
Definition e3 : event := EvFrame NGHTTP2_HEADERS true 1.
Definition s3 : h2esq_session_t unit := run (run (run s0 e1) e2) e3.

Lemma reach_demo : reach (fun _ => True) inst2 s3 tt.
Proof.
  assert (H1 : reach (fun _ => True) inst2 (run s0 e1) tt).
  { apply (reach_step _ _ s0 tt e1); [by apply reach_new|done|vm_compute; reflexivity]. }
  assert (H2 : reach (fun _ => True) inst2 (run (run s0 e1) e2) tt).
  { apply (reach_step _ _ (run s0 e1) tt e2); [done| |vm_compute; reflexivity].
    split_and!; try done; [by eexists _, _|]. exists (text "/f/a"). split_and!; [done|by apply FolderDemo.cstring_test| |].
    - intros n v E. assert (Hin : 61 ∈ text "/f/a") by (rewrite E; set_solver). exfalso. revert Hin. apply (bool_decide_unpack _). vm_compute. exact I.
    - intros x st Hx. assert (E : streams (run s0 e1) = {[1%positive := ret_of (deref (streams (run s0 e1) !! 1%positive)) st]})
        by (vm_compute; reflexivity).
      rewrite E in Hx. apply lookup_singleton_Some in Hx as [_ <-]. vm_compute. reflexivity. }
  apply (reach_step _ _ (run (run s0 e1) e2) tt e3); [done|done|vm_compute; reflexivity].
Qed.
End HelloDemo.

Lemma h2esq_streams_safe_witness :
  session_ok (fun _ _ => True) HelloDemo.inst2 HelloDemo.s3 ∧
  ∃ S' w', close_streams (size (streams HelloDemo.s3)) HelloDemo.inst2 HelloDemo.s3 tt = Ret (S', w') ∧ streams S' = ∅.
Proof.
  destruct (h2esq_streams_safe (fun _ _ => True) (fun _ => True) HelloDemo.inst2 HelloDemo.s3 tt HelloDemo.demo_services_ok HelloDemo.reach_demo)
    as (H1 & _ & _ & _ & S' & w' & E & _ & H2).
  split; [exact H1|]. exists S', w'. split; [exact E|exact H2].
Defined.

Lemma h2esq_instance_bind_service_correct_witness :
  ∃ r, h2esq_instance_find_service HelloDemo.inst2 (text "/f/a" ++ 0 :: []) = Ret r ∧
    longest_bound [(text "/", (HelloDemo.hello, tt)); (text "/f/", (HelloDemo.hello, tt))] (text "/f/a") r.
Proof.
  apply (proj1 (h2esq_instance_bind_service_correct HelloDemo.inst2 _ (text "/g") HelloDemo.hello tt HelloDemo.bound2
    ltac:(repeat constructor; lia))).
  repeat constructor; lia.
Defined.

Example find_service_demo :
  h2esq_instance_find_service HelloDemo.inst2 (text "/f/a" ++ [0]) = Ret (Some (1%nat, 3)) ∧
  h2esq_instance_find_service HelloDemo.inst2 (text "/e" ++ [0]) = Ret (Some (0%nat, 1)) ∧
  h2esq_instance_find_service HelloDemo.inst2 (text "x" ++ [0]) = Ret None.
Proof. vm_compute. by split_and!. Qed.

(** Memory runs out while the tables of the paths are built: the call fails, but its path
    stays.  Until the next service is bound no path leads to any service; then the path of
    the failed call leads to the new service, which took the place. *)
Theorem failed_bind_misroutes :
  let failed := ret_of (bind_service true (fun _ => false) HelloDemo.inst1 (text "/f/") HelloDemo.hello tt) (0, HelloDemo.inst1) in
  let next := HelloDemo.bind_to failed.2 (text "/g/") in
  failed.1 = ESQ_ERROR_LIBCALL ∧
  h2esq_instance_find_service HelloDemo.inst1 (text "/x" ++ [0]) = Ret (Some (0%nat, 1)) ∧
  h2esq_instance_find_service failed.2 (text "/x" ++ [0]) = Ret None ∧
  h2esq_instance_find_service next (text "/g/x" ++ [0]) = Ret (Some (1%nat, 3)) ∧
  h2esq_instance_find_service next (text "/f/x" ++ [0]) = Ret (Some (1%nat, 3)).
Proof. vm_compute. by split_and!. Qed.

(** A place of the list of instances that is not in use has the empty name: binding a service
    to the instance with the empty name uses a null pointer. *)
Theorem bind_to_empty_name :
  h2esq_instance_bind_service true (fun _ => true)
    [HelloDemo.inst2; Instance_ _ _ _ (replicate 64 0) None (replicate H2ESQ_INSTANCE_SERVICE_MAX None)]
    [] (text "/g/") HelloDemo.hello tt = Fault.
Proof. vm_compute. reflexivity. Qed.
