(* ===== verification/Sfs.v ===== *)
(** * The file service

    [modules/simple-file-service]: a request for a path below the one the service is bound
    to is answered with a file or with the page of a folder below [local_path_head]
    ([handler.c], [file.c], [folder.c]); a form that is posted may upload one file
    ([post-parser.c]).

    The kernel, the memory and the HTTP library answer as [Kernel] says, whose answers may
    depend on all calls before, the list of [call]s.  What [malloc] returns holds arbitrary
    bytes. *)
From stdpp Require Import strings.
From S2P Require Import Prelude CString CText PostData HeadMatch SfsFolder H2Stream.
Import EscapePercent Slash SafePath.

(** "index.html". *)
Definition SFS_DEFAULT_PAGE : list Z := text "index.html".

Inductive file_mode := S_IFDIR | S_IFREG | S_IFOTHER.

Inductive call :=
| CNew | CMalloc (n : Z) | CLstat (p : list Z) | COpen (p : list Z) | CCreate (p : list Z) | COpendir (p : list Z)
| CWrite (fd : Z) (b : list Z) | CClose (fd : Z) | CClosedir | CSubmit.

Class Kernel := {
  k_new : list call → bool;
  k_malloc : list call → Z → option (list Z);
  k_lstat : list call → list Z → option file_mode;
  k_open : list call → list Z → Z;
  k_create : list call → list Z → Z;
  k_opendir : list call → list Z → option DIR;
  k_write : list call → Z → list Z → Z;
  k_submit : list call → Z
}.

Class KernelLaws `{Kernel} : Prop := {
  malloc_size w n b : k_malloc w n = Some b → Z.of_nat (length b) = n;
  malloc_bytes w n b : k_malloc w n = Some b → Forall is_byte b
}.

Section Service.
  Context `{Kernel}.
  Local Notation stream := (h2esq_stream_t sfs_stream_ctx_t).
  Implicit Types (s : sfs_service_ctx_t) (st : stream) (c : sfs_stream_ctx_t) (w : list call).

Definition set_file (d : Z) (p : list Z) s c : sfs_stream_ctx_t :=
  Stream d (dir c) (dir_output_stat c) (Some p) (ent c) (Some s) (item_idx c) (post_fd c) (post_state c) (post_parser_ctx c) (post_len c).
Definition set_folder_service s c : sfs_stream_ctx_t :=
  Stream (fd c) (dir c) (dir_output_stat c) (path c) (ent c) (Some s) (item_idx c) (post_fd c) (post_state c) (post_parser_ctx c) (post_len c).
Definition set_post (d : Z) (p : post_state_t) (l : Z) c : sfs_stream_ctx_t :=
  Stream (fd c) (dir c) (dir_output_stat c) (path c) (ent c) (service_ctx c) (item_idx c) d p (post_parser_ctx c) l.
Definition set_parser (p : post_data_ctx_t) c : sfs_stream_ctx_t :=
  Stream (fd c) (dir c) (dir_output_stat c) (path c) (ent c) (service_ctx c) (item_idx c) (post_fd c) (post_state c) p (post_len c).

(** The context of the stream, or a new one that is recorded. *)
Definition stream_ctx st w : option sfs_stream_ctx_t * stream * list call :=
  match h2esq_stream_get_app_ctx st with
  | Some c => (Some c, st, w)
  | None =>
      match sfs_new_ctx (k_new w) with
      | None => (None, st, w ++ [CNew])
      | Some c => (Some c, (h2esq_stream_set_app_ctx st c).2, w ++ [CNew])
      end
  end.

(** ** Files and folders *)

Definition NGHTTP2_ERR_TEMPORAL_CALLBACK_FAILURE : Z := -521.

(** [r] is what [read] returned; the answer, and whether the file is at its end. *)
Definition sfs_read_local_file_cb (r : Z) : Z * bool :=
  if 0 =? r then (r, true) else if r <? 0 then (NGHTTP2_ERR_TEMPORAL_CALLBACK_FAILURE, false) else (r, false).

(** The library asks for the rest [l] of a file with room for [n] bytes at a time, of which
    [read] gives [give l n]; the bytes that are sent, and whether the end was. *)
Fixpoint serve_file (give : list Z → nat → Z) (rooms : list nat) (l : list Z) : bool * list (list Z) :=
  match rooms with
  | [] => (false, [])
  | n :: rooms =>
      let '(r, eof) := sfs_read_local_file_cb (give l n) in
      if eof then (true, []) else
      if r <? 0 then (false, []) else
      let '(e, out) := serve_file give rooms (drop (Z.to_nat r) l) in (e, take (Z.to_nat r) l :: out)
  end.

(** [p] is the buffer of the path. *)
Definition sfs_file s (p : list Z) st w : cres (Z * stream * list call) :=
  let '(o, st, w) := stream_ctx st w in
  match o with
  | None => Ret (NGHTTP2_ERR_CALLBACK_FAILURE, st, w)
  | Some c =>
      name ← c_chars p;
      let '(d, w) := if -1 =? fd c then (k_open w name, w ++ [COpen name]) else (-1, w) in
      if -1 =? d then Ret (NGHTTP2_ERR_CALLBACK_FAILURE, h2esq_stream_clear_app_ctx st, w)
      else
        let st := set_app (Some (set_file d p s c)) st in
        let r := k_submit w in
        let w := w ++ [CSubmit] in
        if negb (r =? 0) then Ret (NGHTTP2_ERR_CALLBACK_FAILURE, h2esq_stream_clear_app_ctx st, w ++ [CClose d])
        else Ret (0, st, w)
  end.

Definition sfs_folder s (p : list Z) st w : cres (Z * stream * list call) :=
  if Z.land SFS_FLAGS_ALLOW_BROWSE (flags s) =? 0 then Ret (NGHTTP2_ERR_CALLBACK_FAILURE, st, w) else
  let '(o, st, w) := stream_ctx st w in
  match o with
  | None => Ret (NGHTTP2_ERR_CALLBACK_FAILURE, st, w)
  | Some c =>
      name ← c_chars p;
      let d := k_opendir w name in
      let w := w ++ [COpendir name] in
      let c := set_dir d c in
      match d with
      | None => Ret (NGHTTP2_ERR_CALLBACK_FAILURE, set_app (Some c) st, w)
      | Some _ =>
          let c := set_folder_service s c in
          let r := k_submit w in
          let w := w ++ [CSubmit] in
          if negb (r =? 0) then Ret (NGHTTP2_ERR_CALLBACK_FAILURE, h2esq_stream_clear_app_ctx st, w ++ [CClosedir])
          else Ret (0, set_app (Some (set_path (Some p) c)) st, w)
      end
  end.

(** ** Requests *)

(** The path of the request is rewritten in place. *)
Definition put_path st (p : list Z) : cres stream :=
  hs ← wr (header_strs st) H2ESQ_HEADER_PATH (Some p); Ret (set_header_strs hs st).

(** The path below the service, decoded: its length, and the path with a zero behind it. *)
Definition decode_path st : cres (option (Z * list Z) * stream) :=
  let m := path_matched_length st in
  '(p, path_len) ← h2esq_stream_get_header st H2ESQ_HEADER_PATH;
  p ← deref p;
  q ← at_off p m;
  '(r, q) ← escape_percent_in_place q (path_len - m);
  let p := take (Z.to_nat m) p ++ q in
  st ← put_path st p;
  if r <? 0 then Ret (None, st) else
  p ← wr p (m + r) 0;
  st ← put_path st p;
  q ← at_off p m;
  Ret (Some (r, q), st).

(** The path in the file system, in a buffer with room for the name of the index page. *)
Definition full_path s (b q : list Z) (len : Z) : cres (list Z) :=
  let hl := local_path_head_len s in
  b ← c_memcpy b 0 (local_path_head s) hl;
  b ← c_memcpy b hl q len;
  b ← wr b (len + hl) 0;
  t ← at_off b hl;
  '(_, t) ← remove_redundancy_slash t;
  Ret (take (Z.to_nat hl) b ++ t).

(** A folder: its index page, if it is asked for and there, or its list. *)
Definition send_folder s (b : list Z) (full_path_len : Z) st w : cres (Z * stream * list call) :=
  if Z.land SFS_FLAGS_SEND_INDEX_HTML (flags s) =? 0 then sfs_folder s b st w else
  b ← c_memcpy b full_path_len (SFS_DEFAULT_PAGE ++ [0]) (sizeof SFS_DEFAULT_PAGE);
  name ← c_chars b;
  let m := k_lstat w name in
  let w := w ++ [CLstat name] in
  match m with
  | None => b ← wr b full_path_len 0; sfs_folder s b st w
  | Some S_IFREG => sfs_file s b st w
  | Some _ => sfs_folder s b st w
  end.

Definition sfs_handler s st w : cres (Z * stream * list call) :=
  '(o, st) ← decode_path st;
  match o with
  | None => Ret (NGHTTP2_ERR_CALLBACK_FAILURE, st, w)
  | Some (len, q) =>
      safe ← path_is_very_safe q;
      if safe =? 0 then Ret (NGHTTP2_ERR_CALLBACK_FAILURE, st, w) else
      '(method, _) ← h2esq_stream_get_header st H2ESQ_HEADER_METHOD;
      match method with
      | None => Ret (NGHTTP2_ERR_CALLBACK_FAILURE, st, w)
      | Some _ =>
          let full_path_len := len + local_path_head_len s in
          let n := full_path_len + 1 + sizeof SFS_DEFAULT_PAGE in
          let o := k_malloc w n in
          let w := w ++ [CMalloc n] in
          match o with
          | None => Ret (NGHTTP2_ERR_CALLBACK_FAILURE, st, w)
          | Some b =>
              b ← full_path s b q len;
              name ← c_chars b;
              let m := k_lstat w name in
              let w := w ++ [CLstat name] in
              match m with
              | Some S_IFDIR => send_folder s b full_path_len st w
              | Some S_IFREG => sfs_file s b st w
              | _ => Ret (NGHTTP2_ERR_CALLBACK_FAILURE, st, w)
              end
          end
      end
  end.

Definition sfs_on_stream_close st w : cres (stream * list call) :=
  match h2esq_stream_get_app_ctx st with
  | None => Ret (st, w)
  | Some c =>
      let st := h2esq_stream_clear_app_ctx st in
      let w := if negb (-1 =? fd c) then w ++ [CClose (fd c)] else w in
      let w := match dir c with Some _ => w ++ [CClosedir] | None => w end in
      let w := if negb (-1 =? post_fd c) then w ++ [CClose (post_fd c)] else w in
      Ret (st, w)
  end.

(** ** Uploads *)

Definition sfs_open_post_file s st c w (buf : list Z) (len : Z) : cres (Z * sfs_stream_ctx_t * list call) :=
  if len =? 0 then Ret (0, c, w) else
  r ← find_last_slash2 buf len;
  '(basename, basename_len) ← (if -1 =? r then Ret (buf, len) else b ← at_off buf (r + 1); Ret (b, len - r - 1));
  '(p, path_len) ← h2esq_stream_get_header st H2ESQ_HEADER_PATH;
  p ← deref p;
  local_path ← at_off p (path_matched_length st);
  let local_path_len := path_len - path_matched_length st in
  let hl := local_path_head_len s in
  let full_path_len := hl + local_path_len + len + 1 in
  let o := k_malloc w (full_path_len + 1) in
  let w := w ++ [CMalloc (full_path_len + 1)] in
  match o with
  | None => Ret (-1, c, w)
  | Some b =>
      b ← c_memcpy b 0 (local_path_head s) hl;
      b ← c_memcpy b hl local_path local_path_len;
      b ← wr b (hl + local_path_len) 47;
      b ← c_memcpy b (hl + local_path_len + 1) basename basename_len;
      b ← wr b full_path_len 0;
      t ← at_off b (hl + local_path_len + 1);
      safe ← path_is_very_safe t;
      if safe =? 0 then Ret (-1, c, w) else
      '(_, b) ← remove_redundancy_slash b;
      name ← c_chars b;
      let d := k_create w name in
      let w := w ++ [CCreate name] in
      if -1 =? d then Ret (-1, c, w) else Ret (0, set_post d (post_state c) (post_len c) c, w)
  end.

(** The loop of [sfs_write_post_file]: whether all was written. *)
Fixpoint write_loop (fuel : nat) (d : Z) (buf : list Z) (len wr : Z) w : cres (bool * list call) :=
  match fuel with
  | O => NoFuel
  | S fuel =>
      if wr <? len then
        b ← slice buf wr (len - wr);
        let r := k_write w d b in
        let w := w ++ [CWrite d (take (Z.to_nat r) b)] in
        if r <=? 0 then Ret (false, w) else write_loop fuel d buf len (wr + r) w
      else Ret (true, w)
  end.

Definition sfs_write_post_file c w (buf : list Z) (len : Z) : cres (Z * sfs_stream_ctx_t * list call) :=
  if post_fd c <=? 0 then Ret (-1, c, w) else
  '(ok, w) ← write_loop (S (Z.to_nat len)) (post_fd c) buf len 0 w;
  if ok : bool then Ret (0, set_post (post_fd c) (post_state c) (i32 (post_len c + len)) c, w) else Ret (-1, c, w).

(** [__exx]. *)
Definition post_failed c w : cres (Z * sfs_stream_ctx_t * list call) :=
  Ret (-1, set_post (-1) STATE_ERROR (post_len c) c, w ++ [CClose (post_fd c)]).

Definition post_value c w (buf : list Z) (len : Z) : cres (Z * sfs_stream_ctx_t * list call) :=
  '(r, c, w) ← sfs_write_post_file c w buf len;
  if negb (r =? 0) then post_failed c w else Ret (0, set_post (post_fd c) STATE_RECV (post_len c) c, w).

(** An element of the form, after the file name was dealt with. *)
Definition post_element c w (et : Z) (buf : list Z) (len : Z) : cres (Z * sfs_stream_ctx_t * list call) :=
  if POST_ET_VALUE =? et then
    match post_state c with
    | STATE_OPEN | STATE_RECV => post_value c w buf len
    | _ => Ret (0, c, w)
    end
  else if POST_ET_BOUNDARY =? et then
    match post_state c with
    | STATE_RECV => Ret (0, set_post (-1) STATE_FINISHED (post_len c) c, w ++ [CClose (post_fd c)])
    | _ => Ret (0, c, w)
    end
  else match post_state c with STATE_RECV => post_failed c w | _ => Ret (0, c, w) end.

Definition sfs_post_data_parser_cb s st c w (et : Z) (buf : list Z) (len : Z) : cres (Z * sfs_stream_ctx_t * list call) :=
  if Z.land SFS_FLAGS_ALLOW_UPLOAD (flags s) =? 0 then Ret (0, c, w) else
  match post_state c with
  | STATE_ERROR | STATE_FINISHED => Ret (-1, c, w)
  | _ =>
      if POST_ET_FILENAME =? et then
        match post_state c with
        | STATE_INIT =>
            '(r, c, w) ← sfs_open_post_file s st c w buf len;
            if negb (r =? 0) then Ret (-1, c, w)
            else post_element (set_post (post_fd c) STATE_OPEN (post_len c) c) w et buf len
        | _ => post_failed c w
        end
      else post_element c w et buf len
  end.

(** The callback as the parser sees it: what it keeps is the context and the calls, or that
    it did not return. *)
Definition post_cb s st (a : cres (sfs_stream_ctx_t * list call)) (et : Z) (v : list Z) : Z * cres (sfs_stream_ctx_t * list call) :=
  match a with
  | Ret (c, w) =>
      match sfs_post_data_parser_cb s st c w et v (Z.of_nat (length v)) with
      | Ret (r, c, w) => (r, Ret (c, w))
      | Fault => (-1, Fault)
      | Exit => (-1, Exit)
      | NoFuel => (-1, NoFuel)
      end
  | a => (-1, a)
  end.

Definition sfs_chunk_recv_cb s st (buf : list Z) (len : Z) w : cres (Z * stream * list call) :=
  let '(o, st, w) := stream_ctx st w in
  match o with
  | None => Ret (-1, st, w)
  | Some c =>
      '(r, a, p) ← post_data_parser (post_cb s st) buf len (post_parser_ctx c) (Ret (c, w));
      '(c, w) ← a;
      Ret (r, set_app (Some (set_parser p c)) st, w)
  end.

Definition sfs_service_class : service_class sfs_stream_ctx_t sfs_service_ctx_t (list call) :=
  ServiceClass _ _ _ sfs_handler sfs_on_stream_close sfs_chunk_recv_cb.
End Service.

(** ** Binding *)

(** The flags of a list of parameters, [None] for one that is not known. *)
Fixpoint service_flags (args : list (list Z)) (f : Z) : option Z :=
  match args with
  | [] => Some f
  | a :: args =>
      if name_is "AllowBrowse" a then service_flags args (Z.lor f SFS_FLAGS_ALLOW_BROWSE)
      else if name_is "AllowUpload" a then service_flags args (Z.lor f SFS_FLAGS_ALLOW_UPLOAD)
      else if name_is "AllowRemove" a then service_flags args (Z.lor f SFS_FLAGS_ALLOW_REMOVE)
      else if name_is "SendIndexHTML" a then service_flags args (Z.lor f SFS_FLAGS_SEND_INDEX_HTML)
      else None
  end.

Definition SFS_PATH_LEN_MAX : nat := 512.

(** The context of a service, [inl] for an error; both paths go into [string_buf]. *)
Definition new_service (mem_ok : bool) (path_head local_path_head : list Z) (f : Z) : cres (string + sfs_service_ctx_t) :=
  pl ← c_strnlen path_head SFS_PATH_LEN_MAX;
  if (pl <=? 0) || (Z.of_nat SFS_PATH_LEN_MAX <=? pl) then Ret (inl "invalid path head length"%string) else
  ll ← c_strnlen local_path_head SFS_PATH_LEN_MAX;
  if (ll <=? 0) || (Z.of_nat SFS_PATH_LEN_MAX <=? ll) then Ret (inl "invalid local path head length"%string) else
  if negb mem_ok then Ret (inl "out of memory"%string) else
  b ← c_memcpy (replicate (Z.to_nat (pl + 1 + ll + 1)) 0) 0 path_head (pl + 1);
  b ← c_memcpy b (pl + 1) local_path_head (ll + 1);
  l ← at_off b (pl + 1);
  Ret (inr (Service f pl ll b l)).

Definition sfs_bind_instance `{Kernel} (mem_ok add_ok : bool) (compile_ok : nat → bool)
    (insts : list (h2esq_instance_t sfs_stream_ctx_t sfs_service_ctx_t (list call)))
    (instance_name path_head local_path_head : list Z) (f : Z)
    : cres (option string * list (h2esq_instance_t sfs_stream_ctx_t sfs_service_ctx_t (list call))) :=
  o ← new_service mem_ok path_head local_path_head f;
  match o with
  | inl e => Ret (Some e, insts)
  | inr ctx =>
      p ← c_chars path_head;
      '(r, insts) ← h2esq_instance_bind_service add_ok compile_ok insts instance_name p sfs_service_class ctx;
      Ret (if negb (r =? 0) then Some "rejected by instance binder"%string else None, insts)
  end.
