(* ===== verification/SfsThms.v ===== *)
(** * What the file service does

    The service keeps its promise to a connection ([ServiceLaws]); a request looks only at
    paths below the folder of the service; a form that is posted stores its file. *)
From stdpp Require Import strings.
From S2P Require Import Prelude CString CText PostData HeadMatch Cookie SfsFolder H2Stream H2StreamThms Sfs.
Import EscapePercent Slash SafePath.

(** ** Paths that go down *)

(** No component is a dot or two dots. *)
Definition down (t : list Z) : Prop := Forall (fun v => v ≠ text "." ∧ v ≠ text "..") (comps is_sep [] t).

Lemma comps_no_backslash cur s : Forall (fun c => c ≠ 92) s → comps is_sep cur s = comps is_slash cur s.
Proof.
  intros Hs. revert cur. induction Hs as [|c s Hc Hs IH]; intros cur; [done|]. cbn [comps].
  assert (E : is_slash c = is_sep c) by (unfold is_slash, is_sep; lia). rewrite E, !IH. done.
Qed.

Lemma comps_byte cur s c : c ∈ s → c = 47 ∨ ∃ v, v ∈ comps is_sep cur s ∧ c ∈ v.
Proof.
  revert cur. induction s as [|x s IH]; intros cur Hc; [by apply not_elem_of_nil in Hc|]. cbn [comps].
  apply elem_of_cons in Hc as [->|Hc].
  - destruct (is_sep x) eqn:E; [left; unfold is_sep in E; lia|]. right.
    destruct (comps_open (x :: cur) s) as (w & rest & ->); [done|]. exists (rev (x :: cur) ++ w). split; [by left|].
    simpl. rewrite !elem_of_app. left. right. by left.
  - destruct (is_sep x); [|by apply IH]. destruct (IH [] Hc) as [?|(v & Hv & Hcv)]; [by left|]. right. exists v. split; [|done].
    destruct cur; [done|by right].
Qed.

Lemma name_ok_down v : name_ok v = true → v ≠ text "." ∧ v ≠ text "..".
Proof. unfold name_ok. rewrite !andb_true_iff, !bool_decide_eq_true. intros [[[_ H] _] _]. split; by intros ->. Qed.

Lemma safe_no_backslash u : safe_path u = true → Forall (fun c => c ≠ 92) u.
Proof.
  intros Hs. unfold safe_path in Hs. rewrite !andb_true_iff in Hs. destruct Hs as [[_ Hn] _]. apply Forall_forall. intros c Hc ->.
  destruct (comps_byte [] u 92 Hc) as [?|(v & Hv & Hcv)]; [done|]. rewrite forallb_forall in Hn. apply list_elem_of_In in Hv. apply Hn in Hv.
  unfold name_ok in Hv. rewrite !andb_true_iff in Hv. destruct Hv as [[[Hv _] _] _]. rewrite forallb_forall in Hv. apply list_elem_of_In in Hcv.
  by apply Hv in Hcv.
Qed.

Lemma squeeze_down u : safe_path u = true → down (squeeze false u).
Proof.
  intros Hs. pose proof (safe_no_backslash u Hs) as Hb. unfold down. destruct (squeeze_normal false u) as (Hq & _).
  rewrite comps_no_backslash by done. rewrite (proj1 (squeeze_comps u [])), <- comps_no_backslash by done.
  unfold safe_path in Hs. rewrite !andb_true_iff in Hs. destruct Hs as [[_ Hn] _]. rewrite forallb_forall in Hn.
  apply Forall_forall. intros v Hv. apply name_ok_down, Hn. by apply list_elem_of_In.
Qed.

Lemma comps_append cur t x v : Forall (fun c => is_sep c = false) x → x ≠ [] → v ∈ comps is_sep cur (t ++ x) →
  v ∈ comps is_sep cur t ∨ ∃ y, v = y ++ x.
Proof.
  intros Hx Hne. revert cur. induction t as [|c t IH]; intros cur Hv.
  - right. simpl in Hv. rewrite <- (app_nil_r x) in Hv at 1. rewrite comps_run in Hv by done. simpl in Hv.
    destruct (rev x ++ cur) as [|z l] eqn:E; [by apply not_elem_of_nil in Hv|]. apply list_elem_of_singleton in Hv. subst v. rewrite <- E, rev_app_distr, rev_involutive.
    by eexists.
  - cbn [comps app] in *. destruct (is_sep c); [|by apply IH]. destruct cur; [by apply IH|].
    apply elem_of_cons in Hv as [->|Hv]; [left; by left|]. destruct (IH [] Hv) as [?|?]; [left; by right|by right].
Qed.

Lemma index_down t : down t → down (t ++ SFS_DEFAULT_PAGE).
Proof.
  intros Ht. apply Forall_forall. intros v Hv. destruct (comps_append [] t SFS_DEFAULT_PAGE v) as [H|[y ->]]; try done.
  - by repeat constructor.
  - by apply (proj1 (Forall_forall _ _) Ht).
  - split; intros E; apply (f_equal length) in E; rewrite length_app in E; simpl in E; lia.
Qed.

Lemma squeeze_cstring a u : cstring u → cstring (squeeze a u).
Proof.
  intros Hu. revert a. induction Hu as [|c u Hc Hu IH]; intros a; [constructor|]. cbn [squeeze].
  destruct (is_slash c); [apply IH|]. destruct a; repeat (apply Forall_cons; split; [lia|]); apply IH.
Qed.

Lemma squeeze_length a u : (length (squeeze a u) <= length u + if a then 1 else 0)%nat.
Proof.
  revert a. induction u as [|c u IH]; intros a; [simpl; lia|]. cbn [squeeze]. pose proof (IH true). pose proof (IH false).
  destruct (is_slash c), a; simpl in *; lia.
Qed.

(** ** The path of a request *)

Lemma pct_decode_length n s d : (length s <= n)%nat → pct_decode s = Some d → (length d <= length s)%nat.
Proof.
  revert s d. induction n as [|n IH]; intros [|c s] d Hn; simpl in Hn; try lia; simpl; try by intros [= <-].
  destruct (c =? 37).
  - destruct s as [|x [|y s]]; try done. case_match; [done|]. destruct (pct_decode s) as [e|] eqn:E; [|done]. intros [= <-].
    simpl in *. pose proof (IH s e ltac:(lia) E). lia.
  - destruct (pct_decode s) as [e|] eqn:E; [|done]. intros [= <-]. simpl. pose proof (IH s e ltac:(lia) E). lia.
Qed.

Lemma last_insert_zero (b : list Z) k : last b = Some 0 → last (<[k := 0]> b) = Some 0.
Proof.
  rewrite !last_lookup, length_insert. intros Hl. destruct (decide (k = pred (length b))) as [->|Hne].
  - rewrite list_lookup_insert_eq; [done|]. by apply lookup_lt_Some in Hl.
  - by rewrite list_lookup_insert_ne.
Qed.

Lemma cstr_id s : cstring s → cstr s = s.
Proof. intros Hs. induction Hs as [|x s Hx Hs IH]; [done|]. cbn [cstr]. rewrite (proj2 (Z.eqb_neq _ _)) by lia. by rewrite IH. Qed.

Section Handler.
  Context `{Kernel} `{!KernelLaws}.
  Local Notation stream := (h2esq_stream_t sfs_stream_ctx_t).
  Implicit Types (s : sfs_service_ctx_t) (st : stream) (c : sfs_stream_ctx_t) (w : list call).

(** The folder [lp] of the service. *)
Definition service_ok s (lp : list Z) : Prop :=
  (∃ tl, local_path_head s = lp ++ 0 :: tl) ∧ local_path_head_len s = Z.of_nat (length lp) ∧ cstring lp.

Definition app_ok (s : sfs_service_ctx_t) (c : sfs_stream_ctx_t) : Prop := ctx_ok (post_parser_ctx c).

(** The stream with another path, for which it is ready as well. *)
Definition with_path st (p : list Z) : stream := set_header_strs (<[1%nat := Some p]> (header_strs st)) st.

Lemma put_path_ok s st l p p' : ready app_ok s st → header_strs st !! 1%nat = Some (Some p) → header_lens st !! 1%nat = Some l → header_ok l p' →
  put_path st p' = Ret (with_path st p') ∧ ready app_ok s (with_path st p').
Proof.
  intros [[H1 H2 H3 H4] (q & l' & Hq & Hl' & Hm) Ha] Hp Hl Hok. rewrite Hl in Hl'. injection Hl' as <-. unfold H2ESQ_HEADER_MAX in *. split.
  - unfold put_path. rewrite wr_Ret by (unfold H2ESQ_HEADER_PATH; lia). done.
  - split; [|exists p', l; unfold with_path; cbn [header_strs header_lens set_header_strs path_matched_length]; rewrite list_lookup_insert_eq by lia; done|done].
    split; unfold with_path; cbn [header_strs header_lens set_header_strs cookies_root]; rewrite ?length_insert; try done.
    intros i b l' Hb Hl'. destruct (decide (i = 1%nat)) as [->|Hne].
    + rewrite list_lookup_insert_eq in Hb by lia. injection Hb as <-. congruence.
    + rewrite list_lookup_insert_ne in Hb by done. by eapply H3.
Qed.

Lemma with_path_twice st p q : with_path (with_path st p) q = with_path st q.
Proof. unfold with_path. cbn [header_strs set_header_strs]. rewrite list_insert_insert_eq. by destruct st. Qed.

Lemma header_split l (p : list Z) : header_ok l p → ∃ p0, p = p0 ++ [0] ∧ Z.of_nat (length p0) = l ∧ Forall is_byte p0.
Proof.
  intros (Hl & Hb & Hz). destruct p as [|x p _] using rev_ind; [done|]. rewrite last_snoc in Hz. injection Hz as ->. exists p.
  rewrite length_app in Hl. simpl in Hl. apply Forall_app in Hb as [Hb _]. split_and!; [done|lia|done].
Qed.

(** The decoded path [d] is read back with a zero behind it. *)
Lemma decode_path_ok s st : ready app_ok s st →
  ∃ p0 l, header_strs st !! 1%nat = Some (Some (p0 ++ [0])) ∧ header_lens st !! 1%nat = Some l ∧ Z.of_nat (length p0) = l ∧
    ∃ o p', decode_path st = Ret (o, with_path st p') ∧ ready app_ok s (with_path st p') ∧
      match pct_decode (drop (Z.to_nat (path_matched_length st)) p0) with
      | None => o = None
      | Some d => ∃ tl, o = Some (Z.of_nat (length d), d ++ 0 :: tl) ∧ Forall is_byte (d ++ 0 :: tl)
      end.
Proof.
  intros Hr. pose proof Hr as [Hst (p & l & Hp & Hl & Hm) Ha]. set (m := path_matched_length st) in *.
  destruct (header_split l p (so_header st Hst _ _ _ Hp Hl)) as (p0 & -> & Hlen & Hb). exists p0, l. split_and!; try done.
  set (s' := drop (Z.to_nat m) p0). assert (Hs' : Z.of_nat (length s') = l - m) by (unfold s'; rewrite length_drop; lia).
  assert (Hbs : Forall is_byte s') by (by apply Forall_drop).
  assert (Hoff : at_off (p0 ++ [0]) m = Ret (s' ++ [0])).
  { unfold at_off. rewrite decide_True by (rewrite length_app; simpl; lia). by rewrite drop_app_le by lia. }
  unfold decode_path, h2esq_stream_get_header. rewrite (rd_nat _ 1 _ Hp : rd _ H2ESQ_HEADER_PATH = _). cbn [mbind cres_bind].
  rewrite (rd_nat _ 1 _ Hl : rd _ H2ESQ_HEADER_PATH = _). cbn [mbind cres_bind deref]. fold m. rewrite Hoff. cbn [mbind cres_bind].
  destruct (escape_percent_in_place_correct s' [0] Hbs) as (r & buf & Ee & Hlb & Hd). rewrite Hs' in Ee. rewrite Ee. cbn [mbind cres_bind].
  assert (Hbb : Forall is_byte buf ∧ last buf = Some 0).
  { assert (Hb0 : Forall is_byte (s' ++ [0])) by (apply Forall_app; split; [done|]; repeat constructor; unfold is_byte; lia).
    destruct (epip_keeps _ _ _ _ _ _ _ Ee ltac:(lia) Hb0) as [Hb1 Hk]. split; [done|].
    rewrite last_lookup, Hlb, length_app, Nat.add_1_r. simpl. rewrite Hk by lia. by apply lookup_after. }
  destruct Hbb as [Hbb Hlast]. set (p1 := take (Z.to_nat m) (p0 ++ [0]) ++ buf).
  assert (Hbt : Forall is_byte (take (Z.to_nat m) (p0 ++ [0]))).
  { apply Forall_take, Forall_app. split; [done|]. repeat constructor; unfold is_byte; lia. }
  assert (Hlt : length (take (Z.to_nat m) (p0 ++ [0])) = Z.to_nat m) by (rewrite length_take, length_app; simpl; lia).
  assert (Hp1 : header_ok l p1).
  { unfold p1. rewrite length_app in Hlb. simpl in Hlb. split_and!.
    - rewrite length_app, Hlt. lia.
    - by apply Forall_app.
    - rewrite last_app, Hlast. done. }
  destruct (put_path_ok s st l _ p1 Hr Hp Hl Hp1) as [-> Hr1]. cbn [mbind cres_bind].
  destruct (pct_decode s') as [d|] eqn:Ed.
  2:{ subst r. simpl (-1 <? 0). cbv iota. exists None, p1. by split_and!. }
  destruct Hd as [-> ->]. pose proof (pct_decode_length _ s' d (Nat.le_refl _) Ed) as Hdl.
  destruct (Z.ltb_spec (Z.of_nat (length d)) 0); [lia|].
  assert (Hp1l : Z.of_nat (length p1) = l + 1) by apply Hp1.
  rewrite wr_Ret by lia. cbn [mbind cres_bind]. set (p2 := <[Z.to_nat (m + Z.of_nat (length d)) := 0]> p1).
  assert (Hp2 : header_ok l p2).
  { destruct Hp1 as (A & B & C). split_and!; [by unfold p2; rewrite length_insert|apply Forall_insert; [done|unfold is_byte; lia]|by apply last_insert_zero]. }
  destruct (put_path_ok s (with_path st p1) l p1 p2 Hr1) as [-> Hr2]; try done.
  { unfold with_path. cbn [header_strs set_header_strs]. rewrite list_lookup_insert_eq; [done|]. by apply lookup_lt_Some in Hp. }
  cbn [mbind cres_bind]. rewrite with_path_twice in *. exists (Some (Z.of_nat (length d), drop (Z.to_nat m) p2)), p2.
  assert (E2 : p2 = take (Z.to_nat m) (p0 ++ [0]) ++ d ++ 0 :: drop (S (length d)) (s' ++ [0])).
  { unfold p2, p1. replace (Z.to_nat (m + Z.of_nat (length d))) with (Nat.add (length (take (Z.to_nat m) (p0 ++ [0]))) (length d)) by lia.
    rewrite insert_app_r. f_equal. unfold ow. destruct (drop (length d) (s' ++ [0])) as [|x t] eqn:Ex.
    { apply (f_equal length) in Ex. rewrite length_drop, length_app in Ex. simpl in Ex. lia. }
    rewrite insert_after by done. f_equal. f_equal. pose proof (drop_lookup_cons _ _ _ _ Ex) as (_ & -> & _). done. }
  unfold at_off. rewrite decide_True by (destruct Hp2 as [? _]; lia). cbn [mbind cres_bind]. split_and!; try done.
  exists (drop (S (length d)) (s' ++ [0])). rewrite E2. rewrite drop_app_length' by done. split; [done|].
  destruct Hp2 as (_ & Hb2 & _). rewrite E2 in Hb2. by apply Forall_app in Hb2 as [_ ?].
Qed.

(** ** The path in the file system *)

Lemma cut_zero d tl : Forall is_byte d → ∃ y, d ++ 0 :: tl = cstr d ++ 0 :: y ∧ cstring (cstr d) ∧ (length (cstr d) <= length d)%nat.
Proof.
  intros Hd. induction Hd as [|x d Hx Hd (y & E & Hc & Hl)]; [exists tl; split_and!; [done|constructor|done]|]. cbn [cstr].
  destruct (Z.eqb_spec x 0) as [->|Hne]; [exists (d ++ 0 :: tl); split_and!; [done|constructor|simpl; lia]|].
  exists y. simpl. rewrite E. split_and!; [done| |lia]. apply Forall_cons. unfold is_byte in Hx. split; [lia|done].
Qed.

(** The decoded path [d] in its normal form, up to a zero. *)
Definition below_path (d : list Z) : list Z := squeeze false (cstr d).

Lemma full_path_ok s lp b d tl : service_ok s lp → Forall is_byte d → Z.of_nat (length b) = Z.of_nat (length d) + Z.of_nat (length lp) + 12 →
  ∃ y, full_path s b (d ++ 0 :: tl) (Z.of_nat (length d)) = Ret (lp ++ below_path d ++ 0 :: y) ∧
    (length (below_path d) <= length d)%nat ∧ (S (length (below_path d)) + length y = length d + 12)%nat.
Proof.
  intros ([tl0 E0] & Hlen & Hlp) Hd Hb. unfold full_path. rewrite Hlen, E0.
  pose proof (c_memcpy_ow [] b lp (0 :: tl0) ltac:(simpl; lia)) as M1. rewrite ow_nil in M1. change (Z.of_nat (length (@nil Z))) with 0 in M1. rewrite M1. cbn [mbind cres_bind].
  change ([] ++ lp) with lp. rewrite (c_memcpy_ow lp b d (0 :: tl)) by lia. cbn [mbind cres_bind].
  replace (Z.of_nat (length d) + Z.of_nat (length lp)) with (Z.of_nat (length (lp ++ d))) by (rewrite length_app; lia).
  rewrite ow_wr by (rewrite length_app; lia). cbn [mbind cres_bind].
  set (rest := drop (length ((lp ++ d) ++ [0])) b).
  assert (Eo : ow ((lp ++ d) ++ [0]) b = lp ++ d ++ 0 :: rest) by (unfold ow; fold rest; by rewrite <- !app_assoc).
  rewrite Eo, (at_off_app lp) by done. cbn [mbind cres_bind]. destruct (cut_zero d rest Hd) as (y & Ey & Hc & Hcl).
  rewrite Ey. destruct (remove_redundancy_slash_correct (cstr d) y Hc) as (Er & _). rewrite Er. cbn [mbind cres_bind].
  rewrite Nat2Z.id, take_app_length. fold (below_path d).
  assert (Hsl : (length (below_path d) <= length (cstr d))%nat) by (pose proof (squeeze_length false (cstr d)) as Hq; simpl in Hq; unfold below_path; lia).
  exists (drop (length (below_path d ++ [0])) (cstr d ++ 0 :: y)). split; [unfold ow; by rewrite <- app_assoc|]. split; [lia|].
  assert (Hrest : length rest = 11%nat) by (unfold rest; rewrite length_drop, !length_app; simpl; lia).
  apply (f_equal length) in Ey. rewrite !length_app in Ey. simpl in Ey. rewrite length_drop, !length_app. simpl. lia.
Qed.

Lemma below_path_cstring d : Forall is_byte d → cstring (below_path d).
Proof. intros Hd. destruct (cut_zero d [] Hd) as (y & _ & Hc & _). by apply squeeze_cstring. Qed.

(** ** Files and folders *)

(** What sending the path [name] calls. *)
Definition sends (name : list Z) (k : call) : Prop :=
  match k with CNew | CSubmit | CClose _ | CClosedir => True | COpen p | COpendir p => p = name | _ => False end.

Lemma stream_ctx_ok s st w : ready app_ok s st →
  ∃ o st' calls, stream_ctx st w = (o, st', w ++ calls) ∧ (∀ name, Forall (sends name) calls) ∧ kept st st' ∧ ready app_ok s st' ∧
    app_stream_ctx st' = o ∧ match o with Some c => app_ok s c | None => True end.
Proof.
  intros Hr. unfold stream_ctx, h2esq_stream_get_app_ctx, sfs_new_ctx, h2esq_stream_set_app_ctx. pose proof Hr as [[? ? ? ?] Hp Ha]. unfold app_good in Ha.
  destruct (app_stream_ctx st) as [c|] eqn:E.
  - exists (Some c), st, []. rewrite app_nil_r. split_and!; try done; [apply kept_refl].
  - destruct (k_new w).
    + eexists _, _, [CNew]. split; [reflexivity|]. split_and!; try done.
      * intros name. by repeat constructor.
      * eexists _, (header_strs st). cbn [snd]. destruct st. reflexivity.
    + exists None, st, [CNew]. split_and!; try done; [intros name; by repeat constructor|apply kept_refl].
Qed.


Lemma ready_set_app s st a : ready app_ok s st → match a with Some c => app_ok s c | None => True end →
  kept st (set_app a st) ∧ ready app_ok s (set_app a st).
Proof. intros [[? ? ? ?] ? ?] Ha. split; [exists a, (header_strs st); by destruct st|]. by split. Qed.

(** The file or folder [name] is being sent from the buffer [b]. *)
Definition sending (b : list Z) st : Prop := ∃ c, app_stream_ctx st = Some c ∧ path c = Some b.

Definition sent s (b name : list Z) st w (m : cres (Z * stream * list call)) : Prop :=
  ∃ r st' calls, m = Ret (r, st', w ++ calls) ∧ Forall (sends name) calls ∧ kept st st' ∧ ready app_ok s st' ∧ (r = 0 → sending b st').

Lemma sent_go s b name st st1 w k1 r a k2 m : kept st st1 → ready app_ok s st1 → Forall (sends name) k1 →
  match a with Some c => app_ok s c | None => True end → Forall (sends name) k2 → (r = 0 → ∃ c', a = Some c' ∧ path c' = Some b) →
  m = Ret (r, set_app a st1, (w ++ k1) ++ k2) → sent s b name st w m.
Proof.
  intros Hkept Hr1 Hk1 Ha Hk2 Hz ->. destruct (ready_set_app s st1 a Hr1 Ha) as [H1 H2]. exists r, (set_app a st1), (k1 ++ k2). rewrite app_assoc.
  split; [done|]. split; [apply Forall_app; by split|]. split; [by eapply stream_kept_trans|]. split; [done|].
  intros Hr0. destruct (Hz Hr0) as (c' & -> & ?). by exists c'.
Qed.

Lemma sfs_file_ok s b name st w : c_chars b = Ret name → ready app_ok s st → sent s b name st w (sfs_file s b st w).
Proof.
  intros Hb Hr. unfold sfs_file, sent. destruct (stream_ctx_ok s st w Hr) as (o & st1 & k1 & -> & Hk1 & Hkept & Hr1 & Ha1 & Hc).
  destruct o as [c|]; [|eexists _, _, k1; split; [reflexivity|]; by split_and!]. rewrite Hb. cbn [mbind cres_bind].
  pose proof (fun r a k2 Ha Hk2 Hz m Em => sent_go s b name st st1 w k1 r a k2 m Hkept Hr1 (Hk1 name) Ha Hk2 Hz Em) as Hgo.
  destruct (-1 =? fd c).
  - destruct (-1 =? k_open (w ++ k1) name).
    + by apply (Hgo NGHTTP2_ERR_CALLBACK_FAILURE None [COpen name]); [|repeat constructor| |].
    + destruct (negb (k_submit ((w ++ k1) ++ [COpen name]) =? 0)).
      * apply (Hgo NGHTTP2_ERR_CALLBACK_FAILURE None [COpen name; CSubmit; CClose (k_open (w ++ k1) name)]); [done|by repeat constructor|done|].
        unfold h2esq_stream_clear_app_ctx. cbn [set_app]. by rewrite <- !app_assoc.
      * apply (Hgo 0 (Some (set_file (k_open (w ++ k1) name) b s c)) [COpen name; CSubmit]); [done|by repeat constructor|intros _; by eexists|].
        by rewrite <- !app_assoc.
  - by apply (Hgo NGHTTP2_ERR_CALLBACK_FAILURE None []); [|constructor| |rewrite app_nil_r].
Qed.

Lemma sfs_folder_ok s b name st w : c_chars b = Ret name → ready app_ok s st → sent s b name st w (sfs_folder s b st w).
Proof.
  intros Hb Hr. unfold sfs_folder. case_match.
  { exists NGHTTP2_ERR_CALLBACK_FAILURE, st, []. rewrite app_nil_r. split_and!; try done; [apply kept_refl]. }
  destruct (stream_ctx_ok s st w Hr) as (o & st1 & k1 & -> & Hk1 & Hkept & Hr1 & Ha1 & Hc).
  destruct o as [c|]; [|eexists _, _, k1; split; [reflexivity|]; by split_and!]. rewrite Hb. cbn [mbind cres_bind].
  pose proof (fun r a k2 Ha Hk2 Hz m Em => sent_go s b name st st1 w k1 r a k2 m Hkept Hr1 (Hk1 name) Ha Hk2 Hz Em) as Hgo.
  destruct (k_opendir (w ++ k1) name) as [d|].
  - destruct (negb (k_submit ((w ++ k1) ++ [COpendir name]) =? 0)).
    + apply (Hgo NGHTTP2_ERR_CALLBACK_FAILURE None [COpendir name; CSubmit; CClosedir]); [done|by repeat constructor|done|].
      by rewrite <- !app_assoc.
    + eapply (Hgo 0 (Some (set_path (Some b) (set_folder_service s (set_dir (Some d) c)))) [COpendir name; CSubmit]);
        [done|by repeat constructor|intros _; by eexists|]. by rewrite <- !app_assoc.
  - by apply (Hgo NGHTTP2_ERR_CALLBACK_FAILURE (Some (set_dir None c)) [COpendir name]); [|repeat constructor| |].
Qed.

(** ** Requests *)

(** A call that looks at nothing but paths below [lp], and changes nothing there. *)
Definition looks_below (lp : list Z) (k : call) : Prop :=
  match k with
  | CLstat p | COpen p | COpendir p => ∃ t, p = lp ++ t ∧ down t
  | CCreate _ | CWrite _ _ => False
  | _ => True
  end.

Lemma sends_below lp t k : down t → sends (lp ++ t) k → looks_below lp k.
Proof. intros Ht. destruct k; simpl; try done; intros ->; by exists t. Qed.

Definition handled s lp st w (m : cres (Z * stream * list call)) : Prop :=
  ∃ r st' calls, m = Ret (r, st', w ++ calls) ∧ Forall (looks_below lp) calls ∧ kept st st' ∧ ready app_ok s st' ∧
    (r = 0 → ∃ b t y, sending b st' ∧ b = lp ++ t ++ 0 :: y ∧ cstring t ∧ down t).

Lemma handled_sent s lp t y st w k1 m : down t → cstring t → Forall (looks_below lp) k1 →
  sent s (lp ++ t ++ 0 :: y) (lp ++ t) st (w ++ k1) m → handled s lp st w m.
Proof.
  intros Ht Hc Hk1 (r & st' & k2 & -> & Hk2 & Hkept & Hr & Hs). exists r, st', (k1 ++ k2). rewrite app_assoc. split; [done|].
  split; [apply Forall_app; split; [done|]; eapply Forall_impl; [exact Hk2|]; intros k; by apply sends_below|].
  split_and!; try done; [apply Hr..|]. intros Hz. exists (lp ++ t ++ 0 :: y), t, y. split_and!; try done. by apply Hs.
Qed.

Lemma name_chars_app lp t y : cstring lp → cstring t → c_chars (lp ++ t ++ 0 :: y) = Ret (lp ++ t).
Proof. intros H1 H2. rewrite app_assoc. apply chars_app. by apply Forall_app. Qed.

(** The name of the index page is copied behind the path as long as it was before its normal
    form: it is the end of the path only when the two have the same length. *)
Lemma index_name lp t y n : (length t <= n)%nat → (S (length t) + length y = n + 12)%nat →
  ∃ b' t' y', c_memcpy (lp ++ t ++ 0 :: y) (Z.of_nat (length lp + n)) (SFS_DEFAULT_PAGE ++ [0]) (sizeof SFS_DEFAULT_PAGE) = Ret b' ∧
    b' = lp ++ t' ++ 0 :: y' ∧ (t' = t ∧ (length t < n)%nat ∨ t' = t ++ SFS_DEFAULT_PAGE ∧ length t = n) ∧ length b' = (length lp + n + 12)%nat.
Proof.
  intros Hn Hy. unfold c_memcpy. change (sizeof SFS_DEFAULT_PAGE) with 11.
  rewrite decide_True by (rewrite !length_app; simpl; lia). change (Z.to_nat 11) with (length (SFS_DEFAULT_PAGE ++ [0])).
  rewrite firstn_all. replace (Z.to_nat (Z.of_nat (length lp + n))) with (length lp + n)%nat by lia.
  replace (Z.to_nat (Z.of_nat (length lp + n) + 11)) with (length lp + (n + 11))%nat by lia.
  rewrite take_app_add, drop_app_add. set (z := drop (n + 11) (t ++ 0 :: y)).
  assert (Hz : length z = 1%nat) by (unfold z; rewrite length_drop, length_app; simpl; lia).
  clearbody z. assert (Hix : length SFS_DEFAULT_PAGE = 10%nat) by done.
  destruct (decide (length t = n)) as [<-|Hne].
  - eexists _, (t ++ SFS_DEFAULT_PAGE), z. rewrite take_app_length. split; [reflexivity|]. split; [by rewrite <- !app_assoc|]. split; [by right|].
    rewrite !length_app, Hix, Hz. cbn [length]. lia.
  - eexists _, t, (take (n - length t - 1) y ++ (SFS_DEFAULT_PAGE ++ [0]) ++ z). split; [reflexivity|]. split; [|split; [left; split; [done|lia]|]].
    + rewrite take_app_ge by lia. destruct (n - length t)%nat as [|k] eqn:Ek; [lia|]. simpl take. rewrite <- !app_assoc. simpl.
      replace (k - 0)%nat with k by lia. done.
    + rewrite !length_app, length_take, length_app, Hix, Hz. cbn [length]. lia.
Qed.

Lemma send_folder_ok s lp st w k1 t y n : service_ok s lp → cstring t → down t → ready app_ok s st → Forall (looks_below lp) k1 →
  (length t <= n)%nat → (S (length t) + length y = n + 12)%nat →
  handled s lp st w (send_folder s (lp ++ t ++ 0 :: y) (Z.of_nat (length lp + n)) st (w ++ k1)).
Proof.
  intros (_ & _ & Hlp) Ht Hd Hr Hk1 Hn Hy. unfold send_folder. case_match.
  { apply (handled_sent s lp t y st w k1); try done. apply sfs_folder_ok; [by apply name_chars_app|done]. }
  destruct (index_name lp t y n Hn Hy) as (b' & t' & y' & -> & -> & Ht' & Hlb). cbn [mbind cres_bind].
  assert (Hc' : cstring t' ∧ down t').
  { destruct Ht' as [[-> _]|[-> _]]; [done|]. split; [apply Forall_app; split; [done|by apply FolderDemo.cstring_test]|by apply index_down]. }
  destruct Hc' as [Hc' Hd']. rewrite name_chars_app by done. cbn [mbind cres_bind].
  assert (Hk2 : Forall (looks_below lp) (k1 ++ [CLstat (lp ++ t')])) by (apply Forall_app; split; [done|]; repeat constructor; by exists t').
  assert (Hfolder : handled s lp st w (sfs_folder s (lp ++ t' ++ 0 :: y') st (w ++ k1 ++ [CLstat (lp ++ t')]))).
  { apply (handled_sent s lp t' y' st w (k1 ++ [CLstat (lp ++ t')])); try done. apply sfs_folder_ok; [by apply name_chars_app|done]. }
  rewrite <- app_assoc. destruct (k_lstat (w ++ k1) (lp ++ t')) as [[]|]; try done.
  - apply (handled_sent s lp t' y' st w (k1 ++ [CLstat (lp ++ t')])); try done. apply sfs_file_ok; [by apply name_chars_app|done].
  - rewrite wr_nat by lia. cbn [mbind cres_bind].
    assert (E : ∃ y2, <[(length lp + n)%nat := 0]> (lp ++ t' ++ 0 :: y') = lp ++ t ++ 0 :: y2).
    { rewrite insert_app_r. destruct Ht' as [[-> Hlt]|[-> <-]].
      - replace n with (length t + (S (n - length t - 1)))%nat by lia. rewrite insert_app_r. by eexists.
      - rewrite <- app_assoc, insert_app_r_alt, Nat.sub_diag by lia. by eexists. }
    destruct E as [y2 ->]. apply (handled_sent s lp t y2 st w (k1 ++ [CLstat (lp ++ t')])); try done. apply sfs_folder_ok; [by apply name_chars_app|done].
Qed.

(** The handler after the path was decoded and checked; [d] is the decoded path. *)
Definition looked s lp st st1 w (d : list Z) (safe : Z) : Prop :=
  let failed k := sfs_handler s st w = Ret (NGHTTP2_ERR_CALLBACK_FAILURE, st1, w ++ k) in
  let n := Z.of_nat (length lp + length d + 12) in
  let name := lp ++ below_path d in
  let w1 := w ++ [CMalloc n; CLstat name] in
  if safe =? 0 then failed [] else
  match header_strs st !! 0%nat with
  | Some (Some _) =>
      match k_malloc w n with
      | None => failed [CMalloc n]
      | Some _ =>
          ∃ y, (length (below_path d) <= length d)%nat ∧ (S (length (below_path d)) + length y = length d + 12)%nat ∧
            sfs_handler s st w =
              match k_lstat (w ++ [CMalloc n]) name with
              | Some S_IFDIR => send_folder s (lp ++ below_path d ++ 0 :: y) (Z.of_nat (length lp + length d)) st1 w1
              | Some S_IFREG => sfs_file s (lp ++ below_path d ++ 0 :: y) st1 w1
              | _ => Ret (NGHTTP2_ERR_CALLBACK_FAILURE, st1, w1)
              end
      end
  | _ => failed []
  end.

Lemma handler_cases s lp st w : service_ok s lp → ready app_ok s st →
  ∃ p0 p', header_strs st !! 1%nat = Some (Some (p0 ++ [0])) ∧ ready app_ok s (with_path st p') ∧
  match pct_decode (drop (Z.to_nat (path_matched_length st)) p0) with
  | None => sfs_handler s st w = Ret (NGHTTP2_ERR_CALLBACK_FAILURE, with_path st p', w)
  | Some d =>
      Forall is_byte d ∧ ∃ safe, (safe = 0 ∨ safe = 1) ∧ (safe = 1 → safe_path (cstr d) = true) ∧
        (Forall (fun b : Z => b < 0x80) (cstr d) → safe_path (cstr d) = true → safe = 1) ∧ looked s lp st (with_path st p') w d safe
  end.
Proof.
  intros Hs Hr. destruct (decode_path_ok s st Hr) as (p0 & l & Hp & Hl & Hlen & o & p' & E & Hr' & Hd). exists p0, p'. split; [done|]. split; [done|].
  unfold looked, sfs_handler. rewrite E. cbn [mbind cres_bind]. set (st1 := with_path st p') in *.
  destruct (pct_decode (drop (Z.to_nat (path_matched_length st)) p0)) as [d|]; [|by subst o].
  destruct Hd as (tl & -> & Hb). pose proof Hb as Hall. apply Forall_app in Hb as [Hbd _]. split; [done|].
  destruct (cut_zero d tl Hbd) as (y & Ey & Hc & Hcl). rewrite Ey in *.
  apply Forall_app in Hall as [_ Hby]. apply Forall_cons in Hby as [_ Hby].
  destruct (very_safe_ok (cstr d) y Hc Hby) as (safe & -> & H01 & Hsafe & Hsafe'). exists safe. split_and!; try done. cbn [mbind cres_bind]. rewrite <- Ey.
  destruct (Z.eqb_spec safe 0) as [|Hn0]; [by rewrite app_nil_r|].
  unfold h2esq_stream_get_header. pose proof Hr' as [[Hn1 Hn2 _ _] _ _]. unfold H2ESQ_HEADER_MAX in *.
  destruct (lookup_lt_is_Some_2 (header_strs st1) 0) as [mo Emo]; [lia|]. rewrite (rd_nat _ 0 _ Emo : rd _ H2ESQ_HEADER_METHOD = _). cbn [mbind cres_bind].
  destruct (lookup_lt_is_Some_2 (header_lens st1) 0) as [ml Eml]; [lia|]. rewrite (rd_nat _ 0 _ Eml : rd _ H2ESQ_HEADER_METHOD = _).
  assert (Emo' : header_strs st !! 0%nat = Some mo) by (rewrite <- Emo; unfold st1, with_path; cbn [header_strs set_header_strs]; by rewrite list_lookup_insert_ne).
  rewrite Emo'. destruct mo as [mo|]; cbn [mbind cres_bind]; [|by rewrite app_nil_r].
  pose proof Hs as (_ & Hll & Hlp). rewrite Hll. change (sizeof SFS_DEFAULT_PAGE) with 11.
  replace (Z.of_nat (length d) + Z.of_nat (length lp) + 1 + 11) with (Z.of_nat (length lp + length d + 12)) by lia.
  replace (Z.of_nat (length d) + Z.of_nat (length lp)) with (Z.of_nat (length lp + length d)) by lia.
  destruct (k_malloc w _) as [b|] eqn:Em; [|done]. apply malloc_size in Em.
  destruct (full_path_ok s lp b d tl Hs Hbd ltac:(lia)) as (y2 & -> & Hsl & Hyl). exists y2. split_and!; try done. cbn [mbind cres_bind].
  rewrite name_chars_app by (try done; by apply below_path_cstring). cbn [mbind cres_bind]. by rewrite <- !app_assoc.
Qed.

Lemma handler_failed s lp st st1 w k : kept st st1 → ready app_ok s st1 → Forall (looks_below lp) k →
  handled s lp st w (Ret (NGHTTP2_ERR_CALLBACK_FAILURE, st1, w ++ k)).
Proof. intros Hk Hr Hl. exists NGHTTP2_ERR_CALLBACK_FAILURE, st1, k. by split_and!. Qed.

Lemma handled_kept s lp st st1 w m : kept st st1 → handled s lp st1 w m → handled s lp st w m.
Proof.
  intros Hk (r & st' & k & ? & ? & ? & ?). exists r, st', k. split; [done|]. split; [done|]. split; [by apply (stream_kept_trans st st1 st')|done].
Qed.

Lemma with_path_kept st p : kept st (with_path st p).
Proof. exists (app_stream_ctx st), (<[1%nat := Some p]> (header_strs st)). by destruct st. Qed.

Lemma sfs_handler_ok s lp st w : service_ok s lp → ready app_ok s st → handled s lp st w (sfs_handler s st w).
Proof.
  intros Hs Hr. destruct (handler_cases s lp st w Hs Hr) as (p0 & p' & _ & Hr' & G). pose proof (with_path_kept st p') as Hk.
  pose proof (fun k => handler_failed s lp st (with_path st p') w k Hk Hr') as Hf.
  destruct (pct_decode _) as [d|]; [|rewrite G; specialize (Hf []); rewrite app_nil_r in Hf; by apply Hf].
  destruct G as (Hbd & safe & H01 & Hsafe & _ & G). unfold looked in G.
  destruct (Z.eqb_spec safe 0) as [|Hn0]; [rewrite G; by apply Hf|].
  destruct (header_strs st !! 0%nat) as [[mo|]|]; [|rewrite G; by apply Hf..].
  destruct (k_malloc w _); [|rewrite G; apply Hf; by repeat constructor]. destruct G as (y & H1 & H2 & ->).
  pose proof (below_path_cstring d Hbd) as Hcs.
  assert (Hdn : down (below_path d)) by (apply squeeze_down, Hsafe; by destruct H01).
  set (k := [CMalloc _; CLstat (lp ++ below_path d)]).
  assert (Hkb : Forall (looks_below lp) k) by (repeat constructor; by exists (below_path d)).
  destruct (k_lstat _ _) as [[]|]; try by apply Hf.
  - apply (handled_kept s lp st _ w _ Hk). by apply send_folder_ok.
  - apply (handled_kept s lp st _ w _ Hk). apply (handled_sent s lp (below_path d) y _ w k); try done.
    apply sfs_file_ok; [|done]. apply name_chars_app; [apply Hs|done].
Qed.

(** A regular file is opened under the decoded path and submitted. *)
Lemma sfs_handler_file s lp st w p0 d : service_ok s lp → ready app_ok s st → header_strs st !! 1%nat = Some (Some (p0 ++ [0])) →
  pct_decode (drop (Z.to_nat (path_matched_length st)) p0) = Some d → Forall (fun b : Z => 0 < b < 0x80) d → safe_path d = true →
  is_Some (mjoin (header_strs st !! 0%nat)) → app_stream_ctx st = None →
  let n := Z.of_nat (length lp + length d + 12) in
  let name := lp ++ squeeze false d in
  let w1 := w ++ [CMalloc n] in
  let w2 := w1 ++ [CLstat name] in
  let w3 := w2 ++ [CNew] in
  is_Some (k_malloc w n) → k_lstat w1 name = Some S_IFREG → k_new w2 = true → k_open w3 name ≠ -1 → k_submit (w3 ++ [COpen name]) = 0 →
  ∃ st' c, sfs_handler s st w = Ret (0, st', w3 ++ [COpen name; CSubmit]) ∧ app_stream_ctx st' = Some c ∧ fd c = k_open w3 name.
Proof.
  intros Hs Hr Hp Hd Hda Hsp Hmo Hc n name w1 w2 w3 Hm Hl Hnew Ho Hsub.
  destruct (handler_cases s lp st w Hs Hr) as (p1 & p' & Hp1 & Hr' & G). rewrite Hp in Hp1. injection Hp1 as [<- _]%app_inj_tail.
  rewrite Hd in G. destruct G as (Hbd & safe & H01 & _ & Hsafe & G).
  assert (Hcd : cstring d) by (eapply Forall_impl; [exact Hda|]; simpl; lia). assert (Hcs : cstr d = d) by (by apply cstr_id).
  rewrite Hcs in Hsafe. unfold looked, below_path in G. rewrite Hcs in G. rewrite Hsafe in G; [|eapply Forall_impl; [exact Hda|]; simpl; lia|done].
  simpl (1 =? 0) in G. cbv iota in G. destruct (header_strs st !! 0%nat) as [[mo|]|]; [|by destruct Hmo..]. fold n in G. destruct Hm as [b Hm]. rewrite Hm in G.
  destruct G as (y & _ & _ & ->). fold name w1. rewrite Hl. replace (w ++ [_; CLstat name]) with w2 by (unfold w2, w1; by rewrite <- app_assoc).
  rewrite app_assoc. fold name. unfold sfs_file, stream_ctx, h2esq_stream_get_app_ctx.
  change (app_stream_ctx (with_path st p')) with (app_stream_ctx st). rewrite Hc, Hnew. cbn [sfs_new_ctx h2esq_stream_set_app_ctx snd].
  rewrite chars_app by (apply Forall_app; split; [apply Hs|by apply squeeze_cstring]). cbn [mbind cres_bind fd]. simpl (-1 =? -1). cbv iota. fold w3.
  destruct (Z.eqb_spec (-1) (k_open w3 name)) as [E|_]; [by rewrite <- E in Ho|]. rewrite Hsub. simpl (negb _). cbv iota. rewrite <- app_assoc.
  eexists _, _. split; [reflexivity|]. by split.
Qed.

(** ** Uploads *)

(** The name of an upload without its folders. *)
Definition base_name (v : list Z) : list Z := drop (Z.to_nat (last_slash v 0 (-1) + 1)) v.

Lemma base_name_ok v :
  (r ← find_last_slash2 v (Z.of_nat (length v));
   if -1 =? r then Ret (v, Z.of_nat (length v)) else b ← at_off v (r + 1); Ret (b, Z.of_nat (length v) - r - 1))
  = Ret (base_name v, Z.of_nat (length (base_name v))).
Proof.
  unfold find_last_slash2. rewrite Nat2Z.id. pose proof (fls2_loop_spec (S (length v)) v [] 0 (-1) ltac:(lia) ltac:(lia)) as E.
  rewrite app_nil_r in E. change (Z.of_nat 0) with 0 in E. rewrite E. cbn [mbind cres_bind]. unfold base_name. rewrite drop_0.
  destruct (last_slash_spec v 0 (-1)) as [[-> _]|(k & c & -> & Hk & _)]; [done|].
  apply lookup_lt_Some in Hk. rewrite (proj2 (Z.eqb_neq _ _)) by lia. unfold at_off. rewrite decide_True by lia. cbn [mbind cres_bind].
  rewrite length_drop. do 2 f_equal. lia.
Qed.

(** What is opened: the folder, a slash, the name, and behind it what the memory held when
    the name had folders. *)
Lemma post_path_ok s lp (lpath ltl base btl b : list Z) n : service_ok s lp → length b = (length lp + length lpath + n + 2)%nat → (length base <= n)%nat →
  Forall is_byte b → Forall is_byte base →
  ∃ u, length u = n ∧ base `prefix_of` u ∧ Forall is_byte u ∧
    (b ← c_memcpy b 0 (local_path_head s) (local_path_head_len s);
     b ← c_memcpy b (local_path_head_len s) (lpath ++ ltl) (Z.of_nat (length lpath));
     b ← wr b (local_path_head_len s + Z.of_nat (length lpath)) 47;
     b ← c_memcpy b (local_path_head_len s + Z.of_nat (length lpath) + 1) (base ++ btl) (Z.of_nat (length base));
     wr b (local_path_head_len s + Z.of_nat (length lpath) + Z.of_nat n + 1) 0) = Ret ((lp ++ lpath ++ [47]) ++ u ++ [0]).
Proof.
  intros ([tl0 E0] & -> & _) Hb Hn Hbb Hbase. rewrite E0.
  pose proof (c_memcpy_ow [] b lp (0 :: tl0) ltac:(simpl; lia)) as M1. rewrite ow_nil in M1. change (Z.of_nat (length (@nil Z))) with 0 in M1. rewrite M1. cbn [mbind cres_bind].
  change ([] ++ lp) with lp. rewrite (c_memcpy_ow lp b lpath ltl) by lia. cbn [mbind cres_bind].
  replace (Z.of_nat (length lp) + Z.of_nat (length lpath)) with (Z.of_nat (length (lp ++ lpath))) by (rewrite length_app; lia).
  rewrite ow_wr by (rewrite length_app; lia). cbn [mbind cres_bind]. rewrite <- app_assoc.
  set (h := lp ++ lpath ++ [47]). assert (Hh : length h = (length lp + length lpath + 1)%nat) by (unfold h; rewrite !length_app; simpl; lia).
  replace (Z.of_nat (length (lp ++ lpath)) + 1) with (Z.of_nat (length h)) by (rewrite length_app; lia).
  rewrite (c_memcpy_ow h b base btl) by lia. cbn [mbind cres_bind].
  set (rest := drop (length (h ++ base)) b). assert (Hrest : length rest = (n - length base + 1)%nat) by (unfold rest; rewrite length_drop, length_app; lia).
  exists (base ++ take (n - length base) rest). split; [rewrite length_app, length_take; lia|]. split; [by eexists|].
  split; [apply Forall_app; split; [done|]; by apply Forall_take, Forall_drop|].
  rewrite wr_Ret by (rewrite length_ow; rewrite ?length_app; lia). f_equal. unfold ow. fold rest.
  replace (Z.to_nat (Z.of_nat (length (lp ++ lpath)) + Z.of_nat n + 1)) with (length (h ++ base) + (n - length base))%nat by (rewrite !length_app; lia).
  rewrite insert_app_r, <- !app_assoc. do 2 f_equal. rewrite insert_take_drop by lia. f_equal. by rewrite drop_ge by lia.
Qed.

(** The path that an upload goes to. *)
Definition post_name (lp lpath u : list Z) : list Z := squeeze false (cstr (lp ++ lpath ++ 47 :: u)).

Lemma normal_chars q : Forall is_byte q → ∃ b, remove_redundancy_slash (q ++ [0]) = Ret b ∧ c_chars b.2 = Ret (squeeze false (cstr q)).
Proof.
  intros Hq. destruct (cut_zero q [] Hq) as (y & -> & Hc & _). destruct (remove_redundancy_slash_correct (cstr q) y Hc) as (-> & _).
  eexists. split; [reflexivity|]. unfold ow. cbn [snd]. rewrite <- app_assoc. apply chars_app. by apply squeeze_cstring.
Qed.

Lemma open_post_ok s lp st c w v : service_ok s lp → ready app_ok s st → Forall is_byte v → v ≠ [] →
  ∃ p0 l, header_strs st !! 1%nat = Some (Some (p0 ++ [0])) ∧ header_lens st !! 1%nat = Some l ∧ Z.of_nat (length p0) = l ∧
  let lpath := drop (Z.to_nat (path_matched_length st)) p0 in
  let n := Z.of_nat (length lp + length lpath + length v + 2) in
  match k_malloc w n with
  | None => sfs_open_post_file s st c w v (Z.of_nat (length v)) = Ret (-1, c, w ++ [CMalloc n])
  | Some _ =>
      ∃ u safe, length u = length v ∧ base_name v `prefix_of` u ∧ path_is_very_safe (u ++ [0]) = Ret safe ∧
        sfs_open_post_file s st c w v (Z.of_nat (length v)) =
          Ret (if safe =? 0 then (-1, c, w ++ [CMalloc n])
               else let name := post_name lp lpath u in
                    let d := k_create (w ++ [CMalloc n]) name in
                    let w := (w ++ [CMalloc n]) ++ [CCreate name] in
                    if -1 =? d then (-1, c, w) else (0, set_post d (post_state c) (post_len c) c, w))
  end.
Proof.
  intros Hs [Hst (p & l & Hp & Hl & Hm) _] Hv Hne. set (m := path_matched_length st) in *.
  destruct (header_split l p (so_header st Hst _ _ _ Hp Hl)) as (p0 & -> & Hlen & Hb). exists p0, l. split_and!; try done.
  set (lpath := drop (Z.to_nat m) p0). assert (Hlp : Z.of_nat (length lpath) = l - m) by (unfold lpath; rewrite length_drop; lia).
  intros lpath' n. subst lpath'. fold lpath. unfold sfs_open_post_file.
  rewrite (proj2 (Z.eqb_neq _ 0)) by (destruct v; simpl; [done|lia]).
  destruct (proj1 (cres_bind_Ret _ _ _) (base_name_ok v)) as (r & Er & Eb). rewrite Er. cbn [mbind cres_bind]. rewrite Eb. cbn [mbind cres_bind].
  unfold h2esq_stream_get_header. rewrite (rd_nat _ 1 _ Hp : rd _ H2ESQ_HEADER_PATH = _). cbn [mbind cres_bind].
  rewrite (rd_nat _ 1 _ Hl : rd _ H2ESQ_HEADER_PATH = _). cbn [mbind cres_bind deref]. fold m.
  assert (Hoff : at_off (p0 ++ [0]) m = Ret (lpath ++ [0])).
  { unfold at_off. rewrite decide_True by (rewrite length_app; simpl; lia). by rewrite drop_app_le by lia. }
  rewrite Hoff. cbn [mbind cres_bind]. rewrite <- Hlp. pose proof Hs as (_ & Hll & Hlc).
  assert (Hfl : local_path_head_len s + Z.of_nat (length lpath) + Z.of_nat (length v) + 1 + 1 = n) by (unfold n; lia). rewrite Hfl.
  destruct (k_malloc w n) as [b|] eqn:Em; [|done].
  assert (Hbase : (length (base_name v) <= length v)%nat ∧ Forall is_byte (base_name v)) by (unfold base_name; split; [rewrite length_drop; lia|by apply Forall_drop]).
  destruct Hbase as [Hbl Hbb]. pose proof (malloc_size _ _ _ Em) as Hsz.
  destruct (post_path_ok s lp lpath [0] (base_name v) [] b (length v) Hs) as (u & Hu & Hpre & Hbu & E);
    [unfold n in Hsz; lia|done|by eapply malloc_bytes|done|].
  rewrite app_nil_r in E. do 4 (apply cres_bind_Ret in E as (? & -> & E); cbn [mbind cres_bind]). rewrite E. cbn [mbind cres_bind].
  rewrite (at_off_app (lp ++ lpath ++ [47])) by (rewrite !length_app; simpl; lia). cbn [mbind cres_bind].
  destruct (cut_zero u [] Hbu) as (y & Ey & Hc & _).
  assert (Hy : Forall is_byte y).
  { assert (Hall : Forall is_byte (u ++ [0])) by (apply Forall_app; split; [done|]; repeat constructor; unfold is_byte; lia).
    rewrite Ey in Hall. apply Forall_app in Hall as [_ Hall]. by apply Forall_cons in Hall as [_ ?]. }
  destruct (very_safe_ok (cstr u) y Hc Hy) as (safe & Es & _). rewrite <- Ey in Es. exists u, safe. split_and!; try done.
  rewrite Es. cbn [mbind cres_bind]. destruct (safe =? 0); [done|].
  assert (Hq : Forall is_byte (lp ++ lpath ++ 47 :: u)).
  { apply Forall_app; split; [by apply cstring_bytes|]. apply Forall_app; split; [unfold lpath; by apply Forall_drop|]. apply Forall_cons; split; [unfold is_byte; lia|done]. }
  destruct (normal_chars _ Hq) as ([k b'] & Ek & En). cbn [snd] in En.
  replace ((lp ++ lpath ++ [47]) ++ u ++ [0]) with ((lp ++ lpath ++ 47 :: u) ++ [0]) by (by rewrite <- !app_assoc).
  rewrite Ek. cbn [mbind cres_bind]. rewrite En. cbn [mbind cres_bind]. fold (post_name lp lpath u). by destruct (-1 =? k_create (w ++ [CMalloc n]) (post_name lp lpath u)).
Qed.

(** Every write takes something. *)
Definition progress (d : Z) : Prop := ∀ w b, b ≠ [] → 0 < k_write w d b <= Z.of_nat (length b).

Lemma write_loop_ok d v fuel i w : 0 <= i → (Z.to_nat (Z.of_nat (length v) - i) < fuel)%nat →
  ∃ ok bs, write_loop fuel d v (Z.of_nat (length v)) i w = Ret (ok, w ++ (CWrite d <$> bs)) ∧
    (progress d → i <= Z.of_nat (length v) → ok = true ∧ concat bs = drop (Z.to_nat i) v).
Proof.
  revert i w. induction fuel as [|fuel IH]; intros i w Hi Hf; [lia|]. cbn [write_loop].
  destruct (Z.ltb_spec i (Z.of_nat (length v))) as [Hlt|Hge].
  2:{ exists true, []. rewrite app_nil_r. split; [done|]. intros _ Hle. by rewrite drop_ge by lia. }
  assert (Hsl : slice v i (Z.of_nat (length v) - i) = Ret (drop (Z.to_nat i) v)).
  { unfold slice, at_off. rewrite decide_True by lia. cbn [mbind cres_bind]. rewrite decide_True by (rewrite length_drop; lia).
    by rewrite take_ge by (rewrite length_drop; lia). }
  rewrite Hsl. cbn [mbind cres_bind]. set (b := drop (Z.to_nat i) v). assert (Hb : b ≠ []) by (intros E%drop_nil_length; lia).
  assert (Hbl : length b = (length v - Z.to_nat i)%nat) by (unfold b; by rewrite length_drop).
  set (r := k_write w d b). set (x := CWrite d (take (Z.to_nat r) b)).
  destruct (Z.leb_spec r 0) as [Hr|Hr].
  { exists false, [take (Z.to_nat r) b]. split; [done|]. intros Hp _. pose proof (Hp w b Hb). lia. }
  destruct (IH (i + r) (w ++ [x]) ltac:(lia) ltac:(lia)) as (ok & k & -> & Hk). exists ok, (take (Z.to_nat r) b :: k). rewrite <- app_assoc. split; [done|].
  intros Hp _. pose proof (Hp w b Hb) as Hw. fold r in Hw. destruct (Hk Hp ltac:(lia)) as [-> Hwr]. split; [done|].
  cbn [concat]. rewrite Hwr. replace (Z.to_nat (i + r)) with (Z.to_nat i + Z.to_nat r)%nat by lia. rewrite <- drop_drop. fold b. apply take_drop.
Qed.

(** What the callback keeps of the context. *)
Definition cb_ret c (m : cres (Z * sfs_stream_ctx_t * list call)) : Prop := ∃ r c' w', m = Ret (r, c', w') ∧ post_parser_ctx c' = post_parser_ctx c.

Lemma post_element_ok c w et v : cb_ret c (post_element c w et v (Z.of_nat (length v))).
Proof.
  assert (Hr : ∀ r w', cb_ret c (Ret (r, c, w'))) by (intros r w'; by eexists _, _, _).
  assert (Hf : ∀ w', cb_ret c (post_failed c w')) by (intros w'; by eexists _, _, _).
  assert (Hv : cb_ret c (post_value c w v (Z.of_nat (length v)))).
  { unfold post_value, sfs_write_post_file. destruct (post_fd c <=? 0); [apply Hf|].
    destruct (write_loop_ok (post_fd c) v (S (Z.to_nat (Z.of_nat (length v)))) 0 w) as (ok & k & -> & _); [lia..|]. cbn [mbind cres_bind].
    destruct ok; cbn [mbind cres_bind]; [by eexists _, _, _|apply Hf]. }
  unfold post_element. repeat case_match; eauto. by eexists _, _, _.
Qed.

Lemma post_data_cb_ok s lp st c w et v : service_ok s lp → ready app_ok s st → Forall is_byte v →
  cb_ret c (sfs_post_data_parser_cb s st c w et v (Z.of_nat (length v))).
Proof.
  intros Hs Hr Hv. unfold sfs_post_data_parser_cb. assert (Hret : ∀ r w', cb_ret c (Ret (r, c, w'))) by (intros r w'; by eexists _, _, _).
  assert (Hopen : ∃ r c' w', sfs_open_post_file s st c w v (Z.of_nat (length v)) = Ret (r, c', w') ∧ post_parser_ctx c' = post_parser_ctx c).
  { destruct (decide (v = [])) as [->|Hne]; [by eexists _, _, _|]. destruct (open_post_ok s lp st c w v Hs Hr Hv Hne) as (p0 & l & _ & _ & _ & E).
    cbv zeta in E. destruct (k_malloc w _); [|by eexists _, _, _]. destruct E as (u & safe & _ & _ & _ & ->).
    destruct (safe =? 0); [by eexists _, _, _|]. destruct (-1 =? _); by eexists _, _, _. }
  destruct Hopen as (r & c' & w' & Eo & Ec). unfold post_failed.
  repeat case_match; eauto using post_element_ok; try by eexists _, _, _.
  all: rewrite Eo; cbn [mbind cres_bind]; destruct (negb (r =? 0)); [by eexists _, _, _|].
  all: destruct (post_element_ok (set_post (post_fd c') STATE_OPEN (post_len c') c') w' et v) as (r2 & c2 & w2 & -> & Hc2); eexists _, _, _; split; [reflexivity|]; by rewrite Hc2.
Qed.

Lemma chunk_recv_ok s lp st buf len w : service_ok s lp → ready app_ok s st → 0 <= len → len + 17 <= Z.of_nat (length buf) → Forall is_byte buf →
  ∃ r st' w', sfs_chunk_recv_cb s st buf len w = Ret (r, st', w') ∧ kept st st' ∧ ready app_ok s st'.
Proof.
  intros Hs Hr Hl Hroom Hb. unfold sfs_chunk_recv_cb. destruct (stream_ctx_ok s st w Hr) as (o & st1 & k1 & -> & _ & Hkept & Hr1 & Ha1 & Hc).
  destruct o as [c|]; [|by eexists _, _, _]. set (a := Ret (c, w ++ k1)).
  destruct (parser_total (post_cb s st1) buf len (post_parser_ctx c) a Hl Hroom Hc) as (r & a' & p & E & _ & Hp).
  assert (Ha' : ∃ c' w', a' = Ret (c', w')).
  { apply (keeps_parser (post_cb s st1) buf len (fun a => ∃ c w, a = Ret (c, w))) in E; [done| |done|by eexists _, _].
    intros a2 et v (c2 & w2 & ->) Hv. unfold post_cb. destruct (post_data_cb_ok s lp st1 c2 w2 et v Hs Hr1 Hv) as (r3 & c3 & w3 & -> & _). by eexists _, _. }
  destruct Ha' as (c' & w' & ->). rewrite E. cbn [mbind cres_bind]. eexists _, _, _. split; [reflexivity|].
  destruct (ready_set_app s st1 (Some (set_parser p c')) Hr1 Hp) as [H1 H2]. split; [by eapply stream_kept_trans|done].
Qed.

(** The service keeps what a connection relies on. *)
Lemma sfs_laws s lp : service_ok s lp → ServiceLaws app_ok (fun _ => True) sfs_service_class s.
Proof.
  intros Hs. split.
  - intros st w Hr _. destruct (sfs_handler_ok s lp st w Hs Hr) as (r & st' & k & E & _ & Hk & Hr' & _). by exists r, st', (w ++ k).
  - intros st data len w Hr _ Hl Hroom Hb. destruct (chunk_recv_ok s lp st data len w Hs Hr Hl Hroom Hb) as (r & st' & w' & E & Hk & Hr'). by exists r, st', w'.
  - intros st w _ _. simpl. unfold sfs_on_stream_close, h2esq_stream_get_app_ctx. destruct (app_stream_ctx st) as [c|] eqn:Ea.
    + by eexists.
    + exists w. split; [|done]. by destruct st; simpl in Ea; subst.
Qed.
End Handler.


(** ** Binding *)

Lemma new_service_ok path lp f : cstring path → (0 < length path < 512)%nat → cstring lp →
  if decide (0 < length lp < 512)%nat
  then ∃ ctx, new_service true (path ++ [0]) (lp ++ [0]) f = Ret (inr ctx) ∧ service_ok ctx lp ∧ flags ctx = f
  else ∃ e, new_service true (path ++ [0]) (lp ++ [0]) f = Ret (inl e).
Proof.
  intros Hp Hpl Hl. unfold new_service. rewrite !c_strnlen_ok by done. cbn [mbind cres_bind]. change (Z.of_nat SFS_PATH_LEN_MAX) with 512.
  assert (Em : ∀ k : nat, Z.of_nat (k `min` SFS_PATH_LEN_MAX) = Z.min (Z.of_nat k) 512) by (intros k; unfold SFS_PATH_LEN_MAX; lia). rewrite !Em.
  destruct (_ || _) eqn:E1; [lia|]. clear E1. destruct (decide _) as [Hd|Hd]; [|destruct (_ || _) eqn:E2; [by eexists|lia]].
  destruct (_ || _) eqn:E2; [lia|]. clear E2. simpl (negb true). cbv iota. rewrite !Z.min_l by lia.
  set (z := replicate _ 0). assert (Hz : length z = (length path + 1 + length lp + 1)%nat) by (unfold z; rewrite length_replicate; lia).
  pose proof (c_memcpy_ow [] z (path ++ [0]) []) as M1. rewrite ow_nil, app_nil_r in M1. change (Z.of_nat (length (@nil Z))) with 0 in M1.
  replace (Z.of_nat (length path) + 1) with (Z.of_nat (length (path ++ [0]))) by (rewrite length_app; simpl; lia).
  rewrite M1 by (rewrite length_app; simpl; lia). cbn [mbind cres_bind app].
  pose proof (c_memcpy_ow (path ++ [0]) z (lp ++ [0]) []) as M2. rewrite app_nil_r in M2.
  replace (Z.of_nat (length lp) + 1) with (Z.of_nat (length (lp ++ [0]))) by (rewrite length_app; simpl; lia).
  rewrite M2 by (rewrite !length_app; simpl; lia). cbn [mbind cres_bind]. unfold ow. rewrite <- app_assoc, (at_off_app (path ++ [0])) by done.
  cbn [mbind cres_bind]. eexists. split; [reflexivity|]. split; [|done]. split; [|done]. cbn [local_path_head]. eexists. by rewrite <- app_assoc.
Qed.

(** C20: Binding a folder to an ASCII path of an instance that is there, whose services keep their
    promises, with memory, succeeds exactly when the path has 1 to 31 characters and is not
    bound yet, a place is left, and the folder has 1 to 511 characters; otherwise nothing
    changes.  After it the path leads to a service for that folder with the flags that were
    asked for, and every connection of the instance stays in order under the calls of the HTTP
    library that fulfil [event_ok]: new numbers for new streams, no trailers, names and values
    ended by a zero, cookie names whose hash does not overflow, 17 readable bytes behind data,
    and methods of four characters or more for them. *)
Theorem sfs_bind_instance_correct `{Kernel} `{!KernelLaws} insts name k inst bs path lp f :
  h2esq_find_instance insts name = Some k → insts !! k = Some inst → bound inst bs →
  (∀ i p c ctx, bs !! i = Some (p, (c, ctx)) → ServiceLaws app_ok (fun _ => True) c ctx) →
  Forall (fun b => 0 < b < 128) path → cstring lp →
  if decide ((0 < length path < 32)%nat ∧ path ∉ bs.*1 ∧ length bs ≠ H2ESQ_INSTANCE_SERVICE_MAX ∧ (0 < length lp < 512)%nat)
  then ∃ inst' ctx, sfs_bind_instance true true (fun _ => true) insts name (path ++ [0]) (lp ++ [0]) f = Ret (None, <[k := inst']> insts) ∧
    bound inst' (bs ++ [(path, (sfs_service_class, ctx))]) ∧ service_ok ctx lp ∧ flags ctx = f ∧
    ∀ S w, reach (fun _ => True) inst' S w → session_ok app_ok inst' S
  else ∃ e, sfs_bind_instance true true (fun _ => true) insts name (path ++ [0]) (lp ++ [0]) f = Ret (Some e, insts).
Proof.
  intros Hk Hi Hb Hlaws Hp Hl. assert (Hcp : cstring path) by (eapply Forall_impl; [exact Hp|]; simpl; lia).
  assert (Hki : (k < length insts)%nat) by (by apply lookup_lt_Some in Hi). unfold sfs_bind_instance.
  destruct (decide (0 < length path < 512)%nat) as [Hpl|Hpl].
  2:{ rewrite decide_False by lia. unfold new_service. rewrite (c_strnlen_ok path) by done. cbn [mbind cres_bind].
      destruct (_ || _) eqn:E; [cbn [mbind cres_bind]; by eexists|]. exfalso. apply orb_false_iff in E as [E1 E2]. apply Z.leb_gt in E1, E2. unfold SFS_PATH_LEN_MAX in *. lia. }
  pose proof (new_service_ok path lp f Hcp Hpl Hl) as Hn. destruct (decide (0 < length lp < 512)%nat) as [Hll|Hll].
  2:{ rewrite decide_False by tauto. destruct Hn as [e ->]. by exists e. }
  destruct Hn as (ctx & -> & Hs & Hf). cbn [mbind cres_bind]. rewrite chars_app by done. cbn [mbind cres_bind].
  unfold h2esq_instance_bind_service. rewrite Hk, (rd_nat _ _ _ Hi). cbn [mbind cres_bind].
  pose proof (bind_service_ok inst bs path sfs_service_class ctx Hb Hp) as Hbind.
  destruct (decide _) as [Hd|Hd].
  - rewrite Hbind. cbn [mbind cres_bind]. rewrite wr_nat by done. cbn [mbind cres_bind]. rewrite list_insert_id by done.
    rewrite decide_False by (destruct Hd as [?|[->|[?|?]]]; simpl; (lia || tauto)). by eexists.
  - rewrite decide_True by (split_and!; try tauto; lia || (destruct path; simpl; [tauto|lia])).
    destruct Hbind as (inst' & -> & Hb'). cbn [mbind cres_bind]. rewrite wr_nat by done. cbn [mbind cres_bind].
    exists inst', ctx. split_and!; try done. intros S w Hr.
    apply (reach_ok app_ok (fun _ => True) inst' S w); [|done]. apply (bound_services_ok _ _ _ _ Hb').
    intros i p c ctx' Hi'. apply lookup_app_Some in Hi' as [Hi'|[_ Hi']]; [by eapply Hlaws|].
    apply list_lookup_singleton_Some in Hi' as [_ Hi']. injection Hi' as <- <- <-. by apply (sfs_laws ctx lp).
Qed.

(** A file arrives as it is, however few bytes [read] gives at a time. *)
Theorem sfs_file_sent give rooms l : (∀ l n, give l n = 0 ↔ l = [] ∨ n = O) → (∀ l n, 0 <= give l n <= Z.of_nat (length l)) →
  Forall (fun n => n ≠ O) rooms → (length l < length rooms)%nat →
  ∃ out, serve_file give rooms l = (true, out) ∧ concat out = l.
Proof.
  intros H0 Hle Hr. revert l. induction Hr as [|n rooms Hn Hr IH]; intros l Hl; [simpl in Hl; lia|]. cbn [serve_file].
  pose proof (H0 l n) as Hz. pose proof (Hle l n) as Hb. unfold sfs_read_local_file_cb. destruct (Z.eqb_spec 0 (give l n)) as [E|E].
  - exists []. split; [done|]. symmetry in E. apply Hz in E as [->|?]; done.
  - destruct (Z.ltb_spec (give l n) 0); [lia|]. rewrite (proj2 (Z.ltb_ge _ 0)) by lia.
    destruct (IH (drop (Z.to_nat (give l n)) l)) as (out & -> & Ho); [rewrite length_drop; simpl in Hl; lia|].
    eexists. split; [reflexivity|]. cbn [concat]. rewrite Ho. apply take_drop.
Qed.

(** ** An example *)

Module SfsDemo.
(** A kernel with one file, whose writes take at most two bytes. *)
#[export] Instance kernel : Kernel := {|
  k_new _ := true;
  k_malloc _ n := if bool_decide (0 <= n) then Some (replicate (Z.to_nat n) 120) else None;
  k_lstat _ p := if bool_decide (p = text "/srv/d/a.txt") then Some S_IFREG else None;
  k_open _ _ := 5;
  k_create _ _ := 6;
  k_opendir _ _ := None;
  k_write _ _ b := Z.min 2 (Z.of_nat (length b));
  k_submit _ := 0
|}.

#[export] Instance kernel_laws : KernelLaws.
Proof.
  split; intros w n b; simpl; case_bool_decide; [|done| |done]; intros [= <-].
  - rewrite length_replicate. lia.
  - apply Forall_replicate. unfold is_byte. lia.
Qed.

Definition folder : list Z := text "/srv/".
Definition service : sfs_service_ctx_t :=
  match ret_of (new_service true (text "/f/" ++ [0]) (folder ++ [0]) 3) (inl "") with inr ctx => ctx | inl _ => Service 0 0 0 [] [] end.

Lemma service_good : service_ok service folder.
Proof. split; [exists []; vm_compute; reflexivity|]. split; [vm_compute; reflexivity|]. by apply FolderDemo.cstring_test. Qed.

(** A request for the path [p], of which the first three bytes were matched. *)
Definition request (p : list Z) : h2esq_stream_t sfs_stream_ctx_t :=
  H2Stream.H2Stream _ 1 None None None (Some (text "GET" ++ [0]) :: Some (p ++ [0]) :: replicate 8 None)
    (3 :: Z.of_nat (length p) :: replicate 8 0) no_cookies (Some O) 3.

Lemma zero_bytes p : cstring p → Forall is_byte (p ++ [0]).
Proof. intros Hp. apply Forall_app. split; [by apply cstring_bytes|]. repeat constructor; lia. Qed.

Lemma request_ready p : cstring p → 3 <= Z.of_nat (length p) → ready app_ok service (request p).
Proof.
  intros Hp Hl. split; [|by exists (p ++ [0]), (Z.of_nat (length p))|done].
  destruct (new_stream_ok (App := sfs_stream_ctx_t) 1 _ eq_refl) as ([_ _ _ Hck] & _). split; [done|done| |exact Hck].
  intros i b l. destruct i as [|[|i]].
  - intros [= <-] [= <-]. split_and!; [done| |done]. apply (zero_bytes (text "GET")). by apply FolderDemo.cstring_test.
  - intros [= <-] [= <-]. split_and!; [rewrite length_app; simpl; lia| |by rewrite last_snoc]. by apply zero_bytes.
  - intros Hb. exfalso. simpl in Hb. do 8 (destruct i as [|i]; [done|]). done.
Qed.

(** A kernel with two folders, each with an index page. *)
Definition kernel2 : Kernel := {|
  k_new _ := true;
  k_malloc _ n := Some (replicate (Z.to_nat n) 120);
  k_lstat _ p := if bool_decide (p ∈ [text "/srv/"; text "/srv/d"]) then Some S_IFDIR
    else if bool_decide (p ∈ [text "/srv/index.html"; text "/srv/d/index.html"]) then Some S_IFREG else None;
  k_open _ _ := 5;
  k_create _ _ := 6;
  k_opendir _ _ := Some (Dir [] []);
  k_write _ _ b := Z.of_nat (length b);
  k_submit _ := 0
|}.
End SfsDemo.
#[local] Existing Instance SfsDemo.kernel.
#[local] Existing Instance SfsDemo.kernel_laws.


Lemma sfs_bind_instance_correct_witness :
  ∃ inst' ctx, sfs_bind_instance true true (fun _ => true) [Instance_ _ _ _ (text "a" ++ [0]) (Some HelloDemo.tree0) (replicate 16 None)]
      (text "a" ++ [0]) (text "/f/" ++ [0]) (SfsDemo.folder ++ [0]) 3 = Ret (None, [inst']) ∧
    bound inst' [(text "/f/", (sfs_service_class, ctx))] ∧ flags ctx = 3.
Proof.
  destruct (sfs_bind_instance_correct [Instance_ _ _ _ (text "a" ++ [0]) (Some HelloDemo.tree0) (replicate 16 None)] (text "a" ++ [0]) 0 _ []
    (text "/f/") SfsDemo.folder 3 eq_refl eq_refl (bound_new _ _ eq_refl) ltac:(done) ltac:(repeat constructor) (FolderDemo.cstring_test SfsDemo.folder eq_refl))
    as (inst' & ctx & E & Hb & _ & Hf & _).
  exists inst', ctx. split; [exact E|]. split; [exact Hb|exact Hf].
Defined.

(** The index page is found for the folder of the service only: for [d/] its name goes behind
    the zero of the path, and for [d] there is no slash before it. *)
Theorem index_page_not_found :
  let s := Service (Z.lor SFS_FLAGS_ALLOW_BROWSE SFS_FLAGS_SEND_INDEX_HTML) 3 5 (text "/f/" ++ [0]) (text "/srv/" ++ [0]) in
  let asked p := (ret_of (sfs_handler (H := SfsDemo.kernel2) s (SfsDemo.request (text p)) []) (0, SfsDemo.request (text p), [])).2 in
  asked "/f/"%string = [CMalloc 17; CLstat (text "/srv/"); CLstat (text "/srv/index.html"); CNew; COpen (text "/srv/index.html"); CSubmit] ∧
  asked "/f/d/"%string = [CMalloc 19; CLstat (text "/srv/d"); CLstat (text "/srv/d"); CNew; COpendir (text "/srv/d"); CSubmit] ∧
  asked "/f/d"%string = [CMalloc 18; CLstat (text "/srv/d"); CLstat (text "/srv/dindex.html"); CNew; COpendir (text "/srv/d"); CSubmit].
Proof. vm_compute. by split_and!. Qed.
