(* ===== verification/SfsUpload.v ===== *)
(** * A posted form stores its file

    The callback of [post-parser.c] over what the form parser tells it: fields without a
    file are skipped, the file of the last field is created, written and closed. *)
From stdpp Require Import strings.
From S2P Require Import Prelude CString CText PostData HeadMatch SfsFolder H2Stream H2StreamThms Sfs SfsThms.
Import Slash SafePath.

(** ** Callbacks that accept *)
Section Accepts.
  Context {App : Type} (cb : App → Z → list Z → Z * App).

(** The callback returns 0 for each of the elements [e], from [a] to [a']. *)
Fixpoint accepts (a : App) (e : list (Z * list Z)) (a' : App) : Prop :=
  match e with
  | [] => a = a'
  | (et, v) :: e => ∃ a1, cb a et v = (0, a1) ∧ accepts a1 e a'
  end.

Lemma accepts_app a a1 a2 e1 e2 : accepts a e1 a1 → accepts a1 e2 a2 → accepts a (e1 ++ e2) a2.
Proof.
  revert a. induction e1 as [|[et v] e1 IH]; intros a; simpl; [by intros ->|]. intros (a' & E & H1) H2. exists a'. split; [done|]. by apply (IH a').
Qed.

Lemma accepts_same a e : Forall (fun x => cb a x.1 x.2 = (0, a)) e → accepts a e a.
Proof. induction 1 as [|[et v] e H _ IH]; simpl; [done|]. by exists a. Qed.

Lemma accepts_acc a e a' : accepts a e a' → acc cb a e = a'.
Proof.
  revert a. induction e as [|[et v] e IH]; intros a; simpl; [done|]. intros (a1 & E & H). unfold acc. cbn [foldl fst snd]. rewrite E. by apply IH.
Qed.

Lemma accepts_prefix a e et v e2 a' : accepts a ((e ++ [(et, v)]) ++ e2) a' → (cb (acc cb a e) et v).1 = 0.
Proof.
  revert a. induction e as [|[et1 v1] e IH]; intros a; simpl.
  - intros (a1 & E & _). unfold acc. cbn [foldl]. by rewrite E.
  - intros (a1 & E & H). apply IH in H. unfold acc in *. cbn [foldl fst snd]. by rewrite E.
Qed.

(** The parser over a form that is accepted up to its end. *)
Lemma accepted_form b fs pad a a' : boundary_ok b → fs ≠ [] → Forall (field_ok b) fs → (17 <= length pad)%nat →
  let fin := [45; 45; 13; 10] in
  accepts a ([(POST_ET_BOUNDARY, b)] ++ concat (field_events b <$> fs)) a' →
  ∃ ctx, post_data_parser cb (body b fs ++ pad) (Z.of_nat (length (body b fs))) fresh_ctx a = Ret (0, (cb a' POST_ET_FINISH fin).2, ctx) ∧
    last_item_type ctx = POST_ET_FINISH.
Proof.
  intros Hb Hne Hfs Hpad fin Ha. destruct (form_read_back b fs pad Hb Hne Hfs Hpad) as (ctx & E & Hl). exists ctx. split; [|done].
  set (E1 := [(POST_ET_BOUNDARY, b)] ++ concat (field_events b <$> fs)) in *.
  assert (Ee : events b fs = E1 ++ [(POST_ET_FINISH, fin)]) by (unfold events, E1; by rewrite app_assoc).
  rewrite (parser_told cb _ _ a (events b fs)) with (2 := E).
  - rewrite Ee, acc_snoc. by rewrite (accepts_acc a E1 a' Ha).
  - intros e et v [e2 He] H1 _. rewrite Ee in He. destruct e2 as [|x e2 _] using rev_ind.
    + rewrite app_nil_r in He. apply app_inj_tail in He as [_ [= <- _]]. done.
    + rewrite app_assoc in He. apply app_inj_tail in He as [He _]. rewrite He in Ha. by eapply accepts_prefix.
Qed.
End Accepts.

(** ** The callback of the file service *)
Section Upload.
  Context `{Kernel} `{!KernelLaws} (s : sfs_service_ctx_t) (lp : list Z) (st : h2esq_stream_t sfs_stream_ctx_t).
  Context (Hs : service_ok s lp) (Hr : ready app_ok s st) (Hup : Z.land SFS_FLAGS_ALLOW_UPLOAD (flags s) ≠ 0).
  Local Notation cb := (post_cb s st).
  Implicit Types (c : sfs_stream_ctx_t) (w : list call).

Lemma cb_element c w et v r c' w' : post_state c ≠ STATE_ERROR → post_state c ≠ STATE_FINISHED → et ≠ POST_ET_FILENAME →
  post_element c w et v (Z.of_nat (length v)) = Ret (r, c', w') → cb (Ret (c, w)) et v = (r, Ret (c', w')).
Proof.
  intros H1 H2 H3 E. unfold post_cb, sfs_post_data_parser_cb. rewrite (proj2 (Z.eqb_neq _ 0)) by done.
  destruct (Z.eqb_spec POST_ET_FILENAME et); [done|]. rewrite E. by destruct (post_state c).
Qed.

(** Until a file name comes nothing happens. *)
Lemma cb_plain c w et v : post_state c = STATE_INIT → et ≠ POST_ET_FILENAME → cb (Ret (c, w)) et v = (0, Ret (c, w)).
Proof.
  intros Hi Hf. apply cb_element; [by rewrite Hi..|done|]. unfold post_element. rewrite Hi. by repeat case_match.
Qed.

(** After it, nothing until the value. *)
Lemma cb_open c w et v : post_state c = STATE_OPEN → et ≠ POST_ET_FILENAME → et ≠ POST_ET_VALUE → cb (Ret (c, w)) et v = (0, Ret (c, w)).
Proof.
  intros Hi Hf Hv. apply cb_element; [by rewrite Hi..|done|]. unfold post_element. rewrite Hi. destruct (Z.eqb_spec POST_ET_VALUE et); [done|]. by case_match.
Qed.

Lemma cb_value c w v : post_state c = STATE_OPEN → 0 < post_fd c → progress (post_fd c) →
  ∃ bs, cb (Ret (c, w)) POST_ET_VALUE v =
      (0, Ret (set_post (post_fd c) STATE_RECV (i32 (post_len c + Z.of_nat (length v))) c, w ++ (CWrite (post_fd c) <$> bs))) ∧ concat bs = v.
Proof.
  intros Hi Hfd Hp. destruct (write_loop_ok (post_fd c) v (S (Z.to_nat (Z.of_nat (length v)))) 0 w) as (ok & k & E & Hk); [lia..|].
  destruct (Hk Hp ltac:(lia)) as [-> Hw]. exists k. split; [|by rewrite Hw, drop_0].
  apply cb_element; [by rewrite Hi..|done|]. unfold post_element. rewrite Hi. simpl (_ =? _). cbv iota. unfold post_value, sfs_write_post_file.
  rewrite (proj2 (Z.leb_gt _ 0)) by done. rewrite E. reflexivity.
Qed.

Lemma cb_close c w v : post_state c = STATE_RECV →
  cb (Ret (c, w)) POST_ET_BOUNDARY v = (0, Ret (set_post (-1) STATE_FINISHED (post_len c) c, w ++ [CClose (post_fd c)])).
Proof. intros Hi. apply cb_element; [by rewrite Hi..|done|]. unfold post_element. by rewrite Hi. Qed.

Lemma base_name_plain v : Forall (fun c : Z => is_slash c = false) v → base_name v = v.
Proof.
  intros Hv. unfold base_name. destruct (last_slash_spec v 0 (-1)) as [[-> _]|(k & c & _ & Hk & Hc & _)]; [done|].
  rewrite Forall_lookup in Hv. apply Hv in Hk. congruence.
Qed.

(** A safe name without a slash is created below the folder of the request. *)
Lemma cb_filename c w p0 fn : post_state c = STATE_INIT → header_strs st !! 1%nat = Some (Some (p0 ++ [0])) →
  fn ≠ [] → Forall (fun b : Z => 0 < b < 0x80) fn → safe_path fn = true → Forall (fun b : Z => is_slash b = false) fn →
  let lpath := drop (Z.to_nat (path_matched_length st)) p0 in
  let w1 := w ++ [CMalloc (Z.of_nat (length lp + length lpath + length fn + 2))] in
  let d := k_create w1 (post_name lp lpath fn) in
  is_Some (k_malloc w (Z.of_nat (length lp + length lpath + length fn + 2))) → d ≠ -1 →
  cb (Ret (c, w)) POST_ET_FILENAME fn = (0, Ret (set_post d STATE_OPEN (post_len c) c, w1 ++ [CCreate (post_name lp lpath fn)])).
Proof.
  intros Hi Hp Hne Hf Hsafe Hsl lpath w1 d [mb Hm] Hd. assert (Hc : cstring fn) by (eapply Forall_impl; [exact Hf|]; simpl; lia).
  destruct (open_post_ok s lp st c w fn Hs Hr (cstring_bytes _ Hc) Hne) as (p1 & l & Hp1 & _ & _ & E). rewrite Hp in Hp1.
  injection Hp1 as [<- _]%app_inj_tail. cbv zeta in E. fold lpath in E. rewrite Hm in E. destruct E as (u & safe & Hu & [z Hz] & Es & E).
  rewrite base_name_plain in Hz by done. assert (u = fn) as ->.
  { subst u. rewrite length_app in Hu. destruct z; [by rewrite app_nil_r|simpl in Hu; lia]. }
  destruct (very_safe_ok fn [] Hc (Forall_nil_2 _)) as (safe' & Es' & _ & _ & Hone). rewrite Es in Es'. injection Es' as <-.
  rewrite Hone in E; [|eapply Forall_impl; [exact Hf|]; simpl; lia|done]. simpl (1 =? 0) in E. cbv iota in E. fold w1 d in E.
  unfold post_cb, sfs_post_data_parser_cb. rewrite (proj2 (Z.eqb_neq _ 0)) by done. rewrite Hi. simpl (_ =? _). cbv iota. rewrite E.
  rewrite (proj2 (Z.eqb_neq (-1) d)) by done. reflexivity.
Qed.

(** The elements of fields without a file. *)
Lemma plain_fields c w b fs : post_state c = STATE_INIT → Forall (fun f => f_file f = None) fs →
  accepts cb (Ret (c, w)) (concat (field_events b <$> fs)) (Ret (c, w)).
Proof.
  intros Hi Hfs. apply accepts_same, Forall_concat, Forall_fmap. eapply Forall_impl; [exact Hfs|]. intros f Hf. unfold compose, field_events. rewrite Hf.
  repeat constructor; by apply cb_plain.
Qed.
End Upload.

(** C18: A form of fields without a file and then one with a file, posted in one piece with 17
    readable bytes behind it to a service that allows uploads, is accepted: the file is created
    below the folder of the request under the name in the form, exactly its value is written to
    it, however little the kernel takes at a time, and it is closed.  The name is not empty, has
    only safe ASCII characters and no slash; the fields, the boundary and the values fulfil
    [field_ok] and [boundary_ok]; there is memory, the file can be created with a descriptor above 0, and every write
    takes something. *)
Theorem sfs_upload_stores `{Kernel} `{!KernelLaws} s lp (st : h2esq_stream_t sfs_stream_ctx_t) w p0 b fs nm fn ct v pad :
  service_ok s lp → ready app_ok s st → Z.land SFS_FLAGS_ALLOW_UPLOAD (flags s) ≠ 0 →
  app_stream_ctx st = None → header_strs st !! 1%nat = Some (Some (p0 ++ [0])) →
  let form := fs ++ [Field nm (Some (fn, ct)) v] in
  boundary_ok b → Forall (field_ok b) form → Forall (fun f => f_file f = None) fs → (17 <= length pad)%nat →
  fn ≠ [] → Forall (fun b : Z => 0 < b < 0x80) fn → safe_path fn = true → Forall (fun b : Z => is_slash b = false) fn →
  let lpath := drop (Z.to_nat (path_matched_length st)) p0 in
  let n := Z.of_nat (length lp + length lpath + length fn + 2) in
  let w1 := (w ++ [CNew]) ++ [CMalloc n] in
  let name := post_name lp lpath fn in
  let d := k_create w1 name in
  k_new w = true → is_Some (k_malloc (w ++ [CNew]) n) → 0 < d → progress d →
  ∃ st' c bs, sfs_chunk_recv_cb s st (body b form ++ pad) (Z.of_nat (length (body b form))) w =
      Ret (0, st', w1 ++ [CCreate name] ++ (CWrite d <$> bs) ++ [CClose d]) ∧ concat bs = v ∧
    app_stream_ctx st' = Some c ∧ post_fd c = -1 ∧ post_state c = STATE_FINISHED.
Proof.
  intros Hs Hr Hup Ha Hp form Hb Hform Hplain Hpad Hne Hf Hsafe Hsl lpath n w1 name d Hnew Hm Hd Hprog.
  unfold sfs_chunk_recv_cb, stream_ctx, h2esq_stream_get_app_ctx. rewrite Ha, Hnew. cbn [sfs_new_ctx h2esq_stream_set_app_ctx snd].
  set (c0 := SfsFolder.Stream _ _ _ _ _ _ _ _ _ _ _). set (st1 := set_app (Some c0) st).
  assert (Hr1 : ready app_ok s st1) by (apply (ready_set_app s st (Some c0) Hr); done).
  assert (Hd1 : d ≠ -1) by lia. set (c1 := set_post d STATE_OPEN 0 c0). pose proof (cb_filename s lp st1 Hs Hr1 Hup c0 (w ++ [CNew]) p0 fn eq_refl Hp Hne Hf Hsafe Hsl Hm Hd1) as Hfn.
  destruct (cb_value s st1 Hup c1 (w1 ++ [CCreate name]) v eq_refl Hd Hprog) as (bs & Hv & Hbs). cbn [post_fd c1 set_post] in Hv.
  destruct (accepted_form (post_cb s st1) b form pad (Ret (c0, w ++ [CNew]))
    (Ret (set_post (-1) STATE_FINISHED (i32 (0 + Z.of_nat (length v))) c0, ((w1 ++ [CCreate name]) ++ (CWrite d <$> bs)) ++ [CClose d]))
    Hb ltac:(by destruct fs) Hform Hpad) as (ctx & E & _).
  - apply (accepts_app _ _ (Ret (c0, w ++ [CNew]))).
    { eexists. split; [by apply cb_plain|done]. }
    unfold form. rewrite fmap_app, concat_app. apply (accepts_app _ _ (Ret (c0, w ++ [CNew]))); [by apply plain_fields|].
    simpl. eexists. split; [by apply cb_plain|]. eexists. split; [by apply cb_plain|]. eexists. split; [exact Hfn|].
    eexists. split; [by apply cb_open|]. eexists. split; [by apply cb_open|]. eexists. split; [exact Hv|].
    eexists. split; [by apply cb_close|done].
  - change (post_parser_ctx c0) with fresh_ctx. assert (E1 : (h2esq_stream_set_app_ctx st c0).2 = st1) by (unfold h2esq_stream_set_app_ctx; by rewrite Ha). rewrite E1, E. cbn [mbind cres_bind]. unfold post_cb, sfs_post_data_parser_cb.
    rewrite (proj2 (Z.eqb_neq _ 0)) by done. cbn [post_state set_post snd mbind cres_bind]. eexists _, _, bs. rewrite <- !app_assoc. by split_and!.
Qed.

#[local] Existing Instance SfsDemo.kernel.
#[local] Existing Instance SfsDemo.kernel_laws.

(** A file named [u.txt] is stored two bytes at a time. *)
Lemma sfs_upload_stores_witness :
  let form := [Field (text "note") None (text "hi")] ++ [Field (text "file") (Some (text "u.txt", text " text/plain")) (text "abc")] in
  ∃ st' c bs, sfs_chunk_recv_cb SfsDemo.service (SfsDemo.request (text "/f/d")) (body demo_b form ++ replicate 17 0) (Z.of_nat (length (body demo_b form))) [] =
      Ret (0, st', [CNew; CMalloc 13; CCreate (text "/srv/d/u.txt")] ++ (CWrite 6 <$> bs) ++ [CClose 6]) ∧ concat bs = text "abc" ∧
    app_stream_ctx st' = Some c ∧ post_fd c = -1 ∧ post_state c = STATE_FINISHED.
Proof.
  intros form.
  apply (sfs_upload_stores SfsDemo.service SfsDemo.folder (SfsDemo.request (text "/f/d")) [] (text "/f/d") demo_b [Field (text "note") None (text "hi")]
    (text "file") (text "u.txt") (text " text/plain") (text "abc") (replicate 17 0) SfsDemo.service_good
    (SfsDemo.request_ready (text "/f/d") (FolderDemo.cstring_test (text "/f/d") eq_refl) ltac:(simpl; lia))); try (vm_compute; reflexivity).
  - discriminate.
  - split; [|simpl; lia]. apply (bool_decide_unpack _). vm_compute. exact I.
  - repeat apply Forall_cons_2; [..|apply Forall_nil_2]; unfold field_ok; simpl;
      repeat split; try discriminate; try (vm_compute; reflexivity); apply (bool_decide_unpack _); vm_compute; exact I.
  - by repeat constructor.
  - discriminate.
  - by repeat constructor.
  - by repeat constructor.
  - by eexists.
  - intros w b Hb. simpl. destruct b; [done|]. simpl. lia.
Defined.

(** Posting a form to the path [p]: what is returned, and the calls. *)
Definition posted (p : list Z) (form : list field) : Z * list call :=
  match sfs_chunk_recv_cb SfsDemo.service (SfsDemo.request p) (body demo_b form ++ replicate 17 0) (Z.of_nat (length (body demo_b form))) [] with
  | Ret (r, _, w) => (r, w)
  | _ => (-2, [])
  end.

(** The path of the request is not checked when a file is uploaded: with two dots in it the
    file is created outside the folder of the service. *)
Theorem upload_leaves_folder :
  posted (text "/f/../etc") [Field (text "f") (Some (text "u", text "t")) (text "a")] =
    (0, [CNew; CMalloc 14; CCreate (text "/srv/../etc/u"); CWrite 6 (text "a"); CClose 6]).
Proof. vm_compute. reflexivity. Qed.

(** A file name with a folder: its base name is shorter than the room that is left for it, and
    what the memory held becomes a part of the name. *)
Theorem upload_name_uninitialised :
  posted (text "/f/d") [Field (text "f") (Some (text "x/u", text "t")) (text "a")] =
    (0, [CNew; CMalloc 11; CCreate (text "/srv/d/uxx"); CWrite 6 (text "a"); CClose 6]).
Proof. vm_compute. reflexivity. Qed.

(** A field behind the file makes the form fail, after the file was stored. *)
Theorem upload_field_after_file :
  posted (text "/f/d") [Field (text "f") (Some (text "u", text "t")) (text "a"); Field (text "n") None (text "b")] =
    (-1, [CNew; CMalloc 9; CCreate (text "/srv/d/u"); CWrite 6 (text "a"); CClose 6]).
Proof. vm_compute. reflexivity. Qed.

(** Without a file chosen the name is empty: the value is refused, and -1 is closed. *)
Theorem upload_without_file :
  posted (text "/f/d") [Field (text "f") (Some ([], text "t")) []] = (-1, [CNew; CClose (-1)]).
Proof. vm_compute. reflexivity. Qed.
