(* ===== verification/Logger.v ===== *)
(** * The logger

    [src/logger.c]: callers of [esq_log] print into a ring of four buffers, one thread
    writes full or partly filled buffers to a file.  All share a spin lock and two
    semaphores.  What happens between taking and giving back the lock is one definition,
    an operation on a semaphore another; [user_step] and [worker_step] run a thread up to
    its next such point, and [step] interleaves any number of them.  What a format prints,
    the clock and the answers of the file system are arguments. *)
From S2P Require Import Prelude CString.

Definition LOGBUFCNT : Z := 4.
Definition LOGBUFSIZE : Z := 4096.
Definition IOERRORPAUSEGAP : Z := 60 * 5.
Definition ESQ_OK : Z := 0.
Definition ESQ_ERROR_PARAM : Z := -1.
Definition ESQ_ERROR_SIZE : Z := -5.
Definition ESQ_ERROR_CLOSE : Z := -7.

Inductive bstate := BUFFER_S_EMPTY | BUFFER_S_USE | BUFFER_S_FULL.

#[export] Instance bstate_eq_dec : EqDecision bstate.
Proof. solve_decision. Defined.

(** The variables of the file; [disk] is the content of the files by name and [opened] the
    names of the files opened so far, in order. *)
Record logger := Logger {
  esq_logger_buf : list (list Z);
  esq_logger_buf_offset : list Z;
  esq_logger_buf_state : list bstate;
  esq_logger_buf_user_idx : Z;
  esq_logger_buf_worker_idx : Z;
  esq_logger_user_sem : nat;
  esq_logger_worker_sem : nat;
  esq_logger_fd : option (list Z);
  esq_logger_stop_flag : bool;
  esq_logger_change_filename_flag : bool;
  esq_logger_filename_idx : Z;
  esq_logger_last_io_error_time : Z;
  disk : gmap (list Z) (list Z);
  opened : list (list Z)
}.

Definition with_ring (b : list (list Z)) (o : list Z) (s : list bstate) (u w : Z) (L : logger) : logger :=
  Logger b o s u w (esq_logger_user_sem L) (esq_logger_worker_sem L) (esq_logger_fd L) (esq_logger_stop_flag L)
    (esq_logger_change_filename_flag L) (esq_logger_filename_idx L) (esq_logger_last_io_error_time L) (disk L) (opened L).
Definition with_sems (u w : nat) (L : logger) : logger :=
  Logger (esq_logger_buf L) (esq_logger_buf_offset L) (esq_logger_buf_state L) (esq_logger_buf_user_idx L)
    (esq_logger_buf_worker_idx L) u w (esq_logger_fd L) (esq_logger_stop_flag L)
    (esq_logger_change_filename_flag L) (esq_logger_filename_idx L) (esq_logger_last_io_error_time L) (disk L) (opened L).
Definition with_flags (stop change : bool) (L : logger) : logger :=
  Logger (esq_logger_buf L) (esq_logger_buf_offset L) (esq_logger_buf_state L) (esq_logger_buf_user_idx L)
    (esq_logger_buf_worker_idx L) (esq_logger_user_sem L) (esq_logger_worker_sem L) (esq_logger_fd L) stop
    change (esq_logger_filename_idx L) (esq_logger_last_io_error_time L) (disk L) (opened L).
Definition with_file (fd : option (list Z)) (i t : Z) (d : gmap (list Z) (list Z)) (os : list (list Z)) (L : logger)
    : logger :=
  Logger (esq_logger_buf L) (esq_logger_buf_offset L) (esq_logger_buf_state L) (esq_logger_buf_user_idx L)
    (esq_logger_buf_worker_idx L) (esq_logger_user_sem L) (esq_logger_worker_sem L) fd (esq_logger_stop_flag L)
    (esq_logger_change_filename_flag L) i t d os.

Definition put_buf (i : Z) (b : list Z) (L : logger) : cres logger :=
  bs ← wr (esq_logger_buf L) i b;
  Ret (with_ring bs (esq_logger_buf_offset L) (esq_logger_buf_state L) (esq_logger_buf_user_idx L)
         (esq_logger_buf_worker_idx L) L).
Definition put_offset (i o : Z) (L : logger) : cres logger :=
  os ← wr (esq_logger_buf_offset L) i o;
  Ret (with_ring (esq_logger_buf L) os (esq_logger_buf_state L) (esq_logger_buf_user_idx L)
         (esq_logger_buf_worker_idx L) L).
Definition put_state (i : Z) (s : bstate) (L : logger) : cres logger :=
  ss ← wr (esq_logger_buf_state L) i s;
  Ret (with_ring (esq_logger_buf L) (esq_logger_buf_offset L) ss (esq_logger_buf_user_idx L)
         (esq_logger_buf_worker_idx L) L).
Definition put_user_idx (u : Z) (L : logger) : logger :=
  with_ring (esq_logger_buf L) (esq_logger_buf_offset L) (esq_logger_buf_state L) u (esq_logger_buf_worker_idx L) L.
Definition put_worker_idx (w : Z) (L : logger) : logger :=
  with_ring (esq_logger_buf L) (esq_logger_buf_offset L) (esq_logger_buf_state L) (esq_logger_buf_user_idx L) w L.

(** ** Files *)

(** [%0kd]. *)
Definition padded (k : nat) (z : Z) : list Z :=
  let t := c_decimal z in replicate (k - length t) 48 ++ t.

(** The broken-down time the name is made of. *)
Record tm := Tm { tm_year : Z; tm_mon : Z; tm_mday : Z; tm_hour : Z; tm_min : Z; tm_sec : Z }.

Definition log_filename (t : tm) (i : Z) : list Z :=
  [108; 111; 103; 45] ++ padded 4 (tm_year t + 1900) ++ [45] ++ padded 2 (tm_mon t + 1) ++ [45] ++
  padded 2 (tm_mday t + 1) ++ [45] ++ padded 2 (tm_hour t) ++ [45] ++ padded 2 (tm_min t) ++ [45] ++
  padded 2 (tm_sec t) ++ [45] ++ padded 4 i ++ [46; 108; 111; 103].

(** What the operating system answers while a buffer is written. *)
Record env := Env { e_time : Z; e_tm : tm; e_open : bool; e_write : Z }.

Definition esq_logger_fill_log_filename (t : tm) (buflen : Z) (L : logger) : cres (list Z * logger) :=
  let name := log_filename t (esq_logger_filename_idx L) in
  let i := esq_logger_filename_idx L + 1 in
  let i := if 9999 <? i then 0 else i in
  let r := Z.of_nat (length name) in
  if (r <=? 0) || (buflen <=? r) then Exit else
  Ret (name, with_file (esq_logger_fd L) i (esq_logger_last_io_error_time L) (disk L) (opened L) L).

(** The open file, or a new one; [None] when it cannot be opened. *)
Definition log_open (e : env) (L : logger) : cres (option (list Z) * logger) :=
  match esq_logger_fd L with
  | Some f => Ret (Some f, L)
  | None =>
      '(fn, L) ← esq_logger_fill_log_filename (e_tm e) 128 L;
      if e_open e then
        Ret (Some fn, with_file (Some fn) (esq_logger_filename_idx L) (esq_logger_last_io_error_time L)
                        (<[fn := []]> (disk L)) (opened L ++ [fn]) L)
      else Ret (None, L)
  end.

(** [write] appends what it took, all or a part. *)
Definition esq_logger_flush_to_disk (e : env) (buf_idx buf_length : Z) (L : logger) : cres (Z * logger) :=
  '(f, L) ← log_open e L;
  match f with
  | None => Ret (-1, L)
  | Some f =>
      b ← rd (esq_logger_buf L) buf_idx;
      let r := Z.min (e_write e) buf_length in
      let d := match disk L !! f with Some c => c | None => [] end in
      let L := with_file (esq_logger_fd L) (esq_logger_filename_idx L) (esq_logger_last_io_error_time L)
                 (<[f := d ++ take (Z.to_nat r) b]> (disk L)) (opened L) L in
      Ret (if r =? buf_length then 0 else -1, L)
  end.

Definition esq_logger_close_file (L : logger) : logger :=
  with_file None (esq_logger_filename_idx L) (esq_logger_last_io_error_time L) (disk L) (opened L) L.

Definition esq_logger_buf_next_idx (i : Z) : Z := let r := i + 1 in if LOGBUFCNT <=? r then 0 else r.

(** ** The worker between lock and unlock *)

Fixpoint pick_loop (n : nat) (L : logger) (idx : Z) : cres (option Z) :=
  match n with
  | O => Ret None
  | S n =>
      s ← rd (esq_logger_buf_state L) idx;
      if decide (BUFFER_S_EMPTY = s) then pick_loop n L (esq_logger_buf_next_idx idx) else Ret (Some idx)
  end.

(** Which buffer to write, with its length; [None]: nothing to write this time. *)
Definition flush_pick (L : logger) : cres (option Z * logger) :=
  let idx := esq_logger_buf_worker_idx L in
  let idx := if idx =? esq_logger_buf_user_idx L then esq_logger_buf_next_idx idx else idx in
  r ← pick_loop (Z.to_nat LOGBUFCNT) L idx;
  match r with
  | None => Ret (None, L)
  | Some idx =>
      L ← put_state idx BUFFER_S_FULL (put_worker_idx idx L);
      offset ← rd (esq_logger_buf_offset L) idx;
      Ret (if offset =? 0 then None else Some offset, L)
  end.

Definition flush_done (L : logger) : cres logger :=
  L ← put_offset (esq_logger_buf_worker_idx L) 0 L;
  put_state (esq_logger_buf_worker_idx L) BUFFER_S_EMPTY L.

Definition drop_all (L : logger) : logger :=
  with_ring (esq_logger_buf L) (replicate (Z.to_nat LOGBUFCNT) 0) (replicate (Z.to_nat LOGBUFCNT) BUFFER_S_EMPTY) 0 0 L.

(** ** A caller between lock and unlock *)

Inductive log_out := Return (r : Z) | Wait | Again | Accepted.

(** The buffer to print into; [None]: the ring is full. *)
Definition log_buffer (L : logger) : cres (option logger) :=
  let u := esq_logger_buf_user_idx L in
  s ← rd (esq_logger_buf_state L) u;
  if decide (BUFFER_S_FULL = s) then
    let next := esq_logger_buf_next_idx u in
    sn ← rd (esq_logger_buf_state L) next;
    if decide (BUFFER_S_EMPTY = sn) then
      L ← put_state next BUFFER_S_USE (put_user_idx next L);
      L ← put_offset next 0 L;
      Ret (Some L)
    else Ret None
  else L ← put_state u BUFFER_S_USE L; Ret (Some L).

Definition log_section (L : logger) (text : list Z) : cres (log_out * logger) :=
  if esq_logger_stop_flag L then Ret (Return ESQ_ERROR_CLOSE, L) else
  m ← log_buffer L;
  match m with
  | None => Ret (Wait, L)
  | Some L =>
      let u := esq_logger_buf_user_idx L in
      b ← rd (esq_logger_buf L) u;
      offset ← rd (esq_logger_buf_offset L) u;
      let '(r, t) := c_snprintf (drop (Z.to_nat offset) b) text in
      L ← put_buf u (take (Z.to_nat offset) b ++ t) L;
      if r <=? 0 then Ret (Return ESQ_ERROR_PARAM, L)
      else if LOGBUFSIZE - offset <=? r then
        if LOGBUFSIZE <=? r then Ret (Return ESQ_ERROR_SIZE, L)
        else L ← put_state u BUFFER_S_FULL L; Ret (Again, L)
      else L ← put_offset u (offset + r) L; Ret (Accepted, L)
  end.

(** ** Threads *)

(** Where a caller is: trying, before and in the wait for a free buffer, before the two
    posts after success, back with a result; or a script that asks for a new file. *)
Inductive upc :=
| UTry (text : list Z)
| UPostWait (text : list Z)
| USemWait (text : list Z)
| UPostW
| UPostU
| UChange
| UChangePost
| UDone (r : Z).

(** Where a call of [esq_logger_flush_one_buffer] returns to: the loop, or round [i] of the
    last four. *)
Inductive wret := KLoop | KLast (i : nat).

Inductive wpc :=
| WSemWait
| WStopCheck
| WTime (k : wret)
| WPick (k : wret)
| WWrite (k : wret) (offset : Z)
| WDone (k : wret)
| WDrop (k : wret)
| WPost (k : wret)
| WChange
| WCloseFile
| WClose
| WEnd.

(** [esq_logger_detach]: the flag, the two posts, the wait for the worker. *)
Inductive dpc := DIdle | DPostU | DPostW | DJoin | DOver.

(** All threads; [accepted] are the texts of the calls that were accepted, in order. *)
Record sys := Sys {
  lg : logger;
  users : list upc;
  worker : wpc;
  detach : dpc;
  accepted : list (list Z)
}.

Definition post_user (L : logger) : logger :=
  with_sems (S (esq_logger_user_sem L)) (esq_logger_worker_sem L) L.
Definition post_worker (L : logger) : logger :=
  with_sems (esq_logger_user_sem L) (S (esq_logger_worker_sem L)) L.
Definition wait_user (L : logger) : option logger :=
  match esq_logger_user_sem L with S n => Some (with_sems n (esq_logger_worker_sem L) L) | O => None end.
Definition wait_worker (L : logger) : option logger :=
  match esq_logger_worker_sem L with S n => Some (with_sems (esq_logger_user_sem L) n L) | O => None end.

(** One move of caller [i]; [None]: it has to wait or is done. *)
Definition esq_log (L : logger) (pc : upc) : cres (option (logger * upc * list (list Z))) :=
  match pc with
  | UTry text =>
      '(o, L) ← log_section L text;
      Ret (Some match o with
                | Return r => (L, UDone r, [])
                | Wait => (L, UPostWait text, [])
                | Again => (L, UTry text, [])
                | Accepted => (L, UPostW, [text])
                end)
  | UPostWait text => Ret (Some (post_worker L, USemWait text, []))
  | USemWait text => Ret (L ← wait_user L; Some (L, UTry text, []))
  | UPostW => Ret (Some (post_worker L, UPostU, []))
  | UPostU => Ret (Some (post_user L, UDone ESQ_OK, []))
  | UChange => Ret (Some (with_flags (esq_logger_stop_flag L) true L, UChangePost, []))
  | UChangePost => Ret (Some (post_worker L, UDone 0, []))
  | UDone _ => Ret None
  end.

Definition user_step (i : nat) (s : sys) : cres (option sys) :=
  match users s !! i with
  | None => Ret None
  | Some pc =>
      r ← esq_log (lg s) pc;
      Ret ('(L, pc, a) ← r; Some (Sys L (<[i := pc]> (users s)) (worker s) (detach s) (accepted s ++ a)))
  end.

(** Behind a call of [esq_logger_flush_one_buffer]. *)
Definition after_flush (k : wret) : wpc :=
  match k with
  | KLoop => WChange
  | KLast i => if Z.of_nat (S i) <? LOGBUFCNT then WTime (KLast (S i)) else WClose
  end.

Definition esq_logger_worker (e : env) (L : logger) (pc : wpc) : cres (option (logger * wpc)) :=
  match pc with
  | WSemWait => Ret (L ← wait_worker L; Some (L, WStopCheck))
  | WStopCheck => Ret (Some (L, if esq_logger_stop_flag L then WTime (KLast 0) else WTime KLoop))
  | WTime k =>
      Ret (Some (L, if negb (esq_logger_last_io_error_time L =? 0) &&
                       (esq_logger_last_io_error_time L + IOERRORPAUSEGAP <? e_time e)
                    then WDrop k else WPick k))
  | WPick k =>
      '(o, L) ← flush_pick L;
      Ret (Some (L, match o with None => WPost k | Some offset => WWrite k offset end))
  | WWrite k offset =>
      '(r, L) ← esq_logger_flush_to_disk e (esq_logger_buf_worker_idx L) offset L;
      Ret (Some (if negb (r =? 0)
                 then (with_file (esq_logger_fd L) (esq_logger_filename_idx L) (e_time e) (disk L) (opened L) L, WDrop k)
                 else (L, WDone k)))
  | WDone k => L ← flush_done L; Ret (Some (L, WPost k))
  | WDrop k => Ret (Some (drop_all L, WPost k))
  | WPost k => Ret (Some (post_user L, after_flush k))
  | WChange =>
      Ret (Some (if esq_logger_change_filename_flag L
                 then (with_flags (esq_logger_stop_flag L) false L, WCloseFile) else (L, WSemWait)))
  | WCloseFile => Ret (Some (esq_logger_close_file L, WSemWait))
  | WClose => Ret (Some (esq_logger_close_file L, WEnd))
  | WEnd => Ret None
  end.

Definition worker_step (e : env) (s : sys) : cres (option sys) :=
  r ← esq_logger_worker e (lg s) (worker s);
  Ret ('(L, pc) ← r; Some (Sys L (users s) pc (detach s) (accepted s))).

Definition esq_logger_detach (L : logger) (w : wpc) (pc : dpc) : option (logger * dpc) :=
  match pc with
  | DIdle => Some (with_flags true (esq_logger_change_filename_flag L) L, DPostU)
  | DPostU => Some (post_user L, DPostW)
  | DPostW => Some (post_worker L, DJoin)
  | DJoin => match w with WEnd => Some (L, DOver) | _ => None end
  | DOver => None
  end.

Definition detach_step (s : sys) : option sys :=
  '(L, pc) ← esq_logger_detach (lg s) (worker s) (detach s);
  Some (Sys L (users s) (worker s) pc (accepted s)).

Definition esq_logger_init : logger :=
  Logger (replicate 4 (replicate (Z.to_nat LOGBUFSIZE) 0)) (replicate 4 0) (replicate 4 BUFFER_S_EMPTY) 0 0 0 0
    None false false 0 0 ∅ [].
Definition init : sys := Sys esq_logger_init [] WSemWait DIdle [].

(** ** Runs *)

(** Moves of the threads there are. *)
Inductive move : sys → sys → Prop :=
| move_user i s s' : user_step i s = Ret (Some s') → move s s'
| move_worker e s s' : 0 < e_time e → worker_step e s = Ret (Some s') → move s s'.

(** All moves: a thread calls [esq_log] with a text that is [ok] or asks for a new file, and,
    if it [may_stop], the program ends. *)
Inductive step (ok : list Z → Prop) (may_stop : bool) : sys → sys → Prop :=
| step_move s s' : move s s' → step ok may_stop s s'
| step_call text s :
    ok text → step ok may_stop s (Sys (lg s) (users s ++ [UTry text]) (worker s) (detach s) (accepted s))
| step_change s : step ok may_stop s (Sys (lg s) (users s ++ [UChange]) (worker s) (detach s) (accepted s))
| step_detach s s' : may_stop = true → detach_step s = Some s' → step ok may_stop s s'.
