(* ===== verification/LoggerInv.v ===== *)
(** * The logger: the ring of buffers

    [ring] says which buffers are in use, oldest first, and [sinv] what every move of every
    thread keeps: what the files hold, followed by what the ring holds, is what was
    accepted. *)
From stdpp Require Import relations.
From S2P Require Import Prelude CString Logger.

(** ** The ring of buffers *)

Notation nxt := esq_logger_buf_next_idx.

Definition state_at (L : logger) (i : Z) : option bstate := esq_logger_buf_state L !! Z.to_nat i.
Definition offset_at (L : logger) (i : Z) : option Z := esq_logger_buf_offset L !! Z.to_nat i.
Definition buf_at (L : logger) (i : Z) : option (list Z) := esq_logger_buf L !! Z.to_nat i.

(** What buffer [i] holds. *)
Definition content (L : logger) (i : Z) : list Z :=
  match offset_at L i, buf_at L i with Some o, Some b => take (Z.to_nat o) b | _, _ => [] end.

Fixpoint consecutive (q : list Z) : Prop :=
  match q with x :: ((y :: _) as q) => y = nxt x ∧ consecutive q | _ => True end.

(** The buffers in use are [q], oldest first: they follow each other and end with that of
    the callers; the worker stands on the first or just before it. *)
Record ring (L : logger) (q : list Z) : Prop := {
  rg_len : length (esq_logger_buf L) = 4%nat ∧ length (esq_logger_buf_offset L) = 4%nat ∧
           length (esq_logger_buf_state L) = 4%nat;
  rg_buf : Forall (fun b => Z.of_nat (length b) = LOGBUFSIZE) (esq_logger_buf L);
  rg_offset : Forall (fun o => 0 <= o < LOGBUFSIZE) (esq_logger_buf_offset L);
  rg_idx : 0 <= esq_logger_buf_user_idx L < 4 ∧ 0 <= esq_logger_buf_worker_idx L < 4;
  rg_in i : i ∈ q ↔ 0 <= i < 4 ∧ state_at L i ≠ Some BUFFER_S_EMPTY;
  rg_nodup : NoDup q;
  rg_next : consecutive q;
  rg_last : q = [] ∨ last q = Some (esq_logger_buf_user_idx L);
  rg_head : match q with
            | [] => esq_logger_buf_worker_idx L = esq_logger_buf_user_idx L
            | x :: _ => esq_logger_buf_worker_idx L = x ∨ nxt (esq_logger_buf_worker_idx L) = x
            end;
  rg_empty i : 0 <= i < 4 → state_at L i = Some BUFFER_S_EMPTY → offset_at L i = Some 0
}.

Lemma nxt_range i : 0 <= i < 4 → 0 <= nxt i < 4 ∧ nxt i ≠ i.
Proof. intros Hi. unfold nxt, LOGBUFCNT. destruct (Z.leb_spec 4 (i + 1)); lia. Qed.

Lemma nxt_inj i j : 0 <= i < 4 → 0 <= j < 4 → nxt i = nxt j → i = j.
Proof.
  intros Hi Hj. unfold nxt, LOGBUFCNT. destruct (Z.leb_spec 4 (i + 1)), (Z.leb_spec 4 (j + 1)); lia.
Qed.

Lemma lookup_ins {A} (l : list A) i j v :
  0 <= i < Z.of_nat (length l) → 0 <= j →
  <[Z.to_nat i := v]> l !! Z.to_nat j = if decide (i = j) then Some v else l !! Z.to_nat j.
Proof.
  intros Hi Hj. case_decide as E; [subst; by rewrite list_lookup_insert_eq by lia|].
  apply list_lookup_insert_ne. lia.
Qed.

Lemma rd_in {A} (l : list A) i : 0 <= i < Z.of_nat (length l) → ∃ x, rd l i = Ret x ∧ l !! Z.to_nat i = Some x.
Proof.
  intros Hi. destruct (lookup_lt_is_Some_2 l (Z.to_nat i)) as [x Hx]; [lia|]. exists x. split; [|done].
  apply rd_Ret. split; [lia|done].
Qed.

Lemma consecutive_snoc q x y : consecutive (q ++ [x]) → y = nxt x → consecutive ((q ++ [x]) ++ [y]).
Proof.
  intros Hq ->. induction q as [|a q IH]; [done|]. destruct q as [|b q]; simpl in *; [naive_solver|].
  destruct Hq as [-> Hq]. split; [done|]. by apply IH.
Qed.

Lemma consecutive_tail x q : consecutive (x :: q) → consecutive q.
Proof. destruct q; [done|]. by intros [_ ?]. Qed.

Lemma ring_size L q : ring L q → (length q <= 4)%nat.
Proof.
  intros Hg. assert (Hs : (length q <= length [0; 1; 2; 3]%Z)%nat); [|done].
  apply submseteq_length, NoDup_submseteq; [apply (rg_nodup L q Hg)|]. intros i [Hi _]%(rg_in L q Hg).
  assert (i = 0 ∨ i = 1 ∨ i = 2 ∨ i = 3) as [->| [->| [->| ->]]] by lia; set_solver.
Qed.

(** The elements after the first are those after a next one. *)
Lemma consecutive_in x q y : consecutive (x :: q) → y ∈ x :: q → last (x :: q) ≠ Some y → nxt y ∈ q.
Proof.
  revert x. induction q as [|z q IH]; intros x Hc Hy Hl; simpl in Hl.
  - apply list_elem_of_singleton in Hy. congruence.
  - destruct Hc as [-> Hc]. apply elem_of_cons in Hy as [->|Hy]; [left|]. right. by apply (IH (nxt x)).
Qed.

Lemma pick_loop_step n L i :
  length (esq_logger_buf_state L) = 4%nat → 0 <= i < 4 →
  pick_loop (S n) L i = if decide (state_at L i = Some BUFFER_S_EMPTY) then pick_loop n L (nxt i) else Ret (Some i).
Proof.
  intros Hl Hi. destruct (rd_in (esq_logger_buf_state L) i) as (s & E & Hs); [lia|]. simpl. rewrite E. cbn [mbind cres_bind].
  unfold state_at. rewrite Hs. repeat case_decide; congruence.
Qed.

(** The worker takes the oldest buffer in use. *)
Lemma pick_idx L q :
  ring L q →
  pick_loop (Z.to_nat LOGBUFCNT) L
    (if esq_logger_buf_worker_idx L =? esq_logger_buf_user_idx L then nxt (esq_logger_buf_worker_idx L)
     else esq_logger_buf_worker_idx L) = Ret (head q).
Proof.
  intros Hg. pose proof (rg_len L q Hg) as (_ & _ & Hl). pose proof (rg_idx L q Hg) as [Hu Hw].
  assert (Hin : ∀ i, 0 <= i < 4 → i ∈ q ∨ state_at L i = Some BUFFER_S_EMPTY).
  { intros i Hi. destruct (decide (state_at L i = Some BUFFER_S_EMPTY)); [by right|left]. by apply (rg_in L q Hg). }
  assert (Hgo : ∀ n i, 0 <= i < 4 → pick_loop (S n) L i = if decide (i ∈ q) then Ret (Some i) else pick_loop n L (nxt i)).
  { intros n i Hi. rewrite pick_loop_step by auto. pose proof (rg_in L q Hg i) as Hi'. repeat case_decide; try done; naive_solver. }
  assert (Hnil : q = [] → ∀ n i, 0 <= i < 4 → pick_loop n L i = Ret None).
  { intros -> n. induction n as [|n IH]; intros i Hi; [done|]. rewrite pick_loop_step by auto.
    destruct (Hin i Hi) as [Hq|Hq]; [by apply elem_of_nil in Hq|]. rewrite decide_True by done. by apply IH, nxt_range. }
  change (Z.to_nat LOGBUFCNT) with 4%nat. set (w := esq_logger_buf_worker_idx L) in *. set (u := esq_logger_buf_user_idx L) in *.
  destruct q as [|x q].
  - apply Hnil; [done|]. destruct (w =? u); [by apply nxt_range|done].
  - pose proof (rg_last L _ Hg) as [Hlast|Hlast]; [done|]. fold u in Hlast.
    pose proof (rg_head L _ Hg) as Hh. fold w in Hh. assert (Hx : x ∈ x :: q) by left.
    pose proof (proj1 (proj1 (rg_in L _ Hg x) Hx)) as Hxr. pose proof (rg_nodup L _ Hg) as [Hxq _]%NoDup_cons.
    simpl (head _). destruct (Z.eqb_spec w u) as [Ewu|Ewu].
    + destruct Hh as [Hwx|Hwx].
      * assert (q = []) as ->.
        { destruct q as [|y q]; [done|]. exfalso. apply Hxq. rewrite <- Hwx, Ewu. simpl in Hlast |- *.
          by apply last_Some_elem_of in Hlast. }
        subst x. rewrite !Hgo by (repeat apply nxt_range; lia).
        assert (Hc : nxt (nxt (nxt (nxt w))) = w).
        { clear -Hw. assert (w = 0 ∨ w = 1 ∨ w = 2 ∨ w = 3) as [->| [->| [->| ->]]] by lia; done. }
        rewrite Hc, (decide_True (P := w ∈ [w])) by left.
        repeat (case_decide as Hd; [apply list_elem_of_singleton in Hd; by rewrite Hd|clear Hd]). done.
      * rewrite Hwx, Hgo by done. by rewrite decide_True.
    + rewrite Hgo by done. case_decide as Hwq.
      * destruct Hh as [->|Hwx]; [done|]. exfalso. apply Hxq. rewrite <- Hwx. apply (consecutive_in x q w); [|done|].
        -- apply (rg_next L _ Hg).
        -- rewrite Hlast. congruence.
      * destruct Hh as [->|Hwx]; [done|]. rewrite Hwx, Hgo by done. by rewrite decide_True.
Qed.

(** *** One buffer changes *)

Definition set_cell (i : Z) (s : bstate) (o : Z) (b : list Z) (L : logger) : logger :=
  with_ring (<[Z.to_nat i := b]> (esq_logger_buf L)) (<[Z.to_nat i := o]> (esq_logger_buf_offset L))
    (<[Z.to_nat i := s]> (esq_logger_buf_state L)) (esq_logger_buf_user_idx L) (esq_logger_buf_worker_idx L) L.

(** Everything but the ring is the same. *)
Definition rest (L : logger) :=
  (esq_logger_user_sem L, esq_logger_worker_sem L, esq_logger_fd L, esq_logger_stop_flag L,
   esq_logger_change_filename_flag L, esq_logger_filename_idx L, esq_logger_last_io_error_time L, disk L, opened L).
Definition same_rest (L L' : logger) : Prop := rest L' = rest L.

Definition cell (L : logger) (i : Z) (s : bstate) (o : Z) (b : list Z) : Prop :=
  state_at L i = Some s ∧ offset_at L i = Some o ∧ buf_at L i = Some b.

Lemma ring_cell L q i :
  ring L q → 0 <= i < 4 →
  ∃ s o b, cell L i s o b ∧ 0 <= o < LOGBUFSIZE ∧ Z.of_nat (length b) = LOGBUFSIZE.
Proof.
  intros Hg Hi. destruct (rg_len L q Hg) as (H1 & H2 & H3). unfold cell, state_at, offset_at, buf_at.
  destruct (lookup_lt_is_Some_2 (esq_logger_buf L) (Z.to_nat i)) as [b Hb]; [lia|].
  destruct (lookup_lt_is_Some_2 (esq_logger_buf_offset L) (Z.to_nat i)) as [o Ho]; [lia|].
  destruct (lookup_lt_is_Some_2 (esq_logger_buf_state L) (Z.to_nat i)) as [s Hs]; [lia|].
  exists s, o, b. split; [done|]. split.
  - apply (Forall_lookup_1 _ _ _ _ (rg_offset L q Hg) Ho).
  - apply (Forall_lookup_1 _ _ _ _ (rg_buf L q Hg) Hb).
Qed.

Lemma lcell_inj L i s o b s' o' b' : cell L i s o b → cell L i s' o' b' → s = s' ∧ o = o' ∧ b = b'.
Proof. unfold cell. naive_solver congruence. Qed.

Lemma content_cell L i s o b : cell L i s o b → content L i = take (Z.to_nat o) b.
Proof. intros (_ & Ho & Hb). unfold content. by rewrite Ho, Hb. Qed.

Section SetCell.
Context (L : logger) (q : list Z) (Hg : ring L q) (i : Z) (Hi : 0 <= i < 4) (s : bstate) (o : Z) (b : list Z).

Lemma set_cell_at j s' o' b' :
  0 <= j → cell (set_cell i s o b L) j s' o' b' ↔ if decide (i = j) then s' = s ∧ o' = o ∧ b' = b else cell L j s' o' b'.
Proof.
  intros Hj. destruct (rg_len L q Hg) as (H1 & H2 & H3). unfold cell, state_at, offset_at, buf_at, set_cell. simpl.
  rewrite !lookup_ins by lia. case_decide; [naive_solver|done].
Qed.

Lemma set_cell_state j : 0 <= j → state_at (set_cell i s o b L) j = if decide (i = j) then Some s else state_at L j.
Proof. intros Hj. destruct (rg_len L q Hg) as (H1 & H2 & H3). unfold state_at, set_cell. simpl. by rewrite lookup_ins by lia. Qed.

Lemma set_cell_offset j : 0 <= j → offset_at (set_cell i s o b L) j = if decide (i = j) then Some o else offset_at L j.
Proof. intros Hj. destruct (rg_len L q Hg) as (H1 & H2 & H3). unfold offset_at, set_cell. simpl. by rewrite lookup_ins by lia. Qed.

Lemma set_cell_content j :
  0 <= j → content (set_cell i s o b L) j = if decide (i = j) then take (Z.to_nat o) b else content L j.
Proof.
  intros Hj. destruct (rg_len L q Hg) as (H1 & H2 & H3). unfold content, offset_at, buf_at, set_cell. simpl.
  rewrite !lookup_ins by lia. by case_decide.
Qed.

Lemma set_cell_shape :
  0 <= o < LOGBUFSIZE → Z.of_nat (length b) = LOGBUFSIZE →
  (length (esq_logger_buf (set_cell i s o b L)) = 4%nat ∧ length (esq_logger_buf_offset (set_cell i s o b L)) = 4%nat ∧
   length (esq_logger_buf_state (set_cell i s o b L)) = 4%nat) ∧
  Forall (fun b => Z.of_nat (length b) = LOGBUFSIZE) (esq_logger_buf (set_cell i s o b L)) ∧
  Forall (fun o => 0 <= o < LOGBUFSIZE) (esq_logger_buf_offset (set_cell i s o b L)).
Proof.
  intros Ho Hb. destruct Hg as [(H1 & H2 & H3) Hfb Hfo]. simpl. rewrite !length_insert. split; [done|].
  split; by apply Forall_insert.
Qed.
End SetCell.

(** A buffer in use stays in use. *)
Lemma ring_keep L q i s o b :
  ring L q → i ∈ q → s ≠ BUFFER_S_EMPTY → 0 <= o < LOGBUFSIZE → Z.of_nat (length b) = LOGBUFSIZE →
  ring (set_cell i s o b L) q.
Proof.
  intros Hg Hi Hs Ho Hb. destruct (proj1 (rg_in L q Hg i) Hi) as [Hir Hne].
  destruct (set_cell_shape L q Hg i s o b Ho Hb) as (Hl & Hfb & Hfo).
  split; try done; [apply Hg| |apply Hg|apply Hg|apply Hg|apply Hg|].
  - intros j. rewrite (rg_in L q Hg). split; intros [Hj Hsj]; (split; [done|]).
    + rewrite (set_cell_state L q Hg) by lia. case_decide; congruence.
    + rewrite (set_cell_state L q Hg) in Hsj by lia. case_decide; congruence.
  - intros j Hj. rewrite (set_cell_state L q Hg), (set_cell_offset L q Hg) by lia. case_decide; [congruence|]. by apply Hg.
Qed.

(** The next buffer comes into use. *)
Lemma ring_add L q i s o b :
  ring L q → 0 <= i < 4 → state_at L i = Some BUFFER_S_EMPTY →
  (q = [] ∧ i = esq_logger_buf_user_idx L ∨ q ≠ [] ∧ i = nxt (esq_logger_buf_user_idx L)) →
  s ≠ BUFFER_S_EMPTY → 0 <= o < LOGBUFSIZE → Z.of_nat (length b) = LOGBUFSIZE →
  ring (set_cell i s o b (put_user_idx i L)) (q ++ [i]).
Proof.
  intros Hg Hi Hsi Hq Hs Ho Hb.
  assert (Hsc : ∀ j, 0 <= j → state_at (set_cell i s o b (put_user_idx i L)) j = if decide (i = j) then Some s else state_at L j)
    by apply (set_cell_state L q Hg i Hi s o b).
  assert (Hoc : ∀ j, 0 <= j → offset_at (set_cell i s o b (put_user_idx i L)) j = if decide (i = j) then Some o else offset_at L j)
    by apply (set_cell_offset L q Hg i Hi s o b).
  destruct (set_cell_shape L q Hg i s o b Ho Hb) as (Hl & Hfb & Hfo).
  assert (Hiq : i ∉ q) by (rewrite (rg_in L q Hg); naive_solver).
  split; try done.
  - split; [done|]. apply Hg.
  - intros j. rewrite elem_of_app, list_elem_of_singleton, (rg_in L q Hg). split.
    + intros [[Hj Hsj]| ->]; rewrite Hsc by lia; (split; [done|]); case_decide; congruence.
    + intros [Hj Hsj]. rewrite Hsc in Hsj by lia. case_decide; [by right|by left].
  - apply NoDup_app. split; [apply Hg|]. split; [|apply NoDup_singleton]. intros x Hx ->%list_elem_of_singleton. done.
  - destruct Hq as [[-> _]|[Hne Hnx]]; [done|]. destruct (rg_last L q Hg) as [?|Hlast]; [done|].
    apply last_Some in Hlast as [q' ->]. apply consecutive_snoc; [apply Hg|done].
  - right. by rewrite last_snoc.
  - pose proof (rg_head L q Hg) as Hh. destruct q as [|x q]; simpl in *; [|done]. left. naive_solver.
  - intros j Hj. rewrite Hsc, Hoc by lia. case_decide; [congruence|]. by apply Hg.
Qed.

(** The oldest buffer is free again. *)
Lemma ring_done L x q b :
  ring L (x :: q) → esq_logger_buf_worker_idx L = x → Z.of_nat (length b) = LOGBUFSIZE →
  ring (set_cell x BUFFER_S_EMPTY 0 b L) q.
Proof.
  intros Hg Hw Hb. assert (Hx : x ∈ x :: q) by left. destruct (proj1 (rg_in L _ Hg x) Hx) as [Hi _].
  assert (H0 : 0 <= 0 < LOGBUFSIZE) by done.
  destruct (set_cell_shape L _ Hg x BUFFER_S_EMPTY 0 b H0 Hb) as (Hl & Hfb & Hfo).
  pose proof (rg_nodup L _ Hg) as [Hxq Hnd]%NoDup_cons. pose proof (rg_next L _ Hg) as Hc.
  pose proof (rg_last L _ Hg) as [?|Hlast]; [done|].
  split; try done.
  - apply Hg.
  - intros j. split.
    + intros Hj. assert (Hj' : j ∈ x :: q) by by right. destruct (proj1 (rg_in L _ Hg j) Hj') as [Hjr Hjs].
      split; [done|]. rewrite (set_cell_state L _ Hg) by lia. case_decide; [congruence|done].
    + intros [Hj Hjs]. rewrite (set_cell_state L _ Hg) in Hjs by lia. case_decide; [done|].
      assert (Hj' : j ∈ x :: q) by by apply (rg_in L _ Hg). apply elem_of_cons in Hj'. naive_solver.
  - by apply consecutive_tail in Hc.
  - destruct q as [|y q]; [by left|]. right. exact Hlast.
  - simpl. rewrite Hw. destruct q as [|y q]; [simpl in Hlast; congruence|]. right. symmetry. apply Hc.
  - intros j Hj. rewrite (set_cell_state L _ Hg), (set_cell_offset L _ Hg) by lia. case_decide; [done|]. by apply (rg_empty L _ Hg).
Qed.

(** What the worker finds: nothing in use, or the oldest buffer, which is closed. *)
Lemma flush_pick_ok L q :
  ring L q →
  match q with
  | [] => flush_pick L = Ret (None, L)
  | x :: _ =>
      ∃ s o b L', cell L x s o b ∧ flush_pick L = Ret (if o =? 0 then None else Some o, L') ∧
        L' = set_cell x BUFFER_S_FULL o b (put_worker_idx x L) ∧ ring L' q ∧
        ∀ j, 0 <= j → content L' j = content L j
  end.
Proof.
  intros Hg. unfold flush_pick. rewrite (pick_idx L q Hg). cbn [mbind cres_bind]. destruct q as [|x q]; simpl (head _); [done|].
  assert (Hx : x ∈ x :: q) by left. destruct (proj1 (rg_in L _ Hg x) Hx) as [Hi Hne].
  destruct (ring_cell L _ x Hg Hi) as (s & o & b & Hc & Ho & Hb). pose proof Hc as (Hs & Hoff & Hbuf).
  destruct (rg_len L _ Hg) as (H1 & H2 & H3). exists s, o, b.
  assert (Hg' : ring (put_worker_idx x L) (x :: q)).
  { destruct Hg as [Ha Hb' Hc' [Hu Hw] Hin Hnd Hn Hl Hh He]. split; try done. by left. }
  eexists. split; [done|]. split; [|split; [reflexivity|split]].
  - unfold put_state. simpl. rewrite wr_Ret by lia. cbn [mbind cres_bind]. simpl.
    rewrite (proj2 (rd_Ret _ x o)) by (split; [lia|done]). cbn [mbind cres_bind].
    unfold set_cell. simpl. unfold offset_at, buf_at in Hoff, Hbuf. rewrite (list_insert_id _ _ _ Hoff), (list_insert_id _ _ _ Hbuf). done.
  - apply ring_keep; try done.
  - intros j Hj. rewrite (set_cell_content _ _ Hg') by lia. case_decide; [|done]. subst j. by rewrite (content_cell L x s o b).
Qed.

Lemma flush_done_ok L x q :
  ring L (x :: q) → esq_logger_buf_worker_idx L = x →
  ∃ b, flush_done L = Ret (set_cell x BUFFER_S_EMPTY 0 b L) ∧ buf_at L x = Some b ∧ ring (set_cell x BUFFER_S_EMPTY 0 b L) q.
Proof.
  intros Hg Hw. assert (Hx : x ∈ x :: q) by left. destruct (proj1 (rg_in L _ Hg x) Hx) as [Hi Hne].
  destruct (ring_cell L _ x Hg Hi) as (s & o & b & (Hs & Hoff & Hbuf) & Ho & Hb).
  destruct (rg_len L _ Hg) as (H1 & H2 & H3). exists b. split; [|split; [done|by apply ring_done]].
  unfold flush_done, put_offset, put_state. rewrite Hw, wr_Ret by lia. cbn [mbind cres_bind]. simpl. rewrite wr_Ret by lia.
  cbn [mbind cres_bind]. unfold set_cell. simpl. rewrite Hw. unfold buf_at in Hbuf. by rewrite (list_insert_id _ _ _ Hbuf).
Qed.

Lemma drop_all_ok L q : ring L q → ring (drop_all L) [].
Proof.
  intros Hg. assert (Hst : ∀ i, 0 <= i < 4 → state_at (drop_all L) i = Some BUFFER_S_EMPTY ∧ offset_at (drop_all L) i = Some 0).
  { intros i Hi. unfold state_at, offset_at, drop_all. simpl.
    assert (i = 0 ∨ i = 1 ∨ i = 2 ∨ i = 3) as [->| [->| [->| ->]]] by lia; done. }
  split; try done.
  - split; [apply Hg|done].
  - apply Hg.
  - by repeat constructor.
  - intros i. split; [by intros ?%elem_of_nil|]. intros [Hi Hne]. by destruct (Hst i Hi).
  - by constructor.
  - by left.
  - intros i Hi _. by apply Hst.
Qed.

(** *** A caller *)

Definition pending (L : logger) (q : list Z) : list Z := concat (content L <$> q).

(** No buffer in use is without text. *)
Definition busy (L : logger) (q : list Z) : Prop := ∀ i, i ∈ q → offset_at L i ≠ Some 0.

Lemma pending_snoc L p i : pending L (p ++ [i]) = pending L p ++ content L i.
Proof. unfold pending. rewrite fmap_app, concat_app. simpl. by rewrite app_nil_r. Qed.

Lemma pending_ext L L' q : (∀ i, i ∈ q → content L' i = content L i) → pending L' q = pending L q.
Proof. intros H. unfold pending. f_equal. apply list_fmap_ext. intros k i Hi. apply H. by apply list_elem_of_lookup_2 in Hi. Qed.

Lemma put_user_idx_id L : put_user_idx (esq_logger_buf_user_idx L) L = L.
Proof. by destruct L. Qed.

(** Only buffer [i] differs. *)
Definition others (L L' : logger) (i : Z) : Prop :=
  ∀ j, 0 <= j → j ≠ i → state_at L' j = state_at L j ∧ offset_at L' j = offset_at L j ∧ content L' j = content L j.

Record chosen (L : logger) (q : list Z) (L1 : logger) (p : list Z) (i o : Z) (b : list Z) : Prop := {
  ch_user : esq_logger_buf_user_idx L1 = i;
  ch_ring : ring L1 (p ++ [i]);
  ch_rest : same_rest L L1;
  ch_worker : esq_logger_buf_worker_idx L1 = esq_logger_buf_worker_idx L;
  ch_cell : cell L1 i BUFFER_S_USE o b;
  ch_full : state_at L i ≠ Some BUFFER_S_FULL;
  ch_others : others L L1 i;
  ch_case : (q = p ++ [i] ∧ i = esq_logger_buf_user_idx L ∧ offset_at L i = Some o ∧ content L i = take (Z.to_nat o) b) ∨
            (q = p ∧ o = 0)
}.

Lemma set_cell_others L q i s o b : ring L q → 0 <= i < 4 → others L (set_cell i s o b L) i.
Proof.
  intros Hg Hi j Hj Hne. rewrite (set_cell_state L q Hg), (set_cell_offset L q Hg), (set_cell_content L q Hg) by lia.
  by rewrite !decide_False.
Qed.

Lemma log_buffer_ok L q :
  ring L q →
  (log_buffer L = Ret None ∧ state_at L (esq_logger_buf_user_idx L) = Some BUFFER_S_FULL ∧ q ≠ []) ∨
  (∃ L1 p i o b, log_buffer L = Ret (Some L1) ∧ chosen L q L1 p i o b).
Proof.
  intros Hg. destruct (rg_len L q Hg) as (H1 & H2 & H3), (rg_idx L q Hg) as [Hu Hw].
  unfold log_buffer. set (u := esq_logger_buf_user_idx L) in *.
  destruct (ring_cell L q u Hg Hu) as (s & o & b & Hc & Ho & Hb). pose proof Hc as (Hs & Hoff & Hbuf).
  rewrite (proj2 (rd_Ret _ u s)) by (split; [lia|done]). cbn [mbind cres_bind].
  assert (Hlast : s ≠ BUFFER_S_EMPTY → q ≠ [] ∧ ∃ p, q = p ++ [u]).
  { intros Hne. assert (Hin : u ∈ q) by (apply (rg_in L q Hg); split; [done|congruence]).
    split; [by intros ->; apply elem_of_nil in Hin|]. destruct (rg_last L q Hg) as [->|Hl]; [by apply elem_of_nil in Hin|].
    by apply last_Some. }
  case_decide as Hf.
  - destruct (nxt_range u Hu) as [Hn Hnu]. destruct (ring_cell L q (nxt u) Hg Hn) as (sn & on & bn & (Hsn & Hon & Hbn) & _ & Hlbn).
    rewrite (proj2 (rd_Ret _ (nxt u) sn)) by (split; [lia|done]). cbn [mbind cres_bind].
    case_decide as Hne; [right|left; subst; naive_solver].
    exists (set_cell (nxt u) BUFFER_S_USE 0 bn (put_user_idx (nxt u) L)), q, (nxt u), 0, bn. split.
    + unfold put_state, put_offset. simpl. rewrite wr_Ret by lia. cbn [mbind cres_bind]. simpl. rewrite wr_Ret by lia.
      cbn [mbind cres_bind]. unfold set_cell. simpl. unfold buf_at in Hbn. by rewrite (list_insert_id _ _ _ Hbn).
    + subst. split; try done.
      * apply ring_add; try done. right. split; [naive_solver|done].
      * apply (set_cell_at L q Hg (nxt u) Hn BUFFER_S_USE 0 bn (nxt u)); [lia|]. by rewrite decide_True.
      * congruence.
      * apply (set_cell_others L q); done.
      * by right.
  - right. exists (set_cell u BUFFER_S_USE o b L).
    assert (E : (L ← put_state u BUFFER_S_USE L; Ret (Some L)) = Ret (Some (set_cell u BUFFER_S_USE o b L))).
    { unfold put_state. rewrite wr_Ret by lia. cbn [mbind cres_bind]. unfold set_cell. unfold offset_at, buf_at in Hoff, Hbuf.
      by rewrite (list_insert_id _ _ _ Hoff), (list_insert_id _ _ _ Hbuf). }
    assert (Hcell : cell (set_cell u BUFFER_S_USE o b L) u BUFFER_S_USE o b).
    { apply (set_cell_at L q Hg u Hu); [lia|]. by rewrite decide_True. }
    destruct (decide (s = BUFFER_S_EMPTY)) as [->|Hne].
    + assert (q = []) as ->.
      { destruct (rg_last L q Hg) as [?|Hl]; [done|]. exfalso. apply last_Some_elem_of in Hl.
        apply (rg_in L q Hg) in Hl as [_ Hl]. done. }
      exists [], u, o, b. split; [exact E|]. pose proof (rg_empty L [] Hg u Hu Hs) as Hz. assert (o = 0) as -> by congruence.
      split; try done.
      * pose proof (ring_add L [] u BUFFER_S_USE 0 b Hg Hu Hs ltac:(by left) ltac:(done) Ho Hb) as Hr.
        unfold u in Hr at 2. by rewrite put_user_idx_id in Hr.
      * congruence.
      * by apply (set_cell_others L []).
      * by right.
    + destruct (Hlast Hne) as (_ & p & Hq). exists p, u, o, b. split; [exact E|]. split; try done.
      * rewrite <- Hq. apply ring_keep; try done. rewrite Hq. set_solver.
      * congruence.
      * by apply (set_cell_others L q).
      * left. split; [done|]. split; [done|]. split; [done|]. by apply (content_cell L u s).
Qed.

Definition good (text : list Z) : Prop := 0 < Z.of_nat (length text) < LOGBUFSIZE.

(** What a caller may find after its turn under the lock. *)
Definition log_post (L : logger) (q : list Z) (text : list Z) (out : log_out) (L' : logger) : Prop :=
  match out with
  | Return r =>
      (r = ESQ_ERROR_CLOSE ∧ esq_logger_stop_flag L = true ∧ L' = L) ∨
      (¬ good text ∧ ∃ q', ring L' q' ∧ q `prefix_of` q' ∧ pending L' q' = pending L q)
  | Wait => L' = L ∧ state_at L (esq_logger_buf_user_idx L) = Some BUFFER_S_FULL ∧ q ≠ []
  | Again =>
      ring L' q ∧ pending L' q = pending L q ∧ q ≠ [] ∧ (busy L q → busy L' q) ∧
      esq_logger_buf_user_idx L' = esq_logger_buf_user_idx L ∧
      state_at L (esq_logger_buf_user_idx L) ≠ Some BUFFER_S_FULL ∧
      state_at L' (esq_logger_buf_user_idx L) = Some BUFFER_S_FULL
  | Accepted =>
      good text ∧ esq_logger_stop_flag L = false ∧
      ∃ q', ring L' q' ∧ pending L' q' = pending L q ++ text ∧ (busy L q → busy L' q') ∧
        (q' = q ∧ q ≠ [] ∨ ∃ i, q' = q ++ [i])
  end.

(** A full buffer is left alone. *)
Definition full_kept (L L' : logger) : Prop :=
  ∀ j, 0 <= j → state_at L j = Some BUFFER_S_FULL →
    state_at L' j = Some BUFFER_S_FULL ∧ offset_at L' j = offset_at L j ∧ content L' j = content L j.

Lemma others_full L L' i : state_at L i ≠ Some BUFFER_S_FULL → others L L' i → full_kept L L'.
Proof.
  intros Hi Ho j Hj Hs. assert (Hne : j ≠ i) by (intros ->; done). destruct (Ho j Hj Hne) as (-> & -> & ->). done.
Qed.

Lemma others_trans L L1 L2 i : others L L1 i → others L1 L2 i → others L L2 i.
Proof. intros H1 H2 j Hj Hne. destruct (H1 j Hj Hne) as (<- & <- & <-). by apply H2. Qed.

(** The chosen buffer after printing: the text stands behind what was there. *)
Lemma text_printed_ok L q L1 p i o b text s o' :
  chosen L q L1 p i o b → s ≠ BUFFER_S_EMPTY → 0 <= o' < LOGBUFSIZE → 0 <= o < LOGBUFSIZE →
  Z.of_nat (length b) = LOGBUFSIZE →
  let b' := take (Z.to_nat o) b ++ (c_snprintf (drop (Z.to_nat o) b) text).2 in
  let L' := set_cell i s o' b' L1 in
  ring L' (p ++ [i]) ∧ same_rest L L' ∧ full_kept L L' ∧
  esq_logger_buf_worker_idx L' = esq_logger_buf_worker_idx L ∧
  state_at L' i = Some s ∧ offset_at L' i = Some o' ∧ others L L' i ∧
  (o' = o → pending L' (p ++ [i]) = pending L q) ∧
  (o' = o + Z.of_nat (length text) → pending L' (p ++ [i]) = pending L q ++ text).
Proof.
  intros [Hu Hg Hr Hw Hc Hf Hot Hca] Hs Ho' Ho Hb b' L'.
  assert (Hiq : i ∈ p ++ [i]) by (apply elem_of_app; right; left).
  destruct (proj1 (rg_in L1 _ Hg i) Hiq) as [Hi _].
  assert (Hb' : Z.of_nat (length b') = LOGBUFSIZE).
  { unfold b', c_snprintf. cbn [snd]. unfold LOGBUFSIZE in *.
    rewrite length_app, length_take, length_ow; rewrite ?length_app, ?length_take, ?length_drop; simpl; lia. }
  assert (Hoth : others L L' i) by (eapply others_trans; [done|by apply (set_cell_others L1 (p ++ [i]))]).
  assert (Hpip : i ∉ p).
  { pose proof (rg_nodup L1 _ Hg) as (_ & Hd & _)%NoDup_app. intros Hp. apply (Hd i Hp). left. }
  assert (Hpend : pending L q = pending L' p ++ take (Z.to_nat o) b).
  { assert (Hp : pending L' p = pending L p).
    { apply pending_ext. intros j Hj. assert (Hjr : j ∈ p ++ [i]) by (apply elem_of_app; by left).
      destruct (proj1 (rg_in L1 _ Hg j) Hjr) as [Hjr' _]. apply Hoth; [lia|]. by intros ->. }
    rewrite Hp. destruct Hca as [(-> & _ & _ & <-)|[-> ->]]; [apply pending_snoc|]. by rewrite app_nil_r. }
  assert (Hci : content L' i = take (Z.to_nat o') b').
  { unfold L'. rewrite (set_cell_content L1 _ Hg) by lia. by rewrite decide_True. }
  split; [by apply ring_keep|]. split; [done|].
  split; [by apply (others_full L L' i)|]. split; [done|]. split.
  { unfold L'. rewrite (set_cell_state L1 _ Hg) by lia. by rewrite decide_True. }
  split. { unfold L'. rewrite (set_cell_offset L1 _ Hg) by lia. by rewrite decide_True. }
  split; [done|]. rewrite pending_snoc, Hpend, Hci, <- app_assoc. unfold b', c_snprintf. cbn [snd].
  assert (Hlt : length (take (Z.to_nat o) b) = Z.to_nat o) by (rewrite length_take; lia).
  split; intros ->; f_equal.
  - by rewrite take_app_le, take_take, Nat.min_id by lia.
  - unfold LOGBUFSIZE in *. rewrite (take_ge text) by (rewrite length_drop; lia). unfold ow.
    rewrite <- app_assoc, app_assoc, take_app_le by (rewrite length_app; lia).
    apply take_ge. rewrite length_app. lia.
Qed.

Lemma log_section_ok L q text :
  ring L q →
  ∃ out L', log_section L text = Ret (out, L') ∧ same_rest L L' ∧ full_kept L L' ∧
    esq_logger_buf_worker_idx L' = esq_logger_buf_worker_idx L ∧ log_post L q text out L'.
Proof.
  intros Hg. unfold log_section. destruct (esq_logger_stop_flag L) eqn:Hstop.
  { exists (Return ESQ_ERROR_CLOSE), L. split; [done|]. split; [by destruct L|]. split; [by intros j|]. split; [done|]. by left. }
  destruct (log_buffer_ok L q Hg) as [(E & Hfull & Hne)|(L1 & p & i & o & b & E & Hch)]; rewrite E; cbn [mbind cres_bind].
  { exists Wait, L. split; [done|]. split; [by destruct L|]. by split. }
  pose proof (ch_ring _ _ _ _ _ _ _ Hch) as Hg1. pose proof (ch_cell _ _ _ _ _ _ _ Hch) as (Hs & Ho & Hb).
  assert (Hiq : i ∈ p ++ [i]) by (apply elem_of_app; right; left).
  destruct (proj1 (rg_in L1 _ Hg1 i) Hiq) as [Hi _]. destruct (rg_len L1 _ Hg1) as (H1 & H2 & H3).
  destruct (ring_cell L1 _ i Hg1 Hi) as (s' & o' & b' & Hc' & Hor & Hbl).
  destruct (lcell_inj _ _ _ _ _ _ _ _ (ch_cell _ _ _ _ _ _ _ Hch) Hc') as (<- & <- & <-). clear Hc'.
  rewrite (ch_user _ _ _ _ _ _ _ Hch).
  rewrite (proj2 (rd_Ret _ i b)) by (split; [lia|done]). cbn [mbind cres_bind].
  rewrite (proj2 (rd_Ret _ i o)) by (split; [lia|done]). cbn [mbind cres_bind].
  set (r := Z.of_nat (length text)). set (b' := take (Z.to_nat o) b ++ (c_snprintf (drop (Z.to_nat o) b) text).2).
  assert (Eb : put_buf i b' L1 = Ret (set_cell i BUFFER_S_USE o b' L1)).
  { unfold put_buf. rewrite wr_Ret by lia. unfold set_cell, state_at, offset_at in *.
    by rewrite (list_insert_id _ _ _ Hs), (list_insert_id _ _ _ Ho). }
  change (c_snprintf (drop (Z.to_nat o) b) text) with (r, (c_snprintf (drop (Z.to_nat o) b) text).2). cbv iota beta. fold b'.
  rewrite Eb. cbn [mbind cres_bind].
  assert (Hpre : q `prefix_of` p ++ [i]).
  { destruct (ch_case _ _ _ _ _ _ _ Hch) as [(-> & _)|[-> _]]; [done|by apply prefix_app_r]. }
  assert (Hbad : r <= 0 ∨ LOGBUFSIZE <= r →
    ∀ L2 c, L2 = set_cell i BUFFER_S_USE o b' L1 → 
    same_rest L L2 ∧ full_kept L L2 ∧ esq_logger_buf_worker_idx L2 = esq_logger_buf_worker_idx L ∧ log_post L q text (Return c) L2).
  { intros Hr L2 c ->. destruct (text_printed_ok L q L1 p i o b text BUFFER_S_USE o Hch) as (Hg2 & Hr2 & Hf2 & Hw2 & _ & _ & _ & Hp2 & _); try done.
    split; [done|]. split; [done|]. split; [done|]. right. split; [unfold good; lia|]. exists (p ++ [i]). split; [done|].
    split; [done|]. by apply Hp2. }
  destruct (Z.leb_spec r 0) as [Hr0|Hr0]; [eexists _, _; split; [reflexivity|]; by apply Hbad; [left|]|].
  destruct (Z.leb_spec (LOGBUFSIZE - o) r) as [Hfit|Hfit]; [destruct (Z.leb_spec LOGBUFSIZE r) as [Hbig|Hbig]|].
  - eexists _, _. split; [reflexivity|]. by apply Hbad; [right|].
  - destruct (ch_case _ _ _ _ _ _ _ Hch) as [(Hq & Hiu & Hoff & Hcont)|[_ ->]]; [|lia].
    destruct (text_printed_ok L q L1 p i o b text BUFFER_S_FULL o Hch) as (Hg2 & Hr2 & Hf2 & Hw2 & Hs2 & Ho2 & Hot2 & Hp2 & _); try done.
    fold b' in Hs2, Ho2, Hot2, Hp2, Hg2.
    exists Again, (set_cell i BUFFER_S_FULL o b' L1). split; [|split; [done|split; [done|split; [done|]]]].
    { unfold put_state. simpl. rewrite wr_Ret by (rewrite length_insert; lia). cbn [mbind cres_bind]. unfold set_cell. simpl.
      by rewrite list_insert_insert_eq. }
    rewrite Hq. split; [done|]. split; [rewrite <- Hq at 2; by apply Hp2|]. split; [by destruct p|]. split; [|split; [|split]].
    + intros Hbu j Hj. destruct (decide (j = i)) as [->|Hji]; [rewrite Ho2, <- Hoff; by apply Hbu|].
      destruct (proj1 (rg_in _ _ Hg2 j) Hj) as [Hjr _]. destruct (Hot2 j ltac:(lia) Hji) as (_ & -> & _). by apply Hbu.
    + simpl. rewrite (ch_user _ _ _ _ _ _ _ Hch). done.
    + rewrite <- Hiu. apply (ch_full _ _ _ _ _ _ _ Hch).
    + by rewrite <- Hiu.
  - destruct (text_printed_ok L q L1 p i o b text BUFFER_S_USE (o + r) Hch) as (Hg2 & Hr2 & Hf2 & Hw2 & Hs2 & Ho2 & Hot2 & _ & Hp2);
      [done|lia|done|done|].
    fold b' in Hs2, Ho2, Hot2, Hp2, Hg2.
    exists Accepted, (set_cell i BUFFER_S_USE (o + r) b' L1). split; [|split; [done|split; [done|split; [done|]]]].
    { unfold put_offset. simpl. rewrite wr_Ret by (rewrite length_insert; lia). cbn [mbind cres_bind]. unfold set_cell. simpl.
      by rewrite list_insert_insert_eq. }
    split; [unfold good; lia|]. split; [done|]. exists (p ++ [i]). split; [done|]. split; [by apply Hp2|]. split.
    + intros Hbu j Hj. destruct (decide (j = i)) as [->|Hji]; [rewrite Ho2; intros [= E0]; lia|].
      destruct (proj1 (rg_in _ _ Hg2 j) Hj) as [Hjr _]. destruct (Hot2 j ltac:(lia) Hji) as (_ & -> & _). apply Hbu.
      apply elem_of_app in Hj as [Hj|Hj%list_elem_of_singleton]; [|done].
      destruct (ch_case _ _ _ _ _ _ _ Hch) as [(-> & _)|[-> _]]; [apply elem_of_app; by left|done].
    + destruct (ch_case _ _ _ _ _ _ _ Hch) as [(-> & _)|[-> _]]; [left; split; [done|by destruct p]|right; by exists i].
Qed.

(** ** What is written *)

Definition file_of (d : gmap (list Z) (list Z)) (f : list Z) : list Z :=
  match d !! f with Some c => c | None => [] end.

(** The files in the order they were opened. *)
Definition written (L : logger) : list Z := concat (file_of (disk L) <$> opened L).

Definition files_ok (L : logger) : Prop := ∀ f, esq_logger_fd L = Some f → last (opened L) = Some f.

Lemma c_digits_upper fuel z acc : (length (c_digits fuel z acc) <= fuel + length acc)%nat.
Proof.
  revert z acc. induction fuel as [|fuel IH]; intros z acc; simpl; [done|]. destruct (z <? 10); simpl; [lia|].
  etransitivity; [apply IH|]. simpl. lia.
Qed.

Lemma padded_upper k z : (k <= 11)%nat → (length (padded k z) <= 11)%nat.
Proof.
  intros Hk. unfold padded. rewrite length_app, length_replicate.
  assert (Hd : (length (c_decimal z) <= 11)%nat); [|lia].
  unfold c_decimal. destruct (z <? 0); [|pose proof (c_digits_upper 10 z []); simpl length in *; lia].
  pose proof (c_digits_upper 10 (- z) []) as Hu. cbn [length] in *. lia.
Qed.

(** A file name always fits in its buffer of 128 bytes. *)
Lemma fill_log_filename_ok t L :
  esq_logger_fill_log_filename t 128 L
  = Ret (log_filename t (esq_logger_filename_idx L),
         with_file (esq_logger_fd L) (if 9999 <? esq_logger_filename_idx L + 1 then 0 else esq_logger_filename_idx L + 1)
           (esq_logger_last_io_error_time L) (disk L) (opened L) L).
Proof.
  unfold esq_logger_fill_log_filename.
  assert (Hl : (0 < length (log_filename t (esq_logger_filename_idx L)) <= 91)%nat).
  { unfold log_filename. rewrite !length_app. cbn [length].
    pose proof (padded_upper 4 (tm_year t + 1900) ltac:(lia)). pose proof (padded_upper 2 (tm_mon t + 1) ltac:(lia)).
    pose proof (padded_upper 2 (tm_mday t + 1) ltac:(lia)). pose proof (padded_upper 2 (tm_hour t) ltac:(lia)).
    pose proof (padded_upper 2 (tm_min t) ltac:(lia)). pose proof (padded_upper 2 (tm_sec t) ltac:(lia)).
    pose proof (padded_upper 4 (esq_logger_filename_idx L) ltac:(lia)). lia. }
  destruct (Z.leb_spec (Z.of_nat (length (log_filename t (esq_logger_filename_idx L)))) 0); [lia|].
  destruct (Z.leb_spec 128 (Z.of_nat (length (log_filename t (esq_logger_filename_idx L))))); [lia|]. done.
Qed.

(** The fields the ring is made of are the same. *)
Definition same_ring (L L' : logger) : Prop :=
  esq_logger_buf L' = esq_logger_buf L ∧ esq_logger_buf_offset L' = esq_logger_buf_offset L ∧
  esq_logger_buf_state L' = esq_logger_buf_state L ∧ esq_logger_buf_user_idx L' = esq_logger_buf_user_idx L ∧
  esq_logger_buf_worker_idx L' = esq_logger_buf_worker_idx L.

(** The flags and semaphores are the same. *)
Definition same_ctl (L L' : logger) : Prop :=
  esq_logger_user_sem L' = esq_logger_user_sem L ∧ esq_logger_worker_sem L' = esq_logger_worker_sem L ∧
  esq_logger_stop_flag L' = esq_logger_stop_flag L ∧
  esq_logger_change_filename_flag L' = esq_logger_change_filename_flag L.

Lemma ring_same L L' q : same_ring L L' → ring L q → ring L' q.
Proof.
  intros (H1 & H2 & H3 & H4 & H5) Hg. destruct Hg. unfold state_at, offset_at in *.
  split; unfold state_at, offset_at; rewrite ?H1, ?H2, ?H3, ?H4, ?H5; done.
Qed.

Lemma content_same L L' i : same_ring L L' → content L' i = content L i.
Proof. intros (H1 & H2 & _). unfold content, offset_at, buf_at. by rewrite H1, H2. Qed.

Lemma pending_same L L' q : same_ring L L' → pending L' q = pending L q.
Proof. intros H. apply pending_ext. intros i _. by apply content_same. Qed.

Lemma log_open_ok e L :
  files_ok L →
  ∃ r L', log_open e L = Ret (r, L') ∧ same_ring L L' ∧ same_ctl L L' ∧ files_ok L' ∧
    esq_logger_last_io_error_time L' = esq_logger_last_io_error_time L ∧ opened L `prefix_of` opened L' ∧
    esq_logger_fd L' = r ∧ (NoDup (opened L') → written L' = written L).
Proof.
  intros Hf. unfold log_open. destruct (esq_logger_fd L) as [f|] eqn:Hfd.
  { exists (Some f), L. by split_and!. }
  rewrite fill_log_filename_ok. cbn [mbind cres_bind]. destruct (e_open e).
  2:{ eexists _, _. split; [reflexivity|]. split; [done|]. split; [done|]. split; [done|]. by split_and!. }
  eexists _, _. split; [reflexivity|]. split; [done|]. split; [done|]. split; [intros f; simpl; intros [= <-]; by rewrite last_snoc|].
  split; [done|]. split; [by apply prefix_app_r|]. split; [done|]. simpl. intros (_ & Hd & _)%NoDup_app.
  unfold written. simpl. rewrite fmap_app, concat_app. simpl. unfold file_of at 2. rewrite lookup_insert_eq; simpl; rewrite ?app_nil_r.
  f_equal. apply list_fmap_ext. intros k g Hg. unfold file_of. rewrite lookup_insert_ne; [done|]. intros <-.
  apply (Hd (log_filename (e_tm e) (esq_logger_filename_idx L))); [by apply list_elem_of_lookup_2 in Hg|left].
Qed.

(** Writing the first [o] bytes of a buffer: all of them are in the file, or an error. *)
Lemma flush_to_disk_ok e L i o b :
  files_ok L → 0 <= i → buf_at L i = Some b → 0 < o →
  ∃ r L', esq_logger_flush_to_disk e i o L = Ret (r, L') ∧ same_ring L L' ∧ same_ctl L L' ∧ files_ok L' ∧
    esq_logger_last_io_error_time L' = esq_logger_last_io_error_time L ∧ opened L `prefix_of` opened L' ∧
    (r = 0 → NoDup (opened L') → written L' = written L ++ take (Z.to_nat o) b).
Proof.
  intros Hf Hi Hb Ho. unfold esq_logger_flush_to_disk.
  destruct (log_open_ok e L Hf) as (r & L1 & -> & Hr1 & Hc1 & Hf1 & Ht1 & Hp1 & Hfd & Hw1). cbn [mbind cres_bind].
  destruct r as [f|]; [|by eexists _, _; split; [reflexivity|]].
  pose proof Hr1 as (Hbuf & _). rewrite (proj2 (rd_Ret _ i b)) by (rewrite Hbuf; by split). cbn [mbind cres_bind].
  eexists _, _. split; [reflexivity|]. split; [done|]. split; [done|]. split; [done|]. split; [done|]. split; [done|].
  intros Hr Hnd. simpl in Hnd. destruct (Z.eqb_spec (Z.min (e_write e) o) o) as [E|E]; [|done].
  rewrite <- Hw1 by done. rewrite E. unfold written. simpl. pose proof (Hf1 f Hfd) as [os Hos]%last_Some. rewrite Hos in Hnd |- *.
  rewrite !fmap_app, !concat_app. simpl. rewrite !app_nil_r, <- app_assoc. f_equal.
  - f_equal. apply list_fmap_ext. intros k g Hg. unfold file_of. rewrite lookup_insert_ne; [done|]. intros <-.
    apply NoDup_app in Hnd as (_ & Hd & _). apply (Hd f); [by apply list_elem_of_lookup_2 in Hg|left].
  - unfold file_of at 1. by rewrite lookup_insert_eq.
Qed.

(** ** What always holds *)

Definition worker_ok (L : logger) (q : list Z) (pc : wpc) : Prop :=
  match pc with
  | WWrite _ o =>
      head q = Some (esq_logger_buf_worker_idx L) ∧ state_at L (esq_logger_buf_worker_idx L) = Some BUFFER_S_FULL ∧
      offset_at L (esq_logger_buf_worker_idx L) = Some o ∧ 0 < o
  | WDone _ =>
      head q = Some (esq_logger_buf_worker_idx L) ∧ state_at L (esq_logger_buf_worker_idx L) = Some BUFFER_S_FULL
  | WDrop _ => esq_logger_last_io_error_time L ≠ 0
  | _ => True
  end.

(** The buffers still to be written. *)
Definition todo (pc : wpc) (q : list Z) : list Z := match pc with WDone _ => tail q | _ => q end.

(** Nothing accepted is lost, doubled or out of order, as long as the disk works and no two
    files have the same name. *)
Definition delivered (s : sys) (q : list Z) : Prop :=
  esq_logger_last_io_error_time (lg s) = 0 → NoDup (opened (lg s)) →
  written (lg s) ++ pending (lg s) (todo (worker s) q) = concat (accepted s).

Record sinv (s : sys) (q : list Z) : Prop := {
  si_ring : ring (lg s) q;
  si_files : files_ok (lg s);
  si_worker : worker_ok (lg s) q (worker s);
  si_data : delivered s q
}.

Definition out_text (text : list Z) (out : log_out) : list (list Z) :=
  match out with Accepted => [text] | _ => [] end.

(** The buffers in use after a turn of a caller. *)
Record qstep (L : logger) (q : list Z) (text : list Z) (out : log_out) (L' : logger) (q' : list Z) : Prop := {
  qs_ring : ring L' q';
  qs_prefix : q `prefix_of` q';
  qs_pending : pending L' q' = pending L q ++ concat (out_text text out);
  qs_busy : good text → busy L q → busy L' q';
  qs_length : good text → (length q' <= length q + length (out_text text out))%nat;
  qs_same : out = Wait ∨ out = Again → q' = q
}.

Lemma log_post_ring L q text out L' :
  ring L q → log_post L q text out L' → ∃ q', qstep L q text out L' q'.
Proof.
  intros Hg. destruct out as [r| | |]; simpl.
  - intros [(_ & _ & ->)|(Hb & q' & Hg' & Hpre & Hp)].
    + exists q. split; simpl; rewrite ?app_nil_r; try done; intros; auto; lia.
    + exists q'. split; simpl; rewrite ?app_nil_r; try done. by intros [?|?].
  - intros [-> _]. exists q. split; simpl; rewrite ?app_nil_r; try done; intros; auto; lia.
  - intros (Hg' & Hp & _ & Hbu & _). exists q. split; simpl; rewrite ?app_nil_r; try done; intros; auto; lia.
  - intros (_ & _ & q' & Hg' & Hp & Hbu & Hq). exists q'. split; simpl; rewrite ?app_nil_r; try done.
    + destruct Hq as [[-> _]|[i ->]]; [done|by apply prefix_app_r].
    + intros _. destruct Hq as [[-> _]|[i ->]]; rewrite ?length_app; simpl; lia.
    + by intros [?|?].
Qed.

Lemma head_prefix (q q' : list Z) x : q `prefix_of` q' → head q = Some x → head q' = Some x ∧ ∃ t, tail q' = tail q ++ t.
Proof. intros [t ->]. destruct q as [|y q]; [done|]. simpl. eauto. Qed.

Lemma worker_kept L L' q q' pc :
  ring L q → q `prefix_of` q' → full_kept L L' → same_rest L L' →
  esq_logger_buf_worker_idx L' = esq_logger_buf_worker_idx L → worker_ok L q pc → worker_ok L' q' pc.
Proof.
  intros Hg Hq Hf Hr Hw. pose proof (proj2 (rg_idx L q Hg)) as Hwr. unfold same_rest, rest in Hr. destruct pc; simpl; rewrite ?Hw; try done.
  - intros (Hh & Hs & Ho & Hpos). destruct (Hf _ (proj1 Hwr) Hs) as (Hs' & Ho' & _). rewrite Ho'.
    destruct (head_prefix q q' _ Hq Hh) as [Hh' _]. by split_and!.
  - intros (Hh & Hs). destruct (Hf _ (proj1 Hwr) Hs) as (Hs' & _). by destruct (head_prefix q q' _ Hq Hh) as [Hh' _].
  - intros Ht. congruence.
Qed.

Lemma pending_todo L L' q q' pc a :
  ring L q → q `prefix_of` q' → full_kept L L' → worker_ok L q pc →
  pending L' q' = pending L q ++ a → pending L' (todo pc q') = pending L (todo pc q) ++ a.
Proof.
  intros Hg Hq Hf Hw Hp. destruct pc; try done. destruct Hw as [Hh Hs]. simpl.
  destruct (Hf _ (proj1 (proj2 (rg_idx L q Hg))) Hs) as (_ & _ & Hc).
  destruct q as [|x q]; [done|]. destruct Hq as [t ->]. simpl in *. injection Hh as ->.
  unfold pending in *. simpl in Hp. rewrite <- app_assoc, Hc in Hp. by apply app_inv_head in Hp.
Qed.

(** A change outside the ring that keeps the files. *)
Lemma sinv_same s q L' us d :
  sinv s q → same_ring (lg s) L' → files_ok L' → esq_logger_last_io_error_time L' = esq_logger_last_io_error_time (lg s) →
  disk L' = disk (lg s) → opened L' = opened (lg s) →
  sinv (Sys L' us (worker s) d (accepted s)) q.
Proof.
  intros [Hg Hf Hw Hd] Hr Hf' Ht Hdi Ho. split; simpl.
  - by apply (ring_same (lg s)).
  - done.
  - destruct Hr as (H1 & H2 & H3 & H4 & H5). unfold worker_ok, state_at, offset_at in *.
    destruct (worker s); rewrite ?H2, ?H3, ?H5, ?Ht; done.
  - unfold delivered in *. simpl. unfold written in *. rewrite Ht, Hdi, Ho, (pending_same (lg s) L') by done. done.
Qed.

Lemma user_try_ok s q text :
  sinv s q →
  ∃ out L' q', log_section (lg s) text = Ret (out, L') ∧ same_rest (lg s) L' ∧ log_post (lg s) q text out L' ∧
    qstep (lg s) q text out L' q' ∧
    ∀ us, sinv (Sys L' us (worker s) (detach s) (accepted s ++ out_text text out)) q'.
Proof.
  intros [Hg Hf Hw Hd].
  destruct (log_section_ok (lg s) q text Hg) as (out & L' & E & Hr & Hfk & Hwi & Hpost).
  destruct (log_post_ring _ _ _ _ _ Hg Hpost) as (q' & Hq). pose proof Hq as [Hg' Hpre Hp _ _ _].
  exists out, L', q'. split_and!; try done. intros us. unfold same_rest, rest in Hr. split; simpl.
  - done.
  - intros f Hfd. replace (opened L') with (opened (lg s)) by congruence. apply Hf. congruence.
  - by apply (worker_kept (lg s) L' q).
  - unfold delivered in *. simpl. rewrite (pending_todo (lg s) L' q q' (worker s) (concat (out_text text out))) by done.
    intros Ht Hnd. rewrite concat_app, app_assoc, <- Hd by congruence. f_equal. f_equal. unfold written. congruence.
Qed.

Lemma user_step_ok i s q :
  sinv s q → ∃ r, user_step i s = Ret r ∧ ∀ s', r = Some s' → ∃ q', sinv s' q'.
Proof.
  intros Hi. pose proof Hi as [Hg Hf Hw Hd]. unfold user_step. destruct (users s !! i) as [pc|]; [|eexists; by split].
  assert (Hkeep : ∀ L' pc', same_ring (lg s) L' → esq_logger_fd L' = esq_logger_fd (lg s) → 
    esq_logger_last_io_error_time L' = esq_logger_last_io_error_time (lg s) → disk L' = disk (lg s) → opened L' = opened (lg s) →
    ∃ q', sinv (Sys L' (<[i := pc']> (users s)) (worker s) (detach s) (accepted s ++ [])) q').
  { intros L' pc' Hr Hfd Ht Hdi Ho. exists q. rewrite app_nil_r. apply sinv_same; try done. unfold files_ok. by rewrite Hfd, Ho. }
  destruct pc as [text|text|text| | | | |r]; simpl.
  - destruct (user_try_ok s q text Hi) as (out & L' & q' & E & _ & _ & _ & Hs'). rewrite E. cbn [mbind cres_bind].
    eexists. split; [reflexivity|]. intros s' Es. exists q'. destruct out; simpl in Es; injection Es as <-; apply Hs'.
  - eexists. split; [reflexivity|]. intros s' [= <-]. by apply Hkeep.
  - eexists. split; [reflexivity|]. unfold wait_user. destruct (esq_logger_user_sem (lg s)); [done|].
    intros s' [= <-]. by apply Hkeep.
  - eexists. split; [reflexivity|]. intros s' [= <-]. by apply Hkeep.
  - eexists. split; [reflexivity|]. intros s' [= <-]. by apply Hkeep.
  - eexists. split; [reflexivity|]. intros s' [= <-]. by apply Hkeep.
  - eexists. split; [reflexivity|]. intros s' [= <-]. by apply Hkeep.
  - eexists. by split.
Qed.

(** A move of the worker that leaves ring and files alone. *)
Lemma sinv_pc s q L' us pc d :
  sinv s q → same_ring (lg s) L' → files_ok L' → esq_logger_last_io_error_time L' = esq_logger_last_io_error_time (lg s) →
  disk L' = disk (lg s) → opened L' = opened (lg s) → worker_ok L' q pc → todo pc q = todo (worker s) q →
  sinv (Sys L' us pc d (accepted s)) q.
Proof.
  intros [Hg Hf Hw Hd] Hr Hf' Ht Hdi Ho Hw' Htd. split; simpl; [by apply (ring_same (lg s))|done|done|].
  unfold delivered in *. simpl. unfold written in *. by rewrite Ht, Hdi, Ho, Htd, (pending_same (lg s) L').
Qed.

Lemma worker_pick_ok k s q :
  sinv s q → worker s = WPick k →
  ∃ o L', flush_pick (lg s) = Ret (o, L') ∧ same_rest (lg s) L' ∧
    sinv (Sys L' (users s) (match o with None => WPost k | Some offset => WWrite k offset end) (detach s) (accepted s)) q ∧
    match o with
    | None => busy (lg s) q → q = [] ∧ L' = lg s
    | Some _ => q ≠ [] ∧ (busy (lg s) q → busy L' q)
    end ∧
    (state_at (lg s) (esq_logger_buf_user_idx (lg s)) = Some BUFFER_S_FULL →
     state_at L' (esq_logger_buf_user_idx L') = Some BUFFER_S_FULL).
Proof.
  intros [Hg Hf Hw Hd] Epc. pose proof (flush_pick_ok (lg s) q Hg) as Hp. unfold delivered in Hd. rewrite Epc in Hd.
  destruct q as [|x q].
  { exists None, (lg s). by split_and!. }
  destruct Hp as (st & o & b & L' & Hc & E & HL & Hg' & Hcont). eexists _, L'. split; [exact E|].
  assert (Hr : same_rest (lg s) L') by (by rewrite HL). split; [done|].
  assert (Hx : x ∈ x :: q) by left. destruct (proj1 (rg_in _ _ Hg x) Hx) as [Hxr _]. pose proof Hc as (_ & Hox & _).
  destruct (ring_cell _ _ x Hg Hxr) as (st' & o' & b' & Hc' & Hor & Hbl).
  destruct (lcell_inj _ _ _ _ _ _ _ _ Hc Hc') as (<- & <- & <-).
  assert (Hst : ∀ j, 0 <= j → state_at L' j = if decide (x = j) then Some BUFFER_S_FULL else state_at (lg s) j).
  { intros j Hj. rewrite HL. apply (set_cell_state (lg s) (x :: q) Hg x Hxr BUFFER_S_FULL o b j Hj). }
  assert (Hof : ∀ j, 0 <= j → offset_at L' j = offset_at (lg s) j).
  { intros j Hj. rewrite HL. etransitivity; [apply (set_cell_offset (lg s) (x :: q) Hg x Hxr BUFFER_S_FULL o b j Hj)|].
    case_decide; [by subst|done]. }
  assert (Hw' : esq_logger_buf_worker_idx L' = x) by by rewrite HL.
  assert (Hu' : esq_logger_buf_user_idx L' = esq_logger_buf_user_idx (lg s)) by by rewrite HL.
  assert (Hpe : pending L' (x :: q) = pending (lg s) (x :: q)).
  { apply pending_ext. intros j Hj. apply Hcont. destruct (proj1 (rg_in _ _ Hg j) Hj). lia. }
  unfold same_rest, rest in Hr. split; [|split].
  - split; simpl.
    + done.
    + intros f Hfd. replace (opened L') with (opened (lg s)) by congruence. apply Hf. congruence.
    + destruct (Z.eqb_spec o 0); [done|]. simpl. rewrite Hw'. rewrite Hst, Hof by lia. rewrite decide_True by done. split_and!; try done. lia.
    + unfold delivered. simpl. intros Ht Hnd. rewrite <- Hd by congruence.
      replace (written L') with (written (lg s)) by (unfold written; congruence). f_equal. destruct (o =? 0); done.
  - destruct (Z.eqb_spec o 0) as [->|Hne].
    + intros Hb. by destruct (Hb x Hx).
    + split; [done|]. intros Hb j Hj. destruct (proj1 (rg_in _ _ Hg j) Hj) as [Hjr _]. rewrite Hof by lia. by apply Hb.
  - rewrite Hu'. intros Hs. rewrite Hst by apply (rg_idx _ _ Hg). by case_decide.
Qed.

Lemma worker_write_ok e k o s q :
  0 < e_time e → sinv s q → worker s = WWrite k o →
  ∃ r L', esq_logger_flush_to_disk e (esq_logger_buf_worker_idx (lg s)) o (lg s) = Ret (r, L') ∧
    same_ring (lg s) L' ∧ same_ctl (lg s) L' ∧
    (r = 0 → sinv (Sys L' (users s) (WDone k) (detach s) (accepted s)) q) ∧
    (r ≠ 0 → sinv (Sys (with_file (esq_logger_fd L') (esq_logger_filename_idx L') (e_time e) (disk L') (opened L') L')
                     (users s) (WDrop k) (detach s) (accepted s)) q).
Proof.
  intros He [Hg Hf Hw Hd] Epc. rewrite Epc in Hw. destruct Hw as (Hh & Hs & Ho & Hpos).
  pose proof (proj2 (rg_idx _ _ Hg)) as Hwr. destruct (ring_cell _ _ _ Hg Hwr) as (s' & o' & b & (_ & Ho' & Hb) & _).
  assert (o' = o) as -> by congruence.
  destruct (flush_to_disk_ok e (lg s) _ o b Hf (proj1 Hwr) Hb Hpos) as (r & L' & E & Hr & Hc & Hf' & Ht & Hpre & Hwri).
  exists r, L'. split; [done|]. split; [done|]. split; [done|]. pose proof Hr as (H1 & H2 & H3 & H4 & H5). split; intros Hr0.
  - split; simpl; [by apply (ring_same (lg s))|done| |].
    + unfold state_at in *. by rewrite H3, H5.
    + unfold delivered in *. simpl. rewrite Epc in Hd. simpl in Hd. intros Ht' Hnd.
      assert (Hnd0 : NoDup (opened (lg s))) by (destruct Hpre as [t Et]; rewrite Et in Hnd; by apply NoDup_app in Hnd as [? _]).
      rewrite <- Hd, Hwri, (pending_same (lg s) L') by (done || congruence).
      destruct q as [|x q]; [done|]. simpl in Hh. injection Hh as ->. rewrite <- app_assoc. f_equal. unfold pending. simpl.
      f_equal. unfold content. by rewrite Ho, Hb.
  - split; simpl; [apply (ring_same (lg s)); [by split_and!|done]|done|lia|].
    unfold delivered. simpl. lia.
Qed.

Lemma worker_done_ok k s q :
  sinv s q → worker s = WDone k →
  ∃ L', flush_done (lg s) = Ret L' ∧ same_rest (lg s) L' ∧ q ≠ [] ∧
    sinv (Sys L' (users s) (WPost k) (detach s) (accepted s)) (tail q) ∧ (busy (lg s) q → busy L' (tail q)).
Proof.
  intros [Hg Hf Hw Hd] Epc. rewrite Epc in Hw. destruct Hw as [Hh Hs]. destruct q as [|x q]; [done|]. simpl in Hh. injection Hh as Hx.
  destruct (flush_done_ok (lg s) x q Hg ltac:(done)) as (b & E & Hb & Hg'). eexists. split; [exact E|]. split; [done|]. split; [done|].
  assert (Hne : ∀ j, j ∈ q → 0 <= j ∧ x ≠ j).
  { intros j Hj. assert (Hjq : j ∈ x :: q) by by right. destruct (proj1 (rg_in _ _ Hg j) Hjq) as [Hjr _]. split; [lia|].
    intros ->. by pose proof (rg_nodup _ _ Hg) as [? _]%NoDup_cons. }
  assert (Hxq : x ∈ x :: q) by left. destruct (proj1 (rg_in _ _ Hg x) Hxq) as [Hxr _]. split; [split; simpl; try done|].
  - unfold delivered in *. simpl. rewrite Epc in Hd. simpl in Hd. intros Ht Hnd. rewrite <- Hd by done. f_equal.
    apply pending_ext. intros j Hj. destruct (Hne j Hj). rewrite (set_cell_content _ _ Hg) by lia. by rewrite decide_False.
  - intros Hbu j Hj. destruct (Hne j Hj). rewrite (set_cell_offset _ _ Hg) by lia. rewrite decide_False by done.
    apply Hbu. by right.
Qed.

Lemma worker_step_ok e s q :
  0 < e_time e → sinv s q → ∃ r, worker_step e s = Ret r ∧ ∀ s', r = Some s' → ∃ q', sinv s' q'.
Proof.
  intros He Hi. pose proof Hi as [Hg Hf Hw Hd]. unfold worker_step.
  assert (Hkeep : ∀ L' pc, same_ring (lg s) L' → (esq_logger_fd L' = None ∨ esq_logger_fd L' = esq_logger_fd (lg s)) →
    esq_logger_last_io_error_time L' = esq_logger_last_io_error_time (lg s) → disk L' = disk (lg s) → opened L' = opened (lg s) →
    worker_ok L' q pc → todo pc q = todo (worker s) q →
    ∃ q', sinv (Sys L' (users s) pc (detach s) (accepted s)) q').
  { intros L' pc Hr Hfd Ht Hdi Ho Hw' Htd. exists q. apply sinv_pc; try done. unfold files_ok. rewrite Ho.
    destruct Hfd as [-> | ->]; [done|apply Hf]. }
  destruct (worker s) as [| |k|k|k o|k|k|k| | | |] eqn:Epc; simpl.
  - eexists. split; [reflexivity|]. unfold wait_worker. destruct (esq_logger_worker_sem (lg s)); [done|].
    intros s' [= <-]. apply Hkeep; try done; auto.
  - eexists. split; [reflexivity|]. intros s' [= <-]. apply Hkeep; try done; auto; by destruct (esq_logger_stop_flag (lg s)).
  - eexists. split; [reflexivity|]. intros s' [= <-].
    destruct (Z.eqb_spec (esq_logger_last_io_error_time (lg s)) 0); simpl; [by apply Hkeep; try done; auto|].
    destruct (_ <? e_time e); by apply Hkeep; try done; auto.
  - destruct (worker_pick_ok k s q Hi Epc) as (o & L' & E & _ & Hi' & _). rewrite E. cbn [mbind cres_bind].
    eexists. split; [reflexivity|]. intros s' [= <-]. by exists q.
  - destruct (worker_write_ok e k o s q He Hi Epc) as (r & L' & E & _ & _ & Hok & Herr). rewrite E. cbn [mbind cres_bind].
    eexists. split; [reflexivity|]. intros s' Es. exists q. destruct (Z.eqb_spec r 0) as [->|Hne]; simpl in Es; injection Es as <-; auto.
  - destruct (worker_done_ok k s q Hi Epc) as (L' & E & _ & _ & Hi' & _). rewrite E. cbn [mbind cres_bind].
    eexists. split; [reflexivity|]. intros s' [= <-]. by exists (tail q).
  - eexists. split; [reflexivity|]. intros s' [= <-]. exists []. split; simpl; [by apply (drop_all_ok _ q)|done|done|].
    unfold delivered. simpl. done.
  - eexists. split; [reflexivity|]. intros s' [= <-].
    apply Hkeep; try done; auto; destruct k as [|i]; simpl; try done; by destruct (_ <? LOGBUFCNT).
  - eexists. split; [reflexivity|]. intros s' Es. destruct (esq_logger_change_filename_flag (lg s)); injection Es as <-; by apply Hkeep; try done; auto.
  - eexists. split; [reflexivity|]. intros s' [= <-]. apply Hkeep; try done; auto.
  - eexists. split; [reflexivity|]. intros s' [= <-]. apply Hkeep; try done; auto.
  - eexists. by split.
Qed.

Lemma detach_keeps s s' :
  detach_step s = Some s' →
  ∃ L' d, s' = Sys L' (users s) (worker s) d (accepted s) ∧ same_ring (lg s) L' ∧ esq_logger_fd L' = esq_logger_fd (lg s) ∧
    esq_logger_last_io_error_time L' = esq_logger_last_io_error_time (lg s) ∧ disk L' = disk (lg s) ∧
    opened L' = opened (lg s) ∧ (esq_logger_stop_flag L' = true ∨ esq_logger_stop_flag L' = esq_logger_stop_flag (lg s)) ∧
    (esq_logger_user_sem (lg s) <= esq_logger_user_sem L')%nat ∧ (esq_logger_worker_sem (lg s) <= esq_logger_worker_sem L')%nat.
Proof.
  unfold detach_step. destruct (detach s), (worker s); simpl; intros [= <-]; eexists _, _; (split; [reflexivity|]);
    split_and!; simpl; auto; done.
Qed.

Lemma step_ok ok b s s' q : step ok b s s' → sinv s q → ∃ q', sinv s' q'.
Proof.
  intros [s1 s1' Hm|text s1 _|s1|s1 s1' _ Hd] Hi.
  - destruct Hm as [i s2 s2' E|e s2 s2' He E].
    + destruct (user_step_ok i s2 q Hi) as (r & E' & Hr). rewrite E in E'. injection E' as <-. by apply Hr.
    + destruct (worker_step_ok e s2 q He Hi) as (r & E' & Hr). rewrite E in E'. injection E' as <-. by apply Hr.
  - exists q. apply sinv_same; try done. apply Hi.
  - exists q. apply sinv_same; try done. apply Hi.
  - destruct (detach_keeps _ _ Hd) as (L' & d & -> & Hr & Hfd & Ht & Hdi & Ho & _ & _ & _). exists q. apply sinv_same; try done.
    unfold files_ok. rewrite Hfd, Ho. apply Hi.
Qed.

Lemma init_ring : ring esq_logger_init [].
Proof.
  assert (Hst : ∀ i, 0 <= i < 4 → state_at esq_logger_init i = Some BUFFER_S_EMPTY ∧ offset_at esq_logger_init i = Some 0).
  { intros i Hi. unfold state_at, offset_at, esq_logger_init. cbn [esq_logger_buf_state esq_logger_buf_offset].
    assert (i = 0 ∨ i = 1 ∨ i = 2 ∨ i = 3) as [->| [->| [->| ->]]] by lia; done. }
  split; unfold esq_logger_init;
    cbn [esq_logger_buf esq_logger_buf_offset esq_logger_buf_state esq_logger_buf_user_idx esq_logger_buf_worker_idx]; try done.
  - apply Forall_replicate. by rewrite length_replicate.
  - by apply Forall_replicate.
  - intros i. split; [by intros ?%elem_of_nil|]. intros [Hi Hne]. by destruct (Hst i Hi).
  - by constructor.
  - by left.
  - intros i Hi _. by apply Hst.
Qed.

Lemma init_sinv : sinv init [].
Proof. split; [apply init_ring|done|done|]. done. Qed.

Lemma run_ok ok b s : rtc (step ok b) init s → ∃ q, sinv s q.
Proof.
  intros Hr. assert (H : ∀ s0 s, rtc (step ok b) s0 s → ∀ q, sinv s0 q → ∃ q', sinv s q').
  { clear. intros s0 s Hr. induction Hr as [s|s1 s2 s3 Hs _ IH]; intros q Hi; [by exists q|].
    destruct (step_ok _ _ _ _ _ Hs Hi) as [q' Hi']. by apply (IH q'). }
  apply (H _ _ Hr [] init_sinv).
Qed.
