(* ===== verification/LoggerThms.v ===== *)
(** * The logger: runs

    [live] adds what holds when all texts fit a buffer: for every buffer in use the worker
    is awake or will be woken, and for every caller that waits.  [measure] decreases with
    every move, so that runs end; [jam] is the state an empty text leads to. *)
From Stdlib Require Import Relation_Operators Lexicographic_Product Wf_nat.
From stdpp Require Import relations.
From S2P Require Import Prelude CString Logger LoggerInv.

(** ** Nobody sleeps on work *)

Definition user_good (pc : upc) : Prop :=
  match pc with UTry t | UPostWait t | USemWait t => good t | _ => True end.
Definition done_ok (pc : upc) : Prop := match pc with UDone r => r = ESQ_OK | _ => True end.

(** A post for the worker that is due, and a caller that waits. *)
Definition owes (pc : upc) : nat := match pc with UPostW => 1 | _ => 0 end.
Definition waits (pc : upc) : nat := match pc with USemWait _ => 1 | _ => 0 end.

(** The worker is awake and will look at the ring, or will wake a caller. *)
Definition looking (pc : wpc) : nat :=
  match pc with
  | WStopCheck | WTime KLoop | WPick KLoop | WWrite KLoop _ | WDone KLoop | WDrop KLoop => 1
  | _ => 0
  end.
Definition waking (pc : wpc) : nat := match pc with WPost KLoop => 1 | _ => looking pc end.

(** In the last four rounds there is a round for every buffer. *)
Definition last_rounds (pc : wpc) (n : nat) : Prop :=
  match pc with
  | WTime (KLast i) | WPick (KLast i) | WWrite (KLast i) _ | WDone (KLast i) | WDrop (KLast i) => (i + n <= 4 ∧ i <= 3)%nat
  | WPost (KLast i) => (i + n <= 3)%nat
  | WClose | WEnd => n = 0%nat
  | _ => True
  end.
Definition stopping (pc : wpc) : bool :=
  match pc with
  | WTime (KLast _) | WPick (KLast _) | WWrite (KLast _) _ | WDone (KLast _) | WDrop (KLast _) | WPost (KLast _)
  | WClose | WEnd => true
  | _ => false
  end.

Notation total f l := (sum_list_with f l).

Record live (s : sys) (q : list Z) : Prop := {
  lv_inv : sinv s q;
  lv_good : Forall user_good (users s);
  lv_done : esq_logger_stop_flag (lg s) = false → Forall done_ok (users s);
  lv_busy : busy (lg s) q;
  lv_last : last_rounds (worker s) (length q);
  lv_stop : stopping (worker s) = true → esq_logger_stop_flag (lg s) = true;
  lv_tokens : esq_logger_stop_flag (lg s) = false →
    (length q <= esq_logger_worker_sem (lg s) + total owes (users s) + looking (worker s))%nat;
  lv_waits : esq_logger_stop_flag (lg s) = false →
    (total waits (users s) <= esq_logger_user_sem (lg s) + esq_logger_worker_sem (lg s) + waking (worker s))%nat
}.

Lemma total_insert (f : upc → nat) l i x y :
  l !! i = Some x → (total f (<[i := y]> l) + f x = total f l + f y)%nat.
Proof.
  revert i. induction l as [|z l IH]; intros i Hi; [done|]. destruct i as [|i]; simpl in *; [injection Hi as ->; lia|].
  specialize (IH i Hi). lia.
Qed.

Lemma total_snoc (f : upc → nat) l x : total f (l ++ [x]) = (total f l + f x)%nat.
Proof. induction l as [|y l IH]; simpl; [lia|]. rewrite IH. lia. Qed.

(** A caller moves: what it must give back for the ring and the semaphores. *)
Lemma live_user s q i pc pc' L' q' a :
  live s q → users s !! i = Some pc → user_good pc' → (esq_logger_stop_flag L' = false → done_ok pc') →
  sinv (Sys L' (<[i := pc']> (users s)) (worker s) (detach s) (accepted s ++ a)) q' → busy L' q' →
  esq_logger_stop_flag L' = esq_logger_stop_flag (lg s) → last_rounds (worker s) (length q') →
  (esq_logger_stop_flag L' = false →
   length q' + esq_logger_worker_sem (lg s) + owes pc <= length q + esq_logger_worker_sem L' + owes pc')%nat →
  (waits pc' + esq_logger_user_sem (lg s) + esq_logger_worker_sem (lg s)
   <= waits pc + esq_logger_user_sem L' + esq_logger_worker_sem L')%nat →
  live (Sys L' (<[i := pc']> (users s)) (worker s) (detach s) (accepted s ++ a)) q'.
Proof.
  intros [_ Hgo Hdo _ _ Hst Htk Hwt] Hi Hg' Hd' Hs Hb Hstop Hla Ht Hw. pose proof (total_insert owes _ _ _ pc' Hi) as To.
  pose proof (total_insert waits _ _ _ pc' Hi) as Tw. split; simpl; try done.
  - by apply Forall_insert.
  - intros E. apply Forall_insert; [apply Hdo; congruence|auto].
  - by rewrite Hstop.
  - intros E. specialize (Ht E). specialize (Htk ltac:(congruence)). lia.
  - intros E. specialize (Hwt ltac:(congruence)). lia.
Qed.

Lemma last_rounds_le pc n m : (m <= n)%nat → last_rounds pc n → last_rounds pc m.
Proof. intros Hm. destruct pc as [| |[|]|[|]|[|]|[|]|[|]|[|]| | | |]; simpl; lia. Qed.

Lemma user_live i s s' q : live s q → user_step i s = Ret (Some s') → ∃ q', live s' q'.
Proof.
  intros Hl. pose proof Hl as [Hi Hgo Hdo Hb Hla Hst _ _]. pose proof Hi as [Hg Hf Hw Hd].
  unfold user_step. destruct (users s !! i) as [pc|] eqn:Epc; [|done].
  pose proof (Forall_lookup_1 _ _ _ _ Hgo Epc) as Hgp.
  assert (Hkeep : ∀ L' pc', user_good pc' → done_ok pc' → same_ring (lg s) L' → 
      rest (with_sems 0 0 (with_flags false false L')) = rest (with_sems 0 0 (with_flags false false (lg s))) →
      esq_logger_stop_flag L' = esq_logger_stop_flag (lg s) →
    (esq_logger_worker_sem (lg s) + owes pc <= esq_logger_worker_sem L' + owes pc')%nat →
    (waits pc' + esq_logger_user_sem (lg s) + esq_logger_worker_sem (lg s)
      <= waits pc + esq_logger_user_sem L' + esq_logger_worker_sem L')%nat →
    ∃ q', live (Sys L' (<[i := pc']> (users s)) (worker s) (detach s) (accepted s ++ [])) q').
  { intros L' pc' Hg' Hd' Hr Hre Hst' Ho Hwa. exists q. unfold rest in Hre. simpl in Hre.
    apply (live_user s q i pc); try done.
    - rewrite app_nil_r. apply sinv_same; try done; try congruence.
      unfold files_ok. replace (esq_logger_fd L') with (esq_logger_fd (lg s)) by congruence.
      by replace (opened L') with (opened (lg s)) by congruence.
    - intros j Hj. unfold offset_at. destruct Hr as (_ & -> & _). by apply Hb.
    - intros _. lia. }
  destruct pc as [text|text|text| | | | |r]; simpl.
  - destruct (user_try_ok s q text Hi) as (out & L' & q' & E & Hr & Hp & Hq & Hs'). rewrite E. cbn [mbind cres_bind]. simpl in Hgp.
    pose proof Hq as [_ Hpre _ Hbu Hlen Hsame]. specialize (Hbu Hgp Hb). specialize (Hlen Hgp). unfold same_rest, rest in Hr.
    assert (Hst' : esq_logger_stop_flag L' = esq_logger_stop_flag (lg s)) by congruence.
    assert (Hus : esq_logger_user_sem L' = esq_logger_user_sem (lg s)) by congruence.
    assert (Hws : esq_logger_worker_sem L' = esq_logger_worker_sem (lg s)) by congruence.
    assert (Hgo' : ∀ pc', user_good pc' → (esq_logger_stop_flag L' = false → done_ok pc') → waits pc' = 0%nat →
      (length (out_text text out) <= owes pc')%nat → (out = Accepted → esq_logger_stop_flag (lg s) = false) →
      ∃ q', live (Sys L' (<[i := pc']> (users s)) (worker s) (detach s) (accepted s ++ out_text text out)) q').
    { intros pc' H1 H2 H3 H4 H5. exists q'. apply (live_user s q i (UTry text)); try done.
      - destruct out; [apply (last_rounds_le _ (length q)); [simpl in Hlen; lia|done]..|].
        specialize (H5 eq_refl). destruct (worker s) as [| |[|]|[|]|[|]|[|]|[|]|[|]| | | |]; simpl in *; try done;
          specialize (Hst eq_refl); congruence.
      - intros _. simpl. lia.
      - simpl. lia. }
    destruct out as [r| | |]; simpl in Hp; simpl; intros [= <-].
    + apply Hgo'; simpl; try done; try lia. intros E0. exfalso. destruct Hp as [(_ & Hp & _)|[Hp _]]; [congruence|done].
    + apply Hgo'; simpl; try done; lia.
    + apply Hgo'; simpl; try done; lia.
    + apply Hgo'; simpl; try done; try lia. by destruct Hp as (_ & ? & _).
  - intros [= <-]. apply Hkeep; simpl; auto; try done; lia.
  - unfold wait_user. destruct (esq_logger_user_sem (lg s)) as [|n] eqn:En; [done|]. intros [= <-]. apply Hkeep; simpl; auto; try done; lia.
  - intros [= <-]. apply Hkeep; simpl; auto; try done; lia.
  - intros [= <-]. apply Hkeep; simpl; auto; try done; lia.
  - intros [= <-]. apply Hkeep; simpl; auto; try done; lia.
  - intros [= <-]. apply Hkeep; simpl; auto; try done; lia.
  - done.
Qed.

Lemma live_worker s q pc L' q' :
  live s q → sinv (Sys L' (users s) pc (detach s) (accepted s)) q' → busy L' q' →
  esq_logger_stop_flag L' = esq_logger_stop_flag (lg s) → last_rounds pc (length q') →
  (stopping pc = true → esq_logger_stop_flag (lg s) = true) →
  (esq_logger_stop_flag (lg s) = false →
   (q' = [] ∨ length q' + esq_logger_worker_sem (lg s) + looking (worker s)
     <= length q + esq_logger_worker_sem L' + looking pc)%nat ∧
   (esq_logger_user_sem (lg s) + esq_logger_worker_sem (lg s) + waking (worker s)
    <= esq_logger_user_sem L' + esq_logger_worker_sem L' + waking pc)%nat) →
  live (Sys L' (users s) pc (detach s) (accepted s)) q'.
Proof.
  intros [_ Hgo Hdo _ _ _ Htk Hwt] Hs Hb Hst Hla Hstp Hn. split; simpl; try done.
  - intros E. apply Hdo. congruence.
  - intros E. rewrite Hst. by apply Hstp.
  - intros E. rewrite Hst in E. specialize (Htk E). destruct (Hn E) as [[->|Hn'] _]; simpl; lia.
  - intros E. rewrite Hst in E. specialize (Hwt E). destruct (Hn E) as [_ Hn']. lia.
Qed.

Lemma worker_live e s s' q : 0 < e_time e → live s q → worker_step e s = Ret (Some s') → ∃ q', live s' q'.
Proof.
  intros He Hl. pose proof Hl as [Hi Hgo Hdo Hb Hla Hst _ _]. pose proof Hi as [Hg Hf Hw Hd]. unfold worker_step.
  assert (Hkeep : ∀ L' pc, same_ring (lg s) L' → (esq_logger_fd L' = None ∨ esq_logger_fd L' = esq_logger_fd (lg s)) →
    esq_logger_last_io_error_time L' = esq_logger_last_io_error_time (lg s) → disk L' = disk (lg s) → opened L' = opened (lg s) →
    worker_ok L' q pc → todo pc q = todo (worker s) q →
    esq_logger_stop_flag L' = esq_logger_stop_flag (lg s) → last_rounds pc (length q) →
    (stopping pc = true → esq_logger_stop_flag (lg s) = true) →
    (esq_logger_stop_flag (lg s) = false →
     (esq_logger_worker_sem (lg s) + looking (worker s) <= esq_logger_worker_sem L' + looking pc)%nat ∧
     (esq_logger_user_sem (lg s) + esq_logger_worker_sem (lg s) + waking (worker s)
      <= esq_logger_user_sem L' + esq_logger_worker_sem L' + waking pc)%nat) →
    ∃ q', live (Sys L' (users s) pc (detach s) (accepted s)) q').
  { intros L' pc Hr Hfd Ht Hdi Ho Hw' Htd Hstf Hlr Hstp Hn. exists q. apply (live_worker s q); try done.
    - apply sinv_pc; try done. unfold files_ok. rewrite Ho. destruct Hfd as [-> | ->]; [done|apply Hf].
    - intros j Hj. unfold offset_at. destruct Hr as (_ & -> & _). by apply Hb.
    - intros E. destruct (Hn E). split; [right|]; lia. }
  pose proof (ring_size _ _ Hg) as Hsz.
  destruct (worker s) as [| |k|k|k o|k|k|k| | | |] eqn:Epc; simpl.
  - unfold wait_worker. destruct (esq_logger_worker_sem (lg s)) as [|n] eqn:En; [done|]. intros [= <-].
    apply Hkeep; simpl; try done; auto. lia.
  - intros [= <-]. destruct (esq_logger_stop_flag (lg s)) eqn:Es; apply Hkeep; simpl; try done; auto; lia.
  - intros [= <-]. assert (Hpc : ∀ pc, pc = WDrop k ∨ pc = WPick k → worker_ok (lg s) q pc →
      ∃ q', live (Sys (lg s) (users s) pc (detach s) (accepted s)) q').
    { intros pc Hpc Hok. apply Hkeep; try done; auto; destruct Hpc as [-> | ->]; simpl; try done; destruct k; simpl in *; auto; lia. }
    destruct (Z.eqb_spec (esq_logger_last_io_error_time (lg s)) 0); simpl; [by apply Hpc; auto|].
    destruct (_ <? e_time e); by apply Hpc; auto.
  - destruct (worker_pick_ok k s q Hi Epc) as (o & L' & E & Hr & Hi' & Ho & _). rewrite E. cbn [mbind cres_bind]. intros [= <-].
    unfold same_rest, rest in Hr. destruct o as [o|].
    + destruct Ho as [Hne Hbu]. exists q. apply (live_worker s q); try done; rewrite ?Epc; simpl; auto; try congruence.
      intros _. replace (esq_logger_worker_sem L') with (esq_logger_worker_sem (lg s)) by congruence.
      replace (esq_logger_user_sem L') with (esq_logger_user_sem (lg s)) by congruence. destruct k; simpl; lia.
    + destruct (Ho Hb) as [-> ->]. exists []. apply (live_worker s []); try done; rewrite ?Epc; simpl; auto; destruct k; simpl in *; auto; lia.
  - destruct (worker_write_ok e k o s q He Hi Epc) as (r & L' & E & Hr & (Hus & Hws & Hsf & _) & Hok & Herr). rewrite E. cbn [mbind cres_bind].
    assert (Hbu : busy L' q) by (intros j Hj; unfold offset_at; destruct Hr as (_ & -> & _); by apply Hb).
    intros Es. exists q. destruct (Z.eqb_spec r 0) as [->|Hne]; simpl in Es; injection Es as <-.
    + apply (live_worker s q); try done; rewrite ?Epc; simpl; auto. rewrite Hus, Hws. destruct k; simpl; lia.
    + apply (live_worker s q); try done; rewrite ?Epc; simpl; auto. rewrite Hus, Hws. destruct k; simpl; lia.
  - destruct (worker_done_ok k s q Hi Epc) as (L' & E & Hr & Hne & Hi' & Hbu). rewrite E. cbn [mbind cres_bind].
    intros [= <-]. exists (tail q). unfold same_rest, rest in Hr. destruct q as [|x q]; [done|]. simpl in *.
    replace (esq_logger_stop_flag (lg s)) with (esq_logger_stop_flag L') in Hst by congruence.
    apply (live_worker s (x :: q)); try done; rewrite ?Epc; simpl; auto; try congruence.
    + destruct k; simpl in *; lia.
    + replace (esq_logger_stop_flag (lg s)) with (esq_logger_stop_flag L') by congruence. destruct k; simpl in *; auto.
    + replace (esq_logger_worker_sem L') with (esq_logger_worker_sem (lg s)) by congruence.
      replace (esq_logger_user_sem L') with (esq_logger_user_sem (lg s)) by congruence. destruct k; simpl; lia.
  - intros [= <-]. exists []. apply (live_worker s q); try done; rewrite ?Epc; simpl; auto.
    + split; simpl; [by apply (drop_all_ok _ q)|done|done|]. unfold delivered. done.
    + by intros j ?%elem_of_nil.
    + destruct k; simpl in *; lia.
  - intros Es. injection Es as <-. destruct k as [|i]; simpl in *; [apply Hkeep; simpl; try done; auto; lia|].
    unfold LOGBUFCNT. destruct (Z.ltb_spec (Z.of_nat (S i)) 4); apply Hkeep; simpl; try done; auto; try lia.
    all: intros E; specialize (Hst eq_refl); congruence.
  - destruct (esq_logger_change_filename_flag (lg s)); simpl; intros [= <-]; apply Hkeep; simpl; try done; auto.
  - intros [= <-]. apply Hkeep; simpl; try done; auto.
  - intros [= <-]. apply Hkeep; simpl; try done; auto.
  - done.
Qed.

(** A new thread starts. *)
Lemma live_spawn s q pc :
  live s q → user_good pc → done_ok pc → owes pc = 0%nat → waits pc = 0%nat →
  live (Sys (lg s) (users s ++ [pc]) (worker s) (detach s) (accepted s)) q.
Proof.
  intros [Hi Hgo Hdo Hb Hla Hst Htk Hwt] Hg Hd Ho Hw. split; simpl; try done.
  - apply sinv_same; try done. apply Hi.
  - apply Forall_app. split; [done|]. by constructor.
  - intros E. apply Forall_app. split; [auto|]. by constructor.
  - intros E. rewrite total_snoc. specialize (Htk E). lia.
  - intros E. rewrite total_snoc. specialize (Hwt E). lia.
Qed.

Lemma live_detach s s' q : live s q → detach_step s = Some s' → live s' q.
Proof.
  intros [Hi Hgo Hdo Hb Hla Hst Htk Hwt] Hd.
  destruct (detach_keeps _ _ Hd) as (L' & d & -> & Hr & Hfd & Ht & Hdi & Ho & Hs & Hus & Hws). split; simpl; try done.
  - apply sinv_same; try done. unfold files_ok. rewrite Hfd, Ho. apply Hi.
  - intros E. apply Hdo. destruct Hs; congruence.
  - intros j Hj. unfold offset_at. destruct Hr as (_ & -> & _). by apply Hb.
  - intros E. specialize (Hst E). destruct Hs; congruence.
  - intros E. specialize (Htk ltac:(destruct Hs; congruence)). lia.
  - intros E. specialize (Hwt ltac:(destruct Hs; congruence)). lia.
Qed.

Lemma step_live b s s' q : step good b s s' → live s q → ∃ q', live s' q'.
Proof.
  intros [s1 s1' Hm|text s1 Ht|s1|s1 s1' _ Hd] Hl.
  - destruct Hm as [i s2 s2' E|e s2 s2' He E]; [by eapply user_live|by eapply worker_live].
  - exists q. by apply live_spawn.
  - exists q. by apply live_spawn.
  - exists q. by eapply live_detach.
Qed.

Lemma init_live : live init [].
Proof.
  split; simpl; try done; try apply init_sinv; try by constructor. by intros j ?%elem_of_nil.
Qed.

Lemma run_live b s : rtc (step good b) init s → ∃ q, live s q.
Proof.
  intros Hr. assert (H : ∀ s0 s, rtc (step good b) s0 s → ∀ q, live s0 q → ∃ q', live s q').
  { clear. intros s0 s Hr. induction Hr as [s|s1 s2 s3 Hs _ IH]; intros q Hi; [by exists q|].
    destruct (step_live _ _ _ _ Hs Hi) as [q' Hi']. by apply (IH q'). }
  apply (H _ _ Hr [] init_live).
Qed.

(** ** Every run comes to an end *)

Lemma ring_length L q q' : ring L q → ring L q' → length q = length q'.
Proof.
  intros Hg Hg'. apply Permutation_length, NoDup_Permutation; [apply Hg|apply Hg'|].
  intros i. by rewrite (rg_in L q Hg), (rg_in L q' Hg').
Qed.

(** Callers not served, buffers in use, whether the buffer of the callers is open, and what
    the threads can still do: of the semaphore of the callers each value costs a try, of
    that of the worker, when there is nothing to write, a round that wakes a caller. *)
Definition trying (pc : upc) : nat := match pc with UTry _ | UPostWait _ | USemWait _ => 1 | _ => 0 end.
Definition urank (n : nat) (pc : upc) : nat :=
  match pc, n with
  | UTry _, O => 0 | UPostWait _, O => 63 | USemWait _, O => 0 | UPostW, O => 65 | UPostU, O => 2
  | UChange, O => 64 | UChangePost, O => 63
  | UTry _, _ => 2 | UPostWait _, _ => 1 | USemWait _, _ => 0 | UPostW, _ => 5 | UPostU, _ => 4
  | UChange, _ => 2 | UChangePost, _ => 1
  | UDone _, _ => 0
  end.
Definition kbase (k : wret) : nat := match k with KLoop => 0 | KLast i => 6 * (4 - i) end.
Definition wrank (n : nat) (pc : wpc) : nat :=
  match n, pc with
  | O, WSemWait => 0 | O, WStopCheck => 32 | O, WTime k => kbase k + 7 | O, WPick k => kbase k + 6
  | O, WWrite k _ | O, WDone k | O, WDrop k => kbase k + 5 | O, WPost k => kbase k + 4
  | O, WChange => 2 | O, WCloseFile => 1 | O, WClose => 1 | O, WEnd => 0
  | _, WSemWait => 5 | _, WStopCheck => 4 | _, WTime _ => 3 | _, WPick _ => 2
  | _, WWrite _ _ => 1 | _, WDone _ | _, WDrop _ => 0 | _, WPost _ => 11
  | _, WChange => 7 | _, WCloseFile => 6 | _, WClose => 1 | _, WEnd => 0
  end.
Definition open_buffer (L : logger) : nat :=
  if decide (state_at L (esq_logger_buf_user_idx L) = Some BUFFER_S_FULL) then 0 else 1.
Definition work (s : sys) (n : nat) : nat :=
  Nat.add (Nat.add (Nat.add (match n with O => Nat.mul 62 (esq_logger_worker_sem (lg s)) | _ => O end)
    (Nat.mul (match n with O => 1 | _ => 3 end) (esq_logger_user_sem (lg s)))) (total (urank n) (users s))) (wrank n (worker s)).
Definition measure (s : sys) (n : nat) : nat * (nat * (nat * nat)) :=
  (total trying (users s), (n, (open_buffer (lg s), work s n))).

Definition less : nat * (nat * (nat * nat)) → nat * (nat * (nat * nat)) → Prop :=
  slexprod _ _ lt (slexprod _ _ lt (slexprod _ _ lt lt)).

Lemma less_wf : well_founded less.
Proof. repeat apply wf_slexprod; apply lt_wf. Qed.

Lemma less_1 a a' x y : (a < a')%nat → less (a, x) (a', y).
Proof. intros H. by apply left_slex. Qed.
Lemma less_2 a n n' x y : (n < n')%nat → less (a, (n, x)) (a, (n', y)).
Proof. intros H. by apply right_slex, left_slex. Qed.
Lemma less_3 a n f f' x y : (f < f')%nat → less (a, (n, (f, x))) (a, (n, (f', y))).
Proof. intros H. by apply right_slex, right_slex, left_slex. Qed.
Lemma less_4 a n f w w' : (w < w')%nat → less (a, (n, (f, w))) (a, (n, (f, w'))).
Proof. intros H. by apply right_slex, right_slex, right_slex. Qed.

(** A caller that leaves the ring alone. *)
Lemma less_user s i pc pc' L' n a :
  users s !! i = Some pc → trying pc' = trying pc → same_ring (lg s) L' →
  (match n with O => Nat.mul 62 (esq_logger_worker_sem L') | _ => O end + match n with O => 1 | _ => 3 end * esq_logger_user_sem L' + urank n pc'
   < match n with O => Nat.mul 62 (esq_logger_worker_sem (lg s)) | _ => O end + match n with O => 1 | _ => 3 end * esq_logger_user_sem (lg s) + urank n pc)%nat →
  less (measure (Sys L' (<[i := pc']> (users s)) (worker s) (detach s) a) n) (measure s n).
Proof.
  intros Hi Ht (_ & _ & H3 & H4 & _) Hw. unfold measure. cbn [users lg].
  pose proof (total_insert trying _ _ _ pc' Hi) as T1. pose proof (total_insert (urank n) _ _ _ pc' Hi) as T2.
  replace (total trying (<[i := pc']> (users s))) with (total trying (users s)) by lia.
  replace (open_buffer L') with (open_buffer (lg s)) by (unfold open_buffer, state_at; by rewrite H3, H4).
  apply less_4. unfold work. cbn [users lg worker]. lia.
Qed.

Lemma user_less i s s' q :
  live s q → user_step i s = Ret (Some s') →
  ∃ q', ring (lg s') q' ∧ less (measure s' (length q')) (measure s (length q)).
Proof.
  intros [Hi Hgo _ _ _ _ _ _]. pose proof (si_ring _ _ Hi) as Hg. unfold user_step.
  destruct (users s !! i) as [pc|] eqn:Epc; [|done]. pose proof (Forall_lookup_1 _ _ _ _ Hgo Epc) as Hgp.
  assert (Hkeep : ∀ L' pc' a, trying pc' = trying pc → same_ring (lg s) L' →
    (∀ n, match n with O => Nat.mul 62 (esq_logger_worker_sem L') | _ => O end + match n with O => 1 | _ => 3 end * esq_logger_user_sem L' + urank n pc'
     < match n with O => Nat.mul 62 (esq_logger_worker_sem (lg s)) | _ => O end + match n with O => 1 | _ => 3 end * esq_logger_user_sem (lg s) + urank n pc)%nat →
    ∃ q', ring L' q' ∧ less (measure (Sys L' (<[i := pc']> (users s)) (worker s) (detach s) a) (length q')) (measure s (length q))).
  { intros L' pc' a Ht Hr Hw. exists q. split; [by apply (ring_same (lg s))|]. by apply (less_user s i pc). }
  destruct pc as [text|text|text| | | | |r]; simpl.
  - destruct (user_try_ok s q text Hi) as (out & L' & q' & E & Hr & Hp & Hq & _). rewrite E. cbn [mbind cres_bind].
    assert (Hserved : ∀ pc' a, trying pc' = 0%nat →
      ∃ q', ring L' q' ∧ less (measure (Sys L' (<[i := pc']> (users s)) (worker s) (detach s) a) (length q')) (measure s (length q))).
    { intros pc' a Ht. exists q'. split; [apply Hq|]. apply less_1. cbn [users].
      pose proof (total_insert trying _ _ _ pc' Epc) as T. cbn [trying] in T. lia. }
    destruct out as [r| | |]; simpl in Hp |- *; intros [= <-].
    + by apply Hserved.
    + destruct Hp as (-> & _ & Hne). exists q. split; [done|]. apply (less_user s i (UTry text)); try done.
      destruct q as [|x q]; [done|]. simpl. lia.
    + destruct Hp as (Hg' & _ & _ & _ & Hu & Hn & Hf). exists q. split; [done|]. unfold measure. cbn [users lg].
      rewrite list_insert_id by done. apply less_3. unfold open_buffer. rewrite Hu, decide_True, decide_False by done. lia.
    + by apply Hserved.
  - intros [= <-]. apply Hkeep; [done|done|]. intros [|n]; simpl; lia.
  - unfold wait_user. destruct (esq_logger_user_sem (lg s)) as [|k] eqn:En; [done|]. intros [= <-].
    apply Hkeep; [done|done|]. intros [|n]; simpl; lia.
  - intros [= <-]. apply Hkeep; [done|done|]. intros [|n]; simpl; lia.
  - intros [= <-]. apply Hkeep; [done|done|]. intros [|n]; simpl; lia.
  - intros [= <-]. apply Hkeep; [done|done|]. intros [|n]; simpl; lia.
  - intros [= <-]. apply Hkeep; [done|done|]. intros [|n]; simpl; lia.
  - done.
Qed.

(** The worker leaves the ring alone. *)
Lemma less_worker s pc L' n d a :
  same_ring (lg s) L' →
  (match n with O => Nat.mul 62 (esq_logger_worker_sem L') | _ => O end + match n with O => 1 | _ => 3 end * esq_logger_user_sem L' + wrank n pc
   < match n with O => Nat.mul 62 (esq_logger_worker_sem (lg s)) | _ => O end + match n with O => 1 | _ => 3 end * esq_logger_user_sem (lg s) + wrank n (worker s))%nat →
  less (measure (Sys L' (users s) pc d a) n) (measure s n).
Proof.
  intros (_ & _ & H3 & H4 & _) Hw. unfold measure. cbn [users lg].
  replace (open_buffer L') with (open_buffer (lg s)) by (unfold open_buffer, state_at; by rewrite H3, H4).
  apply less_4. unfold work. cbn [users lg worker]. lia.
Qed.

Lemma pick_less k s q o L' :
  live s q → worker s = WPick k → flush_pick (lg s) = Ret (o, L') →
  less (measure (Sys L' (users s) (match o with None => WPost k | Some offset => WWrite k offset end) (detach s) (accepted s)) (length q))
       (measure s (length q)).
Proof.
  intros Hl Epc E. destruct (worker_pick_ok k s q (lv_inv _ _ Hl) Epc) as (o' & L1 & E' & Hr & _ & Ho & Hfu).
  rewrite E in E'. injection E' as <- <-. unfold same_rest, rest in Hr.
  destruct o as [o|]; [destruct Ho as [Hne _]|destruct (Ho (lv_busy _ _ Hl)) as [-> ->]].
  - destruct q as [|x q]; [done|]. unfold measure. cbn [users lg].
    assert (Hw : (work (Sys L' (users s) (WWrite k o) (detach s) (accepted s)) (length (x :: q)) < work s (length (x :: q)))%nat).
    { unfold work. cbn [users lg worker length]. replace (esq_logger_user_sem L') with (esq_logger_user_sem (lg s)) by congruence.
      rewrite Epc. cbn [wrank]. lia. }
    assert (Hop : open_buffer L' = open_buffer (lg s) ∨ (open_buffer L' < open_buffer (lg s))%nat).
    { unfold open_buffer. repeat case_decide; auto; naive_solver. }
    destruct Hop as [-> |Hop]; [by apply less_4|by apply less_3].
  - apply less_worker; [done|]. rewrite Epc. simpl. lia.
Qed.

Lemma worker_less e s s' q :
  0 < e_time e → live s q → worker_step e s = Ret (Some s') →
  ∃ q', ring (lg s') q' ∧ less (measure s' (length q')) (measure s (length q)).
Proof.
  intros He Hl. pose proof (lv_inv _ _ Hl) as Hi. pose proof Hi as [Hg Hf Hw Hd]. unfold worker_step.
  assert (Hkeep : ∀ L' pc, same_ring (lg s) L' →
    (∀ n, match n with O => Nat.mul 62 (esq_logger_worker_sem L') | _ => O end + match n with O => 1 | _ => 3 end * esq_logger_user_sem L' + wrank n pc
     < match n with O => Nat.mul 62 (esq_logger_worker_sem (lg s)) | _ => O end + match n with O => 1 | _ => 3 end * esq_logger_user_sem (lg s) + wrank n (worker s))%nat →
    ∃ q', ring L' q' ∧ less (measure (Sys L' (users s) pc (detach s) (accepted s)) (length q')) (measure s (length q))).
  { intros L' pc Hr Hw'. exists q. split; [by apply (ring_same (lg s))|]. by apply less_worker. }
  destruct (worker s) as [| |k|k|k o|k|k|k| | | |] eqn:Epc; simpl.
  - unfold wait_worker. destruct (esq_logger_worker_sem (lg s)) as [|m] eqn:Em; [done|]. intros [= <-].
    apply Hkeep; [done|]. intros [|n]; simpl; lia.
  - intros [= <-]. apply Hkeep; [done|]. intros [|n]; destruct (esq_logger_stop_flag (lg s)); simpl; lia.
  - intros [= <-]. apply Hkeep; [done|]. intros [|n]; destruct (_ && _); simpl; lia.
  - destruct (worker_pick_ok k s q Hi Epc) as (o & L' & E & _ & Hi' & _). rewrite E. cbn [mbind cres_bind]. intros [= <-].
    exists q. split; [apply (si_ring _ _ Hi')|]. by apply pick_less.
  - destruct (worker_write_ok e k o s q He Hi Epc) as (r & L' & E & Hr & (Hus & Hws & _ & _) & _). rewrite E. cbn [mbind cres_bind].
    destruct Hw as (Hh & _). destruct q as [|x q]; [done|].
    intros Es. exists (x :: q). destruct (negb (r =? 0)); injection Es as <-; (split; [by apply (ring_same (lg s))|]);
      apply less_worker; try done; rewrite ?Epc; simpl; rewrite Hus; lia.
  - destruct (worker_done_ok k s q Hi Epc) as (L' & E & Hr & Hne & Hi' & _). rewrite E. cbn [mbind cres_bind].
    intros [= <-]. exists (tail q). split; [apply (si_ring _ _ Hi')|]. destruct q as [|x q]; [done|]. apply less_2. simpl. lia.
  - intros [= <-]. exists []. split; [by apply (drop_all_ok _ q)|]. destruct q as [|x q]; [|apply less_2; simpl; lia].
    assert (Hop : open_buffer (drop_all (lg s)) = open_buffer (lg s)).
    { unfold open_buffer. rewrite !decide_False; [done| |done]. pose proof (rg_idx _ _ Hg) as [Hu _].
      intros Hs. assert (Hin : esq_logger_buf_user_idx (lg s) ∈ []) by (apply (rg_in _ _ Hg); split; [done|congruence]).
      by apply elem_of_nil in Hin. }
    unfold measure. cbn [users lg]. rewrite Hop. apply less_4. unfold work. rewrite Epc. simpl. lia.
  - intros [= <-]. apply Hkeep; [done|]. intros n. destruct k as [|i]; [destruct n; simpl; lia|].
    unfold after_flush, LOGBUFCNT. destruct (Z.ltb_spec (Z.of_nat (S i)) 4); destruct n; simpl; lia.
  - intros Es. destruct (esq_logger_change_filename_flag (lg s)); injection Es as <-; (apply Hkeep; [done|]); intros [|n]; simpl; lia.
  - intros [= <-]. apply Hkeep; [done|]. intros [|n]; simpl; lia.
  - intros [= <-]. apply Hkeep; [done|]. intros [|n]; simpl; lia.
  - done.
Qed.

Lemma move_live s s' q : live s q → move s s' → ∃ q', live s' q' ∧ less (measure s' (length q')) (measure s (length q)).
Proof.
  intros Hl Hm. assert (Hlv : ∃ q', live s' q') by (by eapply (step_live true); [apply step_move|]).
  destruct Hlv as [q' Hl']. exists q'. split; [done|].
  assert (Hx : ∃ q1, ring (lg s') q1 ∧ less (measure s' (length q1)) (measure s (length q))).
  { destruct Hm as [i s1 s1' E|e s1 s1' He E]; [by eapply user_less|by eapply worker_less]. }
  destruct Hx as (q1 & Hg1 & Hless). by rewrite (ring_length _ _ _ (si_ring _ _ (lv_inv _ _ Hl')) Hg1).
Qed.

Lemma live_sn s q : live s q → sn move s.
Proof.
  remember (measure s (length q)) as m eqn:Em. revert s q Em.
  induction m as [m IH] using (well_founded_induction less_wf). intros s q -> Hl.
  constructor. intros s' Hm. destruct (move_live _ _ _ Hl Hm) as (q' & Hl' & Hless). by apply (IH _ Hless s' q').
Qed.

(** ** Threads that cannot move *)

Lemma worker_blocked e s :
  worker_step e s = Ret None → worker s = WEnd ∨ worker s = WSemWait ∧ esq_logger_worker_sem (lg s) = 0%nat.
Proof.
  unfold worker_step. destruct (worker s) as [| |k|k|k o|k|k|k| | | |]; simpl; try done; auto.
  - unfold wait_worker. destruct (esq_logger_worker_sem (lg s)); [by right|done].
  - destruct (flush_pick (lg s)) as [[o L']| | |]; done.
  - destruct (esq_logger_flush_to_disk e _ o (lg s)) as [[r L']| | |]; [|done..]. cbn [mbind cres_bind]. by destruct (negb _).
  - destruct (flush_done (lg s)); done.
  - by destruct (esq_logger_change_filename_flag (lg s)).
Qed.

Lemma user_blocked i s pc :
  users s !! i = Some pc → user_step i s = Ret None →
  (∃ r, pc = UDone r) ∨ (∃ t, pc = USemWait t) ∧ esq_logger_user_sem (lg s) = 0%nat.
Proof.
  intros Hi. unfold user_step. rewrite Hi. destruct pc as [text|text|text| | | | |r]; simpl; try done; eauto.
  - destruct (log_section (lg s) text) as [[out L']| | |]; [|done..]. cbn [mbind cres_bind]. by destruct out.
  - unfold wait_user. destruct (esq_logger_user_sem (lg s)); [eauto|done].
Qed.

Definition some_env : env := Env 1 (Tm 0 0 0 0 0 0) true 0.

(** When no thread can move, every call has returned and nothing waits to be written. *)
Lemma live_nf s q :
  live s q → esq_logger_stop_flag (lg s) = false → nf move s →
  (∀ pc, pc ∈ users s → pc = UDone ESQ_OK) ∧ q = [] ∧ worker s = WSemWait.
Proof.
  intros Hl Hns Hnf. pose proof Hl as [Hi _ Hdo _ _ Hst Htk Hwt].
  assert (Hu : ∀ i pc, users s !! i = Some pc → (∃ r, pc = UDone r) ∨ (∃ t, pc = USemWait t) ∧ esq_logger_user_sem (lg s) = 0%nat).
  { intros i pc Hpc. destruct (user_step_ok i s q Hi) as ([s'|] & E & _).
    - exfalso. apply Hnf. exists s'. by apply (move_user i).
    - by apply (user_blocked i s). }
  assert (Hw : worker s = WSemWait ∧ esq_logger_worker_sem (lg s) = 0%nat).
  { destruct (worker_step_ok some_env s q ltac:(done) Hi) as ([s'|] & E & _).
    - exfalso. apply Hnf. exists s'. by apply (move_worker some_env).
    - destruct (worker_blocked _ _ E) as [Hend|?]; [|done]. rewrite Hend in Hst. specialize (Hst eq_refl). congruence. }
  destruct Hw as [Hpc Hsem]. specialize (Htk Hns). specialize (Hwt Hns). rewrite Hpc, Hsem in Htk, Hwt. simpl in Htk, Hwt.
  assert (Hsum : ∀ (f : upc → nat) l, (∀ pc, pc ∈ l → f pc = 0%nat) → total f l = 0%nat).
  { intros f l. induction l as [|y l IH]; intros Hf; simpl; [done|]. rewrite (Hf y), IH; [done| |left]. intros pc Hp. apply Hf. by right. }
  assert (Hz : ∀ pc t, pc ∈ users s → pc = USemWait t → (0 < total waits (users s))%nat).
  { intros pc t Hp ->. apply list_elem_of_split in Hp as (l1 & l2 & ->). rewrite sum_list_with_app. simpl. lia. }
  assert (Hdone : ∀ pc, pc ∈ users s → ∃ r, pc = UDone r).
  { intros pc Hp. apply list_elem_of_lookup in Hp as Hp'. destruct Hp' as [i Hpi].
    destruct (Hu i pc Hpi) as [?|[[t Ht] H0]]; [done|]. specialize (Hz pc t Hp Ht). rewrite H0 in Hwt. lia. }
  split_and!; [| |done].
  - intros pc Hp. destruct (Hdone pc Hp) as [r ->]. specialize (Hdo Hns). rewrite Forall_forall in Hdo. by rewrite (Hdo _ Hp).
  - rewrite Hsum in Htk; [destruct q; [done|simpl in Htk; lia]|]. intros pc Hp. by destruct (Hdone pc Hp) as [r ->].
Qed.

(** The flag is set by [esq_logger_detach] only. *)
Lemma move_stop s s' q : sinv s q → move s s' → esq_logger_stop_flag (lg s') = esq_logger_stop_flag (lg s).
Proof.
  intros Hi Hm. revert Hi. destruct Hm as [i s1 s1' E|e s1 s1' He E]; intros Hi.
  - unfold user_step in E. destruct (users s1 !! i) as [pc|]; [|done]. destruct pc as [text|text|text| | | | |r]; simpl in E; try by simplify_eq.
    + destruct (user_try_ok s1 q text Hi) as (out & L' & q' & E' & Hr & _). rewrite E' in E. cbn [mbind cres_bind] in E.
      unfold same_rest, rest in Hr. destruct out; simpl in E; injection E as <-; simpl; congruence.
    + unfold wait_user in E. destruct (esq_logger_user_sem (lg s1)); simpl in E; by simplify_eq.
  - unfold worker_step in E. destruct (worker s1) as [| |k|k|k o|k|k|k| | | |] eqn:Epc; simpl in E; try by simplify_eq.
    + unfold wait_worker in E. destruct (esq_logger_worker_sem (lg s1)); simpl in E; by simplify_eq.
    + destruct (worker_pick_ok k s1 q Hi Epc) as (o & L' & E' & Hr & _). rewrite E' in E. cbn [mbind cres_bind] in E.
      unfold same_rest, rest in Hr. injection E as <-. simpl. congruence.
    + destruct (worker_write_ok e k o s1 q He Hi Epc) as (r & L' & E' & _ & (_ & _ & Hs & _) & _). rewrite E' in E. cbn [mbind cres_bind] in E.
      destruct (negb (r =? 0)); simpl in E; injection E as <-; done.
    + destruct (worker_done_ok k s1 q Hi Epc) as (L' & E' & Hr & _). rewrite E' in E. cbn [mbind cres_bind] in E.
      unfold same_rest, rest in Hr. injection E as <-. simpl. congruence.
    + destruct (esq_logger_change_filename_flag (lg s1)); simpl in E; by simplify_eq.
Qed.

Lemma run_quiet s : rtc (step good false) init s → ∃ q, live s q ∧ esq_logger_stop_flag (lg s) = false.
Proof.
  intros Hr. assert (H : ∀ s0 s, rtc (step good false) s0 s → ∀ q, live s0 q → esq_logger_stop_flag (lg s0) = false →
    ∃ q', live s q' ∧ esq_logger_stop_flag (lg s) = false).
  { clear. intros s0 s Hr. induction Hr as [s|s1 s2 s3 Hs _ IH]; intros q Hi Hst; [by exists q|].
    destruct (step_live _ _ _ _ Hs Hi) as [q' Hi']. apply (IH q' Hi'). inversion Hs; subst; try done.
    by rewrite (move_stop s1 s2 q (lv_inv _ _ Hi)). }
  apply (H _ _ Hr [] init_live). done.
Qed.

(** ** A buffer without text *)

(** The worker stands on a closed buffer with nothing in it, and others are in use. *)
Record jam (s : sys) (q : list Z) : Prop := {
  jm_inv : sinv s q;
  jm_head : head q = Some (esq_logger_buf_worker_idx (lg s));
  jm_more : (2 <= length q)%nat;
  jm_full : state_at (lg s) (esq_logger_buf_worker_idx (lg s)) = Some BUFFER_S_FULL;
  jm_zero : offset_at (lg s) (esq_logger_buf_worker_idx (lg s)) = Some 0;
  jm_pc : match worker s with WWrite _ _ | WDone _ | WDrop _ => False | _ => True end;
  jm_time : esq_logger_last_io_error_time (lg s) = 0
}.

Definition same_files (s s' : sys) : Prop := disk (lg s') = disk (lg s) ∧ opened (lg s') = opened (lg s).

Lemma prefix_more (q q' : list Z) x :
  q `prefix_of` q' → head q = Some x → (2 <= length q)%nat → head q' = Some x ∧ (2 <= length q')%nat.
Proof. intros Hp Hh Hl. destruct (head_prefix q q' x Hp Hh) as [? _]. apply prefix_length in Hp. split; [done|lia]. Qed.

Lemma jam_user i s s' q : jam s q → user_step i s = Ret (Some s') → same_files s s' ∧ ∃ q', jam s' q'.
Proof.
  intros [Hi Hh Hm Hf Hz Hpc Ht] E. pose proof (si_ring _ _ Hi) as Hg. pose proof E as E0. unfold user_step in E.
  destruct (users s !! i) as [pc|]; [|done].
  assert (Hkeep : ∀ L' pc', same_ring (lg s) L' → esq_logger_fd L' = esq_logger_fd (lg s) →
    esq_logger_last_io_error_time L' = esq_logger_last_io_error_time (lg s) → disk L' = disk (lg s) → opened L' = opened (lg s) →
    s' = Sys L' (<[i := pc']> (users s)) (worker s) (detach s) (accepted s ++ []) → same_files s s' ∧ ∃ q', jam s' q').
  { intros L' pc' Hr Hfd Hti Hdi Ho ->. split; [done|]. exists q. pose proof Hr as (H1 & H2 & H3 & H4 & H5). rewrite app_nil_r.
    unfold state_at, offset_at in *. split; simpl; unfold state_at, offset_at; rewrite ?H2, ?H3, ?H5, ?Hti; try done.
    apply sinv_same; try done. unfold files_ok. rewrite Hfd, Ho. apply Hi. }
  destruct pc as [text|text|text| | | | |r]; simpl in E; try (injection E as E; eapply Hkeep; [..|by rewrite <- E]; done).
  - destruct (log_section_ok (lg s) q text Hg) as (out & L' & E' & Hr & Hfk & Hwi & Hpost).
    destruct (user_try_ok s q text Hi) as (out' & L1 & q' & E'' & _ & _ & Hq & Hs'). rewrite E' in E, E''. injection E'' as <- <-.
    cbn [mbind cres_bind] in E. unfold same_rest, rest in Hr.
    destruct (Hfk _ (proj1 (proj2 (rg_idx _ _ Hg))) Hf) as (Hf' & Hz' & _).
    destruct (prefix_more q q' _ (qs_prefix _ _ _ _ _ _ Hq) Hh Hm) as [Hh' Hm'].
    assert (Hj : ∀ us, jam (Sys L' us (worker s) (detach s) (accepted s ++ out_text text out)) q').
    { intros us. split; simpl; rewrite ?Hwi; try done; try congruence. }
    assert (Hsf : disk L' = disk (lg s) ∧ opened L' = opened (lg s)) by (split; congruence).
    destruct out; simpl in E; injection E as <-; (split; [done|]); exists q'; apply Hj.
  - unfold wait_user in E. destruct (esq_logger_user_sem (lg s)); simpl in E; [done|]. injection E as E. eapply Hkeep; [..|by rewrite <- E]; done.
  - done.
Qed.

Lemma jam_worker e s s' q : 0 < e_time e → jam s q → worker_step e s = Ret (Some s') → same_files s s' ∧ ∃ q', jam s' q'.
Proof.
  intros He [Hi Hh Hm Hf Hz Hpc Ht] E. pose proof (si_ring _ _ Hi) as Hg. unfold worker_step in E.
  assert (Hkeep : ∀ L' pc, same_ring (lg s) L' → (esq_logger_fd L' = None ∨ esq_logger_fd L' = esq_logger_fd (lg s)) →
    esq_logger_last_io_error_time L' = esq_logger_last_io_error_time (lg s) → disk L' = disk (lg s) → opened L' = opened (lg s) →
    match pc with WWrite _ _ | WDone _ | WDrop _ => False | _ => True end →
    s' = Sys L' (users s) pc (detach s) (accepted s) → same_files s s' ∧ ∃ q', jam s' q').
  { intros L' pc Hr Hfd Hti Hdi Ho Hpc' ->. split; [done|]. exists q. pose proof Hr as (H1 & H2 & H3 & H4 & H5).
    unfold state_at, offset_at in *. split; simpl; unfold state_at, offset_at; rewrite ?H2, ?H3, ?H5, ?Hti; try done.
    apply sinv_pc; try done.
    - unfold files_ok. rewrite Ho. destruct Hfd as [-> | ->]; [done|apply Hi].
    - by destruct pc.
    - by destruct pc, (worker s). }
  destruct (worker s) as [| |k|k|k o|k|k|k| | | |] eqn:Epc; simpl in E; try done.
  - unfold wait_worker in E. destruct (esq_logger_worker_sem (lg s)); simpl in E; [done|]. injection E as E. eapply Hkeep; [..|by rewrite <- E]; auto; done.
  - injection E as E. eapply Hkeep; [..|by rewrite <- E]; auto; try done. by destruct (esq_logger_stop_flag (lg s)).
  - injection E as E. rewrite Ht in E. simpl in E. eapply Hkeep; [..|by rewrite <- E]; auto; done.
  - destruct (worker_pick_ok k s q Hi Epc) as (o & L' & E' & Hr & Hi' & _). rewrite E' in E. cbn [mbind cres_bind] in E.
    injection E as <-. pose proof (flush_pick_ok (lg s) q Hg) as Hp. destruct q as [|x q]; [done|].
    destruct Hp as (st & o' & b & L1 & (Hc1 & Hc2 & Hc3) & E1 & HL & Hg1 & _). rewrite E' in E1. injection E1 as -> ->.
    simpl in Hh. injection Hh as ->. assert (o' = 0) as -> by congruence. simpl in Hi' |- *. unfold same_rest, rest in Hr.
    pose proof (proj2 (rg_idx _ _ Hg)) as Hwr.
    split; [split; simpl; congruence|]. exists (esq_logger_buf_worker_idx (lg s) :: q). split; simpl; try done; rewrite HL; simpl; try done.
    + etransitivity; [apply (set_cell_state (lg s) _ Hg _ Hwr BUFFER_S_FULL 0 b); lia|]. by rewrite decide_True.
    + etransitivity; [apply (set_cell_offset (lg s) _ Hg _ Hwr BUFFER_S_FULL 0 b); lia|]. by rewrite decide_True.
  - injection E as E. eapply Hkeep; [..|by rewrite <- E]; auto; try done. destruct k; simpl; [done|]. by destruct (_ <? _).
  - destruct (esq_logger_change_filename_flag (lg s)); injection E as E; (eapply Hkeep; [..|by rewrite <- E]; auto; done).
  - injection E as E. eapply Hkeep; [..|by rewrite <- E]; auto; done.
  - injection E as E. eapply Hkeep; [..|by rewrite <- E]; auto; done.
Qed.

Lemma jam_step ok b s s' q : jam s q → step ok b s s' → same_files s s' ∧ ∃ q', jam s' q'.
Proof.
  intros Hj Hs. revert Hj. destruct Hs as [s1 s1' Hm|text s1 Ht|s1|s1 s1' _ Hd]; intros Hj.
  - revert Hj. destruct Hm as [i s2 s2' E|e s2 s2' He E]; intros Hj; [by eapply jam_user|by eapply jam_worker].
  - split; [done|]. exists q. destruct Hj. split; try done. apply sinv_same; try done. apply jm_inv0.
  - split; [done|]. exists q. destruct Hj. split; try done. apply sinv_same; try done. apply jm_inv0.
  - destruct (detach_keeps _ _ Hd) as (L' & d & -> & Hr & Hfd & Hti & Hdi & Ho & _). split; [done|]. exists q.
    destruct Hj as [Hi Hh Hm Hf Hz Hpc Ht]. pose proof Hr as (H1 & H2 & H3 & H4 & H5).
    unfold state_at, offset_at in *. split; simpl; unfold state_at, offset_at; rewrite ?H2, ?H3, ?H5, ?Hti; try done.
    apply sinv_same; try done. unfold files_ok. rewrite Hfd, Ho. apply Hi.
Qed.

Lemma jam_run ok b s s' q : jam s q → rtc (step ok b) s s' → written (lg s') = written (lg s).
Proof.
  intros Hj Hr. revert q Hj. induction Hr as [s|s1 s2 s3 Hs _ IH]; intros q Hj; [done|].
  destruct (jam_step _ _ _ _ _ Hj Hs) as ([Hd Ho] & q' & Hj'). rewrite (IH q' Hj'). unfold written. by rewrite Hd, Ho.
Qed.

(** ** The theorems *)

(** C7: nothing is lost: in every run, with any number of callers, any texts, new files and
    the end of the program, no thread of the logger ever faults or leaves an index or a
    buffer, and what is in the files, followed by what is in the ring in order, is exactly
    what was accepted, in the order it was accepted; as long as the disk reports no error
    and no file name is used twice. *)
Theorem esq_log_no_loss s :
  rtc (step (fun _ => True) true) init s →
  (∀ i, ∃ r, user_step i s = Ret r) ∧ (∀ e, 0 < e_time e → ∃ r, worker_step e s = Ret r) ∧
  ∃ q, ring (lg s) q ∧ delivered s q.
Proof.
  intros Hr. destruct (run_ok _ _ _ Hr) as [q Hi]. split; [|split].
  - intros i. destruct (user_step_ok i s q Hi) as (r & E & _). eauto.
  - intros e He. destruct (worker_step_ok e s q He Hi) as (r & E & _). eauto.
  - exists q. split; [apply (si_ring _ _ Hi)|apply (si_data _ _ Hi)].
Qed.

(** C8: everything arrives.  When all texts fit a buffer and are not empty, and nobody shuts the
    logger down, every run of the threads comes to an end by itself, and it can only end with
    every call returned with [ESQ_OK] and the worker asleep; if no disk error was met and the
    files that were opened have different names, all accepted texts are then in the files, in
    order.  So no call blocks for ever, no wake-up is lost and the worker never sleeps on
    text. *)
Theorem esq_log_delivers s :
  rtc (step good false) init s →
  sn move s ∧
  ∀ s', rtc move s s' → nf move s' →
    (∀ pc, pc ∈ users s' → pc = UDone ESQ_OK) ∧ worker s' = WSemWait ∧
    (esq_logger_last_io_error_time (lg s') = 0 → NoDup (opened (lg s')) → written (lg s') = concat (accepted s')).
Proof.
  intros Hr. destruct (run_quiet s Hr) as (q & Hl & _). split; [by apply (live_sn s q)|]. intros s' Hm Hnf.
  assert (Hr' : rtc (step good false) init s').
  { etransitivity; [exact Hr|]. clear -Hm. induction Hm as [s|s1 s2 s3 Hs _ IH]; [done|].
    eapply rtc_l; [apply step_move, Hs|done]. }
  destruct (run_quiet s' Hr') as (q' & Hl' & Hst'). destruct (live_nf s' q' Hl' Hst' Hnf) as (Hu & -> & Hw).
  split; [done|]. split; [done|]. intros Ht Hnd. pose proof (si_data _ _ (lv_inv _ _ Hl') Ht Hnd) as Hd.
  rewrite Hw in Hd. simpl in Hd. by rewrite app_nil_r in Hd.
Qed.

(** The end of the program writes everything: when the worker has ended after
    [esq_logger_detach], all accepted texts are in the files; four last rounds are enough
    for every ring, and no call is accepted after the flag is set. *)
Theorem esq_logger_detach_writes_all s :
  rtc (step good true) init s → worker s = WEnd →
  esq_logger_last_io_error_time (lg s) = 0 → NoDup (opened (lg s)) → written (lg s) = concat (accepted s).
Proof.
  intros Hr Hw Ht Hnd. destruct (run_live _ _ Hr) as [q Hl]. pose proof (lv_last _ _ Hl) as Hla. rewrite Hw in Hla.
  destruct q; [|done]. pose proof (si_data _ _ (lv_inv _ _ Hl) Ht Hnd) as Hd. rewrite Hw in Hd. simpl in Hd. by rewrite app_nil_r in Hd.
Qed.

(** ** Examples *)

(** One move of a thread, picked by number; the worker is 0. *)
Definition play (n : nat) (s : sys) : cres sys :=
  r ← match n with O => worker_step (Env 1 (Tm 124 0 0 0 0 0) true 4096) s | S i => user_step i s end;
  match r with Some s => Ret s | None => NoFuel end.
Fixpoint plays (ns : list nat) (s : sys) : cres sys :=
  match ns with [] => Ret s | n :: ns => s ← play n s; plays ns s end.
Definition call (text : list Z) (s : sys) : sys := Sys (lg s) (users s ++ [UTry text]) (worker s) (detach s) (accepted s).
Definition ask (s : sys) : sys := Sys (lg s) (users s ++ [UChange]) (worker s) (detach s) (accepted s).

Lemma plays_rtc ok b ns s s' : plays ns s = Ret s' → rtc (step ok b) s s'.
Proof.
  revert s. induction ns as [|n ns IH]; intros s E; simpl in E; [by injection E as ->|].
  apply cres_bind_Ret in E as (s1 & E1 & E). eapply rtc_l; [|by apply IH]. apply step_move. unfold play in E1.
  apply cres_bind_Ret in E1 as (r & E1 & E2). destruct r as [s2|]; [|done]. injection E2 as ->.
  destruct n as [|i]; [by eapply move_worker; [|exact E1]|by apply (move_user i)].
Qed.

Definition is_ret {A} (m : cres A) : bool := match m with Ret _ => true | _ => false end.

Lemma is_ret_ok {A} (m : cres A) d : is_ret m = true → m = Ret (ret_of m d).
Proof. by destruct m. Qed.

(** Two calls, the second after the first was written. *)
Definition demo1 : sys := ret_of (plays [1; 1; 1; 0; 0; 0; 0; 0; 0; 0; 0]%nat (call [104; 105] init)) init.
Definition demo : sys := ret_of (plays [2; 2; 2]%nat (call [33] demo1)) init.

Lemma demo1_eq : plays [1; 1; 1; 0; 0; 0; 0; 0; 0; 0; 0]%nat (call [104; 105] init) = Ret demo1.
Proof. apply is_ret_ok. vm_compute. reflexivity. Qed.
Lemma demo_eq : plays [2; 2; 2]%nat (call [33] demo1) = Ret demo.
Proof. apply is_ret_ok. vm_compute. reflexivity. Qed.

(** A call, then moves. *)
Lemma call_plays ok b text ns s s' : ok text → plays ns (call text s) = Ret s' → rtc (step ok b) s s'.
Proof. intros Ht E. eapply rtc_l; [by apply (step_call ok b text s)|]. exact (plays_rtc ok b ns _ _ E). Qed.

Lemma demo_reach (ok : list Z → Prop) b : ok [104; 105] → ok [33] → rtc (step ok b) init demo.
Proof.
  intros H1 H2. transitivity demo1; [exact (call_plays _ _ _ _ _ _ H1 demo1_eq)|exact (call_plays _ _ _ _ _ _ H2 demo_eq)].
Qed.

Lemma esq_log_no_loss_witness :
  written (lg demo) = [104; 105] ∧ accepted demo = [[104; 105]; [33]] ∧ ∃ q, ring (lg demo) q ∧ delivered demo q.
Proof.
  split; [vm_compute; reflexivity|]. split; [vm_compute; reflexivity|].
  apply (esq_log_no_loss demo). apply demo_reach; exact I.
Defined.

Lemma esq_log_delivers_witness : written (lg demo) = [104; 105] ∧ sn move demo.
Proof.
  split; [vm_compute; reflexivity|]. apply (esq_log_delivers demo). apply demo_reach; unfold good, LOGBUFSIZE; simpl; lia.
Defined.

(** A call, then the end of the program. *)
Definition stop (s : sys) : sys :=
  match detach_step s with Some s1 => match detach_step s1 with Some s2 => match detach_step s2 with Some s3 => s3 | None => s end
                                      | None => s end | None => s end.

Lemma stop_rtc ok s : rtc (step ok true) s (stop s).
Proof.
  unfold stop. destruct (detach_step s) as [s1|] eqn:E1; [|done]. destruct (detach_step s1) as [s2|] eqn:E2; [|done].
  destruct (detach_step s2) as [s3|] eqn:E3; [|done].
  eapply rtc_l; [by apply step_detach|]. eapply rtc_l; [by apply step_detach|]. eapply rtc_l; [by apply step_detach|done].
Qed.

Definition ended1 : sys := ret_of (plays [1; 1; 1]%nat (call [104; 105] init)) init.
Definition ended : sys := ret_of (plays (replicate 17 0%nat) (stop ended1)) init.

Lemma ended1_eq : plays [1; 1; 1]%nat (call [104; 105] init) = Ret ended1.
Proof. apply is_ret_ok. vm_compute. reflexivity. Qed.
Lemma ended_eq : plays (replicate 17 0%nat) (stop ended1) = Ret ended.
Proof. apply is_ret_ok. vm_compute. reflexivity. Qed.

Lemma esq_logger_detach_writes_all_witness : accepted ended = [[104; 105]] ∧ written (lg ended) = concat (accepted ended).
Proof.
  split; [vm_compute; reflexivity|]. apply (esq_logger_detach_writes_all ended).
  - transitivity ended1; [apply (call_plays good true [104; 105] [1; 1; 1]%nat init ended1); [unfold good, LOGBUFSIZE; simpl; lia|exact ended1_eq]|].
    transitivity (stop ended1); [apply stop_rtc|exact (plays_rtc _ _ _ _ _ ended_eq)].
  - vm_compute. reflexivity.
  - vm_compute. reflexivity.
  - replace (opened (lg ended)) with [log_filename (Tm 124 0 0 0 0 0) 0] by (vm_compute; reflexivity). apply NoDup_singleton.
Defined.

(** An empty text, a new file, a text. *)
Definition jam1 : sys := ret_of (plays [1]%nat (call [] init)) init.
Definition jam2 : sys := ret_of (plays [2; 2; 0; 0; 0; 0; 0; 0; 0]%nat (ask jam1)) init.
Definition jam3 : sys := ret_of (plays [3]%nat (call [98] jam2)) init.

Lemma jam1_eq : plays [1]%nat (call [] init) = Ret jam1.
Proof. apply is_ret_ok. vm_compute. reflexivity. Qed.
Lemma jam2_eq : plays [2; 2; 0; 0; 0; 0; 0; 0; 0]%nat (ask jam1) = Ret jam2.
Proof. apply is_ret_ok. vm_compute. reflexivity. Qed.
Lemma jam3_eq : plays [3]%nat (call [98] jam2) = Ret jam3.
Proof. apply is_ret_ok. vm_compute. reflexivity. Qed.

Lemma jam3_reach : rtc (step (fun _ => True) true) init jam3.
Proof.
  transitivity jam1; [exact (call_plays (fun _ => True) true [] _ _ _ I jam1_eq)|].
  transitivity jam2; [|exact (call_plays (fun _ => True) true [98] _ _ _ I jam3_eq)].
  eapply rtc_l; [apply (step_change (fun _ => True) true jam1)|]. exact (plays_rtc _ _ _ _ _ jam2_eq).
Qed.

Lemma jam3_jam : ∃ q, jam jam3 q.
Proof.
  destruct (run_ok _ _ _ jam3_reach) as [q Hi]. exists q. pose proof (si_ring _ _ Hi) as Hg.
  assert (Hw : esq_logger_buf_worker_idx (lg jam3) = 0) by (vm_compute; reflexivity).
  assert (Hu : esq_logger_buf_user_idx (lg jam3) = 1) by (vm_compute; reflexivity).
  assert (Hs0 : state_at (lg jam3) 0 = Some BUFFER_S_FULL) by (vm_compute; reflexivity).
  assert (Hs1 : state_at (lg jam3) 1 = Some BUFFER_S_USE) by (vm_compute; reflexivity).
  assert (H0 : 0 ∈ q) by (apply (rg_in _ _ Hg); rewrite Hs0; split; [lia|done]).
  assert (H1 : 1 ∈ q) by (apply (rg_in _ _ Hg); rewrite Hs1; split; [lia|done]).
  assert (Hlen : (2 <= length q)%nat).
  { apply (submseteq_length [0; 1]), NoDup_submseteq.
    - apply NoDup_cons. split; [intros Hx%list_elem_of_singleton; lia|apply NoDup_singleton].
    - intros x Hx. apply elem_of_cons in Hx as [->|Hx%list_elem_of_singleton]; [exact H0|]. rewrite Hx. exact H1. }
  split; [exact Hi| |exact Hlen| | | |]; rewrite ?Hw; [|exact Hs0|vm_compute; reflexivity|vm_compute; exact I|vm_compute; reflexivity].
  pose proof (rg_head _ _ Hg) as Hh. pose proof (rg_nodup _ _ Hg) as Hnd. pose proof (rg_last _ _ Hg) as Hl.
  rewrite Hw in Hh. rewrite Hu in Hl. clear -H0 Hlen Hh Hnd Hl. destruct q as [|x q]; [simpl in Hlen; lia|].
  destruct Hl as [Hl|Hl]; [done|]. destruct Hh as [<-|Hh]; [done|]. exfalso.
  change (nxt 0) with 1 in Hh. subst x. apply NoDup_cons in Hnd as [Hnd _]. destruct q as [|y q]; [simpl in Hlen; lia|].
  change (last (y :: q) = Some 1) in Hl. apply Hnd. by apply last_Some_elem_of in Hl.
Qed.

(** An empty text ends the log: after a call with an empty text and a round of the worker
    before the next call, the worker returns to the same empty buffer for ever; nothing is
    written any more, whatever is logged, also not at the end of the program. *)
Theorem esq_log_empty_text_jams :
  ∃ s, rtc (step (fun _ => True) true) init s ∧ accepted s = [[98]] ∧
    ∀ s', rtc (step (fun _ => True) true) s s' → written (lg s') = [].
Proof.
  exists jam3. split; [apply jam3_reach|]. split; [vm_compute; reflexivity|]. intros s' Hr. destruct jam3_jam as [q Hj].
  rewrite (jam_run _ _ _ _ _ Hj Hr). vm_compute. reflexivity.
Qed.
