(* ===== verification/BloomFilter.v ===== *)
(** * The path bloom filter

    [libs/path-bloom-filter] keeps three bitmaps of 512 bytes.  A path is hashed three
    ways; adding it sets one bit in every bitmap, and a path is reported when its three
    bits are set.  [cells] is what a path stands for in the bitmaps, and
    [represents f ps] says that the bits set in [f] are those of the paths [ps]; a report is
    then exactly that for every bitmap some path of [ps] has the same cell
    ([path_bloom_filter_correct]), so a path that was added is never missed. *)
From S2P Require Import Prelude CString.

(** ** The code *)

Definition BITS_ARRAY_SIZE : Z := 512.
Definition MGC0 : Z := 0x189a189a.
Definition MGC1 : Z := 0x189b189b.
Definition ESQ_PATH_BLOOM_MAX : Z := 1024.
Definition ESQ_ERROR_PARAM : Z := -1.

Record path_bloom_filter_t := PathBloomFilter {
  magic0 : Z;
  bitmap0 : list Z;
  bitmap1 : list Z;
  bitmap2 : list Z;
  magic1 : Z
}.

(** [mem_ok] is whether [malloc] succeeds. *)
Definition path_bloom_filter_new (mem_ok : bool) : option path_bloom_filter_t :=
  if negb mem_ok then None
  else
    let b := replicate (Z.to_nat BITS_ARRAY_SIZE) 0 in
    Some (PathBloomFilter MGC0 b b b MGC1).

(** [unsigned int c = path[i]], a [char] that is signed. *)
Definition path_char (path : list Z) (i : Z) : cres Z := c ← rd path i; Ret (u32 (schar c)).

Fixpoint hash0_loop (len : nat) (path : list Z) (i hash : Z) : cres Z :=
  match len with
  | O => Ret hash
  | S len =>
      c ← path_char path i;
      let k := Z.land i 3 in
      hash0_loop len path (i + 1)
        (u32 (hash + (if k =? 0 then c
                      else if k =? 1 then u32 (Z.shiftl c 3)
                      else if k =? 2 then u32 (Z.shiftl c 5)
                      else u32 (Z.shiftl c 8))))
  end.

Definition path_bloom_hash0 (path : list Z) (len : Z) : cres Z :=
  h ← hash0_loop (Z.to_nat len) path 0 0; Ret (Z.land h 0xfff).

Fixpoint hash1_loop (len : nat) (path : list Z) (i hash : Z) : cres Z :=
  match len with
  | O => Ret hash
  | S len => c ← path_char path i; hash1_loop len path (i + 1) (u32 (u32 (hash * 131) + c))
  end.

Definition path_bloom_hash1 (path : list Z) (len : Z) : cres Z :=
  h ← hash1_loop (Z.to_nat len) path 0 0; Ret (Z.land h 0xfff).

Definition u32_not (z : Z) : Z := u32 (Z.lnot z).

Fixpoint hash2_loop (len : nat) (path : list Z) (i hash k last : Z) : cres Z :=
  match len with
  | O => Ret hash
  | S len =>
      c ← path_char path i;
      let k := Z.land (u32 (k + i)) 7 in
      let shl n := u32 (Z.shiftl c n) in
      let '(x, last) :=
        if k =? 0 then (c, last)
        else if k =? 1 then (u32_not (shl 2), c)
        else if k =? 2 then (Z.lxor (shl 7) last, last)
        else if k =? 3 then (u32_not (shl 5), c)
        else if k =? 4 then (shl 6, last)
        else if k =? 5 then (u32_not (shl 3), c)
        else if k =? 6 then (shl 1, last)
        else (Z.lxor (shl 4) last, last) in
      hash2_loop len path (i + 1) (Z.lxor hash x) k last
  end.

Definition path_bloom_hash2 (path : list Z) (len : Z) : cres Z :=
  h ← hash2_loop (Z.to_nat len) path 0 0 0 68; Ret (Z.land h 0xfff).

Definition magic_ok (p : path_bloom_filter_t) : bool := (MGC0 =? magic0 p) && (MGC1 =? magic1 p).

(** Whether [path_bloom_filter_free] gives the memory back; else it prints an error. *)
Definition path_bloom_filter_free (p : option path_bloom_filter_t) : bool :=
  match p with Some p => magic_ok p | None => false end.

(** [bitmap[hash >> 3] |= (1 << (hash & 0x3))]. *)
Definition set_bit (b : list Z) (hash : Z) : cres (list Z) :=
  x ← rd b (Z.shiftr hash 3);
  wr b (Z.shiftr hash 3) (u8 (Z.lor x (Z.shiftl 1 (Z.land hash 3)))).

Definition add_path (p : path_bloom_filter_t) (path : list Z) (path_length : Z)
    : cres (Z * path_bloom_filter_t) :=
  if negb (magic_ok p) then Ret (ESQ_ERROR_PARAM, p)
  else
    hash0 ← path_bloom_hash0 path path_length;
    hash1 ← path_bloom_hash1 path path_length;
    hash2 ← path_bloom_hash2 path path_length;
    b0 ← set_bit (bitmap0 p) hash0;
    b1 ← set_bit (bitmap1 p) hash1;
    b2 ← set_bit (bitmap2 p) hash2;
    Ret (0, PathBloomFilter (magic0 p) b0 b1 b2 (magic1 p)).

(** The public functions take pointers that may be null. *)
Definition path_bloom_filter_add_path2 (p : option path_bloom_filter_t) (path : option (list Z))
    (path_length : Z) : cres (Z * option path_bloom_filter_t) :=
  match p, path with
  | Some f, Some s =>
      if 0 <? path_length then '(r, f) ← add_path f s path_length; Ret (r, Some f)
      else Ret (ESQ_ERROR_PARAM, p)
  | _, _ => Ret (ESQ_ERROR_PARAM, p)
  end.

Definition path_bloom_filter_add_path (p : option path_bloom_filter_t) (path : option (list Z))
    : cres (Z * option path_bloom_filter_t) :=
  match p, path with
  | Some f, Some s =>
      path_length ← c_strnlen s (Z.to_nat ESQ_PATH_BLOOM_MAX);
      if (path_length <=? 0) || (ESQ_PATH_BLOOM_MAX <=? path_length) then Ret (ESQ_ERROR_PARAM, p)
      else '(r, f) ← add_path f s path_length; Ret (r, Some f)
  | _, _ => Ret (ESQ_ERROR_PARAM, p)
  end.

Definition bit_set (b : list Z) (hash : Z) : cres bool :=
  x ← rd b (Z.shiftr hash 3); Ret (negb (Z.land x (Z.shiftl 1 (Z.land hash 3)) =? 0)).

Definition check_exist (p : path_bloom_filter_t) (path : list Z) (path_length : Z) : cres Z :=
  if negb (magic_ok p) then Ret 0
  else
    hash0 ← path_bloom_hash0 path path_length;
    hash1 ← path_bloom_hash1 path path_length;
    hash2 ← path_bloom_hash2 path path_length;
    s0 ← bit_set (bitmap0 p) hash0;
    if negb s0 then Ret 0 else
    s1 ← bit_set (bitmap1 p) hash1;
    if negb s1 then Ret 0 else
    s2 ← bit_set (bitmap2 p) hash2;
    if negb s2 then Ret 0 else Ret 1.

Definition path_bloom_filter_check_exist2 (p : option path_bloom_filter_t) (path : option (list Z))
    (path_length : Z) : cres Z :=
  match p, path with
  | Some f, Some s => if 0 <? path_length then check_exist f s path_length else Ret 0
  | _, _ => Ret 0
  end.

Definition path_bloom_filter_check_exist (p : option path_bloom_filter_t) (path : option (list Z))
    : cres Z :=
  match p, path with
  | Some f, Some s =>
      path_length ← c_strnlen s (Z.to_nat ESQ_PATH_BLOOM_MAX);
      if (path_length <=? 0) || (ESQ_PATH_BLOOM_MAX <=? path_length) then Ret 0
      else check_exist f s path_length
  | _, _ => Ret 0
  end.

(** ** What a path stands for *)

(** Any loop over a path reads its characters only. *)
Lemma path_char_app s tl i :
  0 <= i < Z.of_nat (length s) → path_char (s ++ tl) i = path_char s i ∧ ∃ c, path_char s i = Ret c.
Proof.
  intros Hi. unfold path_char, rd. rewrite !decide_True by lia. rewrite lookup_app_l by lia.
  destruct (lookup_lt_is_Some_2 s (Z.to_nat i)) as [c ->]; [lia|]. split; [done|]. by eexists.
Qed.

Ltac read_path s tl i :=
  let E := fresh in let c := fresh "c" in let Ec := fresh in
  destruct (path_char_app s tl i) as [E [c Ec]]; [lia|]; rewrite E, Ec; clear E Ec; cbn [mbind cres_bind].

Lemma hash0_loop_app s tl n i h :
  0 <= i → i + Z.of_nat n <= Z.of_nat (length s) →
  hash0_loop n (s ++ tl) i h = hash0_loop n s i h ∧ ∃ h', hash0_loop n s i h = Ret h'.
Proof.
  revert i h; induction n as [|n IH]; intros i h Hi Hn; simpl; [by eauto|].
  read_path s tl i. apply IH; lia.
Qed.

Lemma hash1_loop_app s tl n i h :
  0 <= i → i + Z.of_nat n <= Z.of_nat (length s) →
  hash1_loop n (s ++ tl) i h = hash1_loop n s i h ∧ ∃ h', hash1_loop n s i h = Ret h'.
Proof.
  revert i h; induction n as [|n IH]; intros i h Hi Hn; simpl; [by eauto|].
  read_path s tl i. apply IH; lia.
Qed.

Lemma hash2_loop_app s tl n i h k la :
  0 <= i → i + Z.of_nat n <= Z.of_nat (length s) →
  hash2_loop n (s ++ tl) i h k la = hash2_loop n s i h k la ∧ ∃ h', hash2_loop n s i h k la = Ret h'.
Proof.
  revert i h k la; induction n as [|n IH]; intros i h k la Hi Hn; [simpl; by eauto|].
  cbn [hash2_loop]. read_path s tl i. cbv zeta. case_match. apply IH; lia.
Qed.

Definition hash0 (s : list Z) : Z := ret_of (path_bloom_hash0 s (Z.of_nat (length s))) 0.
Definition hash1 (s : list Z) : Z := ret_of (path_bloom_hash1 s (Z.of_nat (length s))) 0.
Definition hash2 (s : list Z) : Z := ret_of (path_bloom_hash2 s (Z.of_nat (length s))) 0.

(** The byte and the bit a hash selects. *)
Definition cell (h : Z) : Z * Z := (Z.shiftr h 3, Z.land h 3).

Lemma low_bits h n : 0 <= n → 0 <= Z.land h (2 ^ n - 1) < 2 ^ n.
Proof.
  intros Hn. replace (2 ^ n - 1) with (Z.ones n) by (rewrite Z.ones_equiv; lia).
  rewrite Z.land_ones by done. apply Z.mod_pos_bound. lia.
Qed.

Lemma hash0_app s tl :
  path_bloom_hash0 (s ++ tl) (Z.of_nat (length s)) = Ret (hash0 s) ∧ 0 <= hash0 s < 4096.
Proof.
  unfold hash0, path_bloom_hash0. rewrite Nat2Z.id.
  destruct (hash0_loop_app s tl (length s) 0 0) as [-> [h ->]]; [lia|lia|]. simpl.
  split; [done|]. apply (low_bits h 12). lia.
Qed.

Lemma hash1_app s tl :
  path_bloom_hash1 (s ++ tl) (Z.of_nat (length s)) = Ret (hash1 s) ∧ 0 <= hash1 s < 4096.
Proof.
  unfold hash1, path_bloom_hash1. rewrite Nat2Z.id.
  destruct (hash1_loop_app s tl (length s) 0 0) as [-> [h ->]]; [lia|lia|]. simpl.
  split; [done|]. apply (low_bits h 12). lia.
Qed.

Lemma hash2_app s tl :
  path_bloom_hash2 (s ++ tl) (Z.of_nat (length s)) = Ret (hash2 s) ∧ 0 <= hash2 s < 4096.
Proof.
  unfold hash2, path_bloom_hash2. rewrite Nat2Z.id.
  destruct (hash2_loop_app s tl (length s) 0 0 0 68) as [-> [h ->]]; [lia|lia|]. simpl.
  split; [done|]. apply (low_bits h 12). lia.
Qed.

(** ** Bitmaps *)

Definition on (b : list Z) (h : Z) : Prop :=
  ∃ x, b !! Z.to_nat (Z.shiftr h 3) = Some x ∧ Z.testbit x (Z.land h 3) = true.

Lemma cell_range h : 0 <= h < 4096 → 0 <= Z.shiftr h 3 < 512 ∧ 0 <= Z.land h 3 < 4.
Proof.
  intros Hh. split; [|apply (low_bits h 2); lia]. rewrite Z.shiftr_div_pow2 by lia.
  change (2 ^ 3) with 8. split; [apply Z.div_pos; lia|apply Z.div_lt_upper_bound; lia].
Qed.

Lemma land_bit x n : 0 <= n → negb (Z.land x (Z.shiftl 1 n) =? 0) = Z.testbit x n.
Proof.
  intros Hn. rewrite Z.shiftl_1_l. destruct (Z.testbit x n) eqn:E.
  - destruct (Z.eqb_spec (Z.land x (2 ^ n)) 0) as [H0|]; [|done].
    apply (f_equal (fun z => Z.testbit z n)) in H0. rewrite Z.land_spec, Z.pow2_bits_true, E, Z.bits_0 in H0; done.
  - replace (Z.land x (2 ^ n)) with 0; [done|]. symmetry. apply Z.bits_inj'. intros m Hm.
    rewrite Z.land_spec, Z.bits_0. destruct (decide (n = m)) as [<-|Hne]; [by rewrite E|].
    rewrite Z.pow2_bits_false by done. apply andb_false_r.
Qed.

Lemma bit_set_ok b h :
  length b = 512%nat → 0 <= h < 4096 → ∃ r, bit_set b h = Ret r ∧ (r = true ↔ on b h).
Proof.
  intros Hb Hh. destruct (cell_range h Hh) as [H1 H2]. unfold bit_set, on.
  destruct (lookup_lt_is_Some_2 b (Z.to_nat (Z.shiftr h 3))) as [x Hx]; [lia|].
  replace (rd b (Z.shiftr h 3)) with (Ret x) by (symmetry; apply rd_Ret; split; [lia|done]).
  cbn [mbind cres_bind]. rewrite land_bit by lia. eexists. split; [done|]. rewrite Hx. naive_solver.
Qed.

Lemma set_bit_ok b h :
  length b = 512%nat → 0 <= h < 4096 →
  ∃ b', set_bit b h = Ret b' ∧ length b' = 512%nat ∧
    ∀ h', 0 <= h' < 4096 → on b' h' ↔ on b h' ∨ cell h = cell h'.
Proof.
  intros Hb Hh. destruct (cell_range h Hh) as [H1 H2]. unfold set_bit.
  destruct (lookup_lt_is_Some_2 b (Z.to_nat (Z.shiftr h 3))) as [x Hx]; [lia|].
  replace (rd b (Z.shiftr h 3)) with (Ret x) by (symmetry; apply rd_Ret; split; [lia|done]).
  cbn [mbind cres_bind]. rewrite wr_Ret by lia. eexists. split; [done|]. split; [by rewrite length_insert|].
  intros h' Hh'. destruct (cell_range h' Hh') as [H3 H4]. unfold on, cell.
  destruct (decide (Z.shiftr h' 3 = Z.shiftr h 3)) as [E|E].
  - rewrite E, list_lookup_insert_eq by lia. rewrite Hx.
    assert (Hbit : Z.testbit (u8 (Z.lor x (Z.shiftl 1 (Z.land h 3)))) (Z.land h' 3) =
      Z.testbit x (Z.land h' 3) || (Z.land h 3 =? Z.land h' 3)).
    { unfold u8. rewrite Z.mod_pow2_bits_low by lia. rewrite Z.lor_spec, Z.shiftl_1_l, Z.pow2_bits_eqb by lia. done. }
    split.
    + intros (y & [= <-] & Hy). rewrite Hbit in Hy. apply orb_true_iff in Hy as [Hy|Hy%Z.eqb_eq]; [by eauto|].
      right. by rewrite Hy.
    + intros [(y & [= <-] & Hy)|[= Hc]]; eexists; (split; [done|]); rewrite Hbit.
      * by rewrite Hy.
      * by rewrite Hc, Z.eqb_refl, orb_true_r.
  - rewrite list_lookup_insert_ne by lia. split; [by left|]. intros [?|[= Hc _]]; [done|]. congruence.
Qed.

(** ** The filter *)

(** The bits that are set are those of the paths [ps]. *)
Definition represents_map (b : list Z) (hash : list Z → Z) (ps : list (list Z)) : Prop :=
  length b = 512%nat ∧
  ∀ h, 0 <= h < 4096 → on b h ↔ ∃ q, q ∈ ps ∧ cell (hash q) = cell h.

Record represents (f : path_bloom_filter_t) (ps : list (list Z)) : Prop := {
  rp_magic : magic_ok f = true;
  rp_map0 : represents_map (bitmap0 f) hash0 ps;
  rp_map1 : represents_map (bitmap1 f) hash1 ps;
  rp_map2 : represents_map (bitmap2 f) hash2 ps
}.

(** No bitmap tells [s] from all the paths of [ps]. *)
Definition reported (ps : list (list Z)) (s : list Z) : Prop :=
  (∃ q, q ∈ ps ∧ cell (hash0 q) = cell (hash0 s)) ∧
  (∃ q, q ∈ ps ∧ cell (hash1 q) = cell (hash1 s)) ∧
  (∃ q, q ∈ ps ∧ cell (hash2 q) = cell (hash2 s)).

Lemma represents_add b hash ps s :
  represents_map b hash ps → 0 <= hash s < 4096 →
  ∃ b', set_bit b (hash s) = Ret b' ∧ represents_map b' hash (s :: ps).
Proof.
  intros [Hb Hon] Hs. destruct (set_bit_ok b (hash s) Hb Hs) as (b' & E & Hb' & Hon').
  exists b'. split; [done|]. split; [done|]. intros h Hh. rewrite Hon', Hon by done.
  split.
  - intros [(q & Hq & E')|E']; [exists q|exists s]; (split; [set_solver|done]).
  - intros (q & [->|Hq]%elem_of_cons & E'); [by right|left; by exists q].
Qed.

Lemma add_path_ok f ps s tl :
  represents f ps →
  ∃ f', add_path f (s ++ tl) (Z.of_nat (length s)) = Ret (0, f') ∧ represents f' (s :: ps).
Proof.
  intros [Hm R0 R1 R2]. unfold add_path. rewrite Hm. cbn [negb].
  destruct (hash0_app s tl) as [-> H0], (hash1_app s tl) as [-> H1], (hash2_app s tl) as [-> H2].
  cbn [mbind cres_bind].
  destruct (represents_add _ _ _ _ R0 H0) as (b0 & -> & R0').
  destruct (represents_add _ _ _ _ R1 H1) as (b1 & -> & R1').
  destruct (represents_add _ _ _ _ R2 H2) as (b2 & -> & R2'). cbn [mbind cres_bind].
  eexists. split; [done|]. by split.
Qed.

Lemma check_exist_ok f ps s tl :
  represents f ps →
  ∃ r, check_exist f (s ++ tl) (Z.of_nat (length s)) = Ret r ∧
    (r = 0 ∨ r = 1) ∧ (r = 1 ↔ reported ps s).
Proof.
  intros [Hm [L0 O0] [L1 O1] [L2 O2]]. unfold check_exist, reported. rewrite Hm. cbn [negb].
  destruct (hash0_app s tl) as [-> H0], (hash1_app s tl) as [-> H1], (hash2_app s tl) as [-> H2].
  cbn [mbind cres_bind]. specialize (O0 _ H0). specialize (O1 _ H1). specialize (O2 _ H2).
  destruct (bit_set_ok _ _ L0 H0) as ([] & -> & E0), (bit_set_ok _ _ L1 H1) as ([] & -> & E1),
    (bit_set_ok _ _ L2 H2) as ([] & -> & E2); cbn [mbind cres_bind negb];
    eexists; (split; [done|]); (split; [by eauto|]); split; intros H; try discriminate H; try tauto;
    exfalso; destruct H as (Q0 & Q1 & Q2); apply O0, E0 in Q0; apply O1, E1 in Q1; apply O2, E2 in Q2;
    congruence.
Qed.

Lemma represents_new f : path_bloom_filter_new true = Some f → represents f [].
Proof.
  intros [= <-]. assert (R : ∀ hash, represents_map (replicate 512 0) hash []).
  { intros hash. split; [done|]. intros h Hh. split; [|set_solver].
    intros (x & Hx & Hb). apply (lookup_replicate_1 512 0) in Hx as [-> _]. by rewrite Z.bits_0 in Hb. }
  by split; [|apply R..].
Qed.

(** Adding one path after the other to a new filter. *)
Fixpoint add_all (ps : list (list Z)) : cres (option path_bloom_filter_t) :=
  match ps with
  | [] => Ret (path_bloom_filter_new true)
  | s :: ps =>
      f ← add_all ps;
      '(r, f) ← path_bloom_filter_add_path2 f (Some s) (Z.of_nat (length s));
      if r =? 0 then Ret f else Fault
  end.

Lemma add_all_ok ps :
  Forall (fun s => s ≠ []) ps → ∃ f, add_all ps = Ret (Some f) ∧ represents f ps.
Proof.
  induction 1 as [|s ps Hs Hps (f & E & HR)].
  { eexists. split; [done|]. by apply represents_new. }
  cbn [add_all]. rewrite E. cbn [mbind cres_bind]. unfold path_bloom_filter_add_path2.
  destruct (Z.ltb_spec 0 (Z.of_nat (length s))); [|destruct s; [done|simpl in *; lia]].
  destruct (add_path_ok f ps s [] HR) as (f' & E' & HR'). rewrite app_nil_r in E'. rewrite E'.
  cbn [mbind cres_bind]. eauto.
Qed.

(** C30: a filter filled with paths reports a path exactly when each of the three hashes falls in the
    cell of some added path, whatever follows the path in memory; so every path that was
    added is reported.  No access leaves a bitmap or a path. *)
Theorem path_bloom_filter_correct ps s tl :
  Forall (fun q => q ≠ []) ps → s ≠ [] →
  ∃ f r, add_all ps = Ret (Some f) ∧
    path_bloom_filter_check_exist2 (Some f) (Some (s ++ tl)) (Z.of_nat (length s)) = Ret r ∧
    (r = 0 ∨ r = 1) ∧ (r = 1 ↔ reported ps s) ∧ (s ∈ ps → r = 1).
Proof.
  intros Hps Hs. destruct (add_all_ok ps Hps) as (f & E & HR).
  destruct (check_exist_ok f ps s tl HR) as (r & Er & H01 & Hr). exists f, r. split; [done|].
  unfold path_bloom_filter_check_exist2.
  destruct (Z.ltb_spec 0 (Z.of_nat (length s))); [|destruct s; [done|simpl in *; lia]].
  split; [done|]. split; [done|]. split; [done|]. intros Hin. apply Hr. split_and!; by exists s.
Qed.

Lemma path_bloom_filter_correct_witness :
  let a := [47; 97; 255] in let b := [98] in let c := [99] in
  (∃ f r, add_all [a; b] = Ret (Some f) ∧
    path_bloom_filter_check_exist2 (Some f) (Some (a ++ [0])) 3 = Ret r ∧
    (r = 0 ∨ r = 1) ∧ (r = 1 ↔ reported [a; b] a) ∧ (a ∈ [a; b] → r = 1)) ∧
  (f ← add_all [a; b]; path_bloom_filter_check_exist2 f (Some c) 1) = Ret 0.
Proof.
  intros a b c. split; [|vm_compute; reflexivity].
  apply (path_bloom_filter_correct [a; b] a [0]); [repeat constructor; discriminate|discriminate].
Defined.

(** On strings shorter than the limit the functions without a length are the same. *)
Lemma add_path_string f s tl :
  cstring s → (0 < length s < 1024)%nat →
  path_bloom_filter_add_path (Some f) (Some (s ++ 0 :: tl)) =
  path_bloom_filter_add_path2 (Some f) (Some (s ++ 0 :: tl)) (Z.of_nat (length s)).
Proof.
  intros Hs Hl. unfold path_bloom_filter_add_path, path_bloom_filter_add_path2, ESQ_PATH_BLOOM_MAX.
  rewrite c_strnlen_ok by done. cbn [mbind cres_bind]. rewrite Nat.min_l by lia.
  destruct (Z.leb_spec (Z.of_nat (length s)) 0), (Z.leb_spec 1024 (Z.of_nat (length s))),
    (Z.ltb_spec 0 (Z.of_nat (length s))); try lia. done.
Qed.

Lemma check_exist_string f s tl :
  cstring s → (0 < length s < 1024)%nat →
  path_bloom_filter_check_exist (Some f) (Some (s ++ 0 :: tl)) =
  path_bloom_filter_check_exist2 (Some f) (Some (s ++ 0 :: tl)) (Z.of_nat (length s)).
Proof.
  intros Hs Hl. unfold path_bloom_filter_check_exist, path_bloom_filter_check_exist2, ESQ_PATH_BLOOM_MAX.
  rewrite c_strnlen_ok by done. cbn [mbind cres_bind]. rewrite Nat.min_l by lia.
  destruct (Z.leb_spec (Z.of_nat (length s)) 0), (Z.leb_spec 1024 (Z.of_nat (length s))),
    (Z.ltb_spec 0 (Z.of_nat (length s))); try lia. done.
Qed.
