(* ===== verification/FileLru.v ===== *)
(** * The file cache

    [utils/file-lru.c] keeps files in memory.  Cached files are in a red-black tree by name
    and in a list whose head was put in last; a file that has to go while someone uses it
    ("borrowed") is marked, moved to a second list, and freed when it is given back.
    Borrowing asks the bloom filter of all path names first, then the tree, and
    reads the file from disk without holding the lock; the tree is asked again before the
    file is put in.

    The objects are a store of [file_lru_t] with their [RB_ENTRY] fields beside it
    ([RbTree]); what the file system answers is an argument ([disk]).  A function of the
    source that gives the lock back in the middle is written as the parts between: they are
    the steps of [Steps] below, where any number of callers run.

    The names are compared through differences of 32-bit hashes, which do not order them
    when two hashes are 2^31 or more apart; [name_cmp_cycle] shows a cycle and
    [file_lru_misses_cached_file] a cached file that is not found.  The invariant is
    therefore about names whose hashes are closer ([near]). *)
From stdpp Require Import sorting.
From S2P Require Import Prelude CString LinkedList RbTree BloomFilter.

(** ** Data *)

Definition FILE_LRU_MGC0 : Z := i32 0xac12ac34.
Definition FILE_LRU_MGC1 : Z := i32 0xab45cd45.
Definition LRU_PATH_MAX : Z := 256.
Definition FILE_LRU_FLAGS_PURGED : Z := 1.
Definition ESQ_OK : Z := 0.

(** [buf] holds the name, a zero and the data; [file_name] points to its beginning and
    [file_data] behind the zero. *)
Record file_lru_t := FileLruT {
  magic0 : Z;
  borrow_cnt : Z;
  flags : Z;
  file_name_hash : Z;
  file_name_length : Z;
  file_size : Z;
  prev : ptr;
  next : ptr;
  magic1 : Z;
  buf : list Z
}.

Definition file_data (p : file_lru_t) : list Z := drop (S (Z.to_nat (file_name_length p))) (buf p).

Definition set_borrow (z : Z) (p : file_lru_t) : file_lru_t :=
  FileLruT (magic0 p) z (flags p) (file_name_hash p) (file_name_length p) (file_size p)
    (prev p) (next p) (magic1 p) (buf p).
Definition set_flags (z : Z) (p : file_lru_t) : file_lru_t :=
  FileLruT (magic0 p) (borrow_cnt p) z (file_name_hash p) (file_name_length p) (file_size p)
    (prev p) (next p) (magic1 p) (buf p).

#[export] Instance file_lru_node : LLNode file_lru_t := {
  ll_prev := prev;
  ll_next := next;
  set_prev q p :=
    FileLruT (magic0 p) (borrow_cnt p) (flags p) (file_name_hash p) (file_name_length p)
      (file_size p) q (next p) (magic1 p) (buf p);
  set_next q p :=
    FileLruT (magic0 p) (borrow_cnt p) (flags p) (file_name_hash p) (file_name_length p)
      (file_size p) (prev p) q (magic1 p) (buf p)
}.

#[export] Instance file_lru_node_laws : LLNodeLaws file_lru_t.
Proof. split; by intros; try destruct n. Qed.

(** The static variables of the file, and the memory. *)
Record lru := Lru {
  objs : gmap loc file_lru_t;
  ents : cells;
  file_lru_rb : ptr;
  file_lru_list : dlist;
  file_lru_purged : dlist;
  lru_size_max : Z;
  lru_size_total : Z;
  lru_root_path : list Z;
  lru_root_path_length : Z;
  lru_bloom_filter : option path_bloom_filter_t
}.

Definition with_list (o : gmap loc file_lru_t) (q : dlist) (s : lru) : lru :=
  Lru o (ents s) (file_lru_rb s) q (file_lru_purged s) (lru_size_max s) (lru_size_total s)
    (lru_root_path s) (lru_root_path_length s) (lru_bloom_filter s).
Definition with_purged (o : gmap loc file_lru_t) (q : dlist) (s : lru) : lru :=
  Lru o (ents s) (file_lru_rb s) (file_lru_list s) q (lru_size_max s) (lru_size_total s)
    (lru_root_path s) (lru_root_path_length s) (lru_bloom_filter s).
Definition with_tree (T : rb) (s : lru) : lru :=
  Lru (objs s) (rb_cells T) (rbh_root T) (file_lru_list s) (file_lru_purged s) (lru_size_max s)
    (lru_size_total s) (lru_root_path s) (lru_root_path_length s) (lru_bloom_filter s).
Definition with_objs (o : gmap loc file_lru_t) (s : lru) : lru := with_list o (file_lru_list s) s.
Definition with_total (z : Z) (s : lru) : lru :=
  Lru (objs s) (ents s) (file_lru_rb s) (file_lru_list s) (file_lru_purged s) (lru_size_max s) z
    (lru_root_path s) (lru_root_path_length s) (lru_bloom_filter s).
Definition with_bloom (b : option path_bloom_filter_t) (s : lru) : lru :=
  Lru (objs s) (ents s) (file_lru_rb s) (file_lru_list s) (file_lru_purged s) (lru_size_max s)
    (lru_size_total s) (lru_root_path s) (lru_root_path_length s) b.

Definition tree (s : lru) : rb := Rb (file_lru_rb s) (ents s).

Definition lfree (x : loc) (s : lru) : lru :=
  Lru (delete x (objs s)) (delete x (ents s)) (file_lru_rb s) (file_lru_list s) (file_lru_purged s)
    (lru_size_max s) (lru_size_total s) (lru_root_path s) (lru_root_path_length s) (lru_bloom_filter s).

Definition lget {A} (s : lru) (x : loc) (f : file_lru_t → A) : cres A := fld (objs s) (Some x) f.
Definition lput (s : lru) (x : loc) (f : file_lru_t → file_lru_t) : cres lru :=
  o ← upd (objs s) (Some x) f; Ret (with_objs o s).

(** The list operations on the two lists. *)
Definition leave_list (s : lru) (x : loc) : cres lru :=
  '(o, q) ← DOUBLE_LL_LEFT (objs s) (file_lru_list s) x; Ret (with_list o q s).
Definition join_list (s : lru) (x : loc) : cres lru :=
  '(o, q) ← DOUBLE_LL_JOIN_HEAD (objs s) (file_lru_list s) x; Ret (with_list o q s).
Definition leave_purged (s : lru) (x : loc) : cres lru :=
  '(o, q) ← DOUBLE_LL_LEFT (objs s) (file_lru_purged s) x; Ret (with_purged o q s).
Definition join_purged (s : lru) (x : loc) : cres lru :=
  '(o, q) ← DOUBLE_LL_JOIN_HEAD (objs s) (file_lru_purged s) x; Ret (with_purged o q s).

(** ** Reading a borrowed file *)

(** [wants] is whether both result pointers are given. *)
Definition file_lru_get_data (s : lru) (file_lru : ptr) (wants : bool)
    : cres (Z * option (list Z * Z)) :=
  match file_lru with
  | None => Ret (ESQ_ERROR_PARAM, None)
  | Some x =>
      if negb wants then Ret (ESQ_ERROR_PARAM, None)
      else
        p ← lget s x id;
        if (FILE_LRU_MGC0 =? magic0 p) && (FILE_LRU_MGC0 =? magic0 p)
        then Ret (ESQ_OK, Some (file_data p, file_size p))
        else Ret (ESQ_ERROR_PARAM, None)
  end.

(** ** Names *)

Record hash_t := Hash { h0 : Z; h1 : Z; h2 : Z; h3 : Z }.

(** One character, at index [i]. *)
Definition hash_char (i c : Z) (h : hash_t) : hash_t :=
  Hash (if negb (Z.land i 1 =? 0) then u8 (h0 h + c) else h0 h)
       (if negb (Z.land i 3 =? 0) then u8 (h1 h + c) else h1 h)
       (if negb (Z.land i 2 =? 0) then u8 (h2 h + c) else h2 h)
       (if negb (Z.land i 6 =? 0) then u8 (h3 h + c) else h3 h).

Fixpoint hash_loop (len : nat) (s : list Z) (i : Z) (h : hash_t) : cres hash_t :=
  match len with
  | O => Ret h
  | S len => c ← rd s i; hash_loop len s (i + 1) (hash_char i c h)
  end.

Definition file_lru_name_hash (s : list Z) (len : Z) : cres Z :=
  h ← hash_loop (Z.to_nat len) s 0 (Hash 0 1 2 3);
  Ret (i32 (h0 h + Z.shiftl (h1 h) 8 + Z.shiftl (h2 h) 16 + i32 (Z.shiftl (h3 h) 24))).

(** The name given by its hash, length and string, against that of [b]. *)
Definition file_lru_name_cmp (ahash alen : Z) (aname : list Z) (b : file_lru_t) : cres Z :=
  let d := i32 (ahash - file_name_hash b) in
  if negb (d =? 0) then Ret d
  else
    let d := i32 (alen - file_name_length b) in
    if negb (d =? 0) then Ret d else strcmp aname (buf b).

Definition lru_cmp (s : lru) (ahash alen : Z) (aname : list Z) (t : loc) : cres Z :=
  b ← lget s t id; file_lru_name_cmp ahash alen aname b.

(** ** Reading from disk *)

(** What the file system answers: [stat] (mode and size), [open] and [read]. *)
Record disk := Disk { d_stat : option (Z * Z); d_open : bool; d_read : list Z }.

Definition S_IFMT : Z := 0xf000.
Definition S_IFREG : Z := 0x8000.
Definition S_IFDIR : Z := 0x4000.

Definition file_lru_load_from_disk (mem_ok : bool) (d : disk) (s : lru) (file_name : list Z)
    (file_name_len : Z) : cres (ptr * lru) :=
  rl ← c_strlen (lru_root_path s);
  nl ← c_strlen file_name;
  if LRU_PATH_MAX <=? rl + 1 + nl then Ret (None, s)
  else
    match d_stat d with
    | None => Ret (None, s)
    | Some (mode, st_size) =>
        if negb (S_IFREG =? Z.land mode S_IFMT) then Ret (None, s)
        else
          let sz := i32 st_size in
          if sz <=? 0 then Ret (None, s)
          else if (0 <? lru_size_max s) && (lru_size_max s <? sz) then Ret (None, s)
          else if negb mem_ok then Ret (None, s)
          else
            let x := fresh (dom (objs s)) in
            hash ← file_lru_name_hash file_name file_name_len;
            let alloc (data : list Z) :=
              Lru (<[x := FileLruT FILE_LRU_MGC0 0 0 hash file_name_len sz None None FILE_LRU_MGC1
                       (take (Z.to_nat file_name_len) file_name ++ 0 :: data)]> (objs s))
                  (<[x := RbEntry None None None RB_BLACK]> (ents s))
                  (file_lru_rb s) (file_lru_list s) (file_lru_purged s) (lru_size_max s)
                  (lru_size_total s) (lru_root_path s) (lru_root_path_length s) (lru_bloom_filter s) in
            if negb (d_open d) then Ret (None, lfree x (alloc []))
            else if negb (Z.of_nat (length (d_read d)) =? sz)
            then Ret (None, lfree x (alloc (d_read d)))
            else Ret (Some x, alloc (d_read d))
    end.

(** ** Making room *)

(** A file that is out of the list and the tree is freed, or kept for its borrowers. *)
Definition let_go (s : lru) (x : loc) : cres (lru * bool) :=
  cnt ← lget s x borrow_cnt;
  if negb (cnt =? 0) then
    f ← lget s x flags;
    s ← lput s x (set_flags (Z.lor f FILE_LRU_FLAGS_PURGED));
    s ← join_purged s x;
    Ret (s, false)
  else Ret (s, true).

(** The part of one turn of [file_lru_purge_all] under the lock: the file that is to be freed, if
    any. *)
Definition purge_first (s : lru) : cres (ptr * lru) :=
  match d_head (file_lru_list s) with
  | None => Ret (None, s)
  | Some x =>
      s ← leave_list s x;
      T ← RB_REMOVE (tree s) x;
      '(s, gone) ← let_go (with_tree T s) x;
      Ret (if gone : bool then Some x else None, s)
  end.

Fixpoint purge_all_loop (fuel : nat) (s : lru) : cres lru :=
  match d_head (file_lru_list s) with
  | None => Ret s
  | Some _ =>
      match fuel with
      | O => NoFuel
      | S fuel =>
          '(p, s) ← purge_first s;
          purge_all_loop fuel (match p with Some x => lfree x s | None => s end)
      end
  end.

Definition file_lru_purge_all (s : lru) : cres lru := purge_all_loop (size (objs s)) s.

(** [__file_lru_purge]. *)
Fixpoint purge_loop (fuel : nat) (s : lru) (want : Z) : cres lru :=
  if i32 (lru_size_max s - lru_size_total s) <? want then
    match d_tail (file_lru_list s) with
    | None => Ret s
    | Some x =>
        match fuel with
        | O => NoFuel
        | S fuel =>
            s ← leave_list s x;
            T ← RB_REMOVE (tree s) x;
            fs ← lget s x file_size;
            '(s, gone) ← let_go (with_total (i32 (lru_size_total s - fs)) (with_tree T s)) x;
            purge_loop fuel (if gone : bool then lfree x s else s) want
        end
    end
  else Ret s.

Definition file_lru_purge (s : lru) (want : Z) : cres lru := purge_loop (size (objs s)) s want.

(** ** Borrowing and giving back *)

Inductive looked_up := Blocked | Found (x : loc) | Missed.

(** [file_lru_borrow] up to the first unlocking. *)
Definition borrow_lookup (s : lru) (file_name : list Z) (file_name_len : Z) : cres (looked_up * lru) :=
  hash ← file_lru_name_hash file_name file_name_len;
  b ← path_bloom_filter_check_exist2 (lru_bloom_filter s) (Some file_name) file_name_len;
  if b =? 0 then Ret (Blocked, s)
  else
    p ← RB_FIND (tree s) (lru_cmp s hash file_name_len file_name);
    match p with
    | Some x => s ← lput s x (fun p => set_borrow (i32 (borrow_cnt p + 1)) p); Ret (Found x, s)
    | None => Ret (Missed, s)
    end.

(** ... and from the second locking on, with the file [p] that was read. *)
Definition borrow_insert (s : lru) (p : loc) : cres (ptr * lru) :=
  o ← lget s p id;
  e ← RB_FIND (tree s) (lru_cmp s (file_name_hash o) (file_name_length o) (buf o));
  match e with
  | Some e =>
      s ← lput s e (fun p => set_borrow (i32 (borrow_cnt p + 1)) p);
      s ← leave_list s e;
      s ← join_list s e;
      Ret (Some e, lfree p s)
  | None =>
      let new_total := i32 (lru_size_total s + file_size o) in
      let insert (s : lru) :=
        s ← lput s p (fun p => set_borrow (i32 (borrow_cnt p + 1)) p);
        let s := with_total (i32 (lru_size_total s + file_size o)) s in
        '(_, T) ← RB_INSERT (tree s) (lru_cmp s (file_name_hash o) (file_name_length o) (buf o)) p;
        s ← join_list (with_tree T s) p;
        Ret (Some p, s) in
      if lru_size_max s <=? 0 then insert s
      else if new_total <? lru_size_total s then Ret (None, lfree p s)
      else if lru_size_max s <? new_total then s ← file_lru_purge s (file_size o); insert s
      else insert s
  end.

Definition file_lru_borrow (mem_ok : bool) (d : disk) (s : lru) (file_name : list Z) : cres (ptr * lru) :=
  file_name_len ← c_strnlen file_name (Z.to_nat LRU_PATH_MAX);
  if (file_name_len <=? 0) || (LRU_PATH_MAX <=? file_name_len) then Ret (None, s)
  else
    '(r, s) ← borrow_lookup s file_name file_name_len;
    match r with
    | Blocked => Ret (None, s)
    | Found x => Ret (Some x, s)
    | Missed =>
        '(p, s) ← file_lru_load_from_disk mem_ok d s file_name file_name_len;
        match p with
        | None => Ret (None, s)
        | Some p => borrow_insert s p
        end
    end.

Definition file_lru_return (s : lru) (file_lru : ptr) : cres lru :=
  match file_lru with
  | None => Ret s
  | Some x =>
      p ← lget s x id;
      if negb ((FILE_LRU_MGC0 =? magic0 p) && (FILE_LRU_MGC1 =? magic1 p)) then Ret s
      else
        s ← lput s x (fun p => set_borrow (i32 (borrow_cnt p - 1)) p);
        cnt ← lget s x borrow_cnt;
        if cnt <? 0 then Ret s
        else
          f ← lget s x flags;
          if Z.land f FILE_LRU_FLAGS_PURGED =? 0 then Ret s
          else if 0 <? cnt then Ret s
          else s ← leave_purged s x; Ret (lfree x s)
  end.

(** ** Settings *)

(** [st] is what [stat] answers for the path: its mode. *)
Definition file_lru_setup (st : option Z) (s : lru) (root_path : option (list Z))
    (root_path_length lru_size_max_in_byte : Z) : cres (bool * lru) :=
  match root_path with
  | None => Ret (false, s)
  | Some r =>
      if (root_path_length <=? 0) || (LRU_PATH_MAX <=? root_path_length) then Ret (false, s)
      else if decide (Z.of_nat (length r) < root_path_length) then Fault
      else
        match st with
        | None => Ret (false, s)
        | Some mode =>
            if Z.land S_IFDIR mode =? 0 then Ret (false, s)
            else
              Ret (true, Lru (objs s) (ents s) (file_lru_rb s) (file_lru_list s) (file_lru_purged s)
                lru_size_max_in_byte (lru_size_total s)
                (ow (take (Z.to_nat root_path_length) r ++ [0]) (lru_root_path s))
                (schar (u8 root_path_length)) (lru_bloom_filter s))
        end
  end.

Definition file_lru_bloom_filter_free (s : lru) : lru := with_bloom None s.

(** One path of the file tree under the root goes into the filter that is being made.  A
    negative length would begin to read in front of the path. *)
Definition file_lru_file_enumerators_cb (s : lru) (path_name : list Z) (length : Z)
    (bf : option path_bloom_filter_t) : cres (option path_bloom_filter_t) :=
  if length <=? lru_root_path_length s then Ret bf
  else if lru_root_path_length s <? 0 then Fault
  else
    '(_, bf) ← path_bloom_filter_add_path2 bf
        (Some (drop (Z.to_nat (lru_root_path_length s)) path_name)) (length - lru_root_path_length s);
    Ret bf.

(** [paths] are the files the enumeration of the root finds. *)
Definition file_lru_update_bloom_filter (mem_ok : bool) (s : lru) (paths : list (list Z)) : cres lru :=
  match path_bloom_filter_new mem_ok with
  | None => Ret s
  | Some bf =>
      bf ← foldl (fun r path => bf ← r; file_lru_file_enumerators_cb s path (Z.of_nat (length path)) bf)
             (Ret (Some bf)) paths;
      Ret (with_bloom bf s)
  end.

Definition file_lru_remove_bloom_filter (s : lru) : lru := with_bloom None s.

Definition file_lru_detach (s : lru) : cres lru :=
  s ← file_lru_purge_all s; Ret (file_lru_bloom_filter_free s).
