(* ===== verification/FileLruInv.v ===== *)
(** * The file cache keeps its promises

    [inv] relates the state of [FileLru] to what callers hold: [C] is the list of cached
    files, [Pu] that of the marked ones, [R] the files owned by one caller (just read, or
    about to be freed) and [held] the borrowed files, once for every time they were
    borrowed.  Every operation is shown to return and to keep [inv]; [step] lets any number
    of callers run their parts in any order, and [file_lru_safe] says that a borrowed
    file is then never freed under its borrower and nothing is leaked. *)
From stdpp Require Import sorting.
From S2P Require Import Prelude CString LinkedList RbTree BloomFilter FileLru.

#[local] Arguments lget : simpl never.
#[local] Arguments lput : simpl never.
#[local] Arguments upd : simpl never.
#[local] Arguments fld : simpl never.

Lemma NoDup_perm {A} (l l' : list A) : l ≡ₚ l' → NoDup l → NoDup l'.
Proof. by intros ->. Qed.

Lemma c_strlen_ends b : 0 ∈ b → ∃ n, c_strlen b = Ret n.
Proof.
  induction b as [|c b IH]; intros Hb; simpl; [set_solver|]. destruct (Z.eqb_spec c 0); [by eexists|].
  destruct IH as [m ->]; [set_solver|]. by eexists.
Qed.

(** ** Names *)

Lemma hash_loop_app s tl n i h :
  0 <= i → i + Z.of_nat n <= Z.of_nat (length s) →
  hash_loop n (s ++ tl) i h = hash_loop n s i h ∧ ∃ h', hash_loop n s i h = Ret h'.
Proof.
  revert i h; induction n as [|n IH]; intros i h Hi Hn; simpl; [by eauto|].
  unfold rd. rewrite !decide_True by lia. rewrite lookup_app_l by lia.
  destruct (lookup_lt_is_Some_2 s (Z.to_nat i)) as [c ->]; [lia|]. cbn [mbind cres_bind]. apply IH; lia.
Qed.

Definition name_hash (s : list Z) : Z := ret_of (file_lru_name_hash s (Z.of_nat (length s))) 0.

Lemma name_hash_app s tl : file_lru_name_hash (s ++ tl) (Z.of_nat (length s)) = Ret (name_hash s).
Proof.
  unfold name_hash, file_lru_name_hash. rewrite Nat2Z.id.
  by destruct (hash_loop_app s tl (length s) 0 (Hash 0 1 2 3)) as [-> [h ->]]; [lia|lia|].
Qed.

(** By hash, then by length, then as [memcmp]. *)
Definition name_order : list Z → list Z → Z := first_by name_hash bytes_cmp.

Definition oname (n : file_lru_t) : list Z := take (Z.to_nat (file_name_length n)) (buf n).

Definition name_ok (s : list Z) : Prop := cstring s ∧ (0 < length s < 256)%nat.

(** A file object as it is made. *)
Definition obj_ok (n : file_lru_t) : Prop :=
  magic0 n = FILE_LRU_MGC0 ∧ magic1 n = FILE_LRU_MGC1 ∧
  ∃ s data, name_ok s ∧ buf n = s ++ 0 :: data ∧ file_name_length n = Z.of_nat (length s) ∧
    file_name_hash n = name_hash s ∧ file_size n = Z.of_nat (length data) ∧ 0 < file_size n < 2 ^ 31.

Definition key_of (o : gmap loc file_lru_t) (x : loc) : option (list Z) := oname <$> o !! x.

Lemma obj_name n : obj_ok n →
  name_ok (oname n) ∧ file_name_length n = Z.of_nat (length (oname n)) ∧
  file_name_hash n = name_hash (oname n) ∧ ∃ data, buf n = oname n ++ 0 :: data ∧
    file_data n = data ∧ file_size n = Z.of_nat (length data).
Proof.
  intros (_ & _ & s & data & Hs & Hb & Hl & Hh & Hsz & _).
  assert (E : oname n = s) by (unfold oname; by rewrite Hl, Nat2Z.id, Hb, take_app_length).
  rewrite E. split_and!; try done. exists data. split_and!; try done.
  unfold file_data. rewrite Hl, Nat2Z.id, Hb. change (0 :: data) with ([0] ++ data). rewrite app_assoc.
  replace (S (length s)) with (length (s ++ [0])) by (rewrite length_app; simpl; lia). apply drop_app_length.
Qed.

(** ** The invariant *)

Section Inv.
Context (N : list Z → Prop).

(** Hashes of names less than 2^31 apart. *)
Definition near : Prop := ∀ a b, N a → N b → Z.abs (name_hash a - name_hash b) < 2 ^ 31.

(** How often a file is borrowed. *)
Definition uses (x : loc) (held : list loc) : nat := length (filter (fun y => y = x) held).

(** A bloom filter that was filled properly, or none; a root path that ends. *)
Definition filter_ok (bf : option path_bloom_filter_t) : Prop :=
  ∀ f, bf = Some f → ∃ ps, represents f ps.

Definition env_ok (s : lru) : Prop := filter_ok (lru_bloom_filter s) ∧ 0 ∈ lru_root_path s.

Record inv (s : lru) (C Pu R held : list loc) : Prop := {
  in_list : dlist_rep (objs s) (file_lru_list s) C;
  in_purged : dlist_rep (objs s) (file_lru_purged s) Pu;
  in_tree : ∃ l, holds (tree s) l ∧ l ≡ₚ C ∧ sorted name_order (key_of (objs s)) l;
  in_nodup : NoDup (C ++ Pu ++ R);
  in_dom x : is_Some (objs s !! x) ↔ x ∈ C ++ Pu ++ R;
  in_objs x n : objs s !! x = Some n → obj_ok n ∧ N (oname n) ∧
    borrow_cnt n = Z.of_nat (uses x held) ∧ flags n = if decide (x ∈ Pu) then 1 else 0;
  in_held x : x ∈ held → x ∈ C ++ Pu;
  in_used x : x ∈ Pu → x ∈ held;
  in_few : Z.of_nat (length held) < 2 ^ 31;
  in_env : env_ok s
}.

Lemma uses_le x held : (uses x held <= length held)%nat.
Proof. apply length_filter. Qed.

Lemma uses_cons_same x held : uses x (x :: held) = S (uses x held).
Proof. unfold uses. by rewrite filter_cons_True. Qed.

Lemma uses_cons_other x y held : x ≠ y → uses x (y :: held) = uses x held.
Proof. intros H. unfold uses. by rewrite filter_cons_False. Qed.

Lemma uses_perm x held held' : held ≡ₚ held' → uses x held = uses x held'.
Proof. intros H. unfold uses. by rewrite H. Qed.

Lemma uses_0 x held : uses x held = O ↔ x ∉ held.
Proof.
  unfold uses. rewrite length_zero_iff_nil. split.
  - intros E Hx. assert (H : x ∈ filter (fun y => y = x) held) by (by apply list_elem_of_filter).
    rewrite E in H. set_solver.
  - intros Hx. destruct (filter _ held) as [|y l] eqn:E; [done|].
    assert (H : y ∈ filter (fun y => y = x) held) by (rewrite E; set_solver).
    apply list_elem_of_filter in H as [-> H]. done.
Qed.

Lemma inv_perm s C Pu R R' held held' :
  R ≡ₚ R' → held ≡ₚ held' → inv s C Pu R held → inv s C Pu R' held'.
Proof.
  intros ER EH [? ? ? Hnd Hd Ho Hh Hu Hf ?]. split; try done.
  - by rewrite <- ER.
  - intros x. by rewrite Hd, ER.
  - intros x n Hn. rewrite <- (uses_perm x _ _ EH). by apply Ho.
  - intros x. rewrite <- EH. apply Hh.
  - intros x. rewrite <- EH. apply Hu.
  - by rewrite <- EH.
Qed.

(** Changing the counter of one object. *)
Lemma inv_borrow_frame (o : gmap loc file_lru_t) q l x n z :
  o !! x = Some n → dlist_rep o q l → dlist_rep (<[x := set_borrow z n]> o) q l.
Proof.
  intros Hn (H1 & H2 & H3 & Hd). repeat split; try done. clear H1 H2 H3. revert Hd.
  generalize (@None loc) at 1 3 as pv. induction l as [|y l IH]; intros pv; simpl; [done|]. intros [(m & Hm & Hp & Hx) Hd]. split; [|by apply IH].
  destruct (decide (y = x)) as [->|Hne].
  - exists (set_borrow z n). rewrite lookup_insert_eq. rewrite Hn in Hm. injection Hm as <-. done.
  - exists m. by rewrite lookup_insert_ne.
Qed.

Lemma key_of_borrow (o : gmap loc file_lru_t) x n z y :
  o !! x = Some n → key_of (<[x := set_borrow z n]> o) y = key_of o y.
Proof.
  intros Hn. unfold key_of. destruct (decide (y = x)) as [->|Hne].
  - by rewrite lookup_insert_eq, Hn.
  - by rewrite lookup_insert_ne.
Qed.

(** The counter changes together with what is held. *)
Lemma inv_borrow s C Pu R held held' x n z :
  inv s C Pu R held → objs s !! x = Some n → z = Z.of_nat (uses x held') →
  (∀ y, y ≠ x → uses y held' = uses y held) →
  (x ∈ held' → x ∈ C ++ Pu) → (x ∈ Pu → x ∈ held') → Z.of_nat (length held') < 2 ^ 31 →
  inv (with_objs (<[x := set_borrow z n]> (objs s)) s) C Pu R held'.
Proof.
  intros [Hli Hpu (l & Ht & Hl & Hso) Hnd Hd Ho Hh Hu Hf Hb] Hn -> Hother Hx HxP Hlen.
  assert (Hheld : ∀ y, y ≠ x → y ∈ held' ↔ y ∈ held).
  { intros y Hne. pose proof (uses_0 y held) as H1. pose proof (uses_0 y held') as H2.
    rewrite (Hother y Hne) in H2. destruct (decide (y ∈ held)), (decide (y ∈ held')); tauto. }
  split; simpl; try done.
  - by apply inv_borrow_frame.
  - by apply inv_borrow_frame.
  - exists l. split; [exact Ht|]. split; [done|]. eapply (sorted_frame name_order (key_of (objs s))); [|exact Hso]. intros y _. by apply key_of_borrow.
  - intros y. rewrite <- Hd. destruct (decide (y = x)) as [->|Hne].
    + rewrite lookup_insert_eq, Hn. by split; eexists.
    + by rewrite lookup_insert_ne.
  - intros y m Hm. destruct (decide (y = x)) as [->|Hne].
    + rewrite lookup_insert_eq in Hm. injection Hm as <-. by destruct (Ho x n Hn) as (? & ? & _ & ?).
    + rewrite lookup_insert_ne in Hm by done. rewrite Hother by done. by apply Ho.
  - intros y Hy. destruct (decide (y = x)) as [->|Hne]; [by apply Hx|]. apply Hh. by apply Hheld.
  - intros y Hy. destruct (decide (y = x)) as [->|Hne]; [by apply HxP|]. apply Hheld; [done|by apply Hu].
Qed.

Lemma inv_lookup s C Pu R held x : inv s C Pu R held → x ∈ C ++ Pu ++ R → ∃ n, objs s !! x = Some n.
Proof. intros Hi Hx. by apply (in_dom _ _ _ _ _ Hi) in Hx. Qed.

Lemma lget_ok {A} s x n (f : file_lru_t → A) : objs s !! x = Some n → lget s x f = Ret (f n).
Proof. intros H. by apply fld_Some. Qed.

Lemma lput_ok s x n f : objs s !! x = Some n → lput s x f = Ret (with_objs (<[x := f n]> (objs s)) s).
Proof. intros H. unfold lput. by rewrite (upd_Some _ _ _ _ H). Qed.

Lemma borrow_one s C Pu R held x n :
  inv s C Pu R held → objs s !! x = Some n → x ∈ C ++ Pu → Z.of_nat (S (length held)) < 2 ^ 31 →
  inv (with_objs (<[x := set_borrow (i32 (borrow_cnt n + 1)) n]> (objs s)) s) C Pu R (x :: held).
Proof.
  intros Hi Hn Hx Hf. apply (inv_borrow _ _ _ _ held); try done.
  - destruct (in_objs _ _ _ _ _ Hi x n Hn) as (_ & _ & Hb & _). rewrite Hb, uses_cons_same.
    pose proof (uses_le x held). rewrite i32_small by lia. lia.
  - intros y Hne. by apply uses_cons_other.
  - set_solver.
Qed.

(** ** Looking up *)

Section Near.
Hypothesis Hnear : near.

(** The comparison of the code is that of [name_order]. *)
Lemma lru_cmp_key s C Pu R held a tl x :
  inv s C Pu R held → name_ok a → N a → x ∈ C →
  lru_cmp s (name_hash a) (Z.of_nat (length a)) (a ++ 0 :: tl) x = key_cmp name_order (key_of (objs s)) a x.
Proof.
  intros Hi [Ha Hla] HN Hx. destruct (inv_lookup _ _ _ _ _ x Hi) as [n Hn]; [set_solver|].
  destruct (in_objs _ _ _ _ _ Hi x n Hn) as (Hok & HNb & _).
  destruct (obj_name n Hok) as ([Hb Hlb] & Hlen & Hhash & data & Hbuf & _).
  unfold lru_cmp. rewrite (lget_ok _ _ _ _ Hn). cbn [mbind cres_bind id].
  unfold key_cmp, key_of. rewrite Hn. simpl fmap. cbn iota.
  unfold file_lru_name_cmp, name_order, first_by, bytes_cmp. rewrite Hlen, Hhash, Hbuf.
  pose proof (Hnear a (oname n) HN HNb) as Hd.
  rewrite (i32_small (name_hash a - _)) by lia.
  destruct (Z.eqb_spec (name_hash a) (name_hash (oname n))) as [Eh|Eh].
  2:{ destruct (Z.eqb_spec (name_hash a - name_hash (oname n)) 0); [lia|]. done. }
  rewrite Eh, Z.sub_diag. simpl negb. cbn iota. rewrite i32_small by lia.
  destruct (decide (length a = length (oname n))) as [El|El].
  - rewrite El, Z.sub_diag. simpl negb. cbn iota. rewrite <- El. by apply strcmp_same_length.
  - destruct (Z.eqb_spec (Z.of_nat (length a) - Z.of_nat (length (oname n))) 0); [lia|]. done.
Qed.

(** Where a name is, or would be, in the tree. *)
Lemma lru_tree_cut s C Pu R held a tl :
  inv s C Pu R held → name_ok a → N a →
  ∃ A m B, holds (tree s) (A ++ option_list m ++ B) ∧ A ++ option_list m ++ B ≡ₚ C ∧
    sorted name_order (key_of (objs s)) (A ++ option_list m ++ B) ∧
    cut (key_cmp name_order (key_of (objs s)) a) (A ++ option_list m ++ B) A m B ∧
    cut (lru_cmp s (name_hash a) (Z.of_nat (length a)) (a ++ 0 :: tl)) (A ++ option_list m ++ B) A m B ∧
    ∀ x, m = Some x ↔ x ∈ C ∧ key_of (objs s) x = Some a.
Proof.
  intros Hi Ha HN. destruct (in_tree _ _ _ _ _ Hi) as (l & Hh & Hl & Hs).
  destruct (sorted_cut name_order (key_of (objs s)) l a Hs) as (A & m & B & Hc & Hm).
  pose proof (cut_split _ _ _ _ _ Hc) as El. subst l. exists A, m, B.
  split; [done|]. split; [done|]. split; [done|]. split; [done|]. split.
  - eapply cut_ext; [|exact Hc]. intros x Hx. apply (lru_cmp_key s C Pu R held); try done. by rewrite <- Hl.
  - intros x. rewrite Hm, Hl. done.
Qed.

Lemma find_name s C Pu R held a tl :
  inv s C Pu R held → name_ok a → N a →
  ∃ m, RB_FIND (tree s) (lru_cmp s (name_hash a) (Z.of_nat (length a)) (a ++ 0 :: tl)) = Ret m ∧
    ∀ x, m = Some x ↔ x ∈ C ∧ key_of (objs s) x = Some a.
Proof.
  intros Hi Ha HN. destruct (lru_tree_cut s C Pu R held a tl Hi Ha HN) as (A & m & B & Hh & _ & _ & _ & Hc & Hm).
  exists m. split; [|done]. by eapply RB_FIND_ok.
Qed.

(** The first part of [file_lru_borrow]. *)
Lemma borrow_lookup_ok s C Pu R held a tl :
  inv s C Pu R held → name_ok a → N a → Z.of_nat (S (length held)) < 2 ^ 31 →
  ∃ r s', borrow_lookup s (a ++ 0 :: tl) (Z.of_nat (length a)) = Ret (r, s') ∧
    match r with
    | Blocked => s' = s
    | Found x => x ∈ C ∧ key_of (objs s') x = Some a ∧ inv s' C Pu R (x :: held)
    | Missed => s' = s ∧ ∀ x, x ∈ C → key_of (objs s) x ≠ Some a
    end.
Proof.
  intros Hi Ha HN Hf. unfold borrow_lookup. rewrite name_hash_app. cbn [mbind cres_bind].
  assert (Hbl : ∃ b, path_bloom_filter_check_exist2 (lru_bloom_filter s) (Some (a ++ 0 :: tl))
    (Z.of_nat (length a)) = Ret b).
  { destruct (lru_bloom_filter s) as [f|] eqn:Ef; [|by eexists].
    destruct (proj1 (in_env _ _ _ _ _ Hi) f Ef) as [ps Hps]. unfold path_bloom_filter_check_exist2.
    case_match; [|by eexists]. destruct (check_exist_ok f ps a (0 :: tl) Hps) as (r & -> & _). by eexists. }
  destruct Hbl as [b ->]. cbn [mbind cres_bind]. destruct (b =? 0); [by eexists Blocked, s|].
  destruct (find_name s C Pu R held a tl Hi Ha HN) as (m & -> & Hm). cbn [mbind cres_bind].
  destruct m as [x|].
  - destruct (proj1 (Hm x) eq_refl) as [Hx Hk]. destruct (inv_lookup _ _ _ _ _ x Hi) as [n Hn]; [set_solver|].
    rewrite (lput_ok _ _ _ _ Hn). cbn [mbind cres_bind]. eexists (Found x), _. split; [done|].
    split; [done|]. split; [simpl; by rewrite key_of_borrow|]. apply borrow_one; [done|done|set_solver|done].
  - exists Missed, s. split; [done|]. split; [done|]. intros x Hx Hk. discriminate (proj2 (Hm x) (conj Hx Hk)).
Qed.
End Near.

(** ** Moving files between the lists *)

Lemma erase_facts n n' :
  erase_links n' = erase_links n →
  (obj_ok n → obj_ok n') ∧ oname n' = oname n ∧ borrow_cnt n' = borrow_cnt n ∧ flags n' = flags n ∧
  file_size n' = file_size n ∧ file_data n' = file_data n.
Proof.
  intros E. unfold obj_ok, oname, file_data.
  assert (magic0 n' = magic0 n) as -> by (by apply (f_equal magic0) in E).
  assert (magic1 n' = magic1 n) as -> by (by apply (f_equal magic1) in E).
  assert (buf n' = buf n) as -> by (by apply (f_equal buf) in E).
  assert (file_name_length n' = file_name_length n) as -> by (by apply (f_equal file_name_length) in E).
  assert (file_name_hash n' = file_name_hash n) as -> by (by apply (f_equal file_name_hash) in E).
  assert (file_size n' = file_size n) as -> by (by apply (f_equal file_size) in E).
  split_and!; try done; [by apply (f_equal borrow_cnt) in E|by apply (f_equal flags) in E].
Qed.

Definition size_of (o : gmap loc file_lru_t) (x : loc) : Z :=
  match o !! x with Some n => file_size n | None => 0 end.

(** What a list operation leaves as it was. *)
Lemma linked_facts (o o' : gmap loc file_lru_t) l :
  links_written o o' l →
  (∀ x n', o' !! x = Some n' → ∃ n, o !! x = Some n ∧ erase_links n' = erase_links n) ∧
  (∀ x, is_Some (o' !! x) ↔ is_Some (o !! x)) ∧
  (∀ x, key_of o' x = key_of o x) ∧ (∀ x, size_of o' x = size_of o x).
Proof.
  intros [Hs Hf].
  assert (H1 : ∀ x n', o' !! x = Some n' → ∃ n, o !! x = Some n ∧ erase_links n' = erase_links n).
  { intros x n' Hn'. destruct (same_objects_lookup _ _ _ _ Hs Hn') as (n & Hn & E). eauto. }
  assert (H2 : ∀ x n, o !! x = Some n → ∃ n', o' !! x = Some n' ∧ erase_links n' = erase_links n).
  { intros x n Hn. symmetry in Hs. destruct (same_objects_lookup _ _ _ _ Hs Hn) as (n' & Hn' & E). eauto. }
  split; [done|]. split.
  { intros x. split; intros [n Hn]; [destruct (H1 x n Hn) as (? & ? & _)|destruct (H2 x n Hn) as (? & ? & _)]; eauto. }
  split; intros x; unfold key_of, size_of.
  - destruct (o' !! x) as [n'|] eqn:E'.
    + destruct (H1 x n' E') as (n & -> & E). simpl. f_equal. apply (erase_facts _ _ E).
    + destruct (o !! x) as [n|] eqn:E; [|done]. by destruct (H2 x n E) as (? & ? & _); congruence.
  - destruct (o' !! x) as [n'|] eqn:E'.
    + destruct (H1 x n' E') as (n & -> & E). apply (erase_facts _ _ E).
    + destruct (o !! x) as [n|] eqn:E; [|done]. by destruct (H2 x n E) as (? & ? & _); congruence.
Qed.

(** The file is taken out of the list and the tree. *)
Lemma unlist_ok s C1 x C2 Pu R held :
  inv s (C1 ++ x :: C2) Pu R held →
  ∃ o q T l, leave_list s x = Ret (with_list o q s) ∧ RB_REMOVE (tree (with_list o q s)) x = Ret T ∧
    dlist_rep o q (C1 ++ C2) ∧ links_written (objs s) o (C1 ++ C2) ∧
    holds T l ∧ l ≡ₚ C1 ++ C2 ∧ sorted name_order (key_of o) l.
Proof.
  intros Hi. unfold leave_list.
  destruct (left_ok _ _ _ _ _ (in_list _ _ _ _ _ Hi)) as (o & q & -> & Hq & Hw). cbn [mbind cres_bind].
  destruct (in_tree _ _ _ _ _ Hi) as (l & Hh & Hl & Hs).
  assert (Hx : x ∈ l) by (rewrite Hl; set_solver). apply list_elem_of_split in Hx as (A & B & ->).
  destruct (RB_REMOVE_ok (tree s) A x B Hh) as (T & E & [HT _]).
  exists o, q, T, (A ++ B). split; [done|]. split; [exact E|]. split; [done|]. split; [done|].
  split; [done|]. split.
  - by eapply Permutation_app_inv.
  - apply (sorted_frame name_order (key_of (objs s))); [|by eapply sorted_remove; [apply _|exact Hs]].
    intros y _. by apply (linked_facts _ _ _ Hw).
Qed.

(** ... and then is owned by who took it out, or waits for its borrowers. *)
Lemma drop_ok s C1 x C2 Pu R held :
  inv s (C1 ++ x :: C2) Pu R held →
  ∃ o q T n, leave_list s x = Ret (with_list o q s) ∧ RB_REMOVE (tree (with_list o q s)) x = Ret T ∧
    objs s !! x = Some n ∧ lget (with_list o q s) x file_size = Ret (file_size n) ∧
    ∀ z, ∃ s' gone, let_go (with_total z (with_tree T (with_list o q s))) x = Ret (s', gone) ∧
      (if gone : bool then inv s' (C1 ++ C2) Pu (x :: R) held else inv s' (C1 ++ C2) (x :: Pu) R held) ∧
      lru_size_total s' = z ∧ lru_size_max s' = lru_size_max s ∧
      (∀ y, size_of (objs s') y = size_of (objs s) y) ∧ (∀ y, key_of (objs s') y = key_of (objs s) y) ∧
      ∀ y, y ∈ R → objs s' !! y = objs s !! y.
Proof.
  intros Hi. destruct (unlist_ok _ _ _ _ _ _ _ Hi) as (o & q & T & l & E1 & E2 & Hq & Hw & HT & Hl & Hso).
  destruct (inv_lookup _ _ _ _ _ x Hi) as [n Hn]; [set_solver|].
  pose proof (in_nodup _ _ _ _ _ Hi) as Hnd.
  assert (Hx : x ∉ C1 ++ C2 ∧ x ∉ Pu ∧ x ∉ R).
  { rewrite <- app_assoc in Hnd. simpl in Hnd. apply NoDup_app in Hnd as (_ & H1 & H2).
    apply NoDup_cons in H2 as [H2 _]. set_solver. }
  destruct Hx as (HxC & HxP & HxR).
  assert (Hox : o !! x = Some n) by (rewrite <- Hn; by apply Hw).
  destruct (linked_facts _ _ _ Hw) as (Hob & Hdm & Hk & Hsz).
  destruct (in_objs _ _ _ _ _ Hi x n Hn) as (Hok & HN & Hcnt & Hfl). rewrite decide_False in Hfl by done.
  assert (Hnd' : NoDup ((C1 ++ C2) ++ x :: Pu ++ R)).
  { eapply NoDup_perm; [|exact Hnd]. solve_Permutation. }
  exists o, q, T, n. split; [done|]. split; [done|]. split; [done|]. split; [by apply lget_ok|].
  intros z. unfold let_go. rewrite (lget_ok (with_total z (with_tree T (with_list o q s))) x n borrow_cnt) by done.
  cbn [mbind cres_bind].
  assert (Hpu : dlist_rep o (file_lru_purged s) Pu).
  { eapply dlist_rep_agree; [|exact (in_purged _ _ _ _ _ Hi)]. intros y Hy. apply Hw.
    intros HyC. apply NoDup_app in Hnd' as (_ & Hd & _). apply (Hd y HyC). set_solver. }
  assert (Hobj : ∀ y m, o !! y = Some m → obj_ok m ∧ N (oname m) ∧
    borrow_cnt m = Z.of_nat (uses y held) ∧ flags m = if decide (y ∈ Pu) then 1 else 0).
  { intros y m Hm. destruct (Hob y m Hm) as (m0 & Hm0 & E). destruct (erase_facts _ _ E) as (Ho & -> & -> & -> & _).
    destruct (in_objs _ _ _ _ _ Hi y m0 Hm0) as (? & ?). auto. }
  assert (HR : ∀ y, y ∈ R → o !! y = objs s !! y).
  { intros y Hy. apply Hw. intros HyC. apply NoDup_app in Hnd' as (_ & Hd & _). apply (Hd y HyC). set_solver. }
  destruct (Z.eqb_spec (borrow_cnt n) 0) as [H0|H0]; cbn [negb].
  - eexists _, true. split; [done|]. split; [|split; [done|split; [done|split; [exact Hsz|split; [exact Hk|exact HR]]]]].
    assert (Hxh : x ∉ held) by (apply uses_0; lia).
    split; simpl; try done.
    + by exists l; destruct T.
    + eapply NoDup_perm; [|exact Hnd']. solve_Permutation.
    + intros y. rewrite Hdm, (in_dom _ _ _ _ _ Hi). set_solver.
    + intros y Hy. pose proof (in_held _ _ _ _ _ Hi y Hy). assert (y ≠ x) by (by intros ->). set_solver.
    + apply (in_used _ _ _ _ _ Hi).
    + apply (in_few _ _ _ _ _ Hi).
    + apply (in_env _ _ _ _ _ Hi).
  - rewrite (lget_ok (with_total z (with_tree T (with_list o q s))) x n flags) by done. cbn [mbind cres_bind].
    rewrite (lput_ok _ x n) by done. cbn [mbind cres_bind]. rewrite Hfl. unfold join_purged.
    set (o1 := <[x := set_flags (Z.lor 0 FILE_LRU_FLAGS_PURGED) n]> o).
    destruct (join_head_ok o1 (file_lru_purged s) Pu x) as (o2 & q2 & E & Hq2 & Hw2).
    { by apply dlist_rep_frame. }
    { done. }
    { unfold o1. rewrite lookup_insert_eq. by eexists. }
    assert (Hxh : x ∈ held). { destruct (decide (x ∈ held)) as [|Hn']; [done|]. apply uses_0 in Hn'. lia. }
    destruct (linked_facts _ _ _ Hw2) as (Hob2 & Hdm2 & Hk2 & Hsz2).
    simpl objs. simpl file_lru_purged. fold o1. rewrite E. cbn [mbind cres_bind]. eexists _, false. split; [done|].
    split; [|split; [done|]; split; [done|]; split; [|split]].
    4:{ intros y Hy. simpl. destruct Hw2 as [_ ->]; [unfold o1; rewrite lookup_insert_ne; [by apply HR|set_solver]|].
        intros Hy'. apply NoDup_app in Hnd' as (_ & _ & Hd). change (x :: Pu ++ R) with ((x :: Pu) ++ R) in Hd.
        apply NoDup_app in Hd as (_ & Hd & _). apply (Hd y); done. }
    2:{ intros y. simpl. rewrite Hsz2, <- Hsz. unfold size_of, o1. destruct (decide (y = x)) as [->|Hne].
        - by rewrite lookup_insert_eq, Hox.
        - by rewrite lookup_insert_ne. }
    2:{ intros y. simpl. rewrite Hk2, <- Hk. unfold key_of, o1. destruct (decide (y = x)) as [->|Hne].
        - by rewrite lookup_insert_eq, Hox.
        - by rewrite lookup_insert_ne. }
    assert (Hk1 : ∀ y, key_of o1 y = key_of o y).
    { intros y. unfold key_of, o1. destruct (decide (y = x)) as [->|Hne].
      - by rewrite lookup_insert_eq, Hox.
      - by rewrite lookup_insert_ne. }
    split; simpl; try done.
    + eapply dlist_rep_agree; [|exact Hq]. intros y Hy. destruct Hw2 as [_ ->].
      * unfold o1. rewrite lookup_insert_ne; [done|]. set_solver.
      * apply NoDup_app in Hnd' as (_ & Hd & _). intros Hy'. apply (Hd y Hy). set_solver.
    + exists l. split; [by destruct T|]. split; [done|].
      apply (sorted_frame name_order (key_of o)); [|done]. intros y _. by rewrite Hk2, Hk1.
    + intros y. rewrite Hdm2. unfold o1. rewrite lookup_insert_is_Some, Hdm, (in_dom _ _ _ _ _ Hi).
      destruct (decide (x = y)) as [->|]; set_solver.
    + intros y m Hm. destruct (Hob2 y m Hm) as (m0 & Hm0 & Em).
      destruct (erase_facts _ _ Em) as (Ho & -> & -> & -> & _). unfold o1 in Hm0.
      destruct (decide (y = x)) as [->|Hne].
      * rewrite lookup_insert_eq in Hm0. injection Hm0 as <-. rewrite decide_True by set_solver. auto.
      * rewrite lookup_insert_ne in Hm0 by done. destruct (Hobj y m0 Hm0) as (? & ? & ? & ->).
        split_and!; auto. destruct (decide (y ∈ Pu)), (decide (y ∈ x :: Pu)); set_solver.
    + intros y Hy. pose proof (in_held _ _ _ _ _ Hi y Hy). set_solver.
    + intros y [->|Hy]%elem_of_cons; [done|]. by apply (in_used _ _ _ _ _ Hi).
    + apply (in_few _ _ _ _ _ Hi).
    + apply (in_env _ _ _ _ _ Hi).
Qed.

(** A file owned by one caller is freed. *)
Lemma free_ok s C Pu R held x : inv s C Pu (x :: R) held → inv (lfree x s) C Pu R held.
Proof.
  intros [Hli Hpu (l & Ht & Hl & Hso) Hnd Hd Ho Hh Hu Hf Hb].
  assert (Hx : x ∉ C ++ Pu ++ R ∧ NoDup (C ++ Pu ++ R)).
  { apply NoDup_cons. eapply NoDup_perm; [|exact Hnd]. solve_Permutation. }
  destruct Hx as [Hx Hnd'].
  assert (Hag : ∀ y, y ∈ C ++ Pu → delete x (objs s) !! y = objs s !! y).
  { intros y Hy. rewrite lookup_delete_ne; [done|]. set_solver. }
  split; simpl; try done.
  - eapply dlist_rep_agree; [|exact Hli]. intros y Hy. apply Hag. set_solver.
  - eapply dlist_rep_agree; [|exact Hpu]. intros y Hy. apply Hag. set_solver.
  - exists l. split; [|split; [done|]].
    + eapply (rb_holds_frame (tree s)); [|done|exact Ht]. intros y Hy. simpl. rewrite lookup_delete_ne; [done|].
      rewrite Hl in Hy. set_solver.
    + apply (sorted_frame name_order (key_of (objs s))); [|done]. intros y Hy. unfold key_of.
      rewrite Hag; [done|]. rewrite Hl in Hy. set_solver.
  - intros y. destruct (decide (y = x)) as [->|Hne].
    + rewrite lookup_delete_eq. split; [by intros []|done].
    + rewrite lookup_delete_ne, Hd by done. set_solver.
  - intros y m Hm. apply lookup_delete_Some in Hm as [_ Hm]. by apply Ho.
Qed.

(** ** Making room *)

Fixpoint tsize (o : gmap loc file_lru_t) (C : list loc) : Z :=
  match C with [] => 0 | x :: C => size_of o x + tsize o C end.

Lemma tsize_app o C C' : tsize o (C ++ C') = tsize o C + tsize o C'.
Proof. induction C as [|x C IH]; simpl; [done|]. rewrite IH. lia. Qed.

Lemma tsize_ext o o' C : (∀ x, x ∈ C → size_of o' x = size_of o x) → tsize o' C = tsize o C.
Proof.
  induction C as [|x C IH]; intros H; simpl; [done|]. rewrite H, IH by set_solver. done.
Qed.

Lemma tsize_pos s C Pu R held D : inv s C Pu R held → 0 <= tsize (objs s) D.
Proof.
  intros Hi. induction D as [|x D IH]; simpl; [lia|]. unfold size_of at 1.
  destruct (objs s !! x) as [n|] eqn:E; [|done].
  destruct (in_objs _ _ _ _ _ Hi x n E) as ((_ & _ & ? & ? & _ & _ & _ & _ & _ & ?) & _). lia.
Qed.

Lemma size_of_free s x y : y ≠ x → size_of (objs (lfree x s)) y = size_of (objs s) y.
Proof. intros H. unfold size_of. simpl. by rewrite lookup_delete_ne. Qed.

(** The sum of the sizes of the cached files is within the counter. *)
Definition counted (s : lru) (C : list loc) : Prop :=
  0 < lru_size_max s < 2 ^ 31 ∧ tsize (objs s) C <= lru_size_total s < 2 ^ 31.

Lemma purge_loop_ok fuel s C Pu R held want :
  inv s C Pu R held → (length C <= fuel)%nat →
  ∃ s' C' D Pu', purge_loop fuel s want = Ret s' ∧ C = C' ++ D ∧ inv s' C' Pu' R held ∧
    lru_size_max s' = lru_size_max s ∧ (∀ y, y ∈ R → objs s' !! y = objs s !! y) ∧
    (∀ y, y ∈ C' → size_of (objs s') y = size_of (objs s) y) ∧
    (∀ y, y ∈ C' → key_of (objs s') y = key_of (objs s) y) ∧
    (counted s C → counted s' C' ∧ lru_size_total s' <= lru_size_total s ∧
       (want <= lru_size_max s' - lru_size_total s' ∨ C' = [])).
Proof.
  revert s C Pu. induction fuel as [|fuel IH]; intros s C Pu Hi Hf.
  all: pose proof (in_list _ _ _ _ _ Hi) as (_ & Htl & _ & _).
  all: destruct C as [|x C _] using rev_ind;
    [ exists s, [], [], Pu; split; [cbn [purge_loop]; case_match; [by rewrite Htl|done]|];
      split; [done|]; split; [done|]; split; [done|]; split; [done|]; split; [done|]; split; [done|];
      intros Hc; split; [done|]; split; [lia|by right] | ].
  all: rewrite last_snoc in Htl.
  { rewrite length_app in Hf. simpl in Hf. lia. }
  cbn [purge_loop]. destruct (Z.ltb_spec (i32 (lru_size_max s - lru_size_total s)) want) as [Hw|Hw].
  2:{ exists s, (C ++ [x]), [], Pu. split; [done|]. split; [by rewrite app_nil_r|]. split; [done|].
      split; [done|]. split; [done|]. split; [done|]. split; [done|].
      intros [H1 H2]. split; [done|]. split; [lia|]. left.
      pose proof (tsize_pos _ _ _ _ _ (C ++ [x]) Hi). rewrite i32_small in Hw by lia. lia. }
  rewrite Htl. pose proof (drop_ok s C x [] Pu R held Hi) as (o & q & T & n & -> & E2 & Hn & E3 & Hgo).
  cbn [mbind cres_bind]. rewrite E2. cbn [mbind cres_bind]. rewrite E3. cbn [mbind cres_bind].
  destruct (Hgo (i32 (lru_size_total s - file_size n))) as (s1 & gone & Eg & Hi1 & Ht1 & Hm1 & Hsz & Hky & HR).
  simpl lru_size_total. rewrite Eg. cbn [mbind cres_bind].
  set (s2 := if gone then lfree x s1 else s1).
  assert (Hs2 : ∃ Pu', inv s2 C Pu' R held).
  { rewrite app_nil_r in Hi1. unfold s2. destruct gone; [exists Pu; by apply free_ok|by exists (x :: Pu)]. }
  destruct Hs2 as [Pu' Hi2].
  pose proof (in_nodup _ _ _ _ _ Hi) as Hnd.
  assert (HxCR : x ∉ C ∧ x ∉ R).
  { rewrite <- app_assoc in Hnd. apply NoDup_app in Hnd as (_ & H1 & H2). simpl in H1, H2.
    apply NoDup_cons in H2 as [H2 _]. set_solver. }
  destruct (IH s2 C Pu' Hi2) as (s' & C' & D & Pu'' & E & -> & Hi' & Hm' & HR' & Hsz' & Hky' & Hcnt).
  { rewrite length_app in Hf. simpl in Hf. lia. }
  assert (Hs2sz : ∀ y, y ∈ C' ++ D → size_of (objs s2) y = size_of (objs s) y).
  { intros y Hy. rewrite <- Hsz. unfold s2. destruct gone; [|done]. apply size_of_free. set_solver. }
  exists s', C', (D ++ [x]), Pu''. split; [done|]. split; [by rewrite <- app_assoc|]. split; [done|]. split.
  { rewrite Hm', <- Hm1. unfold s2. by destruct gone. }
  split.
  { intros y Hy. rewrite HR' by done. rewrite <- HR by done. unfold s2. destruct gone; [|done].
    simpl. rewrite lookup_delete_ne; [done|]. set_solver. }
  split; [intros y Hy; rewrite Hsz' by done; apply Hs2sz; set_solver|]. split.
  { intros y Hy. rewrite Hky' by done. rewrite <- Hky. unfold s2. destruct gone; [|done]. unfold key_of. simpl.
    rewrite lookup_delete_ne; [done|]. set_solver. }
  intros [Hmax Htot]. rewrite tsize_app in Htot. simpl in Htot.
  assert (Hfs : size_of (objs s) x = file_size n) by (unfold size_of; by rewrite Hn).
  pose proof (tsize_pos _ _ _ _ _ (C' ++ D) Hi) as Hpos.
  destruct (in_objs _ _ _ _ _ Hi x n Hn) as ((_ & _ & ? & ? & _ & _ & _ & _ & _ & Hfp) & _).
  assert (Ht2 : lru_size_total s2 = lru_size_total s - file_size n).
  { transitivity (lru_size_total s1); [unfold s2; by destruct gone|]. rewrite Ht1. apply i32_small. lia. }
  destruct Hcnt as (Hc1 & Hc2 & Hc3).
  { split; [unfold s2; destruct gone; simpl; by rewrite Hm1|]. rewrite (tsize_ext (objs s)) by done. rewrite Ht2. lia. }
  split; [done|]. split; [lia|done].
Qed.

Lemma list_size s C Pu R held : inv s C Pu R held → (length C <= size (objs s))%nat.
Proof.
  intros Hi. assert (Hs : list_to_set C ⊆ dom (objs s)).
  { intros x Hx. apply elem_of_dom, (in_dom _ _ _ _ _ Hi). set_solver. }
  apply subseteq_size in Hs. rewrite size_list_to_set in Hs; [by rewrite size_dom in Hs|].
  pose proof (in_nodup _ _ _ _ _ Hi) as Hnd. by apply NoDup_app in Hnd as (? & _).
Qed.

Lemma with_total_id s : with_total (lru_size_total s) s = s.
Proof. by destruct s. Qed.

(** One turn of [file_lru_purge_all]. *)
Lemma purge_first_ok s C Pu R held :
  inv s C Pu R held →
  ∃ p s', purge_first s = Ret (p, s') ∧
    match C with
    | [] => p = None ∧ s' = s
    | x :: C' =>
        lru_size_total s' = lru_size_total s ∧
        match p with
        | Some y => y = x ∧ inv s' C' Pu (x :: R) held
        | None => inv s' C' (x :: Pu) R held
        end
    end.
Proof.
  intros Hi. pose proof (in_list _ _ _ _ _ Hi) as (Hhd & _). unfold purge_first. rewrite Hhd.
  destruct C as [|x C]; [by eexists _, _|]. cbn [head].
  destruct (drop_ok s [] x C Pu R held Hi) as (o & q & T & n & -> & E2 & _ & _ & Hgo).
  cbn [mbind cres_bind]. rewrite E2. cbn [mbind cres_bind].
  destruct (Hgo (lru_size_total s)) as (s' & gone & Eg & Hi' & Ht & _).
  change (with_tree T (with_list o q s)) with (with_total (lru_size_total s) (with_tree T (with_list o q s))).
  rewrite Eg. cbn [mbind cres_bind]. eexists _, _. split; [done|]. by destruct gone.
Qed.

Lemma purge_all_loop_ok fuel s C Pu R held :
  inv s C Pu R held → (length C <= fuel)%nat →
  ∃ s' Pu', purge_all_loop fuel s = Ret s' ∧ inv s' [] Pu' R held ∧ lru_size_total s' = lru_size_total s.
Proof.
  revert s C Pu. induction fuel as [|fuel IH]; intros s C Pu Hi Hf;
    pose proof (in_list _ _ _ _ _ Hi) as (Hhd & _); (destruct C as [|x C];
      [exists s, Pu; split; [cbn [purge_all_loop]; by rewrite Hhd|done]|]); simpl in Hf; [lia|].
  cbn [purge_all_loop]. rewrite Hhd. cbn [head].
  destruct (purge_first_ok s (x :: C) Pu R held Hi) as (p & s1 & -> & Ht & Hp). cbn [mbind cres_bind].
  destruct p as [y|].
  - destruct Hp as [-> Hi1]. apply free_ok in Hi1.
    destruct (IH (lfree x s1) C Pu Hi1) as (s' & Pu' & E & Hi' & Ht'); [lia|].
    exists s', Pu'. split; [done|]. split; [done|]. by rewrite Ht'.
  - destruct (IH s1 C (x :: Pu) Hp) as (s' & Pu' & E & Hi' & Ht'); [lia|].
    exists s', Pu'. split; [done|]. split; [done|]. by rewrite Ht'.
Qed.

(** Everything that is not borrowed is freed. *)
Lemma purge_all_ok s C Pu R held :
  inv s C Pu R held →
  ∃ s' Pu', file_lru_purge_all s = Ret s' ∧ inv s' [] Pu' R held ∧ lru_size_total s' = lru_size_total s.
Proof. intros Hi. eapply purge_all_loop_ok; [done|]. by eapply list_size. Qed.

(** ** Giving back *)

Lemma return_ok s C Pu R held x :
  inv s C Pu R (x :: held) →
  ∃ s' Pu', file_lru_return s (Some x) = Ret s' ∧ inv s' C Pu' R held ∧
    (∀ y, y ∈ Pu' ↔ y ∈ Pu ∧ (y = x → x ∈ held)) ∧ lru_size_total s' = lru_size_total s.
Proof.
  intros Hi. assert (Hx : x ∈ C ++ Pu) by (apply (in_held _ _ _ _ _ Hi); set_solver).
  destruct (inv_lookup _ _ _ _ _ x Hi) as [n Hn]; [set_solver|].
  destruct (in_objs _ _ _ _ _ Hi x n Hn) as (Hok & HN & Hcnt & Hfl). rewrite uses_cons_same in Hcnt.
  pose proof (in_few _ _ _ _ _ Hi) as Hfew. simpl in Hfew. pose proof (uses_le x held) as Hle.
  unfold file_lru_return. rewrite (lget_ok _ _ _ _ Hn). cbn [mbind cres_bind id].
  destruct Hok as (-> & -> & Hok). rewrite !Z.eqb_refl. cbn [negb andb].
  rewrite (lput_ok _ _ _ _ Hn). cbn [mbind cres_bind].
  assert (Hz : i32 (borrow_cnt n - 1) = Z.of_nat (uses x held)) by (rewrite i32_small; lia). rewrite Hz.
  set (n1 := set_borrow _ n). set (s1 := with_objs (<[x := n1]> (objs s)) s).
  assert (Hn1 : objs s1 !! x = Some n1) by (simpl; by rewrite lookup_insert_eq).
  rewrite (lget_ok s1 x n1 borrow_cnt Hn1). cbn [mbind cres_bind]. simpl borrow_cnt.
  destruct (Z.ltb_spec (Z.of_nat (uses x held)) 0); [lia|].
  rewrite (lget_ok s1 x n1 flags Hn1). cbn [mbind cres_bind]. simpl flags. rewrite Hfl.
  assert (Hkeep : (x ∈ Pu → x ∈ held) → inv s1 C Pu R held).
  { intros Hp. apply (inv_borrow _ _ _ _ (x :: held)); try done; [|lia].
    intros y Hne. by rewrite uses_cons_other. }
  destruct (decide (x ∈ Pu)) as [HxP|HxP].
  2:{ change (Z.land 0 FILE_LRU_FLAGS_PURGED =? 0) with true. cbn iota. exists s1, Pu.
      split; [done|]. split; [by apply Hkeep|]. split; [|done]. intros y. naive_solver. }
  change (Z.land 1 FILE_LRU_FLAGS_PURGED =? 0) with false. cbn iota.
  destruct (Z.ltb_spec 0 (Z.of_nat (uses x held))) as [Hpos|H0].
  { assert (Hxh : x ∈ held). { destruct (decide (x ∈ held)) as [|Hnh]; [done|]. apply uses_0 in Hnh. lia. }
    exists s1, Pu. split; [done|]. split; [by apply Hkeep|]. split; [|done]. intros y. naive_solver. }
  assert (Hxh : x ∉ held) by (apply uses_0; lia).
  destruct Hi as [Hli Hpu (l & Ht & Hl & Hso) Hnd Hd Ho Hh Hu Hf Hb].
  apply list_elem_of_split in HxP as (P1 & P2 & ->). unfold leave_purged.
  destruct (left_ok (objs s1) (file_lru_purged s1) P1 x P2) as (o & q & -> & Hq & Hw);
    [by apply inv_borrow_frame|]. cbn [mbind cres_bind].
  destruct (linked_facts _ _ _ Hw) as (Hob & Hdm & Hk & _).
  assert (Hout : x ∉ C ++ P1 ++ P2 ++ R ∧ NoDup (C ++ (P1 ++ P2) ++ R)).
  { rewrite <- app_assoc. apply NoDup_cons. eapply NoDup_perm; [|exact Hnd]. solve_Permutation. }
  destruct Hout as [HxO Hnd'].
  assert (Hother : ∀ y, y ≠ x → y ∉ P1 ++ P2 → delete x o !! y = objs s !! y).
  { intros y Hne Hy. rewrite lookup_delete_ne by done. destruct Hw as [_ ->]; [|done]. simpl.
    by rewrite lookup_insert_ne. }
  exists (lfree x (with_purged o q s1)), (P1 ++ P2). split; [done|]. split; [|split; [|done]].
  2:{ intros y. split; [|set_solver]. intros Hy. split; [set_solver|]. intros ->. set_solver. }
  assert (HC : ∀ y, y ∈ C → delete x o !! y = objs s !! y).
  { intros y Hy. apply Hother; [set_solver|]. intros Hy'. apply NoDup_app in Hnd' as (_ & Hdis & _).
    apply (Hdis y Hy). set_solver. }
  split; simpl.
  - eapply dlist_rep_agree; [|exact Hli]. done.
  - eapply dlist_rep_agree; [|exact Hq]. intros y Hy. rewrite lookup_delete_ne; [done|set_solver].
  - exists l. split; [|split; [done|]].
    + eapply (rb_holds_frame (tree s)); [|done|exact Ht]. intros y Hy. simpl. rewrite lookup_delete_ne; [done|].
      rewrite Hl in Hy. set_solver.
    + apply (sorted_frame name_order (key_of (objs s))); [|done]. intros y Hy. unfold key_of.
      rewrite HC; [done|]. by rewrite <- Hl.
  - done.
  - intros y. destruct (decide (y = x)) as [->|Hne].
    + rewrite lookup_delete_eq. split; [by intros []|]. intros Hx'. exfalso. apply HxO. clear -Hx'. set_solver.
    + rewrite lookup_delete_ne, Hdm by done. simpl. rewrite lookup_insert_ne, Hd by done. clear -Hne. set_solver.
  - intros y m Hm. apply lookup_delete_Some in Hm as [Hne Hm]. destruct (Hob y m Hm) as (m0 & Hm0 & E).
    simpl in Hm0. rewrite lookup_insert_ne in Hm0 by done.
    destruct (erase_facts _ _ E) as (Hok' & -> & -> & -> & _). destruct (Ho y m0 Hm0) as (? & ? & Hc & ->).
    rewrite uses_cons_other in Hc by done. split_and!; auto.
    assert (Hiff : y ∈ P1 ++ x :: P2 ↔ y ∈ P1 ++ P2) by (clear -Hne; set_solver).
    destruct (decide (y ∈ P1 ++ x :: P2)), (decide (y ∈ P1 ++ P2)); tauto.
  - intros y Hy. assert (y ≠ x) by (by intros ->). pose proof (Hh y ltac:(set_solver)). set_solver.
  - intros y Hy. assert (y ≠ x) by (intros ->; set_solver). pose proof (Hu y ltac:(set_solver)). set_solver.
  - lia.
  - done.
Qed.

(** ** Reading and putting in *)

Lemma file_load_ok mem_ok d s C Pu R held a tl :
  inv s C Pu R held → name_ok a → N a →
  ∃ p s', file_lru_load_from_disk mem_ok d s (a ++ 0 :: tl) (Z.of_nat (length a)) = Ret (p, s') ∧
    lru_size_total s' = lru_size_total s ∧ lru_size_max s' = lru_size_max s ∧
    (∀ y, y ∈ C → objs s' !! y = objs s !! y) ∧
    match p with
    | None => inv s' C Pu R held
    | Some x => inv s' C Pu (x :: R) held ∧ x ∉ C ++ Pu ++ R ∧
        ∃ n, objs s' !! x = Some n ∧ oname n = a ∧ file_data n = d_read d ∧
          (0 < lru_size_max s → file_size n <= lru_size_max s)
    end.
Proof.
  intros Hi [Ha Hla] HN. unfold file_lru_load_from_disk.
  destruct (c_strlen_ends (lru_root_path s)) as [rl Hrl]; [apply (in_env _ _ _ _ _ Hi)|].
  rewrite Hrl, c_strlen_ok by done. cbn [mbind cres_bind].
  destruct (LRU_PATH_MAX <=? _); [by eexists None, s|].
  destruct (d_stat d) as [[mode st]|]; [|by eexists None, s].
  destruct (negb (S_IFREG =? _)); [by eexists None, s|].
  destruct (Z.leb_spec (i32 st) 0) as [|Hsz]; [by eexists None, s|].
  destruct ((0 <? lru_size_max s) && (lru_size_max s <? i32 st)) eqn:Emax; [by eexists None, s|].
  destruct mem_ok; [|by eexists None, s]. cbn [negb]. rewrite name_hash_app. cbn [mbind cres_bind].
  rewrite Nat2Z.id, take_app_length. set (x := fresh (dom (objs s))).
  assert (Hx : objs s !! x = None) by (apply not_elem_of_dom, is_fresh).
  assert (HxO : x ∉ C ++ Pu ++ R).
  { intros Hx'. apply (in_dom _ _ _ _ _ Hi) in Hx'. rewrite Hx in Hx'. by destruct Hx'. }
  assert (Hdel : ∀ n e, inv (lfree x (Lru (<[x := n]> (objs s)) (<[x := e]> (ents s)) (file_lru_rb s)
      (file_lru_list s) (file_lru_purged s) (lru_size_max s) (lru_size_total s) (lru_root_path s)
      (lru_root_path_length s) (lru_bloom_filter s))) C Pu R held).
  { intros n e. unfold lfree. simpl. rewrite delete_insert_id by done.
    destruct Hi as [Hli Hpu (l & Ht & Hl & Hso) Hnd Hd Ho Hh Hu Hf Hb]. split; simpl; try done.
    exists l. split; [|split; [done|done]].
    eapply (rb_holds_frame (tree s)); [|done|exact Ht]. intros y Hy. simpl. rewrite Hl in Hy.
    rewrite lookup_delete_ne, lookup_insert_ne by set_solver. done. }
  assert (Hold : ∀ n y, y ∈ C ++ Pu ++ R → (<[x := n]> (objs s) : gmap loc file_lru_t) !! y = objs s !! y).
  { intros n y Hy. rewrite lookup_insert_ne; [done|]. by intros <-. }
  assert (Hfree : ∀ n y, y ∈ C → delete x (<[x := n]> (objs s) : gmap loc file_lru_t) !! y = objs s !! y).
  { intros n y Hy. rewrite delete_insert_id by done. done. }
  destruct (d_open d); cbn [negb].
  2:{ eexists None, _. split; [done|]. split; [done|]. split; [done|]. split; [apply Hfree|apply Hdel]. }
  destruct (Z.eqb_spec (Z.of_nat (length (d_read d))) (i32 st)) as [Hrd|]; cbn [negb].
  2:{ eexists None, _. split; [done|]. split; [done|]. split; [done|]. split; [apply Hfree|apply Hdel]. }
  set (n := FileLruT _ _ _ _ _ _ _ _ _ _).
  assert (Hn : obj_ok n).
  { split; [done|]. split; [done|]. exists a, (d_read d). pose proof (i32_range st). split_and!; try done; simpl; lia. }
  assert (Hon : oname n = a) by (unfold oname; simpl; by rewrite Nat2Z.id, take_app_length).
  assert (Hxh : x ∉ held). { intros Hxh. apply (in_held _ _ _ _ _ Hi) in Hxh. set_solver. }
  eexists (Some x), _. split; [done|]. split; [done|]. split; [done|].
  split; [intros y Hy; simpl; apply Hold; set_solver|]. split; [|split; [done|]].
  - destruct Hi as [Hli Hpu (l & Ht & Hl & Hso) Hnd Hd Ho Hh Hu Hf Hb]. split; simpl; try done.
    + eapply dlist_rep_agree; [|exact Hli]. intros y Hy. apply Hold. set_solver.
    + eapply dlist_rep_agree; [|exact Hpu]. intros y Hy. apply Hold. set_solver.
    + exists l. split; [|split; [done|]].
      * eapply (rb_holds_frame (tree s)); [|done|exact Ht]. intros y Hy. simpl. rewrite Hl in Hy.
        rewrite lookup_insert_ne by set_solver. done.
      * apply (sorted_frame name_order (key_of (objs s))); [|done]. intros y Hy. unfold key_of.
        rewrite Hold; [done|]. rewrite Hl in Hy. set_solver.
    + eapply (NoDup_perm (x :: C ++ Pu ++ R)); [solve_Permutation|]. by apply NoDup_cons.
    + intros y. rewrite lookup_insert_is_Some, Hd. destruct (decide (x = y)) as [->|]; set_solver.
    + intros y m Hm. destruct (decide (y = x)) as [->|Hne].
      * rewrite lookup_insert_eq in Hm. injection Hm as <-. rewrite Hon. split; [done|]. split; [done|].
        rewrite (proj2 (uses_0 x held) Hxh). split; [done|]. rewrite decide_False by set_solver. done.
      * rewrite lookup_insert_ne in Hm by done. by apply Ho.
  - exists n. simpl. rewrite lookup_insert_eq. split; [done|]. split; [done|]. split.
    + destruct (obj_name n Hn) as (_ & _ & _ & data & Hb & -> & _). simpl in Hb. rewrite Hon in Hb.
      by apply (app_inv_head a) in Hb as [= <-].
    + intros Hm. simpl. destruct (Z.ltb_spec 0 (lru_size_max s)); [|lia].
      destruct (Z.ltb_spec (lru_size_max s) (i32 st)); [done|lia].
Qed.

(** Another caller was faster: its file is used, and moved to the front. *)
Lemma move_front s C1 e C2 Pu R held :
  inv s (C1 ++ e :: C2) Pu R held →
  ∃ s', (s ← leave_list s e; join_list s e) = Ret s' ∧ inv s' (e :: C1 ++ C2) Pu R held ∧
    lru_size_total s' = lru_size_total s ∧ lru_size_max s' = lru_size_max s ∧
    (∀ y, y ∈ R → objs s' !! y = objs s !! y) ∧ ∀ y, key_of (objs s') y = key_of (objs s) y.
Proof.
  intros Hi. unfold leave_list.
  destruct (left_ok _ _ _ _ _ (in_list _ _ _ _ _ Hi)) as (o & q & -> & Hq & Hw). cbn [mbind cres_bind].
  assert (Hout : e ∉ (C1 ++ C2) ++ Pu ++ R ∧ NoDup ((C1 ++ C2) ++ Pu ++ R)).
  { apply NoDup_cons. eapply NoDup_perm; [|exact (in_nodup _ _ _ _ _ Hi)]. solve_Permutation. }
  destruct Hout as [HeO Hnd]. unfold join_list. simpl objs. simpl file_lru_list.
  destruct (linked_facts _ _ _ Hw) as (Hob & Hdm & Hk & Hsz).
  destruct (join_head_ok o q (C1 ++ C2) e Hq) as (o2 & q2 & -> & Hq2 & Hw2); [set_solver| |].
  { apply Hdm, (in_dom _ _ _ _ _ Hi). set_solver. }
  destruct (linked_facts _ _ _ Hw2) as (Hob2 & Hdm2 & Hk2 & Hsz2). cbn [mbind cres_bind].
  assert (Hag : ∀ y, y ∈ Pu ++ R → o2 !! y = objs s !! y).
  { intros y Hy. destruct Hw2 as [_ ->].
    - destruct Hw as [_ ->]; [done|]. intros Hy'. apply NoDup_app in Hnd as (_ & Hd & _). by apply (Hd y).
    - intros [->|Hy']%elem_of_cons; [set_solver|]. apply NoDup_app in Hnd as (_ & Hd & _). by apply (Hd y). }
  eexists. split; [done|]. split; [|split; [done|split; [done|split]]].
  2:{ intros y Hy. apply Hag. set_solver. }
  2:{ intros y. simpl. by rewrite Hk2, Hk. }
  destruct (in_tree _ _ _ _ _ Hi) as (l & Ht & Hl & Hso).
  split; simpl; try done.
  - eapply dlist_rep_agree; [|exact (in_purged _ _ _ _ _ Hi)]. intros y Hy. apply Hag. set_solver.
  - exists l. split; [done|]. split; [rewrite Hl; by rewrite Permutation_middle|].
    apply (sorted_frame name_order (key_of (objs s))); [intros y _; by rewrite Hk2, Hk|done].
  - by apply NoDup_cons.
  - intros y. rewrite Hdm2, Hdm, (in_dom _ _ _ _ _ Hi). clear. set_solver.
  - intros y m Hm. destruct (Hob2 y m Hm) as (m1 & Hm1 & E1), (Hob y m1 Hm1) as (m0 & Hm0 & E0).
    destruct (erase_facts _ _ (eq_trans E1 E0)) as (Ho & -> & -> & -> & _).
    destruct (in_objs _ _ _ _ _ Hi y m0 Hm0) as (? & ?). auto.
  - intros y Hy. pose proof (in_held _ _ _ _ _ Hi y Hy). clear -H. set_solver.
  - apply (in_used _ _ _ _ _ Hi).
  - apply (in_few _ _ _ _ _ Hi).
  - apply (in_env _ _ _ _ _ Hi).
Qed.
Section Insert.
Hypothesis Hnear : near.

(** A file that is not cached yet is put in. *)
Lemma put_in s C Pu R held p n :
  inv s C Pu (p :: R) held → objs s !! p = Some n → (∀ x, x ∈ C → key_of (objs s) x ≠ Some (oname n)) →
  Z.of_nat (S (length held)) < 2 ^ 31 →
  ∃ s', (s ← lput s p (fun p => set_borrow (i32 (borrow_cnt p + 1)) p);
         let s := with_total (i32 (lru_size_total s + file_size n)) s in
         '(_, T) ← RB_INSERT (tree s) (lru_cmp s (file_name_hash n) (file_name_length n) (buf n)) p;
         s ← join_list (with_tree T s) p;
         Ret (Some p, s)) = Ret (Some p, s') ∧
    inv s' (p :: C) Pu R (p :: held) ∧ lru_size_total s' = i32 (lru_size_total s + file_size n) ∧
    lru_size_max s' = lru_size_max s ∧ (∀ y, size_of (objs s') y = size_of (objs s) y) ∧
    key_of (objs s') p = Some (oname n) ∧ file_data <$> objs s' !! p = Some (file_data n).
Proof using Hnear.
  intros Hi Hn Hnew Hf. destruct (in_objs _ _ _ _ _ Hi p n Hn) as (Hok & HN & Hcnt & Hfl).
  destruct (obj_name n Hok) as (Hname & Hlen & Hhash & data & Hbuf & _).
  assert (Hout : p ∉ C ++ Pu ++ R ∧ NoDup (C ++ Pu ++ R)).
  { apply NoDup_cons. eapply NoDup_perm; [|exact (in_nodup _ _ _ _ _ Hi)]. solve_Permutation. }
  destruct Hout as [HpO Hnd].
  assert (Hph : p ∉ held) by (intros Hp; apply (in_held _ _ _ _ _ Hi) in Hp; set_solver).
  rewrite (proj2 (uses_0 p held) Hph) in Hcnt.
  rewrite (lput_ok _ _ _ _ Hn). cbn [mbind cres_bind]. rewrite Hcnt.
  set (n1 := set_borrow (i32 (Z.of_nat 0 + 1)) n). set (o1 := <[p := n1]> (objs s)).
  set (s1 := with_total _ _).
  assert (Hk1 : ∀ y, key_of o1 y = key_of (objs s) y) by (intros y; by apply key_of_borrow).
  destruct (lru_tree_cut Hnear s C Pu (p :: R) held (oname n) data Hi Hname HN) as (A & m & B & Hh & Hp & Hso & Hkc & Hc & Hm).
  destruct m as [y|]; [exfalso; destruct (proj1 (Hm y) eq_refl) as [Hy Hky]; by apply (Hnew y)|].
  simpl in Hh, Hp, Hso, Hkc, Hc.
  assert (Hc1 : cut (lru_cmp s1 (file_name_hash n) (file_name_length n) (buf n)) (A ++ B) A None B).
  { rewrite Hlen, Hhash, Hbuf. eapply cut_ext; [|exact Hc]. intros y Hy. rewrite Hp in Hy.
    unfold lru_cmp, lget, fld. change (objs s1) with o1. unfold o1. rewrite lookup_insert_ne; [done|]. set_solver. }
  destruct (RB_INSERT_new (tree s) _ p _ _ _ Hh Hc1) as (T & E & HT & _).
  { rewrite Hp. set_solver. }
  change (tree s1) with (tree s). rewrite E. cbn [mbind cres_bind]. unfold join_list.
  destruct (join_head_ok o1 (file_lru_list s) C p) as (o2 & q2 & E2 & Hq2 & Hw2).
  { apply inv_borrow_frame; [done|apply (in_list _ _ _ _ _ Hi)]. }
  { set_solver. }
  { unfold o1. rewrite lookup_insert_eq. by eexists. }
  change (objs (with_tree T s1)) with o1. change (file_lru_list (with_tree T s1)) with (file_lru_list s).
  rewrite E2. cbn [mbind cres_bind].
  destruct (linked_facts _ _ _ Hw2) as (Hob2 & Hdm2 & Hk2 & Hsz2).
  eexists. split; [done|]. split; [|split; [done|split; [done|split; [|split]]]].
  2:{ intros y. simpl. rewrite Hsz2. unfold size_of, o1. destruct (decide (y = p)) as [->|Hne].
      - by rewrite lookup_insert_eq, Hn.
      - by rewrite lookup_insert_ne. }
  2:{ simpl. rewrite Hk2, Hk1. unfold key_of. by rewrite Hn. }
  2:{ simpl. assert (Hp2 : is_Some (o2 !! p)) by (apply Hdm2; unfold o1; rewrite lookup_insert_eq; by eexists).
      destruct Hp2 as [n2 Hn2]. rewrite Hn2. simpl. f_equal. destruct (Hob2 p n2 Hn2) as (n0 & Hn0 & E0).
      unfold o1 in Hn0. rewrite lookup_insert_eq in Hn0. injection Hn0 as <-. by apply (erase_facts _ _ E0). }
  split; simpl; try done.
  - eapply dlist_rep_agree; [|exact (in_purged _ _ _ _ _ Hi)]. intros y Hy. destruct Hw2 as [_ ->].
    + unfold o1. rewrite lookup_insert_ne; [done|]. set_solver.
    + intros Hy'. apply elem_of_cons in Hy' as [->|Hy']; [set_solver|].
      apply NoDup_app in Hnd as (_ & Hd & _). apply (Hd y Hy'). set_solver.
  - exists (A ++ p :: B). split; [by destruct T|]. split; [by rewrite <- Hp, Permutation_middle|].
    apply (sorted_frame name_order (key_of (objs s))); [intros y _; by rewrite Hk2, Hk1|].
    eapply sorted_insert; [apply _|done|done|]. unfold key_of. by rewrite Hn.
  - by apply NoDup_cons.
  - intros y. rewrite Hdm2. unfold o1. rewrite lookup_insert_is_Some, (in_dom _ _ _ _ _ Hi).
    clear -HpO. destruct (decide (p = y)) as [->|]; set_solver.
  - intros y m Hm'. destruct (Hob2 y m Hm') as (m0 & Hm0 & Em).
    destruct (erase_facts _ _ Em) as (Ho & -> & -> & -> & _). unfold o1 in Hm0.
    destruct (decide (y = p)) as [->|Hne].
    + rewrite lookup_insert_eq in Hm0. injection Hm0 as <-. rewrite uses_cons_same.
      rewrite (proj2 (uses_0 p held) Hph). split_and!; auto.
    + rewrite lookup_insert_ne in Hm0 by done. rewrite uses_cons_other by done.
      destruct (in_objs _ _ _ _ _ Hi y m0 Hm0) as (? & ? & ? & ?). auto.
  - intros y [->|Hy]%elem_of_cons; [set_solver|]. pose proof (in_held _ _ _ _ _ Hi y Hy). clear -H. set_solver.
  - intros y Hy. pose proof (in_used _ _ _ _ _ Hi y Hy). clear -H. set_solver.
  - apply (in_env _ _ _ _ _ Hi).
Qed.

(** The second part of [file_lru_borrow]. *)
Lemma borrow_insert_ok s C Pu R held p n :
  inv s C Pu (p :: R) held → objs s !! p = Some n → Z.of_nat (S (length held)) < 2 ^ 31 →
  ∃ r s' C' Pu', borrow_insert s p = Ret (r, s') ∧ lru_size_max s' = lru_size_max s ∧
    match r with
    | None => inv s' C' Pu' R held
    | Some x => inv s' C' Pu' R (x :: held) ∧ x ∈ C' ∧ key_of (objs s') x = Some (oname n) ∧
        (x = p ∨ x ∈ C) ∧
        (x = p → file_data <$> objs s' !! x = Some (file_data n) ∧
           (file_size n <= lru_size_max s → counted s C → counted s' C' ∧ tsize (objs s') C' <= lru_size_max s'))
    end.
Proof using Hnear.
  intros Hi Hn Hf. destruct (in_objs _ _ _ _ _ Hi p n Hn) as (Hok & HN & Hcnt & Hfl).
  destruct (obj_name n Hok) as (Hname & Hlen & Hhash & data & Hbuf & _).
  unfold borrow_insert. rewrite (lget_ok _ _ _ _ Hn). cbn [mbind cres_bind id].
  destruct (find_name Hnear s C Pu (p :: R) held (oname n) data Hi Hname HN) as (m & E & Hm).
  rewrite Hlen, Hhash, Hbuf, E. cbn [mbind cres_bind]. destruct m as [e|].
  - destruct (proj1 (Hm e) eq_refl) as [He Hk]. apply list_elem_of_split in He as (C1 & C2 & ->).
    destruct (inv_lookup _ _ _ _ _ e Hi) as [ne Hne]; [set_solver|].
    rewrite (lput_ok _ _ _ _ Hne). cbn [mbind cres_bind].
    pose proof (borrow_one _ _ _ _ _ e ne Hi Hne ltac:(set_solver) Hf) as Hi1.
    destruct (move_front _ _ _ _ _ _ _ Hi1) as (s2 & E2 & Hi2 & _ & Hmx & _ & Hk2).
    apply cres_bind_Ret in E2 as (s1 & -> & E2). cbn [mbind cres_bind]. rewrite E2. cbn [mbind cres_bind].
    pose proof (free_ok _ _ _ _ _ _ Hi2) as Hi3.
    exists (Some e), (lfree p s2), (e :: C1 ++ C2), Pu. split; [done|]. split; [done|]. split; [done|].
    split; [set_solver|]. assert (Hep : e ≠ p).
    { intros ->. pose proof (in_nodup _ _ _ _ _ Hi) as Hnd. apply NoDup_app in Hnd as (_ & Hd & _).
      apply (Hd p); set_solver. }
    split; [|split; [right; set_solver|done]]. unfold key_of at 1. simpl. rewrite lookup_delete_ne by done.
    fold (key_of (objs s2) e). rewrite Hk2. simpl objs. by rewrite key_of_borrow.
  - assert (Hnew : ∀ x, x ∈ C → key_of (objs s) x ≠ Some (oname n)).
    { intros x Hx Hk. discriminate (proj2 (Hm x) (conj Hx Hk)). }
    rewrite <- Hbuf, <- Hhash, <- Hlen.
    assert (Hfs : 0 < file_size n < 2 ^ 31) by (destruct Hok as (_ & _ & ? & ? & _ & _ & _ & _ & _ & ?); lia).
    assert (Hsz : size_of (objs s) p = file_size n) by (unfold size_of; by rewrite Hn).
    (* putting in from any state in which the file is still owned and new *)
    assert (Hput : ∀ s1 C1 Pu1, inv s1 C1 Pu1 (p :: R) held → objs s1 !! p = Some n →
      (∀ x, x ∈ C1 → key_of (objs s1) x ≠ Some (oname n)) → lru_size_max s1 = lru_size_max s →
      (file_size n <= lru_size_max s → counted s C → counted s1 C1 ∧
         (file_size n <= lru_size_max s - lru_size_total s1 ∨ C1 = []) ∧
         lru_size_total s1 + file_size n < 2 ^ 31) →
      ∃ r s' C' Pu', (s ← lput s1 p (fun p => set_borrow (i32 (borrow_cnt p + 1)) p);
         let s := with_total (i32 (lru_size_total s + file_size n)) s in
         '(_, T) ← RB_INSERT (tree s) (lru_cmp s (file_name_hash n) (file_name_length n) (buf n)) p;
         s ← join_list (with_tree T s) p;
         Ret (Some p, s)) = Ret (r, s') ∧ lru_size_max s' = lru_size_max s ∧
        match r with
        | None => inv s' C' Pu' R held
        | Some x => inv s' C' Pu' R (x :: held) ∧ x ∈ C' ∧ key_of (objs s') x = Some (oname n) ∧
            (x = p ∨ x ∈ C) ∧
            (x = p → file_data <$> objs s' !! x = Some (file_data n) ∧
               (file_size n <= lru_size_max s → counted s C →
                  counted s' C' ∧ tsize (objs s') C' <= lru_size_max s'))
        end).
    { intros s1 C1 Pu1 Hi1 Hn1 Hnew1 Hmx1 Hroom.
      destruct (put_in s1 C1 Pu1 R held p n Hi1 Hn1 Hnew1 Hf) as (s' & E' & Hi' & Ht' & Hm' & Hs' & Hd').
      exists (Some p), s', (p :: C1), Pu1. split; [exact E'|]. split; [congruence|]. split; [done|].
      split; [set_solver|]. split; [by apply Hd'|]. split; [by left|]. intros _. split; [by apply Hd'|].
      intros Hfit Hc. destruct (Hroom Hfit Hc) as ([Hc1 Hc2] & Hor & Hov).
      pose proof (tsize_pos _ _ _ _ _ C1 Hi1) as Hpos.
      assert (Htot : lru_size_total s' = lru_size_total s1 + file_size n) by (rewrite Ht'; apply i32_small; lia).
      assert (Hsum : tsize (objs s') (p :: C1) = file_size n + tsize (objs s1) C1).
      { simpl. rewrite Hs'. f_equal; [unfold size_of; by rewrite Hn1|]. apply tsize_ext. auto. }
      rewrite Hsum. unfold counted. rewrite Hsum. destruct Hor as [Hor| ->]; simpl in *; lia. }
    cbv zeta. assert (Hsum : counted s C → ¬ i32 (lru_size_total s + file_size n) < lru_size_total s →
      i32 (lru_size_total s + file_size n) = lru_size_total s + file_size n ∧
      lru_size_total s + file_size n < 2 ^ 31).
    { intros [_ [H1 H2]] Hge. pose proof (tsize_pos _ _ _ _ _ C Hi).
      destruct (decide (lru_size_total s + file_size n < 2 ^ 31)); [by rewrite i32_small by lia|].
      exfalso. apply Hge. unfold i32. replace (lru_size_total s + file_size n + 2 ^ 31)
        with ((lru_size_total s + file_size n - 2 ^ 31) + 1 * 2 ^ 32) by lia.
      rewrite Z.mod_add, Z.mod_small by lia. lia. }
    destruct (Z.leb_spec (lru_size_max s) 0).
    { apply (Hput s C Pu); try done. intros _ [? _]. lia. }
    destruct (Z.ltb_spec (i32 (lru_size_total s + file_size n)) (lru_size_total s)) as [|Hge].
    { exists None, (lfree p s), C, Pu. split; [done|]. split; [done|]. by apply free_ok. }
    apply Z.le_ngt in Hge.
    destruct (Z.ltb_spec (lru_size_max s) (i32 (lru_size_total s + file_size n))) as [Hov|Hfits].
    + destruct (purge_loop_ok (size (objs s)) s C Pu (p :: R) held (file_size n) Hi (list_size _ _ _ _ _ Hi))
        as (s1 & C1 & D & Pu1 & E1 & -> & Hi1 & Hmx1 & HR1 & Hsz1 & Hk1 & Hc1).
      unfold file_lru_purge. rewrite E1. cbn [mbind cres_bind]. apply (Hput s1 C1 Pu1); try done.
      * rewrite HR1; [done|set_solver].
      * intros x Hx. rewrite Hk1 by done. apply Hnew. set_solver.
      * intros _ Hc. destruct (Hc1 Hc) as (Hc2 & Hle & Hor), (Hsum Hc Hge). rewrite <- Hmx1. split; [done|].
        split; [done|lia].
    + apply (Hput s C Pu); try done. intros _ Hc. destruct (Hsum Hc Hge) as [Hn1 Hn2]. split; [done|].
      split; [left; lia|lia].
Qed.
End Insert.
End Inv.
