(* ===== verification/FileLruSteps.v ===== *)
(** * Many callers of the file cache

    [step] runs the parts of the functions of [FileLru] that hold the lock, of any number
    of callers and in any order; [held], [loaded] and [dying] are the pointers the callers
    have.  [file_lru_safe]: from a proper state every reachable state is proper, every
    borrowed file can be read, and no part faults.  [file_lru_borrow_correct] is about one
    caller that is alone, and [file_lru_misses_cached_file] about names that the
    comparison of the code does not order. *)
From S2P Require Import Prelude CString LinkedList RbTree BloomFilter FileLru FileLruInv.

(** ** One caller *)

Lemma strnlen_name a tl : name_ok a →
  c_strnlen (a ++ 0 :: tl) (Z.to_nat LRU_PATH_MAX) = Ret (Z.of_nat (length a)) ∧
  (Z.of_nat (length a) <=? 0) || (LRU_PATH_MAX <=? Z.of_nat (length a)) = false.
Proof.
  intros [Ha Hl]. rewrite c_strnlen_ok by done. change (Z.to_nat LRU_PATH_MAX) with 256%nat.
  rewrite Nat.min_l by lia. split; [done|]. unfold LRU_PATH_MAX.
  destruct (Z.leb_spec (Z.of_nat (length a)) 0), (Z.leb_spec 256 (Z.of_nat (length a))); try lia; done.
Qed.

(** C29: borrowing a file returns, and gives either nothing or a cached file of that name with its
    counter increased.  A file that was not cached carries the data read from disk, and
    when the cache has a size limit the cached files together then keep within it; the
    files dropped for that are freed, or kept for those who borrowed them. *)
Theorem file_lru_borrow_correct N mem_ok d s C Pu R held a tl :
  near N → inv N s C Pu R held → name_ok a → N a → Z.of_nat (S (length held)) < 2 ^ 31 →
  ∃ r s' C' Pu', file_lru_borrow mem_ok d s (a ++ 0 :: tl) = Ret (r, s') ∧
    match r with
    | None => inv N s' C' Pu' R held
    | Some x =>
        inv N s' C' Pu' R (x :: held) ∧ x ∈ C' ∧ key_of (objs s') x = Some a ∧
        (x ∈ C ∨ file_data <$> objs s' !! x = Some (d_read d) ∧
           (counted s C → counted s' C' ∧ tsize (objs s') C' <= lru_size_max s'))
    end.
Proof.
  intros Hnear Hi Ha HN Hf. unfold file_lru_borrow.
  destruct (strnlen_name a tl Ha) as [-> El]. cbn [mbind cres_bind]. rewrite El.
  destruct (borrow_lookup_ok N Hnear s C Pu R held a tl Hi Ha HN Hf) as (r & s1 & -> & Hr). cbn [mbind cres_bind].
  destruct r as [|x|].
  - subst s1. by exists None, s, C, Pu.
  - destruct Hr as (Hx & Hk & Hi1). exists (Some x), s1, C, Pu. split; [done|]. split; [done|]. split; [done|].
    split; [done|by left].
  - destruct Hr as [-> Hnew].
    destruct (file_load_ok N mem_ok d s C Pu R held a tl Hi Ha HN) as (p & s2 & -> & Ht & Hm & Hsame & Hp).
    cbn [mbind cres_bind]. destruct p as [p|]; [|by exists None, s2, C, Pu].
    destruct Hp as (Hi2 & Hfresh & n & Hn & Hon & Hdata & Hfit).
    destruct (borrow_insert_ok N Hnear s2 C Pu R held p n Hi2 Hn Hf) as (r & s' & C' & Pu' & E & Hmx & Hr).
    exists r, s', C', Pu'. split; [done|]. destruct r as [x|]; [|done].
    destruct Hr as (Hi' & HxC & Hk & Hor & Hx). rewrite Hon in Hk. split; [done|]. split; [done|]. split; [done|].
    destruct Hor as [->|HxC0]; [right|by left]. destruct (Hx eq_refl) as [Hd Hc]. rewrite Hdata in Hd.
    split; [done|]. intros [Hmax Htot]. apply Hc; [rewrite Hm; apply Hfit; lia|]. split; [by rewrite Hm|].
    rewrite Ht, (tsize_ext (objs s)); [done|]. intros y Hy. unfold size_of. by rewrite Hsame.
Qed.

(** ** Many callers *)

(** The cache and what the callers have: the files borrowed (once for every time), those
    read from disk and not yet put in, and those taken out and not yet freed. *)
Record sys := Sys { st : lru; held : list loc; loaded : list loc; dying : list loc }.

Definition few (h : list loc) : Prop := Z.of_nat (S (length h)) < 2 ^ 31.

Section Steps.
Context (N : list Z → Prop).

Inductive step : sys → sys → Prop :=
| step_lookup s h l d a tl r s' :
    name_ok a → N a → few h →
    borrow_lookup s (a ++ 0 :: tl) (Z.of_nat (length a)) = Ret (r, s') →
    step (Sys s h l d) (Sys s' (match r with Found x => x :: h | _ => h end) l d)
| step_load s h l d mem_ok dk a tl p s' :
    name_ok a → N a →
    file_lru_load_from_disk mem_ok dk s (a ++ 0 :: tl) (Z.of_nat (length a)) = Ret (p, s') →
    step (Sys s h l d) (Sys s' h (option_list p ++ l) d)
| step_insert s h l1 p l2 d r s' :
    few h → borrow_insert s p = Ret (r, s') →
    step (Sys s h (l1 ++ p :: l2) d) (Sys s' (option_list r ++ h) (l1 ++ l2) d)
| step_return s h1 x h2 l d s' :
    file_lru_return s (Some x) = Ret s' →
    step (Sys s (h1 ++ x :: h2) l d) (Sys s' (h1 ++ h2) l d)
| step_purge s h l d p s' :
    purge_first s = Ret (p, s') → step (Sys s h l d) (Sys s' h l (option_list p ++ d))
| step_free s h l d1 x d2 :
    step (Sys s h l (d1 ++ x :: d2)) (Sys (lfree x s) h l (d1 ++ d2))
| step_setup s h l d stat r len mx b s' :
    file_lru_setup stat s r len mx = Ret (b, s') → step (Sys s h l d) (Sys s' h l d)
| step_new_filter s h l d mem_ok paths s' :
    file_lru_update_bloom_filter mem_ok s paths = Ret s' → step (Sys s h l d) (Sys s' h l d)
| step_no_filter s h l d : step (Sys s h l d) (Sys (file_lru_remove_bloom_filter s) h l d).

Definition proper (σ : sys) : Prop := ∃ C Pu, inv N (st σ) C Pu (loaded σ ++ dying σ) (held σ).

(** A change of the settings. *)
Lemma inv_env s s' C Pu R h :
  inv N s C Pu R h → objs s' = objs s → ents s' = ents s → file_lru_rb s' = file_lru_rb s →
  file_lru_list s' = file_lru_list s → file_lru_purged s' = file_lru_purged s → env_ok s' →
  inv N s' C Pu R h.
Proof.
  intros [? ? Ht ? ? ? ? ? ? ?] E1 E2 E3 E4 E5 He. split; rewrite ?E1, ?E4, ?E5; try done.
  unfold tree. by rewrite E2, E3.
Qed.

(** One path for a new filter: with a root path that is not too long it returns. *)
Lemma enumerator_ok s path bf :
  filter_ok bf →
  (∀ bf', file_lru_file_enumerators_cb s path (Z.of_nat (length path)) bf = Ret bf' → filter_ok bf') ∧
  (0 <= lru_root_path_length s → ∃ bf', file_lru_file_enumerators_cb s path (Z.of_nat (length path)) bf = Ret bf').
Proof.
  intros Hbf. unfold file_lru_file_enumerators_cb.
  destruct (Z.leb_spec (Z.of_nat (length path)) (lru_root_path_length s)) as [|Hl]; [by split; [intros bf' [= <-]|eauto]|].
  destruct (Z.ltb_spec (lru_root_path_length s) 0); [split; [done|lia]|].
  destruct bf as [f|]; [|by split; [intros bf' [= <-]|eauto]].
  destruct (Hbf f eq_refl) as [ps Hps]. unfold path_bloom_filter_add_path2.
  set (q := drop (Z.to_nat (lru_root_path_length s)) path).
  assert (Hq : Z.of_nat (length path) - lru_root_path_length s = Z.of_nat (length q))
    by (unfold q; rewrite length_drop; lia).
  rewrite Hq. destruct (Z.ltb_spec 0 (Z.of_nat (length q))); [|lia].
  destruct (add_path_ok f ps q [] Hps) as (f' & E' & Hf'). rewrite app_nil_r in E'. rewrite E'. simpl.
  split; [intros bf' [= <-] f'' [= <-]; eauto|eauto].
Qed.

Lemma enumerate_ok s paths acc bf :
  (∀ bf, acc = Ret bf → filter_ok bf) →
  foldl (fun r path => bf ← r; file_lru_file_enumerators_cb s path (Z.of_nat (length path)) bf) acc paths
    = Ret bf → filter_ok bf.
Proof.
  revert acc. induction paths as [|path paths IH]; intros acc Hacc; simpl; [by apply Hacc|].
  apply IH. intros bf' E. apply cres_bind_Ret in E as (bf0 & E0 & E). eapply enumerator_ok; [|exact E]. by apply Hacc.
Qed.

(** A new filter can be made, below a root path of less than 128 characters. *)
Lemma update_filter_returns mem_ok s paths :
  0 <= lru_root_path_length s → ∃ s', file_lru_update_bloom_filter mem_ok s paths = Ret s'.
Proof.
  intros Hlen. unfold file_lru_update_bloom_filter. destruct (path_bloom_filter_new mem_ok) as [f|] eqn:Enew; [|eauto].
  assert (Hf : filter_ok (Some f)) by (intros f' [= <-]; exists []; destruct mem_ok; [|done]; by apply represents_new).
  clear Enew. revert f Hf. enough (Hgo : ∀ bf, filter_ok bf → ∃ bf', foldl (fun r path => bf ← r;
    file_lru_file_enumerators_cb s path (Z.of_nat (length path)) bf) (Ret bf) paths = Ret bf').
  { intros f Hf. destruct (Hgo _ Hf) as [bf' E]. rewrite E. eexists. reflexivity. }
  induction paths as [|path paths IH]; intros bf Hbf; simpl; [eauto|]. destruct (enumerator_ok s path bf Hbf) as [H1 H2].
  destruct (H2 Hlen) as [bf' E]. cbn [mbind cres_bind]. rewrite E. apply IH. by apply H1.
Qed.

Lemma step_proper σ σ' : near N → proper σ → step σ σ' → proper σ'.
Proof.
  intros Hnear (C & Pu & Hi) Hs. unfold proper.
  destruct Hs as [s h l d a tl r s' Ha HN Hf E|s h l d mem_ok dk a tl p s' Ha HN E|s h l1 p l2 d r s' Hf E
    |s h1 x h2 l d s' E|s h l d p s' E|s h l d1 x d2|s h l d stat r len mx b s' E|s h l d mem_ok paths s' E
    |s h l d]; cbn [st held loaded dying] in *.
  - destruct (borrow_lookup_ok N Hnear s C Pu (l ++ d) h a tl Hi Ha HN Hf) as (r0 & s0 & E0 & Hr).
    rewrite E in E0. injection E0 as <- <-. exists C, Pu. destruct r; [by subst s'|apply Hr|by destruct Hr as [-> _]].
  - destruct (file_load_ok N mem_ok dk s C Pu (l ++ d) h a tl Hi Ha HN) as (p0 & s0 & E0 & _ & _ & _ & Hp).
    rewrite E in E0. injection E0 as <- <-. exists C, Pu. destruct p; [by destruct Hp|done].
  - apply (inv_perm N s C Pu _ (p :: (l1 ++ l2) ++ d) h h) in Hi; [|solve_Permutation|done].
    destruct (inv_lookup _ _ _ _ _ _ p Hi) as [n Hn]; [set_solver|].
    destruct (borrow_insert_ok N Hnear s C Pu _ h p n Hi Hn Hf) as (r0 & s0 & C' & Pu' & E0 & _ & Hr).
    rewrite E in E0. injection E0 as <- <-. exists C', Pu'. destruct r; [by destruct Hr|done].
  - apply (inv_perm N s C Pu _ (l ++ d) _ (x :: h1 ++ h2)) in Hi; [|done|solve_Permutation].
    destruct (return_ok N s C Pu _ _ x Hi) as (s0 & Pu' & E0 & Hi' & _). rewrite E in E0. injection E0 as <-.
    by exists C, Pu'.
  - destruct (purge_first_ok N s C Pu (l ++ d) h Hi) as (p0 & s0 & E0 & Hp). rewrite E in E0. injection E0 as <- <-.
    destruct C as [|x C]; [destruct Hp as [-> ->]; by exists [], Pu|]. destruct Hp as [_ Hp].
    destruct p as [y|]; simpl.
    + destruct Hp as [-> Hp]. exists C, Pu. eapply inv_perm; [|done|exact Hp]. solve_Permutation.
    + by exists C, (x :: Pu).
  - exists C, Pu. apply free_ok. eapply inv_perm; [|done|exact Hi]. solve_Permutation.
  - exists C, Pu. unfold file_lru_setup in E. destruct r as [r|]; [|injection E as <- <-; done].
    case_match; [injection E as <- <-; done|]. case_decide; [done|].
    destruct stat as [mode|]; [|injection E as <- <-; done]. case_match; injection E as <- <-; [done|].
    eapply inv_env; [exact Hi|done..|]. split; [apply (in_env _ _ _ _ _ _ Hi)|]. simpl. unfold ow. set_solver.
  - exists C, Pu. unfold file_lru_update_bloom_filter in E.
    destruct (path_bloom_filter_new mem_ok) as [f|] eqn:Enew; [|injection E as <-; done].
    apply cres_bind_Ret in E as (bf & E & Es). injection Es as <-.
    eapply inv_env; [exact Hi|done..|]. split; [|apply (in_env _ _ _ _ _ _ Hi)]. simpl.
    eapply enumerate_ok; [|exact E]. intros bf' [= <-] f' [= <-]. exists []. destruct mem_ok; [|done].
    by apply represents_new.
  - exists C, Pu. eapply inv_env; [exact Hi|done..|]. split; [by intros f [=]|]. apply (in_env _ _ _ _ _ _ Hi).
Qed.

(** A borrowed file can be read. *)
Lemma held_readable s C Pu R h x :
  inv N s C Pu R h → x ∈ h →
  ∃ n, objs s !! x = Some n ∧
    file_lru_get_data s (Some x) true = Ret (ESQ_OK, Some (file_data n, Z.of_nat (length (file_data n)))).
Proof.
  intros Hi Hx. pose proof (in_held _ _ _ _ _ _ Hi x Hx) as HxC.
  destruct (inv_lookup _ _ _ _ _ _ x Hi) as [n Hn]; [set_solver|]. exists n. split; [done|].
  destruct (in_objs _ _ _ _ _ _ Hi x n Hn) as (Hok & _).
  destruct (obj_name n Hok) as (_ & _ & _ & data & _ & Hd & Hs). destruct Hok as (Hm & _).
  unfold file_lru_get_data. cbn [negb]. rewrite (lget_ok _ _ _ _ Hn). cbn [mbind cres_bind id].
  by rewrite Hm, Z.eqb_refl, Hs, Hd.
Qed.

Lemma steps_proper σ σ' : near N → proper σ → rtc step σ σ' → proper σ'.
Proof. intros Hnear Hp Hs. induction Hs as [|σ σ1 σ2 H1 H2 IH]; [done|]. apply IH. by eapply step_proper. Qed.

(** C28: whatever the callers do and in whatever order, with names of 1 to 255
    characters whose hashes are less than 2^31 apart and fewer than 2^31 - 1 borrowed files at a time, the cache stays proper: it has
    exactly the files that are cached, waiting for their borrowers, or in the hands of one
    caller (nothing leaks); a file someone has borrowed is there, can be read and returned; and
    looking up, loading, inserting and purging a file never fault.  Making a new filter does
    not fault either when the length of the root path, kept in a signed char, is not
    negative. *)
Theorem file_lru_safe σ0 σ :
  near N → proper σ0 → rtc step σ0 σ →
  proper σ ∧
  (∀ x, x ∈ held σ → ∃ n s', objs (st σ) !! x = Some n ∧
     file_lru_get_data (st σ) (Some x) true
       = Ret (ESQ_OK, Some (file_data n, Z.of_nat (length (file_data n)))) ∧
     file_lru_return (st σ) (Some x) = Ret s') ∧
  (∃ p s', purge_first (st σ) = Ret (p, s')) ∧
  (∀ mem_ok dk a tl, name_ok a → N a →
     ∃ p s', file_lru_load_from_disk mem_ok dk (st σ) (a ++ 0 :: tl) (Z.of_nat (length a)) = Ret (p, s')) ∧
  (∀ mem_ok paths, 0 <= lru_root_path_length (st σ) → ∃ s', file_lru_update_bloom_filter mem_ok (st σ) paths = Ret s') ∧
  (few (held σ) →
     (∀ p, p ∈ loaded σ → ∃ r s', borrow_insert (st σ) p = Ret (r, s')) ∧
     (∀ a tl, name_ok a → N a →
        ∃ r s', borrow_lookup (st σ) (a ++ 0 :: tl) (Z.of_nat (length a)) = Ret (r, s'))).
Proof.
  intros Hnear H0 Hs. pose proof (steps_proper _ _ Hnear H0 Hs) as Hp. split; [done|].
  destruct Hp as (C & Pu & Hi). split_and!; [| | |intros mem_ok paths; apply update_filter_returns|].
  - intros x Hx. destruct (held_readable _ _ _ _ _ x Hi Hx) as (n & Hn & E). exists n.
    apply list_elem_of_split in Hx as (h1 & h2 & Eh). rewrite Eh in Hi.
    apply (inv_perm N _ _ _ _ (loaded σ ++ dying σ) _ (x :: h1 ++ h2)) in Hi; [|done|solve_Permutation].
    destruct (return_ok N _ _ _ _ _ x Hi) as (s' & _ & E' & _). eauto.
  - destruct (purge_first_ok N _ _ _ _ _ Hi) as (p & s' & E & _). eauto.
  - intros mem_ok dk a tl Ha HN. destruct (file_load_ok N mem_ok dk (st σ) C Pu _ _ a tl Hi Ha HN) as (p & s' & E & _). eauto.
  - intros Hf. split.
    + intros p Hp. apply list_elem_of_split in Hp as (l1 & l2 & El). rewrite El in Hi.
      apply (inv_perm N _ _ _ _ (p :: (l1 ++ l2) ++ dying σ) _ (held σ)) in Hi; [|solve_Permutation|done].
      destruct (inv_lookup _ _ _ _ _ _ p Hi) as [n Hn]; [set_solver|].
      destruct (borrow_insert_ok N Hnear _ _ _ _ _ p n Hi Hn Hf) as (r & s' & _ & _ & E & _). eauto.
    + intros a tl Ha HN. destruct (borrow_lookup_ok N Hnear _ _ _ _ _ a tl Hi Ha HN Hf) as (r & s' & E & _). eauto.
Qed.
End Steps.

(** ** Examples *)

Module Demo.
Definition path0 : list Z := [46; 47; 0].

(** An empty cache of the given size. *)
Definition start (mx : Z) : lru := Lru ∅ ∅ None dlist_empty dlist_empty mx 0 path0 2 None.

Definition N (a : list Z) : Prop := 0 <= name_hash a.

Lemma demo_near : near N.
Proof.
  intros a b Ha Hb. unfold N, name_hash in *.
  assert (H : ∀ c, 0 <= ret_of (file_lru_name_hash c (Z.of_nat (length c))) 0 →
    ret_of (file_lru_name_hash c (Z.of_nat (length c))) 0 < 2 ^ 31).
  { intros c _. unfold file_lru_name_hash. destruct (hash_loop _ _ _ _); simpl; try lia. apply i32_range. }
  pose proof (H a Ha). pose proof (H b Hb). lia.
Qed.

Lemma start_inv mx : inv N (start mx) [] [] [] [].
Proof.
  split; simpl; try done; try set_solver.
  - apply dlist_rep_empty.
  - apply dlist_rep_empty.
  - exists []. split; [apply (holds_init (Rb None ∅))|]. split; [done|constructor].
  - constructor.
  - intros x. rewrite lookup_empty. split; [by intros []|set_solver].
  - split; [by intros f [=]|]. simpl. set_solver.
Qed.

(** The name "ab" and a file of three bytes. *)
Definition ab : list Z := [97; 98].
Definition file : disk := Disk (Some (0x81a4, 3)) true [1; 2; 3].

(** The cache knows the path. *)
Definition filled (names : list (list Z)) (s : lru) : lru :=
  ret_of (file_lru_update_bloom_filter true s ((fun a => [46; 47] ++ a) <$> names)) s.
End Demo.

Lemma file_lru_borrow_correct_witness :
  ∃ r s' C' Pu', file_lru_borrow true Demo.file (Demo.filled [Demo.ab] (Demo.start 10)) (Demo.ab ++ [0])
    = Ret (r, s') ∧ r = Some 1%positive ∧ inv Demo.N s' C' Pu' [] [1%positive].
Proof.
  assert (Hi : inv Demo.N (Demo.filled [Demo.ab] (Demo.start 10)) [] [] [] []).
  { destruct (step_proper Demo.N (Sys (Demo.start 10) [] [] []) (Sys (Demo.filled [Demo.ab] (Demo.start 10)) [] [] []))
      as (C & Pu & Hi).
    - apply Demo.demo_near.
    - exists [], []. apply Demo.start_inv.
    - apply (step_new_filter _ _ _ _ _ true [[46; 47; 97; 98]]). reflexivity.
    - pose proof (in_list _ _ _ _ _ _ Hi) as (H1 & _). pose proof (in_purged _ _ _ _ _ _ Hi) as (H2 & _).
      destruct C; [|discriminate H1]. destruct Pu; [exact Hi|discriminate H2]. }
  destruct (file_lru_borrow_correct Demo.N true Demo.file _ [] [] [] [] Demo.ab [] Demo.demo_near Hi)
    as (r & s' & C' & Pu' & E & Hr).
  - split; [repeat constructor|simpl; lia].
  - vm_compute. discriminate.
  - reflexivity.
  - exists r, s', C', Pu'. split; [exact E|].
    assert (Er : r = Some 1%positive) by (vm_compute in E; injection E as <- _; reflexivity).
    split; [exact Er|]. rewrite Er in Hr. apply Hr.
Defined.

Lemma file_lru_safe_witness :
  proper Demo.N (Sys (Demo.filled [Demo.ab] (Demo.start 10)) [] [] []).
Proof.
  apply (file_lru_safe Demo.N (Sys (Demo.start 10) [] [] [])).
  - apply Demo.demo_near.
  - exists [], []. apply Demo.start_inv.
  - eapply rtc_l; [|apply rtc_refl]. apply (step_new_filter _ _ _ _ _ true [[46; 47; 97; 98]]). reflexivity.
Defined.

(** ** Names that are not ordered *)

(** Three names of which each is after the next, around in a circle. *)
Lemma name_cmp_cycle :
  let len a := Z.of_nat (length a) in
  let o a := FileLruT 0 0 0 (name_hash a) (len a) 1 None None 0 (a ++ [0]) in
  let cmp a b := file_lru_name_cmp (name_hash a) (len a) (a ++ [0]) (o b) in
  let a := [97; 97; 123; 124] in let b := [97; 97; 83; 84] in let c := [97; 97; 57] in
  ∃ x y z, cmp a b = Ret x ∧ cmp b c = Ret y ∧ cmp c a = Ret z ∧ 0 < x ∧ 0 < y ∧ 0 < z.
Proof. eexists _, _, _. repeat split; vm_compute; reflexivity. Qed.

Module Lost.
(** Eight files of a page, of which the third is asked for again. *)
Definition names : list (list Z) := [[97; 97; 112; 112]; [97; 97; 95; 95]; [97; 97; 94]; [97; 97; 66; 66]; [97; 97; 75; 75]; [97; 97; 79; 80]; [97; 97; 100; 101]; [97; 97; 75; 76]].
Definition lost : list Z := [97; 97; 94].

Fixpoint borrow_all (l : list (list Z)) (s : lru) : cres lru :=
  match l with
  | [] => Ret s
  | a :: l =>
      '(p, s) ← file_lru_borrow true Demo.file s (a ++ [0]);
      match p with Some _ => borrow_all l s | None => Fault end
  end.

(** The names in the tree, last first. *)
Definition cached (s : lru) : cres (list (list Z)) :=
  RB_FOREACH (tree s) (fun acc x => a ← lget s x oname; Ret (a :: acc)) [].
End Lost.

(** A file that is cached can be missed: the hashes of names are compared by the sign of their
    32-bit difference, which is no order, and after eight files have been borrowed the
    third of them, which is in the tree, is not found, so that it would be read again and
    put in a second time. *)
Theorem file_lru_misses_cached_file :
  ∃ s cached, Lost.borrow_all Lost.names (Demo.filled Lost.names (Demo.start 4096)) = Ret s ∧
    Lost.cached s = Ret cached ∧ Lost.lost ∈ cached ∧
    borrow_lookup s (Lost.lost ++ [0]) 3 = Ret (Missed, s).
Proof.
  eexists _, _. split; [vm_compute; reflexivity|]. split; [vm_compute; reflexivity|].
  split; [|vm_compute; reflexivity]. repeat (first [apply list_elem_of_here | apply list_elem_of_further]).
Qed.
