(* ===== verification/Session.v ===== *)
(** * Sessions: the data and the lists of the event core

    A session is the object the event core schedules ([session/internal.h]).  Every
    worker thread owns a context ([session/core_ctx.h]) with the lists its sessions
    wait in: the active list, five lists by length of timeout, and a list of sessions
    not yet picked up; one more such list is shared by all workers.  This file has the
    records of both, the store they live in, the list operations of
    [session/timing.c] and [session/worker.c] and the calls of [session/os_events.c],
    then the assertion language the proofs about the state machines use. *)
From S2P Require Import Prelude LinkedList.
Open Scope Z_scope.

(** ** Constants of [public/esq.h] and [session/internal.h] *)
Definition ESQ_OK : Z := 0.
Definition ESQ_ERROR_PARAM : Z := -1.
Definition ESQ_ERROR_MEMORY : Z := -2.
Definition ESQ_ERROR_CLOSE : Z := -7.
Definition ESQ_ERROR_BUSY : Z := -9.
Definition ESQ_ERROR_DEAD_LOCK : Z := -10.

Definition ESQ_EVENT_BIT_FD_CLOSE : Z := 0x01.
Definition ESQ_EVENT_BIT_ERROR : Z := 0x02.
Definition ESQ_EVENT_BIT_TIMEOUT : Z := 0x04.
Definition ESQ_EVENT_BIT_READ : Z := 0x08.
Definition ESQ_EVENT_BIT_WRITE : Z := 0x10.
Definition ESQ_EVENT_BIT_LOCK_OBTAIN : Z := 0x20.
Definition ESQ_EVENT_BIT_TASK_DONE : Z := 0x40.
Definition ESQ_EVENT_BIT_EXIT : Z := 0x80.

Definition ESQ_SESSION_MAGIC : Z := 0x1a1a8e8e.
Definition ESQ_SESSION_HASH_LOCK_READ : Z := 0.
Definition ESQ_SESSION_HASH_LOCK_WRITE : Z := 1.

Definition ESQ_SESSION_TYPE_NEW : Z := 0.
Definition ESQ_SESSION_TYPE_SOCKET_CB : Z := 1.
Definition ESQ_SESSION_TYPE_MULTI_SOCKET_CB : Z := 2.
Definition ESQ_SESSION_TYPE_MCO : Z := 3.
Definition ESQ_SESSION_TYPE_NO_FD : Z := 4.
Definition ESQ_SESSION_TYPE_WAIT_FOR_HASH_LOCK : Z := 5.

Definition POP_NO_OP : Z := 0.
Definition POP_FREE_SESSION : Z := 0x01.
Definition POP_SWITCH_SESSION_TYPE : Z := 0x02.
Definition POP_RETURN_VALUE : Z := 0x04.
Definition POP_JOIN_GLOBAL_NEW_LIST : Z := 0x08.
Definition POP_JOIN_LOCAL_NEW_LIST : Z := 0x10.

(** The requests a session can be given. *)
Inductive action_type :=
| ACTION_NO
| ACTION_WIND_UP
| ACTION_WIND_UP_RR
| ACTION_PICK_UP
| ACTION_SET_PARENT
| ACTION_ADD_CHILD
| ACTION_ADD_SOCK_FD_MULTI
| ACTION_ADD_SOCK_FD_SINGLE
| ACTION_MCO_SERVICE_FINISH
| ACTION_REMOVE_FD
| ACTION_NOTIFY_EVENT
| ACTION_NOTIFY_AIO_REMOVED
| ACTION_NOTIFY_TIMEOUT
| ACTION_NOTIFY_EXIT
| ACTION_EXECUTE_CB
| ACTION_HASH_LOCK_READ
| ACTION_HASH_LOCK_WRITE.

#[export] Instance action_type_eq_dec : EqDecision action_type.
Proof. solve_decision. Defined.

(** [esq_session_pt_action_t]; the fields the session machines read. *)
Record action := Action {
  a_type : action_type;
  a_fd : Z;
  a_exp_event_bits : Z;
  a_notify_event_bits : Z;
  a_timeouts : Z;
  a_timeoutms : Z;
  a_cb : ptr;
  a_user_param : ptr;
  a_hash_lock_idx : Z
}.

(** ** The session object *)

(** A pointer to an [esq_hash_lock_ctx_t]: entry [i < 3] of the array inside the
    session at [l], or, with [i = 3], a block of its own at [l]. *)
Abbreviation hptr := (positive * nat)%type.

(** [esq_session_t] without [name] and [state], which only messages print, and without
    the [hash_lock_ctx] array, whose entries are objects of their own below. *)
Record session := Session {
  s_magic0 : Z;
  s_magic1 : Z;
  s_session_type : Z;
  s_post_op : Z;
  s_hash_lock_state : Z;
  s_hash_lock_idx : Z;
  s_hash_lock_ctx_list : option hptr;
  s_have_parent_session : bool;
  s_exp_event_bits : Z;
  s_event_bits : Z;
  s_event_bits2 : Z;
  s_timeouts : Z;
  s_timeoutms : Z;
  s_fd : Z;
  s_lc : Z;
  s_wind_up_s : Z;
  s_wind_up_ms : Z;
  s_r : Z;
  s_cb : ptr;
  s_user_param : ptr;
  s_mco : ptr;
  s_next : ptr;
  s_prev : ptr;
  s_parent_session : ptr;
  s_next_child : ptr;
  s_child_session_list : ptr;
  s_finished_child_session_list : ptr;
  s_session_done_cb : ptr
}.

Definition set_magic0 (v : Z) (s : session) : session :=
  Session v (s_magic1 s) (s_session_type s) (s_post_op s) (s_hash_lock_state s)
  (s_hash_lock_idx s) (s_hash_lock_ctx_list s) (s_have_parent_session s) (s_exp_event_bits s)
  (s_event_bits s) (s_event_bits2 s) (s_timeouts s) (s_timeoutms s) (s_fd s) (s_lc s)
  (s_wind_up_s s) (s_wind_up_ms s) (s_r s) (s_cb s) (s_user_param s) (s_mco s) (s_next s)
  (s_prev s) (s_parent_session s) (s_next_child s) (s_child_session_list s)
  (s_finished_child_session_list s) (s_session_done_cb s).
Definition set_magic1 (v : Z) (s : session) : session :=
  Session (s_magic0 s) v (s_session_type s) (s_post_op s) (s_hash_lock_state s)
  (s_hash_lock_idx s) (s_hash_lock_ctx_list s) (s_have_parent_session s) (s_exp_event_bits s)
  (s_event_bits s) (s_event_bits2 s) (s_timeouts s) (s_timeoutms s) (s_fd s) (s_lc s)
  (s_wind_up_s s) (s_wind_up_ms s) (s_r s) (s_cb s) (s_user_param s) (s_mco s) (s_next s)
  (s_prev s) (s_parent_session s) (s_next_child s) (s_child_session_list s)
  (s_finished_child_session_list s) (s_session_done_cb s).
Definition set_session_type (v : Z) (s : session) : session :=
  Session (s_magic0 s) (s_magic1 s) v (s_post_op s) (s_hash_lock_state s) (s_hash_lock_idx s)
  (s_hash_lock_ctx_list s) (s_have_parent_session s) (s_exp_event_bits s) (s_event_bits s)
  (s_event_bits2 s) (s_timeouts s) (s_timeoutms s) (s_fd s) (s_lc s) (s_wind_up_s s)
  (s_wind_up_ms s) (s_r s) (s_cb s) (s_user_param s) (s_mco s) (s_next s) (s_prev s)
  (s_parent_session s) (s_next_child s) (s_child_session_list s)
  (s_finished_child_session_list s) (s_session_done_cb s).
Definition set_post_op (v : Z) (s : session) : session :=
  Session (s_magic0 s) (s_magic1 s) (s_session_type s) v (s_hash_lock_state s)
  (s_hash_lock_idx s) (s_hash_lock_ctx_list s) (s_have_parent_session s) (s_exp_event_bits s)
  (s_event_bits s) (s_event_bits2 s) (s_timeouts s) (s_timeoutms s) (s_fd s) (s_lc s)
  (s_wind_up_s s) (s_wind_up_ms s) (s_r s) (s_cb s) (s_user_param s) (s_mco s) (s_next s)
  (s_prev s) (s_parent_session s) (s_next_child s) (s_child_session_list s)
  (s_finished_child_session_list s) (s_session_done_cb s).
Definition set_hash_lock_state (v : Z) (s : session) : session :=
  Session (s_magic0 s) (s_magic1 s) (s_session_type s) (s_post_op s) v (s_hash_lock_idx s)
  (s_hash_lock_ctx_list s) (s_have_parent_session s) (s_exp_event_bits s) (s_event_bits s)
  (s_event_bits2 s) (s_timeouts s) (s_timeoutms s) (s_fd s) (s_lc s) (s_wind_up_s s)
  (s_wind_up_ms s) (s_r s) (s_cb s) (s_user_param s) (s_mco s) (s_next s) (s_prev s)
  (s_parent_session s) (s_next_child s) (s_child_session_list s)
  (s_finished_child_session_list s) (s_session_done_cb s).
Definition set_hash_lock_idx (v : Z) (s : session) : session :=
  Session (s_magic0 s) (s_magic1 s) (s_session_type s) (s_post_op s) (s_hash_lock_state s) v
  (s_hash_lock_ctx_list s) (s_have_parent_session s) (s_exp_event_bits s) (s_event_bits s)
  (s_event_bits2 s) (s_timeouts s) (s_timeoutms s) (s_fd s) (s_lc s) (s_wind_up_s s)
  (s_wind_up_ms s) (s_r s) (s_cb s) (s_user_param s) (s_mco s) (s_next s) (s_prev s)
  (s_parent_session s) (s_next_child s) (s_child_session_list s)
  (s_finished_child_session_list s) (s_session_done_cb s).
Definition set_hash_lock_ctx_list (v : option hptr) (s : session) : session :=
  Session (s_magic0 s) (s_magic1 s) (s_session_type s) (s_post_op s) (s_hash_lock_state s)
  (s_hash_lock_idx s) v (s_have_parent_session s) (s_exp_event_bits s) (s_event_bits s)
  (s_event_bits2 s) (s_timeouts s) (s_timeoutms s) (s_fd s) (s_lc s) (s_wind_up_s s)
  (s_wind_up_ms s) (s_r s) (s_cb s) (s_user_param s) (s_mco s) (s_next s) (s_prev s)
  (s_parent_session s) (s_next_child s) (s_child_session_list s)
  (s_finished_child_session_list s) (s_session_done_cb s).
Definition set_have_parent_session (v : bool) (s : session) : session :=
  Session (s_magic0 s) (s_magic1 s) (s_session_type s) (s_post_op s) (s_hash_lock_state s)
  (s_hash_lock_idx s) (s_hash_lock_ctx_list s) v (s_exp_event_bits s) (s_event_bits s)
  (s_event_bits2 s) (s_timeouts s) (s_timeoutms s) (s_fd s) (s_lc s) (s_wind_up_s s)
  (s_wind_up_ms s) (s_r s) (s_cb s) (s_user_param s) (s_mco s) (s_next s) (s_prev s)
  (s_parent_session s) (s_next_child s) (s_child_session_list s)
  (s_finished_child_session_list s) (s_session_done_cb s).
Definition set_exp_event_bits (v : Z) (s : session) : session :=
  Session (s_magic0 s) (s_magic1 s) (s_session_type s) (s_post_op s) (s_hash_lock_state s)
  (s_hash_lock_idx s) (s_hash_lock_ctx_list s) (s_have_parent_session s) v (s_event_bits s)
  (s_event_bits2 s) (s_timeouts s) (s_timeoutms s) (s_fd s) (s_lc s) (s_wind_up_s s)
  (s_wind_up_ms s) (s_r s) (s_cb s) (s_user_param s) (s_mco s) (s_next s) (s_prev s)
  (s_parent_session s) (s_next_child s) (s_child_session_list s)
  (s_finished_child_session_list s) (s_session_done_cb s).
Definition set_event_bits (v : Z) (s : session) : session :=
  Session (s_magic0 s) (s_magic1 s) (s_session_type s) (s_post_op s) (s_hash_lock_state s)
  (s_hash_lock_idx s) (s_hash_lock_ctx_list s) (s_have_parent_session s) (s_exp_event_bits s) v
  (s_event_bits2 s) (s_timeouts s) (s_timeoutms s) (s_fd s) (s_lc s) (s_wind_up_s s)
  (s_wind_up_ms s) (s_r s) (s_cb s) (s_user_param s) (s_mco s) (s_next s) (s_prev s)
  (s_parent_session s) (s_next_child s) (s_child_session_list s)
  (s_finished_child_session_list s) (s_session_done_cb s).
Definition set_event_bits2 (v : Z) (s : session) : session :=
  Session (s_magic0 s) (s_magic1 s) (s_session_type s) (s_post_op s) (s_hash_lock_state s)
  (s_hash_lock_idx s) (s_hash_lock_ctx_list s) (s_have_parent_session s) (s_exp_event_bits s)
  (s_event_bits s) v (s_timeouts s) (s_timeoutms s) (s_fd s) (s_lc s) (s_wind_up_s s)
  (s_wind_up_ms s) (s_r s) (s_cb s) (s_user_param s) (s_mco s) (s_next s) (s_prev s)
  (s_parent_session s) (s_next_child s) (s_child_session_list s)
  (s_finished_child_session_list s) (s_session_done_cb s).
Definition set_timeouts (v : Z) (s : session) : session :=
  Session (s_magic0 s) (s_magic1 s) (s_session_type s) (s_post_op s) (s_hash_lock_state s)
  (s_hash_lock_idx s) (s_hash_lock_ctx_list s) (s_have_parent_session s) (s_exp_event_bits s)
  (s_event_bits s) (s_event_bits2 s) v (s_timeoutms s) (s_fd s) (s_lc s) (s_wind_up_s s)
  (s_wind_up_ms s) (s_r s) (s_cb s) (s_user_param s) (s_mco s) (s_next s) (s_prev s)
  (s_parent_session s) (s_next_child s) (s_child_session_list s)
  (s_finished_child_session_list s) (s_session_done_cb s).
Definition set_timeoutms (v : Z) (s : session) : session :=
  Session (s_magic0 s) (s_magic1 s) (s_session_type s) (s_post_op s) (s_hash_lock_state s)
  (s_hash_lock_idx s) (s_hash_lock_ctx_list s) (s_have_parent_session s) (s_exp_event_bits s)
  (s_event_bits s) (s_event_bits2 s) (s_timeouts s) v (s_fd s) (s_lc s) (s_wind_up_s s)
  (s_wind_up_ms s) (s_r s) (s_cb s) (s_user_param s) (s_mco s) (s_next s) (s_prev s)
  (s_parent_session s) (s_next_child s) (s_child_session_list s)
  (s_finished_child_session_list s) (s_session_done_cb s).
Definition set_fd (v : Z) (s : session) : session :=
  Session (s_magic0 s) (s_magic1 s) (s_session_type s) (s_post_op s) (s_hash_lock_state s)
  (s_hash_lock_idx s) (s_hash_lock_ctx_list s) (s_have_parent_session s) (s_exp_event_bits s)
  (s_event_bits s) (s_event_bits2 s) (s_timeouts s) (s_timeoutms s) v (s_lc s) (s_wind_up_s s)
  (s_wind_up_ms s) (s_r s) (s_cb s) (s_user_param s) (s_mco s) (s_next s) (s_prev s)
  (s_parent_session s) (s_next_child s) (s_child_session_list s)
  (s_finished_child_session_list s) (s_session_done_cb s).
Definition set_lc (v : Z) (s : session) : session :=
  Session (s_magic0 s) (s_magic1 s) (s_session_type s) (s_post_op s) (s_hash_lock_state s)
  (s_hash_lock_idx s) (s_hash_lock_ctx_list s) (s_have_parent_session s) (s_exp_event_bits s)
  (s_event_bits s) (s_event_bits2 s) (s_timeouts s) (s_timeoutms s) (s_fd s) v (s_wind_up_s s)
  (s_wind_up_ms s) (s_r s) (s_cb s) (s_user_param s) (s_mco s) (s_next s) (s_prev s)
  (s_parent_session s) (s_next_child s) (s_child_session_list s)
  (s_finished_child_session_list s) (s_session_done_cb s).
Definition set_wind_up_s (v : Z) (s : session) : session :=
  Session (s_magic0 s) (s_magic1 s) (s_session_type s) (s_post_op s) (s_hash_lock_state s)
  (s_hash_lock_idx s) (s_hash_lock_ctx_list s) (s_have_parent_session s) (s_exp_event_bits s)
  (s_event_bits s) (s_event_bits2 s) (s_timeouts s) (s_timeoutms s) (s_fd s) (s_lc s) v
  (s_wind_up_ms s) (s_r s) (s_cb s) (s_user_param s) (s_mco s) (s_next s) (s_prev s)
  (s_parent_session s) (s_next_child s) (s_child_session_list s)
  (s_finished_child_session_list s) (s_session_done_cb s).
Definition set_wind_up_ms (v : Z) (s : session) : session :=
  Session (s_magic0 s) (s_magic1 s) (s_session_type s) (s_post_op s) (s_hash_lock_state s)
  (s_hash_lock_idx s) (s_hash_lock_ctx_list s) (s_have_parent_session s) (s_exp_event_bits s)
  (s_event_bits s) (s_event_bits2 s) (s_timeouts s) (s_timeoutms s) (s_fd s) (s_lc s)
  (s_wind_up_s s) v (s_r s) (s_cb s) (s_user_param s) (s_mco s) (s_next s) (s_prev s)
  (s_parent_session s) (s_next_child s) (s_child_session_list s)
  (s_finished_child_session_list s) (s_session_done_cb s).
Definition set_r (v : Z) (s : session) : session :=
  Session (s_magic0 s) (s_magic1 s) (s_session_type s) (s_post_op s) (s_hash_lock_state s)
  (s_hash_lock_idx s) (s_hash_lock_ctx_list s) (s_have_parent_session s) (s_exp_event_bits s)
  (s_event_bits s) (s_event_bits2 s) (s_timeouts s) (s_timeoutms s) (s_fd s) (s_lc s)
  (s_wind_up_s s) (s_wind_up_ms s) v (s_cb s) (s_user_param s) (s_mco s) (s_next s) (s_prev s)
  (s_parent_session s) (s_next_child s) (s_child_session_list s)
  (s_finished_child_session_list s) (s_session_done_cb s).
Definition set_cb (v : ptr) (s : session) : session :=
  Session (s_magic0 s) (s_magic1 s) (s_session_type s) (s_post_op s) (s_hash_lock_state s)
  (s_hash_lock_idx s) (s_hash_lock_ctx_list s) (s_have_parent_session s) (s_exp_event_bits s)
  (s_event_bits s) (s_event_bits2 s) (s_timeouts s) (s_timeoutms s) (s_fd s) (s_lc s)
  (s_wind_up_s s) (s_wind_up_ms s) (s_r s) v (s_user_param s) (s_mco s) (s_next s) (s_prev s)
  (s_parent_session s) (s_next_child s) (s_child_session_list s)
  (s_finished_child_session_list s) (s_session_done_cb s).
Definition set_user_param (v : ptr) (s : session) : session :=
  Session (s_magic0 s) (s_magic1 s) (s_session_type s) (s_post_op s) (s_hash_lock_state s)
  (s_hash_lock_idx s) (s_hash_lock_ctx_list s) (s_have_parent_session s) (s_exp_event_bits s)
  (s_event_bits s) (s_event_bits2 s) (s_timeouts s) (s_timeoutms s) (s_fd s) (s_lc s)
  (s_wind_up_s s) (s_wind_up_ms s) (s_r s) (s_cb s) v (s_mco s) (s_next s) (s_prev s)
  (s_parent_session s) (s_next_child s) (s_child_session_list s)
  (s_finished_child_session_list s) (s_session_done_cb s).
Definition set_mco (v : ptr) (s : session) : session :=
  Session (s_magic0 s) (s_magic1 s) (s_session_type s) (s_post_op s) (s_hash_lock_state s)
  (s_hash_lock_idx s) (s_hash_lock_ctx_list s) (s_have_parent_session s) (s_exp_event_bits s)
  (s_event_bits s) (s_event_bits2 s) (s_timeouts s) (s_timeoutms s) (s_fd s) (s_lc s)
  (s_wind_up_s s) (s_wind_up_ms s) (s_r s) (s_cb s) (s_user_param s) v (s_next s) (s_prev s)
  (s_parent_session s) (s_next_child s) (s_child_session_list s)
  (s_finished_child_session_list s) (s_session_done_cb s).
Definition set_next (v : ptr) (s : session) : session :=
  Session (s_magic0 s) (s_magic1 s) (s_session_type s) (s_post_op s) (s_hash_lock_state s)
  (s_hash_lock_idx s) (s_hash_lock_ctx_list s) (s_have_parent_session s) (s_exp_event_bits s)
  (s_event_bits s) (s_event_bits2 s) (s_timeouts s) (s_timeoutms s) (s_fd s) (s_lc s)
  (s_wind_up_s s) (s_wind_up_ms s) (s_r s) (s_cb s) (s_user_param s) (s_mco s) v (s_prev s)
  (s_parent_session s) (s_next_child s) (s_child_session_list s)
  (s_finished_child_session_list s) (s_session_done_cb s).
Definition set_prev (v : ptr) (s : session) : session :=
  Session (s_magic0 s) (s_magic1 s) (s_session_type s) (s_post_op s) (s_hash_lock_state s)
  (s_hash_lock_idx s) (s_hash_lock_ctx_list s) (s_have_parent_session s) (s_exp_event_bits s)
  (s_event_bits s) (s_event_bits2 s) (s_timeouts s) (s_timeoutms s) (s_fd s) (s_lc s)
  (s_wind_up_s s) (s_wind_up_ms s) (s_r s) (s_cb s) (s_user_param s) (s_mco s) (s_next s) v
  (s_parent_session s) (s_next_child s) (s_child_session_list s)
  (s_finished_child_session_list s) (s_session_done_cb s).
Definition set_parent_session (v : ptr) (s : session) : session :=
  Session (s_magic0 s) (s_magic1 s) (s_session_type s) (s_post_op s) (s_hash_lock_state s)
  (s_hash_lock_idx s) (s_hash_lock_ctx_list s) (s_have_parent_session s) (s_exp_event_bits s)
  (s_event_bits s) (s_event_bits2 s) (s_timeouts s) (s_timeoutms s) (s_fd s) (s_lc s)
  (s_wind_up_s s) (s_wind_up_ms s) (s_r s) (s_cb s) (s_user_param s) (s_mco s) (s_next s)
  (s_prev s) v (s_next_child s) (s_child_session_list s) (s_finished_child_session_list s)
  (s_session_done_cb s).
Definition set_next_child (v : ptr) (s : session) : session :=
  Session (s_magic0 s) (s_magic1 s) (s_session_type s) (s_post_op s) (s_hash_lock_state s)
  (s_hash_lock_idx s) (s_hash_lock_ctx_list s) (s_have_parent_session s) (s_exp_event_bits s)
  (s_event_bits s) (s_event_bits2 s) (s_timeouts s) (s_timeoutms s) (s_fd s) (s_lc s)
  (s_wind_up_s s) (s_wind_up_ms s) (s_r s) (s_cb s) (s_user_param s) (s_mco s) (s_next s)
  (s_prev s) (s_parent_session s) v (s_child_session_list s) (s_finished_child_session_list s)
  (s_session_done_cb s).
Definition set_child_session_list (v : ptr) (s : session) : session :=
  Session (s_magic0 s) (s_magic1 s) (s_session_type s) (s_post_op s) (s_hash_lock_state s)
  (s_hash_lock_idx s) (s_hash_lock_ctx_list s) (s_have_parent_session s) (s_exp_event_bits s)
  (s_event_bits s) (s_event_bits2 s) (s_timeouts s) (s_timeoutms s) (s_fd s) (s_lc s)
  (s_wind_up_s s) (s_wind_up_ms s) (s_r s) (s_cb s) (s_user_param s) (s_mco s) (s_next s)
  (s_prev s) (s_parent_session s) (s_next_child s) v (s_finished_child_session_list s)
  (s_session_done_cb s).
Definition set_finished_child_session_list (v : ptr) (s : session) : session :=
  Session (s_magic0 s) (s_magic1 s) (s_session_type s) (s_post_op s) (s_hash_lock_state s)
  (s_hash_lock_idx s) (s_hash_lock_ctx_list s) (s_have_parent_session s) (s_exp_event_bits s)
  (s_event_bits s) (s_event_bits2 s) (s_timeouts s) (s_timeoutms s) (s_fd s) (s_lc s)
  (s_wind_up_s s) (s_wind_up_ms s) (s_r s) (s_cb s) (s_user_param s) (s_mco s) (s_next s)
  (s_prev s) (s_parent_session s) (s_next_child s) (s_child_session_list s) v
  (s_session_done_cb s).
Definition set_session_done_cb (v : ptr) (s : session) : session :=
  Session (s_magic0 s) (s_magic1 s) (s_session_type s) (s_post_op s) (s_hash_lock_state s)
  (s_hash_lock_idx s) (s_hash_lock_ctx_list s) (s_have_parent_session s) (s_exp_event_bits s)
  (s_event_bits s) (s_event_bits2 s) (s_timeouts s) (s_timeoutms s) (s_fd s) (s_lc s)
  (s_wind_up_s s) (s_wind_up_ms s) (s_r s) (s_cb s) (s_user_param s) (s_mco s) (s_next s)
  (s_prev s) (s_parent_session s) (s_next_child s) (s_child_session_list s)
  (s_finished_child_session_list s) v.

#[export] Instance session_llnode : LLNode session := {|
  ll_prev := s_prev; ll_next := s_next; LinkedList.set_prev := set_prev;
  LinkedList.set_next := set_next |}.

#[export] Instance session_llnode_laws : LLNodeLaws session.
Proof. split; reflexivity. Qed.

(** [esq_hash_lock_ctx_t]. *)
Record hctx := HCtx {
  h_state : Z;
  h_idx : Z;
  h_session : ptr;
  h_next : option hptr;
  h_next_in_esq_session : option hptr;
  h_next_in_local_wake_up_list : option hptr;
  h_worker_ctx : ptr
}.

(** What [bzero] leaves. *)
Definition session_zero : session :=
  Session 0 0 0 0 0 0 None false 0 0 0 0 0 0 0 0 0 0 None None None None None None None None
    None None.

Definition hctx_zero : hctx := HCtx 0 0 None None None None None.

(** ** Worker contexts and the store *)

(** The lists of a worker that are doubly linked: the head and tail pointers
    [list_of_..._head] and [list_of_..._tail] of [esq_worker_ctx_t]. *)
Inductive place :=
| list_of_active
| list_of_0ms_to_100ms
| list_of_100ms_to_1s
| list_of_1s_to_10s
| list_of_longer_than_10s
| list_of_no_time.

#[export] Instance place_eq_dec : EqDecision place.
Proof. solve_decision. Defined.

Record worker_ctx := WorkerCtx {
  c_lists : place → dlist;
  c_new : dlist;
  c_esq_os_event_wait_max : Z;
  c_stop_session_flag : bool;
  c_hash_lock_wake_up_list_head : option hptr;
  c_hash_lock_wake_up_list_tail : option hptr
}.

(** What the code asks of the kernel and of the coroutine library, in order. *)
Inductive effect :=
| POLL_ADD (fd : Z) (user_data : loc) (flags : Z)
| POLL_MULTISHOT (fd : Z) (user_data : loc) (flags : Z)
| POLL_REMOVE (user_data : loc)
| MCO_DESTROY (mco : ptr)
| WAKE_UP_WORKER.

(** The memory and the surroundings of one thread: the sessions, the hash lock
    contexts and the hash locks (their [ctx_head] and [ctx_tail]), the worker contexts
    by address with the address of this thread's own ([esq_worker_ctx], [NULL] in the
    master thread), the list shared by the workers, the clock (or the failure of
    [gettimeofday]), the server's stop flag, and the requests made so far. *)
Record world := World {
  w_sessions : gmap loc session;
  w_hctx : gmap hptr hctx;
  w_hash_locks : list (option hptr * option hptr);
  w_ctxs : gmap loc worker_ctx;
  w_self : ptr;
  w_global_new : dlist;
  w_now : option (Z * Z);
  w_stop : bool;
  w_out : list effect
}.

Definition with_sessions (h : gmap loc session) (w : world) : world :=
  World h (w_hctx w) (w_hash_locks w) (w_ctxs w) (w_self w) (w_global_new w) (w_now w)
    (w_stop w) (w_out w).
Definition with_hctx (h : gmap hptr hctx) (w : world) : world :=
  World (w_sessions w) h (w_hash_locks w) (w_ctxs w) (w_self w) (w_global_new w) (w_now w)
    (w_stop w) (w_out w).
Definition with_hash_locks (h : list (option hptr * option hptr)) (w : world) : world :=
  World (w_sessions w) (w_hctx w) h (w_ctxs w) (w_self w) (w_global_new w) (w_now w)
    (w_stop w) (w_out w).
Definition with_ctxs (c : gmap loc worker_ctx) (w : world) : world :=
  World (w_sessions w) (w_hctx w) (w_hash_locks w) c (w_self w) (w_global_new w) (w_now w)
    (w_stop w) (w_out w).
Definition with_global_new (q : dlist) (w : world) : world :=
  World (w_sessions w) (w_hctx w) (w_hash_locks w) (w_ctxs w) (w_self w) q (w_now w)
    (w_stop w) (w_out w).
Definition with_stop (b : bool) (w : world) : world :=
  World (w_sessions w) (w_hctx w) (w_hash_locks w) (w_ctxs w) (w_self w) (w_global_new w)
    (w_now w) b (w_out w).
Definition with_out (o : list effect) (w : world) : world :=
  World (w_sessions w) (w_hctx w) (w_hash_locks w) (w_ctxs w) (w_self w) (w_global_new w)
    (w_now w) (w_stop w) o.

(** Code that runs in a world. *)
Definition M (A : Type) : Type := world → cres (A * world).

#[export] Instance M_ret : MRet M := fun A a w => Ret (a, w).
#[export] Instance M_bind : MBind M := fun A B f m w =>
  match m w with
  | Ret (a, w') => f a w'
  | Fault => Fault
  | Exit => Exit
  | NoFuel => NoFuel
  end.

Definition m_fault {A} : M A := fun _ => Fault.
Definition m_exit {A} : M A := fun _ => Exit.
Definition m_nofuel {A} : M A := fun _ => NoFuel.
Definition reads {A} (f : world → A) : M A := fun w => Ret (f w, w).
Definition modifies (f : world → world) : M unit := fun w => Ret (tt, f w).

(** [p->field] and [p->field = v] for a session. *)
Definition get {A} (p : ptr) (f : session → A) : M A := fun w =>
  a ← fld (w_sessions w) p f; Ret (a, w).
Definition set (p : ptr) (f : session → session) : M unit := fun w =>
  h ← upd (w_sessions w) p f; Ret (tt, with_sessions h w).

Definition say (e : effect) : M unit := modifies (fun w => with_out (w_out w ++ [e]) w).

(** [esq_worker_get_ctx]: outside a worker thread the process exits. *)
Definition esq_worker_get_ctx : M loc := fun w =>
  match w_self w with Some c => Ret (c, w) | None => Exit end.

Definition ctx_get (c : loc) : M worker_ctx := fun w =>
  match w_ctxs w !! c with Some k => Ret (k, w) | None => Fault end.
Definition ctx_put (c : loc) (k : worker_ctx) : M unit :=
  modifies (fun w => with_ctxs (<[c := k]> (w_ctxs w)) w).

Definition set_list (p : place) (q : dlist) (k : worker_ctx) : worker_ctx :=
  WorkerCtx (fun p' => if decide (p' = p) then q else c_lists k p') (c_new k)
    (c_esq_os_event_wait_max k) (c_stop_session_flag k) (c_hash_lock_wake_up_list_head k)
    (c_hash_lock_wake_up_list_tail k).
Definition set_new (q : dlist) (k : worker_ctx) : worker_ctx :=
  WorkerCtx (c_lists k) q (c_esq_os_event_wait_max k) (c_stop_session_flag k)
    (c_hash_lock_wake_up_list_head k) (c_hash_lock_wake_up_list_tail k).
Definition set_wait_max (v : Z) (k : worker_ctx) : worker_ctx :=
  WorkerCtx (c_lists k) (c_new k) v (c_stop_session_flag k) (c_hash_lock_wake_up_list_head k)
    (c_hash_lock_wake_up_list_tail k).
Definition set_stop_session_flag (b : bool) (k : worker_ctx) : worker_ctx :=
  WorkerCtx (c_lists k) (c_new k) (c_esq_os_event_wait_max k) b
    (c_hash_lock_wake_up_list_head k) (c_hash_lock_wake_up_list_tail k).
Definition set_wake_up (hd tl : option hptr) (k : worker_ctx) : worker_ctx :=
  WorkerCtx (c_lists k) (c_new k) (c_esq_os_event_wait_max k) (c_stop_session_flag k) hd tl.

(** Pointer assignments that end in a new head and tail, which [put] stores. *)
Definition relink (f : gmap loc session → cres (gmap loc session * dlist))
    (put : dlist → world → world) : M unit := fun w =>
  hq ← f (w_sessions w);
  Ret (tt, put hq.2 (with_sessions hq.1 w)).

(** A macro of [esqll.h] applied to a list of this worker's context. *)
Definition on_list (p : place)
    (f : gmap loc session → dlist → loc → cres (gmap loc session * dlist)) (l : loc) : M unit :=
  c ← esq_worker_get_ctx;
  k ← ctx_get c;
  relink (fun h => f h (c_lists k p) l)
    (fun q w => with_ctxs (<[c := set_list p q k]> (w_ctxs w)) w).

(** ** [worker.c]: the active list *)
Definition esq_session_join_active_list (l : loc) : M unit :=
  on_list list_of_active DOUBLE_LL_JOIN_TAIL l.

Definition esq_session_left_active_list (l : loc) : M unit :=
  on_list list_of_active DOUBLE_LL_LEFT l.

(** ** [timing.c]: the lists of waiting sessions *)

(** The cascade of both functions: the list for a timeout of [s] seconds and [ms]
    milliseconds. *)
Definition timing_list (s ms : Z) : place :=
  if 10 <=? s then list_of_longer_than_10s
  else if 1 <=? s then list_of_1s_to_10s
  else if 100 <=? ms then list_of_100ms_to_1s
  else if 0 <? ms then list_of_0ms_to_100ms
  else list_of_no_time.

(** The macro: note that [wind_up_ms] is given microseconds. *)
Definition RECORD_WIND_UP_TIME (l : loc) : M unit :=
  now ← reads w_now;
  match now with
  | None => modifies (with_stop true)
  | Some (tv_sec, tv_usec) =>
      set (Some l) (set_wind_up_s (i32 tv_sec));;
      set (Some l) (set_wind_up_ms (i32 tv_usec))
  end.

Definition esq_session_join_timing_list (l : loc) : M unit :=
  esq_worker_get_ctx;;
  s ← get (Some l) s_timeouts;
  ms ← get (Some l) s_timeoutms;
  on_list (timing_list s ms) DOUBLE_LL_JOIN_HEAD l;;
  RECORD_WIND_UP_TIME l.

Definition esq_session_left_timing_list (l : loc) : M unit :=
  esq_worker_get_ctx;;
  s ← get (Some l) s_timeouts;
  ms ← get (Some l) s_timeoutms;
  on_list (timing_list s ms) DOUBLE_LL_LEFT l.

Definition esq_session_change_to_no_timing_list (l : loc) : M unit :=
  s ← get (Some l) s_timeouts;
  ms ← get (Some l) s_timeoutms;
  if negb (s =? 0) || negb (ms =? 0) then
    esq_session_left_timing_list l;;
    set (Some l) (set_timeouts 0);;
    set (Some l) (set_timeoutms 0);;
    esq_session_join_timing_list l
  else mret tt.

(** The polling interval in milliseconds, by the shortest class anyone waits in. *)
Definition suggested_time_interval (k : worker_ctx) : Z :=
  if d_head (c_lists k list_of_0ms_to_100ms) then 5
  else if d_head (c_lists k list_of_100ms_to_1s) then 50
  else if d_head (c_lists k list_of_1s_to_10s) then 500
  else if d_head (c_lists k list_of_longer_than_10s) then 5000
  else -1.

Definition esq_session_update_polling_interval (c : loc) : M unit :=
  k ← ctx_get c;
  ctx_put c (set_wait_max (suggested_time_interval k) k).

Definition esq_update_polling_interval : M unit :=
  c ← esq_worker_get_ctx;
  esq_session_update_polling_interval c.

(** ** [worker.c]: the lists of sessions to pick up *)

(** Both functions are the same assignments, to the list of this worker and to the
    shared one: [prev] and [next] are cleared, then the session is linked behind the
    tail. *)
Definition join_new_list (h : gmap loc session) (q : dlist) (l : loc)
    : cres (gmap loc session * dlist) :=
  h ← upd h (Some l) (set_prev None);
  h ← upd h (Some l) (set_next None);
  match d_tail q with
  | Some tl =>
      h ← upd h (Some tl) (set_next (Some l));
      Ret (h, DList (d_head q) (Some l))
  | None => Ret (h, DList (Some l) (Some l))
  end.

Definition esq_join_local_new_list (l : loc) : M unit :=
  self ← reads w_self;
  match self with
  | None => m_fault
  | Some c =>
      k ← ctx_get c;
      relink (fun h => join_new_list h (c_new k) l)
        (fun q w => with_ctxs (<[c := set_new q k]> (w_ctxs w)) w)
  end.

Definition esq_join_global_new_list (l : loc) : M unit :=
  q ← reads w_global_new;
  relink (fun h => join_new_list h q l) with_global_new.

(** ** [os_events.c] *)

(** The flags of [poll.h]. *)
Definition POLLIN : Z := 0x1.
Definition POLLOUT : Z := 0x4.
Definition POLLERR : Z := 0x8.
Definition POLLHUP : Z := 0x10.
Definition POLLRDHUP : Z := 0x2000.

Definition poll_flags (exp_event_bits : Z) : Z :=
  let f := Z.lor (Z.lor POLLERR POLLHUP) POLLRDHUP in
  let f := if Z.land ESQ_EVENT_BIT_READ exp_event_bits =? 0 then f else Z.lor f POLLIN in
  if Z.land ESQ_EVENT_BIT_WRITE exp_event_bits =? 0 then f else Z.lor f POLLOUT.

Definition esq_os_events_add_socket_fd (fd : Z) (l : loc) (bits : Z) : M Z :=
  esq_worker_get_ctx;;
  say (POLL_ADD fd l (poll_flags bits));;
  mret ESQ_OK.

Definition esq_os_events_add_socket_fd_multishot (fd : Z) (l : loc) (bits : Z) : M Z :=
  esq_worker_get_ctx;;
  say (POLL_MULTISHOT fd l (poll_flags bits));;
  mret ESQ_OK.

Definition esq_os_events_remove_socket_fd (l : loc) : M Z :=
  esq_worker_get_ctx;;
  say (POLL_REMOVE l);;
  mret ESQ_OK.

(** ** What the lists hold *)

(** The lists a session can be linked into. *)
Inductive spot :=
| At (p : place)
| NewLocal
| NewGlobal.

#[export] Instance spot_eq_dec : EqDecision spot.
Proof. solve_decision. Defined.

(** A list that is walked by [next] only. *)
Fixpoint sseg (h : gmap loc session) (l : list loc) : Prop :=
  match l with
  | [] => True
  | x :: l' => (∃ s, h !! x = Some s ∧ s_next s = head l') ∧ sseg h l'
  end.

Definition slist_rep (h : gmap loc session) (q : dlist) (l : list loc) : Prop :=
  d_head q = head l ∧ d_tail q = last l ∧ NoDup l ∧ sseg h l.

(** The lists of this thread hold the sequences [L], and no session is in two. *)
Definition rep (w : world) (L : spot → list loc) : Prop :=
  ∃ c k, w_self w = Some c ∧ w_ctxs w !! c = Some k ∧
    (∀ p, dlist_rep (w_sessions w) (c_lists k p) (L (At p))) ∧
    slist_rep (w_sessions w) (c_new k) (L NewLocal) ∧
    slist_rep (w_sessions w) (w_global_new w) (L NewGlobal) ∧
    (∀ a b x, x ∈ L a → x ∈ L b → a = b).

(** [x] is in the list [a], or in none. *)
Definition at_ (L : spot → list loc) (x : loc) (a : option spot) : Prop :=
  match a with
  | Some a => x ∈ L a
  | None => ∀ a, x ∉ L a
  end.

Lemma sseg_agree h h' l :
  (∀ y, y ∈ l → h' !! y = h !! y) → sseg h l → sseg h' l.
Proof.
  induction l as [|x l IH]; intros Hag; simpl; [done|].
  rewrite Hag by set_solver. intros [? ?]. split; [done|]. apply IH; [|done]. set_solver.
Qed.

Lemma slist_rep_agree h h' q l :
  (∀ y, y ∈ l → h' !! y = h !! y) → slist_rep h q l → slist_rep h' q l.
Proof. intros Hag (?&?&?&?). repeat split; eauto using sseg_agree. Qed.

(** Writing behind the last node of a [next] chain. *)
Lemma sseg_snoc h l x tl n :
  sseg h (l ++ [tl]) → NoDup (l ++ [tl]) → x ∉ l ++ [tl] → h !! tl = Some n →
  (∃ s, h !! x = Some s ∧ s_next s = None) →
  sseg (<[tl := set_next (Some x) n]> h) ((l ++ [tl]) ++ [x]).
Proof.
  induction l as [|y l IH]; simpl; intros Hs Hnd Hx Hn Hxs.
  - split; [eexists; by rewrite lookup_insert_eq|]. split; [|done].
    rewrite lookup_insert_ne by set_solver. done.
  - destruct Hs as [(s & Hy & Hnx) Hs]. apply NoDup_cons in Hnd as [Hyl Hnd]. split.
    + exists s. rewrite lookup_insert_ne by set_solver. split; [done|].
      rewrite Hnx. by destruct l.
    + apply IH; [done..|set_solver|done|done].
Qed.

Lemma join_new_list_ok h q l x :
  slist_rep h q l → x ∉ l → is_Some (h !! x) →
  ∃ h' q', join_new_list h q x = Ret (h', q') ∧
    slist_rep h' q' (l ++ [x]) ∧ links_written h h' (x :: l).
Proof.
  intros (Hh & Ht & Hnd & Hs) Hx [n Hn]. unfold join_new_list.
  rewrite (upd_Some _ _ n) by done. simpl. rewrite lookup_insert_eq. simpl. rewrite Ht.
  set (n' := set_next None (set_prev None n)).
  assert (Hw : links_written h (<[x := n']> (<[x := set_prev None n]> h)) (x :: l)).
  { eapply (links_written_step _ _ x (set_prev None n) (set_next None));
      [|by rewrite lookup_insert_eq|set_solver|done].
    eapply (links_written_step _ _ x n (set_prev None)); [apply links_written_refl|done|
      set_solver|done]. }
  rewrite insert_insert_eq in *. destruct l as [|tl l _] using rev_ind; simpl.
  - do 2 eexists. split; [done|]. split; [|exact Hw].
    repeat split; [apply NoDup_singleton|]. eexists. by rewrite lookup_insert_eq.
  - rewrite last_snoc. assert (x ≠ tl) by set_solver.
    assert (Htl : is_Some (h !! tl)).
    { clear -Hs. induction l as [|y l IH]; simpl in Hs; [|by apply IH, Hs].
      destruct Hs as [(s & -> & _) _]. eauto. }
    destruct Htl as [m Hm]. rewrite lookup_insert_ne, Hm by done. simpl.
    do 2 eexists. split; [done|]. split.
    2:{ eapply (links_written_step _ _ tl m (set_next (Some x)) _ Hw);
          [by rewrite lookup_insert_ne by done|set_solver|done]. }
    split; [simpl; rewrite Hh; by destruct l|]. split; [by rewrite last_snoc|].
    split; [apply NoDup_app; split; [done|split; [set_solver|apply NoDup_singleton]]|].
    apply sseg_snoc; [|done|done|by rewrite lookup_insert_ne|].
    + eapply sseg_agree; [|exact Hs]. intros y Hy. rewrite lookup_insert_ne by set_solver.
      done.
    + exists n'. by rewrite lookup_insert_eq.
Qed.

(** ** Reasoning about code that runs in a world *)

#[global] Arguments erase_links : simpl never.

(** [m] from [w] neither faults nor runs out of fuel, exits only if [E], and ends in [Q]. *)
Definition wp {A} (E : Prop) (m : M A) (Q : A → world → Prop) (w : world) : Prop :=
  match m w with
  | Ret (a, w') => Q a w'
  | Exit => E
  | _ => False
  end.

Lemma wp_bind {A B} E (m : M A) (f : A → M B) Q w :
  wp E m (fun a => wp E (f a) Q) w → wp E (m ≫= f) Q w.
Proof. unfold wp, mbind, M_bind. by destruct (m w) as [[a w']| | |]. Qed.

(** A step that returns, taken off the front. *)
Lemma M_bind_Ret {A B} (m : M A) (f : A → M B) w a w' :
  m w = Ret (a, w') → (m ≫= f) w = f a w'.
Proof. unfold mbind, M_bind. by intros ->. Qed.

Lemma get_Some {A} w l s (f : session → A) :
  w_sessions w !! l = Some s → get (Some l) f w = Ret (f s, w).
Proof. intros Hs. unfold get. simpl. by rewrite Hs. Qed.

Lemma set_Some w l s f :
  w_sessions w !! l = Some s →
  set (Some l) f w = Ret (tt, with_sessions (<[l := f s]> (w_sessions w)) w).
Proof. intros Hs. unfold set. simpl. by rewrite Hs. Qed.

Lemma wp_ret {A} E (a : A) Q w : Q a w → wp E (mret a) Q w.
Proof. done. Qed.

Lemma wp_exit {A} (E : Prop) (Q : A → world → Prop) w : E → wp E m_exit Q w.
Proof. done. Qed.

Lemma wp_mono {A} (E E' : Prop) (m : M A) (Q Q' : A → world → Prop) w :
  wp E m Q w → (E → E') → (∀ a w', Q a w' → Q' a w') → wp E' m Q' w.
Proof. unfold wp. destruct (m w) as [[a w']| | |]; eauto. Qed.

Lemma wp_returns {A} (m : M A) Q w :
  wp False m Q w → ∃ a w', m w = Ret (a, w') ∧ Q a w'.
Proof. unfold wp. destruct (m w) as [[a w']| | |]; naive_solver. Qed.

Lemma wp_reads {A} E (f : world → A) Q w : Q (f w) w → wp E (reads f) Q w.
Proof. done. Qed.

(** ** The assertion about one session *)

(** A session without its links and its place among its parent's children. *)
Definition core (s : session) : session := set_next_child None (erase_links s).

(** The sequence with [l] taken out. *)
Definition without (l : loc) (ls : list loc) : list loc := filter (fun x => x ≠ l) ls.

(** What a request to one session leaves alone: the worker's own context, the other
    sessions, and the lists with this one session taken out. *)
Record frame := Frame {
  f_self : ptr;
  f_rest : loc → option session;
  f_lists : spot → list loc
}.

Section Assertion.
Context (F : frame).

(** The session at [l] is [s] but for its links and is in the list [a] (in none, for
    [None]); all the rest is as in the frame. *)
Definition holds (w : world) (l : loc) (a : option spot) (s : session) : Prop :=
  w_self w = f_self F ∧ ∃ L, rep w L ∧ at_ L l a ∧
    (∃ s0, w_sessions w !! l = Some s0 ∧ erase_links s0 = erase_links s) ∧
    (∀ b, without l (L b) = f_lists F b) ∧
    ∀ x, x ≠ l → core <$> w_sessions w !! x = f_rest F x.

Lemma holds_ext w l a s s' :
  erase_links s = erase_links s' → holds w l a s → holds w l a s'.
Proof.
  intros E (Hsf & L & Hr & Ha & (s0 & Hs & E0) & Ho). split; [done|]. exists L.
  split_and!; [done|done| |apply Ho..]. exists s0. split; [done|congruence].
Qed.

Lemma wp_get {A} E l a s (f : session → A) Q w :
  holds w l a s → (∀ s, f (erase_links s) = f s) → Q (f s) w → wp E (get (Some l) f) Q w.
Proof.
  intros (_ & L & _ & _ & (s0 & Hs & E0) & _) Hf HQ. unfold wp, get. simpl. rewrite Hs. simpl.
  by rewrite <- (Hf s0), E0, Hf.
Qed.

(** A write to a session leaves the lists alone when it writes no link. *)
Lemma rep_set w L x s f :
  (∀ s, ll_prev (f s) = ll_prev s ∧ ll_next (f s) = ll_next s) →
  w_sessions w !! x = Some s → rep w L → rep (with_sessions (<[x := f s]> (w_sessions w)) w) L.
Proof.
  intros Hf Hx (c & k & Hc & Hk & Hl & Hn & Hg & Hd).
  assert (Hds : ∀ l pv nx, dseg (w_sessions w) pv l nx →
    dseg (<[x := f s]> (w_sessions w)) pv l nx).
  { induction l as [|y l IH]; intros pv nx; simpl; [done|].
    intros [(n & Hy & Hp & Hq) Hr]. split; [|by apply IH].
    destruct (decide (x = y)) as [->|Hne].
    - rewrite lookup_insert_eq. exists (f s). assert (n = s) as -> by congruence.
      split; [done|]. split; [rewrite <- Hp|rewrite <- Hq]; apply Hf.
    - rewrite lookup_insert_ne by done. eauto. }
  assert (Hss : ∀ l, sseg (w_sessions w) l → sseg (<[x := f s]> (w_sessions w)) l).
  { induction l as [|y l IH]; simpl; [done|].
    intros [(n & Hy & Hq) Hr]. split; [|by apply IH].
    destruct (decide (x = y)) as [->|Hne].
    - rewrite lookup_insert_eq. exists (f s). assert (n = s) as -> by congruence.
      split; [done|]. rewrite <- Hq. apply Hf.
    - rewrite lookup_insert_ne by done. eauto. }
  exists c, k. split_and!; try done.
  - intros p. destruct (Hl p) as (?&?&?&?). split_and!; auto.
  - destruct Hn as (?&?&?&?). split_and!; auto.
  - destruct Hg as (?&?&?&?). split_and!; auto.
Qed.

Lemma wp_set E l a s f Q w :
  holds w l a s → (∀ s, erase_links (f s) = f (erase_links s)) →
  (∀ s, ll_prev (f s) = ll_prev s ∧ ll_next (f s) = ll_next s) →
  (∀ w', holds w' l a (f s) → Q tt w') → wp E (set (Some l) f) Q w.
Proof.
  intros (Hsf & L & Hr & Ha & (s0 & Hs & E0) & Ho) He Hf HQ. unfold wp, set. simpl. rewrite Hs. simpl.
  apply HQ. split; [done|]. exists L. split_and!; [by apply rep_set|done| | |].
  - exists (f s0). simpl. rewrite lookup_insert_eq. split; [done|]. by rewrite !He, E0.
  - apply Ho.
  - intros x Hne. simpl. rewrite lookup_insert_ne by done. by apply Ho.
Qed.

(** A write to another session that only moves it among children. *)
Lemma wp_set_other E l a s x f Q w :
  holds w l a s → is_Some (w_sessions w !! x) → x ≠ l →
  (∀ s, ll_prev (f s) = ll_prev s ∧ ll_next (f s) = ll_next s) →
  (∀ s, core (f s) = core s) →
  (∀ w', holds w' l a s → Q tt w') → wp E (set (Some x) f) Q w.
Proof.
  intros (Hsf & L & Hr & Ha & (s0 & Hs & E0) & Ho) [sx Hx] Hne Hf Hl HQ.
  unfold wp, set. simpl. rewrite Hx. simpl.
  apply HQ. split; [done|]. exists L. split_and!; [by apply rep_set|done| |apply Ho|].
  - exists s0. simpl. by rewrite lookup_insert_ne.
  - intros y Hy. rewrite <- (proj2 Ho y Hy). simpl. destruct (decide (y = x)) as [->|].
    + rewrite lookup_insert_eq, Hx. simpl. by rewrite Hl.
    + by rewrite lookup_insert_ne.
Qed.

Lemma links_written_rest h h' t x :
  links_written h h' t → core <$> h' !! x = core <$> h !! x.
Proof.
  intros [Hs _]. assert (E : (erase_links <$> h) !! x = (erase_links <$> h') !! x) by (by rewrite Hs).
  rewrite !lookup_fmap in E.
  assert (Hc : ∀ o : option session, core <$> o = set_next_child None <$> (erase_links <$> o))
    by (by intros []). by rewrite !Hc, E.
Qed.

Lemma links_written_self h h' t l s0 :
  links_written h h' t → h !! l = Some s0 →
  ∃ s1, h' !! l = Some s1 ∧ erase_links s1 = erase_links s0.
Proof.
  intros [Hs _] Hl. symmetry in Hs. destruct (same_objects_lookup _ _ _ _ Hs Hl) as (s&?&?).
  eauto.
Qed.

(** One list is replaced, by one with the same members but for [x]. *)
Definition upd_spot (L : spot → list loc) (a : spot) (l : list loc) : spot → list loc :=
  fun b => if decide (b = a) then l else L b.

Lemma agree_other_lists (h h' : gmap loc session) (L : spot → list loc) a b x t :
  links_written h h' (x :: t) → (∀ a b y, y ∈ L a → y ∈ L b → a = b) →
  (∀ y, y ∈ t → y ∈ L a) → (∀ c, x ∈ L c → c = a) → b ≠ a →
  ∀ y, y ∈ L b → h' !! y = h !! y.
Proof.
  intros [_ Hw] Hd Ht Hx Hne y Hy. apply Hw. apply not_elem_of_cons. split.
  - intros ->. by apply Hne, Hx.
  - intros Hyt. apply Hne. eauto.
Qed.

(** The list [p] of this worker replaced. *)
Lemma rep_on_list w L c k p h' q' ls x t :
  rep w L → w_self w = Some c → w_ctxs w !! c = Some k →
  links_written (w_sessions w) h' (x :: t) → (∀ y, y ∈ t → y ∈ L (At p)) →
  (∀ a, x ∈ L a → a = At p) → (∀ y, y ∈ ls → y = x ∨ y ∈ L (At p)) →
  dlist_rep h' q' ls →
  rep (with_ctxs (<[c := set_list p q' k]> (w_ctxs w)) (with_sessions h' w))
    (upd_spot L (At p) ls).
Proof.
  intros (c' & k' & Hc & Hk & Hl & Hn & Hg & Hd) Hc' Hk' Hw Ht Hx Hls Hr. simplify_eq.
  pose proof (fun b => agree_other_lists _ _ L (At p) b x t Hw Hd Ht Hx) as Hag.
  exists c', (set_list p q' k'). simpl. split_and!; [done|by rewrite lookup_insert_eq| | | |].
  - intros p'. unfold upd_spot. destruct (decide (p' = p)) as [->|Hne].
    + by rewrite decide_True.
    + rewrite decide_False by congruence. eapply dlist_rep_agree; [|apply Hl].
      apply Hag. congruence.
  - eapply slist_rep_agree; [|exact Hn]. by apply Hag.
  - eapply slist_rep_agree; [|exact Hg]. by apply Hag.
  - assert (Hback : ∀ a y, y ∈ upd_spot L (At p) ls a → y ∈ L a ∨ (y = x ∧ a = At p)).
    { intros a y. unfold upd_spot. case_decide as E; [subst|by left].
      intros [->|?]%Hls; auto. }
    intros a b y [Ha|[-> ->]]%Hback [Hb|[E ->]]%Hback; subst; eauto.
    symmetry. by apply Hx.
Qed.

(** Joining a list, for either macro, and leaving one. *)
Lemma wp_join E p f l s Q w :
  (∀ h q ls x, dlist_rep h q ls → x ∉ ls → is_Some (h !! x) →
     ∃ h' q' ls', f h q x = Ret (h', q') ∧ dlist_rep h' q' ls' ∧
                  (∀ y, y ∈ ls' ↔ y = x ∨ y ∈ ls) ∧ without x ls' = without x ls ∧
                  links_written h h' (x :: ls)) →
  holds w l None s → (∀ w', holds w' l (Some (At p)) s → Q tt w') → wp E (on_list p f l) Q w.
Proof.
  intros Hf (Hsf & L & Hr & Ha & (s0 & Hs & E0) & Ho) HQ.
  pose proof Hr as (c & k & Hc & Hk & Hl & _).
  destruct (Hf _ _ _ l (Hl p) (Ha (At p)) ltac:(eauto)) as (h' & q' & ls' & Ef & Hd & Hm & Hwo & Hw).
  unfold wp, on_list, esq_worker_get_ctx, ctx_get, relink, mbind, M_bind.
  rewrite Hc, Hk, Ef. simpl. apply HQ. split; [done|]. exists (upd_spot L (At p) ls').
  destruct (links_written_self _ _ _ _ _ Hw Hs) as (s1 & Hs1 & E1). split_and!.
  - eapply rep_on_list; try done.
    + intros a Hl'. by destruct (Ha a).
    + intros y Hy. by apply Hm.
  - simpl. unfold upd_spot. rewrite decide_True by done. apply Hm. by left.
  - exists s1. split; [done|congruence].
  - intros b. rewrite <- (proj1 Ho b). unfold upd_spot. case_decide as Eb; [by subst|done].
  - intros x Hne. rewrite <- (proj2 Ho x Hne). by eapply links_written_rest.
Qed.

Lemma wp_join_head E p l s Q w :
  holds w l None s → (∀ w', holds w' l (Some (At p)) s → Q tt w') →
  wp E (on_list p DOUBLE_LL_JOIN_HEAD l) Q w.
Proof.
  apply wp_join. intros h q ls x Hd Hx Hh.
  destruct (join_head_ok h q ls x Hd Hx Hh) as (h' & q' & -> & Hd' & Hw).
  exists h', q', (x :: ls). split_and!; try done; [intros y; apply elem_of_cons|].
  unfold without. rewrite filter_cons. by case_decide.
Qed.

Lemma wp_join_tail E p l s Q w :
  holds w l None s → (∀ w', holds w' l (Some (At p)) s → Q tt w') →
  wp E (on_list p DOUBLE_LL_JOIN_TAIL l) Q w.
Proof.
  apply wp_join. intros h q ls x Hd Hx Hh.
  destruct (join_tail_ok h q ls x Hd Hx Hh) as (h' & q' & -> & Hd' & Hw).
  exists h', q', (ls ++ [x]). split_and!; try done; [intros y; set_solver|].
  unfold without. rewrite filter_app, filter_cons. case_decide; [done|]. by rewrite app_nil_r.
Qed.

Lemma wp_left E p l s Q w :
  holds w l (Some (At p)) s → (∀ w', holds w' l None s → Q tt w') →
  wp E (on_list p DOUBLE_LL_LEFT l) Q w.
Proof.
  intros (Hsf & L & Hr & Ha & (s0 & Hs & E0) & Ho) HQ.
  pose proof Hr as (c & k & Hc & Hk & Hl & _ & _ & Hdis). simpl in Ha.
  pose proof Ha as (l1 & l2 & El)%list_elem_of_split.
  assert (Hlp := Hl p). rewrite El in Hlp.
  destruct (left_ok _ _ _ _ _ Hlp) as (h' & q' & Ef & Hd & Hw).
  assert (Hnl : l ∉ l1 ++ l2) by by apply dlist_rep_ends in Hlp as (_&_&_&?&_).
  unfold wp, on_list, esq_worker_get_ctx, ctx_get, relink, mbind, M_bind.
  rewrite Hc, Hk, Ef. simpl. apply HQ. split; [done|]. exists (upd_spot L (At p) (l1 ++ l2)).
  assert (Hw' : links_written (w_sessions w) h' (l :: l1 ++ l2)).
  { destruct Hw as [? Hw]. split; [done|]. intros y Hy. apply Hw. set_solver. }
  destruct (links_written_self _ _ _ _ _ Hw Hs) as (s1 & Hs1 & E1). split_and!.
  - eapply rep_on_list; [done|done|done|exact Hw'| | | |done].
    + rewrite El. set_solver.
    + intros a Hl'. by eapply Hdis.
    + rewrite El. set_solver.
  - intros a. unfold upd_spot. case_decide as Ea; [done|]. intros Hl'. by apply Ea, (Hdis _ _ l).
  - exists s1. split; [done|congruence].
  - intros b. rewrite <- (proj1 Ho b). unfold upd_spot. case_decide as Eb; [subst|done].
    unfold without. rewrite El, !filter_app, filter_cons. by case_decide.
  - intros x Hne. rewrite <- (proj2 Ho x Hne). by eapply links_written_rest.
Qed.

(** The shared list and this worker's list of sessions to pick up. *)
Lemma rep_new_list w L c k g h' q' l :
  rep w L → w_self w = Some c → w_ctxs w !! c = Some k → (g = NewLocal ∨ g = NewGlobal) →
  (∀ a, l ∉ L a) → links_written (w_sessions w) h' (l :: L g) →
  slist_rep h' q' (L g ++ [l]) →
  rep (match g with
       | NewGlobal => with_global_new q' (with_sessions h' w)
       | _ => with_ctxs (<[c := set_new q' k]> (w_ctxs w)) (with_sessions h' w)
       end) (upd_spot L g (L g ++ [l])).
Proof.
  intros (c' & k' & Hc & Hk & Hl & Hn & Hg & Hd) Hc' Hk' Hgg Hx Hw Hr. simplify_eq.
  pose proof (fun b => agree_other_lists _ _ L g b l (L g) Hw Hd ltac:(done)
                ltac:(intros a Ha; by destruct (Hx a))) as Hag.
  assert (Hdis : ∀ a b y, y ∈ upd_spot L g (L g ++ [l]) a → y ∈ upd_spot L g (L g ++ [l]) b →
    a = b).
  { assert (Hb : ∀ a y, y ∈ upd_spot L g (L g ++ [l]) a → y ∈ L a ∨ (y = l ∧ a = g)).
    { intros a y. unfold upd_spot. case_decide; [subst; set_solver|by left]. }
    intros a b y [Ha|[-> ->]]%Hb [Hb'|[E ->]]%Hb; subst; eauto; by destruct (Hx _ Ha) || by destruct (Hx _ Hb'). }
  assert (Hpl : ∀ p, dlist_rep h' (c_lists k' p) (upd_spot L g (L g ++ [l]) (At p))).
  { intros p. unfold upd_spot. rewrite decide_False by (by destruct Hgg as [-> | ->]).
    eapply dlist_rep_agree; [|apply Hl]. apply Hag. by destruct Hgg as [-> | ->]. }
  destruct Hgg as [-> | ->].
  - exists c', (set_new q' k'). simpl. split_and!; [done|by rewrite lookup_insert_eq|done|done| |done].
    eapply slist_rep_agree; [|exact Hg]. by apply Hag.
  - exists c', k'. simpl. split_and!; [done|done|done| |done|done].
    eapply slist_rep_agree; [|exact Hn]. by apply Hag.
Qed.

Lemma wp_join_new E g l s Q w :
  (g = NewLocal ∨ g = NewGlobal) →
  holds w l None s → (∀ w', holds w' l (Some g) s → Q tt w') →
  wp E (match g with NewGlobal => esq_join_global_new_list l | _ => esq_join_local_new_list l end)
    Q w.
Proof.
  intros Hg (Hsf & L & Hr & Ha & (s0 & Hs & E0) & Ho) HQ.
  pose proof Hr as (c & k & Hc & Hk & _ & Hn & Hgl & _).
  assert (∃ q, slist_rep (w_sessions w) q (L g) ∧
    q = match g with NewGlobal => w_global_new w | _ => c_new k end) as (q & Hq & Eq)
    by (destruct Hg as [-> | ->]; eauto).
  destruct (join_new_list_ok _ _ _ l Hq (Ha g) ltac:(eauto)) as (h' & q' & Ef & Hd & Hw).
  pose proof (rep_new_list w L c k g h' q' l Hr Hc Hk Hg Ha Hw Hd) as Hrep.
  destruct (links_written_self _ _ _ _ _ Hw Hs) as (s1 & Hs1 & E1).
  assert (Hend : ∀ w', rep w' (upd_spot L g (L g ++ [l])) → w_sessions w' = h' → w_self w' = w_self w →
    holds w' l (Some g) s).
  { intros w' Hrw <- Esf. split; [congruence|]. exists (upd_spot L g (L g ++ [l])). split_and!;
      [done| |by exists s1; split; [|congruence]| |].
    - simpl. unfold upd_spot. rewrite decide_True by done. set_solver.
    - intros b. rewrite <- (proj1 Ho b). unfold upd_spot. case_decide; [subst|done].
      unfold without. rewrite filter_app, filter_cons. case_decide; [done|]. by rewrite app_nil_r.
    - intros x Hne. rewrite <- (proj2 Ho x Hne). by eapply links_written_rest. }
  destruct Hg as [-> | ->]; subst q;
    unfold wp, esq_join_local_new_list, esq_join_global_new_list, reads, ctx_get, relink, mbind,
      M_bind; simpl; rewrite ?Hc; simpl; rewrite ?Hk, Ef; simpl; by apply HQ, Hend.
Qed.

(** What changes neither sessions nor list ends. *)
Lemma holds_frame w w' l a s :
  holds w l a s →
  w_sessions w' = w_sessions w → w_self w' = w_self w → w_global_new w' = w_global_new w →
  (∀ c k, w_ctxs w !! c = Some k →
     ∃ k', w_ctxs w' !! c = Some k' ∧ c_lists k' = c_lists k ∧ c_new k' = c_new k) →
  holds w' l a s.
Proof.
  intros (Hsf & L & (c & k & Hc & Hk & Hl & Hn & Hg & Hd) & Ha & Hs & Ho) Es Ec Eg Hctx.
  destruct (Hctx c k Hk) as (k' & Hk' & El & En).
  split; [congruence|]. exists L. rewrite Es. split_and!; [|done|done|apply Ho..].
  exists c, k'. rewrite Es, Ec, Eg, El, En. done.
Qed.

Lemma wp_worker_get_ctx E l a s Q w :
  holds w l a s → (∀ c, w_self w = Some c → Q c w) → wp E esq_worker_get_ctx Q w.
Proof.
  intros (_ & L & (c & k & Hc & _) & _) HQ. unfold wp, esq_worker_get_ctx. rewrite Hc. by apply HQ.
Qed.

Lemma wp_say E e l a s Q w :
  holds w l a s → (∀ w', holds w' l a s → Q tt w') → wp E (say e) Q w.
Proof. intros Hh HQ. apply HQ. eapply holds_frame; eauto. Qed.

Lemma wp_with_stop E b l a s Q w :
  holds w l a s → (∀ w', holds w' l a s → Q tt w') → wp E (modifies (with_stop b)) Q w.
Proof. intros Hh HQ. apply HQ. eapply holds_frame; eauto. Qed.

Lemma wp_update_polling E l a s Q w :
  holds w l a s → (∀ w', holds w' l a s → Q tt w') → wp E esq_update_polling_interval Q w.
Proof.
  intros Hh HQ. apply wp_bind. eapply wp_worker_get_ctx; [done|]. intros c Hc.
  pose proof Hh as (_ & L & (c' & k & Hc' & Hk & _) & _).
  assert (c' = c) as -> by congruence.
  unfold wp, esq_session_update_polling_interval, ctx_get, mbind, M_bind. rewrite Hk. simpl.
  apply HQ. eapply holds_frame; [done..|]. intros c1 k1 Hk1. simpl.
  destruct (decide (c1 = c)) as [->|Hne].
  - rewrite lookup_insert_eq. simplify_eq. eauto.
  - rewrite lookup_insert_ne by done. eauto.
Qed.

Lemma wp_join_active E l s Q w :
  holds w l None s → (∀ w', holds w' l (Some (At list_of_active)) s → Q tt w') →
  wp E (esq_session_join_active_list l) Q w.
Proof. apply wp_join_tail. Qed.

Lemma wp_left_active E l s Q w :
  holds w l (Some (At list_of_active)) s → (∀ w', holds w' l None s → Q tt w') →
  wp E (esq_session_left_active_list l) Q w.
Proof. apply wp_left. Qed.

(** The list a session's own timeout selects. *)
Definition timing_spot (s : session) : spot := At (timing_list (s_timeouts s) (s_timeoutms s)).

Lemma wp_record_wind_up E l a s Q w :
  holds w l a s →
  (∀ w' x y, holds w' l a (set_wind_up_ms y (set_wind_up_s x s)) → Q tt w') →
  wp E (RECORD_WIND_UP_TIME l) Q w.
Proof.
  intros Hh HQ. apply wp_bind, wp_reads. destruct (w_now w) as [[sec usec]|].
  - apply wp_bind. eapply wp_set; [exact Hh|done..|]. intros w1 Hh1.
    eapply wp_set; [exact Hh1|done..|]. intros w2. apply HQ.
  - eapply wp_with_stop; [exact Hh|]. intros w1 Hh1.
    apply (HQ w1 (s_wind_up_s s) (s_wind_up_ms s)). by destruct s.
Qed.

Lemma wp_join_timing E l s Q w :
  holds w l None s →
  (∀ w' x y, holds w' l (Some (timing_spot s)) (set_wind_up_ms y (set_wind_up_s x s)) →
     Q tt w') →
  wp E (esq_session_join_timing_list l) Q w.
Proof.
  intros Hh HQ. apply wp_bind. eapply wp_worker_get_ctx; [done|]. intros c _.
  apply wp_bind. eapply wp_get; [done..|]. apply wp_bind. eapply wp_get; [done..|].
  apply wp_bind. eapply wp_join_head; [done|]. intros w' Hh'.
  eapply wp_record_wind_up; [exact Hh'|]. apply HQ.
Qed.

Lemma wp_left_timing E l s Q w :
  holds w l (Some (timing_spot s)) s → (∀ w', holds w' l None s → Q tt w') →
  wp E (esq_session_left_timing_list l) Q w.
Proof.
  intros Hh HQ. apply wp_bind. eapply wp_worker_get_ctx; [done|]. intros c _.
  apply wp_bind. eapply wp_get; [done..|]. apply wp_bind. eapply wp_get; [done..|].
  by eapply wp_left.
Qed.

(** Afterwards the session waits without a timeout, whichever list it was in. *)
Lemma wp_change_to_no_timing E l s Q w :
  holds w l (Some (timing_spot s)) s →
  (∀ w' x y, holds w' l (Some (At list_of_no_time))
     (set_wind_up_ms y (set_wind_up_s x (set_timeoutms 0 (set_timeouts 0 s)))) → Q tt w') →
  wp E (esq_session_change_to_no_timing_list l) Q w.
Proof.
  intros Hh HQ. apply wp_bind. eapply wp_get; [done..|]. apply wp_bind.
  eapply wp_get; [done..|].
  destruct (negb (s_timeouts s =? 0) || negb (s_timeoutms s =? 0)) eqn:Et.
  - apply wp_bind. eapply wp_left_timing; [done|]. intros w1 Hh1.
    apply wp_bind. eapply wp_set; [exact Hh1|done..|]. intros w2 Hh2.
    apply wp_bind. eapply wp_set; [exact Hh2|done..|]. intros w3 Hh3.
    eapply wp_join_timing; [exact Hh3|]. apply HQ.
  - apply wp_ret. apply orb_false_iff in Et as [E1 E2].
    rewrite negb_false_iff, Z.eqb_eq in E1, E2. unfold timing_spot in Hh. rewrite E1, E2 in Hh.
    apply (HQ w (s_wind_up_s s) (s_wind_up_ms s)).
    eapply holds_ext; [|exact Hh]. destruct s; simpl in *; subst; done.
Qed.

Lemma wp_add_socket_fd E fd bits l a s Q w :
  holds w l a s → (∀ w', holds w' l a s → Q ESQ_OK w') →
  wp E (esq_os_events_add_socket_fd fd l bits) Q w.
Proof.
  intros Hh HQ. apply wp_bind. eapply wp_worker_get_ctx; [done|]. intros c _.
  apply wp_bind. eapply wp_say; [done|]. intros w'. apply HQ.
Qed.

Lemma wp_add_socket_fd_multishot E fd bits l a s Q w :
  holds w l a s → (∀ w', holds w' l a s → Q ESQ_OK w') →
  wp E (esq_os_events_add_socket_fd_multishot fd l bits) Q w.
Proof.
  intros Hh HQ. apply wp_bind. eapply wp_worker_get_ctx; [done|]. intros c _.
  apply wp_bind. eapply wp_say; [done|]. intros w'. apply HQ.
Qed.

Lemma wp_remove_socket_fd E l a s Q w :
  holds w l a s → (∀ w', holds w' l a s → Q ESQ_OK w') →
  wp E (esq_os_events_remove_socket_fd l) Q w.
Proof.
  intros Hh HQ. apply wp_bind. eapply wp_worker_get_ctx; [done|]. intros c _.
  apply wp_bind. eapply wp_say; [done|]. intros w'. apply HQ.
Qed.
End Assertion.
