(* ===== verification/H2Conn.v ===== *)
(** * Connections from start to end

    [nghttp2_wrapper/session.c]: a connection is accepted, shakes hands ([alpn]), sends its
    settings ([sch]) and then runs the HTTP library on what arrives, each step a callback of
    its socket, until something ends it.  [nghttp2_wrapper/instance.c]: an instance is started,
    listens, and its socket is closed.

    OpenSSL, the HTTP library, the kernel and the event core are parameters: what they answer
    is in [answers], [accept_answers] and [start_answers].  While the HTTP library receives or
    sends it calls the functions of [H2Stream] ([event]s). *)
From stdpp Require Import strings.
From S2P Require Import Prelude Session CString LinkedList HeadMatch Cookie SfsFolder H2Stream H2StreamThms.

(** ** OpenSSL *)

Definition NGHTTP2_ERR_WOULDBLOCK : Z := -504.
Definition SSL_ERROR_WANT_READ : Z := 2.
Definition SSL_ERROR_WANT_WRITE : Z := 3.
Definition SSL_ERROR_WANT_CONNECT : Z := 7.
Definition SSL_ERROR_WANT_ACCEPT : Z := 8.

(** [r] is what [SSL_read], [SSL_write] or [SSL_accept] returned, [err] what [SSL_get_error]
    says about it. *)
Definition h2esq_session_recv_cb (r err : Z) : Z :=
  if 0 <=? r then r else if SSL_ERROR_WANT_READ =? err then NGHTTP2_ERR_WOULDBLOCK else NGHTTP2_ERR_CALLBACK_FAILURE.
Definition h2esq_session_send_cb (r err : Z) : Z :=
  if 0 <=? r then r else if SSL_ERROR_WANT_WRITE =? err then NGHTTP2_ERR_WOULDBLOCK else NGHTTP2_ERR_CALLBACK_FAILURE.

(** 0: finished, 1: continue, -1: error. *)
Definition h2esq_SSL_accept (r err : Z) : Z :=
  if 1 =? r then 0
  else if (err =? SSL_ERROR_WANT_READ) || (err =? SSL_ERROR_WANT_WRITE) || (err =? SSL_ERROR_WANT_CONNECT) || (err =? SSL_ERROR_WANT_ACCEPT) then 1
  else -1.

(** ** Connections *)

Inductive conn_cb := h2esq_session_fd_alpn_cb | h2esq_session_fd_sch_cb | h2esq_session_fd_cb.

(** What is given back. *)
Inductive release := RNgh2 | RSslShutdown | RSsl | RClose (fd : Z) | RFree | RWindUp | RHmt.

(** What a callback of the socket leaves: the next callback and the events it waits for, or
    what it gave back, or nothing of both. *)
Inductive next := Installed (cb : conn_cb) (bits : Z) | Ended (l : list release) | Nothing.

(** What is answered while one callback runs: the events of the socket, the handshake, the
    settings, what the HTTP library wants, does and returns, and whether the socket was
    installed again. *)
Record answers := Answers {
  a_bits : Z;
  a_accept : Z;
  a_ssl_error : Z;
  a_submit : Z;
  a_want_read : bool;
  a_recv : list event * Z;
  a_want_write : bool;
  a_send : list event * Z;
  a_want_read2 : bool;
  a_want_write2 : bool;
  a_set_fd : Z
}.

Section Conn.
  Context {App Svc World : Type}.
  Local Notation instance := (h2esq_instance_t App Svc World).
  Local Notation session := (h2esq_session_t App).
  Implicit Types (inst : instance) (S : session) (w : World) (a : answers).

Definition has (bits b : Z) : bool := negb (Z.land bits b =? 0).

(** The events at which every callback ends the connection. *)
Definition ending (bits : Z) : bool :=
  has bits ESQ_EVENT_BIT_EXIT || has bits ESQ_EVENT_BIT_LOCK_OBTAIN || has bits ESQ_EVENT_BIT_FD_CLOSE ||
  has bits ESQ_EVENT_BIT_ERROR || has bits ESQ_EVENT_BIT_TIMEOUT.

(** [__exx] *)
Definition release_all (fd : Z) : next := Ended [RNgh2; RSslShutdown; RSsl; RClose fd; RFree].

Definition read_or_write : Z := Z.lor ESQ_EVENT_BIT_READ ESQ_EVENT_BIT_WRITE.

Definition install (fd : Z) (cb : conn_cb) (bits r : Z) : next := if negb (r =? 0) then release_all fd else Installed cb bits.

Definition alpn_cb (fd : Z) a : cres next :=
  if fd <=? 0 then Exit else
  if a_bits a =? 0 then Exit else
  if ending (a_bits a) then Ret (release_all fd) else
  if has (a_bits a) ESQ_EVENT_BIT_READ || has (a_bits a) ESQ_EVENT_BIT_WRITE then
    let r := h2esq_SSL_accept (a_accept a) (a_ssl_error a) in
    Ret (if 1 =? r then install fd h2esq_session_fd_alpn_cb read_or_write (a_set_fd a)
         else if 0 =? r then install fd h2esq_session_fd_sch_cb read_or_write (a_set_fd a)
         else release_all fd)
  else Ret Nothing.

Definition h2esq_send_server_connection_header (r : Z) : Z := if negb (r =? 0) then -1 else 0.

Definition sch_cb (fd : Z) a : cres next :=
  if fd <=? 0 then Exit else
  if ending (a_bits a) then Ret (release_all fd) else
  if has (a_bits a) ESQ_EVENT_BIT_READ || has (a_bits a) ESQ_EVENT_BIT_WRITE then
    Ret (if negb (h2esq_send_server_connection_header (a_submit a) =? 0) then release_all fd
         else install fd h2esq_session_fd_cb read_or_write (a_set_fd a))
  else Ret Nothing.

(** The calls of the HTTP library, one after the other. *)
Fixpoint run_events inst S w (l : list event) : cres (session * World) :=
  match l with
  | [] => Ret (S, w)
  | e :: l => '(S, w) ← exec inst S w e; run_events inst S w l
  end.

(** One of the two parts of [h2esq_session_fd_cb] that run the HTTP library: whether it goes on. *)
Definition run_library inst S w (bit : bool) (want : bool) (l : list event) (r : Z) : cres (bool * session * World) :=
  if bit && want then '(S, w) ← run_events inst S w l; Ret (r =? 0, S, w) else Ret (true, S, w).

(** [__exx] of [h2esq_session_fd_cb]. *)
Definition close_all inst S w (fd : Z) : cres (next * session * World) :=
  '(S, w) ← close_streams (size (streams S)) inst S w; Ret (release_all fd, S, w).

(** [done] is what the callbacks of finished tasks do. *)
Definition fd_cb (done : World → World) inst (fd : Z) a S w : cres (next * session * World) :=
  let w := if has (a_bits a) ESQ_EVENT_BIT_TASK_DONE then done w else w in
  if ending (a_bits a) then close_all inst S w fd else
  '(ok, S, w) ← run_library inst S w (has (a_bits a) ESQ_EVENT_BIT_READ) (a_want_read a) (a_recv a).1 (a_recv a).2;
  if negb ok then close_all inst S w fd else
  '(ok, S, w) ← run_library inst S w (has (a_bits a) ESQ_EVENT_BIT_WRITE) (a_want_write a) (a_send a).1 (a_send a).2;
  if negb ok then close_all inst S w fd else
  let bits := Z.lor (if a_want_read2 a then ESQ_EVENT_BIT_READ else 0) (if a_want_write2 a then ESQ_EVENT_BIT_WRITE else 0) in
  if bits =? 0 then close_all inst S w fd else
  if fd <=? 0 then Exit else
  if negb (a_set_fd a =? 0) then close_all inst S w fd else Ret (Installed h2esq_session_fd_cb bits, S, w).

(** The callback of a socket. *)
Definition call_back (done : World → World) inst (fd : Z) (cb : conn_cb) a S w : cres (next * session * World) :=
  match cb with
  | h2esq_session_fd_alpn_cb => n ← alpn_cb fd a; Ret (n, S, w)
  | h2esq_session_fd_sch_cb => n ← sch_cb fd a; Ret (n, S, w)
  | h2esq_session_fd_cb => fd_cb done inst fd a S w
  end.
End Conn.

(** ** Accepting *)

Record accept_answers := AcceptAnswers {
  b_malloc : bool;
  b_accept : Z;
  b_nonblocking : Z;
  b_ssl_new : bool;
  b_session_new : bool;
  b_callbacks : bool;
  b_server_new : Z;
  b_ssl_set_fd : Z;
  b_set_fd : Z
}.

(** What there is when it fails. *)
Definition give_back (ssl : bool) (fd : Z) (mem esq_session ngh2 : bool) : list release :=
  (if ssl then [RSslShutdown; RSsl] else []) ++ (if negb (-1 =? fd) then [RClose fd] else []) ++
  (if mem then [RFree] else []) ++ (if esq_session then [RWindUp] else []) ++ (if ngh2 then [RNgh2] else []).

Definition h2esq_new_nghttp2_session (b : accept_answers) : bool := if negb (b_callbacks b) then false else b_server_new b =? 0.

(** What is given back, or the socket of the new connection. *)
Definition h2esq_create_new_session (b : accept_answers) : list release + Z :=
  let fd := b_accept b in
  if negb (b_malloc b) then inl (give_back false fd false false false) else
  if -1 =? fd then inl (give_back false fd true false false) else
  if negb (b_nonblocking b =? 0) then inl (give_back false fd true false false) else
  if negb (b_ssl_new b) then inl (give_back false fd true false false) else
  if negb (b_session_new b) then inl (give_back true fd true false false) else
  if negb (h2esq_new_nghttp2_session b) then inl (give_back true fd true true false) else
  if b_ssl_set_fd b =? 0 then inl (give_back true fd true true true) else
  if negb (b_set_fd b =? 0) then inl (give_back true fd true true true) else inr fd.

(** ** Instances *)

Section Instances.
  Context {App Svc World : Type}.
  Local Notation instance := (h2esq_instance_t App Svc World).

(** An entry of [h2esq_instance_list] with the fields that [H2Stream] leaves out. *)
Record server := Server { v_inst : instance; v_port : Z; v_sd : Z; v_session : bool }.

Record start_answers := StartAnswers {
  c_ssl_ctx : bool;
  c_session : bool;
  c_path_hmt : bool;
  c_var_hmt : bool;
  c_socket : Z;
  c_nonblocking : Z;
  c_setsockopt : Z;
  c_bind : Z;
  c_listen : Z;
  c_set_fd : Z
}.

(** The error, the socket of the instance after it, and what was given back. *)
Definition h2esq_prepare_server_socket (sd0 : Z) (c : start_answers) : option string * Z * list release :=
  let sd := c_socket c in
  if -1 =? sd then (Some "failed to open new socket"%string, sd0, []) else
  if negb (c_nonblocking c =? 0) then (Some "failed to set socket to non-blocking"%string, sd0, [RClose sd]) else
  if negb (c_setsockopt c =? 0) then (Some "failed to set socket option"%string, sd0, [RClose sd]) else
  if negb (c_bind c =? 0) then (Some "failed to bind socket"%string, sd0, [RClose sd]) else
  if negb (c_listen c =? 0) then (Some "failed to listen"%string, sd0, [RClose sd]) else
  if negb (c_set_fd c =? 0) then (Some "failed to wind up socket event"%string, sd, [RClose sd]) else (None, sd, []).

(** The first entry without a name. *)
Fixpoint free_server (l : list server) : cres (option nat) :=
  match l with
  | [] => Ret None
  | v :: l => c ← rd (i_name (v_inst v)) 0; if negb (c =? 0) then o ← free_server l; Ret (option_map S o) else Ret (Some O)
  end.

Definition H2ESQ_PATH_HANDLER_MAX : Z := 100.
Definition H2ESQ_INSTANCE_VAR_MAX : Z := 100.

(** The entry that is started, in which a freed tree is [None]. *)
Definition start_server (v : server) (name : list Z) (port : Z) (t : hmt_t) (c : start_answers) : cres (option string * server * list release) :=
  nm ← c_strcpy (i_name (v_inst v)) name;
  let '(errs, sd, l) := h2esq_prepare_server_socket (v_sd v) c in
  match errs with
  | Some e =>
      nm ← wr nm 0 0;
      Ret (Some e, Server (Instance_ _ _ _ nm None (service (v_inst v))) port sd true, l ++ [RHmt; RHmt; RWindUp])
  | None => Ret (None, Server (Instance_ _ _ _ nm (Some t) (service (v_inst v))) port sd true, l)
  end.

Definition h2esq_start_instance (l : list server) (name : list Z) (port : Z) (c : start_answers)
    : cres (option string * list server * list release) :=
  if port <=? 0 then Ret (Some "invalid port number"%string, l, []) else
  n ← c_strnlen name H2ESQ_SERVER_INSTANCE_NAME_MAX;
  if (Z.of_nat H2ESQ_SERVER_INSTANCE_NAME_MAX <=? n) || (n <=? 0) then Ret (Some "new server name too long"%string, l, []) else
  o ← free_server l;
  match o with
  | None => Ret (Some "too many instances"%string, l, [])
  | Some i =>
      if negb (c_ssl_ctx c) then Ret (Some "ssl ctx not found"%string, l, []) else
      if negb (c_session c) then Ret (Some "failed to create new esq session"%string, l, []) else
      match hmt_new2 (c_path_hmt c) H2ESQ_PATH_HANDLER_MAX HMT_SCALE_32 with
      | None => Ret (Some "out of memory"%string, l, [RWindUp])
      | Some t =>
          match hmt_new2 (c_var_hmt c) H2ESQ_INSTANCE_VAR_MAX HMT_SCALE_64 with
          | None => Ret (Some "out of memory"%string, l, [RHmt; RWindUp])
          | Some _ =>
              v ← rd l (Z.of_nat i);
              '(e, v, k) ← start_server v name port t c;
              l ← wr l (Z.of_nat i) v;
              Ret (e, l, k)
          end
      end
  end.

(** The instance without its socket, what was closed, and whether its session is to be removed. *)
Definition h2esq_instance_close_sd (v : server) : server * list release * bool :=
  if -1 =? v_sd v then (v, [], v_session v)
  else (Server (v_inst v) (v_port v) (-1) (v_session v), [RClose (v_sd v)], v_session v).

(** A callback of the socket of an instance: the instance, what was given back, and the socket
    of a new connection. *)
Definition h2esq_server_sd_cb (v : server) (bits : Z) (b : accept_answers) : cres (server * list release * option Z) :=
  if bits =? 0 then Exit else
  if has bits ESQ_EVENT_BIT_EXIT then let '(v, l, _) := h2esq_instance_close_sd v in Ret (v, l, None) else
  let '(l, o) := if has bits ESQ_EVENT_BIT_READ then match h2esq_create_new_session b with inl l => (l, None) | inr fd => ([], Some fd) end else ([], None) in
  if has bits ESQ_EVENT_BIT_LOCK_OBTAIN || has bits ESQ_EVENT_BIT_FD_CLOSE || has bits ESQ_EVENT_BIT_ERROR || has bits ESQ_EVENT_BIT_TIMEOUT then Exit
  else Ret (v, l, o).

(** The entries at the start; the services that are told the end, in order. *)
Definition h2esq_instance_init : list server :=
  replicate 8 (Server (Instance_ _ _ _ (replicate H2ESQ_SERVER_INSTANCE_NAME_MAX 0) None (replicate H2ESQ_INSTANCE_SERVICE_MAX None)) 0 (-1) false).
Definition h2esq_instance_detach (l : list server) : list (service_class App Svc World * Svc) :=
  concat ((fun v => omap (fun o => o) (service (v_inst v))) <$> l).
End Instances.
Arguments server : clear implicits.
