(* ===== verification/H2ConnThms.v ===== *)
(** * Connections give back what they take

    [alive] are the states of a connection between two callbacks of its socket.  A callback
    leaves it in order with the next callback installed, or ends it: then its streams are
    closed and everything it had is given back, once.  An instance that is started is
    empty and found by its name; an error leaves no trace of it. *)
From stdpp Require Import strings.
From S2P Require Import Prelude Session CString LinkedList HeadMatch Cookie SfsFolder H2Stream H2StreamThms H2Conn.

Section Life.
  Context {App Svc World : Type} (app_ok : Svc → App → Prop) (world_ok : World → Prop).
  Context (done : World → World) (Hdone : ∀ w, world_ok w → world_ok (done w)).
  Context (inst : h2esq_instance_t App Svc World) (Hs : services_ok app_ok world_ok inst) (fd : Z) (Hfd : 0 < fd).
  Local Notation session := (h2esq_session_t App).
  Implicit Types (S : session) (w : World) (a : answers).

(** The HTTP library calls in order ([event_ok]) all along the events [l]. *)
Fixpoint events_ok S w (l : list event) : Prop :=
  match l with
  | [] => True
  | e :: l => event_ok S e ∧ ∀ S' w', exec inst S w e = Ret (S', w') → events_ok S' w' l
  end.

Definition answers_ok (cb : conn_cb) S w a : Prop :=
  match cb with
  | h2esq_session_fd_alpn_cb => a_bits a ≠ 0
  | h2esq_session_fd_sch_cb => True
  | h2esq_session_fd_cb =>
      let w := if has (a_bits a) ESQ_EVENT_BIT_TASK_DONE then done w else w in
      events_ok S w (a_recv a).1 ∧
      ∀ ok S' w', run_library inst S w (has (a_bits a) ESQ_EVENT_BIT_READ) (a_want_read a) (a_recv a).1 (a_recv a).2 = Ret (ok, S', w') →
        events_ok S' w' (a_send a).1
  end.

Inductive alive : conn_cb → session → World → Prop :=
| alive_new w : world_ok w → alive h2esq_session_fd_alpn_cb (H2Stream.Session _ ∅ ∅ dlist_empty) w
| alive_step cb S w a cb' bits S' w' : alive cb S w → answers_ok cb S w a →
    call_back done inst fd cb a S w = Ret (Installed cb' bits, S', w') → alive cb' S' w'.

Definition in_order S w : Prop := session_ok app_ok inst S ∧ world_ok w.

Lemma run_events_ok S w l : in_order S w → events_ok S w l → ∃ S' w', run_events inst S w l = Ret (S', w') ∧ in_order S' w'.
Proof.
  revert S w. induction l as [|e l IH]; intros S w [HS Hw] He; cbn [run_events]; [by exists S, w|]. destruct He as [He Hl].
  destruct (exec_ok app_ok world_ok inst S w e Hs HS Hw He) as (S' & w' & E & HS' & Hw'). rewrite E. cbn [mbind cres_bind].
  apply IH; [done|by apply Hl].
Qed.

Lemma run_library_ok S w bit want l r : in_order S w → events_ok S w l →
  ∃ ok S' w', run_library inst S w bit want l r = Ret (ok, S', w') ∧ in_order S' w'.
Proof.
  intros Ho He. unfold run_library. destruct (bit && want); [|by exists true, S, w].
  destruct (run_events_ok S w l Ho He) as (S' & w' & -> & Ho'). cbn [mbind cres_bind]. by exists (r =? 0), S', w'.
Qed.

Lemma close_all_ok S w : in_order S w → ∃ S' w', close_all inst S w fd = Ret (release_all fd, S', w') ∧ streams S' = ∅.
Proof.
  intros [HS Hw]. unfold close_all. destruct (close_streams_ok app_ok world_ok (size (streams S)) inst S (user_data S) w Hs HS Hw (Nat.le_refl _)) as (S' & w' & E & _ & He).
  replace (H2Stream.Session _ (user_data S) (streams S) (stream_list S)) with S in E by (by destruct S). rewrite E. cbn [mbind cres_bind]. by exists S', w'.
Qed.

(** The callback that may follow. *)
Definition follows (cb cb' : conn_cb) : Prop :=
  match cb with
  | h2esq_session_fd_alpn_cb => cb' = h2esq_session_fd_alpn_cb ∨ cb' = h2esq_session_fd_sch_cb
  | _ => cb' = h2esq_session_fd_cb
  end.

(** What a callback leaves. *)
Definition left_by (cb : conn_cb) a (n : next) S w : Prop :=
  match n with
  | Installed cb' bits => follows cb cb' ∧ bits ≠ 0 ∧ in_order S w ∧ (cb' ≠ h2esq_session_fd_cb → streams S = ∅)
  | Ended l => l = [RNgh2; RSslShutdown; RSsl; RClose fd; RFree] ∧ streams S = ∅
  | Nothing => cb ≠ h2esq_session_fd_cb ∧ has (a_bits a) ESQ_EVENT_BIT_READ = false ∧ has (a_bits a) ESQ_EVENT_BIT_WRITE = false
  end.

Definition leaves (cb : conn_cb) a (m : cres (next * session * World)) : Prop :=
  ∃ n S' w', m = Ret (n, S', w') ∧ left_by cb a n S' w' ∧ (ending (a_bits a) = true → n = release_all fd).

Lemma install_left cb cb' bits r a S w : follows cb cb' → bits ≠ 0 → in_order S w → streams S = ∅ → ending (a_bits a) = false →
  leaves cb a (Ret (install fd cb' bits r, S, w)).
Proof.
  intros H1 H2 H3 H4 H5. exists (install fd cb' bits r), S, w. split; [done|]. split; [|by rewrite H5].
  unfold install. by destruct (negb (r =? 0)).
Qed.

Lemma alpn_cb_ok a S w : a_bits a ≠ 0 → in_order S w → streams S = ∅ → leaves h2esq_session_fd_alpn_cb a (n ← alpn_cb fd a; Ret (n, S, w)).
Proof.
  intros Hb Ho He. unfold alpn_cb. rewrite (proj2 (Z.leb_gt fd 0)), (proj2 (Z.eqb_neq _ 0)) by done.
  assert (Hrel : leaves h2esq_session_fd_alpn_cb a (Ret (release_all fd, S, w))) by (by exists (release_all fd), S, w).
  destruct (ending (a_bits a)) eqn:Ee; cbn [mbind cres_bind]; [done|].
  destruct (has (a_bits a) ESQ_EVENT_BIT_READ || has (a_bits a) ESQ_EVENT_BIT_WRITE) eqn:Er; cbn [mbind cres_bind].
  - destruct (1 =? _); [apply install_left; try done; by left|]. destruct (0 =? _); [apply install_left; try done; by right|done].
  - apply orb_false_iff in Er. exists Nothing, S, w. split; [done|]. split; [done|by rewrite Ee].
Qed.

Lemma sch_cb_ok a S w : in_order S w → streams S = ∅ → leaves h2esq_session_fd_sch_cb a (n ← sch_cb fd a; Ret (n, S, w)).
Proof.
  intros Ho He. unfold sch_cb. rewrite (proj2 (Z.leb_gt fd 0)) by done.
  assert (Hrel : leaves h2esq_session_fd_sch_cb a (Ret (release_all fd, S, w))) by (by exists (release_all fd), S, w).
  destruct (ending (a_bits a)) eqn:Ee; cbn [mbind cres_bind]; [done|].
  destruct (has (a_bits a) ESQ_EVENT_BIT_READ || has (a_bits a) ESQ_EVENT_BIT_WRITE) eqn:Er; cbn [mbind cres_bind].
  - destruct (negb _); [done|]. by apply install_left.
  - apply orb_false_iff in Er. exists Nothing, S, w. split; [done|]. split; [done|by rewrite Ee].
Qed.

Lemma fd_cb_ok a S w : in_order S w → answers_ok h2esq_session_fd_cb S w a → leaves h2esq_session_fd_cb a (fd_cb done inst fd a S w).
Proof.
  intros [HS Hw] [Hrecv Hsend]. unfold fd_cb. set (w0 := if has _ _ then done w else w) in *.
  assert (Ho : in_order S w0) by (split; [done|]; unfold w0; destruct (has _ _); auto).
  assert (Hcl : ∀ S w, in_order S w → leaves h2esq_session_fd_cb a (close_all inst S w fd)).
  { intros S1 w1 H1. destruct (close_all_ok S1 w1 H1) as (S2 & w2 & -> & He). by exists (release_all fd), S2, w2. }
  destruct (ending (a_bits a)) eqn:Ee; [by apply Hcl|].
  destruct (run_library_ok S w0 (has (a_bits a) ESQ_EVENT_BIT_READ) (a_want_read a) (a_recv a).1 (a_recv a).2 Ho Hrecv) as (ok1 & S1 & w1 & E1 & Ho1).
  specialize (Hsend _ _ _ E1). rewrite E1. cbn [mbind cres_bind]. destruct ok1; cbn [negb]; [|by apply Hcl].
  destruct (run_library_ok S1 w1 (has (a_bits a) ESQ_EVENT_BIT_WRITE) (a_want_write a) (a_send a).1 (a_send a).2 Ho1 Hsend) as (ok2 & S2 & w2 & -> & Ho2).
  cbn [mbind cres_bind]. destruct ok2; cbn [negb]; [|by apply Hcl]. set (bits := Z.lor _ _).
  destruct (Z.eqb_spec bits 0); [by apply Hcl|]. rewrite (proj2 (Z.leb_gt fd 0)) by done. destruct (negb (a_set_fd a =? 0)); [by apply Hcl|].
  exists (Installed h2esq_session_fd_cb bits), S2, w2. split; [done|]. split; [done|by rewrite Ee].
Qed.

Lemma call_back_ok cb a S w : in_order S w → (cb ≠ h2esq_session_fd_cb → streams S = ∅) → answers_ok cb S w a →
  leaves cb a (call_back done inst fd cb a S w).
Proof. intros Ho He Ha. destruct cb; [apply alpn_cb_ok|apply sch_cb_ok|apply fd_cb_ok]; auto. Qed.

Lemma alive_ok cb S w : alive cb S w → in_order S w ∧ (cb ≠ h2esq_session_fd_cb → streams S = ∅).
Proof.
  induction 1 as [w Hw|cb S w a cb' bits S' w' _ [Ho He] Ha E]; [split; [split; [apply new_session_ok|done]|done]|].
  destruct (call_back_ok cb a S w Ho He Ha) as (n & S2 & w2 & E2 & Hn & _). rewrite E in E2. injection E2 as <- <- <-. by destruct Hn as (_ & _ & ? & ?).
Qed.
End Life.

(** C21: At any time of a connection with a socket above 0 and services that keep their promises,
    whatever OpenSSL and the kernel answer (with some event at the first call) and whatever the
    HTTP library calls within [event_ok], the callback of its socket returns, in one of three
    ways.  It
    installs the callback of the next part with the streams in order; or it ends the
    connection: all streams are closed, and the library's session, the TLS connection, the
    socket and the memory are given back, each once; or, for a connection that is not running
    yet and an event that is neither an end nor reading or writing, it leaves the connection
    with nothing installed and nothing given back.  The end comes at once with a timeout, an
    error, a closed socket or the exit of the server. *)
Theorem h2esq_connection_correct {App Svc World : Type} (app_ok : Svc → App → Prop) (world_ok : World → Prop) (done : World → World)
    (inst : h2esq_instance_t App Svc World) fd cb S w a :
  (∀ w, world_ok w → world_ok (done w)) → services_ok app_ok world_ok inst → 0 < fd →
  alive world_ok done inst fd cb S w → answers_ok done inst cb S w a →
  ∃ n S' w', call_back done inst fd cb a S w = Ret (n, S', w') ∧
    match n with
    | Installed cb' bits => follows cb cb' ∧ bits ≠ 0 ∧ session_ok app_ok inst S' ∧ world_ok w'
    | Ended l => l = [RNgh2; RSslShutdown; RSsl; RClose fd; RFree] ∧ streams S' = ∅
    | Nothing => cb ≠ h2esq_session_fd_cb ∧ has (a_bits a) ESQ_EVENT_BIT_READ = false ∧ has (a_bits a) ESQ_EVENT_BIT_WRITE = false
    end ∧ (ending (a_bits a) = true → n = release_all fd).
Proof.
  intros Hd Hs Hfd Hal Ha. destruct (alive_ok app_ok world_ok done Hd inst Hs fd Hfd cb S w Hal) as [Ho He].
  destruct (call_back_ok app_ok world_ok done Hd inst Hs fd Hfd cb a S w Ho He Ha) as (n & S' & w' & E & Hn & Hend).
  exists n, S', w'. split; [done|]. split; [|done]. destruct n; [|done..]. destruct Hn as (? & ? & [? ?] & _). done.
Qed.

(** ** Accepting *)

#[export] Instance release_eq_dec : EqDecision release.
Proof. solve_decision. Defined.

Local Ltac members := split_and!; try (repeat constructor; set_solver); set_solver.

(** A connection that cannot be made gives back, once each, exactly what was taken for it. *)
Theorem create_new_session_gives_back b :
  match h2esq_create_new_session b with
  | inr fd => fd = b_accept b ∧ fd ≠ -1
  | inl l => NoDup l ∧ (RClose (b_accept b) ∈ l ↔ b_accept b ≠ -1) ∧ (RFree ∈ l ↔ b_malloc b = true) ∧
      (RSsl ∈ l ↔ b_malloc b = true ∧ b_accept b ≠ -1 ∧ b_nonblocking b = 0 ∧ b_ssl_new b = true) ∧
      (RNgh2 ∈ l ↔ RWindUp ∈ l ∧ h2esq_new_nghttp2_session b = true)
  end.
Proof.
  unfold h2esq_create_new_session, give_back. destruct (b_malloc b); cbn [negb].
  2:{ destruct (Z.eqb_spec (-1) (b_accept b)) as [<-|]; simpl; members. }
  destruct (Z.eqb_spec (-1) (b_accept b)) as [<-|Hne]; simpl; [members|].
  destruct (Z.eqb_spec (b_nonblocking b) 0) as [E|E]; cbn [negb]; [|members].
  destruct (b_ssl_new b); cbn [negb]; [|members].
  destruct (b_session_new b); cbn [negb app]; [|members].
  destruct (h2esq_new_nghttp2_session b); cbn [negb app]; [|members].
  destruct (b_ssl_set_fd b =? 0); [members|].
  destruct (negb (b_set_fd b =? 0)); [members|done].
Qed.

(** ** Instances *)
Section Start.
  Context {App Svc World : Type}.
  Local Notation server := (server App Svc World).
  Implicit Types (l : list server) (v : server).

Definition named_server v : Prop := i_name (v_inst v) !! 0%nat ≠ Some 0.

(** An entry without a name has no services. *)
Definition server_ok v : Prop :=
  length (i_name (v_inst v)) = H2ESQ_SERVER_INSTANCE_NAME_MAX ∧
  (¬ named_server v → service (v_inst v) = replicate H2ESQ_INSTANCE_SERVICE_MAX None).

Lemma free_server_ok l : Forall server_ok l →
  ∃ o, free_server l = Ret o ∧
    match o with
    | Some i => ∃ v, l !! i = Some v ∧ ¬ named_server v ∧ Forall named_server (take i l)
    | None => Forall named_server l
    end.
Proof.
  induction 1 as [|v l [Hl _] _ (o & E & IH)]; cbn [free_server]; [by exists None|].
  destruct (i_name (v_inst v)) as [|c nm] eqn:En; [done|]. rewrite (rd_nat _ 0 c) by done. cbn [mbind cres_bind].
  assert (Hn : named_server v ↔ c ≠ 0) by (unfold named_server; rewrite En; split; [by intros H ->|by intros H [= ->]]).
  destruct (Z.eqb_spec c 0) as [->|Hc]; cbn [negb].
  - exists (Some O). split; [done|]. exists v. split; [done|]. split; [by intros Hx%Hn|constructor].
  - rewrite E. cbn [mbind cres_bind]. eexists. split; [reflexivity|]. destruct o as [i|]; cbn [option_map].
    + destruct IH as (v' & ? & ? & ?). exists v'. split_and!; try done. simpl. apply Forall_cons. rewrite Hn. done.
    + apply Forall_cons. by rewrite Hn.
Qed.

(** The entry after starting it: a named one without services that listens, or one without a
    name, and everything given back. *)
Definition started (name : list Z) (port : Z) (c : start_answers) (e : option string) v (k : list release) : Prop :=
  match e with
  | Some _ => ¬ named_server v ∧ k = (if -1 =? c_socket c then [] else [RClose (c_socket c)]) ++ [RHmt; RHmt; RWindUp]
  | None => named_server v ∧ (∃ tl, i_name (v_inst v) = name ++ 0 :: tl) ∧ bound (v_inst v) [] ∧ v_sd v = c_socket c ∧ v_port v = port ∧ k = []
  end.

Lemma start_failed (nm : list Z) (sv : list (option (service_class App Svc World * Svc))) name port c e sd k (good : Prop) :
  ¬ good → length nm = 64%nat → sv = replicate H2ESQ_INSTANCE_SERVICE_MAX None → k = (if -1 =? c_socket c then [] else [RClose (c_socket c)]) →
  ∃ e' v' k', (nm ← wr nm 0 0; Ret (Some e, Server (Instance_ _ _ _ nm None sv) port sd true, k ++ [RHmt; RHmt; RWindUp])) = Ret (e', v', k') ∧
    server_ok v' ∧ (e' = None ↔ good) ∧ started name port c e' v' k'.
Proof.
  intros Hgd Hnm Hsv Hk. rewrite (wr_Ret nm 0) by lia. cbn [mbind cres_bind]. eexists (Some e), _, _. split; [reflexivity|].
  assert (H0 : <[0%nat := 0]> nm !! 0%nat = Some 0) by (apply list_lookup_insert_eq; lia).
  split; [split; cbn [v_inst i_name service]; [by rewrite length_insert|done]|]. split; [split; [done|by intros H%Hgd]|].
  split; [|by rewrite Hk]. intros Hx. by apply Hx.
Qed.

Lemma start_server_ok v name port t c : server_ok v → ¬ named_server v → cstring name → (0 < length name < 64)%nat →
  hmt_new2 true H2ESQ_PATH_HANDLER_MAX HMT_SCALE_32 = Some t →
  ∃ e v' k, start_server v (name ++ [0]) port t c = Ret (e, v', k) ∧ server_ok v' ∧
    (e = None ↔ c_socket c ≠ -1 ∧ c_nonblocking c = 0 ∧ c_setsockopt c = 0 ∧ c_bind c = 0 ∧ c_listen c = 0 ∧ c_set_fd c = 0) ∧
    started name port c e v' k.
Proof.
  intros [Hl Hsv] Hn Hc Hlen Ht. unfold start_server. unfold H2ESQ_SERVER_INSTANCE_NAME_MAX in *.
  rewrite c_strcpy_ok by (done || lia). cbn [mbind cres_bind]. set (nm := name ++ 0 :: drop (Datatypes.S (length name)) (i_name (v_inst v))).
  assert (Hnm : length nm = 64%nat) by (unfold nm; rewrite length_app; simpl; rewrite length_drop; lia).
  pose proof (fun e sd k good Hg => start_failed nm (service (v_inst v)) name port c e sd k good Hg Hnm (Hsv Hn)) as Hgo.
  unfold h2esq_prepare_server_socket. destruct (Z.eqb_spec (-1) (c_socket c)) as [Es|Es]; [apply Hgo; [lia|by destruct (Z.eqb_spec (-1) (c_socket c))]|].
  do 5 (match goal with |- context [negb (?x =? 0)] => destruct (Z.eqb_spec x 0); cbn [negb]; [|apply Hgo; [lia|by destruct (Z.eqb_spec (-1) (c_socket c))]] end).
  eexists _, _, _. split; [reflexivity|]. assert (Hnew : named_server (Server (Instance_ _ _ _ nm (Some t) (service (v_inst v))) port (c_socket c) true)).
  { unfold named_server, nm. cbn [v_inst i_name]. destruct name as [|x name]; [simpl in Hlen; lia|]. simpl. apply Forall_cons in Hc as [Hx _]. intros [= ->]. lia. }
  split; [by split; [|intros Hx]|]. split; [split; [lia|done]|]. split_and!; try done; [by eexists|]. cbn [v_inst].
  rewrite Hsv by done. by apply bound_new.
Qed.

#[local] Instance named_server_dec v : Decision (named_server v).
Proof. unfold named_server. apply _. Defined.

(** The request can be looked at: a port, a name that fits, an entry without a name, and TLS. *)
Definition possible l (name : list Z) (port : Z) (c : start_answers) : bool :=
  bool_decide (0 < port ∧ (0 < length name < 64)%nat ∧ ¬ Forall named_server l) && c_ssl_ctx c.

(** Whether there was a session, and then the first tree, and then the second one, and then a socket. *)
Definition got_session l name port c : bool := possible l name port c && c_session c.
Definition got_path l name port c : bool := got_session l name port c && c_path_hmt c.
Definition got_var l name port c : bool := got_path l name port c && c_var_hmt c.
Definition got_socket l name port c : bool := got_var l name port c && negb (c_socket c =? -1).

Definition can_start l name port c : Prop :=
  got_socket l name port c = true ∧ c_nonblocking c = 0 ∧ c_setsockopt c = 0 ∧ c_bind c = 0 ∧ c_listen c = 0 ∧ c_set_fd c = 0.

(** All that a failed start got, the last first. *)
Definition all_got l name port c : list release :=
  (if got_socket l name port c then [RClose (c_socket c)] else []) ++ (if got_var l name port c then [RHmt] else []) ++
  (if got_path l name port c then [RHmt] else []) ++ (if got_session l name port c then [RWindUp] else []).

Definition start_result l name port c (e : option string) l' (k : list release) : Prop :=
  Forall server_ok l' ∧ (e = None ↔ can_start l name port c) ∧
  match e with
  | None => ∃ i v, l' = <[i := v]> l ∧ (i < length l)%nat ∧ Forall named_server (take i l) ∧ started name port c None v k
  | Some _ => (∀ i v, named_server v → l' !! i = Some v ↔ l !! i = Some v) ∧ k = all_got l name port c
  end.

Lemma start_refused l name port c e k :
  Forall server_ok l → k = all_got l name port c → got_var l name port c = false →
  ∃ e' l' k', Ret (Some e, l, k) = Ret (e', l', k') ∧ start_result l name port c e' l' k'.
Proof.
  intros Hl Hk Hv. exists (Some e), l, k. split; [done|]. split; [done|]. split; [|done]. split; [done|].
  intros [Hs _]. unfold got_socket in Hs. by rewrite Hv in Hs.
Qed.

(** C22: Starting an instance returns, and without an error exactly when the port is positive, the
    name has 1 to 63 characters, an entry without a name and the TLS context are there, and
    the session, the trees, the socket and all calls on it succeed.  Then the first entry
    without a name has the name, the port, the listening socket and no services.  An error
    changes no instance that has a name, and exactly what was got is given back, once each:
    the session, each tree, and the socket. *)
Theorem h2esq_start_instance_correct l name port c : Forall server_ok l → cstring name →
  ∃ e l' k, h2esq_start_instance l (name ++ [0]) port c = Ret (e, l', k) ∧ start_result l name port c e l' k.
Proof.
  intros Hl Hc. unfold h2esq_start_instance.
  assert (Hno : ∀ e, possible l name port c = false ∨ c_session c = false →
    ∃ e' l' k', Ret (Some e, l, []) = Ret (e', l', k') ∧ start_result l name port c e' l' k').
  { intros e Hp. assert (Hs : got_session l name port c = false) by (unfold got_session; destruct Hp as [-> | ->]; [done|apply andb_false_r]).
    apply start_refused; [done|unfold all_got, got_socket, got_var, got_path; by rewrite Hs|unfold got_var, got_path; by rewrite Hs]. }
  destruct (Z.leb_spec port 0); [apply Hno; left; unfold possible; by rewrite bool_decide_false by lia|].
  rewrite c_strnlen_ok by done. cbn [mbind cres_bind]. unfold H2ESQ_SERVER_INSTANCE_NAME_MAX in *.
  destruct (_ || _) eqn:En; [apply Hno; left; unfold possible; rewrite bool_decide_false; [done|]; intros (_ & Hlen & _); rewrite orb_true_iff, !Z.leb_le in En; lia|].
  apply orb_false_iff in En as [E1 E2]. apply Z.leb_gt in E1, E2.
  destruct (free_server_ok l Hl) as (o & -> & Ho). cbn [mbind cres_bind].
  destruct o as [i|]; [|apply Hno; left; unfold possible; by rewrite bool_decide_false by tauto]. destruct Ho as (v & Hv & Hn & Hpre).
  destruct (c_ssl_ctx c) eqn:Ec1; cbn [negb]; [|apply Hno; left; unfold possible; rewrite Ec1; apply andb_false_r].
  assert (Hp : possible l name port c = true).
  { unfold possible. rewrite Ec1, bool_decide_true; [done|]. split_and!; [done|lia..|]. intros Hall. by eapply Hn, Forall_lookup_1. }
  destruct (c_session c) eqn:Ec2; cbn [negb]; [|apply Hno; by right].
  assert (Hs : got_session l name port c = true) by (unfold got_session; by rewrite Hp, Ec2).
  destruct (c_path_hmt c) eqn:Ec3.
  2: { assert (Hg : got_path l name port c = false) by (unfold got_path; rewrite Ec3; apply andb_false_r).
    apply start_refused; [done|unfold all_got, got_socket, got_var; by rewrite Hg, Hs|unfold got_var; by rewrite Hg]. }
  destruct (hmt_new2 true H2ESQ_PATH_HANDLER_MAX HMT_SCALE_32) as [t|] eqn:Et; [|done].
  assert (Hg : got_path l name port c = true) by (unfold got_path; by rewrite Hs, Ec3).
  destruct (c_var_hmt c) eqn:Ec4.
  2: { assert (Hw : got_var l name port c = false) by (unfold got_var; rewrite Ec4; apply andb_false_r).
    apply start_refused; [done|unfold all_got, got_socket; by rewrite Hw, Hg, Hs|done]. }
  destruct (hmt_new2 true H2ESQ_INSTANCE_VAR_MAX HMT_SCALE_64) as [t'|] eqn:Et'; [|done].
  assert (Hw : got_var l name port c = true) by (unfold got_var; by rewrite Hg, Ec4).
  rewrite (rd_nat _ _ _ Hv). cbn [mbind cres_bind]. pose proof (lookup_lt_Some _ _ _ Hv) as Hi.
  destruct (start_server_ok v name port t c) as (e & v' & k & -> & Hv' & He & Hst); [by eapply Forall_lookup|done|done|lia|done|]. cbn [mbind cres_bind].
  rewrite wr_nat by done. cbn [mbind cres_bind]. eexists _, _, _. split; [reflexivity|].
  assert (Hso : got_socket l name port c = negb (c_socket c =? -1)) by (unfold got_socket; by rewrite Hw).
  split; [by apply Forall_insert|]. split.
  { rewrite He. unfold can_start. rewrite Hso, negb_true_iff, Z.eqb_neq. done. }
  destruct e as [e|]; [|by exists i, v']. split.
  - intros j u Hu. destruct (decide (j = i)) as [->|Hne]; [|by rewrite list_lookup_insert_ne]. rewrite list_lookup_insert_eq by done. rewrite Hv.
    split; intros [= <-]; [by destruct Hst|done].
  - destruct Hst as [_ ->]. unfold all_got. rewrite Hso, Hw, Hg, Hs, (Z.eqb_sym (c_socket c)). by destruct (-1 =? c_socket c).
Qed.
End Start.

(** ** An example *)

Module ConnDemo.
Definition quiet (bits : Z) (l : list event) : answers := Answers bits 1 0 0 true (l, 0) true ([], 0) true false 0.
Definition none : h2esq_session_t unit := H2Stream.Session _ ∅ ∅ dlist_empty.

Lemma running : alive (fun _ => True) (fun w => w) HelloDemo.inst2 7 h2esq_session_fd_cb none tt.
Proof.
  apply (alive_step _ _ _ 7 h2esq_session_fd_sch_cb none tt (quiet 8 []) _ 24); [|done|reflexivity].
  apply (alive_step _ _ _ 7 h2esq_session_fd_alpn_cb none tt (quiet 8 []) _ 24); [|done|reflexivity]. by apply alive_new.
Qed.
End ConnDemo.

(** A request begins on a running connection. *)
Lemma h2esq_connection_correct_witness :
  ∃ n S' w', call_back (fun w => w) HelloDemo.inst2 7 h2esq_session_fd_cb (ConnDemo.quiet 8 [HelloDemo.e1]) ConnDemo.none tt = Ret (n, S', w') ∧
    n = Installed h2esq_session_fd_cb 8 ∧ session_ok (fun _ _ => True) HelloDemo.inst2 S'.
Proof.
  destruct (h2esq_connection_correct (fun _ _ => True) (fun _ => True) (fun w => w) HelloDemo.inst2 7 h2esq_session_fd_cb ConnDemo.none tt
    (ConnDemo.quiet 8 [HelloDemo.e1]) ltac:(done) HelloDemo.demo_services_ok ltac:(lia) ConnDemo.running) as (n & S' & w' & E & Hn & _).
  { split; [split; [intros _ _; reflexivity|done]|done]. }
  exists n, S', w'. split; [exact E|]. vm_compute in E. injection E as <- <- <-. split; [reflexivity|apply Hn].
Defined.

Lemma h2esq_start_instance_correct_witness :
  ∃ e l' k, h2esq_start_instance (h2esq_instance_init (App := unit) (Svc := unit) (World := unit)) (text "a" ++ [0]) 443
      (StartAnswers true true true true 5 0 0 0 0 0) = Ret (e, l', k) ∧ e = None ∧ k = [] ∧ Forall server_ok l'.
Proof.
  destruct (h2esq_start_instance_correct (h2esq_instance_init (App := unit) (Svc := unit) (World := unit)) (text "a") 443
    (StartAnswers true true true true 5 0 0 0 0 0)) as (e & l' & k & E & Hl & _).
  - apply Forall_replicate. split; [reflexivity|intros _; reflexivity].
  - apply (FolderDemo.cstring_test (text "a") eq_refl).
  - exists e, l', k. split; [exact E|]. vm_compute in E. injection E as <- <- <-. split; [reflexivity|]. split; [reflexivity|exact Hl].
Defined.

(** A finished task while the connection shakes hands leaves it with no callback and nothing
    given back: the socket, the TLS connection and the memory are lost. *)
Theorem handshake_task_done_leaks :
  call_back (fun w => w) HelloDemo.inst2 7 h2esq_session_fd_alpn_cb (ConnDemo.quiet ESQ_EVENT_BIT_TASK_DONE []) ConnDemo.none tt =
    Ret (Nothing, ConnDemo.none, tt).
Proof. reflexivity. Qed.

(** Two instances may have one name: the second listens, but services are bound to the first
    only. *)
Theorem second_instance_unreachable :
  let ok := StartAnswers true true true true 5 0 0 0 0 0 in
  let start l := match h2esq_start_instance l (text "a" ++ [0]) 443 ok with Ret (_, l, _) => l | _ => [] end in
  let l := start (start (h2esq_instance_init (App := unit) (Svc := unit) (World := unit))) in
  length (filter (fun v => bool_decide (head (i_name (v_inst v)) = Some 97)) l) = 2%nat ∧
  h2esq_find_instance (v_inst <$> l) (text "a" ++ [0]) = Some O.
Proof. vm_compute. done. Qed.
