(* ===== verification/HashLock.v ===== *)
(** * Hash locks

    [session/hash_lock.c]: 128 read-write locks that sessions wait for.  A lock is a
    queue of contexts threaded through [next]; a context that may not proceed stays in
    the queue and is woken when the ones before it are released.  The contexts come
    from the array inside the session or from the heap ([session/session.c]). *)
From S2P Require Import Prelude LinkedList Session.
Open Scope Z_scope.

(** ** Contexts *)
Definition hset_state (v : Z) (x : hctx) : hctx :=
  HCtx v (h_idx x) (h_session x) (h_next x) (h_next_in_esq_session x) (h_next_in_local_wake_up_list x) (h_worker_ctx x).
Definition hset_idx (v : Z) (x : hctx) : hctx :=
  HCtx (h_state x) v (h_session x) (h_next x) (h_next_in_esq_session x) (h_next_in_local_wake_up_list x) (h_worker_ctx x).
Definition hset_session (v : ptr) (x : hctx) : hctx :=
  HCtx (h_state x) (h_idx x) v (h_next x) (h_next_in_esq_session x) (h_next_in_local_wake_up_list x) (h_worker_ctx x).
Definition hset_next (v : option hptr) (x : hctx) : hctx :=
  HCtx (h_state x) (h_idx x) (h_session x) v (h_next_in_esq_session x) (h_next_in_local_wake_up_list x) (h_worker_ctx x).
Definition hset_next_in_esq_session (v : option hptr) (x : hctx) : hctx :=
  HCtx (h_state x) (h_idx x) (h_session x) (h_next x) v (h_next_in_local_wake_up_list x) (h_worker_ctx x).
Definition hset_next_in_local_wake_up_list (v : option hptr) (x : hctx) : hctx :=
  HCtx (h_state x) (h_idx x) (h_session x) (h_next x) (h_next_in_esq_session x) v (h_worker_ctx x).
Definition hset_worker_ctx (v : ptr) (x : hctx) : hctx :=
  HCtx (h_state x) (h_idx x) (h_session x) (h_next x) (h_next_in_esq_session x) (h_next_in_local_wake_up_list x) v.


Definition hget {A} (p : option hptr) (f : hctx → A) : M A := fun w =>
  match p with
  | None => Fault
  | Some p => match w_hctx w !! p with Some x => Ret (f x, w) | None => Fault end
  end.

Definition hset (p : option hptr) (f : hctx → hctx) : M unit := fun w =>
  match p with
  | None => Fault
  | Some p => match w_hctx w !! p with
              | Some x => Ret (tt, with_hctx (<[p := f x]> (w_hctx w)) w)
              | None => Fault
              end
  end.

Definition ESQ_SESSION_HASH_LOCK_OWNER_MAX : nat := 3.

(** The [for] loop over the array; [m] is what [malloc] returns if it is called. *)
Fixpoint alloc_hash_lock_ctx_from (n : nat) (i : nat) (m : ptr) (l : loc) : M (option hptr) :=
  match n with
  | S n =>
      used ← hget (Some (l, i)) h_session;
      match used with
      | Some _ => alloc_hash_lock_ctx_from n (S i) m l
      | None => hset (Some (l, i)) (hset_session (Some l));; mret (Some (l, i))
      end
  | O =>
      match m with
      | None => mret None
      | Some b =>
          modifies (fun w => with_hctx
            (<[(b, ESQ_SESSION_HASH_LOCK_OWNER_MAX) := hset_session (Some l) hctx_zero]>
               (w_hctx w)) w);;
          mret (Some (b, ESQ_SESSION_HASH_LOCK_OWNER_MAX))
      end
  end.

Definition esq_alloc_hash_lock_ctx (m : ptr) (l : loc) : M (option hptr) :=
  alloc_hash_lock_ctx_from ESQ_SESSION_HASH_LOCK_OWNER_MAX 0 m l.

(** An entry of the array is given back by clearing its session, a block is freed. *)
Definition esq_free_hash_lock_ctx (p : hptr) : M unit :=
  s ← hget (Some p) h_session;
  match s with
  | None => m_exit
  | Some _ =>
      hset (Some p) (hset_session None);;
      if decide (p.2 < ESQ_SESSION_HASH_LOCK_OWNER_MAX)%nat then mret tt
      else modifies (fun w => with_hctx (delete p (w_hctx w)) w)
  end.

(** ** Queues *)
Definition HASH_LOCK_MAX : Z := 128.

Definition lock_head (i : nat) : M (option hptr) := fun w =>
  match w_hash_locks w !! i with Some q => Ret (q.1, w) | None => Fault end.
Definition lock_tail (i : nat) : M (option hptr) := fun w =>
  match w_hash_locks w !! i with Some q => Ret (q.2, w) | None => Fault end.
Definition set_lock_head (i : nat) (v : option hptr) : M unit := fun w =>
  match w_hash_locks w !! i with
  | Some q => Ret (tt, with_hash_locks (<[i := (v, q.2)]> (w_hash_locks w)) w)
  | None => Fault
  end.
Definition set_lock_tail (i : nat) (v : option hptr) : M unit := fun w =>
  match w_hash_locks w !! i with
  | Some q => Ret (tt, with_hash_locks (<[i := (q.1, v)]> (w_hash_locks w)) w)
  | None => Fault
  end.

Definition CTX_JOIN_TAIL (i : nat) (ctx : hptr) : M unit :=
  tl ← lock_tail i;
  hset tl (hset_next (Some ctx));;
  hset (Some ctx) (hset_next None);;
  set_lock_tail i (Some ctx).

Definition CTX_JOIN_AS_THE_FIRST (i : nat) (ctx : hptr) : M unit :=
  set_lock_head i (Some ctx);;
  set_lock_tail i (Some ctx);;
  hset (Some ctx) (hset_next None).

Definition JOIN_SESSION (ctx : hptr) : M unit :=
  s ← hget (Some ctx) h_session;
  old ← get s s_hash_lock_ctx_list;
  hset (Some ctx) (hset_next_in_esq_session old);;
  set s (set_hash_lock_ctx_list (Some ctx)).

(** The loop of [esq_try_read_hash_lock]: whether every context in the queue reads. *)
Fixpoint all_reading (fuel : nat) (p : option hptr) : M bool :=
  match fuel with
  | O => m_nofuel
  | S fuel =>
      match p with
      | None => mret true
      | Some _ =>
          st ← hget p h_state;
          if ESQ_SESSION_HASH_LOCK_READ =? st then
            nx ← hget p h_next;
            all_reading fuel nx
          else mret false
      end
  end.

Definition fuel_of (w : world) : nat := S (size (w_hctx w)).

Definition esq_try_read_hash_lock (i : nat) (ctx : hptr) : M Z :=
  hd ← lock_head i;
  match hd with
  | Some _ =>
      fuel ← reads fuel_of;
      ok ← all_reading fuel hd;
      CTX_JOIN_TAIL i ctx;;
      JOIN_SESSION ctx;;
      mret (if ok : bool then ESQ_OK else ESQ_ERROR_BUSY)
  | None =>
      CTX_JOIN_AS_THE_FIRST i ctx;;
      JOIN_SESSION ctx;;
      mret ESQ_OK
  end.

Definition esq_try_write_hash_lock (i : nat) (ctx : hptr) : M Z :=
  hd ← lock_head i;
  match hd with
  | Some _ => CTX_JOIN_TAIL i ctx;; JOIN_SESSION ctx;; mret ESQ_ERROR_BUSY
  | None => CTX_JOIN_AS_THE_FIRST i ctx;; JOIN_SESSION ctx;; mret ESQ_OK
  end.

(** [esq_hash_lock_check_dup]: a context or a session that is already queued is a
    design error, which exits. *)
Fixpoint check_dup_loop (fuel : nat) (p : option hptr) (ctx : hptr) (session : ptr) : M Z :=
  match fuel with
  | O => m_nofuel
  | S fuel =>
      match p with
      | None => mret ESQ_OK
      | Some x =>
          if decide (ctx = x) then m_exit else
          s ← hget p h_session;
          if decide (s = session) then m_exit else
          nx ← hget p h_next;
          check_dup_loop fuel nx ctx session
      end
  end.

Definition esq_hash_lock_check_dup (i : nat) (ctx : hptr) : M Z :=
  s ← hget (Some ctx) h_session;
  hd ← lock_head i;
  fuel ← reads fuel_of;
  check_dup_loop fuel hd ctx s.

(** [esq_try_fetch_hash_lock]; the spin lock is held from the check to the join, which
    one thread's view of the world does not show. *)
Definition esq_try_fetch_hash_lock (m : ptr) (l : loc) : M Z :=
  idx ← get (Some l) s_hash_lock_idx;
  if (idx <? 0) || (HASH_LOCK_MAX <=? idx) then m_exit else
  stop ← reads w_stop;
  if stop : bool then mret ESQ_ERROR_CLOSE else
  ctx ← esq_alloc_hash_lock_ctx m l;
  match ctx with
  | None => mret ESQ_ERROR_MEMORY
  | Some ctx =>
      st ← get (Some l) s_hash_lock_state;
      hset (Some ctx) (hset_state st);;
      hset (Some ctx) (hset_idx idx);;
      self ← esq_worker_get_ctx;
      hset (Some ctx) (hset_worker_ctx (Some self));;
      let i := Z.to_nat idx in
      if ESQ_SESSION_HASH_LOCK_READ =? st then
        r ← esq_hash_lock_check_dup i ctx;
        if negb (r =? 0) then esq_free_hash_lock_ctx ctx;; mret r
        else esq_try_read_hash_lock i ctx
      else if ESQ_SESSION_HASH_LOCK_WRITE =? st then
        r ← esq_hash_lock_check_dup i ctx;
        if negb (r =? 0) then esq_free_hash_lock_ctx ctx;; mret r
        else esq_try_write_hash_lock i ctx
      else m_exit
  end.

(** ** Releasing *)

(** A context is appended to the wake-up list of the worker it waits on. *)
Definition HASH_LOCK_CTX_JOIN_WORK_CTX (p : hptr) : M unit :=
  c ← hget (Some p) h_worker_ctx;
  match c with
  | None => m_fault
  | Some c =>
      k ← ctx_get c;
      match c_hash_lock_wake_up_list_head k with
      | Some _ =>
          hset (c_hash_lock_wake_up_list_tail k) (hset_next_in_local_wake_up_list (Some p));;
          ctx_put c (set_wake_up (c_hash_lock_wake_up_list_head k) (Some p) k);;
          hset (Some p) (hset_next_in_local_wake_up_list None)
      | None =>
          ctx_put c (set_wake_up (Some p) (Some p) k);;
          hset (Some p) (hset_next_in_local_wake_up_list None)
      end
  end.

Fixpoint wake_readers (fuel : nat) (p : option hptr) : M unit :=
  match fuel with
  | O => m_nofuel
  | S fuel =>
      match p with
      | None => mret tt
      | Some x =>
          st ← hget p h_state;
          if ESQ_SESSION_HASH_LOCK_READ =? st then
            HASH_LOCK_CTX_JOIN_WORK_CTX x;;
            nx ← hget p h_next;
            wake_readers fuel nx
          else mret tt
      end
  end.

Definition esq_hash_lock_ctx_join_local_wake_up_list (i : nat) : M unit :=
  hd ← lock_head i;
  match hd with
  | None => mret tt
  | Some p =>
      st ← hget hd h_state;
      if ESQ_SESSION_HASH_LOCK_READ =? st then
        fuel ← reads fuel_of; wake_readers fuel hd
      else if ESQ_SESSION_HASH_LOCK_WRITE =? st then HASH_LOCK_CTX_JOIN_WORK_CTX p
      else m_exit
  end.

(** What the search through the readers ends in: [goto __good_to_go] or
    [goto __wake_up_other_sessions], with the context taken out. *)
Inductive released := Good (p : hptr) | Wake (p : hptr).

Fixpoint release_reader (fuel : nat) (i : nat) (pp p : option hptr) (session : loc) : M released :=
  match fuel with
  | O => m_nofuel
  | S fuel =>
      match p with
      | None => m_exit
      | Some x =>
          st ← hget p h_state;
          if ESQ_SESSION_HASH_LOCK_READ =? st then
            s ← hget p h_session;
            if decide (s = Some session) then
              nx ← hget p h_next;
              match pp with
              | Some _ => hset pp (hset_next nx);; mret (Good x)
              | None =>
                  set_lock_head i nx;;
                  st' ← hget nx h_state;
                  mret (if ESQ_SESSION_HASH_LOCK_READ =? st' then Good x else Wake x)
              end
            else
              nx ← hget p h_next;
              release_reader fuel i p nx session
          else m_exit
      end
  end.

Definition esq_hash_lock_release (l : loc) (idx : Z) : M Z :=
  if (idx <? 0) || (HASH_LOCK_MAX <=? idx) then m_exit else
  let i := Z.to_nat idx in
  hd ← lock_head i;
  match hd with
  | None => m_exit
  | Some p =>
      st ← hget hd h_state;
      fuel ← reads fuel_of;
      out ← (if ESQ_SESSION_HASH_LOCK_READ =? st then release_reader fuel i None hd l
             else if ESQ_SESSION_HASH_LOCK_WRITE =? st then
               s ← hget hd h_session;
               if decide (s = Some l) then
                 nx ← hget hd h_next;
                 set_lock_head i nx;; mret (Wake p)
               else m_exit
             else m_exit);
      match out with
      | Good p => esq_free_hash_lock_ctx p;; mret ESQ_OK
      | Wake p =>
          esq_hash_lock_ctx_join_local_wake_up_list i;;
          esq_free_hash_lock_ctx p;;
          mret ESQ_OK
      end
  end.

(** [esq_hash_lock_release_all], once the server stops: everyone queued is woken. *)
Fixpoint wake_all (fuel : nat) (p : option hptr) : M unit :=
  match fuel with
  | O => m_nofuel
  | S fuel =>
      match p with
      | None => mret tt
      | Some x =>
          HASH_LOCK_CTX_JOIN_WORK_CTX x;;
          nx ← hget p h_next;
          wake_all fuel nx
      end
  end.

Fixpoint release_all_from (n i : nat) : M unit :=
  match n with
  | O => mret tt
  | S n =>
      hd ← lock_head i;
      fuel ← reads fuel_of;
      wake_all fuel hd;;
      release_all_from n (S i)
  end.

Definition esq_hash_lock_release_all : M unit :=
  stop ← reads w_stop;
  if stop : bool then release_all_from (Z.to_nat HASH_LOCK_MAX) 0 else m_exit.

Definition esq_hash_lock_init : M Z :=
  modifies (with_hash_locks (replicate (Z.to_nat HASH_LOCK_MAX) (None, None)));;
  mret ESQ_OK.

(** ** The queue of a lock *)

(** The contexts of [ls] are linked by [next], the last one to nothing. *)
Fixpoint hseg (H : gmap hptr hctx) (ls : list hptr) : Prop :=
  match ls with
  | [] => True
  | p :: ls' => (∃ x, H !! p = Some x ∧ h_next x = head ls') ∧ hseg H ls'
  end.

(** The queue of lock [i]; the tail pointer of an empty queue may be stale. *)
Definition queue (w : world) (i : nat) (ls : list hptr) : Prop :=
  (∃ t, w_hash_locks w !! i = Some (head ls, t) ∧ (ls ≠ [] → t = last ls)) ∧
  NoDup ls ∧ hseg (w_hctx w) ls.

(** Whether a context reads or writes, and for whom. *)
Definition kind (w : world) (p : hptr) : option (Z * ptr) :=
  (fun x => (h_state x, h_session x)) <$> w_hctx w !! p.

Definition is_reader (k : option (Z * ptr)) : bool :=
  match k with Some (st, _) => ESQ_SESSION_HASH_LOCK_READ =? st | None => false end.

(** How many contexts at the front of the queue hold the lock: the leading readers, or
    the one writer. *)
Fixpoint leading_readers (ks : list (option (Z * ptr))) : nat :=
  match ks with
  | k :: ks => if is_reader k then S (leading_readers ks) else O
  | [] => O
  end.

Definition holders (ks : list (option (Z * ptr))) : nat :=
  match ks with
  | [] => O
  | k :: _ => if is_reader k then leading_readers ks else 1%nat
  end.

Lemma leading_readers_all ks k :
  leading_readers (ks ++ [k]) =
  if forallb is_reader ks then (length ks + (if is_reader k then 1 else 0))%nat
  else leading_readers ks.
Proof.
  induction ks as [|k' ks IH]; simpl; [by destruct (is_reader k)|].
  rewrite IH. by destruct (is_reader k'), (forallb is_reader ks).
Qed.

Lemma leading_readers_le ks : (leading_readers ks <= length ks)%nat.
Proof. induction ks as [|k ks IH]; simpl; [lia|]. destruct (is_reader k); lia. Qed.

(** The last one in the queue holds the lock if it is alone or everyone reads. *)
Lemma last_holds ks k :
  (length ks < holders (ks ++ [k]))%nat ↔ ks = [] ∨ forallb is_reader (ks ++ [k]) = true.
Proof.
  destruct ks as [|k' ks]; simpl.
  - destruct (is_reader k); naive_solver lia.
  - rewrite forallb_app, leading_readers_all. simpl.
    pose proof (leading_readers_le ks).
    destruct (is_reader k'), (forallb is_reader ks), (is_reader k); simpl; naive_solver lia.
Qed.

Lemma hseg_agree (H H' : gmap hptr hctx) ls :
  (∀ p, p ∈ ls → h_next <$> H' !! p = h_next <$> H !! p) → hseg H ls → hseg H' ls.
Proof.
  induction ls as [|p ls IH]; intros Hag; simpl; [done|]. intros [(x & Hx & Hn) Hr].
  split; [|apply IH; [set_solver|done]].
  assert (Hp := Hag p ltac:(set_solver)). rewrite Hx in Hp.
  destruct (H' !! p) as [x'|]; [|done]. exists x'. split; [done|]. simpl in Hp. congruence.
Qed.

Lemma hseg_dom (H : gmap hptr hctx) ls p : hseg H ls → p ∈ ls → is_Some (H !! p).
Proof.
  induction ls as [|q ls IH]; [by intros _ ?%not_elem_of_nil|].
  intros [(x & Hx & _) Hr] [->|Hp]%elem_of_cons; eauto.
Qed.

(** The fuel of the loops is enough for any queue. *)
Lemma queue_fuel w i ls : queue w i ls → (length ls < fuel_of w)%nat.
Proof.
  intros (_ & Hnd & Hs). unfold fuel_of. rewrite <- size_dom.
  assert (Hsub : list_to_set ls ⊆ dom (w_hctx w)).
  { intros p Hp. apply elem_of_list_to_set in Hp. apply elem_of_dom. by eapply hseg_dom. }
  apply subseteq_size in Hsub. rewrite size_list_to_set in Hsub by done. lia.
Qed.

Lemma hget_Some {A} w p x (f : hctx → A) :
  w_hctx w !! p = Some x → hget (Some p) f w = Ret (f x, w).
Proof. intros Hx. unfold hget. by rewrite Hx. Qed.

Lemma hset_Some w p x f :
  w_hctx w !! p = Some x → hset (Some p) f w = Ret (tt, with_hctx (<[p := f x]> (w_hctx w)) w).
Proof. intros Hx. unfold hset. by rewrite Hx. Qed.

Lemma all_reading_spec w fuel ls :
  hseg (w_hctx w) ls → (length ls < fuel)%nat →
  all_reading fuel (head ls) w = Ret (forallb (fun p => is_reader (kind w p)) ls, w).
Proof.
  revert ls; induction fuel as [|fuel IH]; intros ls Hs Hf; [lia|].
  destruct ls as [|p ls]; [done|]. destruct Hs as [(x & Hx & Hn) Hs].
  cbn [all_reading head]. unfold mbind, M_bind. rewrite (hget_Some _ _ x) by done.
  cbn [forallb]. unfold kind at 1. rewrite Hx. cbn [fmap option_fmap option_map is_reader].
  destruct (ESQ_SESSION_HASH_LOCK_READ =? h_state x); [|done].
  rewrite (hget_Some _ _ x) by done. rewrite Hn. apply IH; [done|simpl in Hf; lia].
Qed.

Lemma check_dup_spec w fuel ls ctx s :
  hseg (w_hctx w) ls → (length ls < fuel)%nat → ctx ∉ ls →
  (∀ p, p ∈ ls → snd <$> kind w p ≠ Some s) →
  check_dup_loop fuel (head ls) ctx s w = Ret (ESQ_OK, w).
Proof.
  revert ls; induction fuel as [|fuel IH]; intros ls Hs Hf Hc Hd; [lia|].
  destruct ls as [|p ls]; [done|]. destruct Hs as [(x & Hx & Hn) Hs].
  cbn [check_dup_loop head]. rewrite decide_False by set_solver.
  unfold mbind, M_bind. rewrite (hget_Some _ _ x) by done. rewrite decide_False.
  - rewrite (hget_Some _ _ x) by done. rewrite Hn.
    apply IH; [done|simpl in Hf; lia|set_solver|set_solver].
  - intros E. apply (Hd p); [set_solver|]. unfold kind. rewrite Hx. simpl. congruence.
Qed.

(** What joining a queue leaves as it was. *)
Definition joined (w w' : world) : Prop :=
  (∀ p, kind w' p = kind w p) ∧ w_sessions w' = w_sessions w ∧ w_ctxs w' = w_ctxs w ∧
  w_self w' = w_self w ∧ w_global_new w' = w_global_new w ∧ dom (w_hctx w') = dom (w_hctx w).

Lemma kind_insert w p x x' q :
  w_hctx w !! p = Some x → h_state x' = h_state x → h_session x' = h_session x →
  kind (with_hctx (<[p := x']> (w_hctx w)) w) q = kind w q.
Proof.
  intros Hx E1 E2. unfold kind. cbn [w_hctx with_hctx].
  destruct (decide (p = q)) as [->|Hne].
  - rewrite lookup_insert_eq, Hx. simpl. by rewrite E1, E2.
  - by rewrite lookup_insert_ne.
Qed.

Lemma hseg_snoc H ls tl x p y :
  hseg H (ls ++ [tl]) → NoDup (ls ++ [tl]) → p ∉ ls ++ [tl] → H !! tl = Some x → H !! p = Some y →
  hseg (<[p := hset_next None y]> (<[tl := hset_next (Some p) x]> H)) ((ls ++ [tl]) ++ [p]).
Proof.
  induction ls as [|q ls IH]; simpl; intros Hs Hnd Hp Hx Hy.
  - split; [exists (hset_next (Some p) x); rewrite lookup_insert_ne by set_solver;
      by rewrite lookup_insert_eq|]. split; [|done].
    eexists. by rewrite lookup_insert_eq.
  - destruct Hs as [(s & Hq & Hn) Hs]. apply NoDup_cons in Hnd as [Hql Hnd]. split.
    + exists s. rewrite !lookup_insert_ne by set_solver. split; [done|].
      rewrite Hn. by destruct ls.
    + apply IH; [done..|set_solver|done|done].
Qed.

Lemma join_tail_queue w i ls ctx x :
  queue w i ls → ls ≠ [] → ctx ∉ ls → w_hctx w !! ctx = Some x →
  ∃ w', CTX_JOIN_TAIL i ctx w = Ret (tt, w') ∧ queue w' i (ls ++ [ctx]) ∧ joined w w'.
Proof.
  intros ((t & Hl & Ht) & Hnd & Hs) Hne Hc Hx. rewrite (Ht Hne) in Hl. clear Ht.
  destruct ls as [|tl ls _] using rev_ind; [done|].
  destruct (hseg_dom _ _ tl Hs) as [y Hy]; [set_solver|].
  assert (Hne' : tl ≠ ctx) by set_solver.
  unfold CTX_JOIN_TAIL, lock_tail, set_lock_tail, mbind, M_bind.
  rewrite Hl, last_snoc. cbn [snd]. rewrite (hset_Some _ _ y) by done.
  rewrite (hset_Some _ _ x) by (cbn [w_hctx with_hctx]; by rewrite lookup_insert_ne).
  cbn [w_hash_locks with_hctx w_hctx]. rewrite Hl. cbn [fst snd].
  eexists. split; [done|]. split.
  - split_and!; cbn [w_hash_locks with_hctx w_hctx with_hash_locks].
    + eexists. rewrite list_lookup_insert_eq by (by eapply lookup_lt_Some).
      rewrite last_snoc. split; [by destruct ls|done].
    + apply NoDup_app. split; [done|]. split; [set_solver|apply NoDup_singleton].
    + by apply hseg_snoc.
  - split_and!; try done.
    + intros p. unfold kind. cbn [w_hctx with_hctx with_hash_locks].
      destruct (decide (p = ctx)) as [->|]; [by rewrite lookup_insert_eq, Hx|].
      rewrite lookup_insert_ne by done. destruct (decide (p = tl)) as [->|].
      * by rewrite lookup_insert_eq, Hy.
      * by rewrite lookup_insert_ne.
    + cbn [w_hctx with_hctx with_hash_locks]. rewrite !dom_insert_lookup_L;
        [done|eauto|rewrite lookup_insert_ne by done; eauto].
Qed.

Lemma join_first_queue w i ctx x :
  queue w i [] → w_hctx w !! ctx = Some x →
  ∃ w', CTX_JOIN_AS_THE_FIRST i ctx w = Ret (tt, w') ∧ queue w' i [ctx] ∧ joined w w'.
Proof.
  intros ((t & Hl & _) & _ & _) Hx. pose proof (lookup_lt_Some _ _ _ Hl) as Hi.
  unfold CTX_JOIN_AS_THE_FIRST, set_lock_head, set_lock_tail, mbind, M_bind. rewrite Hl.
  cbn [w_hash_locks with_hash_locks].
  rewrite list_lookup_insert_eq by done. cbn [fst snd].
  rewrite (hset_Some _ _ x) by done. eexists. split; [done|]. split.
  - split_and!; cbn [w_hash_locks with_hctx w_hctx with_hash_locks].
    + eexists. by rewrite list_lookup_insert_eq by (by rewrite length_insert).
    + apply NoDup_singleton.
    + simpl. split; [|done]. eexists. by rewrite lookup_insert_eq.
  - split_and!; try done.
    + intros p. unfold kind. cbn [w_hctx with_hctx with_hash_locks].
      destruct (decide (p = ctx)) as [->|]; [by rewrite lookup_insert_eq, Hx|].
      by rewrite lookup_insert_ne.
    + cbn [w_hctx with_hctx with_hash_locks]. rewrite dom_insert_lookup_L; [done|eauto].
Qed.

Lemma join_session_queue w ctx x l s :
  w_hctx w !! ctx = Some x → h_session x = Some l → w_sessions w !! l = Some s →
  ∃ w', JOIN_SESSION ctx w = Ret (tt, w') ∧ (∀ i ls, queue w i ls → queue w' i ls) ∧
    (∀ p, kind w' p = kind w p) ∧
    w_sessions w' = <[l := set_hash_lock_ctx_list (Some ctx) s]> (w_sessions w) ∧
    w_ctxs w' = w_ctxs w ∧ w_self w' = w_self w ∧ w_global_new w' = w_global_new w.
Proof.
  intros Hx Hl Hs. unfold JOIN_SESSION, mbind, M_bind. rewrite (hget_Some _ _ x), Hl by done.
  unfold get, set. simpl. rewrite Hs. simpl. rewrite Hx. simpl. rewrite Hs. simpl.
  eexists. split; [done|]. split_and!; try done.
  - intros i ls (H1 & H2 & H3). split_and!; [done..|]. eapply hseg_agree; [|exact H3].
    intros p Hp. simpl. destruct (decide (p = ctx)) as [->|].
    + by rewrite lookup_insert_eq, Hx.
    + by rewrite lookup_insert_ne.
  - intros p. apply (kind_insert _ _ _ _ p Hx); done.
Qed.

(** A slot of the array that is free, or a new block. *)
Definition fresh_ctx (w : world) (m : ptr) (ctx : hptr) (x : hctx) : Prop :=
  (w_hctx w !! ctx = Some x ∧ h_session x = None) ∨
  (∃ b, m = Some b ∧ ctx = (b, ESQ_SESSION_HASH_LOCK_OWNER_MAX) ∧ x = hctx_zero ∧
        w_hctx w !! ctx = None).

Definition put_ctx (ctx : hptr) (x : hctx) (w : world) : world :=
  with_hctx (<[ctx := x]> (w_hctx w)) w.

Lemma alloc_spec w m b l n i :
  (i + n = ESQ_SESSION_HASH_LOCK_OWNER_MAX)%nat →
  (∀ j, (j < ESQ_SESSION_HASH_LOCK_OWNER_MAX)%nat → is_Some (w_hctx w !! (l, j))) →
  m = Some b → w_hctx w !! (b, ESQ_SESSION_HASH_LOCK_OWNER_MAX) = None →
  ∃ ctx x, alloc_hash_lock_ctx_from n i m l w =
             Ret (Some ctx, put_ctx ctx (hset_session (Some l) x) w) ∧ fresh_ctx w m ctx x.
Proof.
  intros Hi Hslots -> Hb. revert i Hi; induction n as [|n IH]; intros i Hi.
  - do 2 eexists. split; [done|]. right. eauto 10.
  - destruct (Hslots i) as [x Hx]; [lia|]. cbn [alloc_hash_lock_ctx_from].
    unfold mbind, M_bind. rewrite (hget_Some _ _ x) by done.
    destruct (h_session x) eqn:Es; [apply IH; lia|].
    rewrite (hset_Some _ _ x) by done. do 2 eexists. split; [done|]. by left.
Qed.

Lemma queue_put_ctx w i ls ctx x : ctx ∉ ls → queue w i ls → queue (put_ctx ctx x w) i ls.
Proof.
  intros Hc (H1 & H2 & H3). split_and!; [done..|]. eapply hseg_agree; [|exact H3].
  intros p Hp. cbn [put_ctx w_hctx with_hctx]. by rewrite lookup_insert_ne by set_solver.
Qed.

Lemma kind_put_ctx w ctx x p :
  kind (put_ctx ctx x w) p = if decide (p = ctx) then Some (h_state x, h_session x) else kind w p.
Proof.
  unfold kind, put_ctx. cbn [w_hctx with_hctx]. case_decide as E; [subst|].
  - by rewrite lookup_insert_eq.
  - by rewrite lookup_insert_ne by done.
Qed.

Lemma hset_put_ctx w ctx x f :
  hset (Some ctx) f (put_ctx ctx x w) = Ret (tt, put_ctx ctx (f x) w).
Proof.
  rewrite (hset_Some _ _ x) by apply lookup_insert_eq. unfold put_ctx. cbn [w_hctx with_hctx].
  by rewrite insert_insert_eq.
Qed.

(** A context in the queue belongs to some session, so a free slot is not in it. *)
Definition owned (w : world) (ls : list hptr) (l : loc) : Prop :=
  ∀ p, p ∈ ls → ∃ st s, kind w p = Some (st, Some s) ∧ s ≠ l.

Lemma fresh_not_queued w m ctx x ls l : fresh_ctx w m ctx x → owned w ls l → ctx ∉ ls.
Proof.
  intros Hf Ho Hin. destruct (Ho ctx Hin) as (st & s & Hk & _). unfold kind in Hk.
  destruct Hf as [[Hx Hn]|(b & _ & _ & _ & Hx)]; rewrite Hx in Hk; simpl in Hk; [|done].
  congruence.
Qed.

(** What a queued request leaves: the context at the end of the queue and in the list of
    its session. *)
Definition enqueued (w w' : world) (i : nat) (ls : list hptr) (ctx : hptr) (l : loc)
    (s : session) : Prop :=
  queue w' i (ls ++ [ctx]) ∧ (∀ p, kind w' p = kind w p) ∧
  w_sessions w' = <[l := set_hash_lock_ctx_list (Some ctx) s]> (w_sessions w) ∧
  w_ctxs w' = w_ctxs w ∧ w_self w' = w_self w ∧ w_global_new w' = w_global_new w.

Lemma enqueue_ok w i ls ctx x l s :
  queue w i ls → w_hctx w !! ctx = Some x → ctx ∉ ls → h_session x = Some l →
  w_sessions w !! l = Some s →
  ∃ w1 w2,
    (if decide (ls = []) then CTX_JOIN_AS_THE_FIRST i ctx else CTX_JOIN_TAIL i ctx) w
      = Ret (tt, w1) ∧
    JOIN_SESSION ctx w1 = Ret (tt, w2) ∧ enqueued w w2 i ls ctx l s.
Proof.
  intros Hq Hx Hc Hl Hs.
  assert (∃ w1, (if decide (ls = []) then CTX_JOIN_AS_THE_FIRST i ctx else CTX_JOIN_TAIL i ctx) w
      = Ret (tt, w1) ∧ queue w1 i (ls ++ [ctx]) ∧ joined w w1)
    as (w1 & E1 & Hq1 & Hk1 & Hs1 & Hc1 & Hse1 & Hg1 & Hd1).
  { case_decide as E; [subst; by eapply join_first_queue|by eapply join_tail_queue]. }
  assert (Hx1 : kind w1 ctx = Some (h_state x, Some l))
    by (rewrite Hk1; unfold kind; rewrite Hx; simpl; by rewrite Hl).
  unfold kind in Hx1. destruct (w_hctx w1 !! ctx) as [x1|] eqn:Ex1; [|done].
  simpl in Hx1. injection Hx1 as _ Hl1.
  destruct (join_session_queue w1 ctx x1 l s Ex1 Hl1 ltac:(by rewrite Hs1))
    as (w2 & E2 & Hq2 & Hk2 & Hs2 & Hc2 & Hse2 & Hg2).
  exists w1, w2. split_and!; [done|done|]. split_and!; [by apply Hq2| |congruence..].
  intros p. by rewrite Hk2, Hk1.
Qed.

(** The answer to a request that has been queued. *)
Definition answer (w : world) (ls : list hptr) (ctx : hptr) : Z :=
  if decide (length ls < holders (kind w <$> (ls ++ [ctx])))%nat
  then ESQ_OK else ESQ_ERROR_BUSY.

Lemma answer_eq w ls ctx :
  answer w ls ctx =
  if decide (ls = []) then ESQ_OK
  else if forallb (fun p => is_reader (kind w p)) ls && is_reader (kind w ctx)
  then ESQ_OK else ESQ_ERROR_BUSY.
Proof.
  unfold answer. rewrite fmap_app. simpl.
  pose proof (last_holds (kind w <$> ls) (kind w ctx)) as H. rewrite length_fmap in H.
  rewrite forallb_app in H. simpl in H. rewrite andb_true_r in H.
  assert (E : forallb is_reader (kind w <$> ls) = forallb (fun p => is_reader (kind w p)) ls)
    by (clear; induction ls as [|p ls IH]; [done|rewrite fmap_cons; simpl; by f_equal]).
  rewrite E in H. case_decide as Hd.
  - apply H in Hd as [Hd|Hd]; [|by rewrite Hd; case_decide].
    apply fmap_nil_inv in Hd. by rewrite decide_True.
  - rewrite decide_False by (intros ->; apply Hd, H; by left).
    destruct (_ && _) eqn:Ea; [|done]. destruct Hd. apply H. by right.
Qed.

Lemma try_read_ok w i ls ctx x l s :
  queue w i ls → w_hctx w !! ctx = Some x → ctx ∉ ls → h_session x = Some l →
  w_sessions w !! l = Some s → h_state x = ESQ_SESSION_HASH_LOCK_READ →
  ∃ w', esq_try_read_hash_lock i ctx w = Ret (answer w ls ctx, w') ∧ enqueued w w' i ls ctx l s.
Proof.
  intros Hq Hx Hc Hl Hs Hst.
  destruct (enqueue_ok w i ls ctx x l s Hq Hx Hc Hl Hs) as (w1 & w2 & E1 & E2 & He).
  exists w2. split; [|done]. rewrite answer_eq.
  assert (Hk : is_reader (kind w ctx) = true) by (unfold kind; rewrite Hx; simpl; by rewrite Hst).
  rewrite Hk, andb_true_r. unfold esq_try_read_hash_lock, lock_head, mbind, M_bind.
  pose proof Hq as ((t & -> & _) & _ & Hseg). cbn [fst].
  destruct (decide (ls = [])) as [->|Hne]; [cbn [head]; by rewrite E1, E2|].
  destruct ls as [|p ls]; [done|]. cbn [head]. unfold reads.
  pose proof (all_reading_spec w (fuel_of w) (p :: ls) Hseg (queue_fuel _ _ _ Hq)) as Ha.
  cbn [head] in Ha. by rewrite Ha, E1, E2.
Qed.

Lemma try_write_ok w i ls ctx x l s :
  queue w i ls → w_hctx w !! ctx = Some x → ctx ∉ ls → h_session x = Some l →
  w_sessions w !! l = Some s → h_state x = ESQ_SESSION_HASH_LOCK_WRITE →
  ∃ w', esq_try_write_hash_lock i ctx w = Ret (answer w ls ctx, w') ∧ enqueued w w' i ls ctx l s.
Proof.
  intros Hq Hx Hc Hl Hs Hst.
  destruct (enqueue_ok w i ls ctx x l s Hq Hx Hc Hl Hs) as (w1 & w2 & E1 & E2 & He).
  exists w2. split; [|done]. rewrite answer_eq.
  assert (Hk : is_reader (kind w ctx) = false) by (unfold kind; rewrite Hx; simpl; by rewrite Hst).
  rewrite Hk, andb_false_r. unfold esq_try_write_hash_lock, lock_head, mbind, M_bind.
  pose proof Hq as ((t & -> & _) & _). cbn [fst].
  destruct (decide (ls = [])) as [->|Hne]; [cbn [head]; by rewrite E1, E2|].
  destruct ls as [|p ls]; [done|]. cbn [head]. by rewrite E1, E2.
Qed.

(** When the fetch of a lock runs to its end: the index is in range, the server is
    running inside a worker, there is memory, and the session is not queued already. *)
Record can_fetch (w : world) (m : ptr) (l : loc) (s : session) (i : nat) (ls : list hptr) : Prop := {
  cf_session : w_sessions w !! l = Some s;
  cf_idx : s_hash_lock_idx s = Z.of_nat i;
  cf_range : Z.of_nat i < HASH_LOCK_MAX;
  cf_state : s_hash_lock_state s = ESQ_SESSION_HASH_LOCK_READ ∨
             s_hash_lock_state s = ESQ_SESSION_HASH_LOCK_WRITE;
  cf_run : w_stop w = false;
  cf_self : is_Some (w_self w);
  cf_queue : queue w i ls;
  cf_owned : owned w ls l;
  cf_slots : ∀ j, (j < ESQ_SESSION_HASH_LOCK_OWNER_MAX)%nat → is_Some (w_hctx w !! (l, j));
  cf_malloc : ∃ b, m = Some b ∧ w_hctx w !! (b, ESQ_SESSION_HASH_LOCK_OWNER_MAX) = None
}.

(** The request as it stands in the queue. *)
Definition fetched (w w' : world) (i : nat) (ls : list hptr) (ctx : hptr) (l : loc) (s : session)
    : Prop :=
  queue w' i (ls ++ [ctx]) ∧ ctx ∉ ls ∧
  kind w' ctx = Some (s_hash_lock_state s, Some l) ∧
  (∀ p, p ∈ ls → kind w' p = kind w p) ∧
  w_sessions w' = <[l := set_hash_lock_ctx_list (Some ctx) s]> (w_sessions w) ∧
  w_ctxs w' = w_ctxs w ∧ w_self w' = w_self w ∧ w_global_new w' = w_global_new w.

Lemma fetch_ok w m l s i ls :
  can_fetch w m l s i ls →
  ∃ ctx w', esq_try_fetch_hash_lock m l w = Ret (answer w' ls ctx, w') ∧
    fetched w w' i ls ctx l s.
Proof.
  intros [Hs Hi Hr Hst Hrun [c Hc] Hq Ho Hsl (b & -> & Hb)].
  destruct (alloc_spec w (Some b) b l ESQ_SESSION_HASH_LOCK_OWNER_MAX 0) as (ctx & x & Ea & Hf);
    [lia|done..|].
  pose proof (fresh_not_queued _ _ _ _ _ _ Hf Ho) as Hnq. exists ctx.
  set (x' := hset_worker_ctx (Some c) (hset_idx (s_hash_lock_idx s)
               (hset_state (s_hash_lock_state s) (hset_session (Some l) x)))).
  set (w1 := put_ctx ctx x' w).
  assert (Hq1 : queue w1 i ls) by by apply queue_put_ctx.
  assert (Hx1 : w_hctx w1 !! ctx = Some x') by (apply lookup_insert_eq).
  assert (Hk1 : ∀ p, p ∈ ls → kind w1 p = kind w p).
  { intros p Hp. unfold w1. rewrite kind_put_ctx. by rewrite decide_False by set_solver. }
  assert (Hdup : esq_hash_lock_check_dup i ctx w1 = Ret (ESQ_OK, w1)).
  { unfold esq_hash_lock_check_dup, lock_head, reads, mbind, M_bind.
    rewrite (hget_Some _ _ x') by done. pose proof Hq1 as ((t & -> & _) & _ & Hseg1). cbn [fst].
    apply check_dup_spec; [done|by eapply queue_fuel|done|]. intros p Hp. rewrite Hk1 by done.
    destruct (Ho p Hp) as (st & s' & -> & Hne). simpl. congruence. }
  assert (∃ w2, (if ESQ_SESSION_HASH_LOCK_READ =? s_hash_lock_state s
      then esq_try_read_hash_lock i ctx else esq_try_write_hash_lock i ctx) w1
      = Ret (answer w1 ls ctx, w2) ∧ enqueued w1 w2 i ls ctx l s) as (w2 & E2 & He).
  { destruct Hst as [Hst|Hst]; rewrite Hst; simpl.
    - apply (try_read_ok w1 i ls ctx x' l s); done.
    - apply (try_write_ok w1 i ls ctx x' l s); done. }
  exists w2. destruct He as (Hq2 & Hk2 & He). split.
  - assert (Ek : answer w2 ls ctx = answer w1 ls ctx).
    { unfold answer. by rewrite (list_fmap_ext (kind w2) (kind w1)) by (intros ? p _; apply Hk2). }
    rewrite Ek, <- E2. unfold esq_try_fetch_hash_lock.
    erewrite M_bind_Ret by by apply get_Some.
    rewrite Hi, (proj2 (Z.ltb_ge _ 0)), (proj2 (Z.leb_gt _ _)) by lia. cbn [orb].
    erewrite M_bind_Ret by done. rewrite Hrun. erewrite M_bind_Ret by exact Ea.
    cbn iota. erewrite M_bind_Ret by by apply get_Some.
    do 2 erewrite M_bind_Ret by apply hset_put_ctx.
    erewrite M_bind_Ret by (unfold esq_worker_get_ctx; simpl; by rewrite Hc).
    erewrite M_bind_Ret by apply hset_put_ctx.
    rewrite <- Hi. fold x' w1. rewrite Hi, Nat2Z.id.
    destruct Hst as [-> | ->].
    + rewrite Z.eqb_refl. by erewrite M_bind_Ret by exact Hdup.
    + rewrite Z.eqb_refl, (proj2 (Z.eqb_neq _ ESQ_SESSION_HASH_LOCK_WRITE)) by done.
      by erewrite M_bind_Ret by exact Hdup.
  - split_and!; [done|done| | |apply He..].
    + rewrite Hk2. unfold w1. rewrite kind_put_ctx. by rewrite decide_True.
    + intros p Hp. by rewrite Hk2, Hk1.
Qed.

(** Whoever is among the holders either is alone or shares the lock with readers. *)
Lemma holders_exclusive ks j :
  (j < holders ks)%nat → holders ks = 1%nat ∨ is_reader <$> ks !! j = Some true.
Proof.
  destruct ks as [|k ks]; simpl; [lia|]. destruct (is_reader k) eqn:Ek; [|by left].
  intros Hj. right. destruct j as [|j]; [by rewrite <- Ek|]. simpl.
  assert (Hjs : (j < leading_readers ks)%nat) by lia. clear Hj Ek k.
  revert j Hjs; induction ks as [|k ks IH]; intros j Hj; simpl in *; [lia|].
  destruct (is_reader k) eqn:Ek; [|lia]. destruct j as [|j]; [by rewrite <- Ek|].
  apply IH. lia.
Qed.


(** A world with one session and one lock queue, for the examples. *)
Definition demo_session (st : Z) : session :=
  set_hash_lock_state st (set_magic1 ESQ_SESSION_MAGIC
    (set_magic0 ESQ_SESSION_MAGIC session_zero)).

Definition demo_ctx : worker_ctx :=
  WorkerCtx (fun _ => dlist_empty) dlist_empty (-1) false None None.

Definition demo_world (ss : list (loc * session)) (locks : list (option hptr * option hptr))
    (hs : list (hptr * hctx)) : world :=
  World (list_to_map ss) (list_to_map hs) locks {[1%positive := demo_ctx]} (Some 1%positive)
    dlist_empty (Some (100, 0)) false [].

Definition demo_fetch_world : world :=
  demo_world [(5%positive, demo_session ESQ_SESSION_HASH_LOCK_WRITE)]
    [(Some (7%positive, 0%nat), Some (7%positive, 0%nat))]
    [((5%positive, 0%nat), hctx_zero); ((5%positive, 1%nat), hctx_zero);
     ((5%positive, 2%nat), hctx_zero);
     ((7%positive, 0%nat), hset_session (Some 7%positive) hctx_zero)].


(** Releasing the lock of its only reader faults: the code reads the state of the
    next context through the null pointer at the end of the queue. *)
Theorem release_of_sole_reader_faults w l i p x :
  queue w i [p] → Z.of_nat i < HASH_LOCK_MAX → w_hctx w !! p = Some x →
  h_state x = ESQ_SESSION_HASH_LOCK_READ → h_session x = Some l →
  esq_hash_lock_release l (Z.of_nat i) w = Fault.
Proof.
  intros ((t & Hl & _) & _ & ((x' & Hx' & Hn) & _)) Hi Hx Hst Hs. simplify_eq.
  unfold esq_hash_lock_release.
  rewrite (proj2 (Z.ltb_ge _ 0)), (proj2 (Z.leb_gt _ _)), Nat2Z.id by lia. cbn [orb].
  erewrite M_bind_Ret by (unfold lock_head; by rewrite Hl). cbn [fst head].
  erewrite M_bind_Ret by by apply hget_Some. erewrite M_bind_Ret by done. rewrite Hst.
  unfold mbind at 1, M_bind at 1. cbn [ESQ_SESSION_HASH_LOCK_READ Z.eqb release_reader fuel_of].
  erewrite M_bind_Ret by by apply hget_Some. rewrite Hst.
  cbn [ESQ_SESSION_HASH_LOCK_READ Z.eqb].
  erewrite M_bind_Ret by by apply hget_Some. rewrite decide_True by done.
  erewrite M_bind_Ret by by apply hget_Some. rewrite Hn. cbn [head].
  erewrite M_bind_Ret by (unfold set_lock_head; by rewrite Hl). done.
Qed.

Lemma release_of_sole_reader_faults_witness :
  esq_hash_lock_release 7 0
    (demo_world [] [(Some (7%positive, 0%nat), Some (7%positive, 0%nat))]
       [((7%positive, 0%nat), hset_session (Some 7%positive) hctx_zero)]) = Fault.
Proof.
  apply (release_of_sole_reader_faults _ 7 0 (7%positive, 0%nat)
           (hset_session (Some 7%positive) hctx_zero)); try (vm_compute; reflexivity).
  split; [eexists; split; reflexivity|]. split; [apply NoDup_singleton|].
  split; [eexists; split; reflexivity|exact I].
Defined.
