(* ===== verification/SessionPt.v ===== *)
(** * The state machines of a session

    [session/pt_of_no_fd.c], [pt_of_socket.c], [pt_of_multi_shot_socket.c],
    [pt_of_mco.c] and [pt_of_hash_lock.c].  Each function is a protothread: [lc] holds
    the line of the label at which the session waits, a call runs the code after that
    label on one request, and [GOTO] a label stores its line and returns.  There is one
    definition per label here, named after it; [lc] holds the line numbers of the
    source.  Requests a label does not expect end the process
    ([INVALID_ACTION_TYPE] calls [exit]). *)
From S2P Require Import Prelude LinkedList Session HashLock.
Open Scope Z_scope.

Definition INVALID_ACTION_TYPE : M unit := m_exit.

Definition GOTO (l : loc) (label : Z) : M unit := set (Some l) (set_lc label).

Definition FD_NEED_INSTALL (fd : Z) : bool := 0 <? fd.

(** [session->event_bits |= v], on 16 bits, and the same for [event_bits2]. *)
Definition or_event_bits (v : Z) (s : session) : session :=
  set_event_bits (u16 (Z.lor (s_event_bits s) v)) s.
Definition or_event_bits2 (v : Z) (s : session) : session :=
  set_event_bits2 (u16 (Z.lor (s_event_bits2 s) v)) s.

(** ** [pt_of_no_fd.c] *)
Definition esq_pt_of_no_fd (l : loc) (a : action) : M unit :=
  match a_type a with
  | ACTION_WIND_UP => set (Some l) (set_post_op POP_FREE_SESSION)
  | ACTION_ADD_SOCK_FD_MULTI =>
      set (Some l) (set_session_type ESQ_SESSION_TYPE_MULTI_SOCKET_CB);;
      set (Some l) (set_post_op POP_SWITCH_SESSION_TYPE)
  | ACTION_ADD_SOCK_FD_SINGLE =>
      set (Some l) (set_session_type ESQ_SESSION_TYPE_SOCKET_CB);;
      set (Some l) (set_post_op POP_SWITCH_SESSION_TYPE)
  | ACTION_HASH_LOCK_READ | ACTION_HASH_LOCK_WRITE =>
      set (Some l) (set_session_type ESQ_SESSION_TYPE_WAIT_FOR_HASH_LOCK);;
      set (Some l) (set_post_op POP_SWITCH_SESSION_TYPE)
  | _ => INVALID_ACTION_TYPE
  end.

(** ** [pt_of_socket.c] *)
Definition SK_initial : Z := 43.
Definition SK_wait_for_cpu : Z := 82.
Definition SK_winded_up : Z := 117.
Definition SK_wait_for_removed_then_active : Z := 177.
Definition SK_active : Z := 202.
Definition SK_execute_cb : Z := 233.
Definition SK_wait_for_reinstall : Z := 317.
Definition SK_die : Z := 345.

Definition sk_start (l : loc) (a : action) : M unit :=
  set (Some l) (set_fd (a_fd a));;
  set (Some l) (set_timeouts (a_timeouts a));;
  set (Some l) (set_timeoutms (a_timeoutms a));;
  set (Some l) (set_user_param (a_user_param a));;
  set (Some l) (set_exp_event_bits (u16 (a_exp_event_bits a)));;
  set (Some l) (set_cb (a_cb a));;
  set (Some l) (set_event_bits 0);;
  set (Some l) (set_post_op POP_NO_OP);;
  GOTO l SK_initial.

Definition sk_initial (l : loc) (a : action) : M unit :=
  match a_type a with
  | ACTION_WIND_UP =>
      set (Some l) (set_post_op POP_JOIN_LOCAL_NEW_LIST);; GOTO l SK_wait_for_cpu
  | ACTION_WIND_UP_RR =>
      set (Some l) (set_post_op POP_JOIN_GLOBAL_NEW_LIST);; GOTO l SK_wait_for_cpu
  | ACTION_SET_PARENT =>
      have ← get (Some l) s_have_parent_session;
      if have : bool then INVALID_ACTION_TYPE
      else
        set (Some l) (set_have_parent_session true);;
        set (Some l) (set_session_done_cb (a_cb a));;
        set (Some l) (set_parent_session (a_user_param a));;
        set (Some l) (set_post_op POP_NO_OP);;
        GOTO l SK_initial
  | _ => INVALID_ACTION_TYPE
  end.

Definition sk_install_fd (l : loc) : M unit :=
  fd ← get (Some l) s_fd;
  bits ← get (Some l) s_exp_event_bits;
  r ← (if FD_NEED_INSTALL fd then esq_os_events_add_socket_fd fd l bits else mret 0);
  if negb (r =? 0) then
    set (Some l) (or_event_bits ESQ_EVENT_BIT_ERROR);;
    esq_session_join_active_list l;;
    set (Some l) (set_post_op POP_NO_OP);;
    GOTO l SK_active
  else
    esq_session_join_timing_list l;;
    esq_update_polling_interval;;
    set (Some l) (set_post_op POP_NO_OP);;
    GOTO l SK_winded_up.

Definition sk_wait_for_cpu (l : loc) (a : action) : M unit :=
  match a_type a with
  | ACTION_PICK_UP => sk_install_fd l
  | _ => INVALID_ACTION_TYPE
  end.

Definition sk_remove_fd_then_active (l : loc) : M unit :=
  fd ← get (Some l) s_fd;
  if FD_NEED_INSTALL fd then
    r ← esq_os_events_remove_socket_fd l;
    set (Some l) (set_fd 0);;
    if negb (r =? 0) then
      set (Some l) (or_event_bits ESQ_EVENT_BIT_ERROR);;
      esq_session_left_timing_list l;;
      esq_session_join_active_list l;;
      GOTO l SK_active
    else
      esq_session_change_to_no_timing_list l;;
      GOTO l SK_wait_for_removed_then_active
  else
    esq_session_left_timing_list l;;
    esq_session_join_active_list l;;
    GOTO l SK_active.

Definition sk_winded_up (l : loc) (a : action) : M unit :=
  match a_type a with
  | ACTION_NOTIFY_EVENT =>
      set (Some l) (or_event_bits (a_notify_event_bits a));;
      esq_session_left_timing_list l;;
      esq_session_join_active_list l;;
      set (Some l) (set_post_op POP_NO_OP);;
      GOTO l SK_active
  | ACTION_NOTIFY_TIMEOUT =>
      set (Some l) (or_event_bits ESQ_EVENT_BIT_TIMEOUT);;
      set (Some l) (set_post_op POP_NO_OP);;
      sk_remove_fd_then_active l
  | ACTION_NOTIFY_EXIT =>
      set (Some l) (or_event_bits ESQ_EVENT_BIT_EXIT);;
      set (Some l) (set_post_op POP_NO_OP);;
      sk_remove_fd_then_active l
  | _ => INVALID_ACTION_TYPE
  end.

Definition sk_wait_for_removed_then_active (l : loc) (a : action) : M unit :=
  match a_type a with
  | ACTION_NOTIFY_AIO_REMOVED =>
      esq_session_left_timing_list l;;
      esq_session_join_active_list l;;
      set (Some l) (set_post_op POP_NO_OP);;
      GOTO l SK_active
  | ACTION_NOTIFY_EXIT =>
      set (Some l) (or_event_bits ESQ_EVENT_BIT_EXIT);;
      set (Some l) (set_post_op POP_NO_OP);;
      GOTO l SK_wait_for_removed_then_active
  | _ => INVALID_ACTION_TYPE
  end.

Definition sk_active (l : loc) (a : action) : M unit :=
  match a_type a with
  | ACTION_NOTIFY_EVENT =>
      set (Some l) (or_event_bits (a_notify_event_bits a));;
      set (Some l) (set_post_op POP_NO_OP)
  | ACTION_NOTIFY_EXIT =>
      set (Some l) (or_event_bits ESQ_EVENT_BIT_EXIT);;
      set (Some l) (set_post_op POP_NO_OP);;
      GOTO l SK_active
  | ACTION_EXECUTE_CB =>
      esq_session_left_active_list l;;
      set (Some l) (set_post_op POP_RETURN_VALUE);;
      set (Some l) (set_r ESQ_OK);;
      GOTO l SK_execute_cb
  | _ => INVALID_ACTION_TYPE
  end.

Definition sk_execute_cb (l : loc) (a : action) : M unit :=
  match a_type a with
  | ACTION_WIND_UP => set (Some l) (set_post_op POP_FREE_SESSION);; GOTO l SK_die
  | ACTION_ADD_SOCK_FD_MULTI =>
      set (Some l) (set_post_op POP_SWITCH_SESSION_TYPE);;
      set (Some l) (set_session_type ESQ_SESSION_TYPE_MULTI_SOCKET_CB)
  | ACTION_ADD_CHILD =>
      children ← get (Some l) s_child_session_list;
      set (a_user_param a) (set_next_child children);;
      set (Some l) (set_child_session_list (a_user_param a));;
      set (Some l) (set_post_op POP_NO_OP);;
      GOTO l SK_execute_cb
  | ACTION_ADD_SOCK_FD_SINGLE =>
      set (Some l) (set_fd (a_fd a));;
      set (Some l) (set_timeouts (a_timeouts a));;
      set (Some l) (set_timeoutms (a_timeoutms a));;
      set (Some l) (set_user_param (a_user_param a));;
      set (Some l) (set_exp_event_bits (u16 (a_exp_event_bits a)));;
      set (Some l) (set_cb (a_cb a));;
      set (Some l) (set_post_op POP_NO_OP);;
      GOTO l SK_wait_for_reinstall
  | ACTION_NOTIFY_EXIT =>
      set (Some l) (or_event_bits ESQ_EVENT_BIT_EXIT);;
      set (Some l) (set_post_op POP_NO_OP);;
      GOTO l SK_execute_cb
  | ACTION_NOTIFY_EVENT =>
      set (Some l) (or_event_bits (a_notify_event_bits a));;
      set (Some l) (set_post_op POP_NO_OP);;
      GOTO l SK_execute_cb
  | ACTION_HASH_LOCK_WRITE =>
      set (Some l) (set_session_type ESQ_SESSION_TYPE_WAIT_FOR_HASH_LOCK);;
      set (Some l) (set_post_op POP_SWITCH_SESSION_TYPE)
  | ACTION_HASH_LOCK_READ =>
      set (Some l) (set_session_type ESQ_SESSION_TYPE_WAIT_FOR_HASH_LOCK);;
      set (Some l) (set_post_op ESQ_SESSION_TYPE_WAIT_FOR_HASH_LOCK)
  | _ => INVALID_ACTION_TYPE
  end.

Definition sk_wait_for_reinstall (l : loc) (a : action) : M unit :=
  match a_type a with
  | ACTION_WIND_UP => sk_install_fd l
  | ACTION_NOTIFY_EXIT =>
      set (Some l) (or_event_bits ESQ_EVENT_BIT_EXIT);;
      set (Some l) (set_post_op POP_NO_OP);;
      GOTO l SK_wait_for_reinstall
  | ACTION_NOTIFY_EVENT =>
      set (Some l) (or_event_bits (a_notify_event_bits a));;
      set (Some l) (set_post_op POP_NO_OP);;
      GOTO l SK_wait_for_reinstall
  | _ => INVALID_ACTION_TYPE
  end.

Definition esq_pt_of_single_shot_socket (l : loc) (a : action) : M unit :=
  lc ← get (Some l) s_lc;
  if lc =? 0 then sk_start l a
  else if lc =? SK_initial then sk_initial l a
  else if lc =? SK_wait_for_cpu then sk_wait_for_cpu l a
  else if lc =? SK_winded_up then sk_winded_up l a
  else if lc =? SK_wait_for_removed_then_active then sk_wait_for_removed_then_active l a
  else if lc =? SK_active then sk_active l a
  else if lc =? SK_execute_cb then sk_execute_cb l a
  else if lc =? SK_wait_for_reinstall then sk_wait_for_reinstall l a
  else if lc =? SK_die then INVALID_ACTION_TYPE
  else mret tt.

(** ** [pt_of_multi_shot_socket.c] *)
Definition MU_initial : Z := 41.
Definition MU_wait_for_cpu : Z := 63.
Definition MU_winded_up : Z := 100.
Definition MU_active : Z := 127.
Definition MU_execute_cb : Z := 158.
Definition MU_wait_for_removed_and_wind_up : Z := 225.
Definition MU_wait_for_removed : Z := 246.
Definition MU_wait_for_wind_up : Z := 268.
Definition MU_die : Z := 290.

Definition mu_start (l : loc) (a : action) : M unit :=
  set (Some l) (set_fd (a_fd a));;
  set (Some l) (set_timeouts 0);;
  set (Some l) (set_timeoutms 0);;
  set (Some l) (set_user_param (a_user_param a));;
  set (Some l) (set_exp_event_bits (u16 (a_exp_event_bits a)));;
  set (Some l) (set_cb (a_cb a));;
  set (Some l) (set_event_bits 0);;
  set (Some l) (set_post_op POP_NO_OP);;
  GOTO l MU_initial.

Definition mu_initial (l : loc) (a : action) : M unit :=
  match a_type a with
  | ACTION_WIND_UP =>
      set (Some l) (set_post_op POP_JOIN_LOCAL_NEW_LIST);; GOTO l MU_wait_for_cpu
  | ACTION_WIND_UP_RR =>
      set (Some l) (set_post_op POP_JOIN_GLOBAL_NEW_LIST);; GOTO l MU_wait_for_cpu
  | _ => INVALID_ACTION_TYPE
  end.

Definition mu_install_fd (l : loc) : M unit :=
  fd ← get (Some l) s_fd;
  bits ← get (Some l) s_exp_event_bits;
  r ← (if FD_NEED_INSTALL fd then esq_os_events_add_socket_fd_multishot fd l bits else mret 0);
  if negb (r =? 0) then
    set (Some l) (or_event_bits ESQ_EVENT_BIT_ERROR);;
    esq_session_join_active_list l;;
    set (Some l) (set_post_op POP_NO_OP);;
    GOTO l MU_active
  else
    esq_session_join_timing_list l;;
    set (Some l) (set_post_op POP_NO_OP);;
    GOTO l MU_winded_up.

Definition mu_wait_for_cpu (l : loc) (a : action) : M unit :=
  match a_type a with
  | ACTION_PICK_UP => mu_install_fd l
  | _ => INVALID_ACTION_TYPE
  end.

Definition mu_winded_up (l : loc) (a : action) : M unit :=
  match a_type a with
  | ACTION_NOTIFY_EVENT =>
      set (Some l) (or_event_bits (a_notify_event_bits a));;
      esq_session_left_timing_list l;;
      esq_session_join_active_list l;;
      set (Some l) (set_post_op POP_NO_OP);;
      GOTO l MU_active
  | ACTION_NOTIFY_EXIT =>
      set (Some l) (or_event_bits ESQ_EVENT_BIT_EXIT);;
      esq_session_left_timing_list l;;
      esq_session_join_active_list l;;
      GOTO l MU_active
  | _ => INVALID_ACTION_TYPE
  end.

Definition mu_active (l : loc) (a : action) : M unit :=
  match a_type a with
  | ACTION_NOTIFY_EVENT =>
      set (Some l) (or_event_bits (a_notify_event_bits a));;
      set (Some l) (set_post_op POP_NO_OP);;
      GOTO l MU_active
  | ACTION_NOTIFY_EXIT =>
      set (Some l) (or_event_bits ESQ_EVENT_BIT_EXIT);;
      set (Some l) (set_post_op POP_NO_OP);;
      GOTO l MU_active
  | ACTION_EXECUTE_CB =>
      esq_session_left_active_list l;;
      set (Some l) (set_post_op POP_RETURN_VALUE);;
      set (Some l) (set_r ESQ_OK);;
      set (Some l) (set_event_bits2 0);;
      GOTO l MU_execute_cb
  | _ => INVALID_ACTION_TYPE
  end.

Definition mu_execute_cb (l : loc) (a : action) : M unit :=
  match a_type a with
  | ACTION_WIND_UP =>
      fd ← get (Some l) s_fd;
      if negb (fd =? 0) then
        bits2 ← get (Some l) s_event_bits2;
        if negb (bits2 =? 0) then
          set (Some l) (set_event_bits bits2);;
          esq_session_join_active_list l;;
          GOTO l MU_active
        else
          esq_session_join_timing_list l;;
          set (Some l) (set_post_op POP_NO_OP);;
          GOTO l MU_winded_up
      else set (Some l) (set_post_op POP_FREE_SESSION)
  | ACTION_REMOVE_FD =>
      fd ← get (Some l) s_fd;
      if FD_NEED_INSTALL fd then
        r ← esq_os_events_remove_socket_fd l;
        set (Some l) (set_fd 0);;
        if negb (r =? 0) then
          set (Some l) (or_event_bits2 ESQ_EVENT_BIT_ERROR);;
          GOTO l MU_execute_cb
        else
          esq_session_join_timing_list l;;
          GOTO l MU_wait_for_removed_and_wind_up
      else
        set (Some l) (set_post_op POP_NO_OP);;
        set (Some l) (set_fd 0);;
        GOTO l MU_execute_cb
  | ACTION_NOTIFY_EVENT =>
      set (Some l) (or_event_bits2 (a_notify_event_bits a));;
      set (Some l) (set_post_op POP_NO_OP);;
      GOTO l MU_execute_cb
  | ACTION_NOTIFY_EXIT =>
      set (Some l) (or_event_bits2 ESQ_EVENT_BIT_EXIT);;
      set (Some l) (set_post_op POP_NO_OP);;
      GOTO l MU_execute_cb
  | _ => INVALID_ACTION_TYPE
  end.

Definition mu_wait_for_removed_and_wind_up (l : loc) (a : action) : M unit :=
  match a_type a with
  | ACTION_NOTIFY_AIO_REMOVED =>
      set (Some l) (set_post_op POP_NO_OP);; GOTO l MU_wait_for_wind_up
  | ACTION_WIND_UP => set (Some l) (set_post_op POP_NO_OP);; GOTO l MU_wait_for_removed
  | _ => INVALID_ACTION_TYPE
  end.

Definition mu_wait_for_removed (l : loc) (a : action) : M unit :=
  match a_type a with
  | ACTION_NOTIFY_AIO_REMOVED =>
      esq_session_left_timing_list l;;
      set (Some l) (set_post_op POP_FREE_SESSION);;
      GOTO l MU_die
  | ACTION_NOTIFY_EXIT => set (Some l) (set_post_op POP_NO_OP);; GOTO l MU_wait_for_removed
  | _ => INVALID_ACTION_TYPE
  end.

Definition mu_wait_for_wind_up (l : loc) (a : action) : M unit :=
  match a_type a with
  | ACTION_WIND_UP =>
      esq_session_left_timing_list l;;
      set (Some l) (set_post_op POP_FREE_SESSION);;
      GOTO l MU_die
  | ACTION_NOTIFY_EXIT => set (Some l) (set_post_op POP_NO_OP);; GOTO l MU_wait_for_wind_up
  | _ => INVALID_ACTION_TYPE
  end.

Definition esq_pt_of_multi_shot_socket (l : loc) (a : action) : M unit :=
  lc ← get (Some l) s_lc;
  if lc =? 0 then mu_start l a
  else if lc =? MU_initial then mu_initial l a
  else if lc =? MU_wait_for_cpu then mu_wait_for_cpu l a
  else if lc =? MU_winded_up then mu_winded_up l a
  else if lc =? MU_active then mu_active l a
  else if lc =? MU_execute_cb then mu_execute_cb l a
  else if lc =? MU_wait_for_removed_and_wind_up then mu_wait_for_removed_and_wind_up l a
  else if lc =? MU_wait_for_removed then mu_wait_for_removed l a
  else if lc =? MU_wait_for_wind_up then mu_wait_for_wind_up l a
  else if lc =? MU_die then INVALID_ACTION_TYPE
  else mret tt.

(** ** [pt_of_mco.c] *)
Definition MC_active : Z := 35.
Definition MC_winded_up : Z := 65.
Definition MC_execute_cb : Z := 101.
Definition MC_execute_cb_installed_socket_fd : Z := 166.

Definition mc_start (l : loc) : M unit :=
  esq_session_join_active_list l;;
  set (Some l) (set_post_op POP_RETURN_VALUE);;
  set (Some l) (set_r ESQ_OK);;
  GOTO l MC_active.

Definition mc_active (l : loc) (a : action) : M unit :=
  match a_type a with
  | ACTION_NOTIFY_EVENT =>
      set (Some l) (or_event_bits (a_notify_event_bits a));;
      set (Some l) (set_post_op POP_NO_OP);;
      GOTO l MC_active
  | ACTION_NOTIFY_EXIT =>
      set (Some l) (or_event_bits ESQ_EVENT_BIT_EXIT);;
      set (Some l) (set_post_op POP_NO_OP);;
      GOTO l MC_active
  | ACTION_EXECUTE_CB =>
      esq_session_left_active_list l;;
      set (Some l) (set_post_op POP_RETURN_VALUE);;
      set (Some l) (set_r ESQ_OK);;
      GOTO l MC_execute_cb
  | _ => INVALID_ACTION_TYPE
  end.

(** The three notifications of [__winded_up] differ in the bits only. *)
Definition mc_wake (l : loc) (bits : Z) : M unit :=
  set (Some l) (or_event_bits bits);;
  esq_session_left_timing_list l;;
  esq_session_join_active_list l;;
  set (Some l) (set_post_op POP_NO_OP);;
  GOTO l MC_active.

Definition mc_winded_up (l : loc) (a : action) : M unit :=
  match a_type a with
  | ACTION_NOTIFY_EVENT => mc_wake l (a_notify_event_bits a)
  | ACTION_NOTIFY_EXIT => mc_wake l ESQ_EVENT_BIT_EXIT
  | ACTION_NOTIFY_TIMEOUT => mc_wake l ESQ_EVENT_BIT_TIMEOUT
  | _ => INVALID_ACTION_TYPE
  end.

Section Mco.
(** The coroutine library: whether a coroutine has run to its end. *)
Context (mco_is_end : ptr → bool).

Definition mc_execute_cb (l : loc) (a : action) : M unit :=
  match a_type a with
  | ACTION_WIND_UP =>
      co ← get (Some l) s_mco;
      if mco_is_end co then
        say (MCO_DESTROY co);;
        set (Some l) (set_mco None);;
        set (Some l) (set_post_op POP_FREE_SESSION)
      else
        bits2 ← get (Some l) s_event_bits2;
        if negb (bits2 =? 0) then
          set (Some l) (set_event_bits bits2);;
          set (Some l) (set_event_bits2 0);;
          esq_session_join_active_list l;;
          GOTO l MC_active
        else INVALID_ACTION_TYPE
  | ACTION_ADD_SOCK_FD_SINGLE =>
      bits ← get (Some l) s_exp_event_bits;
      r ← (if FD_NEED_INSTALL (a_fd a) then esq_os_events_add_socket_fd (a_fd a) l bits
           else mret 0);
      if negb (r =? 0) then
        set (Some l) (set_post_op POP_RETURN_VALUE);;
        set (Some l) (set_r r);;
        GOTO l MC_execute_cb
      else
        set (Some l) (set_fd (a_fd a));;
        esq_session_join_timing_list l;;
        esq_update_polling_interval;;
        set (Some l) (set_post_op POP_RETURN_VALUE);;
        set (Some l) (set_r ESQ_OK);;
        GOTO l MC_execute_cb_installed_socket_fd
  | ACTION_NOTIFY_EXIT =>
      set (Some l) (or_event_bits2 ESQ_EVENT_BIT_EXIT);;
      set (Some l) (set_post_op POP_NO_OP);;
      GOTO l MC_execute_cb
  | ACTION_NOTIFY_EVENT =>
      set (Some l) (or_event_bits2 (a_notify_event_bits a));;
      set (Some l) (set_post_op POP_NO_OP);;
      GOTO l MC_execute_cb
  | _ => INVALID_ACTION_TYPE
  end.

(** The three notifications of [__execute_cb_installed_socket_fd], again. *)
Definition mc_store (l : loc) (bits : Z) : M unit :=
  set (Some l) (or_event_bits2 bits);;
  esq_session_left_timing_list l;;
  set (Some l) (set_post_op POP_NO_OP);;
  GOTO l MC_execute_cb_installed_socket_fd.

Definition mc_execute_cb_installed_socket_fd (l : loc) (a : action) : M unit :=
  match a_type a with
  | ACTION_WIND_UP =>
      co ← get (Some l) s_mco;
      if mco_is_end co then INVALID_ACTION_TYPE
      else
        bits2 ← get (Some l) s_event_bits2;
        if negb (bits2 =? 0) then
          set (Some l) (set_event_bits bits2);;
          set (Some l) (set_event_bits2 0);;
          esq_session_join_active_list l;;
          set (Some l) (set_post_op POP_NO_OP);;
          GOTO l MC_active
        else
          set (Some l) (set_post_op POP_NO_OP);;
          GOTO l MC_winded_up
  | ACTION_REMOVE_FD =>
      fd ← get (Some l) s_fd;
      (if FD_NEED_INSTALL fd then esq_os_events_remove_socket_fd l;; mret tt else mret tt);;
      esq_session_left_timing_list l;;
      set (Some l) (set_post_op POP_NO_OP);;
      set (Some l) (set_fd 0);;
      GOTO l MC_execute_cb
  | ACTION_NOTIFY_EXIT => mc_store l ESQ_EVENT_BIT_EXIT
  | ACTION_NOTIFY_EVENT => mc_store l (a_notify_event_bits a)
  | ACTION_NOTIFY_TIMEOUT => mc_store l ESQ_EVENT_BIT_TIMEOUT
  | _ => INVALID_ACTION_TYPE
  end.

Definition esq_pt_of_mco (l : loc) (a : action) : M unit :=
  lc ← get (Some l) s_lc;
  if lc =? 0 then mc_start l
  else if lc =? MC_active then mc_active l a
  else if lc =? MC_winded_up then mc_winded_up l a
  else if lc =? MC_execute_cb then mc_execute_cb l a
  else if lc =? MC_execute_cb_installed_socket_fd then mc_execute_cb_installed_socket_fd l a
  else mret tt.
End Mco.

(** ** [pt_of_hash_lock.c] *)
Definition HL_initial : Z := 49.
Definition HL_wait_for_cpu : Z := 88.
Definition HL_winded_up : Z := 135.
Definition HL_active : Z := 169.
Definition HL_execute_cb : Z := 200.
Definition HL_die : Z := 257.

Definition hl_start (l : loc) (a : action) : M unit :=
  set (Some l) (set_fd (a_fd a));;
  set (Some l) (set_timeouts (a_timeouts a));;
  set (Some l) (set_timeoutms (a_timeoutms a));;
  set (Some l) (set_user_param (a_user_param a));;
  set (Some l) (set_cb (a_cb a));;
  set (Some l) (set_event_bits 0);;
  set (Some l) (set_hash_lock_idx (i16 (a_hash_lock_idx a)));;
  set (Some l) (set_hash_lock_state
    (match a_type a with
     | ACTION_HASH_LOCK_READ => ESQ_SESSION_HASH_LOCK_READ
     | _ => ESQ_SESSION_HASH_LOCK_WRITE
     end));;
  set (Some l) (set_post_op POP_NO_OP);;
  GOTO l HL_initial.

Definition hl_initial (l : loc) (a : action) : M unit :=
  match a_type a with
  | ACTION_WIND_UP =>
      set (Some l) (set_post_op POP_JOIN_LOCAL_NEW_LIST);; GOTO l HL_wait_for_cpu
  | ACTION_WIND_UP_RR =>
      set (Some l) (set_post_op POP_JOIN_GLOBAL_NEW_LIST);; GOTO l HL_wait_for_cpu
  | ACTION_SET_PARENT =>
      have ← get (Some l) s_have_parent_session;
      if have : bool then INVALID_ACTION_TYPE
      else
        set (Some l) (set_have_parent_session true);;
        set (Some l) (set_session_done_cb (a_cb a));;
        set (Some l) (set_parent_session (a_user_param a));;
        set (Some l) (set_post_op POP_NO_OP);;
        GOTO l HL_initial
  | _ => INVALID_ACTION_TYPE
  end.

(** [m] is what [malloc] returns if the fetch needs a context of its own. *)
Definition hl_try_fetch_hash_lock (m : ptr) (l : loc) : M unit :=
  r ← esq_try_fetch_hash_lock m l;
  if ESQ_ERROR_BUSY =? r then
    t ← get (Some l) s_timeouts;
    if 0 <? t then
      esq_session_join_timing_list l;;
      esq_update_polling_interval;;
      set (Some l) (set_post_op POP_NO_OP);;
      GOTO l HL_winded_up
    else
      set (Some l) (or_event_bits ESQ_EVENT_BIT_TIMEOUT);;
      esq_session_join_active_list l;;
      set (Some l) (set_post_op POP_NO_OP);;
      GOTO l HL_active
  else
    set (Some l) (or_event_bits
      (if ESQ_OK =? r then ESQ_EVENT_BIT_LOCK_OBTAIN else ESQ_EVENT_BIT_ERROR));;
    esq_session_join_active_list l;;
    set (Some l) (set_post_op POP_NO_OP);;
    GOTO l HL_active.

Definition hl_wait_for_cpu (m : ptr) (l : loc) (a : action) : M unit :=
  match a_type a with
  | ACTION_PICK_UP => hl_try_fetch_hash_lock m l
  | _ => INVALID_ACTION_TYPE
  end.

Definition hl_winded_up (l : loc) (a : action) : M unit :=
  match a_type a with
  | ACTION_NOTIFY_EVENT =>
      set (Some l) (or_event_bits (a_notify_event_bits a));;
      esq_session_left_timing_list l;;
      esq_session_join_active_list l;;
      set (Some l) (set_post_op POP_NO_OP);;
      GOTO l HL_active
  | ACTION_NOTIFY_TIMEOUT =>
      set (Some l) (or_event_bits ESQ_EVENT_BIT_TIMEOUT);;
      set (Some l) (set_post_op POP_NO_OP);;
      GOTO l HL_active
  | ACTION_NOTIFY_EXIT =>
      set (Some l) (or_event_bits ESQ_EVENT_BIT_EXIT);;
      set (Some l) (set_post_op POP_NO_OP);;
      GOTO l HL_active
  | _ => INVALID_ACTION_TYPE
  end.

Definition hl_active (l : loc) (a : action) : M unit :=
  match a_type a with
  | ACTION_NOTIFY_EVENT =>
      set (Some l) (or_event_bits (a_notify_event_bits a));;
      set (Some l) (set_post_op POP_NO_OP)
  | ACTION_NOTIFY_EXIT =>
      set (Some l) (or_event_bits ESQ_EVENT_BIT_EXIT);;
      set (Some l) (set_post_op POP_NO_OP);;
      GOTO l HL_active
  | ACTION_EXECUTE_CB =>
      esq_session_left_active_list l;;
      set (Some l) (set_post_op POP_RETURN_VALUE);;
      set (Some l) (set_r ESQ_OK);;
      GOTO l HL_execute_cb
  | _ => INVALID_ACTION_TYPE
  end.

Definition hl_execute_cb (l : loc) (a : action) : M unit :=
  match a_type a with
  | ACTION_WIND_UP => set (Some l) (set_post_op POP_FREE_SESSION);; GOTO l HL_die
  | ACTION_ADD_SOCK_FD_MULTI =>
      set (Some l) (set_post_op POP_SWITCH_SESSION_TYPE);;
      set (Some l) (set_session_type ESQ_SESSION_TYPE_MULTI_SOCKET_CB)
  | ACTION_ADD_CHILD =>
      children ← get (Some l) s_child_session_list;
      set (a_user_param a) (set_next_child children);;
      set (Some l) (set_child_session_list (a_user_param a));;
      set (Some l) (set_post_op POP_NO_OP);;
      GOTO l HL_execute_cb
  | ACTION_ADD_SOCK_FD_SINGLE =>
      set (Some l) (set_session_type ESQ_SESSION_TYPE_SOCKET_CB);;
      set (Some l) (set_post_op POP_SWITCH_SESSION_TYPE)
  | ACTION_NOTIFY_EXIT =>
      set (Some l) (or_event_bits ESQ_EVENT_BIT_EXIT);;
      set (Some l) (set_post_op POP_NO_OP);;
      GOTO l HL_execute_cb
  | ACTION_NOTIFY_EVENT =>
      set (Some l) (or_event_bits (a_notify_event_bits a));;
      set (Some l) (set_post_op POP_NO_OP);;
      GOTO l HL_execute_cb
  | ACTION_HASH_LOCK_WRITE =>
      set (Some l) (set_session_type ESQ_SESSION_TYPE_WAIT_FOR_HASH_LOCK);;
      set (Some l) (set_post_op POP_SWITCH_SESSION_TYPE)
  | ACTION_HASH_LOCK_READ =>
      set (Some l) (set_session_type ESQ_SESSION_TYPE_WAIT_FOR_HASH_LOCK);;
      set (Some l) (set_post_op ESQ_SESSION_TYPE_WAIT_FOR_HASH_LOCK)
  | _ => INVALID_ACTION_TYPE
  end.

Definition esq_pt_of_hash_lock (m : ptr) (l : loc) (a : action) : M unit :=
  lc ← get (Some l) s_lc;
  if lc =? 0 then hl_start l a
  else if lc =? HL_initial then hl_initial l a
  else if lc =? HL_wait_for_cpu then hl_wait_for_cpu m l a
  else if lc =? HL_winded_up then hl_winded_up l a
  else if lc =? HL_active then hl_active l a
  else if lc =? HL_execute_cb then hl_execute_cb l a
  else if lc =? HL_die then INVALID_ACTION_TYPE
  else mret tt.

(** ** Where a session belongs *)

(** Per machine and label: in no list, in the active list, in the list of its timeout, or
    in one of the two lists of sessions to pick up. *)
Inductive home := Nowhere | Active | Waiting | ToPickUp.

Definition sk_home (lc : Z) : home :=
  if lc =? SK_wait_for_cpu then ToPickUp
  else if lc =? SK_winded_up then Waiting
  else if lc =? SK_wait_for_removed_then_active then Waiting
  else if lc =? SK_active then Active
  else Nowhere.

Definition mu_home (lc : Z) : home :=
  if lc =? MU_wait_for_cpu then ToPickUp
  else if lc =? MU_winded_up then Waiting
  else if lc =? MU_active then Active
  else if lc =? MU_wait_for_removed_and_wind_up then Waiting
  else if lc =? MU_wait_for_removed then Waiting
  else if lc =? MU_wait_for_wind_up then Waiting
  else Nowhere.

(** A coroutine whose socket is installed waits until its first event. *)
Definition mc_home (lc bits2 : Z) : home :=
  if lc =? MC_active then Active
  else if lc =? MC_winded_up then Waiting
  else if (lc =? MC_execute_cb_installed_socket_fd) && (bits2 =? 0) then Waiting
  else Nowhere.

Definition hl_home (lc : Z) : home :=
  if lc =? HL_wait_for_cpu then ToPickUp
  else if lc =? HL_winded_up then Waiting
  else if lc =? HL_active then Active
  else Nowhere.

Definition home_of (s : session) : home :=
  if s_session_type s =? ESQ_SESSION_TYPE_SOCKET_CB then sk_home (s_lc s)
  else if s_session_type s =? ESQ_SESSION_TYPE_MULTI_SOCKET_CB then mu_home (s_lc s)
  else if s_session_type s =? ESQ_SESSION_TYPE_MCO then mc_home (s_lc s) (s_event_bits2 s)
  else if s_session_type s =? ESQ_SESSION_TYPE_WAIT_FOR_HASH_LOCK then hl_home (s_lc s)
  else Nowhere.

Definition located (L : spot → list loc) (x : loc) (s : session) : Prop :=
  match home_of s with
  | Nowhere => at_ L x None
  | Active => at_ L x (Some (At list_of_active))
  | Waiting => at_ L x (Some (timing_spot s))
  | ToPickUp => at_ L x (Some NewLocal) ∨ at_ L x (Some NewGlobal)
  end.

Lemma located_ext L L' x s s' :
  core s = core s' → (∀ a, x ∈ L a ↔ x ∈ L' a) → located L x s → located L' x s'.
Proof.
  intros E Hm. assert (Eh : home_of s = home_of s').
  { change (home_of (core s) = home_of (core s')). by rewrite E. }
  assert (Et : timing_spot s = timing_spot s').
  { change (timing_spot (core s) = timing_spot (core s')). by rewrite E. }
  unfold located. rewrite Eh, Et. destruct (home_of s'); simpl; rewrite ?Hm; try done.
  intros H a. by rewrite <- Hm.
Qed.

(** The spot of the session a request is made to. *)
Definition spot_of (s : session) : option spot :=
  match home_of s with
  | Active => Some (At list_of_active)
  | Waiting => Some (timing_spot s)
  | _ => None
  end.

(** Where no timeout is expected, the session has none, so that it waits in the list that
    is never timed: sessions of multi-shot sockets, and those that wait for the kernel to
    let go of their descriptor. *)
Definition mu_label (lc : Z) : bool :=
  bool_decide (lc ∈ [MU_initial; MU_wait_for_cpu; MU_winded_up; MU_active; MU_execute_cb;
                     MU_wait_for_removed_and_wind_up; MU_wait_for_removed; MU_wait_for_wind_up;
                     MU_die]).

Definition no_timeout (s : session) : Prop := s_timeouts s = 0 ∧ s_timeoutms s = 0.

Definition tidy (s : session) : Prop :=
  (s_session_type s = ESQ_SESSION_TYPE_MULTI_SOCKET_CB → mu_label (s_lc s) = true →
   no_timeout s) ∧
  (s_session_type s = ESQ_SESSION_TYPE_SOCKET_CB → s_lc s = SK_wait_for_removed_then_active →
   no_timeout s).

(** ** Running the machines symbolically *)

(** One step of code: the rule for its head, at the assertion about the current world. *)
Ltac wp_step :=
  lazymatch goal with
  | |- wp _ (_ ≫= _) _ _ => apply wp_bind
  | |- wp _ (mret _) _ _ => apply wp_ret
  | |- wp _ (GOTO _ _) _ _ => unfold GOTO
  | |- wp _ INVALID_ACTION_TYPE _ _ => apply wp_exit
  | H : holds ?F ?w ?l ?a ?s |- wp _ (get (Some ?l) _) _ ?w =>
      apply (wp_get F _ l a s); [exact H | reflexivity | cbn beta]
  | H : holds ?F ?w ?l ?a ?s |- wp _ (set (Some ?l) _) _ ?w =>
      apply (wp_set F _ l a s); [exact H | reflexivity | split; reflexivity |];
      let w' := fresh "w" in let H' := fresh "H" in intros w' H'; clear H
  | H : holds ?F ?w ?l ?a ?s |- wp _ (say _) _ ?w =>
      apply (wp_say F _ _ l a s); [exact H |];
      let w' := fresh "w" in let H' := fresh "H" in intros w' H'; clear H
  | H : holds ?F ?w ?l ?a ?s |- wp _ (esq_session_join_active_list ?l) _ ?w =>
      apply (wp_join_active F _ l s); [exact H |];
      let w' := fresh "w" in let H' := fresh "H" in intros w' H'; clear H
  | H : holds ?F ?w ?l ?a ?s |- wp _ (esq_session_left_active_list ?l) _ ?w =>
      apply (wp_left_active F _ l s); [exact H |];
      let w' := fresh "w" in let H' := fresh "H" in intros w' H'; clear H
  | H : holds ?F ?w ?l ?a ?s |- wp _ (esq_session_join_timing_list ?l) _ ?w =>
      apply (wp_join_timing F _ l s); [exact H |];
      let w' := fresh "w" in let x := fresh "x" in let y := fresh "y" in
      let H' := fresh "H" in intros w' x y H'; clear H
  | H : holds ?F ?w ?l ?a ?s |- wp _ (esq_session_left_timing_list ?l) _ ?w =>
      apply (wp_left_timing F _ l s); [exact H |];
      let w' := fresh "w" in let H' := fresh "H" in intros w' H'; clear H
  | H : holds ?F ?w ?l ?a ?s |- wp _ (esq_session_change_to_no_timing_list ?l) _ ?w =>
      apply (wp_change_to_no_timing F _ l s); [exact H |];
      let w' := fresh "w" in let x := fresh "x" in let y := fresh "y" in
      let H' := fresh "H" in intros w' x y H'; clear H
  | H : holds ?F ?w ?l ?a ?s |- wp _ esq_update_polling_interval _ ?w =>
      apply (wp_update_polling F _ l a s); [exact H |];
      let w' := fresh "w" in let H' := fresh "H" in intros w' H'; clear H
  | H : holds ?F ?w ?l ?a ?s |- wp _ (esq_os_events_add_socket_fd _ ?l _) _ ?w =>
      apply (wp_add_socket_fd F _ _ _ l a s); [exact H |];
      let w' := fresh "w" in let H' := fresh "H" in intros w' H'; clear H
  | H : holds ?F ?w ?l ?a ?s |- wp _ (esq_os_events_add_socket_fd_multishot _ ?l _) _ ?w =>
      apply (wp_add_socket_fd_multishot F _ _ _ l a s); [exact H |];
      let w' := fresh "w" in let H' := fresh "H" in intros w' H'; clear H
  | H : holds ?F ?w ?l ?a ?s |- wp _ (esq_os_events_remove_socket_fd ?l) _ ?w =>
      apply (wp_remove_socket_fd F _ l a s); [exact H |];
      let w' := fresh "w" in let H' := fresh "H" in intros w' H'; clear H
  | |- wp _ (if ?b then _ else _) _ _ =>
      lazymatch b with
      | negb (ESQ_OK =? 0) => change b with false; cbn iota
      | negb (0 =? 0) => change b with false; cbn iota
      | _ => destruct b eqn:?
      end
  end.

(** The relations of a session to its parent and its children. *)
Definition family (s : session) : bool * ptr * ptr * ptr :=
  (s_have_parent_session s, s_parent_session s, s_child_session_list s,
   s_finished_child_session_list s).

(** What a machine asks of its caller, by its label: to be put into a list to be picked
    up exactly when it waits for that; to be freed or to change machines only when it is
    in no list. *)
Definition asks (s s' : session) : Prop :=
  (home_of s' = ToPickUp ∧
   (s_post_op s' = POP_JOIN_LOCAL_NEW_LIST ∨ s_post_op s' = POP_JOIN_GLOBAL_NEW_LIST)) ∨
  (home_of s' ≠ ToPickUp ∧ (s_post_op s' = POP_NO_OP ∨ s_post_op s' = POP_RETURN_VALUE)) ∨
  (home_of s' = Nowhere ∧ family s' = family s ∧
   (s_post_op s' = POP_FREE_SESSION ∨
    s_post_op s' = ESQ_SESSION_TYPE_WAIT_FOR_HASH_LOCK)) ∨
  (home_of s' = Nowhere ∧ s_post_op s' = POP_SWITCH_SESSION_TYPE ∧
   (s_session_type s' = ESQ_SESSION_TYPE_SOCKET_CB ∨
    s_session_type s' = ESQ_SESSION_TYPE_MULTI_SOCKET_CB ∨
    s_session_type s' = ESQ_SESSION_TYPE_WAIT_FOR_HASH_LOCK)).

(** What a machine leaves behind: the session is linked where its label says. *)
Definition settled (F : frame) (l : loc) (s : session) (w' : world) : Prop :=
  ∃ s', holds F w' l (spot_of s') s' ∧ s_magic0 s' = s_magic0 s ∧ s_magic1 s' = s_magic1 s ∧
    asks s s' ∧ tidy s'.

(** The end of a run: the label reached says where the session belongs. *)
Ltac known := cbn; repeat match goal with
  | E : s_session_type ?s = _ |- context [s_session_type ?s] => rewrite E
  | E : s_lc ?s = _ |- context [s_lc ?s] => rewrite E
  | E : s_post_op ?s = _ |- context [s_post_op ?s] => rewrite E
  | E : s_timeouts ?s = _ |- context [s_timeouts ?s] => rewrite E
  | E : s_timeoutms ?s = _ |- context [s_timeoutms ?s] => rewrite E
  | E : s_event_bits2 ?s = _ |- context [s_event_bits2 ?s] => rewrite E
  | E : (?x =? ?y) = _ |- context [?x =? ?y] => rewrite E
  end; cbn.

Ltac wp_settle :=
  match goal with
  | H : holds ?F ?w ?l ?a ?s |- settled ?F ?l _ ?w =>
      exists s; split; [|split; [reflexivity|split; [reflexivity|split]]];
      [ replace (spot_of s) with a; [exact H|]; unfold spot_of, home_of; known; reflexivity
      | unfold asks, home_of; known;
        first [ by left; auto | by right; left; auto | by right; right; left; auto
              | by right; right; right; auto ]
      | unfold tidy, no_timeout; known; split; intros; first [discriminate | split; reflexivity] ]
  end.

Ltac wp_run := repeat wp_step; try wp_settle; try reflexivity.

(** The session handed over by [ACTION_ADD_CHILD]. *)
Definition child_ok (w : world) (l : loc) (a : action) : Prop :=
  a_type a = ACTION_ADD_CHILD →
  ∃ c, a_user_param a = Some c ∧ c ≠ l ∧ is_Some (w_sessions w !! c).

Lemma wp_add_child F E l a s p c v Q w :
  holds F w l a s → p = Some c → c ≠ l → is_Some (w_sessions w !! c) →
  (∀ w', holds F w' l a s → Q tt w') → wp E (set p (set_next_child v)) Q w.
Proof. intros H -> Hne Hc. by apply (wp_set_other F _ l a s). Qed.

Section Socket.
Context (F : frame) (l : loc) (s : session) (w : world).
Hypothesis Ht : s_session_type s = ESQ_SESSION_TYPE_SOCKET_CB.
Hypothesis Hp : s_post_op s = POP_NO_OP.

Definition sk_accepts (s : session) (t : action_type) : bool :=
  let lc := s_lc s in
  if lc =? SK_initial then
    match t with
    | ACTION_WIND_UP | ACTION_WIND_UP_RR => true
    | ACTION_SET_PARENT => negb (s_have_parent_session s)
    | _ => false
    end
  else if lc =? SK_wait_for_cpu then match t with ACTION_PICK_UP => true | _ => false end
  else if lc =? SK_winded_up then
    match t with
    | ACTION_NOTIFY_EVENT | ACTION_NOTIFY_TIMEOUT | ACTION_NOTIFY_EXIT => true
    | _ => false
    end
  else if lc =? SK_wait_for_removed_then_active then
    match t with ACTION_NOTIFY_AIO_REMOVED | ACTION_NOTIFY_EXIT => true | _ => false end
  else if lc =? SK_active then
    match t with
    | ACTION_NOTIFY_EVENT | ACTION_NOTIFY_EXIT | ACTION_EXECUTE_CB => true
    | _ => false
    end
  else if lc =? SK_execute_cb then
    match t with
    | ACTION_WIND_UP | ACTION_ADD_SOCK_FD_MULTI | ACTION_ADD_CHILD
    | ACTION_ADD_SOCK_FD_SINGLE | ACTION_NOTIFY_EXIT | ACTION_NOTIFY_EVENT
    | ACTION_HASH_LOCK_WRITE | ACTION_HASH_LOCK_READ => true
    | _ => false
    end
  else if lc =? SK_wait_for_reinstall then
    match t with
    | ACTION_WIND_UP | ACTION_NOTIFY_EXIT | ACTION_NOTIFY_EVENT => true
    | _ => false
    end
  else negb (lc =? SK_die).


Lemma sk_start_ok a :
  holds F w l None s → wp False (sk_start l a) (fun _ => settled F l s) w.
Proof using Ht Hp. intros H. unfold sk_start. wp_run. Qed.

Lemma sk_initial_ok a :
  s_lc s = SK_initial → holds F w l None s →
  wp (sk_accepts s (a_type a) = false) (sk_initial l a) (fun _ => settled F l s) w.
Proof using Ht Hp.
  intros Hlc H. unfold sk_accepts. rewrite Hlc. cbn -[settled].
  unfold sk_initial. destruct (a_type a); wp_run.
Qed.

Lemma sk_install_fd_ok E :
  holds F w l None s → wp E (sk_install_fd l) (fun _ => settled F l s) w.
Proof using Ht Hp. intros H. unfold sk_install_fd. wp_run. Qed.

Lemma sk_wait_for_cpu_ok a :
  s_lc s = SK_wait_for_cpu → holds F w l None s →
  wp (sk_accepts s (a_type a) = false) (sk_wait_for_cpu l a) (fun _ => settled F l s) w.
Proof using Ht Hp.
  intros Hlc H. unfold sk_accepts. rewrite Hlc. cbn -[settled].
  unfold sk_wait_for_cpu. destruct (a_type a); wp_run. by apply sk_install_fd_ok.
Qed.

Lemma sk_winded_up_ok a :
  s_lc s = SK_winded_up → holds F w l (Some (timing_spot s)) s →
  wp (sk_accepts s (a_type a) = false) (sk_winded_up l a) (fun _ => settled F l s) w.
Proof using Ht Hp.
  intros Hlc H. unfold sk_accepts. rewrite Hlc. cbn -[settled].
  unfold sk_winded_up. destruct (a_type a); wp_run.
  all: unfold sk_remove_fd_then_active; wp_run.
Qed.

Lemma sk_wait_for_removed_ok a :
  s_lc s = SK_wait_for_removed_then_active → tidy s → holds F w l (Some (timing_spot s)) s →
  wp (sk_accepts s (a_type a) = false) (sk_wait_for_removed_then_active l a)
    (fun _ => settled F l s) w.
Proof using Ht Hp.
  intros Hlc [_ Htd] H. destruct (Htd Ht Hlc) as [Hts Htm].
  unfold sk_accepts. rewrite Hlc. cbn -[settled]. unfold sk_wait_for_removed_then_active. destruct (a_type a); wp_run.
Qed.

Lemma sk_active_ok a :
  s_lc s = SK_active → holds F w l (Some (At list_of_active)) s →
  wp (sk_accepts s (a_type a) = false) (sk_active l a) (fun _ => settled F l s) w.
Proof using Ht Hp.
  intros Hlc H. unfold sk_accepts. rewrite Hlc. cbn -[settled].
  unfold sk_active. destruct (a_type a); wp_run.
Qed.

Lemma sk_execute_cb_ok a :
  s_lc s = SK_execute_cb → child_ok w l a → holds F w l None s →
  wp (sk_accepts s (a_type a) = false) (sk_execute_cb l a) (fun _ => settled F l s) w.
Proof using Ht Hp.
  intros Hlc Hch H. unfold sk_accepts. rewrite Hlc. cbn -[settled].
  unfold sk_execute_cb. destruct (a_type a) eqn:Ea; wp_run.
  destruct (Hch Ea) as (c & Ec & Hne & Hc).
  eapply wp_add_child; [exact H|done..|]. intros w1 H1. clear H. wp_run.
Qed.

Lemma sk_wait_for_reinstall_ok a :
  s_lc s = SK_wait_for_reinstall → holds F w l None s →
  wp (sk_accepts s (a_type a) = false) (sk_wait_for_reinstall l a) (fun _ => settled F l s) w.
Proof using Ht Hp.
  intros Hlc H. unfold sk_accepts. rewrite Hlc. cbn -[settled].
  unfold sk_wait_for_reinstall. destruct (a_type a); wp_run. by apply sk_install_fd_ok.
Qed.
End Socket.

(** Entering the label a session waits at. *)
Ltac at_label :=
  match goal with
  | |- wp _ (if ?a =? ?b then _ else _) _ _ =>
      let E := fresh "Hlc" in destruct (Z.eqb_spec a b) as [E|?]
  end.

(** The spot computed from a known type and label. *)
Ltac spot_known H :=
  match type of H with
  | holds _ ?w ?l (spot_of ?s) ?s =>
      let E := fresh in
      assert (E : spot_of s = spot_of s) by reflexivity;
      unfold spot_of at 2, home_of in E;
      repeat match goal with
      | E' : s_session_type s = _ |- _ => rewrite E' in E
      | E' : s_lc s = _ |- _ => rewrite E' in E
      end; cbn in E; rewrite E in H; clear E
  end.

(** A label no case of the switch has: the function returns at once. *)
Lemma default_ok F l s w (E : Prop) :
  home_of s = Nowhere → s_post_op s = POP_NO_OP → tidy s → holds F w l (spot_of s) s →
  wp E (mret tt) (fun _ => settled F l s) w.
Proof.
  intros Hh Hp Htd H. apply wp_ret. exists s. split_and!; [done|done|done| |done].
  right. left. rewrite Hh. by auto.
Qed.

Lemma sk_ok F l s w a :
  s_session_type s = ESQ_SESSION_TYPE_SOCKET_CB → s_post_op s = POP_NO_OP →
  tidy s → holds F w l (spot_of s) s → child_ok w l a →
  wp (sk_accepts s (a_type a) = false) (esq_pt_of_single_shot_socket l a)
    (fun _ => settled F l s) w.
Proof.
  intros Ht Hp Htd H Hch. apply wp_bind. apply (wp_get F _ l (spot_of s) s); [done..|].
  cbn beta. repeat at_label; [spot_known H..|].
  - eapply wp_mono; [by apply sk_start_ok|done|done].
  - by apply sk_initial_ok.
  - by apply sk_wait_for_cpu_ok.
  - by apply sk_winded_up_ok.
  - by apply sk_wait_for_removed_ok.
  - by apply sk_active_ok.
  - by apply sk_execute_cb_ok.
  - by apply sk_wait_for_reinstall_ok.
  - apply wp_exit. unfold sk_accepts. by rewrite Hlc.
  - apply default_ok; [|done..]. unfold home_of, sk_home. rewrite Ht. cbn.
    by rewrite !(proj2 (Z.eqb_neq _ _)) by done.
Qed.

Section MultiShot.
Context (F : frame) (l : loc) (s : session) (w : world).
Hypothesis Ht : s_session_type s = ESQ_SESSION_TYPE_MULTI_SOCKET_CB.
Hypothesis Hp : s_post_op s = POP_NO_OP.
Hypothesis Htd : tidy s.

Definition mu_accepts (s : session) (t : action_type) : bool :=
  let lc := s_lc s in
  if lc =? MU_initial then
    match t with ACTION_WIND_UP | ACTION_WIND_UP_RR => true | _ => false end
  else if lc =? MU_wait_for_cpu then match t with ACTION_PICK_UP => true | _ => false end
  else if lc =? MU_winded_up then
    match t with ACTION_NOTIFY_EVENT | ACTION_NOTIFY_EXIT => true | _ => false end
  else if lc =? MU_active then
    match t with
    | ACTION_NOTIFY_EVENT | ACTION_NOTIFY_EXIT | ACTION_EXECUTE_CB => true
    | _ => false
    end
  else if lc =? MU_execute_cb then
    match t with
    | ACTION_WIND_UP | ACTION_REMOVE_FD | ACTION_NOTIFY_EVENT | ACTION_NOTIFY_EXIT => true
    | _ => false
    end
  else if lc =? MU_wait_for_removed_and_wind_up then
    match t with ACTION_NOTIFY_AIO_REMOVED | ACTION_WIND_UP => true | _ => false end
  else if lc =? MU_wait_for_removed then
    match t with ACTION_NOTIFY_AIO_REMOVED | ACTION_NOTIFY_EXIT => true | _ => false end
  else if lc =? MU_wait_for_wind_up then
    match t with ACTION_WIND_UP | ACTION_NOTIFY_EXIT => true | _ => false end
  else negb (lc =? MU_die).

Ltac label Hlc :=
  let Hts := fresh in let Htm := fresh in
  destruct (proj1 Htd Ht ltac:(rewrite Hlc; reflexivity)) as [Hts Htm];
  unfold mu_accepts; rewrite Hlc; cbn -[settled].

Lemma mu_start_ok a : holds F w l None s → wp False (mu_start l a) (fun _ => settled F l s) w.
Proof using Ht Hp Htd. intros H. unfold mu_start. wp_run. Qed.

Lemma mu_initial_ok a :
  s_lc s = MU_initial → holds F w l None s →
  wp (mu_accepts s (a_type a) = false) (mu_initial l a) (fun _ => settled F l s) w.
Proof using Ht Hp Htd. intros Hlc H. label Hlc. unfold mu_initial. destruct (a_type a); wp_run. Qed.

Lemma mu_wait_for_cpu_ok a :
  s_lc s = MU_wait_for_cpu → holds F w l None s →
  wp (mu_accepts s (a_type a) = false) (mu_wait_for_cpu l a) (fun _ => settled F l s) w.
Proof using Ht Hp Htd.
  intros Hlc H. label Hlc. unfold mu_wait_for_cpu, mu_install_fd. destruct (a_type a); wp_run.
Qed.

Lemma mu_winded_up_ok a :
  s_lc s = MU_winded_up → holds F w l (Some (timing_spot s)) s →
  wp (mu_accepts s (a_type a) = false) (mu_winded_up l a) (fun _ => settled F l s) w.
Proof using Ht Hp Htd.
  intros Hlc H. label Hlc. unfold mu_winded_up. destruct (a_type a); wp_run.
Qed.

Lemma mu_active_ok a :
  s_lc s = MU_active → holds F w l (Some (At list_of_active)) s →
  wp (mu_accepts s (a_type a) = false) (mu_active l a) (fun _ => settled F l s) w.
Proof using Ht Hp Htd. intros Hlc H. label Hlc. unfold mu_active. destruct (a_type a); wp_run. Qed.

Lemma mu_execute_cb_ok a :
  s_lc s = MU_execute_cb → holds F w l None s →
  wp (mu_accepts s (a_type a) = false) (mu_execute_cb l a) (fun _ => settled F l s) w.
Proof using Ht Hp Htd.
  intros Hlc H. label Hlc. unfold mu_execute_cb. destruct (a_type a); wp_run.
Qed.

Lemma mu_removing_ok a :
  s_lc s = MU_wait_for_removed_and_wind_up → holds F w l (Some (timing_spot s)) s →
  wp (mu_accepts s (a_type a) = false) (mu_wait_for_removed_and_wind_up l a)
    (fun _ => settled F l s) w.
Proof using Ht Hp Htd.
  intros Hlc H. label Hlc. unfold mu_wait_for_removed_and_wind_up. destruct (a_type a); wp_run.
Qed.

Lemma mu_wait_for_removed_ok a :
  s_lc s = MU_wait_for_removed → holds F w l (Some (timing_spot s)) s →
  wp (mu_accepts s (a_type a) = false) (mu_wait_for_removed l a) (fun _ => settled F l s) w.
Proof using Ht Hp Htd.
  intros Hlc H. label Hlc. unfold mu_wait_for_removed. destruct (a_type a); wp_run.
Qed.

Lemma mu_wait_for_wind_up_ok a :
  s_lc s = MU_wait_for_wind_up → holds F w l (Some (timing_spot s)) s →
  wp (mu_accepts s (a_type a) = false) (mu_wait_for_wind_up l a) (fun _ => settled F l s) w.
Proof using Ht Hp Htd.
  intros Hlc H. label Hlc. unfold mu_wait_for_wind_up. destruct (a_type a); wp_run.
Qed.
End MultiShot.

Lemma mu_ok F l s w a :
  s_session_type s = ESQ_SESSION_TYPE_MULTI_SOCKET_CB → s_post_op s = POP_NO_OP →
  tidy s → holds F w l (spot_of s) s →
  wp (mu_accepts s (a_type a) = false) (esq_pt_of_multi_shot_socket l a)
    (fun _ => settled F l s) w.
Proof.
  intros Ht Hp Htd H. apply wp_bind. apply (wp_get F _ l (spot_of s) s); [done..|].
  cbn beta. repeat at_label; [spot_known H..|].
  - eapply wp_mono; [by apply mu_start_ok|done|done].
  - by apply mu_initial_ok.
  - by apply mu_wait_for_cpu_ok.
  - by apply mu_winded_up_ok.
  - by apply mu_active_ok.
  - by apply mu_execute_cb_ok.
  - by apply mu_removing_ok.
  - by apply mu_wait_for_removed_ok.
  - by apply mu_wait_for_wind_up_ok.
  - apply wp_exit. unfold mu_accepts. by rewrite Hlc.
  - apply default_ok; [|done..]. unfold home_of, mu_home. rewrite Ht. cbn.
    by rewrite !(proj2 (Z.eqb_neq _ _)) by done.
Qed.

Section Coroutine.
Context (mco_is_end : ptr → bool).

Definition mc_accepts (s : session) (t : action_type) : bool :=
  let lc := s_lc s in
  if lc =? MC_active then
    match t with
    | ACTION_NOTIFY_EVENT | ACTION_NOTIFY_EXIT | ACTION_EXECUTE_CB => true
    | _ => false
    end
  else if lc =? MC_winded_up then
    match t with
    | ACTION_NOTIFY_EVENT | ACTION_NOTIFY_EXIT | ACTION_NOTIFY_TIMEOUT => true
    | _ => false
    end
  else if lc =? MC_execute_cb then
    match t with
    | ACTION_WIND_UP => mco_is_end (s_mco s) || negb (s_event_bits2 s =? 0)
    | ACTION_ADD_SOCK_FD_SINGLE | ACTION_NOTIFY_EXIT | ACTION_NOTIFY_EVENT => true
    | _ => false
    end
  else if lc =? MC_execute_cb_installed_socket_fd then
    match t with
    | ACTION_WIND_UP => negb (mco_is_end (s_mco s))
    | ACTION_REMOVE_FD | ACTION_NOTIFY_EXIT | ACTION_NOTIFY_EVENT | ACTION_NOTIFY_TIMEOUT => true
    | _ => false
    end
  else true.

(** What the coroutine machine relies on: events reach a coroutine that is running at most
    once after it has installed its socket, and none before; every notification carries an
    event. *)
Definition mc_safe (s : session) (a : action) : Prop :=
  (s_lc s = MC_execute_cb → a_type a = ACTION_ADD_SOCK_FD_SINGLE → s_event_bits2 s = 0) ∧
  (s_lc s = MC_execute_cb_installed_socket_fd → a_type a ≠ ACTION_WIND_UP →
   s_event_bits2 s = 0 ∧
   (a_type a = ACTION_NOTIFY_EVENT → u16 (a_notify_event_bits a) ≠ 0)).

Context (F : frame) (l : loc) (s : session) (w : world).
Hypothesis Ht : s_session_type s = ESQ_SESSION_TYPE_MCO.
Hypothesis Hp : s_post_op s = POP_NO_OP.

Ltac label Hlc := unfold mc_accepts; rewrite Hlc; cbn -[settled].

Lemma mc_active_ok a :
  s_lc s = MC_active → holds F w l (Some (At list_of_active)) s →
  wp (mc_accepts s (a_type a) = false) (mc_active l a) (fun _ => settled F l s) w.
Proof using Ht Hp. intros Hlc H. label Hlc. unfold mc_active. destruct (a_type a); wp_run. Qed.

Lemma mc_winded_up_ok a :
  s_lc s = MC_winded_up → holds F w l (Some (timing_spot s)) s →
  wp (mc_accepts s (a_type a) = false) (mc_winded_up l a) (fun _ => settled F l s) w.
Proof using Ht Hp.
  intros Hlc H. label Hlc. unfold mc_winded_up, mc_wake. destruct (a_type a); wp_run.
Qed.

Lemma mc_execute_cb_ok a :
  s_lc s = MC_execute_cb → mc_safe s a → holds F w l None s →
  wp (mc_accepts s (a_type a) = false) (mc_execute_cb mco_is_end l a) (fun _ => settled F l s) w.
Proof using Ht Hp.
  intros Hlc [Hs _] H. label Hlc. unfold mc_execute_cb.
  destruct (a_type a); try specialize (Hs Hlc eq_refl); wp_run.
Qed.

Lemma mc_installed_ok a :
  s_lc s = MC_execute_cb_installed_socket_fd → mc_safe s a → holds F w l (spot_of s) s →
  wp (mc_accepts s (a_type a) = false) (mc_execute_cb_installed_socket_fd mco_is_end l a)
    (fun _ => settled F l s) w.
Proof using Ht Hp.
  intros Hlc [_ Hs] H. specialize (Hs Hlc). label Hlc.
  assert (Hsp : spot_of s = if s_event_bits2 s =? 0 then Some (timing_spot s) else None).
  { unfold spot_of, home_of. rewrite Ht, Hlc. cbn. by destruct (s_event_bits2 s =? 0). }
  unfold mc_execute_cb_installed_socket_fd, mc_store.
  destruct (a_type a); try (destruct (Hs ltac:(done)) as [Hb Hev]; clear Hs; rewrite Hsp, Hb in H;
    cbn in H); try (apply wp_exit; reflexivity); try by wp_run.
  - apply wp_bind. apply (wp_get F _ l (spot_of s) s); [done..|]. cbn beta.
    destruct (mco_is_end (s_mco s)); [by apply wp_exit|].
    apply wp_bind. apply (wp_get F _ l (spot_of s) s); [done..|]. cbn beta.
    destruct (Z.eqb_spec (s_event_bits2 s) 0) as [E|E]; rewrite Hsp in H; cbn [negb];
      cbn iota in H; wp_run.
  - specialize (Hev eq_refl).
    assert (Hne : (u16 (Z.lor (s_event_bits2 s) (a_notify_event_bits a)) =? 0) = false)
      by (rewrite Hb, Z.lor_0_l; by apply Z.eqb_neq).
    clear Hb. wp_run.
Qed.

Lemma mc_ok a :
  tidy s → holds F w l (spot_of s) s → mc_safe s a →
  wp (mc_accepts s (a_type a) = false) (esq_pt_of_mco mco_is_end l a) (fun _ => settled F l s) w.
Proof using Ht Hp.
  intros Htd H Hs. apply wp_bind. apply (wp_get F _ l (spot_of s) s); [done..|].
  cbn beta. repeat at_label.
  - spot_known H. unfold mc_start. wp_run.
  - spot_known H. by apply mc_active_ok.
  - spot_known H. by apply mc_winded_up_ok.
  - spot_known H. by apply mc_execute_cb_ok.
  - by apply mc_installed_ok.
  - apply default_ok; [|done..]. unfold home_of, mc_home. rewrite Ht. cbn.
    by rewrite !(proj2 (Z.eqb_neq _ _)) by done.
Qed.
End Coroutine.

(** The fetch of a lock writes one field of the session. *)
Lemma held_fetched F w w' i ls ctx l a s s0 :
  holds F w l a s → w_sessions w !! l = Some s0 → fetched w w' i ls ctx l s0 →
  holds F w' l a (set_hash_lock_ctx_list (Some ctx) s).
Proof.
  intros H Hs0 (_ & _ & _ & _ & Es & Ec & Eself & Eg).
  assert (Hset : wp False (set (Some l) (set_hash_lock_ctx_list (Some ctx)))
    (fun _ w1 => holds F w1 l a (set_hash_lock_ctx_list (Some ctx) s)) w)
    by (apply (wp_set F _ l a s); done).
  unfold wp in Hset. rewrite (set_Some _ _ s0) in Hset by done.
  eapply holds_frame; [exact Hset|exact Es|exact Eself|exact Eg|]. rewrite Ec. eauto.
Qed.

Section Lock.
Context (F : frame) (m : ptr) (l : loc) (s : session) (w : world).
Hypothesis Ht : s_session_type s = ESQ_SESSION_TYPE_WAIT_FOR_HASH_LOCK.
Hypothesis Hp : s_post_op s = POP_NO_OP.

Definition hl_accepts (s : session) (t : action_type) : bool :=
  let lc := s_lc s in
  if lc =? HL_initial then
    match t with
    | ACTION_WIND_UP | ACTION_WIND_UP_RR => true
    | ACTION_SET_PARENT => negb (s_have_parent_session s)
    | _ => false
    end
  else if lc =? HL_wait_for_cpu then match t with ACTION_PICK_UP => true | _ => false end
  else if lc =? HL_winded_up then
    match t with
    | ACTION_NOTIFY_EVENT | ACTION_NOTIFY_TIMEOUT | ACTION_NOTIFY_EXIT => true
    | _ => false
    end
  else if lc =? HL_active then
    match t with
    | ACTION_NOTIFY_EVENT | ACTION_NOTIFY_EXIT | ACTION_EXECUTE_CB => true
    | _ => false
    end
  else if lc =? HL_execute_cb then
    match t with
    | ACTION_WIND_UP | ACTION_ADD_SOCK_FD_MULTI | ACTION_ADD_CHILD
    | ACTION_ADD_SOCK_FD_SINGLE | ACTION_NOTIFY_EXIT | ACTION_NOTIFY_EVENT
    | ACTION_HASH_LOCK_WRITE | ACTION_HASH_LOCK_READ => true
    | _ => false
    end
  else negb (lc =? HL_die).

(** What the lock machine relies on: a lock is asked for when it can be fetched, and a
    session that waits for one is neither timed out nor told to exit. *)
Definition hl_safe (w : world) (m : ptr) (l : loc) (s : session) (a : action) : Prop :=
  (s_lc s = HL_wait_for_cpu → a_type a = ACTION_PICK_UP →
   ∃ s0 i ls, can_fetch w m l s0 i ls) ∧
  (s_lc s = HL_winded_up →
   a_type a ≠ ACTION_NOTIFY_TIMEOUT ∧ a_type a ≠ ACTION_NOTIFY_EXIT).

Ltac label Hlc := unfold hl_accepts; rewrite Hlc; cbn -[settled].

Lemma hl_start_ok a : holds F w l None s → wp False (hl_start l a) (fun _ => settled F l s) w.
Proof using Ht Hp. intros H. unfold hl_start. wp_run. Qed.

Lemma hl_initial_ok a :
  s_lc s = HL_initial → holds F w l None s →
  wp (hl_accepts s (a_type a) = false) (hl_initial l a) (fun _ => settled F l s) w.
Proof using Ht Hp. intros Hlc H. label Hlc. unfold hl_initial. destruct (a_type a); wp_run. Qed.

Lemma hl_wait_for_cpu_ok a :
  s_lc s = HL_wait_for_cpu → hl_safe w m l s a → holds F w l None s →
  wp (hl_accepts s (a_type a) = false) (hl_wait_for_cpu m l a) (fun _ => settled F l s) w.
Proof using Ht Hp.
  intros Hlc [Hf _] H. label Hlc. unfold hl_wait_for_cpu, hl_try_fetch_hash_lock.
  destruct (a_type a); wp_run.
  destruct (Hf Hlc eq_refl) as (s0 & i & ls & Hcf).
  destruct (fetch_ok w m l s0 i ls Hcf) as (ctx & w' & E & Hfe).
  unfold wp at 1. rewrite E. pose proof (cf_session _ _ _ _ _ _ Hcf) as Hs0.
  pose proof (held_fetched _ _ _ _ _ _ _ _ _ _ H Hs0 Hfe) as H'. clear H. wp_run.
Qed.

Lemma hl_winded_up_ok a :
  s_lc s = HL_winded_up → hl_safe w m l s a → holds F w l (Some (timing_spot s)) s →
  wp (hl_accepts s (a_type a) = false) (hl_winded_up l a) (fun _ => settled F l s) w.
Proof using Ht Hp.
  intros Hlc [_ Hs] H. destruct (Hs Hlc) as [? ?]. label Hlc. unfold hl_winded_up.
  destruct (a_type a); wp_run; done.
Qed.

Lemma hl_active_ok a :
  s_lc s = HL_active → holds F w l (Some (At list_of_active)) s →
  wp (hl_accepts s (a_type a) = false) (hl_active l a) (fun _ => settled F l s) w.
Proof using Ht Hp. intros Hlc H. label Hlc. unfold hl_active. destruct (a_type a); wp_run. Qed.

Lemma hl_execute_cb_ok a :
  s_lc s = HL_execute_cb → child_ok w l a → holds F w l None s →
  wp (hl_accepts s (a_type a) = false) (hl_execute_cb l a) (fun _ => settled F l s) w.
Proof using Ht Hp.
  intros Hlc Hch H. label Hlc. unfold hl_execute_cb. destruct (a_type a) eqn:Ea; wp_run.
  destruct (Hch Ea) as (c & Ec & Hne & Hc).
  eapply wp_add_child; [exact H|done..|]. intros w1 H1. clear H. wp_run.
Qed.

Lemma hl_ok a :
  tidy s → holds F w l (spot_of s) s → hl_safe w m l s a → child_ok w l a →
  wp (hl_accepts s (a_type a) = false) (esq_pt_of_hash_lock m l a) (fun _ => settled F l s) w.
Proof using Ht Hp.
  intros Htd H Hs Hch. apply wp_bind. apply (wp_get F _ l (spot_of s) s); [done..|].
  cbn beta. repeat at_label; [spot_known H..|].
  - eapply wp_mono; [by apply hl_start_ok|done|done].
  - by apply hl_initial_ok.
  - by apply hl_wait_for_cpu_ok.
  - by apply hl_winded_up_ok.
  - by apply hl_active_ok.
  - by apply hl_execute_cb_ok.
  - apply wp_exit. unfold hl_accepts. by rewrite Hlc.
  - apply default_ok; [|done..]. unfold home_of, hl_home. rewrite Ht. cbn.
    by rewrite !(proj2 (Z.eqb_neq _ _)) by done.
Qed.
End Lock.

Definition no_accepts (t : action_type) : bool :=
  match t with
  | ACTION_WIND_UP | ACTION_ADD_SOCK_FD_MULTI | ACTION_ADD_SOCK_FD_SINGLE
  | ACTION_HASH_LOCK_READ | ACTION_HASH_LOCK_WRITE => true
  | _ => false
  end.

Lemma no_ok F l s w a :
  s_session_type s = ESQ_SESSION_TYPE_NEW ∨ s_session_type s = ESQ_SESSION_TYPE_NO_FD →
  s_lc s = 0 → s_post_op s = POP_NO_OP → holds F w l (spot_of s) s →
  wp (no_accepts (a_type a) = false) (esq_pt_of_no_fd l a) (fun _ => settled F l s) w.
Proof.
  intros Ht Hlc Hp H. unfold esq_pt_of_no_fd.
  destruct Ht as [Ht|Ht]; spot_known H; destruct (a_type a); cbn -[settled]; wp_run.
Qed.

(** ** The machines keep every session where it belongs *)

(** The outcome of a request that is to be accepted or refused: the code returns in [Q] or
    exits accordingly, and never faults or runs out of fuel. *)
Definition outcome (ok : bool) (m : M unit) (Q : world → Prop) (w : world) : Prop :=
  match m w with
  | Ret (_, w') => ok = true ∧ Q w'
  | Exit => ok = false
  | _ => False
  end.

Lemma outcome_intro ok m Q w :
  wp (ok = false) m (fun _ => Q) w → (ok = false → m w = Exit) → outcome ok m Q w.
Proof.
  unfold wp, outcome. intros Hw Hx. destruct (m w) as [[[] w']| | |]; try done.
  destruct ok; [done|]. by specialize (Hx eq_refl).
Qed.

(** A request that is not accepted ends the process before anything is written. *)
Ltac refuse Hs :=
  repeat match goal with |- context [?x =? ?y] => destruct (x =? y) end; try done;
  match goal with |- context [a_type ?a] => destruct (a_type a) end; try done;
  intros Ha; erewrite M_bind_Ret by (by apply get_Some);
  rewrite ?(proj1 (negb_false_iff _) Ha); try done.

Lemma sk_refuses l s0 w a :
  w_sessions w !! l = Some s0 → sk_accepts s0 (a_type a) = false →
  esq_pt_of_single_shot_socket l a w = Exit.
Proof.
  intros Hs. unfold esq_pt_of_single_shot_socket. erewrite M_bind_Ret by (by apply get_Some).
  unfold sk_accepts, sk_initial, sk_wait_for_cpu, sk_winded_up, sk_wait_for_removed_then_active,
    sk_active, sk_execute_cb, sk_wait_for_reinstall.
  destruct (s_lc s0 =? 0) eqn:E0; [apply Z.eqb_eq in E0; by rewrite E0|]. refuse Hs.
Qed.

Lemma mu_refuses l s0 w a :
  w_sessions w !! l = Some s0 → mu_accepts s0 (a_type a) = false →
  esq_pt_of_multi_shot_socket l a w = Exit.
Proof.
  intros Hs. unfold esq_pt_of_multi_shot_socket. erewrite M_bind_Ret by (by apply get_Some).
  unfold mu_accepts, mu_initial, mu_wait_for_cpu, mu_winded_up, mu_active, mu_execute_cb,
    mu_wait_for_removed_and_wind_up, mu_wait_for_removed, mu_wait_for_wind_up.
  destruct (s_lc s0 =? 0) eqn:E0; [apply Z.eqb_eq in E0; by rewrite E0|]. refuse Hs.
Qed.

Lemma mc_refuses mco_is_end l s0 w a :
  w_sessions w !! l = Some s0 → mc_accepts mco_is_end s0 (a_type a) = false →
  esq_pt_of_mco mco_is_end l a w = Exit.
Proof.
  intros Hs. unfold esq_pt_of_mco. erewrite M_bind_Ret by (by apply get_Some).
  unfold mc_accepts, mc_active, mc_winded_up, mc_execute_cb, mc_execute_cb_installed_socket_fd.
  destruct (s_lc s0 =? 0) eqn:E0; [apply Z.eqb_eq in E0; by rewrite E0|].
  destruct (s_event_bits2 s0 =? 0) eqn:Eb; refuse Hs;
    apply orb_false_iff in Ha as [-> Ha]; [|done];
    erewrite M_bind_Ret by (by apply get_Some); by rewrite Eb.
Qed.

Lemma hl_refuses m l s0 w a :
  w_sessions w !! l = Some s0 → hl_accepts s0 (a_type a) = false →
  esq_pt_of_hash_lock m l a w = Exit.
Proof.
  intros Hs. unfold esq_pt_of_hash_lock. erewrite M_bind_Ret by (by apply get_Some).
  unfold hl_accepts, hl_initial, hl_wait_for_cpu, hl_winded_up, hl_active, hl_execute_cb.
  destruct (s_lc s0 =? 0) eqn:E0; [apply Z.eqb_eq in E0; by rewrite E0|]. refuse Hs.
Qed.

(** The session in the store agrees with the one asserted on all but links. *)
Lemma held_lookup F w l a s :
  holds F w l a s → ∃ s0, w_sessions w !! l = Some s0 ∧ erase_links s0 = erase_links s.
Proof. by intros (_ & L & _ & _ & ? & _). Qed.

(** C2: the machine of single-shot sockets, from a session linked where its label says,
    handles every request: it touches no freed or foreign memory, exits exactly on the
    requests the label does not expect, and otherwise leaves the session linked where the
    new label says, every other session untouched, and asks to be freed, picked up or
    switched only from outside all lists. *)
Theorem esq_pt_of_single_shot_socket_correct F l s w a :
  s_session_type s = ESQ_SESSION_TYPE_SOCKET_CB → s_post_op s = POP_NO_OP → tidy s →
  holds F w l (spot_of s) s → child_ok w l a →
  outcome (sk_accepts s (a_type a)) (esq_pt_of_single_shot_socket l a) (settled F l s) w.
Proof.
  intros Ht Hp Htd H Hch. apply outcome_intro; [by apply sk_ok|].
  destruct (held_lookup _ _ _ _ _ H) as (s0 & Hs0 & E).
  change (sk_accepts (erase_links s) (a_type a) = false → esq_pt_of_single_shot_socket l a w = Exit).
  rewrite <- E. exact (sk_refuses l s0 w a Hs0).
Qed.

(** The same for the machine of multi-shot sockets, with the two-step removal of its
    descriptor from the kernel. *)
Theorem esq_pt_of_multi_shot_socket_correct F l s w a :
  s_session_type s = ESQ_SESSION_TYPE_MULTI_SOCKET_CB → s_post_op s = POP_NO_OP → tidy s →
  holds F w l (spot_of s) s →
  outcome (mu_accepts s (a_type a)) (esq_pt_of_multi_shot_socket l a) (settled F l s) w.
Proof.
  intros Ht Hp Htd H. apply outcome_intro; [by apply mu_ok|].
  destruct (held_lookup _ _ _ _ _ H) as (s0 & Hs0 & E).
  change (mu_accepts (erase_links s) (a_type a) = false → esq_pt_of_multi_shot_socket l a w = Exit).
  rewrite <- E. exact (mu_refuses l s0 w a Hs0).
Qed.

(** C3: the machine of coroutines, from a session that is linked where its label says and has
    no operation pending.  It is assumed that no event is on record when a running coroutine
    installs a socket, and that after it did every request but the one to wind up comes with
    no event on record, a notification with event bits that are not 0 in 16 bits.  Then it
    touches no freed or foreign memory, exits exactly on the requests the label does not
    expect, and otherwise leaves the session linked where the new label says, every other
    session untouched, and asks to be freed, picked up or switched only from outside all
    lists. *)
Theorem esq_pt_of_mco_correct F mco_is_end l s w a :
  s_session_type s = ESQ_SESSION_TYPE_MCO → s_post_op s = POP_NO_OP → tidy s →
  holds F w l (spot_of s) s → mc_safe s a →
  outcome (mc_accepts mco_is_end s (a_type a)) (esq_pt_of_mco mco_is_end l a) (settled F l s) w.
Proof.
  intros Ht Hp Htd H Hs. apply outcome_intro; [by apply mc_ok|].
  destruct (held_lookup _ _ _ _ _ H) as (s0 & Hs0 & E).
  change (mc_accepts mco_is_end (erase_links s) (a_type a) = false →
    esq_pt_of_mco mco_is_end l a w = Exit).
  rewrite <- E. exact (mc_refuses mco_is_end l s0 w a Hs0).
Qed.

(** A timeout or the notice to exit makes a session that waits for a hash lock active by its
    label only: it stays linked in the list of its timeout and never enters the active list. *)
Lemma hash_lock_timeout_stays_linked F m l s w a :
  s_session_type s = ESQ_SESSION_TYPE_WAIT_FOR_HASH_LOCK → s_lc s = HL_winded_up →
  a_type a = ACTION_NOTIFY_TIMEOUT ∨ a_type a = ACTION_NOTIFY_EXIT → holds F w l (Some (timing_spot s)) s →
  wp False (esq_pt_of_hash_lock m l a)
    (fun _ w' => ∃ s', holds F w' l (Some (timing_spot s')) s' ∧ home_of s' = Active) w.
Proof.
  intros Ht Hlc Ha H. apply wp_bind. apply (wp_get F _ l (Some (timing_spot s)) s); [done..|].
  rewrite Hlc. cbn -[hl_winded_up]. unfold hl_winded_up. destruct Ha as [-> | ->]; repeat wp_step.
  all: match goal with H : holds _ _ _ _ ?s' |- _ => exists s'; split; [exact H|] end.
  all: unfold home_of; known; reflexivity.
Qed.

(** C4: the machine of sessions that wait for a hash lock, from a session that is linked where
    its label says and has no operation pending.  If a session that is picked up can fetch its
    lock (its index is in range, it wants to read or write, the server is not stopping, the
    queue and the slots of the session are in order, and there is memory for the request), a
    waiting session is neither timed out nor told to exit, and an added child exists, then it
    touches no freed or foreign memory, exits exactly on the requests the label does not
    expect, and otherwise leaves the session linked where the new label says, every other
    session untouched but for its link to the next child.  A waiting session that is timed out
    or told to exit has the label of an active one but stays in the list of its timeout. *)
Theorem esq_pt_of_hash_lock_correct F m l s w a :
  s_session_type s = ESQ_SESSION_TYPE_WAIT_FOR_HASH_LOCK → s_post_op s = POP_NO_OP → tidy s →
  holds F w l (spot_of s) s →
  (hl_safe w m l s a → child_ok w l a →
   outcome (hl_accepts s (a_type a)) (esq_pt_of_hash_lock m l a) (settled F l s) w) ∧
  (s_lc s = HL_winded_up → a_type a = ACTION_NOTIFY_TIMEOUT ∨ a_type a = ACTION_NOTIFY_EXIT →
   ∃ w' s', esq_pt_of_hash_lock m l a w = Ret (tt, w') ∧ holds F w' l (Some (timing_spot s')) s' ∧ home_of s' = Active).
Proof.
  intros Ht Hp Htd H. split.
  - intros Hs Hch. apply outcome_intro; [by apply hl_ok|].
    destruct (held_lookup _ _ _ _ _ H) as (s0 & Hs0 & E).
    change (hl_accepts (erase_links s) (a_type a) = false → esq_pt_of_hash_lock m l a w = Exit).
    rewrite <- E. exact (hl_refuses m l s0 w a Hs0).
  - intros Hlc Ha. replace (spot_of s) with (Some (timing_spot s)) in H by (unfold spot_of, home_of; known; reflexivity).
    pose proof (hash_lock_timeout_stays_linked F m l s w a Ht Hlc Ha H) as Hw. apply wp_returns in Hw as ([] & w' & E & s' & Hh).
    by exists w', s'.
Qed.

(** ** A world to try the machines in: one session, in one list or in none *)
Definition solo_ctx (o : option (place * loc)) : worker_ctx :=
  match o with
  | None => demo_ctx
  | Some (p, l) => set_list p (DList (Some l) (Some l)) demo_ctx
  end.

Definition solo_world (l : loc) (s : session) (o : option place) : world :=
  World {[l := s]} ∅ [] {[1%positive := solo_ctx ((fun p => (p, l)) <$> o)]} (Some 1%positive)
    dlist_empty (Some (100, 0)) false [].

Definition solo_frame : frame := Frame (Some 1%positive) (fun _ => None) (fun _ => []).

Definition solo_lists (l : loc) (o : option place) (a : spot) : list loc :=
  match a, o with At p, Some p' => if decide (p = p') then [l] else [] | _, _ => [] end.

Lemma solo_rep l s o :
  s_prev s = None → s_next s = None →
  rep (solo_world l s o) (solo_lists l o) ∧ at_ (solo_lists l o) l (At <$> o).
Proof.
  intros Hpv Hnx. split.
  - exists 1%positive, (solo_ctx ((fun p => (p, l)) <$> o)).
    split_and!; [done|apply lookup_singleton_eq| | | |].
    + intros p. destruct o as [p'|]; simpl; [|apply dlist_rep_empty].
      case_decide; [|apply dlist_rep_empty]. split_and!; [done|done|apply NoDup_singleton|].
      simpl. split; [|done]. exists s. by rewrite lookup_singleton_eq.
    + destruct o; simpl; split_and!; try done; constructor.
    + split_and!; try done; constructor.
    + intros [p1| |] [p2| |] x; destruct o as [p'|]; simpl; try (by intros ?%not_elem_of_nil);
        repeat case_decide; subst; try done; set_solver.
  - destruct o as [p|]; simpl; [by rewrite decide_True by done; left|].
    intros [p'| |]; apply not_elem_of_nil.
Qed.

Lemma solo_held l s o :
  s_prev s = None → s_next s = None → holds solo_frame (solo_world l s o) l (At <$> o) s.
Proof.
  intros Hpv Hnx. split; [done|]. exists (solo_lists l o).
  destruct (solo_rep l s o Hpv Hnx) as [Hr Ha]. split_and!; [done|done| | |].
  - exists s. split; [apply lookup_singleton_eq|done].
  - intros [p| |]; destruct o as [p'|]; try done. simpl. case_decide; [|done].
    unfold without. rewrite filter_cons. by case_decide.
  - intros x Hne. simpl. by rewrite lookup_singleton_ne.
Qed.

(** A session of machine [t] at label [lc]. *)
Definition demo_at (t lc : Z) : session := set_lc lc (set_session_type t (demo_session 0)).

Definition demo_action (t : action_type) : action :=
  Action t 0 0 ESQ_EVENT_BIT_READ 0 0 None None 0.

Lemma esq_pt_of_single_shot_socket_correct_witness :
  let s := demo_at ESQ_SESSION_TYPE_SOCKET_CB SK_winded_up in
  let w := solo_world 5 s (Some list_of_no_time) in
  outcome (sk_accepts s ACTION_NOTIFY_TIMEOUT)
    (esq_pt_of_single_shot_socket 5 (demo_action ACTION_NOTIFY_TIMEOUT))
    (settled solo_frame 5 s) w ∧ sk_accepts s ACTION_NOTIFY_TIMEOUT = true.
Proof.
  intros s w. split; [|reflexivity].
  apply (esq_pt_of_single_shot_socket_correct solo_frame 5 s w (demo_action ACTION_NOTIFY_TIMEOUT));
    [reflexivity|reflexivity|by split; intros; try discriminate| |intros E; discriminate E].
  exact (solo_held 5 s (Some list_of_no_time) eq_refl eq_refl).
Defined.

Lemma esq_pt_of_multi_shot_socket_correct_witness :
  let s := demo_at ESQ_SESSION_TYPE_MULTI_SOCKET_CB MU_active in
  let w := solo_world 5 s (Some list_of_active) in
  outcome (mu_accepts s ACTION_EXECUTE_CB)
    (esq_pt_of_multi_shot_socket 5 (demo_action ACTION_EXECUTE_CB))
    (settled solo_frame 5 s) w ∧ mu_accepts s ACTION_EXECUTE_CB = true.
Proof.
  intros s w. split; [|reflexivity].
  apply (esq_pt_of_multi_shot_socket_correct solo_frame 5 s w (demo_action ACTION_EXECUTE_CB));
    [reflexivity|reflexivity|by split; intros; try discriminate|].
  exact (solo_held 5 s (Some list_of_active) eq_refl eq_refl).
Defined.

Lemma esq_pt_of_mco_correct_witness :
  let s := demo_at ESQ_SESSION_TYPE_MCO MC_execute_cb_installed_socket_fd in
  let w := solo_world 5 s (Some list_of_no_time) in
  outcome (mc_accepts (fun _ => false) s ACTION_NOTIFY_EVENT)
    (esq_pt_of_mco (fun _ => false) 5 (demo_action ACTION_NOTIFY_EVENT))
    (settled solo_frame 5 s) w ∧ mc_accepts (fun _ => false) s ACTION_NOTIFY_EVENT = true.
Proof.
  intros s w. split; [|reflexivity].
  apply (esq_pt_of_mco_correct solo_frame (fun _ => false) 5 s w (demo_action ACTION_NOTIFY_EVENT));
    [reflexivity|reflexivity|by split; intros; try discriminate| |].
  - exact (solo_held 5 s (Some list_of_no_time) eq_refl eq_refl).
  - split; [intros E; discriminate E|]. intros _ _. split; [reflexivity|]. intros _.
    vm_compute. discriminate.
Defined.

Lemma esq_pt_of_hash_lock_correct_witness :
  let s := demo_at ESQ_SESSION_TYPE_WAIT_FOR_HASH_LOCK HL_winded_up in
  let w := solo_world 5 s (Some list_of_no_time) in
  outcome (hl_accepts s ACTION_NOTIFY_EVENT)
    (esq_pt_of_hash_lock None 5 (demo_action ACTION_NOTIFY_EVENT))
    (settled solo_frame 5 s) w ∧ hl_accepts s ACTION_NOTIFY_EVENT = true.
Proof.
  intros s w. split; [|reflexivity].
  refine (proj1 (esq_pt_of_hash_lock_correct solo_frame None 5 s w (demo_action ACTION_NOTIFY_EVENT) eq_refl eq_refl _ _) _ _);
    [by split; intros; try discriminate| | |intros E; discriminate E].
  - exact (solo_held 5 s (Some list_of_no_time) eq_refl eq_refl).
  - split; [intros E; discriminate E|]. intros _. split; discriminate.
Defined.

Lemma hash_lock_timeout_stays_linked_witness :
  let s := demo_at ESQ_SESSION_TYPE_WAIT_FOR_HASH_LOCK HL_winded_up in
  wp False (esq_pt_of_hash_lock None 5 (demo_action ACTION_NOTIFY_TIMEOUT))
    (fun _ w' => ∃ s', holds solo_frame w' 5 (Some (timing_spot s')) s' ∧ home_of s' = Active)
    (solo_world 5 s (Some list_of_no_time)).
Proof.
  intros s.
  apply (hash_lock_timeout_stays_linked solo_frame None 5 s _ (demo_action ACTION_NOTIFY_TIMEOUT));
    [reflexivity|reflexivity|by left|].
  exact (solo_held 5 s (Some list_of_no_time) eq_refl eq_refl).
Defined.
