(* ===== verification/Chassis.v ===== *)
(** * Requests to sessions

    [session/chassis.c] gives a request to the machine of a session and then does what
    the machine asked for: put the session into a list to be picked up, change machines,
    free it.  [session/session.c] makes sessions, and [session/action.c] has the entry
    points that build the requests. *)
From S2P Require Import Prelude LinkedList Session HashLock SessionPt.
Open Scope Z_scope.

(** ** [session.c] *)

(** [m] is what [malloc] returns. *)
Definition esq_session_new (m : ptr) : M ptr :=
  match m with
  | None => mret None
  | Some l =>
      modifies (fun w => with_hctx
        (<[(l, 0%nat) := hctx_zero]> (<[(l, 1%nat) := hctx_zero]>
           (<[(l, 2%nat) := hctx_zero]> (w_hctx w))))
        (with_sessions (<[l := session_zero]> (w_sessions w)) w));;
      set (Some l) (set_magic0 ESQ_SESSION_MAGIC);;
      set (Some l) (set_magic1 ESQ_SESSION_MAGIC);;
      set (Some l) (set_session_type ESQ_SESSION_TYPE_NEW);;
      mret (Some l)
  end.

(** The test of the [ESQ_CHECK_SESSION] macros. *)
Definition valid_session (p : ptr) : M bool :=
  match p with
  | None => mret false
  | Some l =>
      m0 ← get (Some l) s_magic0;
      m1 ← get (Some l) s_magic1;
      mret ((ESQ_SESSION_MAGIC =? m0) && (ESQ_SESSION_MAGIC =? m1))
  end.

Definition esq_session_check_magic (p : ptr) : M Z :=
  ok ← valid_session p;
  mret (if ok : bool then ESQ_OK else ESQ_ERROR_PARAM).

Definition esq_session_set_param (p user_param : ptr) : M unit :=
  ok ← valid_session p;
  if ok : bool then set p (set_user_param user_param) else mret tt.

Definition esq_session_set_cb (p cb : ptr) : M Z :=
  ok ← valid_session p;
  if ok : bool then set p (set_cb cb);; mret ESQ_OK else mret ESQ_ERROR_PARAM.

Definition esq_session_get_param (p : ptr) : M ptr :=
  ok ← valid_session p;
  if ok : bool then get p s_user_param else mret None.

Definition esq_session_get_parent (p : ptr) : M ptr :=
  ok ← valid_session p;
  if ok : bool then get p s_parent_session else mret None.

Definition esq_session_get_fd (p : ptr) : M Z :=
  ok ← valid_session p;
  if ok : bool then get p s_fd else mret 0.

Definition esq_session_get_event_bits (p : ptr) : M Z :=
  ok ← valid_session p;
  if ok : bool then get p s_event_bits else mret ESQ_ERROR_PARAM.

Definition esq_session_init_mco_params (l : loc) (mco : ptr) : M unit :=
  set (Some l) (set_session_type ESQ_SESSION_TYPE_MCO);;
  set (Some l) (set_mco mco).

(** [free] of a session, with the lock contexts inside it. *)
Definition free_session (l : loc) : M unit := fun w =>
  match w_sessions w !! l with
  | None => Fault
  | Some _ =>
      Ret (tt, with_hctx (delete (l, 0%nat) (delete (l, 1%nat) (delete (l, 2%nat) (w_hctx w))))
                 (with_sessions (delete l (w_sessions w)) w))
  end.

Definition kill_session (l : loc) : M unit :=
  set (Some l) (set_magic0 0);;
  set (Some l) (set_magic1 0);;
  free_session l.

Definition session_fuel (w : world) : nat := S (size (w_sessions w)).

(** ** [chassis.c] *)
Section Chassis.
(** The coroutine library's test for the end of a coroutine, the call of a callback on a
    session, and what the stack buffer of a request holds before it is filled in. *)
Context (mco_is_end : ptr → bool) (call : ptr → loc → M unit) (buf : action).

(** A null callback is not called. *)
Definition done_cb (l : loc) : M unit :=
  cb ← get (Some l) s_session_done_cb;
  match cb with None => mret tt | Some _ => call cb l end.

Fixpoint unhook_children (fuel : nat) (p : ptr) : M unit :=
  match fuel with
  | O => m_nofuel
  | S fuel =>
      match p with
      | None => mret tt
      | Some _ =>
          n ← get p s_next_child;
          set p (set_next_child None);;
          set p (set_parent_session None);;
          unhook_children fuel n
      end
  end.

Fixpoint free_finished (fuel : nat) (p : ptr) : M unit :=
  match fuel with
  | O => m_nofuel
  | S fuel =>
      match p with
      | None => mret tt
      | Some l =>
          n ← get p s_next_child;
          set p (set_parent_session None);;
          done_cb l;;
          kill_session l;;
          free_finished fuel n
      end
  end.

Definition esq_unhook_child_session (l : loc) : M unit :=
  fuel ← reads session_fuel;
  p ← get (Some l) s_child_session_list;
  unhook_children fuel p;;
  p ← get (Some l) s_finished_child_session_list;
  free_finished fuel p;;
  set (Some l) (set_child_session_list None);;
  set (Some l) (set_finished_child_session_list None).

(** The search for a child and the one before it. *)
Fixpoint find_child (fuel : nat) (pp p : ptr) (l : loc) : M (option (ptr * loc)) :=
  match fuel with
  | O => m_nofuel
  | S fuel =>
      match p with
      | None => mret None
      | Some x =>
          if decide (x = l) then mret (Some (pp, x))
          else n ← get p s_next_child; find_child fuel p n l
      end
  end.

Definition esq_move_child_session_into_finish_list (parent l : loc) : M unit :=
  fuel ← reads session_fuel;
  p ← get (Some parent) s_child_session_list;
  found ← find_child fuel None p l;
  match found with
  | None => m_exit
  | Some (pp, x) =>
      n ← get (Some x) s_next_child;
      (match pp with
       | Some _ => set pp (set_next_child n)
       | None => set (Some parent) (set_child_session_list n)
       end);;
      fin ← get (Some parent) s_finished_child_session_list;
      set (Some l) (set_next_child fin);;
      set (Some parent) (set_finished_child_session_list (Some l))
  end.

(** A request of one type, the rest of the buffer being what it was. *)
Definition with_type (t : action_type) : action :=
  Action t (a_fd buf) (a_exp_event_bits buf) (a_notify_event_bits buf) (a_timeouts buf)
    (a_timeoutms buf) (a_cb buf) (a_user_param buf) (a_hash_lock_idx buf).

Definition notify_event_action (bits : Z) : action :=
  Action ACTION_NOTIFY_EVENT (a_fd buf) (a_exp_event_bits buf) bits (a_timeouts buf)
    (a_timeoutms buf) (a_cb buf) (a_user_param buf) (a_hash_lock_idx buf).

(** The [switch] on the session type. *)
Definition run_machine (m : ptr) (l : loc) (a : action) : M unit :=
  t ← get (Some l) s_session_type;
  if t =? ESQ_SESSION_TYPE_NEW then esq_pt_of_no_fd l a
  else if t =? ESQ_SESSION_TYPE_SOCKET_CB then esq_pt_of_single_shot_socket l a
  else if t =? ESQ_SESSION_TYPE_MULTI_SOCKET_CB then esq_pt_of_multi_shot_socket l a
  else if t =? ESQ_SESSION_TYPE_MCO then esq_pt_of_mco mco_is_end l a
  else if t =? ESQ_SESSION_TYPE_NO_FD then esq_pt_of_no_fd l a
  else if t =? ESQ_SESSION_TYPE_WAIT_FOR_HASH_LOCK then esq_pt_of_hash_lock m l a
  else m_exit.

(** The end of a session that asked to be freed; [notify] is the notification of its
    parent. *)
Definition finish_session (notify : ptr → Z → M unit) (l : loc) : M unit :=
  esq_unhook_child_session l;;
  have ← get (Some l) s_have_parent_session;
  if have : bool then
    parent ← get (Some l) s_parent_session;
    match parent with
    | Some p =>
        esq_move_child_session_into_finish_list p l;;
        notify parent ESQ_EVENT_BIT_TASK_DONE
    | None => done_cb l;; kill_session l
    end
  else kill_session l.

(** [__esq_session_take_action]; one unit of fuel per turn of [__switch_session_type] and
    per nested notification.  [m] is what [malloc] returns if a lock context is needed. *)
Fixpoint take_action (fuel : nat) (m : ptr) (p : ptr) (a : action) : M Z :=
  match fuel with
  | O => m_nofuel
  | S fuel =>
      ok ← valid_session p;
      match p with
      | Some l =>
          if negb ok then mret ESQ_ERROR_PARAM else
          set (Some l) (set_post_op POP_NO_OP);;
          run_machine m l a;;
          op ← get (Some l) s_post_op;
          if negb (Z.land POP_JOIN_GLOBAL_NEW_LIST op =? 0) then
            esq_join_global_new_list l;;
            say WAKE_UP_WORKER;;
            mret ESQ_OK
          else if negb (Z.land POP_JOIN_LOCAL_NEW_LIST op =? 0) then
            esq_join_local_new_list l;;
            mret ESQ_OK
          else if negb (Z.land POP_FREE_SESSION op =? 0) then
            finish_session (fun parent bits =>
              match parent with
              | None => m_exit
              | Some _ => take_action fuel m parent (notify_event_action bits);; mret tt
              end) l;;
            mret ESQ_OK
          else if negb (Z.land POP_SWITCH_SESSION_TYPE op =? 0) then
            set (Some l) (set_lc 0);;
            take_action fuel m p a
          else if negb (Z.land POP_RETURN_VALUE op =? 0) then get (Some l) s_r
          else mret ESQ_OK
      | None => mret ESQ_ERROR_PARAM
      end
  end.

(** Three are enough: a machine switched to starts at its first label and asks for
    nothing, and a parent that is notified is not freed. *)
Definition esq_session_take_action (m p : ptr) (a : action) : M Z := take_action 3 m p a.

(** ** [action.c] *)
Definition esq_session_set_socket_fd (m p : ptr) (fd : Z) (cb : ptr)
    (event_bits timeouts timeoutms : Z) (user_param : ptr) : M Z :=
  match p with
  | None => m_exit
  | Some _ =>
      mco ← get p s_mco;
      match cb, mco with
      | None, None => m_exit
      | _, _ =>
          esq_session_take_action m p
            (Action ACTION_ADD_SOCK_FD_SINGLE fd event_bits (a_notify_event_bits buf) timeouts
               timeoutms cb user_param (a_hash_lock_idx buf))
      end
  end.

Definition esq_session_bundle_child (m parent child cb : ptr) : M Z :=
  match parent, child with
  | Some _, Some _ =>
      ok ← valid_session parent;
      if negb ok then mret ESQ_ERROR_PARAM else
      ok ← valid_session child;
      if negb ok then mret ESQ_ERROR_PARAM else
      r ← esq_session_take_action m child
            (Action ACTION_SET_PARENT (a_fd buf) (a_exp_event_bits buf) (a_notify_event_bits buf)
               (a_timeouts buf) (a_timeoutms buf) cb parent (a_hash_lock_idx buf));
      if negb (r =? 0) then mret r else
      r ← esq_session_take_action m parent
            (Action ACTION_ADD_CHILD (a_fd buf) (a_exp_event_bits buf) (a_notify_event_bits buf)
               (a_timeouts buf) (a_timeoutms buf) cb child (a_hash_lock_idx buf));
      if negb (r =? 0) then mret r else mret ESQ_OK
  | _, _ => m_exit
  end.

Definition esq_session_set_socket_fd_multi (m p : ptr) (fd : Z) (cb user_param : ptr) : M Z :=
  match p, cb with
  | Some _, Some _ =>
      esq_session_take_action m p
        (Action ACTION_ADD_SOCK_FD_MULTI fd (Z.lor ESQ_EVENT_BIT_READ ESQ_EVENT_BIT_WRITE)
           (a_notify_event_bits buf) 0 0 cb user_param (a_hash_lock_idx buf))
  | _, _ => m_exit
  end.

(** The requests that carry a type only. *)
Definition simple_request (t : action_type) (m p : ptr) : M unit :=
  match p with
  | None => m_exit
  | Some _ => esq_session_take_action m p (with_type t);; mret tt
  end.

Definition esq_session_remove_req : ptr → ptr → M unit := simple_request ACTION_REMOVE_FD.
Definition esq_session_wind_up : ptr → ptr → M unit := simple_request ACTION_WIND_UP.
Definition esq_session_wind_up_rr : ptr → ptr → M unit := simple_request ACTION_WIND_UP_RR.
Definition esq_session_pick_up : ptr → ptr → M unit := simple_request ACTION_PICK_UP.
Definition esq_notify_aio_removed : ptr → ptr → M unit :=
  simple_request ACTION_NOTIFY_AIO_REMOVED.
Definition esq_notify_timeout_event : ptr → ptr → M unit :=
  simple_request ACTION_NOTIFY_TIMEOUT.

Definition esq_notify_exit (m p : ptr) : M unit :=
  esq_session_take_action m p (with_type ACTION_NOTIFY_EXIT);; mret tt.

Definition esq_session_check_for_executing (m p : ptr) : M Z :=
  esq_session_take_action m p (with_type ACTION_EXECUTE_CB).

Definition esq_notify_event_to_session (m p : ptr) (event_bits : Z) : M unit :=
  match p with
  | None => m_exit
  | Some _ => esq_session_take_action m p (notify_event_action event_bits);; mret tt
  end.

Definition esq_hash_lock_read (m p : ptr) (idx : Z) (cb user_param : ptr) (timeout_s : Z) : M unit :=
  match p with
  | None => m_exit
  | Some _ =>
      if timeout_s <? -1 then m_exit else
      esq_session_take_action m p
        (Action ACTION_HASH_LOCK_READ (a_fd buf) (a_exp_event_bits buf) (a_notify_event_bits buf)
           timeout_s (a_timeoutms buf) cb user_param idx);;
      mret tt
  end.

Definition esq_hash_lock_write (m p : ptr) (idx : Z) (cb user_param : ptr) (timeout_s : Z)
    : M unit :=
  match p with
  | None => m_exit
  | Some _ =>
      if timeout_s <? -1 then m_exit else
      esq_session_take_action m p
        (Action ACTION_HASH_LOCK_WRITE (a_fd buf) (a_exp_event_bits buf) (a_notify_event_bits buf)
           timeout_s 0 cb user_param idx);;
      mret tt
  end.
End Chassis.

(** ** Requests keep the lists *)

(** The lists hold [L] and every session is in the one its label says, and in no other. *)
Definition wf_lists (w : world) (L : spot → list loc) : Prop :=
  rep w L ∧ ∀ x s, w_sessions w !! x = Some s → located L x s ∧ tidy s.

Definition wf (w : world) : Prop := ∃ L, wf_lists w L.

(** All but the session at [l]. *)
Definition frame_of (w : world) (L : spot → list loc) (l : loc) : frame :=
  Frame (w_self w) (fun x => core <$> w_sessions w !! x) (fun b => without l (L b)).

(** A request has been carried out: the rest is as in the frame, and the session is where
    it belongs, or is gone and in no list. *)
Definition finished (F : frame) (l : loc) (w' : world) : Prop :=
  w_self w' = f_self F ∧
  ∃ L, rep w' L ∧ (∀ b, without l (L b) = f_lists F b) ∧
    (∀ x, x ≠ l → core <$> w_sessions w' !! x = f_rest F x) ∧
    match w_sessions w' !! l with
    | None => at_ L l None
    | Some s => located L l s ∧ tidy s
    end.

Lemma elem_of_without x l ls : x ∈ without l ls ↔ x ≠ l ∧ x ∈ ls.
Proof. unfold without. by rewrite list_elem_of_filter. Qed.

Lemma tidy_ext s s' : core s = core s' → tidy s → tidy s'.
Proof. intros E Hs. change (tidy (core s')). by rewrite <- E. Qed.

(** Carried out in a world where everyone is in place, a request ends in one. *)
Lemma finished_wf w L l w' :
  wf_lists w L → finished (frame_of w L l) l w' →
  ∃ L', wf_lists w' L' ∧ ∀ b, without l (L' b) = without l (L b).
Proof.
  intros [Hr Ho] (_ & L' & Hr' & Hf & Hrest & Hl). exists L'. split; [|exact Hf]. split; [done|].
  intros x s Hx. destruct (decide (x = l)) as [->|Hne]; [by rewrite Hx in Hl|].
  specialize (Hrest x Hne). simpl in Hrest. rewrite Hx in Hrest.
  destruct (w_sessions w !! x) as [s1|] eqn:Hx1; [|done].
  assert (E : core s1 = core s) by (symmetry; exact (Some_inj _ _ Hrest)).
  destruct (Ho x s1 Hx1) as [Hloc Htd]. split; [|by eapply tidy_ext].
  eapply located_ext; [exact E| |exact Hloc]. intros a.
  specialize (Hf a). simpl in Hf.
  assert (Hw : ∀ ls : list loc, x ∈ ls ↔ x ∈ without l ls)
    by (intros ls; rewrite elem_of_without; naive_solver).
  by rewrite (Hw (L a)), (Hw (L' a)), Hf.
Qed.

(** The assertion about a session of a world where everyone is in place. *)
Lemma wf_holds w L l s :
  wf_lists w L → w_sessions w !! l = Some s → home_of s ≠ ToPickUp →
  holds (frame_of w L l) w l (spot_of s) s.
Proof.
  intros [Hr Ho] Hs Hh. split; [done|]. exists L. split_and!; [done| |by exists s|done|done].
  destruct (Ho l s Hs) as [Hloc _]. unfold located in Hloc. unfold spot_of.
  destruct (home_of s); try done.
Qed.

Lemma located_at L x s s0 a :
  erase_links s0 = erase_links s → at_ L x a →
  match home_of s with
  | ToPickUp => a = Some NewLocal ∨ a = Some NewGlobal
  | _ => a = spot_of s
  end → located L x s0.
Proof.
  intros E Ha Hh. apply (located_ext L L x s s0); [unfold core; by rewrite E|done|].
  unfold located.
  destruct (home_of s) eqn:Eh; [| | |by destruct Hh; subst; auto];
    unfold spot_of in Hh; rewrite Eh in Hh; by subst.
Qed.

Lemma holds_finished F w l a s :
  holds F w l a s → tidy s →
  match home_of s with
  | ToPickUp => a = Some NewLocal ∨ a = Some NewGlobal
  | _ => a = spot_of s
  end → finished F l w.
Proof.
  intros (Hsf & L & Hr & Ha & (s0 & Hs0 & E) & Hf & Hrest) Htd Hh. split; [done|]. exists L. split_and!; [done..|].
  rewrite Hs0. split; [exact (located_at L l s s0 a E Ha Hh)|].
  apply (tidy_ext s); [unfold core; by rewrite E|done].
Qed.

(** The session is gone and was in no list. *)
Lemma holds_free F w l s w' :
  holds F w l None s → w_sessions w' = delete l (w_sessions w) → w_ctxs w' = w_ctxs w →
  w_self w' = w_self w → w_global_new w' = w_global_new w → finished F l w'.
Proof.
  intros (Hsf & L & (c & k & Hc & Hk & Hl & Hn & Hg & Hd) & Ha & _ & Hf & Hrest) Es Ec Eself Eg.
  assert (Hag : ∀ a y, y ∈ L a → w_sessions w' !! y = w_sessions w !! y).
  { intros a y Hy. rewrite Es. apply lookup_delete_ne. intros ->. by apply (Ha a). }
  split; [congruence|]. exists L. split_and!.
  - exists c, k. rewrite Ec, Eself, Eg. split_and!; try done.
    + intros p. eapply dlist_rep_agree; [apply Hag|apply Hl].
    + eapply slist_rep_agree; [apply Hag|done].
    + eapply slist_rep_agree; [apply Hag|done].
  - done.
  - intros x Hne. rewrite Es, lookup_delete_ne by done. by apply Hrest.
  - by rewrite Es, lookup_delete_eq.
Qed.

Section Requests.
Context (mco_is_end : ptr → bool) (call : ptr → loc → M unit) (buf : action) (F : frame).

(** The requests the machine of a session accepts at its label. *)
Definition accepts (s : session) (t : action_type) : bool :=
  if s_session_type s =? ESQ_SESSION_TYPE_NEW then no_accepts t
  else if s_session_type s =? ESQ_SESSION_TYPE_SOCKET_CB then sk_accepts s t
  else if s_session_type s =? ESQ_SESSION_TYPE_MULTI_SOCKET_CB then mu_accepts s t
  else if s_session_type s =? ESQ_SESSION_TYPE_MCO then mc_accepts mco_is_end s t
  else if s_session_type s =? ESQ_SESSION_TYPE_NO_FD then no_accepts t
  else if s_session_type s =? ESQ_SESSION_TYPE_WAIT_FOR_HASH_LOCK then hl_accepts s t
  else false.

(** What the machines rely on, see [mc_safe] and [hl_safe]; a session without a descriptor
    has not left its first label. *)
Record safe (w : world) (m : ptr) (l : loc) (s : session) (a : action) : Prop := {
  safe_mco : s_session_type s = ESQ_SESSION_TYPE_MCO → mc_safe s a;
  safe_lock : s_session_type s = ESQ_SESSION_TYPE_WAIT_FOR_HASH_LOCK → hl_safe w m l s a;
  safe_new : s_session_type s = ESQ_SESSION_TYPE_NEW ∨ s_session_type s = ESQ_SESSION_TYPE_NO_FD →
             s_lc s = 0;
  safe_child : child_ok w l a
}.

Lemma run_machine_ok w m l s a :
  s_post_op s = POP_NO_OP → tidy s → holds F w l (spot_of s) s → safe w m l s a →
  wp (accepts s (a_type a) = false) (run_machine mco_is_end m l a) (fun _ => settled F l s) w.
Proof.
  intros Hp Htd H [Hm Hk Hn Hc]. apply wp_bind.
  apply (wp_get F _ l (spot_of s) s); [done..|]. unfold accepts.
  destruct (Z.eqb_spec (s_session_type s) ESQ_SESSION_TYPE_NEW); [apply no_ok; auto|].
  destruct (Z.eqb_spec (s_session_type s) ESQ_SESSION_TYPE_SOCKET_CB); [by apply sk_ok|].
  destruct (Z.eqb_spec (s_session_type s) ESQ_SESSION_TYPE_MULTI_SOCKET_CB); [by apply mu_ok|].
  destruct (Z.eqb_spec (s_session_type s) ESQ_SESSION_TYPE_MCO); [apply mc_ok; auto|].
  destruct (Z.eqb_spec (s_session_type s) ESQ_SESSION_TYPE_NO_FD); [apply no_ok; auto|].
  destruct (Z.eqb_spec (s_session_type s) ESQ_SESSION_TYPE_WAIT_FOR_HASH_LOCK);
    [apply hl_ok; auto|]. by apply wp_exit.
Qed.

(** A machine that is switched to fills in the session and waits at its first label. *)
Lemma start_ok w m l s a :
  (s_session_type s = ESQ_SESSION_TYPE_SOCKET_CB ∨
   s_session_type s = ESQ_SESSION_TYPE_MULTI_SOCKET_CB ∨
   s_session_type s = ESQ_SESSION_TYPE_WAIT_FOR_HASH_LOCK) →
  s_lc s = 0 → holds F w l None s →
  wp False (run_machine mco_is_end m l a)
    (fun _ w' => ∃ s', holds F w' l None s' ∧ s_post_op s' = POP_NO_OP ∧
                       home_of s' = Nowhere ∧ tidy s') w.
Proof.
  intros Ht Hlc H. apply wp_bind. apply (wp_get F _ l None s); [done..|].
  destruct Ht as [Ht|[Ht|Ht]]; rewrite Ht; cbn -[sk_start mu_start hl_start];
    [unfold esq_pt_of_single_shot_socket|unfold esq_pt_of_multi_shot_socket
    |unfold esq_pt_of_hash_lock]; apply wp_bind; (apply (wp_get F _ l None s); [done|done|]);
    rewrite Hlc; cbn -[sk_start mu_start hl_start]; unfold sk_start, mu_start, hl_start;
    repeat wp_step;
    (match goal with H : holds _ _ _ _ ?s' |- _ => exists s'; split; [exact H|] end);
    (split; [reflexivity|]); (split; [unfold home_of; known; reflexivity|]);
    unfold tidy, no_timeout; known; split; intros; first [discriminate|split; reflexivity].
Qed.

Lemma wp_valid E w l a s Q :
  holds F w l a s → s_magic0 s = ESQ_SESSION_MAGIC → s_magic1 s = ESQ_SESSION_MAGIC →
  Q true w → wp E (valid_session (Some l)) Q w.
Proof.
  intros H H0 H1 HQ. apply wp_bind, (wp_get F _ l a s); [done..|].
  apply wp_bind, (wp_get F _ l a s); [done..|]. apply wp_ret. by rewrite H0, H1.
Qed.

(** A session without relatives is freed from outside all lists. *)
Lemma finish_ok w l s notify :
  holds F w l None s → family s = (false, None, None, None) →
  wp False (finish_session call notify l) (fun _ => finished F l) w.
Proof.
  intros H Hf. unfold family in Hf. injection Hf as Hhave Hpar Hch Hfin.
  unfold finish_session, esq_unhook_child_session. apply wp_bind, wp_bind, wp_reads.
  repeat wp_step. rewrite Hch. cbn [unhook_children session_fuel]. repeat wp_step. rewrite Hfin.
  cbn [free_finished session_fuel]. repeat wp_step; cbn in *; [congruence|].
  unfold kill_session. repeat wp_step.
  match goal with H : holds _ ?w1 l None ?s1 |- _ =>
    destruct (held_lookup _ _ _ _ _ H) as (s0 & Hs0 & _); unfold wp, free_session; rewrite Hs0;
    eapply (holds_free F w1 l s1); [exact H|reflexivity..] end.
Qed.

Lemma can_fetch_post_op w m l s0 i ls v :
  can_fetch w m l s0 i ls →
  can_fetch (with_sessions (<[l := set_post_op v s0]> (w_sessions w)) w) m l (set_post_op v s0) i ls.
Proof. intros []. split; try done. simpl. apply lookup_insert_eq. Qed.

(** Clearing [post_op], the first thing done with a request. *)
Lemma clear_post_op w m l s a s0 :
  holds F w l (spot_of s) s → safe w m l s a → w_sessions w !! l = Some s0 →
  let w1 := with_sessions (<[l := set_post_op POP_NO_OP s0]> (w_sessions w)) w in
  let s1 := set_post_op POP_NO_OP s in
  holds F w1 l (spot_of s1) s1 ∧ safe w1 m l s1 a.
Proof.
  intros H [Hm Hk Hn Hc] Hs0 w1 s1. split.
  - assert (Hset : wp False (set (Some l) (set_post_op POP_NO_OP))
      (fun _ w' => holds F w' l (spot_of s) s1) w) by (by apply (wp_set F _ l (spot_of s) s)).
    unfold wp in Hset. by rewrite (set_Some _ _ s0) in Hset.
  - split; [exact Hm| |exact Hn|].
    + intros Ht. destruct (Hk Ht) as [Hf Hw]. split; [|exact Hw]. intros E1 E2.
      destruct (Hf E1 E2) as (s0' & i & ls & Hcf). pose proof (cf_session _ _ _ _ _ _ Hcf).
      simplify_eq. exists (set_post_op POP_NO_OP s0), i, ls. by apply can_fetch_post_op.
    + intros E. destruct (Hc E) as (c & -> & Hne & Hx). exists c. split_and!; [done..|].
      simpl. by rewrite lookup_insert_ne.
Qed.

(** A machine that has just been switched to. *)
Lemma switched_ok w m l s a fuel :
  (s_session_type s = ESQ_SESSION_TYPE_SOCKET_CB ∨
   s_session_type s = ESQ_SESSION_TYPE_MULTI_SOCKET_CB ∨
   s_session_type s = ESQ_SESSION_TYPE_WAIT_FOR_HASH_LOCK) →
  s_lc s = 0 → s_magic0 s = ESQ_SESSION_MAGIC → s_magic1 s = ESQ_SESSION_MAGIC →
  holds F w l None s →
  wp False (take_action mco_is_end call buf (S fuel) m (Some l) a) (fun _ => finished F l) w.
Proof.
  intros Ht Hlc H0 H1 H. cbn [take_action]. apply wp_bind.
  apply (wp_valid _ _ _ None s); [done..|]. cbn [negb]. repeat wp_step.
  eapply wp_mono; [apply (start_ok _ m l (set_post_op POP_NO_OP s) a); assumption|done|].
  intros [] w' (s' & Hs' & Hp & Hh & Htd).
  apply wp_bind, (wp_get F _ l None s'); [done..|]. rewrite Hp. cbn. apply wp_ret.
  eapply holds_finished; [exact Hs'|done|]. rewrite Hh. unfold spot_of. by rewrite Hh.
Qed.

Lemma settled_post_ops w m l s a fuel :
  settled F l s w → s_magic0 s = ESQ_SESSION_MAGIC → s_magic1 s = ESQ_SESSION_MAGIC →
  family s = (false, None, None, None) →
  wp False
    (op ← get (Some l) s_post_op;
     if negb (Z.land POP_JOIN_GLOBAL_NEW_LIST op =? 0) then
       esq_join_global_new_list l;; say WAKE_UP_WORKER;; mret ESQ_OK
     else if negb (Z.land POP_JOIN_LOCAL_NEW_LIST op =? 0) then
       esq_join_local_new_list l;; mret ESQ_OK
     else if negb (Z.land POP_FREE_SESSION op =? 0) then
       finish_session call (fun parent bits =>
         match parent with
         | None => m_exit
         | Some _ =>
             take_action mco_is_end call buf (S fuel) m parent (notify_event_action buf bits);;
             mret tt
         end) l;; mret ESQ_OK
     else if negb (Z.land POP_SWITCH_SESSION_TYPE op =? 0) then
       set (Some l) (set_lc 0);; take_action mco_is_end call buf (S fuel) m (Some l) a
     else if negb (Z.land POP_RETURN_VALUE op =? 0) then get (Some l) s_r
     else mret ESQ_OK) (fun _ => finished F l) w.
Proof.
  intros (s' & H & E0 & E1 & Hask & Htd) H0 H1 Hf. rewrite H0 in E0. rewrite H1 in E1.
  apply wp_bind, (wp_get F _ l (spot_of s') s'); [done..|].
  destruct Hask as [(Hh & Hp)|[(Hh & Hp)|[(Hh & Hfam & Hp)|(Hh & Hp & Hty)]]].
  - assert (Hn : spot_of s' = None) by (unfold spot_of; by rewrite Hh). rewrite Hn in H.
    destruct Hp as [-> | ->]; cbn -[esq_join_local_new_list esq_join_global_new_list say].
    + apply wp_bind. apply (wp_join_new F _ NewLocal l s'); [by left|done|].
      intros w1 Hw1. apply wp_ret. eapply holds_finished; [exact Hw1|done|]. rewrite Hh. by left.
    + apply wp_bind. apply (wp_join_new F _ NewGlobal l s'); [by right|done|].
      intros w1 Hw1. repeat wp_step. eapply holds_finished; [eassumption|done|].
      rewrite Hh. by right.
  - assert (Hwf : finished F l w) by (eapply holds_finished; [exact H|done|]; by destruct (home_of s')).
    destruct Hp as [-> | ->]; cbn; [by apply wp_ret|].
    apply (wp_get F _ l (spot_of s') s'); done.
  - assert (Hn : spot_of s' = None) by (unfold spot_of; by rewrite Hh). rewrite Hn in H.
    rewrite Hf in Hfam.
    destruct Hp as [-> | ->]; cbn -[finish_session]; apply wp_bind;
      (eapply wp_mono; [by eapply finish_ok|done|]); intros [] w1 Hw1; by apply wp_ret.
  - assert (Hn : spot_of s' = None) by (unfold spot_of; by rewrite Hh). rewrite Hn in H.
    rewrite Hp.
    do 3 change (negb (Z.land _ POP_SWITCH_SESSION_TYPE =? 0)) with false at 1. cbn iota.
    change (negb (Z.land _ POP_SWITCH_SESSION_TYPE =? 0)) with true at 1. cbn iota.
    repeat wp_step.
    eapply switched_ok; [| | | |eassumption]; done.
Qed.

Lemma take_action_ok w m l s a :
  holds F w l (spot_of s) s → tidy s →
  s_magic0 s = ESQ_SESSION_MAGIC → s_magic1 s = ESQ_SESSION_MAGIC →
  family s = (false, None, None, None) → accepts s (a_type a) = true → safe w m l s a →
  wp False (esq_session_take_action mco_is_end call buf m (Some l) a) (fun _ => finished F l) w.
Proof.
  intros H Htd H0 H1 Hf Ha Hsafe. unfold esq_session_take_action.
  destruct (held_lookup _ _ _ _ _ H) as (s0 & Hs0 & _).
  destruct (clear_post_op w m l s a s0 H Hsafe Hs0) as [Hh1 Hsafe1].
  change (take_action mco_is_end call buf 3) with (take_action mco_is_end call buf (S (S 1))).
  cbn [take_action]. apply wp_bind. apply (wp_valid _ _ _ (spot_of s) s); [done..|].
  cbn [negb]. apply wp_bind. unfold wp at 1. rewrite (set_Some _ _ s0) by done. apply wp_bind.
  eapply wp_mono;
    [exact (run_machine_ok _ m l (set_post_op POP_NO_OP s) a eq_refl Htd Hh1 Hsafe1)| |].
  - change (accepts s (a_type a) = false → False). by rewrite Ha.
  - intros [] w1 Hset.
    exact (settled_post_ops w1 m l (set_post_op POP_NO_OP s) a 1 Hset H0 H1 Hf).
Qed.
End Requests.

(** C1: a request that the session's machine accepts is carried out to the end.  The session
    has its magic numbers, neither parent nor children, and is linked where its label says (a
    session to be picked up has been taken out of its list); a session without a descriptor is
    at its first label; a running coroutine installs its socket with no event on record and
    then gets at most one before it winds up; a session that waits for a hash lock can fetch it
    when it is picked up and is not timed out or told to exit while it waits; an added child
    exists.  Then the request returns, within the fuel given, with no access to freed memory;
    afterwards this session is in exactly the list its state says (active, waiting in the list
    of its timeout, in a list to be picked up, or in none) or is gone from memory and from all
    lists; the other sessions keep all but their list links and the link to the next child,
    which adding a child sets, and the order of the lists without this session is as it was. *)
Theorem esq_session_take_action_correct mco_is_end call buf F w m l s a :
  holds F w l (spot_of s) s → tidy s →
  s_magic0 s = ESQ_SESSION_MAGIC → s_magic1 s = ESQ_SESSION_MAGIC →
  family s = (false, None, None, None) → accepts mco_is_end s (a_type a) = true →
  safe w m l s a →
  ∃ r w', esq_session_take_action mco_is_end call buf m (Some l) a w = Ret (r, w') ∧
          finished F l w'.
Proof.
  intros H Htd H0 H1 Hf Ha Hs. apply wp_returns.
  exact (take_action_ok mco_is_end call buf F w m l s a H Htd H0 H1 Hf Ha Hs).
Qed.

Lemma solo_wf l s o :
  s_prev s = None → s_next s = None → home_of s ≠ ToPickUp → At <$> o = spot_of s → tidy s →
  wf_lists (solo_world l s o) (solo_lists l o).
Proof.
  intros Hpv Hnx Hh Ho Htd. destruct (solo_rep l s o Hpv Hnx) as [Hr Ha]. split; [done|].
  intros x s' Hx. simpl in Hx. apply lookup_singleton_Some in Hx as [<- <-]. split; [|done].
  eapply located_at; [done|exact Ha|]. by destruct (home_of s).
Qed.

Lemma esq_session_take_action_correct_witness :
  let s := demo_at ESQ_SESSION_TYPE_SOCKET_CB SK_initial in
  let w := solo_world 5 s None in
  ∃ r w', esq_session_take_action (fun _ => false) (fun _ _ => m_fault)
            (demo_action ACTION_NO) None (Some 5%positive) (demo_action ACTION_WIND_UP) w
          = Ret (r, w') ∧ finished solo_frame 5 w'.
Proof.
  intros s w.
  apply (esq_session_take_action_correct (fun _ => false) (fun _ _ => m_fault)
           (demo_action ACTION_NO) solo_frame w None 5 s (demo_action ACTION_WIND_UP));
    [|by split; intros; try discriminate|reflexivity..|].
  - exact (solo_held 5 s None eq_refl eq_refl).
  - split; try (intros E; discriminate E). intros [E|E]; discriminate E.
Defined.

(** Requests to nothing, and to an object without the magic numbers, change nothing. *)
Lemma take_action_invalid mco_is_end call buf w m p a :
  (p = None ∨ ∃ l s, p = Some l ∧ w_sessions w !! l = Some s ∧
     (s_magic0 s ≠ ESQ_SESSION_MAGIC ∨ s_magic1 s ≠ ESQ_SESSION_MAGIC)) →
  esq_session_take_action mco_is_end call buf m p a w = Ret (ESQ_ERROR_PARAM, w).
Proof.
  intros [-> |(l & s & -> & Hs & Hm)]; [done|].
  unfold esq_session_take_action. cbn [take_action valid_session].
  erewrite M_bind_Ret.
  2:{ erewrite M_bind_Ret by by apply get_Some. erewrite M_bind_Ret by by apply get_Some. done. }
  replace (_ && _) with false; [done|]. symmetry. apply andb_false_iff.
  destruct Hm; [left|right]; by apply Z.eqb_neq.
Qed.

(** Asking for a lock to read from inside a callback gives [post_op] the number of a
    session type, 5, whose bits say "free": the session is freed. *)
Example hash_lock_read_frees_session :
  let s := demo_at ESQ_SESSION_TYPE_SOCKET_CB SK_execute_cb in
  let w := solo_world 5 s None in
  match esq_hash_lock_read (fun _ => false) (fun _ _ => m_fault) (demo_action ACTION_NO)
          None (Some 5%positive) 3 (Some 2%positive) None 10 w with
  | Ret (_, w') => w_sessions w' !! 5%positive = None
  | _ => False
  end.
Proof. vm_compute. reflexivity. Qed.
