(* ===== verification/Worker.v ===== *)
(** * The worker thread

    [session/worker.c] and the timing pass of [session/timing.c]: a worker executes the
    first active session, picks up new ones, waits for the kernel and gives the events,
    the timeouts and the notice to exit to the sessions.  What one turn of the loop does
    is a function of what the kernel's wait returned. *)
From S2P Require Import Prelude LinkedList Session HashLock SessionPt Chassis.
Open Scope Z_scope.

Section Worker.
(** As in [Chassis]; [resume] runs a coroutine until it yields, and tells whether it has
    overrun its stack. *)
Context (mco_is_end : ptr → bool) (call : ptr → loc → M unit) (resume : loc → M bool)
  (buf : action).

Let take (m p : ptr) (a : action) : M Z := esq_session_take_action mco_is_end call buf m p a.

(** ** The active list *)
Fixpoint pop_active (fuel : nat) (m p : ptr) : M ptr :=
  match fuel with
  | O => m_nofuel
  | S fuel =>
      match p with
      | None => mret None
      | Some _ =>
          r ← take m p (with_type buf ACTION_EXECUTE_CB);
          if negb (r =? 0) then n ← get p s_next; pop_active fuel m n
          else mret p
      end
  end.

Definition esq_session_pop_the_first_active (m : ptr) (c : loc) : M ptr :=
  k ← ctx_get c;
  fuel ← reads session_fuel;
  pop_active fuel m (d_head (c_lists k list_of_active)).

Definition esq_worker_execute_session (m : ptr) (l : loc) : M unit :=
  mco ← get (Some l) s_mco;
  match mco with
  | Some co =>
      overrun ← resume co;
      if overrun : bool then m_exit
      else esq_session_wind_up mco_is_end call buf m (Some l)
  | None =>
      cb ← get (Some l) s_cb;
      match cb with
      | Some _ => call cb l;; esq_session_wind_up mco_is_end call buf m (Some l)
      | None => m_exit
      end
  end.

(** ** New sessions *)
Definition esq_worker_pick_up_from_local_list (m : ptr) (c : loc) : M Z :=
  k ← ctx_get c;
  match d_head (c_new k) with
  | None => mret 0
  | Some l =>
      n ← get (Some l) s_next;
      ctx_put c (set_new (match n with
                          | Some _ => DList n (d_tail (c_new k))
                          | None => dlist_empty
                          end) k);;
      esq_session_pick_up mco_is_end call buf m (Some l);;
      mret 1
  end.

Fixpoint pick_up_global (fuel : nat) (m : ptr) (r : Z) : M Z :=
  match fuel with
  | O => m_nofuel
  | S fuel =>
      q ← reads w_global_new;
      match d_head q with
      | None => mret r
      | Some l =>
          n ← get (Some l) s_next;
          modifies (with_global_new (match n with
                                     | Some _ => DList n (d_tail q)
                                     | None => dlist_empty
                                     end));;
          esq_session_pick_up mco_is_end call buf m (Some l);;
          pick_up_global fuel m 1
      end
  end.

Definition esq_worker_pick_up_from_global_list (m : ptr) : M Z :=
  fuel ← reads session_fuel;
  pick_up_global fuel m 0.

(** A session whose lock has been released to it. *)
Definition esq_worker_pick_up_from_local_wake_up_list (m : ptr) (c : loc) : M Z :=
  k ← ctx_get c;
  match c_hash_lock_wake_up_list_head k with
  | None => mret 0
  | Some ctx =>
      n ← hget (Some ctx) h_next_in_local_wake_up_list;
      ctx_put c (match n with
                 | Some _ => set_wake_up n (c_hash_lock_wake_up_list_tail k) k
                 | None => set_wake_up None None k
                 end);;
      owner ← hget (Some ctx) h_worker_ctx;
      if decide (owner = Some c) then
        session ← hget (Some ctx) h_session;
        stop ← reads w_stop;
        set session (or_event_bits (if stop : bool then ESQ_EVENT_BIT_EXIT
                                    else ESQ_EVENT_BIT_LOCK_OBTAIN));;
        esq_session_pick_up mco_is_end call buf m session;;
        mret 1
      else m_exit
  end.

(** ** Timeouts *)

(** The test of [CHECK_EVENTS_TIMING2]; [now_ms] and [wind_up_ms] hold microseconds. *)
Definition expired (now_sec now_ms : Z) (s : session) : bool :=
  let e_deadline_sec := i32 (s_wind_up_s s + s_timeouts s) in
  if e_deadline_sec <? now_sec then true
  else if now_sec =? e_deadline_sec then i32 (s_wind_up_ms s + s_timeoutms s) <? now_ms
  else false.

Fixpoint check_timing (fuel : nat) (m : ptr) (now_sec now_ms : Z) (p : ptr) (any : bool)
    : M bool :=
  match fuel with
  | O => m_nofuel
  | S fuel =>
      match p with
      | None => mret any
      | Some l =>
          t_next ← get p s_next;
          due ← get p (expired now_sec now_ms);
          if due : bool then
            esq_notify_timeout_event mco_is_end call buf m p;;
            check_timing fuel m now_sec now_ms t_next true
          else check_timing fuel m now_sec now_ms t_next any
      end
  end.

Definition CHECK_EVENTS_TIMING2 (m : ptr) (c : loc) (now_sec now_ms : Z) (p : place) (any : bool)
    : M bool :=
  k ← ctx_get c;
  fuel ← reads session_fuel;
  check_timing fuel m now_sec now_ms (d_head (c_lists k p)) any.

Definition esq_session_timing (m : ptr) (c : loc) : M unit :=
  now ← reads w_now;
  match now with
  | None => modifies (with_stop true)
  | Some (tv_sec, tv_usec) =>
      let now_sec := i32 tv_sec in
      let now_ms := i32 tv_usec in
      any ← CHECK_EVENTS_TIMING2 m c now_sec now_ms list_of_0ms_to_100ms false;
      any ← CHECK_EVENTS_TIMING2 m c now_sec now_ms list_of_100ms_to_1s any;
      any ← CHECK_EVENTS_TIMING2 m c now_sec now_ms list_of_1s_to_10s any;
      any ← CHECK_EVENTS_TIMING2 m c now_sec now_ms list_of_longer_than_10s any;
      if any : bool then esq_session_update_polling_interval c else mret tt
  end.

(** ** The notice to exit *)
Fixpoint NOTIFY_EXIT_TO_SESSION_LIST (fuel : nat) (m p : ptr) : M unit :=
  match fuel with
  | O => m_nofuel
  | S fuel =>
      match p with
      | None => mret tt
      | Some _ =>
          n ← get p s_next;
          esq_notify_exit mco_is_end call buf m p;;
          NOTIFY_EXIT_TO_SESSION_LIST fuel m n
      end
  end.

Fixpoint notify_exit_to_lists (m : ptr) (c : loc) (ps : list place) : M unit :=
  match ps with
  | [] => mret tt
  | p :: ps =>
      k ← ctx_get c;
      fuel ← reads session_fuel;
      NOTIFY_EXIT_TO_SESSION_LIST fuel m (d_head (c_lists k p));;
      notify_exit_to_lists m c ps
  end.

Definition esq_worker_notify_exit_to_all_sessions (m : ptr) (c : loc) : M unit :=
  notify_exit_to_lists m c
    [list_of_active; list_of_0ms_to_100ms; list_of_100ms_to_1s; list_of_1s_to_10s;
     list_of_longer_than_10s; list_of_no_time].

(** ** Events of the kernel *)

(** What a completion of the ring carries: the session, and its result. *)
Record cqe := Cqe { cqe_data : ptr; cqe_res : Z }.

Definition ECANCELED : Z := 125.

Definition event_flags (io : Z) : Z :=
  let bit f e acc := if Z.land io f =? 0 then acc else Z.lor acc e in
  bit POLLOUT ESQ_EVENT_BIT_WRITE
   (bit POLLIN ESQ_EVENT_BIT_READ
     (bit POLLRDHUP ESQ_EVENT_BIT_FD_CLOSE
       (bit POLLHUP ESQ_EVENT_BIT_FD_CLOSE
         (bit POLLERR ESQ_EVENT_BIT_ERROR 0)))).

Definition esq_worker_receive_fd_event (m : ptr) (e : cqe) : M unit :=
  match cqe_data e with
  | None => mret tt
  | Some _ =>
      if cqe_res e =? - ECANCELED then
        esq_notify_aio_removed mco_is_end call buf m (cqe_data e)
      else if cqe_res e <? 0 then mret tt
      else
        let flags := event_flags (cqe_res e) in
        if flags =? 0 then mret tt
        else
          ok ← valid_session (cqe_data e);
          if ok : bool then
            esq_notify_event_to_session mco_is_end call buf m (cqe_data e) flags
          else mret tt
  end.

Definition esq_worker_still_work_to_do (c : loc) : M Z :=
  k ← ctx_get c;
  g ← reads w_global_new;
  mret (if d_head (c_lists k list_of_0ms_to_100ms) then 1
        else if d_head (c_lists k list_of_100ms_to_1s) then 1
        else if d_head (c_lists k list_of_1s_to_10s) then 1
        else if d_head (c_lists k list_of_longer_than_10s) then 1
        else if d_head (c_lists k list_of_no_time) then 1
        else if d_head (c_lists k list_of_active) then 1
        else if d_head g then 1 else 0).

(** ** One turn of the loop *)

(** What the wait for the ring returned. *)
Inductive polled :=
| PEvent (e : cqe)
| PInterrupted
| PTime
| POther.

(** [true] when the loop is left. *)
Definition esq_worker_turn (m : ptr) (c : loc) (poll : polled) : M bool :=
  first ← esq_session_pop_the_first_active m c;
  match first with
  | Some l => esq_worker_execute_session m l;; mret false
  | None =>
      r ← esq_worker_pick_up_from_global_list m;
      if negb (r =? 0) then mret false else
      r ← esq_worker_pick_up_from_local_list m c;
      if negb (r =? 0) then mret false else
      r ← esq_worker_pick_up_from_local_wake_up_list m c;
      if negb (r =? 0) then mret false else
      k ← ctx_get c;
      if c_stop_session_flag k then
        ctx_put c (set_stop_session_flag false k);;
        esq_worker_notify_exit_to_all_sessions m c;;
        mret false
      else
        (match poll with
         | PEvent e =>
             esq_worker_receive_fd_event m e;; esq_session_update_polling_interval c
         | PTime => esq_session_timing m c;; esq_session_update_polling_interval c
         | _ => mret tt
         end);;
        stop ← reads w_stop;
        if stop : bool then
          r ← esq_worker_still_work_to_do c;
          if negb (r =? 0) then esq_worker_notify_exit_to_all_sessions m c;; mret false
          else mret true
        else mret false
  end.
End Worker.


(** ** Passes over the sessions *)

(** The sequence without the members of [T]. *)
Definition kept (T ls : list loc) : list loc := filter (fun x => x ∉ T) ls.

Lemma kept_app T1 T2 ls : kept (T1 ++ T2) ls = kept T2 (kept T1 ls).
Proof.
  unfold kept. rewrite list_filter_filter. apply list_filter_iff. intros x. set_solver.
Qed.

Lemma kept_disjoint T ls : (∀ x, x ∈ T → x ∉ ls) → kept T ls = ls.
Proof.
  intros Hd. unfold kept. induction ls as [|y ls IH]; [done|].
  rewrite filter_cons_True by set_solver. f_equal. set_solver.
Qed.

Lemma elem_of_kept x T ls : x ∈ kept T ls ↔ x ∉ T ∧ x ∈ ls.
Proof. unfold kept. by rewrite list_elem_of_filter. Qed.

Lemma without_kept l ls : without l ls = kept [l] ls.
Proof. unfold without, kept. apply list_filter_iff. set_solver. Qed.

Lemma without_middle x ks ys : x ∉ ks ++ ys → without x (ks ++ x :: ys) = ks ++ ys.
Proof.
  intros Hx. rewrite without_kept. unfold kept. rewrite filter_app, filter_cons_False by set_solver.
  rewrite <- filter_app. apply (kept_disjoint [x]). set_solver.
Qed.

(** A session of a list belongs there. *)
Lemma spot_unique w L x s p :
  wf_lists w L → w_sessions w !! x = Some s → x ∈ L (At p) → spot_of s = Some (At p).
Proof.
  intros [(c & k & _ & _ & _ & _ & _ & Hd) Ho] Hs Hin. destruct (Ho x s Hs) as [Hloc _].
  unfold located in Hloc. unfold spot_of. destruct (home_of s); simpl in Hloc.
  - by destruct (Hloc (At p)).
  - f_equal. eauto.
  - f_equal. eauto.
  - exfalso. destruct Hloc as [H|H]; discriminate (Hd _ _ _ H Hin).
Qed.

(** What a pass over sessions relies on for every session and keeps, how it leaves those it
    has dealt with, and which lists they have left. *)
Record pass := Pass {
  p_all : session → Prop;
  p_end : session → Prop;
  p_left : spot → bool;
  p_all_ext s s' : core s = core s' → p_all s → p_all s';
  p_end_ext s s' : core s = core s' → p_end s → p_end s'
}.

Section Passes.
Context (R : pass).

Definition everyone (w : world) : Prop := ∀ x s, w_sessions w !! x = Some s → p_all R s.

(** From [w] with lists [L] to [w'] with [L'], the pass has dealt with the sessions [T] and
    nothing else has happened. *)
Record after (T : list loc) (w w' : world) (L L' : spot → list loc) : Prop := {
  af_self : w_self w' = w_self w;
  af_wf : wf_lists w' L';
  af_all : everyone w';
  af_lists b : kept T (L' b) = kept T (L b);
  af_left x b : x ∈ T → p_left R b = true → x ∉ L' b;
  af_end x : x ∈ T → ∃ s', w_sessions w' !! x = Some s' ∧ p_end R s';
  af_rest x : x ∉ T → core <$> w_sessions w' !! x = core <$> w_sessions w !! x
}.

Lemma after_refl w L : wf_lists w L → everyone w → after [] w w L L.
Proof.
  intros Hw Hp. split; try done; [intros x b Hx|intros x Hx]; by apply not_elem_of_nil in Hx.
Qed.

Lemma after_left T w w' L L' b :
  after T w w' L L' → p_left R b = true → L' b = kept T (L b).
Proof.
  intros A Hp. rewrite <- (af_lists _ _ _ _ _ A). symmetry. apply kept_disjoint.
  intros x Hx. by apply (af_left _ _ _ _ _ A).
Qed.

Lemma after_trans T1 T2 w w1 w2 L L1 L2 :
  after T1 w w1 L L1 → after T2 w1 w2 L1 L2 → after (T1 ++ T2) w w2 L L2.
Proof.
  intros A B. split.
  - by rewrite (af_self _ _ _ _ _ B), (af_self _ _ _ _ _ A).
  - apply B.
  - apply B.
  - intros b. rewrite kept_app, (kept_app T1 T2 (L b)), <- (af_lists _ _ _ _ _ A b).
    rewrite <- !kept_app.
    assert (Hc : ∀ ls, kept (T1 ++ T2) ls = kept T1 (kept T2 ls)).
    { intros ls. rewrite <- kept_app. unfold kept. apply list_filter_iff. set_solver. }
    by rewrite !Hc, (af_lists _ _ _ _ _ B b).
  - intros x b Hx Hp. destruct (decide (x ∈ T2)) as [H2|H2]; [by apply (af_left _ _ _ _ _ B)|].
    rewrite (after_left _ _ _ _ _ _ B Hp), elem_of_kept. intros [_ Hx1].
    apply (af_left _ _ _ _ _ A x b) in Hx1; [done| |done]. set_solver.
  - intros x Hx. destruct (decide (x ∈ T2)) as [H2|H2]; [by apply (af_end _ _ _ _ _ B)|].
    destruct (af_end _ _ _ _ _ A x) as (s1 & Hs1 & Ht); [set_solver|].
    pose proof (af_rest _ _ _ _ _ B x H2) as E. rewrite Hs1 in E.
    destruct (w_sessions w2 !! x) as [s2|]; [|done]. exists s2. split; [done|].
    eapply p_end_ext; [|exact Ht]. symmetry. exact (Some_inj _ _ E).
  - intros x Hx. rewrite (af_rest _ _ _ _ _ B), (af_rest _ _ _ _ _ A); [done|set_solver..].
Qed.

(** One session, as the pass leaves it. *)
Definition dealt_with (F : frame) (l : loc) (w' : world) : Prop :=
  ∃ s', holds F w' l (spot_of s') s' ∧ home_of s' ≠ ToPickUp ∧ tidy s' ∧ p_all R s' ∧
    p_end R s' ∧ ∀ b, p_left R b = true → spot_of s' ≠ Some b.

Lemma after_one w w' L l :
  wf_lists w L → everyone w → dealt_with (frame_of w L l) l w' → ∃ L', after [l] w w' L L'.
Proof.
  intros Hw Hpl (s' & H & Hh & Htd & Hps & Ht & Hsp).
  pose proof H as (Hsf & _ & _ & _ & (s0 & Hs0 & E0) & _ & Hrest).
  assert (Hfin : finished (frame_of w L l) l w').
  { eapply holds_finished; [exact H|done|]. by destruct (home_of s'). }
  destruct (finished_wf _ _ _ _ Hw Hfin) as (L' & Hw' & Hl'). exists L'.
  assert (Ec : core s' = core s0) by (unfold core; by rewrite E0). split.
  - done.
  - done.
  - intros x s Hx. destruct (decide (x = l)) as [->|Hne].
    + assert (s = s0) as -> by congruence. by apply (p_all_ext R s').
    + specialize (Hrest x Hne). rewrite Hx in Hrest. simpl in Hrest.
      destruct (w_sessions w !! x) as [s1|] eqn:E1; [|done].
      eapply p_all_ext; [symmetry; exact (Some_inj _ _ Hrest)|]. by eapply Hpl.
  - intros b. by rewrite <- !without_kept, Hl'.
  - intros x b ->%list_elem_of_singleton Hp Hin. destruct Hw' as [(?&?&_&_&_&_&_&Hd) Ho].
    destruct (Ho l s0 Hs0) as [Hloc _]. specialize (Hsp b Hp).
    apply (located_ext L' L' l s0 s') in Hloc; [|done|done]. unfold located in Hloc.
    unfold spot_of in Hsp. destruct (home_of s') eqn:Eh; try done; simpl in Hloc.
    + by apply (Hloc b).
    + apply Hsp. f_equal. eauto.
    + apply Hsp. f_equal. eauto.
  - intros x ->%list_elem_of_singleton. exists s0. split; [done|]. by eapply p_end_ext.
  - intros x Hx. apply Hrest. set_solver.
Qed.
End Passes.

(** A request after which the machine asks for nothing. *)
Lemma quiet_request_ok mco_is_end call buf m F w l a s t (Q : world → Prop) :
  holds F w l a s → s_magic0 s = ESQ_SESSION_MAGIC → s_magic1 s = ESQ_SESSION_MAGIC →
  (∀ w1, holds F w1 l a (set_post_op POP_NO_OP s) →
     wp False (run_machine mco_is_end m l (with_type buf t))
       (fun _ w' => Q w' ∧ ∃ s', (∃ a, holds F w' l a s') ∧ s_post_op s' = POP_NO_OP) w1) →
  wp False (simple_request mco_is_end call buf t m (Some l)) (fun _ => Q) w.
Proof.
  intros H H0 H1 Hm. unfold simple_request, esq_session_take_action.
  apply wp_bind. cbn [take_action]. apply wp_bind.
  apply (wp_valid F _ _ _ a s); [done..|]. cbn [negb].
  apply wp_bind. apply (wp_set F _ l a s); [done..|]. intros w1 Hw1.
  apply wp_bind. eapply wp_mono; [by apply Hm|done|].
  intros [] w2 (Hto & s' & (a' & Hs') & Hop).
  apply wp_bind, (wp_get F _ l a' s'); [done..|]. rewrite Hop. cbn. exact Hto.
Qed.

(** ** The timing pass *)

(** The lists that are timed. *)
Definition timed (p : place) : bool :=
  match p with list_of_active | list_of_no_time => false | _ => true end.

(** Nobody carries a wrong magic number or waits for a hash lock. *)
Definition plain_session (s : session) : Prop :=
  s_magic0 s = ESQ_SESSION_MAGIC ∧ s_magic1 s = ESQ_SESSION_MAGIC ∧
  (s_session_type s = ESQ_SESSION_TYPE_WAIT_FOR_HASH_LOCK → s_lc s ≠ HL_winded_up).

(** The event of a timeout is on record. *)
Definition told (s : session) : Prop :=
  Z.testbit (s_event_bits s) 2 = true ∨ Z.testbit (s_event_bits2 s) 2 = true.

Lemma plain_ext s s' : core s = core s' → plain_session s → plain_session s'.
Proof. intros E Hs. change (plain_session (core s')). by rewrite <- E. Qed.

Lemma told_ext s s' : core s = core s' → told s → told s'.
Proof. intros E Hs. change (told (core s')). by rewrite <- E. Qed.

(** The deadline of a session, in seconds and microseconds, lies before the given time. *)
Definition late (sec us : Z) (s : session) : Prop :=
  i32 (s_wind_up_s s + s_timeouts s) < sec ∨
  (i32 (s_wind_up_s s + s_timeouts s) = sec ∧ i32 (s_wind_up_ms s + s_timeoutms s) < us).

#[export] Instance late_dec sec us s : Decision (late sec us s).
Proof. unfold late. apply _. Defined.

(** The test of the code is true for the late sessions and no other. *)
Lemma expired_late sec us s : expired sec us s = bool_decide (late sec us s).
Proof.
  unfold expired, late. destruct (Z.ltb_spec (i32 (s_wind_up_s s + s_timeouts s)) sec); [by rewrite bool_decide_true by lia|].
  destruct (Z.eqb_spec sec (i32 (s_wind_up_s s + s_timeouts s))); [|by rewrite bool_decide_false by lia].
  destruct (Z.ltb_spec (i32 (s_wind_up_ms s + s_timeoutms s)) us);
    [by rewrite bool_decide_true by lia|by rewrite bool_decide_false by lia].
Qed.

Lemma late_ext sec us s s' : core s = core s' → late sec us s ↔ late sec us s'.
Proof. intros E. change (late sec us (core s) ↔ late sec us (core s')). by rewrite E. Qed.

Lemma told_bits b : Z.testbit (u16 (Z.lor b ESQ_EVENT_BIT_TIMEOUT)) 2 = true.
Proof.
  unfold u16. rewrite Z.mod_pow2_bits_low by lia. rewrite Z.lor_spec. apply orb_true_r.
Qed.

Definition timing_pass : pass :=
  Pass plain_session told (fun b => match b with At p => timed p | _ => false end) plain_ext
    told_ext.

Ltac wp_timed_out :=
  match goal with
  | H : holds ?F ?w ?l ?a ?s |- dealt_with timing_pass ?F ?l ?w =>
      exists s; split_and!;
      [ replace (spot_of s) with a; [exact H|]; unfold spot_of, home_of; known; reflexivity
      | unfold home_of; known; discriminate
      | unfold tidy, no_timeout; known; split; intros; first [discriminate | split; reflexivity]
      | split_and!; cbn; try assumption; unfold plain_session; known; intros; discriminate
      | first [ left; cbn; apply told_bits | right; cbn; apply told_bits ]
      | unfold spot_of, home_of; known; intros [[]| |] E; discriminate ]
  end.

(** The labels a session can wait at in a timed list. *)
Lemma waiting_labels s p :
  spot_of s = Some (At p) → timed p = true → tidy s → plain_session s →
  Some (At p) = Some (timing_spot s) ∧
  ((s_session_type s = ESQ_SESSION_TYPE_SOCKET_CB ∧ s_lc s = SK_winded_up) ∨
   (s_session_type s = ESQ_SESSION_TYPE_MCO ∧ s_lc s = MC_winded_up) ∨
   (s_session_type s = ESQ_SESSION_TYPE_MCO ∧ s_lc s = MC_execute_cb_installed_socket_fd ∧
    s_event_bits2 s = 0)).
Proof.
  intros Hs Hp [Hmu Hsk] (_ & _ & Hhl). unfold spot_of in Hs.
  destruct (home_of s) eqn:Hh; try done; [by injection Hs as <-|].
  split; [done|]. injection Hs as Hs.
  assert (Hno : ¬ no_timeout s).
  { intros [E1 E2]. unfold timing_spot in Hs. rewrite E1, E2 in Hs. by subst p. }
  unfold home_of, sk_home, mu_home, mc_home, hl_home in Hh.
  repeat match type of Hh with
  | context [?a =? ?b] => destruct (Z.eqb_spec a b); cbn in Hh
  end; try done; auto 10; try (by destruct Hno; auto); exfalso.
  all: try (by apply Hhl). all: apply Hno, Hmu; [done|].
  all: match goal with E : s_lc _ = _ |- _ => rewrite E end; reflexivity.
Qed.

(** The sessions of a sequence whose time is up. *)
Definition late_at (w : world) (sec us : Z) (x : loc) : Prop :=
  match w_sessions w !! x with Some s => late sec us s | None => False end.

#[export] Instance late_at_dec w sec us x : Decision (late_at w sec us x).
Proof. unfold late_at. destruct (w_sessions w !! x); apply _. Defined.

Definition due (w : world) (sec us : Z) (ls : list loc) : list loc := filter (late_at w sec us) ls.

Lemma due_ext w w' sec us ls :
  (∀ x, x ∈ ls → core <$> w_sessions w' !! x = core <$> w_sessions w !! x) →
  due w' sec us ls = due w sec us ls.
Proof.
  intros Hc. unfold due. induction ls as [|x ls IH]; [done|]. rewrite !filter_cons, IH by set_solver.
  apply decide_ext. specialize (Hc x ltac:(set_solver)). unfold late_at.
  destruct (w_sessions w' !! x), (w_sessions w !! x); try done. apply late_ext. exact (Some_inj _ _ Hc).
Qed.

Lemma due_subset w sec ms ls x : x ∈ due w sec ms ls → x ∈ ls.
Proof. unfold due. rewrite list_elem_of_filter. tauto. Qed.

(** The members of a list are different sessions of the store. *)
Lemma rep_members w L b : rep w L → NoDup (L b) ∧ ∀ x, x ∈ L b → is_Some (w_sessions w !! x).
Proof.
  assert (Hs : ∀ q ls, slist_rep (w_sessions w) q ls →
    NoDup ls ∧ ∀ x, x ∈ ls → is_Some (w_sessions w !! x)).
  { intros q ls (_ & _ & Hnd & Hs). split; [done|]. clear Hnd. induction ls as [|y ls IH].
    - by intros x ?%not_elem_of_nil.
    - destruct Hs as [(s & Hy & _) Hs]. intros x [->|Hx]%elem_of_cons; eauto. }
  intros (c & k & _ & _ & Hl & Hn & Hg & _). destruct b as [p| |]; [|by eapply Hs..].
  destruct (Hl p) as (_ & _ & Hnd & Hd). split; [done|]. intros x. by eapply dseg_lookup.
Qed.

(** No list is longer than the store. *)
Lemma list_fuel w L b : rep w L → (length (L b) < session_fuel w)%nat.
Proof.
  intros Hr. destruct (rep_members w L b Hr) as [Hnd Hin]. unfold session_fuel.
  apply Nat.lt_succ_r. rewrite <- (size_list_to_set (C := gset loc)) by done.
  rewrite <- (size_dom (D := gset loc)). apply subseteq_size. intros x Hx.
  apply elem_of_list_to_set in Hx. apply elem_of_dom. auto.
Qed.

(** The interval of the next wait fits the lists. *)
Definition polls_right (c : loc) (w : world) : Prop :=
  ∃ k, w_ctxs w !! c = Some k ∧ c_esq_os_event_wait_max k = suggested_time_interval k.

Lemma update_polling_ok c T w w1 L L1 :
  after timing_pass T w w1 L L1 → w_self w = Some c →
  wp False (esq_session_update_polling_interval c)
    (fun _ w2 => after timing_pass T w w2 L L1 ∧ polls_right c w2) w1.
Proof.
  intros A Hc. pose proof (af_wf _ _ _ _ _ _ A) as [Hr1 Ho1].
  destruct Hr1 as (c' & k & Hc' & Hk & Hl & Hn & Hg & Hd).
  assert (c' = c) as -> by (rewrite (af_self _ _ _ _ _ _ A) in Hc'; congruence).
  apply wp_bind. unfold wp at 1, ctx_get. rewrite Hk. unfold wp, ctx_put, modifies.
  split; [|by exists (set_wait_max (suggested_time_interval k) k); simpl; rewrite lookup_insert_eq].
  split; [apply A| |apply A..]. split; [|exact Ho1].
  exists c, (set_wait_max (suggested_time_interval k) k). simpl. rewrite lookup_insert_eq. done.
Qed.

Section Timing.
Context (mco_is_end : ptr → bool) (call : ptr → loc → M unit) (buf : action) (m : ptr).

(** The machines of the sessions that can be timed out, given the request. *)
Lemma machine_timeout_ok F w l s p :
  holds F w l (Some (At p)) s → spot_of s = Some (At p) → timed p = true → tidy s →
  plain_session s → s_post_op s = POP_NO_OP →
  wp False (run_machine mco_is_end m l (with_type buf ACTION_NOTIFY_TIMEOUT))
    (fun _ w' => dealt_with timing_pass F l w' ∧ ∃ s', (∃ a, holds F w' l a s') ∧ s_post_op s' = POP_NO_OP) w.
Proof.
  intros H Hsp Hp Htd Hpl Hop.
  destruct (waiting_labels s p Hsp Hp Htd Hpl) as [Ep Hl]. rewrite Ep in H.
  destruct Hpl as (H0 & H1 & _).
  apply wp_bind. apply (wp_get F _ l (Some (timing_spot s)) s); [done..|].
  destruct Hl as [[Ht Hlc]|[[Ht Hlc]|(Ht & Hlc & Hb)]]; rewrite Ht;
    cbn -[esq_pt_of_single_shot_socket esq_pt_of_mco dealt_with];
    [unfold esq_pt_of_single_shot_socket|unfold esq_pt_of_mco..]; apply wp_bind;
    (apply (wp_get F _ l (Some (timing_spot s)) s); [done..|]); rewrite Hlc;
    cbn -[sk_winded_up mc_winded_up mc_execute_cb_installed_socket_fd dealt_with];
    unfold sk_winded_up, mc_winded_up, mc_execute_cb_installed_socket_fd, mc_wake, mc_store;
    cbn -[dealt_with]; unfold sk_remove_fd_then_active; repeat wp_step;
    try (split; [wp_timed_out|]); eauto.
Qed.

Lemma timeout_ok F w l s p :
  holds F w l (Some (At p)) s → spot_of s = Some (At p) → timed p = true → tidy s →
  plain_session s →
  wp False (esq_notify_timeout_event mco_is_end call buf m (Some l))
    (fun _ => dealt_with timing_pass F l) w.
Proof.
  intros H Hsp Hp Htd Hpl. pose proof Hpl as (H0 & H1 & _).
  unfold esq_notify_timeout_event. apply (quiet_request_ok _ _ _ _ F w l (Some (At p)) s); [done..|]. intros w1 Hw1.
  by apply (machine_timeout_ok F w1 l (set_post_op POP_NO_OP s) p).
Qed.

Lemma check_timing_ok p sec ms fuel w L ks ys any :
  wf_lists w L → everyone timing_pass w → timed p = true → L (At p) = ks ++ ys → (length ys < fuel)%nat →
  wp False (check_timing mco_is_end call buf fuel m sec ms (head ys) any)
    (fun r w' => ∃ L', after timing_pass (due w sec ms ys) w w' L L' ∧
                       (r = true ↔ any = true ∨ due w sec ms ys ≠ [])) w.
Proof.
  intros Hw Hpl Hp. revert w L ks ys any Hw Hpl.
  induction fuel as [|fuel IH]; intros w L ks ys any Hw Hpl El Hf; [lia|].
  destruct ys as [|x ys]; cbn [check_timing head].
  { apply wp_ret. exists L. split; [by apply after_refl|]. naive_solver. }
  pose proof Hw as [(c & k & _ & _ & Hl & _ & _ & Hd) Ho]. specialize (Hl p). rewrite El in Hl.
  apply dlist_rep_ends in Hl as (_ & _ & _ & Hx & (s & Hs & _ & Hnx) & _).
  apply wp_bind. unfold wp at 1. rewrite (get_Some _ _ s) by done.
  apply wp_bind. unfold wp at 1. rewrite (get_Some _ _ s) by done.
  assert (Hin : x ∈ L (At p)) by (rewrite El; set_solver).
  assert (Hh : s_next s = head ys) by (etransitivity; [exact Hnx|by destruct ys]).
  assert (Hla : late_at w sec ms x ↔ late sec ms s) by (unfold late_at; by rewrite Hs).
  unfold due. rewrite filter_cons, expired_late. case_bool_decide as Ee.
  - rewrite decide_True by (by apply Hla). rewrite Hh.
    assert (Hsp : spot_of s = Some (At p)) by (by eapply spot_unique).
    assert (Hpu : home_of s ≠ ToPickUp) by (unfold spot_of in Hsp; by destruct (home_of s)).
    apply wp_bind. eapply wp_mono;
      [eapply (timeout_ok (frame_of w L x) w x s p); [|exact Hsp|done|by eapply Ho|by eapply Hpl]
      |done|].
    { rewrite <- Hsp. by apply wf_holds. }
    intros [] w1 Hto. destruct (after_one _ _ _ _ _ Hw Hpl Hto) as (L1 & A1).
    assert (El1 : L1 (At p) = ks ++ ys).
    { rewrite (after_left _ _ _ _ _ _ (At p) A1 Hp), El, <- without_kept. by apply without_middle. }
    eapply wp_mono; [apply (IH w1 L1 ks ys true); [apply A1|apply A1|done|simpl in Hf; lia]|done|].
    intros r w2 (L2 & A2 & Hr). exists L2. split.
    + change (after timing_pass ([x] ++ due w sec ms ys) w w2 L L2). eapply after_trans; [exact A1|].
      rewrite (due_ext w w1) in A2; [done|]. intros y Hy. apply (af_rest _ _ _ _ _ _ A1). set_solver.
    + split; [by right|]. intros _. apply Hr. by left.
  - rewrite decide_False by (by rewrite Hla). rewrite Hh.
    apply (IH w L (ks ++ [x]) ys any); [done|done|by rewrite <- app_assoc|simpl in Hf; lia].
Qed.

(** One list, after others have been looked through. *)
Lemma check_list_ok c p sec ms T w w1 L L1 any :
  after timing_pass T w w1 L L1 → w_self w = Some c → timed p = true → (∀ x, x ∈ T → x ∉ L (At p)) →
  wp False (CHECK_EVENTS_TIMING2 mco_is_end call buf m c sec ms p any)
    (fun r w2 => ∃ L2, after timing_pass (T ++ due w sec ms (L (At p))) w w2 L L2 ∧
                       (r = true ↔ any = true ∨ due w sec ms (L (At p)) ≠ [])) w1.
Proof.
  intros A Hc Hp Hdis. pose proof (af_wf _ _ _ _ _ _ A) as Hw1. pose proof Hw1 as [Hr1 _].
  pose proof Hr1 as (c' & k & Hc' & Hk & Hl & _).
  assert (c' = c) as -> by (rewrite (af_self _ _ _ _ _ _ A) in Hc'; congruence).
  assert (El : L1 (At p) = L (At p))
    by (rewrite (after_left _ _ _ _ _ _ (At p) A Hp); by apply kept_disjoint).
  apply wp_bind. unfold wp at 1, ctx_get. rewrite Hk. apply wp_bind, wp_reads.
  destruct (Hl p) as (Hh & _). rewrite Hh.
  assert (Ed : due w1 sec ms (L1 (At p)) = due w sec ms (L (At p))).
  { rewrite El. apply due_ext. intros x Hx. apply (af_rest _ _ _ _ _ _ A). intros HT.
    by apply (Hdis x). }
  eapply wp_mono;
    [apply (check_timing_ok p sec ms (session_fuel w1) w1 L1 [] (L1 (At p)) any Hw1);
       [apply A|done|done|by apply list_fuel]|done|].
  rewrite Ed. intros r w2 (L2 & A2 & Hr). exists L2. split; [|done]. by eapply after_trans.
Qed.

End Timing.

(** The sessions of the timed lists whose time is up at [sec] and [ms]. *)
Definition all_due (w : world) (L : spot → list loc) (sec ms : Z) : list loc :=
  due w sec ms (L (At list_of_0ms_to_100ms)) ++ due w sec ms (L (At list_of_100ms_to_1s)) ++
  due w sec ms (L (At list_of_1s_to_10s)) ++ due w sec ms (L (At list_of_longer_than_10s)).

Lemma due_disjoint w L sec ms p q :
  rep w L → p ≠ q → ∀ x, x ∈ due w sec ms (L (At p)) → x ∉ L (At q).
Proof.
  intros (c & k & _ & _ & _ & _ & _ & Hd) Hne x Hx Hq. apply Hne.
  by injection (Hd (At p) (At q) x (due_subset _ _ _ _ _ Hx) Hq).
Qed.

Lemma nothing_due (any : bool) (d : list loc) :
  (false = true ↔ any = true ∨ d ≠ []) → any = false ∧ d = [].
Proof.
  intros [_ H]. destruct any; [by discriminate H; left|]. destruct d; [done|].
  by discriminate H; right.
Qed.

(** The sessions of the lists already looked through are not in the next. *)
Ltac earlier Hr Hdis :=
  let x := fresh in let Hx := fresh in
  intros x Hx; rewrite ?app_nil_l, ?elem_of_app in Hx; destruct_or? Hx;
  (eapply Hdis; [exact Hr| |exact Hx]; discriminate).


(** A session that has waited at a socket for two seconds, since long ago. *)
Definition late_session : session :=
  set_timeouts 2 (demo_at ESQ_SESSION_TYPE_SOCKET_CB SK_winded_up).


(** ** Picking up new sessions *)

(** Nobody carries a wrong magic number, and nobody to be picked up wants a hash lock. *)
Definition new_session (s : session) : Prop :=
  s_magic0 s = ESQ_SESSION_MAGIC ∧ s_magic1 s = ESQ_SESSION_MAGIC ∧
  (home_of s = ToPickUp → s_session_type s ≠ ESQ_SESSION_TYPE_WAIT_FOR_HASH_LOCK).

(** The session waits for events or is active. *)
Definition started (s : session) : Prop := home_of s = Active ∨ home_of s = Waiting.

Lemma new_session_ext s s' : core s = core s' → new_session s → new_session s'.
Proof. intros E Hs. change (new_session (core s')). by rewrite <- E. Qed.

Lemma started_ext s s' : core s = core s' → started s → started s'.
Proof. intros E Hs. change (started (core s')). by rewrite <- E. Qed.

Definition pick_up_pass : pass :=
  Pass new_session started (fun b => match b with At _ => false | _ => true end) new_session_ext
    started_ext.

Lemma slist_pop h q x s ls :
  slist_rep h q (x :: ls) → h !! x = Some s →
  slist_rep h (match s_next s with Some _ => DList (s_next s) (d_tail q) | None => dlist_empty end)
    ls.
Proof.
  intros (_ & Ht & Hnd & [(s' & Hs' & Hnx) Hs]) Hx. simplify_eq. rewrite Hnx.
  apply NoDup_cons in Hnd as [_ Hnd]. destruct ls as [|y ls]; [done|].
  split_and!; [done|by rewrite Ht|done|done].
Qed.

(** The first session of a list to be picked up, taken out. *)
Lemma pop_new_ok g w w1 L c k l s rest :
  wf_lists w L → w_self w = Some c → w_ctxs w !! c = Some k → L g = l :: rest →
  w_sessions w !! l = Some s →
  (g = NewLocal ∧
   w1 = with_ctxs (<[c := set_new (match s_next s with
                                   | Some _ => DList (s_next s) (d_tail (c_new k))
                                   | None => dlist_empty end) k]> (w_ctxs w)) w) ∨
  (g = NewGlobal ∧
   w1 = with_global_new (match s_next s with
                         | Some _ => DList (s_next s) (d_tail (w_global_new w))
                         | None => dlist_empty end) w) →
  holds (frame_of w L l) w1 l None s.
Proof.
  intros [(c' & k' & Hc' & Hk' & Hl & Hn & Hg & Hd) Ho] Hc Hk El Hs Hw1. simplify_eq.
  assert (Hin : l ∈ L g) by (rewrite El; set_solver).
  assert (Hrest : l ∉ rest ∧ NoDup rest).
  { destruct Hw1 as [[-> _]|[-> _]]; [destruct Hn as (_ & _ & Hnd & _)
      |destruct Hg as (_ & _ & Hnd & _)]; rewrite El in Hnd; by apply NoDup_cons in Hnd. }
  assert (Hback : ∀ a y, y ∈ upd_spot L g rest a → y ∈ L a).
  { intros a y. unfold upd_spot. case_decide; [subst; rewrite El; set_solver|done]. }
  assert (Hsub : ∀ p, upd_spot L g rest (At p) = L (At p)).
  { intros p. unfold upd_spot. rewrite decide_False; [done|]. by destruct Hw1 as [[-> _]|[-> _]]. }
  assert (Hother : ∀ b, b ≠ g → upd_spot L g rest b = L b)
    by (intros b Hb; unfold upd_spot; by rewrite decide_False).
  assert (Hself : upd_spot L g rest g = rest) by (unfold upd_spot; by rewrite decide_True).
  split; [by destruct Hw1 as [[_ ->]|[_ ->]]|]. exists (upd_spot L g rest). split_and!.
  - destruct Hw1 as [[-> ->]|[-> ->]]; [eexists c', _|exists c', k'];
      (split_and!; [done|simpl; rewrite ?lookup_insert_eq; done| | | |by eauto]).
    + intros p. rewrite Hsub. apply Hl.
    + rewrite Hself. rewrite El in Hn. by apply (slist_pop _ _ l).
    + by rewrite Hother.
    + intros p. rewrite Hsub. apply Hl.
    + by rewrite Hother.
    + rewrite Hself. rewrite El in Hg. by apply (slist_pop _ _ l).
  - intros a Ha. destruct (decide (a = g)) as [->|Hne]; [rewrite Hself in Ha; naive_solver|].
    rewrite Hother in Ha by done. apply Hne. eauto.
  - exists s. by destruct Hw1 as [[_ ->]|[_ ->]].
  - intros b. simpl. destruct (decide (b = g)) as [->|Hne]; [|by rewrite Hother].
    rewrite Hself, El. unfold without. by rewrite filter_cons_False by naive_solver.
  - intros x Hne. by destruct Hw1 as [[_ ->]|[_ ->]].
Qed.

(** The session at the head of a list to be picked up. *)
Lemma new_head w L g l rest :
  wf_lists w L → everyone pick_up_pass w → g = NewLocal ∨ g = NewGlobal → L g = l :: rest →
  ∃ s, w_sessions w !! l = Some s ∧ home_of s = ToPickUp ∧ tidy s ∧ new_session s.
Proof.
  intros [(c & k & _ & _ & _ & Hn & Hg & Hd) Ho] Hall Hgg El.
  assert (∃ s, w_sessions w !! l = Some s) as [s Hs].
  { destruct Hgg as [-> | ->]; [destruct Hn as (_ & _ & _ & Hs)|destruct Hg as (_ & _ & _ & Hs)];
      rewrite El in Hs; destruct Hs as [(s & ? & _) _]; eauto. }
  exists s. destruct (Ho l s Hs) as [Hloc Htd]. split_and!; [done| |done|by eapply Hall].
  assert (Hin : l ∈ L g) by (rewrite El; set_solver). unfold located in Hloc.
  destruct (home_of s); simpl in Hloc; [by destruct (Hloc g)| | |done];
    specialize (Hd _ _ _ Hin Hloc); destruct Hgg; by subst.
Qed.

Section PickUp.
Context (mco_is_end : ptr → bool) (call : ptr → loc → M unit) (buf : action) (m : ptr).

Ltac wp_started :=
  match goal with
  | H : holds ?F ?w ?l ?a ?s |- dealt_with pick_up_pass ?F ?l ?w =>
      exists s; split_and!;
      [ replace (spot_of s) with a; [exact H|]; unfold spot_of, home_of; known; reflexivity
      | unfold home_of; known; discriminate
      | unfold tidy, no_timeout; known; split; intros; first [discriminate | split; reflexivity]
      | split_and!; cbn; try assumption; unfold home_of; known; intros; discriminate
      | unfold p_end, pick_up_pass, started, home_of; known; by auto
      | unfold spot_of, home_of; known; intros [[]| |] E; discriminate ]
  end.

Lemma to_pick_up_labels s :
  home_of s = ToPickUp → new_session s →
  (s_session_type s = ESQ_SESSION_TYPE_SOCKET_CB ∧ s_lc s = SK_wait_for_cpu) ∨
  (s_session_type s = ESQ_SESSION_TYPE_MULTI_SOCKET_CB ∧ s_lc s = MU_wait_for_cpu).
Proof.
  intros Hh (_ & _ & Hhl). specialize (Hhl Hh). clear -Hh Hhl.
  unfold home_of, sk_home, mu_home, mc_home, hl_home in Hh.
  repeat match type of Hh with
  | context [?a =? ?b] => destruct (Z.eqb_spec a b); cbn in Hh
  end; try done; auto.
Qed.

Lemma machine_pick_up_ok F w l s :
  holds F w l None s → home_of s = ToPickUp → tidy s → new_session s → s_post_op s = POP_NO_OP →
  wp False (run_machine mco_is_end m l (with_type buf ACTION_PICK_UP))
    (fun _ w' => dealt_with pick_up_pass F l w' ∧
       ∃ s', (∃ a, holds F w' l a s') ∧ s_post_op s' = POP_NO_OP) w.
Proof.
  intros H Hh [Hmu _] Hnew Hop. pose proof Hnew as (H0 & H1 & _).
  destruct (to_pick_up_labels s Hh Hnew) as [[Ht Hlc]|[Ht Hlc]]; apply wp_bind;
    (apply (wp_get F _ l None s); [done..|]); rewrite Ht;
    cbn -[esq_pt_of_single_shot_socket esq_pt_of_multi_shot_socket dealt_with];
    [unfold esq_pt_of_single_shot_socket|unfold esq_pt_of_multi_shot_socket]; apply wp_bind;
    (apply (wp_get F _ l None s); [done..|]); rewrite Hlc;
    cbn -[sk_wait_for_cpu mu_wait_for_cpu dealt_with];
    unfold sk_wait_for_cpu, mu_wait_for_cpu, sk_install_fd, mu_install_fd; cbn -[dealt_with].
  2: destruct (Hmu Ht ltac:(rewrite Hlc; reflexivity)) as [Hts Htm].
  all: repeat wp_step; try (split; [wp_started|]); eauto.
Qed.

Lemma pick_up_ok F w l s :
  holds F w l None s → home_of s = ToPickUp → tidy s → new_session s →
  wp False (esq_session_pick_up mco_is_end call buf m (Some l))
    (fun _ => dealt_with pick_up_pass F l) w.
Proof.
  intros H Hh Htd Hn. pose proof Hn as (H0 & H1 & _).
  unfold esq_session_pick_up. apply (quiet_request_ok _ _ _ _ F w l None s); [done..|]. intros w1 Hw1.
  by apply (machine_pick_up_ok F w1 l (set_post_op POP_NO_OP s)).
Qed.


(** The shared list is emptied, in its order. *)
Lemma pick_up_global_ok ls fuel w L r :
  wf_lists w L → everyone pick_up_pass w → L NewGlobal = ls → (length ls < fuel)%nat →
  wp False (pick_up_global mco_is_end call buf fuel m r)
    (fun r' w' => r' = (match ls with [] => r | _ => 1 end) ∧
                  ∃ L', after pick_up_pass ls w w' L L') w.
Proof.
  revert w L r fuel. induction ls as [|l ls IH]; intros w L r fuel Hw Hall El Hf;
    (destruct fuel as [|fuel]; [simpl in Hf; lia|]); cbn [pick_up_global];
    pose proof Hw as [(c & k & Hc & Hk & _ & _ & (Hh & _) & _) _]; rewrite El in Hh;
    apply wp_bind, wp_reads; rewrite Hh; cbn [head].
  { apply wp_ret. split; [done|]. exists L. by apply after_refl. }
  destruct (new_head w L NewGlobal l ls Hw Hall (or_intror eq_refl) El) as (s & Hs & Hhm & Htd & Hn).
  apply wp_bind. unfold wp at 1. rewrite (get_Some _ _ s) by done.
  apply wp_bind. unfold wp at 1, modifies. apply wp_bind.
  eapply wp_mono; [eapply (pick_up_ok (frame_of w L l)); [|done..]|done|].
  { by eapply (pop_new_ok NewGlobal); eauto. }
  intros [] w1 Hd. destruct (after_one _ _ _ _ _ Hw Hall Hd) as (L1 & A1).
  assert (El1 : L1 NewGlobal = ls).
  { rewrite (after_left _ _ _ _ _ _ NewGlobal A1 eq_refl), El, <- without_kept.
    apply (without_middle l [] ls). destruct (rep_members w L NewGlobal (proj1 Hw)) as [Hnd _].
    rewrite El in Hnd. by apply NoDup_cons in Hnd as [? _]. }
  eapply wp_mono; [apply (IH w1 L1 1 fuel); [apply A1|apply A1|done|simpl in Hf; lia]|done|].
  intros r' w2 (Hr & L2 & A2). split; [rewrite Hr; by destruct ls|]. exists L2.
  change (after pick_up_pass ([l] ++ ls) w w2 L L2). by eapply after_trans.
Qed.
End PickUp.

(** Picking up from the worker's own list, in a world where everyone is in place and
    no new session wants a hash lock: nothing happens if the list is empty, and otherwise
    exactly its first session is taken out, installed with the kernel and linked into the
    active list or the list of its timeout, and no other session is touched. *)
Theorem esq_worker_pick_up_from_local_list_correct mco_is_end call buf m c w L :
  wf_lists w L → everyone pick_up_pass w → w_self w = Some c →
  match L NewLocal with
  | [] => esq_worker_pick_up_from_local_list mco_is_end call buf m c w = Ret (0, w)
  | l :: _ =>
      ∃ w' L', esq_worker_pick_up_from_local_list mco_is_end call buf m c w = Ret (1, w') ∧
               after pick_up_pass [l] w w' L L'
  end.
Proof.
  intros Hw Hall Hc. pose proof Hw as [(c' & k & Hc' & Hk & _ & (Hh & _) & _) _].
  assert (c' = c) as -> by congruence. unfold esq_worker_pick_up_from_local_list.
  destruct (L NewLocal) as [|l rest] eqn:El.
  - erewrite M_bind_Ret by (unfold ctx_get; by rewrite Hk). by rewrite Hh.
  - enough (Hwp : wp False (esq_worker_pick_up_from_local_list mco_is_end call buf m c)
      (fun r w' => r = 1 ∧ ∃ L', after pick_up_pass [l] w w' L L') w).
    { apply wp_returns in Hwp as (r & w' & E & -> & L' & A). by exists w', L'. }
    destruct (new_head w L NewLocal l rest Hw Hall (or_introl eq_refl) El) as (s & Hs & Hhm & Htd & Hn).
    apply wp_bind. unfold wp at 1, ctx_get. rewrite Hk, Hh. cbn [head].
    apply wp_bind. unfold wp at 1. rewrite (get_Some _ _ s) by done.
    apply wp_bind. unfold wp at 1, ctx_put, modifies. apply wp_bind.
    eapply wp_mono; [eapply (pick_up_ok _ _ _ _ (frame_of w L l)); [|done..]|done|].
    { by eapply (pop_new_ok NewLocal); eauto. }
    intros [] w' Hd. apply wp_ret. split; [done|]. by apply after_one.
Qed.

(** Picking up from the list shared by the workers empties it: every session in it is
    taken, in order, installed with the kernel and linked into this worker's active list
    or the list of its timeout; the rest is not touched, and the result says whether
    there was any. *)
Theorem esq_worker_pick_up_from_global_list_correct mco_is_end call buf m w L :
  wf_lists w L → everyone pick_up_pass w →
  ∃ w' L', esq_worker_pick_up_from_global_list mco_is_end call buf m w
           = Ret (match L NewGlobal with [] => 0 | _ => 1 end, w') ∧
    after pick_up_pass (L NewGlobal) w w' L L' ∧ L' NewGlobal = [].
Proof.
  intros Hw Hall.
  assert (H : wp False (esq_worker_pick_up_from_global_list mco_is_end call buf m)
    (fun r w' => r = (match L NewGlobal with [] => 0 | _ => 1 end) ∧
                 ∃ L', after pick_up_pass (L NewGlobal) w w' L L') w).
  { apply wp_bind, wp_reads. apply pick_up_global_ok; [done..|]. by apply list_fuel, Hw. }
  apply wp_returns in H as (r & w' & E & -> & L' & A). exists w', L'. split_and!; [done..|].
  rewrite (after_left _ _ _ _ _ _ NewGlobal A eq_refl).
  apply elem_of_nil_inv. intros x. rewrite elem_of_kept. tauto.
Qed.

(** ** The next session to run *)

Definition magic_ok (s : session) : Prop :=
  s_magic0 s = ESQ_SESSION_MAGIC ∧ s_magic1 s = ESQ_SESSION_MAGIC.

(** At the label where the callback or the coroutine is run. *)
Definition running (s : session) : Prop :=
  (s_session_type s = ESQ_SESSION_TYPE_SOCKET_CB ∧ s_lc s = SK_execute_cb) ∨
  (s_session_type s = ESQ_SESSION_TYPE_MULTI_SOCKET_CB ∧ s_lc s = MU_execute_cb) ∨
  (s_session_type s = ESQ_SESSION_TYPE_MCO ∧ s_lc s = MC_execute_cb) ∨
  (s_session_type s = ESQ_SESSION_TYPE_WAIT_FOR_HASH_LOCK ∧ s_lc s = HL_execute_cb).

Lemma magic_ok_ext s s' : core s = core s' → magic_ok s → magic_ok s'.
Proof. intros E Hs. change (magic_ok (core s')). by rewrite <- E. Qed.

Lemma running_ext s s' : core s = core s' → running s → running s'.
Proof. intros E Hs. change (running (core s')). by rewrite <- E. Qed.

Definition run_pass : pass := Pass magic_ok running (fun _ => true) magic_ok_ext running_ext.

Ltac wp_running :=
  match goal with
  | H : holds ?F ?w ?l ?a ?s |- dealt_with run_pass ?F ?l ?w =>
      exists s; split_and!;
      [ replace (spot_of s) with a; [exact H|]; unfold spot_of, home_of; known; reflexivity
      | unfold home_of; known; discriminate
      | unfold tidy, no_timeout; known; split; intros; first [discriminate | split; reflexivity]
      | split; cbn; assumption
      | unfold p_end, run_pass, running; known; by auto
      | unfold spot_of, home_of; known; intros [[]| |] E; discriminate ]
  end.

Lemma active_labels s :
  home_of s = Active →
  (s_session_type s = ESQ_SESSION_TYPE_SOCKET_CB ∧ s_lc s = SK_active) ∨
  (s_session_type s = ESQ_SESSION_TYPE_MULTI_SOCKET_CB ∧ s_lc s = MU_active) ∨
  (s_session_type s = ESQ_SESSION_TYPE_MCO ∧ s_lc s = MC_active) ∨
  (s_session_type s = ESQ_SESSION_TYPE_WAIT_FOR_HASH_LOCK ∧ s_lc s = HL_active).
Proof.
  unfold home_of, sk_home, mu_home, mc_home, hl_home. intros Hh.
  repeat match type of Hh with
  | context [?a =? ?b] => destruct (Z.eqb_spec a b); cbn in Hh
  end; try done; auto 10.
Qed.

Lemma machine_execute_ok mco_is_end buf m F w l s :
  holds F w l (Some (At list_of_active)) s → home_of s = Active → tidy s → magic_ok s →
  wp False (run_machine mco_is_end m l (with_type buf ACTION_EXECUTE_CB))
    (fun _ w' => dealt_with run_pass F l w' ∧
       ∃ s', (∃ a, holds F w' l a s') ∧ s_post_op s' = POP_RETURN_VALUE ∧ s_r s' = ESQ_OK) w.
Proof.
  intros H Hh [Hmu _] [H0 H1]. apply wp_bind.
  apply (wp_get F _ l (Some (At list_of_active)) s); [done..|].
  destruct (active_labels s Hh) as [[Ht Hlc]|[[Ht Hlc]|[[Ht Hlc]|[Ht Hlc]]]]; rewrite Ht;
    cbn -[esq_pt_of_single_shot_socket esq_pt_of_multi_shot_socket esq_pt_of_mco
          esq_pt_of_hash_lock dealt_with];
    [unfold esq_pt_of_single_shot_socket|unfold esq_pt_of_multi_shot_socket
    |unfold esq_pt_of_mco|unfold esq_pt_of_hash_lock]; apply wp_bind;
    (apply (wp_get F _ l (Some (At list_of_active)) s); [done..|]); rewrite Hlc;
    cbn -[sk_active mu_active mc_active hl_active dealt_with];
    unfold sk_active, mu_active, mc_active, hl_active; cbn -[dealt_with].
  2: destruct (Hmu Ht ltac:(rewrite Hlc; reflexivity)) as [Hts Htm].
  all: repeat wp_step; try (split; [wp_running|]); eauto 10.
Qed.

Lemma execute_ok mco_is_end call buf m F w l s :
  holds F w l (Some (At list_of_active)) s → home_of s = Active → tidy s → magic_ok s →
  wp False (esq_session_take_action mco_is_end call buf m (Some l) (with_type buf ACTION_EXECUTE_CB))
    (fun r w' => r = 0 ∧ dealt_with run_pass F l w') w.
Proof.
  intros H Hh Htd Hm. unfold esq_session_take_action. cbn [take_action]. apply wp_bind.
  apply (wp_valid F _ _ _ (Some (At list_of_active)) s); [done|apply Hm|apply Hm|]. cbn [negb].
  apply wp_bind. apply (wp_set F _ l (Some (At list_of_active)) s); [done..|]. intros w1 Hw1.
  apply wp_bind. eapply wp_mono;
    [apply (machine_execute_ok mco_is_end buf m F w1 l (set_post_op POP_NO_OP s)); done|done|].
  intros [] w2 (Hto & s' & (a' & Hs') & Hop & Hres).
  apply wp_bind, (wp_get F _ l a' s'); [done..|]. rewrite Hop. cbn.
  apply (wp_get F _ l a' s'); [done..|]. by rewrite Hres.
Qed.

(** The first session of the active list is the one that is run next: it is taken out
    of the list, is in no list while it runs, and stands at the label of its machine that
    runs the callback or coroutine; the sessions behind it keep their order.  With
    nobody active, nothing happens. *)
Theorem esq_session_pop_the_first_active_correct mco_is_end call buf m c w L :
  wf_lists w L → everyone run_pass w → w_self w = Some c →
  match L (At list_of_active) with
  | [] => esq_session_pop_the_first_active mco_is_end call buf m c w = Ret (None, w)
  | l :: rest =>
      ∃ w' L', esq_session_pop_the_first_active mco_is_end call buf m c w = Ret (Some l, w') ∧
        after run_pass [l] w w' L L' ∧ L' (At list_of_active) = rest
  end.
Proof.
  intros Hw Hall Hc. pose proof Hw as [Hr Ho].
  pose proof Hr as (c' & k & Hc' & Hk & Hl & _). assert (c' = c) as -> by congruence.
  specialize (Hl list_of_active). destruct (Hl) as (Hh & _).
  destruct (L (At list_of_active)) as [|l rest] eqn:El.
  { unfold esq_session_pop_the_first_active.
    erewrite M_bind_Ret by (unfold ctx_get; by rewrite Hk).
    erewrite M_bind_Ret by done. by rewrite Hh. }
  enough (Hwp : wp False (esq_session_pop_the_first_active mco_is_end call buf m c)
    (fun r w' => r = Some l ∧ ∃ L', after run_pass [l] w w' L L') w).
  { apply wp_returns in Hwp as (r & w' & E & -> & L' & A). exists w', L'. split_and!; [done..|].
    rewrite (after_left _ _ _ _ _ _ (At list_of_active) A eq_refl), El, <- without_kept.
    apply (without_middle l [] rest). apply (dlist_rep_ends _ [] l rest) in Hl. apply Hl. }
  apply (dlist_rep_ends _ [] l rest) in Hl as (_ & _ & _ & Hx & (s & Hs & _) & _).
  assert (Hsp : spot_of s = Some (At list_of_active))
    by (eapply spot_unique; [done..|]; rewrite El; set_solver).
  assert (Hact : home_of s = Active).
  { unfold spot_of, timing_spot, timing_list in Hsp. destruct (home_of s); try done.
    repeat case_match; done. }
  assert (Hheld : holds (frame_of w L l) w l (Some (At list_of_active)) s)
    by (rewrite <- Hsp; apply wf_holds; [done|done|by rewrite Hact]).
  destruct (Hall l s Hs) as [H0 H1].
  apply wp_bind. unfold wp at 1, ctx_get. rewrite Hk. apply wp_bind, wp_reads.
  rewrite Hh. cbn [pop_active session_fuel head]. apply wp_bind.
  eapply wp_mono; [apply (execute_ok mco_is_end call buf m (frame_of w L l) w l s); [done..|by eapply Ho|done]|done|].
  intros r w' [-> Hd]. cbn. split; [done|]. by apply after_one.
Qed.

(** ** Worlds to try the worker in *)

(** One session to be picked up, in the worker's own list or in the shared one. *)
Definition queued_session : session := demo_at ESQ_SESSION_TYPE_SOCKET_CB SK_wait_for_cpu.

Definition queued_world (global : bool) : world :=
  let q := DList (Some 5%positive) (Some 5%positive) in
  World {[5%positive := queued_session]} ∅ []
    {[1%positive := if global then demo_ctx else set_new q demo_ctx]} (Some 1%positive)
    (if global then q else dlist_empty) (Some (100, 0)) false [].

Definition queued_lists (global : bool) (a : spot) : list loc :=
  match a, global with
  | NewLocal, false | NewGlobal, true => [5%positive]
  | _, _ => []
  end.

Lemma queued_wf g : wf_lists (queued_world g) (queued_lists g).
Proof.
  assert (Hone : ∀ h q, h !! 5%positive = Some queued_session →
    q = DList (Some 5%positive) (Some 5%positive) → slist_rep h q [5%positive]).
  { intros h q Hh ->. split_and!; [done|done|apply NoDup_singleton|]. split; [|done].
    by exists queued_session. }
  assert (Hnil : ∀ h, slist_rep h dlist_empty []) by (intros h; split_and!; try done; constructor).
  split.
  - eexists 1%positive, _. simpl. split_and!; [done|by rewrite lookup_singleton_eq| | | |].
    + intros p. destruct g; apply dlist_rep_empty.
    + destruct g; simpl; [apply Hnil|]. by apply Hone; [rewrite lookup_singleton_eq|].
    + destruct g; simpl; [|apply Hnil]. by apply Hone; [rewrite lookup_singleton_eq|].
    + intros [?| |] [?| |] x; destruct g; simpl; try done; by intros ?%not_elem_of_nil || intros _ ?%not_elem_of_nil.
  - intros x s Hx. simpl in Hx. apply lookup_singleton_Some in Hx as [<- <-]. split.
    + change (at_ (queued_lists g) 5 (Some NewLocal) ∨ at_ (queued_lists g) 5 (Some NewGlobal)).
      destruct g; [right|left]; by left.
    + by split; intros; try discriminate.
Qed.

Lemma queued_everyone g : everyone pick_up_pass (queued_world g).
Proof.
  intros x s Hx. simpl in Hx. apply lookup_singleton_Some in Hx as [_ <-]. split_and!; [done..|].
  intros _. discriminate.
Qed.

Lemma esq_worker_pick_up_from_local_list_correct_witness :
  ∃ w' L', esq_worker_pick_up_from_local_list (fun _ => false) (fun _ _ => m_fault)
             (demo_action ACTION_NO) None 1 (queued_world false) = Ret (1, w') ∧
           after pick_up_pass [5%positive] (queued_world false) w' (queued_lists false) L'.
Proof.
  exact (esq_worker_pick_up_from_local_list_correct (fun _ => false) (fun _ _ => m_fault)
           (demo_action ACTION_NO) None 1 (queued_world false) (queued_lists false)
           (queued_wf false) (queued_everyone false) eq_refl).
Defined.

Lemma esq_worker_pick_up_from_global_list_correct_witness :
  ∃ w' L', esq_worker_pick_up_from_global_list (fun _ => false) (fun _ _ => m_fault)
             (demo_action ACTION_NO) None (queued_world true) = Ret (1, w') ∧
           after pick_up_pass [5%positive] (queued_world true) w' (queued_lists true) L' ∧
           L' NewGlobal = [].
Proof.
  exact (esq_worker_pick_up_from_global_list_correct (fun _ => false) (fun _ _ => m_fault)
           (demo_action ACTION_NO) None (queued_world true) (queued_lists true)
           (queued_wf true) (queued_everyone true)).
Defined.

Lemma esq_session_pop_the_first_active_correct_witness :
  let s := demo_at ESQ_SESSION_TYPE_SOCKET_CB SK_active in
  let w := solo_world 5 s (Some list_of_active) in
  let L := solo_lists 5 (Some list_of_active) in
  ∃ w' L', esq_session_pop_the_first_active (fun _ => false) (fun _ _ => m_fault)
             (demo_action ACTION_NO) None 1 w = Ret (Some 5%positive, w') ∧
           after run_pass [5%positive] w w' L L' ∧ L' (At list_of_active) = [].
Proof.
  intros s w L.
  refine (esq_session_pop_the_first_active_correct (fun _ => false) (fun _ _ => m_fault)
           (demo_action ACTION_NO) None 1 w L _ _ eq_refl).
  - apply solo_wf; [reflexivity|reflexivity|discriminate|reflexivity|].
    by split; intros; try discriminate.
  - intros x s' Hx. simpl in Hx. apply lookup_singleton_Some in Hx as [_ <-]. by split.
Defined.
